(* ===== verification/_CoqProject ===== *)
-Q . S2P
Prelude.v
Ring.v
Lock.v
Mq.v
MqInt.v
Sched.v
Timer.v
Handle.v
Bytes.v
Buffer.v
Des.v
Crypt.v
Sha1.v
Netpack.v
Links.v
HashId.v
DataBuffer.v
CStr.v
Gate.v
Server.v
UbossModule.v
ServerLife.v
ServerThreads.v
ServerSafe.v
ServerSend.v
Lua.v
Seri.v
SeriRoundtrip.v
SeriTotal.v
SocketServer.v
SendQueue.v
SocketIds.v
SocketSend.v
SprotoPack.v
Sproto.v
SprotoSchema.v
SprotoFormat.v
SprotoEncode.v
SprotoDecode.v
Bson.v
BsonEncode.v
BsonRoundtrip.v
BsonSafe.v
BsonIndex.v
Harbor.v
HarborQueue.v
HarborWire.v
HarborSend.v
HarborNames.v
Cluster.v
ClusterRoundtrip.v
Stm.v
StmSafe.v
StmReads.v
Sharedata.v
SharedataConv.v
SharedataRead.v
LuaSocket.v
LuaSocketStream.v
LuaSocketVm.v
Start.v
StartLive.v
Command.v
CommandNames.v
CommandSafe.v
Mongo.v
MongoWire.v
UbossSocket.v
LuaSocketCalls.v
MysqlAux.v
Multicast.v
