(* ===== verification/Prelude.v ===== *)
(** * Verification of uBoss

    uBoss is a framework of services that send each other messages, written in C with Lua
    on top.  A service is a context (core/uboss_server.c) with a handle in a registry
    (core/uboss_handle.c) and a message queue (core/uboss_mq.c); worker threads take the
    queues from a global queue and call the services' callbacks; a timer thread
    (core/uboss_timer.c) sends messages when they are due.  Services are modules (such as
    module/gate) or Lua programs, which use the libraries under lib/.

    ** Style

    The C code is translated function by function, under its own names, into functions on
    records: a [struct] is a [Record], an [int] or [uint32_t] a [Z] with its wrap-around
    written out ([s32], [u32] below), an array a list with checked accesses, a heap object
    an entry of a finite map.  A failed assertion, an access outside an object or a use of
    uninitialised memory makes the result [None] ([Ub] in the functions called from Lua),
    so that a theorem that an operation returns [Some] is a theorem of memory safety.
    Threads are step relations whose steps are the critical sections or the atomic
    accesses of the C code.  Loops that are not structural take fuel; the fuel is fixed in
    the definition and a theorem shows that it is enough, or the result is [None].

    ** Files

    - [Prelude]: integers, arrays, assertions, the lemmas and tactics all files share.
      [Bytes]: byte strings, words, the results of functions called from Lua.  [CStr]: the
      functions of the C library on strings that the code calls.  [Links]: chains of
      indices in an array.
    - [Lock] (core/uboss_lock.h): the spinlock and the read-write lock as threads that
      access the two words.  Mutual exclusion, and that some thread can always get on.
    - [Ring], [Mq] (core/uboss_mq.c): the ring buffer of a queue, its growth, the overload
      threshold and the global queue.  A queue is a FIFO ([mq_refines_fifo]), and so is
      the global queue.  [MqInt]: the functions on one queue with their [int]s checked; they
      do what those of [Mq] do until a queue is to hold 2^30 messages.
    - [Sched]: the queues under any number of senders and workers, as steps.  No wakeup is
      lost, no queue is scheduled twice, no assertion fails.
    - [Timer] (core/uboss_timer.c): the wheels.  They refine a multiset of due times
      ([timer_refines_spec]); every event fires exactly when it is due, across the
      wrap-around of the clock.
    - [Handle] (core/uboss_handle.c): the table of handles and the sorted table of names.
      Registration is fresh, retirement exact, the names are a finite map; the two defects
      ([register_can_return_zero], [register_rehash_race]) are theorems.
    - [Server] (core/uboss_server.c, uboss_harbor.c, uboss_error.c, uboss_monitor.c): the
      definitions.  [ServerLife]: the invariant of references, registration, retirement and
      deletion of contexts, with a creation as one step.  [ServerThreads]: every interleaving,
      with a creation in its four steps; reference counts are exact, and the life cycle
      drives the queues through runs of [Sched]; the two races of a creation are told.
      [ServerSend]: what [uboss_send] does on every branch.
    - [SocketServer] (core/socket_server.c): the definitions of the socket thread and of
      the operations of the other threads on it.  [SendQueue]: the queue of packets that a
      socket promises to send.  [SocketSend]: TCP sending refines that queue; the aborting
      assertion and the lost direct write.  [SocketIds]: [reserve_id].
    - [Start], [StartLive] (core/uboss_start.c): the threads of the process, as steps with
      the mutex and the condition variable.  Sleeping workers are woken, the last wakeup
      is not lost; the threads end when the services have, but not the license thread.
    - [Command], [CommandNames], [CommandSafe] (core/uboss_command.c, uboss_env.c and two
      functions of uboss_log.c): the text commands of services over [Server] and [Timer].
      Names and handles as texts, and exactly which calls are answered, safely.
    - [UbossModule] (core/uboss_module.c): the table of modules, the search of the path and
      the look for a module with and without the lock.
    - [ServerSafe]: the operations of [Server] that others use keep the node well-formed.
    - [UbossSocket] (core/uboss_socket.c and the loop of socket_server_poll): what happens
      on the sockets reaches the services, over [SocketServer] and [Server].
    - [LuaSocket], [LuaSocketStream], [LuaSocketVm] (lib/socket/lua-socket.c): the buffers
      of a socket in Lua.  Over all operations they are a stream of bytes.
      [LuaSocketCalls]: addresses, and what a service sends, over [UbossSocket].
    - [Des], [Sha1], [Crypt] (lib/crypt): DES, SHA-1 and the other functions of the
      library, against reference definitions and as round trips; the wrong length field of
      SHA-1 after a piece of 512 MB.
    - [Netpack] (lib/netpack): the splitting of a byte stream into packages.
    - [HashId], [DataBuffer], [Gate] (module/gate): the table of connections, their
      buffers and the handlers of the gate.  However the bytes arrive, the frames are
      forwarded whole and in order; every handler is safe, but for an accept of a listening
      socket that the gate has closed.
    - [Harbor] (module/harbor): the queues, the table of names and the handlers of the
      service that carries messages between nodes, with the heap of message blocks.
      [HarborQueue]: the queues are FIFOs.  [HarborWire], [HarborSend]: messages to a node
      arrive at their services in the order in which they were sent, however the connection
      is made and cuts the bytes, and no block is lost.  [HarborNames]: the table of names
      is a finite map, messages to a name wait for it; two faults.
    - [Sharedata], [SharedataConv], [SharedataRead] (lib/sharedata): Lua tables as C
      structures with a chained hash that all services read; what they read is the table,
      up to the 32 bits of an integer key, if its strings are not too many for a Lua stack.
    - [Stm], [StmSafe], [StmReads] (lib/stm): a message that one service updates and others
      read, as steps that include the accesses of [Lock].  The counters are exact, nothing
      that is freed is used but for one unlock ([stm_runlock_freed]), a reader sees every
      update.
    - [Cluster], [ClusterRoundtrip] (lib/cluster): the packages between the nodes of a
      cluster; what one node packs the other unpacks, long messages part by part.
    - [Buffer], [SprotoPack] (lib/sproto/sproto.c): what a buffer holds, and the packing of
      zeros, against a reference encoding, with its two reads behind the source.
      [Sproto], [SprotoSchema]: schemas, encoding and decoding of structs; an accepted
      schema is well-formed and its fields are found.  [SprotoFormat], [SprotoEncode],
      [SprotoDecode]: the reference encoding, and the round trip of structs; the write of
      integers behind the buffer.
    - [Lua]: the values and tables that the libraries below get from Lua.
    - [Seri] (lib/uboss/lua-seri.c): packing Lua values; [SeriRoundtrip] and [SeriTotal]:
      the round trip, and that reading arbitrary bytes is safe and gives well-formed
      values.
    - [Bson] (lib/bson/lua-bson.c): documents from and to Lua tables.  [BsonEncode],
      [BsonRoundtrip]: the growing buffer holds the reference encoding, and decoding gives
      the table back; what is outside the round trip.  [BsonSafe]: decoding arbitrary bytes
      ends, and what is undefined in it: a first word that exceeds the block, a nested length
      that leads before it, a key that is the largest [long].  [BsonIndex]: replacing fields
      of a document in place.
    - [Mongo], [MongoWire] (lib/mongo): the messages of the protocol.  Requests are their
      reference encoding, replies are read as what they were made of; the loop over the
      documents of a reply that need not end ([reply_zero_length]).
    - [MysqlAux] (lib/mysqlaux): a quoted string is one literal of MySQL.
    - [Multicast] (lib/multicast): the packages that all subscribers of a channel share, as
      steps of the services on one heap; each is freed once, by the last subscriber, but
      the block with its pointer never is.

    ** Theorems

    The comment of each main theorem starts with its number.  The first group is the core:
    the queues and their scheduling, the contexts, sending, the timer, handles and locks;
    then sockets, the gate and the formats; then the cryptographic functions; then single
    components of these.  A theorem with hypotheses is followed, in its file, by a
    [_witness] that applies it to a concrete state.

    ** Bounds

    Fuel is a bound that the code has anyway: the number of slots of a table, of nodes of
    an array or a chain, of bytes that are left, of levels ([MAX_DEPTH]), or the two
    rounds of the registration.  Sizes stay below the widths of their C types where a
    theorem says so; the overflows that do occur are modelled ([SHA1] counters, sessions,
    message counts, four-byte lengths).  The capacity of a message queue is an [int] that
    doubles: [MqInt] has it at its width, the files over [Mq] have it without, and the two
    agree up to 2^30 - 1 messages in a queue ([message_queue_is_fifo]).  In the same way the
    files over [HarborQueue] hold for queues of less than 2^30 messages ([push_int]).

    ** Not modelled

    In the socket thread the lookup of names and the creation of listening sockets, and
    that sp_wait is interrupted; the initialisation of the process before its threads
    start, the allocator's statistics, what is written to log files; the services logger,
    monitor and luavm; the other libraries under lib/, and of sharedata the deletion; the
    vendored code under 3rd/ (Lua, jemalloc), lib/lpeg and lib/md5.  The parts that the
    modelled code calls are parameters of the definitions: the functions of the modules,
    the dynamic linker, the border of a Lua table, the kernel's answers to the socket
    thread.  [Server] has the look for a module as a parameter of its own.  Weak
    memory is not modelled: an atomic access is one step and the critical sections of a
    lock do not overlap, which [Lock] proves of the locks themselves. *)
From stdpp Require Export prelude list fin_maps gmap.
From Stdlib Require Export ZArith Lia.
#[export] Set Default Proof Using "Type".
#[export] Set Warnings "-clear-no-such-hyp".
Open Scope Z_scope.

(** ** Fixed-width integers

    A C integer is a [Z].  [u32]/[u64] are the conversions to the unsigned
    types (reduction modulo the width), [s32] the two's-complement conversion
    to [int]. *)
Definition u8 (z : Z) : Z := z mod 2 ^ 8.
Definition u16 (z : Z) : Z := z mod 2 ^ 16.
Definition u32 (z : Z) : Z := z mod 2 ^ 32.
Definition u64 (z : Z) : Z := z mod 2 ^ 64.
Definition s32 (z : Z) : Z := (z + 2 ^ 31) mod 2 ^ 32 - 2 ^ 31.
Definition s64 (z : Z) : Z := (z + 2 ^ 63) mod 2 ^ 64 - 2 ^ 63.

Definition is_u8 (z : Z) : Prop := 0 <= z < 2 ^ 8.
Definition is_u32 (z : Z) : Prop := 0 <= z < 2 ^ 32.
Definition is_s32 (z : Z) : Prop := - 2 ^ 31 <= z < 2 ^ 31.

#[export] Instance is_u8_dec z : Decision (is_u8 z).
Proof. unfold is_u8; apply _. Defined.
#[export] Instance is_u32_dec z : Decision (is_u32 z).
Proof. unfold is_u32; apply _. Defined.
#[export] Instance is_s32_dec z : Decision (is_s32 z).
Proof. unfold is_s32; apply _. Defined.

(** [cassert b]: the C [assert]; a failed assertion aborts the process, which
    the models represent by [None]. *)
Definition cassert (b : bool) : option unit := if b then Some () else None.

(** ** Arrays with integer indices

    [aget l i] reads and [aset l i x] writes the [i]-th cell.  An index out of
    range is undefined behaviour in C: both return [None] there, so that a
    proof that an operation returns [Some] is a proof of memory safety. *)
Section arrays.
Context {A : Type}.
Implicit Types l : list A.

Definition zlen l : Z := Z.of_nat (length l).
Definition aget l (i : Z) : option A :=
  if decide (0 <= i) then l !! Z.to_nat i else None.
Definition aset l (i : Z) (x : A) : option (list A) :=
  if decide (0 <= i < zlen l) then Some (<[Z.to_nat i := x]> l) else None.
End arrays.

Declare Scope uboss_scope.
Delimit Scope uboss_scope with uboss.
Open Scope uboss_scope.
Notation "l .[ i ]" := (aget l i)
  (at level 1, left associativity, format "l .[ i ]") : uboss_scope.
Notation "l .[ i := x ]" := (aset l i x)
  (at level 1, left associativity, format "l .[ i  :=  x ]") : uboss_scope.

(** [zdec]: split every boolean integer comparison of the goal and the
    hypotheses into its two cases. *)
Ltac zdec :=
  repeat match goal with
  | |- context [Z.eqb ?a ?b] => destruct (Z.eqb_spec a b)
  | |- context [Z.ltb ?a ?b] => destruct (Z.ltb_spec a b)
  | |- context [Z.leb ?a ?b] => destruct (Z.leb_spec a b)
  | H : context [Z.eqb ?a ?b] |- _ => destruct (Z.eqb_spec a b)
  | H : context [Z.ltb ?a ?b] |- _ => destruct (Z.ltb_spec a b)
  | H : context [Z.leb ?a ?b] |- _ => destruct (Z.leb_spec a b)
  end.

(** [inv_opt]: invert the successful binds of an option computation. *)
Ltac inv_opt :=
  repeat match goal with
  | H : _ ≫= _ = Some _ |- _ =>
      apply bind_Some in H as (? & ? & H)
  | H : cassert ?b = Some _ |- _ =>
      unfold cassert in H; destruct b eqn:?; [clear H | discriminate H]
  | H : mret _ = Some _ |- _ => injection H as H
  | H : Some _ = Some _ |- _ => injection H as H
  end; simplify_eq.

Section array_lemmas.
Context {A : Type}.
Implicit Types (l k : list A) (x y : A).

Lemma zlen_nonneg l : 0 <= zlen l.
Proof. unfold zlen; lia. Qed.

Lemma zlen_app l k : zlen (l ++ k) = zlen l + zlen k.
Proof. unfold zlen; rewrite length_app; lia. Qed.

Lemma zlen_cons x l : zlen (x :: l) = 1 + zlen l.
Proof. unfold zlen; simpl; lia. Qed.

Lemma zlen_snoc l x : zlen (l ++ [x]) = zlen l + 1.
Proof. rewrite zlen_app, zlen_cons. unfold zlen. simpl. lia. Qed.

Lemma zlen_nil_inv l : zlen l = 0 -> l = [].
Proof. destruct l; unfold zlen; simpl; [done | lia]. Qed.

Lemma zlen_drop l n : 0 <= n <= zlen l -> zlen (drop (Z.to_nat n) l) = zlen l - n.
Proof. unfold zlen. intros. rewrite length_drop. lia. Qed.

Lemma zlen_take l n : 0 <= n <= zlen l -> zlen (take (Z.to_nat n) l) = n.
Proof. unfold zlen. intros. rewrite length_take. lia. Qed.

Lemma mjoin_cons l (ls : list (list A)) : mjoin (l :: ls) = l ++ mjoin ls.
Proof. done. Qed.

Lemma zlen_replicate n x : zlen (replicate n x) = Z.of_nat n.
Proof. unfold zlen; by rewrite length_replicate. Qed.

Lemma aget_nat l (i : nat) : l.[Z.of_nat i] = l !! i.
Proof. unfold aget. rewrite decide_True by lia. by rewrite Nat2Z.id. Qed.

Lemma aget_lt_Some l i x : l.[i] = Some x -> 0 <= i < zlen l.
Proof.
  unfold aget, zlen. case_decide; [|done].
  intros Hl%lookup_lt_Some. lia.
Qed.

Lemma aget_is_Some l i : 0 <= i < zlen l -> exists x, l.[i] = Some x.
Proof.
  unfold aget, zlen; intros. rewrite decide_True by lia.
  apply lookup_lt_is_Some. lia.
Qed.

Lemma aget_None l i : ~ (0 <= i < zlen l) -> l.[i] = None.
Proof.
  unfold aget, zlen; intros. case_decide; [|done].
  apply lookup_ge_None. lia.
Qed.

Lemma aset_Some l i x : 0 <= i < zlen l ->
  l.[i := x] = Some (<[Z.to_nat i := x]> l).
Proof. intros. unfold aset. by rewrite decide_True. Qed.

Lemma aset_inv l i x l' : l.[i := x] = Some l' ->
  0 <= i < zlen l /\ l' = <[Z.to_nat i := x]> l.
Proof. unfold aset. case_decide; [|done]. by intros [= <-]. Qed.

Lemma zlen_insert l (i : nat) x : zlen (<[i := x]> l) = zlen l.
Proof. unfold zlen; by rewrite length_insert. Qed.

Lemma zlen_aset l i x l' : l.[i := x] = Some l' -> zlen l' = zlen l.
Proof. intros [_ ->]%aset_inv. apply zlen_insert. Qed.

Lemma aget_insert l i j x : 0 <= i < zlen l -> 0 <= j ->
  (<[Z.to_nat i := x]> l).[j] = if decide (i = j) then Some x else l.[j].
Proof.
  unfold aget, zlen; intros. rewrite !(decide_True (P := 0 <= j)) by done.
  case_decide; subst.
  - apply list_lookup_insert_eq. lia.
  - apply list_lookup_insert_ne. lia.
Qed.

Lemma aget_aset l i j x l' : l.[i := x] = Some l' ->
  l'.[j] = if decide (i = j) then Some x else l.[j].
Proof.
  intros [Hi ->]%aset_inv. destruct (decide (0 <= j)).
  - by apply aget_insert.
  - rewrite !aget_None by lia. by rewrite decide_False by lia.
Qed.

Lemma aget_app_l l k i : i < zlen l -> (l ++ k).[i] = l.[i].
Proof.
  unfold aget, zlen; intros. case_decide; [|done].
  apply lookup_app_l. lia.
Qed.

Lemma aget_app_r l k i : zlen l <= i -> (l ++ k).[i] = k.[i - zlen l].
Proof.
  unfold aget, zlen; intros. rewrite !decide_True by lia.
  rewrite lookup_app_r by lia. f_equal. lia.
Qed.

Lemma aget_app_eq l x k i : i = zlen l -> (l ++ x :: k).[i] = Some x.
Proof. intros ->. rewrite aget_app_r, Z.sub_diag by lia. done. Qed.

Lemma aget_cons_0 x l : (x :: l).[0] = Some x.
Proof. done. Qed.

Lemma aget_cons_S x l i : 0 < i -> (x :: l).[i] = l.[i - 1].
Proof.
  intros. unfold aget. rewrite !decide_True by lia.
  replace (Z.to_nat i) with (S (Z.to_nat (i - 1))) by lia. done.
Qed.

Lemma aget_replicate n x i : 0 <= i < Z.of_nat n ->
  (replicate n x).[i] = Some x.
Proof.
  intros. unfold aget. rewrite decide_True by lia.
  apply lookup_replicate. split; [done | lia].
Qed.

(** Two arrays with the same cells are equal. *)
Lemma array_eq l k :
  zlen l = zlen k -> (forall i, 0 <= i < zlen l -> l.[i] = k.[i]) -> l = k.
Proof.
  intros Hlen Hget. apply list_eq; intros i.
  destruct (decide (i < length l)%nat) as [Hi|Hi].
  - rewrite <-!aget_nat. apply Hget. unfold zlen; lia.
  - unfold zlen in Hlen. rewrite !lookup_ge_None_2; [done | lia | lia].
Qed.
End array_lemmas.

(** ** Filters *)
Section filters.
Context {A : Type} (P Q : A -> Prop).
Context `{!forall x, Decision (P x), !forall x, Decision (Q x)}.

(** Filters that agree on the members of the list. *)
Lemma filter_ext_in (l : list A) :
  (forall x, x ∈ l -> (P x <-> Q x)) -> filter P l = filter Q l.
Proof.
  induction l as [|x l IH]; intros HPQ; [done|].
  rewrite !filter_cons, IH by (intros; apply HPQ; by right).
  assert (P x <-> Q x) as Hx by (apply HPQ; left).
  repeat case_decide; naive_solver.
Qed.

Lemma filter_none (l : list A) : (forall x, x ∈ l -> ~ P x) -> filter P l = [].
Proof.
  intros HPQ. apply elem_of_nil_inv. intros x [HP Hx]%list_elem_of_filter. by eapply HPQ.
Qed.

Lemma Forall_filter (l : list A) : Forall Q l -> Forall Q (filter P l).
Proof.
  rewrite !Forall_forall. intros Hl x [_ Hx]%list_elem_of_filter. by apply Hl.
Qed.
End filters.

(** ** Masks, shifts and wrap-around *)
Lemma land_mask x k : 0 <= k -> Z.land x (2 ^ k - 1) = x mod 2 ^ k.
Proof. intros. by rewrite <-Z.land_ones, Z.ones_equiv by done. Qed.

(** [lor_mask]: or-ing with [2^k - 1] sets the low [k] bits. *)
Lemma lor_mask x k : 0 <= k ->
  Z.lor x (2 ^ k - 1) = x / 2 ^ k * 2 ^ k + (2 ^ k - 1).
Proof.
  intros Hk.
  replace (2 ^ k - 1) with (Z.ones k) by (rewrite Z.ones_equiv; lia).
  rewrite <-Z.shiftr_div_pow2, <-Z.shiftl_mul_pow2 by done.
  rewrite Z.add_nocarry_lxor.
  - apply Z.bits_inj'; intros n Hn.
    rewrite Z.lor_spec, Z.lxor_spec, Z.shiftl_spec by done.
    destruct (Z.lt_ge_cases n k).
    + rewrite (Z.ones_spec_low k n), (Z.testbit_neg_r _ (n - k)) by lia.
      by rewrite orb_true_r.
    + rewrite (Z.ones_spec_high k n), Z.shiftr_spec by lia.
      replace (n - k + k) with n by lia. by rewrite orb_false_r, xorb_false_r.
  - apply Z.bits_inj'; intros n Hn.
    rewrite Z.land_spec, Z.shiftl_spec, Z.bits_0 by done.
    destruct (Z.lt_ge_cases n k).
    + by rewrite (Z.testbit_neg_r _ (n - k)) by lia.
    + by rewrite (Z.ones_spec_high k n), andb_false_r by lia.
Qed.

(** Two numbers agree above bit [k] iff or-ing the low mask makes them equal:
    the way the timer compares expiry and current time. *)
Lemma lor_mask_eq x y k : 0 <= k ->
  Z.lor x (2 ^ k - 1) = Z.lor y (2 ^ k - 1) <-> x / 2 ^ k = y / 2 ^ k.
Proof.
  intros. rewrite !lor_mask by done.
  pose proof (Z.pow_pos_nonneg 2 k ltac:(lia) ltac:(lia)).
  split; [|by intros ->]. intros. nia.
Qed.

(** Two offsets below the capacity address the same cell only if equal. *)
Lemma mod_offset_inj head i j c :
  0 <= i < c -> 0 <= j < c -> (head + i) mod c = (head + j) mod c -> i = j.
Proof.
  intros Hi Hj Heq.
  assert ((i - j) mod c = 0) as Hm.
  { replace (i - j) with ((head + i) - (head + j)) by lia.
    rewrite Zminus_mod, Heq, Z.sub_diag. apply Zmod_0_l. }
  apply Z.mod_divide in Hm as [q Hq]; [|lia].
  assert (q = 0 \/ q <= -1 \/ 1 <= q) as [->|[]] by lia; nia.
Qed.

Lemma u32_bound z : is_u32 (u32 z).
Proof. unfold is_u32, u32. apply Z.mod_pos_bound. lia. Qed.

Lemma u32_small z : is_u32 z -> u32 z = z.
Proof. unfold is_u32, u32. apply Z.mod_small. Qed.

Lemma s32_bound z : is_s32 (s32 z).
Proof.
  unfold is_s32, s32.
  pose proof (Z.mod_pos_bound (z + 2 ^ 31) (2 ^ 32) ltac:(lia)). lia.
Qed.

Lemma s32_small z : is_s32 z -> s32 z = z.
Proof. unfold is_s32, s32. intros. rewrite Z.mod_small; lia. Qed.

Lemma s32_u32 v : is_s32 v -> s32 (u32 v) = v.
Proof. intros Hv. unfold is_s32 in Hv. unfold s32, u32. Z.div_mod_to_equations. lia. Qed.

Lemma u8_bound z : is_u8 (u8 z).
Proof. unfold is_u8, u8. apply Z.mod_pos_bound. lia. Qed.

Create HintDb uboss.
Create Rewrite HintDb zlen.
#[export] Hint Resolve zlen_nonneg u32_bound s32_bound u8_bound : uboss.
#[export] Hint Rewrite @zlen_app @zlen_cons @zlen_insert @zlen_replicate : zlen.

(** [zlen_solve]: linear arithmetic over array lengths. *)
Ltac zlen_solve :=
  repeat match goal with
  | H : aset _ _ _ = Some _ |- _ =>
      let E := fresh in
      pose proof (zlen_aset _ _ _ _ H) as E; apply aset_inv in H as [? ?]
  end;
  autorewrite with zlen in *; unfold zlen in *; simpl in *; lia.
