(* ===== verification/Ring.v ===== *)
(** Circular buffers.  Several components keep a FIFO in an array that is
    read from [head] and written at [tail] modulo its capacity, and grow it by
    copying the cells in FIFO order: the service message queue
    (core/uboss_mq.c), the packet queue of lib/netpack and the pending queue
    of module/harbor.  [ring buf head l] is the abstraction they share: the
    cells of [buf] from [head] on hold the elements of [l] in order. *)
From S2P Require Import Prelude.

(** A cell of a freshly allocated array has no defined content: [None]. *)
Definition ring {A} (buf : list (option A)) (head : Z) (l : list A) : Prop :=
  0 <= head < zlen buf /\ zlen l <= zlen buf /\
  forall i x, l.[i] = Some x -> buf.[(head + i) mod zlen buf] = Some (Some x).

(** [unroll buf head n]: the first [n] cells in FIFO order, the copy loop of
    the growing operations ([queue[(head + i) % cap]] for [i < n]). *)
Fixpoint unroll {A} (buf : list A) (cap head : Z) (i : Z) (n : nat)
    : option (list A) :=
  match n with
  | O => Some []
  | S n =>
      x ← buf.[(head + i) mod cap];
      l ← unroll buf cap head (i + 1) n;
      Some (x :: l)
  end.

Lemma mod_step head i c : 0 < c -> (head + i) mod c + 1 < c ->
  (head + i) mod c + 1 = (head + (i + 1)) mod c.
Proof.
  intros. rewrite Z.add_assoc, <-(Z.add_mod_idemp_l (head + i) 1) by lia.
  pose proof (Z.mod_pos_bound (head + i) c ltac:(lia)).
  symmetry; apply Z.mod_small; lia.
Qed.

Lemma mod_wrap head i c : 0 < c -> c <= (head + i) mod c + 1 ->
  (head + (i + 1)) mod c = 0.
Proof.
  intros. rewrite Z.add_assoc, <-(Z.add_mod_idemp_l (head + i) 1) by lia.
  pose proof (Z.mod_pos_bound (head + i) c ltac:(lia)).
  replace ((head + i) mod c + 1) with c by lia. apply Z_mod_same_full.
Qed.

Section ring_lemmas.
Context {A : Type}.
Implicit Types (buf : list (option A)) (l : list A).

Lemma ring_nil buf head : 0 <= head < zlen buf -> ring buf head [].
Proof.
  intros. split_and!; [lia | lia | unfold zlen; simpl; lia |].
  intros i x Hx%aget_lt_Some. unfold zlen in Hx; simpl in Hx; lia.
Qed.

Lemma ring_head buf head x l :
  ring buf head (x :: l) -> buf.[head] = Some (Some x).
Proof.
  intros (Hh & _ & Hl). specialize (Hl 0 x (aget_cons_0 x l)).
  by rewrite Z.add_0_r, Z.mod_small in Hl by lia.
Qed.

(** Dropping the head: the index advances modulo the capacity. *)
Lemma ring_tail buf head x l :
  ring buf head (x :: l) -> ring buf ((head + 1) mod zlen buf) l.
Proof.
  intros (Hh & Hlen & Hl). rewrite zlen_cons in Hlen.
  split_and!; [apply Z.mod_pos_bound; lia .. | lia |].
  intros i y Hy. pose proof (aget_lt_Some _ _ _ Hy).
  rewrite Z.add_mod_idemp_l by lia.
  replace (head + 1 + i) with (head + (i + 1)) by lia.
  apply Hl. rewrite aget_cons_S by lia. by rewrite Z.add_simpl_r.
Qed.

(** Writing at the tail appends, as long as there is a free cell. *)
Lemma ring_snoc buf head l x : zlen l < zlen buf -> ring buf head l ->
  exists buf', buf.[(head + zlen l) mod zlen buf := Some x] = Some buf' /\
    zlen buf' = zlen buf /\ ring buf' head (l ++ [x]).
Proof.
  intros Hfree (Hh & Hlen & Hl).
  assert (0 <= (head + zlen l) mod zlen buf < zlen buf)
    by (apply Z.mod_pos_bound; lia).
  eexists. rewrite aset_Some by done. split; [done|].
  rewrite zlen_insert. split; [done|]. unfold ring. rewrite zlen_insert.
  split_and!; [lia | lia | rewrite zlen_app, zlen_cons; unfold zlen at 2;
                           simpl; lia |].
  intros i y Hy. pose proof (aget_lt_Some _ _ _ Hy) as Hi.
  rewrite zlen_app, zlen_cons in Hi. change (zlen (@nil A)) with 0 in Hi.
  pose proof (Z.mod_pos_bound (head + i) (zlen buf) ltac:(lia)).
  rewrite aget_insert by lia. case_decide as Heq.
  - apply mod_offset_inj in Heq as <-;
      [| pose proof (zlen_nonneg l); lia ..].
    rewrite aget_app_eq in Hy by done. congruence.
  - apply Hl. destruct (decide (i = zlen l)) as [->|]; [done|].
    by rewrite aget_app_l in Hy by lia.
Qed.

Lemma unroll_spec (buf l' : list (option A)) head n i :
  unroll buf (zlen buf) head i n = Some l' ->
  zlen l' = Z.of_nat n /\
  forall j, 0 <= j < Z.of_nat n -> l'.[j] = buf.[(head + i + j) mod zlen buf].
Proof.
  revert i l'. induction n as [|n IH]; simpl; intros i l' Hu.
  - simplify_eq. split; [done | lia].
  - apply bind_Some in Hu as (x & Hx & (k & Hk & Heq)%bind_Some).
    simplify_eq. apply IH in Hk as [Hlen Hk].
    split; [rewrite zlen_cons; lia|].
    intros j Hj. destruct (decide (j = 0)) as [->|].
    + by rewrite Z.add_0_r.
    + rewrite aget_cons_S, Hk by lia. do 2 f_equal. lia.
Qed.

Lemma unroll_total buf head n i :
  0 < zlen buf -> exists l' : list (option A), unroll buf (zlen buf) head i n = Some l'.
Proof.
  intros Hpos. revert i. induction n as [|n IH]; intros i; simpl; [by eexists|].
  destruct (aget_is_Some buf ((head + i) mod zlen buf)) as [x ->].
  { by apply Z.mod_pos_bound. }
  destruct (IH (i + 1)) as [l' ->]. by eexists.
Qed.

(** Growing: the cells copied in FIFO order to the front of a larger array
    represent the same FIFO, from index 0. *)
Lemma ring_grow buf head l (new k : list (option A)) : ring buf head l ->
  unroll buf (zlen buf) head 0 (length buf) = Some new -> 0 < zlen k ->
  ring (new ++ k) 0 l.
Proof.
  intros (Hh & Hlen & Hl) Hu Hk. apply unroll_spec in Hu as [Hn Hu].
  fold (zlen buf) in *.
  split_and!; rewrite ?zlen_app; [lia | pose proof (zlen_nonneg new); lia
                                 | unfold zlen in *; lia |].
  intros i x Hx. pose proof (aget_lt_Some _ _ _ Hx).
  rewrite Z.add_0_l, Z.mod_small by (unfold zlen in *; lia).
  rewrite aget_app_l, Hu by (unfold zlen in *; lia).
  rewrite Z.add_0_r. by apply Hl.
Qed.
End ring_lemmas.

#[export] Hint Resolve ring_nil ring_head ring_tail : uboss.
