(* ===== verification/Lock.v ===== *)
(** core/uboss_lock.h: the spinlock and the reader/writer lock built from
    [__sync] builtins (the default configuration, [USE_PTHREAD_LOCK] unset).

    A lock is used by a list of threads.  Each thread has a program counter in
    the text of the lock functions; one step of the system executes one shared
    memory access of one thread, so every interleaving of the accesses is a
    path of [rw_sys] (resp. [spin_sys]).  The builtins are full barriers and
    plain reads of [write] and [read] are taken to be sequentially consistent. *)
From S2P Require Import Prelude.

(** ** Counting threads *)

Definition zsum {A} (f : A -> Z) (l : list A) : Z :=
  foldr (fun x n => f x + n) 0 l.
Definition countb {A} (f : A -> bool) (l : list A) : Z :=
  zsum (fun x => Z.b2z (f x)) l.

(** ** The reader/writer lock *)

Record rwlock := RwLock { rw_write : Z; rw_read : Z }.

Definition rwlock_init : rwlock := RwLock 0 0.

(** Program counters: where a thread is in [rwlock_rlock], [rwlock_wlock] or
    between lock and unlock. *)
Inductive rw_pc :=
  | RwIdle       (* outside the lock *)
  | RwRSpin      (* rlock: while(lock->write) *)
  | RwRAdd       (* rlock: __sync_add_and_fetch(&lock->read,1) *)
  | RwRCheck     (* rlock: if (lock->write) *)
  | RwRSub       (* rlock: __sync_sub_and_fetch(&lock->read,1), then retry *)
  | RwReading    (* holds the read lock *)
  | RwWTas       (* wlock: while (__sync_lock_test_and_set(&lock->write,1)) *)
  | RwWWait      (* wlock: while(lock->read) *)
  | RwWriting.   (* holds the write lock *)

#[export] Instance rw_pc_eq_dec : EqDecision rw_pc.
Proof. solve_decision. Defined.

(** One access of [rwlock_rlock]. *)
Definition rwlock_rlock (pc : rw_pc) (l : rwlock) : option (rw_pc * rwlock) :=
  match pc with
  | RwRSpin => Some (if rw_write l =? 0 then RwRAdd else RwRSpin, l)
  | RwRAdd => Some (RwRCheck, RwLock (rw_write l) (rw_read l + 1))
  | RwRCheck => Some (if rw_write l =? 0 then RwReading else RwRSub, l)
  | RwRSub => Some (RwRSpin, RwLock (rw_write l) (rw_read l - 1))
  | _ => None
  end.

(** One access of [rwlock_wlock]. *)
Definition rwlock_wlock (pc : rw_pc) (l : rwlock) : option (rw_pc * rwlock) :=
  match pc with
  | RwWTas =>
      Some (if rw_write l =? 0 then RwWWait else RwWTas, RwLock 1 (rw_read l))
  | RwWWait => Some (if rw_read l =? 0 then RwWriting else RwWWait, l)
  | _ => None
  end.

Definition rwlock_wunlock (pc : rw_pc) (l : rwlock) : option (rw_pc * rwlock) :=
  match pc with
  | RwWriting => Some (RwIdle, RwLock 0 (rw_read l))
  | _ => None
  end.

Definition rwlock_runlock (pc : rw_pc) (l : rwlock) : option (rw_pc * rwlock) :=
  match pc with
  | RwReading => Some (RwIdle, RwLock (rw_write l) (rw_read l - 1))
  | _ => None
  end.

Record rw_sys := RwSys { rw_lock : rwlock; rw_threads : list rw_pc }.

Definition rw_init (n : nat) : rw_sys := RwSys rwlock_init (replicate n RwIdle).

(** An idle thread calls [rlock] or [wlock]; a thread inside the lock
    functions performs its next access. *)
Inductive rw_step : rw_sys -> rw_sys -> Prop :=
  | rw_call i l ts pc :
      ts !! i = Some RwIdle -> pc = RwRSpin \/ pc = RwWTas ->
      rw_step (RwSys l ts) (RwSys l (<[i := pc]> ts))
  | rw_access i l ts pc pc' l' :
      ts !! i = Some pc ->
      rwlock_rlock pc l = Some (pc', l') \/ rwlock_wlock pc l = Some (pc', l') \/
      rwlock_runlock pc l = Some (pc', l') \/ rwlock_wunlock pc l = Some (pc', l') ->
      rw_step (RwSys l ts) (RwSys l' (<[i := pc']> ts)).

(** ** The spinlock *)

Inductive spin_pc := SpIdle | SpTas | SpTry | SpHeld.

#[export] Instance spin_pc_eq_dec : EqDecision spin_pc.
Proof. solve_decision. Defined.

Definition spinlock_init : Z := 0.

(** [while (__sync_lock_test_and_set(&lock->lock,1)) {}] *)
Definition spinlock_lock (lock : Z) : spin_pc * Z :=
  (if lock =? 0 then SpHeld else SpTas, 1).

(** [return __sync_lock_test_and_set(&lock->lock,1) == 0]: [SpIdle] when the
    attempt fails. *)
Definition spinlock_trylock (lock : Z) : spin_pc * Z :=
  (if lock =? 0 then SpHeld else SpIdle, 1).

Definition spinlock_unlock (lock : Z) : spin_pc * Z := (SpIdle, 0).

Definition spin_access (pc : spin_pc) (lock : Z) : option (spin_pc * Z) :=
  match pc with
  | SpIdle => None
  | SpTas => Some (spinlock_lock lock)
  | SpTry => Some (spinlock_trylock lock)
  | SpHeld => Some (spinlock_unlock lock)
  end.

Record spin_sys := SpinSys { sp_lock : Z; sp_threads : list spin_pc }.

Definition spin_init (n : nat) : spin_sys :=
  SpinSys spinlock_init (replicate n SpIdle).

Inductive spin_step : spin_sys -> spin_sys -> Prop :=
  | spin_call i l ts pc :
      ts !! i = Some SpIdle -> pc = SpTas \/ pc = SpTry ->
      spin_step (SpinSys l ts) (SpinSys l (<[i := pc]> ts))
  | spin_acc i l ts pc pc' l' :
      ts !! i = Some pc -> spin_access pc l = Some (pc', l') ->
      spin_step (SpinSys l ts) (SpinSys l' (<[i := pc']> ts)).

(** ** Invariants *)

(** A thread that counts in [read], that owns [write], that reads, writes. *)
Definition counted (pc : rw_pc) : bool :=
  match pc with RwRCheck | RwRSub | RwReading => true | _ => false end.
Definition owning (pc : rw_pc) : bool :=
  match pc with RwWWait | RwWriting => true | _ => false end.
Definition reading (pc : rw_pc) : bool :=
  match pc with RwReading => true | _ => false end.
Definition writing (pc : rw_pc) : bool :=
  match pc with RwWriting => true | _ => false end.

Definition rw_inv (s : rw_sys) : Prop :=
  rw_read (rw_lock s) = countb counted (rw_threads s) /\
  rw_write (rw_lock s) = countb owning (rw_threads s) /\
  (rw_write (rw_lock s) = 0 \/ rw_write (rw_lock s) = 1) /\
  (countb writing (rw_threads s) = 0 \/ countb reading (rw_threads s) = 0).

Definition held (pc : spin_pc) : bool :=
  match pc with SpHeld => true | _ => false end.

Definition spin_inv (s : spin_sys) : Prop :=
  sp_lock s = countb held (sp_threads s) /\ (sp_lock s = 0 \/ sp_lock s = 1).

Section count.
Context {A : Type}.
Implicit Types (f g : A -> bool) (l : list A).

Lemma zsum_insert (f : A -> Z) l i x y : l !! i = Some x ->
  zsum f (<[i := y]> l) = zsum f l - f x + f y.
Proof.
  revert i. induction l as [|z l IH]; intros [|i] Hx; simplify_eq/=; [lia|].
  rewrite (IH i) by done. lia.
Qed.

Lemma zsum_nonneg (f : A -> Z) l : (forall x, 0 <= f x) -> 0 <= zsum f l.
Proof.
  intros Hf. induction l as [|z l IH]; simpl; [lia|]. specialize (Hf z). lia.
Qed.

Lemma countb_insert f l i x y : l !! i = Some x ->
  countb f (<[i := y]> l) = countb f l - Z.b2z (f x) + Z.b2z (f y).
Proof. apply zsum_insert. Qed.

Lemma countb_nonneg f l : 0 <= countb f l.
Proof. apply zsum_nonneg. intros x. destruct (f x); simpl; lia. Qed.

Lemma countb_elem f l i x : l !! i = Some x -> Z.b2z (f x) <= countb f l.
Proof.
  revert i. induction l as [|z l IH]; intros [|i] Hx; simplify_eq/=.
  - pose proof (countb_nonneg f l). unfold countb in *; simpl; lia.
  - specialize (IH i Hx). unfold countb in *; simpl. destruct (f z); simpl; lia.
Qed.

(** A positive count has a witness. *)
Lemma countb_pos f l : 0 < countb f l -> exists i x, l !! i = Some x /\ f x = true.
Proof.
  induction l as [|z l IH]; unfold countb; simpl; [lia|].
  destruct (f z) eqn:E; simpl; [by exists 0%nat, z|].
  intros (i & x & Hi)%IH. by exists (S i), x.
Qed.

Lemma countb_impl f g l : (forall x, f x = true -> g x = true) ->
  countb f l <= countb g l.
Proof.
  intros Hfg. unfold countb. induction l as [|z l IH]; simpl; [lia|].
  destruct (f z) eqn:E; [rewrite (Hfg _ E)|destruct (g z)]; simpl; lia.
Qed.

Lemma countb_replicate f n x : f x = false -> countb f (replicate n x) = 0.
Proof. intros Hf. unfold countb. induction n; simpl; [done|]. by rewrite Hf. Qed.

Lemma countb_two f l i j x y : i <> j -> l !! i = Some x -> l !! j = Some y ->
  f x = true -> f y = true -> 2 <= countb f l.
Proof.
  intros Hij Hi Hj Hx Hy.
  revert i j Hij Hi Hj. induction l as [|z l IH]; intros [|i] [|j] Hij Hi Hj;
    simplify_eq/=.
  - pose proof (countb_elem f l j y Hj). unfold countb in *; simpl.
    rewrite Hx, Hy in *. simpl in *; lia.
  - pose proof (countb_elem f l i x Hi). unfold countb in *; simpl.
    rewrite Hx, Hy in *. simpl in *; lia.
  - specialize (IH i j ltac:(congruence) Hi Hj). unfold countb in *; simpl.
    destruct (f z); simpl; lia.
Qed.
End count.

(** Weights of a program counter: how far a thread is from idle.  Writers are
    weighted by [weight_w]; readers by [weight_r], which depends on whether
    [write] is set, because a reader that finds it set goes back. *)
Definition weight_w (pc : rw_pc) : Z :=
  match pc with RwWTas => 3 | RwWWait => 2 | RwWriting => 1 | _ => 0 end.
Definition weight_r (write : Z) (pc : rw_pc) : Z :=
  if write =? 0 then
    match pc with
    | RwRSub => 5 | RwRSpin => 4 | RwRAdd => 3 | RwRCheck => 2 | RwReading => 1
    | _ => 0
    end
  else match pc with RwRCheck => 2 | RwRSub | RwReading => 1 | _ => 0 end.

Lemma rw_inv_init n : rw_inv (rw_init n).
Proof.
  unfold rw_inv, rw_init; simpl. rewrite !countb_replicate by done. lia.
Qed.

Lemma rw_inv_step s s' : rw_inv s -> rw_step s s' -> rw_inv s'.
Proof.
  intros (Hr & Hw & H01 & Hx) Hstep. unfold rw_inv.
  destruct Hstep as [i l ts pc Hi Hpc | i l ts pc pc' l' Hi Hacc]; simpl in *.
  - rewrite !(countb_insert _ _ _ _ _ Hi). destruct Hpc as [-> | ->]; simpl; lia.
  - rewrite !(countb_insert _ _ _ _ _ Hi).
    pose proof (countb_impl reading counted ts ltac:(by intros [])).
    pose proof (countb_impl writing owning ts ltac:(by intros [])).
    pose proof (countb_elem owning ts i pc Hi).
    pose proof (countb_elem reading ts i pc Hi).
    pose proof (countb_elem writing ts i pc Hi).
    pose proof (countb_nonneg reading ts). pose proof (countb_nonneg writing ts).
    destruct Hacc as [Ha|[Ha|[Ha|Ha]]]; destruct pc; simpl in Ha; simplify_eq;
      zdec; simpl in *; lia.
Qed.

Lemma rw_inv_reachable n s : rtc rw_step (rw_init n) s -> rw_inv s.
Proof.
  intros H. assert (rw_inv (rw_init n)) as Hinv by apply rw_inv_init.
  induction H; eauto using rw_inv_step.
Qed.

Lemma spin_inv_step s s' : spin_inv s -> spin_step s s' -> spin_inv s'.
Proof.
  intros (Hl & H01) Hstep. unfold spin_inv.
  destruct Hstep as [i l ts pc Hi Hpc | i l ts pc pc' l' Hi Hacc]; simpl in *.
  - rewrite !(countb_insert _ _ _ _ _ Hi). destruct Hpc as [-> | ->]; simpl; lia.
  - rewrite !(countb_insert _ _ _ _ _ Hi).
    pose proof (countb_elem held ts i pc Hi).
    unfold spin_access, spinlock_lock, spinlock_trylock, spinlock_unlock in Hacc.
    destruct pc; simplify_eq; zdec; simpl in *; lia.
Qed.

Lemma spin_inv_reachable n s : rtc spin_step (spin_init n) s -> spin_inv s.
Proof.
  intros H. assert (spin_inv (spin_init n)) as Hinv.
  { unfold spin_inv, spin_init; simpl. rewrite countb_replicate by done.
    unfold spinlock_init. lia. }
  induction H; eauto using spin_inv_step.
Qed.

(** ** Progress of the reader/writer lock *)

Definition all_idle (s : rw_sys) : Prop :=
  forall i pc, rw_threads s !! i = Some pc -> pc = RwIdle.

Definition total_w (s : rw_sys) : Z := zsum weight_w (rw_threads s).
Definition total_r (s : rw_sys) : Z :=
  zsum (weight_r (rw_write (rw_lock s))) (rw_threads s).

Lemma weight_r_nonneg w pc : 0 <= weight_r w pc.
Proof. unfold weight_r. destruct (w =? 0), pc; lia. Qed.

Lemma total_w_nonneg s : 0 <= total_w s.
Proof. apply zsum_nonneg. intros []; simpl; lia. Qed.

Lemma total_r_nonneg s : 0 <= total_r s.
Proof. apply zsum_nonneg, weight_r_nonneg. Qed.

(** A step that brings the system closer to idle. *)
Definition closer (s s' : rw_sys) : Prop :=
  total_w s' < total_w s \/
  total_w s' = total_w s /\ rw_write (rw_lock s') = rw_write (rw_lock s) /\
  total_r s' < total_r s.

(** The access of thread [i] at [pc], when it is the good one to schedule. *)
Lemma rw_access_closer l ts i pc pc' l' :
  ts !! i = Some pc ->
  rwlock_rlock pc l = Some (pc', l') \/ rwlock_wlock pc l = Some (pc', l') \/
  rwlock_runlock pc l = Some (pc', l') \/ rwlock_wunlock pc l = Some (pc', l') ->
  (weight_w pc' < weight_w pc \/
   weight_w pc' = weight_w pc /\ rw_write l' = rw_write l /\
   weight_r (rw_write l) pc' < weight_r (rw_write l) pc) ->
  exists s', rw_step (RwSys l ts) s' /\ closer (RwSys l ts) s'.
Proof.
  intros Hi Hacc Hw. exists (RwSys l' (<[i := pc']> ts)).
  split; [by eapply rw_access|]. unfold closer, total_w, total_r; simpl.
  rewrite !(zsum_insert _ _ _ _ _ Hi).
  destruct Hw as [?|(? & -> & ?)]; [left|right]; lia.
Qed.

Lemma rw_step_closer s i pc : rw_inv s -> rw_threads s !! i = Some pc ->
  pc <> RwIdle -> exists s', rw_step s s' /\ closer s s'.
Proof.
  destruct s as [l ts]. intros (Hr & Hw & H01 & _) Hi Hpc; simpl in *.
  destruct H01 as [H0|H1].
  - (* write clear: the thread itself can advance *)
    pose proof (countb_elem owning ts i pc Hi) as Ho. rewrite <-Hw, H0 in Ho.
    destruct pc; simpl in *; try lia; try done;
      (eapply rw_access_closer; [done | simpl; eauto |];
       rewrite ?H0; unfold weight_r; rewrite ?H0; simpl; lia).
  - (* write set: the writer advances, or a counted reader backs out *)
    destruct (countb_pos owning ts) as (j & pj & Hj & Hown); [lia|].
    destruct pj; try done.
    + destruct (decide (rw_read l = 0)) as [Hz|Hnz].
      * eapply rw_access_closer; [exact Hj | simpl; eauto |]. rewrite Hz; simpl; lia.
      * pose proof (countb_nonneg counted ts).
        destruct (countb_pos counted ts) as (k & pk & Hk & Hc); [lia|].
        destruct pk; try done;
          (eapply rw_access_closer; [exact Hk | simpl; eauto |];
           unfold weight_r; rewrite ?H1; simpl; lia).
    + eapply rw_access_closer; [exact Hj | simpl; eauto |]. simpl; lia.
Qed.

Lemma rw_reach_idle s : rw_inv s -> exists s', rtc rw_step s s' /\ rw_inv s' /\ all_idle s'.
Proof.
  remember (total_w s) as a eqn:Ha. remember (total_r s) as b eqn:Hb.
  revert b s Ha Hb.
  induction (Z.lt_wf 0 a) as [a _ IHa]. intros b.
  induction (Z.lt_wf 0 b) as [b _ IHb]. intros s -> -> Hinv.
  destruct (decide (Exists (fun pc => pc <> RwIdle) (rw_threads s))) as [Hex|Hno].
  - apply Exists_exists in Hex as (pc & Hin & Hpc).
    apply list_elem_of_lookup in Hin as [i Hi].
    destruct (rw_step_closer s i pc Hinv Hi Hpc) as (s1 & Hs1 & Hcl).
    pose proof (rw_inv_step _ _ Hinv Hs1) as Hinv1.
    pose proof (total_w_nonneg s1). pose proof (total_r_nonneg s1).
    assert (exists s', rtc rw_step s1 s' /\ rw_inv s' /\ all_idle s') as (s' & Hp & H').
    { destruct Hcl as [Hlt|(Heq & _ & Hlt)].
      - by eapply (IHa (total_w s1)).
      - eapply (IHb (total_r s1)); eauto. }
    exists s'. split; [by eapply rtc_l | done].
  - exists s. split_and!; [done | done |]. intros i pc Hi.
    destruct (decide (pc = RwIdle)); [done|]. exfalso; apply Hno.
    apply Exists_exists. exists pc. split; [by eapply list_elem_of_lookup_2 | done].
Qed.

Lemma zsum_all_zero {A} (f : A -> Z) l :
  (forall i x, l !! i = Some x -> f x = 0) -> zsum f l = 0.
Proof.
  induction l as [|z l IH]; intros Hf; simpl; [done|].
  rewrite (Hf 0%nat z), IH; [done | intros i x; apply (Hf (S i)) | done].
Qed.

(** ** Properties *)

(** C23: mutual exclusion of the reader/writer lock: whatever the interleaving
    of the accesses of [n] threads, while a thread holds the write lock no
    other thread holds the lock, for reading or writing. *)
Theorem rwlock_exclusion n s i j pi pj :
  rtc rw_step (rw_init n) s -> i <> j ->
  rw_threads s !! i = Some pi -> rw_threads s !! j = Some pj ->
  pi = RwWriting -> pj <> RwWriting /\ pj <> RwReading.
Proof.
  intros Hs Hij Hi Hj ->.
  pose proof (rw_inv_reachable n s Hs) as (_ & Hw & H01 & Hx).
  pose proof (countb_elem writing _ _ _ Hi). simpl in *.
  split; intros ->.
  - pose proof (countb_two owning _ i j _ _ Hij Hi Hj eq_refl eq_refl). lia.
  - pose proof (countb_elem reading _ _ _ Hj). simpl in *. lia.
Qed.

(** C38: the reader/writer lock cannot deadlock or leak: from every reachable
    state some schedule brings every thread out of the lock, and the lock is
    then back in its initial state. *)
Theorem rwlock_no_deadlock n s :
  rtc rw_step (rw_init n) s ->
  exists s', rtc rw_step s s' /\ all_idle s' /\ rw_lock s' = rwlock_init.
Proof.
  intros Hs. destruct (rw_reach_idle s) as (s' & Hp & (Hr & Hw & _) & Hidle).
  { by eapply rw_inv_reachable. }
  exists s'. split_and!; [done | done |].
  destruct s' as [[w r] ts]; unfold all_idle, rwlock_init in *; simpl in *.
  unfold countb in *. rewrite zsum_all_zero in Hr, Hw; [congruence | |];
    intros i x Hi; by rewrite (Hidle i x Hi).
Qed.

(** Mutual exclusion of the spinlock: at most one of the threads that
    use [spinlock_lock], [spinlock_trylock] and [spinlock_unlock] holds it. *)
Theorem spinlock_exclusion n s i j :
  rtc spin_step (spin_init n) s ->
  sp_threads s !! i = Some SpHeld -> sp_threads s !! j = Some SpHeld -> i = j.
Proof.
  intros Hs Hi Hj. destruct (decide (i = j)) as [|Hij]; [done|].
  pose proof (spin_inv_reachable n s Hs) as [Hl H01].
  pose proof (countb_two held _ i j _ _ Hij Hi Hj eq_refl eq_refl). lia.
Qed.

(** ** Witnesses *)

(** Thread 0 takes the write lock while thread 1 spins in [rlock]. *)
Lemma rw_path_witness :
  rtc rw_step (rw_init 2) (RwSys (RwLock 1 0) [RwWriting; RwRSpin]).
Proof.
  eapply rtc_l; [by apply (rw_call 0 _ _ RwWTas); [|right]|].
  eapply rtc_l; [eapply (rw_access 0 _ _ RwWTas); [done | right; left; done]|].
  eapply rtc_l; [by apply (rw_call 1 _ _ RwRSpin); [|left]|].
  eapply rtc_l; [eapply (rw_access 0 _ _ RwWWait); [done | right; left; done]|].
  apply rtc_refl.
Qed.

Lemma rwlock_exclusion_witness : RwRSpin <> RwWriting /\ RwRSpin <> RwReading.
Proof.
  apply (rwlock_exclusion 2 _ 0 1 RwWriting RwRSpin rw_path_witness);
    [lia | reflexivity ..].
Defined.

Lemma rwlock_no_deadlock_witness : exists s',
  rtc rw_step (RwSys (RwLock 1 0) [RwWriting; RwRSpin]) s' /\ all_idle s' /\
  rw_lock s' = rwlock_init.
Proof. apply (rwlock_no_deadlock 2), rw_path_witness. Defined.

Lemma spinlock_exclusion_witness : 1%nat = 1%nat.
Proof.
  apply (spinlock_exclusion 2 (SpinSys 1 [SpIdle; SpHeld])); [|reflexivity ..].
  eapply rtc_l; [by apply (spin_call 1 _ _ SpTry); [|right]|].
  eapply rtc_l; [by apply (spin_acc 1 _ _ SpTry)|].
  apply rtc_refl.
Defined.
