(* ===== verification/Mq.v ===== *)
(** core/uboss_mq.c: the message queue of a service and the global queue of
    queues.

    A [message_queue] is the C struct (its spinlock apart: every operation
    below is one critical section, see Lock.v for the lock itself).  Queues are
    shared objects: they live in a store [mqs] indexed by their address and are
    linked into the global queue through their [mq_next] field, so that
    aliasing (a queue pushed twice, a stale tail) is visible in the model.
    [None] is an assertion failure or an invalid memory access. *)
From S2P Require Import Prelude Ring.

(** ** Data *)

(** [struct uboss_message] (core/uboss_mq.h). *)
Record uboss_message := Message {
  msg_source : Z;   (* uint32_t: handle of the sender *)
  msg_session : Z;  (* int *)
  msg_data : Z;     (* address of the payload *)
  msg_sz : Z        (* size_t: length, message type in the high 8 bits *)
}.

#[export] Instance uboss_message_eq_dec : EqDecision uboss_message.
Proof. solve_decision. Defined.

Abbreviation qid := nat (only parsing).

Record message_queue := MessageQueue {
  mq_handle : Z;
  mq_cap : Z;
  mq_head : Z;
  mq_tail : Z;
  mq_release : Z;
  mq_in_global : Z;
  mq_overload : Z;
  mq_overload_threshold : Z;
  mq_queue : list (option uboss_message);
  mq_next : option qid
}.

(** [struct global_queue] with the store of all queues. *)
Record mqstore := MqStore {
  mqs : gmap qid message_queue;
  gq_head : option qid;
  gq_tail : option qid
}.

Definition DEFAULT_QUEUE_SIZE : Z := 64.
Definition MQ_IN_GLOBAL : Z := 1.
Definition MQ_OVERLOAD : Z := 1024.

(** Field updates. *)
Definition set_mq_next (n : option qid) (q : message_queue) : message_queue :=
  MessageQueue (mq_handle q) (mq_cap q) (mq_head q) (mq_tail q) (mq_release q)
    (mq_in_global q) (mq_overload q) (mq_overload_threshold q) (mq_queue q) n.
Definition set_mq_in_global (b : Z) (q : message_queue) : message_queue :=
  MessageQueue (mq_handle q) (mq_cap q) (mq_head q) (mq_tail q) (mq_release q)
    b (mq_overload q) (mq_overload_threshold q) (mq_queue q) (mq_next q).
Definition set_mq_release (b : Z) (q : message_queue) : message_queue :=
  MessageQueue (mq_handle q) (mq_cap q) (mq_head q) (mq_tail q) b
    (mq_in_global q) (mq_overload q) (mq_overload_threshold q) (mq_queue q)
    (mq_next q).
Definition set_mq_overload (o t : Z) (q : message_queue) : message_queue :=
  MessageQueue (mq_handle q) (mq_cap q) (mq_head q) (mq_tail q) (mq_release q)
    (mq_in_global q) o t (mq_queue q) (mq_next q).
Definition set_mq_ring (c h t : Z) (b : list (option uboss_message))
    (q : message_queue) : message_queue :=
  MessageQueue (mq_handle q) c h t (mq_release q) (mq_in_global q)
    (mq_overload q) (mq_overload_threshold q) b (mq_next q).

(** ** Operations on one queue *)

(** The fields [uboss_mq_create] writes; the cells of the array are
    uninitialised. *)
Definition new_message_queue (handle : Z) : message_queue :=
  {| mq_handle := handle; mq_cap := DEFAULT_QUEUE_SIZE; mq_head := 0;
     mq_tail := 0; mq_release := 0; mq_in_global := MQ_IN_GLOBAL;
     mq_overload := 0; mq_overload_threshold := MQ_OVERLOAD;
     mq_queue := replicate (Z.to_nat DEFAULT_QUEUE_SIZE) None;
     mq_next := None |}.

Definition uboss_mq_length (q : message_queue) : Z :=
  if mq_head q <=? mq_tail q then mq_tail q - mq_head q
  else mq_tail q + mq_cap q - mq_head q.

(** [uboss_mq_overload] reports the overload mark once and clears it. *)
Definition uboss_mq_overload (q : message_queue) : Z * message_queue :=
  if mq_overload q =? 0 then (0, q)
  else (mq_overload q, set_mq_overload 0 (mq_overload_threshold q) q).

(** [while (length > overload_threshold) { overload = length; threshold *= 2 }].
    [length] iterations are always enough (lemma [raise_threshold_done]). *)
Fixpoint raise_threshold (fuel : nat) (length o t : Z) : Z * Z :=
  match fuel with
  | O => (o, t)
  | S fuel =>
      if t <? length then raise_threshold fuel length length (t * 2) else (o, t)
  end.

(** [uboss_mq_pop]: [Some (Some m, q')] for return value 0 with the message,
    [Some (None, q')] for return value 1. *)
Definition mq_pop (q : message_queue)
    : option (option uboss_message * message_queue) :=
  if mq_head q =? mq_tail q then
    Some (None, set_mq_in_global 0
                  (set_mq_overload (mq_overload q) MQ_OVERLOAD q))
  else
    cell ← (mq_queue q).[mq_head q];
    message ← cell;
    let head := mq_head q + 1 in
    let head := if mq_cap q <=? head then 0 else head in
    let length := mq_tail q - head in
    let length := if length <? 0 then length + mq_cap q else length in
    let '(o, t) := raise_threshold (Z.to_nat length) length (mq_overload q)
                     (mq_overload_threshold q) in
    Some (Some message,
          set_mq_overload o t
            (set_mq_ring (mq_cap q) head (mq_tail q) (mq_queue q) q)).

(** [expand_queue]: copy to an array of twice the size, oldest first. *)
Definition expand_queue (q : message_queue) : option message_queue :=
  copied ← unroll (mq_queue q) (mq_cap q) (mq_head q) 0 (Z.to_nat (mq_cap q));
  Some (set_mq_ring (mq_cap q * 2) 0 (mq_cap q)
          (copied ++ replicate (Z.to_nat (mq_cap q)) None) q).

(** The part of [uboss_mq_push] that works on the queue itself. *)
Definition mq_enqueue (q : message_queue) (message : uboss_message)
    : option message_queue :=
  buf ← (mq_queue q).[mq_tail q := Some message];
  let tail := mq_tail q + 1 in
  let tail := if mq_cap q <=? tail then 0 else tail in
  let q := set_mq_ring (mq_cap q) (mq_head q) tail buf q in
  if mq_head q =? mq_tail q then expand_queue q else Some q.

(** ** Operations on the store *)

(** Write queue [p] back. *)
Definition put_mq (p : qid) (q : message_queue) (w : mqstore) : mqstore :=
  MqStore (<[p := q]> (mqs w)) (gq_head w) (gq_tail w).

Definition uboss_globalmq_push (p : qid) (w : mqstore) : option mqstore :=
  q ← mqs w !! p;
  _ ← cassert (bool_decide (mq_next q = None));
  match gq_tail w with
  | Some t =>
      tq ← mqs w !! t;
      Some (MqStore (<[t := set_mq_next (Some p) tq]> (mqs w))
              (gq_head w) (Some p))
  | None => Some (MqStore (mqs w) (Some p) (Some p))
  end.

Definition uboss_globalmq_pop (w : mqstore) : option (option qid * mqstore) :=
  match gq_head w with
  | None => Some (None, w)
  | Some p =>
      q ← mqs w !! p;
      tail ← match mq_next q with
             | None =>
                 _ ← cassert (bool_decide (gq_tail w = Some p)); Some None
             | Some _ => Some (gq_tail w)
             end;
      Some (Some p, MqStore (<[p := set_mq_next None q]> (mqs w))
                      (mq_next q) tail)
  end.

(** [uboss_mq_create]: [p] is the address [uboss_malloc] returned. *)
Definition uboss_mq_create (p : qid) (handle : Z) (w : mqstore)
    : option mqstore :=
  match mqs w !! p with
  | Some _ => None
  | None => Some (put_mq p (new_message_queue handle) w)
  end.

Definition uboss_mq_handle (p : qid) (w : mqstore) : option Z :=
  mq_handle <$> mqs w !! p.

Definition uboss_mq_pop (p : qid) (w : mqstore)
    : option (option uboss_message * mqstore) :=
  q ← mqs w !! p;
  '(r, q) ← mq_pop q;
  Some (r, put_mq p q w).

Definition uboss_mq_push (p : qid) (message : uboss_message) (w : mqstore)
    : option mqstore :=
  q ← mqs w !! p;
  q ← mq_enqueue q message;
  if mq_in_global q =? 0 then
    uboss_globalmq_push p (put_mq p (set_mq_in_global MQ_IN_GLOBAL q) w)
  else Some (put_mq p q w).

Definition uboss_mq_mark_release (p : qid) (w : mqstore) : option mqstore :=
  q ← mqs w !! p;
  _ ← cassert (mq_release q =? 0);
  let w := put_mq p (set_mq_release 1 q) w in
  if mq_in_global q =? MQ_IN_GLOBAL then Some w else uboss_globalmq_push p w.

(** [_release]: free the queue. *)
Definition _release (p : qid) (w : mqstore) : option mqstore :=
  q ← mqs w !! p;
  _ ← cassert (bool_decide (mq_next q = None));
  Some (MqStore (delete p (mqs w)) (gq_head w) (gq_tail w)).

(** [uboss_mq_init]: an empty global queue. *)
Definition uboss_mq_init : mqstore := MqStore ∅ None None.

(** ** Releasing a queue

    [drop_func] is a callback of the caller which may itself change the state
    (the server sends an error back to the source), so [_drop_queue] works on
    any state that holds an [mqstore]. *)
Class HasMq (S : Type) := {
  get_mq : S -> mqstore;
  put_mqstore : mqstore -> S -> S;
  get_put_mq : forall w s, get_mq (put_mqstore w s) = w
}.

#[export] Instance mqstore_HasMq : HasMq mqstore :=
  {| get_mq := fun w => w; put_mqstore := fun w _ => w;
     get_put_mq := fun _ _ => eq_refl |}.

Section release.
Context {S : Type} `{!HasMq S}.
Variable drop_func : uboss_message -> S -> option S.

(** [while (!uboss_mq_pop(q, &msg)) drop_func(&msg, ud)]; the result is
    [None] also when the fuel does not suffice. *)
Fixpoint drop_loop (fuel : nat) (p : qid) (s : S) : option S :=
  match fuel with
  | O => None
  | Datatypes.S fuel =>
      '(r, w) ← uboss_mq_pop p (get_mq s);
      let s := put_mqstore w s in
      match r with
      | Some msg => s ← drop_func msg s; drop_loop fuel p s
      | None => Some s
      end
  end.

Definition _drop_queue (fuel : nat) (p : qid) (s : S) : option S :=
  s ← drop_loop fuel p s;
  w ← _release p (get_mq s);
  Some (put_mqstore w s).

Definition uboss_mq_release (fuel : nat) (p : qid) (s : S) : option S :=
  q ← mqs (get_mq s) !! p;
  if mq_release q =? 0 then
    w ← uboss_globalmq_push p (get_mq s); Some (put_mqstore w s)
  else _drop_queue fuel p s.
End release.

(** ** Abstract specification: a FIFO with an overload mark *)

Record fifo := Fifo {
  ff_msgs : list uboss_message;
  ff_overload : Z;
  ff_threshold : Z
}.

(** The threshold after a pop that leaves [n] messages: doubled the least
    number of times that makes it at least [n]. *)
Definition next_threshold (n t : Z) : Z :=
  if n <=? t then t else t * 2 ^ Z.log2_up ((n + t - 1) / t).

Inductive mq_op := OpPush (m : uboss_message) | OpPop | OpLength | OpOverload.
Inductive mq_out := OutUnit | OutMsg (m : option uboss_message) | OutInt (n : Z).

Definition fifo_step (op : mq_op) (s : fifo) : mq_out * fifo :=
  match op with
  | OpPush m =>
      (OutUnit, Fifo (ff_msgs s ++ [m]) (ff_overload s) (ff_threshold s))
  | OpPop =>
      match ff_msgs s with
      | [] => (OutMsg None, Fifo [] (ff_overload s) MQ_OVERLOAD)
      | m :: l =>
          let n := zlen l in
          (OutMsg (Some m),
           Fifo l (if n <=? ff_threshold s then ff_overload s else n)
             (next_threshold n (ff_threshold s)))
      end
  | OpLength => (OutInt (zlen (ff_msgs s)), s)
  | OpOverload =>
      (OutInt (ff_overload s), Fifo (ff_msgs s) 0 (ff_threshold s))
  end.

Definition mq_step (op : mq_op) (q : message_queue)
    : option (mq_out * message_queue) :=
  match op with
  | OpPush m => q ← mq_enqueue q m; Some (OutUnit, q)
  | OpPop => '(r, q) ← mq_pop q; Some (OutMsg r, q)
  | OpLength => Some (OutInt (uboss_mq_length q), q)
  | OpOverload => let '(o, q) := uboss_mq_overload q in Some (OutInt o, q)
  end.

Fixpoint fifo_run (ops : list mq_op) (s : fifo) : list mq_out * fifo :=
  match ops with
  | [] => ([], s)
  | op :: ops =>
      let '(o, s) := fifo_step op s in
      let '(os, s) := fifo_run ops s in (o :: os, s)
  end.

Fixpoint mq_run (ops : list mq_op) (q : message_queue)
    : option (list mq_out * message_queue) :=
  match ops with
  | [] => Some ([], q)
  | op :: ops =>
      '(o, q) ← mq_step op q;
      '(os, q) ← mq_run ops q; Some (o :: os, q)
  end.

(** [mq_msgs q l]: queue [q] holds the messages [l], oldest first. *)
Definition mq_msgs (q : message_queue) (l : list uboss_message) : Prop :=
  ring (mq_queue q) (mq_head q) l /\ mq_cap q = zlen (mq_queue q) /\
  zlen l < mq_cap q /\ mq_tail q = (mq_head q + zlen l) mod mq_cap q.

(** [mq_repr q s]: queue [q] implements the abstract state [s]. *)
Definition mq_repr (q : message_queue) (s : fifo) : Prop :=
  mq_msgs q (ff_msgs s) /\ mq_overload q = ff_overload s /\
  mq_overload_threshold q = ff_threshold s /\ 0 < ff_threshold s.

(** [gq_chain ms l]: the queues of [l] are linked by [mq_next] in this order,
    and the last one has no successor. *)
Fixpoint gq_chain (ms : gmap qid message_queue) (l : list qid) : Prop :=
  match l with
  | [] => True
  | p :: l =>
      (exists q, ms !! p = Some q /\ mq_next q = head l) /\ gq_chain ms l
  end.

(** [gq_repr w l]: the global queue is the FIFO [l]; a queue outside it has no
    successor, which is what [assert(queue->next == NULL)] relies on. *)
Definition gq_repr (w : mqstore) (l : list qid) : Prop :=
  gq_head w = head l /\ gq_tail w = last l /\ NoDup l /\
  gq_chain (mqs w) l /\
  forall p q, mqs w !! p = Some q -> p ∉ l -> mq_next q = None.

(** ** The overload threshold *)

Lemma raise_threshold_done fuel n o t :
  0 < t -> n <= t * 2 ^ Z.of_nat fuel ->
  n <= snd (raise_threshold fuel n o t).
Proof.
  revert o t. induction fuel as [|fuel IH]; intros o t Ht Hn; cbn [raise_threshold].
  - rewrite Z.mul_1_r in Hn. done.
  - destruct (Z.ltb_spec t n); [|done].
    apply IH; [lia|].
    rewrite Nat2Z.inj_succ, Z.pow_succ_r in Hn by lia. lia.
Qed.

Lemma cdiv_le n t m : 0 < t -> (n + t - 1) / t <= m <-> n <= t * m.
Proof.
  intros Ht.
  pose proof (Z.div_mod (n + t - 1) t ltac:(lia)).
  pose proof (Z.mod_pos_bound (n + t - 1) t ltac:(lia)). split; nia.
Qed.

Lemma next_threshold_double n t : 0 < t -> t < n ->
  next_threshold n t = next_threshold n (t * 2).
Proof.
  intros Ht Hn. unfold next_threshold.
  rewrite (proj2 (Z.leb_gt n t)) by lia.
  set (c := (n + t - 1) / t). set (d := (n + t * 2 - 1) / (t * 2)).
  assert (forall m, c <= m <-> n <= t * m) as Hc by (intros; by apply cdiv_le).
  assert (forall m, d <= m <-> n <= t * 2 * m) as Hd
    by (intros; apply cdiv_le; lia).
  assert (2 <= c) by (apply Z.nlt_ge; intros ?; assert (c <= 1) as Hx%Hc by lia; lia).
  assert (1 <= d) by (apply Z.nlt_ge; intros ?; assert (d <= 0) as Hx%Hd by lia; lia).
  assert (2 * d - 1 <= c <= 2 * d).
  { split.
    - assert (~ d <= d - 1) as Hx by lia. rewrite Hd in Hx.
      apply Z.nlt_ge; intros Hlt.
      assert (c <= 2 * (d - 1)) as Hy%Hc by lia. nia.
    - apply Hc. pose proof (proj1 (Hd d) ltac:(lia)). nia. }
  destruct (Z.leb_spec n (t * 2)) as [Hle|Hgt].
  - assert (d <= 1) by (apply Hd; lia).
    replace c with 2 by lia. change (Z.log2_up 2) with 1. lia.
  - assert (2 <= d) by (apply Z.nlt_ge; intros ?; assert (d <= 1) as Hx%Hd by lia; lia).
    assert (Z.log2_up c = Z.log2_up d + 1) as ->.
    { apply Z.log2_up_unique; [pose proof (Z.log2_up_nonneg d); lia|].
      pose proof (Z.log2_up_spec d ltac:(lia)) as [Hl Hr].
      pose proof (Z.log2_up_nonneg d).
      assert (0 < Z.log2_up d) by (apply Z.log2_up_pos; lia).
      replace (Z.pred (Z.log2_up d + 1)) with (Z.succ (Z.pred (Z.log2_up d))) by lia.
      rewrite Z.pow_succ_r, Z.add_1_r, Z.pow_succ_r by lia. lia. }
    rewrite Z.pow_add_r by (try apply Z.log2_up_nonneg; lia). lia.
Qed.

Lemma next_threshold_le n t : n <= t -> next_threshold n t = t.
Proof. intros. unfold next_threshold. by rewrite (proj2 (Z.leb_le n t)). Qed.

Lemma raise_threshold_spec fuel n o t : 0 < t -> n <= t * 2 ^ Z.of_nat fuel ->
  raise_threshold fuel n o t =
  (if n <=? t then o else n, next_threshold n t).
Proof.
  revert o t. induction fuel as [|fuel IH]; intros o t Ht Hn; cbn [raise_threshold].
  - rewrite Z.mul_1_r in Hn. rewrite next_threshold_le by done.
    by rewrite (proj2 (Z.leb_le n t)).
  - destruct (Z.ltb_spec t n).
    + rewrite IH; [| lia |].
      * rewrite <-next_threshold_double, (proj2 (Z.leb_gt n t)) by lia.
        by destruct (n <=? t * 2).
      * rewrite Nat2Z.inj_succ, Z.pow_succ_r in Hn by lia. lia.
    + rewrite next_threshold_le by done. by rewrite (proj2 (Z.leb_le n t)).
Qed.

Lemma raise_threshold_enough n t : 0 < t -> n <= t * 2 ^ Z.of_nat (Z.to_nat n).
Proof.
  intros Ht. destruct (Z.le_gt_cases n 0).
  - pose proof (Z.pow_pos_nonneg 2 (Z.of_nat (Z.to_nat n)) ltac:(lia) ltac:(lia)).
    nia.
  - rewrite Z2Nat.id by lia. pose proof (Z.pow_gt_lin_r 2 n ltac:(lia) ltac:(lia)).
    nia.
Qed.

Lemma next_threshold_ge n t : 0 < t -> n <= next_threshold n t /\ 0 < next_threshold n t.
Proof.
  intros Ht. unfold next_threshold. destruct (Z.leb_spec n t); [lia|].
  assert (1 < (n + t - 1) / t) as Hc.
  { apply Z.nle_gt. rewrite cdiv_le by done. lia. }
  pose proof (proj2 (Z.log2_up_spec _ Hc)) as Hr.
  split; [by apply cdiv_le|].
  pose proof (Z.log2_up_nonneg ((n + t - 1) / t)).
  pose proof (Z.pow_pos_nonneg 2 (Z.log2_up ((n + t - 1) / t)) ltac:(lia) ltac:(lia)).
  nia.
Qed.

(** ** One queue implements the FIFO *)

(** The fields that the ring operations leave alone. *)
Definition same_links (q q' : message_queue) : Prop :=
  mq_next q' = mq_next q /\ mq_release q' = mq_release q /\
  mq_handle q' = mq_handle q /\ mq_in_global q' = mq_in_global q.

Lemma new_message_queue_msgs h : mq_msgs (new_message_queue h) [].
Proof. split_and!; [apply ring_nil; vm_compute; intuition congruence | done ..]. Qed.

Lemma mq_msgs_empty q l : mq_msgs q l -> (mq_head q =? mq_tail q) = bool_decide (l = []).
Proof.
  intros ((Hh & _ & _) & Hcap & Hlen & Htail). rewrite Htail, <-Hcap in *.
  rewrite <-(Z.add_0_r (mq_head q)) at 1.
  rewrite <-(Z.mod_small (mq_head q + 0) (mq_cap q)) by lia.
  destruct l as [|m l].
  - rewrite bool_decide_eq_true_2 by done. apply Z.eqb_refl.
  - rewrite bool_decide_eq_false_2 by done. apply Z.eqb_neq.
    intros Heq%mod_offset_inj; rewrite ?zlen_cons in *; pose proof (zlen_nonneg l); lia.
Qed.

Lemma mq_msgs_length q l : mq_msgs q l -> uboss_mq_length q = zlen l.
Proof.
  intros ((Hh & _ & _) & Hcap & Hlen & Htail). unfold uboss_mq_length.
  rewrite <-Hcap in Hh. pose proof (zlen_nonneg l). rewrite Htail.
  destruct (Z.lt_ge_cases (mq_head q + zlen l) (mq_cap q)).
  - rewrite Z.mod_small by lia. destruct (Z.leb_spec (mq_head q) (mq_head q + zlen l)); lia.
  - replace ((mq_head q + zlen l) mod mq_cap q) with (mq_head q + zlen l - mq_cap q).
    + destruct (Z.leb_spec (mq_head q) (mq_head q + zlen l - mq_cap q)); lia.
    + apply Z.mod_unique with 1; lia.
Qed.

(** Stepping an index of a circular buffer, as the code writes it. *)
Lemma wrap_succ i c : 0 <= i < c -> (if c <=? i + 1 then 0 else i + 1) = (i + 1) mod c.
Proof.
  intros. destruct (Z.leb_spec c (i + 1)).
  - replace (i + 1) with c by lia. by rewrite Z_mod_same_full.
  - by rewrite Z.mod_small by lia.
Qed.

Lemma mq_pop_empty q : mq_msgs q [] ->
  mq_pop q = Some (None, set_mq_in_global 0 (set_mq_overload (mq_overload q) MQ_OVERLOAD q)).
Proof. intros H. unfold mq_pop. by rewrite (mq_msgs_empty _ _ H). Qed.

Lemma mq_pop_cons q m l : mq_msgs q (m :: l) -> 0 < mq_overload_threshold q ->
  exists q', mq_pop q = Some (Some m, q') /\ mq_msgs q' l /\ same_links q q' /\
    mq_overload q' = (if zlen l <=? mq_overload_threshold q
                      then mq_overload q else zlen l) /\
    mq_overload_threshold q' = next_threshold (zlen l) (mq_overload_threshold q).
Proof.
  intros H Hthr. pose proof H as (Hr & Hcap & Hlen & Htail).
  pose proof Hr as (Hh & _ & _). rewrite zlen_cons in *.
  unfold mq_pop. rewrite (mq_msgs_empty _ _ H), (ring_head _ _ _ _ Hr). simpl.
  rewrite wrap_succ by lia.
  assert (mq_msgs (set_mq_ring (mq_cap q) ((mq_head q + 1) mod mq_cap q)
                     (mq_tail q) (mq_queue q) q) l) as Hq'.
  { split_and!; simpl; [rewrite Hcap; by eapply ring_tail | done | lia |].
    rewrite Z.add_mod_idemp_l, Htail by lia. f_equal; lia. }
  pose proof (mq_msgs_length _ _ Hq') as Hn. unfold uboss_mq_length in Hn; simpl in Hn.
  set (n := if _ <? 0 then _ else _).
  assert (n = zlen l) as Hnl.
  { subst n. revert Hn. zdec; lia. }
  rewrite raise_threshold_spec, Hnl
    by (done || rewrite ?Hnl; by apply raise_threshold_enough).
  eexists; split; [done|]. by split_and!.
Qed.

Lemma mq_enqueue_msgs q l m : mq_msgs q l ->
  exists q', mq_enqueue q m = Some q' /\ mq_msgs q' (l ++ [m]) /\ same_links q q' /\
    mq_overload q' = mq_overload q /\
    mq_overload_threshold q' = mq_overload_threshold q.
Proof.
  intros (Hr & Hcap & Hlen & Htail). pose proof Hr as (Hh & _ & _).
  pose proof (zlen_nonneg l).
  rewrite Hcap in Hlen, Htail.
  destruct (ring_snoc _ _ _ m Hlen Hr) as (buf' & Hset & Hbl & Hr').
  unfold mq_enqueue. rewrite Htail, Hset. cbn [mbind option_bind].
  rewrite Hcap, wrap_succ by (apply Z.mod_pos_bound; lia).
  rewrite Z.add_mod_idemp_l by lia. cbn [mq_head mq_tail set_mq_ring].
  replace (mq_head q + zlen l + 1) with (mq_head q + zlen (l ++ [m]))
    by (rewrite zlen_app, zlen_cons; change (zlen (@nil uboss_message)) with 0; lia).
  assert (zlen (l ++ [m]) = zlen l + 1) as Hl1
    by (rewrite zlen_app, zlen_cons; change (zlen (@nil uboss_message)) with 0; lia).
  destruct (Z.eqb_spec (mq_head q) ((mq_head q + zlen (l ++ [m])) mod zlen (mq_queue q)))
    as [Heq|Hne].
  - (* full: expand *)
    assert (zlen (l ++ [m]) = zlen (mq_queue q)) as Hfull.
    { destruct (decide (zlen (l ++ [m]) < zlen (mq_queue q))) as [Hlt|]; [|lia].
      exfalso. rewrite <-(Z.add_0_r (mq_head q)) in Heq at 1.
      rewrite <-(Z.mod_small (mq_head q + 0) (zlen (mq_queue q))) in Heq by lia.
      apply mod_offset_inj in Heq; lia. }
    unfold expand_queue; cbn [mq_queue mq_cap mq_head set_mq_ring].
    rewrite <-Hbl.
    replace (Z.to_nat (zlen buf')) with (length buf') by (unfold zlen; lia).
    destruct (unroll_total buf' (mq_head q) (length buf') 0 ltac:(lia)) as [new Hnew].
    rewrite Hnew. cbn [mbind option_bind]. eexists; split; [done|].
    pose proof (unroll_spec _ _ _ _ _ Hnew) as [Hnewlen _]. fold (zlen buf') in Hnewlen.
    split; [|by split_and!]. split_and!; cbn [mq_queue mq_cap mq_head mq_tail set_mq_ring].
    + eapply ring_grow; [done | done |]. rewrite zlen_replicate.
      unfold zlen in *. lia.
    + rewrite zlen_app, zlen_replicate. unfold zlen in *; lia.
    + lia.
    + rewrite Z.add_0_l, Z.mod_small; lia.
  - eexists; split; [done|]. split; [|by split_and!].
    split_and!; cbn [mq_queue mq_cap mq_head mq_tail set_mq_ring]; rewrite ?Hbl; try done.
    destruct (decide (zlen (l ++ [m]) = zlen (mq_queue q))) as [Hf|]; [|lia].
    exfalso. apply Hne. rewrite Hf, <-Z.add_mod_idemp_r, Z_mod_same_full, Z.add_0_r by lia.
    by rewrite Z.mod_small.
Qed.

Lemma mq_repr_intro q l o t : mq_msgs q l -> mq_overload q = o ->
  mq_overload_threshold q = t -> 0 < t -> mq_repr q (Fifo l o t).
Proof. done. Qed.

Lemma mq_step_refines op q s : mq_repr q s ->
  exists q', mq_step op q = Some ((fifo_step op s).1, q') /\
    mq_repr q' (fifo_step op s).2.
Proof.
  intros (Hm & Ho & Ht & Hpos). destruct s as [l o t]; simpl in *; subst o t.
  destruct op as [m| | |]; simpl.
  - destruct (mq_enqueue_msgs q l m Hm) as (q' & -> & Hm' & _ & Ho & Ht).
    eexists; split; [done|]. by apply mq_repr_intro.
  - destruct l as [|m l].
    + rewrite (mq_pop_empty _ Hm). eexists; split; [done|]. by apply mq_repr_intro.
    + destruct (mq_pop_cons q m l Hm Hpos) as (q' & -> & Hm' & _ & Ho & Ht).
      eexists; split; [done|]. apply mq_repr_intro; try done.
      by apply next_threshold_ge.
  - rewrite (mq_msgs_length _ _ Hm). eexists; split; [done|]. by apply mq_repr_intro.
  - unfold uboss_mq_overload. destruct (Z.eqb_spec (mq_overload q) 0) as [Heq|].
    + rewrite Heq. eexists; split; [done|]. by apply mq_repr_intro.
    + eexists; split; [done|]. by apply mq_repr_intro.
Qed.

Lemma mq_run_refines ops q s : mq_repr q s ->
  exists q', mq_run ops q = Some ((fifo_run ops s).1, q') /\
    mq_repr q' (fifo_run ops s).2.
Proof.
  revert q s. induction ops as [|op ops IH]; intros q s Hq; simpl; [by eexists|].
  destruct (mq_step_refines op q s Hq) as (q1 & -> & Hq1).
  destruct (fifo_step op s) as [o s1]; simpl in *.
  destruct (IH q1 s1 Hq1) as (q2 & -> & Hq2).
  destruct (fifo_run ops s1) as [os s2]; simpl in *. by eexists.
Qed.

(** ** The global queue *)

(** What remains of a store when the links of the global queue are erased. *)
Definition unlinked (w : mqstore) (r : qid) : option message_queue :=
  set_mq_next None <$> mqs w !! r.

Lemma gq_chain_elem ms l p : gq_chain ms l -> p ∈ l -> is_Some (ms !! p).
Proof.
  induction l as [|r l IH]; simpl; [set_solver|].
  intros [(q & Hq & _) Hc] [->|Hp]%elem_of_cons; [by eexists | auto].
Qed.

Lemma gq_chain_insert ms l p q : gq_chain ms l ->
  (forall q0, p ∈ l -> ms !! p = Some q0 -> mq_next q = mq_next q0) ->
  gq_chain (<[p := q]> ms) l.
Proof.
  induction l as [|r l IH]; simpl; [done|].
  intros [(q0 & Hq0 & Hn) Hc] Hp. split.
  - destruct (decide (p = r)) as [->|].
    + exists q. rewrite lookup_insert_eq. split; [done|].
      rewrite <-Hn. apply Hp; [set_solver | done].
    + exists q0. by rewrite lookup_insert_ne.
  - apply IH; [done|]. intros q1 Hin. apply Hp. set_solver.
Qed.

(** Linking [p] behind the last queue. *)
Lemma gq_chain_snoc ms l t p tq q :
  gq_chain ms l -> last l = Some t -> NoDup l -> ms !! t = Some tq ->
  p ∉ l -> ms !! p = Some q -> mq_next q = None ->
  gq_chain (<[t := set_mq_next (Some p) tq]> ms) (l ++ [p]).
Proof.
  induction l as [|r l IH]; simpl; [done|].
  intros [(q0 & Hq0 & Hn) Hc] Hlast Hnd Ht Hp Hq Hqn.
  apply NoDup_cons in Hnd as [Hr Hnd].
  destruct l as [|r' l].
  - simpl in Hlast. injection Hlast as ->. simpl. split.
    + eexists. by rewrite lookup_insert_eq.
    + split; [|done]. exists q. rewrite lookup_insert_ne; [done|]. intros ->.
      apply Hp; left.
  - change (last (r' :: l) = Some t) in Hlast. split.
    + exists q0. rewrite lookup_insert_ne; [done|]. intros ->.
      apply Hr. by apply last_Some_elem_of in Hlast.
    + apply IH; try done. intros ?; apply Hp; by right.
Qed.

Lemma globalmq_push_spec w l p q :
  gq_repr w l -> mqs w !! p = Some q -> p ∉ l ->
  exists w', uboss_globalmq_push p w = Some w' /\ gq_repr w' (l ++ [p]) /\
    forall r, unlinked w' r = unlinked w r.
Proof.
  intros (Hh & Ht & Hnd & Hc & Hout) Hp Hpl.
  assert (mq_next q = None) as Hn by eauto.
  assert (NoDup (l ++ [p])) as Hnd'.
  { apply NoDup_app. split_and!; [done | | apply NoDup_singleton].
    intros r Hr ->%list_elem_of_singleton. done. }
  unfold uboss_globalmq_push. rewrite Hp; simpl. rewrite Hn, bool_decide_eq_true_2 by done.
  simpl. rewrite Ht. destruct (last l) as [t|] eqn:Hlast.
  - destruct (gq_chain_elem (mqs w) l t) as [tq Htq]; [done | by apply last_Some_elem_of|].
    rewrite Htq. simpl. eexists; split; [done|]. unfold gq_repr; split_and!; simpl.
    + rewrite Hh. destruct l; simplify_eq/=; done.
    + by rewrite last_snoc.
    + done.
    + by eapply gq_chain_snoc.
    + intros r rq. destruct (decide (t = r)) as [->|].
      * intros _ Hr. apply last_Some_elem_of in Hlast. set_solver.
      * rewrite lookup_insert_ne by done. intros. eapply Hout; [done | set_solver].
    + intros r. unfold unlinked; simpl. destruct (decide (t = r)) as [->|].
      * by rewrite lookup_insert_eq, Htq.
      * by rewrite lookup_insert_ne.
  - apply last_None in Hlast as ->. eexists; split; [done|]. unfold gq_repr.
    split_and!; simpl; try done.
    + split; [by eexists | done].
    + intros r rq Hr ?. eapply Hout; [done | set_solver].
Qed.

Lemma globalmq_pop_spec w l : gq_repr w l ->
  exists w', uboss_globalmq_pop w = Some (head l, w') /\ gq_repr w' (tail l) /\
    forall r, unlinked w' r = unlinked w r.
Proof.
  intros (Hh & Ht & Hnd & Hc & Hout). unfold uboss_globalmq_pop. rewrite Hh.
  destruct l as [|p l]; simpl in *.
  - eexists; split; [done|]. unfold gq_repr. by split_and!.
  - destruct Hc as [(q & Hq & Hn) Hc]. apply NoDup_cons in Hnd as [Hp Hnd].
    rewrite Hq; simpl. rewrite Hn.
    assert (gq_repr (MqStore (<[p := set_mq_next None q]> (mqs w)) (head l) (last l)) l)
      as Hw'.
    { unfold gq_repr; split_and!; simpl; try done.
      - apply gq_chain_insert; [done|]. intros; done.
      - intros r rq. destruct (decide (p = r)) as [->|].
        + rewrite lookup_insert_eq. by intros [= <-] _.
        + rewrite lookup_insert_ne by done. intros. eapply Hout; [done | set_solver]. }
    assert (forall t r, unlinked (MqStore (<[p := set_mq_next None q]> (mqs w)) (head l) t) r
              = unlinked w r) as Hun.
    { intros t r. unfold unlinked; simpl. destruct (decide (p = r)) as [->|].
      - by rewrite lookup_insert_eq, Hq.
      - by rewrite lookup_insert_ne. }
    destruct l as [|p' l]; simpl in *.
    + rewrite Ht, bool_decide_eq_true_2 by done. simpl.
      eexists; split; [done|]. by split.
    + rewrite Ht. eexists; split; [done|]. by split.
Qed.

(** ** Properties *)

(** The service message queue is a FIFO with an overload mark: every
    sequence of [uboss_mq_push], [uboss_mq_pop], [uboss_mq_length] and
    [uboss_mq_overload] on a created queue succeeds (no access outside the
    circular array, no uninitialised message is read, whatever the number of
    expansions) and returns exactly what the abstract FIFO returns. *)
Theorem mq_refines_fifo handle ops :
  exists q', mq_run ops (new_message_queue handle) =
               Some ((fifo_run ops (Fifo [] 0 MQ_OVERLOAD)).1, q') /\
    mq_repr q' (fifo_run ops (Fifo [] 0 MQ_OVERLOAD)).2.
Proof.
  apply mq_run_refines, mq_repr_intro; [apply new_message_queue_msgs | done ..].
Qed.

(** The loop of [uboss_mq_pop] that raises the overload threshold
    terminates within [length] iterations, and then the threshold is the old
    one doubled the least number of times that makes it at least [length]; the
    overload mark becomes [length] exactly when the threshold was exceeded. *)
Theorem raise_threshold_correct n o t (Ht : 0 < t) :
  let '(o', t') := raise_threshold (Z.to_nat n) n o t in
  n <= t' /\ o' = (if n <=? t then o else n) /\
  (exists k, 0 <= k /\ t' = t * 2 ^ k) /\
  (forall k, 0 <= k -> n <= t * 2 ^ k -> t' <= t * 2 ^ k).
Proof.
  rewrite raise_threshold_spec by (done || by apply raise_threshold_enough).
  split_and!; [by apply next_threshold_ge | done | |]; unfold next_threshold.
  - destruct (Z.leb_spec n t); [by exists 0; rewrite Z.mul_1_r|].
    eexists; split; [apply Z.log2_up_nonneg | done].
  - intros k Hk Hn. destruct (Z.leb_spec n t).
    + pose proof (Z.pow_pos_nonneg 2 k ltac:(lia) Hk). nia.
    + apply Z.mul_le_mono_nonneg_l; [lia|]. apply Z.pow_le_mono_r; [lia|].
      apply cdiv_le in Hn; [|done].
      rewrite <-(Z.log2_up_pow2 k) by done. by apply Z.log2_up_le_mono.
Qed.

Lemma raise_threshold_correct_witness :
  0 < 1024 /\ raise_threshold (Z.to_nat 5000) 5000 0 1024 = (5000, 8192) /\ 5000 <= 8192.
Proof.
  split_and!; [done | reflexivity |].
  pose proof (raise_threshold_correct 5000 0 1024 ltac:(reflexivity)) as H.
  exact (proj1 H).
Defined.

(** The global queue of queues is a FIFO of queues: pushing a queue that
    is not in it succeeds and appends it, popping returns the oldest and leaves
    the rest; only link fields of the queues change. *)
Theorem globalmq_fifo w l p q :
  gq_repr w l -> mqs w !! p = Some q -> p ∉ l ->
  (exists w', uboss_globalmq_push p w = Some w' /\ gq_repr w' (l ++ [p]) /\
     forall r, unlinked w' r = unlinked w r) /\
  (exists w', uboss_globalmq_pop w = Some (head l, w') /\ gq_repr w' (tail l) /\
     forall r, unlinked w' r = unlinked w r).
Proof. eauto using globalmq_push_spec, globalmq_pop_spec. Qed.

(** A store with queues 1 and 2 linked in the global queue and 3 outside. *)
Definition gq_example : mqstore :=
  MqStore (<[1%nat := set_mq_next (Some 2%nat) (new_message_queue 1)]>
            (<[2%nat := new_message_queue 2]>
              (<[3%nat := new_message_queue 3]> ∅))) (Some 1%nat) (Some 2%nat).

Lemma globalmq_fifo_witness :
  (exists w', uboss_globalmq_push 3 gq_example = Some w' /\
     gq_repr w' [1%nat; 2%nat; 3%nat] /\
     forall r, unlinked w' r = unlinked gq_example r) /\
  (exists w', uboss_globalmq_pop gq_example = Some (Some 1%nat, w') /\
     gq_repr w' [2%nat] /\ forall r, unlinked w' r = unlinked gq_example r).
Proof.
  apply (globalmq_fifo gq_example [1%nat; 2%nat] 3%nat (new_message_queue 3)).
  - unfold gq_repr; simpl. split_and!; try done.
    + apply NoDup_cons; split; [|apply NoDup_singleton].
      by intros ?%list_elem_of_singleton.
    + by eexists.
    + by eexists.
    + intros r q. rewrite !lookup_insert_Some, lookup_empty.
      intros [[<- _]|[_ [[_ <-]|[_ [[_ <-]|[_ ?]]]]]] Hr; try done.
      destruct Hr. left.
  - reflexivity.
  - intros [?|?%list_elem_of_singleton]%elem_of_cons; done.
Defined.
