(* ===== verification/MqInt.v ===== *)
(** core/uboss_mq.c with its integers at their width: the indices, the capacity and the
    overload threshold of a queue are [int]s, which double without a limit.

    Each function is the one of [Mq] with every addition and multiplication of [int]s
    checked: an overflow is undefined and makes the result [None].  The other files use the
    functions of [Mq]; the two agree until a queue is to hold 2^30 messages ([step_agree]),
    when the capacity overflows. *)
From S2P Require Import Prelude Ring Mq.

(** The result of an operation on [int]s. *)
Definition int (z : Z) : option Z := _ ← cassert ((- 2 ^ 31 <=? z) && (z <? 2 ^ 31)); Some z.

(** [uboss_mq_length]. *)
Definition uboss_mq_length_int (q : message_queue) : option Z :=
  if mq_head q <=? mq_tail q then int (mq_tail q - mq_head q)
  else sum ← int (mq_tail q + mq_cap q); int (sum - mq_head q).

(** The loop on the overload threshold. *)
Fixpoint raise_threshold_int (fuel : nat) (length o t : Z) : option (Z * Z) :=
  match fuel with
  | O => Some (o, t)
  | S fuel =>
      if t <? length then t2 ← int (t * 2); raise_threshold_int fuel length length t2 else Some (o, t)
  end.

(** [uboss_mq_pop]. *)
Definition mq_pop_int (q : message_queue) : option (option uboss_message * message_queue) :=
  if mq_head q =? mq_tail q then
    Some (None, set_mq_in_global 0 (set_mq_overload (mq_overload q) MQ_OVERLOAD q))
  else
    cell ← (mq_queue q).[mq_head q];
    message ← cell;
    head ← int (mq_head q + 1);
    let head := if mq_cap q <=? head then 0 else head in
    length ← int (mq_tail q - head);
    length ← (if length <? 0 then int (length + mq_cap q) else Some length);
    '(o, t) ← raise_threshold_int (Z.to_nat length) length (mq_overload q) (mq_overload_threshold q);
    Some (Some message, set_mq_overload o t (set_mq_ring (mq_cap q) head (mq_tail q) (mq_queue q) q)).

(** The loop of [expand_queue]. *)
Fixpoint unroll_int (buf : list (option uboss_message)) (cap head i : Z) (n : nat) : option (list (option uboss_message)) :=
  match n with
  | O => Some []
  | S n =>
      sum ← int (head + i);
      x ← buf.[sum mod cap];
      l ← unroll_int buf cap head (i + 1) n;
      Some (x :: l)
  end.

(** [expand_queue]; the size of the new array is a [size_t]. *)
Definition expand_queue_int (q : message_queue) : option message_queue :=
  copied ← unroll_int (mq_queue q) (mq_cap q) (mq_head q) 0 (Z.to_nat (mq_cap q));
  cap ← int (mq_cap q * 2);
  Some (set_mq_ring cap 0 (mq_cap q) (copied ++ replicate (Z.to_nat (mq_cap q)) None) q).

(** [uboss_mq_push] on the queue itself. *)
Definition mq_enqueue_int (q : message_queue) (message : uboss_message) : option message_queue :=
  buf ← (mq_queue q).[mq_tail q := Some message];
  tail ← int (mq_tail q + 1);
  let tail := if mq_cap q <=? tail then 0 else tail in
  let q := set_mq_ring (mq_cap q) (mq_head q) tail buf q in
  if mq_head q =? mq_tail q then expand_queue_int q else Some q.

Definition mq_step_int (op : mq_op) (q : message_queue) : option (mq_out * message_queue) :=
  match op with
  | OpPush m => q ← mq_enqueue_int q m; Some (OutUnit, q)
  | OpPop => '(r, q) ← mq_pop_int q; Some (OutMsg r, q)
  | OpLength => n ← uboss_mq_length_int q; Some (OutInt n, q)
  | OpOverload => let '(o, q) := uboss_mq_overload q in Some (OutInt o, q)
  end.

Fixpoint mq_run_int (ops : list mq_op) (q : message_queue) : option (list mq_out * message_queue) :=
  match ops with
  | [] => Some ([], q)
  | op :: ops =>
      '(o, q) ← mq_step_int op q;
      '(os, q) ← mq_run_int ops q; Some (o :: os, q)
  end.

(** ** Specification *)

(** The messages that the largest array has room for: one cell stays free. *)
Definition MAX_MESSAGES : Z := 2 ^ 30 - 1.

(** The queue never has to hold more. *)
Definition step_fits (op : mq_op) (s : fifo) : bool :=
  match op with OpPush _ => zlen (ff_msgs s) <? MAX_MESSAGES | _ => true end.

Fixpoint run_fits (ops : list mq_op) (s : fifo) : bool :=
  match ops with
  | [] => true
  | op :: ops => step_fits op s && run_fits ops (fifo_step op s).2
  end.

(** The integers of a queue are in their range: the capacity is 64, doubled. *)
Definition ints_ok (q : message_queue) : Prop :=
  (exists k, 0 <= k <= 24 /\ mq_cap q = 64 * 2 ^ k) /\ mq_overload_threshold q < 2 ^ 31.

Lemma int_ok z : - 2 ^ 31 <= z < 2 ^ 31 -> int z = Some z.
Proof. intros Hz. unfold int. by rewrite (proj2 (Z.leb_le _ _)), (proj2 (Z.ltb_lt _ _)) by lia. Qed.

Lemma int_overflow z : 2 ^ 31 <= z -> int z = None.
Proof. intros Hz. unfold int. rewrite (proj2 (Z.ltb_ge _ _)) by lia. by rewrite andb_false_r. Qed.

Lemma ints_ok_cap q : ints_ok q -> 64 <= mq_cap q <= 2 ^ 30.
Proof.
  intros [(k & Hk & ->) _]. pose proof (Z.pow_pos_nonneg 2 k ltac:(lia) ltac:(lia)).
  pose proof (Z.pow_le_mono_r 2 k 24 ltac:(lia) ltac:(lia)). lia.
Qed.

Lemma raise_threshold_int_ok fuel n o t : n < 2 ^ 30 -> 0 < t -> t < 2 ^ 31 ->
  raise_threshold_int fuel n o t = Some (raise_threshold fuel n o t) /\ (raise_threshold fuel n o t).2 < 2 ^ 31.
Proof.
  intros Hn. revert o t. induction fuel as [|fuel IH]; intros o t Hp Ht; cbn [raise_threshold_int raise_threshold]; [done|].
  destruct (Z.ltb_spec t n); [|done]. rewrite int_ok by lia. apply IH; lia.
Qed.

Lemma unroll_int_ok buf cap head n : 0 <= head -> forall i, 0 <= i -> head + i + Z.of_nat n <= 2 ^ 31 ->
  unroll_int buf cap head i n = unroll buf cap head i n.
Proof.
  intros Hh. induction n as [|n IH]; intros i Hi Hmax; cbn [unroll_int unroll]; [done|].
  rewrite int_ok by lia. cbn [mbind option_bind]. by rewrite IH by lia.
Qed.

Lemma expand_int_ok q : ints_ok q -> 0 <= mq_head q < mq_cap q -> is_Some (expand_queue q) ->
  expand_queue_int q = if mq_cap q <? 2 ^ 30 then expand_queue q else None.
Proof.
  intros Hq Hh [q' Hx]. pose proof (ints_ok_cap q Hq). unfold expand_queue_int, expand_queue in *.
  rewrite unroll_int_ok by lia. destruct (unroll _ _ _ _ _); [|done]. cbn [mbind option_bind].
  destruct (Z.ltb_spec (mq_cap q) (2 ^ 30)); [by rewrite int_ok by lia|by rewrite int_overflow by lia].
Qed.

(** One operation: the checked one is the one of [Mq], but for the push that fills the
    largest array. *)
Lemma enqueue_int_ok q l m : mq_msgs q l -> ints_ok q ->
  mq_enqueue_int q m = if zlen l <? MAX_MESSAGES then mq_enqueue q m else None.
Proof.
  intros Hm Hq. destruct (mq_enqueue_msgs q l m Hm) as (q' & E & Hm' & _). pose proof (ints_ok_cap q Hq).
  destruct Hm as ((Hh & _ & _) & Hcap & Hlen & Htail). rewrite <-Hcap in Hh. pose proof (zlen_nonneg l).
  assert (0 <= mq_tail q < mq_cap q) as Ht by (rewrite Htail; apply Z.mod_pos_bound; lia).
  unfold mq_enqueue_int, mq_enqueue in *. destruct ((mq_queue q).[mq_tail q := Some m]) as [buf|]; [|done].
  cbn [mbind option_bind] in *. rewrite int_ok by lia. cbn [mbind option_bind]. rewrite wrap_succ in * by done.
  cbn [mq_head mq_tail set_mq_ring] in *. set (q1 := set_mq_ring _ _ _ _ q) in *.
  assert (((mq_tail q + 1) mod mq_cap q) = ((mq_head q + (zlen l + 1)) mod mq_cap q)) as Ht1.
  { rewrite Htail, Z.add_mod_idemp_l by lia. f_equal. lia. }
  unfold MAX_MESSAGES. destruct (Z.eqb_spec (mq_head q) ((mq_tail q + 1) mod mq_cap q)) as [Heq|Hne].
  - assert (zlen l + 1 = mq_cap q) as Hfull.
    { destruct (decide (zlen l + 1 < mq_cap q)) as [Hlt|]; [|lia]. exfalso. rewrite Ht1 in Heq.
      rewrite <-(Z.add_0_r (mq_head q)) in Heq at 1. rewrite <-(Z.mod_small (mq_head q + 0) (mq_cap q)) in Heq by lia.
      apply mod_offset_inj in Heq; lia. }
    rewrite expand_int_ok; [|exact Hq|exact Hh|by exists q']. change (mq_cap q1) with (mq_cap q).
    destruct (Z.ltb_spec (mq_cap q) (2 ^ 30)), (Z.ltb_spec (zlen l) (2 ^ 30 - 1)); (done || lia).
  - assert (zlen l + 1 <> mq_cap q) as Hnf.
    { intros Hf. apply Hne. rewrite Ht1, Hf, <-Z.add_mod_idemp_r, Z_mod_same_full, Z.add_0_r by lia. by rewrite Z.mod_small. }
    by rewrite (proj2 (Z.ltb_lt _ _)) by lia.
Qed.

Lemma int_inv z z' : int z = Some z' -> z' = z /\ z < 2 ^ 31.
Proof. unfold int, cassert. case_match eqn:E; [|done]. intros [= <-]. apply andb_true_iff in E as [_ E]. lia. Qed.

Lemma enqueue_ints q m q' : ints_ok q -> mq_enqueue_int q m = Some q' -> ints_ok q'.
Proof.
  intros [(k & Hk & Hc) Ht]. unfold mq_enqueue_int. intros E. inv_opt. case_match; [|simplify_eq; by split; [exists k|]].
  unfold expand_queue_int in E. apply bind_Some in E as (buf & _ & E). apply bind_Some in E as (cap & Hi & E).
  injection E as <-. cbn [mq_cap set_mq_ring] in Hi. apply int_inv in Hi as [-> Hlt]. split; [|done]. exists (k + 1).
  cbn [mq_cap set_mq_ring]. rewrite Hc in *. rewrite Z.pow_add_r by lia. split; [|lia].
  change (2 ^ 31) with (64 * 2 ^ 24 * 2) in Hlt. assert (2 ^ k < 2 ^ 24) as Hp by lia.
  apply Z.pow_lt_mono_r_iff in Hp; lia.
Qed.

Lemma pop_int_ok q l : mq_msgs q l -> ints_ok q -> 0 < mq_overload_threshold q ->
  mq_pop_int q = mq_pop q /\ forall r q', mq_pop q = Some (r, q') -> ints_ok q'.
Proof.
  intros Hm Hq Hpos. pose proof (ints_ok_cap q Hq). pose proof Hq as [Hc Ht]. destruct l as [|m l].
  - unfold mq_pop_int. rewrite (mq_pop_empty _ Hm), (mq_msgs_empty _ _ Hm), bool_decide_eq_true_2 by done.
    split; [done|]. intros r q' [= <- <-]. split; [exact Hc|]. cbn. unfold MQ_OVERLOAD. lia.
  - destruct (mq_pop_cons q m l Hm Hpos) as (q1 & E & Hm1 & _ & _). unfold mq_pop_int, mq_pop in *.
    pose proof Hm as ((Hh & Hll & _) & Hcap & Hlen & Htail). rewrite <-Hcap in *. rewrite zlen_cons in Hlen.
    assert (0 <= mq_tail q < mq_cap q) as Htl by (rewrite Htail; apply Z.mod_pos_bound; lia).
    destruct (mq_head q =? mq_tail q); [discriminate E|]. destruct ((mq_queue q).[mq_head q]) as [[x|]|]; try discriminate E.
    cbn [mbind option_bind] in *. rewrite int_ok by lia. cbn [mbind option_bind].
    set (hd := if mq_cap q <=? mq_head q + 1 then 0 else mq_head q + 1) in *.
    assert (0 <= hd < mq_cap q) as Hhd by (subst hd; destruct (Z.leb_spec (mq_cap q) (mq_head q + 1)); lia).
    rewrite int_ok by lia. cbn [mbind option_bind].
    set (n := if mq_tail q - hd <? 0 then mq_tail q - hd + mq_cap q else mq_tail q - hd) in *.
    assert ((if mq_tail q - hd <? 0 then int (mq_tail q - hd + mq_cap q) else Some (mq_tail q - hd)) = Some n) as ->
      by (subst n; destruct (mq_tail q - hd <? 0); [rewrite int_ok by lia|]; done).
    cbn [mbind option_bind]. assert (n < 2 ^ 30) as Hn by (subst n; destruct (Z.ltb_spec (mq_tail q - hd) 0); lia).
    destruct (raise_threshold_int_ok (Z.to_nat n) n (mq_overload q) (mq_overload_threshold q) Hn Hpos Ht) as [-> Hr].
    cbn [mbind option_bind]. destruct (raise_threshold _ _ _ _) as [o t]. split; [done|].
    intros r q' [= <- <-]. split; [exact Hc|]. cbn [mq_overload_threshold set_mq_overload]. exact Hr.
Qed.

Lemma length_int_ok q l : mq_msgs q l -> ints_ok q -> uboss_mq_length_int q = Some (uboss_mq_length q).
Proof.
  intros ((Hh & _ & _) & Hcap & Hlen & Htail) Hq. pose proof (ints_ok_cap q Hq). rewrite <-Hcap in Hh.
  assert (0 <= mq_tail q < mq_cap q) as Ht by (rewrite Htail; apply Z.mod_pos_bound; lia).
  unfold uboss_mq_length_int, uboss_mq_length. destruct (Z.leb_spec (mq_head q) (mq_tail q)); [by rewrite int_ok by lia|].
  rewrite int_ok by lia. cbn [mbind option_bind]. by rewrite int_ok by lia.
Qed.

Lemma step_agree op q s : mq_repr q s -> ints_ok q ->
  mq_step_int op q = (if step_fits op s then mq_step op q else None) /\
  forall o q', mq_step_int op q = Some (o, q') -> ints_ok q'.
Proof.
  intros (Hm & _ & Ht & Hpos) Hq. rewrite <-Ht in Hpos. destruct op as [m| | |]; cbn [mq_step_int mq_step step_fits].
  - rewrite (enqueue_int_ok q (ff_msgs s) m Hm Hq). split; [by destruct (zlen (ff_msgs s) <? MAX_MESSAGES)|].
    intros o q' E. apply bind_Some in E as (q1 & E & [= <- <-]).
    rewrite <-(enqueue_int_ok q (ff_msgs s) m Hm Hq) in E. by eapply enqueue_ints.
  - destruct (pop_int_ok q _ Hm Hq Hpos) as [-> Hok]. split; [done|].
    intros o q' E. apply bind_Some in E as ([r q1] & E & [= <- <-]). by eapply Hok.
  - rewrite (length_int_ok q _ Hm Hq). split; [done|]. intros o q' [= <- <-]. exact Hq.
  - split; [done|]. intros o q'. unfold uboss_mq_overload. destruct (mq_overload q =? 0); intros [= <- <-]; exact Hq.
Qed.

Lemma run_agree ops : forall q s, mq_repr q s -> ints_ok q ->
  if run_fits ops s
  then exists q', mq_run_int ops q = Some ((fifo_run ops s).1, q') /\ mq_repr q' (fifo_run ops s).2 /\ ints_ok q' /\
         mq_run ops q = mq_run_int ops q
  else mq_run_int ops q = None.
Proof.
  induction ops as [|op ops IH]; intros q s Hr Hq; cbn [run_fits mq_run_int mq_run fifo_run]; [by exists q|].
  destruct (step_agree op q s Hr Hq) as [E Hok]. destruct (mq_step_refines op q s Hr) as (q1 & E1 & Hr1).
  destruct (step_fits op s); cbn [andb]; [|by rewrite E]. rewrite E1 in E |- *. rewrite E. cbn [mbind option_bind].
  specialize (IH q1 _ Hr1 (Hok _ _ E)). destruct (fifo_step op s) as [o s1]. cbn [fst snd] in *.
  destruct (run_fits ops s1); [|by rewrite IH]. destruct IH as (q' & E' & Hr' & Hq' & Ea). rewrite Ea, E'. cbn [mbind option_bind].
  destruct (fifo_run ops s1) as [os s2]. cbn [fst snd] in *. by exists q'.
Qed.

(** C1: the message queue of a service is a FIFO with an overload mark, on machine integers.  For
    every sequence of [uboss_mq_push], [uboss_mq_pop], [uboss_mq_length] and
    [uboss_mq_overload] on a created queue: while the queue never has to hold more than
    2^30 - 1 messages, every operation succeeds (no access outside the circular array, no
    uninitialised message is read, no addition or doubling of an [int] overflows, whatever the
    number of expansions), returns exactly what the abstract FIFO returns, and does what
    the functions without widths do; the push that would make it 2^30 messages doubles the
    capacity beyond an [int], which is undefined, and nothing before it is. *)
Theorem message_queue_is_fifo handle ops :
  let s := Fifo [] 0 MQ_OVERLOAD in
  if run_fits ops s
  then exists q', mq_run_int ops (new_message_queue handle) = Some ((fifo_run ops s).1, q') /\
         mq_repr q' (fifo_run ops s).2 /\ ints_ok q' /\
         mq_run ops (new_message_queue handle) = mq_run_int ops (new_message_queue handle)
  else mq_run_int ops (new_message_queue handle) = None.
Proof.
  apply run_agree.
  - apply mq_repr_intro; [apply new_message_queue_msgs | done ..].
  - split; [by exists 0|]. done.
Qed.

(** 65 messages make the array grow once. *)
Example queue_grows : exists q, mq_run_int (repeat (OpPush (Message 1 2 3 4)) 65 ++ [OpPop; OpLength]) (new_message_queue 7) =
  Some (repeat OutUnit 65 ++ [OutMsg (Some (Message 1 2 3 4)); OutInt 64], q) /\ mq_cap q = 128.
Proof. eexists. by vm_compute. Qed.
