(* ===== verification/Sched.v ===== *)
(** Scheduling of the message queues: how the worker threads, the senders and
    the destruction of services interleave on the queues of core/uboss_mq.c.

    A worker that has popped a queue from the global queue owns it until it
    pushes it back, finds it empty or frees it; a created queue is owned by its
    creator until it is published.  The steps are the critical sections of
    core/uboss_mq.c in the order in which core/uboss_server.c performs them
    ([uboss_context_new], [uboss_context_push], [delete_context] and
    [uboss_context_message_dispatch]); any number of threads interleave. *)
From S2P Require Import Prelude Ring Mq.

Record sched := Sched {
  sc_store : mqstore;
  sc_owned : gset qid
}.

Definition sched_init : sched := Sched uboss_mq_init ∅.

(** One critical section of one thread. *)
Inductive sched_step : sched -> sched -> Prop :=
  (* uboss_context_new: uboss_mq_create *)
  | sc_create p h w w' o :
      uboss_mq_create p h w = Some w' -> mqs w !! p = None ->
      sched_step (Sched w o) (Sched w' ({[p]} ∪ o))
  (* uboss_context_new, dispatch and uboss_mq_release: uboss_globalmq_push *)
  | sc_put_back p w w' o :
      p ∈ o -> uboss_globalmq_push p w = Some w' ->
      sched_step (Sched w o) (Sched w' (o ∖ {[p]}))
  (* dispatch: uboss_globalmq_pop *)
  | sc_take p w w' o :
      uboss_globalmq_pop w = Some (Some p, w') ->
      sched_step (Sched w o) (Sched w' ({[p]} ∪ o))
  (* uboss_context_push: the context is alive, so its queue is not released *)
  | sc_send p q m w w' o :
      mqs w !! p = Some q -> mq_release q = 0 ->
      uboss_mq_push p m w = Some w' ->
      sched_step (Sched w o) (Sched w' o)
  (* dispatch or _drop_queue: uboss_mq_pop returns a message *)
  | sc_pop p m w w' o :
      p ∈ o -> uboss_mq_pop p w = Some (Some m, w') ->
      sched_step (Sched w o) (Sched w' o)
  (* dispatch: uboss_mq_pop finds the queue empty *)
  | sc_empty p q w w' o :
      p ∈ o -> mqs w !! p = Some q -> mq_release q = 0 ->
      uboss_mq_pop p w = Some (None, w') ->
      sched_step (Sched w o) (Sched w' (o ∖ {[p]}))
  (* delete_context: uboss_mq_mark_release *)
  | sc_mark p q w w' o :
      mqs w !! p = Some q -> mq_release q = 0 ->
      uboss_mq_mark_release p w = Some w' ->
      sched_step (Sched w o) (Sched w' o)
  (* _drop_queue: the last uboss_mq_pop, then _release *)
  | sc_free p q w w1 w2 o :
      p ∈ o -> mqs w !! p = Some q -> mq_release q = 1 ->
      uboss_mq_pop p w = Some (None, w1) -> _release p w1 = Some w2 ->
      sched_step (Sched w o) (Sched w2 (o ∖ {[p]})).

(** ** Invariant *)

(** [q_ok q b]: queue [q] is well formed, it is scheduled (in the global queue
    or owned: [b]) exactly if its flags say so, and it is empty otherwise. *)
Definition q_ok (q : message_queue) (b : Prop) : Prop :=
  (exists l, mq_msgs q l /\
     (mq_in_global q = 0 -> mq_release q = 0 -> l = [])) /\
  0 < mq_overload_threshold q /\
  (mq_in_global q = 0 \/ mq_in_global q = 1) /\
  (mq_release q = 0 \/ mq_release q = 1) /\
  (b <-> (mq_in_global q = 1 \/ mq_release q = 1)).

Definition sched_inv (s : sched) (l : list qid) : Prop :=
  gq_repr (sc_store s) l /\
  (forall p, p ∈ sc_owned s -> (p ∉ l) /\ is_Some (mqs (sc_store s) !! p)) /\
  forall p q, mqs (sc_store s) !! p = Some q ->
    q_ok q (p ∈ l \/ p ∈ sc_owned s).

Lemma q_ok_iff q b b' : (b <-> b') -> q_ok q b -> q_ok q b'.
Proof. unfold q_ok. intros H (Hl & Ht & Hg & Hr & Hb). by rewrite <-H. Qed.

#[export] Instance q_ok_proper q : Proper (iff ==> iff) (q_ok q).
Proof. intros b b' Hb. split; by apply q_ok_iff. Qed.

Lemma q_ok_intro q (b : Prop) l : mq_msgs q l ->
  (mq_in_global q = 0 -> mq_release q = 0 -> l = []) ->
  0 < mq_overload_threshold q ->
  mq_in_global q = 0 \/ mq_in_global q = 1 ->
  mq_release q = 0 \/ mq_release q = 1 ->
  (b <-> (mq_in_global q = 1 \/ mq_release q = 1)) -> q_ok q b.
Proof. unfold q_ok. eauto 10. Qed.

Lemma q_ok_next q n b : q_ok (set_mq_next n q) b <-> q_ok q b.
Proof. done. Qed.

(** Operations on the links alone keep [q_ok]. *)
Lemma unlinked_ok w w' r q' b : unlinked w' r = unlinked w r ->
  mqs w' !! r = Some q' ->
  (forall q, mqs w !! r = Some q -> q_ok q b) -> q_ok q' b.
Proof.
  unfold unlinked. intros Hu Hq' Hok. rewrite Hq' in Hu; simpl in Hu.
  destruct (mqs w !! r) as [q|]; [|done].
  assert (set_mq_next None q' = set_mq_next None q) as Hu'
    by (simpl in Hu; congruence).
  rewrite <-(q_ok_next _ None), Hu', q_ok_next. by apply Hok.
Qed.

Lemma unlinked_is_Some w w' r : unlinked w' r = unlinked w r ->
  is_Some (mqs w !! r) -> is_Some (mqs w' !! r).
Proof.
  unfold unlinked. intros Hu [q Hq]. rewrite Hq in Hu.
  destruct (mqs w' !! r); [by eexists | done].
Qed.

(** Replacing queue [p] by one with the same link keeps the global queue. *)
Lemma gq_repr_put w l p q0 q : gq_repr w l -> mqs w !! p = Some q0 ->
  mq_next q = mq_next q0 -> gq_repr (put_mq p q w) l.
Proof.
  intros (Hh & Ht & Hnd & Hc & Hout) Hp Hn.
  unfold gq_repr, put_mq; simpl. split_and!; try done.
  - apply gq_chain_insert; [done|]. intros; simplify_eq; done.
  - intros r qr. destruct (decide (p = r)) as [->|].
    + rewrite lookup_insert_eq. intros [= <-] ?. rewrite Hn. by eapply Hout.
    + rewrite lookup_insert_ne by done. by apply Hout.
Qed.

Lemma gq_repr_new w l p q : gq_repr w l -> mqs w !! p = None ->
  mq_next q = None -> (p ∉ l) /\ gq_repr (put_mq p q w) l.
Proof.
  intros (Hh & Ht & Hnd & Hc & Hout) Hp Hn.
  assert (p ∉ l) as Hpl.
  { intros Hin. destruct (gq_chain_elem _ _ _ Hc Hin) as [? ?]. congruence. }
  split; [done|]. unfold gq_repr, put_mq; simpl. split_and!; try done.
  - by apply gq_chain_insert.
  - intros r qr. destruct (decide (p = r)) as [->|].
    + rewrite lookup_insert_eq. by intros [= <-] ?.
    + rewrite lookup_insert_ne by done. by apply Hout.
Qed.

Lemma gq_chain_delete ms l p : gq_chain ms l -> p ∉ l -> gq_chain (delete p ms) l.
Proof.
  induction l as [|r l IH]; simpl; [done|].
  intros [(q & Hq & Hn) Hc] [Hpr Hpl]%not_elem_of_cons. split; [|by apply IH].
  exists q. by rewrite lookup_delete_ne.
Qed.

(** The invariant after replacing one queue of the store. *)
Lemma sched_inv_put w o l p q0 q : sched_inv (Sched w o) l ->
  mqs w !! p = Some q0 -> mq_next q = mq_next q0 ->
  q_ok q (p ∈ l \/ p ∈ o) -> sched_inv (Sched (put_mq p q w) o) l.
Proof.
  intros (Hg & Ho & Hq) Hp Hn Hok. split_and!; simpl in *.
  - by eapply gq_repr_put.
  - intros r Hr. destruct (Ho r Hr) as [? ?]. split; [done|].
    apply lookup_insert_is_Some'. by right.
  - intros r qr. destruct (decide (p = r)) as [->|].
    + rewrite lookup_insert_eq. by intros [= <-].
    + rewrite lookup_insert_ne by done. apply Hq.
Qed.

(** The invariant after pushing an unscheduled, or owned, queue [p]. *)
Lemma sched_inv_push w o o' l p q : sched_inv (Sched w o) l ->
  mqs w !! p = Some q -> p ∉ l -> p ∉ o' ->
  (forall r, r <> p -> (r ∈ o <-> r ∈ o')) ->
  q_ok q True ->
  exists w', uboss_globalmq_push p w = Some w' /\ sched_inv (Sched w' o') (l ++ [p]).
Proof.
  intros (Hg & Ho & Hq) Hp Hpl Hpo' Hoo Hok; simpl in *.
  destruct (globalmq_push_spec w l p q Hg Hp Hpl) as (w' & Hw' & Hg' & Hu).
  exists w'. split; [done|]. split_and!; simpl; [done | |].
  - intros r Hr. assert (r <> p) by congruence.
    destruct (Ho r) as [? ?]; [by apply Hoo|].
    split; [|by eapply unlinked_is_Some; [apply Hu | done]].
    rewrite elem_of_app, list_elem_of_singleton. tauto.
  - intros r qr Hr. eapply unlinked_ok; [apply Hu | exact Hr |].
    intros q1 Hq1. destruct (decide (r = p)) as [->|Hrp].
    + simplify_eq. eapply q_ok_iff; [|exact Hok]. split; [intros _|done].
      left. apply elem_of_app; right. by apply list_elem_of_singleton.
    + eapply q_ok_iff; [|by apply Hq]. rewrite elem_of_app, list_elem_of_singleton.
      rewrite Hoo by done. tauto.
Qed.

(** ** The operations on a queue that satisfies the invariant *)

Lemma mq_pop_ok q b : q_ok q b -> exists r q', mq_pop q = Some (r, q') /\
  mq_next q' = mq_next q /\ mq_release q' = mq_release q /\
  match r with
  | Some _ => q_ok q' b /\ mq_in_global q' = mq_in_global q
  | None => q' = set_mq_in_global 0 (set_mq_overload (mq_overload q) MQ_OVERLOAD q) /\
            mq_msgs q' []
  end.
Proof.
  intros ((l & Hl & Hempty) & Ht & Hg & Hr & Hb).
  destruct l as [|m l].
  - rewrite (mq_pop_empty _ Hl). do 2 eexists. by split_and!.
  - destruct (mq_pop_cons _ _ _ Hl Ht) as (q' & -> & Hm & (Hn & Hrel & _ & Hgl) & _ & Ht').
    exists (Some m), q'. do 3 (split; [done|]). split; [|done].
    apply (q_ok_intro _ _ l); rewrite ?Hrel, ?Hgl, ?Ht'; try done.
    + intros H0 H1. by specialize (Hempty H0 H1).
    + by apply next_threshold_ge.
Qed.

Lemma mq_enqueue_ok q b m : q_ok q b -> mq_release q = 0 ->
  exists q', mq_enqueue q m = Some q' /\ same_links q q' /\
    q_ok (set_mq_in_global MQ_IN_GLOBAL q') True /\
    (mq_in_global q = 1 -> q_ok q' b).
Proof.
  intros ((l & Hl & Hempty) & Ht & Hg & Hr & Hb) Hrel.
  destruct (mq_enqueue_msgs q l m Hl) as (q' & -> & Hm & Hs & _ & Ht').
  pose proof Hs as (Hn & Hrel' & _ & Hgl).
  exists q'. split_and!; [done .. | |].
  - apply (q_ok_intro _ _ (l ++ [m])); simpl; rewrite ?Ht', ?Hrel', ?Hrel;
      try done; auto; by split; auto.
  - intros H1. apply (q_ok_intro _ _ (l ++ [m])); rewrite ?Hgl, ?Ht', ?Hrel';
      try done. lia.
Qed.

Section safe_steps.
Context (w : mqstore) (o : gset qid) (l : list qid).
Hypothesis Hinv : sched_inv (Sched w o) l.

Lemma sched_create p h : mqs w !! p = None ->
  exists w', uboss_mq_create p h w = Some w' /\
    sched_inv (Sched w' ({[p]} ∪ o)) l.
Proof using Hinv.
  intros Hp. destruct Hinv as (Hg & Ho & Hq); simpl in *.
  unfold uboss_mq_create. rewrite Hp. eexists; split; [done|].
  destruct (gq_repr_new w l p (new_message_queue h) Hg Hp eq_refl) as [Hpl Hg'].
  split_and!; simpl; [done | |].
  - intros r [->%elem_of_singleton|Hr]%elem_of_union.
    + split; [done|]. rewrite lookup_insert_eq. by eexists.
    + destruct (Ho r Hr) as [? ?]. split; [done|].
      apply lookup_insert_is_Some'. by right.
  - intros r qr. destruct (decide (p = r)) as [->|].
    + rewrite lookup_insert_eq. intros [= <-].
      apply (q_ok_intro _ _ []); simpl; auto; [apply new_message_queue_msgs | done |].
      set_solver.
    + rewrite lookup_insert_ne by done. intros Hr.
      eapply q_ok_iff; [|by apply Hq]. set_solver.
Qed.

Lemma sched_put_back p : p ∈ o ->
  exists w', uboss_globalmq_push p w = Some w' /\
    sched_inv (Sched w' (o ∖ {[p]})) (l ++ [p]).
Proof using Hinv.
  intros Hp. pose proof Hinv as (Hg & Ho & Hq); simpl in *.
  destruct (Ho p Hp) as [Hpl [q Hpq]].
  eapply sched_inv_push; [exact Hinv | exact Hpq | done | set_solver | set_solver |].
  eapply q_ok_iff; [|by apply Hq]. tauto.
Qed.

Lemma sched_take p w' : uboss_globalmq_pop w = Some (Some p, w') ->
  exists l', l = p :: l' /\ sched_inv (Sched w' ({[p]} ∪ o)) l'.
Proof using Hinv.
  intros Hpop. destruct Hinv as (Hg & Ho & Hq); simpl in *.
  destruct (globalmq_pop_spec w l Hg) as (w1 & Hw1 & Hg' & Hu).
  rewrite Hpop in Hw1. destruct l as [|p' l']; simplify_eq/=.
  exists l'. split; [done|].
  pose proof Hg as (_ & _ & Hnd & Hc & _). apply NoDup_cons in Hnd as [Hpl Hnd].
  split_and!; simpl; [done | |].
  - intros r [->%elem_of_singleton|Hr]%elem_of_union.
    + split; [done|]. eapply unlinked_is_Some; [apply Hu|].
      eapply gq_chain_elem; [exact Hc | left].
    + destruct (Ho r Hr) as [Hrl ?]. split; [set_solver|].
      by eapply unlinked_is_Some; [apply Hu|].
  - intros r qr Hr. eapply unlinked_ok; [apply Hu | exact Hr |].
    intros q1 Hq1. eapply q_ok_iff; [|by apply Hq]. set_solver.
Qed.

(** Queue [p], not scheduled so far, is updated and enters the global queue. *)
Lemma sched_enter p q q' : mqs w !! p = Some q -> p ∉ l -> p ∉ o ->
  mq_next q' = mq_next q -> q_ok q' True ->
  exists w', uboss_globalmq_push p (put_mq p q' w) = Some w' /\
    sched_inv (Sched w' o) (l ++ [p]).
Proof using Hinv.
  intros Hp Hpl Hpo Hn Hok. pose proof Hinv as (Hg & Ho & Hq); simpl in *.
  assert (gq_repr (put_mq p q' w) l) as Hg1 by (by eapply gq_repr_put).
  assert (mqs (put_mq p q' w) !! p = Some q') as Hp1 by apply lookup_insert_eq.
  destruct (globalmq_push_spec _ l p _ Hg1 Hp1 Hpl) as (w2 & Hw2 & Hg2 & Hu).
  exists w2. split; [done|]. split_and!; simpl; [done | |].
  - intros r Hr. destruct (Ho r Hr) as [Hrl Hrs].
    split; [rewrite elem_of_app, list_elem_of_singleton; set_solver|].
    eapply unlinked_is_Some; [apply Hu|]. apply lookup_insert_is_Some'. by right.
  - intros r qr Hr. eapply unlinked_ok; [apply Hu | exact Hr |].
    intros q1. simpl. rewrite elem_of_app, list_elem_of_singleton.
    destruct (decide (p = r)) as [->|Hpr].
    + rewrite lookup_insert_eq. intros [= <-]. eapply q_ok_iff; [|exact Hok]. tauto.
    + rewrite lookup_insert_ne by done. intros Hr1.
      eapply q_ok_iff; [|by apply Hq]. intuition congruence.
Qed.

Lemma sched_send p q m : mqs w !! p = Some q -> mq_release q = 0 ->
  exists w' l', uboss_mq_push p m w = Some w' /\ sched_inv (Sched w' o) l'.
Proof using Hinv.
  intros Hp Hrel. pose proof Hinv as (Hg & Ho & Hq); simpl in *.
  pose proof (Hq p q Hp) as Hok.
  destruct (mq_enqueue_ok q _ m Hok Hrel) as (q' & Henq & (Hn & _ & _ & Hgl) & Hpush & Hstay).
  unfold uboss_mq_push. rewrite Hp; simpl. rewrite Henq; simpl. rewrite Hgl.
  destruct Hok as (_ & _ & Hgv & _ & Hb).
  destruct (Z.eqb_spec (mq_in_global q) 0) as [H0|Hn0].
  - (* not scheduled: enter the global queue *)
    assert (~ (p ∈ l \/ p ∈ o)) as Hno by (rewrite Hb; lia).
    assert (p ∉ l) as Hpl by tauto. assert (p ∉ o) as Hpo by tauto.
    destruct (sched_enter p q (set_mq_in_global MQ_IN_GLOBAL q')) as (w2 & Hw2 & Hinv2);
      [done .. |]. by exists w2, (l ++ [p]).
  - exists (put_mq p q' w), l. split; [done|].
    eapply sched_inv_put; [exact Hinv | done | done |]. apply Hstay. lia.
Qed.

Lemma sched_pop p m w' : p ∈ o -> uboss_mq_pop p w = Some (Some m, w') ->
  sched_inv (Sched w' o) l.
Proof using Hinv.
  intros Hp. unfold uboss_mq_pop. pose proof Hinv as (Hg & Ho & Hq); simpl in *.
  destruct (Ho p Hp) as [Hpl [q Hpq]]. rewrite Hpq; simpl.
  destruct (mq_pop_ok q _ (Hq p q Hpq)) as (r & q' & -> & Hn & _ & Hr).
  simpl. intros ?; simplify_eq. destruct Hr as [Hok _].
  by eapply sched_inv_put.
Qed.

Lemma sched_empty p q w' : p ∈ o -> mqs w !! p = Some q -> mq_release q = 0 ->
  uboss_mq_pop p w = Some (None, w') -> sched_inv (Sched w' (o ∖ {[p]})) l.
Proof using Hinv.
  intros Hp Hpq Hrel. unfold uboss_mq_pop. rewrite Hpq; simpl.
  pose proof Hinv as (Hg & Ho & Hq); simpl in *.
  destruct (Ho p Hp) as [Hpl _].
  destruct (mq_pop_ok q _ (Hq p q Hpq)) as (r & q' & -> & Hn & Hrel' & Hr).
  simpl. intros ?; simplify_eq. destruct Hr as [Hq' Hm].
  split_and!; simpl in *.
  - by eapply gq_repr_put.
  - intros r Hr. destruct (Ho r) as [? ?]; [set_solver|]. split; [done|].
    apply lookup_insert_is_Some'. by right.
  - intros r qr. destruct (decide (p = r)) as [->|].
    + rewrite lookup_insert_eq. intros [= <-].
      subst q'. apply (q_ok_intro _ _ []); simpl; auto; [done|].
      rewrite Hrel. set_unfold. intuition lia.
    + rewrite lookup_insert_ne by done. intros Hr.
      eapply q_ok_iff; [|by apply Hq]. set_solver.
Qed.

Lemma sched_mark p q : mqs w !! p = Some q -> mq_release q = 0 ->
  exists w' l', uboss_mq_mark_release p w = Some w' /\ sched_inv (Sched w' o) l'.
Proof using Hinv.
  intros Hp Hrel. pose proof Hinv as (Hg & Ho & Hq); simpl in *.
  destruct (Hq p q Hp) as ((lq & Hm & _) & Ht & Hgv & _ & Hb).
  unfold uboss_mq_mark_release. rewrite Hp; simpl. rewrite Hrel; simpl.
  assert (forall b, (b <-> True) -> q_ok (set_mq_release 1 q) b) as Hok.
  { intros b Hbt. apply (q_ok_intro _ _ lq); simpl; auto; [lia|]. rewrite Hbt. tauto. }
  unfold MQ_IN_GLOBAL. destruct (Z.eqb_spec (mq_in_global q) 1) as [H1|Hn1].
  - do 2 eexists. split; [done|].
    eapply sched_inv_put; [exact Hinv | done | done |]. apply Hok. tauto.
  - assert (~ (p ∈ l \/ p ∈ o)) as Hno by (rewrite Hb; lia).
    destruct (sched_enter p q (set_mq_release 1 q)) as (w2 & Hw2 & Hinv2);
      [done | tauto | tauto | done | by apply Hok |]. by exists w2, (l ++ [p]).
Qed.

Lemma sched_free p q w1 : p ∈ o -> mqs w !! p = Some q ->
  uboss_mq_pop p w = Some (None, w1) ->
  exists w2, _release p w1 = Some w2 /\ sched_inv (Sched w2 (o ∖ {[p]})) l.
Proof using Hinv.
  intros Hp Hpq. unfold uboss_mq_pop. rewrite Hpq; simpl.
  pose proof Hinv as (Hg & Ho & Hq); simpl in *.
  destruct (Ho p Hp) as [Hpl _]. pose proof Hg as (Hh & Ht & Hnd & Hc & Hout).
  destruct (mq_pop_ok q _ (Hq p q Hpq)) as (r & q' & -> & Hn & _ & _).
  simpl. intros ?; simplify_eq.
  unfold _release; simpl. rewrite lookup_insert_eq; simpl.
  rewrite bool_decide_eq_true_2 by (rewrite Hn; by eapply Hout). simpl.
  eexists; split; [done|]. split_and!; simpl.
  - unfold gq_repr; simpl. split_and!; try done.
    + rewrite delete_insert_eq. by apply gq_chain_delete.
    + intros r qr. rewrite delete_insert_eq.
      intros [_ Hr]%lookup_delete_Some. by apply Hout.
  - intros r Hr. destruct (Ho r) as [? ?]; [set_solver|]. split; [done|].
    rewrite delete_insert_eq, lookup_delete_ne by set_solver. done.
  - intros r qr. rewrite delete_insert_eq. intros [Hne Hr]%lookup_delete_Some.
    eapply q_ok_iff; [|by apply Hq]. set_solver.
Qed.
End safe_steps.

Lemma sched_inv_step s s' l : sched_inv s l -> sched_step s s' ->
  exists l', sched_inv s' l'.
Proof.
  intros Hinv Hstep. destruct Hstep.
  - destruct (sched_create _ _ _ Hinv p h) as (? & ? & ?); [done|]. simplify_eq. eauto.
  - destruct (sched_put_back _ _ _ Hinv p) as (? & ? & ?); [done|]. simplify_eq. eauto.
  - destruct (sched_take _ _ _ Hinv p w') as (? & _ & ?); [done|]. eauto.
  - destruct (sched_send _ _ _ Hinv p q m) as (? & ? & ? & ?); [done..|].
    simplify_eq. eauto.
  - eauto using sched_pop.
  - eauto using sched_empty.
  - destruct (sched_mark _ _ _ Hinv p q) as (? & ? & ? & ?); [done..|].
    simplify_eq. eauto.
  - destruct (sched_free _ _ _ Hinv p q w1) as (? & ? & ?); [done..|].
    simplify_eq. eauto.
Qed.

Lemma sched_inv_init : sched_inv sched_init [].
Proof.
  split_and!; simpl.
  - unfold gq_repr; simpl. split_and!; try done. apply NoDup_nil_2.
  - set_solver.
  - intros p q. by rewrite lookup_empty.
Qed.

Lemma sched_inv_reachable s : rtc sched_step sched_init s -> exists l, sched_inv s l.
Proof.
  intros H. assert (exists l, sched_inv sched_init l) as Hinit
    by (eexists; apply sched_inv_init).
  induction H as [|s1 s2 s3 Hstep _ IH]; [done|].
  apply IH. destruct Hinit as [l Hl]. by eapply sched_inv_step.
Qed.

(** ** Properties *)

(** C2: no wakeup is lost and no queue is scheduled twice.  In every reachable
    state of any number of workers and senders the global queue is a
    well-formed list without duplicates, no queue is both in it and owned by a
    worker, a queue is in it or owned exactly if its [in_global] or [release]
    flag is set, and a queue that is neither in it nor owned has no message. *)
Theorem sched_no_lost_wakeup s :
  rtc sched_step sched_init s ->
  exists l, gq_repr (sc_store s) l /\
    forall p q, mqs (sc_store s) !! p = Some q ->
      (p ∈ l -> p ∉ sc_owned s) /\
      ((p ∈ l \/ p ∈ sc_owned s) <-> (mq_in_global q = 1 \/ mq_release q = 1)) /\
      (~ (p ∈ l \/ p ∈ sc_owned s) -> uboss_mq_length q = 0).
Proof.
  intros (l & Hg & Ho & Hq)%sched_inv_reachable. exists l. split; [done|].
  intros p q Hp. destruct (Hq p q Hp) as ((lq & Hm & Hempty) & _ & Hgv & Hrv & Hb).
  split; [|split; [tauto|]].
  - intros Hpl Hpo. by destruct (Ho p Hpo).
  - rewrite Hb. intros Hno. rewrite (mq_msgs_length _ _ Hm).
    rewrite Hempty by lia. done.
Qed.

(** C3: the assertions of core/uboss_mq.c never fail and no operation touches
    freed or uninitialised memory: in every reachable state, a message can be
    sent to a live queue, a live queue can be marked for release, a worker can
    pop from any queue, push back a queue it owns, free a released queue it
    owns once it is empty, and pop the global queue. *)
Theorem sched_safe s p q :
  rtc sched_step sched_init s -> mqs (sc_store s) !! p = Some q ->
  (mq_release q = 0 -> forall m, is_Some (uboss_mq_push p m (sc_store s))) /\
  (mq_release q = 0 -> is_Some (uboss_mq_mark_release p (sc_store s))) /\
  is_Some (uboss_mq_pop p (sc_store s)) /\
  (p ∈ sc_owned s -> is_Some (uboss_globalmq_push p (sc_store s))) /\
  (p ∈ sc_owned s -> forall w1, uboss_mq_pop p (sc_store s) = Some (None, w1) ->
     is_Some (_release p w1)) /\
  is_Some (uboss_globalmq_pop (sc_store s)).
Proof.
  intros [l Hinv]%sched_inv_reachable Hp. destruct s as [w o]; simpl in *.
  split_and!.
  - intros Hr m. destruct (sched_send _ _ _ Hinv p q m) as (? & ? & -> & _); eauto.
  - intros Hr. destruct (sched_mark _ _ _ Hinv p q) as (? & ? & -> & _); eauto.
  - unfold uboss_mq_pop. rewrite Hp; simpl. destruct Hinv as (_ & _ & Hq).
    destruct (mq_pop_ok q _ (Hq p q Hp)) as (? & ? & -> & _). eauto.
  - intros Ho. destruct (sched_put_back _ _ _ Hinv p) as (? & -> & _); eauto.
  - intros Ho w1 Hw1.
    destruct (sched_free _ _ _ Hinv p q w1) as (? & -> & _); eauto.
  - destruct Hinv as (Hg & _); simpl in Hg. destruct (globalmq_pop_spec _ _ Hg) as (? & -> & _).
    eauto.
Qed.

(** ** Witnesses *)

(** Queue 1 is created, published, taken by a worker, found empty, and then
    receives a message, which schedules it again. *)
Definition sched_example : option mqstore :=
  w ← uboss_mq_create 1 8 uboss_mq_init;
  w ← uboss_globalmq_push 1 w;
  '(_, w) ← uboss_globalmq_pop w;
  '(_, w) ← uboss_mq_pop 1 w;
  uboss_mq_push 1 (Message 2 7 0 0) w.

Lemma sched_example_reachable w : sched_example = Some w ->
  rtc sched_step sched_init (Sched w (({[1%nat]} ∪ ({[1%nat]} ∪ ∅) ∖ {[1%nat]}) ∖ {[1%nat]})).
Proof.
  intros Hw. unfold sched_example in Hw.
  apply bind_Some in Hw as (w1 & H1 & Hw). apply bind_Some in Hw as (w2 & H2 & Hw).
  apply bind_Some in Hw as ([r3 w3] & H3 & Hw).
  apply bind_Some in Hw as ([r4 w4] & H4 & H5).
  vm_compute in H1. injection H1 as <-. vm_compute in H2. injection H2 as <-.
  vm_compute in H3. injection H3 as <- <-. vm_compute in H4. injection H4 as <- <-.
  eapply rtc_l; [by eapply (sc_create 1 8)|].
  eapply rtc_l; [eapply (sc_put_back 1); [set_solver | reflexivity]|].
  eapply rtc_l; [by eapply (sc_take 1)|].
  eapply rtc_l; [eapply (sc_empty 1); [set_solver | reflexivity ..]|].
  eapply rtc_l; [|apply rtc_refl].
  eapply (sc_send 1); [reflexivity | reflexivity | exact H5].
Qed.

Lemma sched_no_lost_wakeup_witness :
  exists w l, sched_example = Some w /\ gq_repr w l.
Proof.
  destruct sched_example as [w|] eqn:E; [|vm_compute in E; discriminate E].
  destruct (sched_no_lost_wakeup _ (sched_example_reachable w E)) as (l & Hl & _).
  by exists w, l.
Defined.

Lemma sched_safe_witness :
  exists w, sched_example = Some w /\ is_Some (uboss_globalmq_pop w).
Proof.
  destruct sched_example as [w|] eqn:E; [|vm_compute in E; discriminate E].
  exists w. split; [done|].
  destruct (mqs w !! 1%nat) as [q|] eqn:Hq.
  - apply (sched_safe _ 1 q (sched_example_reachable w E) Hq).
  - vm_compute in E. injection E as <-. vm_compute in Hq. discriminate Hq.
Defined.
