(* ===== verification/Timer.v ===== *)
(** core/uboss_timer.c: the hierarchical timing wheel.

    The linked lists of [struct link_list] are lists of nodes ([link] appends,
    [link_clear] takes everything); [near] has 256 of them and [t] four levels
    of 64.  [None] is an index outside these arrays or a loop that does not
    finish within its fuel; the theorems show neither happens.

    The timer lock is released while expired timers are dispatched; what other
    threads do meanwhile is the argument [adds] of [timer_execute]. *)
From S2P Require Import Prelude Mq.

Definition TIME_NEAR_SHIFT : Z := 8.
Definition TIME_NEAR : Z := Z.shiftl 1 TIME_NEAR_SHIFT.
Definition TIME_LEVEL_SHIFT : Z := 6.
Definition TIME_LEVEL : Z := Z.shiftl 1 TIME_LEVEL_SHIFT.
Definition TIME_NEAR_MASK : Z := TIME_NEAR - 1.
Definition TIME_LEVEL_MASK : Z := TIME_LEVEL - 1.

(** [PTYPE_RESPONSE << MESSAGE_TYPE_SHIFT] with 8-byte [size_t]. *)
Definition PTYPE_RESPONSE : Z := 1.
Definition MESSAGE_TYPE_SHIFT : Z := 56.

Record timer_event := TimerEvent { te_handle : Z; te_session : Z }.
Record timer_node := TimerNode { expire : Z; event : timer_event }.

Record timer := Timer {
  near : list (list timer_node);
  tlev : list (list (list timer_node));   (* t[4][TIME_LEVEL] *)
  time : Z;
  starttime : Z;
  current : Z;
  current_point : Z
}.

#[export] Instance timer_event_eq_dec : EqDecision timer_event.
Proof. solve_decision. Defined.
#[export] Instance timer_node_eq_dec : EqDecision timer_node.
Proof. solve_decision. Defined.

Definition set_near (n : list (list timer_node)) (T : timer) : timer :=
  Timer n (tlev T) (time T) (starttime T) (current T) (current_point T).
Definition set_tlev (t : list (list (list timer_node))) (T : timer) : timer :=
  Timer (near T) t (time T) (starttime T) (current T) (current_point T).
Definition set_time (n : Z) (T : timer) : timer :=
  Timer (near T) (tlev T) n (starttime T) (current T) (current_point T).
Definition set_current (c p : Z) (T : timer) : timer :=
  Timer (near T) (tlev T) (time T) (starttime T) c p.

(** [link(&T->near[idx], node)] *)
Definition link_near (idx : Z) (node : timer_node) (T : timer) : option timer :=
  l ← (near T).[idx];
  n ← (near T).[idx := l ++ [node]];
  Some (set_near n T).

(** [link(&T->t[i][idx], node)] *)
Definition link_level (i idx : Z) (node : timer_node) (T : timer)
    : option timer :=
  lev ← (tlev T).[i];
  l ← lev.[idx];
  lev ← lev.[idx := l ++ [node]];
  t ← (tlev T).[i := lev];
  Some (set_tlev t T).

(** [link_clear(&T->near[idx])] and [link_clear(&T->t[level][idx])]. *)
Definition clear_near (idx : Z) (T : timer)
    : option (list timer_node * timer) :=
  l ← (near T).[idx];
  n ← (near T).[idx := []];
  Some (l, set_near n T).

Definition clear_level (i idx : Z) (T : timer)
    : option (list timer_node * timer) :=
  lev ← (tlev T).[i];
  l ← lev.[idx];
  lev ← lev.[idx := []];
  t ← (tlev T).[i := lev];
  Some (l, set_tlev t T).

(** The loop of [add_node] that looks for the level, from [i] with [mask]. *)
Fixpoint find_level (n : nat) (i mask time current_time : Z) : Z :=
  match n with
  | O => i
  | S n =>
      if Z.lor time (mask - 1) =? Z.lor current_time (mask - 1) then i
      else find_level n (i + 1) (u32 (Z.shiftl mask TIME_LEVEL_SHIFT)) time
             current_time
  end.

Definition add_node (T : timer) (node : timer_node) : option timer :=
  let etime := expire node in
  let current_time := time T in
  if Z.lor etime TIME_NEAR_MASK =? Z.lor current_time TIME_NEAR_MASK then
    link_near (Z.land etime TIME_NEAR_MASK) node T
  else
    let i := find_level 3 0 (Z.shiftl TIME_NEAR TIME_LEVEL_SHIFT) etime
               current_time in
    link_level i
      (Z.land (Z.shiftr etime (TIME_NEAR_SHIFT + i * TIME_LEVEL_SHIFT))
         TIME_LEVEL_MASK) node T.

Definition timer_add (T : timer) (ev : timer_event) (delay : Z)
    : option timer :=
  add_node T (TimerNode (u32 (delay + time T)) ev).

(** The [while (current)] loop of [move_list]. *)
Fixpoint add_nodes (T : timer) (l : list timer_node) : option timer :=
  match l with
  | [] => Some T
  | node :: l => T ← add_node T node; add_nodes T l
  end.

Definition move_list (T : timer) (level idx : Z) : option timer :=
  '(l, T) ← clear_level level idx T;
  add_nodes T l.

(** The [while ((ct & (mask-1))==0)] loop of [timer_shift]; [T] already has
    the new time [ct]. *)
Fixpoint shift_loop (fuel : nat) (T : timer) (ct mask time i : Z)
    : option timer :=
  match fuel with
  | O => None
  | S fuel =>
      if Z.land ct (mask - 1) =? 0 then
        let idx := Z.land time TIME_LEVEL_MASK in
        if negb (idx =? 0) then move_list T i idx
        else shift_loop fuel T ct (Z.shiftl mask TIME_LEVEL_SHIFT)
               (Z.shiftr time TIME_LEVEL_SHIFT) (i + 1)
      else Some T
  end.

Definition timer_shift (T : timer) : option timer :=
  let ct := u32 (time T + 1) in
  let T := set_time ct T in
  if ct =? 0 then move_list T 3 0
  else shift_loop 4 T ct TIME_NEAR (Z.shiftr ct TIME_NEAR_SHIFT) 0.

(** The message [dispatch_list] and [uboss_timeout] build. *)
Definition timer_message (session : Z) : uboss_message :=
  Message 0 session 0 (Z.shiftl PTYPE_RESPONSE MESSAGE_TYPE_SHIFT).

Section dispatch.
(** The rest of the node: [uboss_context_push] is core/uboss_server.c. *)
Context {W : Type} (uboss_context_push : Z -> uboss_message -> W -> Z * W).

Definition dispatch_node (w : W) (n : timer_node) : W :=
  snd (uboss_context_push (te_handle (event n))
         (timer_message (te_session (event n))) w).

Definition dispatch_list (l : list timer_node) (w : W) : W :=
  fold_left dispatch_node l w.

(** Timers added by other threads. *)
Fixpoint add_all (T : timer) (l : list (timer_event * Z)) : option timer :=
  match l with
  | [] => Some T
  | (ev, d) :: l => T ← timer_add T ev d; add_all T l
  end.

(** [timer_execute]: the head of [adds] is what other threads add during the
    first dispatch, and so on. *)
Fixpoint timer_execute (fuel : nat) (adds : list (list (timer_event * Z)))
    (T : timer) (w : W) : option (timer * W) :=
  match fuel with
  | O => None
  | S fuel =>
      let idx := Z.land (time T) TIME_NEAR_MASK in
      l ← (near T).[idx];
      match l with
      | [] => Some (T, w)
      | _ :: _ =>
          '(l, T) ← clear_near idx T;
          let w := dispatch_list l w in
          T ← add_all T (default [] (head adds));
          timer_execute fuel (tail adds) T w
      end
  end.

Definition timer_update (adds1 adds2 : list (list (timer_event * Z)))
    (T : timer) (w : W) : option (timer * W) :=
  '(T, w) ← timer_execute 2 adds1 T w;
  T ← timer_shift T;
  timer_execute 2 adds2 T w.

Definition uboss_timeout (handle delay session : Z) (T : timer) (w : W)
    : option (Z * timer * W) :=
  if delay <=? 0 then
    let '(r, w) := uboss_context_push handle (timer_message session) w in
    Some (if r =? 0 then session else -1, T, w)
  else
    T ← timer_add T (TimerEvent handle session) delay;
    Some (session, T, w).

(** [n] consecutive calls of [timer_update]; the [k]-th one is interrupted by
    [adds k]. *)
Fixpoint timer_updates (n : nat) (k : nat)
    (adds : nat -> list (list (timer_event * Z)) * list (list (timer_event * Z)))
    (T : timer) (w : W) : option (timer * W) :=
  match n with
  | O => Some (T, w)
  | S n =>
      '(T, w) ← timer_update (fst (adds k)) (snd (adds k)) T w;
      timer_updates n (S k) adds T w
  end.

(** [uboss_updatetime]; [cp] is the monotonic clock in centiseconds. *)
Definition uboss_updatetime (cp : Z)
    (adds : nat -> list (list (timer_event * Z)) * list (list (timer_event * Z)))
    (T : timer) (w : W) : option (timer * W) :=
  if cp <? current_point T then Some (set_current (current T) cp T, w)
  else if negb (cp =? current_point T) then
    let diff := u32 (cp - current_point T) in
    let T := set_current (u64 (current T + diff)) cp T in
    timer_updates (Z.to_nat diff) 0 adds T w
  else Some (T, w).
End dispatch.

Definition timer_create_timer : timer :=
  {| near := replicate (Z.to_nat TIME_NEAR) [];
     tlev := replicate 4 (replicate (Z.to_nat TIME_LEVEL) []);
     time := 0; starttime := 0; current := 0; current_point := 0 |}.

Definition uboss_starttime (T : timer) : Z := starttime T.
Definition uboss_now (T : timer) : Z := current T.

(** [uboss_timer_init]; [sec], [cs] are what [systime] and [cp] what [gettime]
    return. *)
Definition uboss_timer_init (sec cs cp : Z) : timer :=
  let T := timer_create_timer in
  Timer (near T) (tlev T) (time T) sec cs cp.

(** ** Specification: a list of pending timers in the order of insertion *)

Record tspec := TSpec { ts_now : Z; ts_pending : list timer_node }.

Definition spec_add (s : tspec) (ev : timer_event) (d : Z) : tspec :=
  TSpec (ts_now s) (ts_pending s ++ [TimerNode (u32 (d + ts_now s)) ev]).

Definition spec_add_all (s : tspec) (l : list (timer_event * Z)) : tspec :=
  fold_left (fun s x => spec_add s (fst x) (snd x)) l s.

Definition due (s : tspec) : list timer_node :=
  filter (fun n => expire n = ts_now s) (ts_pending s).
Definition not_due (s : tspec) : list timer_node :=
  filter (fun n => expire n <> ts_now s) (ts_pending s).

Section spec.
Context {W : Type} (push : Z -> uboss_message -> W -> Z * W).

Definition spec_execute (adds : list (list (timer_event * Z))) (s : tspec)
    (w : W) : tspec * W :=
  match due s with
  | [] => (s, w)
  | l => (spec_add_all (TSpec (ts_now s) (not_due s)) (default [] (head adds)),
          dispatch_list push l w)
  end.

(** One tick: the timers that expire at the new time are dispatched, in the
    order in which they were added. *)
Definition spec_update (adds1 adds2 : list (list (timer_event * Z)))
    (s : tspec) (w : W) : tspec * W :=
  let '(s, w) := spec_execute adds1 s w in
  spec_execute adds2 (TSpec (u32 (ts_now s + 1)) (ts_pending s)) w.

Fixpoint spec_updates (n k : nat)
    (adds : nat -> list (list (timer_event * Z)) * list (list (timer_event * Z)))
    (s : tspec) (w : W) : tspec * W :=
  match n with
  | O => (s, w)
  | S n =>
      let '(s, w) := spec_update (fst (adds k)) (snd (adds k)) s w in
      spec_updates n (S k) adds s w
  end.
End spec.

(** ** Slots *)

Inductive slot := Near (i : Z) | Level (l i : Z).

#[export] Instance slot_eq_dec : EqDecision slot.
Proof. solve_decision. Defined.

Definition valid_slot (s : slot) : Prop :=
  match s with
  | Near i => 0 <= i < 256
  | Level l i => 0 <= l < 4 /\ 0 <= i < 64
  end.

(** Where a timer that expires at [e] is kept when the time is [c]. *)
Definition slot_of (e c : Z) : slot :=
  if e / 2 ^ 8 =? c / 2 ^ 8 then Near (e mod 2 ^ 8)
  else if e / 2 ^ 14 =? c / 2 ^ 14 then Level 0 (e / 2 ^ 8 mod 64)
  else if e / 2 ^ 20 =? c / 2 ^ 20 then Level 1 (e / 2 ^ 14 mod 64)
  else if e / 2 ^ 26 =? c / 2 ^ 26 then Level 2 (e / 2 ^ 20 mod 64)
  else Level 3 (e / 2 ^ 26 mod 64).

Definition get_slot (T : timer) (s : slot) : list timer_node :=
  match s with
  | Near i => default [] (near T).[i]
  | Level l i => default [] (lev ← (tlev T).[l]; lev.[i])
  end.

Definition link_slot (s : slot) (n : timer_node) (T : timer) : option timer :=
  match s with Near i => link_near i n T | Level l i => link_level l i n T end.

Definition clear_slot (s : slot) (T : timer)
    : option (list timer_node * timer) :=
  match s with Near i => clear_near i T | Level l i => clear_level l i T end.

Definition shape (T : timer) : Prop :=
  zlen (near T) = 256 /\ zlen (tlev T) = 4 /\
  forall l lev, (tlev T).[l] = Some lev -> zlen lev = 64.

(** The fields that belong to [uboss_updatetime]. *)
Definition clock (T : timer) : Z * Z * Z :=
  (starttime T, current T, current_point T).

(** [T'] is [T] with the content of slot [s] replaced by [v]. *)
Definition slot_set (s : slot) (v : list timer_node) (T T' : timer) : Prop :=
  shape T' /\ time T' = time T /\ clock T' = clock T /\
  forall s', get_slot T' s' = if decide (s = s') then v else get_slot T s'.

Lemma set_near_slot T i v n : shape T -> (near T).[i := v] = Some n ->
  slot_set (Near i) v T (set_near n T).
Proof.
  intros (Hn & Ht & Hl) Hset. split_and!; simpl; try done.
  - split_and!; simpl; [by rewrite (zlen_aset _ _ _ _ Hset) | done ..].
  - intros [j|l j]; simpl; [|done]. rewrite (aget_aset _ _ _ _ _ Hset).
    repeat case_decide; simplify_eq/=; done.
Qed.

Lemma set_level_slot T l i v lev lev' t : shape T ->
  (tlev T).[l] = Some lev -> lev.[i := v] = Some lev' ->
  (tlev T).[l := lev'] = Some t -> slot_set (Level l i) v T (set_tlev t T).
Proof.
  intros (Hn & Ht & Hl) Hlev Hlev' Hset. split_and!; simpl; try done.
  - split_and!; simpl; [done | by rewrite (zlen_aset _ _ _ _ Hset) |].
    intros l' lev1. rewrite (aget_aset _ _ _ _ _ Hset).
    case_decide; [|by apply Hl]. intros [= <-].
    rewrite (zlen_aset _ _ _ _ Hlev'). by eapply Hl.
  - intros [j|l' j]; simpl; [done|]. rewrite (aget_aset _ _ _ _ _ Hset).
    destruct (decide (l = l')) as [->|].
    + simpl. rewrite Hlev, (aget_aset _ _ _ _ _ Hlev'). simpl.
      repeat case_decide; simplify_eq/=; done.
    + repeat case_decide; simplify_eq/=; done.
Qed.

(** Every valid slot exists. *)
Lemma slot_exists T s : shape T -> valid_slot s ->
  match s with
  | Near i => exists l, (near T).[i] = Some l
  | Level l i => exists lev v, (tlev T).[l] = Some lev /\ lev.[i] = Some v
  end.
Proof.
  intros (Hn & Ht & Hl). destruct s as [i|l i]; simpl.
  - intros Hi. apply aget_is_Some. lia.
  - intros [Hl4 Hi]. destruct (aget_is_Some (tlev T) l) as [lev Hlev]; [lia|].
    destruct (aget_is_Some lev i) as [v Hv]; [rewrite (Hl _ _ Hlev); lia|].
    by exists lev, v.
Qed.

Lemma link_slot_spec T s n : shape T -> valid_slot s ->
  exists T', link_slot s n T = Some T' /\ slot_set s (get_slot T s ++ [n]) T T'.
Proof.
  intros Hsh Hs. pose proof (slot_exists T s Hsh Hs) as Hex.
  destruct s as [i|l i]; simpl in *.
  - destruct Hex as [v Hv]. unfold link_near. rewrite Hv; simpl.
    rewrite aset_Some by (by eapply aget_lt_Some). simpl.
    eexists; split; [done|]. apply set_near_slot; [done|].
    apply aset_Some. by eapply aget_lt_Some.
  - destruct Hex as (lev & v & Hlev & Hv). unfold link_level.
    rewrite Hlev; simpl. rewrite Hv; simpl.
    rewrite (aset_Some lev) by (by eapply aget_lt_Some); simpl.
    rewrite (aset_Some (tlev T)) by (by eapply aget_lt_Some); simpl.
    eexists; split; [done|].
    eapply set_level_slot; [done | done | |];
      apply aset_Some; by eapply aget_lt_Some.
Qed.

Lemma clear_slot_spec T s : shape T -> valid_slot s ->
  exists T', clear_slot s T = Some (get_slot T s, T') /\ slot_set s [] T T'.
Proof.
  intros Hsh Hs. pose proof (slot_exists T s Hsh Hs) as Hex.
  destruct s as [i|l i]; simpl in *.
  - destruct Hex as [v Hv]. unfold clear_near. rewrite Hv; simpl.
    rewrite aset_Some by (by eapply aget_lt_Some). simpl.
    eexists; split; [done|]. apply set_near_slot; [done|].
    apply aset_Some. by eapply aget_lt_Some.
  - destruct Hex as (lev & v & Hlev & Hv). unfold clear_level.
    rewrite Hlev; simpl. rewrite Hv; simpl.
    rewrite (aset_Some lev) by (by eapply aget_lt_Some); simpl.
    rewrite (aset_Some (tlev T)) by (by eapply aget_lt_Some); simpl.
    eexists; split; [done|].
    eapply set_level_slot; [done | done | |];
      apply aset_Some; by eapply aget_lt_Some.
Qed.

Lemma slot_of_valid e c : is_u32 e -> valid_slot (slot_of e c).
Proof.
  intros He. unfold slot_of.
  repeat case_match; simpl; try split; try lia;
    apply Z.mod_pos_bound; lia.
Qed.

(** [add_node] links the node into [slot_of expire time]. *)
Lemma add_node_slot T n :
  add_node T n = link_slot (slot_of (expire n) (time T)) n T.
Proof.
  unfold add_node, slot_of.
  change TIME_NEAR_MASK with (2 ^ 8 - 1). change TIME_LEVEL_MASK with (2 ^ 6 - 1).
  change TIME_LEVEL_SHIFT with 6. change TIME_NEAR_SHIFT with 8.
  change (Z.shiftl TIME_NEAR 6) with (2 ^ 14).
  assert (forall k, 0 <= k ->
    (Z.lor (expire n) (2 ^ k - 1) =? Z.lor (time T) (2 ^ k - 1)) =
    (expire n / 2 ^ k =? time T / 2 ^ k)) as Hk.
  { intros k Hk. apply Bool.eq_iff_eq_true.
    rewrite !Z.eqb_eq. by apply lor_mask_eq. }
  rewrite Hk by lia. rewrite !land_mask by lia.
  destruct (expire n / 2 ^ 8 =? time T / 2 ^ 8); [done|].
  cbn [find_level]. rewrite Hk by lia.
  change (u32 (Z.shiftl (2 ^ 14) TIME_LEVEL_SHIFT)) with (2 ^ 20).
  change (u32 (Z.shiftl (2 ^ 20) TIME_LEVEL_SHIFT)) with (2 ^ 26).
  rewrite !Hk by lia.
  repeat case_match; simpl link_slot; by rewrite Z.shiftr_div_pow2 by lia.
Qed.

(** ** Digits: a time is five digits, of 6, 6, 6, 6 and 8 bits *)

Definition digits (e e3 e2 e1 e0 en : Z) : Prop :=
  e = e3 * 2 ^ 26 + e2 * 2 ^ 20 + e1 * 2 ^ 14 + e0 * 2 ^ 8 + en /\
  0 <= e3 < 64 /\ 0 <= e2 < 64 /\ 0 <= e1 < 64 /\ 0 <= e0 < 64 /\ 0 <= en < 256.

Lemma digits_exist e : is_u32 e -> exists e3 e2 e1 e0 en, digits e e3 e2 e1 e0 en.
Proof.
  unfold is_u32. intros He.
  exists (e / 2 ^ 26), (e / 2 ^ 20 mod 64), (e / 2 ^ 14 mod 64), (e / 2 ^ 8 mod 64),
    (e mod 2 ^ 8).
  unfold digits.
  assert (e / 2 ^ 26 = e / 2 ^ 8 / 64 / 64 / 64) as -> by (by rewrite !Z.div_div by lia).
  assert (e / 2 ^ 20 = e / 2 ^ 8 / 64 / 64) as -> by (by rewrite !Z.div_div by lia).
  assert (e / 2 ^ 14 = e / 2 ^ 8 / 64) as -> by (by rewrite !Z.div_div by lia).
  pose proof (Z.div_mod e (2 ^ 8) ltac:(lia)).
  pose proof (Z.mod_pos_bound e (2 ^ 8) ltac:(lia)).
  set (a := e / 2 ^ 8) in *. set (r := e mod 2 ^ 8) in *.
  pose proof (Z.div_mod a 64 ltac:(lia)). pose proof (Z.mod_pos_bound a 64 ltac:(lia)).
  set (b := a / 64) in *. set (r1 := a mod 64) in *.
  pose proof (Z.div_mod b 64 ltac:(lia)). pose proof (Z.mod_pos_bound b 64 ltac:(lia)).
  set (d := b / 64) in *. set (r2 := b mod 64) in *.
  pose proof (Z.div_mod d 64 ltac:(lia)). pose proof (Z.mod_pos_bound d 64 ltac:(lia)).
  set (f := d / 64) in *. set (r3 := d mod 64) in *.
  clearbody f r3 d r2 b r1 a r. lia.
Qed.

Lemma digits_div e e3 e2 e1 e0 en : digits e e3 e2 e1 e0 en ->
  e mod 2 ^ 8 = en /\ e / 2 ^ 8 = e3 * 2 ^ 18 + e2 * 2 ^ 12 + e1 * 2 ^ 6 + e0 /\
  e / 2 ^ 14 = e3 * 2 ^ 12 + e2 * 2 ^ 6 + e1 /\ e / 2 ^ 20 = e3 * 2 ^ 6 + e2 /\
  e / 2 ^ 26 = e3.
Proof.
  intros (-> & H). split_and!.
  - symmetry. apply Z.mod_unique with (e3 * 2 ^ 18 + e2 * 2 ^ 12 + e1 * 2 ^ 6 + e0); lia.
  - symmetry. apply Z.div_unique with en; lia.
  - symmetry. apply Z.div_unique with (e0 * 2 ^ 8 + en); lia.
  - symmetry. apply Z.div_unique with (e1 * 2 ^ 14 + e0 * 2 ^ 8 + en); lia.
  - symmetry. apply Z.div_unique with (e2 * 2 ^ 20 + e1 * 2 ^ 14 + e0 * 2 ^ 8 + en); lia.
Qed.

Lemma slot_digits e e3 e2 e1 e0 en c c3 c2 c1 c0 cn :
  digits e e3 e2 e1 e0 en -> digits c c3 c2 c1 c0 cn ->
  slot_of e c =
  if decide (e3 = c3) then
    if decide (e2 = c2) then
      if decide (e1 = c1) then
        if decide (e0 = c0) then Near en else Level 0 e0
      else Level 1 e1
    else Level 2 e2
  else Level 3 e3.
Proof.
  intros He Hc.
  destruct (digits_div _ _ _ _ _ _ He) as (En & E8 & E14 & E20 & E26).
  destruct (digits_div _ _ _ _ _ _ Hc) as (Cn & C8 & C14 & C20 & C26).
  destruct He as [_ He], Hc as [_ Hc].
  unfold slot_of. rewrite En, E8, E14, E20, E26, C8, C14, C20, C26.
  replace ((e3 * 2 ^ 18 + e2 * 2 ^ 12 + e1 * 2 ^ 6 + e0) mod 64) with e0
    by (apply Z.mod_unique with (e3 * 2 ^ 12 + e2 * 2 ^ 6 + e1); lia).
  replace ((e3 * 2 ^ 12 + e2 * 2 ^ 6 + e1) mod 64) with e1
    by (apply Z.mod_unique with (e3 * 2 ^ 6 + e2); lia).
  replace ((e3 * 2 ^ 6 + e2) mod 64) with e2 by (apply Z.mod_unique with e3; lia).
  rewrite (Z.mod_small e3) by lia.
  repeat case_decide; zdec; (done || lia).
Qed.

(** The slot that [timer_shift] empties when the time becomes [c]. *)
Definition moved (c : Z) : option slot :=
  if c =? 0 then Some (Level 3 0)
  else if negb (c mod 2 ^ 8 =? 0) then None
  else if negb (c / 2 ^ 8 mod 64 =? 0) then Some (Level 0 (c / 2 ^ 8 mod 64))
  else if negb (c / 2 ^ 14 mod 64 =? 0) then Some (Level 1 (c / 2 ^ 14 mod 64))
  else if negb (c / 2 ^ 20 mod 64 =? 0) then Some (Level 2 (c / 2 ^ 20 mod 64))
  else Some (Level 3 (c / 2 ^ 26 mod 64)).

Lemma moved_digits c c3 c2 c1 c0 cn : digits c c3 c2 c1 c0 cn ->
  moved c =
  if decide (cn <> 0) then None
  else if decide (c0 <> 0) then Some (Level 0 c0)
  else if decide (c1 <> 0) then Some (Level 1 c1)
  else if decide (c2 <> 0) then Some (Level 2 c2)
  else Some (Level 3 c3).
Proof.
  intros Hc. destruct (digits_div _ _ _ _ _ _ Hc) as (Cn & C8 & C14 & C20 & C26).
  destruct Hc as [Hc Hb]. unfold moved. rewrite Cn, C8, C14, C20, C26.
  replace ((c3 * 2 ^ 18 + c2 * 2 ^ 12 + c1 * 2 ^ 6 + c0) mod 64) with c0
    by (apply Z.mod_unique with (c3 * 2 ^ 12 + c2 * 2 ^ 6 + c1); lia).
  replace ((c3 * 2 ^ 12 + c2 * 2 ^ 6 + c1) mod 64) with c1
    by (apply Z.mod_unique with (c3 * 2 ^ 6 + c2); lia).
  replace ((c3 * 2 ^ 6 + c2) mod 64) with c2 by (apply Z.mod_unique with c3; lia).
  rewrite (Z.mod_small c3) by lia.
  repeat case_decide; zdec; simpl; try done; try lia.
  assert (c3 = 0) by lia. by subst.
Qed.

(** The digits of the next time. *)
Lemma digits_succ c c3 c2 c1 c0 cn : digits c c3 c2 c1 c0 cn ->
  if decide (cn < 255) then digits (u32 (c + 1)) c3 c2 c1 c0 (cn + 1)
  else if decide (c0 < 63) then digits (u32 (c + 1)) c3 c2 c1 (c0 + 1) 0
  else if decide (c1 < 63) then digits (u32 (c + 1)) c3 c2 (c1 + 1) 0 0
  else if decide (c2 < 63) then digits (u32 (c + 1)) c3 (c2 + 1) 0 0 0
  else digits (u32 (c + 1)) (if decide (c3 < 63) then c3 + 1 else 0) 0 0 0 0.
Proof.
  intros (-> & H). unfold digits, u32.
  repeat case_decide; (split; [|lia]);
    [rewrite Z.mod_small; lia .. |].
  symmetry. apply Z.mod_unique with 1; lia.
Qed.

(** A timer is alive when it expires in the future, less than [2^31] ticks
    away: the delays [uboss_timeout] accepts are positive [int]s. *)
Definition alive (c e : Z) : Prop := is_u32 e /\ 0 < (e - c) mod 2 ^ 32 < 2 ^ 31.

Lemma alive_cases c e : is_u32 c -> alive c e ->
  c < e < c + 2 ^ 31 \/ e < c /\ c - e > 2 ^ 31.
Proof.
  unfold alive, is_u32. intros Hc [He Hd].
  destruct (Z.lt_ge_cases c e) as [Hlt|Hge].
  - rewrite Z.mod_small in Hd by lia. lia.
  - right. replace ((e - c) mod 2 ^ 32) with (e - c + 2 ^ 32) in Hd; [lia|].
    assert (e <> c) by (intros ->; rewrite Z.sub_diag in Hd; by destruct Hd).
    apply Z.mod_unique with (-1); lia.
Qed.

(** An alive timer is later than the current time in the order of digits,
    unless its first digit differs. *)
Lemma alive_digits e e3 e2 e1 e0 en c c3 c2 c1 c0 cn :
  digits e e3 e2 e1 e0 en -> digits c c3 c2 c1 c0 cn -> alive c e ->
  e3 <> c3 \/ e3 = c3 /\ (c2 < e2 \/ e2 = c2 /\ (c1 < e1 \/ e1 = c1 /\
    (c0 < e0 \/ e0 = c0 /\ cn < en))).
Proof.
  intros (-> & De) (-> & Dc) Ha.
  apply alive_cases in Ha; [|unfold is_u32; lia].
  destruct (decide (e3 = c3)) as [->|]; [right; split; [done|] | by left].
  destruct (decide (e2 = c2)) as [->|]; [right; split; [done|] | left; lia].
  destruct (decide (e1 = c1)) as [->|]; [right; split; [done|] | left; lia].
  destruct (decide (e0 = c0)) as [->|]; [right; split; [done|] | left; lia].
  lia.
Qed.

(** Case analysis on the digits of an alive timer [e] and of the next time. *)
Ltac digit_cases Hc He c e :=
  destruct (digits_exist e (proj1 He)) as (e3 & e2 & e1 & e0 & en & De);
  destruct (digits_exist c Hc) as (c3 & c2 & c1 & c0 & cn & Dc);
  pose proof (digits_succ _ _ _ _ _ _ Dc) as Dc';
  pose proof (alive_digits _ _ _ _ _ _ _ _ _ _ _ _ De Dc He) as Hlex;
  destruct (decide (cn < 255)); [|destruct (decide (c0 < 63));
    [|destruct (decide (c1 < 63)); [|destruct (decide (c2 < 63)) ]]];
  rewrite (moved_digits _ _ _ _ _ _ Dc'), (slot_digits _ _ _ _ _ _ _ _ _ _ _ _ De Dc),
    (slot_digits _ _ _ _ _ _ _ _ _ _ _ _ De Dc');
  destruct De as [_ De], Dc as [_ Dc]; clear Dc' He Hc;
  destruct_and!;
  destruct Hlex as [?|(-> & [?|(-> & [?|(-> & [?|(-> & ?)])])])]; try (exfalso; lia);
  repeat (case_decide; simplify_eq/=; try (exfalso; lia)).

(** Timers outside the emptied slot stay where they belong. *)
Lemma shift_unmoved e c : is_u32 c -> alive c e ->
  moved (u32 (c + 1)) <> Some (slot_of e c) ->
  slot_of e (u32 (c + 1)) = slot_of e c.
Proof.
  intros Hc He. digit_cases Hc He c e; try done.
  all: intros Hm; exfalso; apply Hm; repeat f_equal; lia.
Qed.

Definition rank (s : slot) : Z := match s with Near _ => -1 | Level l _ => l end.

(** At the shift that empties level [k], no alive timer is in a lower level
    or in [near], and the moved timers go to lower levels. *)
Lemma shift_rank e c l i : is_u32 c -> alive c e ->
  moved (u32 (c + 1)) = Some (Level l i) ->
  l <= rank (slot_of e c) /\
  (slot_of e c = Level l i -> rank (slot_of e (u32 (c + 1))) < l).
Proof.
  intros Hc He. digit_cases Hc He c e.
  all: intros Hm; simplify_eq/=; split; try lia; intros Hs; simplify_eq; lia.
Qed.

(** The slots that receive moved timers were empty before. *)
Lemma shift_fresh e1 e2 c : is_u32 c -> alive c e1 -> alive c e2 ->
  moved (u32 (c + 1)) = Some (slot_of e1 c) ->
  slot_of e1 (u32 (c + 1)) = slot_of e2 (u32 (c + 1)) ->
  moved (u32 (c + 1)) = Some (slot_of e2 c).
Proof.
  intros Hc He1 He2 Hm Heq.
  destruct (decide (moved (u32 (c + 1)) = Some (slot_of e2 c))) as [|Hn]; [done|].
  rewrite (shift_unmoved e2 c Hc He2 Hn) in Heq.
  destruct (slot_of e1 c) as [i|l i] eqn:Hs.
  - exfalso. revert Hm. unfold moved. by repeat case_match.
  - destruct (shift_rank e1 c l i Hc He1 Hm) as [_ Hlt].
    destruct (shift_rank e2 c l i Hc He2 Hm) as [Hge _].
    specialize (Hlt Hs). rewrite Heq in Hlt. lia.
Qed.

(** The timers in the slot of the new time are the ones that expire now. *)
Lemma slot_of_now e c : slot_of e c = Near (c mod 2 ^ 8) <-> e = c.
Proof.
  unfold slot_of. split.
  - destruct (Z.eqb_spec (e / 2 ^ 8) (c / 2 ^ 8)) as [Hd|]; [|by repeat case_match].
    intros [= Hm]. rewrite (Z.div_mod e (2 ^ 8)), (Z.div_mod c (2 ^ 8)) by lia. congruence.
  - intros ->. by rewrite Z.eqb_refl.
Qed.

(** ** The wheel represents the pending timers *)

(** Every slot holds exactly the pending timers that belong to it at the
    current time, in the order of insertion. *)
Definition repr (T : timer) (P : list timer_node) : Prop :=
  shape T /\ is_u32 (time T) /\ Forall (fun n => is_u32 (expire n)) P /\
  forall s, get_slot T s = filter (fun n => slot_of (expire n) (time T) = s) P.

(** The timers of [s] are all in the future and the wheel represents them. *)
Definition timer_repr (T : timer) (s : tspec) : Prop :=
  repr T (ts_pending s) /\ time T = ts_now s /\
  Forall (fun n => alive (ts_now s) (expire n)) (ts_pending s).

Lemma repr_intro T T' P P' n : repr T P -> is_u32 (expire n) -> shape T' ->
  time T' = time T -> P' = P ++ [n] ->
  (forall s, get_slot T' s = if decide (slot_of (expire n) (time T) = s)
     then get_slot T (slot_of (expire n) (time T)) ++ [n] else get_slot T s) ->
  repr T' P'.
Proof.
  intros (Hsh & Hc & HP & Hs) Hn Hsh' Ht -> Hg. split_and!; [done | by rewrite Ht | |].
  - apply Forall_app; split; [done|]. by apply Forall_singleton.
  - intros s. rewrite Hg, Ht, filter_app. case_decide as Heq.
    + rewrite Hs, Heq. f_equal. by rewrite filter_cons_True.
    + by rewrite Hs, filter_cons_False, filter_nil, app_nil_r.
Qed.

Lemma add_node_repr T P n : repr T P -> is_u32 (expire n) ->
  exists T', add_node T n = Some T' /\ time T' = time T /\
    clock T' = clock T /\ repr T' (P ++ [n]).
Proof.
  intros HT Hn. pose proof HT as (Hsh & Hc & _). rewrite add_node_slot.
  destruct (link_slot_spec T (slot_of (expire n) (time T)) n Hsh)
    as (T' & -> & Hsh' & Ht & Hcur & Hg); [by apply slot_of_valid|].
  exists T'. split_and!; [done .. |]. by eapply repr_intro.
Qed.

Lemma add_nodes_spec T l : shape T -> Forall (fun n => is_u32 (expire n)) l ->
  exists T', add_nodes T l = Some T' /\ shape T' /\ time T' = time T /\
    clock T' = clock T /\
    forall s, get_slot T' s = get_slot T s ++
      filter (fun n => slot_of (expire n) (time T) = s) l.
Proof.
  revert T. induction l as [|n l IH]; intros T Hsh Hl; simpl.
  - exists T. split_and!; try done. intros s. by rewrite filter_nil, app_nil_r.
  - apply Forall_cons in Hl as [Hn Hl]. rewrite add_node_slot.
    destruct (link_slot_spec T (slot_of (expire n) (time T)) n Hsh)
      as (T1 & -> & Hsh1 & Ht1 & Hcur1 & Hg1); [by apply slot_of_valid|]. simpl.
    destruct (IH T1 Hsh1 Hl) as (T' & -> & Hsh' & Ht' & Hcur' & Hg').
    exists T'. split_and!; [done | done | congruence | congruence |].
    intros s. rewrite Hg', Hg1, Ht1. case_decide as Heq.
    + rewrite filter_cons_True, <-Heq by done. by rewrite <-app_assoc.
    + by rewrite filter_cons_False.
Qed.

(** Filtering by slots: what the emptied slot and the others hold. *)
Lemma filter_shift P c s sm : is_u32 c ->
  Forall (fun n => alive c (expire n)) P -> moved (u32 (c + 1)) = Some sm ->
  (if decide (sm = s) then [] else filter (fun n => slot_of (expire n) c = s) P) ++
    filter (fun n => slot_of (expire n) (u32 (c + 1)) = s)
      (filter (fun n => slot_of (expire n) c = sm) P) =
  filter (fun n => slot_of (expire n) (u32 (c + 1)) = s) P.
Proof.
  intros Hc HP Hm. rewrite Forall_forall in HP. rewrite list_filter_filter.
  destruct (decide (Exists (fun n => slot_of (expire n) c = sm /\
    slot_of (expire n) (u32 (c + 1)) = s) P)) as [Hex|Hno].
  - apply Exists_exists in Hex as (n1 & Hn1 & <- & Hs1).
    assert (forall n, n ∈ P -> slot_of (expire n) (u32 (c + 1)) = s ->
      slot_of (expire n) c = slot_of (expire n1) c) as Hall.
    { intros n Hn Hs.
      pose proof (shift_fresh (expire n1) (expire n) c Hc (HP _ Hn1) (HP _ Hn) Hm) as Hf.
      rewrite Hs1, Hs in Hf. specialize (Hf eq_refl). congruence. }
    match goal with |- ?A ++ _ = _ => assert (A = []) as -> end.
    { case_decide as Hd; [done|]. apply filter_none.
      intros n Hn Hs.
      assert (slot_of (expire n) (u32 (c + 1)) = slot_of (expire n) c) as Hu.
      { apply shift_unmoved; [done | by apply HP | congruence]. }
      apply Hd. rewrite <-Hs. symmetry. apply Hall; [done | congruence]. }
    apply filter_ext_in. intros n Hn. split; [tauto|]. eauto.
  - match goal with |- _ ++ ?A = _ => assert (A = []) as -> end.
    { apply filter_none. intros n Hn [Hs1 Hs2].
      apply Hno, Exists_exists. eauto. }
    rewrite app_nil_r. case_decide as Hd.
    + symmetry. apply filter_none. intros n Hn Hs.
      apply Hno, Exists_exists. exists n. split_and!; [done | | done].
      destruct (decide (moved (u32 (c + 1)) = Some (slot_of (expire n) c))); [congruence|].
      rewrite shift_unmoved in Hs by (try done; by apply HP). congruence.
    + apply filter_ext_in. intros n Hn.
      destruct (decide (moved (u32 (c + 1)) = Some (slot_of (expire n) c))) as [He|He].
      * split; intros Hs; [congruence|].
        exfalso. apply Hno, Exists_exists. exists n. split_and!; [done | congruence | done].
      * by rewrite shift_unmoved by (try done; by apply HP).
Qed.

(** ** The operations *)

Lemma set_time_slots c T s : get_slot (set_time c T) s = get_slot T s.
Proof. done. Qed.

(** [move_list] on the emptied slot puts every pending timer where it belongs
    at the new time. *)
Lemma move_list_repr T P l i : repr T P ->
  Forall (fun n => alive (time T) (expire n)) P ->
  moved (u32 (time T + 1)) = Some (Level l i) -> valid_slot (Level l i) ->
  exists T', move_list (set_time (u32 (time T + 1)) T) l i = Some T' /\
    time T' = u32 (time T + 1) /\ clock T' = clock T /\ repr T' P.
Proof.
  intros (Hsh & Hc & HP & Hs) Hal Hm Hv.
  destruct (clear_slot_spec (set_time (u32 (time T + 1)) T) (Level l i))
    as (T1 & Hcl & Hsh1 & Ht1 & Hcur1 & Hg1); [done | done |].
  unfold move_list. simpl in Hcl. rewrite Hcl. simpl.
  match goal with |- context [add_nodes T1 ?L] =>
    assert (Forall (fun n => is_u32 (expire n)) L) as HL end.
  { pose proof (Hs (Level l i)) as Hli. simpl in Hli. rewrite Hli.
    by apply Forall_filter. }
  destruct (add_nodes_spec T1 _ Hsh1 HL) as (T' & HT' & Hsh' & Ht' & Hcur' & Hg').
  exists T'. rewrite Ht1 in Ht', Hg'. simpl in Ht', Hg'.
  change (clock (set_time _ T)) with (clock T) in Hcur1.
  split_and!; [done | done | congruence |].
  split_and!; [done | rewrite Ht'; apply u32_bound | done |].
  intros s. rewrite Hg', Hg1, Ht', set_time_slots, Hs.
  pose proof (Hs (Level l i)) as Hli. simpl in Hli. rewrite Hli.
  by apply filter_shift.
Qed.

Lemma shift_loop_moved T ct : is_u32 ct -> ct <> 0 ->
  shift_loop 4 T ct TIME_NEAR (Z.shiftr ct TIME_NEAR_SHIFT) 0 =
  match moved ct with
  | Some (Level l i) => move_list T l i
  | _ => Some T
  end.
Proof.
  intros Hct Hnz. destruct (digits_exist ct Hct) as (c3 & c2 & c1 & c0 & cn & D).
  rewrite (moved_digits _ _ _ _ _ _ D).
  pose proof (digits_div _ _ _ _ _ _ D) as (Hn & H8 & _). destruct D as [Dct Db].
  change TIME_NEAR with (2 ^ 8). change TIME_NEAR_SHIFT with 8.
  cbn [shift_loop]. change TIME_LEVEL_MASK with (2 ^ 6 - 1).
  change TIME_LEVEL_SHIFT with 6. idtac.
  change (Z.shiftl (2 ^ 8) 6) with (2 ^ 14). change (Z.shiftl (2 ^ 14) 6) with (2 ^ 20).
  change (Z.shiftl (2 ^ 20) 6) with (2 ^ 26). change (0 + 1) with 1. change (1 + 1) with 2.
  change (2 + 1) with 3.
  rewrite !land_mask, !Z.shiftr_div_pow2, H8, Hn by lia.
  replace ((c3 * 2 ^ 18 + c2 * 2 ^ 12 + c1 * 2 ^ 6 + c0) mod 2 ^ 6) with c0
    by (apply Z.mod_unique with (c3 * 2 ^ 12 + c2 * 2 ^ 6 + c1); lia).
  replace ((c3 * 2 ^ 18 + c2 * 2 ^ 12 + c1 * 2 ^ 6 + c0) / 2 ^ 6)
    with (c3 * 2 ^ 12 + c2 * 2 ^ 6 + c1) by (apply Z.div_unique with c0; lia).
  replace ((c3 * 2 ^ 12 + c2 * 2 ^ 6 + c1) mod 2 ^ 6) with c1
    by (apply Z.mod_unique with (c3 * 2 ^ 6 + c2); lia).
  replace ((c3 * 2 ^ 12 + c2 * 2 ^ 6 + c1) / 2 ^ 6) with (c3 * 2 ^ 6 + c2)
    by (apply Z.div_unique with c1; lia).
  replace ((c3 * 2 ^ 6 + c2) mod 2 ^ 6) with c2 by (apply Z.mod_unique with c3; lia).
  replace ((c3 * 2 ^ 6 + c2) / 2 ^ 6) with c3 by (apply Z.div_unique with c2; lia).
  rewrite (Z.mod_small c3) by lia.
  replace (ct mod 2 ^ 14) with (c0 * 2 ^ 8 + cn)
    by (apply Z.mod_unique with (c3 * 2 ^ 12 + c2 * 2 ^ 6 + c1); lia).
  replace (ct mod 2 ^ 20) with (c1 * 2 ^ 14 + c0 * 2 ^ 8 + cn)
    by (apply Z.mod_unique with (c3 * 2 ^ 6 + c2); lia).
  replace (ct mod 2 ^ 26) with (c2 * 2 ^ 20 + c1 * 2 ^ 14 + c0 * 2 ^ 8 + cn)
    by (apply Z.mod_unique with c3; lia).
  assert (forall k, k <> 0 -> (k =? 0) = false) as Hf by (intros; by apply Z.eqb_neq).
  destruct (decide (cn = 0)) as [->|]; [|rewrite (Hf cn), decide_True by done; done].
  rewrite decide_False, Z.add_0_r by lia. cbn [Z.eqb].
  destruct (decide (c0 = 0)) as [->|]; [|rewrite (Hf c0), decide_True by done; done].
  rewrite decide_False, Z.mul_0_l, Z.add_0_r by lia. cbn [Z.eqb negb].
  destruct (decide (c1 = 0)) as [->|]; [|rewrite (Hf c1), decide_True by done; done].
  rewrite decide_False, Z.mul_0_l, Z.add_0_r by lia. cbn [Z.eqb negb].
  destruct (decide (c2 = 0)) as [->|]; [|rewrite (Hf c2), decide_True by done; done].
  rewrite decide_False, Z.mul_0_l by lia. cbn [Z.eqb negb].
  by rewrite (Hf c3) by lia.
Qed.

Lemma moved_valid c s : is_u32 c -> moved c = Some s ->
  exists l i, s = Level l i /\ valid_slot s.
Proof.
  unfold is_u32, moved. intros Hc Hm.
  repeat case_match; simplify_eq; do 2 eexists; (split; [done|]); simpl;
    (split; [lia|]); (done || apply Z.mod_pos_bound; lia).
Qed.

Lemma moved_None_same e c : is_u32 c -> alive c e ->
  moved (u32 (c + 1)) = None -> slot_of e (u32 (c + 1)) = slot_of e c.
Proof. intros Hc He Hm. apply shift_unmoved; [done | done | congruence]. Qed.

Lemma timer_shift_repr T P : repr T P ->
  Forall (fun n => alive (time T) (expire n)) P ->
  exists T', timer_shift T = Some T' /\ time T' = u32 (time T + 1) /\
    clock T' = clock T /\ repr T' P.
Proof.
  intros HT Hal. unfold timer_shift.
  assert ((if u32 (time T + 1) =? 0 then move_list (set_time (u32 (time T + 1)) T) 3 0
    else shift_loop 4 (set_time (u32 (time T + 1)) T) (u32 (time T + 1)) TIME_NEAR
           (Z.shiftr (u32 (time T + 1)) TIME_NEAR_SHIFT) 0) =
    match moved (u32 (time T + 1)) with
    | Some (Level l i) => move_list (set_time (u32 (time T + 1)) T) l i
    | _ => Some (set_time (u32 (time T + 1)) T)
    end) as ->.
  { destruct (Z.eqb_spec (u32 (time T + 1)) 0) as [->|Hnz]; [done|].
    apply shift_loop_moved; [apply u32_bound | done]. }
  destruct (moved (u32 (time T + 1))) as [s|] eqn:Hm.
  - destruct (moved_valid _ _ (u32_bound _) Hm) as (l & i & -> & Hv).
    by apply move_list_repr.
  - eexists; split_and!; [done .. |].
    pose proof HT as (Hsh & Hc & HP & Hs).
    split_and!; simpl; [done | apply u32_bound | done |].
    intros s. rewrite set_time_slots, Hs. apply filter_ext_in.
    intros n Hn. rewrite moved_None_same; try done.
    by apply (proj1 (Forall_forall _ _) Hal).
Qed.

Definition adds_ok (l : list (timer_event * Z)) : Prop :=
  Forall (fun x => 0 < snd x < 2 ^ 31) l.

Lemma alive_add c d : is_u32 c -> 0 < d < 2 ^ 31 -> alive c (u32 (d + c)).
Proof.
  intros Hc Hd. split; [apply u32_bound|]. unfold u32.
  rewrite Zminus_mod_idemp_l, Z.add_simpl_r, Z.mod_small; lia.
Qed.

Lemma timer_add_repr T s ev d : timer_repr T s -> 0 < d < 2 ^ 31 ->
  exists T', timer_add T ev d = Some T' /\ clock T' = clock T /\
    timer_repr T' (spec_add s ev d).
Proof.
  intros (HT & Ht & Hal) Hd. unfold timer_add.
  pose proof HT as (_ & Hc & _).
  destruct (add_node_repr T _ (TimerNode (u32 (d + time T)) ev) HT)
    as (T' & -> & Ht' & Hcur' & HT'); [apply u32_bound|].
  exists T'. split; [done|]. split; [done|]. rewrite <-Ht in Hal.
  unfold timer_repr, spec_add; cbn [ts_now ts_pending]. rewrite <-Ht.
  split; [done|]. split; [done|].
  apply Forall_app; split; [done|]. apply Forall_singleton; simpl. by apply alive_add.
Qed.

Lemma add_all_repr T s l : timer_repr T s -> adds_ok l ->
  exists T', add_all T l = Some T' /\ clock T' = clock T /\
    timer_repr T' (spec_add_all s l).
Proof.
  revert T s. induction l as [|[ev d] l IH]; intros T s HT Hl; [by exists T|].
  apply Forall_cons in Hl as [Hd Hl]. simpl.
  destruct (timer_add_repr T s ev d HT Hd) as (T1 & -> & Hc1 & HT1). simpl.
  destruct (IH T1 _ HT1 Hl) as (T' & -> & Hc' & HT').
  exists T'. split_and!; [done | congruence | done].
Qed.

Lemma spec_add_all_now s l : ts_now (spec_add_all s l) = ts_now s.
Proof. revert s. induction l as [|x l IH]; intros s; simpl; [done|]. by rewrite IH. Qed.

Definition addss_ok (l : list (list (timer_event * Z))) : Prop := Forall adds_ok l.

Lemma addss_head l : addss_ok l -> adds_ok (default [] (head l)).
Proof. destruct 1; [by apply Forall_nil | done]. Qed.

(** Alive or expiring now. *)
Definition alive0 (c e : Z) : Prop := is_u32 e /\ (e = c \/ alive c e).

Lemma due_nil s : Forall (fun n => alive (ts_now s) (expire n)) (ts_pending s) ->
  due s = [].
Proof.
  rewrite Forall_forall. intros Hal. apply filter_none. intros n Hn Heq.
  destruct (Hal n Hn) as [_ Hd]. rewrite Heq, Z.sub_diag in Hd. by destruct Hd.
Qed.

Lemma near_due T s : repr T (ts_pending s) -> time T = ts_now s ->
  (near T).[Z.land (time T) TIME_NEAR_MASK] = Some (due s).
Proof.
  intros (Hsh & Hc & HP & Hs) Ht. change TIME_NEAR_MASK with (2 ^ 8 - 1).
  rewrite land_mask by lia.
  pose proof (slot_exists T (Near (time T mod 2 ^ 8)) Hsh) as [l Hl].
  { apply Z.mod_pos_bound; lia. }
  specialize (Hs (Near (time T mod 2 ^ 8))). simpl in Hs. rewrite Hl in *.
  simpl in Hs. rewrite Hs. f_equal. apply filter_ext_in. intros n _.
  rewrite slot_of_now. by rewrite Ht.
Qed.

Section dispatch_lemmas.
Context {W : Type} (push : Z -> uboss_message -> W -> Z * W).

Lemma timer_execute_S fuel adds T w :
  timer_execute push (S fuel) adds T w =
  (l ← (near T).[Z.land (time T) TIME_NEAR_MASK];
   match l with
   | [] => Some (T, w)
   | _ :: _ =>
       '(l, T) ← clear_near (Z.land (time T) TIME_NEAR_MASK) T;
       T ← add_all T (default [] (head adds));
       timer_execute push fuel (tail adds) T (dispatch_list push l w)
   end).
Proof. done. Qed.

Lemma execute_empty fuel adds T s w : timer_repr T s ->
  timer_execute push (S fuel) adds T w = Some (T, w).
Proof.
  intros (HT & Ht & Hal). simpl. rewrite (near_due T s) by done.
  by rewrite due_nil.
Qed.

(** [timer_execute] dispatches the due timers and nothing else, whatever is
    added meanwhile, and finishes within two iterations. *)
Lemma timer_execute_repr adds T s w :
  repr T (ts_pending s) -> time T = ts_now s -> addss_ok adds ->
  Forall (fun n => alive0 (ts_now s) (expire n)) (ts_pending s) ->
  exists T', timer_execute push 2 adds T w =
      Some (T', (spec_execute push adds s w).2) /\
    clock T' = clock T /\ timer_repr T' (spec_execute push adds s w).1.
Proof.
  intros HT Ht Hadds Hal0. rewrite timer_execute_S.
  rewrite (near_due T s) by done. cbn [mbind option_bind]. unfold spec_execute.
  assert (Forall (fun n => alive (ts_now s) (expire n)) (not_due s)) as Hnd.
  { apply Forall_forall. intros n [Hne Hn]%list_elem_of_filter.
    destruct (proj1 (Forall_forall _ _) Hal0 n Hn) as [_ [?|?]]; done. }
  destruct (due s) as [|n0 l0] eqn:Hdue.
  - exists T. split; [done|]. split; [done|]. split; [done|]. split; [done|]. simpl.
    apply Forall_forall. intros n Hn.
    destruct (proj1 (Forall_forall _ _) Hal0 n Hn) as [_ [Heq|?]]; [|done].
    exfalso. assert (n ∈ due s) as Hin by (by apply list_elem_of_filter).
    rewrite Hdue in Hin. by apply not_elem_of_nil in Hin.
  - pose proof HT as (Hsh & Hc & HP & Hs).
    assert (Z.land (time T) TIME_NEAR_MASK = time T mod 2 ^ 8) as Hidx
      by (change TIME_NEAR_MASK with (2 ^ 8 - 1); by rewrite land_mask by lia).
    rewrite Hidx.
    destruct (clear_slot_spec T (Near (time T mod 2 ^ 8)) Hsh)
      as (T1 & Hcl & Hsh1 & Ht1 & Hcur1 & Hg1); [apply Z.mod_pos_bound; lia|].
    simpl in Hcl. rewrite Hcl. cbn [mbind option_bind].
    pose proof (near_due T s HT Ht) as Hnd'. rewrite Hidx in Hnd'. rewrite Hnd', Hdue.
    cbn [default].
    assert (timer_repr T1 (TSpec (ts_now s) (not_due s))) as HT1.
    { split; [|split; [by rewrite Ht1 | done]].
      split_and!; [done | by rewrite Ht1 | by apply Forall_filter |].
      intros sl. rewrite Hg1, Ht1. cbn [ts_pending]. unfold not_due. rewrite list_filter_filter.
      case_decide as Hsl.
      - symmetry. apply filter_none. intros n _ [Hsn Hne]. subst sl.
        apply slot_of_now in Hsn. congruence.
      - rewrite Hs. apply filter_ext_in. intros n _. split; [|tauto].
        intros Hsn. split; [done|]. intros He. apply Hsl. rewrite <-Hsn, He, Ht.
        symmetry. by apply slot_of_now. }
    destruct (add_all_repr T1 _ _ HT1 (addss_head _ Hadds)) as (T2 & -> & Hcur2 & HT2).
    cbn [mbind option_bind]. rewrite (execute_empty 0 _ _ _ _ HT2).
    exists T2. split_and!; [done | congruence | done].
Qed.

Lemma alive_succ c e : is_u32 c -> alive c e -> alive0 (u32 (c + 1)) e.
Proof.
  unfold alive0, alive, is_u32. intros Hc [He Hd]. split; [done|].
  destruct (decide (e = u32 (c + 1))); [by left|]. right. split; [done|].
  assert ((e - u32 (c + 1)) mod 2 ^ 32 = (e - c) mod 2 ^ 32 - 1) as Heq.
  { unfold u32. rewrite Zminus_mod_idemp_r.
    replace (e - (c + 1)) with (e - c - 1) by lia. rewrite Zminus_mod.
    change (1 mod 2 ^ 32) with 1. rewrite Z.mod_small by lia. done. }
  rewrite Heq. split; [|lia].
  destruct (decide ((e - c) mod 2 ^ 32 = 1)) as [H1|]; [|lia].
  exfalso. rewrite H1, Z.sub_diag in Heq. apply Z.mod_divide in Heq as [q Hq]; [|lia].
  pose proof (u32_bound (c + 1)) as Hb. unfold is_u32 in Hb.
  assert (q = 0) as -> by lia. lia.
Qed.

(** Between updates every pending timer is in the future, so the first
    [timer_execute] of an update finds nothing. *)
Lemma spec_update_alive adds1 adds2 s w :
  Forall (fun n => alive (ts_now s) (expire n)) (ts_pending s) ->
  spec_update push adds1 adds2 s w =
  spec_execute push adds2 (TSpec (u32 (ts_now s + 1)) (ts_pending s)) w.
Proof. intros Hal. unfold spec_update. unfold spec_execute at 1. by rewrite due_nil. Qed.

Lemma timer_update_repr adds1 adds2 T s w :
  timer_repr T s -> addss_ok adds1 -> addss_ok adds2 ->
  exists T', timer_update push adds1 adds2 T w =
      Some (T', (spec_update push adds1 adds2 s w).2) /\
    clock T' = clock T /\
    timer_repr T' (spec_update push adds1 adds2 s w).1.
Proof.
  intros HT H1 H2. pose proof HT as (Hr & Ht & Hal). unfold timer_update.
  rewrite (execute_empty 1 _ _ _ _ HT). cbn [mbind option_bind].
  destruct (timer_shift_repr T (ts_pending s) Hr) as (T1 & -> & Ht1 & Hcur1 & HT1);
    [by rewrite Ht|]. cbn [mbind option_bind].
  pose proof Hr as (_ & Hc & _).
  destruct (timer_execute_repr adds2 T1 (TSpec (u32 (ts_now s + 1)) (ts_pending s)) w)
    as (T' & -> & Hcur' & HT'); simpl; [done | by rewrite Ht1, Ht | done | |].
  { eapply Forall_impl; [exact Hal|]. simpl. intros n Hn. apply alive_succ; [|done].
    by rewrite <-Ht. }
  exists T'. rewrite spec_update_alive by done.
  split; [done|]. split; [congruence | done].
Qed.
End dispatch_lemmas.

(** ** Properties *)

(** What the rest of the node asks of the timer. *)
Inductive timer_op :=
  | TTimeout (handle delay session : Z)
  | TTick (adds1 adds2 : list (list (timer_event * Z))).

Definition timer_op_ok (op : timer_op) : Prop :=
  match op with
  | TTimeout _ d _ => d < 2 ^ 31
  | TTick a1 a2 => addss_ok a1 /\ addss_ok a2
  end.

Lemma timer_repr_init sec cs cp : timer_repr (uboss_timer_init sec cs cp) (TSpec 0 []).
Proof.
  assert (near (uboss_timer_init sec cs cp) = replicate 256 []) as Hnear by done.
  assert (tlev (uboss_timer_init sec cs cp) = replicate 4 (replicate 64 [])) as Hlev by done.
  split; [|split; [done | by apply Forall_nil]].
  split; [|split; [vm_compute; intuition congruence | split; [by apply Forall_nil|]]].
  - unfold shape. rewrite Hnear, Hlev. split_and!; [done .. |]. intros l lev Hl.
    pose proof (aget_lt_Some _ _ _ Hl) as Hr. rewrite zlen_replicate in Hr.
    rewrite aget_replicate in Hl by lia. by simplify_eq.
  - intros s. cbn [ts_pending]. rewrite filter_nil. destruct s as [i|l i]; unfold get_slot;
      rewrite ?Hnear, ?Hlev.
    + destruct (decide (0 <= i < 256)); [by rewrite aget_replicate by lia|].
      by rewrite aget_None by (rewrite zlen_replicate; lia).
    + destruct (decide (0 <= l < 4));
        [|by rewrite aget_None by (rewrite zlen_replicate; lia)].
      rewrite aget_replicate by lia. cbn [mbind option_bind].
      destruct (decide (0 <= i < 64)); [by rewrite aget_replicate by lia|].
      by rewrite aget_None by (rewrite zlen_replicate; lia).
Qed.

Lemma repr_elem T P n : repr T P -> n ∈ P <-> exists sl, n ∈ get_slot T sl.
Proof.
  intros (_ & _ & _ & Hs). split.
  - intros Hn. exists (slot_of (expire n) (time T)). rewrite Hs.
    by apply list_elem_of_filter.
  - intros [sl Hn]. rewrite Hs in Hn. by apply list_elem_of_filter in Hn as [_ ?].
Qed.

Section properties.
Context {W : Type} (push : Z -> uboss_message -> W -> Z * W).

Fixpoint timer_run (ops : list timer_op) (T : timer) (w : W)
    : option (timer * W) :=
  match ops with
  | [] => Some (T, w)
  | TTimeout h d ses :: ops =>
      '(_, T, w) ← uboss_timeout push h d ses T w; timer_run ops T w
  | TTick a1 a2 :: ops =>
      '(T, w) ← timer_update push a1 a2 T w; timer_run ops T w
  end.

Fixpoint spec_run (ops : list timer_op) (s : tspec) (w : W) : tspec * W :=
  match ops with
  | [] => (s, w)
  | TTimeout h d ses :: ops =>
      if d <=? 0 then spec_run ops s (push h (timer_message ses) w).2
      else spec_run ops (spec_add s (TimerEvent h ses) d) w
  | TTick a1 a2 :: ops =>
      let '(s, w) := spec_update push a1 a2 s w in spec_run ops s w
  end.

Lemma timer_run_repr ops T s w : timer_repr T s -> Forall timer_op_ok ops ->
  exists T', timer_run ops T w = Some (T', (spec_run ops s w).2) /\
    timer_repr T' (spec_run ops s w).1.
Proof.
  revert T s w. induction ops as [|op ops IH]; intros T s w HT Hops; [by exists T|].
  apply Forall_cons in Hops as [Hop Hops]. destruct op as [h d ses|a1 a2]; simpl in *.
  - unfold uboss_timeout. destruct (Z.leb_spec d 0).
    + destruct (push h (timer_message ses) w) as [r w1]. simpl. by apply IH.
    + destruct (timer_add_repr T s (TimerEvent h ses) d HT ltac:(lia))
        as (T1 & -> & _ & HT1). simpl. by apply IH.
  - destruct Hop as [H1 H2].
    destruct (timer_update_repr push a1 a2 T s w HT H1 H2) as (T1 & -> & _ & HT1).
    simpl. destruct (spec_update push a1 a2 s w) as [s1 w1]. simpl in *. by apply IH.
Qed.

Lemma timer_updates_repr n k adds T s w : timer_repr T s ->
  (forall i, addss_ok (fst (adds i)) /\ addss_ok (snd (adds i))) ->
  exists T', timer_updates push n k adds T w =
      Some (T', (spec_updates push n k adds s w).2) /\ clock T' = clock T /\
    timer_repr T' (spec_updates push n k adds s w).1.
Proof.
  intros HT Hadds. revert k T s w HT. induction n as [|n IH]; intros k T s w HT; [by exists T|].
  simpl. destruct (Hadds k) as [H1 H2].
  destruct (timer_update_repr push _ _ T s w HT H1 H2) as (T1 & -> & Hc1 & HT1). simpl.
  destruct (spec_update push (fst (adds k)) (snd (adds k)) s w) as [s1 w1]. simpl in *.
  destruct (IH (S k) T1 s1 w1 HT1) as (T' & -> & Hc' & HT').
  exists T'. split; [done|]. split; [congruence | done].
Qed.

Lemma spec_execute_now adds s w : ts_now (spec_execute push adds s w).1 = ts_now s.
Proof. unfold spec_execute. case_match; simpl; [done|]. by rewrite spec_add_all_now. Qed.

Lemma spec_update_now a1 a2 s w :
  ts_now (spec_update push a1 a2 s w).1 = u32 (ts_now s + 1).
Proof.
  unfold spec_update. pose proof (spec_execute_now a1 s w) as H1.
  destruct (spec_execute push a1 s w) as [s1 w1]. simpl in H1.
  by rewrite spec_execute_now, H1.
Qed.

Lemma spec_updates_now n k adds s w : is_u32 (ts_now s) ->
  ts_now (spec_updates push n k adds s w).1 = u32 (ts_now s + Z.of_nat n).
Proof.
  revert k s w. induction n as [|n IH]; intros k s w Hs; simpl.
  - by rewrite Z.add_0_r, u32_small.
  - pose proof (spec_update_now (fst (adds k)) (snd (adds k)) s w) as H1.
    destruct (spec_update push _ _ s w) as [s1 w1]. simpl in H1.
    rewrite IH, H1 by (rewrite H1; apply u32_bound).
    unfold u32. rewrite Zplus_mod_idemp_l. f_equal. lia.
Qed.

Lemma spec_add_all_elem n s l : n ∈ ts_pending s -> n ∈ ts_pending (spec_add_all s l).
Proof.
  revert s. induction l as [|x l IH]; intros s Hn; simpl; [done|].
  apply IH. simpl. apply elem_of_app. by left.
Qed.

(** A pending timer survives an update unless it expires at the new time. *)
Lemma spec_update_keeps a1 a2 s w n :
  Forall (fun n => alive (ts_now s) (expire n)) (ts_pending s) ->
  n ∈ ts_pending s -> expire n <> u32 (ts_now s + 1) ->
  n ∈ ts_pending (spec_update push a1 a2 s w).1.
Proof.
  intros Hal Hn Hne. rewrite spec_update_alive by done. unfold spec_execute.
  case_match; simpl; [done|]. apply spec_add_all_elem; simpl.
  by apply list_elem_of_filter.
Qed.

(** What an update dispatches. *)
Lemma spec_update_dispatch a1 a2 s w :
  Forall (fun n => alive (ts_now s) (expire n)) (ts_pending s) ->
  (spec_update push a1 a2 s w).2 =
  dispatch_list push (due (TSpec (u32 (ts_now s + 1)) (ts_pending s))) w.
Proof.
  intros Hal. rewrite spec_update_alive by done. unfold spec_execute.
  by destruct (due _).
Qed.

(** A timer [d] ticks ahead survives [m < d] ticks. *)
Lemma spec_updates_keeps m k adds T s w n d : timer_repr T s ->
  (forall i, addss_ok (fst (adds i)) /\ addss_ok (snd (adds i))) ->
  n ∈ ts_pending s -> expire n = u32 (ts_now s + d) ->
  Z.of_nat m < d < 2 ^ 31 ->
  n ∈ ts_pending (spec_updates push m k adds s w).1.
Proof.
  intros HT Hadds. revert k T s w d HT.
  induction m as [|m IH]; intros k T s w d HT Hn He Hd; [done|]. simpl.
  destruct (Hadds k) as [H1 H2]. pose proof HT as (_ & _ & Hal).
  destruct (timer_update_repr push _ _ T s w HT H1 H2) as (T1 & _ & _ & HT1).
  pose proof (spec_update_now (fst (adds k)) (snd (adds k)) s w) as Hnow.
  assert (n ∈ ts_pending (spec_update push (fst (adds k)) (snd (adds k)) s w).1) as Hn1.
  { apply spec_update_keeps; [done | done |]. rewrite He. unfold u32.
    intros Heq%mod_offset_inj; lia. }
  destruct (spec_update push (fst (adds k)) (snd (adds k)) s w) as [s1 w1].
  simpl in *. apply (IH (S k) T1 s1 w1 (d - 1) HT1 Hn1); [|lia].
  rewrite Hnow, He. unfold u32. rewrite Zplus_mod_idemp_l. f_equal. lia.
Qed.

(** C20: the timing wheel refines a list of pending timers.  For every sequence
    of timeouts and ticks after [uboss_timer_init], with arbitrary timers added
    by other threads while expired ones are dispatched, the wheel succeeds (no
    index out of range, every loop within its fuel) and pushes exactly the
    messages of the specification: at each tick those of the timers that expire
    then, in the order in which they were added. *)
Theorem timer_refines_spec sec cs cp ops w : Forall timer_op_ok ops ->
  exists T', timer_run ops (uboss_timer_init sec cs cp) w =
      Some (T', (spec_run ops (TSpec 0 []) w).2) /\
    timer_repr T' (spec_run ops (TSpec 0 []) w).1.
Proof. intros Hops. apply timer_run_repr; [apply timer_repr_init | done]. Qed.

(** A timer fires exactly at its tick.  Added with delay [d] to a wheel in
    any reachable state, it is still in the wheel after every [k < d] ticks, the
    tick number [k + 1] dispatches it exactly if [k + 1 = d], and it has left the
    wheel exactly then; this holds across the wrap-around of the 32-bit time. *)
Theorem timer_fires_exactly T s ev d adds w :
  timer_repr T s -> 0 < d < 2 ^ 31 ->
  (forall i, addss_ok (fst (adds i)) /\ addss_ok (snd (adds i))) ->
  exists T1, timer_add T ev d = Some T1 /\
  forall k, 0 <= k < d ->
  exists Tk wk Tk' l,
    timer_updates push (Z.to_nat k) 0 adds T1 w = Some (Tk, wk) /\
    timer_update push (fst (adds (Z.to_nat k))) (snd (adds (Z.to_nat k))) Tk wk =
      Some (Tk', dispatch_list push l wk) /\
    let n := TimerNode (u32 (d + time T)) ev in
    (exists sl, n ∈ get_slot Tk sl) /\
    (n ∈ l <-> k + 1 = d) /\
    ((exists sl, n ∈ get_slot Tk' sl) <-> k + 1 < d).
Proof.
  intros HT Hd Hadds. destruct (timer_add_repr T s ev d HT Hd) as (T1 & HT1 & _ & HR1).
  exists T1. split; [done|]. intros k Hk.
  pose proof HT as (HRT & Htn & _). rewrite Htn. set (n := TimerNode _ ev).
  assert (is_u32 (ts_now s)) as Hc by (rewrite <-Htn; apply HRT).
  destruct (timer_updates_repr (Z.to_nat k) 0 adds T1 _ w HR1 Hadds)
    as (Tk & Hk1 & _ & HRk).
  pose proof (spec_updates_now (Z.to_nat k) 0 adds (spec_add s ev d) w Hc) as Hnow.
  destruct (spec_updates push (Z.to_nat k) 0 adds (spec_add s ev d) w) as [sk wk] eqn:Hsk.
  cbn [fst snd] in *. rewrite Z2Nat.id in Hnow by lia. simpl in Hnow.
  assert (n ∈ ts_pending sk) as Hin.
  { pose proof (spec_updates_keeps (Z.to_nat k) 0 adds T1 (spec_add s ev d) w n d HR1 Hadds)
      as Hkeep. rewrite Hsk in Hkeep. apply Hkeep; [|simpl; f_equal; lia | lia].
    apply elem_of_app; right. by apply list_elem_of_singleton. }
  assert (expire n = u32 (ts_now s + k + 1) <-> k + 1 = d) as Hexp.
  { simpl. unfold u32. split; [|intros <-; f_equal; lia].
    rewrite (Z.add_comm d), <-Z.add_assoc. intros Heq%mod_offset_inj; lia. }
  destruct (Hadds (Z.to_nat k)) as [Ha1 Ha2]. pose proof HRk as (HrepK & HtK & Halk).
  destruct (timer_update_repr push _ _ Tk sk wk HRk Ha1 Ha2) as (Tk' & Hu & _ & HRk').
  rewrite spec_update_dispatch in Hu by done.
  assert (u32 (ts_now sk + 1) = u32 (ts_now s + k + 1)) as Hnow'
    by (rewrite Hnow; unfold u32; by rewrite Zplus_mod_idemp_l).
  exists Tk, wk, Tk', (due (TSpec (u32 (ts_now sk + 1)) (ts_pending sk))).
  split; [done|]. split; [done|]. simpl. split; [by eapply repr_elem|]. split.
  - unfold due; simpl. rewrite list_elem_of_filter, Hnow'. tauto.
  - pose proof HRk' as (Hrep' & _ & Hal'). rewrite <-(repr_elem _ _ _ Hrep').
    rewrite spec_update_now, Hnow' in Hal'. rewrite Forall_forall in Hal'.
    split; intros Hlt.
    + destruct (decide (k + 1 = d)) as [Heq|]; [|lia]. exfalso.
      destruct (Hal' n Hlt) as [_ Hpos]. apply Hexp in Heq.
      rewrite Heq, Z.sub_diag in Hpos. by destruct Hpos.
    + apply spec_update_keeps; [done | done |]. rewrite Hnow', Hexp. lia.
Qed.

(** [uboss_updatetime] runs the wheel exactly once per elapsed centisecond
    of the monotonic clock and advances [current] by as much; when the clock has
    gone backwards it only resynchronises. *)
Theorem uboss_updatetime_ticks T s cp adds w :
  timer_repr T s -> cp < current_point T + 2 ^ 32 ->
  (forall i, addss_ok (fst (adds i)) /\ addss_ok (snd (adds i))) ->
  exists T', uboss_updatetime push cp adds T w =
      Some (T', (spec_updates push (Z.to_nat (cp - current_point T)) 0 adds s w).2) /\
    timer_repr T' (spec_updates push (Z.to_nat (cp - current_point T)) 0 adds s w).1 /\
    current_point T' = cp /\
    uboss_now T' = (if cp <=? current_point T then uboss_now T
                    else u64 (uboss_now T + (cp - current_point T))) /\
    uboss_starttime T' = uboss_starttime T.
Proof.
  intros HT Hcp Hadds. unfold uboss_updatetime, uboss_now, uboss_starttime.
  destruct (Z.ltb_spec cp (current_point T)) as [Hlt|Hge].
  - replace (Z.to_nat (cp - current_point T)) with 0%nat by lia.
    rewrite (proj2 (Z.leb_le _ _)) by lia. by eexists.
  - destruct (Z.eqb_spec cp (current_point T)) as [->|Hne]; simpl.
    + rewrite Z.sub_diag, Z.leb_refl. by exists T.
    + rewrite u32_small by (unfold is_u32; lia). rewrite (proj2 (Z.leb_gt _ _)) by lia.
      destruct (timer_updates_repr (Z.to_nat (cp - current_point T)) 0 adds
        (set_current (u64 (current T + (cp - current_point T))) cp T) s w HT Hadds)
        as (T' & -> & Hcl & HT'). exists T'. unfold clock in Hcl; simpl in Hcl.
      injection Hcl as -> -> ->. by split_and!.
Qed.
End properties.

(** ** Witnesses *)

(** The trace of pushed messages. *)
Definition trace_push (h : Z) (m : uboss_message) (w : list (Z * uboss_message))
    : Z * list (Z * uboss_message) := (0, w ++ [(h, m)]).

(** Two timers with the same expiry and one later; the second dispatch of the
    run is interrupted by a thread that adds another timer. *)
Definition timer_example : list timer_op :=
  [TTimeout 1 2 10; TTimeout 2 1 20; TTick [] [[(TimerEvent 3 30, 1)]];
   TTimeout 4 1 40; TTimeout 5 0 50; TTick [] []].

Lemma timer_example_trace :
  exists T, timer_run trace_push timer_example (uboss_timer_init 0 0 0) [] =
  Some (T, [(2, timer_message 20); (5, timer_message 50); (1, timer_message 10);
            (3, timer_message 30); (4, timer_message 40)]).
Proof. eexists. vm_compute. reflexivity. Qed.

Lemma timer_refines_spec_witness :
  exists T', timer_run trace_push timer_example (uboss_timer_init 0 0 0) [] =
      Some (T', (spec_run trace_push timer_example (TSpec 0 []) []).2) /\
    timer_repr T' (spec_run trace_push timer_example (TSpec 0 []) []).1.
Proof.
  apply timer_refines_spec. repeat (apply Forall_cons; split); [simpl; try lia .. | done].
  - split; [by apply Forall_nil|]. apply Forall_singleton, Forall_singleton. simpl; lia.
  - split; by apply Forall_nil.
Defined.

Lemma timer_fires_exactly_witness :
  exists T1, timer_add (uboss_timer_init 0 0 0) (TimerEvent 7 1) 300 = Some T1.
Proof.
  destruct (timer_fires_exactly trace_push (uboss_timer_init 0 0 0) (TSpec 0 [])
    (TimerEvent 7 1) 300 (fun _ => ([], [])) []) as (T1 & HT1 & _).
  - apply timer_repr_init.
  - lia.
  - intros _. split; by apply Forall_nil.
  - by exists T1.
Defined.

Lemma uboss_updatetime_ticks_witness :
  exists T', uboss_updatetime trace_push 3 (fun _ => ([], [])) (uboss_timer_init 0 5 0) [] =
    Some (T', []) /\ uboss_now T' = 8.
Proof.
  destruct (uboss_updatetime_ticks trace_push (uboss_timer_init 0 5 0) (TSpec 0 []) 3
    (fun _ => ([], [])) []) as (T' & Hu & _ & _ & Hn & _).
  - apply timer_repr_init.
  - vm_compute. reflexivity.
  - intros _. split; by apply Forall_nil.
  - exists T'. split; [exact Hu | exact Hn].
Defined.
