(* ===== verification/Handle.v ===== *)
(** core/uboss_handle.c: the registry of services.

    Contexts are addresses ([ctxid]); [handle_of] is the [handle] field of the
    context at an address ([uboss_context_handle]), which core/uboss_server.c
    owns.  C strings are lists of byte values without the terminating zero.
    Every operation is one critical section of the registry's lock (Lock.v).
    [None] is a failed assertion or an access outside an array. *)
From stdpp Require Import sorting.
From S2P Require Import Prelude.

Definition DEFAULT_SLOT_SIZE : Z := 4.
Definition MAX_SLOT_SIZE : Z := 1073741824. (* 0x40000000 *)
Definition HANDLE_MASK : Z := 16777215. (* 0xffffff *)
Definition HANDLE_REMOTE_SHIFT : Z := 24.

Abbreviation ctxid := nat (only parsing).
Abbreviation cstring := (list Z) (only parsing).

(** [strcmp] on unsigned bytes; only the sign is used. *)
Fixpoint strcmp (a b : cstring) : comparison :=
  match a, b with
  | [], [] => Eq
  | [], _ :: _ => Lt
  | _ :: _, [] => Gt
  | x :: a, y :: b =>
      match Z.compare x y with Eq => strcmp a b | c => c end
  end.

Record handle_name := HandleName { hn_name : cstring; hn_handle : Z }.

Record handle_storage := HandleStorage {
  hs_harbor : Z;
  handle_index : Z;
  slot_size : Z;
  hslot : list (option ctxid);          (* NULL is [None] *)
  name_cap : Z;
  name_count : Z;
  hname : list (option handle_name)     (* [None]: not initialised *)
}.

#[export] Instance handle_name_eq_dec : EqDecision handle_name.
Proof. solve_decision. Defined.

Definition set_slots (idx n : Z) (sl : list (option ctxid)) (s : handle_storage)
    : handle_storage :=
  HandleStorage (hs_harbor s) idx n sl (name_cap s) (name_count s) (hname s).
Definition set_names (c n : Z) (l : list (option handle_name))
    (s : handle_storage) : handle_storage :=
  HandleStorage (hs_harbor s) (handle_index s) (slot_size s) (hslot s) c n l.

(** [uboss_handle_init]. *)
Definition uboss_handle_init (harbor : Z) : handle_storage :=
  {| hs_harbor := u32 (Z.shiftl (Z.land harbor 255) HANDLE_REMOTE_SHIFT);
     handle_index := 1;
     slot_size := DEFAULT_SLOT_SIZE;
     hslot := replicate (Z.to_nat DEFAULT_SLOT_SIZE) None;
     name_cap := 2;
     name_count := 0;
     hname := replicate 2 None |}.

Section handles.
(** [uboss_context_handle]. *)
Variable handle_of : ctxid -> Z.

(** ** Registering *)

(** The [for (i=0;i<s->slot_size;i++)] loop of [uboss_handle_register], with
    [n] iterations left: the handle and the slot it takes. *)
Fixpoint find_slot (n : nat) (i : Z) (s : handle_storage)
    : option (option (Z * Z)) :=
  match n with
  | O => Some None
  | S n =>
      let handle := Z.land (u32 (i + handle_index s)) HANDLE_MASK in
      let hash := Z.land handle (slot_size s - 1) in
      c ← (hslot s).[hash];
      match c with
      | None => Some (Some (handle, hash))
      | Some _ => find_slot n (i + 1) s
      end
  end.

(** The loop that moves the contexts to the array of twice the size. *)
Fixpoint rehash (n : nat) (i : Z) (s : handle_storage)
    (new_slot : list (option ctxid)) : option (list (option ctxid)) :=
  match n with
  | O => Some new_slot
  | S n =>
      c ← (hslot s).[i];
      ctx ← c;
      let hash := Z.land (handle_of ctx) (slot_size s * 2 - 1) in
      old ← new_slot.[hash];
      _ ← cassert (bool_decide (old = None));
      new_slot ← new_slot.[hash := Some ctx];
      rehash n (i + 1) s new_slot
  end.

(** [uboss_handle_register]: the handle, without and with the harbor bits
    (the caller stores it in the context), and the registry. *)
Fixpoint handle_register (fuel : nat) (ctx : ctxid) (s : handle_storage)
    : option (Z * handle_storage) :=
  match fuel with
  | O => None
  | S fuel =>
      r ← find_slot (Z.to_nat (slot_size s)) 0 s;
      match r with
      | Some (handle, hash) =>
          sl ← (hslot s).[hash := Some ctx];
          Some (Z.lor handle (hs_harbor s),
                set_slots (u32 (handle + 1)) (slot_size s) sl s)
      | None =>
          _ ← cassert (slot_size s * 2 - 1 <=? HANDLE_MASK);
          new_slot ← rehash (Z.to_nat (slot_size s)) 0 s
                       (replicate (Z.to_nat (slot_size s * 2)) None);
          handle_register fuel ctx
            (set_slots (handle_index s) (slot_size s * 2) new_slot s)
      end
  end.

(** Two rounds of the outer loop are enough ([handle_register_fresh]). *)
Definition uboss_handle_register (ctx : ctxid) (s : handle_storage)
    : option (Z * handle_storage) := handle_register 2 ctx s.

(** ** Retiring and grabbing *)

(** The compaction loop of [uboss_handle_retire] over [name[i..]]; the result
    is the array and the new count [j]. *)
Fixpoint retire_names (n : nat) (i j handle : Z)
    (names : list (option handle_name)) : option (list (option handle_name) * Z) :=
  match n with
  | O => Some (names, j)
  | S n =>
      c ← names.[i];
      nm ← c;
      if hn_handle nm =? handle then retire_names n (i + 1) j handle names
      else
        names ← (if negb (i =? j) then names.[j := Some nm] else Some names);
        retire_names n (i + 1) (j + 1) handle names
  end.

(** [uboss_handle_retire]: return value, the context to release after the lock
    is given up, and the registry. *)
Definition uboss_handle_retire (handle : Z) (s : handle_storage)
    : option (Z * option ctxid * handle_storage) :=
  let hash := Z.land handle (slot_size s - 1) in
  c ← (hslot s).[hash];
  match c with
  | Some ctx =>
      if handle_of ctx =? handle then
        sl ← (hslot s).[hash := None];
        '(names, j) ← retire_names (Z.to_nat (name_count s)) 0 0 handle (hname s);
        Some (1, Some ctx,
              set_names (name_cap s) j names
                (set_slots (handle_index s) (slot_size s) sl s))
      else Some (0, None, s)
  | None => Some (0, None, s)
  end.

(** The loop over the slots of [uboss_handle_retireall], from slot [i]: the
    number of handles retired, the contexts to release and the registry. *)
Fixpoint retire_round (n : nat) (i : Z) (s : handle_storage)
    : option (Z * list ctxid * handle_storage) :=
  match n with
  | O => Some (0, [], s)
  | S n =>
      c ← (hslot s).[i];
      let handle := match c with Some ctx => handle_of ctx | None => 0 end in
      '(r, released, s) ←
        (if negb (handle =? 0) then uboss_handle_retire handle s
         else Some (0, None, s));
      '(k, cs, s) ← retire_round n (i + 1) s;
      Some (r + k, option_list released ++ cs, s)
  end.

(** [uboss_handle_retireall]; the contexts are released one by one. *)
Fixpoint uboss_handle_retireall (fuel : nat) (s : handle_storage)
    : option (list ctxid * handle_storage) :=
  match fuel with
  | O => None
  | S fuel =>
      '(n, cs, s) ← retire_round (Z.to_nat (slot_size s)) 0 s;
      if n =? 0 then Some (cs, s)
      else '(cs', s) ← uboss_handle_retireall fuel s; Some (cs ++ cs', s)
  end.

(** [uboss_handle_grab], without the reference count. *)
Definition uboss_handle_grab (handle : Z) (s : handle_storage)
    : option (option ctxid) :=
  let hash := Z.land handle (slot_size s - 1) in
  c ← (hslot s).[hash];
  match c with
  | Some ctx => Some (if handle_of ctx =? handle then Some ctx else None)
  | None => Some None
  end.
End handles.

(** ** Names *)

(** The binary search of [uboss_handle_findname] and [_insert_name]: the entry
    with that name, or the place where it belongs. *)
Fixpoint search_name (fuel : nat) (names : list (option handle_name))
    (name : cstring) (lo hi : Z) : option (Z + Z) :=
  match fuel with
  | O => None
  | S fuel =>
      if lo <=? hi then
        let mid := Z.quot (lo + hi) 2 in
        c ← names.[mid];
        n ← c;
        match strcmp (hn_name n) name with
        | Eq => Some (inl (hn_handle n))
        | Lt => search_name fuel names name (mid + 1) hi
        | Gt => search_name fuel names name lo (mid - 1)
        end
      else Some (inr lo)
  end.

(** The interval shrinks at every step: [name_count + 1] steps are enough. *)
Definition search_fuel (s : handle_storage) : nat := S (Z.to_nat (name_count s)).

Definition uboss_handle_findname (name : cstring) (s : handle_storage)
    : option Z :=
  r ← search_name (search_fuel s) (hname s) name 0 (name_count s - 1);
  Some (match r with inl handle => handle | inr _ => 0 end).

(** [for (i=lo;i<lo+n;i++) dst[i+off] = src[i]] *)
Fixpoint copy_names (n : nat) (i off : Z) (src dst : list (option handle_name))
    : option (list (option handle_name)) :=
  match n with
  | O => Some dst
  | S n =>
      c ← src.[i];
      dst ← dst.[i + off := c];
      copy_names n (i + 1) off src dst
  end.

(** [for (i=i0;i>before;i--) s->name[i] = s->name[i-1]], [n] iterations. *)
Fixpoint shift_names (n : nat) (i : Z) (names : list (option handle_name))
    : option (list (option handle_name)) :=
  match n with
  | O => Some names
  | S n =>
      c ← names.[i - 1];
      names ← names.[i := c];
      shift_names n (i - 1) names
  end.

Definition _insert_name_before (name : cstring) (handle before : Z)
    (s : handle_storage) : option handle_storage :=
  '(cap, names) ←
    (if name_cap s <=? name_count s then
       let cap := name_cap s * 2 in
       _ ← cassert (cap <=? MAX_SLOT_SIZE);
       n ← copy_names (Z.to_nat before) 0 0 (hname s)
             (replicate (Z.to_nat cap) None);
       n ← copy_names (Z.to_nat (name_count s - before)) before 1 (hname s) n;
       Some (cap, n)
     else
       n ← shift_names (Z.to_nat (name_count s - before)) (name_count s) (hname s);
       Some (name_cap s, n));
  names ← names.[before := Some (HandleName name handle)];
  Some (set_names cap (name_count s + 1) names s).

(** [_insert_name]: the name and the registry, or [None] for NULL. *)
Definition _insert_name (name : cstring) (handle : Z) (s : handle_storage)
    : option (option (cstring * handle_storage)) :=
  r ← search_name (search_fuel s) (hname s) name 0 (name_count s - 1);
  match r with
  | inl _ => Some None
  | inr before =>
      s ← _insert_name_before name handle before s;
      Some (Some (name, s))
  end.

Definition uboss_handle_namehandle (handle : Z) (name : cstring)
    (s : handle_storage) : option (option cstring * handle_storage) :=
  r ← _insert_name name handle s;
  Some (match r with
        | Some (result, s') => (Some result, s')
        | None => (None, s)
        end).

(** ** The order of names *)

Lemma strcmp_refl a : strcmp a a = Eq.
Proof. induction a as [|x a IH]; simpl; [done|]. by rewrite Z.compare_refl. Qed.

Lemma strcmp_eq a b : strcmp a b = Eq <-> a = b.
Proof.
  split; [|intros ->; apply strcmp_refl]. revert b.
  induction a as [|x a IH]; intros [|y b]; simpl; try done.
  destruct (Z.compare_spec x y); try done. subst. intros Hab. f_equal. by apply IH.
Qed.

Lemma strcmp_antisym a b : strcmp b a = CompOpp (strcmp a b).
Proof.
  revert b. induction a as [|x a IH]; intros [|y b]; simpl; try done.
  rewrite Z.compare_antisym. by destruct (x ?= y); simpl.
Qed.

Lemma strcmp_gt a b : strcmp a b = Gt <-> strcmp b a = Lt.
Proof. rewrite (strcmp_antisym a b). by destruct (strcmp a b). Qed.

Lemma strcmp_trans a b c : strcmp a b = Lt -> strcmp b c = Lt -> strcmp a c = Lt.
Proof.
  revert b c. induction a as [|x a IH]; intros [|y b] [|z c]; simpl; try done.
  destruct (Z.compare_spec x y) as [->|Hxy|Hxy]; try done.
  - destruct (y ?= z); try done. apply IH.
  - intros _. destruct (Z.compare_spec y z) as [->|Hyz|Hyz]; try done; intros _.
    + by rewrite (proj2 (Z.compare_lt_iff x z)).
    + by rewrite (proj2 (Z.compare_lt_iff x z)) by lia.
Qed.

Definition name_lt (m n : handle_name) : Prop := strcmp (hn_name m) (hn_name n) = Lt.

#[export] Instance name_lt_trans : Transitive name_lt.
Proof. intros a b c. apply strcmp_trans. Qed.

(** The initialised cells of an array. *)
Definition cells {A} (buf : list (option A)) (l : list A) : Prop :=
  zlen l <= zlen buf /\ forall i x, l.[i] = Some x -> buf.[i] = Some (Some x).

(** The name table of the registry holds the sorted list [l]. *)
Definition names_list (s : handle_storage) (l : list handle_name) : Prop :=
  cells (hname s) l /\ name_cap s = zlen (hname s) /\ name_count s = zlen l /\
  1 <= name_cap s /\ StronglySorted name_lt l.

(** ... and implements the finite map [m] from names to handles. *)
Definition names_map (s : handle_storage) (m : gmap (list Z) Z) : Prop :=
  exists l, names_list s l /\
    forall k h, m !! k = Some h <-> HandleName k h ∈ l.

Lemma sorted_lookup l i j m n : StronglySorted name_lt l -> i < j ->
  l.[i] = Some m -> l.[j] = Some n -> name_lt m n.
Proof.
  intros Hs Hij Hi Hj.
  pose proof (aget_lt_Some _ _ _ Hi). pose proof (aget_lt_Some _ _ _ Hj).
  unfold aget in *. rewrite decide_True in Hi by lia. rewrite decide_True in Hj by lia.
  assert (Z.to_nat i < Z.to_nat j)%nat as Hlt by lia. clear Hij H H0.
  revert Hi Hj Hlt. generalize (Z.to_nat i) (Z.to_nat j). clear i j.
  induction Hs as [|x l Hl IH Hx]; intros i j Hi Hj Hij; [done|].
  destruct i as [|i], j as [|j]; simplify_eq/=; try lia.
  - by eapply (proj1 (Forall_lookup _ _) Hx).
  - apply (IH i j); [done | done | lia].
Qed.

Lemma search_name_spec fuel names l name lo hi :
  StronglySorted name_lt l -> cells names l ->
  0 <= lo -> lo <= hi + 1 -> hi < zlen l -> hi - lo + 1 < Z.of_nat fuel ->
  (forall i n, i < lo -> l.[i] = Some n -> strcmp (hn_name n) name = Lt) ->
  (forall i n, hi < i -> l.[i] = Some n -> strcmp (hn_name n) name = Gt) ->
  (exists i h, search_name fuel names name lo hi = Some (inl h) /\
     l.[i] = Some (HandleName name h)) \/
  (exists b, search_name fuel names name lo hi = Some (inr b) /\
     0 <= b <= zlen l /\
     (forall i n, i < b -> l.[i] = Some n -> strcmp (hn_name n) name = Lt) /\
     (forall i n, b <= i -> l.[i] = Some n -> strcmp (hn_name n) name = Gt)).
Proof.
  intros Hs [Hlen Hc]. revert lo hi.
  induction fuel as [|fuel IH]; intros lo hi Hlo Hle Hhi Hf Hlt Hgt; [lia|].
  cbn [search_name]. destruct (Z.leb_spec lo hi) as [Hlh|Hlh].
  - rewrite Z.quot_div_nonneg by lia. set (mid := (lo + hi) / 2).
    assert (lo <= mid <= hi) as Hmid.
    { subst mid. split; [apply Z.div_le_lower_bound | apply Z.div_le_upper_bound]; lia. }
    destruct (aget_is_Some l mid) as [n Hn]; [lia|].
    rewrite (Hc _ _ Hn). cbn [mbind option_bind].
    destruct (strcmp (hn_name n) name) eqn:Hcmp.
    + left. exists mid, (hn_handle n). split; [done|].
      apply strcmp_eq in Hcmp. destruct n; by simplify_eq/=.
    + apply IH; try lia; [|done]. intros i n' Hi Hn'.
      destruct (decide (i = mid)) as [->|]; [congruence|].
      eapply strcmp_trans; [|exact Hcmp]. eapply (sorted_lookup l i mid); [done | lia | done..].
    + apply IH; try lia; [done|]. intros i n' Hi Hn'.
      destruct (decide (i = mid)) as [->|]; [congruence|].
      apply strcmp_gt. apply strcmp_gt in Hcmp. eapply strcmp_trans; [exact Hcmp|].
      eapply (sorted_lookup l mid i); [done | lia | done..].
  - right. exists lo. split_and!; [done | lia | lia | done |].
    intros i n Hi. apply Hgt. lia.
Qed.

Lemma search_table s l name : names_list s l ->
  (exists i h, search_name (search_fuel s) (hname s) name 0 (name_count s - 1) =
       Some (inl h) /\ l.[i] = Some (HandleName name h)) \/
  (exists b, search_name (search_fuel s) (hname s) name 0 (name_count s - 1) =
       Some (inr b) /\ 0 <= b <= zlen l /\
     (forall i n, i < b -> l.[i] = Some n -> strcmp (hn_name n) name = Lt) /\
     (forall i n, b <= i -> l.[i] = Some n -> strcmp (hn_name n) name = Gt)).
Proof.
  intros (Hc & Hcap & Hcnt & Hpos & Hs). pose proof (zlen_nonneg l).
  apply search_name_spec; try done; unfold search_fuel; try lia.
  - intros i n Hi Hn%aget_lt_Some. lia.
  - intros i n Hi Hn%aget_lt_Some. lia.
Qed.

(** ** Inserting and removing names *)

Definition insert_at {A} (b : Z) (x : A) (l : list A) : list A :=
  take (Z.to_nat b) l ++ x :: drop (Z.to_nat b) l.

Lemma zlen_insert_at {A} b (x : A) l : 0 <= b <= zlen l -> zlen (insert_at b x l) = zlen l + 1.
Proof.
  intros. unfold insert_at, zlen in *. rewrite length_app, length_take, length_cons, length_drop.
  lia.
Qed.

Lemma aget_insert_at {A} b (x : A) l j : 0 <= b <= zlen l ->
  (insert_at b x l).[j] =
  if decide (j < b) then l.[j] else if decide (j = b) then Some x else l.[j - 1].
Proof.
  intros Hb. unfold insert_at, aget, zlen in *.
  destruct (decide (0 <= j)); [|by rewrite decide_True by lia].
  assert (length (take (Z.to_nat b) l) = Z.to_nat b) as Hl by (rewrite length_take; lia).
  repeat case_decide; try lia.
  - by rewrite lookup_app_l, lookup_take_lt by lia.
  - subst. by rewrite lookup_app_r, Hl, Nat.sub_diag by lia.
  - rewrite lookup_app_r, Hl by lia.
    replace (Z.to_nat j - Z.to_nat b)%nat with (S (Z.to_nat (j - 1) - Z.to_nat b)) by lia.
    simpl. rewrite lookup_drop. f_equal. lia.
Qed.

Lemma elem_of_insert_at {A} b (x y : A) l : y ∈ insert_at b x l <-> y = x \/ y ∈ l.
Proof.
  unfold insert_at. rewrite elem_of_app, elem_of_cons.
  rewrite <-(take_drop (Z.to_nat b) l) at 3. rewrite elem_of_app. tauto.
Qed.

Lemma copy_names_spec n i off src dst :
  0 <= i -> 0 <= off -> i + Z.of_nat n <= zlen src -> i + off + Z.of_nat n <= zlen dst ->
  exists dst', copy_names n i off src dst = Some dst' /\ zlen dst' = zlen dst /\
    forall j, dst'.[j] = if decide (i + off <= j < i + off + Z.of_nat n)
                         then src.[j - off] else dst.[j].
Proof.
  revert i dst. induction n as [|n IH]; intros i dst Hi Ho Hs Hd; simpl.
  - exists dst. split_and!; try done. intros j. by rewrite decide_False by lia.
  - destruct (aget_is_Some src i) as [c Hc]; [lia|]. rewrite Hc; simpl.
    rewrite aset_Some by lia. simpl.
    assert (dst.[i + off := c] = Some (<[Z.to_nat (i + off) := c]> dst)) as Hset
      by (apply aset_Some; lia).
    destruct (IH (i + 1) (<[Z.to_nat (i + off) := c]> dst)) as (dst' & -> & Hlen & Hg);
      rewrite ?zlen_insert; try lia.
    rewrite zlen_insert in Hlen. exists dst'. split_and!; [done | done |].
    intros j. rewrite Hg, (aget_aset _ _ _ _ _ Hset).
    repeat case_decide; try lia; try done.
    subst j. rewrite <-Hc. f_equal. lia.
Qed.

Lemma shift_names_spec n i names : Z.of_nat n <= i < zlen names ->
  exists names', shift_names n i names = Some names' /\ zlen names' = zlen names /\
    forall j, names'.[j] = if decide (i - Z.of_nat n < j <= i)
                           then names.[j - 1] else names.[j].
Proof.
  revert i names. induction n as [|n IH]; intros i names Hi; simpl.
  - exists names. split_and!; try done. intros j. by rewrite decide_False by lia.
  - destruct (aget_is_Some names (i - 1)) as [c Hc]; [lia|]. rewrite Hc; simpl.
    assert (names.[i := c] = Some (<[Z.to_nat i := c]> names)) as Hset
      by (apply aset_Some; lia). rewrite Hset; simpl.
    destruct (IH (i - 1) (<[Z.to_nat i := c]> names)) as (names' & -> & Hlen & Hg);
      rewrite ?zlen_insert; try lia.
    rewrite zlen_insert in Hlen. exists names'. split_and!; [done | done |].
    intros j. rewrite Hg, !(aget_aset _ _ _ _ _ Hset).
    repeat case_decide; try lia; try done; subst; try done.
Qed.

(** The entry goes where the search stopped; the others keep their order. *)
Lemma insert_name_before_spec s l name h b :
  names_list s l -> 0 <= b <= zlen l -> zlen l * 2 <= MAX_SLOT_SIZE ->
  exists s', _insert_name_before name h b s = Some s' /\
    cells (hname s') (insert_at b (HandleName name h) l) /\
    name_cap s' = zlen (hname s') /\ name_count s' = zlen l + 1 /\ 1 <= name_cap s' /\
    hslot s' = hslot s /\ slot_size s' = slot_size s /\
    handle_index s' = handle_index s /\ hs_harbor s' = hs_harbor s.
Proof.
  intros ([Hle Hc] & Hcap & Hcnt & Hpos & Hs) Hb Hmax. unfold _insert_name_before.
  assert (exists cap names, (if name_cap s <=? name_count s then
       _ ← cassert (name_cap s * 2 <=? MAX_SLOT_SIZE);
       n ← copy_names (Z.to_nat b) 0 0 (hname s)
             (replicate (Z.to_nat (name_cap s * 2)) None);
       n ← copy_names (Z.to_nat (name_count s - b)) b 1 (hname s) n;
       Some (name_cap s * 2, n)
     else
       n ← shift_names (Z.to_nat (name_count s - b)) (name_count s) (hname s);
       Some (name_cap s, n)) = Some (cap, names) /\ cap = zlen names /\ zlen l < cap /\
     forall j, 0 <= j <= zlen l -> j <> b ->
       names.[j] = (hname s).[if decide (j < b) then j else j - 1])
    as (cap & names & Hgrow & Hcn & Hlt & Hg).
  { destruct (Z.leb_spec (name_cap s) (name_count s)).
    - rewrite (proj2 (Z.leb_le (name_cap s * 2) _)) by lia. cbn [cassert mbind option_bind].
      destruct (copy_names_spec (Z.to_nat b) 0 0 (hname s)
        (replicate (Z.to_nat (name_cap s * 2)) None)) as (n1 & -> & Hl1 & Hg1);
        rewrite ?zlen_replicate; try lia.
      rewrite zlen_replicate in Hl1. cbn [mbind option_bind].
      destruct (copy_names_spec (Z.to_nat (name_count s - b)) b 1 (hname s) n1)
        as (n2 & -> & Hl2 & Hg2); try lia.
      do 2 eexists. split_and!; [done | lia | lia |]. intros j Hj Hjb.
      rewrite Hg2, Hg1. repeat case_decide; try lia; f_equal; lia.
    - destruct (shift_names_spec (Z.to_nat (name_count s - b)) (name_count s) (hname s))
        as (n1 & -> & Hl1 & Hg1); try lia.
      do 2 eexists. split_and!; [done | lia | lia |]. intros j Hj Hjb.
      rewrite Hg1. repeat case_decide; try lia; f_equal; lia. }
  rewrite Hgrow. cbn [mbind option_bind].
  assert (names.[b := Some (HandleName name h)] =
    Some (<[Z.to_nat b := Some (HandleName name h)]> names)) as Hset
    by (apply aset_Some; lia).
  rewrite Hset. cbn [mbind option_bind]. eexists; split; [done|]. simpl.
  rewrite zlen_insert. split_and!; try done; try lia.
  split; [rewrite zlen_insert_at, zlen_insert by lia; lia|].
  intros i x Hx. pose proof (aget_lt_Some _ _ _ Hx) as Hi.
  rewrite zlen_insert_at in Hi by lia. rewrite aget_insert_at in Hx by lia.
  rewrite (aget_aset _ _ _ _ _ Hset).
  destruct (decide (b = i)) as [->|Hne].
  - rewrite decide_False, decide_True in Hx by lia. by simplify_eq.
  - rewrite Hg by lia. repeat case_decide; try lia; by apply Hc.
Qed.

Lemma elem_of_aget {A} (l : list A) x : x ∈ l <-> exists i, l.[i] = Some x.
Proof.
  rewrite list_elem_of_lookup. split.
  - intros [i Hi]. exists (Z.of_nat i). by rewrite aget_nat.
  - intros [i Hi]. unfold aget in Hi. case_decide; [by eexists | done].
Qed.

Lemma names_list_insert s l b name h : names_list s l -> 0 <= b <= zlen l ->
  (forall i n, i < b -> l.[i] = Some n -> strcmp (hn_name n) name = Lt) ->
  (forall i n, b <= i -> l.[i] = Some n -> strcmp (hn_name n) name = Gt) ->
  StronglySorted name_lt (insert_at b (HandleName name h) l).
Proof.
  intros (_ & _ & _ & _ & Hs) Hb Hlt Hgt. unfold insert_at.
  rewrite <-(take_drop (Z.to_nat b) l) in Hs. apply StronglySorted_app in Hs as (Hx & H1 & H2).
  assert (forall n, n ∈ take (Z.to_nat b) l -> strcmp (hn_name n) name = Lt) as Htake.
  { intros n (i & Hi & Hib)%elem_of_take. apply (Hlt (Z.of_nat i)); [lia|]. by rewrite aget_nat. }
  assert (forall n, n ∈ drop (Z.to_nat b) l -> strcmp (hn_name n) name = Gt) as Hdrop.
  { intros n [i Hi]%list_elem_of_lookup. rewrite lookup_drop in Hi.
    apply (Hgt (Z.of_nat (Z.to_nat b + i))); [lia|]. by rewrite aget_nat. }
  apply StronglySorted_app. split_and!; [|done|].
  - intros x y Hx1 [->|Hy]%elem_of_cons; [by apply Htake | by apply Hx].
  - apply StronglySorted_cons. split; [|done]. apply Forall_forall.
    intros n Hn. apply strcmp_gt. by apply Hdrop.
Qed.

(** The two handles under one name of a sorted table are the same. *)
Lemma sorted_unique l k h1 h2 : StronglySorted name_lt l ->
  HandleName k h1 ∈ l -> HandleName k h2 ∈ l -> h1 = h2.
Proof.
  intros Hs [i Hi]%elem_of_aget [j Hj]%elem_of_aget.
  assert (forall h h', name_lt (HandleName k h) (HandleName k h') -> False) as Hirr.
  { unfold name_lt; simpl. intros _ _. by rewrite strcmp_refl. }
  destruct (Z.lt_trichotomy i j) as [Hij|[->|Hij]]; [| congruence |]; exfalso.
  - eapply Hirr, (sorted_lookup l i j); done.
  - eapply Hirr, (sorted_lookup l j i); done.
Qed.

Lemma findname_map s m name : names_map s m ->
  uboss_handle_findname name s = Some (default 0 (m !! name)).
Proof.
  intros (l & Hl & Hm). unfold uboss_handle_findname.
  destruct (search_table s l name Hl) as [(i & h & -> & Hi)|(b & -> & _ & Hlt & Hgt)]; simpl.
  - rewrite (proj2 (Hm name h)); [done|]. apply elem_of_aget. by eexists.
  - destruct (m !! name) as [h|] eqn:Hname; [|done].
    apply Hm, elem_of_aget in Hname as [i Hi]. exfalso.
    destruct (Z.lt_ge_cases i b) as [Hib|Hib].
    + specialize (Hlt _ _ Hib Hi). simpl in Hlt. by rewrite strcmp_refl in Hlt.
    + specialize (Hgt _ _ Hib Hi). simpl in Hgt. by rewrite strcmp_refl in Hgt.
Qed.

Lemma namehandle_map s m name h : names_map s m ->
  name_count s * 2 <= MAX_SLOT_SIZE ->
  match m !! name with
  | Some _ => uboss_handle_namehandle h name s = Some (None, s)
  | None => exists s', uboss_handle_namehandle h name s = Some (Some name, s') /\
      names_map s' (<[name := h]> m) /\ hslot s' = hslot s /\
      slot_size s' = slot_size s /\ handle_index s' = handle_index s /\
      hs_harbor s' = hs_harbor s
  end.
Proof.
  intros (l & Hl & Hm) Hmax. unfold uboss_handle_namehandle, _insert_name.
  destruct (search_table s l name Hl) as [(i & h0 & -> & Hi)|(b & -> & Hb & Hlt & Hgt)]; simpl.
  - rewrite (proj2 (Hm name h0)); [done|]. apply elem_of_aget. by eexists.
  - assert (m !! name = None) as Hnone.
    { pose proof (findname_map s m name ltac:(by exists l)) as Hf.
      destruct (m !! name) as [h1|] eqn:Hname; [|done].
      apply Hm, elem_of_aget in Hname as [i Hi]. exfalso.
      destruct (Z.lt_ge_cases i b) as [Hib|Hib].
      + specialize (Hlt _ _ Hib Hi). simpl in Hlt. by rewrite strcmp_refl in Hlt.
      + specialize (Hgt _ _ Hib Hi). simpl in Hgt. by rewrite strcmp_refl in Hgt. }
    rewrite Hnone. pose proof Hl as (_ & _ & Hcnt & _).
    destruct (insert_name_before_spec s l name h b Hl Hb ltac:(lia))
      as (s' & -> & Hc & Hcap & Hn & Hpos & Hsl). simpl.
    exists s'. split; [done|]. split; [|done].
    exists (insert_at b (HandleName name h) l). split.
    + split; [done|]. rewrite zlen_insert_at by done.
      split_and!; try done. by eapply names_list_insert.
    + intros k h1. rewrite elem_of_insert_at, lookup_insert_Some, Hm. split.
      * intros [[-> ->]|[_ ?]]; tauto.
      * intros [[= -> ->]|Hin]; [by left|]. right. split; [|done].
        intros ->. apply Hm in Hin. congruence.
Qed.

Lemma retire_names_spec h l2 : forall names i j acc, j = zlen acc -> j <= i -> i + zlen l2 <= zlen names ->
  (forall k x, acc.[k] = Some x -> names.[k] = Some (Some x)) ->
  (forall k x, l2.[k] = Some x -> names.[i + k] = Some (Some x)) ->
  exists names', retire_names (length l2) i j h names =
      Some (names', zlen (acc ++ filter (fun n => hn_handle n <> h) l2)) /\
    zlen names' = zlen names /\
    forall k x, (acc ++ filter (fun n => hn_handle n <> h) l2).[k] = Some x ->
      names'.[k] = Some (Some x).
Proof.
  induction l2 as [|n l2 IH]; intros names i j acc Hj Hji Hi Hacc Hl2; simpl.
  - rewrite filter_nil, app_nil_r, Hj. by exists names.
  - pose proof (Hl2 0 n (aget_cons_0 n l2)) as Hn. rewrite Z.add_0_r in Hn.
    rewrite Hn. cbn [mbind option_bind]. rewrite zlen_cons in *.
    pose proof (zlen_nonneg l2). pose proof (zlen_nonneg acc).
    assert (forall k x, l2.[k] = Some x -> names.[i + 1 + k] = Some (Some x)) as Hl2'.
    { intros k x Hk. pose proof (aget_lt_Some _ _ _ Hk).
      replace (i + 1 + k) with (i + (k + 1)) by lia.
      apply Hl2. rewrite aget_cons_S by lia. by rewrite Z.add_simpl_r. }
    destruct (Z.eqb_spec (hn_handle n) h) as [Heq|Hne].
    + rewrite filter_cons_False by tauto. apply IH; try lia; done.
    + rewrite filter_cons_True by done.
      assert (exists names1, (if negb (i =? j) then names.[j := Some n] else Some names) =
        Some names1 /\ zlen names1 = zlen names /\
        forall k, names1.[k] = if decide (k = j) then Some (Some n) else names.[k])
        as (names1 & -> & Hlen1 & Hg1).
      { destruct (Z.eqb_spec i j) as [->|Hij]; simpl.
        - exists names. split_and!; [done | done |]. intros k. by case_decide; subst.
        - exists (<[Z.to_nat j := Some n]> names).
          assert (names.[j := Some n] = Some (<[Z.to_nat j := Some n]> names)) as Hset
            by (apply aset_Some; lia).
          split_and!; [done | by rewrite zlen_insert |]. intros k.
          rewrite (aget_aset _ _ _ _ _ Hset). repeat case_decide; congruence. }
      cbn [mbind option_bind].
      replace (acc ++ n :: filter (fun n => hn_handle n <> h) l2) with
        ((acc ++ [n]) ++ filter (fun n => hn_handle n <> h) l2) by (by rewrite <-app_assoc).
      rewrite <-Hlen1.
      apply IH; try lia.
      * rewrite zlen_app, zlen_cons. unfold zlen at 2; simpl. lia.
      * intros k x Hk. rewrite Hg1. case_decide as Hkj.
        -- subst k. rewrite aget_app_eq in Hk by done. congruence.
        -- apply Hacc. destruct (Z.lt_ge_cases k (zlen acc)); [by rewrite aget_app_l in Hk|].
           pose proof (aget_lt_Some _ _ _ Hk) as Hlt. rewrite zlen_app, zlen_cons in Hlt.
           unfold zlen at 2 in Hlt; simpl in Hlt. lia.
      * intros k x Hk. rewrite Hg1. pose proof (aget_lt_Some _ _ _ Hk).
        rewrite decide_False by lia. by apply Hl2'.
Qed.

Lemma StronglySorted_filter (P : handle_name -> Prop) `{!forall x, Decision (P x)} l :
  StronglySorted name_lt l -> StronglySorted name_lt (filter P l).
Proof.
  induction 1 as [|x l Hl IH Hx]; [constructor|].
  rewrite filter_cons. case_decide; [|done]. apply StronglySorted_cons.
  split; [by apply Forall_filter | done].
Qed.

Lemma retire_names_map s m h : names_map s m ->
  exists names' j, retire_names (Z.to_nat (name_count s)) 0 0 h (hname s) = Some (names', j) /\
    names_map (set_names (name_cap s) j names' s) (filter (fun kv => kv.2 <> h) m).
Proof.
  intros (l & ([Hle Hc] & Hcap & Hcnt & Hpos & Hs) & Hm).
  destruct (retire_names_spec h l (hname s) 0 0 [] eq_refl ltac:(lia) ltac:(lia))
    as (names' & Hr & Hlen & Hg).
  { intros k x Hk%aget_lt_Some. unfold zlen in Hk; simpl in Hk; lia. }
  { intros k x Hk. by apply Hc. }
  replace (Z.to_nat (name_count s)) with (length l) by (unfold zlen in *; lia).
  do 2 eexists. split; [exact Hr|]. simpl in *.
  exists (filter (fun n => hn_handle n <> h) l). split.
  - unfold names_list; simpl. rewrite Hlen. split; [split; [|done]|split_and!; try done].
    + rewrite Hlen. etrans; [|exact Hle]. unfold zlen.
      pose proof (length_filter (fun n => hn_handle n <> h) l). lia.
    + by apply StronglySorted_filter.
  - intros k h1. rewrite map_lookup_filter_Some, Hm, list_elem_of_filter. simpl. tauto.
Qed.

(** ** The slot table *)

(** A power of two from 4 to 2^24. *)
Definition slot_pow (n : Z) : Prop := exists k, 2 <= k <= 24 /\ n = 2 ^ k.

(** [slot_wf ho s]: the invariant of the slot table, where [ho] is the
    [handle] field of the contexts.  A context sits in the slot its handle
    hashes to and carries the harbor bits of this process. *)
Record slot_wf (ho : ctxid -> Z) (s : handle_storage) : Prop := SlotWf {
  wf_pow : slot_pow (slot_size s);
  wf_len : zlen (hslot s) = slot_size s;
  wf_index : 0 <= handle_index s <= 2 ^ 24;
  wf_harbor : exists n, 0 <= n < 2 ^ 8 /\ hs_harbor s = n * 2 ^ 24;
  wf_slot : forall i c, (hslot s).[i] = Some (Some c) ->
    is_u32 (ho c) /\ ho c mod slot_size s = i /\
    ho c / 2 ^ 24 * 2 ^ 24 = hs_harbor s
}.

Lemma slot_pow_bounds n : slot_pow n -> 4 <= n <= 2 ^ 24.
Proof.
  intros (k & Hk & ->). pose proof (Z.pow_le_mono_r 2 2 k). pose proof (Z.pow_le_mono_r 2 k 24).
  lia.
Qed.

Lemma slot_land h n : slot_pow n -> Z.land h (n - 1) = h mod n.
Proof. intros (k & Hk & ->). apply land_mask. lia. Qed.

Lemma slot_mod_mod h n m : slot_pow n -> (m = 2 ^ 24 \/ m = 2 ^ 32) -> (h mod m) mod n = h mod n.
Proof.
  intros (k & Hk & ->) [-> | ->]; apply Z.mod_mod_divide.
  - exists (2 ^ (24 - k)). rewrite <-Z.pow_add_r by lia. f_equal. lia.
  - exists (2 ^ (32 - k)). rewrite <-Z.pow_add_r by lia. f_equal. lia.
Qed.

Lemma slot_pow_double n : slot_pow n -> n < 2 ^ 24 -> slot_pow (n * 2).
Proof.
  intros (k & Hk & ->) Hlt. exists (k + 1). split.
  - apply Z.pow_lt_mono_r_iff in Hlt; lia.
  - rewrite Z.pow_add_r by lia. lia.
Qed.

(** What [uboss_handle_grab] finds: the context whose handle it is. *)
Lemma grab_spec ho s h : slot_wf ho s ->
  exists r, uboss_handle_grab ho h s = Some r /\
    forall c, r = Some c <-> (hslot s).[h mod slot_size s] = Some (Some c) /\ ho c = h.
Proof.
  intros [Hp Hl _ _ _]. pose proof (slot_pow_bounds _ Hp). unfold uboss_handle_grab.
  rewrite slot_land by done.
  destruct (aget_is_Some (hslot s) (h mod slot_size s)) as [c Hc].
  { rewrite Hl. apply Z.mod_pos_bound. lia. }
  rewrite Hc; simpl. destruct c as [c|].
  - destruct (Z.eqb_spec (ho c) h); eexists; (split; [done|]); naive_solver.
  - eexists; (split; [done|]); naive_solver.
Qed.

(** Two registries in which the same contexts are registered under the same
    handles answer every grab alike. *)
Lemma grab_ext ho ho' s s' h : slot_wf ho s -> slot_wf ho' s' ->
  (forall c, (hslot s).[h mod slot_size s] = Some (Some c) /\ ho c = h <->
             (hslot s').[h mod slot_size s'] = Some (Some c) /\ ho' c = h) ->
  uboss_handle_grab ho h s = uboss_handle_grab ho' h s'.
Proof.
  intros Hw Hw' Hiff. destruct (grab_spec ho s h Hw) as (r & -> & Hr).
  destruct (grab_spec ho' s' h Hw') as (r' & -> & Hr'). f_equal.
  apply option_eq. intros c. by rewrite Hr, Hr', Hiff.
Qed.

Definition slots_full (s : handle_storage) : Prop :=
  forall i, 0 <= i < slot_size s -> exists c, (hslot s).[i] = Some (Some c).

Lemma find_slot_spec ho s : slot_wf ho s -> forall n i,
  (find_slot n i s = Some None /\
   forall j, i <= j < i + Z.of_nat n ->
     exists c, (hslot s).[(j + handle_index s) mod slot_size s] = Some (Some c)) \/
  (exists h, find_slot n i s = Some (Some (h, h mod slot_size s)) /\
     0 <= h < 2 ^ 24 /\ (hslot s).[h mod slot_size s] = Some None).
Proof.
  intros [Hp Hl _ _ _]. pose proof (slot_pow_bounds _ Hp).
  induction n as [|n IH]; intros i; cbn [find_slot]; [left; split; [done | lia]|].
  unfold HANDLE_MASK. rewrite (land_mask _ 24 ltac:(lia) : Z.land _ 16777215 = _).
  rewrite slot_land by done. set (h := u32 _ mod 2 ^ 24).
  assert (h mod slot_size s = (i + handle_index s) mod slot_size s) as Hmod.
  { subst h. unfold u32. rewrite !slot_mod_mod; auto. }
  destruct (aget_is_Some (hslot s) (h mod slot_size s)) as [c Hc].
  { rewrite Hl. apply Z.mod_pos_bound. lia. }
  rewrite Hc; cbn [mbind option_bind]. destruct c as [c|].
  - destruct (IH (i + 1)) as [[-> Hfull]|Hfound]; [left | by right]. split; [done|].
    intros j Hj. destruct (decide (j = i)) as [->|]; [|apply Hfull; lia].
    exists c. by rewrite <-Hmod.
  - right. exists h. split_and!; [done | apply Z.mod_pos_bound; lia .. | done].
Qed.

(** The candidates of one round hash to every slot. *)
Lemma find_slot_full ho s : slot_wf ho s ->
  find_slot (Z.to_nat (slot_size s)) 0 s = Some None -> slots_full s.
Proof.
  intros Hw Hf i Hi. pose proof (slot_pow_bounds _ (wf_pow _ _ Hw)).
  destruct (find_slot_spec ho s Hw (Z.to_nat (slot_size s)) 0) as [[_ Hfull]|(h & Hh & _)];
    [|congruence].
  destruct (Hfull ((i - handle_index s) mod slot_size s)) as [c Hc].
  { pose proof (Z.mod_pos_bound (i - handle_index s) (slot_size s) ltac:(lia)). lia. }
  exists c. rewrite <-Hc. f_equal.
  rewrite Zplus_mod_idemp_l, Z.sub_simpl_r. symmetry. by apply Z.mod_small.
Qed.

(** The cell [j] of the doubled array once the slots below [i] are moved. *)
Definition moved (ho : ctxid -> Z) (s : handle_storage) (i j : Z) : option ctxid :=
  match (hslot s).[j mod slot_size s] with
  | Some (Some c) =>
      if decide (j mod slot_size s < i /\ ho c mod (slot_size s * 2) = j)
      then Some c else None
  | _ => None
  end.

Lemma rehash_spec ho s : slot_wf ho s -> slots_full s -> slot_size s < 2 ^ 24 ->
  forall n i new_slot, 0 <= i -> i + Z.of_nat n = slot_size s ->
  zlen new_slot = slot_size s * 2 ->
  (forall j, 0 <= j < slot_size s * 2 -> new_slot.[j] = Some (moved ho s i j)) ->
  exists new_slot', rehash ho n i s new_slot = Some new_slot' /\
    zlen new_slot' = slot_size s * 2 /\
    forall j, 0 <= j < slot_size s * 2 -> new_slot'.[j] = Some (moved ho s (slot_size s) j).
Proof.
  intros Hw Hfull Hlt. pose proof Hw as [Hp Hl _ _ Hs].
  pose proof (slot_pow_bounds _ Hp). pose proof (slot_pow_double _ Hp Hlt) as Hp2.
  assert (forall x, (x mod (slot_size s * 2)) mod slot_size s = x mod slot_size s) as Hmm.
  { intros x. apply Z.mod_mod_divide. exists 2; lia. }
  induction n as [|n IH]; intros i new_slot Hi Hn Hlen Hg; cbn [rehash].
  - exists new_slot. replace (slot_size s) with i in * by lia. done.
  - destruct (Hfull i) as [c Hc]; [lia|]. rewrite Hc; cbn [mbind option_bind].
    rewrite slot_land by done. set (j0 := ho c mod (slot_size s * 2)).
    destruct (Hs _ _ Hc) as (_ & Hhash & _).
    assert (j0 mod slot_size s = i) as Hj0 by (subst j0; by rewrite Hmm).
    assert (0 <= j0 < slot_size s * 2) as Hb by (apply Z.mod_pos_bound; lia).
    rewrite (Hg j0 Hb). cbn [mbind option_bind].
    assert (moved ho s i j0 = None) as Hnone.
    { unfold moved. rewrite Hj0, Hc. by rewrite decide_False by lia. }
    rewrite Hnone. rewrite bool_decide_eq_true_2 by done. cbn [cassert mbind option_bind].
    assert (new_slot.[j0 := Some c] = Some (<[Z.to_nat j0 := Some c]> new_slot)) as Hset
      by (apply aset_Some; lia).
    rewrite Hset; cbn [mbind option_bind].
    apply IH; [lia | lia | by rewrite zlen_insert |].
    intros j Hj. rewrite (aget_aset _ _ _ _ _ Hset). case_decide as Hjj.
    + subst j. unfold moved. rewrite Hj0, Hc, decide_True by (split; [lia | done]). done.
    + rewrite Hg by done. f_equal. unfold moved.
      destruct ((hslot s).[j mod slot_size s]) as [[c'|]|] eqn:Hc'; try done.
      destruct (decide (j mod slot_size s = i)) as [Heq|].
      * rewrite Heq in Hc'. assert (c' = c) as -> by congruence.
        rewrite !decide_False; [done | naive_solver..].
      * repeat case_decide; try done; lia.
Qed.

(** The state of a registry after the doubling. *)
Definition doubled (ho : ctxid -> Z) (s s2 : handle_storage) : Prop :=
  slot_wf ho s2 /\ slot_size s2 = slot_size s * 2 /\ hs_harbor s2 = hs_harbor s /\
  handle_index s2 = handle_index s /\ ~ slots_full s2 /\
  forall c i, ((hslot s2).[i] = Some (Some c) <->
    (hslot s).[ho c mod slot_size s] = Some (Some c) /\ i = ho c mod (slot_size s * 2)).

Lemma rehash_doubled ho s : slot_wf ho s -> slots_full s -> slot_size s < 2 ^ 24 ->
  exists new_slot,
    rehash ho (Z.to_nat (slot_size s)) 0 s
      (replicate (Z.to_nat (slot_size s * 2)) None) = Some new_slot /\
    doubled ho s (set_slots (handle_index s) (slot_size s * 2) new_slot s).
Proof.
  intros Hw Hfull Hlt. pose proof Hw as [Hp Hl Hi Hh Hs].
  pose proof (slot_pow_bounds _ Hp).
  assert (forall x, (x mod (slot_size s * 2)) mod slot_size s = x mod slot_size s) as Hmm.
  { intros x. apply Z.mod_mod_divide. exists 2; lia. }
  destruct (rehash_spec ho s Hw Hfull Hlt (Z.to_nat (slot_size s)) 0
    (replicate (Z.to_nat (slot_size s * 2)) None)) as (ns & Hr & Hlen & Hg); try lia.
  { rewrite zlen_replicate. lia. }
  { intros j Hj. rewrite aget_replicate by lia. f_equal. unfold moved.
    destruct (_.[_]) as [[c|]|]; try done. rewrite decide_False; [done|].
    pose proof (Z.mod_pos_bound j (slot_size s)). lia. }
  exists ns. split; [done|].
  assert (forall c i, ns.[i] = Some (Some c) <->
    (hslot s).[ho c mod slot_size s] = Some (Some c) /\ i = ho c mod (slot_size s * 2)) as Hns.
  { intros c i. split.
    - intros Hc. pose proof (aget_lt_Some _ _ _ Hc) as Hb. rewrite Hlen in Hb.
      rewrite Hg in Hc by done. unfold moved in Hc.
      destruct ((hslot s).[i mod slot_size s]) as [[c'|]|] eqn:Hc'; try done.
      case_decide as Hd; [|done]. simplify_eq. destruct Hd as [_ <-].
      by rewrite Hmm in Hc'.
    - intros [Hc ->]. assert (0 <= ho c mod (slot_size s * 2) < slot_size s * 2) as Hb
        by (apply Z.mod_pos_bound; lia).
      rewrite Hg by done. f_equal. unfold moved. rewrite Hmm, Hc.
      rewrite decide_True; [done|]. split; [|done]. apply Z.mod_pos_bound; lia. }
  unfold doubled; simpl. split; [split|]; simpl; try done.
  - by apply slot_pow_double.
  - intros i c Hc. apply Hns in Hc as [Hc ->]. destruct (Hs _ _ Hc) as (? & _ & ?). done.
  - split; [done|]. split; [done|]. split; [done|]. split; [|done].
    intros Hf. destruct (Hf 0) as [c0 Hc0]; [simpl; lia|].
    destruct (Hf (slot_size s)) as [c1 Hc1]; [simpl; lia|]. simpl in *.
    apply Hns in Hc0 as [Hc0 H0]. apply Hns in Hc1 as [Hc1 H1].
    assert (c0 = c1) as <-; [|lia].
    assert (ho c0 mod slot_size s = 0) as E0 by (rewrite <-Hmm, <-H0; apply Z.mod_0_l; lia).
    assert (ho c1 mod slot_size s = 0) as E1 by (rewrite <-Hmm, <-H1; apply Z.mod_same; lia).
    rewrite E0 in Hc0. rewrite E1 in Hc1. congruence.
Qed.

Lemma doubled_grab ho s s2 h : slot_wf ho s -> doubled ho s s2 ->
  uboss_handle_grab ho h s2 = uboss_handle_grab ho h s.
Proof.
  intros Hw (Hw2 & Hsz & _ & _ & _ & Hiff). apply grab_ext; [done..|].
  intros c. rewrite Hiff, Hsz. naive_solver.
Qed.

Definition set_handle (ho : ctxid -> Z) (ctx : ctxid) (h : Z) : ctxid -> Z :=
  fun c => if decide (c = ctx) then h else ho c.

(** What a registration does to the registry. *)
Definition registered (ho : ctxid -> Z) (ctx : ctxid) (s : handle_storage)
    (h : Z) (s' : handle_storage) : Prop :=
  uboss_handle_grab ho h s = Some None /\
  slot_wf (set_handle ho ctx h) s' /\
  (forall h', uboss_handle_grab (set_handle ho ctx h) h' s' =
     if decide (h' = h) then Some (Some ctx) else uboss_handle_grab ho h' s) /\
  h / 2 ^ 24 * 2 ^ 24 = hs_harbor s /\ hs_harbor s' = hs_harbor s.

Lemma lor_harbor h n : 0 <= h < 2 ^ 24 -> Z.lor h (n * 2 ^ 24) = n * 2 ^ 24 + h.
Proof.
  intros Hh. rewrite Z.lor_comm, Z.add_nocarry_lxor, Z.lxor_lor; try done.
  all: rewrite <-Z.shiftl_mul_pow2 by lia; apply Z.bits_inj'; intros i Hi;
    rewrite Z.land_spec, Z.shiftl_spec, Z.bits_0 by done;
    destruct (Z.lt_ge_cases i 24);
    [by rewrite (Z.testbit_neg_r _ (i - 24)) by lia|];
    replace h with (h mod 2 ^ 24) by (by apply Z.mod_small);
    by rewrite Z.mod_pow2_bits_high, andb_false_r by lia.
Qed.

Lemma register_at ho s ctx h sl : slot_wf ho s ->
  (forall i, (hslot s).[i] <> Some (Some ctx)) ->
  0 <= h < 2 ^ 24 -> (hslot s).[h mod slot_size s] = Some None ->
  (hslot s).[h mod slot_size s := Some ctx] = Some sl ->
  registered ho ctx s (Z.lor h (hs_harbor s))
    (set_slots (u32 (h + 1)) (slot_size s) sl s).
Proof.
  intros Hw Hfresh Hh Hnone Hset. pose proof Hw as [Hp Hl Hi (n & Hn & Hhb) Hs].
  pose proof (slot_pow_bounds _ Hp).
  set (g := Z.lor h (hs_harbor s)).
  assert (g = n * 2 ^ 24 + h) as Hg by (subst g; rewrite Hhb; by apply lor_harbor).
  assert (g mod slot_size s = h mod slot_size s) as Hgm.
  { rewrite <-(slot_mod_mod g _ (2 ^ 24)), <-(slot_mod_mod h _ (2 ^ 24)) by auto.
    f_equal. rewrite Hg, Z.add_comm, Z.mod_add by lia. done. }
  assert (g / 2 ^ 24 = n) as Hgd by (rewrite Hg; symmetry; apply (Z.div_unique _ _ n h); lia).
  assert (slot_wf (set_handle ho ctx g) (set_slots (u32 (h + 1)) (slot_size s) sl s)) as Hw'.
  { split; simpl; [done | by rewrite (zlen_aset _ _ _ _ Hset) | | by exists n |].
    - unfold u32. rewrite Z.mod_small by lia. lia.
    - intros i c Hc. rewrite (aget_aset _ _ _ _ _ Hset) in Hc. unfold set_handle. case_decide.
      + simplify_eq. rewrite decide_True by done. split_and!; [unfold is_u32; lia.. | done | lia].
      + rewrite decide_False; [by apply Hs | intros ->; by eapply Hfresh]. }
  split; [|split; [done|]].
  - destruct (grab_spec ho s g Hw) as ([c|] & Hgr & Hr); [|done].
    destruct (proj1 (Hr c) eq_refl) as [Hc _]. congruence.
  - split; [|split; [lia | done]]. intros h'. case_decide as Hh'.
    + subst h'. destruct (grab_spec _ _ g Hw') as (r & -> & Hr). f_equal. apply Hr. simpl.
      rewrite (aget_aset _ _ _ _ _ Hset), decide_True by done.
      split; [done|]. unfold set_handle. by rewrite decide_True.
    + apply grab_ext; [done..|]. intros c. simpl. rewrite (aget_aset _ _ _ _ _ Hset).
      unfold set_handle. destruct (decide (h mod slot_size s = h' mod slot_size s)) as [Heq|].
      * rewrite <-Heq, Hnone. split; [|by intros [[=] _]]. intros [[= <-] Hx].
        rewrite decide_True in Hx by done. congruence.
      * split; intros [Hc Hhc]; (split; [done|]); case_decide; subst; try done;
          exfalso; by eapply Hfresh.
Qed.

(** One round of the outer loop with an empty slot. *)
Lemma handle_register_round ho s ctx fuel : slot_wf ho s -> ~ slots_full s ->
  (forall i, (hslot s).[i] <> Some (Some ctx)) ->
  exists h s', handle_register ho (S fuel) ctx s = Some (h, s') /\ registered ho ctx s h s'.
Proof.
  intros Hw Hnf Hfresh. cbn [handle_register].
  destruct (find_slot_spec ho s Hw (Z.to_nat (slot_size s)) 0) as [[Hf _]|(h & -> & Hh & Hc)].
  { by apply (find_slot_full ho) in Hf. }
  cbn [mbind option_bind]. pose proof (aget_lt_Some _ _ _ Hc) as Hb.
  pose proof (aset_Some (hslot s) _ (Some ctx) Hb) as Hset. rewrite Hset.
  cbn [mbind option_bind]. do 2 eexists. split; [done|]. by eapply register_at.
Qed.

Lemma handle_register_grow ho s ctx fuel : slot_wf ho s -> slots_full s ->
  slot_size s < 2 ^ 24 ->
  exists s2, handle_register ho (S fuel) ctx s = handle_register ho fuel ctx s2 /\
    doubled ho s s2.
Proof.
  intros Hw Hfull Hlt. cbn [handle_register].
  destruct (find_slot_spec ho s Hw (Z.to_nat (slot_size s)) 0) as [[-> _]|(h & _ & Hh & Hc)].
  - destruct (rehash_doubled ho s Hw Hfull Hlt) as (ns & Hr & Hd).
    cbn [mbind option_bind]. pose proof (slot_pow_double _ (wf_pow _ _ Hw) Hlt) as Hp.
    apply slot_pow_bounds in Hp.
    rewrite (proj2 (Z.leb_le (slot_size s * 2 - 1) HANDLE_MASK)) by (unfold HANDLE_MASK; lia).
    rewrite Hr. cbn [cassert mbind option_bind]. by eexists.
  - pose proof (aget_lt_Some _ _ _ Hc) as Hb. rewrite (wf_len _ _ Hw) in Hb.
    destruct (Hfull _ Hb) as [c Hc']. congruence.
Qed.

(** The registration, with and without growth of the table. *)
Lemma register_spec (ho : ctxid -> Z) (s : handle_storage) (ctx : ctxid) :
  slot_wf ho s -> (forall i, (hslot s).[i] <> Some (Some ctx)) ->
  (uboss_handle_register ho ctx s = None <-> slots_full s /\ slot_size s = 2 ^ 24) /\
  forall r, uboss_handle_register ho ctx s = Some r -> registered ho ctx s r.1 r.2.
Proof.
  intros Hw Hfresh. pose proof (slot_pow_bounds _ (wf_pow _ _ Hw)) as Hb.
  unfold uboss_handle_register.
  destruct (find_slot_spec ho s Hw (Z.to_nat (slot_size s)) 0) as [[Hf _]|(h & Hf & Hh & Hc)].
  - pose proof (find_slot_full ho s Hw Hf) as Hfull.
    destruct (decide (slot_size s = 2 ^ 24)) as [Hmax|Hmax].
    + assert (handle_register ho 2 ctx s = None) as ->; [|done].
      cbn [handle_register]. rewrite Hf. cbn [mbind option_bind].
      by rewrite (proj2 (Z.leb_gt (slot_size s * 2 - 1) HANDLE_MASK))
        by (unfold HANDLE_MASK; lia).
    + destruct (handle_register_grow ho s ctx 1 Hw Hfull ltac:(lia)) as (s2 & -> & Hd).
      pose proof Hd as (Hw2 & Hsz & Hhb & _ & Hnf & Hiff).
      destruct (handle_register_round ho s2 ctx 0 Hw2 Hnf) as (h & s' & -> & Hreg).
      { intros i [Hc _]%Hiff. by eapply Hfresh. }
      split; [naive_solver|]. intros r [= <-]. simpl.
      destruct Hreg as (Hg & Hw' & Hall & Hx & Hy). unfold registered.
      rewrite <-(doubled_grab ho s s2) by done. split; [done|]. split; [done|].
      split; [|split; congruence].
      intros h'. rewrite Hall. case_decide; [done|]. by apply doubled_grab.
  - assert (~ slots_full s) as Hnf.
    { intros Hfull. pose proof (aget_lt_Some _ _ _ Hc) as Hb'. rewrite (wf_len _ _ Hw) in Hb'.
      destruct (Hfull _ Hb') as [c Hc']. congruence. }
    destruct (handle_register_round ho s ctx 1 Hw Hnf Hfresh) as (g & s' & -> & Hreg).
    split; [naive_solver|]. by intros r [= <-].
Qed.

(** C21: [uboss_handle_register] never returns a handle that is in use: it
    returns a handle with this process' harbor bits under which nothing was
    found before; once the caller stored it in the context,
    [uboss_handle_grab] finds the context under it and finds every other
    service under its old handle, also when the slot array was doubled and
    rehashed on the way.  Two rounds of the C loop are enough.  It fails (the
    assertion) exactly when all [2^24] slots of a table of the maximal size are taken. *)
Theorem handle_register_fresh (ho : ctxid -> Z) (s : handle_storage) (ctx : ctxid) :
  slot_wf ho s -> (forall i, (hslot s).[i] <> Some (Some ctx)) ->
  (uboss_handle_register ho ctx s = None <-> slots_full s /\ slot_size s = 2 ^ 24) /\
  forall r, uboss_handle_register ho ctx s = Some r -> registered ho ctx s r.1 r.2.
Proof. apply register_spec. Qed.

(** One retirement, on every branch. *)
Lemma retire_spec ho s m h : slot_wf ho s -> names_map s m ->
  exists r, uboss_handle_grab ho h s = Some r /\
  match r with
  | None => uboss_handle_retire ho h s = Some (0, None, s)
  | Some ctx => exists s', uboss_handle_retire ho h s = Some (1, Some ctx, s') /\
      slot_wf ho s' /\ names_map s' (filter (fun kv => kv.2 <> h) m) /\
      hslot s' = <[Z.to_nat (h mod slot_size s) := None]> (hslot s) /\
      (hslot s).[h mod slot_size s] = Some (Some ctx) /\ ho ctx = h /\
      slot_size s' = slot_size s /\ handle_index s' = handle_index s /\
      hs_harbor s' = hs_harbor s
  end.
Proof.
  intros Hw Hm. destruct (grab_spec ho s h Hw) as (r & Hg & Hr).
  exists r. split; [done|]. pose proof Hw as [Hp Hl Hi Hh Hs].
  pose proof (slot_pow_bounds _ Hp).
  unfold uboss_handle_retire, uboss_handle_grab in *. rewrite slot_land in * by done.
  destruct ((hslot s).[h mod slot_size s]) as [[c|]|] eqn:Hc; simplify_eq/=; try done.
  destruct (Z.eqb_spec (ho c) h) as [Heq|]; simplify_eq; [|done].
  pose proof (aget_lt_Some _ _ _ Hc) as Hb.
  pose proof (aset_Some (hslot s) _ None Hb) as Hset. rewrite Hset. cbn [mbind option_bind].
  destruct (retire_names_map s m (ho c) Hm) as (names' & j & -> & Hm').
  cbn [mbind option_bind]. eexists. split; [done|]. simpl. split_and!; try done.
  split; simpl; try done.
  - by rewrite zlen_insert.
  - intros i c' Hc'. rewrite (aget_aset _ _ _ _ _ Hset) in Hc'.
    case_decide; [done | by apply Hs].
Qed.

(** [uboss_handle_retire] removes exactly the service with that handle:
    it returns 1 and the context to release iff a grab would have found one,
    the slot is free afterwards, every other handle still finds its context,
    the names of the handle (and no others) are gone and the sorted name
    table stays well formed; otherwise it returns 0 and changes nothing. *)
Theorem handle_retire_correct (ho : ctxid -> Z) (s : handle_storage)
    (m : gmap (list Z) Z) (h : Z) : slot_wf ho s -> names_map s m ->
  exists r, uboss_handle_grab ho h s = Some r /\
  match r with
  | None => uboss_handle_retire ho h s = Some (0, None, s)
  | Some ctx => exists s', uboss_handle_retire ho h s = Some (1, Some ctx, s') /\
      slot_wf ho s' /\ names_map s' (filter (fun kv => kv.2 <> h) m) /\
      forall h', uboss_handle_grab ho h' s' =
        if decide (h' = h) then Some None else uboss_handle_grab ho h' s
  end.
Proof.
  intros Hw Hm. destruct (retire_spec ho s m h Hw Hm) as (r & Hg & Hr).
  exists r. split; [done|]. destruct r as [ctx|]; [|done].
  destruct Hr as (s' & Hret & Hw' & Hm' & Hsl & Hc & Hctx & Hsz & _).
  exists s'. split; [done|]. split; [done|]. split; [done|]. intros h'.
  pose proof (aget_lt_Some _ _ _ Hc) as Hb.
  pose proof (aset_Some (hslot s) _ None Hb) as Hset. rewrite <-Hsl in Hset.
  case_decide as Hh'.
  - subst h'. destruct (grab_spec ho s' h Hw') as ([c|] & -> & Hr'); [|done].
    destruct (proj1 (Hr' c) eq_refl) as [Hc' _].
    rewrite Hsz, (aget_aset _ _ _ _ _ Hset), decide_True in Hc' by done. done.
  - apply grab_ext; [done..|]. intros c. rewrite Hsz, (aget_aset _ _ _ _ _ Hset).
    destruct (decide (h mod slot_size s = h' mod slot_size s)) as [Heq|]; [|done].
    rewrite <-Heq, Hc. split; [by intros [[=] _]|]. intros [[= <-] ?]. congruence.
Qed.

(** C22: the name table is a finite map kept as a sorted array:
    [uboss_handle_findname] returns the handle stored under the name, or 0;
    [uboss_handle_namehandle] binds a new name, also when the array is full
    and is doubled, returns NULL and changes nothing when the name is taken, and
    never touches the slots. *)
Theorem names_implement_map (s : handle_storage) (m : gmap (list Z) Z)
    (name : list Z) (h : Z) :
  names_map s m -> name_count s * 2 <= MAX_SLOT_SIZE ->
  (forall k, uboss_handle_findname k s = Some (default 0 (m !! k))) /\
  match m !! name with
  | Some _ => uboss_handle_namehandle h name s = Some (None, s)
  | None => exists s', uboss_handle_namehandle h name s = Some (Some name, s') /\
      names_map s' (<[name := h]> m) /\ hslot s' = hslot s /\
      slot_size s' = slot_size s /\ handle_index s' = handle_index s /\
      hs_harbor s' = hs_harbor s
  end.
Proof.
  intros Hm Hmax. split; [|by apply namehandle_map].
  intros k. by apply findname_map.
Qed.

(** ** Retiring everything *)

Lemma omap_insert_none (l : list (option ctxid)) i c : l !! i = Some (Some c) ->
  omap id (take (S i) l) = omap id (take i l) ++ [c].
Proof.
  intros Hl. rewrite (take_S_r _ _ _ Hl), omap_app. done.
Qed.

Lemma retire_round_spec ho n : forall i s m, slot_wf ho s -> names_map s m ->
  (forall j c, (hslot s).[j] = Some (Some c) -> ho c <> 0) ->
  0 <= i -> i + Z.of_nat n = slot_size s ->
  exists s' m', retire_round ho n i s =
    Some (zlen (omap id (drop (Z.to_nat i) (hslot s))),
          omap id (drop (Z.to_nat i) (hslot s)), s') /\
    slot_wf ho s' /\ names_map s' m' /\ slot_size s' = slot_size s /\
    forall j, (hslot s').[j] =
      if decide (i <= j < slot_size s) then Some None else (hslot s).[j].
Proof.
  induction n as [|n IH]; intros i s m Hw Hm Hnz Hi Hn; cbn [retire_round].
  - pose proof (wf_len _ _ Hw). rewrite drop_ge by (unfold zlen in *; lia).
    exists s, m. split_and!; try done. intros j. by rewrite decide_False by lia.
  - pose proof (wf_len _ _ Hw) as Hl.
    destruct (aget_is_Some (hslot s) i) as [c Hc]; [lia|]. rewrite Hc.
    cbn [mbind option_bind].
    assert (hslot s !! Z.to_nat i = Some c) as Hlk
      by (rewrite <-aget_nat, Z2Nat.id by lia; done).
    rewrite (drop_S _ _ _ Hlk). replace (S (Z.to_nat i)) with (Z.to_nat (i + 1)) by lia.
    destruct c as [c|].
    + pose proof (Hnz _ _ Hc) as Hz. destruct (Z.eqb_spec (ho c) 0) as [|_]; [done|].
      destruct (retire_spec ho s m (ho c) Hw Hm) as (r & Hg & Hr).
      destruct (grab_spec ho s (ho c) Hw) as (r' & Hg' & Hr'). rewrite Hg in Hg'.
      destruct (wf_slot _ _ Hw _ _ Hc) as (_ & Hhash & _).
      assert (r' = Some c) as -> by (apply Hr'; by rewrite Hhash). injection Hg' as ->.
      destruct Hr as (s1 & Hret & Hw1 & Hm1 & Hsl & _ & _ & Hsz & _).
      rewrite Hhash in Hsl. cbn [negb]. rewrite Hret. cbn [mbind option_bind].
      assert ((hslot s).[i := None] = Some (hslot s1)) as Hset
        by (rewrite Hsl; apply aset_Some; lia).
      assert (drop (Z.to_nat (i + 1)) (hslot s1) = drop (Z.to_nat (i + 1)) (hslot s)) as Hd
        by (rewrite Hsl; apply drop_insert_lt; lia).
      destruct (IH (i + 1) s1 _ Hw1 Hm1) as (s' & m' & -> & Hw' & Hm' & Hsz' & Hg2); try lia.
      { intros j c' Hc'. rewrite (aget_aset _ _ _ _ _ Hset) in Hc'.
        case_decide; [done|]. by eapply Hnz. }
      cbn [mbind option_bind]. exists s', m'. rewrite Hd. simpl.
      split; [rewrite zlen_cons; done|]. split_and!; try done; [congruence|].
      intros j. rewrite Hg2, Hsz, (aget_aset _ _ _ _ _ Hset).
      repeat case_decide; try lia; done.
    + cbn [negb Z.eqb mbind option_bind].
      destruct (IH (i + 1) s m Hw Hm Hnz) as (s' & m' & -> & Hw' & Hm' & Hsz' & Hg2); try lia.
      cbn [mbind option_bind]. exists s', m'. simpl. split_and!; try done.
      intros j. rewrite Hg2. repeat case_decide; try lia; try done.
      by replace j with i by lia.
Qed.

(** [uboss_handle_retireall] terminates after at most two rounds over the
    slots and leaves the registry empty: every registered context is handed
    to the release exactly once, in the order of the slots, and no grab finds anything
    afterwards (as long as no service carries the reserved handle 0). *)
Theorem retireall_empties (ho : ctxid -> Z) (s : handle_storage)
    (m : gmap (list Z) Z) : slot_wf ho s -> names_map s m ->
  (forall j c, (hslot s).[j] = Some (Some c) -> ho c <> 0) ->
  exists s', uboss_handle_retireall ho 2 s = Some (omap id (hslot s), s') /\
    slot_wf ho s' /\ forall h, uboss_handle_grab ho h s' = Some None.
Proof.
  intros Hw Hm Hnz. pose proof (slot_pow_bounds _ (wf_pow _ _ Hw)).
  destruct (retire_round_spec ho (Z.to_nat (slot_size s)) 0 s m Hw Hm Hnz)
    as (s1 & m1 & Hr1 & Hw1 & Hm1 & Hsz1 & Hg1); try lia.
  assert (forall h, uboss_handle_grab ho h s1 = Some None) as Hgrab.
  { intros h. destruct (grab_spec ho s1 h Hw1) as ([c|] & -> & Hr); [|done].
    destruct (proj1 (Hr c) eq_refl) as [Hc _]. rewrite Hg1, Hsz1 in Hc.
    rewrite decide_True in Hc by (apply Z.mod_pos_bound; lia). done. }
  assert (omap id (hslot s1) = []) as Hnil.
  { apply elem_of_nil_inv. intros c (o & Ho & Hoc)%list_elem_of_omap.
    apply elem_of_aget in Ho as [i Hi]. rewrite Hg1 in Hi. case_decide; [by simplify_eq|].
    pose proof (aget_lt_Some _ _ _ Hi). rewrite (wf_len _ _ Hw) in *. lia. }
  destruct (retire_round_spec ho (Z.to_nat (slot_size s1)) 0 s1 m1 Hw1 Hm1)
    as (s2 & m2 & Hr2 & Hw2 & Hm2 & Hsz2 & Hg2); try lia.
  { intros j c Hc. assert (c ∈ omap id (hslot s1)) as Hin; [|rewrite Hnil in Hin; by apply not_elem_of_nil in Hin].
    apply list_elem_of_omap. exists (Some c). split; [|done].
    apply elem_of_aget. by eexists. }
  cbn [uboss_handle_retireall]. rewrite Hr1. cbn [mbind option_bind].
  rewrite Hr2. cbn [mbind option_bind Z.to_nat]. rewrite !drop_0.
  rewrite Hnil. change (zlen (@nil ctxid) =? 0) with true. cbn [mbind option_bind].
  assert (forall h, uboss_handle_grab ho h s2 = Some None) as Hgrab2.
  { intros h. rewrite <-(Hgrab h). apply grab_ext; [done..|]. intros c.
    rewrite Hg2, Hsz2, Hsz1.
    rewrite decide_True by (apply Z.mod_pos_bound; lia).
    rewrite Hg1, decide_True by (apply Z.mod_pos_bound; lia). done. }
  case_match eqn:Hn.
  - exists s1. done.
  - exists s2. by rewrite app_nil_r.
Qed.

(** ** The initial registry *)

Lemma handle_init_wf ho n : slot_wf ho (uboss_handle_init n).
Proof.
  split; simpl; try done.
  - by exists 2.
  - exists (Z.land n 255). rewrite (land_mask n 8 ltac:(lia) : Z.land n 255 = _).
    pose proof (Z.mod_pos_bound n (2 ^ 8) ltac:(lia)).
    rewrite Z.shiftl_mul_pow2 by done. unfold u32, HANDLE_REMOTE_SHIFT.
    rewrite (Z.mod_small (_ * _)) by lia. lia.
  - intros i c Hi. assert (Some c ∈ replicate 4 (@None ctxid)) as Hin
      by (apply elem_of_aget; by exists i).
    by apply elem_of_replicate in Hin as [? _].
Qed.

Lemma handle_init_names n : names_map (uboss_handle_init n) ∅.
Proof.
  exists []. split.
  - split; [split; [done|]|]; [|split; [done|]; split; [done|]; split; [done | constructor]].
    intros i x Hx%aget_lt_Some. unfold zlen in Hx; simpl in Hx. lia.
  - intros k h. rewrite lookup_empty, elem_of_nil. done.
Qed.

(** A slot array given by its cells: checking [wf_slot] cell by cell. *)
Lemma cells_forall {A} (P : Z -> A -> Prop) (l : list A) :
  Forall (fun p => P (Z.of_nat p.1) p.2) (imap pair l) ->
  forall i x, l.[i] = Some x -> P i x.
Proof.
  intros Hall i x Hi. pose proof (aget_lt_Some _ _ _ Hi) as Hb.
  unfold aget in Hi. rewrite decide_True in Hi by lia.
  rewrite <-(Z2Nat.id i) by lia.
  apply (Forall_lookup_1 _ _ (Z.to_nat i) (Z.to_nat i, x)) in Hall; [done|].
  rewrite list_lookup_imap, Hi. done.
Qed.

(** ** The reserved handle 0 *)

(** [n] times: start a service and let it exit. *)
Fixpoint churn (n : nat) (ctx : ctxid) (s : handle_storage) : option handle_storage :=
  match n with
  | O => Some s
  | S n =>
      '(h, s) ← uboss_handle_register (fun _ => 0) ctx s;
      '(_, _, s) ← uboss_handle_retire (fun _ => h) h s;
      churn n ctx s
  end.

Lemma churn_step ctx i : 1 <= i < 2 ^ 24 ->
  let s i := set_slots i 4 (replicate 4 None) (uboss_handle_init 0) in
  uboss_handle_register (fun _ => 0) ctx (s i) =
    Some (i, set_slots (i + 1) 4 (<[Z.to_nat (i mod 4) := Some ctx]> (replicate 4 None))
               (uboss_handle_init 0)) /\
  uboss_handle_retire (fun _ => i) i
    (set_slots (i + 1) 4 (<[Z.to_nat (i mod 4) := Some ctx]> (replicate 4 None))
       (uboss_handle_init 0)) = Some (1, Some ctx, s (i + 1)).
Proof.
  intros Hi s. pose proof (Z.mod_pos_bound i 4 ltac:(lia)) as Hm.
  assert (Z.land i 3 = i mod 4) as Hl by apply (land_mask i 2 ltac:(lia)).
  split.
  - assert (find_slot 4 0 (s i) = Some (Some (i, i mod 4))) as Hf.
    { cbn [find_slot]. replace (u32 (0 + handle_index (s i))) with i
        by (symmetry; apply u32_small; unfold is_u32; simpl; lia).
      unfold HANDLE_MASK. rewrite (land_mask i 24 ltac:(lia) : Z.land i 16777215 = _).
      rewrite (Z.mod_small i (2 ^ 24)) by lia. change (slot_size (s i) - 1) with 3.
      rewrite Hl. change (hslot (s i)) with (replicate 4 (@None ctxid)).
      by rewrite (aget_replicate 4 None (i mod 4)) by lia. }
    unfold uboss_handle_register. cbn [handle_register].
    change (Z.to_nat (slot_size (s i))) with 4%nat. rewrite Hf. cbn [mbind option_bind].
    change (hslot (s i)) with (replicate 4 (@None ctxid)).
    rewrite aset_Some by (rewrite zlen_replicate; lia). cbn [mbind option_bind].
    change (hs_harbor (s i)) with 0. rewrite Z.lor_0_r, u32_small by (unfold is_u32; lia).
    done.
  - unfold uboss_handle_retire. cbn [slot_size set_slots hslot]. change (4 - 1) with 3. rewrite Hl.
    assert (i mod 4 = 0 \/ i mod 4 = 1 \/ i mod 4 = 2 \/ i mod 4 = 3)
      as [E|[E|[E|E]]] by lia; rewrite E; simpl; rewrite Z.eqb_refl; done.
Qed.

Lemma churn_index ctx n : forall i, 1 <= i -> i + Z.of_nat n <= 2 ^ 24 ->
  churn n ctx (set_slots i 4 (replicate 4 None) (uboss_handle_init 0)) =
  Some (set_slots (i + Z.of_nat n) 4 (replicate 4 None) (uboss_handle_init 0)).
Proof.
  induction n as [|n IH]; intros i Hi Hn; [by rewrite Z.add_0_r|].
  cbn [churn]. destruct (churn_step ctx i ltac:(lia)) as [-> Hret].
  cbn [mbind option_bind]. rewrite Hret. cbn [mbind option_bind].
  rewrite IH by lia. do 2 f_equal. lia.
Qed.

(** C39: the handle 0 is not reserved.  [uboss_handle_init] says so, but the
    candidate handles are masked to 24 bits and restart at 0: in a process
    with harbor 0 that has started and ended [2^24 - 1] services, the next
    [uboss_handle_register] returns 0, the value that means "no service" for
    every caller. *)
Theorem register_can_return_zero (ctx : ctxid) :
  exists s s', churn (Z.to_nat (2 ^ 24 - 1)) ctx (uboss_handle_init 0) = Some s /\
    uboss_handle_register (fun _ => 0) ctx s = Some (0, s').
Proof.
  eexists. exists (set_slots 1 4 [Some ctx; None; None; None] (uboss_handle_init 0)). split.
  - apply (churn_index ctx (Z.to_nat (2 ^ 24 - 1)) 1); lia.
  - rewrite Z2Nat.id by lia. vm_compute. reflexivity.
Qed.

(** Four contexts, the third of which has not stored its handle yet. *)
Definition race_table : handle_storage :=
  set_slots 5 4 [Some 4%nat; Some 1%nat; Some 2%nat; Some 3%nat] (uboss_handle_init 0).

(** [uboss_context_new] stores the handle in the context only after the
    registration released the lock.  If another registration doubles the table
    in between, the rehash reads the handle 0 and files the context under it:
    the handle that [uboss_handle_register] returned for the context
    finds nothing, also once it is stored. *)
Theorem register_rehash_race :
  exists s', uboss_handle_register (set_handle Z.of_nat 3 0) 5 race_table = Some (5, s') /\
    uboss_handle_grab Z.of_nat 3 race_table = Some (Some 3%nat) /\
    uboss_handle_grab Z.of_nat 3 s' = Some None.
Proof. eexists. vm_compute. split; [reflexivity|]. split; reflexivity. Qed.

(** ** Witnesses *)

(** Harbor 1; the contexts 1 to 4 fill the table. *)
Definition demo_ho (c : ctxid) : Z := 16777216 + Z.of_nat c.
Definition demo_table : handle_storage :=
  set_names 2 1 [Some (HandleName [46; 97] 16777218); None]
    (set_slots 5 4 [Some 4%nat; Some 1%nat; Some 2%nat; Some 3%nat] (uboss_handle_init 1)).

Lemma demo_wf : slot_wf demo_ho demo_table.
Proof.
  split; simpl; try done; [by exists 2 | by exists 1 |].
  intros i c Hi. refine (cells_forall (fun i o => forall c, o = Some c ->
    is_u32 (demo_ho c) /\ demo_ho c mod 4 = i /\ demo_ho c / 2 ^ 24 * 2 ^ 24 = 16777216)
    _ _ i _ Hi c eq_refl).
  repeat (apply Forall_cons_2; [intros ? [= <-]; vm_compute; intuition congruence|]).
  apply Forall_nil_2.
Qed.

Lemma demo_names : names_map demo_table {[ [46; 97] := 16777218 ]}.
Proof.
  exists [HandleName [46; 97] 16777218]. split.
  - split; [|split; [done|]; split; [done|]; split; [done|]; by repeat constructor].
    split; [done|]. intros i x Hx.
    pose proof (aget_lt_Some _ _ _ Hx) as Hb.
    unfold zlen in Hb; simpl in Hb. assert (i = 0) as -> by lia. rewrite aget_cons_0 in Hx. by injection Hx as <-.
  - intros k h. rewrite lookup_singleton_Some, list_elem_of_singleton. naive_solver.
Qed.

Lemma demo_fresh i : (hslot demo_table).[i] <> Some (Some 5%nat).
Proof.
  revert i. assert (forall i o, (hslot demo_table).[i] = Some o -> o <> Some 5%nat) as H;
    [|intros i Hi; by eapply H].
  apply (cells_forall (fun _ o => o <> Some 5%nat)).
  repeat (apply Forall_cons_2; [done|]). apply Forall_nil_2.
Qed.

Lemma handle_register_fresh_witness :
  exists s', uboss_handle_register demo_ho 5 demo_table = Some (16777221, s') /\
    slot_size s' = 8 /\ registered demo_ho 5 demo_table 16777221 s'.
Proof.
  pose proof (proj2 (handle_register_fresh demo_ho demo_table 5 demo_wf demo_fresh)) as H.
  eexists. split; [vm_compute; reflexivity|]. split; [reflexivity|].
  refine (H (_, _) _). vm_compute; reflexivity.
Defined.

Lemma handle_retire_correct_witness :
  exists s', uboss_handle_retire demo_ho 16777218 demo_table = Some (1, Some 2%nat, s') /\
    uboss_handle_grab demo_ho 16777218 s' = Some None /\
    uboss_handle_findname [46; 97] s' = Some 0.
Proof.
  destruct (handle_retire_correct demo_ho demo_table _ 16777218 demo_wf demo_names)
    as (r & Hr & H).
  assert (uboss_handle_grab demo_ho 16777218 demo_table = Some (Some 2%nat)) as E
    by (vm_compute; reflexivity).
  assert (r = Some 2%nat) as Hr2 by congruence. subst r.
  destruct H as (s' & Hret & _ & _ & Hg). exists s'. split; [exact Hret|].
  split; [by rewrite Hg, decide_True|].
  assert (uboss_handle_retire demo_ho 16777218 demo_table = Some (1, Some 2%nat, s')) as E2
    by exact Hret.
  vm_compute in E2. injection E2 as <-. vm_compute. reflexivity.
Defined.

Lemma names_implement_map_witness :
  uboss_handle_findname [46; 97] demo_table = Some 16777218 /\
  uboss_handle_namehandle 7 [46; 97] demo_table = Some (None, demo_table).
Proof.
  destruct (names_implement_map demo_table _ [46; 97] 7 demo_names) as [Hf Hn].
  { vm_compute. congruence. }
  split; [rewrite Hf; reflexivity|]. exact Hn.
Defined.

Lemma retireall_empties_witness :
  exists s', uboss_handle_retireall demo_ho 2 demo_table = Some ([4; 1; 2; 3]%nat, s') /\
    uboss_handle_grab demo_ho 16777218 s' = Some None.
Proof.
  destruct (retireall_empties demo_ho demo_table _ demo_wf demo_names) as (s' & Hr & _ & Hg).
  { intros j c _. unfold demo_ho. lia. }
  exists s'. split; [exact Hr | apply Hg].
Defined.
