(* ===== verification/Bytes.v ===== *)
(** Byte strings and the results of functions called from Lua.

    A Lua string is a [list Z] of values below 256; [Ok] is a normal return,
    [Err] a [luaL_error], and [Ub] an access outside an object, so that a proof of
    [Ok] or [Err] is a proof of memory safety.  The words of the C code are put
    together and taken apart with shifts; the lemmas turn them into sums. *)
From Stdlib Require Import String Ascii.
From S2P Require Import Prelude.

Inductive res (A : Type) :=
| Ok (x : A)
| Err (msg : string)
| Ub.
Arguments Ok {A} _.
Arguments Err {A} _.
Arguments Ub {A}.

#[export] Instance res_ret : MRet res := @Ok.
#[export] Instance res_bind : MBind res := fun A B f m =>
  match m with Ok x => f x | Err s => Err s | Ub => Ub end.

(** An array access: [None] is undefined behaviour. *)
Definition lift {A} (o : option A) : res A :=
  match o with Some x => Ok x | None => Ub end.

Lemma ok_bind {A B} (x : A) (f : A -> res B) : (Ok x ≫= f) = f x.
Proof. done. Qed.

Lemma lift_Some {A} (x : A) : lift (Some x) = Ok x.
Proof. done. Qed.

(** No access outside an object, and [P] of the result. *)
Definition safe {A} (P : A -> Prop) (r : res A) : Prop :=
  match r with Ok x => P x | Err _ => True | Ub => False end.

Lemma safe_bind {A B} (P : A -> Prop) (Q : B -> Prop) (r : res A) (f : A -> res B) :
  safe P r -> (forall x, P x -> safe Q (f x)) -> safe Q (r ≫= f).
Proof. destruct r as [x| |]; cbn; [intros Hx Hf; by apply Hf | done | done]. Qed.

Definition is_bytes (l : list Z) : Prop := Forall is_u8 l.

#[export] Instance is_bytes_dec l : Decision (is_bytes l).
Proof. unfold is_bytes; apply _. Defined.

(** The bytes of a C string literal. *)
Definition bytes_of (s : string) : list Z :=
  map (fun c => Z.of_N (N_of_ascii c)) (list_ascii_of_string s).

(** ** Words *)
Definition le32 (a b c d : Z) : Z :=
  Z.lor (Z.lor (Z.lor a (Z.shiftl b 8)) (Z.shiftl c 16)) (Z.shiftl d 24).
Definition be32 (a b c d : Z) : Z :=
  Z.lor (Z.lor (Z.lor (Z.shiftl a 24) (Z.shiftl b 16)) (Z.shiftl c 8)) d.

Definition put_le32 (v : Z) : list Z :=
  [Z.land v 255; Z.land (Z.shiftr v 8) 255; Z.land (Z.shiftr v 16) 255;
   Z.land (Z.shiftr v 24) 255].
Definition put_be32 (v : Z) : list Z :=
  [u8 (Z.shiftr v 24); u8 (Z.shiftr v 16); u8 (Z.shiftr v 8); u8 v].

Lemma lor_shiftl_add a b k : 0 <= k -> 0 <= a < 2 ^ k ->
  Z.lor a (Z.shiftl b k) = a + b * 2 ^ k.
Proof.
  intros Hk Ha. rewrite <-Z.shiftl_mul_pow2 by done.
  rewrite Z.add_nocarry_lxor, Z.lxor_lor; try done.
  all: apply Z.bits_inj'; intros i Hi; rewrite Z.land_spec, Z.shiftl_spec, Z.bits_0 by done;
    destruct (Z.lt_ge_cases i k);
    [by rewrite (Z.testbit_neg_r _ (i - k)), andb_false_r by lia|];
    replace a with (a mod 2 ^ k) by (by apply Z.mod_small);
    by rewrite Z.mod_pow2_bits_high by lia.
Qed.

Lemma land_255 v : Z.land v 255 = v mod 2 ^ 8.
Proof. exact (land_mask v 8 ltac:(lia)). Qed.

Lemma le32_sum a b c d : is_u8 a -> is_u8 b -> is_u8 c -> is_u8 d ->
  le32 a b c d = a + b * 2 ^ 8 + c * 2 ^ 16 + d * 2 ^ 24.
Proof.
  unfold is_u8, le32. intros.
  rewrite (lor_shiftl_add a b 8) by lia. rewrite (lor_shiftl_add _ c 16) by lia.
  rewrite (lor_shiftl_add _ d 24) by lia. lia.
Qed.

Lemma be32_le32 a b c d : be32 a b c d = le32 d c b a.
Proof.
  unfold be32, le32. apply Z.bits_inj'; intros i _. rewrite !Z.lor_spec.
  repeat (destruct (Z.testbit _ i); simpl; try done).
Qed.

Lemma le32_bound a b c d : is_u8 a -> is_u8 b -> is_u8 c -> is_u8 d -> is_u32 (le32 a b c d).
Proof. intros. rewrite le32_sum by done. unfold is_u8, is_u32 in *. lia. Qed.

Lemma put_le32_eq v : put_le32 v =
  [v mod 2 ^ 8; v / 2 ^ 8 mod 2 ^ 8; v / 2 ^ 16 mod 2 ^ 8; v / 2 ^ 24 mod 2 ^ 8].
Proof. unfold put_le32. by rewrite !land_255, !Z.shiftr_div_pow2 by lia. Qed.

Lemma put_be32_rev v : put_be32 v = rev (put_le32 v).
Proof. rewrite put_le32_eq. unfold put_be32, u8. by rewrite !Z.shiftr_div_pow2 by lia. Qed.

Lemma put_le32_bytes v : is_bytes (put_le32 v).
Proof.
  rewrite put_le32_eq. unfold is_bytes. repeat constructor; unfold is_u8;
    try apply Z.mod_pos_bound; lia.
Qed.

Lemma put_le32_le32 a b c d : is_u8 a -> is_u8 b -> is_u8 c -> is_u8 d ->
  put_le32 (le32 a b c d) = [a; b; c; d].
Proof.
  intros. rewrite put_le32_eq, le32_sum by done. unfold is_u8 in *.
  repeat f_equal; Z.div_mod_to_equations; lia.
Qed.

Lemma le32_put_le32 v : is_u32 v ->
  le32 (v mod 2 ^ 8) (v / 2 ^ 8 mod 2 ^ 8) (v / 2 ^ 16 mod 2 ^ 8) (v / 2 ^ 24 mod 2 ^ 8) = v.
Proof.
  intros. rewrite le32_sum by (apply Z.mod_pos_bound; lia). unfold is_u32 in *.
  Z.div_mod_to_equations; lia.
Qed.

Lemma put_be32_be32 a b c d : is_u8 a -> is_u8 b -> is_u8 c -> is_u8 d ->
  put_be32 (be32 a b c d) = [a; b; c; d].
Proof. intros. by rewrite put_be32_rev, be32_le32, put_le32_le32. Qed.

Lemma be32_bound a b c d : is_u8 a -> is_u8 b -> is_u8 c -> is_u8 d -> is_u32 (be32 a b c d).
Proof. intros. rewrite be32_le32. by apply le32_bound. Qed.

(** ** Bitwise operations on words *)
Lemma u32_bits z i : 0 <= i -> Z.testbit (u32 z) i = (i <? 32) && Z.testbit z i.
Proof.
  intros Hi. unfold u32. destruct (Z.ltb_spec i 32).
  - by rewrite Z.mod_pow2_bits_low by lia.
  - by rewrite Z.mod_pow2_bits_high by lia.
Qed.

Lemma is_u32_bits z : is_u32 z <-> 0 <= z /\ forall i, 32 <= i -> Z.testbit z i = false.
Proof.
  unfold is_u32. split.
  - intros Hz. split; [lia|]. intros i Hi.
    replace z with (z mod 2 ^ 32) by (apply Z.mod_small; lia).
    by rewrite Z.mod_pow2_bits_high by lia.
  - intros [Hz Hb]. assert (z mod 2 ^ 32 = z) as Hm; [|pose proof (u32_bound z) as Hu;
      unfold is_u32, u32 in Hu; lia].
    apply Z.bits_inj'; intros i Hi. destruct (Z.lt_ge_cases i 32).
    + by rewrite Z.mod_pow2_bits_low by lia.
    + by rewrite Z.mod_pow2_bits_high, Hb by lia.
Qed.

Lemma lxor_u32 a b : is_u32 a -> is_u32 b -> is_u32 (Z.lxor a b).
Proof.
  rewrite !is_u32_bits. intros [Ha Ha'] [Hb Hb']. split; [by apply Z.lxor_nonneg|].
  intros i Hi. by rewrite Z.lxor_spec, Ha', Hb' by done.
Qed.

Lemma lor_u32 a b : is_u32 a -> is_u32 b -> is_u32 (Z.lor a b).
Proof.
  rewrite !is_u32_bits. intros [Ha Ha'] [Hb Hb']. split; [by apply Z.lor_nonneg|].
  intros i Hi. by rewrite Z.lor_spec, Ha', Hb' by done.
Qed.

Lemma land_u32 a b : is_u32 a -> 0 <= b -> is_u32 (Z.land a b).
Proof.
  rewrite !is_u32_bits. intros [Ha Ha'] Hb. split; [apply Z.land_nonneg; by left|].
  intros i Hi. by rewrite Z.land_spec, Ha' by done.
Qed.

Lemma shiftr_u32 a k : is_u32 a -> 0 <= k -> is_u32 (Z.shiftr a k).
Proof.
  rewrite !is_u32_bits. intros [Ha Ha'] Hk. split; [by apply Z.shiftr_nonneg|].
  intros i Hi. rewrite Z.shiftr_spec, Ha' by lia. done.
Qed.

(** [rol32 x n] rotates a 32-bit word to the left. *)
Definition rol32 (x n : Z) : Z := Z.lor (u32 (Z.shiftl x n)) (Z.shiftr x (32 - n)).

Lemma rol32_bound x n : is_u32 x -> 0 <= n <= 32 -> is_u32 (rol32 x n).
Proof. intros. apply lor_u32; [apply u32_bound | apply shiftr_u32; [done | lia]]. Qed.

Lemma rol32_bits x n i : is_u32 x -> 0 < n < 32 -> 0 <= i < 32 ->
  Z.testbit (rol32 x n) i = Z.testbit x (if i <? n then i - n + 32 else i - n).
Proof.
  intros Hx Hn Hi. pose proof (proj1 (is_u32_bits x) Hx) as [_ Hb]. unfold rol32.
  rewrite Z.lor_spec, u32_bits, Z.shiftl_spec, Z.shiftr_spec by lia.
  rewrite (proj2 (Z.ltb_lt i 32)) by lia. simpl. destruct (Z.ltb_spec i n).
  - rewrite (Z.testbit_neg_r x (i - n)) by lia. simpl. f_equal. lia.
  - rewrite (Hb (i + (32 - n))) by lia. by rewrite orb_false_r.
Qed.

(** Words are equal if their 32 bits are. *)
Lemma u32_ext x y : is_u32 x -> is_u32 y ->
  (forall i, 0 <= i < 32 -> Z.testbit x i = Z.testbit y i) -> x = y.
Proof.
  intros [_ Hx]%is_u32_bits [_ Hy]%is_u32_bits Hxy. apply Z.bits_inj'; intros i Hi.
  destruct (Z.lt_ge_cases i 32); [by apply Hxy|]. by rewrite Hx, Hy.
Qed.

#[export] Hint Resolve lxor_u32 lor_u32 : uboss.

(** ** Blocks *)

Lemma zlen_mjoin {A} (n : nat) (bs : list (list A)) :
  Forall (fun b => length b = n) bs -> zlen (mjoin bs) = Z.of_nat n * zlen bs.
Proof.
  induction 1 as [|b bs Hb _ IH]; [by rewrite Z.mul_0_r|].
  change (mjoin (b :: bs)) with (b ++ mjoin bs). rewrite zlen_app, zlen_cons, IH.
  unfold zlen. lia.
Qed.

(** Every list is a sequence of blocks of length [n] and a rest. *)
Lemma split_chunks {A} (n : nat) (l : list A) : (0 < n)%nat ->
  exists bs tail, l = mjoin bs ++ tail /\ Forall (fun b => length b = n) bs /\
    (length tail < n)%nat.
Proof.
  intros Hn. remember (length l) as k eqn:Hk. revert l Hk.
  induction k as [k IH] using lt_wf_ind. intros l ->.
  destruct (decide (length l < n)%nat) as [|Hge]; [by exists [], l|].
  destruct (IH (length (drop n l))) with (l := drop n l)
    as (bs & tail & Hl & Hbs & Htail); [rewrite length_drop; lia | done |].
  exists (take n l :: bs), tail. split; [|split; [|done]].
  - change (mjoin (take n l :: bs)) with (take n l ++ mjoin bs).
    by rewrite <-app_assoc, <-Hl, take_drop.
  - constructor; [|done]. rewrite length_take. lia.
Qed.

(** The bits of a word made of bytes. *)
Lemma u8_bits_high z i : is_u8 z -> 8 <= i -> Z.testbit z i = false.
Proof.
  intros Hz Hi. replace z with (z mod 2 ^ 8) by (apply Z.mod_small; exact Hz).
  by rewrite Z.mod_pow2_bits_high by lia.
Qed.

Lemma le32_bits a b c d i : is_u8 a -> is_u8 b -> is_u8 c -> is_u8 d -> 0 <= i < 32 ->
  Z.testbit (le32 a b c d) i =
  if i <? 8 then Z.testbit a i else if i <? 16 then Z.testbit b (i - 8)
  else if i <? 24 then Z.testbit c (i - 16) else Z.testbit d (i - 24).
Proof.
  intros Ha Hb Hc Hd Hi. unfold le32. rewrite !Z.lor_spec, !Z.shiftl_spec by lia.
  zdec; repeat first [ rewrite (Z.testbit_neg_r b) by lia | rewrite (Z.testbit_neg_r c) by lia
    | rewrite (Z.testbit_neg_r d) by lia | rewrite (u8_bits_high a) by (done || lia)
    | rewrite (u8_bits_high b) by (done || lia) | rewrite (u8_bits_high c) by (done || lia) ];
    rewrite ?orb_false_r; try done; lia.
Qed.

(** ** Copying memory *)
Section memory.
Context {A : Type}.

(** [memcpy(&dst[off], src, len src)]. *)
Fixpoint memcpy (dst : list A) (off : Z) (src : list A) : option (list A) :=
  match src with
  | [] => Some dst
  | x :: src => dst ← dst.[off := x]; memcpy dst (off + 1) src
  end.

(** [data[i..i+n-1]]. *)
Definition slice (data : list A) (i n : Z) : option (list A) :=
  _ ← cassert ((0 <=? i) && (0 <=? n) && (i + n <=? zlen data));
  Some (take (Z.to_nat n) (drop (Z.to_nat i) data)).

Lemma memcpy_spec src : forall dst off, 0 <= off -> off + zlen src <= zlen dst ->
  memcpy dst off src = Some (take (Z.to_nat off) dst ++ src ++
    drop (Z.to_nat off + length src) dst).
Proof.
  induction src as [|x src IH]; intros dst off Ho Hl; cbn [memcpy].
  - simpl. by rewrite Nat.add_0_r, take_drop.
  - rewrite zlen_cons in Hl. pose proof (zlen_nonneg src).
    rewrite aset_Some by lia. cbn [mbind option_bind].
    rewrite IH by (rewrite ?zlen_insert; lia). f_equal.
    replace (Z.to_nat (off + 1)) with (S (Z.to_nat off)) by lia.
    assert (Z.to_nat off < length dst)%nat by (unfold zlen in *; lia).
    rewrite (take_S_r _ _ x) by (by rewrite list_lookup_insert_eq).
    rewrite take_insert_ge by lia. rewrite <-app_assoc. simpl. do 3 f_equal.
    rewrite drop_insert_lt by lia. f_equal. lia.
Qed.

Lemma slice_spec data i n : 0 <= i -> 0 <= n -> i + n <= zlen data ->
  slice data i n = Some (take (Z.to_nat n) (drop (Z.to_nat i) data)).
Proof.
  intros. unfold slice. rewrite !(proj2 (Z.leb_le _ _)) by lia. done.
Qed.
End memory.

Lemma slice_inv {A} (d c : list A) i n : slice d i n = Some c ->
  0 <= i /\ 0 <= n /\ i + n <= zlen d /\ c = take (Z.to_nat n) (drop (Z.to_nat i) d) /\ zlen c = n.
Proof.
  unfold slice. intros H. inv_opt. repeat match goal with H : _ && _ = true |- _ => apply andb_prop in H as [? ?] end.
  assert (0 <= i /\ 0 <= n /\ i + n <= zlen d) as (Hi & Hn & Hle) by lia. split_and!; try done.
  unfold zlen in *. rewrite length_take, length_drop. lia.
Qed.
