(* ===== verification/Buffer.v ===== *)
(** Buffers and streams of bytes: what a buffer holds at a place, what a write leaves as it
    was, and what is left of a stream. *)
From S2P Require Import Prelude Bytes.

Definition holds (buffer : list Z) (p : Z) (l : list Z) : Prop :=
  forall j x, l.[j] = Some x -> buffer.[p + j] = Some x.

Definition same_until (p : Z) (buffer buffer' : list Z) : Prop :=
  zlen buffer' = zlen buffer /\ forall j, j < p -> buffer'.[j] = buffer.[j].

Lemma same_until_refl p b : same_until p b b.
Proof. done. Qed.

Lemma same_until_trans p q b1 b2 b3 : p <= q -> same_until p b1 b2 -> same_until q b2 b3 -> same_until p b1 b3.
Proof. intros Hpq [H1 H2] [H3 H4]. split; [lia|]. intros j Hj. rewrite H4 by lia. by apply H2. Qed.

Lemma holds_nil b p : holds b p [].
Proof. intros j x H. apply aget_lt_Some in H. unfold zlen in H. cbn in H. lia. Qed.

Lemma holds_cons b p x l : b.[p] = Some x -> holds b (p + 1) l -> holds b p (x :: l).
Proof.
  intros Hx Hl j y Hj. apply aget_lt_Some in Hj as Hr. destruct (Z.eq_dec j 0) as [->|Hne].
  - rewrite aget_cons_0 in Hj. by rewrite Z.add_0_r, Hx.
  - rewrite aget_cons_S in Hj by lia. rewrite <-(Hl (j - 1) y Hj). f_equal. lia.
Qed.

Lemma holds_app b p l k : holds b p l -> holds b (p + zlen l) k -> holds b p (l ++ k).
Proof.
  intros Hl Hk j x Hj. destruct (Z.lt_ge_cases j (zlen l)) as [Hlt|Hge].
  - rewrite aget_app_l in Hj by done. by apply Hl.
  - rewrite aget_app_r in Hj by done. rewrite <-(Hk _ _ Hj). f_equal. lia.
Qed.

Lemma holds_same p q b b' l : same_until p b b' -> q + zlen l <= p -> holds b q l -> holds b' q l.
Proof. intros [_ Hs] Hle Hl j x Hj. apply aget_lt_Some in Hj as Hr. rewrite Hs by lia. by apply Hl. Qed.

Lemma holds_take b l : holds b 0 l -> zlen l <= zlen b -> take (length l) b = l.
Proof.
  intros Hl Hle. apply list_eq. intros i. destruct (Nat.lt_ge_cases i (length l)) as [Hlt|Hge].
  - rewrite lookup_take_lt by done. destruct (lookup_lt_is_Some_2 l i Hlt) as [x Hx]. rewrite Hx.
    rewrite <-aget_nat in Hx |- *. exact (Hl _ _ Hx).
  - rewrite lookup_take_ge by done. by rewrite lookup_ge_None_2.
Qed.

Lemma aset_same_until b p x b' : b.[p := x] = Some b' -> same_until p b b' /\ b'.[p] = Some x.
Proof.
  intros H. apply aset_inv in H as Hp. split; [split; [by eapply zlen_aset|]|].
  - intros j Hj. rewrite (aget_aset _ _ j _ _ H). destruct (decide (p = j)); [lia|done].
  - rewrite (aget_aset _ _ p _ _ H). by destruct (decide (p = p)).
Qed.

Definition same_from (p : Z) (buffer buffer' : list Z) : Prop := forall j, p <= j -> buffer'.[j] = buffer.[j].

Lemma memcpy_holds l : forall b p, 0 <= p -> p + zlen l <= zlen b ->
  exists b', memcpy b p l = Some b' /\ same_until p b b' /\ same_from (p + zlen l) b b' /\ holds b' p l.
Proof.
  induction l as [|x l IH]; intros b p Hp Hle; cbn [memcpy].
  { exists b. split_and!; [done|done|by intros j|apply holds_nil]. }
  rewrite zlen_cons in Hle. pose proof (zlen_nonneg l). destruct (b.[p := x]) as [b1|] eqn:E.
  - assert (same_from (p + 1) b b1) as Hf1 by (intros j Hj; rewrite (aget_aset _ _ j _ _ E); destruct (decide (p = j)); [lia|done]).
    apply aset_same_until in E as [Hs1 Hx]. destruct (IH b1 (p + 1)) as (b2 & E2 & Hs2 & Hf2 & Hl); [lia|destruct Hs1; lia|].
    exists b2. cbn [mbind option_bind]. split; [done|]. split; [eapply same_until_trans; [|done..]; lia|]. split.
    + intros j Hj. rewrite zlen_cons in Hj. rewrite Hf2 by lia. apply Hf1. lia.
    + apply holds_cons; [|done]. destruct Hs2 as [_ Hs2]. by rewrite Hs2 by lia.
  - rewrite aset_Some in E by lia. done.
Qed.

Lemma memcpy_app (l k : list Z) : forall b p, memcpy b p (l ++ k) = (memcpy b p l ≫= fun b' => memcpy b' (p + zlen l) k).
Proof.
  induction l as [|x l IH]; intros b p; cbn [memcpy app]; [cbn; by rewrite Z.add_0_r|].
  destruct (b.[p := x]) as [b1|]; [|done]. cbn [mbind option_bind]. rewrite IH, zlen_cons.
  replace (p + 1 + zlen l) with (p + (1 + zlen l)) by lia. done.
Qed.

(** What is left of the source at [s]. *)
Definition rest_at (src : list Z) (s : Z) (rest : list Z) : Prop := 0 <= s <= zlen src /\ drop (Z.to_nat s) src = rest.

Lemma rest_cons src s c rest : rest_at src s (c :: rest) -> src.[s] = Some c /\ rest_at src (s + 1) rest.
Proof.
  intros [Hs E]. split.
  - unfold aget. rewrite decide_True by lia. rewrite <-(Nat.add_0_r (Z.to_nat s)), <-lookup_drop, E. done.
  - pose proof (f_equal length E) as El. rewrite length_drop in El. cbn in El. unfold rest_at, zlen in *.
    split; [lia|]. rewrite Z2Nat.inj_add, <-drop_drop, E by lia. done.
Qed.

Lemma rest_nil src s : rest_at src s [] -> src.[s] = None.
Proof. intros [Hs E]. unfold aget. rewrite decide_True by lia. apply (f_equal length) in E. rewrite length_drop in E. cbn in E. apply lookup_ge_None_2. lia. Qed.

Lemma rest_drop src s rest n : 0 <= n <= zlen rest -> rest_at src s rest -> rest_at src (s + n) (drop (Z.to_nat n) rest).
Proof. intros Hn [Hs <-]. unfold rest_at, zlen in *. rewrite length_drop in Hn. split; [lia|]. rewrite drop_drop. f_equal. lia. Qed.

Lemma slice_rest_at src s rest n : rest_at src s rest -> 0 <= n <= zlen rest -> slice src s n = Some (take (Z.to_nat n) rest).
Proof.
  intros [Hs <-] Hn. unfold zlen in Hn. rewrite length_drop in Hn. apply slice_spec; unfold zlen in *; lia.
Qed.

Lemma rest_at_zlen stream i l : rest_at stream i l -> zlen l = zlen stream - i /\ 0 <= i.
Proof. intros [Hi <-]. unfold zlen in *. rewrite length_drop. lia. Qed.

Lemma rest_skip stream i l rest n : rest_at stream i (l ++ rest) -> n = zlen l -> rest_at stream (i + n) rest.
Proof.
  intros H ->. pose proof (zlen_nonneg rest). pose proof (zlen_nonneg l). pose proof (rest_drop stream i (l ++ rest) (zlen l) ltac:(rewrite zlen_app; lia) H) as Hd.
  unfold zlen in Hd at 2. by rewrite Nat2Z.id, drop_app_length in Hd.
Qed.

Lemma slice_prefix stream i l rest n : rest_at stream i (l ++ rest) -> n = zlen l -> slice stream i n = Some l.
Proof.
  intros H ->. pose proof (zlen_nonneg rest). pose proof (zlen_nonneg l). rewrite (slice_rest_at _ _ _ (zlen l) H) by (rewrite zlen_app; lia).
  unfold zlen. by rewrite Nat2Z.id, take_app_length.
Qed.

(** ** Writing behind a prefix

    [put pre tail l]: the buffer [pre ++ tail] once [l] is written behind [pre]. *)
Definition put (pre tail l : list Z) : list Z := pre ++ l ++ drop (length l) tail.

Lemma put_nil pre tail : put pre tail [] = pre ++ tail.
Proof. done. Qed.

Lemma put_assoc pre tail l : put pre tail l = (pre ++ l) ++ drop (length l) tail.
Proof. unfold put. by rewrite app_assoc. Qed.

Lemma put_after pre tail l k : put (pre ++ l) (drop (length l) tail) k = put pre tail (l ++ k).
Proof. unfold put. by rewrite length_app, <-!app_assoc, drop_drop. Qed.

Lemma zlen_put pre tail l : zlen l <= zlen tail -> zlen (put pre tail l) = zlen pre + zlen tail.
Proof. intros H. unfold put, zlen in *. rewrite !length_app, length_drop. lia. Qed.

Lemma zlen_drop_length {A} (l tail : list A) : zlen l <= zlen tail -> zlen (drop (length l) tail) = zlen tail - zlen l.
Proof. intros H. unfold zlen in *. rewrite length_drop. lia. Qed.

Lemma memcpy_at pre tail l p : p = zlen pre -> zlen l <= zlen tail -> memcpy (pre ++ tail) p l = Some (put pre tail l).
Proof.
  intros -> Hl. pose proof (zlen_nonneg pre). rewrite memcpy_spec by (rewrite ?zlen_app; lia). unfold put, zlen in *.
  rewrite Nat2Z.id, take_app_length, drop_app_add. done.
Qed.

Lemma memcpy_before (pre tail l : list Z) p : 0 <= p -> p + zlen l <= zlen pre ->
  memcpy (pre ++ tail) p l = (b ← memcpy pre p l; Some (b ++ tail)).
Proof.
  intros Hp Hl. pose proof (zlen_nonneg tail). rewrite !memcpy_spec by (rewrite ?zlen_app; lia). cbn [mbind option_bind].
  unfold zlen in *. rewrite take_app_le, drop_app_le by lia. by rewrite <-!app_assoc.
Qed.

Lemma slice_behind (pre l tail : list Z) p n : p = zlen pre -> n = zlen l -> slice (pre ++ l ++ tail) p n = Some l.
Proof.
  intros -> ->. pose proof (zlen_nonneg pre). pose proof (zlen_nonneg l). pose proof (zlen_nonneg tail).
  rewrite slice_spec by (rewrite ?zlen_app; lia). unfold zlen. by rewrite !Nat2Z.id, drop_app_length, take_app_length.
Qed.

(** The first bytes of a tail may be written last. *)
Lemma memcpy_front (pre tail l k : list Z) p : p = zlen pre -> zlen k + zlen l <= zlen tail ->
  memcpy (put (pre ++ take (length k) tail) (drop (length k) tail) l) p k = Some (put pre tail (k ++ l)).
Proof.
  intros -> Hl. pose proof (zlen_nonneg l).
  assert (length (take (length k) tail) = length k) as Ht by (rewrite length_take; unfold zlen in *; lia).
  unfold put at 1. rewrite <-app_assoc. rewrite memcpy_at; [|done|rewrite zlen_app; unfold zlen in *; lia].
  f_equal. unfold put. rewrite <-app_assoc. do 2 f_equal. rewrite length_app, <-(drop_drop tail).
  rewrite <-Ht at 1. by rewrite drop_app_length.
Qed.

Lemma memcpy_next (pre tail l k : list Z) p : p = zlen pre + zlen l -> zlen l + zlen k <= zlen tail ->
  memcpy (put pre tail l) p k = Some (put pre tail (l ++ k)).
Proof.
  intros -> Hl. pose proof (zlen_nonneg k). rewrite put_assoc, <-put_after.
  apply memcpy_at; [by rewrite zlen_app|]. rewrite zlen_drop_length; lia.
Qed.

Lemma memcpy_fails (l : list Z) : forall b p, l <> [] -> zlen b < p + zlen l -> memcpy b p l = None.
Proof.
  induction l as [|x l IH]; intros b p Hne Hlt; [done|]. cbn [memcpy]. rewrite zlen_cons in Hlt.
  destruct (b.[p := x]) as [b1|] eqn:E; [|done]. cbn [mbind option_bind]. pose proof (zlen_aset _ _ _ _ E) as Hlen.
  apply aset_inv in E as Hr. destruct l as [|y l]; [change (zlen (@nil Z)) with 0 in Hlt; lia|]. apply IH; [done|lia].
Qed.

Lemma zlen_memcpy (l : list Z) : forall b p b', memcpy b p l = Some b' -> zlen b' = zlen b.
Proof.
  induction l as [|x l IH]; intros b p b' H; cbn [memcpy] in H; [by injection H as ->|].
  destruct (b.[p := x]) as [b1|] eqn:E; [|done]. apply zlen_aset in E. apply IH in H. lia.
Qed.

(** ** Words in little-endian order *)

(** The low [n] bytes of a word, and back. *)
Fixpoint le_bytes (n : nat) (v : Z) : list Z :=
  match n with O => [] | S n => Z.land v 0xff :: le_bytes n (Z.shiftr v 8) end.

Fixpoint le_value (l : list Z) : Z :=
  match l with [] => 0 | b :: l => b + 2 ^ 8 * le_value l end.

Lemma zlen_le_word n v : zlen (le_bytes n v) = Z.of_nat n.
Proof. revert v. induction n as [|n IH]; intros v; cbn [le_bytes]; [done|]. rewrite zlen_cons, IH. lia. Qed.

Lemma le_bytes_is_bytes n v : is_bytes (le_bytes n v).
Proof.
  revert v. induction n as [|n IH]; intros v; cbn [le_bytes]; [constructor|]. constructor; [|apply IH].
  rewrite land_255. unfold is_u8. apply Z.mod_pos_bound. lia.
Qed.

Lemma le_value_bound l : is_bytes l -> 0 <= le_value l < 2 ^ (8 * zlen l).
Proof.
  induction 1 as [|b l Hb _ IH]; [done|]. cbn [le_value]. rewrite zlen_cons, Z.mul_add_distr_l, Z.pow_add_r by (pose proof (zlen_nonneg l); lia).
  unfold is_u8 in Hb. change (2 ^ (8 * 1)) with (2 ^ 8). nia.
Qed.

Lemma le_value_le_bytes n v : 0 <= v < 2 ^ (8 * Z.of_nat n) -> le_value (le_bytes n v) = v.
Proof.
  revert v. induction n as [|n IH]; intros v Hv; cbn [le_bytes le_value].
  - change (2 ^ (8 * Z.of_nat 0)) with 1 in Hv. lia.
  - rewrite Nat2Z.inj_succ, Z.mul_succ_r, Z.pow_add_r in Hv by lia. rewrite land_255, Z.shiftr_div_pow2 by lia.
    rewrite IH; [|Z.div_mod_to_equations; nia]. pose proof (Z.div_mod v (2 ^ 8) ltac:(lia)). lia.
Qed.

Lemma le_bytes_le_value l : is_bytes l -> le_bytes (length l) (le_value l) = l.
Proof.
  induction 1 as [|b l Hb Hl IH]; [done|]. cbn [length le_bytes le_value]. unfold is_u8 in Hb.
  rewrite land_255, Z.shiftr_div_pow2 by lia. rewrite (Z.mul_comm (2 ^ 8)), Z.mod_add, Z.mod_small by lia.
  rewrite Z.div_add, Z.div_small, Z.add_0_l by lia. by rewrite IH.
Qed.

Lemma le_bytes_4 v : le_bytes 4 v = put_le32 v.
Proof. unfold put_le32. cbn [le_bytes]. rewrite !Z.shiftr_shiftr by lia. reflexivity. Qed.

Lemma le_value_app a b : le_value (a ++ b) = le_value a + 2 ^ (8 * zlen a) * le_value b.
Proof.
  induction a as [|x a IH]; cbn [app le_value]; [change (zlen (@nil Z)) with 0; lia|].
  rewrite IH, zlen_cons, (Z.mul_add_distr_l 8), Z.pow_add_r by (pose proof (zlen_nonneg a); lia). change (2 ^ (8 * 1)) with (2 ^ 8). lia.
Qed.

Lemma le_bytes_all b k : is_bytes b -> zlen b = Z.of_nat k -> le_bytes k (le_value b) = b.
Proof. intros Hb Hk. rewrite <-(le_bytes_le_value b Hb) at 2. f_equal. unfold zlen in Hk. lia. Qed.
