(* ===== verification/Des.v ===== *)
(** lib/crypt/lua-crypt.c, lines 11-436: DES with the padding of ISO 7816-4.

    The words are 32-bit ([u32] after the left shifts); [SK] is the array of 32
    subkeys, which [DES_ROUND] walks with the pointer [SK++].  The results of
    [ldesencode] and [ldesdecode] are those of their Lua callers. *)
From stdpp Require Import strings.
From S2P Require Import Prelude Bytes.

(** ** Tables *)

Definition SB1 : list Z := [
   0x01010400; 0x00000000; 0x00010000; 0x01010404;
   0x01010004; 0x00010404; 0x00000004; 0x00010000;
   0x00000400; 0x01010400; 0x01010404; 0x00000400;
   0x01000404; 0x01010004; 0x01000000; 0x00000004;
   0x00000404; 0x01000400; 0x01000400; 0x00010400;
   0x00010400; 0x01010000; 0x01010000; 0x01000404;
   0x00010004; 0x01000004; 0x01000004; 0x00010004;
   0x00000000; 0x00000404; 0x00010404; 0x01000000;
   0x00010000; 0x01010404; 0x00000004; 0x01010000;
   0x01010400; 0x01000000; 0x01000000; 0x00000400;
   0x01010004; 0x00010000; 0x00010400; 0x01000004;
   0x00000400; 0x00000004; 0x01000404; 0x00010404;
   0x01010404; 0x00010004; 0x01010000; 0x01000404;
   0x01000004; 0x00000404; 0x00010404; 0x01010400;
   0x00000404; 0x01000400; 0x01000400; 0x00000000;
   0x00010004; 0x00010400; 0x00000000; 0x01010004].

Definition SB2 : list Z := [
   0x80108020; 0x80008000; 0x00008000; 0x00108020;
   0x00100000; 0x00000020; 0x80100020; 0x80008020;
   0x80000020; 0x80108020; 0x80108000; 0x80000000;
   0x80008000; 0x00100000; 0x00000020; 0x80100020;
   0x00108000; 0x00100020; 0x80008020; 0x00000000;
   0x80000000; 0x00008000; 0x00108020; 0x80100000;
   0x00100020; 0x80000020; 0x00000000; 0x00108000;
   0x00008020; 0x80108000; 0x80100000; 0x00008020;
   0x00000000; 0x00108020; 0x80100020; 0x00100000;
   0x80008020; 0x80100000; 0x80108000; 0x00008000;
   0x80100000; 0x80008000; 0x00000020; 0x80108020;
   0x00108020; 0x00000020; 0x00008000; 0x80000000;
   0x00008020; 0x80108000; 0x00100000; 0x80000020;
   0x00100020; 0x80008020; 0x80000020; 0x00100020;
   0x00108000; 0x00000000; 0x80008000; 0x00008020;
   0x80000000; 0x80100020; 0x80108020; 0x00108000].

Definition SB3 : list Z := [
   0x00000208; 0x08020200; 0x00000000; 0x08020008;
   0x08000200; 0x00000000; 0x00020208; 0x08000200;
   0x00020008; 0x08000008; 0x08000008; 0x00020000;
   0x08020208; 0x00020008; 0x08020000; 0x00000208;
   0x08000000; 0x00000008; 0x08020200; 0x00000200;
   0x00020200; 0x08020000; 0x08020008; 0x00020208;
   0x08000208; 0x00020200; 0x00020000; 0x08000208;
   0x00000008; 0x08020208; 0x00000200; 0x08000000;
   0x08020200; 0x08000000; 0x00020008; 0x00000208;
   0x00020000; 0x08020200; 0x08000200; 0x00000000;
   0x00000200; 0x00020008; 0x08020208; 0x08000200;
   0x08000008; 0x00000200; 0x00000000; 0x08020008;
   0x08000208; 0x00020000; 0x08000000; 0x08020208;
   0x00000008; 0x00020208; 0x00020200; 0x08000008;
   0x08020000; 0x08000208; 0x00000208; 0x08020000;
   0x00020208; 0x00000008; 0x08020008; 0x00020200].

Definition SB4 : list Z := [
   0x00802001; 0x00002081; 0x00002081; 0x00000080;
   0x00802080; 0x00800081; 0x00800001; 0x00002001;
   0x00000000; 0x00802000; 0x00802000; 0x00802081;
   0x00000081; 0x00000000; 0x00800080; 0x00800001;
   0x00000001; 0x00002000; 0x00800000; 0x00802001;
   0x00000080; 0x00800000; 0x00002001; 0x00002080;
   0x00800081; 0x00000001; 0x00002080; 0x00800080;
   0x00002000; 0x00802080; 0x00802081; 0x00000081;
   0x00800080; 0x00800001; 0x00802000; 0x00802081;
   0x00000081; 0x00000000; 0x00000000; 0x00802000;
   0x00002080; 0x00800080; 0x00800081; 0x00000001;
   0x00802001; 0x00002081; 0x00002081; 0x00000080;
   0x00802081; 0x00000081; 0x00000001; 0x00002000;
   0x00800001; 0x00002001; 0x00802080; 0x00800081;
   0x00002001; 0x00002080; 0x00800000; 0x00802001;
   0x00000080; 0x00800000; 0x00002000; 0x00802080].

Definition SB5 : list Z := [
   0x00000100; 0x02080100; 0x02080000; 0x42000100;
   0x00080000; 0x00000100; 0x40000000; 0x02080000;
   0x40080100; 0x00080000; 0x02000100; 0x40080100;
   0x42000100; 0x42080000; 0x00080100; 0x40000000;
   0x02000000; 0x40080000; 0x40080000; 0x00000000;
   0x40000100; 0x42080100; 0x42080100; 0x02000100;
   0x42080000; 0x40000100; 0x00000000; 0x42000000;
   0x02080100; 0x02000000; 0x42000000; 0x00080100;
   0x00080000; 0x42000100; 0x00000100; 0x02000000;
   0x40000000; 0x02080000; 0x42000100; 0x40080100;
   0x02000100; 0x40000000; 0x42080000; 0x02080100;
   0x40080100; 0x00000100; 0x02000000; 0x42080000;
   0x42080100; 0x00080100; 0x42000000; 0x42080100;
   0x02080000; 0x00000000; 0x40080000; 0x42000000;
   0x00080100; 0x02000100; 0x40000100; 0x00080000;
   0x00000000; 0x40080000; 0x02080100; 0x40000100].

Definition SB6 : list Z := [
   0x20000010; 0x20400000; 0x00004000; 0x20404010;
   0x20400000; 0x00000010; 0x20404010; 0x00400000;
   0x20004000; 0x00404010; 0x00400000; 0x20000010;
   0x00400010; 0x20004000; 0x20000000; 0x00004010;
   0x00000000; 0x00400010; 0x20004010; 0x00004000;
   0x00404000; 0x20004010; 0x00000010; 0x20400010;
   0x20400010; 0x00000000; 0x00404010; 0x20404000;
   0x00004010; 0x00404000; 0x20404000; 0x20000000;
   0x20004000; 0x00000010; 0x20400010; 0x00404000;
   0x20404010; 0x00400000; 0x00004010; 0x20000010;
   0x00400000; 0x20004000; 0x20000000; 0x00004010;
   0x20000010; 0x20404010; 0x00404000; 0x20400000;
   0x00404010; 0x20404000; 0x00000000; 0x20400010;
   0x00000010; 0x00004000; 0x20400000; 0x00404010;
   0x00004000; 0x00400010; 0x20004010; 0x00000000;
   0x20404000; 0x20000000; 0x00400010; 0x20004010].

Definition SB7 : list Z := [
   0x00200000; 0x04200002; 0x04000802; 0x00000000;
   0x00000800; 0x04000802; 0x00200802; 0x04200800;
   0x04200802; 0x00200000; 0x00000000; 0x04000002;
   0x00000002; 0x04000000; 0x04200002; 0x00000802;
   0x04000800; 0x00200802; 0x00200002; 0x04000800;
   0x04000002; 0x04200000; 0x04200800; 0x00200002;
   0x04200000; 0x00000800; 0x00000802; 0x04200802;
   0x00200800; 0x00000002; 0x04000000; 0x00200800;
   0x04000000; 0x00200800; 0x00200000; 0x04000802;
   0x04000802; 0x04200002; 0x04200002; 0x00000002;
   0x00200002; 0x04000000; 0x04000800; 0x00200000;
   0x04200800; 0x00000802; 0x00200802; 0x04200800;
   0x00000802; 0x04000002; 0x04200802; 0x04200000;
   0x00200800; 0x00000000; 0x00000002; 0x04200802;
   0x00000000; 0x00200802; 0x04200000; 0x00000800;
   0x04000002; 0x04000800; 0x00000800; 0x00200002].

Definition SB8 : list Z := [
   0x10001040; 0x00001000; 0x00040000; 0x10041040;
   0x10000000; 0x10001040; 0x00000040; 0x10000000;
   0x00040040; 0x10040000; 0x10041040; 0x00041000;
   0x10041000; 0x00041040; 0x00001000; 0x00000040;
   0x10040000; 0x10000040; 0x10001000; 0x00001040;
   0x00041000; 0x00040040; 0x10040040; 0x10041000;
   0x00001040; 0x00000000; 0x00000000; 0x10040040;
   0x10000040; 0x10001000; 0x00041040; 0x00040000;
   0x00041040; 0x00040000; 0x10041000; 0x00001000;
   0x00000040; 0x10040040; 0x00001000; 0x00041040;
   0x10001000; 0x00000040; 0x10000040; 0x10040000;
   0x10040040; 0x10000000; 0x00040000; 0x10001040;
   0x00000000; 0x10041040; 0x00040040; 0x10000040;
   0x10040000; 0x10001000; 0x10001040; 0x00000000;
   0x10041040; 0x00041000; 0x00041000; 0x00001040;
   0x00001040; 0x00040040; 0x10000000; 0x10041000].

Definition LHs : list Z := [
   0x00000000; 0x00000001; 0x00000100; 0x00000101;
   0x00010000; 0x00010001; 0x00010100; 0x00010101;
   0x01000000; 0x01000001; 0x01000100; 0x01000101;
   0x01010000; 0x01010001; 0x01010100; 0x01010101].

Definition RHs : list Z := [
   0x00000000; 0x01000000; 0x00010000; 0x01010000;
   0x00000100; 0x01000100; 0x00010100; 0x01010100;
   0x00000001; 0x01000001; 0x00010001; 0x01010001;
   0x00000101; 0x01000101; 0x00010101; 0x01010101].

(** A table read with a masked index ([& 0x3F], [& 0xF]): always in range. *)
Definition tab (t : list Z) (i : Z) : Z := nth (Z.to_nat i) t 0.

(** ** The permutations *)

(** One exchange [T = ((X >> k) ^ Y) & m; Y ^= T; X ^= (T << k);]: the new
    [(X, Y)]. *)
Definition exchange (k m : Z) (XY : Z * Z) : Z * Z :=
  let '(X, Y) := XY in
  let T := Z.land (Z.lxor (Z.shiftr X k) Y) m in
  (Z.lxor X (u32 (Z.shiftl T k)), Z.lxor Y T).

Definition swap_pair (XY : Z * Z) : Z * Z := (XY.2, XY.1).

(** [((X << 1) | (X >> 31)) & 0xFFFFFFFF] and
    [((X << 31) | (X >> 1)) & 0xFFFFFFFF]. *)
Definition rotl1 (X : Z) : Z :=
  Z.land (Z.lor (u32 (Z.shiftl X 1)) (Z.shiftr X 31)) 0xFFFFFFFF.
Definition rotr1 (X : Z) : Z :=
  Z.land (Z.lor (u32 (Z.shiftl X 31)) (Z.shiftr X 1)) 0xFFFFFFFF.

(** [DES_IP(X,Y)].  The lines that exchange with [Y >> k] are [exchange] on the
    swapped pair. *)
Definition DES_IP (XY : Z * Z) : Z * Z :=
  let XY := exchange 4 0x0F0F0F0F XY in
  let XY := exchange 16 0x0000FFFF XY in
  let XY := swap_pair (exchange 2 0x33333333 (swap_pair XY)) in
  let XY := swap_pair (exchange 8 0x00FF00FF (swap_pair XY)) in
  let XY := (XY.1, rotl1 XY.2) in
  let XY := exchange 0 0xAAAAAAAA XY in
  (rotl1 XY.1, XY.2).

(** [DES_FP(X,Y)]. *)
Definition DES_FP (XY : Z * Z) : Z * Z :=
  let XY := (rotr1 XY.1, XY.2) in
  let XY := exchange 0 0xAAAAAAAA XY in
  let XY := (XY.1, rotr1 XY.2) in
  let XY := swap_pair (exchange 8 0x00FF00FF (swap_pair XY)) in
  let XY := swap_pair (exchange 2 0x33333333 (swap_pair XY)) in
  let XY := exchange 16 0x0000FFFF XY in
  exchange 4 0x0F0F0F0F XY.

(** ** Rounds *)

(** The value [DES_ROUND(X,Y)] xors into [Y], from the two subkeys at [SK]. *)
Definition des_f (k0 k1 X : Z) : Z :=
  let T := Z.lxor k0 X in
  let y := Z.lxor (Z.lxor (Z.lxor
             (tab SB8 (Z.land T 0x3F))
             (tab SB6 (Z.land (Z.shiftr T 8) 0x3F)))
             (tab SB4 (Z.land (Z.shiftr T 16) 0x3F)))
             (tab SB2 (Z.land (Z.shiftr T 24) 0x3F)) in
  let T := Z.lxor k1 (Z.lor (u32 (Z.shiftl X 28)) (Z.shiftr X 4)) in
  Z.lxor y (Z.lxor (Z.lxor (Z.lxor
             (tab SB7 (Z.land T 0x3F))
             (tab SB5 (Z.land (Z.shiftr T 8) 0x3F)))
             (tab SB3 (Z.land (Z.shiftr T 16) 0x3F)))
             (tab SB1 (Z.land (Z.shiftr T 24) 0x3F))).

(** [DES_ROUND(Y, X)] and [DES_ROUND(X, Y)] take turns: one round maps the pair
    of the words to change and to read to the pair of the next round. *)
Definition DES_ROUND (SK : list Z) (p : Z) (XY : Z * Z) : option (Z * Z) :=
  k0 ← SK.[p];
  k1 ← SK.[p + 1];
  Some (XY.2, Z.lxor XY.1 (des_f k0 k1 XY.2)).

(** [n] rounds from the subkeys at [p] on. *)
Fixpoint des_rounds (n : nat) (SK : list Z) (p : Z) (XY : Z * Z) : option (Z * Z) :=
  match n with
  | O => Some XY
  | S n => XY ← DES_ROUND SK p XY; des_rounds n SK (p + 2) XY
  end.

(** [GET_UINT32]. *)
Definition GET_UINT32 (b : list Z) (i : Z) : option Z :=
  b0 ← b.[i]; b1 ← b.[i + 1]; b2 ← b.[i + 2]; b3 ← b.[i + 3];
  Some (be32 b0 b1 b2 b3).

(** [des_crypt(SK, input+off, output)]: the eight bytes it writes.  After the
    sixteen rounds [X] and [Y] are in place again. *)
Definition des_crypt (SK input : list Z) (off : Z) : option (list Z) :=
  X ← GET_UINT32 input off;
  Y ← GET_UINT32 input (off + 4);
  XY ← des_rounds 16 SK 0 (DES_IP (X, Y));
  let YX := DES_FP (swap_pair XY) in
  Some (put_be32 YX.1 ++ put_be32 YX.2).

(** ** Key schedule *)

Definition rot28 (n X : Z) : Z :=
  Z.land (Z.lor (u32 (Z.shiftl X n)) (Z.shiftr X (28 - n))) 0x0FFFFFFF.

(** [a | b | ...] *)
Definition lors (l : list Z) : Z := fold_left Z.lor l 0.

(** Permuted choice 1. *)
Definition des_pc1 (X Y : Z) : Z * Z :=
  let '(Y, X) := exchange 4 0x0F0F0F0F (Y, X) in
  let '(Y, X) := exchange 0 0x10101010 (Y, X) in
  let X' := lors [u32 (Z.shiftl (tab LHs (Z.land X 0xF)) 3);
    u32 (Z.shiftl (tab LHs (Z.land (Z.shiftr X 8) 0xF)) 2);
    u32 (Z.shiftl (tab LHs (Z.land (Z.shiftr X 16) 0xF)) 1);
    (tab LHs (Z.land (Z.shiftr X 24) 0xF));
    u32 (Z.shiftl (tab LHs (Z.land (Z.shiftr X 5) 0xF)) 7);
    u32 (Z.shiftl (tab LHs (Z.land (Z.shiftr X 13) 0xF)) 6);
    u32 (Z.shiftl (tab LHs (Z.land (Z.shiftr X 21) 0xF)) 5);
    u32 (Z.shiftl (tab LHs (Z.land (Z.shiftr X 29) 0xF)) 4)] in
  let Y' := lors [u32 (Z.shiftl (tab RHs (Z.land (Z.shiftr Y 1) 0xF)) 3);
    u32 (Z.shiftl (tab RHs (Z.land (Z.shiftr Y 9) 0xF)) 2);
    u32 (Z.shiftl (tab RHs (Z.land (Z.shiftr Y 17) 0xF)) 1);
    (tab RHs (Z.land (Z.shiftr Y 25) 0xF));
    u32 (Z.shiftl (tab RHs (Z.land (Z.shiftr Y 4) 0xF)) 7);
    u32 (Z.shiftl (tab RHs (Z.land (Z.shiftr Y 12) 0xF)) 6);
    u32 (Z.shiftl (tab RHs (Z.land (Z.shiftr Y 20) 0xF)) 5);
    u32 (Z.shiftl (tab RHs (Z.land (Z.shiftr Y 28) 0xF)) 4)] in
  (Z.land X' 0x0FFFFFFF, Z.land Y' 0x0FFFFFFF).

(** The first subkey of a round. *)
Definition des_sk0 (X Y : Z) : Z :=
  lors [Z.land (u32 (Z.shiftl X 4)) 0x24000000;
    Z.land (u32 (Z.shiftl X 28)) 0x10000000;
    Z.land (u32 (Z.shiftl X 14)) 0x08000000;
    Z.land (u32 (Z.shiftl X 18)) 0x02080000;
    Z.land (u32 (Z.shiftl X 6)) 0x01000000;
    Z.land (u32 (Z.shiftl X 9)) 0x00200000;
    Z.land (Z.shiftr X 1) 0x00100000;
    Z.land (u32 (Z.shiftl X 10)) 0x00040000;
    Z.land (u32 (Z.shiftl X 2)) 0x00020000;
    Z.land (Z.shiftr X 10) 0x00010000;
    Z.land (Z.shiftr Y 13) 0x00002000;
    Z.land (Z.shiftr Y 4) 0x00001000;
    Z.land (u32 (Z.shiftl Y 6)) 0x00000800;
    Z.land (Z.shiftr Y 1) 0x00000400;
    Z.land (Z.shiftr Y 14) 0x00000200;
    Z.land Y 0x00000100;
    Z.land (Z.shiftr Y 5) 0x00000020;
    Z.land (Z.shiftr Y 10) 0x00000010;
    Z.land (Z.shiftr Y 3) 0x00000008;
    Z.land (Z.shiftr Y 18) 0x00000004;
    Z.land (Z.shiftr Y 26) 0x00000002;
    Z.land (Z.shiftr Y 24) 0x00000001].

(** The second subkey of a round. *)
Definition des_sk1 (X Y : Z) : Z :=
  lors [Z.land (u32 (Z.shiftl X 15)) 0x20000000;
    Z.land (u32 (Z.shiftl X 17)) 0x10000000;
    Z.land (u32 (Z.shiftl X 10)) 0x08000000;
    Z.land (u32 (Z.shiftl X 22)) 0x04000000;
    Z.land (Z.shiftr X 2) 0x02000000;
    Z.land (u32 (Z.shiftl X 1)) 0x01000000;
    Z.land (u32 (Z.shiftl X 16)) 0x00200000;
    Z.land (u32 (Z.shiftl X 11)) 0x00100000;
    Z.land (u32 (Z.shiftl X 3)) 0x00080000;
    Z.land (Z.shiftr X 6) 0x00040000;
    Z.land (u32 (Z.shiftl X 15)) 0x00020000;
    Z.land (Z.shiftr X 4) 0x00010000;
    Z.land (Z.shiftr Y 2) 0x00002000;
    Z.land (u32 (Z.shiftl Y 8)) 0x00001000;
    Z.land (Z.shiftr Y 14) 0x00000808;
    Z.land (Z.shiftr Y 9) 0x00000400;
    Z.land Y 0x00000200;
    Z.land (u32 (Z.shiftl Y 7)) 0x00000100;
    Z.land (Z.shiftr Y 7) 0x00000020;
    Z.land (Z.shiftr Y 3) 0x00000011;
    Z.land (u32 (Z.shiftl Y 2)) 0x00000004;
    Z.land (Z.shiftr Y 21) 0x00000002].

(** The loop over the rounds [i] of [des_main_ks]. *)
Fixpoint des_subkeys (n : nat) (i : Z) (X Y : Z) : list Z :=
  match n with
  | O => []
  | S n =>
      let s := if (i <? 2) || (i =? 8) || (i =? 15) then 1 else 2 in
      let X := rot28 s X in
      let Y := rot28 s Y in
      des_sk0 X Y :: des_sk1 X Y :: des_subkeys n (i + 1) X Y
  end.

Definition des_main_ks (key : list Z) : option (list Z) :=
  X ← GET_UINT32 key 0;
  Y ← GET_UINT32 key 4;
  let '(X, Y) := des_pc1 X Y in
  Some (des_subkeys 16 0 X Y).

(** [des_key]. *)
Definition des_key (key : list Z) : res (list Z) :=
  if zlen key =? 8 then lift (des_main_ks key)
  else Err "Invalid key size %d, need 8 bytes".

(** ** Texts *)

(** [for (i=0;i<n;i+=8) des_crypt(SK, text+i, buffer+i);] *)
Fixpoint crypt_blocks (fuel : nat) (SK text : list Z) (i n : Z)
    : option (list Z * Z) :=
  match fuel with
  | O => None
  | S fuel =>
      if i <? n then
        b ← des_crypt SK text i;
        '(rest, j) ← crypt_blocks fuel SK text (i + 8) n;
        Some (b ++ rest, j)
      else Some ([], i)
  end.

(** The eight bytes of [tail]: the last bytes of the text, 0x80 and zeros. *)
Fixpoint pad_tail (n : nat) (j i bytes : Z) (text : list Z) : option (list Z) :=
  match n with
  | O => Some []
  | S n =>
      c ← (if j <? bytes then text.[i + j]
           else Some (if j =? bytes then 0x80 else 0));
      rest ← pad_tail n (j + 1) i bytes text;
      Some (c :: rest)
  end.

(** The fuel is the number of blocks. *)
Definition block_fuel (text : list Z) : nat := S (Z.to_nat (zlen text / 8)).

Definition ldesencode (key text : list Z) : res (list Z) :=
  SK ← des_key key;
  '(buffer, i) ← lift (crypt_blocks (block_fuel text) SK text 0 (s32 (zlen text) - 7));
  tail ← lift (pad_tail 8 0 i (s32 (zlen text - i)) text);
  last ← lift (des_crypt SK tail 0);
  Ok (buffer ++ last).

(** The subkeys in the reverse order of the rounds. *)
Fixpoint reverse_keys (n : nat) (i : Z) (ESK : list Z) : option (list Z) :=
  match n with
  | O => Some []
  | S n =>
      k0 ← ESK.[30 - i];
      k1 ← ESK.[31 - i];
      rest ← reverse_keys n (i + 2) ESK;
      Some (k0 :: k1 :: rest)
  end.

(** [for (i=textsz-1;i>=textsz-8;i--)]: [textsz] is a [size_t], so the
    comparison is unsigned and [-1 >= 0] holds.  The result is the padding. *)
Fixpoint scan_padding (fuel : nat) (buffer : list Z) (i textsz padding : Z) : res Z :=
  match fuel with
  | O => Ub
  | S fuel =>
      if u64 (textsz - 8) <=? u64 i then
        c ← lift buffer.[i];
        if c =? 0 then scan_padding fuel buffer (i - 1) textsz (padding + 1)
        else if c =? 0x80 then Ok padding
        else Err "Invalid des crypt text"
      else Ok padding
  end.

Definition ldesdecode (key text : list Z) : res (list Z) :=
  ESK ← des_key key;
  SK ← lift (reverse_keys 16 0 ESK);
  let textsz := zlen text in
  if negb (Z.land textsz 7 =? 0) || (textsz =? 0)
  then Err "Invalid des crypt text length %d"
  else
    '(buffer, _) ← lift (crypt_blocks (block_fuel text) SK text 0 textsz);
    padding ← scan_padding 10 buffer (textsz - 1) textsz 1;
    if 8 <? padding then Err "Invalid des crypt text"
    else Ok (take (Z.to_nat (textsz - padding)) buffer).

(** ** The permutations are inverse *)

Definition u32_pair (XY : Z * Z) : Prop := is_u32 XY.1 /\ is_u32 XY.2.

Lemma lxor_cancel_mid a b t : Z.lxor (Z.lxor a t) (Z.lxor b t) = Z.lxor a b.
Proof.
  apply Z.bits_inj'; intros i Hi. rewrite !Z.lxor_spec.
  by destruct (Z.testbit a i), (Z.testbit b i), (Z.testbit t i).
Qed.

Lemma exchange_involutive k m XY : 0 <= k <= 32 -> 0 <= m < 2 ^ (32 - k) ->
  exchange k m (exchange k m XY) = XY.
Proof.
  intros Hk Hm. destruct XY as [X Y]. unfold exchange.
  set (T := Z.land (Z.lxor (Z.shiftr X k) Y) m).
  assert (0 <= T < 2 ^ (32 - k)) as HT.
  { subst T. assert (0 <= Z.land (Z.lxor (Z.shiftr X k) Y) m) by (apply Z.land_nonneg; lia).
    split; [done|]. rewrite Z.land_comm. apply Z.le_lt_trans with m; [|lia].
    apply Z.ldiff_le; [lia|]. apply Z.bits_inj'; intros i Hi.
    rewrite Z.ldiff_spec, Z.land_spec, Z.bits_0.
    by destruct (Z.testbit m i); simpl; rewrite ?andb_false_r. }
  assert (u32 (Z.shiftl T k) = Z.shiftl T k) as ->.
  { apply u32_small. unfold is_u32. rewrite Z.shiftl_mul_pow2 by lia.
    replace (2 ^ 32) with (2 ^ (32 - k) * 2 ^ k) by (rewrite <-Z.pow_add_r by lia; f_equal; lia).
    pose proof (Z.pow_pos_nonneg 2 k). nia. }
  assert (Z.land (Z.lxor (Z.shiftr (Z.lxor X (Z.shiftl T k)) k) (Z.lxor Y T)) m = T) as ->.
  { rewrite Z.shiftr_lxor, Z.shiftr_shiftl_l, Z.sub_diag, Z.shiftl_0_r by lia.
    rewrite lxor_cancel_mid. done. }
  rewrite u32_small.
  2: { unfold is_u32. rewrite Z.shiftl_mul_pow2 by lia.
    replace (2 ^ 32) with (2 ^ (32 - k) * 2 ^ k) by (rewrite <-Z.pow_add_r by lia; f_equal; lia).
    pose proof (Z.pow_pos_nonneg 2 k). nia. }
  by rewrite !Z.lxor_assoc, !Z.lxor_nilpotent, !Z.lxor_0_r.
Qed.

Lemma exchange_u32 k m XY : 0 <= m -> is_u32 m -> u32_pair XY -> u32_pair (exchange k m XY).
Proof.
  destruct XY as [X Y]. intros Hm Hm' [HX HY]. split; cbn [exchange fst snd] in *.
  - apply lxor_u32; [done | apply u32_bound].
  - apply lxor_u32; [done|]. rewrite Z.land_comm.
    apply is_u32_bits. apply is_u32_bits in Hm' as [_ Hb].
    split; [apply Z.land_nonneg; by left|]. intros i Hi. by rewrite Z.land_spec, Hb.
Qed.

Lemma rotl1_rol X : is_u32 X -> rotl1 X = rol32 X 1.
Proof.
  intros HX. unfold rotl1. change 0xFFFFFFFF with (2 ^ 32 - 1). rewrite land_mask by lia.
  apply Z.mod_small. apply (rol32_bound X 1); [done | lia].
Qed.

Lemma rotr1_rol X : is_u32 X -> rotr1 X = rol32 X 31.
Proof.
  intros HX. unfold rotr1. change 0xFFFFFFFF with (2 ^ 32 - 1). rewrite land_mask by lia.
  apply Z.mod_small. apply (rol32_bound X 31); [done | lia].
Qed.

Lemma rol_rol X n : is_u32 X -> 0 < n < 32 -> rol32 (rol32 X n) (32 - n) = X.
Proof.
  intros HX Hn. pose proof (rol32_bound X n HX ltac:(lia)) as Hr.
  apply u32_ext; [apply rol32_bound; [done | lia] | done |].
  intros i Hi. rewrite rol32_bits by (done || lia).
  destruct (Z.ltb_spec i (32 - n)); rewrite rol32_bits by (done || lia);
    case_match; f_equal; lia.
Qed.

Lemma rotr1_rotl1 X : is_u32 X -> rotr1 (rotl1 X) = X.
Proof.
  intros HX. rewrite rotl1_rol, rotr1_rol by (try apply rol32_bound; done || lia).
  by apply (rol_rol X 1).
Qed.

Lemma rotl1_rotr1 X : is_u32 X -> rotl1 (rotr1 X) = X.
Proof.
  intros HX. rewrite rotr1_rol, rotl1_rol by (try apply rol32_bound; done || lia).
  by apply (rol_rol X 31).
Qed.

Lemma rotl1_u32 X : is_u32 X -> is_u32 (rotl1 X).
Proof. intros. rewrite rotl1_rol by done. apply rol32_bound; [done | lia]. Qed.

Lemma rotr1_u32 X : is_u32 X -> is_u32 (rotr1 X).
Proof. intros. rewrite rotr1_rol by done. apply rol32_bound; [done | lia]. Qed.

Lemma swap_pair_u32 XY : u32_pair XY -> u32_pair (swap_pair XY).
Proof. by intros [? ?]. Qed.

Lemma swap_pair_involutive XY : swap_pair (swap_pair XY) = XY.
Proof. by destruct XY. Qed.

Ltac pair_u32 :=
  repeat first [ assumption | apply exchange_u32; [lia | unfold is_u32; lia |]
    | apply swap_pair_u32 | split; cbn [fst snd]
    | apply rotl1_u32 | apply rotr1_u32
    | match goal with H : u32_pair ?p |- is_u32 (fst ?p) => apply H
                    | H : u32_pair ?p |- is_u32 (snd ?p) => apply H end ].

Lemma DES_IP_u32 XY : u32_pair XY -> u32_pair (DES_IP XY).
Proof.
  intros H. unfold DES_IP; cbv zeta.
  set (a := swap_pair (exchange 8 _ _)). assert (u32_pair a) by (subst a; pair_u32).
  set (b := exchange 0 _ _). assert (u32_pair b) by (subst b; pair_u32). pair_u32.
Qed.

Lemma DES_FP_u32 XY : u32_pair XY -> u32_pair (DES_FP XY).
Proof.
  intros H. unfold DES_FP; cbv zeta.
  set (b := exchange 0 _ _). assert (u32_pair b) by (subst b; pair_u32). pair_u32.
Qed.

Lemma DES_FP_IP XY : u32_pair XY -> DES_FP (DES_IP XY) = XY.
Proof.
  intros H. unfold DES_IP; cbv zeta.
  set (a := swap_pair (exchange 8 _ _)). assert (u32_pair a) by (subst a; pair_u32).
  set (b := exchange 0 _ _). assert (u32_pair b) by (subst b; pair_u32).
  unfold DES_FP; cbv zeta; cbn [fst snd].
  rewrite rotr1_rotl1 by pair_u32. rewrite <-surjective_pairing.
  subst b. rewrite exchange_involutive by lia. cbn [fst snd].
  rewrite rotr1_rotl1 by pair_u32. rewrite <-surjective_pairing. subst a.
  by repeat (rewrite swap_pair_involutive || rewrite exchange_involutive by lia).
Qed.

Lemma DES_IP_FP XY : u32_pair XY -> DES_IP (DES_FP XY) = XY.
Proof.
  intros H. unfold DES_FP; cbv zeta.
  set (b := exchange 0 _ _). assert (u32_pair b) by (subst b; pair_u32).
  unfold DES_IP; cbv zeta.
  repeat (rewrite swap_pair_involutive || rewrite exchange_involutive by lia). cbn [fst snd].
  rewrite rotl1_rotr1 by pair_u32. rewrite <-surjective_pairing. subst b.
  rewrite exchange_involutive by lia. cbn [fst snd].
  rewrite rotl1_rotr1 by apply H. by rewrite <-surjective_pairing.
Qed.

(** ** The rounds are undone by the reversed keys *)

Definition feistel (k : Z * Z) (XY : Z * Z) : Z * Z :=
  (XY.2, Z.lxor XY.1 (des_f k.1 k.2 XY.2)).
Definition rounds (ks : list (Z * Z)) (XY : Z * Z) : Z * Z :=
  fold_left (fun XY k => feistel k XY) ks XY.
Definition flat (ks : list (Z * Z)) : list Z := mjoin (map (fun k => [k.1; k.2]) ks).

Lemma feistel_undo k XY : feistel k (swap_pair (feistel k XY)) = swap_pair XY.
Proof.
  destruct XY as [X Y]. unfold feistel, swap_pair; simpl.
  by rewrite Z.lxor_assoc, Z.lxor_nilpotent, Z.lxor_0_r.
Qed.

Lemma rounds_undo ks XY : rounds (rev ks) (swap_pair (rounds ks XY)) = swap_pair XY.
Proof.
  revert XY. induction ks as [|k ks IH]; intros XY; [done|]. simpl.
  unfold rounds at 1. rewrite fold_left_app. fold (rounds (rev ks)). simpl.
  change (fold_left _ (rev ks) ?x) with (rounds (rev ks) x).
  change (rounds (k :: ks) XY) with (rounds ks (feistel k XY)).
  rewrite IH. apply feistel_undo.
Qed.

Lemma tab_u32 t i : Forall is_u32 t -> is_u32 (tab t i).
Proof.
  intros Ht. unfold tab. destruct (nth_in_or_default (Z.to_nat i) t 0) as [Hin| ->].
  - by apply list_elem_of_In, (proj1 (Forall_forall _ _) Ht) in Hin.
  - unfold is_u32; lia.
Qed.

Lemma des_f_u32 k0 k1 X : is_u32 (des_f k0 k1 X).
Proof.
  unfold des_f. repeat apply lxor_u32; apply tab_u32; apply (bool_decide_unpack _);
    vm_compute; exact I.
Qed.

Lemma rounds_u32 ks XY : u32_pair XY -> u32_pair (rounds ks XY).
Proof.
  revert XY. induction ks as [|k ks IH]; intros XY H; [done|]. apply IH.
  destruct H. split; simpl; [done|]. apply lxor_u32; [done | apply des_f_u32].
Qed.

Lemma des_rounds_flat ks : forall pre XY,
  des_rounds (length ks) (pre ++ flat ks) (zlen pre) XY = Some (rounds ks XY).
Proof.
  induction ks as [|[k0 k1] ks IH]; intros pre XY; [done|].
  change (flat ((k0, k1) :: ks)) with (k0 :: k1 :: flat ks). cbn [length des_rounds].
  unfold DES_ROUND. rewrite (aget_app_eq pre k0 _ (zlen pre)) by done. cbn [mbind option_bind].
  replace (pre ++ k0 :: k1 :: flat ks) with ((pre ++ [k0]) ++ k1 :: flat ks)
    by (by rewrite <-app_assoc).
  rewrite aget_app_eq by (rewrite zlen_app; done). cbn [mbind option_bind].
  replace ((pre ++ [k0]) ++ k1 :: flat ks) with ((pre ++ [k0; k1]) ++ flat ks)
    by (by rewrite <-!app_assoc).
  replace (zlen pre + 2) with (zlen (pre ++ [k0; k1])) by (by rewrite zlen_app).
  by rewrite IH.
Qed.

#[local] Opaque des_f DES_IP DES_FP.

(** ** Blocks *)

Definition is_block (b : list Z) : Prop := length b = 8%nat /\ is_bytes b.

(** [des_crypt] with the subkeys [ks] as a function on blocks. *)
Definition crypt_block (ks : list (Z * Z)) (b : list Z) : list Z :=
  default [] (des_crypt (flat ks) b 0).

Lemma des_crypt_block ks b : length ks = 16%nat -> is_block b ->
  exists X Y, u32_pair (X, Y) /\ b = put_be32 X ++ put_be32 Y /\
    des_crypt (flat ks) b 0 =
      (let YX := DES_FP (swap_pair (rounds ks (DES_IP (X, Y)))) in
       Some (put_be32 YX.1 ++ put_be32 YX.2)).
Proof.
  intros Hks [Hlen Hb].
  destruct b as [|b0 [|b1 [|b2 [|b3 [|b4 [|b5 [|b6 [|b7 [|]]]]]]]]]; try done.
  unfold is_bytes in Hb. rewrite !Forall_cons in Hb. destruct_and!.
  exists (be32 b0 b1 b2 b3), (be32 b4 b5 b6 b7). split; [|split].
  - by split; apply be32_bound.
  - by rewrite !put_be32_be32.
  - unfold des_crypt.
    change (GET_UINT32 _ 0) with (Some (be32 b0 b1 b2 b3)).
    change (GET_UINT32 _ (0 + 4)) with (Some (be32 b4 b5 b6 b7)).
    cbn [mbind option_bind]. rewrite <-Hks.
    change (flat ks) with ([] ++ flat ks). rewrite (des_rounds_flat ks []). done.
Qed.

Lemma put_be32_length v : length (put_be32 v) = 4%nat.
Proof. done. Qed.

Lemma put_be32_bytes v : is_bytes (put_be32 v).
Proof. unfold put_be32, is_bytes. repeat constructor; apply u8_bound. Qed.

Lemma put_be32_inj v w : is_u32 v -> is_u32 w -> put_be32 v = put_be32 w -> v = w.
Proof.
  intros Hv Hw. rewrite !put_be32_rev, !put_le32_eq. simpl. intros [= H1 H2 H3 H4].
  rewrite <-(le32_put_le32 v), <-(le32_put_le32 w) by done. congruence.
Qed.

Lemma crypt_block_ok ks b : length ks = 16%nat -> is_block b ->
  des_crypt (flat ks) b 0 = Some (crypt_block ks b) /\ is_block (crypt_block ks b).
Proof.
  intros Hks Hb. destruct (des_crypt_block ks b Hks Hb) as (X & Y & _ & _ & Hc).
  cbv zeta in Hc. destruct (DES_FP _) as [A B]. unfold crypt_block. rewrite Hc.
  split; [done|]. split; [done|]. apply Forall_app; split; apply put_be32_bytes.
Qed.

(** The reversed keys decrypt a block. *)
Lemma crypt_block_undo ks b : length ks = 16%nat -> is_block b ->
  crypt_block (rev ks) (crypt_block ks b) = b.
Proof.
  intros Hks Hb. destruct (des_crypt_block ks b Hks Hb) as (X & Y & HXY & Hbxy & Hc).
  destruct (crypt_block_ok ks b Hks Hb) as [_ Hb'].
  assert (length (rev ks) = 16%nat) as Hrev by (by rewrite length_rev).
  destruct (des_crypt_block (rev ks) (crypt_block ks b) Hrev Hb') as (X' & Y' & HXY' & Hbxy' & Hc').
  unfold crypt_block at 1. rewrite Hc'. cbv zeta. clear Hc'.
  unfold crypt_block in Hbxy'. rewrite Hc in Hbxy'. cbv zeta in Hbxy'. clear Hc.
  change (default [] (Some ?x)) with x in Hbxy'. change (default [] (Some ?x)) with x.
  set (R := rounds ks (DES_IP (X, Y))) in *.
  assert (u32_pair (DES_FP (swap_pair R))) as HR
    by (apply DES_FP_u32, swap_pair_u32, rounds_u32, DES_IP_u32, HXY).
  apply app_inj_1 in Hbxy' as [H1 H2]; [|done].
  apply put_be32_inj in H1; [|apply HR | apply HXY'].
  apply put_be32_inj in H2; [|apply HR | apply HXY'].
  assert ((X', Y') = DES_FP (swap_pair R)) as -> by (rewrite <-H1, <-H2; by destruct (DES_FP _)).
  rewrite DES_IP_FP by (apply swap_pair_u32, rounds_u32, DES_IP_u32, HXY).
  subst R. rewrite rounds_undo, swap_pair_involutive, DES_FP_IP by done. by rewrite Hbxy.
Qed.

(** A block inside a text. *)
Lemma des_crypt_at SK pre b post : length b = 8%nat ->
  des_crypt SK (pre ++ b ++ post) (zlen pre) = des_crypt SK b 0.
Proof.
  intros Hb. assert (forall i, 0 <= i < 8 -> (pre ++ b ++ post).[zlen pre + i] = b.[i]) as Hg.
  { intros i Hi. rewrite aget_app_r, Z.add_simpl_l by lia.
    apply aget_app_l. unfold zlen. lia. }
  unfold des_crypt, GET_UINT32. rewrite <-(Z.add_0_r (zlen pre)) at 1.
  rewrite <-!Z.add_assoc. simpl (_ + _) at 1. rewrite !Hg by lia.
  done.
Qed.

Lemma crypt_blocks_spec ks bs : forall pre post n fuel, length ks = 16%nat ->
  Forall is_block bs -> zlen pre + 8 * zlen bs - 8 < n <= zlen pre + 8 * zlen bs ->
  (length bs < fuel)%nat ->
  crypt_blocks fuel (flat ks) (pre ++ mjoin bs ++ post) (zlen pre) n =
  Some (mjoin (map (crypt_block ks) bs), zlen pre + 8 * zlen bs).
Proof.
  induction bs as [|b bs IH]; intros pre post n fuel Hks Hbs Hn Hf;
    (destruct fuel as [|fuel]; [simpl in Hf; lia|]); cbn [crypt_blocks].
  - change (zlen (@nil (list Z))) with 0 in *. destruct (Z.ltb_spec (zlen pre) n); [lia|].
    by rewrite Z.mul_0_r, Z.add_0_r.
  - rewrite zlen_cons in *. pose proof (zlen_nonneg bs).
    destruct (Z.ltb_spec (zlen pre) n); [|lia].
    apply Forall_cons in Hbs as [Hb Hbs]. destruct (crypt_block_ok ks b Hks Hb) as [Hc _].
    change (mjoin (b :: bs)) with (b ++ mjoin bs). rewrite <-app_assoc.
    rewrite des_crypt_at, Hc by apply Hb. cbn [mbind option_bind].
    assert (zlen b = 8) as Hl by (unfold zlen; destruct Hb as [-> _]; done).
    replace (zlen pre + 8) with (zlen (pre ++ b)) by (rewrite zlen_app; lia).
    rewrite app_assoc, IH; try done.
    + rewrite zlen_app. simpl. do 2 f_equal. lia.
    + rewrite zlen_app. lia.
    + simpl in Hf. lia.
Qed.

(** Every text is a sequence of blocks and less than eight bytes. *)
Lemma split_blocks text : is_bytes text ->
  exists bs tail, text = mjoin bs ++ tail /\ Forall is_block bs /\ zlen tail < 8.
Proof.
  intros Hb. destruct (split_chunks 8 text) as (bs & tail & -> & Hbs & Ht); [lia|].
  exists bs, tail. split; [done|]. split; [|unfold zlen; lia].
  apply Forall_app in Hb as [Hb _].
  apply Forall_forall. intros b Hin. split.
  - by apply (proj1 (Forall_forall _ _) Hbs).
  - apply Forall_forall. intros x Hx. apply (proj1 (Forall_forall _ _) Hb).
    apply list_elem_of_join. by exists b.
Qed.

Lemma zlen_join bs : Forall is_block bs -> zlen (mjoin bs) = 8 * zlen bs.
Proof. intros Hbs. apply (zlen_mjoin 8). eapply Forall_impl; [exact Hbs|]. by intros b [? _]. Qed.

(** ** Keys *)

Fixpoint subkey_pairs (n : nat) (i : Z) (X Y : Z) : list (Z * Z) :=
  match n with
  | O => []
  | S n =>
      let s := if (i <? 2) || (i =? 8) || (i =? 15) then 1 else 2 in
      (des_sk0 (rot28 s X) (rot28 s Y), des_sk1 (rot28 s X) (rot28 s Y)) ::
      subkey_pairs n (i + 1) (rot28 s X) (rot28 s Y)
  end.

Lemma des_subkeys_flat n i X Y : des_subkeys n i X Y = flat (subkey_pairs n i X Y).
Proof.
  revert i X Y. induction n as [|n IH]; intros i X Y; [done|].
  cbn [des_subkeys subkey_pairs].
  change (flat (?k :: ?l)) with (k.1 :: k.2 :: flat l). cbn [fst snd]. by rewrite IH.
Qed.

Lemma subkey_pairs_length n i X Y : length (subkey_pairs n i X Y) = n.
Proof. revert i X Y. induction n as [|n IH]; intros i X Y; simpl; [done|]. by rewrite IH. Qed.

Lemma des_key_ok key : length key = 8%nat ->
  exists ks, length ks = 16%nat /\ des_key key = Ok (flat ks).
Proof.
  intros Hlen. unfold des_key, zlen. rewrite Hlen.
  destruct key as [|b0 [|b1 [|b2 [|b3 [|b4 [|b5 [|b6 [|b7 [|]]]]]]]]]; try done.
  change (8 =? 8) with true. cbv iota. unfold des_main_ks.
  change (GET_UINT32 _ 0) with (Some (be32 b0 b1 b2 b3)).
  change (GET_UINT32 _ 4) with (Some (be32 b4 b5 b6 b7)).
  cbn [mbind option_bind]. destruct (des_pc1 _ _) as [X Y].
  exists (subkey_pairs 16 0 X Y). split; [apply subkey_pairs_length|].
  rewrite des_subkeys_flat. done.
Qed.

Lemma reverse_keys_flat ks : length ks = 16%nat ->
  reverse_keys 16 0 (flat ks) = Some (flat (rev ks)).
Proof.
  intros Hlen. do 16 (destruct ks as [|[? ?] ks]; [done|]). destruct ks; [|done].
  reflexivity.
Qed.

(** ** Padding *)

Lemma pad_tail_spec pre tail n j : 0 <= j -> j + Z.of_nat n = 8 -> zlen tail < 8 ->
  pad_tail n j (zlen pre) (zlen tail) (pre ++ tail) =
  Some (drop (Z.to_nat j) (tail ++ 0x80 :: replicate (7 - length tail) 0)).
Proof.
  revert j. induction n as [|n IH]; intros j Hj Hn Ht; cbn [pad_tail].
  - rewrite drop_ge; [done|]. rewrite length_app, length_cons, length_replicate.
    unfold zlen in Ht. lia.
  - set (full := tail ++ 0x80 :: replicate (7 - length tail) 0).
    assert ((if j <? zlen tail then (pre ++ tail).[zlen pre + j]
             else Some (if j =? zlen tail then 0x80 else 0)) = full.[j]) as ->.
    { subst full. destruct (Z.ltb_spec j (zlen tail)).
      - rewrite aget_app_r, Z.add_simpl_l, aget_app_l by lia. done.
      - rewrite aget_app_r by lia. destruct (Z.eqb_spec j (zlen tail)) as [->|].
        + by rewrite Z.sub_diag.
        + rewrite aget_cons_S, aget_replicate by (unfold zlen in *; lia). done. }
    destruct (aget_is_Some full j) as [c Hc].
    { subst full. rewrite zlen_app, zlen_cons, zlen_replicate. unfold zlen in *. lia. }
    rewrite Hc. cbn [mbind option_bind]. rewrite IH by lia. cbn [mbind option_bind].
    fold full. unfold aget in Hc. rewrite decide_True in Hc by lia.
    rewrite (drop_S _ _ _ Hc). do 3 f_equal. lia.
Qed.

Lemma scan_padding_spec pre z : forall k fuel, 0 <= zlen pre < 2 ^ 62 ->
  (k <= z)%nat -> (z <= 7)%nat -> 7 - Z.of_nat z <= zlen pre -> (k < fuel)%nat ->
  scan_padding fuel (pre ++ 0x80 :: replicate z 0) (zlen pre + Z.of_nat k)
    (zlen pre + 1 + Z.of_nat z) (1 + Z.of_nat (z - k)) = Ok (1 + Z.of_nat z).
Proof.
  induction k as [|k IH]; intros fuel Hpre Hk Hz Hlen Hf;
    (destruct fuel as [|fuel]; [lia|]); cbn [scan_padding];
    unfold u64; rewrite !Z.mod_small by lia;
    (match goal with |- context [Z.leb ?a ?b] => destruct (Z.leb_spec a b); [|lia] end).
  - rewrite Z.add_0_r, aget_app_eq by done. cbn. do 2 f_equal. lia.
  - rewrite aget_app_r, Z.add_simpl_l by lia.
    rewrite aget_cons_S, aget_replicate by lia. cbn [lift mbind res_bind].
    change (0 =? 0) with true. cbv iota.
    replace (zlen pre + Z.of_nat (S k) - 1) with (zlen pre + Z.of_nat k) by lia.
    replace (1 + Z.of_nat (z - S k) + 1) with (1 + Z.of_nat (z - k)) by lia.
    apply IH; lia.
Qed.

(** ** The theorems *)

(** The text as blocks, and the last block as it is padded. *)
Definition padded (tail : list Z) : list Z := tail ++ 0x80 :: replicate (7 - length tail) 0.

Lemma padded_block tail : is_bytes tail -> zlen tail < 8 -> is_block (padded tail).
Proof.
  intros Hb Ht. split.
  - unfold padded. rewrite length_app, length_cons, length_replicate. unfold zlen in Ht. lia.
  - apply Forall_app; split; [done|]. constructor; [unfold is_u8; lia|].
    apply Forall_replicate. unfold is_u8; lia.
Qed.

Lemma ldesencode_spec key ks bs tail : length key = 8%nat -> length ks = 16%nat ->
  des_key key = Ok (flat ks) -> Forall is_block bs -> is_bytes tail -> zlen tail < 8 ->
  zlen (mjoin bs ++ tail) < 2 ^ 31 ->
  ldesencode key (mjoin bs ++ tail) = Ok (mjoin (map (crypt_block ks) (bs ++ [padded tail]))).
Proof.
  intros Hk Hks Hkey Hbs Htb Ht Hlen. unfold ldesencode. rewrite Hkey.
  cbn [mbind res_bind]. pose proof (zlen_nonneg tail). pose proof (zlen_nonneg bs).
  pose proof (zlen_join bs Hbs) as Hj. rewrite zlen_app, Hj in Hlen.
  rewrite s32_small by (unfold is_s32; rewrite zlen_app; lia). rewrite zlen_app, Hj.
  unfold block_fuel. rewrite zlen_app, Hj.
  replace ((8 * zlen bs + zlen tail) / 8) with (zlen bs) by (Z.div_mod_to_equations; lia).
  pose proof (crypt_blocks_spec ks bs [] tail (8 * zlen bs + zlen tail - 7)
    (S (Z.to_nat (zlen bs))) Hks Hbs) as Hc.
  change (zlen (@nil Z)) with 0 in Hc. rewrite !Z.add_0_l in Hc. simpl app in Hc.
  rewrite Hc by (unfold zlen in *; lia). cbn [lift mbind res_bind].
  rewrite s32_small by (unfold is_s32; lia).
  replace (8 * zlen bs + zlen tail - 8 * zlen bs) with (zlen tail) by lia.
  rewrite <-Hj, (pad_tail_spec (mjoin bs) tail 8 0) by lia.
  cbn [lift mbind res_bind]. change (drop (Z.to_nat 0) ?l) with l. fold (padded tail).
  destruct (crypt_block_ok ks _ Hks (padded_block tail Htb Ht)) as [Hl _]. rewrite Hl.
  cbn [lift mbind res_bind]. rewrite map_app. f_equal.
  rewrite join_app. cbn [map mjoin list_join]. by rewrite app_nil_r.
Qed.

Lemma ldesdecode_blocks key ks cs : length key = 8%nat -> length ks = 16%nat ->
  des_key key = Ok (flat ks) -> Forall is_block cs -> cs <> [] ->
  ldesdecode key (mjoin cs) =
    (let buffer := mjoin (map (crypt_block (rev ks)) cs) in
     padding ← scan_padding 10 buffer (8 * zlen cs - 1) (8 * zlen cs) 1;
     if 8 <? padding then Err "Invalid des crypt text"
     else Ok (take (Z.to_nat (8 * zlen cs - padding)) buffer)).
Proof.
  intros Hk Hks Hkey Hcs Hne. unfold ldesdecode. rewrite Hkey. cbn [mbind res_bind].
  rewrite reverse_keys_flat by done. cbn [lift mbind res_bind]. cbv zeta.
  rewrite (zlen_join cs Hcs).
  assert (0 < zlen cs) as Hpos by (destruct cs; [done|]; unfold zlen; simpl; lia).
  rewrite (land_mask (8 * zlen cs) 3 ltac:(lia) : Z.land (8 * zlen cs) 7 = _).
  replace (8 * zlen cs) with (zlen cs * 2 ^ 3) at 1 by lia. rewrite Z.mod_mul by lia.
  destruct (Z.eqb_spec (8 * zlen cs) 0); [lia|]. cbn [negb orb Z.eqb].
  unfold block_fuel. rewrite (zlen_join cs Hcs).
  replace (8 * zlen cs / 8) with (zlen cs) by (Z.div_mod_to_equations; lia).
  pose proof (crypt_blocks_spec (rev ks) cs [] [] (8 * zlen cs)
    (S (Z.to_nat (zlen cs)))) as Hc.
  change (zlen (@nil Z)) with 0 in Hc. rewrite !Z.add_0_l, !app_nil_r in Hc. simpl app in Hc.
  rewrite Hc by (rewrite ?length_rev; done || unfold zlen in *; lia). done.
Qed.

(** [desdecode] undoes [desencode]: for every 8-byte key and every text the
    cipher text has the length rounded up to the next multiple of eight (at
    least one byte of padding), and decoding it with the same key gives the text
    back.  Neither function touches memory outside its arguments on the way. *)
Theorem des_roundtrip (key text : list Z) :
  length key = 8%nat -> is_bytes text -> zlen text < 2 ^ 31 - 8 ->
  exists c, ldesencode key text = Ok c /\ is_bytes c /\
    zlen c = 8 * (zlen text / 8) + 8 /\ ldesdecode key c = Ok text.
Proof.
  intros Hk Hb Hlen. destruct (des_key_ok key Hk) as (ks & Hks & Hkey).
  destruct (split_blocks text Hb) as (bs & tail & -> & Hbs & Ht).
  apply Forall_app in Hb as [Hjb Htb].
  pose proof (zlen_join bs Hbs) as Hj. pose proof (zlen_nonneg tail). pose proof (zlen_nonneg bs).
  assert (Forall is_block (bs ++ [padded tail])) as Hps.
  { apply Forall_app; split; [done|]. constructor; [by apply padded_block | done]. }
  assert (Forall is_block (map (crypt_block ks) (bs ++ [padded tail]))) as Hcs.
  { apply Forall_map. eapply Forall_impl; [exact Hps|]. intros b Hblk.
    by apply crypt_block_ok. }
  eexists. split; [apply (ldesencode_spec key ks); done || lia|].
  assert (zlen (map (crypt_block ks) (bs ++ [padded tail])) = zlen bs + 1) as Hzl.
  { unfold zlen. rewrite length_map, length_app. simpl. lia. }
  split; [|split].
  - apply Forall_join. eapply Forall_impl; [exact Hcs|]. by intros b [_ ?].
  - rewrite zlen_join, Hzl, zlen_app, Hj by done. Z.div_mod_to_equations; lia.
  - rewrite (ldesdecode_blocks key ks), Hzl; [|done..|by destruct bs]. cbv zeta.
    assert (map (crypt_block (rev ks)) (map (crypt_block ks) (bs ++ [padded tail])) =
      bs ++ [padded tail]) as ->.
    { rewrite map_map. rewrite <-(map_id (bs ++ [padded tail])) at 2. apply map_ext_in.
      intros b Hin. apply crypt_block_undo; [done|].
      by apply (proj1 (Forall_forall _ _) Hps), list_elem_of_In. }
    rewrite join_app. cbn [mjoin list_join]. rewrite app_nil_r. unfold padded.
    rewrite zlen_app, Hj in Hlen. rewrite app_assoc.
    set (z := (7 - length tail)%nat).
    replace (8 * (zlen bs + 1) - 1) with (zlen (mjoin bs ++ tail) + Z.of_nat z)
      by (subst z; rewrite zlen_app; unfold zlen in *; lia).
    replace (8 * (zlen bs + 1)) with (zlen (mjoin bs ++ tail) + 1 + Z.of_nat z)
      by (subst z; rewrite zlen_app; unfold zlen in *; lia).
    pose proof (scan_padding_spec (mjoin bs ++ tail) z z 10) as Hs.
    rewrite Nat.sub_diag in Hs. change (1 + Z.of_nat 0) with 1 in Hs. rewrite Hs.
    + cbn [mbind res_bind]. destruct (Z.ltb_spec 8 (1 + Z.of_nat z)); [subst z; lia|].
      f_equal. rewrite take_app_length'; [done|]. unfold zlen. lia.
    + rewrite zlen_app. lia.
    + done.
    + subst z; lia.
    + subst z. rewrite zlen_app. unfold zlen in *. lia.
    + subst z; lia.
Qed.

(** [desdecode] reads before its buffer.  The bound [textsz-8] of the padding scan
    is unsigned, so for a text of one block it is 0 and the condition [i >= 0]
    holds for every [i]: for every key there is a cipher text of eight bytes (the
    encryption of eight zeros) on which [ldesdecode] reads [buffer[-1]]. *)
Theorem desdecode_overread (key : list Z) : length key = 8%nat ->
  exists c, is_block c /\ ldesdecode key c = Ub.
Proof.
  intros Hk. destruct (des_key_ok key Hk) as (ks & Hks & Hkey).
  assert (is_block (replicate 8 0)) as Hz.
  { split; [done|]. apply Forall_replicate. unfold is_u8; lia. }
  destruct (crypt_block_ok ks _ Hks Hz) as [_ Hc].
  exists (crypt_block ks (replicate 8 0)). split; [done|].
  pose proof (ldesdecode_blocks key ks [crypt_block ks (replicate 8 0)] Hk Hks Hkey) as Hd.
  cbn [map] in Hd. rewrite crypt_block_undo in Hd by done.
  cbn [mjoin list_join] in Hd. rewrite !app_nil_r in Hd. rewrite Hd; [reflexivity | | done].
  by constructor.
Qed.

(** The test vector of FIPS 46: one block and its padding block. *)
Lemma des_roundtrip_witness :
  exists c, ldesencode (bytes_of "8bytekey") (bytes_of "attack at dawn") = Ok c /\
    ldesdecode (bytes_of "8bytekey") c = Ok (bytes_of "attack at dawn").
Proof.
  destruct (des_roundtrip (bytes_of "8bytekey") (bytes_of "attack at dawn"))
    as (c & Hc & _ & _ & Hd).
  - reflexivity.
  - apply (bool_decide_unpack _). vm_compute. exact I.
  - vm_compute. reflexivity.
  - exists c. split; [exact Hc | exact Hd].
Defined.

Example des_test_vector :
  ldesencode [0x13; 0x34; 0x57; 0x79; 0x9B; 0xBC; 0xDF; 0xF1]
    [0x01; 0x23; 0x45; 0x67; 0x89; 0xAB; 0xCD; 0xEF] =
  Ok [0x85; 0xE8; 0x13; 0x54; 0x0F; 0x0A; 0xB4; 0x05; 0x87; 0xAB; 0x78; 0xD1; 0x1E; 0x18;
      0x8D; 0xF6].
Proof. vm_compute. reflexivity. Qed.

Lemma desdecode_overread_witness :
  exists c, is_block c /\ ldesdecode (bytes_of "8bytekey") c = Ub.
Proof. apply (desdecode_overread (bytes_of "8bytekey")). reflexivity. Defined.
