(* ===== verification/Crypt.v ===== *)
(** lib/crypt/lua-crypt.c, lines 337-351 and 439-879: random keys, the 64-bit
    hash, hexadecimal and base64 text, hmac64 and the Diffie-Hellman exchange.

    The output buffers are written from the front; their contents are the lists
    the functions build, and the bounds lemmas compare their length with the size
    of the buffer.  A byte of a Lua string may be read at the position of its length: it
    is the terminating zero. *)
From stdpp Require Import strings.
From Stdlib Require Import Znumtheory Zpow_facts.
From S2P Require Import Prelude Bytes.

Definition SMALL_CHUNK : Z := 256.

(** ** Random keys and hashes *)

(** [lrandomkey]; [rnd i] is the value of the [i]-th call of [random()]. *)
Definition lrandomkey (rnd : Z -> Z) : list Z :=
  let tmp := map (fun i => Z.land (rnd i) 255) [0; 1; 2; 3; 4; 5; 6; 7] in
  let x := fold_left Z.lxor tmp 0 in
  match tmp with
  | t0 :: rest => if x =? 0 then Z.lor t0 1 :: rest else tmp
  | [] => tmp
  end.

(** One character of the loop of [Hash]. *)
Definition hash_char (st : Z * Z) (c : Z) : Z * Z :=
  let '(djb_hash, js_hash) := st in
  (u32 (djb_hash + u32 (u32 (Z.shiftl djb_hash 5) + c)),
   Z.lxor js_hash (u32 (u32 (Z.shiftl js_hash 5) + c + Z.shiftr js_hash 2))).

(** [Hash]: the eight bytes of [key]. *)
Definition Hash (str : list Z) : list Z :=
  let '(djb_hash, js_hash) := fold_left hash_char str (5381, 1315423911) in
  put_le32 djb_hash ++ put_le32 js_hash.

Definition lhashkey (key : list Z) : res (list Z) := Ok (Hash key).

(** ** Hexadecimal text *)

Definition hex : list Z := bytes_of "0123456789abcdef".

(** [ltohex]: two characters a byte. *)
Fixpoint hex_chars (text : list Z) : option (list Z) :=
  match text with
  | [] => Some []
  | c :: text =>
      hi ← hex.[Z.shiftr c 4];
      lo ← hex.[Z.land c 15];
      rest ← hex_chars text;
      Some (hi :: lo :: rest)
  end.

Definition ltohex (text : list Z) : res (list Z) := lift (hex_chars text).

(** The [HEX] macro; the result is stored in a [uint8_t]. *)
Definition HEX (c : Z) : Z :=
  if (48 <=? c) && (c <=? 57) then c - 48 else u8 (c - 97 + 10).

(** The byte of two characters. *)
Definition hex_pair (c d : Z) : res Z :=
  let hi := HEX c in
  let low := HEX d in
  if (16 <? hi) || (16 <? low) then Err "Invalid hex text"
  else Ok (u8 (Z.lor (Z.shiftl hi 4) low)).

(** The loop of [lfromhex] from the rest of the text on; after an odd last
    character [text[i+1]] is the terminating zero. *)
Fixpoint unhex (text : list Z) : res (list Z) :=
  match text with
  | [] => Ok []
  | [c] => b ← hex_pair c 0; Ok [b]
  | c :: d :: rest => b ← hex_pair c d; out ← unhex rest; Ok (b :: out)
  end.

Definition lfromhex (text : list Z) : res (list Z) :=
  if negb (Z.land (zlen text) 2 =? 0) then Err "Invalid hex text size %d"
  else unhex text.

(** ** hmac64 *)

Definition hmac_k : list Z := [
   0xd76aa478; 0xe8c7b756; 0x242070db; 0xc1bdceee;
   0xf57c0faf; 0x4787c62a; 0xa8304613; 0xfd469501;
   0x698098d8; 0x8b44f7af; 0xffff5bb1; 0x895cd7be;
   0x6b901122; 0xfd987193; 0xa679438e; 0x49b40821;
   0xf61e2562; 0xc040b340; 0x265e5a51; 0xe9b6c7aa;
   0xd62f105d; 0x02441453; 0xd8a1e681; 0xe7d3fbc8;
   0x21e1cde6; 0xc33707d6; 0xf4d50d87; 0x455a14ed;
   0xa9e3e905; 0xfcefa3f8; 0x676f02d9; 0x8d2a4c8a;
   0xfffa3942; 0x8771f681; 0x6d9d6122; 0xfde5380c;
   0xa4beea44; 0x4bdecfa9; 0xf6bb4b60; 0xbebfbc70;
   0x289b7ec6; 0xeaa127fa; 0xd4ef3085; 0x04881d05;
   0xd9d4d039; 0xe6db99e5; 0x1fa27cf8; 0xc4ac5665;
   0xf4292244; 0x432aff97; 0xab9423a7; 0xfc93a039;
   0x655b59c3; 0x8f0ccc92; 0xffeff47d; 0x85845dd1;
   0x6fa87e4f; 0xfe2ce6e0; 0xa3014314; 0x4e0811a1;
   0xf7537e82; 0xbd3af235; 0x2ad7d2bb; 0xeb86d391].

Definition hmac_r : list Z := [
   7; 12; 17; 22; 7; 12; 17; 22; 7; 12; 17; 22; 7; 12; 17; 22;
   5; 9; 14; 20; 5; 9; 14; 20; 5; 9; 14; 20; 5; 9; 14; 20;
   4; 11; 16; 23; 4; 11; 16; 23; 4; 11; 16; 23; 4; 11; 16; 23;
   6; 10; 15; 21; 6; 10; 15; 21; 6; 10; 15; 21; 6; 10; 15; 21].

(** [LEFTROTATE]. *)
Definition LEFTROTATE (x c : Z) : Z := Z.lor (u32 (Z.shiftl x c)) (Z.shiftr x (32 - c)).

(** [~x] on a [uint32_t]. *)
Definition lnot32 (x : Z) : Z := 0xFFFFFFFF - x.

(** One iteration [i] of the mixing loop. *)
Definition hmac_round (w : list Z) (i : Z) (st : Z * Z * Z * Z)
    : option (Z * Z * Z * Z) :=
  let '(a, b, c, d) := st in
  let '(f, g) :=
    if i <? 16 then (Z.lor (Z.land b c) (Z.land (lnot32 b) d), i)
    else if i <? 32 then (Z.lor (Z.land d b) (Z.land (lnot32 d) c), (5 * i + 1) mod 16)
    else if i <? 48 then (Z.lxor (Z.lxor b c) d, (3 * i + 5) mod 16)
    else (Z.lxor c (Z.lor b (lnot32 d)), (7 * i) mod 16) in
  ki ← hmac_k.[i];
  ri ← hmac_r.[i];
  wg ← w.[g];
  Some (d, u32 (b + LEFTROTATE (u32 (a + f + ki + wg)) ri), b, c).

Fixpoint hmac_rounds (n : nat) (w : list Z) (i : Z) (st : Z * Z * Z * Z)
    : option (Z * Z * Z * Z) :=
  match n with
  | O => Some st
  | S n => st ← hmac_round w i st; hmac_rounds n w (i + 1) st
  end.

(** [hmac]. *)
Definition hmac (x y : Z * Z) : option (Z * Z) :=
  let w4 := [x.2; x.1; y.2; y.1] in
  let w := w4 ++ w4 ++ w4 ++ w4 in
  '(a, b, c, d) ← hmac_rounds 64 w 0 (0x67452301, 0xefcdab89, 0x98badcfe, 0x10325476);
  Some (Z.lxor c d, Z.lxor a b).

(** The two words of eight bytes. *)
Definition qword (x : list Z) : option (Z * Z) :=
  x0 ← x.[0]; x1 ← x.[1]; x2 ← x.[2]; x3 ← x.[3];
  x4 ← x.[4]; x5 ← x.[5]; x6 ← x.[6]; x7 ← x.[7];
  Some (le32 x0 x1 x2 x3, le32 x4 x5 x6 x7).

Definition read64 (x y : list Z) : res ((Z * Z) * (Z * Z)) :=
  if negb (zlen x =? 8) then Err "Invalid uint64 x"
  else if negb (zlen y =? 8) then Err "Invalid uint64 y"
  else xx ← lift (qword x); yy ← lift (qword y); Ok (xx, yy).

Definition pushqword (result : Z * Z) : list Z := put_le32 result.1 ++ put_le32 result.2.

Definition lhmac64 (x y : list Z) : res (list Z) :=
  '(xx, yy) ← read64 x y;
  result ← lift (hmac xx yy);
  Ok (pushqword result).

Definition lhmac_hash (x text : list Z) : res (list Z) :=
  if negb (zlen x =? 8) then Err "Invalid uint64 key"
  else
    key ← lift (qword x);
    htext ← lift (qword (Hash text));
    result ← lift (hmac htext key);
    Ok (pushqword result).

(** ** Diffie-Hellman *)

(** The biggest 64-bit prime. *)
Definition P : Z := 0xffffffffffffffc5.
Definition G : Z := 5.

(** The loop of [mul_mod_p]; 64 steps shift any [b] to zero. *)
Fixpoint mul_loop (fuel : nat) (a b m : Z) : option Z :=
  if b =? 0 then Some m
  else match fuel with
  | O => None
  | S fuel =>
      let m := if negb (Z.land b 1 =? 0) then
                 let t := u64 (P - a) in
                 if t <=? m then m - t else u64 (m + a)
               else m in
      let a := if u64 (P - a) <=? a then u64 (a * 2 - P) else u64 (a * 2) in
      mul_loop fuel a (Z.shiftr b 1) m
  end.

Definition mul_mod_p (a b : Z) : option Z := mul_loop 64 a b 0.

(** [pow_mod_p]: the recursion on [b>>1] ends at 1; it does not end for 0. *)
Fixpoint pow_mod_p (fuel : nat) (a b : Z) : option Z :=
  if b =? 1 then Some a
  else match fuel with
  | O => None
  | S fuel =>
      t ← pow_mod_p fuel a (Z.shiftr b 1);
      t ← mul_mod_p t t;
      if negb (b mod 2 =? 0) then mul_mod_p t a else Some t
  end.

(** [powmodp]: calc a^b % p. *)
Definition powmodp (a b : Z) : option Z :=
  let a := if P <? a then a mod P else a in
  pow_mod_p 64 a b.

Definition push64 (r : Z) : list Z :=
  map (fun k => Z.land (Z.shiftr r k) 255) [0; 8; 16; 24; 32; 40; 48; 56].

Definition u64_of (x : Z * Z) : Z := Z.lor x.1 (Z.shiftl x.2 32).

Definition ldhsecret (x y : list Z) : res (list Z) :=
  '(x, y) ← read64 x y;
  let xx := u64_of x in
  let yy := u64_of y in
  if (xx =? 0) || (yy =? 0) then Err "Can't be 0"
  else r ← lift (powmodp xx yy); Ok (push64 r).

Definition ldhexchange (x : list Z) : res (list Z) :=
  if negb (zlen x =? 8) then Err "Invalid dh uint64 key"
  else
    xx ← lift (qword x);
    let x64 := u64_of xx in
    if x64 =? 0 then Err "Can't be 0"
    else r ← lift (powmodp G x64); Ok (push64 r).

(** ** Base64 *)

Definition encoding : list Z :=
  bytes_of "ABCDEFGHIJKLMNOPQRSTUVWXYZabcdefghijklmnopqrstuvwxyz0123456789+/".

(** The loop over groups of three bytes and the [switch] on the padding. *)
Fixpoint b64_encode (text : list Z) : option (list Z) :=
  match text with
  | t0 :: t1 :: t2 :: rest =>
      let v := Z.lor (Z.lor (Z.shiftl t0 16) (Z.shiftl t1 8)) t2 in
      e0 ← encoding.[Z.shiftr v 18];
      e1 ← encoding.[Z.land (Z.shiftr v 12) 0x3f];
      e2 ← encoding.[Z.land (Z.shiftr v 6) 0x3f];
      e3 ← encoding.[Z.land v 0x3f];
      out ← b64_encode rest;
      Some (e0 :: e1 :: e2 :: e3 :: out)
  | [v] =>
      e0 ← encoding.[Z.shiftr v 2];
      e1 ← encoding.[Z.shiftl (Z.land v 3) 4];
      Some [e0; e1; 61; 61]
  | [t0; t1] =>
      let v := Z.lor (Z.shiftl t0 8) t1 in
      e0 ← encoding.[Z.shiftr v 10];
      e1 ← encoding.[Z.land (Z.shiftr v 4) 0x3f];
      e2 ← encoding.[Z.shiftl (Z.land v 0xf) 2];
      Some [e0; e1; e2; 61]
  | [] => Some []
  end.

(** The bytes written, and [encode_sz], the number of bytes pushed. *)
Definition lb64encode (text : list Z) : res (list Z) :=
  let encode_sz := (zlen text + 2) / 3 * 4 in
  buffer ← lift (b64_encode text);
  if zlen buffer =? encode_sz then Ok buffer else Ub.

Definition decoding : list Z := [
   62; -1; -1; -1; 63; 52; 53; 54; 55; 56; 57; 58; 59; 60; 61; -1;
   -1; -1; -2; -1; -1; -1; 0; 1; 2; 3; 4; 5; 6; 7; 8; 9;
   10; 11; 12; 13; 14; 15; 16; 17; 18; 19; 20; 21; 22; 23; 24; 25;
   -1; -1; -1; -1; -1; -1; 26; 27; 28; 29; 30; 31; 32; 33; 34; 35;
   36; 37; 38; 39; 40; 41; 42; 43; 44; 45; 46; 47; 48; 49; 50; 51].

Definition b64index (c : Z) : option Z :=
  if c <? 43 then Some (-1)
  else
    let c := c - 43 in
    if zlen decoding <=? c then Some (-1) else decoding.[c].

(** The inner loop: the next four digits that are not skipped, with the number
    of [=] among them, and the rest of the text. *)
Fixpoint b64_digits (text : list Z) (c : list Z) (padding : Z)
    : res (list Z * Z * list Z) :=
  if zlen c =? 4 then Ok (c, padding, text)
  else match text with
  | [] => Err "Invalid base64 text"
  | t :: text =>
      v ← lift (b64index t);
      if v =? -1 then b64_digits text c padding
      else b64_digits text (c ++ [v]) (if v =? -2 then padding + 1 else padding)
  end.

(** The bytes of four digits: the [switch] on the padding. *)
Definition b64_group (c : list Z) (padding : Z) : res (list Z) :=
  c0 ← lift c.[0]; c1 ← lift c.[1]; c2 ← lift c.[2]; c3 ← lift c.[3];
  if padding =? 0 then
    let v := u32 (Z.lor (Z.lor (Z.lor (Z.shiftl c0 18) (Z.shiftl c1 12)) (Z.shiftl c2 6)) c3) in
    Ok [u8 (Z.shiftr v 16); Z.land (Z.shiftr v 8) 0xff; Z.land v 0xff]
  else if padding =? 1 then
    if negb (c3 =? -2) || negb (Z.land c2 3 =? 0) then Err "Invalid base64 text"
    else
      let v := u32 (Z.lor (Z.lor (Z.shiftl c0 10) (Z.shiftl c1 4)) (Z.shiftr c2 2)) in
      Ok [u8 (Z.shiftr v 8); Z.land v 0xff]
  else if padding =? 2 then
    if negb (c3 =? -2) || negb (c2 =? -2) || negb (Z.land c1 0xf =? 0)
    then Err "Invalid base64 text"
    else
      let v := u32 (Z.lor (Z.shiftl c0 2) (Z.shiftr c1 4)) in
      Ok [u8 v]
  else Err "Invalid base64 text".

(** The outer loop; every round consumes at least four characters. *)
Fixpoint b64_decode (fuel : nat) (text : list Z) : res (list Z) :=
  match fuel with
  | O => Ub
  | S fuel =>
      if zlen text =? 0 then Ok []
      else
        '(c, padding, rest) ← b64_digits text [] 0;
        out ← b64_group c padding;
        out' ← b64_decode fuel rest;
        Ok (out ++ out')
  end.

Definition lb64decode (text : list Z) : res (list Z) :=
  b64_decode (S (length text)) text.

(** ** Hexadecimal *)

(** A property of the first [n] naturals, checked by evaluation. *)
Lemma check_below (f : Z -> bool) n : forallb f (map Z.of_nat (seq 0 n)) = true ->
  forall d, 0 <= d < Z.of_nat n -> f d = true.
Proof.
  rewrite forallb_forall. intros H d Hd. apply H. apply in_map_iff.
  exists (Z.to_nat d). split; [lia|]. apply in_seq. lia.
Qed.

Lemma hex_digit d : 0 <= d < 16 -> exists e, hex.[d] = Some e /\ HEX e = d.
Proof.
  intros Hd. assert ((match hex.[d] with Some e => HEX e =? d | None => false end) = true) as Hc.
  { revert d Hd. apply (check_below _ 16). vm_compute. reflexivity. }
  destruct (hex.[d]) as [e|]; [|done]. exists e. split; [done|]. by apply Z.eqb_eq.
Qed.

Lemma hex_byte c : is_u8 c -> exists e0 e1,
  hex.[Z.shiftr c 4] = Some e0 /\ hex.[Z.land c 15] = Some e1 /\ hex_pair e0 e1 = Ok c.
Proof.
  unfold is_u8. intros Hc. rewrite (land_mask c 4 ltac:(lia) : Z.land c 15 = _).
  rewrite Z.shiftr_div_pow2 by lia.
  destruct (hex_digit (c / 2 ^ 4)) as (e0 & -> & He0); [Z.div_mod_to_equations; lia|].
  destruct (hex_digit (c mod 2 ^ 4)) as (e1 & -> & He1); [Z.div_mod_to_equations; lia|].
  exists e0, e1. split_and!; try done. unfold hex_pair. rewrite He0, He1.
  destruct (Z.ltb_spec 16 (c / 2 ^ 4)); [Z.div_mod_to_equations; lia|].
  destruct (Z.ltb_spec 16 (c mod 2 ^ 4)); [Z.div_mod_to_equations; lia|]. simpl orb. cbv iota.
  f_equal. rewrite Z.lor_comm, lor_shiftl_add by (lia || apply Z.mod_pos_bound; lia).
  unfold u8. rewrite Z.mod_small; Z.div_mod_to_equations; lia.
Qed.

Lemma hex_chars_spec text : is_bytes text ->
  exists c, hex_chars text = Some c /\ zlen c = 2 * zlen text /\ unhex c = Ok text.
Proof.
  induction 1 as [|b text Hb _ (c & Hc & Hlen & Hun)]; [by exists []|].
  destruct (hex_byte b Hb) as (e0 & e1 & He0 & He1 & Hp). exists (e0 :: e1 :: c).
  split; [|split].
  - cbn [hex_chars]. rewrite He0. cbn [mbind option_bind]. rewrite He1.
    cbn [mbind option_bind]. by rewrite Hc.
  - rewrite !zlen_cons, Hlen. lia.
  - cbn [unhex]. rewrite Hp. cbn [mbind res_bind]. by rewrite Hun.
Qed.

(** Hexadecimal text is decoded to the encoded bytes exactly if their number is
    even.  [hexdecode] means to refuse a text of odd length, but tests the
    second lowest bit of the length ([sz & 2]): it refuses the encoding of every string
    of odd length. *)
Theorem hex_roundtrip (text : list Z) : is_bytes text ->
  exists c, ltohex text = Ok c /\ zlen c = 2 * zlen text /\
    lfromhex c = if Z.even (zlen text) then Ok text else Err "Invalid hex text size %d".
Proof.
  intros Hb. destruct (hex_chars_spec text Hb) as (c & Hc & Hlen & Hun).
  exists c. unfold ltohex, lfromhex. rewrite Hc, Hun, Hlen. split; [done|]. split; [done|].
  assert (Z.land (2 * zlen text) 2 = Z.land ((2 * zlen text) mod 2 ^ 2) 2) as ->
    by (by rewrite <-(land_mask _ 2), <-Z.land_assoc by lia).
  destruct (Z.even (zlen text)) eqn:He.
  - apply Z.even_spec in He as [k ->].
    replace ((2 * (2 * k)) mod 2 ^ 2) with 0 by (Z.div_mod_to_equations; lia). done.
  - rewrite <-Z.negb_odd in He. apply negb_false_iff, Z.odd_spec in He as [k ->].
    replace ((2 * (2 * k + 1)) mod 2 ^ 2) with 2 by (Z.div_mod_to_equations; lia). done.
Qed.

(** [hexdecode] accepts the character [g] as the digit 16 (the test is [hi > 16]). *)
Theorem hexdecode_accepts_g : lfromhex (bytes_of "00gg") = Ok [0; 16].
Proof. vm_compute. reflexivity. Qed.

(** ** Base64 *)

Lemma b64_digit d : 0 <= d < 64 -> exists e, encoding.[d] = Some e /\ b64index e = Some d.
Proof.
  intros Hd. assert ((match encoding.[d] with
    Some e => match b64index e with Some d' => d' =? d | None => false end
    | None => false end) = true) as Hc.
  { revert d Hd. apply (check_below _ 64). vm_compute. reflexivity. }
  destruct (encoding.[d]) as [e|]; [|done]. exists e. split; [done|].
  destruct (b64index e); [|done]. f_equal. by apply Z.eqb_eq.
Qed.

Lemma b64_digits_4 e0 e1 e2 e3 d0 d1 d2 d3 rest :
  b64index e0 = Some d0 -> b64index e1 = Some d1 -> b64index e2 = Some d2 ->
  b64index e3 = Some d3 -> d0 <> -1 -> d1 <> -1 -> d2 <> -1 -> d3 <> -1 ->
  b64_digits (e0 :: e1 :: e2 :: e3 :: rest) [] 0 =
  Ok ([d0; d1; d2; d3],
      let p := if d0 =? -2 then 0 + 1 else 0 in
      let p := if d1 =? -2 then p + 1 else p in
      let p := if d2 =? -2 then p + 1 else p in
      if d3 =? -2 then p + 1 else p, rest).
Proof.
  intros H0 H1 H2 H3 N0 N1 N2 N3. cbn [b64_digits].
  rewrite H0, H1, H2, H3. cbn [lift mbind res_bind].
  apply Z.eqb_neq in N0, N1, N2, N3. rewrite N0, N1, N2, N3.
  by destruct rest.
Qed.

(** A full group of three bytes. *)
Lemma b64_group_3 t0 t1 t2 : is_u8 t0 -> is_u8 t1 -> is_u8 t2 ->
  let v := Z.lor (Z.lor (Z.shiftl t0 16) (Z.shiftl t1 8)) t2 in
  exists d0 d1 d2 d3, Z.shiftr v 18 = d0 /\ Z.land (Z.shiftr v 12) 0x3f = d1 /\
    Z.land (Z.shiftr v 6) 0x3f = d2 /\ Z.land v 0x3f = d3 /\
    (0 <= d0 < 64 /\ 0 <= d1 < 64 /\ 0 <= d2 < 64 /\ 0 <= d3 < 64) /\
    b64_group [d0; d1; d2; d3] 0 = Ok [t0; t1; t2].
Proof.
  intros H0 H1 H2 v. unfold is_u8 in *.
  assert (v = t0 * 65536 + t1 * 256 + t2) as Hv.
  { subst v. rewrite Z.lor_comm, (Z.lor_comm (Z.shiftl t0 16)), Z.lor_assoc.
    rewrite lor_shiftl_add, lor_shiftl_add by (rewrite ?lor_shiftl_add; lia). lia. }
  clearbody v. change 0x3f with (2 ^ 6 - 1). rewrite !land_mask, !Z.shiftr_div_pow2 by lia.
  do 4 eexists. do 4 (split; [reflexivity|]).
  split; [split_and!; Z.div_mod_to_equations; lia|].
  unfold b64_group. cbn [aget lift mbind res_bind]. simpl.
  set (d0 := v / 2 ^ 18). set (d1 := v / 2 ^ 12 mod 2 ^ 6).
  set (d2 := v / 2 ^ 6 mod 2 ^ 6). set (d3 := v mod 2 ^ 6).
  assert (Z.lor (Z.lor (Z.lor (Z.shiftl d0 18) (Z.shiftl d1 12)) (Z.shiftl d2 6)) d3 = v) as ->.
  { rewrite Z.lor_comm, (Z.lor_comm _ (Z.shiftl d2 6)), Z.lor_assoc,
      (Z.lor_comm (Z.shiftl d0 18)), Z.lor_assoc.
    rewrite (lor_shiftl_add d3), (lor_shiftl_add _ d1), (lor_shiftl_add _ d0)
      by (subst d0 d1 d2 d3; Z.div_mod_to_equations; lia).
    subst d0 d1 d2 d3. Z.div_mod_to_equations; lia. }
  rewrite u32_small by (unfold is_u32; lia).
  change 0xff with (2 ^ 8 - 1). rewrite !land_mask, !Z.shiftr_div_pow2 by lia. unfold u8.
  do 2 f_equal; [|do 2 f_equal]; Z.div_mod_to_equations; lia.
Qed.

Lemma b64_group_1 v : is_u8 v ->
  let d0 := Z.shiftr v 2 in let d1 := Z.shiftl (Z.land v 3) 4 in
  0 <= d0 < 64 /\ 0 <= d1 < 64 /\ b64_group [d0; d1; -2; -2] 2 = Ok [v].
Proof.
  intros Hv d0 d1. unfold is_u8 in Hv.
  assert (d0 = v / 2 ^ 2) as Hd0 by (subst d0; by rewrite Z.shiftr_div_pow2 by lia).
  assert (d1 = v mod 2 ^ 2 * 2 ^ 4) as Hd1.
  { subst d1. by rewrite Z.shiftl_mul_pow2, (land_mask v 2 ltac:(lia) : Z.land v 3 = _) by lia. }
  clearbody d0 d1.
  split; [Z.div_mod_to_equations; lia|]. split; [Z.div_mod_to_equations; lia|].
  unfold b64_group. cbn [aget lift mbind res_bind]. simpl.
  rewrite (land_mask d1 4 ltac:(lia) : Z.land d1 15 = _).
  replace (d1 mod 2 ^ 4) with 0 by (subst d1; by rewrite Z.mod_mul by lia). simpl.
  rewrite Z.lor_comm, (Z.shiftr_div_pow2 d1), lor_shiftl_add
    by (subst; Z.div_mod_to_equations; lia).
  rewrite u32_small by (unfold is_u32; Z.div_mod_to_equations; lia).
  unfold u8. do 2 f_equal. Z.div_mod_to_equations; lia.
Qed.

Lemma b64_group_2 t0 t1 : is_u8 t0 -> is_u8 t1 ->
  let v := Z.lor (Z.shiftl t0 8) t1 in
  let d0 := Z.shiftr v 10 in let d1 := Z.land (Z.shiftr v 4) 0x3f in
  let d2 := Z.shiftl (Z.land v 0xf) 2 in
  0 <= d0 < 64 /\ 0 <= d1 < 64 /\ 0 <= d2 < 64 /\
  b64_group [d0; d1; d2; -2] 1 = Ok [t0; t1].
Proof.
  intros H0 H1 v d0 d1 d2. unfold is_u8 in *.
  assert (v = t0 * 256 + t1) as Hv.
  { subst v. rewrite Z.lor_comm, lor_shiftl_add by lia. lia. }
  assert (d0 = v / 2 ^ 10) as Hd0 by (subst d0; by rewrite Z.shiftr_div_pow2 by lia).
  assert (d1 = v / 2 ^ 4 mod 2 ^ 6) as Hd1.
  { subst d1. change 0x3f with (2 ^ 6 - 1). by rewrite land_mask, Z.shiftr_div_pow2 by lia. }
  assert (d2 = v mod 2 ^ 4 * 2 ^ 2) as Hd2.
  { subst d2. change 0xf with (2 ^ 4 - 1). by rewrite land_mask, Z.shiftl_mul_pow2 by lia. }
  clearbody v d0 d1 d2.
  do 3 (split; [Z.div_mod_to_equations; lia|]).
  unfold b64_group. cbn [aget lift mbind res_bind]. simpl.
  rewrite (land_mask d2 2 ltac:(lia) : Z.land d2 3 = _).
  replace (d2 mod 2 ^ 2) with 0 by (subst d2; by rewrite Z.mod_mul by lia). simpl.
  assert (Z.lor (Z.lor (Z.shiftl d0 10) (Z.shiftl d1 4)) (Z.shiftr d2 2) = v) as ->.
  { rewrite (Z.shiftr_div_pow2 d2), Z.lor_comm, (Z.lor_comm (Z.shiftl d0 10)), Z.lor_assoc by lia.
    rewrite (lor_shiftl_add _ d1), (lor_shiftl_add _ d0) by (subst d0 d1 d2; Z.div_mod_to_equations; lia).
    subst d0 d1 d2. Z.div_mod_to_equations; lia. }
  rewrite u32_small by (unfold is_u32; lia).
  change 0xff with (2 ^ 8 - 1). rewrite !land_mask, !Z.shiftr_div_pow2 by lia. unfold u8.
  do 2 f_equal; [|do 2 f_equal]; Z.div_mod_to_equations; lia.
Qed.

Lemma b64_eq : b64index 61 = Some (-2).
Proof. done. Qed.

Lemma b64_spec n : forall text, (length text <= n)%nat -> is_bytes text ->
  exists c, b64_encode text = Some c /\ zlen c = (zlen text + 2) / 3 * 4 /\
    forall fuel, (length c < fuel)%nat -> b64_decode fuel c = Ok text.
Proof.
  induction n as [|n IH]; intros text Hn Hb.
  { destruct text; [|simpl in Hn; lia]. exists []. split; [done|]. split; [done|].
    intros [|fuel] Hf; [simpl in Hf; lia | done]. }
  destruct text as [|t0 [|t1 [|t2 rest]]].
  - exists []. split; [done|]. split; [done|]. intros [|fuel] Hf; [simpl in Hf; lia | done].
  - apply Forall_cons in Hb as [H0 _]. destruct (b64_group_1 t0 H0) as (B0 & B1 & Hg).
    destruct (b64_digit _ B0) as (e0 & He0 & Hi0). destruct (b64_digit _ B1) as (e1 & He1 & Hi1).
    exists [e0; e1; 61; 61]. split; [|split; [done|]].
    + cbn [b64_encode]. rewrite He0. cbn [mbind option_bind]. by rewrite He1.
    + intros [|[|fuel]] Hf; [simpl in Hf; lia..|]. cbn [b64_decode].
      change (zlen [e0; e1; 61; 61] =? 0) with false. cbv iota.
      rewrite (b64_digits_4 _ _ _ _ _ _ (-2) (-2) [] Hi0 Hi1 b64_eq b64_eq) by lia.
      destruct (Z.eqb_spec (Z.shiftr t0 2) (-2)); [lia|].
      destruct (Z.eqb_spec (Z.shiftl (Z.land t0 3) 4) (-2)); [lia|].
      cbv zeta. change (-2 =? -2) with true. cbv iota. cbn [mbind res_bind].
      change (0 + 1 + 1) with 2. by rewrite Hg.
  - apply Forall_cons in Hb as [H0 Hb]. apply Forall_cons in Hb as [H1 _].
    destruct (b64_group_2 t0 t1 H0 H1) as (B0 & B1 & B2 & Hg).
    destruct (b64_digit _ B0) as (e0 & He0 & Hi0). destruct (b64_digit _ B1) as (e1 & He1 & Hi1).
    destruct (b64_digit _ B2) as (e2 & He2 & Hi2).
    exists [e0; e1; e2; 61]. split; [|split; [done|]].
    + cbn [b64_encode]. rewrite He0. cbn [mbind option_bind]. rewrite He1.
      cbn [mbind option_bind]. by rewrite He2.
    + intros [|[|fuel]] Hf; [simpl in Hf; lia..|]. cbn [b64_decode].
      change (zlen [e0; e1; e2; 61] =? 0) with false. cbv iota.
      rewrite (b64_digits_4 _ _ _ _ _ _ _ (-2) [] Hi0 Hi1 Hi2 b64_eq) by lia.
      cbv zeta. change (-2 =? -2) with true.
      repeat match goal with |- context [?a =? -2] => destruct (Z.eqb_spec a (-2)); [lia|] end.
      cbv iota. cbn [mbind res_bind]. change (0 + 1) with 1. by rewrite Hg.
  - unfold is_bytes in Hb. rewrite !Forall_cons in Hb. destruct Hb as (H0 & H1 & H2 & Hb).
    destruct (IH rest ltac:(simpl in Hn; lia) Hb) as (c & Hc & Hlen & Hdec).
    destruct (b64_group_3 t0 t1 t2 H0 H1 H2)
      as (d0 & d1 & d2 & d3 & E0 & E1 & E2 & E3 & (B0 & B1 & B2 & B3) & Hg).
    destruct (b64_digit _ B0) as (e0 & He0 & Hi0). destruct (b64_digit _ B1) as (e1 & He1 & Hi1).
    destruct (b64_digit _ B2) as (e2 & He2 & Hi2). destruct (b64_digit _ B3) as (e3 & He3 & Hi3).
    exists (e0 :: e1 :: e2 :: e3 :: c). split; [|split].
    + cbn [b64_encode]. rewrite E0, E1, E2, E3, He0. cbn [mbind option_bind].
      rewrite He1. cbn [mbind option_bind]. rewrite He2. cbn [mbind option_bind].
      rewrite He3. cbn [mbind option_bind]. by rewrite Hc.
    + rewrite !zlen_cons, Hlen. Z.div_mod_to_equations; lia.
    + intros [|fuel] Hf; [simpl in Hf; lia|]. cbn [b64_decode].
      destruct (Z.eqb_spec (zlen (e0 :: e1 :: e2 :: e3 :: c)) 0) as [Hz|_];
        [rewrite !zlen_cons in Hz; pose proof (zlen_nonneg c); lia|].
      rewrite (b64_digits_4 _ _ _ _ _ _ _ _ c Hi0 Hi1 Hi2 Hi3) by lia. cbv zeta.
      repeat match goal with |- context [?a =? -2] => destruct (Z.eqb_spec a (-2)); [lia|] end.
      cbn [mbind res_bind]. rewrite Hg. cbn [mbind res_bind].
      rewrite Hdec by (simpl in Hf; lia). done.
Qed.

(** [base64decode] undoes [base64encode]: every byte string is encoded to
    exactly the [encode_sz] characters that are pushed, without an access
    outside the text, the alphabet or the buffer, and decoded to itself. *)
Theorem base64_roundtrip (text : list Z) : is_bytes text ->
  exists c, lb64encode text = Ok c /\ zlen c = (zlen text + 2) / 3 * 4 /\
    lb64decode c = Ok text.
Proof.
  intros Hb. destruct (b64_spec (length text) text (le_n _) Hb) as (c & Hc & Hlen & Hdec).
  exists c. unfold lb64encode, lb64decode. rewrite Hc. cbn [lift mbind res_bind].
  rewrite Hlen, Z.eqb_refl. split; [done|]. split; [done|]. apply Hdec. lia.
Qed.

(** ** Diffie-Hellman *)

Lemma P_bounds : P < 2 ^ 64 /\ 2 ^ 63 < P.
Proof. unfold P. lia. Qed.

Lemma mul_loop_spec fuel : forall a b m,
  0 <= a <= P -> 0 <= m < P -> 0 <= b < 2 ^ Z.of_nat fuel ->
  mul_loop fuel a b m = Some ((m + a * b) mod P).
Proof.
  pose proof P_bounds as HP.
  induction fuel as [|fuel IH]; intros a b m Ha Hm Hb; cbn [mul_loop].
  - assert (b = 0) as -> by lia. rewrite Z.mul_0_r, Z.add_0_r, Z.mod_small by lia. done.
  - destruct (Z.eqb_spec b 0) as [->|Hb0].
    { by rewrite Z.mul_0_r, Z.add_0_r, Z.mod_small by lia. }
    rewrite (land_mask b 1 ltac:(lia) : Z.land b 1 = _).
    set (m' := if negb (b mod 2 ^ 1 =? 0) then _ else m).
    assert (0 <= m' < P /\ (m' - m - a * (b mod 2)) mod P = 0) as [Hm' Hmm].
    { subst m'. change (2 ^ 1) with 2.
      destruct (Z.eqb_spec (b mod 2) 0) as [E|E]; cbn [negb].
      - rewrite E. split; [lia|]. replace (m - m - a * 0) with 0 by lia. done.
      - assert (b mod 2 = 1) as -> by (pose proof (Z.mod_pos_bound b 2); lia).
        unfold u64. rewrite (Z.mod_small (P - a)) by lia.
        destruct (Z.leb_spec (P - a) m).
        + split; [lia|]. replace (m - (P - a) - m - a * 1) with (-1 * P) by lia.
          apply Z.mod_mul. lia.
        + rewrite Z.mod_small by lia. split; [lia|].
          replace (m + a - m - a * 1) with 0 by lia. done. }
    set (a' := if u64 (P - a) <=? a then _ else _).
    assert (0 <= a' <= P /\ (a' - 2 * a) mod P = 0) as [Ha' Haa].
    { subst a'. unfold u64. rewrite (Z.mod_small (P - a)) by lia.
      destruct (Z.leb_spec (P - a) a).
      - rewrite Z.mod_small by lia. split; [lia|].
        replace (a * 2 - P - 2 * a) with (-1 * P) by lia. apply Z.mod_mul. lia.
      - rewrite Z.mod_small by lia. split; [lia|].
        replace (a * 2 - 2 * a) with 0 by lia. done. }
    rewrite Z.shiftr_div_pow2 by lia. change (2 ^ 1) with 2.
    rewrite IH; [|done|done|].
    + f_equal. apply Z.mod_divide in Hmm as [q1 Hq1]; [|lia].
      apply Z.mod_divide in Haa as [q2 Hq2]; [|lia].
      replace (m + a * b) with (m' + a' * (b / 2) + (- q1 - q2 * (b / 2)) * P).
      * by rewrite Z.mod_add by lia.
      * pose proof (Z.div_mod b 2 ltac:(lia)). nia.
    + rewrite Nat2Z.inj_succ, Z.pow_succ_r in Hb by lia. split.
      * apply Z.div_pos; lia.
      * apply Z.div_lt_upper_bound; lia.
Qed.

Lemma mul_mod_p_spec a b : 0 <= a <= P -> 0 <= b <= P -> mul_mod_p a b = Some ((a * b) mod P).
Proof.
  intros Ha Hb. unfold mul_mod_p. rewrite mul_loop_spec; [by rewrite Z.add_0_l| |..];
    unfold P in *; lia.
Qed.

#[local] Opaque mul_mod_p P.

Lemma pow_square a h p : 0 <= h ->
  ((a ^ h mod p) * (a ^ h mod p)) mod p = a ^ (2 * h) mod p.
Proof. intros Hh. rewrite <-Zmult_mod, <-Z.pow_add_r by done. do 2 f_equal. lia. Qed.

Lemma pow_square_mul a h p : 0 <= h ->
  ((a ^ (2 * h) mod p) * a) mod p = a ^ (2 * h + 1) mod p.
Proof.
  intros Hh. rewrite Zmult_mod_idemp_l. f_equal. rewrite Z.pow_add_r, Z.pow_1_r by lia. done.
Qed.

Lemma pow_mod_p_S fuel a b : pow_mod_p (S fuel) a b =
  if b =? 1 then Some a
  else
    t ← pow_mod_p fuel a (Z.shiftr b 1);
    t ← mul_mod_p t t;
    if negb (b mod 2 =? 0) then mul_mod_p t a else Some t.
Proof. done. Qed.

Lemma some_bind {A B} (x : A) (f : A -> option B) : (Some x ≫= f) = f x.
Proof. done. Qed.

Lemma pow_mod_p_step a b h : 0 <= a < P -> 1 <= h -> b = 2 * h \/ b = 2 * h + 1 ->
  (t ← Some (a ^ h mod P);
   t ← mul_mod_p t t;
   if negb (b mod 2 =? 0) then mul_mod_p t a else Some t) = Some (a ^ b mod P).
Proof.
  intros Ha Hh Hb. pose proof P_bounds as HP.
  pose proof (Z.mod_pos_bound (a ^ h) P ltac:(lia)) as Hm.
  pose proof (Z.mod_pos_bound (a ^ (2 * h)) P ltac:(lia)) as Hm2.
  rewrite some_bind, mul_mod_p_spec, some_bind by lia. rewrite pow_square by lia.
  destruct Hb as [-> | ->].
  - replace ((2 * h) mod 2) with 0 by (Z.div_mod_to_equations; lia). done.
  - replace ((2 * h + 1) mod 2) with 1 by (Z.div_mod_to_equations; lia). cbn [negb Z.eqb].
    rewrite mul_mod_p_spec by lia. by rewrite pow_square_mul by lia.
Qed.

Lemma half_bounds b k : 1 <= b -> b <> 1 -> 0 <= k -> b < 2 ^ (k + 1 + 1) ->
  1 <= b / 2 < 2 ^ (k + 1) /\ (b = 2 * (b / 2) \/ b = 2 * (b / 2) + 1).
Proof.
  intros H1 H2 Hk Hb. rewrite (Z.pow_add_r 2 (k + 1) 1) in Hb by lia.
  Z.div_mod_to_equations; lia.
Qed.

Lemma pow_mod_p_spec fuel : forall a b, 0 <= a < P -> 1 <= b < 2 ^ (Z.of_nat fuel + 1) ->
  pow_mod_p fuel a b = Some (a ^ b mod P).
Proof.
  induction fuel as [|fuel IH]; intros a b Ha Hb.
  - assert (b = 1) as -> by (simpl in Hb; lia). simpl.
    by rewrite Z.pow_1_r, Z.mod_small by lia.
  - rewrite pow_mod_p_S. destruct (Z.eqb_spec b 1) as [->|Hb1].
    { by rewrite Z.pow_1_r, Z.mod_small by lia. }
    rewrite Nat2Z.inj_succ, <-Z.add_1_r in Hb.
    destruct (half_bounds b (Z.of_nat fuel)) as [Hh Hbh]; try lia.
    rewrite Z.shiftr_div_pow2 by lia. rewrite Z.pow_1_r, IH by done.
    apply pow_mod_p_step; [done | lia | done].
Qed.

Lemma powmodp_spec a b : 0 <= a < P -> 1 <= b < 2 ^ 64 -> powmodp a b = Some (a ^ b mod P).
Proof.
  intros Ha Hb. unfold powmodp. destruct (Z.ltb_spec P a); [lia|].
  apply pow_mod_p_spec; [done|]. split; [lia|].
  apply Z.lt_le_trans with (2 ^ 64); [lia|]. apply Z.pow_le_mono_r; lia.
Qed.

(** The words and the bytes of a 64-bit number. *)
Lemma low_byte r k : 0 <= k <= 24 -> (r mod 2 ^ 32) / 2 ^ k mod 2 ^ 8 = r / 2 ^ k mod 2 ^ 8.
Proof.
  intros Hk. rewrite <-!Z.shiftr_div_pow2 by lia. apply Z.bits_inj'; intros i Hi.
  destruct (Z.lt_ge_cases i 8).
  - rewrite !Z.mod_pow2_bits_low, !Z.shiftr_spec, Z.mod_pow2_bits_low by lia. done.
  - by rewrite !Z.mod_pow2_bits_high by lia.
Qed.

Lemma push64_eq r : 0 <= r < 2 ^ 64 ->
  push64 r = put_le32 (r mod 2 ^ 32) ++ put_le32 (r / 2 ^ 32).
Proof.
  intros Hr. rewrite !put_le32_eq. unfold push64. simpl map.
  rewrite !land_255, !Z.shiftr_div_pow2 by lia. simpl app.
  rewrite !low_byte, !Z.div_div by lia. rewrite <-!Z.pow_add_r by lia.
  pose proof (low_byte r 0 ltac:(lia)) as H0. change (2 ^ 0) with 1 in *.
  rewrite !Z.div_1_r in *. by rewrite H0.
Qed.

Lemma qword_put a b : is_u32 a -> is_u32 b -> qword (put_le32 a ++ put_le32 b) = Some (a, b).
Proof.
  intros Ha Hb. rewrite !put_le32_eq. unfold qword. simpl. by rewrite !le32_put_le32.
Qed.

Lemma qword_bytes x : length x = 8%nat -> is_bytes x ->
  exists a b, is_u32 a /\ is_u32 b /\ x = put_le32 a ++ put_le32 b.
Proof.
  intros Hlen Hb. destruct x as [|b0 [|b1 [|b2 [|b3 [|b4 [|b5 [|b6 [|b7 [|]]]]]]]]]; try done.
  unfold is_bytes in Hb. rewrite !Forall_cons in Hb. destruct_and!.
  exists (le32 b0 b1 b2 b3), (le32 b4 b5 b6 b7).
  rewrite !put_le32_le32 by done. split; [by apply le32_bound|]. split; [by apply le32_bound | done].
Qed.

Lemma u64_of_eq a b : is_u32 a -> is_u32 b -> u64_of (a, b) = a + b * 2 ^ 32.
Proof. intros. unfold u64_of; simpl. by rewrite lor_shiftl_add. Qed.

Lemma push64_bytes r : is_bytes (push64 r) /\ length (push64 r) = 8%nat.
Proof.
  split; [|done]. unfold push64. simpl. unfold is_bytes.
  rewrite !land_255. repeat constructor; unfold is_u8; try apply Z.mod_pos_bound; lia.
Qed.

(** Eight bytes are a 64-bit number. *)
Lemma bytes_u64 x : length x = 8%nat -> is_bytes x ->
  exists n, 0 <= n < 2 ^ 64 /\ x = push64 n.
Proof.
  intros Hlen Hb. destruct (qword_bytes x Hlen Hb) as (a & b & Ha & Hb' & ->).
  unfold is_u32 in *. exists (a + b * 2 ^ 32). split; [lia|].
  rewrite push64_eq by lia. do 2 f_equal; Z.div_mod_to_equations; lia.
Qed.

Lemma qword_push64 n : 0 <= n < 2 ^ 64 ->
  exists a b, qword (push64 n) = Some (a, b) /\ u64_of (a, b) = n.
Proof.
  intros Hn. exists (n mod 2 ^ 32), (n / 2 ^ 32).
  assert (is_u32 (n mod 2 ^ 32)) by (unfold is_u32; Z.div_mod_to_equations; lia).
  assert (is_u32 (n / 2 ^ 32)) by (unfold is_u32; Z.div_mod_to_equations; lia).
  rewrite push64_eq, qword_put, u64_of_eq by done.
  split; [done|]. Z.div_mod_to_equations; lia.
Qed.

Lemma dhexchange_spec x : 1 <= x < 2 ^ 64 -> ldhexchange (push64 x) = Ok (push64 (G ^ x mod P)).
Proof.
  intros Hx. pose proof P_bounds. unfold ldhexchange. change (zlen (push64 x)) with 8.
  destruct (qword_push64 x) as (a & b & Hq & Hu); [lia|]. change (8 =? 8) with true.
  cbn [negb]. rewrite Hq. cbn [lift mbind res_bind]. rewrite Hu.
  destruct (Z.eqb_spec x 0); [lia|]. rewrite powmodp_spec; [done | unfold G; lia | lia].
Qed.

Lemma dhsecret_spec x y : 1 <= x < P -> 1 <= y < 2 ^ 64 ->
  ldhsecret (push64 x) (push64 y) = Ok (push64 (x ^ y mod P)).
Proof.
  intros Hx Hy. pose proof P_bounds. unfold ldhsecret, read64.
  change (zlen (push64 x)) with 8. change (zlen (push64 y)) with 8. change (8 =? 8) with true.
  destruct (qword_push64 x) as (a & b & -> & Hu); [lia|].
  destruct (qword_push64 y) as (c & d & -> & Hu'); [lia|].
  cbn [negb lift mbind res_bind]. rewrite Hu, Hu'.
  destruct (Z.eqb_spec x 0); [lia|]. destruct (Z.eqb_spec y 0); [lia|]. cbn [orb].
  rewrite powmodp_spec; [done | lia | lia].
Qed.

(** The public number is never 0: 5 has no common divisor with [P]. *)
Lemma public_nonzero x : 0 <= x -> 1 <= G ^ x mod P < P.
Proof.
  intros Hx. pose proof P_bounds as HP.
  pose proof (Z.mod_pos_bound (G ^ x) P ltac:(lia)) as Hb.
  destruct (Z.eq_dec (G ^ x mod P) 0) as [E|]; [|lia]. exfalso.
  apply Z.mod_divide in E; [|lia].
  assert (Z.coprime P (G ^ x)) as Hr.
  { apply Z.coprime_pow_r; [done|]. vm_compute. reflexivity. }
  unfold Z.coprime in Hr. apply Z.divide_gcd_iff in E; [|lia]. lia.
Qed.

(** The two sides of the Diffie-Hellman exchange agree.  For any two non-zero
    64-bit secrets the public numbers are computed without overflow as
    [5^x mod P], are never 0, and each side's [dhsecret] of the other's public
    number gives the same eight bytes, [5^(x*y) mod P]. *)
Theorem dh_agreement (a b : list Z) :
  length a = 8%nat -> is_bytes a -> length b = 8%nat -> is_bytes b ->
  a <> replicate 8 0 -> b <> replicate 8 0 ->
  exists A B S x y, a = push64 x /\ b = push64 y /\
    ldhexchange a = Ok A /\ ldhexchange b = Ok B /\
    ldhsecret A b = Ok S /\ ldhsecret B a = Ok S /\ S = push64 (G ^ (x * y) mod P).
Proof.
  intros Ha Hab Hb Hbb Na Nb. pose proof P_bounds as HP.
  destruct (bytes_u64 a Ha Hab) as (x & Hx & ->). destruct (bytes_u64 b Hb Hbb) as (y & Hy & ->).
  assert (x <> 0) by (intros ->; by apply Na). assert (y <> 0) by (intros ->; by apply Nb).
  exists (push64 (G ^ x mod P)), (push64 (G ^ y mod P)), (push64 (G ^ (x * y) mod P)), x, y.
  rewrite !dhexchange_spec by lia.
  pose proof (public_nonzero x ltac:(lia)). pose proof (public_nonzero y ltac:(lia)).
  rewrite !dhsecret_spec by lia. rewrite <-!Zpower_mod by lia.
  rewrite <-!Z.pow_mul_r by lia. rewrite (Z.mul_comm y x). done.
Qed.

(** ** hmac64 *)

Lemma hmac_rounds_total w n : forall i st, zlen w = 16 -> 0 <= i -> i + Z.of_nat n <= 64 ->
  is_Some (hmac_rounds n w i st).
Proof.
  induction n as [|n IH]; intros i st Hw Hi Hn; [by eexists|]. cbn [hmac_rounds].
  assert (is_Some (hmac_round w i st)) as [st' ->]; [|cbn [mbind option_bind]; apply IH; lia].
  destruct st as [[[a b] c] d]. unfold hmac_round.
  destruct (aget_is_Some hmac_k i) as [ki Hki]; [change (zlen hmac_k) with 64; lia|].
  destruct (aget_is_Some hmac_r i) as [ri Hri]; [change (zlen hmac_r) with 64; lia|].
  rewrite Hki, Hri.
  set (fg := if i <? 16 then _ else _). destruct fg as [f g] eqn:Hfg.
  assert (0 <= g < 16) as Hg.
  { subst fg. repeat case_match; simplify_eq; zdec; try lia; apply Z.mod_pos_bound; lia. }
  destruct (aget_is_Some w g) as [wg Hwg]; [lia|]. cbn [mbind option_bind]. rewrite Hwg.
  by eexists.
Qed.

Lemma hmac_total x y : is_Some (hmac x y).
Proof.
  unfold hmac.
  destruct (hmac_rounds_total ([x.2; x.1; y.2; y.1] ++ [x.2; x.1; y.2; y.1] ++
    [x.2; x.1; y.2; y.1] ++ [x.2; x.1; y.2; y.1]) 64 0
    (0x67452301, 0xefcdab89, 0x98badcfe, 0x10325476)) as [[[[a b] c] d] Hr]; [done | lia | lia |].
  cbv zeta. rewrite Hr. cbn [mbind option_bind]. by eexists.
Qed.

Lemma Hash_length text : length (Hash text) = 8%nat.
Proof. unfold Hash. by destruct (fold_left _ _ _). Qed.

#[local] Opaque hmac Hash.

(** [hmac_hash] is [hmac64] of the text's [hashkey] and the key; every
    index of the mixing loop is in range, the result has eight bytes, and a
    key of another length is refused. *)
Theorem hmac_hash_correct (key text : list Z) :
  if zlen key =? 8 then
    lhmac_hash key text = (h ← lhashkey text; lhmac64 h key) /\
    exists c, lhmac_hash key text = Ok c /\ length c = 8%nat
  else lhmac_hash key text = Err "Invalid uint64 key".
Proof.
  unfold lhmac_hash. destruct (Z.eqb_spec (zlen key) 8) as [Hk|]; cbn [negb]; [|done].
  assert (length (Hash text) = 8%nat) as Hh by apply Hash_length.
  assert (forall l, zlen l = 8 -> is_Some (qword l)) as Hq.
  { intros l Hl. unfold zlen in Hl.
    destruct l as [|b0 [|b1 [|b2 [|b3 [|b4 [|b5 [|b6 [|b7 [|]]]]]]]]]; simpl in Hl; try lia.
    by eexists. }
  destruct (Hq key Hk) as [k Hqk]. destruct (Hq (Hash text)) as [t Hqt]; [unfold zlen; by rewrite Hh|].
  destruct (hmac_total t k) as [r Hr].
  unfold lhashkey, lhmac64, read64.
  assert ((zlen (Hash text) =? 8) = true) as Hz by (unfold zlen; by rewrite Hh).
  rewrite (ok_bind (Hash text)), Hz, Hk. change (negb true) with false. change (negb (8 =? 8)) with false.
  cbv iota. rewrite Hqk, Hqt.
  repeat (rewrite lift_Some || rewrite ok_bind || rewrite Hqk || rewrite Hqt || rewrite Hr).
  split; [reflexivity|]. exists (pushqword r). split; reflexivity.
Qed.

(** [randomkey] gives eight bytes that are not all zero. *)
Theorem randomkey_nonzero (rnd : Z -> Z) :
  length (lrandomkey rnd) = 8%nat /\ is_bytes (lrandomkey rnd) /\
  lrandomkey rnd <> replicate 8 0.
Proof.
  assert (forall v, is_u8 (Z.land v 255)) as Hb
    by (intros v; rewrite land_255; apply Z.mod_pos_bound; lia).
  assert (forall v, is_u8 v -> is_u8 (Z.lor v 1)) as Hl.
  { intros v Hv. unfold is_u8 in *. rewrite (lor_mask v 1 ltac:(lia) : Z.lor v 1 = _).
    Z.div_mod_to_equations; lia. }
  unfold lrandomkey. simpl map.
  destruct (Z.eqb_spec (fold_left Z.lxor [Z.land (rnd 0) 255; Z.land (rnd 1) 255;
    Z.land (rnd 2) 255; Z.land (rnd 3) 255; Z.land (rnd 4) 255; Z.land (rnd 5) 255;
    Z.land (rnd 6) 255; Z.land (rnd 7) 255] 0) 0) as [_|Hx].
  - split; [done|]. split.
    + constructor; [apply Hl, Hb|]. repeat constructor; apply Hb.
    + intros [= H0 _]. rewrite (lor_mask _ 1 ltac:(lia) : Z.lor _ 1 = _) in H0.
      Z.div_mod_to_equations; lia.
  - split; [done|]. split; [repeat constructor; apply Hb|].
    intros Hz. apply Hx. rewrite Hz. reflexivity.
Qed.

(** ** Witnesses *)

Lemma hex_roundtrip_witness :
  exists c, ltohex (bytes_of "uboss!") = Ok c /\ lfromhex c = Ok (bytes_of "uboss!").
Proof.
  destruct (hex_roundtrip (bytes_of "uboss!")) as (c & Hc & _ & Hd).
  - apply (bool_decide_unpack _). vm_compute. exact I.
  - exists c. split; [exact Hc | exact Hd].
Defined.

Lemma base64_roundtrip_witness :
  lb64encode (bytes_of "uboss") = Ok (bytes_of "dWJvc3M=") /\
  lb64decode (bytes_of "dWJvc3M=") = Ok (bytes_of "uboss").
Proof.
  destruct (base64_roundtrip (bytes_of "uboss")) as (c & Hc & _ & Hd).
  - apply (bool_decide_unpack _). vm_compute. exact I.
  - assert (lb64encode (bytes_of "uboss") = Ok (bytes_of "dWJvc3M=")) as E
      by (vm_compute; reflexivity).
    split; [exact E|]. rewrite E in Hc. injection Hc as <-. exact Hd.
Defined.

Lemma dh_agreement_witness :
  exists A B S, ldhexchange [1; 2; 3; 4; 5; 6; 7; 8] = Ok A /\
    ldhexchange [8; 7; 6; 5; 4; 3; 2; 255] = Ok B /\
    ldhsecret A [8; 7; 6; 5; 4; 3; 2; 255] = Ok S /\
    ldhsecret B [1; 2; 3; 4; 5; 6; 7; 8] = Ok S.
Proof.
  assert (is_bytes [1; 2; 3; 4; 5; 6; 7; 8]) as Ha
    by (apply (bool_decide_unpack _); vm_compute; exact I).
  assert (is_bytes [8; 7; 6; 5; 4; 3; 2; 255]) as Hb
    by (apply (bool_decide_unpack _); vm_compute; exact I).
  destruct (dh_agreement [1; 2; 3; 4; 5; 6; 7; 8] [8; 7; 6; 5; 4; 3; 2; 255] eq_refl Ha eq_refl Hb
    ltac:(discriminate) ltac:(discriminate))
    as (A & B & S & x & y & _ & _ & H1 & H2 & H3 & H4 & _).
  exists A, B, S. exact (conj H1 (conj H2 (conj H3 H4))).
Defined.
