(* ===== verification/Sha1.v ===== *)
(** lib/crypt/lsha1.c: SHA-1 and HMAC-SHA1.

    A context is the record [SHA1_CTX]; a data block is the list of its 64 bytes.
    The macros of the 80 unrolled rounds permute the names of the five working
    variables; here the five values rotate through one tuple instead, which is the
    same after every five rounds.  The machine is little-endian
    ([WORDS_BIGENDIAN] undefined). *)
From stdpp Require Import strings.
From S2P Require Import Prelude Bytes.

Record SHA1_CTX := Sha1Ctx {
  state : Z * Z * Z * Z * Z;
  count : Z * Z;              (* count[0], count[1] *)
  buffer : list Z             (* 64 bytes *)
}.

Definition SHA1_DIGEST_SIZE : Z := 20.

(** ** One block *)

(** [rol]. *)
Definition rol (value bits : Z) : Z := rol32 value bits.

(** [blk0(i)]: swaps the bytes of the word in place. *)
Definition blk0 (i : Z) (l : list Z) : option (Z * list Z) :=
  x ← l.[i];
  let v := Z.lor (Z.land (rol x 24) 0xFF00FF00) (Z.land (rol x 8) 0x00FF00FF) in
  l ← l.[i := v];
  Some (v, l).

(** [blk(i)]: the next word of the schedule, in a ring of 16 words. *)
Definition blk (i : Z) (l : list Z) : option (Z * list Z) :=
  x0 ← l.[Z.land (i + 13) 15];
  x1 ← l.[Z.land (i + 8) 15];
  x2 ← l.[Z.land (i + 2) 15];
  x3 ← l.[Z.land i 15];
  let v := rol (Z.lxor (Z.lxor (Z.lxor x0 x1) x2) x3) 1 in
  l ← l.[Z.land i 15 := v];
  Some (v, l).

Abbreviation vars := (Z * Z * Z * Z * Z)%type (only parsing).

(** The common part of the macros [R0] to [R4]:
    [z += f + blk + k + rol(v,5); w = rol(w,30);], followed by the renaming of
    the variables for the next round. *)
Definition R_step (f : Z -> Z -> Z -> Z) (k b : Z) (vs : vars) : vars :=
  let '(v, w, x, y, z) := vs in
  let z := u32 (z + u32 (f w x y + b + k + rol v 5)) in
  let w := rol w 30 in
  (z, v, w, x, y).

Definition f01 (w x y : Z) : Z := Z.lxor (Z.land w (Z.lxor x y)) y.
Definition f24 (w x y : Z) : Z := Z.lxor (Z.lxor w x) y.
Definition f3 (w x y : Z) : Z := Z.lor (Z.land (Z.lor w x) y) (Z.land w x).

Definition R0 (i : Z) (st : vars * list Z) : option (vars * list Z) :=
  '(b, l) ← blk0 i st.2; Some (R_step f01 0x5A827999 b st.1, l).
Definition R1 (i : Z) (st : vars * list Z) : option (vars * list Z) :=
  '(b, l) ← blk i st.2; Some (R_step f01 0x5A827999 b st.1, l).
Definition R2 (i : Z) (st : vars * list Z) : option (vars * list Z) :=
  '(b, l) ← blk i st.2; Some (R_step f24 0x6ED9EBA1 b st.1, l).
Definition R3 (i : Z) (st : vars * list Z) : option (vars * list Z) :=
  '(b, l) ← blk i st.2; Some (R_step f3 0x8F1BBCDC b st.1, l).
Definition R4 (i : Z) (st : vars * list Z) : option (vars * list Z) :=
  '(b, l) ← blk i st.2; Some (R_step f24 0xCA62C1D6 b st.1, l).

(** The macro of round [i] of the unrolled sequence. *)
Definition R (i : Z) : vars * list Z -> option (vars * list Z) :=
  if i <? 16 then R0 i else if i <? 20 then R1 i else if i <? 40 then R2 i
  else if i <? 60 then R3 i else R4 i.

Fixpoint rounds (n : nat) (i : Z) (st : vars * list Z) : option (vars * list Z) :=
  match n with
  | O => Some st
  | S n => st ← R i st; rounds n (i + 1) st
  end.

(** The sixteen words of [block.l]: [memcpy] and the union. *)
Fixpoint words_of (b : list Z) : list Z :=
  match b with
  | b0 :: b1 :: b2 :: b3 :: rest => le32 b0 b1 b2 b3 :: words_of rest
  | _ => []
  end.

Definition add_vars (s t : vars) : vars :=
  let '(a, b, c, d, e) := s in
  let '(a', b', c', d', e') := t in
  (u32 (a + a'), u32 (b + b'), u32 (c + c'), u32 (d + d'), u32 (e + e')).

(** [SHA1_Transform(state, buffer)]; [buffer] must have 64 bytes. *)
Definition SHA1_Transform (st : vars) (b : list Z) : option vars :=
  _ ← cassert (zlen b =? 64);
  r ← rounds 80 0 (st, words_of b);
  Some (add_vars st r.1).

(** ** Contexts *)

Definition sat_SHA1_Init (old_buffer : list Z) : SHA1_CTX :=
  {| state := (0x67452301, 0xEFCDAB89, 0x98BADCFE, 0x10325476, 0xC3D2E1F0);
     count := (0, 0); buffer := old_buffer |}.

(** [for ( ; i + 63 < len; i += 64) SHA1_Transform(state, data + i);] *)
Fixpoint update_blocks (fuel : nat) (st : vars) (data : list Z) (i : Z)
    : option (vars * Z) :=
  match fuel with
  | O => None
  | S fuel =>
      if i + 63 <? zlen data then
        b ← slice data i 64;
        st ← SHA1_Transform st b;
        update_blocks fuel st data (i + 64)
      else Some (st, i)
  end.

(** The bit count: [count[0]] is 32 bits wide, [len << 3] is a [size_t]. *)
Definition add_count (c : Z * Z) (len : Z) : Z * Z :=
  let '(c0, c1) := c in
  let shifted := u64 (Z.shiftl len 3) in
  let c0 := u32 (c0 + shifted) in
  let c1 := if c0 <? shifted then u32 (c1 + 1) else c1 in
  (c0, u32 (c1 + Z.shiftr len 29)).

Definition sat_SHA1_Update (ctx : SHA1_CTX) (data : list Z) : option SHA1_CTX :=
  let len := zlen data in
  let j := Z.land (Z.shiftr (count ctx).1 3) 63 in
  let cnt := add_count (count ctx) len in
  if 63 <? j + len then
    let i := 64 - j in
    d ← slice data 0 i;
    buf ← memcpy (buffer ctx) j d;
    st ← SHA1_Transform (state ctx) buf;
    '(st, i) ← update_blocks (S (Z.to_nat (len / 64))) st data i;
    d ← slice data i (len - i);
    buf ← memcpy buf 0 d;
    Some (Sha1Ctx st cnt buf)
  else
    d ← slice data 0 len;
    buf ← memcpy (buffer ctx) j d;
    Some (Sha1Ctx (state ctx) cnt buf).

(** [finalcount]: the 64-bit count, high word first. *)
Definition finalcount (c : Z * Z) : list Z :=
  map (fun i => Z.land (Z.shiftr (if 4 <=? i then c.1 else c.2)
                                 ((3 - Z.land i 3) * 8)) 255)
    [0; 1; 2; 3; 4; 5; 6; 7].

(** [while ((count[0] & 504) != 448) Update(ctx, "\0", 1);] *)
Fixpoint pad_zeros (fuel : nat) (ctx : SHA1_CTX) : option SHA1_CTX :=
  if Z.land (count ctx).1 504 =? 448 then Some ctx
  else match fuel with
  | O => None
  | S fuel => ctx ← sat_SHA1_Update ctx [0]; pad_zeros fuel ctx
  end.

(** The bytes of [digest]. *)
Definition digest_of (st : vars) : list Z :=
  let '(a, b, c, d, e) := st in
  mjoin (map (fun s => [Z.land (Z.shiftr s 24) 255; Z.land (Z.shiftr s 16) 255;
                        Z.land (Z.shiftr s 8) 255; Z.land s 255]) [a; b; c; d; e]).

(** [sat_SHA1_Final]: the digest (the context is wiped); at most 63 zeros. *)
Definition sat_SHA1_Final (ctx : SHA1_CTX) : option (list Z) :=
  let fc := finalcount (count ctx) in
  ctx ← sat_SHA1_Update ctx [128];
  ctx ← pad_zeros 63 ctx;
  ctx ← sat_SHA1_Update ctx fc;
  Some (digest_of (state ctx)).

(** [lsha1]; [garbage] is the uninitialised buffer of the context. *)
Definition lsha1 (garbage text : list Z) : option (list Z) :=
  ctx ← sat_SHA1_Update (sat_SHA1_Init garbage) text;
  sat_SHA1_Final ctx.

(** ** HMAC *)

Definition BLOCKSIZE : Z := 64.

(** [xor_key(key, xor)]: word by word. *)
Definition xor_key (key : list Z) (xor : Z) : list Z :=
  mjoin (map put_le32 (map (fun k => Z.lxor k xor) (words_of key))).

(** [lhmac_sha1]; the three garbage buffers are those of its contexts. *)
Definition lhmac_sha1 (g g1 g2 key text : list Z) : option (list Z) :=
  let rkey := replicate 64 0 in
  rkey ← (if BLOCKSIZE <? zlen key then
            d ← lsha1 g key; memcpy rkey 0 d
          else memcpy rkey 0 key);
  let rkey := xor_key rkey 0x5c5c5c5c in
  ctx1 ← sat_SHA1_Update (sat_SHA1_Init g1) rkey;
  let rkey := xor_key rkey (Z.lxor 0x5c5c5c5c 0x36363636) in
  ctx2 ← sat_SHA1_Update (sat_SHA1_Init g2) rkey;
  ctx2 ← sat_SHA1_Update ctx2 text;
  digest2 ← sat_SHA1_Final ctx2;
  ctx1 ← sat_SHA1_Update ctx1 digest2;
  sat_SHA1_Final ctx1.

(** ** The reference: FIPS 180-4 and RFC 2104 *)

Definition Ch (x y z : Z) : Z := Z.lxor (Z.land x y) (Z.ldiff z x).
Definition Parity (x y z : Z) : Z := Z.lxor (Z.lxor x y) z.
Definition Maj (x y z : Z) : Z := Z.lxor (Z.lxor (Z.land x y) (Z.land x z)) (Z.land y z).

Definition fips_f (t : Z) : Z -> Z -> Z -> Z :=
  if t <? 20 then Ch else if t <? 40 then Parity else if t <? 60 then Maj else Parity.
Definition fips_K (t : Z) : Z :=
  if t <? 20 then 0x5a827999 else if t <? 40 then 0x6ed9eba1
  else if t <? 60 then 0x8f1bbcdc else 0xca62c1d6.

(** The message schedule: the sixteen big-endian words and 64 more. *)
Fixpoint be_words (b : list Z) : list Z :=
  match b with
  | b0 :: b1 :: b2 :: b3 :: rest => be32 b0 b1 b2 b3 :: be_words rest
  | _ => []
  end.
Definition at_ (w : list Z) (t : Z) : Z := nth (Z.to_nat t) w 0.
Definition sched_next (w : list Z) (t : Z) : Z :=
  rol (Z.lxor (Z.lxor (Z.lxor (at_ w (t - 3)) (at_ w (t - 8))) (at_ w (t - 14)))
              (at_ w (t - 16))) 1.
Fixpoint extend (n : nat) (w : list Z) : list Z :=
  match n with
  | O => w
  | S n => extend n (w ++ [sched_next w (zlen w)])
  end.
Definition schedule (b : list Z) : list Z := extend 64 (be_words b).

Definition fips_round (w : list Z) (t : Z) (vs : vars) : vars :=
  let '(a, b, c, d, e) := vs in
  (u32 (rol a 5 + fips_f t b c d + e + fips_K t + at_ w t), a, rol b 30, c, d).
Fixpoint fips_rounds (n : nat) (t : Z) (w : list Z) (vs : vars) : vars :=
  match n with
  | O => vs
  | S n => fips_rounds n (t + 1) w (fips_round w t vs)
  end.
Definition fips_compress (h : vars) (b : list Z) : vars :=
  add_vars h (fips_rounds 80 0 (schedule b) h).

Definition be64 (n : Z) : list Z := put_be32 (n / 2 ^ 32) ++ put_be32 (n mod 2 ^ 32).
Definition fips_pad (m : list Z) : list Z :=
  m ++ [128] ++ replicate (Z.to_nat ((55 - zlen m) mod 64)) 0 ++ be64 (8 * zlen m).
Fixpoint chunks (n : nat) (m : list Z) : list (list Z) :=
  match n with
  | O => []
  | S n => take 64 m :: chunks n (drop 64 m)
  end.
Definition fips_init : vars :=
  (0x67452301, 0xefcdab89, 0x98badcfe, 0x10325476, 0xc3d2e1f0).
Definition fips_digest (h : vars) : list Z :=
  let '(a, b, c, d, e) := h in
  put_be32 a ++ put_be32 b ++ put_be32 c ++ put_be32 d ++ put_be32 e.
Definition fips_sha1 (m : list Z) : list Z :=
  let p := fips_pad m in
  fips_digest (fold_left fips_compress (chunks (Z.to_nat (zlen p / 64)) p) fips_init).

(** The digest with another length field than the standard's. *)
Definition pad_with (field m : list Z) : list Z :=
  m ++ [128] ++ replicate (Z.to_nat ((55 - zlen m) mod 64)) 0 ++ field.
Definition sha1_with (field m : list Z) : list Z :=
  let p := pad_with field m in
  fips_digest (fold_left fips_compress (chunks (Z.to_nat (zlen p / 64)) p) fips_init).

Definition rfc_key (key : list Z) : list Z :=
  let k := if 64 <? zlen key then fips_sha1 key else key in
  k ++ replicate (64 - length k) 0.
Definition xor_bytes (k : list Z) (x : Z) : list Z := map (fun b => Z.lxor b x) k.
Definition rfc_hmac (key text : list Z) : list Z :=
  fips_sha1 (xor_bytes (rfc_key key) 0x5c ++
             fips_sha1 (xor_bytes (rfc_key key) 0x36 ++ text)).

(** ** The compression function *)

Lemma f01_Ch w x y : f01 w x y = Ch w x y.
Proof.
  unfold f01, Ch. apply Z.bits_inj'; intros i Hi.
  rewrite !Z.lxor_spec, !Z.land_spec, !Z.lxor_spec, Z.ldiff_spec.
  by destruct (Z.testbit w i), (Z.testbit x i), (Z.testbit y i).
Qed.

Lemma f3_Maj w x y : f3 w x y = Maj w x y.
Proof.
  unfold f3, Maj. apply Z.bits_inj'; intros i Hi.
  rewrite !Z.lxor_spec, !Z.lor_spec, !Z.land_spec, !Z.lor_spec.
  by destruct (Z.testbit w i), (Z.testbit x i), (Z.testbit y i).
Qed.

(** [blk0] turns a little-endian word into the big-endian one. *)
Lemma swap_word b0 b1 b2 b3 : is_u8 b0 -> is_u8 b1 -> is_u8 b2 -> is_u8 b3 ->
  let x := le32 b0 b1 b2 b3 in
  Z.lor (Z.land (rol x 24) 0xFF00FF00) (Z.land (rol x 8) 0x00FF00FF) = be32 b0 b1 b2 b3.
Proof.
  intros H0 H1 H2 H3 x. assert (is_u32 x) as Hx by (by apply le32_bound).
  rewrite be32_le32.
  assert (forall i, 0 <= i < 32 -> Z.testbit 0xFF00FF00 i =
    (if i <? 8 then false else if i <? 16 then true else if i <? 24 then false else true) /\
    Z.testbit 0x00FF00FF i =
    (if i <? 8 then true else if i <? 16 then false else if i <? 24 then true else false)) as Hm.
  { intros i Hi. assert (exists n, i = Z.of_nat n) as [n ->] by (exists (Z.to_nat i); lia).
    do 32 (destruct n as [|n]; [done|]). lia. }
  apply u32_ext.
  - apply lor_u32; apply land_u32; try lia; unfold rol; apply rol32_bound; done || lia.
  - by apply le32_bound.
  - intros i Hi. destruct (Hm i Hi) as [E1 E2].
    rewrite Z.lor_spec, !Z.land_spec, E1, E2. unfold rol.
    rewrite !rol32_bits, (le32_bits b3) by (done || lia). unfold x.
    zdec; rewrite ?andb_false_r, ?andb_true_r, ?orb_false_r, ?orb_false_l; try lia;
      rewrite le32_bits by (done || lia); zdec; try lia; f_equal; lia.
Qed.

Lemma extend_length n w : length (extend n w) = (n + length w)%nat.
Proof.
  revert w. induction n as [|n IH]; intros w; simpl; [done|]. rewrite IH, length_app. simpl. lia.
Qed.

Lemma at_app_l w w' t : 0 <= t < zlen w -> at_ (w ++ w') t = at_ w t.
Proof. intros Ht. unfold at_. apply app_nth1. unfold zlen in Ht. lia. Qed.

Lemma extend_prefix n w t : 0 <= t < zlen w -> at_ (extend n w) t = at_ w t.
Proof.
  revert w. induction n as [|n IH]; intros w Ht; simpl; [done|].
  rewrite IH by (rewrite zlen_app; unfold zlen in *; simpl; lia). by apply at_app_l.
Qed.

Lemma extend_next n w t : 16 <= zlen w -> zlen w <= t < zlen w + Z.of_nat n ->
  at_ (extend n w) t = sched_next (extend n w) t.
Proof.
  revert w. induction n as [|n IH]; intros w Hw Ht; simpl; [lia|].
  set (w' := w ++ [sched_next w (zlen w)]).
  assert (zlen w' = zlen w + 1) as Hl by (subst w'; by rewrite zlen_app).
  destruct (decide (t = zlen w)) as [->|]; [|apply IH; lia].
  rewrite extend_prefix by lia. unfold sched_next. rewrite !extend_prefix by lia.
  subst w'. rewrite (at_app_l w _ (zlen w - 3)), (at_app_l w _ (zlen w - 8)),
    (at_app_l w _ (zlen w - 14)), (at_app_l w _ (zlen w - 16)) by lia. unfold at_ at 1.
  rewrite app_nth2 by (unfold zlen; lia).
  replace (Z.to_nat (zlen w) - length w)%nat with 0%nat by (unfold zlen; lia). done.
Qed.

(** The ring of sixteen words holds the last sixteen of the schedule. *)
Definition ring_ok (w l : list Z) (i : Z) : Prop :=
  zlen l = 16 /\ forall t, i - 16 <= t < i -> l.[t mod 16] = Some (at_ w t).

Lemma blk_spec w l i : ring_ok w l i -> 16 <= i -> at_ w i = sched_next w i ->
  exists l', blk i l = Some (at_ w i, l') /\ ring_ok w l' (i + 1).
Proof.
  intros [Hl Hr] Hi Hn. unfold blk.
  assert (forall x, Z.land x 15 = x mod 16) as Hland by (intros x; exact (land_mask x 4 ltac:(lia))).
  rewrite !Hland.
  replace ((i + 13) mod 16) with ((i - 3) mod 16)
    by (replace (i + 13) with (i - 3 + 1 * 16) by lia; symmetry; apply Z.mod_add; lia).
  replace ((i + 8) mod 16) with ((i - 8) mod 16)
    by (replace (i + 8) with (i - 8 + 1 * 16) by lia; symmetry; apply Z.mod_add; lia).
  replace ((i + 2) mod 16) with ((i - 14) mod 16)
    by (replace (i + 2) with (i - 14 + 1 * 16) by lia; symmetry; apply Z.mod_add; lia).
  assert ((i - 16) mod 16 = i mod 16) as E16
    by (replace i with (i - 16 + 1 * 16) at 2 by lia; symmetry; apply Z.mod_add; lia).
  rewrite (Hr (i - 3)), (Hr (i - 8)), (Hr (i - 14)) by lia. cbn [mbind option_bind].
  pose proof (Hr (i - 16) ltac:(lia)) as H16. rewrite E16 in H16. rewrite H16.
  cbn [mbind option_bind].
  fold (sched_next w i). rewrite <-Hn.
  pose proof (Z.mod_pos_bound i 16 ltac:(lia)) as Hb.
  assert (l.[i mod 16 := at_ w i] = Some (<[Z.to_nat (i mod 16) := at_ w i]> l)) as Hset
    by (apply aset_Some; lia).
  rewrite Hset. cbn [mbind option_bind]. eexists; split; [done|]. split; [by rewrite zlen_insert|].
  intros t Ht. rewrite (aget_aset _ _ _ _ _ Hset). case_decide as E.
  - destruct (decide (t = i)) as [->|]; [done|]. exfalso.
    assert ((t - i) mod 16 = 0) as Hz by (by rewrite Zminus_mod, E, Z.sub_diag).
    apply Z.mod_divide in Hz as [q Hq]; lia.
  - apply Hr. destruct (decide (t = i)) as [->|]; [done | lia].
Qed.

(** The words of the first sixteen rounds are swapped in place. *)
Definition first_ok (b l : list Z) (i : Z) : Prop :=
  zlen l = 16 /\ forall t, 0 <= t < 16 ->
    l.[t] = (if t <? i then be_words b else words_of b).[t].

Definition is_block (b : list Z) : Prop := length b = 64%nat /\ is_bytes b.

Lemma words_length b n : length b = (4 * n)%nat -> length (words_of b) = n /\ length (be_words b) = n.
Proof.
  revert b. induction n as [|n IH]; intros b Hb; [by destruct b|].
  destruct b as [|b0 [|b1 [|b2 [|b3 rest]]]]; simpl in Hb; try lia.
  destruct (IH rest) as [H1 H2]; [lia|]. simpl. lia.
Qed.

Lemma words_swap b i : is_bytes b -> forall x, (words_of b).[i] = Some x ->
  (be_words b).[i] = Some (Z.lor (Z.land (rol x 24) 0xFF00FF00) (Z.land (rol x 8) 0x00FF00FF)).
Proof.
  remember (length b) as n eqn:Hn. revert b i Hn.
  induction n as [n IH] using lt_wf_ind. intros b i -> Hb x Hx.
  destruct b as [|b0 [|b1 [|b2 [|b3 rest]]]];
    try (apply aget_lt_Some in Hx; unfold zlen in Hx; simpl in Hx; lia).
  unfold is_bytes in Hb. rewrite !Forall_cons in Hb. destruct_and!.
  cbn [words_of be_words] in *. pose proof (aget_lt_Some _ _ _ Hx) as Hi.
  destruct (decide (i = 0)) as [->|].
  - rewrite aget_cons_0 in *. injection Hx as <-. by rewrite swap_word.
  - rewrite aget_cons_S in * by lia. eapply IH; [| done | done | done]. simpl; lia.
Qed.

Lemma blk0_spec b l i : is_block b -> first_ok b l i -> 0 <= i < 16 ->
  exists l', blk0 i l = Some (at_ (be_words b) i, l') /\ first_ok b l' (i + 1).
Proof.
  intros [Hlen Hb] [Hl Hf] Hi. destruct (words_length b 16 Hlen) as [Hw Hbw].
  destruct (aget_is_Some (words_of b) i) as [x Hx]; [unfold zlen; rewrite Hw; lia|].
  pose proof (words_swap b i Hb x Hx) as Hsw. unfold blk0.
  rewrite (Hf i Hi). rewrite (proj2 (Z.ltb_ge i i)) by lia. rewrite Hx. cbn [mbind option_bind].
  set (v := Z.lor _ _) in *.
  assert (at_ (be_words b) i = v) as ->.
  { unfold at_. unfold aget in Hsw. rewrite decide_True in Hsw by lia.
    by apply nth_lookup_Some with (d := 0) in Hsw. }
  assert (l.[i := v] = Some (<[Z.to_nat i := v]> l)) as Hset by (apply aset_Some; lia).
  rewrite Hset. cbn [mbind option_bind]. eexists; split; [done|].
  split; [by rewrite zlen_insert|]. intros t Ht. rewrite (aget_aset _ _ _ _ _ Hset).
  case_decide as E.
  - subst t. rewrite (proj2 (Z.ltb_lt i (i + 1))) by lia. done.
  - rewrite Hf by done. by zdec; try lia.
Qed.

Lemma R_step_fips f k w t vs i :
  (forall x y z, f x y z = fips_f t x y z) -> k = fips_K t -> i = at_ w t ->
  R_step f k i vs = fips_round w t vs.
Proof.
  intros Hf -> ->. destruct vs as [[[[a b] c] d] e]. unfold R_step, fips_round.
  rewrite Hf. do 4 f_equal. unfold u32. rewrite Zplus_mod_idemp_r. f_equal. lia.
Qed.

Lemma schedule_prefix b t : length b = 64%nat -> 0 <= t < 16 ->
  at_ (schedule b) t = at_ (be_words b) t.
Proof.
  intros Hlen Ht. destruct (words_length b 16 Hlen) as [_ Hbw].
  unfold schedule. generalize 64%nat; intros n. rewrite extend_prefix; [done|].
  unfold zlen. lia.
Qed.

Lemma schedule_next b t : length b = 64%nat -> 16 <= t < 80 ->
  at_ (schedule b) t = sched_next (schedule b) t.
Proof.
  intros Hlen Ht. destruct (words_length b 16 Hlen) as [_ Hbw].
  assert (zlen (be_words b) = 16) as Hz by (unfold zlen; lia). unfold schedule.
  assert (zlen (be_words b) <= t < zlen (be_words b) + Z.of_nat 64) as Hb by lia.
  revert Hb. generalize 64%nat; intros n Hb. apply extend_next; lia.
Qed.

#[local] Opaque schedule.

Lemma rounds_first b n : forall i l vs, is_block b -> 0 <= i -> i + Z.of_nat n = 16 ->
  first_ok b l i -> exists l', first_ok b l' 16 /\
    rounds n i (vs, l) = Some (fips_rounds n i (schedule b) vs, l').
Proof.
  induction n as [|n IH]; intros i l vs Hb Hi Hn Hf; cbn [rounds fips_rounds].
  - exists l. by replace i with 16 in Hf by lia.
  - destruct (blk0_spec b l i Hb Hf) as (l1 & Hblk & Hf1); [lia|].
    unfold R. rewrite (proj2 (Z.ltb_lt i 16)) by lia. unfold R0; cbn [fst snd].
    rewrite Hblk. cbn [mbind option_bind].
    rewrite (R_step_fips _ _ (schedule b) i).
    + apply IH; [done | lia | lia | done].
    + intros x y z. unfold fips_f. rewrite (proj2 (Z.ltb_lt i 20)) by lia. apply f01_Ch.
    + unfold fips_K. by rewrite (proj2 (Z.ltb_lt i 20)) by lia.
    + symmetry. apply schedule_prefix; [apply Hb | lia].
Qed.

Lemma rounds_next w n : forall i l vs, 16 <= i -> i + Z.of_nat n = 80 ->
  (forall t, 16 <= t < 80 -> at_ w t = sched_next w t) -> ring_ok w l i ->
  exists l', rounds n i (vs, l) = Some (fips_rounds n i w vs, l').
Proof.
  induction n as [|n IH]; intros i l vs Hi Hn Hw Hr; cbn [rounds fips_rounds]; [by eexists|].
  destruct (blk_spec w l i Hr Hi) as (l1 & Hblk & Hr1); [apply Hw; lia|].
  assert (R i (vs, l) = Some (fips_round w i vs, l1)) as ->;
    [|cbn [mbind option_bind]; apply IH; [lia | lia | done | done]].
  unfold R. zdec; try lia; unfold R1, R2, R3, R4; cbn [fst snd]; rewrite Hblk;
    cbn [mbind option_bind]; (rewrite (R_step_fips _ _ w i); [done| | |done]);
    intros; unfold fips_f, fips_K; zdec; try lia; try done; apply f01_Ch || apply f3_Maj.
Qed.

Lemma rounds_add n m : forall i st, rounds (n + m) i st =
  (r ← rounds n i st; rounds m (i + Z.of_nat n) r).
Proof.
  induction n as [|n IH]; intros i st; simpl; [by rewrite Z.add_0_r|].
  destruct (R i st) as [r|]; simpl; [|done]. rewrite IH.
  destruct (rounds n (i + 1) r); simpl; [|done]. f_equal. lia.
Qed.

Lemma fips_rounds_add n m : forall i w vs, fips_rounds (n + m) i w vs =
  fips_rounds m (i + Z.of_nat n) w (fips_rounds n i w vs).
Proof.
  induction n as [|n IH]; intros i w vs; simpl; [by rewrite Z.add_0_r|].
  rewrite IH. f_equal. lia.
Qed.

Lemma rounds_fips b vs : is_block b ->
  exists l, rounds (16 + 64) 0 (vs, words_of b) =
    Some (fips_rounds (16 + 64) 0 (schedule b) vs, l).
Proof.
  intros Hb. pose proof Hb as [Hlen _]. destruct (words_length b 16 Hlen) as [Hw Hbw].
  rewrite rounds_add, fips_rounds_add.
  destruct (rounds_first b 16 0 (words_of b) vs Hb) as (l1 & Hf & ->); [lia | lia | |].
  { split; [unfold zlen; lia|]. intros t Ht. by rewrite (proj2 (Z.ltb_ge t 0)) by lia. }
  generalize (fips_rounds 16 0 (schedule b) vs). intros vs1.
  destruct (rounds_next (schedule b) 64 (0 + Z.of_nat 16) l1 vs1) as (l2 & H2);
    [lia | lia | | |].
  { intros t Ht. by apply schedule_next. }
  { destruct Hf as [Hl1 Hf]. split; [done|]. intros t Ht. rewrite Z.mod_small by lia.
    rewrite Hf by lia. rewrite (proj2 (Z.ltb_lt t 16)) by lia.
    rewrite schedule_prefix by (done || lia).
    destruct (aget_is_Some (be_words b) t) as [x Hx]; [unfold zlen; lia|]. rewrite Hx. f_equal.
    unfold at_. unfold aget in Hx. rewrite decide_True in Hx by lia.
    by apply nth_lookup_Some with (d := 0) in Hx. }
  exists l2. exact H2.
Qed.

#[local] Opaque rounds fips_rounds.

Lemma SHA1_Transform_spec st b : is_block b -> SHA1_Transform st b = Some (fips_compress st b).
Proof.
  intros Hb. destruct (rounds_fips b st Hb) as (l & Hl). destruct Hb as [Hlen _].
  unfold SHA1_Transform, fips_compress. change 80%nat with (16 + 64)%nat. rewrite Hl.
  unfold zlen. rewrite Hlen. done.
Qed.

#[local] Opaque SHA1_Transform fips_compress.

(** ** Contexts *)

Definition absorb (bs : list (list Z)) : vars := fold_left fips_compress bs fips_init.

(** The context after the message [m]: the full blocks are absorbed, the rest is at the
    front of the buffer, and the low word counts the bits. *)
Definition sha_core (ctx : SHA1_CTX) (m : list Z) : Prop :=
  exists bs tail, m = mjoin bs ++ tail /\ Forall is_block bs /\ is_bytes tail /\
    (length tail < 64)%nat /\ state ctx = absorb bs /\
    length (buffer ctx) = 64%nat /\ take (length tail) (buffer ctx) = tail /\
    (count ctx).1 = u32 (8 * zlen m).

(** Both words count the bits. *)
Definition sha_repr (ctx : SHA1_CTX) (m : list Z) : Prop :=
  sha_core ctx m /\ is_u32 (count ctx).2 /\
  (count ctx).1 + 2 ^ 32 * (count ctx).2 = 8 * zlen m.

Lemma init_repr g : length g = 64%nat -> sha_repr (sat_SHA1_Init g) [].
Proof.
  intros Hg. split; [|split; [unfold is_u32; simpl; lia | done]].
  exists [], []. do 2 (split; [done|]). split; [constructor|].
  split; [simpl; lia|]. split; [done|]. split; [done|]. split; [done|]. done.
Qed.

Lemma update_blocks_spec bs tail : (length tail < 64)%nat -> Forall is_block bs ->
  forall fuel st pre, (length bs < fuel)%nat ->
  update_blocks fuel st (pre ++ mjoin bs ++ tail) (zlen pre) =
  Some (fold_left fips_compress bs st, zlen pre + zlen (mjoin bs)).
Proof.
  intros Ht Hbs. induction Hbs as [|b bs Hb Hbs IH]; intros fuel st pre Hf;
    (destruct fuel as [|fuel]; [simpl in Hf; lia|]); cbn [update_blocks].
  - rewrite (proj2 (Z.ltb_ge _ _)).
    + change (zlen (mjoin (@nil (list Z)))) with 0. by rewrite Z.add_0_r.
    + rewrite zlen_app. change (mjoin (@nil (list Z)) ++ tail) with tail. unfold zlen. lia.
  - change (mjoin (b :: bs)) with (b ++ mjoin bs). destruct Hb as [Hlen Hb].
    assert (zlen b = 64) as Hz by (unfold zlen; lia).
    rewrite (proj2 (Z.ltb_lt _ _)) by (rewrite !zlen_app; pose proof (zlen_nonneg tail);
      pose proof (zlen_nonneg (mjoin bs)); lia).
    rewrite slice_spec; [|apply zlen_nonneg | lia |].
    2: { rewrite !zlen_app. pose proof (zlen_nonneg tail). pose proof (zlen_nonneg (mjoin bs)). lia. }
    replace (take (Z.to_nat 64) (drop (Z.to_nat (zlen pre)) (pre ++ (b ++ mjoin bs) ++ tail))) with b.
    2: { rewrite drop_app_length' by (unfold zlen; lia).
      rewrite <-app_assoc, take_app_length'; [done | change (Z.to_nat 64) with 64%nat; lia]. }
    cbn [mbind option_bind]. rewrite SHA1_Transform_spec by done. cbn [mbind option_bind].
    replace (zlen pre + 64) with (zlen (pre ++ b)) by (rewrite zlen_app; lia).
    rewrite <-app_assoc, app_assoc, IH by (simpl in Hf; lia). simpl. do 2 f_equal.
    rewrite !zlen_app. lia.
Qed.

Lemma add_count_spec c0 c1 len n : is_u32 c0 -> is_u32 c1 -> 0 <= len < 2 ^ 29 ->
  c0 + 2 ^ 32 * c1 = 8 * n -> n + len < 2 ^ 61 ->
  is_u32 (add_count (c0, c1) len).1 /\ is_u32 (add_count (c0, c1) len).2 /\
  (add_count (c0, c1) len).1 + 2 ^ 32 * (add_count (c0, c1) len).2 = 8 * (n + len).
Proof.
  unfold is_u32. intros H0 H1 Hl Hn Hmax. unfold add_count.
  rewrite Z.shiftl_mul_pow2, Z.shiftr_div_pow2 by lia.
  replace (len / 2 ^ 29) with 0 by (symmetry; apply Z.div_small; lia).
  unfold u64. rewrite (Z.mod_small (len * 2 ^ 3)) by lia. unfold u32.
  destruct (Z.ltb_spec ((c0 + len * 2 ^ 3) mod 2 ^ 32) (len * 2 ^ 3)); cbn [fst snd];
    Z.div_mod_to_equations; lia.
Qed.

(** The low word is right for every piece. *)
Lemma add_count_low c len n : 0 <= len -> c.1 = u32 (8 * n) -> (add_count c len).1 = u32 (8 * (n + len)).
Proof.
  destruct c as [c0 c1]. cbn [fst]. intros Hl ->. unfold add_count. rewrite Z.shiftl_mul_pow2 by lia.
  cbn [fst]. unfold u32, u64. Z.div_mod_to_equations. lia.
Qed.

Lemma count_offset m tail bs c0 : m = mjoin bs ++ tail -> Forall is_block bs ->
  (length tail < 64)%nat -> c0 = u32 (8 * zlen m) ->
  Z.land (Z.shiftr c0 3) 63 = zlen tail.
Proof.
  intros -> Hbs Ht Hc. unfold u32 in Hc.
  rewrite (land_mask _ 6 ltac:(lia) : Z.land _ 63 = _), Z.shiftr_div_pow2 by lia.
  assert (zlen (mjoin bs) = 64 * zlen bs) as Hm.
  { apply (zlen_mjoin 64). eapply Forall_impl; [exact Hbs|]. by intros b [? _]. }
  rewrite zlen_app, Hm in Hc. assert (0 <= zlen tail < 64) by (unfold zlen; lia).
  Z.div_mod_to_equations; lia.
Qed.

Lemma fold_absorb bs bs' : fold_left fips_compress bs' (absorb bs) = absorb (bs ++ bs').
Proof. unfold absorb. by rewrite fold_left_app. Qed.

(** [sat_SHA1_Update] appends to the message. *)
Lemma update_core ctx m data : sha_core ctx m -> is_bytes data ->
  exists ctx', sat_SHA1_Update ctx data = Some ctx' /\ sha_core ctx' (m ++ data) /\
    count ctx' = add_count (count ctx) (zlen data).
Proof.
  intros (bs & tail & Hm & Hbs & Htb & Ht & Hst & Hbl & Htk & Hc) Hd.
  unfold sat_SHA1_Update. pose proof (zlen_nonneg data).
  rewrite (count_offset m tail bs _ Hm Hbs Ht Hc). cbv zeta.
  pose proof (add_count_low _ (zlen data) (zlen m) ltac:(lia) Hc) as A2.
  rewrite <-zlen_app in A2.
  assert (zlen (buffer ctx) = 64) as Hzb by (unfold zlen; lia).
  assert (take (Z.to_nat (zlen tail)) (buffer ctx) = tail) as Htk'
    by (unfold zlen; by rewrite Nat2Z.id).
  destruct (Z.ltb_spec 63 (zlen tail + zlen data)) as [Hfull|Hpart].
  - set (k := Z.to_nat (64 - zlen tail)).
    assert (k + length tail = 64)%nat as Hk by (subst k; unfold zlen; lia).
    rewrite slice_spec by lia. change (drop (Z.to_nat 0) data) with data. fold k.
    cbn [mbind option_bind].
    assert (length (take k data) = k) as Hlk by (rewrite length_take; unfold zlen in *; lia).
    rewrite memcpy_spec by (unfold zlen in *; lia). cbn [mbind option_bind].
    rewrite Htk', Hlk. rewrite drop_ge by (unfold zlen; lia). rewrite app_nil_r.
    assert (is_block (tail ++ take k data)) as Hblk.
    { split; [rewrite length_app; lia|]. apply Forall_app; split; [done | by apply Forall_take]. }
    rewrite SHA1_Transform_spec by done. cbn [mbind option_bind].
    destruct (split_chunks 64 (drop k data)) as (bs2 & tail2 & Hdrop & Hbs2 & Ht2); [lia|].
    assert (is_bytes (mjoin bs2 ++ tail2)) as Hjb by (rewrite <-Hdrop; by apply Forall_drop).
    apply Forall_app in Hjb as [Hjb Ht2b].
    assert (Forall is_block bs2) as Hbs2'.
    { apply Forall_forall. intros b Hin. split; [by apply (proj1 (Forall_forall _ _) Hbs2)|].
      apply Forall_forall. intros x Hx. apply (proj1 (Forall_forall _ _) Hjb).
      apply list_elem_of_join. by exists b. }
    assert (data = take k data ++ mjoin bs2 ++ tail2) as Hdata by (by rewrite <-Hdrop, take_drop).
    pose proof (zlen_mjoin 64 bs2 Hbs2) as Hzj.
    set (d0 := take k data) in *. clearbody d0. clear Hdrop. subst data.
    assert (zlen d0 = 64 - zlen tail) as Hzk by (unfold zlen in *; lia).
    assert (zlen (d0 ++ mjoin bs2 ++ tail2) = 64 - zlen tail + zlen (mjoin bs2) + zlen tail2)
      as Hzd by (rewrite !zlen_app; lia).
    pose proof (zlen_nonneg tail2). pose proof (zlen_nonneg bs2). pose proof (zlen_nonneg tail).
    assert (length bs2 < S (Z.to_nat (zlen (d0 ++ mjoin bs2 ++ tail2) / 64)))%nat as Hfu.
    { assert (zlen bs2 <= zlen (d0 ++ mjoin bs2 ++ tail2) / 64); [|unfold zlen in *; lia].
      apply Z.div_le_lower_bound; lia. }
    rewrite <-Hzk, (update_blocks_spec bs2 tail2 Ht2 Hbs2' _ _ d0 Hfu).
    cbn [mbind option_bind]. rewrite slice_spec by lia. cbn [mbind option_bind].
    replace (take _ (drop _ (d0 ++ mjoin bs2 ++ tail2))) with tail2.
    2: { rewrite app_assoc, drop_app_length'.
      - rewrite take_ge; [done|]. rewrite !zlen_app. unfold zlen in *. lia.
      - rewrite length_app. unfold zlen in *. lia. }
    rewrite memcpy_spec; [|lia | unfold zlen in *; rewrite length_app; lia].
    cbn [mbind option_bind]. eexists; split; [done|]. split; [|done].
    exists (bs ++ (tail ++ d0) :: bs2), tail2. simpl.
    split; [|split; [|split; [done|split; [done|split; [|split; [|split]]]]]].
    + rewrite Hm, join_app. simpl. by rewrite <-!app_assoc.
    + apply Forall_app; split; [done|]. by constructor.
    + rewrite Hst. change (fips_compress (absorb bs) ?b) with (fold_left fips_compress [b] (absorb bs)).
      by rewrite fold_absorb, fold_absorb, <-app_assoc.
    + rewrite !length_app, length_drop, !length_app. lia.
    + by rewrite take_app_length.
    + exact A2.
  - rewrite slice_spec by lia. cbn [mbind option_bind]. change (drop (Z.to_nat 0) data) with data.
    rewrite take_ge by (unfold zlen; lia).
    rewrite memcpy_spec by (pose proof (zlen_nonneg tail); lia). cbn [mbind option_bind].
    rewrite Htk'. eexists; split; [done|]. split; [|done]. exists bs, (tail ++ data). simpl.
    split; [by rewrite Hm, <-app_assoc|]. split; [done|].
    split; [by apply Forall_app|]. split; [rewrite length_app; unfold zlen in *; lia|].
    split; [done|]. split; [|split; [|exact A2]].
    + rewrite !length_app, length_drop. unfold zlen in *. lia.
    + rewrite app_assoc, take_app_length. done.
Qed.

Lemma update_spec ctx m data : sha_repr ctx m -> is_bytes data -> zlen data < 2 ^ 29 ->
  zlen m + zlen data < 2 ^ 61 ->
  exists ctx', sat_SHA1_Update ctx data = Some ctx' /\ sha_repr ctx' (m ++ data).
Proof.
  intros (Hcore & H1 & Hc) Hd Hlen Hmax. pose proof (zlen_nonneg data).
  destruct (update_core ctx m data Hcore Hd) as (ctx' & Hu & Hcore' & Hcnt). exists ctx'. split; [done|].
  assert (is_u32 (count ctx).1) as H0.
  { destruct Hcore as (? & ? & _ & _ & _ & _ & _ & _ & _ & ->). apply u32_bound. }
  destruct (count ctx) as [c0 c1]. cbn [fst snd] in *.
  destruct (add_count_spec c0 c1 (zlen data) (zlen m) H0 H1 ltac:(lia) Hc ltac:(lia)) as (A0 & A1 & A2).
  split; [done|]. rewrite Hcnt, zlen_app. by split.
Qed.

(** ** Padding *)

Lemma count_504 ctx m : sha_core ctx m ->
  (Z.land (count ctx).1 504 =? 448) = (zlen m mod 64 =? 56).
Proof.
  intros (bs & tail & _ & _ & _ & _ & _ & _ & _ & Hc).
  destruct (count ctx) as [c0 c1]. cbn [fst snd] in *. unfold u32 in *. pose proof (zlen_nonneg m).
  assert (Z.land c0 504 = 8 * (zlen m mod 64)) as ->.
  { change 504 with (Z.shiftl 63 3). replace c0 with (Z.shiftl (c0 / 8) 3).
    - rewrite <-Z.shiftl_land. change 63 with (2 ^ 6 - 1). rewrite land_mask by lia.
      rewrite Z.shiftl_mul_pow2 by lia. Z.div_mod_to_equations; lia.
    - rewrite Z.shiftl_mul_pow2 by lia. Z.div_mod_to_equations; lia. }
  zdec; try done; lia.
Qed.

Lemma pad_zeros_spec n : forall ctx m fuel, sha_core ctx m ->
  (zlen m + Z.of_nat n) mod 64 = 56 -> (n < 64)%nat -> (n <= fuel)%nat ->
  exists ctx', pad_zeros fuel ctx = Some ctx' /\ sha_core ctx' (m ++ replicate n 0).
Proof.
  induction n as [|n IH]; intros ctx m fuel Hr Hmod Hn Hf.
  - exists ctx. rewrite app_nil_r. split; [|done].
    assert ((Z.land (count ctx).1 504 =? 448) = true) as E.
    { rewrite (count_504 ctx m) by done. apply Z.eqb_eq. by rewrite Z.add_0_r in Hmod. }
    destruct fuel; cbn [pad_zeros]; by rewrite E.
  - destruct fuel as [|fuel]; [lia|]. cbn [pad_zeros].
    assert ((Z.land (count ctx).1 504 =? 448) = false) as ->.
    { rewrite (count_504 ctx m) by done. apply Z.eqb_neq. intros E.
      assert (zlen m mod 64 = 56 /\ Z.of_nat (S n) mod 64 = 0) as [_ E2].
      { split; [done|]. rewrite Zplus_mod, E in Hmod. Z.div_mod_to_equations; lia. }
      rewrite Z.mod_small in E2; lia. }
    destruct (update_core ctx m [0] Hr) as (ctx1 & -> & Hr1 & _).
    + repeat constructor; unfold is_u8; lia.
    + cbn [mbind option_bind]. destruct (IH ctx1 (m ++ [0]) fuel) as (ctx' & -> & Hr'); try lia.
      * done.
      * rewrite zlen_app, <-Hmod. unfold zlen at 2; simpl. f_equal. lia.
      * exists ctx'. split; [done|]. by rewrite <-app_assoc in Hr'.
Qed.

Lemma land_255_u8 v : Z.land v 255 = u8 v.
Proof. apply land_255. Qed.

Lemma finalcount_spec c0 c1 : finalcount (c0, c1) = put_be32 c1 ++ put_be32 c0.
Proof.
  unfold finalcount, put_be32. simpl map. rewrite !land_255_u8. simpl app.
  by rewrite !Z.shiftr_0_r.
Qed.

Lemma digest_of_spec st : digest_of st = fips_digest st.
Proof.
  destruct st as [[[[a b] c] d] e]. unfold digest_of, fips_digest, put_be32. simpl.
  by rewrite !land_255_u8.
Qed.

Lemma chunks_join bs : Forall is_block bs -> chunks (length bs) (mjoin bs) = bs.
Proof.
  induction 1 as [|b bs [Hl _] _ IH]; [done|].
  change (mjoin (b :: bs)) with (b ++ mjoin bs). cbn [chunks length].
  rewrite take_app_length', drop_app_length' by done. by rewrite IH.
Qed.

Lemma put_be32_is_bytes v : is_bytes (put_be32 v).
Proof. unfold put_be32, is_bytes. repeat constructor; apply u8_bound. Qed.

Lemma fips_digest_bytes h : is_bytes (fips_digest h) /\ length (fips_digest h) = 20%nat.
Proof.
  destruct h as [[[[a b] c] d] e]. split; [|done]. unfold fips_digest, is_bytes.
  rewrite !Forall_app. split_and!; apply put_be32_is_bytes.
Qed.

(** [sat_SHA1_Final] returns the digest with the length field that the count gives. *)
Lemma final_core ctx m : sha_core ctx m ->
  sat_SHA1_Final ctx = Some (sha1_with (finalcount (count ctx)) m).
Proof.
  intros Hr. unfold sat_SHA1_Final.
  assert (exists c0 c1, finalcount (count ctx) = put_be32 c1 ++ put_be32 c0) as (c0 & c1 & Hfield).
  { destruct (count ctx) as [c0 c1]. exists c0, c1. apply finalcount_spec. }
  set (field := finalcount (count ctx)) in *.
  pose proof (zlen_nonneg m).
  destruct (update_core ctx m [128] Hr) as (ctx1 & -> & Hr1 & _);
    [repeat constructor; unfold is_u8; lia|].
  cbn [mbind option_bind].
  assert (zlen (m ++ [128]) = zlen m + 1) as Hl1 by (by rewrite zlen_app).
  set (n := Z.to_nat ((55 - zlen m) mod 64)).
  pose proof (Z.mod_pos_bound (55 - zlen m) 64 ltac:(lia)) as Hn.
  destruct (pad_zeros_spec n ctx1 _ 63 Hr1) as (ctx2 & -> & Hr2); try (subst n; lia).
  { subst n. rewrite Hl1, Z2Nat.id by lia. Z.div_mod_to_equations; lia. }
  cbn [mbind option_bind].
  assert (zlen ((m ++ [128]) ++ replicate n 0) = zlen m + 1 + Z.of_nat n) as Hl2
    by (by rewrite zlen_app, Hl1, zlen_replicate).
  assert (zlen field = 8) as Hl8 by (by rewrite Hfield).
  destruct (update_core ctx2 _ field Hr2) as (ctx3 & -> & Hr3 & _).
  - rewrite Hfield. apply Forall_app; split; apply put_be32_is_bytes.
  - cbn [mbind option_bind]. rewrite digest_of_spec. f_equal.
    assert (((m ++ [128]) ++ replicate n 0) ++ field = pad_with field m) as Hpad
      by (unfold pad_with; by rewrite <-!app_assoc).
    rewrite Hpad in Hr3.
    assert (zlen (pad_with field m) = zlen m + 1 + Z.of_nat n + 8) as Hlp
      by (rewrite <-Hpad, zlen_app, Hl2, Hl8; done).
    clearbody field. destruct Hr3 as (bs & tail & Hm & Hbs & _ & Ht & Hst & _).
    assert (zlen (mjoin bs) = 64 * zlen bs) as Hj.
    { apply (zlen_mjoin 64). eapply Forall_impl; [exact Hbs|]. by intros b [? _]. }
    assert (tail = []) as ->.
    { apply zlen_nil_inv. rewrite Hm, zlen_app, Hj in Hlp. subst n.
      rewrite Z2Nat.id in Hlp by lia. assert (0 <= zlen tail < 64) by (unfold zlen; lia).
      Z.div_mod_to_equations; lia. }
    rewrite app_nil_r in Hm. rewrite Hst. unfold sha1_with, absorb. cbv zeta.
    rewrite Hm, Hj. replace (64 * zlen bs / 64) with (zlen bs) by (Z.div_mod_to_equations; lia).
    unfold zlen. rewrite Nat2Z.id, chunks_join by done. done.
Qed.

(** It is the digest of the message when both words are right. *)
Lemma finalcount_exact c0 c1 n : is_u32 c0 -> c0 + 2 ^ 32 * c1 = 8 * n -> finalcount (c0, c1) = be64 (8 * n).
Proof.
  intros H0 Hc. rewrite finalcount_spec. unfold be64, is_u32 in *.
  rewrite <-Hc. do 2 f_equal; Z.div_mod_to_equations; lia.
Qed.

Lemma final_spec ctx m : sha_repr ctx m -> sat_SHA1_Final ctx = Some (fips_sha1 m).
Proof.
  intros (Hcore & H1 & Hc). rewrite (final_core ctx m Hcore). change (fips_sha1 m) with (sha1_with (be64 (8 * zlen m)) m).
  do 2 f_equal. destruct Hcore as (? & ? & _ & _ & _ & _ & _ & _ & _ & H0).
  destruct (count ctx) as [c0 c1]. cbn [fst snd] in *. apply finalcount_exact; [rewrite H0; apply u32_bound | done].
Qed.

(** Feeding a message in several pieces. *)
Fixpoint updates (ctx : SHA1_CTX) (ds : list (list Z)) : option SHA1_CTX :=
  match ds with
  | [] => Some ctx
  | d :: ds => ctx ← sat_SHA1_Update ctx d; updates ctx ds
  end.

(** The count after pieces of these lengths. *)
Definition count_of (lens : list Z) : Z * Z := fold_left add_count lens (0, 0).

Lemma updates_core ds : Forall is_bytes ds -> forall ctx m, sha_core ctx m ->
  exists ctx', updates ctx ds = Some ctx' /\ sha_core ctx' (m ++ mjoin ds) /\
    count ctx' = fold_left add_count (map (@zlen Z) ds) (count ctx).
Proof.
  induction 1 as [|d ds Hd _ IH]; intros ctx m Hr; cbn [updates].
  - exists ctx. by rewrite app_nil_r.
  - change (mjoin (d :: ds)) with (d ++ mjoin ds).
    destruct (update_core ctx m d Hr Hd) as (ctx1 & -> & Hr1 & Hc1).
    cbn [mbind option_bind]. destruct (IH ctx1 _ Hr1) as (ctx' & -> & Hr' & Hc').
    exists ctx'. rewrite <-app_assoc in Hr'. split; [done|]. split; [done|]. cbn [map fold_left]. by rewrite <-Hc1.
Qed.

(** Pieces below 512 MB are counted right. *)
Lemma count_small ds : Forall (fun d => zlen d < 2 ^ 29) ds -> forall c n, is_u32 c.1 -> is_u32 c.2 -> 0 <= n ->
  c.1 + 2 ^ 32 * c.2 = 8 * n -> n + zlen (mjoin ds) < 2 ^ 61 ->
  finalcount (fold_left add_count (map (@zlen Z) ds) c) = be64 (8 * (n + zlen (mjoin ds))).
Proof.
  induction 1 as [|d ds Hd _ IH]; intros [c0 c1] n H0 H1 Hn Hc Hmax; cbn [map fold_left fst snd] in *.
  - change (zlen (mjoin (@nil (list Z)))) with 0. rewrite Z.add_0_r. by apply finalcount_exact.
  - change (mjoin (d :: ds)) with (d ++ mjoin ds) in *. rewrite zlen_app in *.
    pose proof (zlen_nonneg d). pose proof (zlen_nonneg (mjoin ds)).
    destruct (add_count_spec c0 c1 (zlen d) n H0 H1 ltac:(lia) Hc ltac:(lia)) as (A0 & A1 & A2).
    rewrite (IH _ (n + zlen d)) by (done || lia). do 2 f_equal. lia.
Qed.

Lemma lsha1_spec g text : length g = 64%nat -> is_bytes text -> zlen text < 2 ^ 29 ->
  lsha1 g text = Some (fips_sha1 text).
Proof.
  intros Hg Hb Hl. unfold lsha1.
  destruct (update_spec _ [] text (init_repr g Hg) Hb Hl) as (ctx & -> & Hr).
  { change (zlen (@nil Z)) with 0. lia. }
  cbn [mbind option_bind]. by apply final_spec.
Qed.

(** C40: the code computes SHA-1, but for the length of large pieces.  A message fed to
    [sat_SHA1_Update] in any pieces whatever, and to [sat_SHA1_Final], gives the digest of
    FIPS 180-4 with the length field that the counter has ([sha1_with]); when no piece has
    512 MB or more (and the message has less than 2^61 bytes) that field is the standard's and
    the digest is SHA-1 ([fips_sha1]); after one piece of 512 MB it is not.  So the
    compression function with its ring of sixteen words, unrolled rounds and rewritten boolean
    functions equals the one with the 80-word schedule, the blocks are cut the same way
    wherever the pieces end, and the padding loop stops within 63 steps.  No access leaves
    the 64-byte buffer or the data. *)
Theorem sha1_correct (g : list Z) (ds : list (list Z)) : length g = 64%nat -> Forall is_bytes ds ->
  (ctx ← updates (sat_SHA1_Init g) ds; sat_SHA1_Final ctx) =
    Some (sha1_with (finalcount (count_of (map (@zlen Z) ds))) (mjoin ds)) /\
  (Forall (fun d => zlen d < 2 ^ 29) ds -> zlen (mjoin ds) < 2 ^ 61 ->
     (ctx ← updates (sat_SHA1_Init g) ds; sat_SHA1_Final ctx) = Some (fips_sha1 (mjoin ds))) /\
  (forall text, ds = [text] ->
     lsha1 g text = Some (sha1_with (finalcount (count_of [zlen text])) text) /\
     (zlen text < 2 ^ 29 -> lsha1 g text = Some (fips_sha1 text)) /\
     (zlen text = 2 ^ 29 -> finalcount (count_of [zlen text]) <> be64 (8 * zlen text))).
Proof.
  intros Hg Hds. destruct (init_repr g Hg) as [Hinit _].
  destruct (updates_core ds Hds _ [] Hinit) as (ctx & Hu & Hr & Hc).
  change (count (sat_SHA1_Init g)) with (0, 0) in Hc. change ([] ++ mjoin ds) with (mjoin ds) in Hr.
  assert ((ctx ← updates (sat_SHA1_Init g) ds; sat_SHA1_Final ctx) =
    Some (sha1_with (finalcount (count_of (map (@zlen Z) ds))) (mjoin ds))) as Hall.
  { rewrite Hu. cbn [mbind option_bind]. rewrite (final_core _ _ Hr), Hc. done. }
  split; [exact Hall|]. split.
  - intros Hsm Hmax. rewrite Hall. unfold count_of.
    rewrite (count_small ds Hsm (0, 0) 0) by (done || lia || (unfold is_u32; simpl; lia)).
    rewrite Z.add_0_l. done.
  - intros text ->. apply Forall_inv in Hds as Hb. split; [|split].
    + cbn [updates] in Hall. unfold lsha1. change (mjoin [text]) with (text ++ []) in Hall. rewrite app_nil_r in Hall.
      etransitivity; [|exact Hall]. by destruct (sat_SHA1_Update (sat_SHA1_Init g) text).
    + by apply lsha1_spec.
    + intros ->. vm_compute. discriminate.
Qed.

(** ** HMAC *)

Lemma xor_word k0 k1 k2 k3 x : is_u8 k0 -> is_u8 k1 -> is_u8 k2 -> is_u8 k3 -> is_u8 x ->
  put_le32 (Z.lxor (le32 k0 k1 k2 k3) (le32 x x x x)) =
  [Z.lxor k0 x; Z.lxor k1 x; Z.lxor k2 x; Z.lxor k3 x].
Proof.
  intros H0 H1 H2 H3 Hx.
  assert (forall a b, is_u8 a -> is_u8 b -> is_u8 (Z.lxor a b)) as Hu8.
  { intros a b Ha Hb. unfold is_u8 in *.
    assert (Z.lxor a b mod 2 ^ 8 = Z.lxor a b) as <-; [|apply Z.mod_pos_bound; lia].
    apply Z.bits_inj'; intros i Hi. destruct (Z.lt_ge_cases i 8).
    - by rewrite Z.mod_pow2_bits_low by lia.
    - by rewrite Z.mod_pow2_bits_high, Z.lxor_spec, !u8_bits_high by (done || lia). }
  rewrite <-(put_le32_le32 (Z.lxor k0 x)) by auto. f_equal.
  apply u32_ext; [apply lxor_u32; by apply le32_bound | apply le32_bound; auto |].
  intros i Hi. rewrite Z.lxor_spec, !le32_bits by auto. zdec; by rewrite Z.lxor_spec.
Qed.

Lemma xor_key_spec n : forall key x, length key = (4 * n)%nat -> is_bytes key -> is_u8 x ->
  xor_key key (le32 x x x x) = xor_bytes key x.
Proof.
  induction n as [|n IH]; intros key x Hl Hb Hx; [by destruct key|].
  destruct key as [|k0 [|k1 [|k2 [|k3 rest]]]]; simpl in Hl; try lia.
  unfold is_bytes in Hb. rewrite !Forall_cons in Hb. destruct_and!.
  pose proof (IH rest x ltac:(lia) ltac:(done) Hx) as IHr.
  unfold xor_key, xor_bytes in *. cbn [words_of map]. rewrite <-IHr.
  change (mjoin (?a :: ?l)) with (a ++ mjoin l). by rewrite xor_word.
Qed.

Lemma xor_bytes_bytes k x : is_bytes k -> is_u8 x -> is_bytes (xor_bytes k x).
Proof.
  intros Hk Hx. apply Forall_map. eapply Forall_impl; [exact Hk|]. intros b Hb; simpl.
  assert (is_u8 (Z.lxor b x)); [|done]. unfold is_u8 in *.
  assert (Z.lxor b x mod 2 ^ 8 = Z.lxor b x) as <-; [|apply Z.mod_pos_bound; lia].
  apply Z.bits_inj'; intros i Hi. destruct (Z.lt_ge_cases i 8).
  - by rewrite Z.mod_pow2_bits_low by lia.
  - by rewrite Z.mod_pow2_bits_high, Z.lxor_spec, !u8_bits_high by (done || lia).
Qed.

Lemma rkey_spec g key : length g = 64%nat -> is_bytes key -> zlen key < 2 ^ 29 ->
  (if BLOCKSIZE <? zlen key then d ← lsha1 g key; memcpy (replicate 64 0) 0 d
   else memcpy (replicate 64 0) 0 key) = Some (rfc_key key) /\
  length (rfc_key key) = 64%nat /\ is_bytes (rfc_key key).
Proof.
  intros Hg Hb Hl. unfold rfc_key, BLOCKSIZE.
  assert (forall k, (length k <= 64)%nat -> is_bytes k ->
    memcpy (replicate 64 0) 0 k = Some (k ++ replicate (64 - length k) 0) /\
    length (k ++ replicate (64 - length k) 0) = 64%nat /\
    is_bytes (k ++ replicate (64 - length k) 0)) as Hk.
  { intros k Hkl Hkb. rewrite memcpy_spec by (rewrite ?zlen_replicate; unfold zlen; lia).
    rewrite drop_replicate. split; [done|]. split.
    - rewrite length_app, length_replicate. lia.
    - apply Forall_app; split; [done|]. apply Forall_replicate. unfold is_u8; lia. }
  destruct (Z.ltb_spec 64 (zlen key)).
  - rewrite lsha1_spec by done. cbn [mbind option_bind].
    destruct (fips_digest_bytes (fold_left fips_compress
      (chunks (Z.to_nat (zlen (fips_pad key) / 64)) (fips_pad key)) fips_init)) as [Hd Hdl].
    apply Hk; [unfold fips_sha1; rewrite Hdl; lia | exact Hd].
  - apply Hk; [unfold zlen in *; lia | done].
Qed.

(** [hmac_sha1] is HMAC-SHA1 of RFC 2104: the key, hashed when it is longer
    than a block, is padded with zeros; xoring its words in place with the two
    constants one after the other gives the outer and the inner pad. *)
Theorem hmac_sha1_correct (g g1 g2 key text : list Z) :
  length g = 64%nat -> length g1 = 64%nat -> length g2 = 64%nat ->
  is_bytes key -> zlen key < 2 ^ 29 -> is_bytes text -> zlen text < 2 ^ 29 ->
  lhmac_sha1 g g1 g2 key text = Some (rfc_hmac key text).
Proof.
  intros Hg Hg1 Hg2 Hkb Hkl Htb Htl. unfold lhmac_sha1. cbv zeta.
  destruct (rkey_spec g key Hg Hkb Hkl) as (-> & Hrl & Hrb). cbn [mbind option_bind].
  change 0x5c5c5c5c with (le32 0x5c 0x5c 0x5c 0x5c).
  change (Z.lxor (le32 _ _ _ _) 0x36363636) with (le32 0x6a 0x6a 0x6a 0x6a).
  assert (is_u8 0x5c /\ is_u8 0x6a /\ is_u8 0x36) as (U1 & U2 & U3) by (unfold is_u8; lia).
  rewrite (xor_key_spec 16 (rfc_key key)) by done.
  assert (is_bytes (xor_bytes (rfc_key key) 0x5c)) as B1 by (by apply xor_bytes_bytes).
  assert (length (xor_bytes (rfc_key key) 0x5c) = 64%nat) as L1
    by (unfold xor_bytes; by rewrite length_map).
  rewrite (xor_key_spec 16 (xor_bytes _ _)) by done.
  assert (xor_bytes (xor_bytes (rfc_key key) 0x5c) 0x6a = xor_bytes (rfc_key key) 0x36) as ->.
  { unfold xor_bytes. rewrite map_map. apply map_ext. intros b. by rewrite Z.lxor_assoc. }
  assert (is_bytes (xor_bytes (rfc_key key) 0x36)) as B2 by (by apply xor_bytes_bytes).
  assert (length (xor_bytes (rfc_key key) 0x36) = 64%nat) as L2
    by (unfold xor_bytes; by rewrite length_map).
  destruct (update_spec _ [] _ (init_repr g1 Hg1) B1) as (c1 & -> & R1);
    [unfold zlen; rewrite L1; lia | unfold zlen; rewrite L1; cbn [length]; lia |].
  cbn [mbind option_bind].
  destruct (update_spec _ [] _ (init_repr g2 Hg2) B2) as (c2 & -> & R2);
    [unfold zlen; rewrite L2; lia | unfold zlen; rewrite L2; cbn [length]; lia |].
  cbn [mbind option_bind]. rewrite app_nil_l in *.
  destruct (update_spec c2 _ text R2 Htb Htl) as (c3 & -> & R3);
    [unfold zlen in *; rewrite L2; lia|].
  cbn [mbind option_bind]. rewrite (final_spec c3 _ R3).
  cbn [mbind option_bind].
  set (inner := fips_sha1 (xor_bytes (rfc_key key) 0x36 ++ text)).
  assert (is_bytes inner /\ length inner = 20%nat) as [Bi Li] by (apply fips_digest_bytes).
  destruct (update_spec c1 _ inner R1 Bi) as (c4 & -> & R4);
    [unfold zlen; rewrite Li; lia | unfold zlen; rewrite L1, Li; lia |].
  cbn [mbind option_bind]. apply (final_spec c4 _ R4).
Qed.

(** The digest of a text of 512 MB or more is wrong on a 64-bit machine.  The carry
    test compares the 32-bit sum with the full [len << 3]: for the first
    [2^29] bytes the count becomes [2 * 2^32] bits instead of [2^32]. *)
Theorem sha1_count_overflow :
  add_count (0, 0) (2 ^ 29) = (0, 2) /\ 0 + 2 ^ 32 * 2 <> 8 * 2 ^ 29.
Proof. split; [vm_compute; reflexivity | lia]. Qed.

(** ** Witnesses *)

Lemma sha1_correct_witness :
  lsha1 (replicate 64 7) (bytes_of "abc") =
  Some [0xA9; 0x99; 0x3E; 0x36; 0x47; 0x06; 0x81; 0x6A; 0xBA; 0x3E; 0x25; 0x71; 0x78; 0x50;
        0xC2; 0x6C; 0x9C; 0xD0; 0xD8; 0x9D].
Proof.
  assert (Forall is_bytes [bytes_of "abc"]) as Hp.
  { constructor; [|constructor]. apply (bool_decide_unpack _). vm_compute. exact I. }
  destruct (sha1_correct (replicate 64 7) [bytes_of "abc"] eq_refl Hp) as (_ & _ & Htext).
  destruct (Htext _ eq_refl) as (_ & Hsmall & _). rewrite (Hsmall eq_refl).
  vm_compute. reflexivity.
Defined.

Lemma hmac_sha1_correct_witness :
  lhmac_sha1 (replicate 64 0) (replicate 64 1) (replicate 64 2) (bytes_of "key")
    (bytes_of "The quick brown fox jumps over the lazy dog") =
  Some [222; 124; 155; 133; 184; 183; 138; 166; 188; 138; 122; 54; 247; 10; 144; 112; 28;
        157; 180; 217].
Proof.
  assert (is_bytes (bytes_of "key") /\
    is_bytes (bytes_of "The quick brown fox jumps over the lazy dog")) as [Hk Ht]
    by (split; apply (bool_decide_unpack _); vm_compute; exact I).
  rewrite (hmac_sha1_correct (replicate 64 0) (replicate 64 1) (replicate 64 2)
    (bytes_of "key") (bytes_of "The quick brown fox jumps over the lazy dog") eq_refl eq_refl eq_refl
    Hk eq_refl Ht eq_refl).
  vm_compute. reflexivity.
Defined.
