(* ===== verification/Netpack.v ===== *)
(** lib/netpack/lua-netpack.c: packets with a two-byte length on a byte stream.

    The queue is the userdata the Lua service passes to every call ([None] is
    nil).  A bucket of [hash] is the list of its nodes in link order; a cell of the
    packet queue or of a packet buffer that was never written is [None].  [filter]
    and [pop] return what they push on the Lua stack. *)
From stdpp Require Import strings.
From S2P Require Import Prelude Bytes Ring.

Definition QUEUESIZE : Z := 1024.
Definition HASHSIZE : Z := 4096.

(** A buffer allocated with [uboss_malloc]. *)
Abbreviation cbuf := (list (option Z)) (only parsing).
Definition malloc (n : Z) : cbuf := replicate (Z.to_nat n) None.

Record netpack := Netpack { pk_id : Z; pk_size : Z; pk_buffer : cbuf }.

Record uncomplete := Uncomplete { uc_pack : netpack; uc_read : Z; uc_header : Z }.

Record queue := Queue {
  q_cap : Z;
  q_head : Z;
  q_tail : Z;
  q_hash : list (list uncomplete);
  q_queue : list (option netpack)
}.

Definition set_hash (h : list (list uncomplete)) (q : queue) : queue :=
  Queue (q_cap q) (q_head q) (q_tail q) h (q_queue q).

(** ** The queue *)

Definition hash_fd (fd : Z) : Z :=
  let a := Z.shiftr fd 24 in
  let b := Z.shiftr fd 12 in
  let c := fd in
  u32 (a + b + c) mod HASHSIZE.

(** Unlinks the first node with that [id]. *)
Fixpoint unlink_fd (l : list uncomplete) (fd : Z) : option (uncomplete * list uncomplete) :=
  match l with
  | [] => None
  | uc :: l =>
      if pk_id (uc_pack uc) =? fd then Some (uc, l)
      else '(found, l) ← unlink_fd l fd; Some (found, uc :: l)
  end.

(** [find_uncomplete]: the node and the queue without it. *)
Definition find_uncomplete (q : option queue) (fd : Z)
    : option (option uncomplete * option queue) :=
  match q with
  | None => Some (None, None)
  | Some q0 =>
      let h := hash_fd fd in
      l ← (q_hash q0).[h];
      match unlink_fd l fd with
      | Some (uc, l) =>
          hash ← (q_hash q0).[h := l];
          Some (Some uc, Some (set_hash hash q0))
      | None => Some (None, q)
      end
  end.

Definition new_queue : queue :=
  {| q_cap := QUEUESIZE; q_head := 0; q_tail := 0;
     q_hash := replicate (Z.to_nat HASHSIZE) [];
     q_queue := replicate (Z.to_nat QUEUESIZE) None |}.

Definition get_queue (q : option queue) : queue := default new_queue q.

Definition expand_queue (q : queue) : option queue :=
  copied ← unroll (q_queue q) (q_cap q) (q_head q) 0 (Z.to_nat (q_cap q));
  Some {| q_cap := q_cap q + QUEUESIZE; q_head := 0; q_tail := q_cap q;
          q_hash := q_hash q;
          q_queue := copied ++ replicate (Z.to_nat QUEUESIZE) None |}.

(** [push_data] of a buffer that needs no copy ([clone] = 0). *)
Definition push_data (q : option queue) (fd : Z) (buffer : cbuf) (size : Z)
    : option queue :=
  let q := get_queue q in
  buf ← (q_queue q).[q_tail q := Some (Netpack fd size buffer)];
  let tail := q_tail q + 1 in
  let tail := if q_cap q <=? tail then tail - q_cap q else tail in
  let q := Queue (q_cap q) (q_head q) tail (q_hash q) buf in
  if q_head q =? q_tail q then expand_queue q else Some q.

(** A copy of [size] bytes: [uboss_malloc] and [memcpy]. *)
Definition copy_of (cap : Z) (buffer : list Z) (size : Z) : option cbuf :=
  d ← slice buffer 0 size;
  memcpy (malloc cap) 0 (map Some d).

(** [push_data] with [clone] = 1. *)
Definition push_clone (q : option queue) (fd : Z) (buffer : list Z) (size : Z)
    : option queue :=
  b ← copy_of size buffer size;
  push_data q fd b size.

(** Links a node into its bucket: [uc->next = q->hash[h]; q->hash[h] = uc;]. *)
Definition link_uncomplete (q : queue) (fd : Z) (uc : uncomplete) : option queue :=
  let h := hash_fd fd in
  l ← (q_hash q).[h];
  hash ← (q_hash q).[h := uc :: l];
  Some (set_hash hash q).

(** [save_uncomplete], with the fields its callers store in the new node. *)
Definition save_uncomplete (q : option queue) (fd size : Z) (buffer : cbuf)
    (read header : Z) : option queue :=
  link_uncomplete (get_queue q) fd (Uncomplete (Netpack fd size buffer) read header).

Definition read_size (buffer : list Z) : option Z :=
  b0 ← buffer.[0];
  b1 ← buffer.[1];
  Some (Z.lor (Z.shiftl b0 8) b1).

(** The first bytes of a packet: [read] and [pack] of an incomplete one. *)
Definition save_part (q : option queue) (fd : Z) (buffer : list Z) (pack_size : Z)
    : option queue :=
  b ← copy_of pack_size buffer (zlen buffer);
  save_uncomplete q fd pack_size b (zlen buffer) 0.

(** [buffer += n]. *)
Definition advance (buffer : list Z) (n : Z) : list Z := drop (Z.to_nat n) buffer.

(** [push_more]; every call consumes at least two bytes. *)
Fixpoint push_more (fuel : nat) (q : option queue) (fd : Z) (buffer : list Z)
    : option queue :=
  match fuel with
  | O => None
  | S fuel =>
      if zlen buffer =? 1 then
        b ← buffer.[0];
        save_uncomplete q fd 0 [] (-1) b
      else
        pack_size ← read_size buffer;
        let buffer := advance buffer 2 in
        if zlen buffer <? pack_size then save_part q fd buffer pack_size
        else
          q ← push_clone q fd buffer pack_size;
          let buffer := advance buffer pack_size in
          if 0 <? zlen buffer then push_more fuel (Some q) fd buffer else Some q
  end.

Definition more_fuel (buffer : list Z) : nat := S (length buffer).

Definition close_uncomplete (q : option queue) (fd : Z) : option (option queue) :=
  '(_, q) ← find_uncomplete q fd; Some q.

(** ** Filter *)

(** What [filter] pushes after the queue. *)
Inductive event :=
| ENone
| EData (fd : Z) (buffer : cbuf) (size : Z)
| EMore
| EError (fd : Z) (msg : list Z)
| EOpen (fd : Z) (msg : list Z)
| EClose (fd : Z)
| EWarning (fd : Z) (size : Z).

(** The continuation of an incomplete packet once its size is known. *)
Definition fill_rest (q : option queue) (fd : Z) (uc : uncomplete) (buffer : list Z)
    : option (event * option queue) :=
  let pack := uc_pack uc in
  let size := zlen buffer in
  let need := pk_size pack - uc_read uc in
  if size <? need then
    b ← memcpy (pk_buffer pack) (uc_read uc) (map Some buffer);
    q ← q;
    q ← link_uncomplete q fd
          (Uncomplete (Netpack (pk_id pack) (pk_size pack) b) (uc_read uc + size) (uc_header uc));
    Some (ENone, Some q)
  else
    d ← slice buffer 0 need;
    b ← memcpy (pk_buffer pack) (uc_read uc) (map Some d);
    let buffer := advance buffer need in
    if zlen buffer =? 0 then Some (EData fd b (pk_size pack), q)
    else
      q ← push_data q fd b (pk_size pack);
      q ← push_more (more_fuel buffer) (Some q) fd buffer;
      Some (EMore, Some q).

Definition fill_uncomplete (q : option queue) (fd : Z) (uc : uncomplete)
    (buffer : list Z) : option (event * option queue) :=
  '(uc, buffer) ←
    (if uc_read uc <? 0 then
       _ ← cassert (uc_read uc =? -1);
       b ← buffer.[0];
       let pack_size := Z.lor b (Z.shiftl (uc_header uc) 8) in
       Some (Uncomplete (Netpack (pk_id (uc_pack uc)) pack_size (malloc pack_size)) 0
               (uc_header uc), advance buffer 1)
     else Some (uc, buffer));
  fill_rest q fd uc buffer.

(** Data at a packet boundary. *)
Definition filter_fresh (q : option queue) (fd : Z) (buffer : list Z)
    : option (event * option queue) :=
  if zlen buffer =? 1 then
    b ← buffer.[0];
    q ← save_uncomplete q fd 0 [] (-1) b;
    Some (ENone, Some q)
  else
    pack_size ← read_size buffer;
    let buffer := advance buffer 2 in
    let size := zlen buffer in
    if size <? pack_size then
      q ← save_part q fd buffer pack_size;
      Some (ENone, Some q)
    else if size =? pack_size then
      b ← copy_of pack_size buffer size;
      Some (EData fd b size, q)
    else
      q ← push_clone q fd buffer pack_size;
      let buffer := advance buffer pack_size in
      q ← push_more (more_fuel buffer) (Some q) fd buffer;
      Some (EMore, Some q).

(** [filter_data_] and [filter_data] (which frees [buffer]). *)
Definition filter_data (q : option queue) (fd : Z) (buffer : list Z)
    : option (event * option queue) :=
  '(uc, q) ← find_uncomplete q fd;
  match uc with
  | Some uc => fill_uncomplete q fd uc buffer
  | None => filter_fresh q fd buffer
  end.

(** [struct uboss_socket_message] by its [type]; [padding] is the string after
    the message, when [buffer] is NULL. *)
Inductive socket_message :=
| SData (id : Z) (buffer : list Z)
| SConnect (id : Z)
| SClose (id : Z)
| SAccept (id ud : Z) (padding : list Z)
| SError (id : Z) (padding : list Z)
| SWarning (id ud : Z)
| SUdp (id : Z).

Definition lfilter (q : option queue) (message : socket_message)
    : option (event * option queue) :=
  match message with
  | SData id buffer => filter_data q id buffer
  | SConnect _ => Some (ENone, q)
  | SClose id => q ← close_uncomplete q id; Some (EClose id, q)
  | SAccept _ ud padding => Some (EOpen ud padding, q)
  | SError id padding => q ← close_uncomplete q id; Some (EError id padding, q)
  | SWarning id ud => Some (EWarning id ud, q)
  | SUdp _ => Some (ENone, q)
  end.

Definition lpop (q : option queue) : option (option netpack * option queue) :=
  match q with
  | None => Some (None, None)
  | Some q0 =>
      if q_head q0 =? q_tail q0 then Some (None, q)
      else
        c ← (q_queue q0).[q_head q0];
        np ← c;
        let head := q_head q0 + 1 in
        let head := if q_cap q0 <=? head then 0 else head in
        Some (Some np,
              Some (Queue (q_cap q0) head (q_tail q0) (q_hash q0) (q_queue q0)))
  end.

(** The packets [lclear] frees, from index [i] on. *)
Fixpoint clear_loop (n : nat) (i : Z) (q : queue) : option (list netpack) :=
  match n with
  | O => Some []
  | S n =>
      c ← (q_queue q).[i mod q_cap q];
      np ← c;
      l ← clear_loop n (i + 1) q;
      Some (np :: l)
  end.

(** [lclear]: the nodes and the packets it frees, and the queue. *)
Definition lclear (q : option queue)
    : option (list uncomplete * list netpack * option queue) :=
  match q with
  | None => Some ([], [], None)
  | Some q0 =>
      let tail := if q_tail q0 <? q_head q0 then q_tail q0 + q_cap q0 else q_tail q0 in
      nps ← clear_loop (Z.to_nat (tail - q_head q0)) (q_head q0) q0;
      Some (mjoin (q_hash q0), nps,
            Some (Queue (q_cap q0) 0 0 (map (fun _ => []) (q_hash q0)) (q_queue q0)))
  end.

(** ** Packing *)

Definition write_size (len : Z) : list Z :=
  [Z.land (Z.shiftr len 8) 255; Z.land len 255].

Definition lpack (ptr : list Z) : res (list Z) :=
  let len := zlen ptr in
  if 0x10000 <=? len then Err "Invalid size (too long) of data : %d"
  else Ok (write_size len ++ ptr).

Definition ltostring (ptr : option cbuf) (size : Z) : option cbuf :=
  match ptr with
  | None => Some []
  | Some b => slice b 0 size
  end.

(** ** The packets of a byte stream *)

(** A proper prefix of a packet: nothing, half of the length, or the length and
    less bytes than it says. *)
Definition incomplete (r : list Z) : Prop :=
  match r with
  | b0 :: b1 :: d => zlen d < b0 * 256 + b1
  | _ => True
  end.

(** [frames bs ps rest]: the stream [bs] consists of the packets [ps] and the
    incomplete [rest]. *)
Inductive frames : list Z -> list (list Z) -> list Z -> Prop :=
| frames_rest r : incomplete r -> frames r [] r
| frames_packet b0 b1 p bs ps rest : zlen p = b0 * 256 + b1 ->
    frames bs ps rest -> frames (b0 :: b1 :: p ++ bs) (p :: ps) rest.

Lemma app_split_len {A} (p p' l l' : list A) :
  length p = length p' -> p ++ l = p' ++ l' -> p = p' /\ l = l'.
Proof. apply app_inj_1. Qed.

Lemma frames_det bs ps rest ps' rest' :
  frames bs ps rest -> frames bs ps' rest' -> ps = ps' /\ rest = rest'.
Proof.
  intros H. revert ps' rest'.
  induction H as [r Hr | b0 b1 p bs ps rest Hp _ IH]; intros ps' rest' H'.
  - inversion H' as [|? ? p bs ? ? Hp Hf]; subst; [done|]. simpl in Hr.
    rewrite zlen_app in Hr. pose proof (zlen_nonneg bs). lia.
  - inversion H' as [? Hr|? ? p' bs' ? ? Hp' Hf]; subst.
    + simpl in Hr. rewrite zlen_app in Hr. pose proof (zlen_nonneg bs). lia.
    + match goal with H : _ ++ _ = _ ++ _ |- _ => apply app_split_len in H as [-> ->] end;
        [|unfold zlen in *; lia].
      destruct (IH _ _ Hf) as [-> ->]. done.
Qed.

(** Bytes that arrive later continue the rest. *)
Lemma frames_app a ps r b ps' r' :
  frames a ps r -> frames (r ++ b) ps' r' -> frames (a ++ b) (ps ++ ps') r'.
Proof.
  intros H. revert b ps' r'. induction H as [r Hr | b0 b1 p bs ps rest Hp _ IH];
    intros b ps' r' H'; [done|].
  simpl. rewrite <-app_assoc. constructor; [done|]. by apply IH.
Qed.

Lemma frames_incomplete bs ps rest : frames bs ps rest -> incomplete rest.
Proof. by induction 1. Qed.

(** ** Representation *)

(** The node of a connection whose incomplete packet is [p]. *)
Definition uc_ok (uc : uncomplete) (p : list Z) : Prop :=
  is_bytes p /\
  match p with
  | [] => False
  | [b] => uc_read uc = -1 /\ uc_header uc = b
  | b0 :: b1 :: d =>
      uc_read uc = zlen d /\ pk_size (uc_pack uc) = b0 * 256 + b1 /\
      zlen d < b0 * 256 + b1 /\
      pk_buffer (uc_pack uc) =
        map Some d ++ replicate (Z.to_nat (b0 * 256 + b1 - zlen d)) None
  end.

Definition uc_id (uc : uncomplete) : Z := pk_id (uc_pack uc).

(** The hash table holds one node for every connection with an incomplete packet. *)
Record hash_ok (hash : list (list uncomplete)) (pend : gmap Z (list Z)) : Prop := HashOk {
  ho_len : zlen hash = HASHSIZE;
  ho_nodup : forall i l, hash.[i] = Some l -> NoDup (map uc_id l);
  ho_node : forall i l uc, hash.[i] = Some l -> uc ∈ l ->
    hash_fd (uc_id uc) = i /\
    exists p, pend !! uc_id uc = Some p /\ uc_ok uc p;
  ho_pend : forall fd p, pend !! fd = Some p ->
    exists l uc, hash.[hash_fd fd] = Some l /\ uc ∈ l /\ uc_id uc = fd
}.

Definition pk_of (x : Z * list Z) : netpack :=
  Netpack x.1 (zlen x.2) (map Some x.2).

(** The queue [q] holds the incomplete packets [pend] and the packets [ps]. *)
Definition queue_rep (q : option queue) (pend : gmap Z (list Z))
    (ps : list (Z * list Z)) : Prop :=
  match q with
  | None => pend = ∅ /\ ps = []
  | Some q =>
      hash_ok (q_hash q) pend /\ q_cap q = zlen (q_queue q) /\
      ring (q_queue q) (q_head q) (map pk_of ps) /\
      zlen ps < q_cap q /\ q_tail q = (q_head q + zlen ps) mod q_cap q
  end.

Lemma hash_fd_bound fd : 0 <= hash_fd fd < HASHSIZE.
Proof. unfold hash_fd, HASHSIZE. apply Z.mod_pos_bound. lia. Qed.

Lemma new_queue_rep : queue_rep (Some new_queue) ∅ [].
Proof.
  assert (forall i l, (replicate (Z.to_nat HASHSIZE) (@nil uncomplete)).[i] = Some l -> l = [])
    as Hnil.
  { intros i l Hl. unfold aget in Hl. case_decide; [|done].
    apply list_elem_of_lookup_2, elem_of_replicate in Hl. by destruct Hl. }
  split; [split|split; [|split; [|split]]]; cbn [q_hash q_cap q_queue q_head q_tail new_queue].
  - by rewrite zlen_replicate.
  - intros i l Hl%Hnil. subst l. constructor.
  - intros i l uc Hl%Hnil Hin. subst l. by apply not_elem_of_nil in Hin.
  - intros fd p Hp. by rewrite lookup_empty in Hp.
  - by rewrite zlen_replicate.
  - apply ring_nil. rewrite zlen_replicate. unfold QUEUESIZE. lia.
  - done.
  - done.
Qed.

Lemma get_queue_rep q pend ps : queue_rep q pend ps -> queue_rep (Some (get_queue q)) pend ps.
Proof. destruct q; [done|]. intros [-> ->]. apply new_queue_rep. Qed.

(** ** The hash table *)

Lemma unlink_spec l fd : NoDup (map uc_id l) ->
  match unlink_fd l fd with
  | Some (uc, l') => uc_id uc = fd /\ l ≡ₚ uc :: l'
  | None => forall uc, uc ∈ l -> uc_id uc <> fd
  end.
Proof.
  induction l as [|uc l IH]; cbn [unlink_fd map]; intros Hnd.
  - intros uc Hin. by apply not_elem_of_nil in Hin.
  - inversion Hnd as [|? ? Hni Hnd']; subst. fold (uc_id uc).
    destruct (Z.eqb_spec (uc_id uc) fd) as [|Hne]; [done|].
    specialize (IH Hnd'). destruct (unlink_fd l fd) as [[uc' l']|]; cbn [mbind option_bind].
    + destruct IH as [? Hp]. split; [done|]. rewrite Hp. constructor.
    + intros uc' [->|Hin]%elem_of_cons; [done | by apply IH].
Qed.

Lemma hash_delete hash pend fd l uc l' : hash_ok hash pend ->
  hash.[hash_fd fd] = Some l -> l ≡ₚ uc :: l' -> uc_id uc = fd ->
  hash_ok (<[Z.to_nat (hash_fd fd) := l']> hash) (delete fd pend).
Proof.
  intros [Hlen Hnd Hnode Hpend] Hl Hperm Hid.
  assert (hash.[hash_fd fd := l'] = Some (<[Z.to_nat (hash_fd fd) := l']> hash)) as Hset
    by (apply aset_Some; rewrite Hlen; apply hash_fd_bound).
  pose proof (Hnd _ _ Hl) as Hnl. rewrite Hperm in Hnl. cbn [map] in Hnl.
  inversion Hnl as [|? ? Hni Hnl']; subst.
  split.
  - by rewrite zlen_insert.
  - intros i k Hk. rewrite (aget_aset _ _ _ _ _ Hset) in Hk. case_decide; [by simplify_eq|].
    by eapply Hnd.
  - intros i k u Hk Hu. rewrite (aget_aset _ _ _ _ _ Hset) in Hk.
    assert (exists k', hash.[i] = Some k' /\ u ∈ k' /\ uc_id u <> uc_id uc) as (k' & Hk' & Hu' & Hne).
    { case_decide as Hi.
      - simplify_eq. exists l. split; [done|]. split.
        + rewrite Hperm. by right.
        + intros Heq. apply Hni. rewrite <-Heq. by apply list_elem_of_fmap_2.
      - exists k. split; [done|]. split; [done|]. intros Heq.
        destruct (Hnode _ _ _ Hk Hu) as [Hh _]. congruence. }
    destruct (Hnode _ _ _ Hk' Hu') as (Hh & p & Hp & Hok). split; [done|].
    exists p. by rewrite lookup_delete_ne.
  - intros fd' p Hp. apply lookup_delete_Some in Hp as [Hne Hp].
    destruct (Hpend _ _ Hp) as (k & u & Hk & Hu & Hid). rewrite (aget_aset _ _ _ _ _ Hset).
    case_decide as Hi; [|by exists k, u].
    exists l', u. split; [done|]. split; [|done].
    assert (k = l) as -> by congruence. rewrite Hperm in Hu.
    apply elem_of_cons in Hu as [->|]; [by destruct Hne | done].
Qed.

Lemma find_uncomplete_spec q pend ps fd : queue_rep q pend ps ->
  exists uc q', find_uncomplete q fd = Some (uc, q') /\
    queue_rep q' (delete fd pend) ps /\
    match uc with
    | Some uc => (exists p, pend !! fd = Some p /\ uc_ok uc p) /\ uc_id uc = fd /\ is_Some q'
    | None => pend !! fd = None /\ q' = q
    end.
Proof.
  intros Hq. destruct q as [q|]; cbn [find_uncomplete].
  2: { destruct Hq as [-> ->]. exists None, None. rewrite delete_empty. done. }
  destruct Hq as (Hh & Hrest). pose proof Hh as [Hlen Hnd Hnode Hpend].
  destruct (aget_is_Some (q_hash q) (hash_fd fd)) as [l Hl];
    [rewrite Hlen; apply hash_fd_bound|].
  rewrite Hl. cbn [mbind option_bind]. pose proof (unlink_spec l fd (Hnd _ _ Hl)) as Hu.
  destruct (unlink_fd l fd) as [[uc l']|].
  - destruct Hu as [Hid Hperm].
    rewrite aset_Some by (rewrite Hlen; apply hash_fd_bound). cbn [mbind option_bind].
    exists (Some uc). eexists. split; [done|]. split.
    + split; [|exact Hrest]. by eapply hash_delete.
    + split; [|split; [done | by eexists]].
      destruct (Hnode _ _ uc Hl) as (_ & p & Hp & Hok); [rewrite Hperm; by left|].
      rewrite Hid in Hp. by exists p.
  - exists None, (Some q).
    assert (pend !! fd = None) as Hnone.
    { destruct (pend !! fd) as [p|] eqn:Hp; [|done].
      destruct (Hpend _ _ Hp) as (k & u & Hk & Hin & Hid).
      assert (k = l) as -> by congruence. by apply Hu in Hin. }
    rewrite delete_id by done. done.
Qed.

Lemma link_uncomplete_spec q pend ps fd uc p : queue_rep (Some q) pend ps ->
  pend !! fd = None -> uc_id uc = fd -> uc_ok uc p ->
  exists q', link_uncomplete q fd uc = Some q' /\ queue_rep (Some q') (<[fd := p]> pend) ps.
Proof.
  intros ([Hlen Hnd Hnode Hpend] & Hrest) Hnone Hid Hok. unfold link_uncomplete.
  destruct (aget_is_Some (q_hash q) (hash_fd fd)) as [l Hl];
    [rewrite Hlen; apply hash_fd_bound|].
  rewrite Hl. cbn [mbind option_bind].
  assert ((q_hash q).[hash_fd fd := uc :: l] =
    Some (<[Z.to_nat (hash_fd fd) := uc :: l]> (q_hash q))) as Hset
    by (apply aset_Some; rewrite Hlen; apply hash_fd_bound).
  rewrite Hset. cbn [mbind option_bind]. eexists; split; [done|]. split; [|exact Hrest].
  cbn [q_hash set_hash]. split.
  - by rewrite zlen_insert.
  - intros i k Hk. rewrite (aget_aset _ _ _ _ _ Hset) in Hk. case_decide; [|by eapply Hnd].
    simplify_eq. cbn [map]. constructor; [|by eapply Hnd].
    intros (u & Hu & Hin)%list_elem_of_fmap. destruct (Hnode _ _ _ Hl Hin) as (_ & p' & Hp' & _).
    rewrite <-Hu in Hp'. congruence.
  - intros i k u Hk Hin. rewrite (aget_aset _ _ _ _ _ Hset) in Hk. case_decide as Hi.
    + simplify_eq. apply elem_of_cons in Hin as [->|Hin].
      * split; [done|]. exists p. by rewrite lookup_insert_eq.
      * destruct (Hnode _ _ _ Hl Hin) as (Hh & p' & Hp' & Hok'). split; [done|].
        exists p'. rewrite lookup_insert_ne; [done|]. congruence.
    + destruct (Hnode _ _ _ Hk Hin) as (Hh & p' & Hp' & Hok'). split; [done|].
      exists p'. rewrite lookup_insert_ne; [done|]. congruence.
  - intros fd' p' Hp'. rewrite (aget_aset _ _ _ _ _ Hset).
    destruct (decide (fd' = fd)) as [->|Hne].
    + rewrite decide_True by done. exists (uc :: l), uc. split; [done|]. split; [by left | done].
    + rewrite lookup_insert_ne in Hp' by done.
      destruct (Hpend _ _ Hp') as (k & u & Hk & Hin & Hid').
      case_decide as Hi; [|by exists k, u].
      exists (uc :: l), u. split; [done|]. split; [|done]. right. congruence.
Qed.

(** ** The packet queue *)

Lemma push_data_spec q pend ps fd p : queue_rep q pend ps ->
  exists q', push_data q fd (map Some p) (zlen p) = Some q' /\
    queue_rep (Some q') pend (ps ++ [(fd, p)]).
Proof.
  intros Hq%get_queue_rep. unfold push_data. cbv zeta. generalize dependent (get_queue q).
  intros q0 (Hh & Hcap & Hr & Hlen & Htail).
  assert (zlen (map pk_of ps) = zlen ps) as Hzm by (unfold zlen; by rewrite length_map).
  pose proof (zlen_nonneg ps).
  destruct (ring_snoc (q_queue q0) (q_head q0) (map pk_of ps) (pk_of (fd, p)))
    as (buf & Hset & Hbl & Hr'); [lia | done |].
  rewrite Hzm, <-Hcap, <-Htail in Hset. unfold pk_of in Hset; cbn [fst snd] in Hset.
  rewrite Hset. cbn [mbind option_bind q_head q_tail].
  assert (zlen (ps ++ [(fd, p)]) = zlen ps + 1) as Hz1 by (by rewrite zlen_app).
  set (tail := if q_cap q0 <=? q_tail q0 + 1 then _ else _).
  destruct Hr as (Hhb & _).
  assert (tail = (q_head q0 + zlen (ps ++ [(fd, p)])) mod q_cap q0) as Ht.
  { subst tail. rewrite Hz1, Htail. destruct (Z.leb_spec (q_cap q0)
      ((q_head q0 + zlen ps) mod q_cap q0 + 1)).
    - rewrite mod_wrap by lia.
      pose proof (Z.mod_pos_bound (q_head q0 + zlen ps) (q_cap q0) ltac:(lia)). lia.
    - by apply mod_step; lia. }
  assert (map pk_of (ps ++ [(fd, p)]) = map pk_of ps ++ [pk_of (fd, p)]) as Hmap
    by (by rewrite map_app).
  rewrite <-Hmap in Hr'.
  destruct (Z.eqb_spec (q_head q0) tail) as [Heq|Hne].
  - (* full: the ring is unrolled into a larger array *)
    assert (zlen (ps ++ [(fd, p)]) = q_cap q0) as Hfull.
    { destruct (decide (zlen (ps ++ [(fd, p)]) = q_cap q0)) as [|Hn]; [done|]. exfalso.
      rewrite Ht in Heq. assert ((q_head q0 + 0) mod q_cap q0 =
        (q_head q0 + zlen (ps ++ [(fd, p)])) mod q_cap q0) as Hc
        by (rewrite <-Heq, Z.add_0_r, Z.mod_small; lia).
      apply mod_offset_inj in Hc; lia. }
    unfold expand_queue. cbn [q_queue q_cap q_head q_hash].
    replace (q_cap q0) with (zlen buf) by lia.
    destruct (unroll_total buf (q_head q0) (length buf) 0 ltac:(lia)) as [new Hnew].
    replace (Z.to_nat (zlen buf)) with (length buf) by (unfold zlen; lia).
    rewrite Hnew. cbn [mbind option_bind]. eexists; split; [done|].
    pose proof (unroll_spec _ _ _ _ _ Hnew) as [Hnl _]. fold (zlen buf) in Hnl.
    assert (zlen (new ++ replicate (Z.to_nat QUEUESIZE) (@None netpack)) = zlen buf + QUEUESIZE)
      as Hzn by (rewrite zlen_app, zlen_replicate, Hnl; unfold QUEUESIZE; lia).
    split; [exact Hh|]. cbn [q_queue q_cap q_head q_tail]. unfold QUEUESIZE in *.
    split; [lia|]. split; [|split; [lia|]].
    + eapply ring_grow; [done | done |]. rewrite zlen_replicate. lia.
    + rewrite Z.add_0_l, Z.mod_small; lia.
  - eexists; split; [done|]. split; [exact Hh|]. cbn [q_queue q_cap q_head q_tail].
    split; [lia|]. split; [done|]. split; [|done].
    destruct (decide (zlen (ps ++ [(fd, p)]) = q_cap q0)) as [Hn|]; [|lia]. exfalso.
    apply Hne. rewrite Ht, Hn. pose proof (Z.mod_add (q_head q0) 1 (q_cap q0)) as Hm.
    rewrite Z.mul_1_l in Hm. rewrite Hm, Z.mod_small by lia. done.
Qed.

Lemma copy_of_spec buffer n : 0 <= n <= zlen buffer ->
  copy_of n buffer n = Some (map Some (take (Z.to_nat n) buffer)).
Proof.
  intros Hn. unfold copy_of. rewrite slice_spec by lia. cbn [mbind option_bind].
  change (drop (Z.to_nat 0) buffer) with buffer.
  assert (zlen (take (Z.to_nat n) buffer) = n) as Hl
    by (unfold zlen in *; rewrite length_take; lia).
  unfold malloc. rewrite memcpy_spec.
  - rewrite drop_replicate. rewrite length_map. change (take (Z.to_nat 0) ?l) with (take 0 l).
    rewrite take_0. replace (_ - _)%nat with 0%nat by (unfold zlen in Hl; lia).
    simpl. by rewrite app_nil_r.
  - lia.
  - rewrite zlen_replicate. unfold zlen in *. rewrite length_map. lia.
Qed.

Lemma copy_part_spec buffer cap : zlen buffer < cap ->
  copy_of cap buffer (zlen buffer) =
  Some (map Some buffer ++ replicate (Z.to_nat (cap - zlen buffer)) None).
Proof.
  intros Hn. unfold copy_of. pose proof (zlen_nonneg buffer). rewrite slice_spec by lia.
  cbn [mbind option_bind]. change (drop (Z.to_nat 0) buffer) with buffer.
  rewrite take_ge by (unfold zlen; lia). unfold malloc. rewrite memcpy_spec.
  - rewrite drop_replicate, length_map. change (take (Z.to_nat 0) ?l) with (take 0 l).
    rewrite take_0. simpl. do 3 f_equal. unfold zlen. lia.
  - lia.
  - rewrite zlen_replicate. unfold zlen in *. rewrite length_map. lia.
Qed.

Lemma push_clone_spec q pend ps fd buffer n : queue_rep q pend ps -> 0 <= n <= zlen buffer ->
  exists q', push_clone q fd buffer n = Some q' /\
    queue_rep (Some q') pend (ps ++ [(fd, take (Z.to_nat n) buffer)]).
Proof.
  intros Hq Hn. unfold push_clone. rewrite copy_of_spec by done. cbn [mbind option_bind].
  assert (zlen (take (Z.to_nat n) buffer) = n) as Hl
    by (unfold zlen in *; rewrite length_take; lia).
  pose proof (push_data_spec q pend ps fd (take (Z.to_nat n) buffer) Hq) as H.
  by rewrite Hl in H.
Qed.

Lemma save_spec q pend ps fd size buffer read header p : queue_rep q pend ps ->
  pend !! fd = None -> uc_ok (Uncomplete (Netpack fd size buffer) read header) p ->
  exists q', save_uncomplete q fd size buffer read header = Some q' /\
    queue_rep (Some q') (<[fd := p]> pend) ps.
Proof.
  intros Hq%get_queue_rep Hnone Hok. unfold save_uncomplete.
  by apply (link_uncomplete_spec (get_queue q) pend ps).
Qed.

Lemma save_part_spec q pend ps fd b0 b1 d : queue_rep q pend ps -> pend !! fd = None ->
  is_bytes (b0 :: b1 :: d) -> zlen d < b0 * 256 + b1 ->
  exists q', save_part q fd d (b0 * 256 + b1) = Some q' /\
    queue_rep (Some q') (<[fd := b0 :: b1 :: d]> pend) ps.
Proof.
  intros Hq Hnone Hb Hd. unfold save_part. rewrite copy_part_spec by done.
  cbn [mbind option_bind]. apply save_spec; [done | done |]. split; [done|]. by split_and!.
Qed.

Lemma read_size_spec b0 b1 d : is_u8 b0 -> is_u8 b1 ->
  read_size (b0 :: b1 :: d) = Some (b0 * 256 + b1).
Proof.
  intros H0 H1. unfold read_size.
  change ((b0 :: b1 :: d).[0]) with (Some b0). change ((b0 :: b1 :: d).[1]) with (Some b1).
  cbn [mbind option_bind]. unfold is_u8 in *.
  rewrite Z.lor_comm, lor_shiftl_add by lia. f_equal. lia.
Qed.

(** The pending bytes of a connection after an event. *)
Definition set_pend (fd : Z) (r : list Z) (pend : gmap Z (list Z)) : gmap Z (list Z) :=
  match r with [] => delete fd pend | _ => <[fd := r]> pend end.

Lemma zlen_cons2 {A} (x y : A) l : zlen (x :: y :: l) = 2 + zlen l.
Proof. rewrite !zlen_cons. lia. Qed.

Lemma set_pend_cons fd b r pend : set_pend fd (b :: r) pend = <[fd := b :: r]> pend.
Proof. done. Qed.

Lemma push_more_spec fd : forall fuel buffer q pend ps, (length buffer < fuel)%nat ->
  buffer <> [] -> is_bytes buffer -> queue_rep q pend ps -> pend !! fd = None ->
  exists q' out rest, push_more fuel q fd buffer = Some q' /\ frames buffer out rest /\
    queue_rep (Some q') (set_pend fd rest pend) (ps ++ map (pair fd) out).
Proof.
  induction fuel as [|fuel IH]; intros buffer q pend ps Hf Hne Hb Hq Hnone; [lia|].
  cbn [push_more]. destruct buffer as [|b0 [|b1 d]]; [done| |].
  - change (zlen [b0] =? 1) with true. cbv iota. change ([b0].[0]) with (Some b0).
    cbn [mbind option_bind].
    destruct (save_spec q pend ps fd 0 [] (-1) b0 [b0] Hq Hnone) as (q' & -> & Hq'); [done|].
    exists q', [], [b0]. rewrite app_nil_r. split; [done|]. split; [by constructor | done].
  - destruct (Z.eqb_spec (zlen (b0 :: b1 :: d)) 1) as [H1|_];
      [rewrite zlen_cons2 in H1; pose proof (zlen_nonneg d); lia|].
    pose proof Hb as Hbb. unfold is_bytes in Hb. rewrite !Forall_cons in Hb.
    destruct Hb as (H0 & H1 & Hb).
    rewrite read_size_spec by done. cbn [mbind option_bind].
    change (advance (b0 :: b1 :: d) 2) with d.
    assert (0 <= b0 * 256 + b1) by (unfold is_u8 in *; lia).
    set (n := b0 * 256 + b1) in *. destruct (Z.ltb_spec (zlen d) n).
    + destruct (save_part_spec q pend ps fd b0 b1 d Hq Hnone Hbb) as (q' & Hs & Hq'); [done|].
      exists q', [], (b0 :: b1 :: d). rewrite app_nil_r. split; [exact Hs|].
      split; [by constructor | done].
    + destruct (push_clone_spec q pend ps fd d n Hq) as (q' & -> & Hq'); [lia|].
      cbn [mbind option_bind]. set (p := take (Z.to_nat n) d) in *.
      assert (d = p ++ advance d n) as Hd by (subst p; unfold advance; by rewrite take_drop).
      assert (zlen p = n) as Hp by (subst p; unfold zlen in *; rewrite length_take; lia).
      destruct (Z.ltb_spec 0 (zlen (advance d n))) as [Hmore|Hdone].
      * destruct (IH (advance d n) (Some q') pend (ps ++ [(fd, p)]))
          as (q2 & out & rest & Hm & Hfr & Hq2); try done.
        { unfold advance. rewrite length_drop. simpl in Hf. lia. }
        { intros Hnil. rewrite Hnil in Hmore. unfold zlen in Hmore; simpl in Hmore. lia. }
        { by apply Forall_drop. }
        exists q2, (p :: out), rest. split; [done|]. split.
        -- rewrite Hd. by constructor.
        -- by rewrite <-app_assoc in Hq2.
      * exists q', [p], []. split; [done|]. split.
        -- rewrite Hd. constructor; [done|].
           assert (advance d n = []) as -> by (apply zlen_nil_inv; pose proof (zlen_nonneg (advance d n)); lia).
           by constructor.
        -- simpl set_pend. by rewrite delete_id.
Qed.

(** What [filter] reports for the packets [out] and the rest of the stream. *)
Definition data_event (fd : Z) (out : list (list Z)) (rest : list Z) : event :=
  match out, rest with
  | [], _ => ENone
  | [p], [] => EData fd (map Some p) (zlen p)
  | _, _ => EMore
  end.

(** The packets that went to the queue. *)
Definition queued (fd : Z) (out : list (list Z)) (rest : list Z) : list (Z * list Z) :=
  match out, rest with
  | [p], [] => []
  | _, _ => map (pair fd) out
  end.

Lemma filter_fresh_spec q pend ps fd buffer : queue_rep q pend ps -> pend !! fd = None ->
  buffer <> [] -> is_bytes buffer ->
  exists q' out rest, filter_fresh q fd buffer = Some (data_event fd out rest, q') /\
    frames buffer out rest /\ queue_rep q' (set_pend fd rest pend) (ps ++ queued fd out rest).
Proof.
  intros Hq Hnone Hne Hb. unfold filter_fresh. destruct buffer as [|b0 [|b1 d]]; [done| |].
  - change (zlen [b0] =? 1) with true. cbv iota. change ([b0].[0]) with (Some b0).
    cbn [mbind option_bind].
    destruct (save_spec q pend ps fd 0 [] (-1) b0 [b0] Hq Hnone) as (q' & -> & Hq'); [done|].
    exists (Some q'), [], [b0]. rewrite app_nil_r. split; [done|]. split; [by constructor | done].
  - destruct (Z.eqb_spec (zlen (b0 :: b1 :: d)) 1) as [H1|_];
      [rewrite zlen_cons2 in H1; pose proof (zlen_nonneg d); lia|].
    pose proof Hb as Hbb. unfold is_bytes in Hb. rewrite !Forall_cons in Hb.
    destruct Hb as (H0 & H1 & Hb).
    rewrite read_size_spec by done. cbn [mbind option_bind].
    change (advance (b0 :: b1 :: d) 2) with d.
    assert (0 <= b0 * 256 + b1) by (unfold is_u8 in *; lia).
    set (n := b0 * 256 + b1) in *. cbv zeta. destruct (Z.ltb_spec (zlen d) n).
    + destruct (save_part_spec q pend ps fd b0 b1 d Hq Hnone Hbb) as (q' & Hs & Hq'); [done|].
      fold n in Hs. rewrite Hs. exists (Some q'), [], (b0 :: b1 :: d). rewrite app_nil_r.
      split; [done|]. split; [by constructor | done].
    + destruct (Z.eqb_spec (zlen d) n) as [Heq|Hneq].
      * rewrite <-Heq, copy_of_spec by lia. cbn [mbind option_bind].
        exists q, [d], []. unfold queued. rewrite app_nil_r.
        replace (take (Z.to_nat (zlen d)) d) with d
          by (symmetry; apply take_ge; unfold zlen; lia).
        split; [done|]. split; [|simpl; by rewrite delete_id].
        rewrite <-(app_nil_r d) at 1. constructor; [done | by constructor].
      * destruct (push_clone_spec q pend ps fd d n Hq) as (q' & -> & Hq'); [lia|].
        cbn [mbind option_bind]. set (p := take (Z.to_nat n) d) in *.
        assert (d = p ++ advance d n) as Hd by (subst p; unfold advance; by rewrite take_drop).
        assert (zlen p = n) as Hp by (subst p; unfold zlen in *; rewrite length_take; lia).
        assert (advance d n <> []) as Hadv.
        { intros Hnil. rewrite Hnil, app_nil_r in Hd. rewrite <-Hd in Hp. lia. }
        destruct (push_more_spec fd (more_fuel (advance d n)) (advance d n) (Some q') pend
          (ps ++ [(fd, p)])) as (q2 & out & rest & -> & Hfr & Hq2); try done.
        { unfold more_fuel. lia. }
        { by apply Forall_drop. }
        cbn [mbind option_bind]. exists (Some q2), (p :: out), rest.
        assert (data_event fd (p :: out) rest = EMore /\
          queued fd (p :: out) rest = map (pair fd) (p :: out)) as [-> ->].
        { destruct out as [|p2 out]; [|done]. destruct rest as [|c rest]; [|done].
          inversion Hfr as [r Hr|]; subst. by destruct Hadv. }
        split; [done|]. split; [rewrite Hd; by constructor|]. by rewrite <-app_assoc in Hq2.
Qed.

(** ** Filter *)

Lemma frames_one b0 b1 d : is_u8 b0 -> is_u8 b1 -> zlen d = b0 * 256 + b1 ->
  frames (b0 :: b1 :: d) [d] [].
Proof.
  intros _ _ Hd. rewrite <-(app_nil_r d) at 1. constructor; [done | by constructor].
Qed.

Lemma fill_rest_spec q pend ps fd id hd b0 b1 d buffer : queue_rep (Some q) pend ps ->
  pend !! fd = None -> id = fd -> is_bytes (b0 :: b1 :: d) -> is_bytes buffer ->
  zlen d <= b0 * 256 + b1 -> (zlen d < b0 * 256 + b1 \/ b0 * 256 + b1 = 0) ->
  exists q' out rest,
    fill_rest (Some q) fd
      (Uncomplete (Netpack id (b0 * 256 + b1)
         (map Some d ++ replicate (Z.to_nat (b0 * 256 + b1 - zlen d)) None)) (zlen d) hd)
      buffer = Some (data_event fd out rest, q') /\
    frames (b0 :: b1 :: d ++ buffer) out rest /\
    queue_rep q' (set_pend fd rest pend) (ps ++ queued fd out rest).
Proof.
  intros Hq Hnone -> Hbd Hb Hle Hlt. set (n := b0 * 256 + b1) in *.
  pose proof (zlen_nonneg buffer) as Hzb. pose proof (zlen_nonneg d) as Hzd.
  unfold fill_rest. cbn [uc_pack pk_size pk_buffer uc_read pk_id uc_header]. cbv zeta.
  assert (zlen (map Some d) = zlen d) as Hzm by (unfold zlen; by rewrite length_map).
  assert (Z.to_nat (zlen d) = length (map Some d)) as Hnl by (unfold zlen; rewrite length_map; lia).
  destruct (Z.ltb_spec (zlen buffer) (n - zlen d)) as [Hshort|Henough].
  - rewrite memcpy_spec; [|lia | rewrite zlen_app, zlen_replicate, Hzm;
      unfold zlen in *; rewrite length_map; lia].
    cbn [mbind option_bind]. rewrite Hnl, take_app_length, drop_app_add', drop_replicate by done.
    destruct (link_uncomplete_spec q pend ps fd
      (Uncomplete (Netpack fd n (map Some d ++ map Some buffer ++
        replicate (Z.to_nat (n - zlen d) - length (map Some buffer)) None))
        (zlen d + zlen buffer) hd) (b0 :: b1 :: d ++ buffer) Hq Hnone eq_refl)
      as (q' & -> & Hq').
    { split.
      - change (b0 :: b1 :: d ++ buffer) with ((b0 :: b1 :: d) ++ buffer). by apply Forall_app.
      - cbn [uc_read uc_pack pk_size pk_buffer]. rewrite zlen_app. fold n.
        split; [done|]. split; [done|]. split; [lia|].
        rewrite map_app, <-app_assoc. do 3 f_equal. rewrite length_map. unfold zlen. lia. }
    cbn [mbind option_bind]. exists (Some q'), [], (b0 :: b1 :: d ++ buffer).
    rewrite app_nil_r. split; [done|]. split; [|done].
    constructor. simpl. rewrite zlen_app. fold n. lia.
  - set (need := n - zlen d) in *. rewrite slice_spec by lia. cbn [mbind option_bind].
    change (drop (Z.to_nat 0) buffer) with buffer.
    set (d2 := take (Z.to_nat need) buffer).
    assert (zlen d2 = need) as Hd2 by (subst d2; unfold zlen in *; rewrite length_take; lia).
    rewrite memcpy_spec; [|lia | rewrite zlen_app, zlen_replicate, Hzm;
      unfold zlen in *; rewrite length_map; lia].
    cbn [mbind option_bind]. rewrite Hnl, take_app_length, drop_app_add', drop_replicate by done.
    replace (Z.to_nat need - length (map Some d2))%nat with 0%nat
      by (rewrite length_map; unfold zlen in Hd2; lia).
    simpl replicate. rewrite app_nil_r, <-map_app.
    assert (zlen (d ++ d2) = n) as Hn by (rewrite zlen_app; lia).
    assert (buffer = d2 ++ advance buffer need) as Hbuf by (subst d2; unfold advance; by rewrite take_drop).
    apply Forall_cons in Hbd as [H0 Hbd]. apply Forall_cons in Hbd as [H1 Hbd].
    destruct (Z.eqb_spec (zlen (advance buffer need)) 0) as [Hz|Hz].
    + apply zlen_nil_inv in Hz. rewrite Hz, app_nil_r in Hbuf.
      exists (Some q), [d ++ d2], []. unfold queued. rewrite app_nil_r. simpl set_pend.
      rewrite delete_id by done. split; [by rewrite <-Hn|]. split; [|done].
      rewrite Hbuf. by apply frames_one.
    + destruct (push_data_spec (Some q) pend ps fd (d ++ d2) Hq) as (q1 & Hpd & Hq1).
      rewrite Hn in Hpd. rewrite Hpd. cbn [mbind option_bind].
      assert (advance buffer need <> []) as Hadv by (intros Hnil; by rewrite Hnil in Hz).
      destruct (push_more_spec fd (more_fuel (advance buffer need)) (advance buffer need)
        (Some q1) pend (ps ++ [(fd, d ++ d2)])) as (q2 & out & rest & -> & Hfr & Hq2); try done.
      { unfold more_fuel. lia. }
      { by apply Forall_drop. }
      cbn [mbind option_bind]. exists (Some q2), ((d ++ d2) :: out), rest.
      assert (data_event fd ((d ++ d2) :: out) rest = EMore /\
        queued fd ((d ++ d2) :: out) rest = map (pair fd) ((d ++ d2) :: out)) as [-> ->].
      { destruct out as [|p2 out]; [|done]. destruct rest as [|c rest]; [|done].
        inversion Hfr as [r Hr|]; subst. by destruct Hadv. }
      split; [done|]. split; [|by rewrite <-app_assoc in Hq2].
      rewrite Hbuf at 1. rewrite app_assoc. by constructor.
Qed.

Lemma filter_data_spec q pend ps fd buffer : queue_rep q pend ps ->
  buffer <> [] -> is_bytes buffer ->
  exists q' out rest, filter_data q fd buffer = Some (data_event fd out rest, q') /\
    frames (default [] (pend !! fd) ++ buffer) out rest /\
    queue_rep q' (set_pend fd rest pend) (ps ++ queued fd out rest).
Proof.
  intros Hq Hne Hb. unfold filter_data.
  destruct (find_uncomplete_spec q pend ps fd Hq) as (uc & q1 & -> & Hq1 & Huc).
  cbn [mbind option_bind].
  assert (forall rest, set_pend fd rest (delete fd pend) = set_pend fd rest pend) as Hset.
  { intros [|c rest]; simpl; [by rewrite delete_delete_eq | by rewrite insert_delete_eq]. }
  assert (delete fd pend !! fd = None) as Hdel by apply lookup_delete_eq.
  destruct uc as [uc|].
  - destruct Huc as ((p & Hp & Hpb & Hok) & Hid & (q2 & ->)). rewrite Hp. cbn [default].
    unfold fill_uncomplete. destruct p as [|b0 [|b1 d]]; [done| |].
    + destruct Hok as [-> Hh]. change (-1 <? 0) with true. change (-1 =? -1) with true.
      cbn [cassert mbind option_bind]. destruct buffer as [|b1 buffer]; [done|].
      change ((b1 :: buffer).[0]) with (Some b1). cbn [mbind option_bind].
      change (advance (b1 :: buffer) 1) with buffer. rewrite Hh.
      apply Forall_cons in Hb as [H1 Hb]. apply Forall_cons in Hpb as [H0 _].
      assert (Z.lor b1 (Z.shiftl b0 8) = b0 * 256 + b1) as ->
        by (unfold is_u8 in *; rewrite lor_shiftl_add by lia; lia).
      destruct (fill_rest_spec q2 (delete fd pend) ps fd (pk_id (uc_pack uc)) b0 b0 b1 []
        buffer Hq1 Hdel Hid) as (q' & out & rest & Hf & Hfr & Hq').
      * constructor; [done|]. constructor; [done | constructor].
      * done.
      * unfold is_u8 in *. change (zlen (@nil Z)) with 0. lia.
      * unfold is_u8 in *. change (zlen (@nil Z)) with 0. lia.
      * change (zlen (@nil Z)) with 0 in Hf. rewrite Z.sub_0_r in Hf. simpl app in Hf.
        unfold malloc. rewrite Hf. exists q', out, rest. by rewrite Hset in Hq'.
    + destruct Hok as (Hr & Hsz & Hlt & Hbuf). rewrite Hr.
      rewrite (proj2 (Z.ltb_ge (zlen d) 0)) by apply zlen_nonneg. cbn [mbind option_bind].
      destruct uc as [[id sz cb] rd hd]. unfold uc_id in *. simpl in Hid, Hr, Hsz, Hbuf. subst.
      destruct (fill_rest_spec q2 (delete fd pend) ps fd fd hd b0 b1 d
        buffer Hq1 Hdel eq_refl Hpb Hb) as (q' & out & rest & Hf & Hfr & Hq'); [lia | lia |].
      rewrite Hf. exists q', out, rest. by rewrite Hset in Hq'.
  - destruct Huc as [Hnone ->]. rewrite Hnone. simpl. by apply filter_fresh_spec.
Qed.

(** The effect of a socket message on the incomplete packets. *)
Definition spec_pend (message : socket_message) (rest : list Z) (pend : gmap Z (list Z))
    : gmap Z (list Z) :=
  match message with
  | SData fd _ => set_pend fd rest pend
  | SClose fd | SError fd _ => delete fd pend
  | _ => pend
  end.

(** [filter] cuts every connection's byte stream into packets.  With data the
    bytes that were left over are continued: the complete packets of the result
    are reported at once if the data ends with the only one, and appended to the
    queue in order otherwise, and the rest is kept under the connection's number;
    closing a connection forgets its rest and no other; the other messages are
    passed on.  No assertion fails, every copy stays inside its buffer, no
    uninitialised byte is delivered, and the queue grows when it is full. *)
Theorem netpack_filter_correct (q : option queue) (pend : gmap Z (list Z))
    (ps : list (Z * list Z)) (message : socket_message) :
  queue_rep q pend ps ->
  (forall fd buffer, message = SData fd buffer -> buffer <> [] /\ is_bytes buffer) ->
  exists ev q' out rest, lfilter q message = Some (ev, q') /\
    queue_rep q' (spec_pend message rest pend)
      (ps ++ match message with SData fd _ => queued fd out rest | _ => [] end) /\
    match message with
    | SData fd buffer => frames (default [] (pend !! fd) ++ buffer) out rest /\
        ev = data_event fd out rest
    | SConnect _ | SUdp _ => ev = ENone
    | SClose fd => ev = EClose fd
    | SError fd msg => ev = EError fd msg
    | SAccept _ fd msg => ev = EOpen fd msg
    | SWarning fd n => ev = EWarning fd n
    end.
Proof.
  intros Hq Hdata.
  assert (forall fd, exists q', close_uncomplete q fd = Some q' /\ queue_rep q' (delete fd pend) ps)
    as Hclose.
  { intros fd. destruct (find_uncomplete_spec q pend ps fd Hq) as (uc & q' & Hf & Hq' & _).
    exists q'. unfold close_uncomplete. by rewrite Hf. }
  destruct message as [fd buffer|fd|fd|id fd msg|fd msg|fd n|fd]; cbn [lfilter spec_pend].
  - destruct (Hdata fd buffer eq_refl) as [Hne Hb].
    destruct (filter_data_spec q pend ps fd buffer Hq Hne Hb) as (q' & out & rest & -> & Hfr & Hq').
    by exists (data_event fd out rest), q', out, rest.
  - exists ENone, q, [], []. by rewrite app_nil_r.
  - destruct (Hclose fd) as (q' & -> & Hq'). cbn [mbind option_bind].
    exists (EClose fd), q', [], []. by rewrite app_nil_r.
  - exists (EOpen fd msg), q, [], []. by rewrite app_nil_r.
  - destruct (Hclose fd) as (q' & -> & Hq'). cbn [mbind option_bind].
    exists (EError fd msg), q', [], []. by rewrite app_nil_r.
  - exists (EWarning fd n), q, [], []. by rewrite app_nil_r.
  - exists ENone, q, [], []. by rewrite app_nil_r.
Qed.

(** ** The consumer: a packet reported with the data is handled at once, after
    "more" the queue is popped until it is empty (lualib/snax/gateserver.lua). *)

Fixpoint drain (fuel : nat) (q : option queue) : option (list netpack * option queue) :=
  match fuel with
  | O => None
  | S fuel =>
      '(np, q) ← lpop q;
      match np with
      | None => Some ([], q)
      | Some np => '(l, q) ← drain fuel q; Some (np :: l, q)
      end
  end.

Definition consume (q : option queue) (message : socket_message)
    : option (list netpack * option queue) :=
  '(ev, q) ← lfilter q message;
  match ev with
  | EData fd buffer size => Some ([Netpack fd size buffer], q)
  | EMore => drain (S (Z.to_nat (q_cap (get_queue q)))) q
  | _ => Some ([], q)
  end.

Fixpoint consume_all (q : option queue) (messages : list socket_message)
    : option (list netpack * option queue) :=
  match messages with
  | [] => Some ([], q)
  | m :: ms =>
      '(l, q) ← consume q m;
      '(l', q) ← consume_all q ms;
      Some (l ++ l', q)
  end.

Lemma lpop_spec q pend ps : queue_rep q pend ps ->
  match ps with
  | [] => lpop q = Some (None, q)
  | x :: ps => exists q', lpop q = Some (Some (pk_of x), q') /\ queue_rep q' pend ps
  end.
Proof.
  intros Hq. destruct q as [q|]; [|by destruct Hq as [_ ->]].
  destruct Hq as (Hh & Hcap & Hr & Hlen & Htail). pose proof Hr as (Hhb & _).
  destruct ps as [|x ps]; cbn [lpop].
  - change (zlen (@nil (Z * list Z))) with 0 in Htail.
    rewrite Z.add_0_r, Z.mod_small in Htail by lia. by rewrite Htail, Z.eqb_refl.
  - rewrite zlen_cons in *. pose proof (zlen_nonneg ps).
    destruct (Z.eqb_spec (q_head q) (q_tail q)) as [Heq|_].
    { exfalso. assert ((q_head q + 0) mod q_cap q = (q_head q + (1 + zlen ps)) mod q_cap q) as Hc
        by (rewrite <-Htail, <-Heq, Z.add_0_r, Z.mod_small; lia).
      apply mod_offset_inj in Hc; lia. }
    cbn [map] in Hr. rewrite (ring_head _ _ _ _ Hr). cbn [mbind option_bind].
    eexists; split; [done|]. split; [exact Hh|]. cbn [q_cap q_queue q_head q_tail].
    assert ((if q_cap q <=? q_head q + 1 then 0 else q_head q + 1) = (q_head q + 1) mod q_cap q) as ->.
    { destruct (Z.leb_spec (q_cap q) (q_head q + 1)).
      - replace (q_head q + 1) with (q_cap q) by lia. by rewrite Z_mod_same_full.
      - by rewrite Z.mod_small by lia. }
    split; [done|]. split; [rewrite Hcap; by eapply ring_tail|]. split; [lia|].
    rewrite Z.add_mod_idemp_l, Htail by lia. f_equal. lia.
Qed.

Lemma drain_spec ps : forall fuel q pend, (length ps < fuel)%nat -> queue_rep q pend ps ->
  exists q', drain fuel q = Some (map pk_of ps, q') /\ queue_rep q' pend [].
Proof.
  induction ps as [|x ps IH]; intros fuel q pend Hf Hq; (destruct fuel as [|fuel]; [simpl in Hf; lia|]);
    cbn [drain]; pose proof (lpop_spec _ _ _ Hq) as Hp.
  - rewrite Hp. cbn [mbind option_bind]. by exists q.
  - destruct Hp as (q' & -> & Hq'). cbn [mbind option_bind].
    destruct (IH fuel q' pend) as (q2 & -> & Hq2); [simpl in Hf; lia | done |].
    cbn [mbind option_bind]. by exists q2.
Qed.

Lemma consume_spec q pend fd buffer : queue_rep q pend [] -> buffer <> [] -> is_bytes buffer ->
  exists q' out rest, consume q (SData fd buffer) = Some (map pk_of (map (pair fd) out), q') /\
    frames (default [] (pend !! fd) ++ buffer) out rest /\ queue_rep q' (set_pend fd rest pend) [].
Proof.
  intros Hq Hne Hb. unfold consume. cbn [lfilter].
  destruct (filter_data_spec q pend [] fd buffer Hq Hne Hb) as (q' & out & rest & -> & Hfr & Hq').
  cbn [mbind option_bind]. rewrite app_nil_l in Hq'.
  assert (data_event fd out rest = EMore -> queued fd out rest = map (pair fd) out ->
    exists q2, drain (S (Z.to_nat (q_cap (get_queue q')))) q' =
      Some (map pk_of (map (pair fd) out), q2) /\ queue_rep q2 (set_pend fd rest pend) []) as Hmore.
  { intros _ Hqd. rewrite Hqd in Hq'. apply drain_spec; [|done].
    destruct q' as [q'|].
    - destruct Hq' as (_ & _ & _ & Hlen & _). simpl get_queue. unfold zlen in Hlen. lia.
    - destruct Hq' as [_ Hnil]. rewrite Hnil. simpl. lia. }
  destruct out as [|p [|p2 out]]; [| destruct rest as [|c rest] |].
  - exists q', [], rest. done.
  - exists q', [p], []. done.
  - destruct (Hmore eq_refl eq_refl) as (q2 & Hd & Hq2). cbn [data_event]. rewrite Hd.
    by exists q2, [p], (c :: rest).
  - destruct (Hmore eq_refl eq_refl) as (q2 & Hd & Hq2). cbn [data_event]. rewrite Hd.
    by exists q2, (p :: p2 :: out), rest.
Qed.

(** The bytes of one connection in a sequence of data messages. *)
Definition stream (fd : Z) (frags : list (Z * list Z)) : list Z :=
  mjoin (map snd (filter (fun x => x.1 = fd) frags)).
Definition packets_of (fd : Z) (l : list netpack) : list netpack :=
  filter (fun np => pk_id np = fd) l.

Lemma stream_cons_eq fd b frags : stream fd ((fd, b) :: frags) = b ++ stream fd frags.
Proof. unfold stream. by rewrite filter_cons_True. Qed.

Lemma stream_cons_ne fd fd' b frags : fd' <> fd -> stream fd ((fd', b) :: frags) = stream fd frags.
Proof. intros. unfold stream. by rewrite filter_cons_False. Qed.

Lemma set_pend_eq fd rest pend : default [] (set_pend fd rest pend !! fd) = rest.
Proof.
  destruct rest; simpl; [by rewrite lookup_delete_eq | by rewrite lookup_insert_eq].
Qed.

Lemma set_pend_ne fd fd' rest pend : fd <> fd' -> set_pend fd rest pend !! fd' = pend !! fd'.
Proof.
  intros. destruct rest; simpl; [by rewrite lookup_delete_ne | by rewrite lookup_insert_ne].
Qed.

Lemma packets_of_eq fd ps : packets_of fd (map pk_of (map (pair fd) ps)) =
  map (fun p => pk_of (fd, p)) ps.
Proof.
  unfold packets_of. induction ps as [|p ps IH]; [done|]. cbn [map].
  rewrite filter_cons_True by done. by rewrite IH.
Qed.

Lemma packets_of_ne fd fd' ps : fd' <> fd -> packets_of fd (map pk_of (map (pair fd') ps)) = [].
Proof.
  intros Hne. apply filter_none. intros x Hx. rewrite map_map in Hx.
  apply list_elem_of_fmap in Hx as (p & -> & _). done.
Qed.

(** Every connection's packets, however the connections are interleaved. *)
Lemma consume_all_spec frags : forall q pend,
  Forall (fun x => x.2 <> [] /\ is_bytes x.2) frags -> queue_rep q pend [] ->
  exists out q', consume_all q (map (fun x => SData x.1 x.2) frags) = Some (out, q') /\
    forall fd, incomplete (default [] (pend !! fd)) -> exists ps rest,
      packets_of fd out = map (fun p => pk_of (fd, p)) ps /\
      frames (default [] (pend !! fd) ++ stream fd frags) ps rest.
Proof.
  induction frags as [|[fd0 b] frags IH]; intros q pend Hfr Hq; cbn [map consume_all].
  - exists [], q. split; [done|]. intros fd Hi. exists [], (default [] (pend !! fd)).
    split; [done|]. unfold stream; simpl. rewrite app_nil_r. by constructor.
  - apply Forall_cons in Hfr as [[Hne Hb] Hfr]. cbn [fst snd] in *.
    destruct (consume_spec q pend fd0 b Hq Hne Hb) as (q1 & out & rest & -> & Hf & Hq1).
    cbn [mbind option_bind]. destruct (IH q1 _ Hfr Hq1) as (out2 & q2 & -> & Hall).
    cbn [mbind option_bind]. eexists _, q2. split; [done|]. intros fd Hi.
    unfold packets_of. rewrite filter_app. fold (packets_of fd out2).
    fold (packets_of fd (map pk_of (map (pair fd0) out))).
    destruct (decide (fd0 = fd)) as [->|Hne'].
    + destruct (Hall fd) as (ps & r & Hps & Hfs).
      { rewrite set_pend_eq. by eapply frames_incomplete. }
      rewrite packets_of_eq, Hps. exists (out ++ ps), r.
      rewrite map_app. split; [done|]. rewrite stream_cons_eq, app_assoc.
      rewrite set_pend_eq in Hfs. by eapply frames_app.
    + destruct (Hall fd) as (ps & r & Hps & Hfs); [by rewrite set_pend_ne|].
      rewrite packets_of_ne, Hps by done. exists ps, r. split; [done|].
      rewrite stream_cons_ne by done. by rewrite set_pend_ne in Hfs.
Qed.

Lemma lpack_frame p w : lpack p = Ok w ->
  exists b0 b1, w = b0 :: b1 :: p /\ zlen p = b0 * 256 + b1.
Proof.
  unfold lpack. destruct (Z.leb_spec 0x10000 (zlen p)); [done|]. intros [= <-].
  unfold write_size. do 2 eexists. split; [done|].
  rewrite !land_255, Z.shiftr_div_pow2 by lia. pose proof (zlen_nonneg p).
  Z.div_mod_to_equations; lia.
Qed.

Lemma lpack_frames ps wires : Forall2 (fun p w => lpack p = Ok w) ps wires ->
  frames (mjoin wires) ps [].
Proof.
  induction 1 as [|p w ps wires Hw _ IH]; [by constructor|].
  destruct (lpack_frame p w Hw) as (b0 & b1 & -> & Hp).
  change (mjoin ((b0 :: b1 :: p) :: wires)) with (b0 :: b1 :: p ++ mjoin wires).
  by constructor.
Qed.

(** C28: packets survive the way through the sockets.  If every connection's peer
    sends the results of [pack], then however the streams are cut into
    fragments and interleaved, the receiver, starting with no queue, gets from every
    connection exactly the packets its peer packed, in order, and each as one
    completely initialised buffer of its size. *)
Theorem netpack_roundtrip (frags : list (Z * list Z)) (sent : Z -> list (list Z)) :
  Forall (fun x => x.2 <> [] /\ is_bytes x.2) frags ->
  (forall fd, exists wires, Forall2 (fun p w => lpack p = Ok w) (sent fd) wires /\
     stream fd frags = mjoin wires) ->
  exists out q, consume_all None (map (fun x => SData x.1 x.2) frags) = Some (out, q) /\
    forall fd, packets_of fd out =
      map (fun p => Netpack fd (zlen p) (map Some p)) (sent fd).
Proof.
  intros Hfr Hsent. destruct (consume_all_spec frags None ∅ Hfr) as (out & q & -> & Hall); [done|].
  exists out, q. split; [done|]. intros fd.
  destruct (Hall fd) as (ps & rest & -> & Hfs); [by rewrite lookup_empty|].
  rewrite lookup_empty in Hfs. simpl in Hfs. destruct (Hsent fd) as (wires & Hw & Hs).
  rewrite Hs in Hfs. destruct (frames_det _ _ _ _ _ Hfs (lpack_frames _ _ Hw)) as [-> _].
  done.
Qed.

(** ** Clearing *)

Lemma clear_loop_spec q pend ps : queue_rep (Some q) pend ps ->
  forall n i, 0 <= i -> i + Z.of_nat n = zlen ps ->
  clear_loop n (q_head q + i) q = Some (map pk_of (drop (Z.to_nat i) ps)).
Proof.
  intros (_ & Hcap & (Hhb & _ & Hr) & _). induction n as [|n IH]; intros i Hi Hn; cbn [clear_loop].
  - rewrite drop_ge by (unfold zlen in *; lia). done.
  - destruct (aget_is_Some ps i) as [x Hx]; [lia|].
    assert ((map pk_of ps).[i] = Some (pk_of x)) as Hm.
    { unfold aget in *. rewrite decide_True in Hx by lia. rewrite decide_True by lia.
      by rewrite list_lookup_fmap, Hx. }
    rewrite Hcap, (Hr i _ Hm). cbn [mbind option_bind]. rewrite <-Z.add_assoc, IH by lia.
    cbn [mbind option_bind]. unfold aget in Hx. rewrite decide_True in Hx by lia.
    rewrite (drop_S _ _ _ Hx). replace (Z.to_nat (i + 1)) with (S (Z.to_nat i)) by lia. done.
Qed.

(** [clear] frees exactly what the queue owns: the node of every connection with an
    incomplete packet, and every queued packet once, also when the queue wraps
    around; afterwards the queue is empty. *)
Theorem netpack_clear_correct (q : option queue) (pend : gmap Z (list Z))
    (ps : list (Z * list Z)) : queue_rep q pend ps ->
  exists nodes q', lclear q = Some (nodes, map pk_of ps, q') /\ queue_rep q' ∅ [] /\
    forall fd, is_Some (pend !! fd) <-> exists uc, uc ∈ nodes /\ uc_id uc = fd.
Proof.
  intros Hq. destruct q as [q|].
  2: { destruct Hq as [-> ->]. exists [], None. split; [done|]. split; [done|]. intros fd.
       rewrite lookup_empty. split; [by intros [? ?]|]. intros (uc & Hin & _).
       by apply not_elem_of_nil in Hin. }
  pose proof Hq as ([Hlen Hnd Hnode Hpend] & Hcap & Hr & Hl & Htail). pose proof Hr as (Hhb & _).
  unfold lclear. cbv zeta. pose proof (zlen_nonneg ps).
  set (tail := if q_tail q <? q_head q then _ else _).
  assert (tail = q_head q + zlen ps) as ->.
  { subst tail. rewrite Htail. destruct (decide (q_head q + zlen ps < q_cap q)).
    - rewrite Z.mod_small by lia. by rewrite (proj2 (Z.ltb_ge _ _)) by lia.
    - replace ((q_head q + zlen ps) mod q_cap q) with (q_head q + zlen ps - q_cap q).
      + rewrite (proj2 (Z.ltb_lt _ _)) by lia. lia.
      + rewrite <-(Z.mod_small (q_head q + zlen ps - q_cap q) (q_cap q)) by lia.
        pose proof (Z.mod_add (q_head q + zlen ps - q_cap q) 1 (q_cap q)) as Hm.
        rewrite Z.mul_1_l, Z.sub_add in Hm. rewrite Hm; lia. }
  rewrite Z.add_simpl_l.
  pose proof (clear_loop_spec q pend ps Hq (Z.to_nat (zlen ps)) 0 ltac:(lia) ltac:(lia)) as Hc.
  rewrite Z.add_0_r in Hc. rewrite Hc. change (drop (Z.to_nat 0) ps) with ps.
  cbn [mbind option_bind]. do 2 eexists. split; [done|]. split.
  - assert (forall i l, (map (fun _ => @nil uncomplete) (q_hash q)).[i] = Some l -> l = []) as Hnil.
    { intros i l Hi. unfold aget in Hi. case_decide; [|done].
      rewrite list_lookup_fmap in Hi. by destruct (q_hash q !! Z.to_nat i); simplify_eq/=. }
    split; [split|].
    + unfold zlen in *. cbn [q_hash]. by rewrite length_map.
    + intros i l Hi%Hnil. subst l. constructor.
    + intros i l uc Hi%Hnil Hin. subst l. by apply not_elem_of_nil in Hin.
    + intros fd p Hp. by rewrite lookup_empty in Hp.
    + cbn [q_cap q_queue q_head q_tail]. split; [done|]. split; [apply ring_nil; lia|].
      split; [change (zlen (@nil (Z * list Z))) with 0; lia|]. done.
  - intros fd. split.
    + intros [p Hp]. destruct (Hpend fd p Hp) as (l & uc & Hl' & Hin & Hid).
      exists uc. split; [|done]. apply list_elem_of_join. exists l. split; [done|].
      unfold aget in Hl'. case_decide; [|done]. by eapply list_elem_of_lookup_2.
    + intros (uc & Hin & <-). apply list_elem_of_join in Hin as (l & Hin & Hl').
      apply list_elem_of_lookup in Hl' as [i Hi]. rewrite <-aget_nat in Hi.
      destruct (Hnode _ _ _ Hi Hin) as (_ & p & Hp & _). by eexists.
Qed.

(** ** Witnesses *)

Lemma netpack_filter_correct_witness :
  exists ev q' out rest, lfilter None (SData 5 [0; 2; 65; 66; 0]) = Some (ev, q') /\
    queue_rep q' {[5 := rest]} [(5, [65; 66])] /\
    frames [0; 2; 65; 66; 0] out rest /\ ev = EMore.
Proof.
  assert (forall fd buffer, SData 5 [0; 2; 65; 66; 0] = SData fd buffer ->
    buffer <> [] /\ is_bytes buffer) as Hd.
  { intros fd buffer [= <- <-]. split; [done|]. apply (bool_decide_unpack _). vm_compute. exact I. }
  destruct (netpack_filter_correct None ∅ [] _ (conj eq_refl eq_refl) Hd)
    as (ev & q' & out & rest & Hf & Hq & Hfr & Hev).
  rewrite lookup_empty in Hfr. cbn [default app] in Hfr.
  assert (frames [0; 2; 65; 66; 0] [[65; 66]] [0]) as Hfr'.
  { apply (frames_packet 0 2 [65; 66] [0]); [done|]. by constructor. }
  destruct (frames_det _ _ _ _ _ Hfr Hfr') as [-> ->].
  exists ev, q', [[65; 66]], [0]. split; [exact Hf|]. split; [exact Hq|]. done.
Defined.

Lemma netpack_roundtrip_witness :
  exists out q, consume_all None [SData 3 [0]; SData 7 [0; 1; 9]; SData 3 [2; 65; 66; 0; 0]] =
      Some (out, q) /\
    packets_of 3 out = [Netpack 3 2 [Some 65; Some 66]; Netpack 3 0 []] /\
    packets_of 7 out = [Netpack 7 1 [Some 9]].
Proof.
  destruct (netpack_roundtrip [(3, [0]); (7, [0; 1; 9]); (3, [2; 65; 66; 0; 0])]
    (fun fd => if decide (fd = 3) then [[65; 66]; []] else if decide (fd = 7) then [[9]] else []))
    as (out & q & Hc & Hp).
  - repeat (apply Forall_cons_2; [split; [done|]; apply (bool_decide_unpack _); vm_compute; exact I|]).
    apply Forall_nil_2.
  - intros fd. destruct (decide (fd = 3)) as [->|H3]; [|destruct (decide (fd = 7)) as [->|H7]].
    + exists [[0; 2; 65; 66]; [0; 0]]. split; [by repeat constructor | reflexivity].
    + exists [[0; 1; 9]]. split; [by repeat constructor | reflexivity].
    + exists []. split; [constructor|]. unfold stream.
      by rewrite !filter_cons_False by (simpl; congruence).
  - exists out, q. split; [exact Hc|]. split; [exact (Hp 3) | exact (Hp 7)].
Defined.

Lemma netpack_clear_correct_witness :
  exists nodes q', lclear (Some new_queue) = Some (nodes, [], q') /\ queue_rep q' ∅ [].
Proof.
  destruct (netpack_clear_correct (Some new_queue) ∅ [] new_queue_rep)
    as (nodes & q' & Hc & Hq & _).
  by exists nodes, q'.
Defined.
