(* ===== verification/Links.v ===== *)
(** Linked lists threaded through an array of nodes: a pointer is the index of a
    node, [next] its link and [None] the null pointer.  Used by the hash table of the
    gate and by its message pool. *)
From S2P Require Import Prelude.

Section links.
Context {A : Type} (next : A -> option Z).
Implicit Types (nodes : list A) (l : list Z).

(** Following the links from [p] visits the nodes [l] and ends. *)
Fixpoint linked nodes (p : option Z) l : Prop :=
  match l with
  | [] => p = None
  | x :: l => p = Some x /\ exists n, nodes.[x] = Some n /\ linked nodes (next n) l
  end.

Lemma linked_frame nodes nodes' p l : linked nodes p l ->
  (forall x, x ∈ l -> nodes'.[x] = nodes.[x]) -> linked nodes' p l.
Proof.
  revert p. induction l as [|x l IH]; intros p; cbn [linked]; [done|].
  intros (-> & n & Hn & Hl) Heq. split; [done|]. exists n.
  rewrite Heq by (by left). split; [done|]. apply IH; [done|]. intros; apply Heq; by right.
Qed.

Lemma linked_bound nodes p l x : linked nodes p l -> x ∈ l -> 0 <= x < zlen nodes.
Proof.
  revert p. induction l as [|y l IH]; intros p; cbn [linked].
  - intros _ Hin. by apply not_elem_of_nil in Hin.
  - intros (-> & n & Hn & Hl) [->|Hin]%elem_of_cons; [by apply aget_lt_Some in Hn | by eapply IH].
Qed.

(** A list without repetition is not longer than the array. *)
Lemma linked_length nodes p l : linked nodes p l -> NoDup l -> (length l <= length nodes)%nat.
Proof.
  intros Hc Hnd. assert (forall x, x ∈ l -> 0 <= x < zlen nodes) as Hb
    by (intros x Hx; by eapply linked_bound).
  assert (map Z.to_nat l ⊆+ seq 0 (length nodes)) as Hs.
  { apply NoDup_submseteq.
    - apply NoDup_fmap_2_strong; [|done]. intros x y Hx Hy Heq.
      apply Hb in Hx, Hy. lia.
    - intros n (x & -> & Hx)%list_elem_of_fmap. apply elem_of_seq.
      apply Hb in Hx. unfold zlen in Hx. lia. }
  apply submseteq_length in Hs. by rewrite length_map, length_seq in Hs.
Qed.

(** A new node at the end: the last node is linked to it. *)
Lemma linked_snoc nodes nodes' p l x y n n' : linked nodes p (l ++ [x]) -> NoDup (l ++ [x]) ->
  nodes'.[x] = Some n -> next n = Some y -> nodes'.[y] = Some n' -> next n' = None ->
  (forall z, z ∈ l -> nodes'.[z] = nodes.[z]) -> linked nodes' p (l ++ [x; y]).
Proof.
  revert p. induction l as [|z l IH]; intros p; cbn [app linked].
  - intros (-> & _) _ Hx Hn Hy Hn' _. split; [done|]. exists n. split; [done|].
    split; [done|]. by exists n'.
  - intros (-> & m & Hm & Hl) [_ Hnd]%NoDup_cons Hx Hn Hy Hn' Heq.
    split; [done|]. exists m. rewrite Heq by (by left). split; [done|].
    apply IH; try done. intros w Hw. apply Heq. by right.
Qed.
(** The first node of the chain. *)
Lemma linked_head nodes p l : linked nodes p l -> p = head l.
Proof. destruct l; cbn [linked]; [done|]. by intros [-> _]. Qed.

(** Consecutive nodes, each linked to the next. *)
Lemma linked_seq nodes len : forall start,
  (forall i, start <= i < start + Z.of_nat len ->
    exists n, nodes.[i] = Some n /\
      next n = if i =? start + Z.of_nat len - 1 then None else Some (i + 1)) ->
  (0 < len)%nat -> linked nodes (Some start) (seqZ start (Z.of_nat len)).
Proof.
  induction len as [|len IH]; intros start Hn Hlen; [lia|].
  rewrite seqZ_cons by lia. cbn [linked]. split; [done|].
  destruct (Hn start ltac:(lia)) as (n & Hnd & Hnx). exists n. split; [done|]. rewrite Hnx.
  replace (Z.pred (Z.of_nat (S len))) with (Z.of_nat len) by lia.
  replace (Z.succ start) with (start + 1) by lia.
  destruct len as [|len].
  - rewrite (proj2 (Z.eqb_eq _ _)) by lia. done.
  - rewrite (proj2 (Z.eqb_neq _ _)) by lia. apply IH; [|lia].
    intros i Hi. destruct (Hn i ltac:(lia)) as (n' & Hi' & Hnx'). exists n'. split; [done|].
    rewrite Hnx'. replace (start + Z.of_nat (S (S len)) - 1) with (start + 1 + Z.of_nat (S len) - 1) by lia.
    done.
Qed.
End links.
