(* ===== verification/HashId.v ===== *)
(** module/gate/hashid.h: the table from socket ids to connection slots.

    The nodes are an array; a pointer to a node is its index, NULL is [None].
    [None] as a result is a failed assertion or an access outside an array. *)
From S2P Require Import Prelude Links.

Record hashid_node := HashidNode { hi_id : Z; hi_next : option Z }.

Record hashid := Hashid {
  hi_mod : Z;
  hi_cap : Z;
  hi_count : Z;
  hi_nodes : list hashid_node;      (* [id] *)
  hi_hash : list (option Z)         (* [hash] *)
}.

(** [while (hashcap < max) hashcap *= 2;] *)
Fixpoint hash_cap (fuel : nat) (hashcap max : Z) : option Z :=
  if hashcap <? max then
    match fuel with
    | O => None
    | S fuel => hash_cap fuel (hashcap * 2) max
    end
  else Some hashcap.

(** [hashid_init]; 26 doublings of 16 give 2^30, one more overflows an [int]. *)
Definition hashid_init (max : Z) : option hashid :=
  hashcap ← hash_cap 26 16 max;
  Some {| hi_mod := hashcap - 1; hi_cap := max; hi_count := 0;
          hi_nodes := replicate (Z.to_nat max) (HashidNode (-1) None);
          hi_hash := replicate (Z.to_nat hashcap) None |}.

(** [hashid_clear]. *)
Definition hashid_clear (hi : hashid) : hashid := Hashid 1 0 0 [] [].

(** The chain walk of [hashid_lookup]; a chain has at most [cap] nodes. *)
Fixpoint lookup_chain (fuel : nat) (nodes : list hashid_node) (c : option Z) (id : Z)
    : option Z :=
  match c with
  | None => Some (-1)
  | Some x =>
      match fuel with
      | O => None
      | S fuel =>
          n ← nodes.[x];
          if hi_id n =? id then Some x else lookup_chain fuel nodes (hi_next n) id
      end
  end.

Definition hashid_lookup (hi : hashid) (id : Z) : option Z :=
  let h := Z.land id (hi_mod hi) in
  c ← (hi_hash hi).[h];
  lookup_chain (length (hi_nodes hi)) (hi_nodes hi) c id.

(** [_clear:] of [hashid_remove]. *)
Definition clear_node (hi : hashid) (nodes : list hashid_node) (hash : list (option Z))
    (c : Z) : option (Z * hashid) :=
  nodes ← nodes.[c := HashidNode (-1) None];
  Some (c, Hashid (hi_mod hi) (hi_cap hi) (hi_count hi - 1) nodes hash).

(** [while(c->next)]: the nodes after the node was unlinked, and the node. *)
Fixpoint unlink_chain (fuel : nat) (nodes : list hashid_node) (c id : Z)
    : option (option (list hashid_node * Z)) :=
  match fuel with
  | O => None
  | S fuel =>
      n ← nodes.[c];
      match hi_next n with
      | None => Some None
      | Some t =>
          temp ← nodes.[t];
          if hi_id temp =? id then
            nodes ← nodes.[c := HashidNode (hi_id n) (hi_next temp)];
            Some (Some (nodes, t))
          else unlink_chain fuel nodes t id
      end
  end.

Definition hashid_remove (hi : hashid) (id : Z) : option (Z * hashid) :=
  let h := Z.land id (hi_mod hi) in
  c ← (hi_hash hi).[h];
  match c with
  | None => Some (-1, hi)
  | Some c =>
      n ← (hi_nodes hi).[c];
      if hi_id n =? id then
        hash ← (hi_hash hi).[h := hi_next n];
        clear_node hi (hi_nodes hi) hash c
      else
        r ← unlink_chain (length (hi_nodes hi)) (hi_nodes hi) c id;
        match r with
        | Some (nodes, t) => clear_node hi nodes (hi_hash hi) t
        | None => Some (-1, hi)
        end
  end.

(** The search for a free node; a sum [i + id] that overflows an [int] is undefined. *)
Fixpoint free_node (n : nat) (i : Z) (hi : hashid) (id : Z) : option (option Z) :=
  match n with
  | O => Some None
  | S n =>
      _ ← cassert (i + id <=? 2147483647);
      let index := Z.rem (i + id) (hi_cap hi) in
      nd ← (hi_nodes hi).[index];
      if hi_id nd =? -1 then Some (Some index) else free_node n (i + 1) hi id
  end.

Definition hashid_insert (hi : hashid) (id : Z) : option (Z * hashid) :=
  r ← free_node (Z.to_nat (hi_cap hi)) 0 hi id;
  c ← r;                                   (* assert(c) *)
  nd ← (hi_nodes hi).[c];
  _ ← cassert (bool_decide (hi_next nd = None));
  let h := Z.land id (hi_mod hi) in
  head ← (hi_hash hi).[h];
  nodes ← (hi_nodes hi).[c := HashidNode id head];
  hash ← (hi_hash hi).[h := Some c];
  Some (c, Hashid (hi_mod hi) (hi_cap hi) (hi_count hi + 1) nodes hash).

Definition hashid_full (hi : hashid) : bool := hi_count hi =? hi_cap hi.

(** ** Representation *)

(** The chain that starts at [p] visits the nodes [l]. *)
Abbreviation chain := (linked hi_next).

Definition used (n : hashid_node) : Prop := hi_id n <> -1.

(** [hi] represents the map [m] from ids to node indices. *)
Record hashid_rep (hi : hashid) (m : gmap Z Z) : Prop := HashidRep {
  hr_mod : exists k, 0 <= k /\ hi_mod hi = 2 ^ k - 1 /\ zlen (hi_hash hi) = 2 ^ k;
  hr_cap : zlen (hi_nodes hi) = hi_cap hi;
  hr_count : hi_count hi = zlen (filter used (hi_nodes hi));
  hr_map : forall id x, m !! id = Some x <->
    id <> -1 /\ exists nx, (hi_nodes hi).[x] = Some (HashidNode id nx);
  hr_chain : forall h p, (hi_hash hi).[h] = Some p -> exists l,
    chain (hi_nodes hi) p l /\ NoDup l /\
    forall x, x ∈ l <-> exists id, m !! id = Some x /\ Z.land id (hi_mod hi) = h;
  hr_free : forall x nx, (hi_nodes hi).[x] = Some (HashidNode (-1) nx) -> nx = None
}.

Lemma land_mod_bound hi m id : hashid_rep hi m -> 0 <= Z.land id (hi_mod hi) < zlen (hi_hash hi).
Proof.
  intros [(k & Hk & -> & ->) _ _ _ _ _]. rewrite land_mask by done.
  apply Z.mod_pos_bound. apply Z.pow_pos_nonneg; lia.
Qed.

Lemma bucket hi m id : hashid_rep hi m ->
  exists p l, (hi_hash hi).[Z.land id (hi_mod hi)] = Some p /\
    chain (hi_nodes hi) p l /\ NoDup l /\
    forall x, x ∈ l <-> exists id', m !! id' = Some x /\ Z.land id' (hi_mod hi) = Z.land id (hi_mod hi).
Proof.
  intros Hr. destruct (aget_is_Some (hi_hash hi) (Z.land id (hi_mod hi))) as [p Hp];
    [by eapply land_mod_bound|].
  destruct (hr_chain _ _ Hr _ _ Hp) as (l & Hc & Hnd & Hl). by exists p, l.
Qed.

(** Searching a chain for the node of [id]. *)
Lemma lookup_chain_spec nodes id : forall l p fuel, chain nodes p l -> (length l <= fuel)%nat ->
  (exists x nx, lookup_chain fuel nodes p id = Some x /\ x ∈ l /\
     nodes.[x] = Some (HashidNode id nx)) \/
  (lookup_chain fuel nodes p id = Some (-1) /\
   forall x nx, x ∈ l -> nodes.[x] <> Some (HashidNode id nx)).
Proof.
  induction l as [|x l IH]; intros p fuel; cbn [linked].
  - intros -> _. right. destruct fuel; (split; [done|]); intros x nx Hin;
      by apply not_elem_of_nil in Hin.
  - intros (-> & [i nx] & Hn & Hc) Hf. destruct fuel as [|fuel]; [simpl in Hf; lia|].
    cbn [lookup_chain]. rewrite Hn. cbn [mbind option_bind hi_id hi_next].
    destruct (Z.eqb_spec i id) as [->|Hne].
    + left. exists x, nx. split; [done|]. split; [by left | done].
    + destruct (IH nx fuel Hc ltac:(simpl in Hf; lia)) as [(y & ny & ? & Hy & ?)|[? Hno]].
      * left. exists y, ny. split; [done|]. split; [by right | done].
      * right. split; [done|]. intros y ny [->|Hin]%elem_of_cons; [congruence | by apply Hno].
Qed.

(** A node of a chain has the id the map gives it. *)
Lemma chain_node hi m (l : list Z) h x id nx : hashid_rep hi m ->
  (forall x, x ∈ l <-> exists id, m !! id = Some x /\ Z.land id (hi_mod hi) = h) ->
  x ∈ l -> (hi_nodes hi).[x] = Some (HashidNode id nx) -> m !! id = Some x.
Proof.
  intros Hr Hl (id' & Hid' & _)%Hl Hn. pose proof (proj1 (hr_map _ _ Hr _ _) Hid') as (_ & nx' & Hn').
  rewrite Hn in Hn'. by injection Hn' as -> _.
Qed.

Lemma lookup_rep hi m id : hashid_rep hi m ->
  hashid_lookup hi id = Some (default (-1) (m !! id)).
Proof.
  intros Hr. unfold hashid_lookup. destruct (bucket hi m id Hr) as (p & l & -> & Hc & Hnd & Hl).
  cbn [mbind option_bind].
  destruct (lookup_chain_spec (hi_nodes hi) id l p (length (hi_nodes hi)) Hc)
    as [(x & nx & -> & Hx & Hn)|[-> Hno]]; [by eapply linked_length| |].
  - by rewrite (chain_node hi m l _ x id nx Hr Hl Hx Hn).
  - destruct (m !! id) as [x|] eqn:Hm; [|done]. exfalso.
    pose proof (proj1 (hr_map _ _ Hr _ _) Hm) as [_ [nx Hn]].
    apply (Hno x nx); [|done]. apply Hl. by exists id.
Qed.


(** ** Insertion *)

Lemma filter_all nodes : Forall used nodes -> filter used nodes = nodes.
Proof.
  induction 1 as [|n nodes Hn _ IH]; [done|]. rewrite filter_cons_True by done. by rewrite IH.
Qed.

Lemma filter_used_insert nodes x (n n' : hashid_node) : nodes !! x = Some n ->
  zlen (filter used (<[x := n']> nodes)) =
  zlen (filter used nodes) - (if decide (used n) then 1 else 0) + (if decide (used n') then 1 else 0).
Proof.
  intros Hn. rewrite <-(take_drop_middle nodes x n Hn) at 2.
  rewrite (insert_take_drop nodes x n') by (by apply lookup_lt_Some in Hn).
  rewrite !filter_app, !filter_cons, !zlen_app. repeat case_decide; rewrite ?zlen_cons; lia.
Qed.

Lemma free_node_spec hi id : zlen (hi_nodes hi) = hi_cap hi -> 0 <= id ->
  forall n i, 0 <= i -> i + Z.of_nat n + id <= 2147483648 -> 0 < hi_cap hi ->
  (exists x nx, free_node n i hi id = Some (Some x) /\
     (hi_nodes hi).[x] = Some (HashidNode (-1) nx)) \/
  (free_node n i hi id = Some None /\
   forall j, i <= j < i + Z.of_nat n -> exists nd,
     (hi_nodes hi).[(j + id) mod hi_cap hi] = Some nd /\ used nd).
Proof.
  intros Hcap Hid. induction n as [|n IH]; intros i Hi Hmax Hpos; cbn [free_node];
    [right; split; [done | lia]|].
  destruct (Z.leb_spec (i + id) 2147483647); [cbn [cassert mbind option_bind] | lia].
  rewrite Z.rem_mod_nonneg by lia.
  destruct (aget_is_Some (hi_nodes hi) ((i + id) mod hi_cap hi)) as [[k nx] Hn].
  { rewrite Hcap. by apply Z.mod_pos_bound. }
  rewrite Hn. cbn [mbind option_bind hi_id]. destruct (Z.eqb_spec k (-1)) as [->|Hk].
  - left. by exists ((i + id) mod hi_cap hi), nx.
  - destruct (IH (i + 1)) as [Hfound|[Hnone Hall]]; [lia | lia | done | by left |].
    right. split; [done|]. intros j Hj. destruct (decide (j = i)) as [->|].
    + eexists. split; [done|]. exact Hk.
    + apply Hall. lia.
Qed.

Lemma free_exists hi m id : hashid_rep hi m -> 0 <= id -> id + hi_cap hi <= 2147483648 ->
  hi_count hi < hi_cap hi ->
  exists x, free_node (Z.to_nat (hi_cap hi)) 0 hi id = Some (Some x) /\
    (hi_nodes hi).[x] = Some (HashidNode (-1) None).
Proof.
  intros Hr Hid Hmax Hfree. pose proof (hr_cap _ _ Hr) as Hcap. pose proof (hr_count _ _ Hr) as Hcnt.
  pose proof (zlen_nonneg (filter used (hi_nodes hi))).
  destruct (free_node_spec hi id Hcap Hid (Z.to_nat (hi_cap hi)) 0)
    as [(x & nx & Hf & Hx)|[_ Hall]]; [lia | lia | lia | |].
  - exists x. split; [done|]. by rewrite (hr_free _ _ Hr x nx Hx) in Hx.
  - exfalso. assert (filter used (hi_nodes hi) = hi_nodes hi) as Heq.
    { apply filter_all, Forall_lookup. intros i nd Hi.
      assert (0 <= Z.of_nat i < hi_cap hi) as Hb
        by (apply lookup_lt_Some in Hi; rewrite <-Hcap; unfold zlen; lia).
      destruct (Hall ((Z.of_nat i - id) mod hi_cap hi)) as (nd' & Hnd & Hu).
      - pose proof (Z.mod_pos_bound (Z.of_nat i - id) (hi_cap hi) ltac:(lia)). lia.
      - rewrite Zplus_mod_idemp_l, Z.sub_add, Z.mod_small in Hnd by lia.
        rewrite aget_nat, Hi in Hnd. by simplify_eq. }
    rewrite Heq in Hcnt. lia.
Qed.

Lemma insert_rep hi m id : hashid_rep hi m -> 0 <= id -> id + hi_cap hi <= 2147483648 ->
  m !! id = None -> hi_count hi < hi_cap hi ->
  exists x hi', hashid_insert hi id = Some (x, hi') /\ hashid_rep hi' (<[id := x]> m) /\
    (forall id', m !! id' <> Some x) /\ hi_cap hi' = hi_cap hi /\ 0 <= x < hi_cap hi.
Proof.
  intros Hr Hid Hmax Hnone Hfree. destruct (free_exists hi m id Hr Hid Hmax Hfree) as (x & Hf & Hx).
  pose proof Hr as [Hmod Hcap Hcnt Hmap Hch Hfr].
  destruct (bucket hi m id Hr) as (p & l & Hp & Hc & Hnd & Hl).
  unfold hashid_insert. rewrite Hf. cbn [mbind option_bind]. rewrite Hx.
  cbn [mbind option_bind hi_next]. rewrite bool_decide_eq_true_2 by done.
  cbn [cassert mbind option_bind]. rewrite Hp. cbn [mbind option_bind].
  pose proof (aget_lt_Some _ _ _ Hx) as Hxb. pose proof (aget_lt_Some _ _ _ Hp) as Hhb.
  set (h := Z.land id (hi_mod hi)) in *.
  pose proof (aset_Some (hi_nodes hi) x (HashidNode id p) Hxb) as Hset.
  pose proof (aset_Some (hi_hash hi) h (Some x) Hhb) as Hseth.
  rewrite Hset. cbn [mbind option_bind]. rewrite Hseth. cbn [mbind option_bind].
  assert (forall id', m !! id' <> Some x) as Hfresh.
  { intros id' [Hid' [nx Hnx]]%Hmap. congruence. }
  do 2 eexists. split; [done|]. split; [|split; [done|split; [done | lia]]].
  assert (forall y q, chain (hi_nodes hi) q y -> ~ x ∈ y ->
    chain (<[Z.to_nat x := HashidNode id p]> (hi_nodes hi)) q y) as Hframe.
  { intros y q Hy Hni. eapply linked_frame; [done|]. intros z Hz.
    rewrite (aget_aset _ _ _ _ _ Hset), decide_False; [done|]. by intros ->. }
  assert (forall h' (l' : list Z), (forall z, z ∈ l' <-> exists id', m !! id' = Some z /\
    Z.land id' (hi_mod hi) = h') -> ~ x ∈ l') as Hxl.
  { intros h' l' Hl' Hin. apply Hl' in Hin as (id' & Hid' & _). by eapply Hfresh. }
  split; cbn [hi_mod hi_cap hi_count hi_nodes hi_hash].
  - destruct Hmod as (k & Hk). exists k. by rewrite zlen_insert.
  - by rewrite zlen_insert.
  - rewrite (filter_used_insert _ _ (HashidNode (-1) None)).
    + rewrite decide_False by (unfold used; simpl; lia).
      rewrite decide_True by (unfold used; simpl; lia). lia.
    + unfold aget in Hx. by rewrite decide_True in Hx by lia.
  - intros id' y. rewrite lookup_insert_Some, (aget_aset _ _ _ _ _ Hset), Hmap. split.
    + intros [[-> ->]|(Hne & Hn1 & nx & Hnx)].
      * split; [lia|]. rewrite decide_True by done. by eexists.
      * split; [done|]. rewrite decide_False; [by eexists|]. intros ->. congruence.
    + intros (Hn1 & nx & Hnx). case_decide; [left; naive_solver|]. right.
      split; [|split; [done | by eexists]]. intros <-.
      assert (m !! id = Some y) by (apply Hmap; split; [done | by eexists]). congruence.
  - intros h' q Hq. rewrite (aget_aset _ _ _ _ _ Hseth) in Hq. case_decide as Hh.
    + simplify_eq. exists (x :: l). split; [|split].
      * split; [done|]. exists (HashidNode id p). rewrite (aget_aset _ _ _ _ _ Hset), decide_True by done.
        split; [done|]. apply Hframe; [done|]. by eapply Hxl.
      * constructor; [by eapply Hxl | done].
      * intros z. rewrite elem_of_cons, Hl. split.
        -- intros [->|(id' & Hid' & Hh')].
           ++ exists id. by rewrite lookup_insert_eq.
           ++ exists id'. rewrite lookup_insert_ne; [done|]. intros <-. congruence.
        -- intros (id' & Hid' & Hh'). apply lookup_insert_Some in Hid' as [[_ ->]|[_ Hid']];
             [by left|]. right. by exists id'.
    + destruct (Hch _ _ Hq) as (l' & Hc' & Hnd' & Hl'). exists l'. split; [|split; [done|]].
      * apply Hframe; [done|]. by eapply Hxl.
      * intros z. rewrite Hl'. split.
        -- intros (id' & Hid' & Hh'). exists id'. rewrite lookup_insert_ne; [done|].
           intros <-. congruence.
        -- intros (id' & Hid' & Hh'). apply lookup_insert_Some in Hid' as [[<- _]|[_ Hid']];
             [done|]. by exists id'.
  - intros y nx Hy. rewrite (aget_aset _ _ _ _ _ Hset) in Hy. case_decide.
    + injection Hy as Hy _. lia.
    + by eapply Hfr.
Qed.

(** ** Removal *)

(** Unlinking the node [t] from a chain that starts at [c]. *)
Lemma unlink_chain_spec nodes id : forall l c fuel, chain nodes (Some c) (c :: l) ->
  NoDup (c :: l) -> (length l < fuel)%nat ->
  (exists l1 t l2 nx nodes', l = l1 ++ t :: l2 /\ nodes.[t] = Some (HashidNode id nx) /\
     unlink_chain fuel nodes c id = Some (Some (nodes', t)) /\
     zlen nodes' = zlen nodes /\ chain nodes' (Some c) (c :: l1 ++ l2) /\
     (forall y n, nodes.[y] = Some n -> exists nx', nodes'.[y] = Some (HashidNode (hi_id n) nx')) /\
     (forall y, ~ y ∈ c :: l -> nodes'.[y] = nodes.[y]) /\ nodes'.[t] = nodes.[t]) \/
  (unlink_chain fuel nodes c id = Some None /\
   forall x nx, x ∈ l -> nodes.[x] <> Some (HashidNode id nx)).
Proof.
  induction l as [|t l IH]; intros c fuel (_ & [ic nc] & Hn & Hc) Hnd Hf;
    (destruct fuel as [|fuel]; [simpl in Hf; lia|]); cbn [unlink_chain];
    rewrite Hn; cbn [mbind option_bind hi_next hi_id].
  - cbn [chain hi_next] in Hc. subst nc. right. split; [done|].
    intros x nx Hin. by apply not_elem_of_nil in Hin.
  - cbn [chain hi_next] in Hc. destruct Hc as (-> & [it nt] & Ht & Hc). cbn [hi_next] in Hc.
    rewrite Ht. cbn [mbind option_bind hi_id hi_next].
    inversion Hnd as [|? ? Hct Hnd']; subst. inversion Hnd' as [|? ? Htl Hnd'']; subst.
    apply not_elem_of_cons in Hct as [Hct Hcl].
    destruct (Z.eqb_spec it id) as [->|Hne].
    + left. pose proof (aget_lt_Some _ _ _ Hn) as Hb.
      pose proof (aset_Some nodes c (HashidNode ic nt) Hb) as Hset. rewrite Hset.
      cbn [mbind option_bind]. exists [], t, l, nt. eexists. split; [done|]. split; [done|].
      split; [done|]. split; [apply zlen_insert|]. split; [|split; [|split]].
      * split; [done|]. exists (HashidNode ic nt).
        rewrite (aget_aset _ _ _ _ _ Hset), decide_True by done. split; [done|].
        eapply linked_frame; [done|]. intros z Hz.
        rewrite (aget_aset _ _ _ _ _ Hset), decide_False; [done|]. by intros ->.
      * intros y [iy ny] Hy. rewrite (aget_aset _ _ _ _ _ Hset). case_decide.
        -- subst y. rewrite Hn in Hy. injection Hy as <- <-. by eexists.
        -- rewrite Hy. by eexists.
      * intros y Hy%not_elem_of_cons. rewrite (aget_aset _ _ _ _ _ Hset), decide_False; [done|].
        naive_solver.
      * by rewrite (aget_aset _ _ _ _ _ Hset), decide_False by done.
    + destruct (IH t fuel) as [(l1 & u & l2 & nx & nodes' & -> & Hu & -> & Hlen & Hch & Hkeep & Hout & Hut)
                              |[-> Hno]].
      * split; [done|]. by exists (HashidNode it nt).
      * done.
      * simpl in Hf; lia.
      * left. exists (t :: l1), u, l2, nx, nodes'. split; [done|]. split; [done|]. split; [done|].
        split; [done|]. split; [|split; [done|split; [|done]]].
        -- cbn [chain app] in Hch |- *. split; [done|]. exists (HashidNode ic (Some t)).
           rewrite Hout; [by split|]. apply not_elem_of_cons. by split.
        -- intros y Hy%not_elem_of_cons. apply Hout. naive_solver.
      * right. split; [done|]. intros x nx [->|Hin]%elem_of_cons; [congruence | by apply Hno].
Qed.

(** Freeing the node [x] of [id] once it is unlinked from its bucket [l]. *)
Lemma clear_node_rep hi m id x l nodes1 hash1 p1 l' : hashid_rep hi m -> m !! id = Some x ->
  NoDup l -> (forall z, z ∈ l <-> exists id', m !! id' = Some z /\
    Z.land id' (hi_mod hi) = Z.land id (hi_mod hi)) -> l ≡ₚ x :: l' ->
  zlen nodes1 = zlen (hi_nodes hi) -> zlen hash1 = zlen (hi_hash hi) ->
  (forall y n, (hi_nodes hi).[y] = Some n -> exists nx', nodes1.[y] = Some (HashidNode (hi_id n) nx')) ->
  (forall y, ~ y ∈ l -> nodes1.[y] = (hi_nodes hi).[y]) ->
  zlen (filter used nodes1) = zlen (filter used (hi_nodes hi)) ->
  (forall h, hash1.[h] = if decide (Z.land id (hi_mod hi) = h) then Some p1 else (hi_hash hi).[h]) ->
  chain nodes1 p1 l' ->
  exists hi', clear_node hi nodes1 hash1 x = Some (x, hi') /\ hashid_rep hi' (delete id m) /\
    hi_cap hi' = hi_cap hi.
Proof.
  intros Hr Hx Hnd Hl Hperm Hlen Hlenh Hkeep Hout Hcount Hhash Hch1.
  pose proof Hr as [Hmod Hcap Hcnt Hmap Hch Hfr].
  pose proof (proj1 (Hmap _ _) Hx) as (Hid & nx0 & Hn0).
  destruct (Hkeep _ _ Hn0) as [nx1 Hn1]. cbn [hi_id] in Hn1.
  pose proof (aget_lt_Some _ _ _ Hn1) as Hb.
  pose proof (aset_Some nodes1 x (HashidNode (-1) None) Hb) as Hset.
  unfold clear_node. rewrite Hset. cbn [mbind option_bind]. eexists. split; [done|].
  split; [|done].
  rewrite Hperm in Hnd. inversion Hnd as [|? ? Hxl' Hnd']; subst.
  assert (forall y q, chain nodes1 q y -> ~ x ∈ y ->
    chain (<[Z.to_nat x := HashidNode (-1) None]> nodes1) q y) as Hframe.
  { intros y q Hy Hni. eapply linked_frame; [done|]. intros z Hz.
    rewrite (aget_aset _ _ _ _ _ Hset), decide_False; [done|]. by intros ->. }
  assert (forall id', m !! id' = Some x -> id' = id) as Hinj.
  { intros id' (_ & nx & Hnx)%Hmap. congruence. }
  split; cbn [hi_mod hi_cap hi_count hi_nodes hi_hash].
  - destruct Hmod as (k & Hk). exists k. by rewrite Hlenh.
  - by rewrite zlen_insert, Hlen.
  - rewrite (filter_used_insert _ _ (HashidNode id nx1)).
    + rewrite decide_True by done. rewrite decide_False by (unfold used; simpl; lia). lia.
    + unfold aget in Hn1. by rewrite decide_True in Hn1 by lia.
  - intros id' y. rewrite lookup_delete_Some, (aget_aset _ _ _ _ _ Hset), Hmap. split.
    + intros (Hne & Hid' & nx & Hy). split; [done|].
      rewrite decide_False by (intros ->; congruence).
      destruct (Hkeep _ _ Hy) as [nx' Hy']. by exists nx'.
    + intros (Hid' & nx & Hy). case_decide; [congruence|]. split; [|split; [done|]].
      * intros <-. assert (m !! id = Some y); [|congruence]. apply Hmap. split; [done|].
        destruct (aget_is_Some (hi_nodes hi) y) as [[i n] Hi];
          [apply aget_lt_Some in Hy; lia|].
        destruct (Hkeep _ _ Hi) as [nx' Hy']. cbn [hi_id] in Hy'. rewrite Hy in Hy'.
        injection Hy' as -> _. by exists n.
      * destruct (aget_is_Some (hi_nodes hi) y) as [[i n] Hi];
          [apply aget_lt_Some in Hy; lia|].
        destruct (Hkeep _ _ Hi) as [nx' Hy']. cbn [hi_id] in Hy'. rewrite Hy in Hy'.
        injection Hy' as -> _. by exists n.
  - intros h q Hq. rewrite Hhash in Hq. case_decide as Hh.
    + simplify_eq. exists l'. split; [by apply Hframe|]. split; [done|]. intros z.
      assert (z ∈ l <-> z = x \/ z ∈ l') as Hzl by (by rewrite Hperm, elem_of_cons).
      rewrite Hl in Hzl. split.
      * intros Hz. destruct (proj2 Hzl (or_intror Hz)) as (id' & Hid' & Hh').
        exists id'. split; [|done]. apply lookup_delete_Some. split; [|done].
        intros <-. assert (z = x) as -> by congruence. done.
      * intros (id' & (Hne & Hid')%lookup_delete_Some & Hh').
        destruct (proj1 Hzl) as [->|]; [by exists id' | | done]. by apply Hinj in Hid'.
    + destruct (Hch _ _ Hq) as (k & Hk & Hndk & Hkl).
      assert (~ x ∈ k) as Hxk.
      { intros (id' & Hid' & Hh')%Hkl. apply Hinj in Hid'. congruence. }
      exists k. split; [|split; [done|]].
      * apply Hframe; [|done]. eapply linked_frame; [done|]. intros z Hz. apply Hout.
        intros (id2 & Hi2 & Hh2)%Hl. apply Hkl in Hz as (id1 & Hi1 & Hh1).
        assert (id1 = id2) as ->; [|congruence].
        apply Hmap in Hi1 as (_ & n1 & Hi1). apply Hmap in Hi2 as (_ & n2 & Hi2). congruence.
      * intros z. rewrite Hkl. split.
        -- intros (id' & Hid' & Hh'). exists id'. split; [|done]. apply lookup_delete_Some.
           split; [|done]. intros <-. done.
        -- intros (id' & (_ & Hid')%lookup_delete_Some & Hh'). by exists id'.
  - intros y nx Hy. rewrite (aget_aset _ _ _ _ _ Hset) in Hy. case_decide; [by injection Hy as <-|].
    destruct (aget_is_Some (hi_nodes hi) y) as [[i n] Hi]; [apply aget_lt_Some in Hy; lia|].
    destruct (Hkeep _ _ Hi) as [nx' Hy']. cbn [hi_id] in Hy'. rewrite Hy in Hy'.
    injection Hy' as <- <-.
    rewrite Hout in Hy; [by eapply Hfr|]. intros (id' & Hid' & _)%Hl.
    apply Hmap in Hid' as (Hne & n2 & Hn2). congruence.
Qed.

Lemma filter_used_ext l1 l2 : zlen l1 = zlen l2 ->
  (forall y n, l1.[y] = Some n -> exists nx', l2.[y] = Some (HashidNode (hi_id n) nx')) ->
  zlen (filter used l2) = zlen (filter used l1).
Proof.
  intros Hlen Hkeep. assert (map hi_id l2 = map hi_id l1) as Hids.
  { apply list_eq. intros i. rewrite !list_lookup_fmap.
    destruct (l1 !! i) as [n|] eqn:Hn.
    - rewrite <-aget_nat in Hn. destruct (Hkeep _ _ Hn) as [nx' Hn']. rewrite aget_nat in Hn'.
      by rewrite Hn'.
    - apply lookup_ge_None in Hn. rewrite lookup_ge_None_2; [done|]. unfold zlen in Hlen. lia. }
  clear Hkeep Hlen. revert l2 Hids. induction l1 as [|n l1 IH]; intros [|n' l2] Hids; try done.
  injection Hids as Hn Hids. specialize (IH _ Hids).
  rewrite !filter_cons. unfold used in *. repeat case_decide; rewrite ?zlen_cons; congruence.
Qed.

Lemma remove_rep hi m id : hashid_rep hi m ->
  match m !! id with
  | Some x => exists hi', hashid_remove hi id = Some (x, hi') /\
      hashid_rep hi' (delete id m) /\ hi_cap hi' = hi_cap hi
  | None => hashid_remove hi id = Some (-1, hi)
  end.
Proof.
  intros Hr. unfold hashid_remove.
  destruct (bucket hi m id Hr) as (p & l & Hp & Hc & Hnd & Hl). rewrite Hp.
  cbn [mbind option_bind]. pose proof Hr as [Hmod Hcap Hcnt Hmap Hch Hfr].
  pose proof (aget_lt_Some _ _ _ Hp) as Hhb.
  assert (forall x, m !! id = Some x -> x ∈ l) as Hin by (intros x Hx; apply Hl; by exists id).
  destruct l as [|c l].
  { cbn [linked] in Hc. subst p. destruct (m !! id) as [x|] eqn:Hm; [|done].
    pose proof (Hin x eq_refl) as Hx. by apply not_elem_of_nil in Hx. }
  pose proof Hc as (-> & [ic nc] & Hn & Hc'). cbn [hi_next] in Hc'.
  rewrite Hn. cbn [mbind option_bind hi_id hi_next].
  destruct (Z.eqb_spec ic id) as [->|Hne].
  - assert (m !! id = Some c) as Hm by (eapply chain_node; [done | exact Hl | by left | done]).
    rewrite Hm.
    pose proof (aset_Some (hi_hash hi) _ nc Hhb) as Hset. rewrite Hset. cbn [mbind option_bind].
    apply (clear_node_rep hi m id c (c :: l) _ _ nc l); try done.
    + by rewrite zlen_insert.
    + intros y [i n] Hy. by eexists.
    + intros h. by rewrite (aget_aset _ _ _ _ _ Hset).
  - pose proof (linked_length _ _ _ _ Hc Hnd) as Hlen. simpl in Hlen.
    destruct (unlink_chain_spec (hi_nodes hi) id l c (length (hi_nodes hi)) Hc Hnd ltac:(lia))
      as [(l1 & t & l2 & nx & nodes' & -> & Ht & -> & Hlen' & Hch' & Hkeep & Hout & _)|[-> Hno]];
      cbn [mbind option_bind].
    + assert (m !! id = Some t) as Hm.
      { eapply chain_node; [done | exact Hl | | done]. apply elem_of_cons. right.
        apply elem_of_app. right. by left. }
      rewrite Hm.
      apply (clear_node_rep hi m id t (c :: l1 ++ t :: l2) _ _ (Some c) (c :: l1 ++ l2)); try done.
      * rewrite <-Permutation_middle. apply Permutation_swap.
      * by apply filter_used_ext.
      * intros h. case_decide; [by subst | done].
    + destruct (m !! id) as [x|] eqn:Hm; [|done]. exfalso.
      pose proof (proj1 (Hmap _ _) Hm) as (_ & nx & Hx).
      specialize (Hin x eq_refl). apply elem_of_cons in Hin as [->|Hin]; [congruence|].
      by eapply Hno.
Qed.

Lemma hash_cap_pow fuel : forall k max c, 0 <= k -> hash_cap fuel (2 ^ k) max = Some c ->
  exists j, 0 <= j /\ c = 2 ^ j.
Proof.
  induction fuel as [|fuel IH]; intros k max c Hk; cbn [hash_cap];
    (destruct (Z.ltb_spec (2 ^ k) max); [|intros [= <-]; by exists k]); [done|].
  replace (2 ^ k * 2) with (2 ^ (k + 1)) by (rewrite Z.pow_add_r by lia; lia).
  apply IH; lia.
Qed.

Lemma hash_cap_enough fuel : forall k max, 0 <= k -> max <= 2 ^ (k + Z.of_nat fuel) ->
  exists c, hash_cap fuel (2 ^ k) max = Some c.
Proof.
  induction fuel as [|fuel IH]; intros k max Hk Hm; cbn [hash_cap];
    (destruct (Z.ltb_spec (2 ^ k) max); [|by eexists]).
  - rewrite Z.add_0_r in Hm. lia.
  - replace (2 ^ k * 2) with (2 ^ (k + 1)) by (rewrite Z.pow_add_r by lia; lia).
    apply IH; [lia|]. replace (k + 1 + Z.of_nat fuel) with (k + Z.of_nat (S fuel)) by lia. done.
Qed.

Lemma hashid_init_rep max hi : 0 <= max -> hashid_init max = Some hi ->
  hashid_rep hi ∅ /\ hi_cap hi = max.
Proof.
  intros Hmax. unfold hashid_init. change 16 with (2 ^ 4).
  destruct (hash_cap 26 (2 ^ 4) max) as [c|] eqn:Hc; [|done].
  destruct (hash_cap_pow 26 4 max c ltac:(lia) Hc) as (j & Hj & ->).
  cbn [mbind option_bind]. intros [= <-]. split; [|done].
  assert (forall x n, (replicate (Z.to_nat max) (HashidNode (-1) None)).[x] = Some n ->
    n = HashidNode (-1) None) as Hall.
  { intros x n Hn. unfold aget in Hn. case_decide; [|done].
    apply list_elem_of_lookup_2, elem_of_replicate in Hn. by destruct Hn. }
  pose proof (Z.pow_pos_nonneg 2 j ltac:(lia) Hj).
  split; cbn [hi_mod hi_cap hi_count hi_nodes hi_hash].
  - exists j. rewrite zlen_replicate. split; [done|]. split; [done | lia].
  - rewrite zlen_replicate. lia.
  - rewrite filter_none; [done|]. intros n Hn. apply elem_of_replicate in Hn as [-> _].
    unfold used; simpl. lia.
  - intros id x. rewrite lookup_empty. split; [done|]. intros (Hid & nx & Hx%Hall). congruence.
  - intros h p Hp. exists []. unfold aget in Hp. case_decide; [|done].
    apply list_elem_of_lookup_2, elem_of_replicate in Hp as [-> _].
    split; [done|]. split; [constructor|]. intros x. split.
    + intros Hin. by apply not_elem_of_nil in Hin.
    + intros (id & Hid & _). by rewrite lookup_empty in Hid.
  - intros x nx Hx%Hall. by injection Hx.
Qed.

(** 2^30 connections are the most for which the doubling does not overflow. *)
Lemma hashid_init_enough max : max <= 2 ^ 30 -> exists hi, hashid_init max = Some hi.
Proof.
  intros Hmax. unfold hashid_init. change 16 with (2 ^ 4).
  destruct (hash_cap_enough 26 4 max) as [c ->]; [lia | simpl; lia | by eexists].
Qed.

(** ** The interface to the gate *)

Inductive hashid_op :=
| OpLookup (id : Z)
| OpRemove (id : Z)
| OpInsert (id : Z).

(** The gate inserts socket ids, only new ones and not when it is full; an id so
    large that [i + id] overflows is excluded (see [hashid_insert_overflow]). *)
Definition op_ok (hi : hashid) (m : gmap Z Z) (op : hashid_op) : Prop :=
  match op with
  | OpLookup _ | OpRemove _ => True
  | OpInsert id => 0 <= id /\ id + hi_cap hi <= 2147483648 /\ m !! id = None /\
      hashid_full hi = false
  end.

Definition run_op (hi : hashid) (op : hashid_op) : option (Z * hashid) :=
  match op with
  | OpLookup id => x ← hashid_lookup hi id; Some (x, hi)
  | OpRemove id => hashid_remove hi id
  | OpInsert id => hashid_insert hi id
  end.

(** The hash table is a finite map from socket ids to connection slots.
    After [hashid_init], and as long as ids are inserted only when they are new and
    the table is not full (and no id plus the capacity exceeds 2^31), [hashid_lookup] finds the slot of an id or returns -1,
    [hashid_remove] removes it and frees its slot, and [hashid_insert] gives a slot below
    the capacity that no other id has; no assertion fails, the chain walks end, and
    [hashid_full] holds exactly when every slot is taken. *)
Theorem hashid_refines_map (hi : hashid) (m : gmap Z Z) (op : hashid_op) :
  hashid_rep hi m -> op_ok hi m op ->
  exists x hi' m', run_op hi op = Some (x, hi') /\ hashid_rep hi' m' /\ hi_cap hi' = hi_cap hi /\
    (hashid_full hi' = true <-> forall s, 0 <= s < hi_cap hi' -> exists id, m' !! id = Some s) /\
    match op with
    | OpLookup id => m' = m /\ x = default (-1) (m !! id)
    | OpRemove id => m' = delete id m /\ x = default (-1) (m !! id)
    | OpInsert id => m' = <[id := x]> m /\ 0 <= x < hi_cap hi /\ forall id', m !! id' <> Some x
    end.
Proof.
  intros Hr Hok.
  assert (forall hi m, hashid_rep hi m ->
    (hashid_full hi = true <-> forall s, 0 <= s < hi_cap hi -> exists id, m !! id = Some s)) as Hfull.
  { clear. intros hi m [_ Hcap Hcnt Hmap _ _]. unfold hashid_full. rewrite Z.eqb_eq, Hcnt, <-Hcap.
    split.
    - intros Heq s Hs. destruct (aget_is_Some (hi_nodes hi) s Hs) as [[id nx] Hn].
      exists id. apply Hmap. split; [|by eexists].
      assert (filter used (hi_nodes hi) = hi_nodes hi) as Hf.
      { clear -Heq. assert (length (filter used (hi_nodes hi)) = length (hi_nodes hi)) as Hl
          by (unfold zlen in Heq; lia).
        revert Hl. generalize (hi_nodes hi). intros l. induction l as [|n l IH]; [done|].
        rewrite filter_cons. case_decide; simpl; intros Hl.
        - by rewrite IH by lia.
        - pose proof (length_filter used l). lia. }
      unfold aget in Hn. rewrite decide_True in Hn by lia.
      apply list_elem_of_lookup_2 in Hn. rewrite <-Hf in Hn.
      by apply list_elem_of_filter in Hn as [Hu _].
    - intros Hall. rewrite filter_all; [done|]. apply Forall_lookup. intros i n Hn.
      destruct (Hall (Z.of_nat i)) as [id (Hid & nx & Hx)%Hmap].
      + apply lookup_lt_Some in Hn. unfold zlen. lia.
      + rewrite aget_nat, Hn in Hx. injection Hx as ->. done. }
  destruct op as [id|id|id]; cbn [run_op op_ok] in *.
  - rewrite (lookup_rep hi m id Hr). cbn [mbind option_bind].
    eexists _, hi, m. split; [done|]. split; [done|]. split; [done|]. split; [by apply Hfull | done].
  - pose proof (remove_rep hi m id Hr) as Hrem. destruct (m !! id) as [x|] eqn:Hm.
    + destruct Hrem as (hi' & -> & Hr' & Hcap). exists x, hi', (delete id m).
      split; [done|]. split; [done|]. split; [done|]. split; [by apply Hfull | done].
    + rewrite Hrem. exists (-1), hi, m. split; [done|]. split; [done|]. split; [done|].
      split; [by apply Hfull|]. by rewrite delete_id.
  - destruct Hok as (Hid & Hmax & Hnone & Hfree). apply Z.eqb_neq in Hfree.
    pose proof (hr_count _ _ Hr). pose proof (hr_cap _ _ Hr).
    pose proof (length_filter used (hi_nodes hi)).
    destruct (insert_rep hi m id Hr Hid Hmax Hnone) as (x & hi' & -> & Hr' & Hfresh & Hcap & Hx);
      [unfold zlen in *; lia|].
    exists x, hi', (<[id := x]> m). split; [done|]. split; [done|]. split; [done|].
    split; [by apply Hfull | done].
Qed.

Lemma hashid_refines_map_witness :
  exists hi x hi', hashid_init 4 = Some hi /\ run_op hi (OpInsert 21) = Some (x, hi') /\
    hashid_rep hi' {[21 := x]}.
Proof.
  destruct (hashid_init_enough 4) as [hi Hi]; [lia|].
  destruct (hashid_init_rep 4 hi ltac:(lia) Hi) as [Hr _].
  assert (hashid_full hi = false) as Hf.
  { injection Hi as <-. reflexivity. }
  destruct (hashid_refines_map hi ∅ (OpInsert 21) Hr) as (x & hi' & m' & Hop & Hr' & _ & _ & Hm & _).
  - split; [lia|]. split; [injection Hi as <-; simpl; lia|]. split; [reflexivity | exact Hf].
  - exists hi, x, hi'. split; [exact Hi|]. split; [exact Hop|]. rewrite Hm in Hr'. exact Hr'.
Defined.

(** An id just below 2^31 (ids come from a counter that wraps there) whose first slot is
    taken makes [i + id] overflow: the index is not defined. *)
Theorem hashid_insert_overflow : exists hi hi',
  hashid_init 2 = Some hi /\ hashid_insert hi 2147483645 = Some (1, hi') /\
  hashid_full hi' = false /\ hashid_insert hi' 2147483647 = None.
Proof. do 2 eexists. split; [reflexivity|]. split; [reflexivity|]. split; reflexivity. Qed.
