(* ===== verification/DataBuffer.v ===== *)
(** module/gate/databuffer.h: the bytes received on a connection, a linked list of
    buffers whose nodes come from a pool that all the connections of a gate share.

    A [struct message] is a node of the pool's array, its address the index; the chunks
    of [MESSAGEPOOL] nodes are allocated one after the other.  [None] as a result is a
    failed assertion, a null dereference or an access outside a buffer. *)
From S2P Require Import Prelude Bytes Links.

Definition MESSAGEPOOL : Z := 1023.

Record message := Message {
  m_buffer : option (list Z);
  m_size : Z;
  m_next : option Z
}.

Record databuffer := Databuffer {
  db_header : Z;
  db_offset : Z;
  db_size : Z;
  db_head : option Z;
  db_tail : option Z
}.

Record messagepool := Messagepool {
  mp_pool : list Z;            (* first node of each chunk, the newest first *)
  mp_nodes : list message;     (* the nodes of all the chunks *)
  mp_freelist : option Z
}.

Definition db_zero : databuffer := Databuffer 0 0 0 None None.
Definition mp_zero : messagepool := Messagepool [] [] None.

(** [messagepool_free]. *)
Definition messagepool_free (pool : messagepool) : messagepool := mp_zero.

(** [_return_message]. *)
Definition _return_message (db : databuffer) (mp : messagepool)
    : option (databuffer * messagepool) :=
  m ← db_head db;
  nd ← (mp_nodes mp).[m];
  db ← match m_next nd with
       | None =>
           _ ← cassert (bool_decide (db_tail db = Some m));
           Some (Databuffer (db_header db) (db_offset db) (db_size db) None None)
       | Some n => Some (Databuffer (db_header db) (db_offset db) (db_size db) (Some n) (db_tail db))
       end;
  nodes ← (mp_nodes mp).[m := Message None 0 (mp_freelist mp)];
  Some (db, Messagepool (mp_pool mp) nodes (Some m)).

Definition set_offset (db : databuffer) (offset : Z) : databuffer :=
  Databuffer (db_header db) offset (db_size db) (db_head db) (db_tail db).

(** The loop of [databuffer_read]: the bytes written to [buffer]. *)
Fixpoint read_loop (fuel : nat) (db : databuffer) (mp : messagepool) (sz : Z)
    : option (list Z * databuffer * messagepool) :=
  match fuel with
  | O => None
  | S fuel =>
      h ← db_head db;
      current ← (mp_nodes mp).[h];
      buffer ← m_buffer current;
      let bsz := m_size current - db_offset db in
      if sz <? bsz then
        d ← slice buffer (db_offset db) sz;
        Some (d, set_offset db (db_offset db + sz), mp)
      else if bsz =? sz then
        d ← slice buffer (db_offset db) sz;
        '(db, mp) ← _return_message (set_offset db 0) mp;
        Some (d, db, mp)
      else
        d ← slice buffer (db_offset db) bsz;
        '(db, mp) ← _return_message db mp;
        '(d', db, mp) ← read_loop fuel (set_offset db 0) mp (sz - bsz);
        Some (d ++ d', db, mp)
  end.

(** [databuffer_read]; every turn but the last frees a node of the pool. *)
Definition databuffer_read (db : databuffer) (mp : messagepool) (sz : Z)
    : option (list Z * databuffer * messagepool) :=
  _ ← cassert (sz <=? db_size db);
  read_loop (length (mp_nodes mp))
    (Databuffer (db_header db) (db_offset db) (db_size db - sz) (db_head db) (db_tail db)) mp sz.

(** A chunk of nodes linked one after the other (the first one is handed out at once). *)
Definition new_chunk (base : Z) : list message :=
  map (fun i => Message None 0 (if i =? MESSAGEPOOL - 1 then None else Some (base + i + 1)))
    (seqZ 0 MESSAGEPOOL).

(** The node [databuffer_push] takes from the free list, or from a new chunk. *)
Definition take_node (mp : messagepool) : option (Z * messagepool) :=
  match mp_freelist mp with
  | Some m =>
      nd ← (mp_nodes mp).[m];
      Some (m, Messagepool (mp_pool mp) (mp_nodes mp) (m_next nd))
  | None =>
      let base := zlen (mp_nodes mp) in
      Some (base, Messagepool (base :: mp_pool mp) (mp_nodes mp ++ new_chunk base) (Some (base + 1)))
  end.

(** [databuffer_push]; a [size] beyond [INT_MAX] overflows. *)
Definition databuffer_push (db : databuffer) (mp : messagepool) (data : list Z) (sz : Z)
    : option (databuffer * messagepool) :=
  '(m, mp) ← take_node mp;
  nodes ← (mp_nodes mp).[m := Message (Some data) sz None];
  _ ← cassert (bool_decide (is_s32 (db_size db + sz)));
  match db_head db with
  | None =>
      _ ← cassert (bool_decide (db_tail db = None));
      Some (Databuffer (db_header db) (db_offset db) (db_size db + sz) (Some m) (Some m),
            Messagepool (mp_pool mp) nodes (mp_freelist mp))
  | Some h =>
      t ← db_tail db;
      nd ← nodes.[t];
      nodes ← nodes.[t := Message (m_buffer nd) (m_size nd) (Some m)];
      Some (Databuffer (db_header db) (db_offset db) (db_size db + sz) (Some h) (Some m),
            Messagepool (mp_pool mp) nodes (mp_freelist mp))
  end.

(** The value of a big-endian length; [int] arithmetic for four bytes. *)
Definition header_value (plen : list Z) (header_size : Z) : option Z :=
  a ← plen.[0];
  b ← plen.[1];
  if header_size =? 2 then Some (Z.lor (Z.shiftl a 8) b)
  else c ← plen.[2]; d ← plen.[3]; Some (s32 (be32 a b c d)).

(** [databuffer_readheader]. *)
Definition databuffer_readheader (db : databuffer) (mp : messagepool) (header_size : Z)
    : option (Z * databuffer * messagepool) :=
  if (db_header db =? 0) && (db_size db <? header_size) then Some (-1, db, mp)
  else
    '(db, mp) ←
      (if db_header db =? 0 then
         '(plen, db, mp) ← databuffer_read db mp header_size;
         header ← header_value plen header_size;
         Some (Databuffer header (db_offset db) (db_size db) (db_head db) (db_tail db), mp)
       else Some (db, mp));
    if db_size db <? db_header db then Some (-1, db, mp) else Some (db_header db, db, mp).

(** [databuffer_reset]. *)
Definition databuffer_reset (db : databuffer) : databuffer :=
  Databuffer 0 (db_offset db) (db_size db) (db_head db) (db_tail db).

(** The loop of [databuffer_clear]. *)
Fixpoint clear_buffers (fuel : nat) (db : databuffer) (mp : messagepool)
    : option (databuffer * messagepool) :=
  match db_head db with
  | None => Some (db, mp)
  | Some _ =>
      match fuel with
      | O => None
      | S fuel => '(db, mp) ← _return_message db mp; clear_buffers fuel db mp
      end
  end.

(** [databuffer_clear]. *)
Definition databuffer_clear (db : databuffer) (mp : messagepool)
    : option (databuffer * messagepool) :=
  '(_, mp) ← clear_buffers (length (mp_nodes mp)) db mp;
  Some (db_zero, mp).

(** ** Representation *)

(** The node [x] holds the buffer [b]. *)
Definition holds (nodes : list message) (x : Z) (b : list Z) : Prop :=
  exists nx, nodes.[x] = Some (Message (Some b) (zlen b) nx).

(** The buffers [bs] of [db] are in the nodes [l]. *)
Record db_list (nodes : list message) (db : databuffer) (l : list Z) (bs : list (list Z)) : Prop := {
  dl_linked : linked m_next nodes (db_head db) l;
  dl_tail : db_tail db = last l;
  dl_holds : Forall2 (holds nodes) l bs
}.

(** The pool's free nodes are [fl], none of them used by the buffer in [l]. *)
Record pool_ok (mp : messagepool) (l fl : list Z) : Prop := {
  po_free : linked m_next (mp_nodes mp) (mp_freelist mp) fl;
  po_nodup : NoDup (l ++ fl)
}.

(** What an operation on one buffer leaves alone: the nodes of all the others. *)
Record pool_frame (mp : messagepool) (l fl : list Z) (mp' : messagepool) (l' fl' : list Z)
    : Prop := {
  pf_len : zlen (mp_nodes mp) <= zlen (mp_nodes mp');
  pf_own : forall x, x ∈ l' ++ fl' -> x ∈ l ++ fl \/ zlen (mp_nodes mp) <= x;
  pf_same : forall x, ~ x ∈ l ++ fl -> x < zlen (mp_nodes mp) ->
    (mp_nodes mp').[x] = (mp_nodes mp).[x]
}.

Lemma pool_frame_refl mp l fl : pool_frame mp l fl mp l fl.
Proof. split; [done | by left | done]. Qed.

Lemma pool_frame_trans mp l fl mp1 l1 fl1 mp2 l2 fl2 :
  pool_frame mp l fl mp1 l1 fl1 -> pool_frame mp1 l1 fl1 mp2 l2 fl2 ->
  pool_frame mp l fl mp2 l2 fl2.
Proof.
  intros [Hl Ho Hs] [Hl' Ho' Hs']. split; [lia| |].
  - intros x [Hx|Hx]%Ho'; [by apply Ho | right; lia].
  - intros x Hx Hb. rewrite <-Hs by done. apply Hs'; [|lia].
    intros [?|?]%Ho; [done | lia].
Qed.

Lemma holds_frame nodes nodes' l bs : Forall2 (holds nodes) l bs ->
  (forall x, x ∈ l -> nodes'.[x] = nodes.[x]) -> Forall2 (holds nodes') l bs.
Proof.
  induction 1 as [|x b l bs [nx Hx] _ IH]; intros Heq; constructor.
  - exists nx. rewrite Heq; [done | by left].
  - apply IH. intros y Hy. apply Heq. by right.
Qed.

Lemma db_list_frame nodes nodes' db l bs : db_list nodes db l bs ->
  (forall x, x ∈ l -> nodes'.[x] = nodes.[x]) -> db_list nodes' db l bs.
Proof.
  intros [Hl Ht Hh] Heq. split; [by eapply linked_frame | done | by eapply holds_frame].
Qed.

Lemma db_list_bound nodes db l bs x : db_list nodes db l bs -> x ∈ l -> 0 <= x < zlen nodes.
Proof. intros [Hl _ _]. by eapply linked_bound. Qed.

Lemma return_message_spec db mp x l b bs fl :
  db_list (mp_nodes mp) db (x :: l) (b :: bs) -> pool_ok mp (x :: l) fl ->
  exists mp', _return_message db mp =
    Some (Databuffer (db_header db) (db_offset db) (db_size db) (head l) (last l), mp') /\
    db_list (mp_nodes mp') (Databuffer (db_header db) (db_offset db) (db_size db) (head l) (last l)) l bs /\
    pool_ok mp' l (x :: fl) /\ pool_frame mp (x :: l) fl mp' l (x :: fl) /\
    length (mp_nodes mp') = length (mp_nodes mp).
Proof.
  intros [(Hh & nd & Hnd & Hl) Ht Hb] [Hfl Hnodup]. cbn [app] in Hnodup.
  pose proof (linked_head _ _ _ _ Hl) as Hhd.
  apply Forall2_cons in Hb as [[nx Hx] Hb]. rewrite Hnd in Hx. injection Hx as ->.
  cbn [m_next] in *. subst nx.
  pose proof (aget_lt_Some _ _ _ Hnd) as Hxb.
  pose proof (aset_Some (mp_nodes mp) x (Message None 0 (mp_freelist mp)) Hxb) as Hset.
  pose proof (NoDup_cons_1_1 _ _ Hnodup) as Hni. pose proof (NoDup_cons_1_2 _ _ Hnodup) as Hnd'.
  exists (Messagepool (mp_pool mp) (<[Z.to_nat x := Message None 0 (mp_freelist mp)]> (mp_nodes mp)) (Some x)).
  assert (forall y, y <> x -> (<[Z.to_nat x := Message None 0 (mp_freelist mp)]> (mp_nodes mp)).[y] =
    (mp_nodes mp).[y]) as Hsame.
  { intros y Hy. by rewrite (aget_aset _ _ _ _ _ Hset), decide_False. }
  split; [|split; [|split; [|split]]]; cbn [mp_nodes].
  - unfold _return_message. rewrite Hh. cbn [mbind option_bind]. rewrite Hnd.
    cbn [mbind option_bind m_next]. rewrite Ht.
    destruct l as [|y l]; cbn [head mbind option_bind].
    + change (last [x]) with (Some x). rewrite bool_decide_eq_true_2 by done.
      cbn [cassert mbind option_bind]. rewrite Hset. done.
    + rewrite Hset. done.
  - split; cbn [db_head db_tail].
    + eapply linked_frame; [exact Hl|]. intros y Hy. apply Hsame. intros ->.
      apply Hni, elem_of_app. by left.
    + done.
    + eapply holds_frame; [done|]. intros y Hy. apply Hsame. intros ->.
      apply Hni, elem_of_app. by left.
  - split; cbn [mp_nodes mp_freelist].
    + cbn [linked]. split; [done|]. eexists. rewrite (aget_aset _ _ _ _ _ Hset), decide_True by done.
      split; [done|]. cbn [m_next]. eapply linked_frame; [done|]. intros y Hy. apply Hsame. intros ->.
      apply Hni, elem_of_app. by right.
    + by rewrite <-Permutation_middle.
  - split; cbn [mp_nodes].
    + rewrite zlen_insert. lia.
    + intros y Hy. left. rewrite elem_of_app, elem_of_cons in *. tauto.
    + intros y Hy _. apply Hsame. intros ->. apply Hy. by left.
  - by rewrite length_insert.
Qed.

(** The bytes of [bs] that are not read yet. *)
Definition unread (offset : Z) (bs : list (list Z)) : list Z :=
  drop (Z.to_nat offset) (mjoin bs).

Definition offset_ok (offset : Z) (bs : list (list Z)) : Prop :=
  0 <= offset <= zlen (default [] (head bs)).

Lemma unread_nil offset : unread offset [] = [].
Proof. apply drop_nil. Qed.

Lemma unread_0 bs : unread 0 bs = mjoin bs.
Proof. done. Qed.

Lemma unread_cons offset b bs : offset_ok offset (b :: bs) ->
  unread offset (b :: bs) = drop (Z.to_nat offset) b ++ mjoin bs.
Proof.
  unfold offset_ok, unread, zlen. cbn [head default]. intros.
  rewrite mjoin_cons, drop_app_le by (simpl in *; lia). done.
Qed.

(** ** Reading *)

Lemma read_loop_spec : forall l db mp bs fl sz fuel,
  db_list (mp_nodes mp) db l bs -> pool_ok mp l fl -> offset_ok (db_offset db) bs ->
  0 < sz <= zlen (unread (db_offset db) bs) -> (length l <= fuel)%nat ->
  exists db' mp' l' bs' fl',
    read_loop fuel db mp sz = Some (take (Z.to_nat sz) (unread (db_offset db) bs), db', mp') /\
    db_list (mp_nodes mp') db' l' bs' /\ pool_ok mp' l' fl' /\ pool_frame mp l fl mp' l' fl' /\
    offset_ok (db_offset db') bs' /\
    unread (db_offset db') bs' = drop (Z.to_nat sz) (unread (db_offset db) bs) /\
    db_header db' = db_header db /\ db_size db' = db_size db.
Proof.
  induction l as [|x l IH]; intros db mp bs fl sz fuel Hdb Hpool Hoff Hsz Hfuel.
  { pose proof (Forall2_nil_inv_l _ _ (dl_holds _ _ _ _ Hdb)) as ->.
    rewrite unread_nil in Hsz. change (zlen []) with 0 in Hsz. lia. }
  destruct fuel as [|fuel]; [simpl in Hfuel; lia|].
  pose proof (dl_holds _ _ _ _ Hdb) as Hb.
  destruct bs as [|b bs]; [by apply Forall2_length in Hb|].
  pose proof Hoff as Hoff'. unfold offset_ok in Hoff'. cbn [head default] in Hoff'.
  rewrite (unread_cons _ _ _ Hoff) in *. set (o := db_offset db) in *.
  pose proof (zlen_drop b o ltac:(simpl in Hoff'; lia)) as Hdl.
  apply Forall2_cons in Hb as [[nx Hx] _].
  pose proof (dl_linked _ _ _ _ Hdb) as (Hhd & _).
  cbn [read_loop]. rewrite Hhd. cbn [mbind option_bind]. rewrite Hx.
  cbn [mbind option_bind m_buffer m_size]. fold o. simpl in Hoff'.
  destruct (Z.ltb_spec sz (zlen b - o)).
  - (* a part of the first buffer *)
    rewrite slice_spec by lia. cbn [mbind option_bind].
    exists (set_offset db (o + sz)), mp, (x :: l), (b :: bs), fl.
    rewrite take_app_le by (unfold zlen in *; lia).
    split; [done|]. split; [by destruct Hdb; split|]. split; [done|].
    split; [apply pool_frame_refl|]. cbn [set_offset db_offset db_header db_size].
    assert (offset_ok (o + sz) (b :: bs)) as Ho by (unfold offset_ok; simpl; lia).
    split; [done|]. split; [|done]. rewrite (unread_cons _ _ _ Ho), drop_app_le by (unfold zlen in *; lia).
    rewrite drop_drop. f_equal. f_equal. lia.
  - assert (forall n, n = zlen b - o -> slice b o n = Some (drop (Z.to_nat o) b)) as Hsl.
    { intros n ->. rewrite slice_spec by lia. f_equal. apply take_ge. unfold zlen in *. lia. }
    destruct (Z.eqb_spec (zlen b - o) sz) as [Heq|Hne].
    + (* exactly the first buffer *)
      rewrite (Hsl sz) by lia. cbn [mbind option_bind].
      destruct (return_message_spec (set_offset db 0) mp x l b bs fl) as (mp' & -> & Hdb' & Hp' & Hf' & _);
        [by destruct Hdb; split | done |].
      cbn [mbind option_bind]. do 5 eexists. split; [|split; [exact Hdb'|]].
      * rewrite take_app_length' by (unfold zlen in *; lia). done.
      * split; [done|]. split; [done|]. cbn [db_offset db_header db_size set_offset].
        rewrite drop_app_length' by (unfold zlen in *; lia).
        split; [|done]. unfold offset_ok. pose proof (zlen_nonneg (default [] (head bs))). lia.
    + (* the first buffer and more *)
      rewrite (Hsl (zlen b - o)) by lia. cbn [mbind option_bind].
      destruct (return_message_spec db mp x l b bs fl Hdb Hpool) as (mp' & -> & Hdb' & Hp' & Hf' & _).
      cbn [mbind option_bind]. fold o. rewrite zlen_app in Hsz.
      destruct (IH (set_offset (Databuffer (db_header db) o (db_size db) (head l) (last l)) 0)
        mp' bs (x :: fl) (sz - (zlen b - o)) fuel)
        as (db2 & mp2 & l2 & bs2 & fl2 & Hrd & Hdb2 & Hp2 & Hf2 & Ho2 & Hu2 & Hh2 & Hs2).
      * by destruct Hdb'; split.
      * done.
      * unfold offset_ok. pose proof (zlen_nonneg (default [] (head bs))). cbn [set_offset db_offset]. lia.
      * cbn [set_offset db_offset]. rewrite unread_0. lia.
      * simpl in Hfuel. lia.
      * rewrite Hrd. cbn [mbind option_bind]. exists db2, mp2, l2, bs2, fl2.
        cbn [set_offset db_offset db_header db_size] in *.
        rewrite unread_0 in *.
        split; [|split; [done|split; [done|split; [by eapply pool_frame_trans|split; [done|]]]]].
        -- rewrite take_app_ge by (unfold zlen in *; lia).
           replace (Z.to_nat sz - length (drop (Z.to_nat o) b))%nat
             with (Z.to_nat (sz - (zlen b - o))) by (unfold zlen in *; lia). done.
        -- split; [|done]. rewrite Hu2, drop_app_ge by (unfold zlen in *; lia).
           f_equal. unfold zlen in *. lia.
Qed.

(** [db] holds the bytes [s] in the nodes [l]; the pool's free nodes are [fl]. *)
Record db_rep (mp : messagepool) (db : databuffer) (l fl : list Z) (s : list Z) : Prop := {
  dr_bufs : exists bs, db_list (mp_nodes mp) db l bs /\ offset_ok (db_offset db) bs /\
    s = unread (db_offset db) bs;
  dr_pool : pool_ok mp l fl;
  dr_size : db_size db = zlen s
}.

Lemma db_rep_zero mp fl : pool_ok mp [] fl -> db_rep mp db_zero [] fl [].
Proof.
  intros Hp. split; [|done|done]. exists []. split; [by split|]. split; [|done].
  unfold offset_ok. simpl. change (zlen []) with 0. lia.
Qed.

Lemma read_rep mp db l fl s sz : db_rep mp db l fl s -> 0 < sz <= zlen s ->
  exists db' mp' l' fl', databuffer_read db mp sz = Some (take (Z.to_nat sz) s, db', mp') /\
    db_rep mp' db' l' fl' (drop (Z.to_nat sz) s) /\ pool_frame mp l fl mp' l' fl' /\
    db_header db' = db_header db.
Proof.
  intros [(bs & Hdb & Hoff & ->) Hp Hs] Hsz. unfold databuffer_read.
  destruct (Z.leb_spec sz (db_size db)); [|lia]. cbn [cassert mbind option_bind].
  edestruct (read_loop_spec l (Databuffer (db_header db) (db_offset db) (db_size db - sz)
    (db_head db) (db_tail db)) mp bs fl sz (length (mp_nodes mp)))
    as (db' & mp' & l' & bs' & fl' & Hr & Hdb' & Hp' & Hf & Ho & Hu & Hh & Hs').
  - by destruct Hdb; split.
  - done.
  - done.
  - done.
  - eapply linked_length; [by apply Hdb|]. destruct Hp as [_ Hnd].
    by apply NoDup_app in Hnd as [? _].
  - exists db', mp', l', fl'. cbn [db_offset db_header db_size] in *. split; [done|].
    split; [|done]. split; [by exists bs' | done |]. rewrite zlen_drop by lia. lia.
Qed.

Lemma new_chunk_get base i : 0 <= i < MESSAGEPOOL ->
  (new_chunk base).[i] = Some (Message None 0 (if i =? MESSAGEPOOL - 1 then None else Some (base + i + 1))).
Proof.
  intros Hi. unfold new_chunk, aget. rewrite decide_True by lia.
  rewrite list_lookup_fmap, lookup_seqZ_lt by lia. cbn [fmap option_fmap option_map].
  replace (0 + Z.of_nat (Z.to_nat i)) with i by lia. done.
Qed.

Lemma zlen_new_chunk base : zlen (new_chunk base) = MESSAGEPOOL.
Proof. unfold zlen, new_chunk. rewrite length_map, length_seqZ. done. Qed.

Lemma NoDup_seqZ m n : NoDup (seqZ m n).
Proof. apply NoDup_seqZ. Qed.

(** The node taken is no longer free, and the pool is as before otherwise. *)
Lemma take_node_spec mp l fl : pool_ok mp l fl -> (forall x, x ∈ l -> x < zlen (mp_nodes mp)) ->
  exists x mp' fl', take_node mp = Some (x, mp') /\ pool_ok mp' l fl' /\
    0 <= x < zlen (mp_nodes mp') /\ ~ x ∈ l /\ ~ x ∈ fl' /\
    (x ∈ fl \/ zlen (mp_nodes mp) <= x) /\ zlen (mp_nodes mp) <= zlen (mp_nodes mp') /\
    (forall y, y ∈ fl' -> y ∈ fl \/ zlen (mp_nodes mp) <= y) /\
    (forall y, y < zlen (mp_nodes mp) -> (mp_nodes mp').[y] = (mp_nodes mp).[y]).
Proof.
  intros [Hf Hnd] Hl. unfold take_node. destruct fl as [|x fl]; cbn [linked] in Hf.
  - rewrite Hf. rewrite app_nil_r in Hnd. set (base := zlen (mp_nodes mp)).
    pose proof (zlen_nonneg (mp_nodes mp)). pose proof (zlen_new_chunk base) as Hc.
    assert (zlen (mp_nodes mp ++ new_chunk base) = base + MESSAGEPOOL) as Hlen
      by (rewrite zlen_app, Hc; done).
    unfold MESSAGEPOOL in *.
    do 2 eexists. exists (seqZ (base + 1) 1022). split; [done|].
    cbn [mp_nodes mp_freelist mp_pool]. rewrite Hlen.
    assert (forall y, y ∈ seqZ (base + 1) 1022 -> base + 1 <= y) as Hge
      by (intros y Hy; apply elem_of_seqZ in Hy; lia).
    split; [split; cbn [mp_nodes mp_freelist]|].
    + apply (linked_seq m_next _ 1022); [|lia]. intros i Hi.
      rewrite aget_app_r by (unfold base in *; lia). fold base.
      rewrite new_chunk_get by (unfold MESSAGEPOOL; lia). eexists. split; [done|].
      cbn [m_next]. unfold MESSAGEPOOL. zdec; try lia; [done|]. f_equal. lia.
    + apply NoDup_app. split; [done|]. split; [|apply NoDup_seqZ].
      intros y Hy%Hl Hy'%Hge. fold base in Hy. lia.
    + split; [lia|]. split; [intros Hx%Hl; fold base in Hx; lia|].
      split; [intros Hx%Hge; lia|]. split; [right; lia|]. split; [lia|].
      split; [intros y Hy%Hge; right; lia|]. intros y Hy. by apply aget_app_l.
  - destruct Hf as (-> & n & Hn & Hf). rewrite Hn. cbn [mbind option_bind].
    pose proof (aget_lt_Some _ _ _ Hn). rewrite <-Permutation_middle in Hnd.
    pose proof (NoDup_cons_1_1 _ _ Hnd) as Hni. pose proof (NoDup_cons_1_2 _ _ Hnd) as Hnd'.
    rewrite elem_of_app in Hni.
    do 2 eexists. exists fl. split; [done|]. split; [by split|]. cbn [mp_nodes].
    split; [lia|]. split; [tauto|]. split; [tauto|]. split; [left; by left|].
    split; [lia|]. split; [intros y Hy; left; by right|]. done.
Qed.

(** A node behind the last one. *)
Lemma db_list_snoc nodes nodes2 db l bs t x bt nx data hdr off sz :
  db_list nodes db l bs -> NoDup l -> last l = Some t -> ~ x ∈ l ->
  nodes.[t] = Some (Message (Some bt) (zlen bt) nx) ->
  nodes2.[t] = Some (Message (Some bt) (zlen bt) (Some x)) ->
  nodes2.[x] = Some (Message (Some data) (zlen data) None) ->
  (forall y, y ∈ l -> y <> t -> nodes2.[y] = nodes.[y]) ->
  db_list nodes2 (Databuffer hdr off sz (db_head db) (Some x)) (l ++ [x]) (bs ++ [data]).
Proof.
  intros [Hlk _ Hh] Hnd Hlast Hx Hnt Hn2t Hn2x Heq. split; cbn [db_head db_tail].
  - apply last_Some in Hlast as [l' ->]. rewrite <-app_assoc. cbn [app].
    eapply linked_snoc; [exact Hlk | done | exact Hn2t | done | exact Hn2x | done |].
    intros y Hy. apply NoDup_app in Hnd as (_ & Hd & _). apply Heq; [apply elem_of_app; by left|].
    intros ->. apply (Hd t Hy). by left.
  - by rewrite last_snoc.
  - apply Forall2_app; [|constructor; [by exists None | done]].
    apply Forall2_same_length_lookup. split; [by eapply Forall2_length|].
    intros i y b Hy Hbi. destruct (Forall2_lookup_lr _ _ _ _ _ _ Hh Hy Hbi) as [n Hn].
    apply list_elem_of_lookup_2 in Hy. destruct (decide (y = t)) as [->|Hyt].
    + rewrite Hnt in Hn. injection Hn as -> Hbz _. by exists (Some x).
    + exists n. by rewrite Heq.
Qed.

(** The first node. *)
Lemma push_first mp1 x data hdr off sz : (mp_nodes mp1).[x] = Some (Message (Some data) (zlen data) None) ->
  db_list (mp_nodes mp1) (Databuffer hdr off sz (Some x) (Some x)) [x] [data].
Proof.
  intros Hx. split; cbn [db_head db_tail].
  - cbn [linked]. split; [done|]. eexists. by split.
  - done.
  - constructor; [|done]. by exists None.
Qed.

(** The nodes after [databuffer_push], for a node [x] taken from the pool. *)
Lemma push_nodes mp mp1 db l bs x data hdr off sz : db_list (mp_nodes mp) db l bs -> NoDup l ->
  0 <= x < zlen (mp_nodes mp1) -> ~ x ∈ l ->
  (forall y, y ∈ l -> (mp_nodes mp1).[y] = (mp_nodes mp).[y]) ->
  exists nodes1 nodes2, (mp_nodes mp1).[x := Message (Some data) (zlen data) None] = Some nodes1 /\
    match db_head db with
    | None => db_tail db = None /\ nodes2 = nodes1
    | Some _ => exists t nd, db_tail db = Some t /\ nodes1.[t] = Some nd /\
        nodes1.[t := Message (m_buffer nd) (m_size nd) (Some x)] = Some nodes2
    end /\
    db_list nodes2 (Databuffer hdr off sz (Some (default x (db_head db))) (Some x)) (l ++ [x]) (bs ++ [data]) /\
    zlen nodes2 = zlen (mp_nodes mp1) /\
    (forall y, y <> x -> ~ y ∈ l -> nodes2.[y] = (mp_nodes mp1).[y]).
Proof.
  intros Hdb Hnd Hx Hxl Hl0. pose proof Hdb as [Hlk Htl Hh].
  pose proof (aset_Some (mp_nodes mp1) x (Message (Some data) (zlen data) None) Hx) as Hset.
  set (nodes1 := <[Z.to_nat x := _]> (mp_nodes mp1)) in Hset.
  assert (nodes1.[x] = Some (Message (Some data) (zlen data) None)) as Hn1x
    by (by rewrite (aget_aset _ _ _ _ _ Hset), decide_True).
  assert (forall y, y <> x -> nodes1.[y] = (mp_nodes mp1).[y]) as Hn1
    by (intros y Hy; by rewrite (aget_aset _ _ _ _ _ Hset), decide_False).
  assert (zlen nodes1 = zlen (mp_nodes mp1)) as Hl1 by (unfold nodes1; apply zlen_insert).
  exists nodes1. rewrite (linked_head _ _ _ _ Hlk), Htl in *. destruct l as [|z l0].
  - cbn [head last]. pose proof (Forall2_nil_inv_l _ _ Hh) as ->. exists nodes1.
    split; [done|]. split; [done|]. cbn [default app].
    split; [|split; [done | intros y Hy _; by apply Hn1]].
    apply (push_first (Messagepool [] nodes1 None)). done.
  - destruct (last_is_Some (z :: l0)) as [_ [t Hlast]]; [done|]. rewrite Hlast. cbn [head].
    assert (t ∈ z :: l0) as Htin by (by apply last_Some_elem_of).
    assert (t <> x) as Htx by (intros ->; done).
    assert (exists b nx, (mp_nodes mp).[t] = Some (Message (Some b) (zlen b) nx)) as (bt & nx & Hnt).
    { apply list_elem_of_lookup in Htin as [i Hi].
      destruct (Forall2_lookup_l _ _ _ _ _ Hh Hi) as (b & _ & n & Hn). eauto. }
    assert (nodes1.[t] = Some (Message (Some bt) (zlen bt) nx)) as Hn1t by (by rewrite Hn1, Hl0).
    pose proof (aset_Some nodes1 t (Message (Some bt) (zlen bt) (Some x))
      (aget_lt_Some _ _ _ Hn1t)) as Hset2.
    eexists. split; [done|]. split; [exists t; eexists; by split|].
    assert (forall y, y <> t -> (<[Z.to_nat t := Message (Some bt) (zlen bt) (Some x)]> nodes1).[y] = nodes1.[y])
      as Hn2 by (intros y Hy; by rewrite (aget_aset _ _ _ _ _ Hset2), decide_False).
    split; [|split; [by rewrite zlen_insert|]].
    + replace (Some (default x (Some z))) with (db_head db) by (by apply linked_head in Hlk).
      eapply db_list_snoc; [done | done | done | done | done | | |].
      * by rewrite (aget_aset _ _ _ _ _ Hset2), decide_True.
      * by rewrite Hn2.
      * intros y Hy Hyt. assert (y <> x) by (intros ->; done). by rewrite Hn2, Hn1, Hl0.
    + intros y Hy Hyl. rewrite Hn2, Hn1; [done | done | by intros ->].
Qed.

Lemma push_rep mp db l fl s data : db_rep mp db l fl s -> zlen s + zlen data < 2 ^ 31 ->
  exists db' mp' l' fl', databuffer_push db mp data (zlen data) = Some (db', mp') /\
    db_rep mp' db' l' fl' (s ++ data) /\ pool_frame mp l fl mp' l' fl' /\
    db_header db' = db_header db.
Proof.
  intros [(bs & Hdb & Hoff & ->) Hp Hs] Hmax.
  destruct (take_node_spec mp l fl Hp) as
    (x & mp1 & fl' & Ht & [Hf1 Hnd1] & Hx & Hxl & Hxf & Hxo & Hlen & Hfo & Hsame);
    [intros y Hy; pose proof (db_list_bound _ _ _ _ _ Hdb Hy); lia|].
  destruct (push_nodes mp mp1 db l bs x data (db_header db) (db_offset db) (db_size db + zlen data) Hdb)
    as (nodes1 & nodes2 & Hset & Hcase & Hdb2 & Hl2 & Hsame2);
    [by apply NoDup_app in Hnd1 as [? _] | done | done | |].
  { intros y Hy. apply Hsame. pose proof (db_list_bound _ _ _ _ _ Hdb Hy). lia. }
  set (mp2 := Messagepool (mp_pool mp1) nodes2 (mp_freelist mp1)).
  exists (Databuffer (db_header db) (db_offset db) (db_size db + zlen data)
    (Some (default x (db_head db))) (Some x)), mp2, (l ++ [x]), fl'.
  pose proof (zlen_nonneg (unread (db_offset db) bs)). pose proof (zlen_nonneg data).
  split; [|split; [split|split; [split|done]]].
  - unfold databuffer_push. rewrite Ht. cbn [mbind option_bind]. rewrite Hset. cbn [mbind option_bind].
    rewrite (bool_decide_eq_true_2 (is_s32 _)) by (unfold is_s32; lia). cbn [cassert mbind option_bind].
    destruct (db_head db) as [h|]; cbn [default].
    + destruct Hcase as (t & nd & -> & Hnt & Hset2). cbn [mbind option_bind]. rewrite Hnt.
      cbn [mbind option_bind]. rewrite Hset2. done.
    + destruct Hcase as [-> ->]. rewrite bool_decide_eq_true_2 by done. done.
  - exists (bs ++ [data]). split; [exact Hdb2|]. cbn [db_offset]. destruct bs as [|b bs].
    + unfold offset_ok in Hoff. simpl in Hoff. change (zlen (@nil Z)) with 0 in Hoff.
      split; [unfold offset_ok; simpl; lia|]. replace (db_offset db) with 0 by lia.
      rewrite !unread_0. cbn. by rewrite app_nil_r.
    + split; [done|]. cbn [app]. rewrite (unread_cons _ _ _ Hoff).
      rewrite (unread_cons (db_offset db) b (bs ++ [data])) by done.
      rewrite join_app, <-app_assoc. cbn. by rewrite app_nil_r.
  - split; cbn [mp_nodes mp_freelist mp2].
    + eapply linked_frame; [done|]. intros y Hy. apply Hsame2; [by intros ->|].
      intros Hyl. apply NoDup_app in Hnd1 as (_ & Hd & _). by apply (Hd y).
    + rewrite <-app_assoc. change ([x] ++ fl') with (x :: fl'). rewrite <-Permutation_middle.
      constructor; [|done]. rewrite elem_of_app. tauto.
  - cbn [db_size]. rewrite zlen_app. lia.
  - cbn [mp_nodes mp2]. lia.
  - intros y. rewrite !elem_of_app, list_elem_of_singleton.
    intros [[Hy| ->]|Hy]; [tauto | tauto |]. apply Hfo in Hy. tauto.
  - cbn [mp_nodes mp2]. intros y Hy Hby. rewrite elem_of_app in Hy.
    rewrite Hsame2; [by apply Hsame | | tauto]. intros ->. destruct Hxo; [tauto | lia].
Qed.

(** The other buffers of the pool keep their bytes. *)
Lemma db_rep_frame mp db2 l2 l fl s2 mp' l' fl' : db_rep mp db2 l2 fl s2 ->
  (forall x, x ∈ l2 -> ~ x ∈ l) -> pool_frame mp l fl mp' l' fl' -> pool_ok mp' l' fl' ->
  db_rep mp' db2 l2 fl' s2 /\ (forall x, x ∈ l2 -> ~ x ∈ l').
Proof.
  intros [(bs & Hdb & Ho & Hs) [_ Hnd] Hsz] Hdis [Hlen Hown Hsame] [Hfl' Hnd'].
  apply NoDup_app in Hnd as (Hnd2 & Hd & _).
  assert (forall x, x ∈ l2 -> ~ x ∈ l' ++ fl') as Hout.
  { intros x Hx [Hin|Hin]%Hown.
    - apply elem_of_app in Hin as [?|?]; [by eapply Hdis | by eapply Hd].
    - pose proof (db_list_bound _ _ _ _ _ Hdb Hx). lia. }
  split; [split|].
  - exists bs. split; [|done]. eapply db_list_frame; [done|]. intros x Hx. apply Hsame.
    + rewrite elem_of_app. intros [?|?]; [by eapply Hdis | by eapply Hd].
    + pose proof (db_list_bound _ _ _ _ _ Hdb Hx). lia.
  - split; [done|]. apply NoDup_app. split; [done|]. split.
    + intros x Hx Hf. apply (Hout x Hx), elem_of_app. by right.
    + by apply NoDup_app in Hnd' as (_ & _ & ?).
  - done.
  - intros x Hx Hf. apply (Hout x Hx), elem_of_app. by left.
Qed.

(** [databuffer_clear] gives every node back. *)
Lemma clear_buffers_spec : forall l db mp bs fl fuel, db_list (mp_nodes mp) db l bs ->
  pool_ok mp l fl -> (length l <= fuel)%nat ->
  exists db' mp' fl', clear_buffers fuel db mp = Some (db', mp') /\ pool_ok mp' [] fl' /\
    pool_frame mp l fl mp' [] fl'.
Proof.
  induction l as [|x l IH]; intros db mp bs fl fuel Hdb Hp Hf.
  - pose proof (dl_linked _ _ _ _ Hdb) as Hh. cbn [linked] in Hh.
    exists db, mp, fl. split; [destruct fuel; cbn [clear_buffers]; by rewrite Hh|].
    split; [done | apply pool_frame_refl].
  - destruct fuel as [|fuel]; [simpl in Hf; lia|].
    destruct bs as [|b bs]; [by pose proof (Forall2_length _ _ _ (dl_holds _ _ _ _ Hdb))|].
    pose proof (dl_linked _ _ _ _ Hdb) as [Hh _]. cbn [clear_buffers]. rewrite Hh.
    destruct (return_message_spec db mp x l b bs fl Hdb Hp) as (mp1 & -> & Hdb1 & Hp1 & Hf1 & _).
    cbn [mbind option_bind].
    destruct (IH _ mp1 bs (x :: fl) fuel Hdb1 Hp1 ltac:(simpl in Hf; lia))
      as (db2 & mp2 & fl2 & Hc & Hp2 & Hf2).
    exists db2, mp2, fl2. split; [done|]. split; [done|]. by eapply pool_frame_trans.
Qed.

Lemma clear_rep mp db l fl s : db_rep mp db l fl s ->
  exists mp' fl', databuffer_clear db mp = Some (db_zero, mp') /\ db_rep mp' db_zero [] fl' [] /\
    pool_frame mp l fl mp' [] fl'.
Proof.
  intros [(bs & Hdb & _ & _) Hp _]. unfold databuffer_clear.
  destruct (clear_buffers_spec l db mp bs fl (length (mp_nodes mp)) Hdb Hp)
    as (db' & mp' & fl' & -> & Hp' & Hf).
  - eapply linked_length; [by apply Hdb|]. destruct Hp as [_ Hnd].
    by apply NoDup_app in Hnd as [? _].
  - exists mp', fl'. split; [done|]. split; [by apply db_rep_zero | done].
Qed.

(** ** The byte stream *)

(** Frame lengths, as the peer means them. *)
Definition frame_size (plen : list Z) (header_size : Z) : Z :=
  match plen with
  | [a; b] => a * 256 + b
  | [a; b; c; d] => s32 (a * 16777216 + b * 65536 + c * 256 + d)
  | _ => 0
  end.

Lemma header_value_spec plen hs : hs = 2 \/ hs = 4 -> zlen plen = hs -> is_bytes plen ->
  header_value plen hs = Some (frame_size plen hs).
Proof.
  intros Hhs Hlen Hb. unfold header_value.
  assert (exists a b l, plen = a :: b :: l) as (a & b & l & ->).
  { destruct plen as [|a [|b l]]; unfold zlen in Hlen; simpl in Hlen; try lia. eauto. }
  apply Forall_cons in Hb as [Ha Hb]. apply Forall_cons in Hb as [Hb Hl].
  change ((a :: b :: l).[0]) with (Some a). change ((a :: b :: l).[1]) with (Some b).
  cbn [mbind option_bind]. rewrite !zlen_cons in Hlen.
  destruct Hhs as [-> | ->].
  - rewrite (zlen_nil_inv l) by lia. unfold frame_size. cbn [Z.eqb Pos.eqb].
    rewrite Z.lor_comm, lor_shiftl_add by (unfold is_u8 in *; lia). f_equal.
    change (2 ^ 8) with 256. lia.
  - destruct l as [|c [|d [|]]]; unfold zlen in Hlen; simpl in Hlen; try lia.
    apply Forall_cons in Hl as [Hc Hl]. apply Forall_cons in Hl as [Hd _].
    cbn [Z.eqb Pos.eqb]. change ([a; b; c; d].[2]) with (Some c). change ([a; b; c; d].[3]) with (Some d).
    cbn [mbind option_bind]. unfold frame_size.
    rewrite be32_le32, le32_sum by done. do 2 f_equal. lia.
Qed.

(** What a buffer promises: the header read last and the bytes after it. *)
Record stream := Stream { st_header : Z; st_bytes : list Z }.

Inductive db_op :=
| DbPush (data : list Z)
| DbRead (sz : Z)
| DbReadHeader (header_size : Z)
| DbReset
| DbClear.

Inductive db_result := RNone | RBytes (l : list Z) | RInt (z : Z).

Definition db_run (op : db_op) (db : databuffer) (mp : messagepool)
    : option (db_result * databuffer * messagepool) :=
  match op with
  | DbPush data => '(db, mp) ← databuffer_push db mp data (zlen data); Some (RNone, db, mp)
  | DbRead sz => '(d, db, mp) ← databuffer_read db mp sz; Some (RBytes d, db, mp)
  | DbReadHeader hs => '(z, db, mp) ← databuffer_readheader db mp hs; Some (RInt z, db, mp)
  | DbReset => Some (RNone, databuffer_reset db, mp)
  | DbClear => '(db, mp) ← databuffer_clear db mp; Some (RNone, db, mp)
  end.

(** Reading a header: the rest of the frame may still be missing. *)
Definition stream_header (hs : Z) (st : stream) : Z * stream :=
  if (st_header st =? 0) && (zlen (st_bytes st) <? hs) then (-1, st)
  else
    let st := if st_header st =? 0
              then Stream (frame_size (take (Z.to_nat hs) (st_bytes st)) hs)
                          (drop (Z.to_nat hs) (st_bytes st))
              else st in
    if zlen (st_bytes st) <? st_header st then (-1, st) else (st_header st, st).

(** The operations on the stream; [None] where the caller breaks the contract. *)
Definition stream_op (op : db_op) (st : stream) : option (db_result * stream) :=
  match op with
  | DbPush data =>
      if zlen (st_bytes st) + zlen data <? 2 ^ 31
      then Some (RNone, Stream (st_header st) (st_bytes st ++ data)) else None
  | DbRead sz =>
      if (0 <? sz) && (sz <=? zlen (st_bytes st))
      then Some (RBytes (take (Z.to_nat sz) (st_bytes st)),
                 Stream (st_header st) (drop (Z.to_nat sz) (st_bytes st)))
      else None
  | DbReadHeader hs =>
      if (hs =? 2) || (hs =? 4)
      then let '(z, st) := stream_header hs st in Some (RInt z, st) else None
  | DbReset => Some (RNone, Stream 0 (st_bytes st))
  | DbClear => Some (RNone, Stream 0 [])
  end.

Lemma db_rep_header mp db l fl s h : db_rep mp db l fl s ->
  db_rep mp (Databuffer h (db_offset db) (db_size db) (db_head db) (db_tail db)) l fl s.
Proof.
  intros [(bs & [Hl Ht Hh] & Ho & Hs) Hp Hsz]. split; [|done|done].
  exists bs. split; [by split | done].
Qed.

Lemma readheader_rep mp db l fl st hs : db_rep mp db l fl (st_bytes st) ->
  db_header db = st_header st -> is_bytes (st_bytes st) -> hs = 2 \/ hs = 4 ->
  exists z st' db' mp' l' fl', stream_header hs st = (z, st') /\
    databuffer_readheader db mp hs = Some (z, db', mp') /\
    db_rep mp' db' l' fl' (st_bytes st') /\ db_header db' = st_header st' /\
    pool_frame mp l fl mp' l' fl'.
Proof.
  intros Hr Hh Hb Hhs. unfold stream_header, databuffer_readheader.
  pose proof (dr_size _ _ _ _ _ Hr) as Hsz. rewrite Hh, Hsz.
  destruct (Z.eqb_spec (st_header st) 0) as [H0|H0]; cbn [andb].
  2:{ cbn [mbind option_bind]. rewrite Hh, Hsz.
      destruct (Z.ltb_spec (zlen (st_bytes st)) (st_header st));
        (do 6 eexists; split; [done|]; split; [done|]; split; [done|]; split; [done|];
         apply pool_frame_refl). }
  destruct (Z.ltb_spec (zlen (st_bytes st)) hs).
  { do 6 eexists. split; [done|]. split; [done|]. split; [done|]. split; [done|].
    apply pool_frame_refl. }
  destruct (read_rep mp db l fl (st_bytes st) hs Hr ltac:(lia)) as (db1 & mp1 & l1 & fl1 & -> & Hr1 & Hf & Hh1).
  cbn [mbind option_bind]. rewrite (header_value_spec _ hs);
    [| done | rewrite zlen_take; lia | by apply Forall_take].
  cbn [mbind option_bind st_header st_bytes db_header db_size].
  pose proof (dr_size _ _ _ _ _ Hr1) as Hs1. rewrite <-Hs1.
  case_match; (do 6 eexists; split; [done|]; split; [done|]; split; [by apply db_rep_header|];
    split; done).
Qed.

(** A data buffer is a byte queue with a frame reader.  If the buffer stands for
    the stream [st] (the header read last and the unread bytes) then every operation
    that respects the caller's contract succeeds, with the result and the new stream that
    the abstract operation gives: [databuffer_push] appends, [databuffer_read] takes the
    first bytes however they are split over buffers, [databuffer_readheader] reads a
    big-endian length and says whether the frame is complete; and every other buffer
    that uses the same message pool keeps its bytes. *)
Theorem databuffer_refines_stream (op : db_op) (mp : messagepool) (db : databuffer) (l fl : list Z)
    (st st' : stream) (r : db_result) :
  db_rep mp db l fl (st_bytes st) -> db_header db = st_header st -> is_bytes (st_bytes st) ->
  stream_op op st = Some (r, st') ->
  exists db' mp' l' fl', db_run op db mp = Some (r, db', mp') /\
    db_rep mp' db' l' fl' (st_bytes st') /\ db_header db' = st_header st' /\
    forall db2 l2 s2, db_rep mp db2 l2 fl s2 -> (forall x, x ∈ l2 -> ~ x ∈ l) ->
      db_rep mp' db2 l2 fl' s2 /\ (forall x, x ∈ l2 -> ~ x ∈ l').
Proof.
  intros Hr Hh Hb Hop.
  assert (forall db' mp' l' fl', db_rep mp' db' l' fl' (st_bytes st') -> pool_frame mp l fl mp' l' fl' ->
    forall db2 l2 s2, db_rep mp db2 l2 fl s2 -> (forall x, x ∈ l2 -> ~ x ∈ l) ->
      db_rep mp' db2 l2 fl' s2 /\ (forall x, x ∈ l2 -> ~ x ∈ l')) as Hframe.
  { intros db' mp' l' fl' [_ Hp' _] Hf db2 l2 s2 Hr2 Hd. by eapply db_rep_frame. }
  destruct op as [data|sz|hs| |]; cbn [stream_op db_run] in *.
  - destruct (Z.ltb_spec (zlen (st_bytes st) + zlen data) (2 ^ 31)) as [Hlt|]; [|done].
    injection Hop as <- <-.
    destruct (push_rep mp db l fl _ data Hr Hlt) as (db' & mp' & l' & fl' & -> & Hr' & Hf & Hh').
    exists db', mp', l', fl'. split; [done|]. split; [done|]. split; [cbn [st_header]; congruence|]. by eapply Hframe.
  - destruct (Z.ltb_spec 0 sz); [|done]. destruct (Z.leb_spec sz (zlen (st_bytes st))); [|done].
    injection Hop as <- <-.
    destruct (read_rep mp db l fl _ sz Hr ltac:(lia)) as (db' & mp' & l' & fl' & -> & Hr' & Hf & Hh').
    exists db', mp', l', fl'. split; [done|]. split; [done|]. split; [cbn [st_header]; congruence|]. by eapply Hframe.
  - destruct ((hs =? 2) || (hs =? 4)) eqn:Hhs; [|done].
    destruct (readheader_rep mp db l fl st hs Hr Hh Hb) as
      (z & st1 & db' & mp' & l' & fl' & Hst & -> & Hr' & Hh' & Hf).
    { apply orb_true_iff in Hhs as [?%Z.eqb_eq|?%Z.eqb_eq]; lia. }
    rewrite Hst in Hop. injection Hop as <- <-.
    exists db', mp', l', fl'. split; [done|]. split; [done|]. split; [done|]. by eapply Hframe.
  - injection Hop as <- <-. exists (databuffer_reset db), mp, l, fl. split; [done|].
    split; [by apply db_rep_header|]. split; [done|]. by intros.
  - injection Hop as <- <-. destruct (clear_rep mp db l fl _ Hr) as (mp' & fl' & -> & Hr' & Hf).
    exists db_zero, mp', [], fl'. split; [done|]. split; [done|]. split; [done|]. by eapply Hframe.
Qed.

Lemma databuffer_refines_stream_witness : exists db mp l fl,
  databuffer_push db_zero mp_zero [0; 3; 7] 3 = Some (db, mp) /\
  db_rep mp db l fl [0; 3; 7].
Proof.
  assert (db_rep mp_zero db_zero [] [] []) as H0.
  { apply db_rep_zero. split; [reflexivity | constructor]. }
  destruct (databuffer_refines_stream (DbPush [0; 3; 7]) mp_zero db_zero [] [] (Stream 0 [])
    (Stream 0 [0; 3; 7]) RNone H0 eq_refl) as (db' & mp' & l' & fl' & Hrun & Hr & _);
    [constructor | reflexivity |].
  exists db', mp', l', fl'. split; [|exact Hr]. cbn [db_run] in Hrun.
  change (zlen [0; 3; 7]) with 3 in Hrun.
  destruct (databuffer_push db_zero mp_zero [0; 3; 7] 3) as [[? ?]|]; [|discriminate Hrun].
  injection Hrun as -> ->. reflexivity.
Defined.
