(* ===== verification/CStr.v ===== *)
(** C strings: byte arrays with a terminating zero, and the functions of the C library
    that the gate and the server use on them ([memcmp], [strsep], [strtol], [strtoul] and
    the [%d] and [%x] conversions of [printf]). *)
From S2P Require Import Prelude Bytes.
From Stdlib Require Import String Ascii.
Open Scope Z_scope.

(** The string at the pointer [p] of the buffer [buf]: up to the zero.  [None] when there
    is none, that is when reading the string runs out of the buffer. *)
Fixpoint until_zero (l : list Z) : option (list Z) :=
  match l with
  | [] => None
  | c :: l => if c =? 0 then Some [] else s ← until_zero l; Some (c :: s)
  end.

Definition cstr (buf : list Z) (p : Z) : option (list Z) :=
  if (0 <=? p) && (p <=? zlen buf) then until_zero (drop (Z.to_nat p) buf) else None.

(** [memcmp(a, b, n) == 0], byte by byte up to the first difference; [None] past the end
    of an object. *)
Fixpoint memcmp (a b : list Z) (n : nat) {struct n} : option bool :=
  match n with
  | O => Some true
  | S n =>
      match a, b with
      | x :: a, y :: b => if x =? y then memcmp a b n else Some false
      | _, _ => None
      end
  end.

(** A string literal is an array that ends with a zero. *)
Definition literal (s : string) : list Z := bytes_of s ++ [0].

(** [isspace] in the C locale. *)
Definition isspace (c : Z) : bool := (c =? 32) || ((9 <=? c) && (c <=? 13)).

Definition digit_of (c : Z) : Z :=
  if (48 <=? c) && (c <=? 57) then c - 48
  else if (97 <=? c) && (c <=? 122) then c - 87
  else if (65 <=? c) && (c <=? 90) then c - 55
  else 36.

Fixpoint skip_spaces (l : list Z) : list Z :=
  match l with
  | [] => []
  | c :: l' => if isspace c then skip_spaces l' else l
  end.

Fixpoint digits_value (base : Z) (l : list Z) (acc : Z) : Z :=
  match l with
  | [] => acc
  | c :: l => if digit_of c <? base then digits_value base l (acc * base + digit_of c) else acc
  end.

(** An optional [0x] in front of a hexadecimal number. *)
Definition skip_0x (base : Z) (l : list Z) : list Z :=
  match l with
  | 48 :: x :: d :: _ =>
      if (base =? 16) && ((x =? 120) || (x =? 88)) && (digit_of d <? 16) then drop 2 l else l
  | _ => l
  end.

(** Sign and magnitude. *)
Definition parse_int (base : Z) (s : list Z) : bool * Z :=
  match skip_spaces s with
  | 45 :: l => (true, digits_value base (skip_0x base l) 0)
  | 43 :: l => (false, digits_value base (skip_0x base l) 0)
  | l => (false, digits_value base (skip_0x base l) 0)
  end.

(** [strtol]: 64 bits, clamped. *)
Definition strtol (base : Z) (s : list Z) : Z :=
  let '(neg, v) := parse_int base s in
  Z.max (- 2 ^ 63) (Z.min (2 ^ 63 - 1) (if neg then - v else v)).

(** [strtoul]: clamped, a minus sign negates modulo 2^64. *)
Definition strtoul (base : Z) (s : list Z) : Z :=
  let '(neg, v) := parse_int base s in
  if 2 ^ 64 - 1 <? v then 2 ^ 64 - 1 else if neg then u64 (- v) else v.

(** [%d] of [sscanf]: the number and what follows it. *)
Definition is_digit (c : Z) : bool := (48 <=? c) && (c <=? 57).

Fixpoint drop_digits (l : list Z) : list Z :=
  match l with
  | c :: l' => if is_digit c then drop_digits l' else l
  | [] => []
  end.

Definition scan_int (l : list Z) : option (Z * list Z) :=
  let l := skip_spaces l in
  let digits := match l with 45 :: l' | 43 :: l' => l' | _ => l end in
  match digits with
  | c :: _ => if is_digit c then Some (s32 (strtol 10 l), drop_digits digits) else None
  | [] => None
  end.

(** [%u]. *)
Definition scan_uint (l : list Z) : option (Z * list Z) :=
  let l := skip_spaces l in
  let digits := match l with 45 :: l' | 43 :: l' => l' | _ => l end in
  match digits with
  | c :: _ => if is_digit c then Some (u32 (strtoul 10 l), drop_digits digits) else None
  | [] => None
  end.

(** [strncmp(a, b, n) == 0]; [None] past the end of an object. *)
Fixpoint strncmp (a b : list Z) (n : nat) : option bool :=
  match n with
  | O => Some true
  | S n =>
      match a, b with
      | x :: a, y :: b => if x =? y then if x =? 0 then Some true else strncmp a b n else Some false
      | _, _ => None
      end
  end.

(** [strsep(&p, " ")] on the buffer: the token's pointer is [p]; the delimiter is
    overwritten with a zero and [p] moves behind it, or becomes null. *)
Fixpoint find_byte (c : Z) (l : list Z) (i : Z) : option Z :=
  match l with
  | [] => None
  | x :: l => if x =? c then Some i else find_byte c l (i + 1)
  end.

Definition strsep (buf : list Z) (p : Z) (delim : Z) : option (list Z * option Z) :=
  s ← cstr buf p;
  match find_byte delim s p with
  | None => Some (buf, None)
  | Some i => buf ← buf.[i := 0]; Some (buf, Some (i + 1))
  end.

(** ** [printf] *)
Definition digit_char (d : Z) : Z := if d <? 10 then 48 + d else 87 + d.

Fixpoint print_digits (fuel : nat) (base v : Z) (acc : list Z) : list Z :=
  match fuel with
  | O => acc
  | S fuel =>
      let acc := digit_char (v mod base) :: acc in
      if v / base =? 0 then acc else print_digits fuel base (v / base) acc
  end.

(** [%d]: an [int] has at most ten digits. *)
Definition fmt_d (z : Z) : list Z :=
  if z <? 0 then 45 :: print_digits 10 10 (- z) [] else print_digits 10 10 z [].

(** [%x]: eight digits. *)
Definition fmt_x (z : Z) : list Z := print_digits 8 16 (u32 z) [].

(** [%u]. *)
Definition fmt_u (z : Z) : list Z := print_digits 10 10 z [].

(** ** Lemmas *)
Lemma memcmp_spec n : forall a b : list Z, (n <= List.length a)%nat -> (n <= List.length b)%nat ->
  memcmp a b n = Some (bool_decide (take n a = take n b)).
Proof.
  induction n as [|n IH]; intros [|x a] [|y b] Ha Hb; cbn [memcmp List.length] in *; try lia; try done.
  destruct (Z.eqb_spec x y) as [->|Hne].
  - rewrite IH by lia. f_equal. apply bool_decide_ext. cbn [firstn]. split; [congruence | by intros [= ?]].
  - rewrite bool_decide_eq_false_2; [done|]. cbn [firstn]. congruence.
Qed.

Lemma until_zero_app s l : ~ 0 ∈ s -> until_zero (s ++ 0 :: l) = Some s.
Proof.
  induction s as [|c s IH]; intros Hs; cbn [app until_zero]; [done|].
  rewrite not_elem_of_cons in Hs. destruct Hs as [Hc Hs].
  destruct (Z.eqb_spec c 0); [lia|]. by rewrite IH.
Qed.

Lemma until_zero_Some l s : until_zero l = Some s -> exists l', l = s ++ 0 :: l' /\ ~ 0 ∈ s.
Proof.
  revert s. induction l as [|c l IH]; intros s; cbn [until_zero]; [done|].
  destruct (Z.eqb_spec c 0) as [->|Hc].
  - intros [= <-]. exists l. split; [done | apply not_elem_of_nil].
  - destruct (until_zero l) as [s'|]; [|done]. cbn [mbind option_bind]. intros [= <-].
    destruct (IH s' eq_refl) as (l' & -> & Hs). exists l'. split; [done|].
    rewrite not_elem_of_cons. split; [congruence | done].
Qed.

(** A zero in the buffer at or behind the pointer makes the string readable. *)
Lemma cstr_is_Some buf p i : 0 <= p <= i -> buf.[i] = Some 0 -> exists s, cstr buf p = Some s.
Proof.
  intros Hp Hi. pose proof (aget_lt_Some _ _ _ Hi) as Hb. unfold cstr.
  rewrite (proj2 (Z.leb_le 0 p)), (proj2 (Z.leb_le p (zlen buf))) by lia. cbn [andb].
  assert (drop (Z.to_nat p) buf !! Z.to_nat (i - p) = Some 0) as Hl.
  { rewrite lookup_drop. unfold aget in Hi. rewrite decide_True in Hi by lia.
    rewrite <-Hi. f_equal. lia. }
  generalize dependent (drop (Z.to_nat p) buf). generalize (Z.to_nat (i - p)). clear.
  intros n l. revert n. induction l as [|c l IH]; intros n Hl; [done|].
  cbn [until_zero]. destruct (Z.eqb_spec c 0) as [|Hc]; [by eexists|].
  destruct n as [|n]; [by injection Hl as ->|].
  destruct (IH n Hl) as [s ->]. by eexists.
Qed.

Lemma find_byte_Some c l i j : find_byte c l i = Some j ->
  i <= j < i + zlen l /\ l !! Z.to_nat (j - i) = Some c.
Proof.
  revert i. induction l as [|x l IH]; intros i; cbn [find_byte]; [done|].
  rewrite zlen_cons. destruct (Z.eqb_spec x c) as [->|].
  - intros [= <-]. pose proof (zlen_nonneg l). split; [lia|].
    replace (Z.to_nat (i - i)) with O by lia. done.
  - intros [Hj Hl]%IH. split; [lia|].
    replace (Z.to_nat (j - i)) with (S (Z.to_nat (j - (i + 1)))) by lia. done.
Qed.

Lemma find_byte_None c l i : find_byte c l i = None <-> ~ c ∈ l.
Proof.
  revert i. induction l as [|x l IH]; intros i; cbn [find_byte].
  - split; [intros _; apply not_elem_of_nil | done].
  - rewrite not_elem_of_cons. destruct (Z.eqb_spec x c) as [->|]; [naive_solver|].
    rewrite IH. naive_solver.
Qed.

Lemma zlen_print_digits fuel base v acc : zlen (print_digits fuel base v acc) <= Z.of_nat fuel + zlen acc.
Proof.
  revert v acc. induction fuel as [|fuel IH]; intros v acc; cbn [print_digits]; [lia|].
  case_match.
  - rewrite zlen_cons. lia.
  - etransitivity; [apply IH|]. rewrite zlen_cons. lia.
Qed.

Lemma zlen_fmt_d z : zlen (fmt_d z) <= 11.
Proof.
  unfold fmt_d. pose proof (zlen_print_digits 10 10 z []) as H1.
  pose proof (zlen_print_digits 10 10 (- z) []) as H2. change (zlen (@nil Z)) with 0 in *.
  case_match; [rewrite zlen_cons|]; lia.
Qed.

(** Printing and parsing a number. *)
Lemma digit_of_char base d : 2 <= base <= 16 -> 0 <= d < base -> digit_of (digit_char d) = d.
Proof. intros. unfold digit_of, digit_char. zdec; simpl; lia. Qed.

Lemma digits_value_print base fuel : 2 <= base <= 16 -> forall v acc rest, 0 <= v < base ^ Z.of_nat fuel ->
  (0 < fuel)%nat ->
  digits_value base (print_digits fuel base v acc ++ rest) 0 = digits_value base (acc ++ rest) v.
Proof.
  intros Hb. induction fuel as [|fuel IH]; intros v acc rest Hv Hf; [lia|]. cbn [print_digits].
  pose proof (Z.mod_pos_bound v base ltac:(lia)) as Hm.
  assert (digits_value base ((digit_char (v mod base) :: acc) ++ rest) (v / base) =
    digits_value base (acc ++ rest) v) as Hstep.
  { cbn [app digits_value]. rewrite (digit_of_char base) by lia.
    rewrite (proj2 (Z.ltb_lt _ _)) by lia. f_equal. pose proof (Z_div_mod_eq_full v base). lia. }
  destruct (Z.eqb_spec (v / base) 0) as [H0|H0].
  - rewrite H0 in Hstep. done.
  - rewrite Nat2Z.inj_succ, Z.pow_succ_r in Hv by lia.
    assert (0 < v / base < base ^ Z.of_nat fuel).
    { pose proof (Z.div_pos v base ltac:(lia) ltac:(lia)). split; [lia|]. apply Z.div_lt_upper_bound; lia. }
    destruct fuel as [|fuel]; [simpl in *; lia|].
    rewrite IH by lia. done.
Qed.

Lemma print_digits_chars fuel base v : 2 <= base <= 10 -> 0 <= v -> forall acc, Forall (fun c => 48 <= c <= 57) acc ->
  Forall (fun c => 48 <= c <= 57) (print_digits fuel base v acc).
Proof.
  intros Hb. revert v. induction fuel as [|fuel IH]; intros v Hv acc Hacc; cbn [print_digits]; [done|].
  pose proof (Z.mod_pos_bound v base ltac:(lia)) as Hm.
  assert (Forall (fun c => 48 <= c <= 57) (digit_char (v mod base) :: acc)) by (constructor; [unfold digit_char; zdec; lia|done]).
  case_match; [done|]. apply IH; [apply Z.div_pos; lia|done].
Qed.

Lemma print_digits_nonnil fuel base v acc : acc <> [] -> print_digits fuel base v acc <> [].
Proof. revert v acc. induction fuel as [|fuel IH]; intros v acc H; cbn [print_digits]; [done|]. case_match; [done|]. by apply IH. Qed.

(** What [%u] prints, [strtol] and [strtoul] read. *)
Lemma parse_int_print fuel v : 0 <= v < 10 ^ Z.of_nat fuel -> (0 < fuel)%nat ->
  parse_int 10 (print_digits fuel 10 v []) = (false, v).
Proof.
  intros Hv Hf. pose proof (digits_value_print 10 fuel ltac:(lia) v [] [] Hv Hf) as E. rewrite app_nil_r in E.
  pose proof (print_digits_chars fuel 10 v ltac:(lia) ltac:(lia) [] (Forall_nil_2 _)) as Hc.
  unfold parse_int. assert (skip_spaces (print_digits fuel 10 v []) = print_digits fuel 10 v []) as ->.
  { destruct (print_digits fuel 10 v []) as [|c l]; [done|]. apply Forall_cons_1 in Hc as [Hc _]. cbn [skip_spaces].
    assert (isspace c = false) as -> by (unfold isspace; lia). done. }
  assert (skip_0x 10 (print_digits fuel 10 v []) = print_digits fuel 10 v []) as E0.
  { unfold skip_0x. repeat case_match; simplify_eq/=; done. }
  destruct (print_digits fuel 10 v []) as [|c l]; [by cbn in E; subst v|]. apply Forall_cons_1 in Hc as [Hc _]. rewrite <-E0 in E.
  assert (c = 48 \/ c = 49 \/ c = 50 \/ c = 51 \/ c = 52 \/ c = 53 \/ c = 54 \/ c = 55 \/ c = 56 \/ c = 57) as Hd by lia.
  clear E0. destruct_or! Hd; subst c; cbn [digits_value app] in *; cbv beta iota; by rewrite E.
Qed.

Lemma strtol_print fuel v : 0 <= v < 10 ^ Z.of_nat fuel -> v < 2 ^ 63 -> (0 < fuel)%nat -> strtol 10 (print_digits fuel 10 v []) = v.
Proof. intros Hv Hmax Hf. unfold strtol. rewrite parse_int_print by done. lia. Qed.

Lemma strtoul_print fuel v : 0 <= v < 10 ^ Z.of_nat fuel -> v < 2 ^ 63 -> (0 < fuel)%nat -> strtoul 10 (print_digits fuel 10 v []) = v.
Proof.
  intros Hv Hmax Hf. unfold strtoul. rewrite parse_int_print by done. by rewrite (proj2 (Z.ltb_ge _ _)) by lia.
Qed.
