(* ===== verification/Gate.v ===== *)
(** module/gate/module_gate.c: the gate, which accepts connections, cuts what they send
    into frames and hands each frame to a service.

    The calls into the rest of the framework (sending a message, socket commands, log
    lines, freeing a buffer) are the list of [effect]s a handler returns, in order; the
    name service and the listening socket are parameters of the functions that ask them.
    A pointer to a [struct connection] is its index in [conn].  [None] as a result is a
    failed assertion or an access outside an object. *)
From Stdlib Require Import String.
From S2P Require Import Prelude Bytes Links HashId DataBuffer CStr.

Definition PTYPE_TEXT : Z := 0.
Definition PTYPE_CLIENT : Z := 3.
Definition PTYPE_SOCKET : Z := 6.
Definition PTYPE_TAG_DONTCOPY : Z := 0x10000.
Definition BACKLOG : Z := 32.

(** [struct uboss_socket_message], the buffer as its bytes, and the bytes after it. *)
Inductive socket_type := SDATA | SCONNECT | SCLOSE | SACCEPT | SERROR | SUDP | SWARNING.

Record socket_message := SocketMessage {
  sm_type : socket_type;
  sm_id : Z;
  sm_ud : Z;
  sm_buffer : list Z;
  sm_tail : list Z
}.

Record connection := Connection {
  c_id : Z;
  c_agent : Z;
  c_client : Z;
  c_remote_name : list Z;
  c_buffer : databuffer
}.

Record gate := Gate {
  g_listen_id : Z;
  g_watchdog : Z;
  g_broker : Z;
  g_client_tag : Z;
  g_header_size : Z;
  g_max_connection : Z;
  g_hash : hashid;
  g_conn : list connection;
  g_mp : messagepool
}.

Inductive effect :=
| Send (source destination type : Z) (data : list Z)
| SocketClose (id : Z)
| SocketStart (id : Z)
| SocketSend (id : Z) (data : list Z)
| FreeBuffer (data : list Z)
| Log (text : list Z).

Definition conn_zero : connection := Connection 0 0 0 [] db_zero.
Definition conn_free : connection := Connection (-1) 0 0 [] db_zero.

(** [gate_create]. *)
Definition gate_create : gate := Gate (-1) 0 0 0 0 0 (Hashid 0 0 0 [] []) [] mp_zero.

(** [gate_release]: the sockets it closes. *)
Fixpoint release_loop (n : nat) (i : Z) (conn : list connection) : option (list effect) :=
  match n with
  | O => Some []
  | S n =>
      c ← conn.[i];
      es ← release_loop n (i + 1) conn;
      Some ((if 0 <=? c_id c then [SocketClose (c_id c)] else []) ++ es)
  end.

Definition gate_release (g : gate) : option (list effect) :=
  es ← release_loop (Z.to_nat (g_max_connection g)) 0 (g_conn g);
  Some (es ++ if 0 <=? g_listen_id g then [SocketClose (g_listen_id g)] else []).

(** ** Text commands *)

(** [_parm]: the parameters of a command are moved to the front of [msg]. *)
Fixpoint skip_blanks (fuel : nat) (msg : list Z) (sz command_sz : Z) : option Z :=
  if command_sz <? sz then
    c ← msg.[command_sz];
    if negb (c =? 32) then Some command_sz
    else match fuel with O => None | S fuel => skip_blanks fuel msg sz (command_sz + 1) end
  else Some command_sz.

Fixpoint move_down (n : nat) (msg : list Z) (i command_sz : Z) : option (list Z) :=
  match n with
  | O => Some msg
  | S n =>
      c ← msg.[i];
      msg ← msg.[i - command_sz := c];
      move_down n msg (i + 1) command_sz
  end.

Definition _parm (msg : list Z) (sz command_sz : Z) : option (list Z) :=
  command_sz ← skip_blanks (Z.to_nat sz) msg sz command_sz;
  msg ← move_down (Z.to_nat (sz - command_sz)) msg command_sz command_sz;
  msg.[Z.max sz command_sz - command_sz := 0].

Definition set_conn (g : gate) (conn : list connection) : gate :=
  Gate (g_listen_id g) (g_watchdog g) (g_broker g) (g_client_tag g) (g_header_size g)
    (g_max_connection g) (g_hash g) conn (g_mp g).

Definition set_listen (g : gate) (id : Z) : gate :=
  Gate id (g_watchdog g) (g_broker g) (g_client_tag g) (g_header_size g)
    (g_max_connection g) (g_hash g) (g_conn g) (g_mp g).

Definition set_broker (g : gate) (broker : Z) : gate :=
  Gate (g_listen_id g) (g_watchdog g) broker (g_client_tag g) (g_header_size g)
    (g_max_connection g) (g_hash g) (g_conn g) (g_mp g).

(** [_forward_agent]. *)
Definition _forward_agent (g : gate) (fd agentaddr clientaddr : Z) : option gate :=
  id ← hashid_lookup (g_hash g) fd;
  if 0 <=? id then
    agent ← (g_conn g).[id];
    conn ← (g_conn g).[id := Connection (c_id agent) agentaddr clientaddr
                               (c_remote_name agent) (c_buffer agent)];
    Some (set_conn g conn)
  else Some g.

(** The length of the command word. *)
Definition command_length (msg : list Z) : Z :=
  match find_byte 32 msg 0 with Some i => i | None => zlen msg end.

(** The parameters of [forward]: connection, agent and client. *)
Definition forward_args (tmp : list Z) : option (option (Z * Z * Z)) :=
  let idstr := 0 in
  '(tmp, client) ← strsep tmp idstr 32;
  match client with
  | None => Some None
  | Some client =>
      ids ← cstr tmp idstr;
      let id := s32 (strtol 10 ids) in
      let agent := client in
      '(tmp, client) ← strsep tmp agent 32;
      match client with
      | None => Some None
      | Some client =>
          agents ← cstr tmp (agent + 1);
          clients ← cstr tmp (client + 1);
          Some (Some (id, u32 (strtoul 16 agents), u32 (strtoul 16 clients)))
      end
  end.

(** [_ctrl]; [queryname] is [uboss_queryname]. *)
Definition _ctrl (queryname : list Z -> Z) (g : gate) (msg : list Z)
    : option (gate * list effect) :=
  let sz := zlen msg in
  let tmp := msg ++ [0] in
  if sz =? 0 then Some (g, [])
  else
    let i := command_length msg in
    let named name := memcmp tmp (literal name) (Z.to_nat i) in
    kick ← named "kick"%string;
    if kick : bool then
      tmp ← _parm tmp sz i;
      command ← cstr tmp 0;
      let uid := s32 (strtol 10 command) in
      id ← hashid_lookup (g_hash g) uid;
      Some (g, if 0 <=? id then [SocketClose uid] else [])
    else
    forward ← named "forward"%string;
    if forward : bool then
      tmp ← _parm tmp sz i;
      args ← forward_args tmp;
      match args with
      | None => Some (g, [])
      | Some (id, agent_handle, client_handle) =>
          g ← _forward_agent g id agent_handle client_handle;
          Some (g, [])
      end
    else
    broker ← named "broker"%string;
    if broker : bool then
      tmp ← _parm tmp sz i;
      command ← cstr tmp 0;
      Some (set_broker g (queryname command), [])
    else
    start ← named "start"%string;
    if start : bool then
      tmp ← _parm tmp sz i;
      command ← cstr tmp 0;
      let uid := s32 (strtol 10 command) in
      id ← hashid_lookup (g_hash g) uid;
      Some (g, if 0 <=? id then [SocketStart uid] else [])
    else
    close ← named "close"%string;
    if close : bool then
      if 0 <=? g_listen_id g
      then Some (set_listen g (-1), [SocketClose (g_listen_id g)])
      else Some (g, [])
    else
      command ← cstr tmp 0;
      Some (g, [Log (bytes_of "[gate] Unkown command : " ++ command)]).

(** ** Frames *)

(** [_report]: the text fits the 1024 bytes of the buffer. *)
Definition _report (g : gate) (text : list Z) : option (list effect) :=
  if g_watchdog g =? 0 then Some []
  else
    _ ← cassert (zlen text <? 1024);
    Some [Send 0 (g_watchdog g) PTYPE_TEXT text].

(** [_forward]: the frame of [size] bytes to the broker, the agent or the watchdog. *)
Definition _forward (g : gate) (c : connection) (mp : messagepool) (size : Z)
    : option (databuffer * messagepool * list effect) :=
  if negb (g_broker g =? 0) then
    '(temp, db, mp) ← databuffer_read (c_buffer c) mp size;
    Some (db, mp, [Send 0 (g_broker g) (Z.lor (g_client_tag g) PTYPE_TAG_DONTCOPY) temp])
  else if negb (c_agent c =? 0) then
    '(temp, db, mp) ← databuffer_read (c_buffer c) mp size;
    Some (db, mp, [Send (c_client c) (c_agent c) (Z.lor (g_client_tag g) PTYPE_TAG_DONTCOPY) temp])
  else if negb (g_watchdog g =? 0) then
    let tmp := fmt_d (c_id c) ++ bytes_of " data " in
    _ ← cassert (zlen tmp <? 32);
    '(temp, db, mp) ← databuffer_read (c_buffer c) mp size;
    Some (db, mp, [Send 0 (g_watchdog g) (Z.lor PTYPE_TEXT PTYPE_TAG_DONTCOPY) (tmp ++ temp)])
  else Some (c_buffer c, mp, []).

Definition set_buffer (c : connection) (db : databuffer) : connection :=
  Connection (c_id c) (c_agent c) (c_client c) (c_remote_name c) db.

(** The loop of [dispatch_message]. *)
Fixpoint dispatch_loop (fuel : nat) (g : gate) (c : connection) (mp : messagepool) (id : Z)
    : option (connection * messagepool * list effect) :=
  match fuel with
  | O => None
  | S fuel =>
      '(size, db, mp) ← databuffer_readheader (c_buffer c) mp (g_header_size g);
      let c := set_buffer c db in
      if size <? 0 then Some (c, mp, [])
      else if 0 <? size then
        if 0x1000000 <=? size then
          '(db, mp) ← databuffer_clear (c_buffer c) mp;
          Some (set_buffer c db, mp, [SocketClose id; Log (bytes_of "Recv socket message > 16M")])
        else
          '(db, mp, es) ← _forward g c mp size;
          let c := set_buffer c (databuffer_reset db) in
          '(c, mp, es') ← dispatch_loop fuel g c mp id;
          Some (c, mp, es ++ es')
      else dispatch_loop fuel g c mp id
  end.

(** [dispatch_message]; every turn of the loop but two reads a header of two bytes or
    more. *)
Definition dispatch_message (g : gate) (c : connection) (id : Z) (data : list Z) (sz : Z)
    : option (connection * messagepool * list effect) :=
  '(db, mp) ← databuffer_push (c_buffer c) (g_mp g) data sz;
  dispatch_loop (Z.to_nat (db_size db) + 2) g (set_buffer c db) mp id.

(** ** Socket messages *)

Definition set_conns (g : gate) (hash : hashid) (conn : list connection) (mp : messagepool)
    : gate :=
  Gate (g_listen_id g) (g_watchdog g) (g_broker g) (g_client_tag g) (g_header_size g)
    (g_max_connection g) hash conn mp.

(** [dispatch_socket_message]. *)
Definition dispatch_socket_message (g : gate) (message : socket_message)
    : option (gate * list effect) :=
  match sm_type message with
  | SDATA =>
      id ← hashid_lookup (g_hash g) (sm_id message);
      if 0 <=? id then
        c ← (g_conn g).[id];
        '(c, mp, es) ← dispatch_message g c (sm_id message) (sm_buffer message) (sm_ud message);
        conn ← (g_conn g).[id := c];
        Some (set_conns g (g_hash g) conn mp, es)
      else
        Some (g, [Log (bytes_of "Drop unknown connection " ++ fmt_d (sm_id message) ++ bytes_of " message");
                  SocketClose (sm_id message); FreeBuffer (sm_buffer message)])
  | SCONNECT =>
      if sm_id message =? g_listen_id g then Some (g, [])
      else
        id ← hashid_lookup (g_hash g) (sm_id message);
        if id <? 0 then
          Some (g, [Log (bytes_of "Close unknown connection " ++ fmt_d (sm_id message));
                    SocketClose (sm_id message)])
        else Some (g, [])
  | SCLOSE | SERROR =>
      '(id, hash) ← hashid_remove (g_hash g) (sm_id message);
      if 0 <=? id then
        c ← (g_conn g).[id];
        '(_, mp) ← databuffer_clear (c_buffer c) (g_mp g);
        conn ← (g_conn g).[id := conn_free];
        es ← _report g (fmt_d (sm_id message) ++ bytes_of " close");
        Some (set_conns g hash conn mp, es)
      else Some (set_conns g hash (g_conn g) (g_mp g), [])
  | SACCEPT =>
      _ ← cassert (g_listen_id g =? sm_id message);
      if hashid_full (g_hash g) then Some (g, [SocketClose (sm_ud message)])
      else
        '(id, hash) ← hashid_insert (g_hash g) (sm_ud message);
        c ← (g_conn g).[id];
        let name := take 31 (sm_tail message) in
        let c := Connection (sm_ud message) (c_agent c) (c_client c) name (c_buffer c) in
        conn ← (g_conn g).[id := c];
        remote_name ← until_zero (name ++ [0]);
        es ← _report g (fmt_d (c_id c) ++ bytes_of " open " ++ fmt_d (c_id c) ++ bytes_of " " ++
                        remote_name ++ bytes_of ":0");
        Some (set_conns g hash conn (g_mp g),
              es ++ [Log (bytes_of "socket open: " ++ fmt_x (c_id c))])
  | SUDP => Some (g, [])
  | SWARNING =>
      Some (g, [Log (bytes_of "fd (" ++ fmt_d (sm_id message) ++ bytes_of ") send buffer (" ++
                     fmt_d (sm_ud message) ++ bytes_of ")K")])
  end.

(** What a service receives: the type and the message. *)
Inductive gate_message :=
| TextMessage (msg : list Z)
| ClientMessage (source : Z) (msg : list Z)
| SocketEvent (message : socket_message).

(** [_cb]: the new state, whether the message is kept (the result 1) and the effects. *)
Definition _cb (queryname : list Z -> Z) (g : gate) (m : gate_message)
    : option (gate * bool * list effect) :=
  match m with
  | TextMessage msg => '(g, es) ← _ctrl queryname g msg; Some (g, false, es)
  | ClientMessage source msg =>
      let sz := zlen msg in
      if sz <=? 4 then
        Some (g, false, [Log (bytes_of "Invalid client message from " ++ fmt_x source)])
      else
        a ← msg.[sz - 4]; b ← msg.[sz - 3]; c ← msg.[sz - 2]; d ← msg.[sz - 1];
        let uid := s32 (le32 a b c d) in
        id ← hashid_lookup (g_hash g) uid;
        if 0 <=? id then Some (g, true, [SocketSend uid (take (Z.to_nat (sz - 4)) msg)])
        else Some (g, false, [Log (bytes_of "Invalid client id " ++ fmt_d uid ++
                                   bytes_of " from " ++ fmt_x source)])
  | SocketEvent message => '(g, es) ← dispatch_socket_message g message; Some (g, false, es)
  end.

(** ** Start *)

(** [start_listen]; [listen host port] is [uboss_socket_listen]. *)
Definition start_listen (listen : list Z -> Z -> Z) (g : gate) (listen_addr : list Z)
    : Z * gate * list effect :=
  let invalid := [Log (bytes_of "Invalid gate address " ++ listen_addr)] in
  let '(host, portstr) :=
    match find_byte 58 listen_addr 0 with
    | None => ([], listen_addr)
    | Some i => (take (Z.to_nat i) listen_addr, drop (Z.to_nat i + 1) listen_addr)
    end in
  let port := s32 (strtol 10 portstr) in
  if port <=? 0 then (1, g, invalid)
  else
    let g := set_listen g (listen host port) in
    if g_listen_id g <? 0 then (1, g, []) else (0, g, [SocketStart (g_listen_id g)]).

(** [sscanf(parm, "%c %s %s %d %d", ...)]: the conversions made before the first failure;
    an object whose conversion was not reached keeps its initial value. *)
Definition scan_word (l : list Z) : option (list Z * list Z) :=
  let l := skip_spaces l in
  let n := match list_find (fun c => isspace c = true) l with Some (i, _) => i | None => length l end in
  if decide (n = 0%nat) then None else Some (take n l, drop n l).

Record parm := Parm {
  p_count : Z;
  p_header : Z;
  p_watchdog : list Z;
  p_binding : list Z;
  p_client_tag : Z;
  p_max : Z
}.

Definition scan_parm (l : list Z) : parm :=
  match l with
  | [] => Parm (-1) 0 [] [] 0 0
  | header :: l =>
      match scan_word l with
      | None => Parm 1 header [] [] 0 0
      | Some (watchdog, l) =>
          match scan_word l with
          | None => Parm 2 header watchdog [] 0 0
          | Some (binding, l) =>
              match scan_int l with
              | None => Parm 3 header watchdog binding 0 0
              | Some (client_tag, l) =>
                  match scan_int l with
                  | None => Parm 4 header watchdog binding client_tag 0
                  | Some (max, _) => Parm 5 header watchdog binding client_tag max
                  end
              end
          end
      end
  end.

(** [gate_init]; a null [parm] is [None]. *)
Definition gate_init (queryname : list Z -> Z) (listen : list Z -> Z -> Z) (g : gate)
    (parm : option (list Z)) : option (Z * gate * list effect) :=
  match parm with
  | None => Some (1, g, [])
  | Some parm =>
      let p := scan_parm parm in
      if p_count p <? 4 then Some (1, g, [Log (bytes_of "Invalid gate parm " ++ parm)])
      else if p_max p <=? 0 then Some (1, g, [Log (bytes_of "Need max connection")])
      else if negb (p_header p =? 83) && negb (p_header p =? 76)
      then Some (1, g, [Log (bytes_of "Invalid data header style")])
      else
        let client_tag := if p_client_tag p =? 0 then PTYPE_CLIENT else p_client_tag p in
        w0 ← (p_watchdog p).[0];
        let watchdog := if w0 =? 33 then 0 else queryname (p_watchdog p) in
        if negb (w0 =? 33) && (watchdog =? 0)
        then Some (1, Gate (g_listen_id g) 0 (g_broker g) (g_client_tag g) (g_header_size g)
                        (g_max_connection g) (g_hash g) (g_conn g) (g_mp g),
                   [Log (bytes_of "Invalid watchdog " ++ p_watchdog p)])
        else
          hash ← hashid_init (p_max p);
          let g := Gate (g_listen_id g) watchdog (g_broker g) client_tag
                     (if p_header p =? 83 then 2 else 4) (p_max p) hash
                     (replicate (Z.to_nat (p_max p)) conn_free) (g_mp g) in
          Some (start_listen listen g (p_binding p))
  end.

(** ** Frames: what the loop cuts from a stream *)

(** [parses rd hs st fs e]: from the stream [st] the loop takes the frames [fs] and ends
    with the stream [Some st'], or gives up ([None]) at a frame of 16M; [rd] is false when
    the gate has nobody to forward to, and then the frame is not read. *)
Inductive parses (rd : bool) (hs : Z) : stream -> list (list Z) -> option stream -> Prop :=
| parses_wait st z st' : stream_header hs st = (z, st') -> z < 0 -> parses rd hs st [] (Some st')
| parses_big st z st' : stream_header hs st = (z, st') -> 0x1000000 <= z -> parses rd hs st [] None
| parses_frame st z st' fs e : stream_header hs st = (z, st') -> 0 < z < 0x1000000 ->
    parses rd hs (Stream 0 (if rd then drop (Z.to_nat z) (st_bytes st') else st_bytes st')) fs e ->
    parses rd hs st (take (Z.to_nat z) (st_bytes st') :: fs) e
| parses_empty st st' fs e : stream_header hs st = (0, st') ->
    parses rd hs st' fs e -> parses rd hs st fs e.

Lemma parses_header_eq rd hs a b fs e : stream_header hs a = stream_header hs b ->
  parses rd hs a fs e -> parses rd hs b fs e.
Proof.
  intros Heq Hp. destruct Hp as [a z st' Ha Hz|a z st' Ha Hz|a z st' fs e Ha Hz Hp|a st' fs e Ha Hp];
    rewrite Heq in Ha.
  - by eapply parses_wait.
  - by eapply parses_big.
  - by eapply parses_frame.
  - by eapply parses_empty.
Qed.

Lemma parses_det rd hs st fs e : parses rd hs st fs e ->
  forall fs' e', parses rd hs st fs' e' -> fs = fs' /\ e = e'.
Proof.
  induction 1 as [st z st' Ha Hz|st z st' Ha Hz|st z st' fs e Ha Hz Hp IH|st st' fs e Ha Hp IH];
    intros fs' e' Hp'; inversion Hp' as [? ? ? Hb|? ? ? Hb|? ? ? ? ? Hb ? Hq|? ? ? ? Hb Hq]; subst;
    rewrite Ha in Hb; simplify_eq; try lia; try done.
  - destruct (IH _ _ Hq) as [-> ->]. done.
  - exact (IH _ _ Hq).
Qed.

(** More bytes at the end do not change a complete header. *)
Lemma stream_header_app hs h s data z st' : 0 < hs -> stream_header hs (Stream h s) = (z, st') -> 0 <= z ->
  stream_header hs (Stream h (s ++ data)) = (z, Stream (st_header st') (st_bytes st' ++ data)).
Proof.
  intros Hhs. unfold stream_header. cbn [st_header st_bytes]. rewrite !zlen_app.
  pose proof (zlen_nonneg data). destruct (Z.eqb_spec h 0) as [->|Hh]; cbn [andb].
  - destruct (Z.ltb_spec (zlen s) hs); [intros [= <- _]; lia|].
    destruct (Z.ltb_spec (zlen s + zlen data) hs); [lia|]. cbn [st_header st_bytes].
    rewrite take_app_le, drop_app_le by (unfold zlen in *; lia). rewrite zlen_app.
    destruct (Z.ltb_spec (zlen (drop (Z.to_nat hs) s)) (frame_size (take (Z.to_nat hs) s) hs));
      [intros [= <- _]; lia|]. intros [= <- <-] _. cbn [st_header st_bytes].
    by rewrite (proj2 (Z.ltb_ge _ _)) by lia.
  - cbn [st_header st_bytes]. rewrite zlen_app.
    destruct (Z.ltb_spec (zlen s) h); [intros [= <- _]; lia|]. intros [= <- <-] _.
    by rewrite (proj2 (Z.ltb_ge _ _)) by lia.
Qed.

(** A header read while waiting is read again with the next bytes. *)
Lemma stream_header_wait hs h s data z h' s' : 0 < hs ->
  stream_header hs (Stream h s) = (z, Stream h' s') -> z < 0 ->
  stream_header hs (Stream h' (s' ++ data)) = stream_header hs (Stream h (s ++ data)).
Proof.
  intros Hhs. unfold stream_header at 1. cbn [st_header st_bytes].
  destruct (Z.eqb_spec h 0) as [->|Hh]; cbn [andb].
  - destruct (Z.ltb_spec (zlen s) hs); [by intros [= <- <- <-] _|]. cbn [st_header st_bytes].
    pose proof (zlen_nonneg (drop (Z.to_nat hs) s)). pose proof (zlen_nonneg data).
    intros Hcase Hz. unfold stream_header. cbn [st_header st_bytes]. rewrite (zlen_app s).
    rewrite (proj2 (Z.ltb_ge (zlen s + zlen data) hs)) by lia. cbn [Z.eqb andb st_header st_bytes].
    rewrite (take_app_le s), (drop_app_le s) by (unfold zlen in *; lia).
    assert (h' = frame_size (take (Z.to_nat hs) s) hs /\ s' = drop (Z.to_nat hs) s /\ h' <> 0)
      as (-> & -> & Hne) by (case_match; simplify_eq; zdec; repeat split; lia).
    by rewrite (proj2 (Z.eqb_neq _ 0)) by done.
  - case_match; intros [= <- <- <-] _; done.
Qed.

Lemma parses_app rd hs st fs st' data : 0 < hs -> parses rd hs st fs (Some st') ->
  forall fs' e, parses rd hs (Stream (st_header st') (st_bytes st' ++ data)) fs' e ->
  parses rd hs (Stream (st_header st) (st_bytes st ++ data)) (fs ++ fs') e.
Proof.
  intros Hhs Hp. remember (Some st') as e0 eqn:He0. revert st' He0.
  induction Hp as [[h s] z [h1 s1] Ha Hz|[h s] z st1 Ha Hz|[h s] z [h1 s1] fs e0 Ha Hz Hp IH|[h s] [h1 s1] fs e0 Ha Hp IH];
    intros st' [=] fs' e Hp'; subst; cbn [st_header st_bytes app] in *.
  - eapply parses_header_eq; [by eapply stream_header_wait | done].
  - pose proof (stream_header_app hs h s data _ _ Hhs Ha ltac:(lia)) as Ha'. cbn [st_header st_bytes] in Ha'.
    assert (z <= zlen s1) as Hzs.
    { unfold stream_header in Ha. repeat case_match; simplify_eq; zdec; try lia; try done. }
    pose proof (parses_frame rd hs _ z _ (fs ++ fs') e Ha' Hz) as Hf. cbn [st_bytes] in Hf.
    rewrite take_app_le in Hf by (unfold zlen in *; lia). apply Hf.
    replace (if rd then drop (Z.to_nat z) (s1 ++ data) else s1 ++ data)
      with ((if rd then drop (Z.to_nat z) s1 else s1) ++ data); [by eapply IH|].
    destruct rd; [|done]. by rewrite drop_app_le by (unfold zlen in *; lia).
  - pose proof (stream_header_app hs h s data _ _ Hhs Ha ltac:(lia)) as Ha'.
    eapply parses_empty; [exact Ha'|]. cbn [st_header st_bytes]. by eapply IH.
Qed.

Lemma parses_app_big rd hs st fs data : 0 < hs -> parses rd hs st fs None ->
  parses rd hs (Stream (st_header st) (st_bytes st ++ data)) fs None.
Proof.
  intros Hhs Hp. remember None as e0 eqn:He0.
  induction Hp as [[h s] z [h1 s1] Ha Hz|[h s] z st1 Ha Hz|[h s] z [h1 s1] fs e0 Ha Hz Hp IH|[h s] [h1 s1] fs e0 Ha Hp IH];
    subst; try done; cbn [st_header st_bytes] in *;
    pose proof (stream_header_app hs h s data _ _ Hhs Ha ltac:(lia)) as Ha'; cbn [st_header st_bytes] in Ha'.
  - by eapply parses_big.
  - assert (z <= zlen s1) as Hzs.
    { unfold stream_header in Ha. repeat case_match; simplify_eq; zdec; try lia; try done. }
    pose proof (parses_frame rd hs _ z _ fs None Ha' Hz) as Hf. cbn [st_bytes] in Hf.
    rewrite take_app_le in Hf by (unfold zlen in *; lia). apply Hf.
    replace (if rd then drop (Z.to_nat z) (s1 ++ data) else s1 ++ data)
      with ((if rd then drop (Z.to_nat z) s1 else s1) ++ data); [by apply IH|].
    destruct rd; [|done]. by rewrite drop_app_le by (unfold zlen in *; lia).
  - eapply parses_empty; [exact Ha'|]. by apply IH.
Qed.

(** ** The loop refines the frames of the stream *)

(** What a frame becomes. *)
Definition deliver (g : gate) (c : connection) (payload : list Z) : list effect :=
  if negb (g_broker g =? 0) then
    [Send 0 (g_broker g) (Z.lor (g_client_tag g) PTYPE_TAG_DONTCOPY) payload]
  else if negb (c_agent c =? 0) then
    [Send (c_client c) (c_agent c) (Z.lor (g_client_tag g) PTYPE_TAG_DONTCOPY) payload]
  else if negb (g_watchdog g =? 0) then
    [Send 0 (g_watchdog g) (Z.lor PTYPE_TEXT PTYPE_TAG_DONTCOPY)
       (fmt_d (c_id c) ++ bytes_of " data " ++ payload)]
  else [].

(** Somebody gets the frames of [c]. *)
Definition has_receiver (g : gate) (c : connection) : bool :=
  negb (g_broker g =? 0) || negb (c_agent c =? 0) || negb (g_watchdog g =? 0).

Lemma forward_rep g c mp l fl s size : db_rep mp (c_buffer c) l fl s -> 0 < size <= zlen s ->
  exists db' mp' l' fl', _forward g c mp size = Some (db', mp', deliver g c (take (Z.to_nat size) s)) /\
    db_rep mp' db' l' fl' (if has_receiver g c then drop (Z.to_nat size) s else s) /\
    pool_frame mp l fl mp' l' fl' /\ db_header db' = db_header (c_buffer c).
Proof.
  intros Hr Hs. pose proof (read_rep mp (c_buffer c) l fl s size Hr Hs)
    as (db' & mp' & l' & fl' & Hrd & Hr' & Hf & Hh).
  unfold _forward, deliver, has_receiver.
  destruct (g_broker g =? 0), (c_agent c =? 0), (g_watchdog g =? 0); cbn [negb orb];
    try (rewrite Hrd; cbn [mbind option_bind]; by exists db', mp', l', fl').
  - exists (c_buffer c), mp, l, fl. split; [done|]. split; [done|].
    split; [apply pool_frame_refl | done].
  - pose proof (zlen_fmt_d (c_id c)). rewrite (proj2 (Z.ltb_lt _ _)).
    + cbn [cassert mbind option_bind]. rewrite Hrd. cbn [mbind option_bind]. rewrite <-app_assoc.
      by exists db', mp', l', fl'.
    + rewrite zlen_app. change (zlen (bytes_of " data ")) with 6. lia.
Qed.

(** After the frames: the connection of a peer that sent too long a frame is closed. *)
Definition ending (id : Z) (e : option stream) : list effect :=
  match e with
  | Some _ => []
  | None => [SocketClose id; Log (bytes_of "Recv socket message > 16M")]
  end.

Definition final (e : option stream) : stream := default (Stream 0 []) e.

Lemma stream_header_bytes hs st z st' : stream_header hs st = (z, st') -> is_bytes (st_bytes st) ->
  is_bytes (st_bytes st').
Proof.
  unfold stream_header. intros Heq Hb.
  assert (is_bytes (drop (Z.to_nat hs) (st_bytes st))) by (by apply Forall_drop).
  repeat case_match; by simplify_eq.
Qed.

(** A complete frame: its length is the header, which was read from the stream or before. *)
Lemma stream_header_inv hs st z st' : 0 < hs -> stream_header hs st = (z, st') -> 0 <= z ->
  st_header st' = z /\ z <= zlen (st_bytes st') /\
  zlen (st_bytes st') = zlen (st_bytes st) - (if st_header st =? 0 then hs else 0).
Proof.
  unfold stream_header. intros Hhs. destruct (Z.eqb_spec (st_header st) 0) as [H0|H0]; cbn [andb].
  - destruct (Z.ltb_spec (zlen (st_bytes st)) hs); [intros [= <- _]; lia|]. cbn [st_header st_bytes].
    case_match; intros [= <- <-] Hz; [lia|]. cbn [st_header st_bytes]. zdec; [lia|].
    rewrite zlen_drop in * by lia. lia.
  - case_match; intros [= <- <-] Hz; zdec; lia.
Qed.

Lemma set_buffer_twice c db db' : set_buffer (set_buffer c db) db' = set_buffer c db'.
Proof. done. Qed.

Lemma dispatch_loop_spec g id : g_header_size g = 2 \/ g_header_size g = 4 ->
  forall fuel c mp l fl st, db_rep mp (c_buffer c) l fl (st_bytes st) ->
  db_header (c_buffer c) = st_header st -> is_bytes (st_bytes st) ->
  zlen (st_bytes st) + (if st_header st =? 0 then 1 else 2) <= Z.of_nat fuel ->
  exists fs e db' mp' l' fl', parses (has_receiver g c) (g_header_size g) st fs e /\
    dispatch_loop fuel g c mp id =
      Some (set_buffer c db', mp', mjoin (map (deliver g c) fs) ++ ending id e) /\
    db_rep mp' db' l' fl' (st_bytes (final e)) /\ db_header db' = st_header (final e) /\
    is_bytes (st_bytes (final e)) /\ pool_frame mp l fl mp' l' fl' /\ (e = None -> db' = db_zero).
Proof.
  intros Hhs. set (hs := g_header_size g) in *. set (rd c := has_receiver g c).
  induction fuel as [|fuel IH]; intros c mp l fl st Hr Hh Hb Hfuel.
  { pose proof (zlen_nonneg (st_bytes st)). case_match; simpl in Hfuel; lia. }
  cbn [dispatch_loop]. fold hs.
  destruct (readheader_rep mp (c_buffer c) l fl st hs Hr Hh Hb Hhs) as
    (z & st1 & db1 & mp1 & l1 & fl1 & Hst & -> & Hr1 & Hh1 & Hf1).
  cbn [mbind option_bind]. pose proof (stream_header_bytes _ _ _ _ Hst Hb) as Hb1.
  destruct (Z.ltb_spec z 0) as [Hneg|Hpos].
  { exists [], (Some st1), db1, mp1, l1, fl1. split; [by eapply parses_wait|]. done. }
  destruct (stream_header_inv hs st z st1 ltac:(lia) Hst Hpos) as (Hz & Hle & Hlen).
  destruct (Z.ltb_spec 0 z) as [Hz0|Hz0].
  - destruct (Z.leb_spec 0x1000000 z) as [Hbig|Hsmall].
    + destruct (clear_rep mp1 db1 l1 fl1 _ Hr1) as (mp2 & fl2 & Hc & Hr2 & Hf2).
      cbn [c_buffer set_buffer]. rewrite Hc. cbn [mbind option_bind].
      exists [], None, db_zero, mp2, [], fl2. split; [by eapply parses_big|]. split; [done|].
      split; [done|]. split; [done|]. split; [constructor|]. split; [by eapply pool_frame_trans | done].
    + destruct (forward_rep g (set_buffer c db1) mp1 l1 fl1 _ z Hr1 ltac:(lia))
        as (db2 & mp2 & l2 & fl2 & -> & Hr2 & Hf2 & _). cbn [mbind option_bind].
      rewrite set_buffer_twice.
      destruct (IH (set_buffer c (databuffer_reset db2)) mp2 l2 fl2
        (Stream 0 (if rd c then drop (Z.to_nat z) (st_bytes st1) else st_bytes st1)))
        as (fs & e & db3 & mp3 & l3 & fl3 & Hp & Hd & Hr3 & Hh3 & Hb3 & Hf3 & He3).
      * cbn [c_buffer set_buffer st_bytes]. apply db_rep_header. exact Hr2.
      * done.
      * cbn [st_bytes]. destruct (rd c); [by apply Forall_drop | done].
      * cbn [st_header st_bytes Z.eqb]. rewrite Nat2Z.inj_succ in Hfuel.
        assert (zlen (if rd c then drop (Z.to_nat z) (st_bytes st1) else st_bytes st1)
          <= zlen (st_bytes st1)) by (destruct (rd c); [rewrite zlen_drop by lia|]; lia).
        destruct (st_header st =? 0); lia.
      * rewrite Hd. cbn [mbind option_bind].
        exists (take (Z.to_nat z) (st_bytes st1) :: fs), e, db3, mp3, l3, fl3.
        split; [by eapply parses_frame|]. split; [|split; [done|split; [done|split; [done|]]]].
        -- rewrite set_buffer_twice. cbn [map]. rewrite mjoin_cons, <-app_assoc. done.
        -- split; [|done]. by do 2 (eapply pool_frame_trans; [done|]).
  - assert (z = 0) as -> by lia. cbn [c_buffer set_buffer].
    destruct (IH (set_buffer c db1) mp1 l1 fl1 st1)
      as (fs & e & db3 & mp3 & l3 & fl3 & Hp & Hd & Hr3 & Hh3 & Hb3 & Hf3 & He3); [done | done | done | |].
    + rewrite Hz in *. cbn [Z.eqb]. rewrite Nat2Z.inj_succ in Hfuel.
      assert (st_header st = 0) as Hst0.
      { unfold stream_header in Hst. destruct (Z.eqb_spec (st_header st) 0) as [|Hne]; [done|].
        exfalso. cbn [andb] in Hst. case_match; simplify_eq. }
      rewrite Hst0 in *. cbn [Z.eqb] in *. lia.
    + rewrite Hd. exists fs, e, db3, mp3, l3, fl3. split; [by eapply parses_empty|].
      rewrite set_buffer_twice. split; [done|]. split; [done|]. split; [done|]. split; [done|].
      split; [by eapply pool_frame_trans | done].
Qed.

(** [dispatch_message] on a connection that holds the stream [st]. *)
Lemma dispatch_message_spec g c id data l fl st : g_header_size g = 2 \/ g_header_size g = 4 ->
  db_rep (g_mp g) (c_buffer c) l fl (st_bytes st) -> db_header (c_buffer c) = st_header st ->
  is_bytes (st_bytes st) -> is_bytes data -> zlen (st_bytes st) + zlen data < 2 ^ 31 ->
  exists fs e db' mp' l' fl',
    parses (has_receiver g c) (g_header_size g) (Stream (st_header st) (st_bytes st ++ data)) fs e /\
    dispatch_message g c id data (zlen data) =
      Some (set_buffer c db', mp', mjoin (map (deliver g c) fs) ++ ending id e) /\
    db_rep mp' db' l' fl' (st_bytes (final e)) /\ db_header db' = st_header (final e) /\
    is_bytes (st_bytes (final e)) /\ pool_frame (g_mp g) l fl mp' l' fl' /\
    (e = None -> db' = db_zero).
Proof.
  intros Hhs Hr Hh Hb Hd Hmax. unfold dispatch_message.
  destruct (push_rep (g_mp g) (c_buffer c) l fl _ data Hr Hmax) as (db1 & mp1 & l1 & fl1 & -> & Hr1 & Hf1 & Hh1).
  cbn [mbind option_bind].
  destruct (dispatch_loop_spec g id Hhs (Z.to_nat (db_size db1) + 2) (set_buffer c db1) mp1 l1 fl1
    (Stream (st_header st) (st_bytes st ++ data)))
    as (fs & e & db' & mp' & l' & fl' & Hp & Hl & Hr' & Hh' & Hb' & Hf' & He'); cbn [st_header st_bytes].
  - done.
  - cbn [c_buffer set_buffer]. congruence.
  - by apply Forall_app.
  - rewrite (dr_size _ _ _ _ _ Hr1). pose proof (zlen_nonneg (st_bytes st ++ data)).
    case_match; lia.
  - exists fs, e, db', mp', l', fl'. split; [exact Hp|]. split; [exact Hl|].
    split; [done|]. split; [done|]. split; [done|]. split; [by eapply pool_frame_trans | done].
Qed.

(** ** Fragmentation *)

(** A frame as the peer sends it. *)
Definition frame (hs : Z) (payload : list Z) : list Z :=
  (if hs =? 2 then [zlen payload / 256; zlen payload mod 256] else put_be32 (zlen payload)) ++ payload.

Definition payload_ok (hs : Z) (payload : list Z) : Prop :=
  is_bytes payload /\ 0 < zlen payload < (if hs =? 2 then 65536 else 0x1000000).

(** A frame that has not arrived completely. *)
Definition incomplete (hs : Z) (rest : list Z) : Prop :=
  exists payload, payload_ok hs payload /\ rest `prefix_of` frame hs payload /\ rest <> frame hs payload.

(** Data messages of one connection, one after the other. *)
Fixpoint feed (g : gate) (c : connection) (id : Z) (chunks : list (list Z))
    : option (connection * gate * list effect) :=
  match chunks with
  | [] => Some (c, g, [])
  | data :: chunks =>
      '(c, mp, es) ← dispatch_message g c id data (zlen data);
      '(c, g, es') ← feed (set_conns g (g_hash g) (g_conn g) mp) c id chunks;
      Some (c, g, es ++ es')
  end.

Lemma parses_total rd hs : 0 < hs -> forall n st,
  zlen (st_bytes st) + (if st_header st =? 0 then 1 else 2) <= Z.of_nat n ->
  exists fs e, parses rd hs st fs e.
Proof.
  intros Hhs. induction n as [|n IH]; intros st Hn.
  { pose proof (zlen_nonneg (st_bytes st)). case_match; simpl in Hn; lia. }
  destruct (stream_header hs st) as [z st1] eqn:Hst.
  destruct (Z.ltb_spec z 0) as [Hneg|Hpos]; [by exists [], (Some st1); eapply parses_wait|].
  destruct (stream_header_inv hs st z st1 Hhs Hst Hpos) as (Hz & Hle & Hlen).
  rewrite Nat2Z.inj_succ in Hn.
  destruct (Z.ltb_spec 0 z) as [Hz0|Hz0].
  - destruct (Z.leb_spec 0x1000000 z); [by exists [], None; eapply parses_big|].
    set (s1 := if rd then drop (Z.to_nat z) (st_bytes st1) else st_bytes st1).
    destruct (IH (Stream 0 s1)) as (fs & e & Hp).
    + cbn [st_header st_bytes Z.eqb].
      assert (zlen s1 <= zlen (st_bytes st1)) by (unfold s1; destruct rd; [rewrite zlen_drop by lia|]; lia).
      destruct (st_header st =? 0); lia.
    + exists (take (Z.to_nat z) (st_bytes st1) :: fs), e. by eapply parses_frame.
  - assert (z = 0) as -> by lia. destruct (IH st1) as (fs & e & Hp); [|exists fs, e; by eapply parses_empty].
    rewrite Hz. cbn [Z.eqb]. unfold stream_header in Hst.
    destruct (Z.eqb_spec (st_header st) 0); [lia|]. cbn [andb] in Hst. case_match; simplify_eq.
Qed.

(** Waiting for bytes, the stream is a part of a header or of a frame, or its header is
    negative; reading again changes nothing. *)
Lemma parses_final rd hs st fs st' : 0 < hs -> parses rd hs st fs (Some st') ->
  ((st_header st' = 0 /\ zlen (st_bytes st') < hs) \/ zlen (st_bytes st') < st_header st' \/
   st_header st' < 0) /\ parses rd hs st' [] (Some st').
Proof.
  intros Hhs Hp. remember (Some st') as e eqn:He.
  induction Hp as [[h s] z [h1 s1] Ha Hz|st z st1 Ha Hz|st z st1 fs e Ha Hz Hp IH|st st1 fs e Ha Hp IH];
    simplify_eq; [|by apply IH|by apply IH]. cbn [st_header st_bytes]. split.
  - unfold stream_header in Ha. cbn [st_header st_bytes] in Ha.
    destruct (Z.eqb_spec h 0) as [->|Hh]; cbn [andb] in Ha.
    + destruct (Z.ltb_spec (zlen s) hs); [simplify_eq; by left|]. cbn [st_header st_bytes] in Ha.
      case_match; simplify_eq; zdec; try done; tauto.
    + cbn [st_header st_bytes] in Ha. case_match; simplify_eq; zdec; try done; tauto.
  - apply (parses_wait _ _ _ z); [|done].
    pose proof (stream_header_wait hs h s [] z h1 s1 Hhs Ha Hz) as Hw. by rewrite !app_nil_r, Ha in Hw.
Qed.

Lemma parses_header_bound rd hs st fs st' : 0 < hs -> parses rd hs st fs (Some st') ->
  0 <= st_header st' < 0x1000000 -> 0 <= st_header st < 0x1000000.
Proof.
  intros Hhs Hp Hb. inversion Hp as [? z ? Ha Hz| |? z st1 ? ? Ha Hz|? st1 ? ? Ha]; subst;
    (destruct (Z.eqb_spec (st_header st) 0) as [->|Hne]; [lia|]); unfold stream_header in Ha;
    rewrite (proj2 (Z.eqb_neq _ _) Hne) in Ha; cbn [andb] in Ha;
    destruct (zlen (st_bytes st) <? st_header st); simplify_eq; lia.
Qed.

Lemma feed_spec id chunks : forall g c l fl st fs fin,
  g_header_size g = 2 \/ g_header_size g = 4 ->
  db_rep (g_mp g) (c_buffer c) l fl (st_bytes st) -> db_header (c_buffer c) = st_header st ->
  is_bytes (st_bytes st) -> zlen (st_bytes st) < 2 ^ 24 ->
  parses (has_receiver g c) (g_header_size g) st [] (Some st) ->
  Forall (fun data => is_bytes data /\ zlen data < 2 ^ 30) chunks ->
  parses (has_receiver g c) (g_header_size g)
    (Stream (st_header st) (st_bytes st ++ mjoin chunks)) fs (Some fin) ->
  0 <= st_header fin < 0x1000000 ->
  exists c' g' l' fl', feed g c id chunks = Some (c', g', mjoin (map (deliver g c) fs)) /\
    db_rep (g_mp g') (c_buffer c') l' fl' (st_bytes fin) /\ db_header (c_buffer c') = st_header fin.
Proof.
  induction chunks as [|data chunks IH]; intros g c l fl st fs fin Hhs Hr Hh Hb Hlen Hst Hch Hp Hfin;
    cbn [feed]; assert (0 < g_header_size g) as Hpos by lia.
  - cbn in Hp. rewrite app_nil_r in Hp. destruct st as [h s]. cbn [st_header st_bytes] in *.
    destruct (parses_det _ _ _ _ _ Hst _ _ Hp) as [<- [= <-]]. by exists c, g, l, fl.
  - apply Forall_cons in Hch as [[Hdb Hdl] Hch]. rewrite mjoin_cons, app_assoc in Hp.
    destruct (dispatch_message_spec g c id data l fl st Hhs Hr Hh Hb Hdb ltac:(lia))
      as (fs1 & e1 & db1 & mp1 & l1 & fl1 & Hp1 & -> & Hr1 & Hh1 & Hb1 & _).
    cbn [mbind option_bind].
    destruct e1 as [st1|].
    2:{ apply (parses_app_big _ _ _ _ (mjoin chunks)) in Hp1; [|done].
        cbn [st_header st_bytes] in Hp1. by destruct (parses_det _ _ _ _ _ Hp1 _ _ Hp) as [_ [=]]. }
    cbn [final default] in Hr1, Hh1, Hb1.
    destruct (parses_total (has_receiver g c) (g_header_size g) ltac:(lia) (Z.to_nat
      (zlen (st_bytes st1 ++ mjoin chunks) + 2)) (Stream (st_header st1) (st_bytes st1 ++ mjoin chunks)))
      as (fs2 & e2 & Hp2).
    { cbn [st_header st_bytes]. pose proof (zlen_nonneg (st_bytes st1 ++ mjoin chunks)). case_match; lia. }
    pose proof (parses_app _ _ _ _ _ (mjoin chunks) Hpos Hp1 _ _ Hp2) as Hall.
    cbn [st_header st_bytes] in Hall.
    destruct (parses_det _ _ _ _ _ Hall _ _ Hp) as [<- ->].
    destruct (parses_final _ _ _ _ _ Hpos Hp1) as [Hcase Hstable].
    pose proof (parses_header_bound _ _ _ _ _ Hpos Hp2 Hfin) as Hhb. cbn [st_header] in Hhb.
    destruct (IH (set_conns g (g_hash g) (g_conn g) mp1) (set_buffer c db1) l1 fl1 st1 fs2 fin)
      as (c' & g' & l' & fl' & -> & Hr' & Hh'); try done.
    { change (2 ^ 24) with 0x1000000. lia. }
    cbn [mbind option_bind]. exists c', g', l', fl'. split; [|done].
    rewrite map_app, join_app. cbn [ending]. rewrite app_nil_r. done.
Qed.

(** ** Streams of frames *)

Lemma zlen_frame hs p : hs = 2 \/ hs = 4 -> zlen (frame hs p) = hs + zlen p.
Proof. intros [-> | ->]; unfold frame; cbn [Z.eqb Pos.eqb]; by rewrite zlen_app. Qed.

Lemma frame_bytes hs p : payload_ok hs p -> hs = 2 \/ hs = 4 -> is_bytes (frame hs p).
Proof.
  intros [Hb Hl] Hhs. unfold frame. apply Forall_app. split; [|done].
  destruct Hhs as [-> | ->]; cbn [Z.eqb Pos.eqb] in *.
  - repeat (apply Forall_cons; split); try exact (Forall_nil_2 _); unfold is_u8; Z.div_mod_to_equations; lia.
  - repeat (apply Forall_cons; split); try exact (Forall_nil_2 _); apply Z.mod_pos_bound; lia.
Qed.

Lemma frame_size_frame hs p rest : payload_ok hs p -> hs = 2 \/ hs = 4 ->
  frame_size (take (Z.to_nat hs) (frame hs p ++ rest)) hs = zlen p /\
  drop (Z.to_nat hs) (frame hs p ++ rest) = p ++ rest.
Proof.
  intros [Hb Hl] [-> | ->]; unfold frame; cbn [Z.eqb Pos.eqb] in *.
  - change (Z.to_nat 2) with 2%nat. cbn [app take drop frame_size]. split; [|done].
    rewrite take_0. pose proof (Z_div_mod_eq_full (zlen p) 256). lia.
  - change (Z.to_nat 4) with 4%nat. unfold put_be32. cbn [app take drop frame_size]. split; [|done].
    rewrite take_0. unfold u8. rewrite !Z.shiftr_div_pow2 by lia.
    rewrite s32_small by (unfold is_s32; Z.div_mod_to_equations; lia).
    Z.div_mod_to_equations; lia.
Qed.

(** A complete frame is cut off. *)
Lemma parses_frame_app hs p rest fs e : hs = 2 \/ hs = 4 -> payload_ok hs p ->
  parses true hs (Stream 0 rest) fs e -> parses true hs (Stream 0 (frame hs p ++ rest)) (p :: fs) e.
Proof.
  intros Hhs Hok Hp. destruct (frame_size_frame hs p rest Hok Hhs) as [Hs Hd].
  assert (stream_header hs (Stream 0 (frame hs p ++ rest)) = (zlen p, Stream (zlen p) (p ++ rest))) as Hst.
  { unfold stream_header. cbn [st_header st_bytes Z.eqb andb]. pose proof (zlen_nonneg rest).
    pose proof (zlen_nonneg p). rewrite zlen_app, zlen_frame by done.
    rewrite (proj2 (Z.ltb_ge _ _)) by lia. rewrite Hs, Hd. cbn [st_header st_bytes].
    rewrite zlen_app. by rewrite (proj2 (Z.ltb_ge _ _)) by lia. }
  assert (take (Z.to_nat (zlen p)) (p ++ rest) = p) as Ht by (apply take_app_length'; unfold zlen; lia).
  assert (drop (Z.to_nat (zlen p)) (p ++ rest) = rest) as Hdr by (apply drop_app_length'; unfold zlen; lia).
  rewrite <-Ht at 2. change (p ++ rest) with (st_bytes (Stream (zlen p) (p ++ rest))).
  eapply parses_frame; [exact Hst | | cbn [st_bytes]; by rewrite Hdr].
  destruct Hok as [_ Hl]. destruct Hhs as [-> | ->]; cbn [Z.eqb Pos.eqb] in Hl; lia.
Qed.

Lemma parses_frames hs payloads rest fs e : hs = 2 \/ hs = 4 -> Forall (payload_ok hs) payloads ->
  parses true hs (Stream 0 rest) fs e ->
  parses true hs (Stream 0 (mjoin (map (frame hs) payloads) ++ rest)) (payloads ++ fs) e.
Proof.
  intros Hhs. induction 1 as [|p ps Hok _ IH]; intros Hp; [done|].
  cbn [map]. rewrite mjoin_cons, <-app_assoc. cbn [app]. apply parses_frame_app; [done..|]. by apply IH.
Qed.

(** A part of a frame is kept. *)
Lemma parses_incomplete hs rest : hs = 2 \/ hs = 4 -> incomplete hs rest ->
  exists fin, parses true hs (Stream 0 rest) [] (Some fin) /\ 0 <= st_header fin < 0x1000000.
Proof.
  intros Hhs (p & Hok & [k Hk] & Hne). destruct (Z.ltb_spec (zlen rest) hs) as [Hlt|Hge].
  - exists (Stream 0 rest). split; [|done]. apply (parses_wait _ _ _ (-1)); [|lia].
    unfold stream_header. cbn [st_header st_bytes Z.eqb andb]. by rewrite (proj2 (Z.ltb_lt _ _)) by lia.
  - destruct (frame_size_frame hs p [] Hok Hhs) as [Hs Hd]. rewrite app_nil_r in Hs, Hd.
    rewrite Hk, take_app_le in Hs by (unfold zlen in *; lia).
    pose proof (zlen_frame hs p Hhs) as Hl. rewrite Hk, zlen_app in Hl.
    assert (0 < zlen k).
    { destruct k; [|rewrite zlen_cons; pose proof (zlen_nonneg k); lia].
      rewrite app_nil_r in Hk. by rewrite Hk in Hne. }
    destruct Hok as [_ Hpl].
    exists (Stream (zlen p) (drop (Z.to_nat hs) rest)). split.
    + apply (parses_wait _ _ _ (-1)); [|lia]. unfold stream_header. cbn [st_header st_bytes Z.eqb andb].
      rewrite (proj2 (Z.ltb_ge _ _)) by lia. rewrite Hs. cbn [st_header st_bytes].
      rewrite zlen_drop by lia. by rewrite (proj2 (Z.ltb_lt _ _)) by lia.
    + cbn [st_header]. destruct Hhs as [-> | ->]; cbn [Z.eqb Pos.eqb] in Hpl; lia.
Qed.

(** C24: however the bytes of a connection are fragmented, the gate forwards exactly the
    frames the peer sent, each once, whole and in order, to the broker, the agent of the
    connection or the watchdog; the part of a frame at the end stays in the buffer.  The
    frames are below 16M (64K with two-byte headers) and not empty. *)
Theorem gate_reassembles (g : gate) (c : connection) (id : Z) (l fl : list Z)
    (payloads chunks : list (list Z)) (rest : list Z) :
  g_header_size g = 2 \/ g_header_size g = 4 ->
  db_rep (g_mp g) (c_buffer c) l fl [] -> db_header (c_buffer c) = 0 -> has_receiver g c = true ->
  Forall (payload_ok (g_header_size g)) payloads -> incomplete (g_header_size g) rest ->
  mjoin chunks = mjoin (map (frame (g_header_size g)) payloads) ++ rest ->
  Forall (fun data => is_bytes data /\ zlen data < 2 ^ 30) chunks ->
  exists c' g', feed g c id chunks = Some (c', g', mjoin (map (deliver g c) payloads)).
Proof.
  intros Hhs Hr Hh Hrd Hok Hinc Heq Hch.
  destruct (parses_incomplete _ _ Hhs Hinc) as (fin & Hp & Hfin).
  pose proof (parses_frames _ _ _ _ _ Hhs Hok Hp) as Hall. rewrite app_nil_r in Hall.
  destruct (feed_spec id chunks g c l fl (Stream 0 []) payloads fin Hhs Hr Hh)
    as (c' & g' & l' & fl' & Hf & _); cbn [st_header st_bytes app]; try done.
  - constructor.
  - rewrite Hrd. apply (parses_wait _ _ _ (-1)); [|lia]. unfold stream_header.
    cbn [st_header st_bytes Z.eqb andb]. change (zlen []) with 0. by rewrite (proj2 (Z.ltb_lt _ _)) by lia.
  - by rewrite Heq, Hrd.
  - by exists c', g'.
Qed.

Lemma gate_reassembles_witness : exists c' g',
  feed (Gate 1 7 0 3 2 4 (Hashid 0 0 0 [] []) [] mp_zero) (Connection 5 42 9 [] db_zero) 5
    [[0]; [2; 104]; [105; 0; 1]; [33; 0]] =
  Some (c', g', [Send 9 42 65539 [104; 105]; Send 9 42 65539 [33]]).
Proof.
  set (g := Gate 1 7 0 3 2 4 (Hashid 0 0 0 [] []) [] mp_zero).
  set (c := Connection 5 42 9 [] db_zero).
  destruct (gate_reassembles g c 5 [] [] [[104; 105]; [33]] [[0]; [2; 104]; [105; 0; 1]; [33; 0]] [0])
    as (c' & g' & Hf).
  - left; reflexivity.
  - apply db_rep_zero. split; [reflexivity | constructor].
  - reflexivity.
  - reflexivity.
  - repeat (apply Forall_cons; split); try exact (Forall_nil_2 _);
      (split; [apply (bool_decide_unpack _); vm_compute; exact I | split; reflexivity]).
  - exists [33]. split; [split; [apply (bool_decide_unpack _); vm_compute; exact I | split; reflexivity]|].
    split; [exists [1; 33]; reflexivity | discriminate].
  - reflexivity.
  - repeat (apply Forall_cons; split); try exact (Forall_nil_2 _);
      (split; [apply (bool_decide_unpack _); vm_compute; exact I | reflexivity]).
  - exists c', g'. exact Hf.
Defined.

(** ** Text commands are safe *)

(** The buffer of a command: [sz] bytes and a zero at the end. *)
Definition text_buf (buf : list Z) (sz : Z) : Prop := zlen buf = sz + 1 /\ buf.[sz] = Some 0.

Lemma text_buf_aset buf sz i c buf' : text_buf buf sz -> buf.[i := c] = Some buf' -> i < sz \/ c = 0 ->
  text_buf buf' sz.
Proof.
  intros [Hl Hz] Hs Hi. split; [by rewrite (zlen_aset _ _ _ _ Hs)|].
  rewrite (aget_aset _ _ _ _ _ Hs). case_decide; [destruct Hi; [lia | by subst] | done].
Qed.

Lemma text_buf_cstr buf sz p : text_buf buf sz -> 0 <= p <= sz -> exists s, cstr buf p = Some s.
Proof. intros [_ Hz] Hp. by apply (cstr_is_Some buf p sz). Qed.

Lemma skip_blanks_spec fuel msg sz : text_buf msg sz -> forall i, 0 <= i <= sz -> sz - i <= Z.of_nat fuel ->
  exists j, skip_blanks fuel msg sz i = Some j /\ i <= j <= sz.
Proof.
  intros [Hl _]. induction fuel as [|fuel IH]; intros i Hi Hf; cbn [skip_blanks];
    (destruct (Z.ltb_spec i sz); [|exists i; split; [done | lia]]);
    (destruct (aget_is_Some msg i) as [c ->]; [lia|]); cbn [mbind option_bind];
    (destruct (negb (c =? 32)); [exists i; split; [done | lia]|]); [lia|].
  destruct (IH (i + 1)) as (j & -> & Hj); [lia | lia |]. exists j. split; [done | lia].
Qed.

Lemma move_down_spec n : forall msg sz i cs, text_buf msg sz -> 0 <= cs -> cs <= i -> i + Z.of_nat n <= sz ->
  exists msg', move_down n msg i cs = Some msg' /\ text_buf msg' sz.
Proof.
  induction n as [|n IH]; intros msg sz i cs Ht Hcs Hi Hn; cbn [move_down]; [by eexists|].
  pose proof Ht as [Hl _]. destruct (aget_is_Some msg i) as [c ->]; [lia|]. cbn [mbind option_bind].
  pose proof (aset_Some msg (i - cs) c ltac:(lia)) as Hs. rewrite Hs. cbn [mbind option_bind].
  apply IH; try lia. eapply text_buf_aset; [done | done |]. left. lia.
Qed.

(** The parameters end before the last cell when a command word was removed. *)
Lemma parm_spec msg sz i : text_buf msg sz -> 0 <= i <= sz ->
  exists msg' k, _parm msg sz i = Some msg' /\ text_buf msg' sz /\ 0 <= k <= sz - i /\ msg'.[k] = Some 0.
Proof.
  intros Ht Hi. unfold _parm.
  destruct (skip_blanks_spec (Z.to_nat sz) msg sz Ht i Hi ltac:(lia)) as (j & -> & Hj).
  cbn [mbind option_bind].
  destruct (move_down_spec (Z.to_nat (sz - j)) msg sz j j Ht) as (msg1 & -> & Ht1); [lia..|].
  cbn [mbind option_bind]. pose proof Ht1 as [Hl _].
  pose proof (aset_Some msg1 (Z.max sz j - j) 0 ltac:(lia)) as Hs. rewrite Hs.
  eexists _, (Z.max sz j - j). split; [done|].
  split; [eapply text_buf_aset; [done | done | by right]|]. split; [lia|].
  by rewrite (aget_aset _ _ _ _ _ Hs), decide_True.
Qed.

(** [strsep] finds a blank inside the string, so the next pointer is not behind its end. *)
Lemma strsep_spec buf sz p k : text_buf buf sz -> 0 <= p <= k -> k <= sz -> buf.[k] = Some 0 ->
  exists buf' next, strsep buf p 32 = Some (buf', next) /\ text_buf buf' sz /\ buf'.[k] = Some 0 /\
    match next with Some q => p < q <= k | None => True end.
Proof.
  intros Ht Hp Hk Hz. unfold strsep. destruct (cstr_is_Some buf p k Hp Hz) as [s Hs]. rewrite Hs.
  cbn [mbind option_bind]. destruct (find_byte 32 s p) as [i|] eqn:Hf; [|by exists buf, None].
  apply find_byte_Some in Hf as [Hi Hl]. pose proof Ht as [Hlen _].
  assert (i < k) as Hik.
  { unfold cstr in Hs. destruct (_ && _) in Hs; [|done]. apply until_zero_Some in Hs as (l' & Heq & Hno).
    destruct (Z.lt_ge_cases i k) as [|Hge]; [done|]. exfalso. apply Hno.
    unfold aget in Hz. rewrite decide_True in Hz by lia.
    replace (Z.to_nat k) with (Z.to_nat p + Z.to_nat (k - p))%nat in Hz by lia.
    rewrite <-lookup_drop, Heq, lookup_app_l in Hz by (unfold zlen in Hi; lia).
    by eapply list_elem_of_lookup_2. }
  pose proof (aset_Some buf i 0 ltac:(lia)) as Hset. rewrite Hset. cbn [mbind option_bind].
  exists (<[Z.to_nat i := 0]> buf), (Some (i + 1)). split; [done|].
  split; [by eapply text_buf_aset; [exact Ht | exact Hset | right]|]. split; [|lia].
  rewrite (aget_aset _ _ _ _ _ Hset). by rewrite decide_False by lia.
Qed.

(** The pointers [agent + 1] and [client + 1] stay inside the buffer, because the command
    word was removed from it. *)
Lemma forward_args_spec tmp sz k : text_buf tmp sz -> 0 <= k < sz -> tmp.[k] = Some 0 ->
  exists args, forward_args tmp = Some args.
Proof.
  intros Ht Hk Hz. unfold forward_args.
  destruct (strsep_spec tmp sz 0 k Ht ltac:(lia) ltac:(lia) Hz) as (tmp1 & next & -> & Ht1 & Hz1 & Hq).
  cbn [mbind option_bind]. destruct next as [q|]; [|by eexists].
  destruct (text_buf_cstr tmp1 sz 0 Ht1 ltac:(lia)) as [ids ->]. cbn [mbind option_bind].
  destruct (strsep_spec tmp1 sz q k Ht1 ltac:(lia) ltac:(lia) Hz1) as (tmp2 & next2 & -> & Ht2 & Hz2 & Hq2).
  cbn [mbind option_bind]. destruct next2 as [q2|]; [|by eexists].
  destruct (text_buf_cstr tmp2 sz (q + 1) Ht2 ltac:(lia)) as [agents ->]. cbn [mbind option_bind].
  destruct (text_buf_cstr tmp2 sz (q2 + 1) Ht2 ltac:(lia)) as [clients ->]. by eexists.
Qed.

(** Comparing with a literal stops at its zero. *)
Lemma memcmp_literal a b n : Forall (fun c => c <> 0) (take n a) -> (n <= length a)%nat ->
  exists r, memcmp a (b ++ [0]) n = Some r.
Proof.
  revert a b. induction n as [|n IH]; intros a b Ha Hn; cbn [memcmp]; [by eexists|].
  destruct a as [|x a]; [simpl in Hn; lia|]. cbn [take] in Ha. apply Forall_cons in Ha as [Hx Ha].
  destruct b as [|y b]; cbn [app].
  - rewrite (proj2 (Z.eqb_neq x 0)) by done. by eexists.
  - destruct (x =? y); [|by eexists]. apply IH; [done | simpl in Hn; lia].
Qed.

Lemma command_length_bound msg : 0 <= command_length msg <= zlen msg.
Proof.
  unfold command_length. destruct (find_byte 32 msg 0) eqn:Hf.
  - apply find_byte_Some in Hf as [? _]. lia.
  - pose proof (zlen_nonneg msg). lia.
Qed.

(** ** The invariant of the gate *)

(** The connections: a slot in use has its socket's id and the bytes of its peer, a free
    slot is zero; every buffer has its own nodes of the message pool. *)
Record gate_ok (g : gate) (m : gmap Z Z) (own : Z -> list Z) (fl : list Z) (str : Z -> stream)
    : Prop := {
  go_hash : hashid_rep (g_hash g) m;
  go_cap : hi_cap (g_hash g) = zlen (g_conn g) /\ g_max_connection g = zlen (g_conn g);
  go_header : g_header_size g = 2 \/ g_header_size g = 4;
  go_live : forall id i, m !! id = Some i -> 0 <= id /\ exists c, (g_conn g).[i] = Some c /\ c_id c = id;
  go_free : forall i c, (g_conn g).[i] = Some c -> (forall id, m !! id <> Some i) -> c = conn_free;
  go_buf : forall i c, (g_conn g).[i] = Some c ->
    db_rep (g_mp g) (c_buffer c) (own i) fl (st_bytes (str i)) /\
    db_header (c_buffer c) = st_header (str i) /\ is_bytes (st_bytes (str i));
  go_own : forall i j x, 0 <= i < zlen (g_conn g) -> 0 <= j < zlen (g_conn g) -> i <> j ->
    x ∈ own i -> ~ x ∈ own j
}.

Definition gate_inv (g : gate) (m : gmap Z Z) : Prop := exists own fl str, gate_ok g m own fl str.

(** One connection changes, in its identity or in its buffer. *)
Lemma gate_ok_update g m own fl str i c c' mp' l' fl' st' hash' m' : gate_ok g m own fl str ->
  (g_conn g).[i] = Some c -> db_rep mp' (c_buffer c') l' fl' (st_bytes st') ->
  db_header (c_buffer c') = st_header st' -> is_bytes (st_bytes st') ->
  pool_frame (g_mp g) (own i) fl mp' l' fl' ->
  hashid_rep hash' m' -> hi_cap hash' = hi_cap (g_hash g) ->
  (forall id j, m' !! id = Some j -> if decide (j = i) then c_id c' = id /\ 0 <= id else m !! id = Some j) ->
  (forall j, j <> i -> (forall id, m' !! id <> Some j) -> forall id, m !! id <> Some j) ->
  ((forall id, m' !! id <> Some i) -> c' = conn_free) ->
  exists conn, (g_conn g).[i := c'] = Some conn /\ gate_inv (set_conns g hash' conn mp') m'.
Proof.
  intros Hg Hc Hr' Hh' Hb' Hf Hhash Hcap Hlive Hfree Hi. pose proof (aget_lt_Some _ _ _ Hc) as Hib.
  pose proof (aset_Some (g_conn g) i c' Hib) as Hset. eexists. split; [exact Hset|].
  pose proof Hg as [_ [Hcap1 Hcap2] Hhs Hl Hfr Hbuf Hown].
  pose proof (zlen_aset _ _ _ _ Hset) as Hlen. set (conn := <[Z.to_nat i := c']> (g_conn g)) in *.
  assert (forall j d, (g_conn g).[j] = Some d -> j <> i ->
    db_rep mp' (c_buffer d) (own j) fl' (st_bytes (str j)) /\ (forall x, x ∈ own j -> ~ x ∈ l')) as Hothers.
  { intros j d Hd Hj. pose proof (aget_lt_Some _ _ _ Hd) as Hjb.
    destruct (Hbuf j d Hd) as (Hrd & _). eapply db_rep_frame; [done | | done | by apply Hr'].
    intros x Hx. by apply (Hown j i x Hjb Hib Hj). }
  exists (fun j => if decide (j = i) then l' else own j), fl', (fun j => if decide (j = i) then st' else str j).
  split; cbn [g_hash g_conn g_max_connection g_header_size g_mp set_conns].
  - done.
  - by rewrite Hlen, Hcap.
  - done.
  - intros id j Hj. apply Hlive in Hj. rewrite (aget_aset _ _ _ _ _ Hset).
    destruct (decide (j = i)) as [->|Hne].
    + rewrite decide_True by done. destruct Hj. by eauto.
    + rewrite decide_False by congruence. by apply Hl.
  - intros j d Hd Hno. rewrite (aget_aset _ _ _ _ _ Hset) in Hd. case_decide as Hji.
    + subst j. injection Hd as <-. by apply Hi.
    + apply (Hfr j d Hd). apply Hfree; [congruence | done].
  - intros j d Hd. rewrite (aget_aset _ _ _ _ _ Hset) in Hd. destruct (decide (j = i)) as [->|Hne].
    + rewrite decide_True in Hd by done. by injection Hd as <-.
    + rewrite decide_False in Hd by congruence. destruct (Hbuf j d Hd) as (_ & ? & ?).
      split; [by apply Hothers | done].
  - rewrite Hlen. intros j k x Hj Hk Hjk.
    assert (forall j, 0 <= j < zlen (g_conn g) -> j <> i -> forall x, x ∈ own j -> ~ x ∈ l') as Ho.
    { intros j' Hj' Hne. destruct (aget_is_Some _ _ Hj') as [d Hd]. by apply (Hothers j' d Hd). }
    repeat case_decide; subst; try done.
    + intros Hx Hx'. by eapply Ho.
    + by apply Ho.
    + by apply Hown.
Qed.

(** The same connections in a gate that listens elsewhere or has another broker. *)
Lemma gate_inv_ext g g' m : gate_inv g m -> g_hash g' = g_hash g -> g_conn g' = g_conn g ->
  g_mp g' = g_mp g -> g_max_connection g' = g_max_connection g -> g_header_size g' = g_header_size g ->
  gate_inv g' m.
Proof.
  intros (own & fl & str & [H1 H2 H3 H4 H5 H6 H7]) Eh Ec Em Emax Ehs. exists own, fl, str.
  split; rewrite ?Eh, ?Ec, ?Em, ?Emax, ?Ehs; done.
Qed.

Lemma gate_lookup g m id : gate_inv g m ->
  hashid_lookup (g_hash g) id = Some (default (-1) (m !! id)).
Proof. intros (own & fl & str & [Hh _ _ _ _ _ _]). by apply lookup_rep. Qed.

Lemma gate_slot g m id i : gate_inv g m -> m !! id = Some i ->
  0 <= i /\ 0 <= id /\ exists c, (g_conn g).[i] = Some c /\ c_id c = id.
Proof.
  intros (own & fl & str & Hg) Hi. destruct (go_live _ _ _ _ _ Hg _ _ Hi) as (Hid & c & Hc & Hcid).
  split; [apply aget_lt_Some in Hc; lia|]. split; [done|]. by exists c.
Qed.

(** A change of a connection in use that keeps its identity. *)
Lemma gate_conn_update g m own fl str id i c c' mp' l' fl' st' : gate_ok g m own fl str ->
  m !! id = Some i -> (g_conn g).[i] = Some c -> c_id c' = c_id c ->
  db_rep mp' (c_buffer c') l' fl' (st_bytes st') -> db_header (c_buffer c') = st_header st' ->
  is_bytes (st_bytes st') -> pool_frame (g_mp g) (own i) fl mp' l' fl' ->
  exists conn, (g_conn g).[i := c'] = Some conn /\ gate_inv (set_conns g (g_hash g) conn mp') m.
Proof.
  intros Hg Hi Hc Hid Hr Hh Hb Hf.
  destruct (go_live _ _ _ _ _ Hg _ _ Hi) as (Hid0 & d & Hd & Hdid). assert (d = c) as -> by congruence.
  eapply (gate_ok_update g m own fl str i c c' mp' l' fl' st'); try done.
  - by apply Hg.
  - intros id' j Hj. case_decide as Hji; [subst j|done].
    destruct (go_live _ _ _ _ _ Hg _ _ Hj) as (Hid' & d' & Hd' & Hdid'). split; [congruence | done].
  - intros Hno. by destruct (Hno id).
Qed.

Lemma forward_agent_inv g m fd a b : gate_inv g m ->
  exists g', _forward_agent g fd a b = Some g' /\ gate_inv g' m.
Proof.
  intros Hinv. unfold _forward_agent. rewrite (gate_lookup g m fd Hinv). cbn [mbind option_bind].
  destruct (m !! fd) as [i|] eqn:Hi; cbn [from_option id]; [|by exists g].
  destruct (gate_slot g m fd i Hinv Hi) as (Hi0 & _ & c & Hc & Hcid).
  rewrite (proj2 (Z.leb_le 0 i)) by done. rewrite Hc. cbn [mbind option_bind].
  destruct Hinv as (own & fl & str & Hg). destruct (go_buf _ _ _ _ _ Hg _ _ Hc) as (Hr & Hh & Hb).
  destruct (gate_conn_update g m own fl str fd i c (Connection (c_id c) a b (c_remote_name c) (c_buffer c))
    (g_mp g) (own i) fl (str i) Hg Hi Hc eq_refl Hr Hh Hb (pool_frame_refl _ _ _)) as (conn & -> & Hinv').
  by exists (set_conn g conn).
Qed.

(** The sockets started and written to are connected to the gate. *)
Definition on_live (ids : gset Z) (es : list effect) : Prop :=
  forall id, (SocketStart id ∈ es \/ exists d, SocketSend id d ∈ es) -> id ∈ ids.

Lemma on_live_others ids es : Forall (fun e => match e with SocketStart _ | SocketSend _ _ => False | _ => True end) es ->
  on_live ids es.
Proof.
  intros Hall id [Hin|[d Hin]]; by apply (proj1 (Forall_forall _ _) Hall) in Hin.
Qed.

Lemma on_live_start ids id : id ∈ ids -> on_live ids [SocketStart id].
Proof. intros Hi id' [Hin|[d Hin]]; apply list_elem_of_singleton in Hin; simplify_eq; done. Qed.

Lemma on_live_send ids id d : id ∈ ids -> on_live ids [SocketSend id d].
Proof. intros Hi id' [Hin|[d' Hin]]; apply list_elem_of_singleton in Hin; simplify_eq; done. Qed.

Lemma ctrl_safe queryname g m msg : gate_inv g m -> ~ 0 ∈ msg ->
  exists g' es, _ctrl queryname g msg = Some (g', es) /\ gate_inv g' m /\ on_live (dom m) es.
Proof.
  intros Hinv Hno. unfold _ctrl. set (sz := zlen msg). pose proof (zlen_nonneg msg) as Hsz0. fold sz in Hsz0.
  assert (forall es, Forall (fun e => match e with SocketStart _ | SocketSend _ _ => False | _ => True end) es ->
    on_live (dom m) es) as Hoth by (intros; by apply on_live_others).
  destruct (Z.eqb_spec sz 0); [exists g, []; split; [done|]; split; [done | by apply Hoth]|].
  set (i := command_length msg). pose proof (command_length_bound msg) as Hi. fold i sz in Hi.
  assert (text_buf (msg ++ [0]) sz) as Ht.
  { split; [by rewrite zlen_app|]. by rewrite aget_app_r, Z.sub_diag. }
  assert (forall name, exists r, memcmp (msg ++ [0]) (literal name) (Z.to_nat i) = Some r) as Hm.
  { intros name. apply memcmp_literal.
    - rewrite take_app_le by (unfold sz, zlen in *; lia). apply Forall_take, Forall_forall.
      intros x Hx ->. done.
    - rewrite length_app. unfold sz, zlen in *. lia. }
  destruct (parm_spec _ sz i Ht Hi) as (tmp & k & Hp & Ht' & Hk & Hz).
  destruct (text_buf_cstr tmp sz 0 Ht' ltac:(lia)) as [command Hc].
  (* the commands that look a connection up *)
  assert (forall f : Z -> effect, (forall id, f id = SocketClose id \/ f id = SocketStart id) -> exists g' es,
    (tmp ← _parm (msg ++ [0]) sz i; command ← cstr tmp 0; let uid := s32 (strtol 10 command) in
     id ← hashid_lookup (g_hash g) uid; Some (g, if 0 <=? id then [f uid] else [])) = Some (g', es) /\
    gate_inv g' m /\ on_live (dom m) es) as Hlook.
  { intros f Hfx. rewrite Hp. cbn [mbind option_bind]. rewrite Hc. cbn [mbind option_bind].
    rewrite (gate_lookup g m _ Hinv). cbn [mbind option_bind]. do 2 eexists. split; [done|].
    split; [done|]. destruct (m !! _) as [j|] eqn:Hj; cbn [from_option id]; [|by apply Hoth].
    case_match; [|by apply Hoth]. destruct (Hfx (s32 (strtol 10 command))) as [-> | ->].
    - apply Hoth. by constructor.
    - apply on_live_start. by eapply elem_of_dom_2. }
  destruct (Hm "kick"%string) as [kick Hkick]. rewrite Hkick. cbn [mbind option_bind].
  destruct kick; [apply (Hlook SocketClose); by left|].
  assert (0 < i) as Hi0.
  { destruct (decide (i = 0)) as [Hi0|]; [|lia]. rewrite Hi0 in Hkick. done. }
  destruct (Hm "forward"%string) as [fwd ->]. cbn [mbind option_bind]. destruct fwd.
  { rewrite Hp. cbn [mbind option_bind].
    destruct (forward_args_spec tmp sz k Ht' ltac:(lia) Hz) as [args ->]. cbn [mbind option_bind].
    destruct args as [[[id a] b]|]; [|exists g, []; split; [done|]; split; [done | by apply Hoth]].
    destruct (forward_agent_inv g m id a b Hinv) as (g' & -> & Hinv'). cbn [mbind option_bind].
    exists g', []. split; [done|]. split; [done | by apply Hoth]. }
  destruct (Hm "broker"%string) as [brk ->]. cbn [mbind option_bind]. destruct brk.
  { rewrite Hp. cbn [mbind option_bind]. rewrite Hc. cbn [mbind option_bind]. do 2 eexists.
    split; [done|]. split; [by eapply gate_inv_ext | by apply Hoth]. }
  destruct (Hm "start"%string) as [start ->]. cbn [mbind option_bind].
  destruct start; [apply (Hlook SocketStart); by right|].
  destruct (Hm "close"%string) as [close ->]. cbn [mbind option_bind]. destruct close.
  { case_match; do 2 eexists; (split; [done|]); (split; [by eapply gate_inv_ext|]); apply Hoth;
      by repeat constructor. }
  destruct (text_buf_cstr _ sz 0 Ht ltac:(lia)) as [text ->]. cbn [mbind option_bind].
  do 2 eexists. split; [done|]. split; [done|]. apply Hoth. by repeat constructor.
Qed.

(** ** Socket messages keep the invariant *)

(** What the gate may assume of a message, when the sockets [ids] are connected and it was
    started with the listening socket [lst]: an accept comes from that socket, which may be
    closed by now. *)
Definition message_ok (lst : Z) (g : gate) (ids : gset Z) (msg : gate_message) : Prop :=
  match msg with
  | TextMessage text => ~ 0 ∈ text
  | ClientMessage _ _ => True
  | SocketEvent message =>
      match sm_type message with
      | SDATA =>
          is_bytes (sm_buffer message) /\ sm_ud message = zlen (sm_buffer message) /\
          forall i c, (g_conn g).[i] = Some c -> c_id c = sm_id message ->
            db_size (c_buffer c) + sm_ud message < 2 ^ 31
      | SACCEPT =>
          sm_id message = lst /\ 0 <= sm_ud message /\
          sm_ud message + zlen (g_conn g) <= 2147483648 /\ ~ sm_ud message ∈ ids
      | _ => True
      end
  end.

(** The assertion of an accept: the gate has not closed the listening socket. *)
Definition listens (g : gate) (msg : gate_message) : bool :=
  match msg with
  | SocketEvent message => match sm_type message with SACCEPT => g_listen_id g =? sm_id message | _ => true end
  | _ => true
  end.

(** The connected sockets after a message. *)
Definition next_ids (g : gate) (ids : gset Z) (msg : gate_message) : gset Z :=
  match msg with
  | SocketEvent message =>
      match sm_type message with
      | SACCEPT => if hashid_full (g_hash g) then ids else {[sm_ud message]} ∪ ids
      | SCLOSE | SERROR => ids ∖ {[sm_id message]}
      | _ => ids
      end
  | _ => ids
  end.

(** The slots of the connected sockets after a message. *)
Definition next_conns (g : gate) (m : gmap Z Z) (msg : gate_message) (m' : gmap Z Z) : Prop :=
  match msg with
  | SocketEvent message =>
      match sm_type message with
      | SACCEPT =>
          if hashid_full (g_hash g) then m' = m
          else exists i, m' = <[sm_ud message := i]> m /\ forall id, m !! id <> Some i
      | SCLOSE | SERROR => m' = delete (sm_id message) m
      | _ => m' = m
      end
  | _ => m' = m
  end.

Lemma report_ok g text : zlen text < 1024 -> exists es, _report g text = Some es /\
  Forall (fun e => match e with Send _ _ _ _ => True | _ => False end) es.
Proof.
  intros Ht. unfold _report. case_match; [by exists []|].
  rewrite (proj2 (Z.ltb_lt _ _)) by done. eexists. split; [done|]. by repeat constructor.
Qed.

Lemma until_zero_bound l : exists s, until_zero (l ++ [0]) = Some s /\ zlen s <= zlen l.
Proof.
  induction l as [|c l (s & Hs & Hl)]; cbn [app until_zero].
  - exists []. split; [done|]. change (zlen (@nil Z)) with 0. lia.
  - case_match.
    + exists []. split; [done|]. pose proof (zlen_nonneg (c :: l)). change (zlen (@nil Z)) with 0. lia.
    + rewrite Hs. exists (c :: s). split; [done|]. rewrite !zlen_cons. lia.
Qed.

Lemma deliver_sends g c fs : Forall (fun e => match e with Send _ _ _ _ => True | _ => False end)
  (mjoin (map (deliver g c) fs)).
Proof.
  induction fs as [|f fs IH]; [constructor|]. cbn [map]. rewrite mjoin_cons. apply Forall_app.
  split; [|done]. unfold deliver. repeat case_match; by repeat constructor.
Qed.

Lemma gate_data_safe g m id data : gate_inv g m -> is_bytes data ->
  (forall i c, m !! id = Some i -> (g_conn g).[i] = Some c -> db_size (c_buffer c) + zlen data < 2 ^ 31) ->
  exists g' es, dispatch_socket_message g (SocketMessage SDATA id (zlen data) data []) = Some (g', es) /\
    gate_inv g' m /\ on_live (dom m) es.
Proof.
  intros Hinv Hb Hmax. unfold dispatch_socket_message. cbn [sm_type sm_id sm_ud sm_buffer].
  rewrite (gate_lookup g m id Hinv). cbn [mbind option_bind].
  destruct (m !! id) as [i|] eqn:Hi; cbn [from_option Datatypes.id].
  2:{ do 2 eexists. split; [done|]. split; [done|]. apply on_live_others. by repeat constructor. }
  destruct (gate_slot g m id i Hinv Hi) as (Hi0 & _ & c & Hc & Hcid).
  rewrite (proj2 (Z.leb_le 0 i)) by done. rewrite Hc. cbn [mbind option_bind].
  specialize (Hmax i c eq_refl Hc).
  destruct Hinv as (own & fl & str & Hg). destruct (go_buf _ _ _ _ _ Hg _ _ Hc) as (Hr & Hh & Hbs).
  destruct (dispatch_message_spec g c id data (own i) fl (str i) (go_header _ _ _ _ _ Hg) Hr Hh Hbs Hb)
    as (fs & e & db' & mp' & l' & fl' & _ & -> & Hr' & Hh' & Hb' & Hf & _).
  { by rewrite <-(dr_size _ _ _ _ _ Hr). }
  cbn [mbind option_bind].
  destruct (gate_conn_update g m own fl str id i c (set_buffer c db') mp' l' fl' (final e) Hg Hi Hc)
    as (conn & -> & Hinv'); try done.
  cbn [mbind option_bind]. do 2 eexists. split; [done|]. split; [done|].
  apply on_live_others, Forall_app. split.
  - eapply Forall_impl; [apply deliver_sends|]. by intros [].
  - destruct e; by repeat constructor.
Qed.

Lemma gate_close_safe g m id : gate_inv g m ->
  exists g' es, ('(i, hash) ← hashid_remove (g_hash g) id;
      if 0 <=? i then
        c ← (g_conn g).[i];
        '(_, mp) ← databuffer_clear (c_buffer c) (g_mp g);
        conn ← (g_conn g).[i := conn_free];
        es ← _report g (fmt_d id ++ bytes_of " close");
        Some (set_conns g hash conn mp, es)
      else Some (set_conns g hash (g_conn g) (g_mp g), [])) = Some (g', es) /\
    gate_inv g' (delete id m) /\ on_live (dom m) es.
Proof.
  intros Hinv. pose proof Hinv as (own & fl & str & Hg).
  pose proof (remove_rep _ m id (go_hash _ _ _ _ _ Hg)) as Hrem.
  destruct (m !! id) as [i|] eqn:Hi.
  2:{ rewrite Hrem. cbn [mbind option_bind]. do 2 eexists. split; [done|].
      split; [|apply on_live_others; constructor]. rewrite delete_id by done. by eapply gate_inv_ext. }
  destruct Hrem as (hash' & -> & Hhash & Hcap). cbn [mbind option_bind].
  destruct (gate_slot g m id i Hinv Hi) as (Hi0 & Hid0 & c & Hc & Hcid).
  rewrite (proj2 (Z.leb_le 0 i)) by done. rewrite Hc. cbn [mbind option_bind].
  destruct (go_buf _ _ _ _ _ Hg _ _ Hc) as (Hr & Hh & Hbs).
  destruct (clear_rep _ _ _ _ _ Hr) as (mp' & fl' & -> & Hr' & Hf). cbn [mbind option_bind].
  destruct (gate_ok_update g m own fl str i c conn_free mp' [] fl' (Stream 0 []) hash' (delete id m) Hg Hc Hr')
    as (conn & -> & Hinv'); try done.
  - constructor.
  - intros id' j (Hne & Hj)%lookup_delete_Some. case_decide as Hji; [subst j|done].
    destruct (gate_slot g m id' i Hinv Hj) as (_ & _ & c' & Hc' & Hcid'). congruence.
  - intros j Hj Hno id' Hid'. apply (Hno id'). apply lookup_delete_Some. split; [|done].
    intros <-. congruence.
  - cbn [mbind option_bind].
    destruct (report_ok g (fmt_d id ++ bytes_of " close")) as (es & -> & Hes).
    { rewrite zlen_app. pose proof (zlen_fmt_d id). change (zlen (bytes_of " close")) with 6. lia. }
    cbn [mbind option_bind]. do 2 eexists. split; [done|]. split; [done|].
    apply on_live_others. eapply Forall_impl; [exact Hes|]. by intros [].
Qed.

Lemma gate_accept_safe lst g m message : gate_inv g m -> sm_type message = SACCEPT ->
  message_ok lst g (dom m) (SocketEvent message) -> listens g (SocketEvent message) = true ->
  exists g' m' es, dispatch_socket_message g message = Some (g', es) /\
    next_conns g m (SocketEvent message) m' /\ gate_inv g' m' /\ on_live (dom m) es.
Proof.
  intros Hinv Hty. unfold message_ok, listens, next_conns, dispatch_socket_message. rewrite Hty.
  intros (_ & Hud & Hmax & Hnone%not_elem_of_dom) ->. cbn [cassert mbind option_bind].
  pose proof Hinv as (own & fl & str & Hg). pose proof (go_hash _ _ _ _ _ Hg) as Hhash.
  destruct (go_cap _ _ _ _ _ Hg) as [Hcap _].
  destruct (hashid_full (g_hash g)) eqn:Hfull.
  { exists g, m. eexists. split; [done|]. split; [done|]. split; [done|].
    apply on_live_others. by repeat constructor. }
  unfold hashid_full in Hfull. apply Z.eqb_neq in Hfull.
  pose proof (hr_count _ _ Hhash). pose proof (hr_cap _ _ Hhash).
  pose proof (length_filter used (hi_nodes (g_hash g))).
  destruct (insert_rep _ m (sm_ud message) Hhash Hud ltac:(lia) Hnone)
    as (x & hash' & -> & Hhash' & Hfresh & Hcap' & Hx); [unfold zlen in *; lia|].
  cbn [mbind option_bind]. destruct (aget_is_Some (g_conn g) x ltac:(lia)) as [c Hc]. rewrite Hc.
  cbn [mbind option_bind]. assert (c = conn_free) as -> by (by eapply go_free).
  destruct (go_buf _ _ _ _ _ Hg _ _ Hc) as (Hr & Hh & Hbs).
  cbn [c_agent c_client c_buffer conn_free c_id] in *.
  destruct (gate_ok_update g m own fl str x conn_free
    (Connection (sm_ud message) 0 0 (take 31 (sm_tail message)) db_zero)
    (g_mp g) (own x) fl (str x) hash' (<[sm_ud message := x]> m) Hg Hc Hr)
    as (conn & -> & Hinv'); try done.
  - apply pool_frame_refl.
  - intros id' j [[<- <-]|[Hne Hj]]%lookup_insert_Some.
    + by rewrite decide_True.
    + rewrite decide_False; [done|]. intros ->. by eapply Hfresh.
  - intros j Hj Hno id' Hid'. apply (Hno id'). apply lookup_insert_Some. right. split; [|done].
    intros <-. congruence.
  - intros Hno. exfalso. apply (Hno (sm_ud message)). by rewrite lookup_insert_eq.
  - cbn [mbind option_bind].
    destruct (until_zero_bound (take 31 (sm_tail message))) as (name & -> & Hname).
    cbn [mbind option_bind].
    match goal with |- context [_report g ?t] => destruct (report_ok g t) as (es & -> & Hes) end.
    { rewrite !zlen_app. pose proof (zlen_fmt_d (sm_ud message)).
      assert (zlen (take 31 (sm_tail message)) <= 31) by (unfold zlen; rewrite length_take; lia).
      change (zlen (bytes_of " open ")) with 6. change (zlen (bytes_of " ")) with 1.
      change (zlen (bytes_of ":0")) with 2. lia. }
    cbn [mbind option_bind]. do 3 eexists. split; [done|]. split; [by exists x|]. split; [done|].
    apply on_live_others, Forall_app. split; [eapply Forall_impl; [exact Hes|]; by intros []|].
    by repeat constructor.
Qed.

Lemma socket_safe lst g m message : gate_inv g m -> message_ok lst g (dom m) (SocketEvent message) ->
  listens g (SocketEvent message) = true ->
  exists g' m' es, dispatch_socket_message g message = Some (g', es) /\
    next_conns g m (SocketEvent message) m' /\ gate_inv g' m' /\ on_live (dom m) es.
Proof.
  intros Hinv Hok Hlis. destruct message as [ty id ud data tl]. destruct ty;
    try (by apply (gate_accept_safe lst)); unfold next_conns; cbn [sm_type sm_id message_ok sm_ud sm_buffer] in *.
  - destruct Hok as (Hb & -> & Hmax).
    destruct (gate_data_safe g m id data Hinv Hb) as (g' & es & Hd & Hinv' & Hes).
    { intros i c Hi Hc. apply (Hmax i c Hc).
      destruct (gate_slot g m id i Hinv Hi) as (_ & _ & d & Hd & Hid). congruence. }
    exists g', m, es. split; [exact Hd|]. done.
  - unfold dispatch_socket_message. cbn [sm_type sm_id].
    case_match; [exists g, m, []; split; [done|]; split; [done|]; split; [done|]; apply on_live_others; constructor|].
    rewrite (gate_lookup g m id Hinv). cbn [mbind option_bind].
    case_match; exists g, m; eexists; (split; [done|]); (split; [done|]); (split; [done|]);
      apply on_live_others; by repeat constructor.
  - destruct (gate_close_safe g m id Hinv) as (g' & es & Hd & Hinv' & Hes).
    exists g', (delete id m), es. split; [exact Hd|]. done.
  - destruct (gate_close_safe g m id Hinv) as (g' & es & Hd & Hinv' & Hes).
    exists g', (delete id m), es. split; [exact Hd|]. done.
  - exists g, m, []. split; [done|]. split; [done|]. split; [done|]. apply on_live_others; constructor.
  - exists g, m. eexists. split; [done|]. split; [done|]. split; [done|].
    apply on_live_others. by repeat constructor.
Qed.

Lemma client_safe g m source msg queryname : gate_inv g m ->
  exists g' k es, _cb queryname g (ClientMessage source msg) = Some (g', k, es) /\
    gate_inv g' m /\ on_live (dom m) es.
Proof.
  intros Hinv. cbn [_cb]. destruct (Z.leb_spec (zlen msg) 4).
  { do 3 eexists. split; [done|]. split; [done|]. apply on_live_others. by repeat constructor. }
  destruct (aget_is_Some msg (zlen msg - 4)) as [a ->]; [lia|].
  destruct (aget_is_Some msg (zlen msg - 3)) as [b ->]; [lia|].
  destruct (aget_is_Some msg (zlen msg - 2)) as [c ->]; [lia|].
  destruct (aget_is_Some msg (zlen msg - 1)) as [d ->]; [lia|]. cbn [mbind option_bind].
  rewrite (gate_lookup g m _ Hinv). cbn [mbind option_bind].
  destruct (m !! _) as [i|] eqn:Hi; cbn [from_option Datatypes.id].
  - destruct (gate_slot g m _ i Hinv Hi) as (Hi0 & _). rewrite (proj2 (Z.leb_le 0 i)) by done.
    do 3 eexists. split; [done|]. split; [done|]. apply on_live_send. by eapply elem_of_dom_2.
  - do 3 eexists. split; [done|]. split; [done|]. apply on_live_others. by repeat constructor.
Qed.

(** A started gate has no connections. *)
Lemma gate_init_inv queryname listen parm r g es :
  gate_init queryname listen gate_create (Some parm) = Some (r, g, es) -> r = 0 -> gate_inv g ∅.
Proof.
  unfold gate_init. destruct (p_count (scan_parm parm) <? 4); [by intros [= <- _ _]|].
  destruct (Z.leb_spec (p_max (scan_parm parm)) 0) as [|Hmax]; [by intros [= <- _ _]|].
  destruct (_ && _); [by intros [= <- _ _]|].
  destruct ((p_watchdog (scan_parm parm)).[0]) as [w0|]; [|done]. cbn [mbind option_bind].
  destruct (_ && _); [by intros [= <- _ _]|].
  destruct (hashid_init (p_max (scan_parm parm))) as [hash|] eqn:Hh; [|done]. cbn [mbind option_bind].
  intros Hs Hr. injection Hs as Hs.
  destruct (hashid_init_rep (p_max (scan_parm parm)) hash ltac:(lia) Hh) as [Hrep Hcap].
  match type of Hs with start_listen _ ?g0 _ = _ => assert (gate_inv g0 ∅) as Hinv end.
  { exists (fun _ => []), [], (fun _ => Stream 0 []).
    assert (forall i c, (replicate (Z.to_nat (p_max (scan_parm parm))) conn_free).[i] = Some c -> c = conn_free) as Hall.
    { intros i c Hc. unfold aget in Hc. case_decide; [|done].
      apply list_elem_of_lookup_2, elem_of_replicate in Hc. by destruct Hc. }
    split; cbn [g_hash g_conn g_max_connection g_header_size g_mp].
    - done.
    - rewrite zlen_replicate. lia.
    - destruct (p_header (scan_parm parm) =? 83); [by left | by right].
    - intros id i Hi. by rewrite lookup_empty in Hi.
    - intros i c Hc _. by eapply Hall.
    - intros i c ->%Hall. split; [|split; [done | constructor]]. apply db_rep_zero.
      split; [done | constructor].
    - intros i j x _ _ _ Hx. by apply not_elem_of_nil in Hx. }
  unfold start_listen in Hs. repeat case_match; simplify_eq; by eapply gate_inv_ext.
Qed.

(** The gates that are reachable, with the sockets connected to them; [lst] is the socket
    that [start_listen] got. *)
Inductive gate_run (queryname : list Z -> Z) (listen : list Z -> Z -> Z) (lst : Z) : gate -> gset Z -> Prop :=
| run_init parm g es : gate_init queryname listen gate_create (Some parm) = Some (0, g, es) ->
    g_listen_id g = lst -> gate_run queryname listen lst g ∅
| run_step g ids msg g' kept es : gate_run queryname listen lst g ids -> message_ok lst g ids msg ->
    _cb queryname g msg = Some (g', kept, es) -> gate_run queryname listen lst g' (next_ids g ids msg).

Ltac unbind H := match type of H with
  | mbind _ _ = _ => apply bind_Some in H as (? & ? & H)
  | match ?x with _ => _ end = _ => destruct x
  end.

(** The listening socket changes only when it is closed. *)
Lemma forward_agent_listen g id a c g' : _forward_agent g id a c = Some g' -> g_listen_id g' = g_listen_id g.
Proof.
  unfold _forward_agent. intros H. apply bind_Some in H as (i & _ & H). destruct (0 <=? i); [|by simplify_eq].
  do 2 (apply bind_Some in H as (? & _ & H)). by injection H as <-.
Qed.

Lemma ctrl_listen queryname g text g' es : _ctrl queryname g text = Some (g', es) ->
  g_listen_id g' = g_listen_id g \/ g_listen_id g' = -1.
Proof.
  unfold _ctrl. intros H. destruct (zlen text =? 0); [left; by simplify_eq|].
  do 5 (apply bind_Some in H as ([] & _ & H);
    [repeat unbind H; simplify_eq; eauto using forward_agent_listen|]).
  apply bind_Some in H as (? & _ & H). left. by simplify_eq.
Qed.

Lemma socket_listen g message g' es : dispatch_socket_message g message = Some (g', es) -> g_listen_id g' = g_listen_id g.
Proof.
  unfold dispatch_socket_message. intros H.
  repeat unbind H; by simplify_eq.
Qed.

Lemma cb_listen queryname g msg g' k es : _cb queryname g msg = Some (g', k, es) ->
  g_listen_id g' = g_listen_id g \/ g_listen_id g' = -1.
Proof.
  unfold _cb. intros H. destruct msg as [text|source text|message].
  - apply bind_Some in H as ([g1 es1] & Hc & H). injection H as <- <- <-. by eapply ctrl_listen.
  - left. repeat unbind H; by simplify_eq.
  - apply bind_Some in H as ([g1 es1] & Hc & H). injection H as <- <- <-. left. by eapply socket_listen.
Qed.

Lemma gate_run_listen queryname listen lst g ids : gate_run queryname listen lst g ids ->
  g_listen_id g = lst \/ g_listen_id g = -1.
Proof.
  induction 1 as [parm g es _ ->|g ids msg g' k es _ IH _ Hc]; [by left|].
  destruct (cb_listen _ _ _ _ _ _ Hc) as [->|]; [done | by right].
Qed.

Lemma next_ids_dom g m msg m' : next_conns g m msg m' -> dom m' = next_ids g (dom m) msg.
Proof.
  unfold next_conns, next_ids. destruct msg as [| |message]; try (by intros ->).
  destruct (sm_type message); try (by intros ->).
  - intros ->. by rewrite dom_delete_L.
  - case_match; [by intros ->|]. intros (i & -> & _). by rewrite dom_insert_L.
  - intros ->. by rewrite dom_delete_L.
Qed.

Lemma cb_safe lst queryname g m msg : gate_inv g m -> message_ok lst g (dom m) msg -> listens g msg = true ->
  exists g' kept es m', _cb queryname g msg = Some (g', kept, es) /\ on_live (dom m) es /\
    gate_inv g' m' /\ dom m' = next_ids g (dom m) msg.
Proof.
  intros Hinv Hok Hlis. destruct msg as [text|source text|message].
  - destruct (ctrl_safe queryname g m text Hinv Hok) as (g' & es & Hc & Hinv' & Hes).
    exists g', false, es, m. cbn [_cb]. rewrite Hc. done.
  - destruct (client_safe g m source text queryname Hinv) as (g' & k & es & Hc & Hinv' & Hes).
    exists g', k, es, m. done.
  - destruct (socket_safe lst g m message Hinv Hok Hlis) as (g' & m' & es & Hc & Hn & Hinv' & Hes).
    exists g', false, es, m'. cbn [_cb]. rewrite Hc. split; [done|]. split; [done|]. split; [done|].
    by apply next_ids_dom.
Qed.

Lemma accept_closed queryname g msg : listens g msg = false -> _cb queryname g msg = None.
Proof.
  unfold listens, _cb, dispatch_socket_message. destruct msg as [| |message]; [done..|]. destruct (sm_type message); try done.
  by intros ->.
Qed.

Lemma gate_run_inv queryname listen lst g ids : gate_run queryname listen lst g ids ->
  exists m, gate_inv g m /\ dom m = ids.
Proof.
  induction 1 as [parm g es Hi _|g ids msg g' kept es _ (m & Hinv & <-) Hok Hc].
  - exists ∅. split; [by eapply gate_init_inv | by rewrite dom_empty_L].
  - destruct (listens g msg) eqn:Hlis; [|by rewrite accept_closed in Hc].
    destruct (cb_safe lst queryname g m msg Hinv Hok Hlis) as (g1 & k1 & es1 & m' & Hc' & _ & Hinv' & Hd).
    rewrite Hc in Hc'. injection Hc' as <- <- <-. by exists m'.
Qed.



(** ** Streams the gate does not expect *)

Lemma parses_negative rd hs h s : h < 0 -> parses rd hs (Stream h s) [] (Some (Stream h s)).
Proof.
  intros Hh. pose proof (zlen_nonneg s). apply (parses_wait _ _ _ h); [|done].
  unfold stream_header. cbn [st_header st_bytes]. rewrite (proj2 (Z.eqb_neq h 0)) by lia. cbn [andb st_header st_bytes].
  by rewrite (proj2 (Z.ltb_ge _ _)) by lia.
Qed.

(** Nobody reads the frame, so its payload is taken for frames. *)
Lemma parses_unread hs p rest fs e : hs = 2 \/ hs = 4 -> payload_ok hs p ->
  parses false hs (Stream 0 (p ++ rest)) fs e ->
  parses false hs (Stream 0 (frame hs p ++ rest)) (p :: fs) e.
Proof.
  intros Hhs Hok Hp. destruct (frame_size_frame hs p rest Hok Hhs) as [Hs Hd].
  assert (stream_header hs (Stream 0 (frame hs p ++ rest)) = (zlen p, Stream (zlen p) (p ++ rest))) as Hst.
  { unfold stream_header. cbn [st_header st_bytes Z.eqb andb]. pose proof (zlen_nonneg rest).
    pose proof (zlen_nonneg p). rewrite zlen_app, zlen_frame by done.
    rewrite (proj2 (Z.ltb_ge _ _)) by lia. rewrite Hs, Hd. cbn [st_header st_bytes].
    rewrite zlen_app. by rewrite (proj2 (Z.ltb_ge _ _)) by lia. }
  replace (p :: fs) with (take (Z.to_nat (zlen p)) (p ++ rest) :: fs)
    by (f_equal; apply take_app_length'; unfold zlen; lia).
  change (p ++ rest) with (st_bytes (Stream (zlen p) (p ++ rest))) at 1.
  eapply parses_frame; [exact Hst | | exact Hp].
  destruct Hok as [_ Hl]. destruct Hhs as [-> | ->]; cbn [Z.eqb Pos.eqb] in Hl; lia.
Qed.

Lemma deliver_nobody g c fs : has_receiver g c = false -> mjoin (map (deliver g c) fs) = [].
Proof.
  unfold has_receiver, deliver. intros Hr.
  destruct (g_broker g =? 0), (c_agent c =? 0), (g_watchdog g =? 0); try done.
  induction fs as [|f fs IH]; [done|]. exact IH.
Qed.

(** A four-byte length of 2^31 or more is a negative [int]. *)
Lemma frame_size_negative a b c d : is_u8 a -> is_u8 b -> is_u8 c -> is_u8 d ->
  frame_size [a; b; c; d] 4 < 0 <-> 128 <= a.
Proof.
  unfold is_u8, frame_size. intros. set (z := a * 16777216 + b * 65536 + c * 256 + d).
  assert (0 <= z < 2 ^ 32) by (unfold z; lia). destruct (Z.lt_ge_cases z (2 ^ 31)).
  - rewrite s32_small by (unfold is_s32; lia). unfold z in *. lia.
  - unfold s32. replace ((z + 2 ^ 31) mod 2 ^ 32) with (z - 2 ^ 31); [unfold z in *; lia|].
    apply Z.mod_unique with (q := 1); lia.
Qed.

(** How the gate treats the frames it does not expect.
    (1) A complete frame of 16M or more empties the buffer and closes the socket.
    (2) After a four-byte length of 2^31 or more, which is a negative [int], nothing the
    peer sends is forwarded, rejected or dropped: the buffer grows by every byte.
    (3) While a connection has no broker, agent or watchdog, the payload of a frame
    is not read: the gate goes on as if the peer had sent the payload as frames. *)
Theorem gate_frame_errors (g : gate) (c : connection) (id : Z) (l fl : list Z) (st : stream)
    (data : list Z) :
  g_header_size g = 2 \/ g_header_size g = 4 ->
  db_rep (g_mp g) (c_buffer c) l fl (st_bytes st) -> db_header (c_buffer c) = st_header st ->
  is_bytes (st_bytes st) -> is_bytes data -> zlen (st_bytes st) + zlen data < 2 ^ 31 ->
  (0x1000000 <= st_header st <= zlen (st_bytes st) + zlen data ->
     exists mp', dispatch_message g c id data (zlen data) =
       Some (set_buffer c db_zero, mp', [SocketClose id; Log (bytes_of "Recv socket message > 16M")])) /\
  (st_header st < 0 ->
     exists db' mp' l' fl', dispatch_message g c id data (zlen data) = Some (set_buffer c db', mp', []) /\
       db_rep mp' db' l' fl' (st_bytes st ++ data) /\ db_header db' = st_header st) /\
  (forall p rest, has_receiver g c = false -> st = Stream 0 [] -> payload_ok (g_header_size g) p ->
     data = frame (g_header_size g) p ++ rest ->
     exists db1 mp1 l1 fl1 db2 mp2 l2 fl2 es st',
       dispatch_message g c id data (zlen data) = Some (set_buffer c db1, mp1, es) /\
       dispatch_message g c id (p ++ rest) (zlen (p ++ rest)) = Some (set_buffer c db2, mp2, es) /\
       db_rep mp1 db1 l1 fl1 (st_bytes st') /\ db_rep mp2 db2 l2 fl2 (st_bytes st') /\
       db_header db1 = st_header st' /\ db_header db2 = st_header st').
Proof.
  intros Hhs Hr Hh Hb Hbd Hmax.
  destruct (dispatch_message_spec g c id data l fl st Hhs Hr Hh Hb Hbd Hmax)
    as (fs & e & db' & mp' & l' & fl' & Hp & Hd & Hr' & Hh' & Hb' & Hf & He). split; [|split].
  - intros Hz. exists mp'.
    assert (parses (has_receiver g c) (g_header_size g) (Stream (st_header st) (st_bytes st ++ data)) [] None) as Hbig.
    { apply (parses_big _ _ _ (st_header st) (Stream (st_header st) (st_bytes st ++ data))); [|lia].
      unfold stream_header. cbn [st_header st_bytes]. rewrite (proj2 (Z.eqb_neq _ 0)) by lia. cbn [andb st_header st_bytes].
      rewrite zlen_app. by rewrite (proj2 (Z.ltb_ge _ _)) by lia. }
    destruct (parses_det _ _ _ _ _ Hp _ _ Hbig) as [-> ->]. by rewrite Hd, He.
  - intros Hz. exists db', mp', l', fl'.
    destruct (parses_det _ _ _ _ _ Hp _ _ (parses_negative _ _ _ (st_bytes st ++ data) Hz)) as [-> ->].
    done.
  - intros p rest Hno -> Hok ->. cbn [st_header st_bytes app] in *.
    destruct (dispatch_message_spec g c id (p ++ rest) l fl (Stream 0 []) Hhs Hr Hh Hb)
      as (fs2 & e2 & db2 & mp2 & l2 & fl2 & Hp2 & Hd2 & Hr2 & Hh2 & _).
    { unfold frame in Hbd. rewrite <-app_assoc in Hbd. by apply Forall_app in Hbd as [_ ?]. }
    { rewrite zlen_app, zlen_frame in Hmax by done. rewrite zlen_app. cbn [st_bytes]. lia. }
    cbn [st_header st_bytes app] in *. rewrite Hno in Hp, Hp2.
    destruct (parses_det _ _ _ _ _ Hp _ _ (parses_unread _ _ _ _ _ Hhs Hok Hp2)) as [-> ->].
    rewrite deliver_nobody in Hd, Hd2 by done.
    exists db', mp', l', fl', db2, mp2, l2, fl2, (ending id e2), (final e2). done.
Qed.

Lemma gate_frame_errors_witness : exists db' mp',
  dispatch_message (Gate 1 7 0 3 4 4 (Hashid 0 0 0 [] []) [] mp_zero)
    (Connection 5 42 9 [] (Databuffer (-5) 0 0 None None)) 5 [1; 2; 3] 3 =
  Some (Connection 5 42 9 [] db', mp', []).
Proof.
  set (g := Gate 1 7 0 3 4 4 (Hashid 0 0 0 [] []) [] mp_zero).
  set (c := Connection 5 42 9 [] (Databuffer (-5) 0 0 None None)).
  assert (db_rep (g_mp g) (c_buffer c) [] [] []) as Hr.
  { apply (db_rep_header mp_zero db_zero). apply db_rep_zero. split; [reflexivity | constructor]. }
  destruct (gate_frame_errors g c 5 [] [] (Stream (-5) []) [1; 2; 3]) as (_ & Hneg & _).
  - right; reflexivity.
  - exact Hr.
  - reflexivity.
  - constructor.
  - apply (bool_decide_unpack _); vm_compute; exact I.
  - vm_compute; reflexivity.
  - destruct (Hneg eq_refl) as (db' & mp' & _ & _ & Hd & _). exists db', mp'. exact Hd.
Defined.
