(* ===== verification/Server.v ===== *)
(** core/uboss_server.c, core/uboss_harbor.c, core/uboss_error.c and core/uboss_monitor.c:
    the contexts of the services, their life cycle, and sending and dispatching messages.

    A [node] is the whole process: the contexts by address, the handle registry, the
    message queues, and the heap blocks that travel in messages.  The functions that a
    service module supplies ([_init], [_release] and its callback) are parameters; they
    get and return the node, since they call back into the framework.  [None] as a result
    is a failed assertion, a null or dangling pointer, or an access outside a block.

    Not modelled: the log file of a context, the CPU accounting (its [profile] field is
    never initialised) and the thread-specific current handle. *)
From Stdlib Require Import String.
From S2P Require Import Prelude Bytes Ring Mq Sched Handle CStr.

Definition PTYPE_TEXT : Z := 0.
Definition PTYPE_CLIENT : Z := 3.
Definition PTYPE_SYSTEM : Z := 4.
Definition PTYPE_HARBOR : Z := 5.
Definition PTYPE_ERROR : Z := 7.
Definition PTYPE_TAG_DONTCOPY : Z := 0x10000.
Definition PTYPE_TAG_ALLOCSESSION : Z := 0x20000.
Definition MESSAGE_TYPE_SHIFT : Z := 56.
Definition MESSAGE_TYPE_MASK : Z := 2 ^ 56 - 1.
Definition GLOBALNAME_LENGTH : Z := 16.
Definition SIZEOF_REMOTE_MESSAGE : Z := 40.

Record context := Context {
  ctx_mod : Z;
  ctx_instance : Z;
  ctx_cb : option Z;            (* the callback with its user data; NULL is [None] *)
  ctx_queue : qid;
  ctx_handle : Z;
  ctx_session_id : Z;
  ctx_ref : Z;
  ctx_message_count : Z;
  ctx_init : bool;
  ctx_endless : bool
}.

(** A heap block: bytes, a [struct remote_message], or a [struct uboss_socket_message] with
    the text behind it. *)
Inductive block :=
| Bytes (l : list Z)
| Remote (name : list Z) (handle message sz : Z)
| SocketMsg (type id ud buffer : Z) (text : list Z).

Record node := Node {
  n_total : Z;                  (* G_NODE.total *)
  n_monitor_exit : Z;           (* G_NODE.monitor_exit *)
  n_ctxs : gmap ctxid context;
  n_handles : handle_storage;
  n_mq : mqstore;
  n_remote : option ctxid;      (* REMOTE *)
  n_harbor : Z;                 (* HARBOR *)
  n_logger : Z;                 (* the static variable of uboss_error *)
  n_heap : gmap Z block;
  n_brk : Z;                    (* the next address of [uboss_malloc] *)
  n_fresh : nat                 (* the next context or queue *)
}.

#[export] Instance node_HasMq : HasMq node :=
  {| get_mq := n_mq;
     put_mqstore := fun w n => Node (n_total n) (n_monitor_exit n) (n_ctxs n) (n_handles n) w
       (n_remote n) (n_harbor n) (n_logger n) (n_heap n) (n_brk n) (n_fresh n);
     get_put_mq := fun _ _ => eq_refl |}.

Definition set_mq (w : mqstore) (n : node) : node := put_mqstore w n.
Definition set_total (t : Z) (n : node) : node :=
  Node t (n_monitor_exit n) (n_ctxs n) (n_handles n) (n_mq n) (n_remote n) (n_harbor n)
    (n_logger n) (n_heap n) (n_brk n) (n_fresh n).
Definition set_ctxs (cs : gmap ctxid context) (n : node) : node :=
  Node (n_total n) (n_monitor_exit n) cs (n_handles n) (n_mq n) (n_remote n) (n_harbor n)
    (n_logger n) (n_heap n) (n_brk n) (n_fresh n).
Definition set_handles (s : handle_storage) (n : node) : node :=
  Node (n_total n) (n_monitor_exit n) (n_ctxs n) s (n_mq n) (n_remote n) (n_harbor n)
    (n_logger n) (n_heap n) (n_brk n) (n_fresh n).
Definition set_remote (r : option ctxid) (n : node) : node :=
  Node (n_total n) (n_monitor_exit n) (n_ctxs n) (n_handles n) (n_mq n) r (n_harbor n)
    (n_logger n) (n_heap n) (n_brk n) (n_fresh n).
Definition set_harbor (h : Z) (n : node) : node :=
  Node (n_total n) (n_monitor_exit n) (n_ctxs n) (n_handles n) (n_mq n) (n_remote n) h
    (n_logger n) (n_heap n) (n_brk n) (n_fresh n).
Definition set_logger (h : Z) (n : node) : node :=
  Node (n_total n) (n_monitor_exit n) (n_ctxs n) (n_handles n) (n_mq n) (n_remote n) (n_harbor n)
    h (n_heap n) (n_brk n) (n_fresh n).
Definition set_heap (h : gmap Z block) (brk : Z) (n : node) : node :=
  Node (n_total n) (n_monitor_exit n) (n_ctxs n) (n_handles n) (n_mq n) (n_remote n) (n_harbor n)
    (n_logger n) h brk (n_fresh n).
Definition set_fresh (k : nat) (n : node) : node :=
  Node (n_total n) (n_monitor_exit n) (n_ctxs n) (n_handles n) (n_mq n) (n_remote n) (n_harbor n)
    (n_logger n) (n_heap n) (n_brk n) k.

(** [uboss_malloc] never gives an address twice, so a block that is used after it was
    freed, or freed twice, is an error. *)
Definition uboss_malloc (b : block) (n : node) : Z * node :=
  (n_brk n, set_heap (<[n_brk n := b]> (n_heap n)) (n_brk n + 1) n).

Definition uboss_free (p : Z) (n : node) : option node :=
  if p =? 0 then Some n
  else _ ← n_heap n !! p; Some (set_heap (delete p (n_heap n)) (n_brk n) n).

(** ** Fields of a context *)
Definition handle_of (n : node) (c : ctxid) : Z :=
  match n_ctxs n !! c with Some ctx => ctx_handle ctx | None => 0 end.

Definition set_ref (r : Z) (c : context) : context :=
  Context (ctx_mod c) (ctx_instance c) (ctx_cb c) (ctx_queue c) (ctx_handle c) (ctx_session_id c) r
    (ctx_message_count c) (ctx_init c) (ctx_endless c).
Definition set_session (s : Z) (c : context) : context :=
  Context (ctx_mod c) (ctx_instance c) (ctx_cb c) (ctx_queue c) (ctx_handle c) s (ctx_ref c)
    (ctx_message_count c) (ctx_init c) (ctx_endless c).
Definition set_cb (cb : option Z) (c : context) : context :=
  Context (ctx_mod c) (ctx_instance c) cb (ctx_queue c) (ctx_handle c) (ctx_session_id c) (ctx_ref c)
    (ctx_message_count c) (ctx_init c) (ctx_endless c).
Definition set_endless (b : bool) (c : context) : context :=
  Context (ctx_mod c) (ctx_instance c) (ctx_cb c) (ctx_queue c) (ctx_handle c) (ctx_session_id c)
    (ctx_ref c) (ctx_message_count c) (ctx_init c) b.
Definition set_init (b : bool) (c : context) : context :=
  Context (ctx_mod c) (ctx_instance c) (ctx_cb c) (ctx_queue c) (ctx_handle c) (ctx_session_id c)
    (ctx_ref c) (ctx_message_count c) b (ctx_endless c).
Definition set_ctx_handle (h : Z) (c : context) : context :=
  Context (ctx_mod c) (ctx_instance c) (ctx_cb c) (ctx_queue c) h (ctx_session_id c)
    (ctx_ref c) (ctx_message_count c) (ctx_init c) (ctx_endless c).
Definition set_count (k : Z) (c : context) : context :=
  Context (ctx_mod c) (ctx_instance c) (ctx_cb c) (ctx_queue c) (ctx_handle c) (ctx_session_id c)
    (ctx_ref c) k (ctx_init c) (ctx_endless c).

Definition update (c : ctxid) (f : context -> context) (n : node) : option node :=
  ctx ← n_ctxs n !! c; Some (set_ctxs (<[c := f ctx]> (n_ctxs n)) n).

(** [uboss_context_total], [context_inc], [context_dec]. *)
Definition uboss_context_total (n : node) : Z := n_total n.
Definition context_inc (n : node) : node := set_total (n_total n + 1) n.
Definition context_dec (n : node) : node := set_total (n_total n - 1) n.

(** [uboss_context_newsession]; the [int] wraps. *)
Definition uboss_context_newsession (c : ctxid) (n : node) : option (Z * node) :=
  ctx ← n_ctxs n !! c;
  let session := s32 (ctx_session_id ctx + 1) in
  let session := if session <=? 0 then 1 else session in
  n ← update c (set_session session) n;
  Some (session, n).

(** [uboss_context_grab], [uboss_context_reserve]. *)
Definition uboss_context_grab (c : ctxid) (n : node) : option node :=
  ctx ← n_ctxs n !! c; update c (set_ref (ctx_ref ctx + 1)) n.

Definition uboss_context_reserve (c : ctxid) (n : node) : option node :=
  n ← uboss_context_grab c n; Some (context_dec n).

(** [uboss_context_handle], [uboss_callback]. *)
Definition uboss_context_handle (c : ctxid) (n : node) : option Z :=
  ctx_handle <$> n_ctxs n !! c.
Definition uboss_callback (c : ctxid) (cb : option Z) (n : node) : option node :=
  update c (set_cb cb) n.

(** [uboss_handle_grab] with the reference it takes. *)
Definition node_grab (handle : Z) (n : node) : option (option ctxid * node) :=
  r ← uboss_handle_grab (handle_of n) handle (n_handles n);
  match r with
  | Some c => n ← uboss_context_grab c n; Some (Some c, n)
  | None => Some (None, n)
  end.

(** ** Harbor *)

(** [uboss_harbor_init]. *)
Definition uboss_harbor_init (harbor : Z) (n : node) : node :=
  set_harbor (u32 (Z.shiftl (u32 harbor) HANDLE_REMOTE_SHIFT)) n.

(** [uboss_harbor_message_isremote]. *)
Definition uboss_harbor_message_isremote (handle : Z) (n : node) : option bool :=
  _ ← cassert (negb (n_harbor n =? 2 ^ 32 - 1));
  let h := Z.land handle (2 ^ 32 - 1 - HANDLE_MASK) in
  Some (negb (h =? n_harbor n) && negb (h =? 0)).

(** [uboss_isremote]: the answer and the harbor. *)
Definition uboss_isremote (handle : Z) (n : node) : option (bool * Z) :=
  ret ← uboss_harbor_message_isremote handle n;
  Some (ret, Z.shiftr handle HANDLE_REMOTE_SHIFT).

(** [uboss_harbor_start]. *)
Definition uboss_harbor_start (c : ctxid) (n : node) : option node :=
  n ← uboss_context_reserve c n; Some (set_remote (Some c) n).

(** [uboss_context_send]. *)
Definition uboss_context_send (c : ctxid) (msg sz source type session : Z) (n : node)
    : option node :=
  ctx ← n_ctxs n !! c;
  w ← uboss_mq_push (ctx_queue ctx)
        (Message source session msg (Z.lor sz (u64 (Z.shiftl type MESSAGE_TYPE_SHIFT)))) (n_mq n);
  Some (set_mq w n).

(** [uboss_harbor_send]: the block at [rmsg] is a [Remote]. *)
Definition uboss_harbor_send (rmsg source session : Z) (n : node) : option node :=
  b ← n_heap n !! rmsg;
  match b with
  | Bytes _ | SocketMsg _ _ _ _ _ => None
  | Remote name handle message sz =>
      let type := Z.shiftr sz MESSAGE_TYPE_SHIFT in
      let n := set_heap (<[rmsg := Remote name handle message (Z.land sz MESSAGE_TYPE_MASK)]> (n_heap n))
                 (n_brk n) n in
      _ ← cassert (negb (type =? PTYPE_SYSTEM) && negb (type =? PTYPE_HARBOR));
      remote ← n_remote n;
      uboss_context_send remote rmsg SIZEOF_REMOTE_MESSAGE source type session n
  end.

Section server.
(** The module loader and the functions of the modules: [instance_create mod],
    [instance_init mod instance ctx param], [instance_release mod instance] and
    [callback cb ctx type session source msg sz], whose result says whether the message
    is kept. *)
Variable module_query : list Z -> option Z.
Variable instance_create : Z -> option Z.
Variable instance_init : Z -> Z -> ctxid -> option (list Z) -> node -> option (Z * node).
Variable instance_release : Z -> Z -> node -> option node.
Variable callback : Z -> ctxid -> Z -> Z -> Z -> Z -> Z -> node -> option (bool * node).

(** ** Life cycle *)

(** [delete_context]. *)
Definition delete_context (c : ctxid) (n : node) : option node :=
  ctx ← n_ctxs n !! c;
  n ← instance_release (ctx_mod ctx) (ctx_instance ctx) n;
  w ← uboss_mq_mark_release (ctx_queue ctx) (n_mq n);
  let n := set_mq w n in
  Some (context_dec (set_ctxs (delete c (n_ctxs n)) n)).

(** [uboss_context_release]: whether the context is still there. *)
Definition uboss_context_release (c : ctxid) (n : node) : option (bool * node) :=
  ctx ← n_ctxs n !! c;
  n ← update c (set_ref (ctx_ref ctx - 1)) n;
  if ctx_ref ctx - 1 =? 0 then n ← delete_context c n; Some (false, n)
  else Some (true, n).

(** [uboss_handle_retire] with the release of the registry's reference. *)
Definition node_retire (handle : Z) (n : node) : option (Z * node) :=
  '(r, c, s) ← uboss_handle_retire (handle_of n) handle (n_handles n);
  let n := set_handles s n in
  match c with
  | Some c => '(_, n) ← uboss_context_release c n; Some (r, n)
  | None => Some (r, n)
  end.

(** [uboss_harbor_exit]. *)
Definition uboss_harbor_exit (n : node) : option node :=
  let ctx := n_remote n in
  let n := set_remote None n in
  match ctx with
  | Some c => '(_, n) ← uboss_context_release c n; Some n
  | None => Some n
  end.

(** [uboss_context_push]. *)
Definition uboss_context_push (handle : Z) (message : uboss_message) (n : node)
    : option (Z * node) :=
  '(r, n) ← node_grab handle n;
  match r with
  | None => Some (-1, n)
  | Some c =>
      ctx ← n_ctxs n !! c;
      w ← uboss_mq_push (ctx_queue ctx) message (n_mq n);
      '(_, n) ← uboss_context_release c (set_mq w n);
      Some (0, n)
  end.

(** [uboss_context_endless]. *)
Definition uboss_context_endless (handle : Z) (n : node) : option node :=
  '(r, n) ← node_grab handle n;
  match r with
  | None => Some n
  | Some c =>
      n ← update c (set_endless true) n;
      '(_, n) ← uboss_context_release c n; Some n
  end.

(** [uboss_error] with the formatted text; the address of the logger is looked up once.
    The result of [uboss_context_push] is ignored. *)
Definition uboss_error (c : option ctxid) (text : list Z) (n : node) : option node :=
  n ← (if n_logger n =? 0 then
         h ← uboss_handle_findname (bytes_of "logger") (n_handles n); Some (set_logger h n)
       else Some n);
  if n_logger n =? 0 then Some n
  else
    let '(data, n) := uboss_malloc (Bytes (text ++ [0])) n in
    source ← (match c with Some c => uboss_context_handle c n | None => Some 0 end);
    '(_, n) ← uboss_context_push (n_logger n)
       (Message source 0 data (Z.lor (zlen text) (Z.shiftl PTYPE_TEXT MESSAGE_TYPE_SHIFT))) n;
    Some n.

(** ** Sending *)

(** [_filter_args]: session, data and size. *)
Definition _filter_args (c : option ctxid) (type session data sz : Z) (n : node)
    : option (Z * Z * Z * node) :=
  let needcopy := Z.land type PTYPE_TAG_DONTCOPY =? 0 in
  let allocsession := negb (Z.land type PTYPE_TAG_ALLOCSESSION =? 0) in
  let type := Z.land type 0xff in
  '(session, n) ← (if allocsession : bool then
      _ ← cassert (session =? 0);
      c ← c; uboss_context_newsession c n
    else Some (session, n));
  '(data, n) ← (if needcopy && negb (data =? 0) then
      b ← n_heap n !! data;
      match b with
      | Bytes l => l ← slice l 0 sz; Some (uboss_malloc (Bytes (l ++ [0])) n)
      | _ => None
      end
    else Some (data, n));
  Some (session, data, Z.lor sz (Z.shiftl type MESSAGE_TYPE_SHIFT), n).

(** [uboss_send]. *)
Definition uboss_send (c : option ctxid) (source destination type session data sz : Z) (n : node)
    : option (Z * node) :=
  if negb (Z.land sz MESSAGE_TYPE_MASK =? sz) then
    n ← uboss_error c (bytes_of "The message to " ++ fmt_x destination ++ bytes_of " is too large") n;
    n ← (if negb (Z.land type PTYPE_TAG_DONTCOPY =? 0) then uboss_free data n else Some n);
    Some (-1, n)
  else
    '(session, data, sz, n) ← _filter_args c type session data sz n;
    source ← (if source =? 0 then c ← c; uboss_context_handle c n else Some source);
    if destination =? 0 then Some (session, n)
    else
      remote ← uboss_harbor_message_isremote destination n;
      if remote : bool then
        let '(rmsg, n) := uboss_malloc (Remote [] destination data sz) n in
        n ← uboss_harbor_send rmsg source session n;
        Some (session, n)
      else
        '(r, n) ← uboss_context_push destination (Message source session data sz) n;
        if negb (r =? 0) then n ← uboss_free data n; Some (-1, n)
        else Some (session, n).

(** [copy_name]: [GLOBALNAME_LENGTH] bytes, padded with zeros. *)
Definition copy_name (addr : list Z) : list Z :=
  take 16 addr ++ replicate (16 - length (take 16 addr)) 0.

(** [uboss_queryname]; the C string [name] has no zero. *)
Definition uboss_queryname (c : option ctxid) (name : list Z) (n : node) : option (Z * node) :=
  match name with
  | 58 :: name => Some (u32 (strtoul 16 name), n)
  | 46 :: name => h ← uboss_handle_findname name (n_handles n); Some (h, n)
  | _ =>
      n ← uboss_error c (bytes_of "Don't support query global name " ++ name) n;
      Some (0, n)
  end.

(** [uboss_sendname]. *)
Definition uboss_sendname (c : option ctxid) (source : Z) (addr : list Z) (type session data sz : Z)
    (n : node) : option (Z * node) :=
  source ← (if source =? 0 then c ← c; uboss_context_handle c n else Some source);
  match addr with
  | 58 :: addr => uboss_send c source (u32 (strtoul 16 addr)) type session data sz n
  | 46 :: addr =>
      des ← uboss_handle_findname addr (n_handles n);
      if des =? 0 then
        n ← (if negb (Z.land type PTYPE_TAG_DONTCOPY =? 0) then uboss_free data n else Some n);
        Some (-1, n)
      else uboss_send c source des type session data sz n
  | _ =>
      '(session, data, sz, n) ← _filter_args c type session data sz n;
      let '(rmsg, n) := uboss_malloc (Remote (copy_name addr) 0 data sz) n in
      n ← uboss_harbor_send rmsg source session n;
      Some (session, n)
  end.

(** [drop_message]: the error for the source of a message that is not delivered. *)
Definition drop_message (handle : Z) (msg : uboss_message) (n : node) : option node :=
  n ← uboss_free (msg_data msg) n;
  _ ← cassert (negb (handle =? 0));
  '(_, n) ← uboss_send None handle (msg_source msg) PTYPE_ERROR 0 0 0 n;
  Some n.

(** The messages a released queue can hold. *)
Definition queue_fuel (q : qid) (n : node) : nat :=
  match mqs (n_mq n) !! q with
  | Some mq => S (Z.to_nat (uboss_mq_length mq))
  | None => O
  end.

(** The first part of [uboss_context_new], in the steps that other threads can see.  The
    context, with one reference for the registry and one for the caller, gets a place in
    the registry while its [handle] is still 0 and its [queue] not set: [queue] is the
    address that the queue will have. *)
Definition context_register (mod_ inst : Z) (n : node) : option (ctxid * Z * node) :=
  let c := n_fresh n in
  let queue := S (n_fresh n) in
  let n := set_fresh (S (S (n_fresh n))) n in
  let n := set_ctxs (<[c := Context mod_ inst None queue 0 0 2 0 false false]> (n_ctxs n)) n in
  '(handle, s) ← uboss_handle_register (handle_of n) c (n_handles n);
  Some (c, handle, set_handles s n).

(** [ctx->handle = ...]. *)
Definition context_store_handle (c : ctxid) (handle : Z) (n : node) : option node :=
  update c (set_ctx_handle handle) n.

(** [ctx->queue = uboss_mq_create(ctx->handle)]. *)
Definition context_create_queue (c : ctxid) (handle : Z) (n : node) : option (qid * node) :=
  ctx ← n_ctxs n !! c;
  w ← uboss_mq_create (ctx_queue ctx) handle (n_mq n);
  Some (ctx_queue ctx, set_mq w n).

(** All of them: the context, its handle and its queue. *)
Definition new_context (mod_ inst : Z) (n : node) : option (ctxid * qid * node) :=
  '(c, handle, n) ← context_register mod_ inst n;
  n ← context_store_handle c handle n;
  '(queue, n) ← context_create_queue c handle n;
  Some (c, queue, context_inc n).

(** [uboss_context_new]. *)
Definition uboss_context_new (name : list Z) (param : option (list Z)) (n : node)
    : option (option ctxid * node) :=
  match module_query name with
  | None => Some (None, n)
  | Some mod_ =>
  match instance_create mod_ with
  | None => Some (None, n)
  | Some inst =>
    '(c, queue, n) ← new_context mod_ inst n;
    '(r, n) ← instance_init mod_ inst c param n;
    if r =? 0 then
      '(ret, n) ← uboss_context_release c n;
      n ← (if ret : bool then update c (set_init true) n else Some n);
      w ← uboss_globalmq_push queue (n_mq n);
      let n := set_mq w n in
      if ret : bool then
        n ← uboss_error (Some c) (bytes_of "LAUNCH " ++ name ++ bytes_of " " ++ default [] param) n;
        Some (Some c, n)
      else Some (None, n)
    else
      n ← uboss_error (Some c) (bytes_of "FAILED launch " ++ name) n;
      handle ← uboss_context_handle c n;
      '(_, n) ← uboss_context_release c n;
      '(_, n) ← node_retire handle n;
      n ← uboss_mq_release (drop_message handle) (queue_fuel queue n) queue n;
      Some (None, n)
  end
  end.

(** ** Dispatch *)

(** [dispatch_message]. *)
Definition dispatch_message (c : ctxid) (msg : uboss_message) (n : node) : option node :=
  ctx ← n_ctxs n !! c;
  _ ← cassert (ctx_init ctx);
  let type := Z.shiftr (msg_sz msg) MESSAGE_TYPE_SHIFT in
  let sz := Z.land (msg_sz msg) MESSAGE_TYPE_MASK in
  n ← update c (set_count (s32 (ctx_message_count ctx + 1))) n;
  cb ← ctx_cb ctx;
  '(reserve_msg, n) ← callback cb c type (msg_session msg) (msg_source msg) (msg_data msg) sz n;
  if reserve_msg : bool then Some n else uboss_free (msg_data msg) n.

(** [uboss_context_dispatchall]; [fuel] bounds the messages. *)
Fixpoint uboss_context_dispatchall (fuel : nat) (c : ctxid) (n : node) : option node :=
  match fuel with
  | O => None
  | S fuel =>
      ctx ← n_ctxs n !! c;
      '(r, w) ← uboss_mq_pop (ctx_queue ctx) (n_mq n);
      let n := set_mq w n in
      match r with
      | None => Some n
      | Some msg => n ← dispatch_message c msg n; uboss_context_dispatchall fuel c n
      end
  end.

(** core/uboss_monitor.c *)
Record uboss_monitor := Monitor {
  um_version : Z;
  um_check_version : Z;
  um_source : Z;
  um_destination : Z
}.

Definition uboss_monitor_new : uboss_monitor := Monitor 0 0 0 0.

Definition uboss_monitor_trigger (source destination : Z) (um : uboss_monitor) : uboss_monitor :=
  Monitor (s32 (um_version um + 1)) (um_check_version um) source destination.

(** [%08x]. *)
Definition fmt_08x (z : Z) : list Z := replicate (8 - length (fmt_x z)) 48 ++ fmt_x z.

Definition uboss_monitor_check (um : uboss_monitor) (n : node) : option (uboss_monitor * node) :=
  if um_version um =? um_check_version um then
    if negb (um_destination um =? 0) then
      n ← uboss_context_endless (um_destination um) n;
      n ← uboss_error None (bytes_of "A message from [ :" ++ fmt_08x (um_source um) ++ bytes_of " ] to [ :" ++
        fmt_08x (um_destination um) ++ bytes_of " ] maybe in an endless loop (version = " ++
        fmt_d (um_version um) ++ bytes_of ")") n;
      Some (um, n)
    else Some (um, n)
  else Some (Monitor (um_version um) (um_version um) (um_source um) (um_destination um), n).

(** One turn of the loop of [uboss_context_message_dispatch], after the pop. *)
Definition dispatch_one (c : ctxid) (q : qid) (handle : Z) (msg : uboss_message)
    (um : uboss_monitor) (n : node) : option (uboss_monitor * node) :=
  mq ← mqs (n_mq n) !! q;
  let '(overload, mq) := uboss_mq_overload mq in
  let n := set_mq (put_mq q mq (n_mq n)) n in
  n ← (if negb (overload =? 0) then
         uboss_error (Some c) (bytes_of "May overload, message queue length = " ++ fmt_d overload) n
       else Some n);
  let um := uboss_monitor_trigger (msg_source msg) handle um in
  ctx ← n_ctxs n !! c;
  n ← (match ctx_cb ctx with
       | None => uboss_free (msg_data msg) n
       | Some _ => dispatch_message c msg n
       end);
  Some (uboss_monitor_trigger 0 0 um, n).

(** The loop: [Some true] when it stopped at an empty queue. *)
Fixpoint dispatch_loop (fuel : nat) (i count : Z) (weight : Z) (c : ctxid) (q : qid) (handle : Z)
    (um : uboss_monitor) (n : node) : option (bool * uboss_monitor * node) :=
  if i <? count then
    match fuel with
    | O => None
    | S fuel =>
        '(r, w) ← uboss_mq_pop q (n_mq n);
        let n := set_mq w n in
        match r with
        | None => Some (true, um, n)
        | Some msg =>
            mq ← mqs (n_mq n) !! q;
            let count := if (i =? 0) && (0 <=? weight)
                         then Z.shiftr (uboss_mq_length mq) weight else count in
            '(um, n) ← dispatch_one c q handle msg um n;
            dispatch_loop fuel (i + 1) count weight c q handle um n
        end
    end
  else Some (false, um, n).

(** [uboss_context_message_dispatch]: the next queue for the worker. *)
Definition uboss_context_message_dispatch (um : uboss_monitor) (q : option qid) (weight : Z) (n : node)
    : option (option qid * uboss_monitor * node) :=
  '(q, n) ← (match q with
             | Some q => Some (Some q, n)
             | None => '(q, w) ← uboss_globalmq_pop (n_mq n); Some (q, set_mq w n)
             end);
  match q with
  | None => Some (None, um, n)
  | Some q =>
      handle ← uboss_mq_handle q (n_mq n);
      '(r, n) ← node_grab handle n;
      match r with
      | None =>
          n ← uboss_mq_release (drop_message handle) (queue_fuel q n) q n;
          '(q, w) ← uboss_globalmq_pop (n_mq n);
          Some (q, um, set_mq w n)
      | Some c =>
          '(empty, um, n) ← dispatch_loop (S (queue_fuel q n)) 0 1 weight c q handle um n;
          if empty : bool then
            '(_, n) ← uboss_context_release c n;
            '(q, w) ← uboss_globalmq_pop (n_mq n);
            Some (q, um, set_mq w n)
          else
            ctx ← n_ctxs n !! c;
            _ ← cassert (bool_decide (q = ctx_queue ctx));
            '(nq, w) ← uboss_globalmq_pop (n_mq n);
            let n := set_mq w n in
            '(next, n) ← (match nq with
                          | Some nq => w ← uboss_globalmq_push q (n_mq n); Some (nq, set_mq w n)
                          | None => Some (q, n)
                          end);
            '(_, n) ← uboss_context_release c n;
            Some (Some next, um, n)
      end
  end.
End server.
