(* ===== verification/UbossModule.v ===== *)
(** core/uboss_module.c: the table of the modules that services are made of.

    A module is its name, what [dlopen] gave and its four functions.  The names and the
    path are C strings without their zero.  [Err] is the [exit] of the process, [Ub] an
    access outside the temporary string or a failed assertion.  [dlopen] and [dlsym] are parameters.  The entries
    of the table are never changed once they are counted; a thread looks into the table
    without the lock first, and sees it as it was some time ago. *)
From Stdlib Require Import String.
From S2P Require Import Prelude Bytes Buffer CStr.
Open Scope Z_scope.

Definition MAX_MODULE_TYPE : Z := 32.

Record uboss_module := MkModule {
  md_name : list Z;
  md_module : Z;
  md_create : option Z;
  md_init : option Z;
  md_release : option Z;
  md_signal : option Z
}.

(** [struct modules]; [count] is the length of the table. *)
Record modules := Modules { mo_path : list Z; mo_m : list uboss_module }.

Section module.
Variable dlopen : list Z -> option Z.
Variable dlsym : Z -> list Z -> option Z.

Fixpoint skip_semicolons (path : list Z) : list Z :=
  match path with c :: l => if c =? 59 then skip_semicolons l else path | [] => [] end.

(** How many characters come before one that is [p], or the end. *)
Fixpoint prefix_len (p : Z -> bool) (l : list Z) : nat :=
  match l with [] => O | c :: l => if p c then O else S (prefix_len p l) end.

(** The loop of [_try_open]; [sz] is the size of [tmp]. *)
Fixpoint try_open_loop (fuel : nat) (sz : Z) (name path : list Z) : res (option Z) :=
  match fuel with
  | O => Ub
  | S fuel =>
      let path := skip_semicolons path in
      if bool_decide (path = []) then Ok None else
      let tmp := replicate (Z.to_nat sz) 0 in
      let len := prefix_len (fun c => c =? 59) path in
      let i := prefix_len (fun c => c =? 63) (take len path) in
      tmp ← lift (memcpy tmp 0 (take i path));
      tmp ← lift (memcpy tmp (Z.of_nat i) name);
      if default 0 (path !! i) =? 63 then
        tmp ← lift (memcpy tmp (Z.of_nat i + zlen name) (take (len - i - 1) (drop (i + 1) path)));
        file ← lift (until_zero tmp);
        match dlopen file with
        | Some dl => Ok (Some dl)
        | None => try_open_loop fuel sz name (drop len path)
        end
      else Err "Invalid Module path"
  end.

(** [_try_open]: every turn uses up a character of the path. *)
Definition _try_open (path name : list Z) : res (option Z) :=
  try_open_loop (S (length path)) (zlen path + zlen name) name path.

(** [_query]: the index of the module. *)
Fixpoint query_from (i : Z) (m : list uboss_module) (name : list Z) : option Z :=
  match m with
  | [] => None
  | x :: m => if bool_decide (md_name x = name) then Some i else query_from (i + 1) m name
  end.

Definition _query (name : list Z) (M : modules) : option Z := query_from 0 (mo_m M) name.

(** [_open_sym]: the module with its functions; it is accepted when it has [_init]. *)
Definition _open_sym (name : list Z) (dl : Z) : uboss_module :=
  MkModule name dl (dlsym dl (name ++ bytes_of "_create")) (dlsym dl (name ++ bytes_of "_init"))
    (dlsym dl (name ++ bytes_of "_release")) (dlsym dl (name ++ bytes_of "_signal")).

(** [uboss_module_query] from [SPIN_LOCK] on. *)
Definition locked_query (name : list Z) (M : modules) : res (option Z * modules) :=
  match _query name M with
  | Some i => Ok (Some i, M)
  | None =>
      if zlen (mo_m M) <? MAX_MODULE_TYPE then
        dl ← _try_open (mo_path M) name;
        match dl with
        | Some dl =>
            let mod_ := _open_sym name dl in
            match md_init mod_ with
            | Some _ => Ok (Some (zlen (mo_m M)), Modules (mo_path M) (mo_m M ++ [mod_]))
            | None => Ok (None, M)
            end
        | None => Ok (None, M)
        end
      else Ok (None, M)
  end.

(** [uboss_module_query]: [seen] is the table at the look without the lock. *)
Definition uboss_module_query (seen : modules) (name : list Z) (M : modules) : res (option Z * modules) :=
  match _query name seen with
  | Some i => Ok (Some i, M)
  | None => locked_query name M
  end.

(** [uboss_module_insert]. *)
Definition uboss_module_insert (mod_ : uboss_module) (M : modules) : res modules :=
  match _query (md_name mod_) M with
  | Some _ => Ub
  | None => if zlen (mo_m M) <? MAX_MODULE_TYPE then Ok (Modules (mo_path M) (mo_m M ++ [mod_])) else Ub
  end.
End module.

(** The functions of a module, when it has them: [run] calls one. *)
Definition uboss_module_instance_create (run : Z -> Z) (m : uboss_module) : Z :=
  match md_create m with Some f => run f | None => -1 end.
Definition uboss_module_instance_init {W} (run : Z -> Z -> Z -> list Z -> W -> option (Z * W)) (m : uboss_module)
    (inst ctx : Z) (parm : list Z) (w : W) : option (Z * W) :=
  f ← md_init m; run f inst ctx parm w.
Definition uboss_module_instance_release {W} (run : Z -> Z -> W -> W) (m : uboss_module) (inst : Z) (w : W) : W :=
  match md_release m with Some f => run f inst w | None => w end.
Definition uboss_module_instance_signal {W} (run : Z -> Z -> Z -> W -> W) (m : uboss_module) (inst signal : Z) (w : W) : W :=
  match md_signal m with Some f => run f inst signal w | None => w end.

(** [uboss_module_init]. *)
Definition uboss_module_init (path : list Z) : modules := Modules path [].

(** ** Reference *)

(** The parts of a path between semicolons that are not empty. *)
Fixpoint segments (cur path : list Z) : list (list Z) :=
  let flush rest := if bool_decide (cur = []) then rest else cur :: rest in
  match path with
  | [] => flush []
  | c :: path => if c =? 59 then flush (segments [] path) else segments (cur ++ [c]) path
  end.

(** The file for a name: it takes the place of the first question mark. *)
Definition expand (seg name : list Z) : option (list Z) :=
  let i := prefix_len (fun c => c =? 63) seg in
  match seg !! i with Some _ => Some (take i seg ++ name ++ drop (i + 1) seg) | None => None end.

(** The first file that opens. *)
Fixpoint open_first (dlopen : list Z -> option Z) (segs : list (list Z)) (name : list Z) : res (option Z) :=
  match segs with
  | [] => Ok None
  | seg :: segs =>
      match expand seg name with
      | None => Err "Invalid Module path"
      | Some file => match dlopen file with Some dl => Ok (Some dl) | None => open_first dlopen segs name end
      end
  end.

(** ** Opening *)

Lemma prefix_len_le p l : (prefix_len p l <= length l)%nat.
Proof. induction l as [|c l IH]; cbn; [done|]. destruct (p c); lia. Qed.

Lemma prefix_len_at p l c : l !! prefix_len p l = Some c -> p c = true.
Proof.
  induction l as [|x l IH]; cbn [prefix_len]; [done|]. destruct (p x) eqn:E; cbn; [by intros [= <-] | exact IH].
Qed.

Lemma prefix_len_before p l k c : (k < prefix_len p l)%nat -> l !! k = Some c -> p c = false.
Proof.
  revert k. induction l as [|x l IH]; intros k; cbn [prefix_len]; [lia|]. destruct (p x) eqn:E; [lia|].
  destruct k as [|k]; cbn; [by intros _ [= <-]|]. intros Hk. apply IH. lia.
Qed.

Lemma segments_skip l : segments [] (skip_semicolons l) = segments [] l.
Proof.
  induction l as [|c l IH]; [done|]. cbn [skip_semicolons]. destruct (Z.eqb_spec c 59) as [->|]; [|done]. exact IH.
Qed.

Lemma segments_first cur l : cur ++ take (prefix_len (fun c => c =? 59) l) l <> [] ->
  segments cur l = (cur ++ take (prefix_len (fun c => c =? 59) l) l) ::
    segments [] (drop (prefix_len (fun c => c =? 59) l) l).
Proof.
  revert cur. induction l as [|c l IH]; intros cur Hne; cbn [prefix_len segments] in *.
  - cbn [take drop] in *. rewrite app_nil_r in *. by rewrite bool_decide_eq_false_2.
  - destruct (Z.eqb_spec c 59) as [->|Hc]; cbn [take drop] in *.
    + rewrite app_nil_r in *. rewrite bool_decide_eq_false_2 by done. done.
    + rewrite IH; rewrite <-app_assoc; [done|]. exact Hne.
Qed.

Lemma skip_first l c k : skip_semicolons l = c :: k -> c <> 59.
Proof.
  induction l as [|x l IH]; cbn [skip_semicolons]; [done|]. destruct (Z.eqb_spec x 59); [exact IH|]. by intros [= <- _].
Qed.

Lemma skip_length l : (length (skip_semicolons l) <= length l)%nat.
Proof. induction l as [|x l IH]; cbn [skip_semicolons]; [done|]. destruct (x =? 59); cbn; lia. Qed.

Lemma skip_elem l c : c ∈ skip_semicolons l -> c ∈ l.
Proof.
  induction l as [|x l IH]; cbn [skip_semicolons]; [done|]. destruct (x =? 59); [|done]. intros Hc. right. by apply IH.
Qed.

Lemma skip_twice l : skip_semicolons (skip_semicolons l) = skip_semicolons l.
Proof.
  induction l as [|x l IH]; cbn [skip_semicolons]; [done|]. destruct (x =? 59) eqn:E; [done|]. cbn [skip_semicolons]. by rewrite E.
Qed.

Lemma file_no_zero i (seg name : list Z) : 0 ∉ seg -> 0 ∉ name -> 0 ∉ take i seg ++ name ++ drop (i + 1) seg.
Proof.
  rewrite !elem_of_app. intros Hs Hn [H|[H|H]]; [|done|]; apply Hs; [by eapply subseteq_take | by eapply subseteq_drop].
Qed.

(** What [tmp] holds when a file name has been put together in it: it fits, with its zero. *)
Lemma build_file (a b c : list Z) sz : 0 ∉ a ++ b ++ c -> zlen (a ++ b ++ c) < sz ->
  (tmp ← lift (memcpy (replicate (Z.to_nat sz) 0) 0 a); tmp ← lift (memcpy tmp (zlen a) b);
   tmp ← lift (memcpy tmp (zlen a + zlen b) c); lift (until_zero tmp)) = Ok (a ++ b ++ c).
Proof.
  intros Hz Hsz. rewrite !zlen_app in Hsz. pose proof (zlen_nonneg a). pose proof (zlen_nonneg b). pose proof (zlen_nonneg c).
  set (t0 := replicate (Z.to_nat sz) 0). assert (zlen t0 = sz) as Ht0 by (subst t0; rewrite zlen_replicate; lia).
  pose proof (memcpy_at [] t0 a 0 eq_refl ltac:(lia)) as E1. cbn [app] in E1. rewrite E1. cbn [lift mbind res_bind].
  rewrite put_assoc. cbn [app]. assert (zlen (drop (length a) t0) = sz - zlen a) as Ht1 by (rewrite zlen_drop_length; lia).
  rewrite (memcpy_at a) by (done || lia). cbn [lift mbind res_bind]. rewrite put_assoc.
  rewrite (memcpy_at (a ++ b)); [|by rewrite zlen_app|rewrite zlen_drop_length; lia]. cbn [lift mbind res_bind].
  rewrite put_assoc.
  destruct (drop (length c) (drop (length b) (drop (length a) t0))) as [|x r] eqn:E.
  - apply (f_equal length) in E. rewrite !length_drop in E. unfold zlen in *. cbn in E. lia.
  - assert (x = 0) as ->.
    { rewrite !drop_drop in E. assert (x ∈ t0) as Hin by (eapply (subseteq_drop _ t0); rewrite E; by left).
      subst t0. by apply elem_of_replicate in Hin as [-> _]. }
    rewrite app_assoc in Hz |- *. by rewrite until_zero_app.
Qed.

(** A part without a question mark still fits, with the name behind it. *)
Lemma build_start (a b : list Z) sz : zlen a + zlen b <= sz ->
  exists tmp, (tmp ← lift (memcpy (replicate (Z.to_nat sz) 0) 0 a); lift (memcpy tmp (zlen a) b)) = Ok tmp.
Proof.
  intros Hsz. pose proof (zlen_nonneg a). pose proof (zlen_nonneg b).
  set (t0 := replicate (Z.to_nat sz) 0). assert (zlen t0 = sz) as Ht0 by (subst t0; rewrite zlen_replicate; lia).
  pose proof (memcpy_at [] t0 a 0 eq_refl ltac:(lia)) as E1. cbn [app] in E1. rewrite E1. cbn [lift mbind res_bind].
  rewrite put_assoc. cbn [app]. assert (zlen (drop (length a) t0) = sz - zlen a) as Ht1 by (rewrite zlen_drop_length; lia).
  rewrite (memcpy_at a) by (done || lia). by eexists.
Qed.

(** The character at which the copying of a part stops is a question mark, or the part is over. *)
Lemma mark_at q : let len := prefix_len (fun c => c =? 59) q in
  let seg := take len q in let i := prefix_len (fun c => c =? 63) seg in
  (default 0 (q !! i) =? 63) = bool_decide (is_Some (seg !! i)).
Proof.
  intros len seg i. pose proof (prefix_len_le (fun c => c =? 59) q) as Hlen. fold len in Hlen.
  assert (length seg = len) as Hseg by (subst seg; rewrite length_take; lia).
  pose proof (prefix_len_le (fun c => c =? 63) seg) as Hi. fold i in Hi.
  destruct (decide ((i < len)%nat)) as [Hlt|Hge].
  - assert (seg !! i = q !! i) as Es by (subst seg; by rewrite lookup_take_lt).
    destruct (lookup_lt_is_Some_2 seg i) as [c Hc]; [lia|]. rewrite <-Es, Hc. cbn [default].
    pose proof (prefix_len_at _ _ _ Hc) as H63. cbn beta in H63. by rewrite bool_decide_eq_true_2 by by eexists.
  - rewrite (lookup_ge_None_2 seg) by lia. assert (i = len) as -> by lia. rewrite bool_decide_eq_false_2 by (by intros [? ?]).
    destruct (q !! len) as [c|] eqn:E; [|done]. apply prefix_len_at in E. cbn beta in E. by apply Z.eqb_eq in E as ->.
Qed.

Section module.
Variable dlopen : list Z -> option Z.
Variable dlsym : Z -> list Z -> option Z.

(** One turn: the first part is expanded and tried. *)
Lemma try_open_turn fuel sz name q : q <> [] -> (forall c k, q = c :: k -> c <> 59) -> 0 ∉ name -> 0 ∉ q ->
  zlen q + zlen name <= sz -> skip_semicolons q = q ->
  let len := prefix_len (fun c => c =? 59) q in
  try_open_loop dlopen (S fuel) sz name q =
    match expand (take len q) name with
    | None => Err "Invalid Module path"
    | Some file =>
        match dlopen file with Some dl => Ok (Some dl) | None => try_open_loop dlopen fuel sz name (drop len q) end
    end.
Proof.
  intros Hq Hfirst Hname Hz Hsz Hskip len. cbn [try_open_loop]. rewrite Hskip, bool_decide_eq_false_2 by done.
  fold len. set (seg := take len q).
  set (i := prefix_len (fun c => c =? 63) seg). unfold expand. fold i.
  pose proof (mark_at q) as Hmark. cbv zeta in Hmark. fold len in Hmark. fold seg in Hmark. fold i in Hmark.
  rewrite Hmark.
  pose proof (prefix_len_le (fun c => c =? 59) q) as Hlen. fold len in Hlen.
  pose proof (prefix_len_le (fun c => c =? 63) seg) as Hi. fold i in Hi.
  assert (length seg = len) as Hseg by (subst seg; rewrite length_take; lia).
  assert (take i q = take i seg) as -> by (subst seg; rewrite take_take; f_equal; lia).
  assert (Z.of_nat i = zlen (take i seg)) as Hzi by (unfold zlen; rewrite length_take; lia).
  assert (zlen (take i seg) <= zlen q) as Hiq by (unfold zlen in *; lia).
  destruct (seg !! i) as [c|] eqn:Ec; cycle 1.
  { rewrite bool_decide_eq_false_2 by (by intros [? ?]).
    destruct (build_start (take i seg) name sz) as [tmp E]; [lia|]. rewrite <-Hzi in E.
    destruct (lift (memcpy _ 0 _)) as [t1| |]; cbn [mbind res_bind] in E |- *; [|done..]. by rewrite E. }
  rewrite bool_decide_eq_true_2 by (by eexists). apply lookup_lt_Some in Ec as Hic.
  assert (take (len - i - 1) (drop (i + 1) q) = drop (i + 1) seg) as ->.
  { subst seg. rewrite skipn_firstn_comm. f_equal. lia. }
  pose proof (build_file (take i seg) name (drop (i + 1) seg) sz) as Hb. rewrite <-Hzi in Hb.
  assert (0 ∉ seg) as Hzs by (intros Hx; apply Hz; by eapply subseteq_take).
  assert (zlen (take i seg ++ name ++ drop (i + 1) seg) < sz) as Hfit.
  { assert (zlen seg <= zlen q) by (unfold zlen; lia).
    assert (zlen (drop (i + 1) seg) = zlen seg - Z.of_nat i - 1) by (unfold zlen; rewrite length_drop; lia).
    rewrite !zlen_app. lia. }
  specialize (Hb ltac:(by apply file_no_zero) Hfit).
  destruct (lift (memcpy _ 0 _)) as [t1| |]; cbn [mbind res_bind] in Hb |- *; [|done..].
  destruct (lift (memcpy t1 _ _)) as [t2| |]; cbn [mbind res_bind] in Hb |- *; [|done..].
  destruct (lift (memcpy t2 _ _)) as [t3| |]; cbn [mbind res_bind] in Hb |- *; [|done..].
  by rewrite Hb.
Qed.

(** The loop tries the parts of the path in turn. *)
Lemma try_open_loop_spec sz name : 0 ∉ name -> forall fuel path, 0 ∉ path -> zlen path + zlen name <= sz ->
  (length path < fuel)%nat -> try_open_loop dlopen fuel sz name path = open_first dlopen (segments [] path) name.
Proof.
  intros Hname. induction fuel as [|fuel IH]; intros path Hz Hsz Hf; [lia|].
  rewrite <-segments_skip. pose proof (skip_length path) as Hle. pose proof (skip_elem path 0) as Hel.
  pose proof (skip_first path) as Hfirst.
  assert (try_open_loop dlopen (S fuel) sz name path = try_open_loop dlopen (S fuel) sz name (skip_semicolons path)) as ->
    by (cbn [try_open_loop]; by rewrite skip_twice).
  pose proof (skip_twice path) as Htw. set (q := skip_semicolons path) in *. clearbody q.
  destruct (decide (q = [])) as [->|Hq]; [done|].
  assert (zlen q <= zlen path) as Hql by (unfold zlen; lia).
  rewrite try_open_turn by (auto; lia).
  set (len := prefix_len (fun c => c =? 59) q). pose proof (prefix_len_le (fun c => c =? 59) q) as Hlen. fold len in Hlen.
  assert ((0 < len)%nat) as Hpos.
  { subst len. destruct q as [|c q]; [done|]. cbn [prefix_len]. specialize (Hfirst c q eq_refl).
    rewrite (proj2 (Z.eqb_neq _ _)) by done. lia. }
  rewrite (segments_first [] q); cbn [app]; fold len; cycle 1.
  { intros E. apply (f_equal length) in E. rewrite length_take in E. change (length (@nil Z)) with 0%nat in E. lia. }
  cbn [open_first]. destruct (expand _ _) as [file|]; [|done]. destruct (dlopen file); [done|].
  apply IH.
  - intros H0. apply Hz, Hel. by eapply subseteq_drop.
  - unfold zlen in *. rewrite length_drop. lia.
  - rewrite length_drop. lia.
Qed.

(** ** The table *)

(** Every name is there once, the table is not longer than its array, and every module has
    the function that is called without a look ([init]). *)
Definition table_ok (M : modules) : Prop :=
  NoDup (md_name <$> mo_m M) /\ zlen (mo_m M) <= MAX_MODULE_TYPE /\ Forall (fun m => is_Some (md_init m)) (mo_m M).

Lemma query_from_found i m name k x : m !! k = Some x -> md_name x = name -> NoDup (md_name <$> m) ->
  query_from i m name = Some (i + Z.of_nat k).
Proof.
  revert i k. induction m as [|y m IH]; intros i [|k] Hk Hx Hnd; [done..| |]; cbn [query_from fmap list_fmap] in *.
  - injection Hk as ->. rewrite bool_decide_eq_true_2 by done. f_equal. lia.
  - apply NoDup_cons in Hnd as [Hni Hnd]. cbn in Hk. rewrite bool_decide_eq_false_2.
    + rewrite (IH _ k) by done. f_equal. lia.
    + intros Hy. apply Hni. rewrite Hy, <-Hx. apply list_elem_of_fmap_2. by eapply list_elem_of_lookup_2.
Qed.

Lemma query_from_missing i m name : name ∉ md_name <$> m -> query_from i m name = None.
Proof.
  revert i. induction m as [|y m IH]; intros i Hn; [done|]; cbn [query_from fmap list_fmap] in *.
  apply not_elem_of_cons in Hn as [Hy Hn]. rewrite bool_decide_eq_false_2 by congruence. by apply IH.
Qed.

Lemma query_from_app i m m' name k : query_from i m name = Some k -> query_from i (m ++ m') name = Some k.
Proof.
  revert i. induction m as [|y m IH]; intros i; cbn [query_from app]; [done|]. case_bool_decide; [done|]. apply IH.
Qed.

Lemma named_at (m : list uboss_module) name : name ∈ md_name <$> m -> exists k x, m !! k = Some x /\ md_name x = name.
Proof. intros Hin. apply list_elem_of_fmap in Hin as (x & -> & Hx). apply list_elem_of_lookup in Hx as [k Hk]. by exists k, x. Qed.

(** What is found in an older table is at the same place in the table. *)
Lemma seen_same (seen M : modules) name i : mo_m seen `prefix_of` mo_m M -> _query name seen = Some i -> _query name M = Some i.
Proof. intros [m E]. unfold _query. rewrite E. apply query_from_app. Qed.

Lemma table_ok_add M m : table_ok M -> md_name m ∉ md_name <$> mo_m M -> zlen (mo_m M) < MAX_MODULE_TYPE ->
  is_Some (md_init m) -> table_ok (Modules (mo_path M) (mo_m M ++ [m])).
Proof.
  intros (Hnd & Hle & Hi) Hn Hlt Hm. split_and!; cbn [mo_m].
  - rewrite fmap_app. apply NoDup_app. split_and!; [done| |apply NoDup_singleton].
    intros x Hx Hs. apply Hn. cbn in Hs. apply list_elem_of_singleton in Hs as ->. exact Hx.
  - rewrite zlen_app. unfold MAX_MODULE_TYPE in *. change (zlen [m]) with 1. lia.
  - apply Forall_app. by repeat constructor.
Qed.

(** [uboss_module_insert] adds a module with a new name, and stops at its assertion otherwise. *)
Lemma insert_spec m M : table_ok M -> is_Some (md_init m) ->
  (md_name m ∉ md_name <$> mo_m M -> zlen (mo_m M) < MAX_MODULE_TYPE ->
     exists M', uboss_module_insert m M = Ok M' /\ table_ok M' /\ mo_m M' = mo_m M ++ [m]) /\
  (md_name m ∈ md_name <$> mo_m M \/ zlen (mo_m M) = MAX_MODULE_TYPE -> uboss_module_insert m M = Ub).
Proof.
  intros Hok Hm. unfold uboss_module_insert, _query. split.
  - intros Hn Hlt. rewrite query_from_missing, (proj2 (Z.ltb_lt (zlen (mo_m M)) MAX_MODULE_TYPE)) by done.
    eexists. split_and!; [done| |done]. by apply table_ok_add.
  - intros Hor. destruct (decide (md_name m ∈ md_name <$> mo_m M)) as [Hin|Hn].
    + apply named_at in Hin as (k & x & Hk & Hx). by rewrite (query_from_found 0 (mo_m M) (md_name m) k x Hk Hx) by apply Hok.
    + destruct Hor as [?|Hfull]; [done|]. rewrite query_from_missing, Hfull by done. done.
Qed.

(** What [uboss_module_query] has to give for a name that is not in the table. *)
Definition load (name : list Z) (M : modules) : res (option Z * modules) :=
  if decide (zlen (mo_m M) = MAX_MODULE_TYPE) then Ok (None, M)
  else
    dl ← open_first dlopen (segments [] (mo_path M)) name;
    match dl with
    | None => Ok (None, M)
    | Some dl =>
        match dlsym dl (name ++ bytes_of "_init") with
        | None => Ok (None, M)
        | Some _ => Ok (Some (zlen (mo_m M)), Modules (mo_path M) (mo_m M ++ [_open_sym dlsym name dl]))
        end
    end.

Lemma locked_query_load name M : table_ok M -> 0 ∉ name -> 0 ∉ mo_path M -> name ∉ md_name <$> mo_m M ->
  locked_query dlopen dlsym name M = load name M.
Proof.
  intros (_ & Hle & _) Hn Hp Hni. unfold locked_query, load, _query. rewrite query_from_missing by done.
  case_decide as Hfull; [by rewrite Hfull|].
  rewrite (proj2 (Z.ltb_lt (zlen (mo_m M)) MAX_MODULE_TYPE)) by lia.
  unfold _try_open. rewrite try_open_loop_spec by (done || lia).
  destruct (open_first _ _ _) as [[dl|]| |]; cbn [mbind res_bind]; [|done..]. unfold _open_sym at 1. cbn [md_init].
  by destruct (dlsym dl _).
Qed.

Lemma load_ok name M r M' : table_ok M -> name ∉ md_name <$> mo_m M -> load name M = Ok (r, M') ->
  table_ok M' /\ mo_m M `prefix_of` mo_m M' /\
  (forall i, r = Some i -> exists m, mo_m M' !! Z.to_nat i = Some m /\ i = Z.of_nat (length (mo_m M)) /\
     md_name m = name /\ is_Some (md_init m)).
Proof.
  intros Hok Hni. unfold load. case_decide as Hfull; [by intros [= <- <-]|].
  destruct (open_first _ _ _) as [[dl|]| |]; cbn [mbind res_bind]; [|by intros [= <- <-]|done..].
  destruct (dlsym dl _) as [f|] eqn:Ei; [|by intros [= <- <-]]. intros [= <- <-].
  assert (is_Some (md_init (_open_sym dlsym name dl))) as Hi
    by (unfold _open_sym; cbn [md_init]; by rewrite Ei). split_and!.
  - apply table_ok_add; [done|done| |done]. destruct Hok as (_ & ? & _). lia.
  - by eexists.
  - intros i [= <-]. exists (_open_sym dlsym name dl). cbn [mo_m]. split_and!; [|done..].
    unfold zlen. rewrite Nat2Z.id. by rewrite list_lookup_middle.
Qed.

Lemma query_locked name seen M : mo_m seen `prefix_of` mo_m M ->
  uboss_module_query dlopen dlsym seen name M = locked_query dlopen dlsym name M.
Proof.
  intros Hseen. unfold uboss_module_query. destruct (_query name seen) as [i|] eqn:E; [|done].
  unfold locked_query. by rewrite (seen_same seen M name i).
Qed.

Lemma locked_found name M k m : table_ok M -> mo_m M !! k = Some m -> md_name m = name ->
  locked_query dlopen dlsym name M = Ok (Some (Z.of_nat k), M).
Proof.
  intros Hok Hk Hm. unfold locked_query, _query. by rewrite (query_from_found 0 (mo_m M) name k m Hk Hm) by apply Hok.
Qed.

(** A module that a query gave is given from then on. *)
Lemma query_stays name seen M k m M' : table_ok M' -> mo_m M' !! k = Some m -> md_name m = name ->
  mo_m M' `prefix_of` mo_m M -> mo_m seen `prefix_of` mo_m M ->
  uboss_module_query dlopen dlsym seen name M = Ok (Some (Z.of_nat k), M).
Proof.
  intros Hok Hk Hm Hpre Hseen. rewrite query_locked by done. unfold locked_query.
  rewrite (seen_same M' M name (Z.of_nat k)); [done..|]. apply (query_from_found 0 _ _ k m Hk Hm), Hok.
Qed.

(** C19: looking a module up under double-checked locking.  [seen] is the table at the look without the
    lock, which is any earlier state of it.  The answer is the one the locked part gives on the table as it
    is; a module of that name is found at its one place and nothing is opened; otherwise the first part of
    the path whose file opens (the name in place of its first question mark) is loaded and accepted when it
    has an [init], a part without a question mark before it ends the process, and a full table gives nothing.
    No entry is moved, names stay distinct, and a later look, at whatever state from then on, gives the
    same module. *)
Theorem module_query_correct name seen M : table_ok M -> mo_m seen `prefix_of` mo_m M -> 0 ∉ name -> 0 ∉ mo_path M ->
  uboss_module_query dlopen dlsym seen name M = locked_query dlopen dlsym name M /\
  (forall k m, mo_m M !! k = Some m -> md_name m = name ->
     uboss_module_query dlopen dlsym seen name M = Ok (Some (Z.of_nat k), M)) /\
  (name ∉ md_name <$> mo_m M -> uboss_module_query dlopen dlsym seen name M = load name M) /\
  (forall r M', uboss_module_query dlopen dlsym seen name M = Ok (r, M') ->
     table_ok M' /\ mo_m M `prefix_of` mo_m M' /\
     forall i, r = Some i ->
       (exists m, mo_m M' !! Z.to_nat i = Some m /\ md_name m = name /\ is_Some (md_init m)) /\
       forall seen' M'', mo_m M' `prefix_of` mo_m M'' -> mo_m seen' `prefix_of` mo_m M'' ->
         uboss_module_query dlopen dlsym seen' name M'' = Ok (Some i, M'')).
Proof.
  intros Hok Hseen Hn Hp. rewrite (query_locked name seen M Hseen).
  split_and!; [done| by intros; eapply locked_found | by intros; apply locked_query_load |].
  intros r M' Hq. destruct (decide (name ∈ md_name <$> mo_m M)) as [Hin|Hni].
  - apply named_at in Hin as (k & m & Hk & Hm). rewrite (locked_found name M k m) in Hq by done.
    injection Hq as <- <-. split_and!; [done..|]. intros i [= <-]. rewrite Nat2Z.id. split.
    + exists m. split_and!; [done..|]. destruct Hok as (_ & _ & Hi). by eapply Forall_lookup_1 in Hi.
    + intros. by eapply (query_stays name _ _ k m M).
  - rewrite locked_query_load in Hq by done. destruct (load_ok name M r M' Hok Hni Hq) as (Hok' & Hpre & Hr).
    split_and!; [done..|]. intros i Hi. destruct (Hr i Hi) as (m & Hm & -> & Hmn & Hinit).
    rewrite Nat2Z.id in *. split; [by exists m|]. intros. by eapply (query_stays name _ _ _ m M').
Qed.
End module.

(** ** Witness *)

(** Two parts; only files under [b/] open, and only [logger] has the functions of a module. *)
Definition demo_dlopen (file : list Z) : option Z := if bool_decide (take 2 file = bytes_of "b/") then Some (zlen file) else None.
Definition demo_dlsym (dl : Z) (sym : list Z) : option Z := if bool_decide (take 6 sym = bytes_of "logger") then Some dl else None.

Definition demo_table : modules :=
  Modules (bytes_of "./?.so;;b/?.so") [MkModule (bytes_of "gate") 1 None (Some 7) None None].

Definition answer (r : res (option Z * modules)) : res (option Z) := r ← r; Ok (fst r).

Example module_query_demo :
  answer (uboss_module_query demo_dlopen demo_dlsym (Modules [] []) (bytes_of "gate") demo_table) = Ok (Some 0) /\
  answer (uboss_module_query demo_dlopen demo_dlsym demo_table (bytes_of "logger") demo_table) = Ok (Some 1) /\
  answer (uboss_module_query demo_dlopen demo_dlsym demo_table (bytes_of "other") demo_table) = Ok None /\
  _try_open (fun _ => None) (bytes_of "./?.so;b/") (bytes_of "x") = Err "Invalid Module path"%string.
Proof. by vm_compute. Qed.

Lemma demo_table_ok : table_ok demo_table.
Proof. split_and!; [apply NoDup_singleton | done | by repeat constructor]. Qed.

Lemma module_query_correct_witness :
  uboss_module_query demo_dlopen demo_dlsym (Modules [] []) (bytes_of "logger") demo_table
    = load demo_dlopen demo_dlsym (bytes_of "logger") demo_table /\
  uboss_module_query demo_dlopen demo_dlsym (Modules [] []) (bytes_of "gate") demo_table = Ok (Some 0, demo_table).
Proof.
  split.
  - apply (module_query_correct demo_dlopen demo_dlsym (bytes_of "logger") (Modules [] []) demo_table demo_table_ok);
      [by apply prefix_nil | by refine (bool_decide_eq_true_1 _ _); vm_compute.. ].
  - destruct (module_query_correct demo_dlopen demo_dlsym (bytes_of "gate") (Modules [] []) demo_table demo_table_ok)
      as (_ & Hfound & _); [by apply prefix_nil | by refine (bool_decide_eq_true_1 _ _); vm_compute.. |].
    by apply (Hfound 0%nat (MkModule (bytes_of "gate") 1 None (Some 7) None None)).
Defined.
