(* ===== verification/ServerLife.v ===== *)
(** The life cycle of the contexts of core/uboss_server.c: reference counts, registration,
    retirement and deletion, in every order of the threads' operations, with the message
    queues underneath ([Sched]).  The creation of a context is one step here;
    [ServerThreads] takes it apart. *)
From S2P Require Import Prelude Bytes Ring Mq Sched Handle Server.

(** ** Invariant

    [holds] are the references in use: one per [uboss_handle_grab] or
    [uboss_context_grab] that is not released yet, and the caller's one of
    [uboss_context_new]. *)
Definition in_registry (n : node) (c : ctxid) : Prop := Some c ∈ hslot (n_handles n).

#[export] Instance in_registry_dec n c : Decision (in_registry n c).
Proof. unfold in_registry. apply _. Defined.

Definition refs (n : node) (holds : list ctxid) (c : ctxid) : Z :=
  (if decide (in_registry n c) then 1 else 0) + Z.of_nat (count_occ Nat.eq_dec holds c).

Record node_ok (n : node) (own : gset qid) (holds : list ctxid) : Prop := {
  nk_slot : slot_wf (handle_of n) (n_handles n);
  nk_names : exists m, names_map (n_handles n) m;
  nk_ref : forall c ctx, n_ctxs n !! c = Some ctx -> ctx_ref ctx = refs n holds c;
  nk_alive : forall c, 0 < refs n holds c <-> is_Some (n_ctxs n !! c);
  nk_queue : forall c ctx, n_ctxs n !! c = Some ctx ->
    exists q, mqs (n_mq n) !! ctx_queue ctx = Some q /\ mq_release q = 0;
  nk_distinct : forall c d ctx ctx', n_ctxs n !! c = Some ctx -> n_ctxs n !! d = Some ctx' ->
    ctx_queue ctx = ctx_queue ctx' -> c = d;
  nk_sched : exists l, sched_inv (Sched (n_mq n) own) l;
  nk_fresh : forall k, (n_fresh n <= k)%nat -> n_ctxs n !! k = None /\ mqs (n_mq n) !! k = None
}.

Lemma in_registry_slot n c : zlen (hslot (n_handles n)) = slot_size (n_handles n) ->
  in_registry n c <-> exists i, (hslot (n_handles n)).[i] = Some (Some c).
Proof.
  intros Hl. unfold in_registry. rewrite list_elem_of_lookup. split.
  - intros [i Hi]. exists (Z.of_nat i). by rewrite aget_nat.
  - intros [i Hi]. exists (Z.to_nat i). unfold aget in Hi. by case_decide.
Qed.

(** ** Messages in a queue *)
Definition queue_msgs (w : mqstore) (p : qid) (l : list uboss_message) : Prop :=
  exists q, mqs w !! p = Some q /\ mq_msgs q l.

Lemma unlinked_msgs w w' r l : unlinked w' r = unlinked w r -> queue_msgs w r l -> queue_msgs w' r l.
Proof.
  unfold unlinked. intros Hu (q & Hq & Hm). rewrite Hq in Hu.
  destruct (mqs w' !! r) as [q'|] eqn:Hq'; [|done]. exists q'. split; [done|].
  injection Hu as Hu. unfold mq_msgs in *.
  assert (mq_queue q' = mq_queue q /\ mq_head q' = mq_head q /\ mq_cap q' = mq_cap q /\ mq_tail q' = mq_tail q)
    as (-> & -> & -> & ->) by (destruct q, q'; simpl in *; simplify_eq; done). done.
Qed.

Lemma globalmq_push_unlinked p w w' : uboss_globalmq_push p w = Some w' ->
  forall r, unlinked w' r = unlinked w r.
Proof.
  unfold uboss_globalmq_push. intros Hpush r. inv_opt.
  destruct (gq_tail w) as [t|]; [|by simplify_eq].
  inv_opt. unfold unlinked. cbn [mqs].
  destruct (decide (t = r)) as [->|]; [|by rewrite lookup_insert_ne].
  rewrite lookup_insert_eq. match goal with H : mqs w !! r = _ |- _ => rewrite H end. done.
Qed.

(** Pushing appends to one queue and leaves the others alone. *)
Lemma mq_push_msgs w o l p q m : sched_inv (Sched w o) l -> mqs w !! p = Some q -> mq_release q = 0 ->
  exists w' l', uboss_mq_push p m w = Some w' /\ sched_inv (Sched w' o) l' /\
    (forall ms, queue_msgs w p ms -> queue_msgs w' p (ms ++ [m])) /\
    (forall r ms, r <> p -> queue_msgs w r ms -> queue_msgs w' r ms) /\
    (forall r qr, mqs w !! r = Some qr -> exists qr', mqs w' !! r = Some qr' /\ mq_release qr' = mq_release qr) /\
    (forall r, mqs w !! r = None -> mqs w' !! r = None).
Proof.
  intros Hinv Hp Hrel. destruct (sched_send w o l Hinv p q m Hp Hrel) as (w' & l' & Hpush & Hinv').
  exists w', l'. split; [done|]. split; [done|].
  unfold uboss_mq_push in Hpush. rewrite Hp in Hpush. cbn [mbind option_bind] in Hpush.
  destruct (mq_enqueue q m) as [q'|] eqn:Henq; [|done]. cbn [mbind option_bind] in Hpush.
  assert (exists q2, mq_msgs q2 = mq_msgs q' /\ mq_release q2 = mq_release q' /\
    forall r, unlinked w' r = unlinked (put_mq p q2 w) r) as (q2 & Hq2 & Hr2 & Hu).
  { case_match; [|simplify_eq; by exists q'].
    exists (set_mq_in_global MQ_IN_GLOBAL q'). split; [done|]. split; [done|].
    exact (globalmq_push_unlinked _ _ _ Hpush). }
  destruct Hinv as (_ & _ & Hq). destruct (Hq p q Hp) as ((l0 & Hl0 & _) & _).
  assert (mq_release q' = mq_release q) as Hr'.
  { destruct (mq_enqueue_msgs q l0 m Hl0) as (q1 & Hq1 & _ & (_ & Hr1 & _) & _). congruence. }
  split; [|split; [|split]].
  - intros ms (q0 & Hq0 & Hm). assert (q0 = q) as -> by congruence.
    destruct (mq_enqueue_msgs q ms m Hm) as (q1 & Hq1 & Hm1 & _). assert (q1 = q') as -> by congruence.
    eapply unlinked_msgs; [apply Hu|]. exists q2. cbn [put_mq mqs]. by rewrite lookup_insert_eq, Hq2.
  - intros r ms Hr (q0 & Hq0 & Hm). eapply unlinked_msgs; [apply Hu|]. exists q0. cbn [put_mq mqs].
    by rewrite lookup_insert_ne.
  - intros r qr Hqr. specialize (Hu r). unfold unlinked in Hu. cbn [put_mq mqs] in Hu.
    destruct (decide (p = r)) as [->|].
    + rewrite lookup_insert_eq in Hu. destruct (mqs w' !! r) as [qr'|]; [|done]. exists qr'.
      split; [done|]. injection Hu as Hu. destruct qr', q2; simpl in *. congruence.
    + rewrite lookup_insert_ne, Hqr in Hu by done. destruct (mqs w' !! r) as [qr'|]; [|done]. exists qr'.
      split; [done|]. injection Hu as Hu. destruct qr', qr; simpl in *. congruence.
  - intros r Hno. specialize (Hu r). unfold unlinked in Hu. cbn [put_mq mqs] in Hu.
    rewrite lookup_insert_ne, Hno in Hu by congruence. by destruct (mqs w' !! r).
Qed.

(** ** References *)

Lemma set_ref_back r ctx : set_ref (ctx_ref ctx) (set_ref r ctx) = ctx.
Proof. by destruct ctx. Qed.

Lemma set_ctxs_back n : set_ctxs (n_ctxs n) n = n.
Proof. by destruct n. Qed.

(** What [uboss_handle_grab] finds is in_registry and alive. *)
Lemma grab_alive n own holds h : node_ok n own holds ->
  exists r, uboss_handle_grab (handle_of n) h (n_handles n) = Some r /\
    match r with
    | Some c => in_registry n c /\ exists ctx, n_ctxs n !! c = Some ctx /\ ctx_handle ctx = h
    | None => forall c ctx, n_ctxs n !! c = Some ctx -> in_registry n c -> ctx_handle ctx <> h
    end.
Proof.
  intros Hn. pose proof (nk_slot _ _ _ Hn) as Hw.
  destruct (grab_spec _ _ h Hw) as (r & Hg & Hr). exists r. split; [done|].
  pose proof (in_registry_slot n) as Hreg. destruct r as [c|].
  - destruct (proj1 (Hr c) eq_refl) as [Hs Hh].
    assert (in_registry n c) as Hc by (apply Hreg; [by apply Hw | by eexists]). split; [done|].
    destruct (proj1 (nk_alive _ _ _ Hn c)) as [ctx Hctx].
    { unfold refs. rewrite decide_True by done. lia. }
    exists ctx. split; [done|]. unfold handle_of in Hh. by rewrite Hctx in Hh.
  - intros c ctx Hctx Hc Hh. apply Hreg in Hc as [i Hi]; [|by apply Hw].
    destruct (wf_slot _ _ Hw i c Hi) as (_ & Hmod & _).
    assert (handle_of n c = h) as Hho by (unfold handle_of; by rewrite Hctx).
    rewrite Hho in Hmod. rewrite <-Hmod in Hi. discriminate (proj2 (Hr c) (conj Hi Hho)).
Qed.

(** Taking a reference and giving it back while another one is held changes nothing. *)
Lemma release_grab n c ctx rel : n_ctxs n !! c = Some ctx -> 0 < ctx_ref ctx ->
  exists n1, uboss_context_grab c n = Some n1 /\ n_ctxs n1 !! c = Some (set_ref (ctx_ref ctx + 1) ctx) /\
    n_mq n1 = n_mq n /\
    forall w, uboss_context_release rel c (set_mq w n1) = Some (true, set_mq w n).
Proof.
  intros Hc Hr. unfold uboss_context_grab, update. rewrite Hc. cbn [mbind option_bind].
  eexists. split; [done|]. cbn [n_ctxs set_ctxs n_mq]. split; [by rewrite lookup_insert_eq|].
  split; [done|]. intros w. unfold uboss_context_release, update. cbn [set_mq put_mqstore node_HasMq n_ctxs set_ctxs].
  rewrite !lookup_insert_eq. cbn [mbind option_bind set_ref ctx_ref].
  destruct (Z.eqb_spec (ctx_ref ctx + 1 - 1) 0); [lia|].
  rewrite insert_insert_eq, insert_id; [by destruct n|]. rewrite Hc. f_equal.
  transitivity (set_ref (ctx_ref ctx) (set_ref (ctx_ref ctx + 1) ctx)); [by rewrite set_ref_back|].
  f_equal. lia.
Qed.

(** [uboss_context_push]: the message is in the queue of the service, or the service is
    gone. *)
Lemma context_push_spec rel n own holds h m : node_ok n own holds ->
  exists r, uboss_handle_grab (handle_of n) h (n_handles n) = Some r /\
  match r with
  | None => uboss_context_push rel h m n = Some (-1, n)
  | Some c => exists ctx w', n_ctxs n !! c = Some ctx /\ ctx_handle ctx = h /\
      uboss_mq_push (ctx_queue ctx) m (n_mq n) = Some w' /\
      uboss_context_push rel h m n = Some (0, set_mq w' n)
  end.
Proof.
  intros Hn. destruct (grab_alive n own holds h Hn) as (r & Hg & Hr). exists r. split; [done|].
  unfold uboss_context_push, node_grab. rewrite Hg. cbn [mbind option_bind]. destruct r as [c|]; [|done].
  destruct Hr as (Hreg & ctx & Hctx & Hh).
  destruct (nk_queue _ _ _ Hn c ctx Hctx) as (q & Hq & Hrel). destruct (nk_sched _ _ _ Hn) as [l Hl].
  destruct (mq_push_msgs _ _ _ _ _ m Hl Hq Hrel) as (w' & l' & Hw' & _).
  destruct (release_grab n c ctx rel Hctx) as (n1 & Hgrab & Hc1 & Hmq & Hrelease).
  { rewrite (nk_ref _ _ _ Hn c ctx Hctx). unfold refs. rewrite decide_True by done. lia. }
  exists ctx, w'. split; [done|]. split; [done|]. split; [done|].
  rewrite Hgrab. cbn [mbind option_bind]. rewrite Hc1. cbn [mbind option_bind set_ref ctx_queue].
  rewrite Hmq, Hw'. cbn [mbind option_bind]. by rewrite Hrelease.
Qed.

Lemma slot_wf_ext ho ho' s : (forall c, ho c = ho' c) -> slot_wf ho s -> slot_wf ho' s.
Proof.
  intros Heq [H1 H2 H3 H4 H5]. split; try done. intros i c Hi. rewrite <-(Heq c). by apply H5.
Qed.

Lemma grab_ho_ext ho ho' h s : (forall c, ho c = ho' c) ->
  uboss_handle_grab ho h s = uboss_handle_grab ho' h s.
Proof.
  intros Heq. unfold uboss_handle_grab. destruct ((hslot s).[_]) as [[c|]|]; [|done..].
  cbn [mbind option_bind]. by rewrite Heq.
Qed.

(** Contexts that differ in what the references, the registry and the queues do not see. *)
Definition same_ctx (o o' : option context) : Prop :=
  match o, o' with
  | None, None => True
  | Some c, Some c' => ctx_ref c' = ctx_ref c /\ ctx_queue c' = ctx_queue c /\ ctx_handle c' = ctx_handle c
  | _, _ => False
  end.

Lemma node_ok_ext n n' own holds : node_ok n own holds ->
  (forall c, same_ctx (n_ctxs n !! c) (n_ctxs n' !! c)) ->
  n_handles n' = n_handles n -> n_mq n' = n_mq n -> n_fresh n' = n_fresh n -> node_ok n' own holds.
Proof.
  intros [H1 Hnm H2 H3 H4 H5 H6 H7] Hs Eh Em Ef.
  assert (forall c, in_registry n' c <-> in_registry n c) as Hr by (unfold in_registry; by rewrite Eh).
  assert (forall c, refs n' holds c = refs n holds c) as Hrefs.
  { intros c. unfold refs. do 2 f_equal. repeat case_decide; naive_solver. }
  assert (forall c ctx', n_ctxs n' !! c = Some ctx' -> exists ctx, n_ctxs n !! c = Some ctx /\
    ctx_ref ctx' = ctx_ref ctx /\ ctx_queue ctx' = ctx_queue ctx) as Hback.
  { intros c ctx' Hc. specialize (Hs c). rewrite Hc in Hs. destruct (n_ctxs n !! c) as [ctx|]; [|done].
    exists ctx. naive_solver. }
  split; rewrite ?Eh, ?Em, ?Ef.
  - eapply slot_wf_ext; [|exact H1]. intros c. unfold handle_of. specialize (Hs c).
    destruct (n_ctxs n !! c), (n_ctxs n' !! c); naive_solver.
  - done.
  - intros c ctx' Hc. destruct (Hback c ctx' Hc) as (ctx & Hctx & -> & _). rewrite Hrefs. by apply H2.
  - intros c. rewrite Hrefs, H3. specialize (Hs c).
    destruct (n_ctxs n !! c), (n_ctxs n' !! c); naive_solver.
  - intros c ctx' Hc. destruct (Hback c ctx' Hc) as (ctx & Hctx & _ & ->). by eapply H4.
  - intros c d ctx' ctx'' Hc Hd Hq. destruct (Hback c ctx' Hc) as (ctx & Hctx & _ & Hq1).
    destruct (Hback d ctx'' Hd) as (ctx2 & Hctx2 & _ & Hq2). eapply H5; [done..|]. congruence.
  - done.
  - intros k Hk. destruct (H7 k Hk) as [Hno Hmq]. split; [|done]. specialize (Hs k). rewrite Hno in Hs.
    by destruct (n_ctxs n' !! k).
Qed.


(** ** Life cycle of the contexts, in every interleaving *)

(** The node with the queues that workers own and the references in use. *)
Record life := Life {
  lf_node : node;
  lf_own : gset qid;
  lf_holds : list ctxid
}.

Fixpoint remove_one (c : ctxid) (l : list ctxid) : list ctxid :=
  match l with
  | [] => []
  | d :: l => if decide (c = d) then l else d :: remove_one c l
  end.

(** The scheduling of the queues by the workers. *)
Inductive worker_step : sched -> sched -> Prop :=
| wk_put_back p w w' o : p ∈ o -> uboss_globalmq_push p w = Some w' ->
    worker_step (Sched w o) (Sched w' (o ∖ {[p]}))
| wk_take p w w' o : uboss_globalmq_pop w = Some (Some p, w') ->
    worker_step (Sched w o) (Sched w' ({[p]} ∪ o))
| wk_pop p m w w' o : p ∈ o -> uboss_mq_pop p w = Some (Some m, w') ->
    worker_step (Sched w o) (Sched w' o)
| wk_empty p q w w' o : p ∈ o -> mqs w !! p = Some q -> mq_release q = 0 ->
    uboss_mq_pop p w = Some (None, w') -> worker_step (Sched w o) (Sched w' (o ∖ {[p]}))
| wk_free p q w w1 w2 o : p ∈ o -> mqs w !! p = Some q -> mq_release q = 1 ->
    uboss_mq_pop p w = Some (None, w1) -> _release p w1 = Some w2 ->
    worker_step (Sched w o) (Sched w2 (o ∖ {[p]})).

Section life.
Variable instance_release : Z -> Z -> node -> option node.

(** One operation of one thread on the contexts: each is a critical section of the C
    code or an atomic change of a reference count. *)
Inductive life_step : life -> life -> Prop :=
  (* uboss_context_new: the context, its handle and its queue *)
| life_new mod_ inst c q n n' own holds : new_context mod_ inst n = Some (c, q, n') ->
    life_step (Life n own holds) (Life n' ({[q]} ∪ own) (c :: holds))
  (* uboss_handle_grab *)
| life_grab h c n n' own holds : node_grab h n = Some (Some c, n') ->
    life_step (Life n own holds) (Life n' own (c :: holds))
  (* uboss_context_grab by a holder *)
| life_share c n n' own holds : c ∈ holds -> uboss_context_grab c n = Some n' ->
    life_step (Life n own holds) (Life n' own (c :: holds))
  (* uboss_context_release of a held reference *)
| life_release c b n n' own holds : c ∈ holds ->
    uboss_context_release instance_release c n = Some (b, n') ->
    life_step (Life n own holds) (Life n' own (remove_one c holds))
  (* uboss_handle_retire, up to the unlock: the registry's reference is released later *)
| life_retire h c s n own holds :
    uboss_handle_retire (handle_of n) h (n_handles n) = Some (1, Some c, s) ->
    life_step (Life n own holds) (Life (set_handles s n) own (c :: holds))
  (* uboss_handle_namehandle *)
| life_name h name r s n own holds : name_count (n_handles n) * 2 <= MAX_SLOT_SIZE ->
    uboss_handle_namehandle h name (n_handles n) = Some (r, s) ->
    life_step (Life n own holds) (Life (set_handles s n) own holds)
  (* uboss_mq_push to a held context *)
| life_push c ctx m w' n own holds : c ∈ holds -> n_ctxs n !! c = Some ctx ->
    uboss_mq_push (ctx_queue ctx) m (n_mq n) = Some w' ->
    life_step (Life n own holds) (Life (set_mq w' n) own holds)
  (* a worker *)
| life_worker w' own' n own holds : worker_step (Sched (n_mq n) own) (Sched w' own') ->
    life_step (Life n own holds) (Life (set_mq w' n) own' holds)
  (* everything that leaves references, handles and queues alone *)
| life_other n n' own holds : (forall c, same_ctx (n_ctxs n !! c) (n_ctxs n' !! c)) ->
    n_handles n' = n_handles n -> n_mq n' = n_mq n -> n_fresh n' = n_fresh n ->
    life_step (Life n own holds) (Life n' own holds).
End life.

(** The node when it starts. *)
Definition node_init (harbor : Z) : node :=
  uboss_harbor_init harbor
    (Node 0 0 ∅ (uboss_handle_init harbor) uboss_mq_init None (2 ^ 32 - 1) 0 ∅ 1 0).

(** ** Preservation *)

Lemma count_occ_remove_one c d (l : list ctxid) : c ∈ l ->
  count_occ Nat.eq_dec l d = (count_occ Nat.eq_dec (remove_one c l) d + (if decide (d = c) then 1 else 0))%nat.
Proof.
  induction l as [|x l IH]; [by intros ?%not_elem_of_nil|].
  intros Hin. cbn [remove_one count_occ]. destruct (decide (c = x)) as [->|Hne].
  - destruct (Nat.eq_dec x d), (decide (d = x)); subst; try done; lia.
  - apply elem_of_cons in Hin as [?|Hin]; [done|]. cbn [count_occ].
    specialize (IH Hin). destruct (Nat.eq_dec x d); lia.
Qed.

Lemma count_occ_elem (l : list ctxid) c : c ∈ l <-> (0 < count_occ Nat.eq_dec l c)%nat.
Proof. rewrite list_elem_of_In. by rewrite (count_occ_In Nat.eq_dec). Qed.

Lemma refs_cons n holds c d :
  refs n (c :: holds) d = refs n holds d + (if decide (d = c) then 1 else 0).
Proof.
  unfold refs. cbn [count_occ]. destruct (Nat.eq_dec c d), (decide (d = c)); subst; try done; lia.
Qed.

Lemma refs_remove n holds c d : c ∈ holds ->
  refs n (remove_one c holds) d = refs n holds d - (if decide (d = c) then 1 else 0).
Proof.
  intros Hc. unfold refs. rewrite (count_occ_remove_one c d holds Hc).
  destruct (decide (d = c)); lia.
Qed.

Lemma held_alive n own holds c : node_ok n own holds -> c ∈ holds ->
  exists ctx, n_ctxs n !! c = Some ctx /\ 0 < ctx_ref ctx.
Proof.
  intros Hn Hc. apply count_occ_elem in Hc.
  assert (0 < refs n holds c) as Hr by (unfold refs; case_decide; lia).
  destruct (proj1 (nk_alive _ _ _ Hn c) Hr) as [ctx Hctx]. exists ctx. split; [done|].
  by rewrite (nk_ref _ _ _ Hn c ctx Hctx).
Qed.

(** Changing the reference count of one context along with the references. *)
Lemma node_ok_ref n own holds holds' c ctx r : node_ok n own holds -> n_ctxs n !! c = Some ctx ->
  (forall d, refs n holds' d = if decide (d = c) then r else refs n holds d) -> 0 < r ->
  node_ok (set_ctxs (<[c := set_ref r ctx]> (n_ctxs n)) n) own holds'.
Proof.
  intros [H1 Hnm H2 H3 H4 H5 H6 H7] Hc Hr Hpos. set (n' := set_ctxs (<[c := set_ref r ctx]> (n_ctxs n)) n).
  assert (forall d, refs n' holds' d = refs n holds' d) as Hrefs by done.
  assert (forall d x, n_ctxs n' !! d = Some x -> exists x0, n_ctxs n !! d = Some x0 /\
    ctx_queue x = ctx_queue x0) as Hback.
  { intros d x Hd. cbn [n' n_ctxs set_ctxs] in Hd. apply lookup_insert_Some in Hd as [[<- <-]|[_ Hd]].
    - by exists ctx.
    - by exists x. }
  split; cbn [n_handles n_mq n_fresh n' set_ctxs].
  - eapply slot_wf_ext; [|exact H1]. intros d. unfold handle_of. change (n_ctxs n') with (<[c := set_ref r ctx]> (n_ctxs n)).
    destruct (decide (c = d)) as [<-|Hne]; [by rewrite lookup_insert_eq, Hc | by rewrite lookup_insert_ne].
  - done.
  - intros d x Hd. rewrite Hrefs, Hr. cbn [n' n_ctxs set_ctxs] in Hd.
    apply lookup_insert_Some in Hd as [[<- <-]|[Hne Hd]].
    + by rewrite decide_True.
    + rewrite decide_False by congruence. by apply H2.
  - intros d. rewrite Hrefs, Hr. cbn [n' n_ctxs set_ctxs]. destruct (decide (d = c)) as [->|Hne].
    + rewrite lookup_insert_eq. split; [by eexists | done].
    + rewrite lookup_insert_ne by congruence. apply H3.
  - intros d x Hd. destruct (Hback d x Hd) as (x0 & Hx0 & ->). by eapply H4.
  - intros d e x y Hd He Hq. destruct (Hback d x Hd) as (x0 & Hx0 & Hq1).
    destruct (Hback e y He) as (y0 & Hy0 & Hq2). eapply H5; [done..|]. congruence.
  - done.
  - intros k Hk. destruct (H7 k Hk) as [Hno Hq]. split; [|done]. cbn [n' n_ctxs set_ctxs].
    rewrite lookup_insert_ne; [done|]. intros ->. congruence.
Qed.

(** One more reference. *)
Lemma grab_ok n own holds c n' : node_ok n own holds -> 0 < refs n holds c ->
  uboss_context_grab c n = Some n' -> node_ok n' own (c :: holds).
Proof.
  intros Hn Hr. unfold uboss_context_grab, update.
  destruct (proj1 (nk_alive _ _ _ Hn c) Hr) as [ctx Hctx]. rewrite Hctx. cbn [mbind option_bind].
  intros [= <-]. rewrite (nk_ref _ _ _ Hn c ctx Hctx).
  apply node_ok_ref with (holds := holds); [done | done | | lia].
  intros d. rewrite refs_cons. destruct (decide (d = c)) as [->|]; lia.
Qed.

(** Queues that appear, change without their flag, or disappear when released. *)
Lemma node_ok_mq n own own' holds w' : node_ok n own holds ->
  (exists l, sched_inv (Sched w' own') l) ->
  (forall p q, mqs (n_mq n) !! p = Some q -> mq_release q = 0 ->
     exists q', mqs w' !! p = Some q' /\ mq_release q' = 0) ->
  (forall p, mqs (n_mq n) !! p = None -> mqs w' !! p = None) ->
  node_ok (set_mq w' n) own' holds.
Proof.
  intros [H1 Hnm H2 H3 H4 H5 H6 H7] Hinv Hkeep Hno.
  split; cbn [n_handles n_mq n_fresh n_ctxs set_mq put_mqstore node_HasMq]; try done.
  - intros c ctx Hc. destruct (H4 c ctx Hc) as (q & Hq & Hrel).
    by destruct (Hkeep _ _ Hq Hrel) as (q' & Hq' & Hrel'); exists q'.
  - intros k Hk. destruct (H7 k Hk) as [Hctx Hq]. split; [done|]. by apply Hno.
Qed.

Lemma globalmq_push_release p w w' r q : uboss_globalmq_push p w = Some w' -> mqs w !! r = Some q ->
  exists q', mqs w' !! r = Some q' /\ mq_release q' = mq_release q.
Proof.
  intros Hp Hq. pose proof (globalmq_push_unlinked _ _ _ Hp r) as Hu. unfold unlinked in Hu.
  rewrite Hq in Hu. destruct (mqs w' !! r) as [q'|]; [|done]. exists q'. split; [done|].
  injection Hu as Hu. destruct q, q'. simpl in *. congruence.
Qed.

Lemma globalmq_push_None p w w' r : uboss_globalmq_push p w = Some w' -> mqs w !! r = None ->
  mqs w' !! r = None.
Proof.
  intros Hp Hq. pose proof (globalmq_push_unlinked _ _ _ Hp r) as Hu. unfold unlinked in Hu.
  rewrite Hq in Hu. by destruct (mqs w' !! r).
Qed.

Lemma mq_pop_release q r q' : mq_pop q = Some (r, q') -> mq_release q' = mq_release q.
Proof.
  unfold mq_pop. intros Hp. case_match; [by simplify_eq|]. inv_opt.
  destruct (raise_threshold _ _ _ _) as [o t]. by simplify_eq.
Qed.

(** What a worker does to the queues: only a released queue disappears, and no flag
    changes. *)
Lemma worker_step_queues w o w' o' : worker_step (Sched w o) (Sched w' o') ->
  (forall p q, mqs w !! p = Some q -> mq_release q = 0 -> exists q', mqs w' !! p = Some q' /\ mq_release q' = 0) /\
  (forall p, mqs w !! p = None -> mqs w' !! p = None).
Proof.
  assert (forall p r w1 w2, uboss_mq_pop p w1 = Some (r, w2) ->
    (forall a q, mqs w1 !! a = Some q -> mq_release q = 0 -> exists q', mqs w2 !! a = Some q' /\ mq_release q' = 0) /\
    (forall a, mqs w1 !! a = None -> mqs w2 !! a = None)) as Hpop.
  { intros p r w1 w2. unfold uboss_mq_pop. intros Hp.
    destruct (mqs w1 !! p) as [q0|] eqn:Hq0; [|done]. cbn [mbind option_bind] in Hp.
    destruct (mq_pop q0) as [[r0 q1]|] eqn:Hpp; [|done]. cbn [mbind option_bind] in Hp. simplify_eq.
    apply mq_pop_release in Hpp. cbn [put_mq mqs]. split; intros a.
    - intros q Hq Hr. destruct (decide (p = a)) as [->|].
      + rewrite lookup_insert_eq. exists q1. split; [done|]. congruence.
      + rewrite lookup_insert_ne by done. by exists q.
    - intros Ha. rewrite lookup_insert_ne; [done | congruence]. }
  intros Hstep. inversion Hstep; subst.
  - split; [|by intros; eapply globalmq_push_None].
    intros a q Hq Hr. destruct (globalmq_push_release _ _ _ _ _ ltac:(eassumption) Hq) as (q' & ? & ?).
    exists q'. split; [done | congruence].
  - match goal with H : uboss_globalmq_pop _ = _ |- _ => unfold uboss_globalmq_pop in H; rename H into Hp end.
    destruct (gq_head w) as [hd|]; [|done]. destruct (mqs w !! hd) as [q0|] eqn:Hq0; [|done].
    cbn [mbind option_bind] in Hp. inv_opt. cbn [mqs]. split; intros a.
    + intros q Hq Hr. destruct (decide (p = a)) as [->|].
      * rewrite lookup_insert_eq. eexists. split; [done|]. by simplify_eq.
      * rewrite lookup_insert_ne by done. by exists q.
    + intros Ha. rewrite lookup_insert_ne; [done | congruence].
  - by eapply Hpop.
  - by eapply Hpop.
  - destruct (Hpop _ _ _ _ ltac:(eassumption)) as [Hk Hn].
    match goal with H : _release _ _ = _ |- _ => unfold _release in H; rename H into Hrel end.
    inv_opt. cbn [mqs]. split; intros a.
    + intros qa Hqa Hr. destruct (decide (p = a)) as [->|Hne]; [congruence|].
      rewrite lookup_delete_ne by done. by eapply Hk.
    + intros Ha. apply lookup_delete_None. right. by apply Hn.
Qed.

Lemma worker_sched_step s s' : worker_step s s' -> sched_step s s'.
Proof.
  destruct 1.
  - by apply sc_put_back.
  - by apply sc_take.
  - by eapply sc_pop.
  - by eapply sc_empty.
  - by eapply sc_free.
Qed.

(** ** The steps on the registry *)

Lemma in_registry_grab ho s c : slot_wf ho s ->
  Some c ∈ hslot s <-> uboss_handle_grab ho (ho c) s = Some (Some c).
Proof.
  intros Hw. destruct (grab_spec ho s (ho c) Hw) as (r & -> & Hr). rewrite elem_of_aget. split.
  - intros [i Hi]. destruct (wf_slot _ _ Hw i c Hi) as (_ & Hm & _). f_equal. apply Hr. by rewrite Hm.
  - intros [= ->]. destruct (proj1 (Hr c) eq_refl) as [Hs _]. by eexists.
Qed.

Lemma handle_register_names ho fuel c : forall s h s', handle_register ho fuel c s = Some (h, s') ->
  hname s' = hname s /\ name_cap s' = name_cap s /\ name_count s' = name_count s.
Proof.
  induction fuel as [|fuel IH]; intros s h s' Hr; cbn [handle_register] in Hr; [done|].
  destruct (find_slot _ 0 s) as [[[h0 hash]|]|]; [| |done]; cbn [mbind option_bind] in Hr; inv_opt; [done|].
  by apply IH in Hr.
Qed.

Lemma rehash_ext ho ho' s : (forall c, ho c = ho' c) -> forall n i new_slot,
  rehash ho n i s new_slot = rehash ho' n i s new_slot.
Proof.
  intros Heq. induction n as [|n IH]; intros i ns; cbn [rehash]; [done|].
  destruct ((hslot s).[i]) as [[c|]|]; cbn [mbind option_bind]; [|done..]. rewrite Heq.
  destruct (ns.[_]); cbn [mbind option_bind]; [|done]. destruct (cassert _); cbn [mbind option_bind]; [|done].
  destruct (ns.[_ := _]); cbn [mbind option_bind]; [apply IH | done].
Qed.

Lemma handle_register_ext ho ho' fuel c : (forall c, ho c = ho' c) -> forall s,
  handle_register ho fuel c s = handle_register ho' fuel c s.
Proof.
  intros Heq. induction fuel as [|fuel IH]; intros s; cbn [handle_register]; [done|].
  destruct (find_slot _ 0 s) as [[[h0 hash]|]|]; cbn [mbind option_bind]; [done | |done].
  rewrite (rehash_ext ho ho' s Heq). destruct (cassert _); cbn [mbind option_bind]; [|done].
  destruct (rehash ho' _ _ _ _); cbn [mbind option_bind]; [apply IH | done].
Qed.

Lemma names_map_ext s s' m : hname s' = hname s -> name_cap s' = name_cap s -> name_count s' = name_count s ->
  names_map s m -> names_map s' m.
Proof. unfold names_map, names_list. by intros -> -> ->. Qed.

Lemma refs_registry n n' holds c : (in_registry n' c <-> in_registry n c) -> refs n' holds c = refs n holds c.
Proof. intros H. unfold refs. f_equal. repeat case_decide; naive_solver. Qed.

Lemma not_alive n own holds c : node_ok n own holds -> n_ctxs n !! c = None ->
  ~ in_registry n c /\ count_occ Nat.eq_dec holds c = 0%nat.
Proof.
  intros Hn Hc. assert (~ 0 < refs n holds c) as Hr.
  { intros H%(nk_alive _ _ _ Hn). rewrite Hc in H. by apply is_Some_None in H. }
  unfold refs in Hr. case_decide; split; (done || lia).
Qed.

(** A new context: what is known about it, and the node around it. *)
Lemma new_context_spec mod_ inst n own holds c q n' : node_ok n own holds ->
  new_context mod_ inst n = Some (c, q, n') ->
  exists h s, c = n_fresh n /\ q = S (n_fresh n) /\ registered (handle_of n) c (n_handles n) h s /\
    (exists m, names_map s m) /\ mqs (n_mq n) !! q = None /\
    n' = context_inc (set_mq (put_mq q (new_message_queue h) (n_mq n)) (set_ctxs
      (<[c := Context mod_ inst None q h 0 2 0 false false]> (n_ctxs n)) (set_handles s (set_fresh (S (S (n_fresh n))) n)))).
Proof.
  intros Hn Hnew. destruct (nk_fresh _ _ _ Hn (n_fresh n)) as [Hc _]; [lia|].
  destruct (nk_fresh _ _ _ Hn (S (n_fresh n))) as [_ Hq]; [lia|].
  unfold new_context, context_register in Hnew. cbn [n_handles set_ctxs set_fresh] in Hnew.
  apply bind_Some in Hnew as ([[c' h] n0] & Hnew0 & Hnew). apply bind_Some in Hnew0 as ([h' s] & Hreg & [= <- <- <-]).
  unfold uboss_handle_register in Hreg. rename h' into h.
  assert (handle_register (handle_of n) 2 (n_fresh n) (n_handles n) = Some (h, s)) as Hreg'.
  { rewrite <-Hreg. apply handle_register_ext. intros d. unfold handle_of. cbn [n_ctxs set_ctxs set_fresh].
    destruct (decide (n_fresh n = d)) as [<-|]; [by rewrite lookup_insert_eq, Hc | by rewrite lookup_insert_ne]. }
  exists h, s. unfold context_store_handle, update in Hnew. cbn [n_ctxs set_handles set_ctxs set_fresh] in Hnew.
  rewrite lookup_insert_eq in Hnew. cbn [mbind option_bind] in Hnew.
  unfold context_create_queue, uboss_mq_create in Hnew. cbn [n_ctxs n_mq set_handles set_ctxs set_fresh] in Hnew.
  rewrite lookup_insert_eq in Hnew. cbn [mbind option_bind set_ctx_handle ctx_queue] in Hnew. rewrite Hq in Hnew.
  cbn [mbind option_bind] in Hnew. injection Hnew as <- <- <-.
  split; [done|]. split; [done|]. split.
  { destruct (register_spec (handle_of n) (n_handles n) (n_fresh n) (nk_slot _ _ _ Hn)) as [_ Hr].
    - intros i Hi. apply (not_alive n own holds (n_fresh n) Hn Hc). apply elem_of_aget. by eexists.
    - exact (Hr (h, s) Hreg'). }
  split.
  { destruct (nk_names _ _ _ Hn) as [m Hm]. exists m.
    destruct (handle_register_names _ _ _ _ _ _ Hreg') as (? & ? & ?). by eapply names_map_ext. }
  split; [done|]. rewrite insert_insert_eq. done.
Qed.

(** Only the new context enters the registry. *)
Lemma registered_slots ho c s h s' d : slot_wf ho s -> registered ho c s h s' -> Some c ∉ hslot s ->
  Some d ∈ hslot s' <-> d = c \/ Some d ∈ hslot s.
Proof.
  intros Hw (Hnone & Hw' & Hg & _) Hfresh. rewrite (in_registry_grab _ _ d Hw'), Hg.
  unfold set_handle. destruct (decide (d = c)) as [->|Hne].
  - rewrite decide_True by done. naive_solver.
  - rewrite (in_registry_grab _ _ d Hw). case_decide as Hh.
    + rewrite Hh, Hnone. naive_solver.
    + naive_solver.
Qed.

Lemma new_ok mod_ inst n own holds c q n' : node_ok n own holds ->
  new_context mod_ inst n = Some (c, q, n') ->
  sched_step (Sched (n_mq n) own) (Sched (n_mq n') ({[q]} ∪ own)) /\ node_ok n' ({[q]} ∪ own) (c :: holds).
Proof.
  intros Hn Hnew. destruct (new_context_spec _ _ _ _ _ _ _ _ Hn Hnew) as (h & s & -> & -> & Hreg & Hnm & Hq & ->).
  destruct (nk_fresh _ _ _ Hn (n_fresh n)) as [Hc _]; [lia|].
  destruct (not_alive n own holds _ Hn Hc) as [Hnr Hnh]. set (c := n_fresh n) in *.
  assert (sched_step (Sched (n_mq n) own) (Sched (put_mq (S c) (new_message_queue h) (n_mq n)) ({[S c]} ∪ own))) as Hs.
  { apply (sc_create (S c) h); [|done]. unfold uboss_mq_create. by rewrite Hq. }
  split; [exact Hs|]. set (n' := context_inc _).
  assert (forall d, in_registry n' d <-> d = c \/ in_registry n d) as Hir.
  { intros d. apply (registered_slots (handle_of n) c (n_handles n) h s d (nk_slot _ _ _ Hn) Hreg Hnr). }
  assert (forall d, refs n' (c :: holds) d = if decide (d = c) then 2 else refs n holds d) as Hrefs.
  { intros d. rewrite refs_cons. destruct (decide (d = c)) as [->|Hne].
    - unfold refs. rewrite decide_True by (apply Hir; by left). rewrite Hnh. done.
    - rewrite (refs_registry n n' holds d); [lia|]. rewrite Hir. naive_solver. }
  assert (n_ctxs n' = <[c := Context mod_ inst None (S c) h 0 2 0 false false]> (n_ctxs n)) as Ec by done.
  assert (forall d x, n_ctxs n !! d = Some x -> ctx_queue x <> S c) as Hqne.
  { intros d x Hd Heq. destruct (nk_queue _ _ _ Hn d x Hd) as (qd & Hqd & _). congruence. }
  split.
  - destruct Hreg as (_ & Hw & _). eapply slot_wf_ext; [|exact Hw]. intros d. unfold handle_of, set_handle.
    rewrite Ec. destruct (decide (d = c)) as [->|]; [by rewrite lookup_insert_eq | by rewrite lookup_insert_ne].
  - done.
  - intros d x. rewrite Hrefs, Ec. intros [[<- <-]|[Hne Hd]]%lookup_insert_Some.
    + by rewrite decide_True.
    + rewrite decide_False by congruence. by apply (nk_ref _ _ _ Hn).
  - intros d. rewrite Hrefs, Ec. destruct (decide (d = c)) as [->|Hne].
    + rewrite lookup_insert_eq. split; [by eexists | done].
    + rewrite lookup_insert_ne by done. apply (nk_alive _ _ _ Hn).
  - intros d x. rewrite Ec. cbn [n' context_inc set_total set_mq put_mqstore node_HasMq n_mq put_mq mqs].
    intros [[<- <-]|[Hne Hd]]%lookup_insert_Some; cbn [ctx_queue].
    + rewrite lookup_insert_eq. by eexists.
    + rewrite lookup_insert_ne by (intros Heq; by eapply Hqne). by apply (nk_queue _ _ _ Hn d).
  - intros d e x y. rewrite Ec. intros [[<- <-]|[Hne Hd]]%lookup_insert_Some [[<- <-]|[Hne' He]]%lookup_insert_Some Heq;
      cbn [ctx_queue] in Heq; try done.
    + by destruct (Hqne e y He).
    + by destruct (Hqne d x Hd).
    + by eapply (nk_distinct _ _ _ Hn).
  - destruct (nk_sched _ _ _ Hn) as [l Hl]. by eapply sched_inv_step.
  - intros k Hk. cbn [n' n_fresh context_inc set_total set_mq put_mqstore node_HasMq set_ctxs set_handles set_fresh] in Hk.
    destruct (nk_fresh _ _ _ Hn k) as [H1 H2]; [lia|]. rewrite Ec.
    cbn [n' n_mq context_inc set_total set_mq put_mqstore node_HasMq put_mq mqs].
    rewrite !lookup_insert_ne by lia. done.
Qed.

(** Retiring takes the context out of the registry; its reference is then held by the
    retiring thread. *)
Lemma retire_spec_node h c s n own holds : node_ok n own holds ->
  uboss_handle_retire (handle_of n) h (n_handles n) = Some (1, Some c, s) ->
  slot_wf (handle_of n) s /\ (exists m, names_map s m) /\ in_registry n c /\
  forall d, in_registry (set_handles s n) d <-> in_registry n d /\ d <> c.
Proof.
  intros Hn Hret. destruct (nk_names _ _ _ Hn) as [m Hm].
  destruct (retire_spec _ _ m h (nk_slot _ _ _ Hn) Hm) as (r & Hg & Hr).
  destruct r as [c'|]; [|congruence]. destruct Hr as (s' & Hret' & Hw & Hm' & Hsl & Hc & Hh & _).
  rewrite Hret' in Hret. injection Hret as -> ->. pose proof (nk_slot _ _ _ Hn) as Hw0.
  split; [done|]. split; [by eexists|]. split; [apply elem_of_aget; by eexists|].
  intros d. unfold in_registry. cbn [n_handles set_handles]. rewrite Hsl, !elem_of_aget.
  pose proof (aset_Some (hslot (n_handles n)) _ None (aget_lt_Some _ _ _ Hc)) as Hset.
  split.
  - intros [i Hi]. rewrite (aget_aset _ _ _ _ _ Hset) in Hi. case_decide as Hne; [done|].
    split; [by eexists|]. intros ->. destruct (wf_slot _ _ Hw0 i c Hi) as (_ & Hmod & _). congruence.
  - intros [[i Hi] Hne]. exists i. rewrite (aget_aset _ _ _ _ _ Hset), decide_False; [done|].
    intros <-. congruence.
Qed.

Lemma retire_registry h c s n own holds : node_ok n own holds ->
  uboss_handle_retire (handle_of n) h (n_handles n) = Some (1, Some c, s) -> ~ in_registry (set_handles s n) c.
Proof.
  intros Hn Hret. destruct (retire_spec_node _ _ _ _ _ _ Hn Hret) as (_ & _ & _ & Hir). rewrite Hir. tauto.
Qed.

Lemma retire_ok h c s n own holds : node_ok n own holds ->
  uboss_handle_retire (handle_of n) h (n_handles n) = Some (1, Some c, s) ->
  node_ok (set_handles s n) own (c :: holds).
Proof.
  intros Hn Hret. destruct (retire_spec_node _ _ _ _ _ _ Hn Hret) as (Hw & Hnm' & Hreg & Hir).
  assert (forall d, refs (set_handles s n) (c :: holds) d = refs n holds d) as Hrefs.
  { intros d. rewrite refs_cons. destruct (decide (d = c)) as [->|Hne].
    - unfold refs. rewrite decide_False by naive_solver. rewrite decide_True by done. lia.
    - rewrite (refs_registry n _ holds d); [lia|]. rewrite Hir. naive_solver. }
  destruct Hn as [H1 Hnm H2 H3 H4 H5 H6 H7]. split; try done.
  - intros d x Hd. rewrite Hrefs. by apply H2.
  - intros d. rewrite Hrefs. apply H3.
Qed.

Lemma name_ok h name r s n own holds : node_ok n own holds ->
  name_count (n_handles n) * 2 <= MAX_SLOT_SIZE ->
  uboss_handle_namehandle h name (n_handles n) = Some (r, s) -> node_ok (set_handles s n) own holds.
Proof.
  intros Hn Hmax Hname. pose proof (nk_names _ _ _ Hn) as [m Hm].
  pose proof (namehandle_map _ m name h Hm Hmax) as Hspec.
  assert ((exists m, names_map s m) /\ hslot s = hslot (n_handles n) /\ slot_size s = slot_size (n_handles n) /\
    handle_index s = handle_index (n_handles n) /\ hs_harbor s = hs_harbor (n_handles n))
    as (Hnm' & E1 & E2 & E3 & E4).
  { destruct (m !! name); [|destruct Hspec as (s' & Hspec & Hm' & ? & ? & ? & ?)];
      rewrite Hspec in Hname; simplify_eq; split_and!; eauto. }
  assert (forall d, in_registry (set_handles s n) d <-> in_registry n d) as Hir
    by (intros d; unfold in_registry; cbn [n_handles set_handles]; by rewrite E1).
  destruct Hn as [[W1 W2 W3 W4 W5] _ H2 H3 H4 H5 H6 H7].
  split; try done.
  - split; cbn [n_handles set_handles]; rewrite ?E1, ?E2, ?E3, ?E4; done.
  - intros d x Hd. rewrite (refs_registry n _ _ _ (Hir d)). by apply H2.
  - intros d. rewrite (refs_registry n _ _ _ (Hir d)). apply H3.
Qed.

Lemma mark_release_queues p q w w' : mqs w !! p = Some q -> uboss_mq_mark_release p w = Some w' ->
  (forall r qr, r <> p -> mqs w !! r = Some qr -> exists qr', mqs w' !! r = Some qr' /\ mq_release qr' = mq_release qr) /\
  (forall r, mqs w !! r = None -> mqs w' !! r = None).
Proof.
  intros Hp Hmark. unfold uboss_mq_mark_release in Hmark. rewrite Hp in Hmark. cbn [mbind option_bind] in Hmark.
  apply bind_Some in Hmark as (_ & _ & Hmark).
  assert (forall r, r <> p -> mqs (put_mq p (set_mq_release 1 q) w) !! r = mqs w !! r) as Hput
    by (intros r Hr; by apply lookup_insert_ne).
  assert (forall r, mqs w !! r = None -> r <> p) as Hne by (intros r Hr ->; congruence).
  destruct (mq_in_global q =? MQ_IN_GLOBAL).
  - injection Hmark as <-. split.
    + intros r qr Hr Hqr. rewrite <-Hput in Hqr by done. by exists qr.
    + intros r Hr. rewrite Hput by auto. done.
  - split.
    + intros r qr Hr Hqr. rewrite <-Hput in Hqr by done. by eapply globalmq_push_release.
    + intros r Hr. eapply globalmq_push_None; [done|]. rewrite Hput by auto. done.
Qed.

(** The last reference: the context goes, its queue is marked. *)
Lemma delete_ok n own holds holds' c ctx h b w' : node_ok n own holds -> n_ctxs n !! c = Some ctx ->
  (forall d, refs n holds' d = if decide (d = c) then 0 else refs n holds d) ->
  uboss_mq_mark_release (ctx_queue ctx) (n_mq n) = Some w' ->
  sched_step (Sched (n_mq n) own) (Sched w' own) /\
  node_ok (context_dec (set_ctxs (delete c (n_ctxs n)) (set_mq w' (set_heap h b n)))) own holds'.
Proof.
  intros Hn Hc Hrefs Hmark. destruct (nk_queue _ _ _ Hn c ctx Hc) as (q & Hq & Hrel).
  assert (sched_step (Sched (n_mq n) own) (Sched w' own)) as Hs by (by eapply sc_mark). split; [exact Hs|].
  destruct (mark_release_queues _ _ _ _ Hq Hmark) as [Hkeep Hno]. set (n' := context_dec _).
  assert (n_ctxs n' = delete c (n_ctxs n)) as Ec by done.
  assert (~ in_registry n c) as Hnr.
  { intros Hr. specialize (Hrefs c). rewrite decide_True in Hrefs by done. unfold refs in Hrefs.
    rewrite decide_True in Hrefs by done. lia. }
  assert (forall d, refs n' holds' d = if decide (d = c) then 0 else refs n holds d) as Hrefs'
    by (intros d; rewrite <-Hrefs; by apply refs_registry).
  destruct Hn as [H1 Hnm H2 H3 H4 H5 H6 H7]. split.
  - destruct H1 as [W1 W2 W3 W4 W5]. split; try done. intros i d Hd.
    assert (d <> c) by (intros ->; apply Hnr, elem_of_aget; by eexists).
    assert (handle_of n' d = handle_of n d) as -> by (unfold handle_of; rewrite Ec, lookup_delete_ne; done).
    by apply W5.
  - done.
  - intros d x. rewrite Ec, Hrefs'. intros [Hne Hd]%lookup_delete_Some. rewrite decide_False by done. by apply H2.
  - intros d. rewrite Ec, Hrefs'. destruct (decide (d = c)) as [->|Hne].
    + rewrite lookup_delete_eq. split; [lia | by intros ?%is_Some_None].
    + rewrite lookup_delete_ne by done. apply H3.
  - intros d x. rewrite Ec. intros [Hne Hd]%lookup_delete_Some.
    destruct (H4 d x Hd) as (qd & Hqd & Hrd). destruct (Hkeep (ctx_queue x) qd) as (qd' & Hqd' & Hrd'); [|done|].
    + intros Heq. by apply Hne, (H5 c d ctx x).
    + exists qd'. split; [exact Hqd' | congruence].
  - intros d e x y. rewrite Ec. intros [_ Hd]%lookup_delete_Some [_ He]%lookup_delete_Some. by eapply H5.
  - destruct H6 as [l Hl]. by eapply sched_inv_step.
  - intros k Hk. destruct (H7 k Hk) as [Hk1 Hk2]. split; [|by apply Hno].
    rewrite Ec. apply lookup_delete_None. by right.
Qed.

Section preserve.
Variable instance_release : Z -> Z -> node -> option node.
(** The release function of a module frees memory; it does not touch contexts, handles
    or queues. *)
Hypothesis release_frees : forall m i n, exists h b, instance_release m i n = Some (set_heap h b n).

Lemma release_ok n own holds c : node_ok n own holds -> c ∈ holds ->
  exists b n', uboss_context_release instance_release c n = Some (b, n') /\
    (b = false <-> refs n holds c = 1) /\ (b = false <-> n_ctxs n' !! c = None) /\
    rtc sched_step (Sched (n_mq n) own) (Sched (n_mq n') own) /\ node_ok n' own (remove_one c holds).
Proof using release_frees.
  intros Hn Hc. destruct (held_alive n own holds c Hn Hc) as (ctx & Hctx & Hpos).
  pose proof (nk_ref _ _ _ Hn c ctx Hctx) as Href. pose proof (fun d => refs_remove n holds c d Hc) as Hrm.
  unfold uboss_context_release, update. rewrite Hctx. cbn [mbind option_bind].
  destruct (Z.eqb_spec (ctx_ref ctx - 1) 0) as [H0|H0].
  - unfold delete_context. cbn [n_ctxs set_ctxs]. rewrite lookup_insert_eq.
    cbn [mbind option_bind set_ref ctx_mod ctx_instance ctx_queue].
    destruct (release_frees (ctx_mod ctx) (ctx_instance ctx)
      (set_ctxs (<[c := set_ref (ctx_ref ctx - 1) ctx]> (n_ctxs n)) n)) as (h & b & ->).
    cbn [mbind option_bind n_mq set_heap set_ctxs].
    destruct (nk_queue _ _ _ Hn c ctx Hctx) as (q & Hq & Hrel). destruct (nk_sched _ _ _ Hn) as [l Hl].
    destruct (sched_mark _ _ _ Hl _ _ Hq Hrel) as (w' & l' & Hmark & _). rewrite Hmark. cbn [mbind option_bind].
    destruct (delete_ok n own holds (remove_one c holds) c ctx h b w' Hn Hctx) as [Hs Hn']; [|done|].
    + intros d. rewrite Hrm. destruct (decide (d = c)) as [->|]; lia.
    + do 2 eexists. split; [done|]. cbn [n_ctxs set_ctxs set_mq put_mqstore node_HasMq set_heap context_dec set_total n_mq].
      rewrite lookup_delete_eq. split; [|split; [done|]]; [split; [lia | done]|].
      split; [by apply rtc_once|]. rewrite delete_insert_eq. exact Hn'.
  - do 2 eexists. split; [done|]. cbn [n_ctxs set_ctxs n_mq]. rewrite lookup_insert_eq.
    split; [split; [done | lia]|]. split; [done|]. split; [apply rtc_refl|].
    apply node_ok_ref with (holds := holds); [done | done | | lia].
    intros d. rewrite Hrm. destruct (decide (d = c)) as [->|]; lia.
Qed.

(** Each step keeps the invariant and is at most one step of the queues. *)
Lemma life_step_ok n own holds n' own' holds' : node_ok n own holds ->
  life_step instance_release (Life n own holds) (Life n' own' holds') ->
  rtc sched_step (Sched (n_mq n) own) (Sched (n_mq n') own') /\ node_ok n' own' holds'.
Proof using release_frees.
  intros Hn Hstep. inversion Hstep; subst.
  - edestruct new_ok as [Hs Hn']; [done..|]. split; [by apply rtc_once | done].
  - match goal with H : node_grab _ _ = _ |- _ => unfold node_grab in H; rename H into Hg end.
    destruct (grab_alive n own' holds h Hn) as (r & Hr & Halive). rewrite Hr in Hg. cbn [mbind option_bind] in Hg.
    destruct r as [c'|]; [|done]. apply bind_Some in Hg as (n1 & Hg & Heq). injection Heq as -> ->.
    assert (0 < refs n holds c) as Hpos by (unfold refs; rewrite decide_True by (by destruct Halive); lia).
    split; [|by eapply grab_ok].
    unfold uboss_context_grab, update in Hg. destruct (n_ctxs n !! c); [|done]. cbn [mbind option_bind] in Hg.
    injection Hg as <-. apply rtc_refl.
  - match goal with H : uboss_context_grab _ _ = _ |- _ => rename H into Hg end.
    assert (0 < refs n holds c) as Hpos.
    { match goal with H : c ∈ holds |- _ => apply count_occ_elem in H end. unfold refs. case_decide; lia. }
    split; [|by eapply grab_ok].
    unfold uboss_context_grab, update in Hg. destruct (n_ctxs n !! c); [|done]. cbn [mbind option_bind] in Hg.
    injection Hg as <-. apply rtc_refl.
  - destruct (release_ok n own' holds c Hn) as (b' & n1 & Hr & _ & _ & Hs & Hn'); [done|].
    rewrite Hr in *. by simplify_eq.
  - split; [apply rtc_refl|]. by eapply retire_ok.
  - split; [apply rtc_refl|]. by eapply name_ok.
  - destruct (held_alive n own' holds' c Hn) as (ctx' & Hctx & _); [done|].
    match goal with H : n_ctxs n !! c = Some ctx |- _ => rename H into Hc end.
    destruct (nk_queue _ _ _ Hn c ctx Hc) as (q & Hq & Hrel). destruct (nk_sched _ _ _ Hn) as [l Hl].
    destruct (mq_push_msgs _ _ _ _ _ m Hl Hq Hrel) as (w2 & l' & Hpush & Hinv & _ & _ & Hk & Hno).
    match goal with H : uboss_mq_push _ _ _ = Some w' |- _ => rename H into Hp end.
    assert (w2 = w') as -> by congruence. split; [apply rtc_once; by eapply sc_send|].
    eapply node_ok_mq; [done | by eexists | | done]. intros p qp Hqp Hr0.
    destruct (Hk p qp Hqp) as (q' & Hq' & Hr'). exists q'. split; [done | congruence].
  - match goal with H : worker_step _ _ |- _ => rename H into Hw end.
    destruct (worker_step_queues _ _ _ _ Hw) as [Hk Hno]. apply worker_sched_step in Hw.
    split; [by apply rtc_once|]. destruct (nk_sched _ _ _ Hn) as [l Hl].
    eapply node_ok_mq; [done | by eapply sched_inv_step | done | done].
  - match goal with H : n_mq n' = _ |- _ => rename H into Hmq end. rewrite Hmq.
    split; [apply rtc_refl|]. by eapply node_ok_ext.
Qed.

Lemma node_init_ok harbor : node_ok (node_init harbor) ∅ [].
Proof.
  split; cbn [node_init uboss_harbor_init set_harbor n_handles n_ctxs n_mq n_fresh].
  - apply (handle_init_wf _ harbor).
  - exists ∅. apply handle_init_names.
  - intros c ctx. by rewrite lookup_empty.
  - intros c. rewrite lookup_empty. unfold refs. split; [|by intros ?%is_Some_None].
    case_decide as Hreg; [|cbn; lia]. intros _. exfalso. unfold in_registry in Hreg.
    cbn [node_init uboss_harbor_init set_harbor n_handles uboss_handle_init hslot] in Hreg.
    by apply elem_of_replicate in Hreg as [? _].
  - intros c ctx. by rewrite lookup_empty.
  - intros c d ctx ctx'. by rewrite lookup_empty.
  - exists []. apply sched_inv_init.
  - intros k _. by rewrite !lookup_empty.
Qed.

Lemma life_reachable_ok harbor l : rtc (life_step instance_release) (Life (node_init harbor) ∅ []) l ->
  rtc sched_step sched_init (Sched (n_mq (lf_node l)) (lf_own l)) /\ node_ok (lf_node l) (lf_own l) (lf_holds l).
Proof using release_frees.
  intros Hr. remember (Life (node_init harbor) ∅ []) as l0 eqn:E.
  assert (rtc sched_step sched_init (Sched (n_mq (lf_node l0)) (lf_own l0)) /\
    node_ok (lf_node l0) (lf_own l0) (lf_holds l0)) as H0.
  { subst l0. split; [apply rtc_refl | apply node_init_ok]. }
  clear E. induction Hr as [|l1 l2 l3 Hs _ IH]; [done|]. apply IH. destruct H0 as [Hrtc Hok].
  destruct l1 as [n own holds], l2 as [n' own' holds'].
  destruct (life_step_ok _ _ _ _ _ _ Hok Hs) as [Hs' Hok']. split; [|done]. by eapply rtc_trans.
Qed.
End preserve.

(** ** Witnesses *)

(** Service 0 is created in a node with harbor 1 and released by its creator. *)
Definition demo_release (m i : Z) (n : node) : option node := Some (set_heap (n_heap n) (n_brk n) n).

Lemma demo_release_frees m i n : exists h b, demo_release m i n = Some (set_heap h b n).
Proof. by eexists _, _. Qed.

Definition demo_node : option node :=
  '(_, _, n) ← new_context 7 9 (node_init 1);
  Some (set_heap (<[5 := Bytes [104; 105; 33]]> ∅) 100 n).

Lemma demo_reachable n : demo_node = Some n ->
  rtc (life_step demo_release) (Life (node_init 1) ∅ []) (Life n ({[1%nat]} ∪ ∅) [0%nat]).
Proof.
  intros Hn. unfold demo_node in Hn. apply bind_Some in Hn as ([[c q] n1] & Hnew & Hn).
  assert (c = 0%nat /\ q = 1%nat) as [-> ->] by (vm_compute in Hnew; by injection Hnew as <- <- _).
  injection Hn as <-.
  eapply rtc_l; [by apply (life_new _ 7 9 0 1)|]. eapply rtc_l; [|apply rtc_refl].
  apply life_other; try done. intros d. cbn. by destruct (n_ctxs n1 !! d).
Qed.
