(* ===== verification/ServerThreads.v ===== *)
(** core/uboss_server.c: the life cycle of the contexts in every interleaving, with
    [uboss_context_new] step by step.

    A context is in the registry, under the lock, before its [handle] and its [queue] are
    stored and before it is counted; other threads act in between.  [fn_new] are the contexts
    that some thread is creating.  [finished] is the node in which all creations are over:
    what [ServerLife] proves of creations in one step holds of it, and every step of the
    threads is one of its steps or none. *)
From S2P Require Import Prelude Bytes Ring Mq Sched Handle Server ServerLife.

(** How far [uboss_context_new] is. *)
Inductive phase :=
| Registered (handle : Z)   (* in the registry; [ctx->handle] is still 0 *)
| Stored (handle : Z)       (* [ctx->handle] is stored; [ctx->queue] is not set *)
| Queued.                   (* [ctx->queue] is set; not counted by [context_inc] *)

Record threads := Threads {
  fn_node : node;
  fn_own : gset qid;
  fn_holds : list ctxid;
  fn_new : gmap ctxid phase
}.

(** The context's [queue] has been set. *)
Definition has_queue (new : gmap ctxid phase) (c : ctxid) : Prop :=
  match new !! c with None | Some Queued => True | _ => False end.

Section threads.
Variable instance_release : Z -> Z -> node -> option node.

(** One step of one thread: a critical section, an atomic operation or a store.  Two things
    are left out, and both are faults of the code: a registration that enlarges the table
    while another context has no handle yet ([register_rehash_race]), and a message for a
    context without queue ([server_refines_sched]).  The handle 0 is none. *)
Inductive thread_step : threads -> threads -> Prop :=
  (* uboss_context_new *)
| th_register mod_ inst c h n n' own holds new : context_register mod_ inst n = Some (c, h, n') ->
    slot_size (n_handles n') = slot_size (n_handles n) \/ (forall d h, new !! d <> Some (Registered h)) ->
    thread_step (Threads n own holds new) (Threads n' own holds (<[c := Registered h]> new))
| th_store c h n n' own holds new : new !! c = Some (Registered h) -> context_store_handle c h n = Some n' ->
    thread_step (Threads n own holds new) (Threads n' own holds (<[c := Stored h]> new))
| th_queue c h q n n' own holds new : new !! c = Some (Stored h) -> context_create_queue c h n = Some (q, n') ->
    thread_step (Threads n own holds new) (Threads n' ({[q]} ∪ own) holds (<[c := Queued]> new))
| th_count c n own holds new : new !! c = Some Queued ->
    thread_step (Threads n own holds new) (Threads (context_inc n) own (c :: holds) (delete c new))
  (* uboss_handle_grab *)
| th_grab h c n n' own holds new : h <> 0 -> node_grab h n = Some (Some c, n') ->
    thread_step (Threads n own holds new) (Threads n' own (c :: holds) new)
  (* uboss_context_grab by a holder *)
| th_share c n n' own holds new : c ∈ holds -> uboss_context_grab c n = Some n' ->
    thread_step (Threads n own holds new) (Threads n' own (c :: holds) new)
  (* uboss_context_release of a held reference *)
| th_release c b n n' own holds new : c ∈ holds -> uboss_context_release instance_release c n = Some (b, n') ->
    thread_step (Threads n own holds new) (Threads n' own (remove_one c holds) new)
  (* uboss_handle_retire, up to the unlock: the registry's reference is released later *)
| th_retire h c s n own holds new : h <> 0 ->
    uboss_handle_retire (handle_of n) h (n_handles n) = Some (1, Some c, s) ->
    thread_step (Threads n own holds new) (Threads (set_handles s n) own (c :: holds) new)
  (* uboss_handle_namehandle *)
| th_name h name r s n own holds new : name_count (n_handles n) * 2 <= MAX_SLOT_SIZE ->
    uboss_handle_namehandle h name (n_handles n) = Some (r, s) ->
    thread_step (Threads n own holds new) (Threads (set_handles s n) own holds new)
  (* uboss_mq_push to a held context *)
| th_push c ctx m w' n own holds new : c ∈ holds -> has_queue new c -> n_ctxs n !! c = Some ctx ->
    uboss_mq_push (ctx_queue ctx) m (n_mq n) = Some w' ->
    thread_step (Threads n own holds new) (Threads (set_mq w' n) own holds new)
  (* a worker, or the thread that publishes or drops the queue it has created *)
| th_worker w' own' n own holds new : worker_step (Sched (n_mq n) own) (Sched w' own') ->
    thread_step (Threads n own holds new) (Threads (set_mq w' n) own' holds new)
  (* everything that leaves references, handles and queues alone *)
| th_other n n' own holds new : (forall c, same_ctx (n_ctxs n !! c) (n_ctxs n' !! c)) ->
    n_handles n' = n_handles n -> n_mq n' = n_mq n -> n_fresh n' = n_fresh n ->
    thread_step (Threads n own holds new) (Threads n' own holds new).
End threads.

Definition threads_init (harbor : Z) : threads := Threads (node_init harbor) ∅ [] ∅.

(** ** Queues that do not exist yet do not matter *)

Section frame.
Variable X : gmap qid message_queue.

Definition ext_mq (w : mqstore) : mqstore := MqStore (mqs w ∪ X) (gq_head w) (gq_tail w).

Lemma ext_lookup w p q : mqs w !! p = Some q -> mqs (ext_mq w) !! p = Some q.
Proof. intros Hp. by apply lookup_union_Some_l. Qed.

Lemma ext_put p q w : put_mq p q (ext_mq w) = ext_mq (put_mq p q w).
Proof. unfold put_mq, ext_mq. cbn [mqs gq_head gq_tail]. by rewrite insert_union_l. Qed.

Lemma ext_globalmq_push p w w' : uboss_globalmq_push p w = Some w' -> uboss_globalmq_push p (ext_mq w) = Some (ext_mq w').
Proof.
  unfold uboss_globalmq_push. intros E. apply bind_Some in E as (q & Hq & E). apply bind_Some in E as (u & Hu & E).
  rewrite (ext_lookup w p q Hq). cbn [mbind option_bind]. rewrite Hu. cbn [mbind option_bind ext_mq gq_tail].
  destruct (gq_tail w) as [t|]; [|by injection E as <-]. apply bind_Some in E as (tq & Ht & [= <-]).
  rewrite (ext_lookup w t tq Ht). cbn [mbind option_bind]. unfold ext_mq. cbn [mqs gq_head gq_tail]. by rewrite insert_union_l.
Qed.

Lemma ext_globalmq_pop p w w' : uboss_globalmq_pop w = Some (Some p, w') -> uboss_globalmq_pop (ext_mq w) = Some (Some p, ext_mq w').
Proof.
  unfold uboss_globalmq_pop. cbn [ext_mq mqs gq_head gq_tail]. destruct (gq_head w) as [hd|]; [|done]. intros E.
  apply bind_Some in E as (q & Hq & E). rewrite (lookup_union_Some_l _ _ _ _ Hq). cbn [mbind option_bind].
  apply bind_Some in E as (t & Ht & [= <- <-]). rewrite Ht. cbn [mbind option_bind].
  unfold ext_mq. cbn [mqs gq_head gq_tail]. by rewrite insert_union_l.
Qed.

Lemma ext_mq_pop p r w w' : uboss_mq_pop p w = Some (r, w') -> uboss_mq_pop p (ext_mq w) = Some (r, ext_mq w').
Proof.
  unfold uboss_mq_pop. intros E. apply bind_Some in E as (q & Hq & E). rewrite (ext_lookup w p q Hq). cbn [mbind option_bind].
  apply bind_Some in E as ([r' q'] & E & [= <- <-]). rewrite E. cbn [mbind option_bind]. by rewrite ext_put.
Qed.

Lemma ext_mq_push p m w w' : uboss_mq_push p m w = Some w' -> uboss_mq_push p m (ext_mq w) = Some (ext_mq w').
Proof.
  unfold uboss_mq_push. intros E. apply bind_Some in E as (q & Hq & E). rewrite (ext_lookup w p q Hq). cbn [mbind option_bind].
  apply bind_Some in E as (q' & E1 & E). rewrite E1. cbn [mbind option_bind]. rewrite !ext_put.
  case_match; [by apply ext_globalmq_push|]. by injection E as <-.
Qed.

Lemma ext_mark_release p w w' : uboss_mq_mark_release p w = Some w' -> uboss_mq_mark_release p (ext_mq w) = Some (ext_mq w').
Proof.
  unfold uboss_mq_mark_release. intros E. apply bind_Some in E as (q & Hq & E). rewrite (ext_lookup w p q Hq). cbn [mbind option_bind].
  apply bind_Some in E as (u & Hu & E). rewrite Hu. cbn [mbind option_bind]. rewrite ext_put.
  case_match; [by injection E as <-|]. by apply ext_globalmq_push.
Qed.

Lemma ext_release p w w' : (forall q, mqs w !! p = Some q -> X !! p = None) -> _release p w = Some w' ->
  _release p (ext_mq w) = Some (ext_mq w').
Proof.
  intros HX. unfold _release. intros E. apply bind_Some in E as (q & Hq & E). rewrite (ext_lookup w p q Hq). cbn [mbind option_bind].
  apply bind_Some in E as (u & Hu & [= <-]). rewrite Hu. cbn [mbind option_bind]. unfold ext_mq. cbn [mqs gq_head gq_tail].
  rewrite delete_union. by rewrite (delete_id X) by eauto.
Qed.

Lemma pop_keeps p r w w' a : uboss_mq_pop p w = Some (r, w') -> is_Some (mqs w' !! a) -> is_Some (mqs w !! a).
Proof.
  clear X. unfold uboss_mq_pop. intros E. apply bind_Some in E as (q & Hq & E). apply bind_Some in E as ([r' q'] & _ & [= <- <-]).
  cbn [put_mq mqs]. destruct (decide (p = a)) as [->|]; [by eexists|]. by rewrite lookup_insert_ne.
Qed.

(** The steps of the workers; the queues to come are other threads'. *)
Lemma ext_worker w o w' o' : (forall p, is_Some (mqs w !! p) -> X !! p = None) -> o ## dom X ->
  worker_step (Sched w o) (Sched w' o') ->
  worker_step (Sched (ext_mq w) (o ∪ dom X)) (Sched (ext_mq w') (o' ∪ dom X)).
Proof.
  intros HX Hd Hstep.
  assert (forall p, p ∈ o -> (o ∖ {[p]}) ∪ dom X = (o ∪ dom X) ∖ {[p]}) as Hset by (intros p Hp; set_solver).
  inversion Hstep; subst.
  - rewrite Hset by done. apply wk_put_back; [set_solver|]. by apply ext_globalmq_push.
  - rewrite <-(assoc_L (∪)). apply wk_take. by apply ext_globalmq_pop.
  - apply (wk_pop p m); [set_solver|]. by apply ext_mq_pop.
  - rewrite Hset by done. eapply (wk_empty p q); [set_solver|by apply ext_lookup|done|by apply ext_mq_pop].
  - rewrite Hset by done. eapply (wk_free p q); [set_solver|by apply ext_lookup|done|by apply ext_mq_pop|].
    apply ext_release; [|done]. intros q1 Hq1. apply HX. eapply pop_keeps; [done|by eexists].
Qed.
End frame.

(** ** The node with all creations finished *)

(** The queue that is still to be created. *)
Definition queue_to_come (p : phase) : option message_queue :=
  match p with Registered h | Stored h => Some (new_message_queue h) | Queued => None end.

Definition new_queues (new : gmap ctxid phase) : gmap qid message_queue := kmap S (omap queue_to_come new).

Definition finish_ctx (new : gmap ctxid phase) (c : ctxid) (ctx : context) : context :=
  match new !! c with Some (Registered h) => set_ctx_handle h ctx | _ => ctx end.

Definition finish_mq (new : gmap ctxid phase) (w : mqstore) : mqstore := ext_mq (new_queues new) w.

Definition finished (new : gmap ctxid phase) (n : node) : node :=
  set_mq (finish_mq new (n_mq n)) (set_ctxs (map_imap (fun c ctx => Some (finish_ctx new c ctx)) (n_ctxs n)) n).

Definition finish_own (new : gmap ctxid phase) (own : gset qid) : gset qid := own ∪ dom (new_queues new).
Definition finish_holds (new : gmap ctxid phase) (holds : list ctxid) : list ctxid := holds ++ elements (dom new).

Record threads_ok (s : threads) : Prop := {
  tk_node : node_ok (finished (fn_new s) (fn_node s)) (finish_own (fn_new s) (fn_own s)) (finish_holds (fn_new s) (fn_holds s));
  tk_sched : rtc sched_step sched_init (Sched (n_mq (fn_node s)) (fn_own s));
  tk_new : forall c p, fn_new s !! c = Some p -> exists ctx, n_ctxs (fn_node s) !! c = Some ctx /\ ctx_queue ctx = S c /\
    forall h, p = Registered h -> ctx_handle ctx = 0;
  tk_mq : forall c p, fn_new s !! c = Some p -> is_Some (queue_to_come p) -> mqs (n_mq (fn_node s)) !! S c = None
}.

Lemma new_queues_lookup new c : new_queues new !! S c = new !! c ≫= queue_to_come.
Proof. unfold new_queues. by rewrite (lookup_kmap S), lookup_omap. Qed.

Lemma new_queues_Some new p q : new_queues new !! p = Some q -> exists c ph, p = S c /\ new !! c = Some ph /\ queue_to_come ph = Some q.
Proof.
  unfold new_queues. intros (c & -> & Hc)%lookup_kmap_Some; [|apply _]. rewrite lookup_omap in Hc.
  apply bind_Some in Hc as (ph & Hph & Hq). by exists c, ph.
Qed.

Lemma finished_ctx new n c : n_ctxs (finished new n) !! c = finish_ctx new c <$> n_ctxs n !! c.
Proof. cbn. rewrite map_lookup_imap. by destruct (n_ctxs n !! c). Qed.

Lemma finished_handles new n : n_handles (finished new n) = n_handles n.
Proof. done. Qed.

Lemma finish_ctx_same new c ctx : ctx_ref (finish_ctx new c ctx) = ctx_ref ctx /\ ctx_queue (finish_ctx new c ctx) = ctx_queue ctx /\
  ctx_mod (finish_ctx new c ctx) = ctx_mod ctx /\ ctx_instance (finish_ctx new c ctx) = ctx_instance ctx.
Proof. unfold finish_ctx. by destruct (new !! c) as [[]|]. Qed.

Lemma finish_ctx_ref new c ctx r : finish_ctx new c (set_ref r ctx) = set_ref r (finish_ctx new c ctx).
Proof. unfold finish_ctx. by destruct (new !! c) as [[]|]. Qed.

(** ** One step *)

(** The same but for what [node_ok] does not see. *)
Definition same_node (n n' : node) : Prop :=
  (forall c, same_ctx (n_ctxs n !! c) (n_ctxs n' !! c)) /\ n_handles n' = n_handles n /\ n_mq n' = n_mq n /\ n_fresh n' = n_fresh n.

Lemma same_ctx_refl o : same_ctx o o.
Proof. by destruct o. Qed.

Lemma node_ok_perm n own holds holds' : node_ok n own holds -> Permutation holds holds' -> node_ok n own holds'.
Proof.
  intros Hn Hp. assert (forall d, refs n holds' d = refs n holds d) as Hrefs.
  { intros d. unfold refs. by rewrite (proj1 (Permutation_count_occ Nat.eq_dec _ _) Hp d). }
  destruct Hn as [H1 H2 H3 H4 H5 H6 H7 H8]. split; try done.
  - intros c ctx Hc. rewrite Hrefs. by apply H3.
  - intros c. rewrite Hrefs. apply H4.
Qed.

Lemma node_ok_same n n' own own' holds holds' : node_ok n own holds -> same_node n n' -> own' = own -> Permutation holds holds' ->
  node_ok n' own' holds'.
Proof. intros Hn (H1 & H2 & H3 & H4) -> Hp. eapply node_ok_perm; [|done]. by eapply node_ok_ext. Qed.

(** The handles of the finished node are those of the node but for contexts that have none. *)
Lemma finished_handle new n c : (forall h, new !! c <> Some (Registered h)) -> handle_of (finished new n) c = handle_of n c.
Proof.
  intros Hc. unfold handle_of. rewrite finished_ctx. destruct (n_ctxs n !! c) as [ctx|]; [|done]. cbn.
  unfold finish_ctx. destruct (new !! c) as [[h| |]|] eqn:E; try done. by destruct (Hc h).
Qed.

Lemma register_grows ho c : forall fuel s h s', handle_register ho fuel c s = Some (h, s') -> 0 < slot_size s -> slot_size s <= slot_size s'.
Proof.
  induction fuel as [|fuel IH]; intros s h s' Hr Hs; cbn [handle_register] in Hr; [done|].
  destruct (find_slot _ 0 s) as [[[h0 hash]|]|]; [| |done]; cbn [mbind option_bind] in Hr; inv_opt; [done|].
  apply IH in Hr; cbn [slot_size set_slots] in *; lia.
Qed.

(** A registration that does not enlarge the table does not look at the other contexts. *)
Lemma register_no_growth ho ho' c s h s' : uboss_handle_register ho c s = Some (h, s') -> 0 < slot_size s ->
  slot_size s' = slot_size s -> uboss_handle_register ho' c s = Some (h, s').
Proof.
  unfold uboss_handle_register. intros Hr Hs Hsz. cbn [handle_register] in Hr |- *.
  destruct (find_slot _ 0 s) as [[[h0 hash]|]|]; [done| |done]. cbn [mbind option_bind] in Hr.
  apply bind_Some in Hr as (u & _ & Hr). apply bind_Some in Hr as (ns & _ & Hr).
  change (handle_register ho 1 c (set_slots (handle_index s) (slot_size s * 2) ns s) = Some (h, s')) in Hr.
  apply register_grows in Hr; cbn [slot_size set_slots] in *; lia.
Qed.

Lemma new_in_finish_holds new holds c : is_Some (new !! c) -> c ∈ finish_holds new holds.
Proof. intros Hc. apply elem_of_app. right. apply elem_of_elements. by apply elem_of_dom. Qed.

(** Adding a context, or taking it out, does to the references what one reference does. *)
Lemma finish_holds_insert new holds c p : new !! c = None -> Permutation (c :: finish_holds new holds) (finish_holds (<[c := p]> new) holds).
Proof.
  intros Hc. unfold finish_holds. rewrite Permutation_middle. apply Permutation_app_head. rewrite dom_insert_L.
  rewrite elements_union_singleton; [done|]. by apply not_elem_of_dom.
Qed.

Lemma finish_holds_update new holds c p p' : new !! c = Some p -> finish_holds (<[c := p']> new) holds = finish_holds new holds.
Proof.
  intros Hc. unfold finish_holds. rewrite dom_insert_lookup_L; [done|by eexists].
Qed.

Lemma finish_holds_delete new holds c p : new !! c = Some p -> Permutation (finish_holds new holds) (finish_holds (delete c new) (c :: holds)).
Proof.
  intros Hc. rewrite <-(insert_delete_id new c p Hc) at 1. rewrite <-finish_holds_insert by apply lookup_delete_eq. done.
Qed.

Lemma new_queues_insert new c p : new_queues (<[c := p]> new) =
  match queue_to_come p with Some q => <[S c := q]> (new_queues new) | None => delete (S c) (new_queues new) end.
Proof.
  apply map_eq. intros k. destruct k as [|k].
  - assert (forall m, new_queues m !! 0%nat = None) as H0.
    { intros m. destruct (new_queues m !! 0%nat) eqn:E; [|done]. by apply new_queues_Some in E as (x & _ & ? & _). }
    rewrite (H0 (<[c := p]> new)). destruct (queue_to_come p);
      [rewrite lookup_insert_ne by done | rewrite lookup_delete_ne by done]; by rewrite H0.
  - rewrite new_queues_lookup. destruct (decide (c = k)) as [->|Hne].
    + rewrite lookup_insert_eq. cbn [mbind option_bind].
      destruct (queue_to_come p); [by rewrite lookup_insert_eq | by rewrite lookup_delete_eq].
    + rewrite lookup_insert_ne by done. rewrite <-new_queues_lookup.
      destruct (queue_to_come p); [by rewrite lookup_insert_ne by congruence | by rewrite lookup_delete_ne by congruence].
Qed.

Lemma new_queues_delete new c : new !! c = Some Queued -> new_queues (delete c new) = new_queues new.
Proof.
  intros Hc. rewrite <-(insert_delete_id new c Queued Hc) at 2. rewrite new_queues_insert. cbn [queue_to_come].
  symmetry. apply delete_id. by rewrite new_queues_lookup, lookup_delete_eq.
Qed.

Section steps.
Context (n : node) (own : gset qid) (holds : list ctxid) (new : gmap ctxid phase).
Hypothesis Hok : threads_ok (Threads n own holds new).

Lemma finished_ok : node_ok (finished new n) (finish_own new own) (finish_holds new holds).
Proof using Hok. exact (tk_node _ Hok). Qed.

Lemma queues_apart p : is_Some (mqs (n_mq n) !! p) -> new_queues new !! p = None.
Proof using Hok.
  intros [q Hq]. destruct (new_queues new !! p) as [q'|] eqn:E; [|done].
  apply new_queues_Some in E as (c & ph & -> & Hc & Hph). pose proof (tk_mq _ Hok c ph Hc ltac:(by eexists)) as H. cbn in H. congruence.
Qed.

Lemma sched_ok : exists l, sched_inv (Sched (n_mq n) own) l.
Proof using Hok. exact (sched_inv_reachable _ (tk_sched _ Hok)). Qed.

Lemma own_apart : own ## dom (new_queues new).
Proof using Hok.
  destruct sched_ok as [l (_ & Ho & _)]. cbn [sc_owned sc_store] in Ho. intros p Hp Hd. apply elem_of_dom in Hd as [q Hq].
  destruct (Ho p Hp) as [_ Hm]. rewrite (queues_apart p Hm) in Hq. done.
Qed.

(** A context whose queue has been set has one. *)
Lemma queue_there c ctx : n_ctxs n !! c = Some ctx -> has_queue new c ->
  exists q, mqs (n_mq n) !! ctx_queue ctx = Some q /\ mq_release q = 0.
Proof using Hok.
  intros Hc Hq. pose proof finished_ok as Hn.
  assert (n_ctxs (finished new n) !! c = Some (finish_ctx new c ctx)) as Hf by (by rewrite finished_ctx, Hc).
  destruct (nk_queue _ _ _ Hn c _ Hf) as (q & Hmq & Hrel). destruct (finish_ctx_same new c ctx) as (_ & Eq & _). rewrite Eq in Hmq.
  exists q. split; [|done]. cbn in Hmq. apply lookup_union_Some_raw in Hmq as [Hmq|[_ Hmq]]; [done|]. exfalso.
  apply new_queues_Some in Hmq as (c' & ph & Es & Hc' & Hph). destruct (tk_new _ Hok c' ph Hc') as (ctx' & Hctx' & Eq' & _). cbn in Hctx'.
  assert (c = c') as <-.
  { apply (nk_distinct _ _ _ Hn c c' (finish_ctx new c ctx) (finish_ctx new c' ctx')); [done|by rewrite finished_ctx, Hctx'|].
    destruct (finish_ctx_same new c' ctx') as (_ & -> & _). congruence. }
  unfold has_queue in Hq. rewrite Hc' in Hq. by destruct ph.
Qed.

(** The other contexts keep what a creation needs. *)
Definition keeps (o o' : option context) : Prop :=
  forall ctx, o = Some ctx -> exists ctx', o' = Some ctx' /\ ctx_queue ctx' = ctx_queue ctx /\ ctx_handle ctx' = ctx_handle ctx.

Lemma keep_ok n' own' holds' : node_ok (finished new n') (finish_own new own') (finish_holds new holds') ->
  rtc sched_step (Sched (n_mq n) own) (Sched (n_mq n') own') ->
  (forall c, is_Some (new !! c) -> keeps (n_ctxs n !! c) (n_ctxs n' !! c)) ->
  (forall p, mqs (n_mq n) !! p = None -> mqs (n_mq n') !! p = None) ->
  threads_ok (Threads n' own' holds' new).
Proof using Hok.
  intros Hn Hs Hk Hq. split; cbn [fn_node fn_own fn_holds fn_new]; [done| | |].
  - eapply rtc_trans; [exact (tk_sched _ Hok)|done].
  - intros c p Hc. destruct (tk_new _ Hok c p Hc) as (ctx & Hctx & Eq & Hh).
    destruct (Hk c ltac:(by eexists) ctx Hctx) as (ctx' & Hctx' & Eq' & Eh'). exists ctx'. split; [done|]. split; [congruence|].
    intros h Hp. rewrite Eh'. by eapply Hh.
  - intros c p Hc Hp. apply Hq. exact (tk_mq _ Hok c p Hc Hp).
Qed.

Lemma register_keeps mod_ inst c h n' : context_register mod_ inst n = Some (c, h, n') ->
  slot_size (n_handles n') = slot_size (n_handles n) \/ (forall d h, new !! d <> Some (Registered h)) ->
  threads_ok (Threads n' own holds (<[c := Registered h]> new)).
Proof using Hok.
  intros Hreg Hsize. pose proof finished_ok as Hn. set (N := finished new n) in *. unfold context_register in Hreg.
  set (ctx0 := Context mod_ inst None (S (n_fresh n)) 0 0 2 0 false false) in *.
  apply bind_Some in Hreg as ([h0 s] & Hreg & [= <- -> <-]). cbn [n_handles set_ctxs set_fresh set_handles] in *.
  set (c := n_fresh n) in *. destruct (nk_fresh _ _ _ Hn c ltac:(done)) as [Hc _].
  destruct (nk_fresh _ _ _ Hn (S c)) as [_ Hq]; [unfold N, c; cbn; lia|].
  unfold N in Hc. rewrite finished_ctx in Hc. assert (n_ctxs n !! c = None) as Hc' by (by destruct (n_ctxs n !! c)).
  apply lookup_union_None in Hq as [Hq Hqn].
  assert (new !! c = None) as Hnew.
  { destruct (new !! c) as [p|] eqn:E; [|done]. destruct (tk_new _ Hok c p E) as (ctx & Hctx & _). cbn in Hctx. congruence. }
  set (N0 := set_ctxs (<[c := ctx0]> (n_ctxs N)) (set_fresh (S (S c)) N)).
  assert (uboss_handle_register (handle_of N0) c (n_handles n) = Some (h, s)) as Hreg'.
  { destruct Hsize as [Hsz|Hno].
    - eapply register_no_growth; [exact Hreg| |done]. pose proof (wf_pow _ _ (nk_slot _ _ _ Hn)) as (k & Hk & Hs). cbn in Hs. rewrite Hs. apply Z.pow_pos_nonneg; lia.
    - rewrite <-Hreg. apply handle_register_ext. intros d. unfold handle_of, N0. cbn [n_ctxs set_ctxs set_fresh].
      destruct (decide (c = d)) as [<-|Hne]; [by rewrite !lookup_insert_eq|]. rewrite !lookup_insert_ne by done.
      apply (finished_handle new n d). intros h1. apply Hno. }
  assert (exists N1, new_context mod_ inst N = Some (c, S c, N1) /\
    same_node N1 (finished (<[c := Registered h]> new) (set_handles s (set_ctxs (<[c := ctx0]> (n_ctxs n)) (set_fresh (S (S c)) n)))))
    as (N1 & Hnc & Hsame).
  { assert (context_register mod_ inst N = Some (c, h, set_handles s N0)) as Hr.
    { change (context_register mod_ inst N) with
        ('(handle, s) ← uboss_handle_register (handle_of N0) c (n_handles n); Some (c, handle, set_handles s N0)).
      by rewrite Hreg'. }
    unfold new_context. rewrite Hr. cbn [mbind option_bind].
    unfold context_store_handle, update. cbn [n_ctxs set_handles N0 set_ctxs]. rewrite lookup_insert_eq. cbn [mbind option_bind].
    unfold context_create_queue. cbn [n_ctxs set_ctxs]. rewrite lookup_insert_eq. cbn [mbind option_bind set_ctx_handle ctx_queue ctx0].
    unfold uboss_mq_create. cbn [n_mq set_ctxs set_handles N0 set_fresh].
    rewrite (proj2 (lookup_union_None (mqs (n_mq n)) _ (S c)) (conj Hq Hqn) : mqs (n_mq N) !! S c = None).
    cbn [mbind option_bind]. eexists. split; [done|]. split; [|split; [done|split; [|done]]].
    - intros d. rewrite finished_ctx. cbn [n_ctxs context_inc set_total set_mq put_mqstore node_HasMq set_ctxs set_handles set_fresh].
      rewrite insert_insert_eq. destruct (decide (c = d)) as [<-|Hne].
      + rewrite !lookup_insert_eq. cbn. unfold finish_ctx. rewrite lookup_insert_eq. done.
      + rewrite !lookup_insert_ne by done. change (n_ctxs N) with (n_ctxs (finished new n)). rewrite finished_ctx.
        unfold finish_ctx. rewrite lookup_insert_ne by done. apply same_ctx_refl.
    - cbn. unfold finish_mq, ext_mq, put_mq. cbn [mqs gq_head gq_tail]. f_equal.
      rewrite new_queues_insert. cbn [queue_to_come]. by rewrite insert_union_r. }
  destruct (new_ok _ _ _ _ _ _ _ _ Hn Hnc) as [_ Hn1].
  split; cbn [fn_node fn_own fn_holds fn_new].
  - eapply node_ok_same; [exact Hn1|exact Hsame| |by apply finish_holds_insert].
    unfold finish_own. rewrite new_queues_insert. cbn [queue_to_come]. rewrite dom_insert_L. set_solver.
  - exact (tk_sched _ Hok).
  - intros d p. intros [[<- <-]|[Hne Hd]]%lookup_insert_Some; cbn [n_ctxs set_handles set_ctxs].
    + exists ctx0. rewrite lookup_insert_eq. done.
    + rewrite lookup_insert_ne by done. exact (tk_new _ Hok d p Hd).
  - intros d p. intros [[<- <-]|[Hne Hd]]%lookup_insert_Some; cbn; [done|]. exact (tk_mq _ Hok d p Hd).
Qed.

Lemma store_keeps c h n' : new !! c = Some (Registered h) -> context_store_handle c h n = Some n' ->
  threads_ok (Threads n' own holds (<[c := Stored h]> new)).
Proof using Hok.
  intros Hc. destruct (tk_new _ Hok c _ Hc) as (ctx & Hctx & Eq & Hh). cbn [fn_node] in Hctx.
  unfold context_store_handle, update. rewrite Hctx. cbn [mbind option_bind]. intros [= <-].
  assert (new_queues (<[c := Stored h]> new) = new_queues new) as Eqs.
  { rewrite new_queues_insert. cbn [queue_to_come]. apply insert_id. by rewrite new_queues_lookup, Hc. }
  split; cbn [fn_node fn_own fn_holds fn_new].
  - eapply node_ok_same; [exact finished_ok| | |].
    + split; [|split; [done|split; [|done]]].
      * intros d. rewrite !finished_ctx. cbn [n_ctxs set_ctxs]. destruct (decide (c = d)) as [<-|Hne].
        -- rewrite lookup_insert_eq, Hctx. cbn. unfold finish_ctx. by rewrite lookup_insert_eq, Hc.
        -- rewrite lookup_insert_ne by done. unfold finish_ctx. rewrite lookup_insert_ne by done. apply same_ctx_refl.
      * cbn. unfold finish_mq. by rewrite Eqs.
    + unfold finish_own. by rewrite Eqs.
    + by erewrite finish_holds_update.
  - exact (tk_sched _ Hok).
  - intros d p. cbn [n_ctxs set_ctxs]. intros [[<- <-]|[Hne Hd]]%lookup_insert_Some.
    + rewrite lookup_insert_eq. eexists. split; [done|]. by split.
    + rewrite lookup_insert_ne by done. exact (tk_new _ Hok d p Hd).
  - intros d p [[<- <-]|[Hne Hd]]%lookup_insert_Some Hp; cbn; [exact (tk_mq _ Hok c _ Hc ltac:(by eexists))|exact (tk_mq _ Hok d p Hd Hp)].
Qed.

Lemma queue_keeps c h q n' : new !! c = Some (Stored h) -> context_create_queue c h n = Some (q, n') ->
  threads_ok (Threads n' ({[q]} ∪ own) holds (<[c := Queued]> new)).
Proof using Hok.
  intros Hc. destruct (tk_new _ Hok c _ Hc) as (ctx & Hctx & Eq & Hh). cbn [fn_node] in Hctx.
  pose proof (tk_mq _ Hok c _ Hc ltac:(by eexists)) as Hq. cbn [fn_node] in Hq.
  unfold context_create_queue, uboss_mq_create. rewrite Hctx. cbn [mbind option_bind]. rewrite Eq, Hq. cbn [mbind option_bind]. intros [= <- <-].
  assert (new_queues new = <[S c := new_message_queue h]> (new_queues (<[c := Queued]> new))) as Eqs.
  { rewrite new_queues_insert. cbn [queue_to_come]. rewrite insert_delete_id; [done|]. by rewrite new_queues_lookup, Hc. }
  split; cbn [fn_node fn_own fn_holds fn_new].
  - eapply node_ok_same; [exact finished_ok| | |].
    + split; [|split; [done|split; [|done]]].
      * intros d. rewrite !finished_ctx. cbn [n_ctxs set_mq put_mqstore node_HasMq]. unfold finish_ctx. destruct (decide (c = d)) as [<-|Hne].
        -- rewrite lookup_insert_eq, Hc. apply same_ctx_refl.
        -- rewrite lookup_insert_ne by done. apply same_ctx_refl.
      * cbn. unfold finish_mq, ext_mq, put_mq. cbn [mqs gq_head gq_tail]. f_equal. rewrite Eqs, <-insert_union_l. by apply insert_union_r.
    + unfold finish_own. rewrite Eqs, dom_insert_L. set_solver.
    + by erewrite finish_holds_update.
  - eapply rtc_r; [exact (tk_sched _ Hok)|]. cbn. apply (sc_create (S c) h); [|done]. unfold uboss_mq_create. by rewrite Hq.
  - intros d p. cbn [n_ctxs set_mq put_mqstore node_HasMq]. intros [[<- <-]|[Hne Hd]]%lookup_insert_Some; [by exists ctx|exact (tk_new _ Hok d p Hd)].
  - intros d p [[<- <-]|[Hne Hd]]%lookup_insert_Some Hp; cbn; [by destruct Hp|].
    rewrite lookup_insert_ne by congruence. exact (tk_mq _ Hok d p Hd Hp).
Qed.

Lemma count_keeps c : new !! c = Some Queued -> threads_ok (Threads (context_inc n) own (c :: holds) (delete c new)).
Proof using Hok.
  intros Hc. pose proof (new_queues_delete new c Hc) as Eqs. split; cbn [fn_node fn_own fn_holds fn_new].
  - eapply node_ok_same; [exact finished_ok| | |by apply (finish_holds_delete new holds c Queued)].
    + split; [|split; [done|split; [|done]]].
      * intros d. rewrite !finished_ctx. cbn [n_ctxs context_inc set_total]. unfold finish_ctx. destruct (decide (c = d)) as [<-|Hne].
        -- rewrite lookup_delete_eq, Hc. apply same_ctx_refl.
        -- rewrite lookup_delete_ne by done. apply same_ctx_refl.
      * cbn. unfold finish_mq. by rewrite Eqs.
    + unfold finish_own. by rewrite Eqs.
  - exact (tk_sched _ Hok).
  - intros d p [Hne Hd]%lookup_delete_Some. exact (tk_new _ Hok d p Hd).
  - intros d p [Hne Hd]%lookup_delete_Some Hp. exact (tk_mq _ Hok d p Hd Hp).
Qed.

(** What has the handle [h], which is not 0, has it in the finished node too. *)
Lemma finished_has_handle c h : h <> 0 -> handle_of n c = h -> handle_of (finished new n) c = h.
Proof using Hok.
  intros Hz Hh. rewrite finished_handle; [done|]. intros h' Hc. destruct (tk_new _ Hok c _ Hc) as (ctx & Hctx & _ & H0).
  unfold handle_of in Hh. cbn [fn_node] in Hctx. rewrite Hctx, (H0 h' eq_refl) in Hh. done.
Qed.

(** Counting one more reference of a context. *)
Lemma grab_keeps c n' : 0 < refs (finished new n) (finish_holds new holds) c -> uboss_context_grab c n = Some n' ->
  threads_ok (Threads n' own (c :: holds) new).
Proof using Hok.
  intros Hr. unfold uboss_context_grab, update. destruct (n_ctxs n !! c) as [ctx|] eqn:Hctx; [|done]. cbn [mbind option_bind]. intros [= <-].
  apply keep_ok; cbn [n_mq set_ctxs]; [|apply rtc_refl| |done].
  - destruct (finish_ctx_same new c ctx) as (Er & _).
    eapply node_ok_same with (holds := c :: finish_holds new holds); [eapply grab_ok; [exact finished_ok|exact Hr|]| |done|done].
    + unfold uboss_context_grab, update. rewrite finished_ctx, Hctx. cbn [fmap option_fmap option_map mbind option_bind]. done.
    + split; [|split; [done|split; [done|done]]]. intros d. rewrite finished_ctx. cbn [n_ctxs set_ctxs].
      destruct (decide (c = d)) as [<-|Hne].
      * rewrite !lookup_insert_eq. cbn. rewrite finish_ctx_ref, Er. done.
      * rewrite !lookup_insert_ne by done. rewrite finished_ctx. apply same_ctx_refl.
  - intros d _ x Hx. cbn [n_ctxs set_ctxs]. destruct (decide (c = d)) as [<-|Hne].
    + rewrite lookup_insert_eq. assert (x = ctx) as -> by congruence. by eexists.
    + rewrite lookup_insert_ne by done. by exists x.
Qed.

Lemma name_keeps h name r s : name_count (n_handles n) * 2 <= MAX_SLOT_SIZE ->
  uboss_handle_namehandle h name (n_handles n) = Some (r, s) -> threads_ok (Threads (set_handles s n) own holds new).
Proof using Hok.
  intros Hmax Hname. apply keep_ok; [|apply rtc_refl| |done].
  - exact (name_ok _ _ _ _ (finished new n) _ _ finished_ok Hmax Hname).
  - intros d _ x Hx. by exists x.
Qed.

Lemma retire_keeps h c s : h <> 0 -> uboss_handle_retire (handle_of n) h (n_handles n) = Some (1, Some c, s) ->
  uboss_handle_retire (handle_of (finished new n)) h (n_handles (finished new n)) = Some (1, Some c, s) /\
  threads_ok (Threads (set_handles s n) own (c :: holds) new).
Proof using Hok.
  intros Hz Hret.
  assert (uboss_handle_retire (handle_of (finished new n)) h (n_handles (finished new n)) = Some (1, Some c, s)) as Hret'.
  { unfold uboss_handle_retire in *. change (n_handles (finished new n)) with (n_handles n).
    destruct ((hslot (n_handles n)).[_]) as [[d|]|]; [|done..]. cbn [mbind option_bind] in *.
    destruct (Z.eqb_spec (handle_of n d) h) as [Hh|]; [|done]. rewrite (finished_has_handle d h Hz Hh), Z.eqb_refl. exact Hret. }
  split; [exact Hret'|]. apply keep_ok; [|apply rtc_refl| |done].
  - exact (retire_ok h c s (finished new n) _ _ finished_ok Hret').
  - intros d _ x Hx. by exists x.
Qed.

Lemma other_keeps n' : (forall c, same_ctx (n_ctxs n !! c) (n_ctxs n' !! c)) -> n_handles n' = n_handles n ->
  n_mq n' = n_mq n -> n_fresh n' = n_fresh n -> threads_ok (Threads n' own holds new).
Proof using Hok.
  intros Hs Hh Hm Hf. apply keep_ok; rewrite ?Hm; [|apply rtc_refl| |done].
  - eapply node_ok_same; [exact finished_ok| |done|done]. split; [|split; [done|split; [cbn; by rewrite Hm|done]]].
    intros c. rewrite !finished_ctx. specialize (Hs c). destruct (n_ctxs n !! c), (n_ctxs n' !! c); try done. cbn in *.
    unfold finish_ctx. destruct (new !! c) as [[]|]; cbn; tauto.
  - intros c _ x Hx. specialize (Hs c). rewrite Hx in Hs. destruct (n_ctxs n' !! c) as [y|]; [|done]. exists y. by destruct Hs as (_ & ? & ?).
Qed.

Lemma grab_alive_fine h c n' : h <> 0 -> node_grab h n = Some (Some c, n') ->
  uboss_handle_grab (handle_of (finished new n)) h (n_handles n) = Some (Some c) /\ uboss_context_grab c n = Some n'.
Proof using Hok.
  intros Hz. unfold node_grab, uboss_handle_grab. destruct ((hslot (n_handles n)).[_]) as [[d|]|]; [|done..]. cbn [mbind option_bind].
  destruct (Z.eqb_spec (handle_of n d) h) as [Hh|]; [|done]. cbn [mbind option_bind]. intros Hg.
  apply bind_Some in Hg as (n1 & Hg & [= <- <-]). by rewrite (finished_has_handle d h Hz Hh), Z.eqb_refl.
Qed.

Lemma handle_grab_keeps h c n' : h <> 0 -> node_grab h n = Some (Some c, n') -> threads_ok (Threads n' own (c :: holds) new).
Proof using Hok.
  intros Hz Hg. destruct (grab_alive_fine h c n' Hz Hg) as [Hf Hc]. apply grab_keeps; [|done].
  destruct (grab_alive _ _ _ h finished_ok) as (r & Hr & Hal). change (n_handles (finished new n)) with (n_handles n) in Hr.
  rewrite Hf in Hr. injection Hr as <-. destruct Hal as [Hreg _]. unfold refs. rewrite decide_True by done. lia.
Qed.

Lemma share_keeps c n' : c ∈ holds -> uboss_context_grab c n = Some n' -> threads_ok (Threads n' own (c :: holds) new).
Proof using Hok.
  intros Hc Hg. apply grab_keeps; [|done]. assert (c ∈ finish_holds new holds) as Hin by (apply elem_of_app; by left).
  apply count_occ_elem in Hin. unfold refs. case_decide; lia.
Qed.
End steps.

Section preserve.
Variable instance_release : Z -> Z -> node -> option node.
(** As in [ServerLife]. *)
Hypothesis release_frees : forall m i n, exists h b, instance_release m i n = Some (set_heap h b n).

Lemma push_keeps n own holds new c ctx m w' : threads_ok (Threads n own holds new) -> c ∈ holds -> has_queue new c -> n_ctxs n !! c = Some ctx ->
  uboss_mq_push (ctx_queue ctx) m (n_mq n) = Some w' -> threads_ok (Threads (set_mq w' n) own holds new).
Proof using release_frees.
  intros Hok Hc Hq Hctx Hp. destruct (queue_there n own holds new Hok c ctx Hctx Hq) as (q & Hmq & Hrel).
  destruct (sched_ok n own holds new Hok) as [l Hl]. destruct (mq_push_msgs _ _ _ _ _ m Hl Hmq Hrel) as (w2 & l' & Hp' & _ & _ & _ & _ & Hno).
  assert (w2 = w') as -> by congruence. apply (keep_ok n own holds new Hok); [| |by intros d _ x Hx; exists x|exact Hno].
  - pose proof (life_step_ok instance_release release_frees (finished new n) _ _
      (set_mq (finish_mq new w') (finished new n)) (finish_own new own) (finish_holds new holds) (finished_ok _ _ _ _ Hok)) as Hs.
    apply Hs. eapply (life_push _ c (finish_ctx new c ctx) m).
    + apply elem_of_app. by left.
    + by rewrite finished_ctx, Hctx.
    + destruct (finish_ctx_same new c ctx) as (_ & -> & _). by apply ext_mq_push.
  - apply rtc_once. by eapply sc_send.
Qed.

Lemma worker_keeps n own holds new w' own' : threads_ok (Threads n own holds new) ->
  worker_step (Sched (n_mq n) own) (Sched w' own') -> threads_ok (Threads (set_mq w' n) own' holds new).
Proof using release_frees.
  intros Hok Hw. destruct (worker_step_queues _ _ _ _ Hw) as [_ Hno].
  apply (keep_ok n own holds new Hok); [| |by intros d _ x Hx; exists x|exact Hno].
  - apply (life_step_ok instance_release release_frees (finished new n) (finish_own new own) (finish_holds new holds)
      (set_mq (finish_mq new w') (finished new n)) (finish_own new own') (finish_holds new holds) (finished_ok _ _ _ _ Hok)).
    apply life_worker. apply ext_worker; [|by eapply own_apart|done]. intros p. by eapply queues_apart.
  - apply rtc_once. by apply worker_sched_step.
Qed.

Lemma remove_one_app c l k : c ∈ l -> remove_one c (l ++ k) = remove_one c l ++ k.
Proof.
  induction l as [|d l IH]; [by intros ?%not_elem_of_nil|]. intros Hin. cbn [remove_one app].
  destruct (decide (c = d)) as [->|Hne]; [done|]. cbn [app]. rewrite IH; [done|]. by apply elem_of_cons in Hin as [?|?].
Qed.

(** The last reference is not one of a context that is being created. *)
Lemma last_not_new n own holds new c : threads_ok (Threads n own holds new) -> c ∈ holds ->
  refs (finished new n) (finish_holds new holds) c = 1 -> new !! c = None.
Proof.
  intros Hok Hc Hr. destruct (new !! c) as [p|] eqn:E; [|done]. exfalso. unfold refs, finish_holds in Hr. rewrite count_occ_app in Hr.
  assert (0 < count_occ Nat.eq_dec holds c)%nat by (by apply count_occ_elem).
  assert (0 < count_occ Nat.eq_dec (elements (dom new)) c)%nat by (apply count_occ_elem, elem_of_elements, elem_of_dom; by eexists).
  case_decide; lia.
Qed.

Lemma release_keeps n own holds new c b n' : threads_ok (Threads n own holds new) -> c ∈ holds ->
  uboss_context_release instance_release c n = Some (b, n') -> threads_ok (Threads n' own (remove_one c holds) new).
Proof using release_frees.
  intros Hok Hc Hrel. pose proof (finished_ok _ _ _ _ Hok) as Hn.
  assert (c ∈ finish_holds new holds) as Hin by (apply elem_of_app; by left).
  destruct (release_ok instance_release release_frees _ _ _ c Hn Hin) as (b1 & n1 & Hrel1 & Hlast & _ & _ & Hn1).
  unfold finish_holds in Hn1. rewrite remove_one_app in Hn1 by done. fold (finish_holds new (remove_one c holds)) in Hn1.
  unfold uboss_context_release, update in Hrel, Hrel1. rewrite finished_ctx in Hrel1.
  destruct (n_ctxs n !! c) as [ctx|] eqn:Hctx; [|done]. cbn [fmap option_fmap option_map mbind option_bind] in Hrel, Hrel1.
  destruct (finish_ctx_same new c ctx) as (Er & Eq & Em & Ei). rewrite Er in Hrel1.
  destruct (Z.eqb_spec (ctx_ref ctx - 1) 0) as [H0|H0].
  - assert (b1 = false) as -> by (by apply bind_Some in Hrel1 as (? & _ & [= <- _])).
    pose proof (last_not_new n own holds new c Hok Hc (proj1 Hlast eq_refl)) as Hnew.
    unfold delete_context in Hrel, Hrel1. cbn [n_ctxs set_ctxs] in Hrel, Hrel1. rewrite lookup_insert_eq in Hrel, Hrel1.
    cbn [mbind option_bind set_ref ctx_mod ctx_instance ctx_queue] in Hrel, Hrel1.
    match type of Hrel with context [instance_release ?m ?i ?x] => destruct (release_frees m i x) as (h & br & E); rewrite E in Hrel; clear E end.
    match type of Hrel1 with context [instance_release ?m ?i ?x] => destruct (release_frees m i x) as (h1 & br1 & E); rewrite E in Hrel1; clear E end.
    cbn [mbind option_bind n_mq set_heap set_ctxs n_ctxs] in Hrel, Hrel1. rewrite Eq in Hrel1.
    apply bind_Some in Hrel as (nx & Hx & [= <- <-]). apply bind_Some in Hx as (w' & Hmark & [= <-]).
    rewrite (ext_mark_release (new_queues new) _ _ _ Hmark : uboss_mq_mark_release _ (n_mq (finished new n)) = _) in Hrel1.
    cbn [mbind option_bind] in Hrel1. injection Hrel1 as <-.
    assert (has_queue new c) as Hhq by (unfold has_queue; by rewrite Hnew).
    destruct (queue_there n own holds new Hok c ctx Hctx Hhq) as (q & Hmq & Hq0).
    apply (keep_ok n own holds new Hok).
    + eapply node_ok_same; [exact Hn1| |done|done]. split; [|split; [done|split; [done|done]]].
      intros d. rewrite finished_ctx. cbn [n_ctxs context_dec set_total set_mq put_mqstore node_HasMq set_heap set_ctxs].
      destruct (decide (c = d)) as [<-|Hne]; [by rewrite !lookup_delete_eq|]. rewrite !lookup_delete_ne, !lookup_insert_ne by done.
      change (map_imap (fun c ctx => Some (finish_ctx new c ctx)) (n_ctxs n)) with (n_ctxs (finished new n)).
      rewrite finished_ctx. apply same_ctx_refl.
    + apply rtc_once. cbn. by eapply sc_mark.
    + intros d [p Hd] x Hx. cbn [n_ctxs context_dec set_total set_mq put_mqstore node_HasMq set_heap set_ctxs].
      rewrite lookup_delete_ne, lookup_insert_ne by congruence. by exists x.
    + exact (proj2 (mark_release_queues _ _ _ _ Hmq Hmark)).
  - injection Hrel as <- <-. injection Hrel1 as <- <-. apply (keep_ok n own holds new Hok); [|apply rtc_refl| |done].
    + eapply node_ok_same; [exact Hn1| |done|done]. split; [|split; [done|split; [done|done]]].
      intros d. rewrite finished_ctx. cbn [n_ctxs set_ctxs]. destruct (decide (c = d)) as [<-|Hne].
      * rewrite !lookup_insert_eq. cbn. by rewrite finish_ctx_ref.
      * rewrite !lookup_insert_ne by done. change (map_imap (fun c ctx => Some (finish_ctx new c ctx)) (n_ctxs n)) with (n_ctxs (finished new n)).
        rewrite finished_ctx. apply same_ctx_refl.
    + intros d _ x Hx. cbn [n_ctxs set_ctxs]. destruct (decide (c = d)) as [<-|Hne].
      * rewrite lookup_insert_eq. assert (x = ctx) as -> by congruence. by eexists.
      * rewrite lookup_insert_ne by done. by exists x.
Qed.

Lemma thread_step_ok s s' : threads_ok s -> thread_step instance_release s s' -> threads_ok s'.
Proof using release_frees.
  intros Hok Hstep. destruct Hstep.
  - by eapply register_keeps.
  - by eapply store_keeps.
  - by eapply queue_keeps.
  - by apply (count_keeps _ _ _ _ Hok).
  - by eapply handle_grab_keeps.
  - by eapply share_keeps.
  - by eapply release_keeps.
  - by eapply retire_keeps.
  - by eapply name_keeps.
  - by eapply push_keeps.
  - by eapply worker_keeps.
  - by eapply other_keeps.
Qed.

Lemma threads_init_ok harbor : threads_ok (threads_init harbor).
Proof.
  split; cbn [threads_init fn_node fn_own fn_holds fn_new]; [|apply rtc_refl| |]; [|intros c p; by rewrite lookup_empty..].
  eapply node_ok_same; [apply (node_init_ok harbor)| |by vm_compute|done].
  split; [|done]. intros c. rewrite finished_ctx. cbn. by rewrite lookup_empty.
Qed.

Lemma threads_reachable_ok harbor s : rtc (thread_step instance_release) (threads_init harbor) s -> threads_ok s.
Proof using release_frees.
  intros Hr. pose proof (threads_init_ok harbor) as H0. induction Hr as [|s1 s2 s3 Hs _ IH]; [done|].
  apply IH. by eapply thread_step_ok.
Qed.

(** The references, creators included. *)
Lemma refs_finished n new holds c : refs (finished new n) (finish_holds new holds) c =
  (if decide (in_registry n c) then 1 else 0) + Z.of_nat (count_occ Nat.eq_dec holds c) +
  (if decide (is_Some (new !! c)) then 1 else 0).
Proof.
  unfold refs, finish_holds. rewrite count_occ_app.
  assert (Z.of_nat (count_occ Nat.eq_dec (elements (dom new)) c) = if decide (is_Some (new !! c)) then 1 else 0) as E.
  { case_decide as H.
    - rewrite (proj1 (List.NoDup_count_occ' Nat.eq_dec _)); [done|apply NoDup_ListNoDup, NoDup_elements|].
      apply list_elem_of_In, elem_of_elements. by apply elem_of_dom.
    - rewrite (proj1 (List.count_occ_not_In Nat.eq_dec _ _)); [done|]. intros Hin. apply H.
      apply list_elem_of_In, elem_of_elements in Hin. by apply elem_of_dom in Hin. }
  rewrite Nat2Z.inj_add, E. change (in_registry (finished new n) c) with (in_registry n c). destruct (decide (in_registry n c)), (decide (in_registry (finished new n) c)); (done || lia).
Qed.

Lemma ctx_refs n own holds new c ctx : threads_ok (Threads n own holds new) -> n_ctxs n !! c = Some ctx ->
  ctx_ref ctx = refs (finished new n) (finish_holds new holds) c.
Proof.
  intros Hok Hc. rewrite <-(nk_ref _ _ _ (finished_ok _ _ _ _ Hok) c (finish_ctx new c ctx)) by (by rewrite finished_ctx, Hc).
  by destruct (finish_ctx_same new c ctx) as (-> & _).
Qed.

Lemma ctx_alive n own holds new c : threads_ok (Threads n own holds new) ->
  is_Some (n_ctxs n !! c) <-> 0 < refs (finished new n) (finish_holds new holds) c.
Proof.
  intros Hok. rewrite (nk_alive _ _ _ (finished_ok _ _ _ _ Hok) c), finished_ctx. destruct (n_ctxs n !! c); cbn; split;
    [by eexists..|by intros ?%is_Some_None|by intros ?%is_Some_None].
Qed.

(** Giving a reference back. *)
Lemma release_fine n own holds new c : threads_ok (Threads n own holds new) -> c ∈ holds ->
  exists b n', uboss_context_release instance_release c n = Some (b, n') /\
    (b = false <-> refs (finished new n) (finish_holds new holds) c = 1) /\ (b = false <-> n_ctxs n' !! c = None).
Proof using release_frees.
  intros Hok Hc. assert (0 < refs (finished new n) (finish_holds new holds) c) as Hpos.
  { apply count_occ_elem in Hc. rewrite refs_finished. repeat case_decide; lia. }
  destruct (proj2 (ctx_alive _ _ _ _ c Hok) Hpos) as [ctx Hctx]. pose proof (ctx_refs _ _ _ _ c ctx Hok Hctx) as Hr.
  unfold uboss_context_release, update. rewrite Hctx. cbn [mbind option_bind].
  destruct (Z.eqb_spec (ctx_ref ctx - 1) 0) as [H0|H0].
  - unfold delete_context. cbn [n_ctxs set_ctxs]. rewrite lookup_insert_eq. cbn [mbind option_bind set_ref ctx_mod ctx_instance ctx_queue].
    match goal with |- context [instance_release ?m ?i ?x] => destruct (release_frees m i x) as (h & br & ->) end.
    cbn [mbind option_bind n_mq set_heap set_ctxs n_ctxs].
    assert (has_queue new c) as Hq by (unfold has_queue; rewrite (last_not_new n own holds new c Hok Hc ltac:(lia)); done).
    destruct (queue_there _ _ _ _ Hok c ctx Hctx Hq) as (q & Hmq & Hrel). destruct (sched_ok _ _ _ _ Hok) as [l Hl].
    destruct (sched_mark _ _ _ Hl _ _ Hmq Hrel) as (w' & l' & -> & _). cbn [mbind option_bind].
    do 2 eexists. split; [done|]. cbn [n_ctxs context_dec set_total set_mq put_mqstore node_HasMq set_heap set_ctxs].
    rewrite lookup_delete_eq. split; [split; [lia|done]|done].
  - do 2 eexists. split; [done|]. cbn [n_ctxs set_ctxs]. rewrite lookup_insert_eq. split; [split; [done|lia]|done].
Qed.

(** Looking a handle up. *)
Lemma grab_fine n own holds new h : threads_ok (Threads n own holds new) ->
  exists r, uboss_handle_grab (handle_of n) h (n_handles n) = Some r /\
    match r with Some c => is_Some (n_ctxs n !! c) | None => True end.
Proof.
  intros Hok. pose proof (finished_ok _ _ _ _ Hok) as Hn. destruct (grab_alive _ _ _ h Hn) as (r0 & Hg & _).
  unfold uboss_handle_grab in *. change (n_handles (finished new n)) with (n_handles n) in Hg.
  destruct ((hslot (n_handles n)).[_]) as [[c|]|] eqn:E; [| |done]; cbn [mbind option_bind] in *; [|by exists None].
  eexists. split; [done|]. destruct (handle_of n c =? h); [|done]. apply (ctx_alive _ _ _ _ c Hok). unfold refs.
  rewrite decide_True by (apply elem_of_aget; by eexists). lia.
Qed.

Lemma retire_fine n own holds new h c : threads_ok (Threads n own holds new) -> h <> 0 ->
  uboss_handle_grab (handle_of n) h (n_handles n) = Some (Some c) ->
  exists r, uboss_handle_retire (handle_of n) h (n_handles n) = Some (1, Some c, r).
Proof.
  intros Hok Hz Hg. pose proof (finished_ok _ _ _ _ Hok) as Hn. destruct (nk_names _ _ _ Hn) as [m Hm].
  destruct (retire_spec _ _ m h (nk_slot _ _ _ Hn) Hm) as (r0 & Hg0 & Hret).
  change (n_handles (finished new n)) with (n_handles n) in *. unfold uboss_handle_grab in Hg, Hg0.
  destruct ((hslot (n_handles n)).[_]) as [[d|]|] eqn:E; [|done..]. cbn [mbind option_bind] in *.
  destruct (Z.eqb_spec (handle_of n d) h) as [Hh|]; [|done]. injection Hg as ->.
  pose proof (finished_has_handle _ _ _ _ Hok c h Hz Hh) as Hf. rewrite Hf, Z.eqb_refl in Hg0. injection Hg0 as <-.
  destruct Hret as (r & Hret & _). exists r. unfold uboss_handle_retire in *. rewrite E in *. cbn [mbind option_bind] in *.
  rewrite Hh. rewrite Hf in Hret. exact Hret.
Qed.

(** C5: the contexts and the queues fit together, in every interleaving of the threads, with
    [uboss_context_new] taken apart into its registration, its stores and its counting.  The
    message queues go through a run of [sched_step], so that everything proved about the
    scheduling holds of them: a queue is marked only once, when its last reference goes, and
    no message is pushed to a marked queue.  A context whose queue is set has a queue of its
    own that takes messages; for one between the store of its handle and that of its queue,
    [uboss_mq_push] follows a pointer that was never set. *)
Theorem server_refines_sched (harbor : Z) (s : threads) :
  rtc (thread_step instance_release) (threads_init harbor) s ->
  let n := fn_node s in
  rtc sched_step sched_init (Sched (n_mq n) (fn_own s)) /\
  (forall c ctx, n_ctxs n !! c = Some ctx -> has_queue (fn_new s) c ->
     exists q, mqs (n_mq n) !! ctx_queue ctx = Some q /\ mq_release q = 0 /\
       forall m, is_Some (uboss_mq_push (ctx_queue ctx) m (n_mq n))) /\
  (forall c ctx, n_ctxs n !! c = Some ctx -> ~ has_queue (fn_new s) c ->
     forall m, uboss_mq_push (ctx_queue ctx) m (n_mq n) = None) /\
  (forall c d ctx ctx', n_ctxs n !! c = Some ctx -> n_ctxs n !! d = Some ctx' ->
     ctx_queue ctx = ctx_queue ctx' -> c = d).
Proof using release_frees.
  intros Hr. pose proof (threads_reachable_ok _ _ Hr) as Hok. destruct s as [n own holds new]. cbn [fn_node fn_own fn_new].
  split; [exact (tk_sched _ Hok)|]. split; [|split].
  - intros c ctx Hc Hq. destruct (queue_there _ _ _ _ Hok c ctx Hc Hq) as (q & Hmq & Hrel). exists q.
    split; [done|]. split; [done|]. intros m. destruct (sched_ok _ _ _ _ Hok) as [l Hl].
    destruct (mq_push_msgs _ _ _ _ _ m Hl Hmq Hrel) as (w' & _ & -> & _). by eexists.
  - intros c ctx Hc Hq m. unfold has_queue in Hq. destruct (new !! c) as [p|] eqn:E; [|by destruct Hq].
    destruct (tk_new _ Hok c p E) as (ctx' & Hctx' & Eq & _). cbn in Hctx'. assert (ctx' = ctx) as -> by congruence.
    unfold uboss_mq_push. rewrite Eq. assert (is_Some (queue_to_come p)) as Hp by (destruct p; [by eexists|by eexists|by destruct Hq]).
    pose proof (tk_mq _ Hok c p E Hp) as Hno. cbn in Hno. by rewrite Hno.
  - intros c d ctx ctx' Hc Hd Hq.
    apply (nk_distinct _ _ _ (finished_ok _ _ _ _ Hok) c d (finish_ctx new c ctx) (finish_ctx new d ctx'));
      [by rewrite finished_ctx, Hc|by rewrite finished_ctx, Hd|].
    destruct (finish_ctx_same new c ctx) as (_ & -> & _). by destruct (finish_ctx_same new d ctx') as (_ & -> & _).
Qed.

(** C4: reference counting is right, in every interleaving of the threads, creations step by
    step.  In every reachable state the contexts that exist are those that the registry or
    some thread refers to, a creator included; the count of each is the number of these
    references; a reference is given back without a failure, and the context is deleted
    exactly with the last one; looking a handle up never meets a deleted context, nor one
    whose handle is not stored yet, and retiring a registered one takes it out of the
    registry for good.  Two races of the code are left out ([thread_step]): a registration
    that enlarges the table before another context's handle is stored, and a message to a
    context before its queue is set. *)
Theorem context_references_counted (harbor : Z) (s : threads) :
  rtc (thread_step instance_release) (threads_init harbor) s ->
  let n := fn_node s in
  (forall c, is_Some (n_ctxs n !! c) <-> in_registry n c \/ c ∈ fn_holds s \/ is_Some (fn_new s !! c)) /\
  (forall c ctx, n_ctxs n !! c = Some ctx ->
     ctx_ref ctx = (if decide (in_registry n c) then 1 else 0) + Z.of_nat (count_occ Nat.eq_dec (fn_holds s) c) +
       (if decide (is_Some (fn_new s !! c)) then 1 else 0)) /\
  (forall c, c ∈ fn_holds s -> exists b n', uboss_context_release instance_release c n = Some (b, n') /\
     (b = false <-> ~ in_registry n c /\ count_occ Nat.eq_dec (fn_holds s) c = 1%nat /\ fn_new s !! c = None) /\
     (b = false <-> n_ctxs n' !! c = None)) /\
  (forall h, h <> 0 -> is_Some (node_grab h n)) /\
  (forall h c, h <> 0 -> uboss_handle_grab (handle_of n) h (n_handles n) = Some (Some c) ->
     (forall h', fn_new s !! c <> Some (Registered h')) /\
     exists r, uboss_handle_retire (handle_of n) h (n_handles n) = Some (1, Some c, r) /\
       ~ in_registry (set_handles r n) c).
Proof using release_frees.
  intros Hr. pose proof (threads_reachable_ok _ _ Hr) as Hok. destruct s as [n own holds new]. cbn [fn_node fn_own fn_holds fn_new].
  pose proof (finished_ok _ _ _ _ Hok) as Hn.
  assert (forall c, c ∈ holds <-> (0 < count_occ Nat.eq_dec holds c)%nat) as Hcount by (intros c; apply count_occ_elem).
  split; [|split; [|split; [|split]]].
  - intros c. rewrite (ctx_alive _ _ _ _ c Hok), refs_finished, Hcount.
    destruct (decide (in_registry n c)), (decide (is_Some (new !! c))); (split; [intros; try tauto; right; left; lia | intros [?|[?|?]]; (done || lia)]).
  - intros c ctx Hc. by rewrite (ctx_refs _ _ _ _ c ctx Hok Hc), refs_finished.
  - intros c Hc. destruct (release_fine _ _ _ _ c Hok Hc) as (b & n' & Hrel & Hb1 & Hb2). exists b, n'. split; [done|]. split; [|done].
    rewrite Hb1, refs_finished. apply Hcount in Hc. rewrite eq_None_not_Some.
    destruct (decide (in_registry n c)), (decide (is_Some (new !! c))); split; try (intros (? & ? & ?); (done || lia));
      intros ?; try lia. split_and!; (done || lia).
  - intros h _. destruct (grab_fine n own holds new h Hok) as (r & Hg & Hal). unfold node_grab. rewrite Hg.
    cbn [mbind option_bind]. destruct r as [c|]; [|by eexists]. unfold uboss_context_grab, update.
    destruct Hal as [ctx ->]. by eexists.
  - intros h c Hz Hg. split.
    + intros h' Hc. destruct (tk_new _ Hok c _ Hc) as (ctx & Hctx & _ & H0). cbn in Hctx.
      unfold uboss_handle_grab in Hg. apply bind_Some in Hg as ([d|] & _ & Hg); [|done].
      destruct (Z.eqb_spec (handle_of n d) h) as [Hh|]; [|done]. injection Hg as ->.
      unfold handle_of in Hh. rewrite Hctx, (H0 h' eq_refl) in Hh. done.
    + destruct (retire_fine n own holds new h c Hok Hz Hg) as (r & Hret). exists r. split; [done|].
      destruct (retire_keeps _ _ _ _ Hok h c r Hz Hret) as [Hret' _].
      exact (retire_registry h c r (finished new n) _ _ Hn Hret').
Qed.
End preserve.

(** ** Witnesses *)

(** One service is created and counted; a second one is in the registry under a handle that
    is stored, its queue is not set. *)
Definition demo_threads : option threads :=
  '(c, h, n) ← context_register 7 9 (node_init 1);
  n ← context_store_handle c h n;
  '(q, n) ← context_create_queue c h n;
  let n := context_inc n in
  '(d, h', n) ← context_register 7 10 n;
  n ← context_store_handle d h' n;
  Some (Threads n ({[q]} ∪ ∅) [c] (<[d := Stored h']> (<[d := Registered h']>
    (delete c (<[c := Queued]> (<[c := Stored h]> (<[c := Registered h]> ∅))))))).

Lemma demo_threads_reachable s : demo_threads = Some s -> rtc (thread_step demo_release) (threads_init 1) s.
Proof.
  unfold demo_threads. intros E. apply bind_Some in E as ([[c h] n1] & E1 & E). apply bind_Some in E as (n2 & E2 & E).
  apply bind_Some in E as ([q n3] & E3 & E). apply bind_Some in E as ([[d h'] n4] & E4 & E). apply bind_Some in E as (n5 & E5 & [= <-]).
  eapply rtc_l; [apply (th_register _ 7 9 c h _ n1); [exact E1|right; by intros x y; rewrite lookup_empty]|].
  eapply rtc_l; [eapply th_store; [by rewrite lookup_insert_eq|exact E2]|].
  eapply rtc_l; [eapply th_queue; [by rewrite lookup_insert_eq|exact E3]|].
  eapply rtc_l; [eapply th_count; by rewrite lookup_insert_eq|].
  eapply rtc_l; [eapply (th_register _ 7 10 d h'); [exact E4|]|].
  { right. intros x y. rewrite lookup_delete_Some. intros [Hx Hy]. by rewrite !lookup_insert_ne in Hy by done. }
  eapply rtc_l; [eapply th_store; [by rewrite lookup_insert_eq|exact E5]|]. apply rtc_refl.
Qed.

(** The first service takes messages, the second does not. *)
Lemma server_refines_sched_witness :
  exists s ctx ctx', demo_threads = Some s /\ n_ctxs (fn_node s) !! 0%nat = Some ctx /\ n_ctxs (fn_node s) !! 2%nat = Some ctx' /\
    (forall m, is_Some (uboss_mq_push (ctx_queue ctx) m (n_mq (fn_node s)))) /\
    forall m, uboss_mq_push (ctx_queue ctx') m (n_mq (fn_node s)) = None.
Proof.
  destruct demo_threads as [s|] eqn:E; [|vm_compute in E; discriminate E].
  destruct (server_refines_sched demo_release demo_release_frees 1 s (demo_threads_reachable s E)) as (_ & Hq & Hno & _).
  assert (is_Some (n_ctxs (fn_node s) !! 0%nat) /\ is_Some (n_ctxs (fn_node s) !! 2%nat) /\
    fn_new s !! 0%nat = None /\ exists h, fn_new s !! 2%nat = Some (Stored h)) as ([ctx Hc] & [ctx' Hc'] & H0 & h & H2).
  { vm_compute in E. injection E as <-. split; [by eexists|]. split; [by eexists|]. split; [done|by eexists]. }
  exists s, ctx, ctx'. split; [done|]. split; [done|]. split; [done|]. split.
  - destruct (Hq 0%nat ctx Hc) as (q & _ & _ & Hpush); [unfold has_queue; by rewrite H0|exact Hpush].
  - apply (Hno 2%nat ctx' Hc'). unfold has_queue. rewrite H2. by intros [].
Defined.

Lemma context_references_counted_witness :
  exists s b n', demo_threads = Some s /\ uboss_context_release demo_release 0%nat (fn_node s) = Some (b, n') /\
    (b = false <-> n_ctxs n' !! 0%nat = None) /\
    exists r, uboss_handle_retire (handle_of (fn_node s)) 0x1000002 (n_handles (fn_node s)) = Some (1, Some 2%nat, r).
Proof.
  destruct demo_threads as [s|] eqn:E; [|vm_compute in E; discriminate E].
  destruct (context_references_counted demo_release demo_release_frees 1 s (demo_threads_reachable s E))
    as (_ & _ & Hrel & _ & Hret).
  assert (0%nat ∈ fn_holds s /\ uboss_handle_grab (handle_of (fn_node s)) 0x1000002 (n_handles (fn_node s)) = Some (Some 2%nat)) as [H0 Hg].
  { vm_compute in E. injection E as <-. split; [by left|by vm_compute]. }
  destruct (Hrel 0%nat H0) as (b & n' & Hr & _ & Hb). destruct (Hret 0x1000002 2%nat ltac:(discriminate) Hg) as (_ & r & Hr' & _).
  exists s, b, n'. split; [done|]. split; [exact Hr|]. split; [exact Hb|]. by exists r.
Defined.
