(* ===== verification/ServerSafe.v ===== *)
(** The operations of [Server] that several components use keep the node well-formed: the
    push of a message, [uboss_error], the message of an exit, and retiring a handle. *)
From Stdlib Require Import String.
From S2P Require Import Prelude Bytes Ring Mq Sched Handle CStr Server ServerLife.
Open Scope Z_scope.

(** What no operation below changes. *)
Definition same_globals (n n' : node) : Prop :=
  n_remote n' = n_remote n /\ n_harbor n' = n_harbor n.

(** ... and what sending leaves alone, too. *)
Definition quiet (n n' : node) : Prop :=
  same_globals n n' /\ n_ctxs n' = n_ctxs n /\ n_handles n' = n_handles n /\
  n_monitor_exit n' = n_monitor_exit n.

Lemma quiet_trans n n1 n2 : quiet n n1 -> quiet n1 n2 -> quiet n n2.
Proof. unfold quiet, same_globals. intuition congruence. Qed.

Lemma node_ok_quiet n n' own holds : node_ok n own holds -> quiet n n' -> n_mq n' = n_mq n ->
  n_fresh n' = n_fresh n -> node_ok n' own holds.
Proof.
  intros Hn (_ & Hc & Hh & _) Hm Hf. eapply node_ok_ext; [done | | done..].
  intros c. rewrite Hc. by destruct (n_ctxs n !! c).
Qed.

(** ** Sending *)

Lemma mq_push_ok n own holds c ctx m : node_ok n own holds -> n_ctxs n !! c = Some ctx ->
  exists w', uboss_mq_push (ctx_queue ctx) m (n_mq n) = Some w' /\ node_ok (set_mq w' n) own holds.
Proof.
  intros Hn Hctx. destruct (nk_queue _ _ _ Hn c ctx Hctx) as (q & Hq & Hrel).
  destruct (nk_sched _ _ _ Hn) as [l Hl].
  destruct (mq_push_msgs _ _ _ _ _ m Hl Hq Hrel) as (w' & l' & Hpush & Hinv & _ & _ & Hk & Hno).
  exists w'. split; [done|]. eapply node_ok_mq; [done | by eexists | | done].
  intros p qp Hqp Hr0. destruct (Hk p qp Hqp) as (q' & Hq' & Hr'). exists q'. split; [done | congruence].
Qed.

Section safe.
Variable instance_release : Z -> Z -> node -> option node.
Hypothesis release_frees : forall m i n, exists h b, instance_release m i n = Some (set_heap h b n).

#[local] Set Default Proof Using "Type*".
#[local] Abbreviation error := (uboss_error instance_release).

Lemma context_push_ok h m n own holds : node_ok n own holds ->
  exists r n', uboss_context_push instance_release h m n = Some (r, n') /\ node_ok n' own holds /\ quiet n n'.
Proof using Type.
  clear release_frees. intros Hn.
  destruct (context_push_spec instance_release n own holds h m Hn) as (r & _ & Hr).
  destruct r as [c|].
  - destruct Hr as (ctx & w' & Hctx & _ & Hpush & ->). do 2 eexists. split; [done|].
    destruct (mq_push_ok n own holds c ctx m Hn Hctx) as (w2 & Hw2 & Hok).
    assert (w2 = w') as -> by congruence. by split.
  - rewrite Hr. do 2 eexists. split; [done|]. by split.
Qed.

Lemma error_ok c text n own holds : node_ok n own holds -> (forall d, c = Some d -> d ∈ holds) ->
  exists n', error c text n = Some n' /\ node_ok n' own holds /\ quiet n n'.
Proof using Type.
  clear release_frees. intros Hn Hc. unfold uboss_error.
  assert (exists n1, (if n_logger n =? 0 then
      h ← uboss_handle_findname (bytes_of "logger") (n_handles n); Some (set_logger h n)
    else Some n) = Some n1 /\ node_ok n1 own holds /\ quiet n n1) as (n1 & -> & Hn1 & Hq1).
  { destruct (n_logger n =? 0).
    - destruct (nk_names _ _ _ Hn) as [m Hm]. rewrite (findname_map _ m _ Hm). cbn [mbind option_bind].
      eexists. split; [done|]. split; [by eapply node_ok_quiet | done].
    - exists n. by split. }
  cbn [mbind option_bind]. destruct (n_logger n1 =? 0); [by exists n1|].
  unfold uboss_malloc. set (n2 := set_heap _ _ n1).
  assert (node_ok n2 own holds) as Hn2 by (by eapply node_ok_quiet).
  assert (exists source, (match c with Some c => uboss_context_handle c n2 | None => Some 0 end) = Some source)
    as [source ->].
  { destruct c as [c|]; [|by eexists]. destruct (held_alive n2 own holds c Hn2 (Hc c eq_refl)) as (ctx & Hctx & _).
    unfold uboss_context_handle. rewrite Hctx. by eexists. }
  cbn [mbind option_bind].
  destruct (context_push_ok (n_logger n2) (Message source 0 (n_brk n1)
    (Z.lor (zlen text) (Z.shiftl PTYPE_TEXT MESSAGE_TYPE_SHIFT))) n2 own holds Hn2) as (r & n3 & -> & Hn3 & Hq3).
  cbn [mbind option_bind]. exists n3. split; [done|]. split; [done|].
  eapply quiet_trans; [exact Hq1|]. eapply quiet_trans; [|exact Hq3]. done.
Qed.

Lemma error_held c text n own holds : node_ok n own holds -> c ∈ holds ->
  exists n', error (Some c) text n = Some n' /\ node_ok n' own holds /\ quiet n n'.
Proof using Type. intros Hn Hc. apply error_ok; [done|]. by intros d [= <-]. Qed.

(** The message of an exit to the monitor service. *)
Lemma send_ok c rm source dest n own holds : node_ok n own holds -> c ∈ holds -> rm ∈ holds ->
  n_remote n = Some rm -> n_harbor n <> 2 ^ 32 - 1 -> dest <> 0 ->
  exists r n', uboss_send instance_release (Some c) source dest PTYPE_CLIENT 0 0 0 n = Some (r, n') /\
    node_ok n' own holds /\ quiet n n'.
Proof using Type.
  clear release_frees. intros Hn Hc Hrm Hremote Hharbor Hdest. unfold uboss_send, _filter_args.
  change (Z.land 0 MESSAGE_TYPE_MASK =? 0) with true. cbn [negb].
  change (Z.land PTYPE_CLIENT PTYPE_TAG_DONTCOPY =? 0) with true.
  change (Z.land PTYPE_CLIENT PTYPE_TAG_ALLOCSESSION =? 0) with true.
  change (0 =? 0) with true. cbn [negb andb mbind option_bind].
  destruct (held_alive n own holds c Hn Hc) as (ctx & Hctx & _).
  assert (exists src, (if source =? 0 then uboss_context_handle c n else Some source) = Some src) as [src ->].
  { destruct (source =? 0); [|by eexists]. unfold uboss_context_handle. rewrite Hctx. by eexists. }
  cbn [mbind option_bind]. rewrite (proj2 (Z.eqb_neq dest 0)) by done.
  unfold uboss_harbor_message_isremote. rewrite (proj2 (Z.eqb_neq (n_harbor n) (2 ^ 32 - 1))) by done.
  cbn [negb cassert mbind option_bind].
  case_match.
  - unfold uboss_malloc, uboss_harbor_send. cbn [n_heap set_heap n_brk]. rewrite lookup_insert_eq.
    cbn [mbind option_bind].
    change (Z.shiftr (Z.lor 0 (Z.shiftl (Z.land PTYPE_CLIENT 255) MESSAGE_TYPE_SHIFT)) MESSAGE_TYPE_SHIFT) with 3.
    change (3 =? PTYPE_SYSTEM) with false. change (3 =? PTYPE_HARBOR) with false.
    cbn [negb andb cassert mbind option_bind n_remote set_heap]. rewrite Hremote. cbn [mbind option_bind].
    unfold uboss_context_send. set (n1 := set_heap _ _ _).
    assert (node_ok n1 own holds) as Hn1 by (by eapply node_ok_quiet).
    destruct (held_alive n1 own holds rm Hn1 Hrm) as (rctx & Hrctx & _). rewrite Hrctx. cbn [mbind option_bind].
    destruct (mq_push_ok n1 own holds rm rctx (Message src 0 (n_brk n)
      (Z.lor SIZEOF_REMOTE_MESSAGE (u64 (Z.shiftl 3 MESSAGE_TYPE_SHIFT)))) Hn1 Hrctx) as (w' & -> & Hok).
    cbn [mbind option_bind]. do 2 eexists. split; [done|]. by split.
  - edestruct (context_push_ok dest) as (r & n' & -> & Hn' & Hq'); [exact Hn|]. cbn [mbind option_bind].
    case_match; (do 2 eexists; split; [done|]; by split).
Qed.

(** ** Retiring *)
Lemma set_handles_back n : set_handles (n_handles n) n = n.
Proof using Type. by destruct n. Qed.

Lemma release_fields c n b n' : uboss_context_release instance_release c n = Some (b, n') ->
  n_handles n' = n_handles n /\ same_globals n n' /\ n_monitor_exit n' = n_monitor_exit n.
Proof.
  unfold uboss_context_release, update. intros Hr. apply bind_Some in Hr as (ctx & Hctx & Hr).
  rewrite Hctx in Hr. cbn [mbind option_bind] in Hr. case_match.
  - apply bind_Some in Hr as (n1 & Hd & Hr). injection Hr as <- <-. unfold delete_context in Hd.
    apply bind_Some in Hd as (ctx' & _ & Hd).
    destruct (release_frees (ctx_mod ctx') (ctx_instance ctx')
      (set_ctxs (<[c := set_ref (ctx_ref ctx - 1) ctx]> (n_ctxs n)) n)) as (h & k & Hrel).
    rewrite Hrel in Hd. cbn [mbind option_bind] in Hd. apply bind_Some in Hd as (w & _ & Hd).
    by injection Hd as <-.
  - by injection Hr as <- <-.
Qed.

Lemma release_back c n own holds : node_ok n own (c :: holds) ->
  exists b n', uboss_context_release instance_release c n = Some (b, n') /\ node_ok n' own holds /\
    n_handles n' = n_handles n /\ same_globals n n' /\ n_monitor_exit n' = n_monitor_exit n.
Proof.
  intros Hn. destruct (release_ok instance_release release_frees n own (c :: holds) c Hn) as
    (b & n' & Hr & _ & _ & _ & Hn'); [by left|].
  cbn [remove_one] in Hn'. rewrite decide_True in Hn' by done. exists b, n'. split; [done|].
  split; [done|]. by eapply release_fields.
Qed.

(** Retiring a handle: nothing has it afterwards, its names are gone. *)
Lemma node_retire_ok h n own holds : node_ok n own holds ->
  exists r n', node_retire instance_release h n = Some (r, n') /\ node_ok n' own holds /\
    same_globals n n' /\ slot_size (n_handles n') = slot_size (n_handles n) /\
    uboss_handle_grab (handle_of n') h (n_handles n') = Some None /\
    (r = 0 \/ r = 1) /\ (r = 0 -> n' = n /\ uboss_handle_grab (handle_of n) h (n_handles n) = Some None) /\
    (r <> 0 -> (hslot (n_handles n)).[h mod slot_size (n_handles n)] <> Some None /\ hslot (n_handles n') = <[Z.to_nat (h mod slot_size (n_handles n)) := None]> (hslot (n_handles n))).
Proof.
  intros Hn. destruct (nk_names _ _ _ Hn) as [m0 Hm0].
  destruct (retire_spec _ _ m0 h (nk_slot _ _ _ Hn) Hm0) as (r & Hg & Hr).
  unfold node_retire. destruct r as [c|].
  - destruct Hr as (s' & Hret & _ & _ & Hsl & Hc & _ & Hsz & _). rewrite Hret. cbn [mbind option_bind].
    pose proof (retire_ok h c s' n own holds Hn Hret) as Hn1.
    destruct (release_back c _ own holds Hn1) as (b & n' & -> & Hn' & Hh & Hglob & _). cbn [mbind option_bind].
    do 2 eexists. split; [done|]. split; [done|]. split; [done|].
    rewrite Hh. cbn [set_handles n_handles]. split; [done|]. split; [|split; [by right|split; [done|]]].
    + unfold uboss_handle_grab. rewrite Hsz. pose proof (wf_pow _ _ (nk_slot _ _ _ Hn)) as Hpow.
      rewrite (slot_land _ _ Hpow), Hsl.
      pose proof (aset_Some (hslot (n_handles n)) _ None (aget_lt_Some _ _ _ Hc)) as Hset.
      rewrite (aget_aset _ _ _ _ _ Hset), decide_True by done. done.
    + intros _. split; [by rewrite Hc | done].
  - rewrite Hr. cbn [mbind option_bind]. rewrite set_handles_back. do 2 eexists. split; [done|].
    split; [done|]. split; [done|]. split; [done|]. split; [done|]. split; [by left|]. split; [done|]. done.
Qed.
End safe.
