(* ===== verification/ServerSend.v ===== *)
(** Sending with core/uboss_server.c and core/uboss_harbor.c: what [uboss_send] does with a
    message on every branch. *)
From S2P Require Import Prelude Bytes Ring Mq Sched Handle Server ServerLife.

(** ** Sending a message *)

Definition copies (type data : Z) : bool := (Z.land type PTYPE_TAG_DONTCOPY =? 0) && negb (data =? 0).
Definition allocates (type : Z) : bool := negb (Z.land type PTYPE_TAG_ALLOCSESSION =? 0).

Definition next_session (ctx : context) : Z :=
  let s := s32 (ctx_session_id ctx + 1) in if s <=? 0 then 1 else s.

(** What a message carries, and the node once its arguments are filtered; [b] is the data
    of the caller. *)
Definition sent_session (type session : Z) (ctx : context) : Z :=
  if allocates type then next_session ctx else session.
Definition sent_data (n : node) (type data : Z) : Z := if copies type data then n_brk n else data.
Definition after_args (c : ctxid) (ctx : context) (type data sz : Z) (b : list Z) (n : node) : node :=
  let n := if allocates type
           then set_ctxs (<[c := set_session (next_session ctx) ctx]> (n_ctxs n)) n else n in
  if copies type data
  then set_heap (<[n_brk n := Bytes (take (Z.to_nat sz) b ++ [0])]> (n_heap n)) (n_brk n + 1) n else n.

Lemma filter_args_spec c ctx type session data sz b n : n_ctxs n !! c = Some ctx -> 0 <= sz ->
  (allocates type = true -> session = 0) ->
  (copies type data = true -> n_heap n !! data = Some (Bytes b) /\ sz <= zlen b) ->
  _filter_args (Some c) type session data sz n =
    Some (sent_session type session ctx, sent_data n type data,
          Z.lor sz (Z.shiftl (Z.land type 0xff) MESSAGE_TYPE_SHIFT), after_args c ctx type data sz b n).
Proof.
  intros Hc Hsz Hs Hd. unfold _filter_args, sent_session, sent_data, after_args.
  fold (copies type data). fold (allocates type).
  assert (forall n1, n_heap n1 = n_heap n -> n_brk n1 = n_brk n ->
    (if copies type data
     then b0 ← n_heap n1 !! data;
          match b0 with
          | Bytes l => l0 ← slice l 0 sz; Some (uboss_malloc (Bytes (l0 ++ [0])) n1)
          | _ => None
          end
     else Some (data, n1)) =
    Some (if copies type data then n_brk n else data,
          if copies type data
          then set_heap (<[n_brk n := Bytes (take (Z.to_nat sz) b ++ [0])]> (n_heap n)) (n_brk n + 1) n1 else n1))
    as Hcopy.
  { intros n1 Hh Hb. destruct (copies type data) eqn:Hcp; [|done]. destruct (Hd eq_refl) as [Hdata Hle].
    rewrite Hh, Hdata. cbn [mbind option_bind]. rewrite slice_spec by lia. cbn [mbind option_bind drop Z.to_nat].
    unfold uboss_malloc. by rewrite Hh, Hb. }
  destruct (allocates type) eqn:Ha.
  - rewrite (Hs eq_refl). cbn [Z.eqb cassert mbind option_bind].
    unfold uboss_context_newsession, update. rewrite Hc. cbn [mbind option_bind]. fold (next_session ctx).
    rewrite (Hcopy (set_ctxs _ n)) by done. by destruct (copies type data).
  - cbn [mbind option_bind]. rewrite (Hcopy n) by done. by destruct (copies type data).
Qed.

Lemma after_args_same c ctx type data sz b n : n_ctxs n !! c = Some ctx ->
  let n1 := after_args c ctx type data sz b n in
  (forall d, same_ctx (n_ctxs n !! d) (n_ctxs n1 !! d)) /\ n_handles n1 = n_handles n /\ n_mq n1 = n_mq n /\
  n_fresh n1 = n_fresh n /\ n_harbor n1 = n_harbor n /\ n_remote n1 = n_remote n /\
  n_heap n1 = (if copies type data then <[n_brk n := Bytes (take (Z.to_nat sz) b ++ [0])]> (n_heap n) else n_heap n) /\
  n_brk n1 = (if copies type data then n_brk n + 1 else n_brk n).
Proof.
  intros Hc n1. unfold n1, after_args.
  assert (forall d, same_ctx (n_ctxs n !! d) (n_ctxs n !! d)) as Hrefl by (intros d; by destruct (n_ctxs n !! d)).
  split; [|destruct (allocates type), (copies type data); done].
  intros d. assert (n_ctxs (if copies type data then _ else _) = n_ctxs (if allocates type then
    set_ctxs (<[c := set_session (next_session ctx) ctx]> (n_ctxs n)) n else n)) as -> by (by destruct (copies type data)).
  destruct (allocates type); [|done]. cbn [n_ctxs set_ctxs].
  destruct (decide (c = d)) as [<-|Hne]; [by rewrite lookup_insert_eq, Hc | by rewrite lookup_insert_ne].
Qed.

(** The size field of a message: the length and the type. *)
Lemma msg_sz_split sz type : 0 <= sz < 2 ^ 56 -> 0 <= type < 2 ^ 8 ->
  Z.shiftr (Z.lor sz (Z.shiftl type MESSAGE_TYPE_SHIFT)) MESSAGE_TYPE_SHIFT = type /\
  Z.land (Z.lor sz (Z.shiftl type MESSAGE_TYPE_SHIFT)) MESSAGE_TYPE_MASK = sz /\
  u64 (Z.shiftl type MESSAGE_TYPE_SHIFT) = Z.shiftl type MESSAGE_TYPE_SHIFT.
Proof.
  unfold MESSAGE_TYPE_SHIFT, MESSAGE_TYPE_MASK. intros Hs Ht.
  rewrite (lor_shiftl_add sz type 56) by lia. rewrite Z.shiftr_div_pow2, Z.shiftl_mul_pow2 by lia.
  rewrite (land_mask _ 56) by lia. unfold u64. split; [|split].
  - rewrite Z.div_add by lia. rewrite Z.div_small; lia.
  - rewrite Z.mod_add by lia. apply Z.mod_small. lia.
  - apply Z.mod_small. lia.
Qed.

Lemma type_bound type : 0 <= Z.land type 0xff < 2 ^ 8.
Proof. rewrite (land_mask type 8 ltac:(lia) : Z.land type 0xff = _). apply Z.mod_pos_bound. lia. Qed.

(** Passing a message to the harbor service. *)
Lemma harbor_send_spec n own holds rm rctx rmsg name h data sz type source session :
  node_ok n own holds -> n_remote n = Some rm -> n_ctxs n !! rm = Some rctx ->
  n_heap n !! rmsg = Some (Remote name h data (Z.lor sz (Z.shiftl type MESSAGE_TYPE_SHIFT))) ->
  0 <= sz < 2 ^ 56 -> 0 <= type < 2 ^ 8 -> type <> PTYPE_SYSTEM -> type <> PTYPE_HARBOR ->
  exists w', uboss_harbor_send rmsg source session n =
      Some (set_mq w' (set_heap (<[rmsg := Remote name h data sz]> (n_heap n)) (n_brk n) n)) /\
    (forall ms, queue_msgs (n_mq n) (ctx_queue rctx) ms -> queue_msgs w' (ctx_queue rctx)
       (ms ++ [Message source session rmsg (Z.lor SIZEOF_REMOTE_MESSAGE (Z.shiftl type MESSAGE_TYPE_SHIFT))])) /\
    (forall q ms, q <> ctx_queue rctx -> queue_msgs (n_mq n) q ms -> queue_msgs w' q ms).
Proof.
  intros Hn Hrm Hrc Hb Hsz Ht Hns Hnh. unfold uboss_harbor_send. rewrite Hb. cbn [mbind option_bind].
  destruct (msg_sz_split sz type Hsz Ht) as (-> & -> & Hu).
  rewrite (proj2 (Z.eqb_neq type PTYPE_SYSTEM)), (proj2 (Z.eqb_neq type PTYPE_HARBOR)) by done.
  cbn [negb andb cassert mbind option_bind n_remote set_heap]. rewrite Hrm. cbn [mbind option_bind].
  unfold uboss_context_send. cbn [n_ctxs n_mq set_heap]. rewrite Hrc. cbn [mbind option_bind]. rewrite Hu.
  destruct (nk_queue _ _ _ Hn rm rctx Hrc) as (q & Hq & Hrel). destruct (nk_sched _ _ _ Hn) as [l Hl].
  destruct (mq_push_msgs _ _ _ _ _ (Message source session rmsg
    (Z.lor SIZEOF_REMOTE_MESSAGE (Z.shiftl type MESSAGE_TYPE_SHIFT))) Hl Hq Hrel)
    as (w' & l' & -> & _ & Hm & Ho & _). by exists w'.
Qed.

(** [uboss_send] once the message has been made. *)
Definition routed (rel : Z -> Z -> node -> option node) (src dest s' d' sz ty : Z) (n n1 : node) : option (Z * node) :=
  if dest =? 0 then Some (s', n1)
  else remote ← uboss_harbor_message_isremote dest n;
    if remote : bool then
      let '(rmsg, n) := uboss_malloc (Remote [] dest d' (Z.lor sz ty)) n1 in
      n ← uboss_harbor_send rmsg src s' n; Some (s', n)
    else
      '(r, n) ← uboss_context_push rel dest (Message src s' d' (Z.lor sz ty)) n1;
      if negb (r =? 0) then n ← uboss_free d' n; Some (-1, n) else Some (s', n).

Lemma send_routed rel n c ctx source dest type session data sz b :
  n_ctxs n !! c = Some ctx -> 0 <= sz < 2 ^ 56 -> (allocates type = true -> session = 0) ->
  (copies type data = true -> n_heap n !! data = Some (Bytes b) /\ sz <= zlen b) ->
  uboss_send rel (Some c) source dest type session data sz n =
    routed rel (if source =? 0 then ctx_handle ctx else source) dest (sent_session type session ctx)
      (sent_data n type data) sz (Z.shiftl (Z.land type 0xff) MESSAGE_TYPE_SHIFT) n (after_args c ctx type data sz b n).
Proof.
  intros Hc Hsz Hss Hcp. destruct (after_args_same c ctx type data sz b n Hc) as (Hsame & _ & _ & _ & Ehb & _).
  unfold uboss_send, routed. unfold MESSAGE_TYPE_MASK. rewrite (land_mask sz 56) by lia.
  rewrite Z.mod_small, Z.eqb_refl by lia. cbn [negb].
  rewrite (filter_args_spec c ctx type session data sz b n Hc ltac:(lia) Hss Hcp). cbn [mbind option_bind].
  set (n1 := after_args c ctx type data sz b n) in *.
  assert ((if source =? 0 then uboss_context_handle c n1 else Some source) =
    Some (if source =? 0 then ctx_handle ctx else source)) as ->.
  { destruct (source =? 0); [|done]. unfold uboss_context_handle.
    specialize (Hsame c). rewrite Hc in Hsame. destruct (n_ctxs n1 !! c) as [ctx1|]; [|done].
    cbn. f_equal. by destruct Hsame as (_ & _ & ->). }
  cbn [mbind option_bind]. assert (uboss_harbor_message_isremote dest n1 = uboss_harbor_message_isremote dest n)
    as -> by (unfold uboss_harbor_message_isremote; by rewrite Ehb). done.
Qed.

(** A service that is alive gets the message, one that is gone leaves the node as it was. *)
Lemma push_after_args rel n own holds c ctx type data sz b dest m : node_ok n own holds -> n_ctxs n !! c = Some ctx ->
  let n1 := after_args c ctx type data sz b n in
  exists r, uboss_handle_grab (handle_of n) dest (n_handles n) = Some r /\
  match r with
  | Some d => exists dctx w', n_ctxs n !! d = Some dctx /\ ctx_handle dctx = dest /\
      uboss_context_push rel dest m n1 = Some (0, set_mq w' n1) /\
      (forall ms, queue_msgs (n_mq n) (ctx_queue dctx) ms -> queue_msgs w' (ctx_queue dctx) (ms ++ [m])) /\
      (forall q ms, q <> ctx_queue dctx -> queue_msgs (n_mq n) q ms -> queue_msgs w' q ms)
  | None => uboss_context_push rel dest m n1 = Some (-1, n1)
  end.
Proof.
  intros Hn Hc n1. destruct (after_args_same c ctx type data sz b n Hc) as (Hsame & Ehs & Emq & Efr & _).
  fold n1 in Hsame, Ehs, Emq, Efr. pose proof (node_ok_ext n n1 own holds Hn Hsame Ehs Emq Efr) as Hn1.
  destruct (context_push_spec rel n1 own holds dest m Hn1) as (r & Hg & Hr).
  assert (forall x, handle_of n1 x = handle_of n x) as Hho.
  { intros x. unfold handle_of. specialize (Hsame x). destruct (n_ctxs n !! x), (n_ctxs n1 !! x); naive_solver. }
  rewrite Ehs, (grab_ho_ext _ (handle_of n) _ _ Hho) in Hg. exists r. split; [exact Hg|]. destruct r as [d|]; [|done].
  destruct Hr as (dctx1 & w' & Hd & Hh & Hpush & ->).
  specialize (Hsame d). rewrite Hd in Hsame. destruct (n_ctxs n !! d) as [dctx|] eqn:Hdn; [|done].
  destruct Hsame as (_ & Hq & Hhd). exists dctx, w'. split_and!; [done|congruence|done|..].
  all: destruct (nk_queue _ _ _ Hn d dctx Hdn) as (q & Hqq & Hrel); destruct (nk_sched _ _ _ Hn) as [l Hl].
  all: destruct (mq_push_msgs _ _ _ _ _ m Hl Hqq Hrel) as (w2 & l' & Hw2 & _ & Hm & Ho & _).
  all: rewrite Emq, Hq in Hpush; rewrite Hpush in Hw2; by injection Hw2 as <-.
Qed.

(** The data of a message that was not taken, or its copy, is freed. *)
Lemma free_sent n c ctx type data sz b : n_ctxs n !! c = Some ctx -> 0 < n_brk n -> n_heap n !! n_brk n = None ->
  (data <> 0 -> is_Some (n_heap n !! data)) ->
  exists n2, uboss_free (sent_data n type data) (after_args c ctx type data sz b n) = Some n2 /\ n_mq n2 = n_mq n /\
    n_heap n2 = (if copies type data then n_heap n else if data =? 0 then n_heap n else delete data (n_heap n)).
Proof.
  intros Hc Hbrk Hfree Hdata. destruct (after_args_same c ctx type data sz b n Hc) as (_ & _ & Emq & _ & _ & _ & Ehp & _).
  unfold uboss_free, sent_data. destruct (copies type data) eqn:Hcps.
  - rewrite (proj2 (Z.eqb_neq (n_brk n) 0)) by lia. rewrite Ehp, lookup_insert_eq. cbn [mbind option_bind].
    eexists. split; [done|]. cbn [n_mq n_heap set_heap]. split; [done|]. by rewrite delete_insert_id.
  - destruct (Z.eqb_spec data 0) as [->|Hd]; [eexists; split_and!; [done..|by rewrite Ehp]|].
    rewrite Ehp. destruct (Hdata Hd) as [blk ->]. cbn [mbind option_bind]. eexists. split; [done|]. done.
Qed.

(** C6: [uboss_send] delivers a message exactly once or reports that it could not.
    With [m] the message (the sender's handle unless a source is given, the session or a
    new one, the data or a copy of it with a zero at the end, length and type in one word):
    a local destination that is alive gets [m] at the end of its queue and no other queue
    changes; one that is gone gives -1 and the data, or the copy, is freed; a remote one
    goes, type and length split again, to the queue of the harbor service with the
    destination's handle.  To destination 0 nothing is sent, the session is returned; the
    data, or the copy, is not freed. *)
Theorem uboss_send_correct (rel : Z -> Z -> node -> option node) (n : node) (own : gset qid)
    (holds : list ctxid) (c : ctxid) (ctx : context)
    (source dest type session data sz : Z) (b : list Z) :
  node_ok n own holds -> n_ctxs n !! c = Some ctx -> 0 <= sz < 2 ^ 56 ->
  (allocates type = true -> session = 0) ->
  (copies type data = true -> n_heap n !! data = Some (Bytes b) /\ sz <= zlen b) ->
  (data <> 0 -> is_Some (n_heap n !! data)) ->
  0 < n_brk n -> n_heap n !! n_brk n = None -> n_harbor n <> 2 ^ 32 - 1 ->
  let n1 := after_args c ctx type data sz b n in
  let s' := sent_session type session ctx in
  let d' := sent_data n type data in
  let src := if source =? 0 then ctx_handle ctx else source in
  let ty := Z.shiftl (Z.land type 0xff) MESSAGE_TYPE_SHIFT in
  let send := uboss_send rel (Some c) source dest type session data sz n in
  (dest = 0 -> send = Some (s', n1)) /\
  (dest <> 0 -> uboss_harbor_message_isremote dest n = Some false ->
     exists r, uboss_handle_grab (handle_of n) dest (n_handles n) = Some r /\
     match r with
     | Some d => exists dctx w', n_ctxs n !! d = Some dctx /\ ctx_handle dctx = dest /\
         send = Some (s', set_mq w' n1) /\
         (forall ms, queue_msgs (n_mq n) (ctx_queue dctx) ms ->
            queue_msgs w' (ctx_queue dctx) (ms ++ [Message src s' d' (Z.lor sz ty)])) /\
         (forall q ms, q <> ctx_queue dctx -> queue_msgs (n_mq n) q ms -> queue_msgs w' q ms)
     | None => exists n2, send = Some (-1, n2) /\ n_mq n2 = n_mq n /\
         n_heap n2 = (if copies type data then n_heap n else if data =? 0 then n_heap n else delete data (n_heap n))
     end) /\
  (dest <> 0 -> uboss_harbor_message_isremote dest n = Some true ->
     forall rm rctx, n_remote n = Some rm -> n_ctxs n !! rm = Some rctx ->
     Z.land type 0xff <> PTYPE_SYSTEM -> Z.land type 0xff <> PTYPE_HARBOR ->
     exists n2 a, send = Some (s', n2) /\ n_heap n2 !! a = Some (Remote [] dest d' sz) /\
       (forall ms, queue_msgs (n_mq n) (ctx_queue rctx) ms ->
          queue_msgs (n_mq n2) (ctx_queue rctx) (ms ++ [Message src s' a (Z.lor SIZEOF_REMOTE_MESSAGE ty)])) /\
       (forall q ms, q <> ctx_queue rctx -> queue_msgs (n_mq n) q ms -> queue_msgs (n_mq n2) q ms)).
Proof.
  intros Hn Hc Hsz Hss Hcp Hdata Hbrk Hfree Hharbor n1 s' d' src ty send.
  destruct (after_args_same c ctx type data sz b n Hc) as (Hsame & Ehs & Emq & Efr & _ & Erm & _).
  pose proof (node_ok_ext n n1 own holds Hn Hsame Ehs Emq Efr) as Hn1. fold n1 in Hsame, Emq, Erm.
  assert (send = routed rel src dest s' d' sz ty n n1) as -> by by apply send_routed.
  unfold routed. split; [|split].
  - intros ->. done.
  - intros Hd0 ->. rewrite (proj2 (Z.eqb_neq _ _) Hd0). cbn [mbind option_bind].
    destruct (push_after_args rel n own holds c ctx type data sz b dest (Message src s' d' (Z.lor sz ty)) Hn Hc)
      as (r & Hg & Hr). fold n1 in Hr. exists r. split; [exact Hg|]. destruct r as [d|].
    + destruct Hr as (dctx & w' & Hd & Hh & -> & Hm). exists dctx, w'.
      cbn [mbind option_bind Z.eqb negb]. split_and!; [done..|apply Hm|apply Hm].
    + rewrite Hr. cbn [mbind option_bind]. change (negb (-1 =? 0)) with true. cbn match.
      destruct (free_sent n c ctx type data sz b Hc Hbrk Hfree Hdata) as (n2 & Hf & Hmq2 & Hh2).
      fold n1 d' in Hf. rewrite Hf. by exists n2.
  - intros Hd0 -> rm rctx Hrm Hrc Hns Hnh. rewrite (proj2 (Z.eqb_neq _ _) Hd0).
    cbn [mbind option_bind uboss_malloc].
    set (n2 := set_heap (<[n_brk n1 := Remote [] dest d' (Z.lor sz ty)]> (n_heap n1)) (n_brk n1 + 1) n1).
    specialize (Hsame rm) as Hsrm. rewrite Hrc in Hsrm. destruct (n_ctxs n1 !! rm) as [rctx1|] eqn:Hrc1; [|done].
    destruct Hsrm as (_ & Hq & _).
    destruct (harbor_send_spec n2 own holds rm rctx1 (n_brk n1) [] dest d' sz (Z.land type 0xff) src s')
      as (w' & Hsend & Hm & Ho).
    + eapply node_ok_ext; [exact Hn1 | | done..]. intros x. cbn. by destruct (n_ctxs n1 !! x).
    + cbn. by rewrite Erm.
    + done.
    + cbn [n2 set_heap n_heap]. apply lookup_insert_eq.
    + done.
    + apply type_bound.
    + done.
    + done.
    + rewrite Hsend. cbn [mbind option_bind]. eexists _, (n_brk n1). split; [done|].
      cbn [n_heap n_mq set_mq put_mqstore node_HasMq set_heap]. split; [apply lookup_insert_eq|].
      cbn [n2 n_mq set_heap] in Hm, Ho. rewrite Emq, Hq in Hm, Ho. done.
Qed.

(** ** Witness *)

(** The service of [demo_node] sends [hi] to itself: the handle is 0x1000001. *)
Lemma uboss_send_correct_witness :
  exists n ctx w', demo_node = Some n /\ n_ctxs n !! 0%nat = Some ctx /\
    uboss_send demo_release (Some 0%nat) 0 0x1000001 PTYPE_TEXT 3 5 2 n =
      Some (3, set_mq w' (after_args 0 ctx PTYPE_TEXT 5 2 [104; 105; 33] n)).
Proof.
  destruct demo_node as [n|] eqn:E; [|vm_compute in E; discriminate E].
  destruct (life_reachable_ok demo_release demo_release_frees 1 _ (demo_reachable n E)) as [_ Hn].
  cbn [lf_node lf_own lf_holds] in Hn.
  assert (exists ctx, n_ctxs n !! 0%nat = Some ctx /\ n_heap n = <[5 := Bytes [104; 105; 33]]> ∅ /\ n_brk n = 100 /\
    n_harbor n = 0x1000000 /\ uboss_handle_grab (handle_of n) 0x1000001 (n_handles n) = Some (Some 0%nat))
    as (ctx & Hc & Hh & Hb & Hhb & Hg).
  { vm_compute in E. injection E as <-. by eexists. }
  destruct (uboss_send_correct demo_release n _ _ 0 ctx 0 0x1000001 PTYPE_TEXT 3 5 2 [104; 105; 33] Hn Hc)
    as (_ & Hlocal & _).
  - lia.
  - done.
  - intros _. rewrite Hh. split; [done | vm_compute; discriminate].
  - intros _. rewrite Hh. by eexists.
  - lia.
  - rewrite Hh, Hb. reflexivity.
  - lia.
  - destruct Hlocal as (r & Hr & Hd); [lia | unfold uboss_harbor_message_isremote; by rewrite Hhb |].
    rewrite Hg in Hr. injection Hr as <-. destruct Hd as (dctx & w' & _ & _ & Hsend & _).
    exists n, ctx, w'. split; [done|]. split; [done|]. exact Hsend.
Defined.
