(* ===== verification/Lua.v ===== *)
(** Lua values, as the libraries called from Lua get and push them.

    A Lua value is a [value].  A table is the list of its entries in the order of
    [lua_next], with the border that [lua_rawlen] finds (Lua allows any border); a table
    with a [__pairs] metamethod is the list of the pairs it iterates over.  Tables are
    compared by identity, and every table of a value or of a stream is an object of its
    own; one that contains itself is no [value] (packing it runs into [MAX_DEPTH]).  A
    float is its 64 bits. *)
From Stdlib Require Import String.
From S2P Require Import Prelude Bytes.
#[local] Set Warnings "-register-all".

(** ** Lua values and tables *)
Inductive value :=
| VNil
| VBool (b : bool)
| VInt (z : Z)                                  (* 64 bits, signed *)
| VReal (bits : Z)
| VPtr (p : Z)                                  (* light userdata *)
| VStr (s : list Z)
| VTable (len : Z) (l : list (value * value))
| VPairs (l : list (value * value))
| VUser (mem : list Z)                          (* full userdata: its memory *)
| VOther (name : string).                       (* a function or coroutine *)

Definition is_nil (v : value) : bool := match v with VNil => true | _ => false end.

(** The fields of a double: NaN, and the integer it is equal to if that fits
    [lua_Integer]. *)
Definition real_exp (bits : Z) : Z := Z.land (Z.shiftr bits 52) 0x7ff.
Definition real_frac (bits : Z) : Z := Z.land bits (2 ^ 52 - 1).
Definition real_nan (bits : Z) : bool := (real_exp bits =? 0x7ff) && negb (real_frac bits =? 0).
(** [luaV_tointeger]: [v] if the float is integral and [v] in the range. *)
Definition fit_integer (integral : bool) (v : Z) : option Z :=
  if integral && (- 2 ^ 63 <=? v) && (v <? 2 ^ 63) then Some v else None.
Definition real_int (bits : Z) : option Z :=
  let e := real_exp bits in
  let m := if e =? 0 then real_frac bits else 2 ^ 52 + real_frac bits in
  let k := (if e =? 0 then 1 else e) - 1075 in
  let v := if 0 <=? k then m * 2 ^ k else m / 2 ^ (- k) in
  fit_integer ((e <? 1087) && ((0 <=? k) || (m mod 2 ^ (- k) =? 0))) (if Z.testbit bits 63 then - v else v).

(** [lua_tointeger]. *)
Definition tointeger (v : value) : Z :=
  match v with VInt z => z | VReal d => default 0 (real_int d) | _ => 0 end.

(** Equality of keys that are in a table or about to be: tables are distinct objects. *)
Definition raw_equal (a b : value) : bool :=
  match a, b with
  | VBool x, VBool y => Bool.eqb x y
  | VInt x, VInt y | VReal x, VReal y | VPtr x, VPtr y => x =? y
  | VStr x, VStr y => bool_decide (x = y)
  | _, _ => false
  end.

Fixpoint raw_set (l : list (value * value)) (k v : value) : list (value * value) :=
  match l with
  | [] => if is_nil v then [] else [(k, v)]
  | (k', v') :: l =>
      if raw_equal k k' then if is_nil v then l else (k', v) :: l
      else (k', v') :: raw_set l k v
  end.

(** [lua_rawgeti], and [lua_rawset] with a key that is not nil. *)
Fixpoint lua_rawgeti (l : list (value * value)) (i : Z) : value :=
  match l with
  | [] => VNil
  | (k, v) :: l => if raw_equal (VInt i) k then v else lua_rawgeti l i
  end.

Definition lua_rawset (l : list (value * value)) (k v : value) : res (list (value * value)) :=
  match k with
  | VReal bits =>
      if real_nan bits then Err "table index is NaN"
      else Ok (raw_set l (match real_int bits with Some z => VInt z | None => k end) v)
  | _ => Ok (raw_set l k v)
  end.

(** ** Lemmas *)
(** A key of a table: not nil, not NaN, and not a float that Lua keeps as an integer. *)
Definition key_ok (k : value) : Prop :=
  match k with
  | VNil => False
  | VReal bits => real_nan bits = false /\ real_int bits = None
  | _ => True
  end.

Definition distinct_keys (l : list (value * value)) : Prop :=
  forall i j p q, l !! i = Some p -> l !! j = Some q -> i <> j -> raw_equal p.1 q.1 = false.

Lemma distinct_keys_cons p l : distinct_keys (p :: l) <->
  Forall (fun q => raw_equal p.1 q.1 = false /\ raw_equal q.1 p.1 = false) l /\ distinct_keys l.
Proof.
  split.
  - intros Hd. split.
    + apply Forall_lookup. intros i q Hi. split; [by apply (Hd 0%nat (S i)) | by apply (Hd (S i) 0%nat)].
    + intros i j a b Hi Hj Hne. apply (Hd (S i) (S j)); [done | done | congruence].
  - intros [Hp Hd] [|i] [|j] a b Hi Hj Hne; simplify_eq/=; try done.
    + by destruct (proj1 (Forall_lookup _ _) Hp j b Hj).
    + by destruct (proj1 (Forall_lookup _ _) Hp i a Hi).
    + apply (Hd i j); [done | done | congruence].
Qed.

Lemma raw_set_nil l k : (forall p, p ∈ l -> raw_equal k p.1 = false) -> raw_set l k VNil = l.
Proof.
  induction l as [|[k' v'] l IH]; intros Hk; [done|]. cbn [raw_set].
  assert (raw_equal k k' = false) as -> by (apply (Hk (k', v')); left). rewrite IH; [done|]. intros p Hp. apply Hk. by right.
Qed.

Lemma raw_set_new l k v : (forall p, p ∈ l -> raw_equal k p.1 = false) -> is_nil v = false ->
  raw_set l k v = l ++ [(k, v)].
Proof.
  induction l as [|[k' v'] l IH]; intros Hk Hv; cbn [raw_set app]; [by rewrite Hv|].
  assert (raw_equal k k' = false) as -> by (apply (Hk (k', v')); left). rewrite IH; [done | | done]. intros p Hp. apply Hk. by right.
Qed.

Lemma lua_rawset_new l k v : key_ok k -> (forall p, p ∈ l -> raw_equal k p.1 = false) -> is_nil v = false ->
  lua_rawset l k v = Ok (l ++ [(k, v)]).
Proof.
  intros Hk Hl Hv. destruct k; cbn [lua_rawset]; try done; try (by rewrite raw_set_new).
  destruct Hk as [-> ->]. by rewrite raw_set_new.
Qed.

Lemma raw_equal_sym a b : raw_equal a b = raw_equal b a.
Proof.
  destruct a, b; cbn; try done; try apply Z.eqb_sym; [by destruct b0, b|].
  by apply bool_decide_ext.
Qed.

Lemma raw_set_elem l k v p : p ∈ raw_set l k v -> p = (k, v) \/ (exists w, p.2 = v /\ (p.1, w) ∈ l) \/ p ∈ l.
Proof.
  induction l as [|[k' v'] l IH]; cbn [raw_set].
  - destruct (is_nil v); [by intros ?%not_elem_of_nil|]. intros ->%list_elem_of_singleton. by left.
  - destruct (raw_equal k k').
    + destruct (is_nil v); [intros; right; right; by right|]. intros [->|?]%elem_of_cons.
      * right. left. exists v'. split; [done | by left].
      * right. right. by right.
    + intros [->|[?|[(w & ? & ?)|?]]%IH]%elem_of_cons; [right; right; by left | by left | |right; right; by right].
      right. left. exists w. split; [done | by right].
Qed.

Lemma raw_set_nonnil l k v : Forall (fun kv => is_nil kv.2 = false) l ->
  Forall (fun kv => is_nil kv.2 = false) (raw_set l k v).
Proof.
  induction 1 as [|[k' v'] l Hv Hl IH]; cbn [raw_set].
  - destruct (is_nil v) eqn:E; [constructor | by apply Forall_singleton].
  - destruct (raw_equal k k'); [destruct (is_nil v) eqn:E|]; try done; by constructor.
Qed.

Lemma raw_set_distinct l k v : distinct_keys l -> distinct_keys (raw_set l k v).
Proof.
  induction l as [|[k' v'] l IH]; intros Hd; cbn [raw_set].
  - destruct (is_nil v); [done|]. by intros [|i] [|j] p q Hi Hj Hne; simplify_eq/=.
  - pose proof Hd as [Hk Hdl]%distinct_keys_cons. destruct (raw_equal k k') eqn:E.
    + destruct (is_nil v); [done|]. apply distinct_keys_cons. by split.
    + apply distinct_keys_cons. split; [|by apply IH]. apply Forall_forall. intros p Hp.
      cbn [fst] in *. rewrite (raw_equal_sym p.1). cut (raw_equal k' p.1 = false); [done|].
      destruct (raw_set_elem _ _ _ _ Hp) as [->|[(w & _ & Hin)|Hin]].
      * cbn [fst]. by rewrite raw_equal_sym.
      * by destruct (proj1 (Forall_forall _ _) Hk _ Hin).
      * by destruct (proj1 (Forall_forall _ _) Hk _ Hin).
Qed.

Lemma fit_integer_bound b v z : fit_integer b v = Some z -> - 2 ^ 63 <= z < 2 ^ 63.
Proof.
  unfold fit_integer. destruct b; [|done]. cbn [andb].
  destruct (Z.leb_spec (- 2 ^ 63) v), (Z.ltb_spec v (2 ^ 63)); try done. by intros [= <-].
Qed.

Lemma real_int_bound bits z : real_int bits = Some z -> - 2 ^ 63 <= z < 2 ^ 63.
Proof. apply fit_integer_bound. Qed.

(** [distinct_keys] can be computed. *)
Fixpoint distinct_keysb (l : list (value * value)) : bool :=
  match l with [] => true | p :: l => forallb (fun q => negb (raw_equal p.1 q.1)) l && distinct_keysb l end.

Lemma distinct_keysb_ok l : distinct_keysb l = true -> distinct_keys l.
Proof.
  induction l as [|p l IH]; cbn [distinct_keysb]; [by intros _ i|]. intros [Hp Hl]%andb_prop. apply distinct_keys_cons. split; [|by apply IH].
  apply Forall_forall. intros q Hq. rewrite (raw_equal_sym q.1). rewrite forallb_forall in Hp.
  specialize (Hp q). rewrite <-list_elem_of_In in Hp. specialize (Hp Hq). by destruct (raw_equal p.1 q.1).
Qed.
