(* ===== verification/Seri.v ===== *)
(** lib/uboss/lua-seri.c: packing Lua values into the bytes of a message and back.

    A table that contains itself is no [value] (packing it runs into [MAX_DEPTH]).

    The words are copied from memory as they are: the model is little-endian.  The blocks
    are a list; giving their memory back ([wb_free]) and the checks of the size of the Lua
    stack are not modelled. *)
From Stdlib Require Import String.
From S2P Require Import Prelude Bytes Lua.
#[local] Set Warnings "-register-all".

Definition TYPE_NIL : Z := 0.
Definition TYPE_BOOLEAN : Z := 1.
Definition TYPE_NUMBER : Z := 2.
Definition TYPE_NUMBER_ZERO : Z := 0.
Definition TYPE_NUMBER_BYTE : Z := 1.
Definition TYPE_NUMBER_WORD : Z := 2.
Definition TYPE_NUMBER_DWORD : Z := 4.
Definition TYPE_NUMBER_QWORD : Z := 6.
Definition TYPE_NUMBER_REAL : Z := 8.
Definition TYPE_USERDATA : Z := 3.
Definition TYPE_SHORT_STRING : Z := 4.
Definition TYPE_LONG_STRING : Z := 5.
Definition TYPE_TABLE : Z := 6.
Definition MAX_COOKIE : Z := 32.
Definition COMBINE_TYPE (t v : Z) : Z := u8 (Z.lor t (Z.shiftl v 3)).
Definition BLOCK_SIZE : Z := 128.
Definition MAX_DEPTH : Z := 32.

(** ** Writing *)

(** The bytes of a word in memory. *)
Fixpoint le_bytes (n : nat) (v : Z) : list Z :=
  match n with
  | O => []
  | S n => v mod 2 ^ 8 :: le_bytes n (v / 2 ^ 8)
  end.

(** [struct write_block]: the blocks before [current], the bytes of [current] up to
    [ptr], and the length. *)
Record write_block := WriteBlock {
  wb_full : list (list Z);
  wb_current : list Z;
  wb_len : Z
}.

Definition wb_ptr (b : write_block) : Z := zlen (wb_current b).

Definition wb_init : write_block := WriteBlock [] [] 0.

(** [b->current = b->current->next = blk_alloc(); b->ptr = 0;] *)
Definition next_block (b : write_block) : write_block :=
  WriteBlock (wb_full b ++ [wb_current b]) [] (wb_len b).

Definition append (b : write_block) (c : list Z) (n : Z) : write_block :=
  WriteBlock (wb_full b) (wb_current b ++ c) (s32 (wb_len b + n)).

(** [wb_push] after [_again]; every turn but the first fills a block. *)
Fixpoint push_loop (fuel : nat) (b : write_block) (buffer : list Z) (sz : Z) : option write_block :=
  match fuel with
  | O => None
  | S fuel =>
      if wb_ptr b <=? BLOCK_SIZE - sz then
        c ← slice buffer 0 sz; Some (append b c sz)
      else
        let copy := BLOCK_SIZE - wb_ptr b in
        c ← slice buffer 0 copy;
        push_loop fuel (next_block (append b c copy)) (drop (Z.to_nat copy) buffer) (sz - copy)
  end.

Definition wb_push (buffer : list Z) (sz : Z) (b : write_block) : res write_block :=
  lift (push_loop (S (length buffer)) (if wb_ptr b =? BLOCK_SIZE then next_block b else b) buffer sz).

Definition wb_byte (n : Z) : write_block -> res write_block := wb_push [n] 1.

Definition wb_nil : write_block -> res write_block := wb_byte TYPE_NIL.

Definition wb_boolean (boolean : bool) : write_block -> res write_block :=
  wb_byte (COMBINE_TYPE TYPE_BOOLEAN (if boolean then 1 else 0)).

Definition wb_word (n : nat) (v : Z) : write_block -> res write_block :=
  wb_push (le_bytes n v) (Z.of_nat n).

Definition wb_integer (v : Z) (wb : write_block) : res write_block :=
  if v =? 0 then wb_byte (COMBINE_TYPE TYPE_NUMBER TYPE_NUMBER_ZERO) wb
  else if negb (v =? s32 v) then
    wb ← wb_byte (COMBINE_TYPE TYPE_NUMBER TYPE_NUMBER_QWORD) wb; wb_word 8 v wb
  else if v <? 0 then
    wb ← wb_byte (COMBINE_TYPE TYPE_NUMBER TYPE_NUMBER_DWORD) wb; wb_word 4 (s32 v) wb
  else if v <? 0x100 then
    wb ← wb_byte (COMBINE_TYPE TYPE_NUMBER TYPE_NUMBER_BYTE) wb; wb_word 1 (u8 v) wb
  else if v <? 0x10000 then
    wb ← wb_byte (COMBINE_TYPE TYPE_NUMBER TYPE_NUMBER_WORD) wb; wb_word 2 (u16 v) wb
  else
    wb ← wb_byte (COMBINE_TYPE TYPE_NUMBER TYPE_NUMBER_DWORD) wb; wb_word 4 (u32 v) wb.

Definition wb_real (bits : Z) (wb : write_block) : res write_block :=
  wb ← wb_byte (COMBINE_TYPE TYPE_NUMBER TYPE_NUMBER_REAL) wb; wb_word 8 bits wb.

Definition wb_pointer (v : Z) (wb : write_block) : res write_block :=
  wb ← wb_byte TYPE_USERDATA wb; wb_word 8 v wb.

Definition wb_string (str : list Z) (len : Z) (wb : write_block) : res write_block :=
  if len <? MAX_COOKIE then
    wb ← wb_byte (COMBINE_TYPE TYPE_SHORT_STRING len) wb;
    if 0 <? len then wb_push str len wb else Ok wb
  else
    wb ← (if len <? 0x10000 then
            wb ← wb_byte (COMBINE_TYPE TYPE_LONG_STRING 2) wb; wb_word 2 (u16 len) wb
          else
            wb ← wb_byte (COMBINE_TYPE TYPE_LONG_STRING 4) wb; wb_word 4 (u32 len) wb);
    wb_push str len wb.

(** Tables; [pack] is [pack_one] one level deeper. *)
Section tables.
Variable pack : value -> write_block -> res write_block.

(** [for (i=...;i<=array_size;i++)] with [n] turns left. *)
Fixpoint array_loop (n : nat) (i : Z) (l : list (value * value)) (wb : write_block) : res write_block :=
  match n with
  | O => Ok wb
  | S n => wb ← pack (lua_rawgeti l i) wb; array_loop n (i + 1) l wb
  end.

Definition wb_table_array (len : Z) (l : list (value * value)) (wb : write_block) : res (Z * write_block) :=
  let array_size := s32 len in
  wb ← (if MAX_COOKIE - 1 <=? array_size then
          wb ← wb_byte (COMBINE_TYPE TYPE_TABLE (MAX_COOKIE - 1)) wb; wb_integer array_size wb
        else wb_byte (COMBINE_TYPE TYPE_TABLE array_size) wb);
  wb ← array_loop (Z.to_nat array_size) 1 l wb;
  Ok (array_size, wb).

(** Whether [wb_table_hash] skips a key. *)
Definition in_array (array_size : Z) (k : value) : bool :=
  match k with VInt x => (0 <? x) && (x <=? array_size) | _ => false end.

Fixpoint wb_table_hash (array_size : Z) (l : list (value * value)) (wb : write_block) : res write_block :=
  match l with
  | [] => wb_nil wb
  | (k, v) :: l =>
      if in_array array_size k then wb_table_hash array_size l wb
      else wb ← pack k wb; wb ← pack v wb; wb_table_hash array_size l wb
  end.

Fixpoint pairs_loop (l : list (value * value)) (wb : write_block) : res write_block :=
  match l with
  | [] => wb_nil wb
  | (k, v) :: l =>
      if is_nil k then wb_nil wb else wb ← pack k wb; wb ← pack v wb; pairs_loop l wb
  end.

Definition wb_table_metapairs (l : list (value * value)) (wb : write_block) : res write_block :=
  wb ← wb_byte (COMBINE_TYPE TYPE_TABLE 0) wb; pairs_loop l wb.
End tables.

(** [pack_one] with [wb_table]; [fuel] bounds the levels of tables. *)
Fixpoint pack_one (fuel : nat) (v : value) (depth : Z) (b : write_block) : res write_block :=
  if MAX_DEPTH <? depth then Err "serialize can't pack too depth table"
  else
    match v with
    | VNil => wb_nil b
    | VInt x => wb_integer x b
    | VReal n => wb_real n b
    | VBool x => wb_boolean x b
    | VStr str => wb_string str (s32 (zlen str)) b
    | VPtr p => wb_pointer p b
    | VTable len l =>
        match fuel with
        | O => Ub
        | S fuel =>
            '(array_size, b) ← wb_table_array (fun v => pack_one fuel v (depth + 1)) len l b;
            wb_table_hash (fun v => pack_one fuel v (depth + 1)) array_size l b
        end
    | VPairs l =>
        match fuel with
        | O => Ub
        | S fuel => wb_table_metapairs (fun v => pack_one fuel v (depth + 1)) l b
        end
    | VUser _ => Err "Unsupport type userdata to serialize"
    | VOther t => Err ("Unsupport type " ++ t ++ " to serialize")
    end.

(** Levels beyond [MAX_DEPTH] are an error. *)
Definition pack_fuel : nat := Z.to_nat MAX_DEPTH + 1.

Fixpoint pack_from (vs : list value) (b : write_block) : res write_block :=
  match vs with
  | [] => Ok b
  | v :: vs => b ← pack_one pack_fuel v 0 b; pack_from vs b
  end.

(** The loop of [seri] over the blocks. *)
Fixpoint copy_blocks (bs : list (list Z)) (len : Z) : option (list Z) :=
  if 0 <? len then
    match bs with
    | [] => None
    | b :: bs =>
        if BLOCK_SIZE <=? len then
          c ← slice b 0 BLOCK_SIZE; rest ← copy_blocks bs (len - BLOCK_SIZE); Some (c ++ rest)
        else slice b 0 len
    end
  else Some [].

Definition seri (b : write_block) : res (list Z * Z) :=
  buffer ← lift (copy_blocks (wb_full b ++ [wb_current b]) (wb_len b)); Ok (buffer, wb_len b).

(** [luaseri_pack] of the arguments. *)
Definition luaseri_pack (vs : list value) : res (list Z * Z) :=
  wb ← pack_from vs wb_init; seri wb.

(** ** Reading *)
Record read_block := ReadBlock {
  rb_buffer : list Z;
  rb_len : Z;
  rb_ptr : Z
}.

Definition rball_init (buffer : list Z) (size : Z) : read_block := ReadBlock buffer size 0.

(** [rb_read]: the position of the bytes, [None] for [NULL]. *)
Definition rb_read (rb : read_block) (sz : Z) : option Z * read_block :=
  if rb_len rb <? sz then (None, rb)
  else (Some (rb_ptr rb), ReadBlock (rb_buffer rb) (rb_len rb - sz) (rb_ptr rb + sz)).

Definition invalid_stream {A} : res A := Err "Invalid serialize stream %d (line:%d)".

(** [rb_read], the test for [NULL] and the [memcpy]. *)
Definition get_bytes (rb : read_block) (n : Z) : res (list Z * read_block) :=
  match rb_read rb n with
  | (None, _) => invalid_stream
  | (Some p, rb) => c ← lift (slice (rb_buffer rb) p n); Ok (c, rb)
  end.

Fixpoint of_le (l : list Z) : Z :=
  match l with
  | [] => 0
  | b :: l => b + 2 ^ 8 * of_le l
  end.

Definition get_word (rb : read_block) (n : Z) : res (Z * read_block) :=
  '(c, rb) ← get_bytes rb n; Ok (of_le c, rb).

Definition get_integer (rb : read_block) (cookie : Z) : res (Z * read_block) :=
  if cookie =? TYPE_NUMBER_ZERO then Ok (0, rb)
  else if cookie =? TYPE_NUMBER_BYTE then get_word rb 1
  else if cookie =? TYPE_NUMBER_WORD then get_word rb 2
  else if cookie =? TYPE_NUMBER_DWORD then '(n, rb) ← get_word rb 4; Ok (s32 n, rb)
  else if cookie =? TYPE_NUMBER_QWORD then '(n, rb) ← get_word rb 8; Ok (s64 n, rb)
  else invalid_stream.

Definition get_real (rb : read_block) : res (Z * read_block) := get_word rb 8.
Definition get_pointer (rb : read_block) : res (Z * read_block) := get_word rb 8.

(** [get_buffer]: a negative [len] gets past [rb_read], and [lua_pushlstring] refuses the
    size it becomes. *)
Definition get_buffer (rb : read_block) (len : Z) : res (value * read_block) :=
  match rb_read rb len with
  | (None, _) => invalid_stream
  | (Some p, rb) =>
      if len <? 0 then Err "memory allocation error: block too big"
      else c ← lift (slice (rb_buffer rb) p len); Ok (VStr c, rb)
  end.

Section unpack.
(** The border of a new table. *)
Variable border : list (value * value) -> Z.

(** [unpack_table] with its two loops. *)
Definition unpack_table (array : Z -> list (value * value) -> read_block -> res (list (value * value) * read_block))
    (pairs : list (value * value) -> read_block -> res (list (value * value) * read_block))
    (rb : read_block) (array_size : Z) : res (value * read_block) :=
  '(array_size, rb) ← (if array_size =? MAX_COOKIE - 1 then
      '(type, rb) ← get_word rb 1;
      let cookie := Z.shiftr type 3 in
      if negb (Z.land type 7 =? TYPE_NUMBER) || (cookie =? TYPE_NUMBER_REAL) then invalid_stream
      else '(n, rb) ← get_integer rb cookie; Ok (s32 n, rb)
    else Ok (array_size, rb));
  '(l, rb) ← array array_size [] rb;
  '(l, rb) ← pairs l rb;
  Ok (VTable (border l) l, rb).

Definition push_value (table : read_block -> Z -> res (value * read_block))
    (rb : read_block) (type cookie : Z) : res (value * read_block) :=
  if type =? TYPE_NIL then Ok (VNil, rb)
  else if type =? TYPE_BOOLEAN then Ok (VBool (negb (cookie =? 0)), rb)
  else if type =? TYPE_NUMBER then
    if cookie =? TYPE_NUMBER_REAL then '(n, rb) ← get_real rb; Ok (VReal n, rb)
    else '(n, rb) ← get_integer rb cookie; Ok (VInt n, rb)
  else if type =? TYPE_USERDATA then '(p, rb) ← get_pointer rb; Ok (VPtr p, rb)
  else if type =? TYPE_SHORT_STRING then get_buffer rb cookie
  else if type =? TYPE_LONG_STRING then
    if cookie =? 2 then '(n, rb) ← get_word rb 2; get_buffer rb n
    else if negb (cookie =? 4) then invalid_stream
    else '(n, rb) ← get_word rb 4; get_buffer rb (s32 n)
  else if type =? TYPE_TABLE then table rb cookie
  else invalid_stream.

(** [unpack_one] and the loops of [unpack_table]. *)
Fixpoint unpack_one (fuel : nat) (rb : read_block) : res (value * read_block) :=
  match fuel with
  | O => Ub
  | S fuel =>
      '(type, rb) ← get_word rb 1;
      push_value (unpack_table (unpack_array fuel 1) (unpack_pairs fuel)) rb (Z.land type 7) (Z.shiftr type 3)
  end
with unpack_array (fuel : nat) (i array_size : Z) (l : list (value * value)) (rb : read_block)
    : res (list (value * value) * read_block) :=
  match fuel with
  | O => Ub
  | S fuel =>
      if i <=? array_size then
        '(v, rb) ← unpack_one fuel rb;
        unpack_array fuel (i + 1) array_size (raw_set l (VInt i) v) rb
      else Ok (l, rb)
  end
with unpack_pairs (fuel : nat) (l : list (value * value)) (rb : read_block)
    : res (list (value * value) * read_block) :=
  match fuel with
  | O => Ub
  | S fuel =>
      '(k, rb) ← unpack_one fuel rb;
      if is_nil k then Ok (l, rb)
      else
        '(v, rb) ← unpack_one fuel rb;
        l ← lua_rawset l k v;
        unpack_pairs fuel l rb
  end.

(** The loop of [luaseri_unpack]; [of] is the fuel of [unpack_one]. *)
Fixpoint unpack_all (fuel fuel1 : nat) (rb : read_block) : res (list value) :=
  match fuel with
  | O => Ub
  | S fuel =>
      match rb_read rb 1 with
      | (None, _) => Ok []
      | (Some _, _) => '(v, rb) ← unpack_one fuel1 rb; vs ← unpack_all fuel fuel1 rb; Ok (v :: vs)
      end
  end.

(** The argument: nothing, a string, or a pointer (to a buffer or [NULL]) with a length. *)
Inductive seri_arg :=
| ANone
| AString (s : list Z)
| APointer (buffer : option (list Z)) (len : Z).

Definition arg_buffer (a : seri_arg) : option (list Z) * Z :=
  match a with
  | ANone => (None, 0)
  | AString s => (Some s, s32 (zlen s))
  | APointer buffer len => (buffer, s32 len)
  end.

(** [luaseri_unpack]: two steps for every byte are enough ([unpack_total]). *)
Definition luaseri_unpack (a : seri_arg) : res (list value) :=
  let '(buffer, len) := arg_buffer a in
  if len =? 0 then Ok []
  else
    match buffer with
    | None => Err "deserialize null pointer"
    | Some buffer =>
        unpack_all (S (Z.to_nat len)) (S (2 * Z.to_nat len)) (rball_init buffer len)
    end.
End unpack.
