(* ===== verification/SeriRoundtrip.v ===== *)
(** The round trip of lib/uboss/lua-seri.c: what is packed is what is unpacked. *)
From Stdlib Require Import String.
From S2P Require Import Prelude Bytes Lua Seri.
#[local] Set Warnings "-register-all".

(** ** Words *)

Lemma zlen_le_bytes n v : zlen (le_bytes n v) = Z.of_nat n.
Proof. revert v. induction n as [|n IH]; intros v; [done|]. cbn [le_bytes]. rewrite zlen_cons, IH. lia. Qed.

Lemma le_bytes_bytes n v : is_bytes (le_bytes n v).
Proof.
  revert v. induction n as [|n IH]; intros v; [by apply Forall_nil_2|]. apply Forall_cons. split; [|apply IH].
  apply Z.mod_pos_bound. lia.
Qed.

Lemma of_le_bytes n v : of_le (le_bytes n v) = v mod 2 ^ (8 * Z.of_nat n).
Proof.
  revert v. induction n as [|n IH]; intros v; [by rewrite Z.mod_1_r|]. cbn [le_bytes of_le]. rewrite IH.
  replace (8 * Z.of_nat (S n)) with (8 + 8 * Z.of_nat n) by lia. rewrite Z.pow_add_r by lia.
  assert (0 < 2 ^ (8 * Z.of_nat n)) by (apply Z.pow_pos_nonneg; lia).
  by rewrite Z.rem_mul_r by lia.
Qed.

Lemma of_le_bound l : is_bytes l -> 0 <= of_le l < 2 ^ (8 * zlen l).
Proof.
  induction 1 as [|b l Hb _ IH]; [done|]. rewrite zlen_cons. cbn [of_le].
  replace (8 * (1 + zlen l)) with (8 + 8 * zlen l) by lia. pose proof (zlen_nonneg l).
  rewrite Z.pow_add_r by lia. unfold is_u8 in Hb. lia.
Qed.

Lemma s64_small z : - 2 ^ 63 <= z < 2 ^ 63 -> s64 (z mod 2 ^ 64) = z.
Proof. intros. unfold s64. Z.div_mod_to_equations; lia. Qed.

Lemma s32_mod z : is_s32 z -> s32 (z mod 2 ^ 32) = z.
Proof. exact (s32_u32 z). Qed.

Lemma combine_type t v : 0 <= t < 8 -> 0 <= v < 32 ->
  COMBINE_TYPE t v = t + v * 8 /\ Z.land (COMBINE_TYPE t v) 7 = t /\ Z.shiftr (COMBINE_TYPE t v) 3 = v /\
  is_u8 (COMBINE_TYPE t v).
Proof.
  intros Ht Hv. unfold COMBINE_TYPE. rewrite (lor_shiftl_add t v 3) by lia. unfold u8, is_u8.
  rewrite Z.mod_small by lia. change 7 with (2 ^ 3 - 1). rewrite land_mask, Z.shiftr_div_pow2 by lia.
  split; [done|]. change (2 ^ 3) with 8. rewrite Z.mod_add, Z.div_add, Z.mod_small, Z.div_small by lia. lia.
Qed.

(** ** What a write block holds *)
Definition wb_holds (b : write_block) (s : list Z) : Prop :=
  mjoin (wb_full b) ++ wb_current b = s /\ Forall (fun c => zlen c = BLOCK_SIZE) (wb_full b) /\
  zlen (wb_current b) <= BLOCK_SIZE /\ wb_len b = s32 (zlen s).

(** A writer that appends [bs]. *)
Definition packs (pk : write_block -> res write_block) (bs : list Z) : Prop :=
  forall b s, wb_holds b s -> exists b', pk b = Ok b' /\ wb_holds b' (s ++ bs).

Lemma s32_add z n : s32 (s32 z + n) = s32 (z + n).
Proof.
  unfold s32. f_equal. replace ((z + 2 ^ 31) mod 2 ^ 32 - 2 ^ 31 + n + 2 ^ 31) with ((z + 2 ^ 31) mod 2 ^ 32 + n) by lia.
  rewrite Zplus_mod_idemp_l. f_equal. lia.
Qed.

Lemma append_holds b s c : wb_holds b s -> zlen (wb_current b) + zlen c <= BLOCK_SIZE ->
  wb_holds (append b c (zlen c)) (s ++ c).
Proof.
  intros (<- & Hf & Hc & Hl) Hle. unfold wb_holds, append. cbn [wb_full wb_current wb_len].
  split; [by rewrite app_assoc|]. split; [done|]. split; [rewrite zlen_app; lia|].
  rewrite Hl, s32_add. f_equal. rewrite (zlen_app _ c). done.
Qed.

Lemma next_block_holds b s : wb_holds b s -> wb_ptr b = BLOCK_SIZE -> wb_holds (next_block b) s.
Proof.
  intros (<- & Hf & Hc & Hl) Hp. unfold wb_holds, next_block. cbn [wb_full wb_current wb_len].
  rewrite app_nil_r, join_app. cbn [mjoin list_join]. rewrite app_nil_r. split_and!; [done | | done | done].
  apply Forall_app. by split; [|apply Forall_singleton].
Qed.

Lemma push_loop_spec fuel : forall b s c, (length c < fuel)%nat -> wb_holds b s -> wb_ptr b < BLOCK_SIZE ->
  exists b', push_loop fuel b c (zlen c) = Some b' /\ wb_holds b' (s ++ c).
Proof.
  induction fuel as [|fuel IH]; intros b s c Hf Hb Hp; [lia|]. cbn [push_loop].
  pose proof (zlen_nonneg c). pose proof (zlen_nonneg (wb_current b)). unfold wb_ptr in *.
  destruct (Z.leb_spec (zlen (wb_current b)) (BLOCK_SIZE - zlen c)) as [Hle|Hgt].
  - rewrite slice_spec by lia. cbn [mbind option_bind drop]. change (drop (Z.to_nat 0) c) with c.
    rewrite take_ge by (unfold zlen; lia). eexists. split; [done|]. apply append_holds; [done | lia].
  - set (k := BLOCK_SIZE - zlen (wb_current b)) in *. rewrite slice_spec by lia. cbn [mbind option_bind].
    change (drop (Z.to_nat 0) c) with c.
    assert (zlen (take (Z.to_nat k) c) = k) as Hk by (unfold zlen in *; rewrite length_take; lia).
    assert (zlen c - k = zlen (drop (Z.to_nat k) c)) as -> by (unfold zlen in *; rewrite length_drop; lia).
    replace (append b (take (Z.to_nat k) c) k) with (append b (take (Z.to_nat k) c) (zlen (take (Z.to_nat k) c)))
      by (by rewrite Hk).
    destruct (IH (next_block (append b (take (Z.to_nat k) c) (zlen (take (Z.to_nat k) c))))
      (s ++ take (Z.to_nat k) c) (drop (Z.to_nat k) c)) as (b' & -> & Hb').
    + rewrite length_drop. unfold zlen in *. lia.
    + apply next_block_holds; [apply append_holds; [done | lia]|].
      unfold wb_ptr, append. cbn [wb_current]. rewrite zlen_app. lia.
    + unfold wb_ptr. cbn. done.
    + exists b'. split; [done|]. by rewrite <-app_assoc, take_drop in Hb'.
Qed.

Lemma wb_push_packs c n : n = zlen c -> packs (wb_push c n) c.
Proof.
  intros -> b s Hb. unfold wb_push.
  destruct (push_loop_spec (S (length c)) (if wb_ptr b =? BLOCK_SIZE then next_block b else b) s c) as (b' & -> & Hb').
  - lia.
  - destruct (Z.eqb_spec (wb_ptr b) BLOCK_SIZE); [by apply next_block_holds | done].
  - destruct (Z.eqb_spec (wb_ptr b) BLOCK_SIZE); [done|]. destruct Hb as (_ & _ & Hle & _). unfold wb_ptr in *. lia.
  - by exists b'.
Qed.

Lemma packs_bind p q bs cs : packs p bs -> packs q cs -> packs (fun b => p b ≫= q) (bs ++ cs).
Proof.
  intros Hp Hq b s Hb. destruct (Hp b s Hb) as (b1 & -> & Hb1). destruct (Hq b1 _ Hb1) as (b2 & H2 & Hb2).
  exists b2. rewrite app_assoc. split; [exact H2 | done].
Qed.

Lemma packs_ext p q bs : packs p bs -> (forall b, q b = p b) -> packs q bs.
Proof. intros Hp Heq b s Hb. rewrite Heq. by apply Hp. Qed.

Lemma packs_nil : packs Ok [].
Proof. intros b s Hb. exists b. by rewrite app_nil_r. Qed.

Lemma wb_byte_packs n : packs (wb_byte n) [n].
Proof. by apply wb_push_packs. Qed.

Lemma wb_word_packs n v : packs (wb_word n v) (le_bytes n v).
Proof. apply wb_push_packs. by rewrite zlen_le_bytes. Qed.

Lemma byte_word_packs t n v : packs (fun b => b ← wb_byte t b; wb_word n v b) (t :: le_bytes n v).
Proof. exact (packs_bind _ _ _ _ (wb_byte_packs t) (wb_word_packs n v)). Qed.

Lemma slice_all {A} (c : list A) n : n = zlen c -> slice c 0 n = Some c.
Proof.
  intros ->. pose proof (zlen_nonneg c). rewrite slice_spec by lia. change (drop (Z.to_nat 0) c) with c.
  rewrite take_ge; [done | unfold zlen; lia].
Qed.

(** The buffer of [seri] is what the blocks hold. *)
Lemma copy_blocks_spec fs : forall c n, Forall (fun c => zlen c = BLOCK_SIZE) fs -> zlen c <= BLOCK_SIZE ->
  n = zlen (mjoin fs ++ c) -> copy_blocks (fs ++ [c]) n = Some (mjoin fs ++ c).
Proof.
  induction fs as [|f fs IH]; intros c n Hf Hc ->.
  - cbn [mjoin list_join app]. cbn [copy_blocks app]. pose proof (zlen_nonneg c).
    destruct (Z.ltb_spec 0 (zlen c)) as [Hpos|Hz].
    + destruct (Z.leb_spec BLOCK_SIZE (zlen c)).
      * rewrite (slice_all c BLOCK_SIZE) by lia. cbn [mbind option_bind].
        replace (zlen c - BLOCK_SIZE) with 0 by lia. cbn [copy_blocks Z.ltb Z.compare mbind option_bind].
        by rewrite app_nil_r.
      * by rewrite slice_all.
    + by rewrite (zlen_nil_inv c) by lia.
  - apply Forall_cons in Hf as [Hf Hfs]. change (mjoin (f :: fs)) with (f ++ mjoin fs). rewrite !zlen_app. cbn [copy_blocks app].
    pose proof (zlen_nonneg (mjoin fs)). pose proof (zlen_nonneg c).
    assert (zlen f = 128) as Hf' by exact Hf. unfold BLOCK_SIZE in Hc.
    destruct (Z.ltb_spec 0 (zlen f + zlen (mjoin fs) + zlen c)); [|lia].
    destruct (Z.leb_spec BLOCK_SIZE (zlen f + zlen (mjoin fs) + zlen c)) as [Hle|Hgt]; [|unfold BLOCK_SIZE in *; lia].
    rewrite (slice_all f BLOCK_SIZE) by done. cbn [mbind option_bind].
    rewrite (IH c); [|done | done | rewrite zlen_app; unfold BLOCK_SIZE; lia]. cbn [mbind option_bind].
    by rewrite <-app_assoc.
Qed.

Lemma seri_spec b s : wb_holds b s -> zlen s < 2 ^ 31 -> seri b = Ok (s, zlen s).
Proof.
  intros (Hs & Hf & Hc & Hl) Hlt. pose proof (zlen_nonneg s). unfold seri.
  rewrite s32_small in Hl by (unfold is_s32; lia).
  rewrite (copy_blocks_spec _ _ _ Hf Hc), Hs by (by rewrite Hs). rewrite Hl. done.
Qed.

(** ** Reading back *)

(** The read block in front of [rest]. *)
Definition rb_at (pre rest : list Z) : read_block := ReadBlock (pre ++ rest) (zlen rest) (zlen pre).

Lemma rb_read_at pre c rest n : n = zlen c ->
  rb_read (rb_at pre (c ++ rest)) n = (Some (zlen pre), rb_at (pre ++ c) rest).
Proof.
  intros ->. unfold rb_read, rb_at. cbn [rb_len rb_ptr rb_buffer]. rewrite zlen_app.
  pose proof (zlen_nonneg rest). destruct (Z.ltb_spec (zlen c + zlen rest) (zlen c)); [lia|].
  rewrite <-app_assoc, zlen_app. by replace (zlen c + zlen rest - zlen c) with (zlen rest) by lia.
Qed.

Lemma slice_at {A} (pre c rest : list A) : slice ((pre ++ c) ++ rest) (zlen pre) (zlen c) = Some c.
Proof.
  pose proof (zlen_nonneg pre). pose proof (zlen_nonneg c). pose proof (zlen_nonneg rest).
  rewrite slice_spec by (rewrite ?zlen_app; lia). f_equal. rewrite <-app_assoc.
  rewrite drop_app_length' by (unfold zlen; lia). by rewrite take_app_length' by (unfold zlen; lia).
Qed.

Lemma get_bytes_at pre c rest n : n = zlen c ->
  get_bytes (rb_at pre (c ++ rest)) n = Ok (c, rb_at (pre ++ c) rest).
Proof.
  intros Hn. unfold get_bytes. rewrite (rb_read_at _ _ _ _ Hn), Hn. unfold rb_at. cbn [rb_buffer].
  by rewrite slice_at.
Qed.

Lemma get_word_at pre n v rest :
  get_word (rb_at pre (le_bytes n v ++ rest)) (Z.of_nat n) =
    Ok (v mod 2 ^ (8 * Z.of_nat n), rb_at (pre ++ le_bytes n v) rest).
Proof.
  unfold get_word. rewrite get_bytes_at by (by rewrite zlen_le_bytes). cbn [mbind res_bind].
  by rewrite of_le_bytes.
Qed.

Lemma get_byte_at pre b rest : is_u8 b -> get_word (rb_at pre (b :: rest)) 1 = Ok (b, rb_at (pre ++ [b]) rest).
Proof.
  intros Hb. unfold get_word. rewrite (get_bytes_at pre [b] rest) by done. cbn [mbind res_bind of_le].
  do 2 f_equal. lia.
Qed.

Lemma get_buffer_at pre c rest n : n = zlen c ->
  get_buffer (rb_at pre (c ++ rest)) n = Ok (VStr c, rb_at (pre ++ c) rest).
Proof.
  intros Hn. unfold get_buffer. rewrite (rb_read_at _ _ _ _ Hn), Hn. pose proof (zlen_nonneg c).
  destruct (Z.ltb_spec (zlen c) 0); [lia|]. unfold rb_at. cbn [rb_buffer]. by rewrite slice_at.
Qed.

(** An integer is its type byte [TYPE_NUMBER + 8 * cookie] and a word. *)
Lemma integer_codes v : - 2 ^ 63 <= v < 2 ^ 63 -> exists cookie bs,
  packs (wb_integer v) (COMBINE_TYPE TYPE_NUMBER cookie :: bs) /\ 0 <= cookie < 8 /\
  forall pre rest, get_integer (rb_at pre (bs ++ rest)) cookie = Ok (v, rb_at (pre ++ bs) rest).
Proof.
  intros Hv. unfold wb_integer. destruct (Z.eqb_spec v 0) as [->|H0].
  { exists 0, []. split; [|split; [lia|]]; [by eapply packs_ext; [apply wb_byte_packs|]|].
    intros pre rest. by rewrite app_nil_r. }
  destruct (Z.eqb_spec v (s32 v)) as [H32|H64]; cbn [negb].
  2: { exists TYPE_NUMBER_QWORD, (le_bytes 8 v). split; [|split; [done|]]; [apply byte_word_packs|].
    intros pre rest. unfold get_integer. change (get_word ?r 8) with (get_word r (Z.of_nat 8)).
    cbn -[get_word rb_at le_bytes s64]. rewrite get_word_at. cbn -[le_bytes s64 rb_at].
    by rewrite s64_small. }
  assert (is_s32 v) as Hs by (rewrite H32; apply s32_bound).
  destruct (Z.ltb_spec v 0).
  { exists TYPE_NUMBER_DWORD, (le_bytes 4 (s32 v)). split; [|split; [done|]]; [apply byte_word_packs|].
    intros pre rest. rewrite <-H32. cbn -[get_word rb_at le_bytes s32]. change 4 with (Z.of_nat 4). rewrite get_word_at.
    cbn -[le_bytes s32 rb_at]. by rewrite s32_mod. }
  destruct (Z.ltb_spec v 256).
  { exists TYPE_NUMBER_BYTE, (le_bytes 1 (u8 v)). split; [|split; [done|]]; [apply byte_word_packs|].
    intros pre rest. cbn -[get_word rb_at le_bytes u8]. change 1 with (Z.of_nat 1). rewrite get_word_at.
    unfold u8. rewrite Z.mod_mod by lia. by rewrite Z.mod_small by lia. }
  destruct (Z.ltb_spec v 65536).
  { exists TYPE_NUMBER_WORD, (le_bytes 2 (u16 v)). split; [|split; [done|]]; [apply byte_word_packs|].
    intros pre rest. cbn -[get_word rb_at le_bytes u16]. change 2 with (Z.of_nat 2). rewrite get_word_at.
    unfold u16. rewrite Z.mod_mod by lia. by rewrite Z.mod_small by lia. }
  exists TYPE_NUMBER_DWORD, (le_bytes 4 (u32 v)). split; [|split; [done|]]; [apply byte_word_packs|].
  intros pre rest. cbn -[get_word rb_at le_bytes u32 s32]. change 4 with (Z.of_nat 4). rewrite get_word_at.
  cbn -[le_bytes s32 u32 rb_at]. unfold u32. rewrite Z.mod_mod by lia. by rewrite s32_mod.
Qed.

(** ** Values that can be packed *)
Definition scalar_ok (v : value) : Prop :=
  match v with
  | VNil | VBool _ => True
  | VInt z => - 2 ^ 63 <= z < 2 ^ 63
  | VReal bits => 0 <= bits < 2 ^ 64
  | VPtr p => 0 <= p < 2 ^ 64
  | VStr s => is_bytes s /\ zlen s < 2 ^ 31
  | _ => False
  end.

(** [wf d v]: at most [d] levels of tables. *)
Inductive wf : nat -> value -> Prop :=
| wf_scalar d v : scalar_ok v -> wf d v
| wf_table d n l : 0 <= n < 2 ^ 31 -> distinct_keys l ->
    Forall (fun kv => wf d kv.1 /\ wf d kv.2 /\ key_ok kv.1 /\ is_nil kv.2 = false) l -> wf (S d) (VTable n l)
| wf_pairs d l : distinct_keys l ->
    Forall (fun kv => wf d kv.1 /\ wf d kv.2 /\ key_ok kv.1 /\ is_nil kv.2 = false) l -> wf (S d) (VPairs l).

(** ** Equal up to the order of the entries of tables, and their borders *)
Definition table_entries (v : value) : option (list (value * value)) :=
  match v with VTable _ l | VPairs l => Some l | _ => None end.

Inductive veq : value -> value -> Prop :=
| veq_scalar v : table_entries v = None -> veq v v
| veq_table v v' l l1 l' : table_entries v = Some l -> table_entries v' = Some l' -> l1 ≡ₚ l ->
    Forall2 (fun p q => veq p.1 q.1 /\ veq p.2 q.2) l1 l' -> veq v v'.

Lemma veq_nil v v' : veq v v' -> is_nil v' = is_nil v.
Proof. by destruct 1 as [|[] [] ]. Qed.

Lemma veq_raw_equal a a' b b' : veq a a' -> veq b b' -> raw_equal a' b' = raw_equal a b.
Proof.
  intros Ha Hb. destruct Ha as [a Ha|a a' la l1 la' Ea Ea' _ _], Hb as [b Hb|b b' lb l1' lb' Eb Eb' _ _].
  - done.
  - destruct b; try done; destruct b'; try done; by destruct a.
  - destruct a; try done; destruct a'; try done.
  - destruct a; try done; destruct a'; try done.
Qed.

Lemma veq_key_ok k k' : veq k k' -> key_ok k -> key_ok k'.
Proof. destruct 1 as [|v v' l l1 l' E E' _ _]; [done|]. by destruct v', v. Qed.

Lemma distinct_keys_veq l l' : Forall2 (fun p q => veq p.1 q.1 /\ veq p.2 q.2) l l' ->
  distinct_keys l -> distinct_keys l'.
Proof.
  intros H Hd i j p q Hi Hj Hne.
  destruct (Forall2_lookup_r _ _ _ _ _ H Hi) as (p0 & Hp0 & Hp & _).
  destruct (Forall2_lookup_r _ _ _ _ _ H Hj) as (q0 & Hq0 & Hq & _).
  rewrite (veq_raw_equal _ _ _ _ Hp Hq). by eapply Hd.
Qed.

Section codes.
Variable border : list (value * value) -> Z.

(** [bs] are the bytes of one value: reading them gives [v]. *)
Definition reads (bs : list Z) (v : value) : Prop :=
  forall f pre rest, (2 * length bs < f)%nat ->
    unpack_one border f (rb_at pre (bs ++ rest)) = Ok (v, rb_at (pre ++ bs) rest).

Definition codes (pk : value -> write_block -> res write_block) (v : value) : Prop :=
  exists bs v', packs (pk v) bs /\ reads bs v' /\ veq v v' /\ (0 < length bs)%nat.

Lemma unpack_one_head f pre t c rest : 0 <= t < 8 -> 0 <= c < 32 ->
  unpack_one border (S f) (rb_at pre (COMBINE_TYPE t c :: rest)) =
  push_value (unpack_table border (unpack_array border f 1) (unpack_pairs border f))
    (rb_at (pre ++ [COMBINE_TYPE t c]) rest) t c.
Proof.
  intros Ht Hc. destruct (combine_type t c Ht Hc) as (_ & Hl & Hr & Hb).
  cbn [unpack_one]. rewrite get_byte_at by done. cbn [mbind res_bind]. by rewrite Hl, Hr.
Qed.

Lemma reads_word t c n v x bs : 0 <= t < 8 -> 0 <= c < 32 -> bs = COMBINE_TYPE t c :: le_bytes n x ->
  (forall tb pre rest, push_value tb (rb_at pre (le_bytes n x ++ rest)) t c =
     Ok (v, rb_at (pre ++ le_bytes n x) rest)) -> reads bs v.
Proof.
  intros Ht Hc -> Hp f pre rest Hf. destruct f as [|f]; [lia|]. cbn [app].
  rewrite unpack_one_head by done. rewrite Hp. by rewrite <-app_assoc.
Qed.

Lemma reads_bytes t c cs v bs : 0 <= t < 8 -> 0 <= c < 32 -> bs = COMBINE_TYPE t c :: cs ->
  (forall tb pre rest, push_value tb (rb_at pre (cs ++ rest)) t c = Ok (v, rb_at (pre ++ cs) rest)) -> reads bs v.
Proof.
  intros Ht Hc -> Hp f pre rest Hf. destruct f as [|f]; [lia|]. cbn [app].
  rewrite unpack_one_head by done. rewrite Hp. by rewrite <-app_assoc.
Qed.

Lemma string_codes s : zlen s < 2 ^ 31 ->
  exists bs, packs (wb_string s (s32 (zlen s))) bs /\ reads bs (VStr s) /\ (0 < length bs)%nat.
Proof.
  intros Hs. pose proof (zlen_nonneg s). rewrite s32_small by (unfold is_s32; lia). unfold wb_string, MAX_COOKIE.
  destruct (Z.ltb_spec (zlen s) 32).
  - exists (COMBINE_TYPE TYPE_SHORT_STRING (zlen s) :: s). split; [|split; [|cbn; lia]].
    + eapply (packs_bind _ _ [_]); [apply wb_byte_packs|]. destruct (Z.ltb_spec 0 (zlen s)).
      * by apply wb_push_packs.
      * rewrite (zlen_nil_inv s) by lia. apply packs_nil.
    + eapply reads_bytes; [| |done|]; [done | lia|]. intros tb pre rest. cbn -[get_buffer rb_at].
      by rewrite get_buffer_at.
  - destruct (Z.ltb_spec (zlen s) 65536).
    + exists (COMBINE_TYPE TYPE_LONG_STRING 2 :: le_bytes 2 (u16 (zlen s)) ++ s). split; [|split; [|cbn; lia]].
      * eapply (packs_bind _ _ (_ :: _)); [apply byte_word_packs | by apply wb_push_packs].
      * eapply reads_bytes; [| |done|]; [done | done|]. intros tb pre rest. cbn -[get_buffer get_word rb_at le_bytes].
        change 2 with (Z.of_nat 2). rewrite <-app_assoc, get_word_at. cbn -[get_buffer rb_at le_bytes u16].
        unfold u16. change (8 * Z.of_nat 2) with 16. rewrite Z.mod_mod by lia.
        rewrite Z.mod_small by lia. rewrite get_buffer_at by done. by rewrite <-app_assoc.
    + exists (COMBINE_TYPE TYPE_LONG_STRING 4 :: le_bytes 4 (u32 (zlen s)) ++ s). split; [|split; [|cbn; lia]].
      * eapply (packs_bind _ _ (_ :: _)); [apply byte_word_packs | by apply wb_push_packs].
      * eapply reads_bytes; [| |done|]; [done | done|]. intros tb pre rest. cbn -[get_buffer get_word rb_at le_bytes].
        change 4 with (Z.of_nat 4). rewrite <-app_assoc, get_word_at. cbn -[get_buffer rb_at le_bytes u32 s32].
        unfold u32. change (8 * Z.of_nat 4) with 32. rewrite Z.mod_mod by lia. rewrite s32_mod by (unfold is_s32; lia).
        rewrite get_buffer_at by done. by rewrite <-app_assoc.
Qed.

Lemma scalar_codes fuel depth v : depth <= MAX_DEPTH -> scalar_ok v -> codes (fun v => pack_one fuel v depth) v.
Proof.
  intros Hd Hv. unfold codes.
  assert ((MAX_DEPTH <? depth) = false) as Hd' by lia.
  assert (exists bs, packs (pack_one fuel v depth) bs /\ reads bs v /\ (0 < length bs)%nat) as (bs & H1 & H2 & H3).
  2: { exists bs, v. split; [done|]. split; [done|]. split; [|done]. apply veq_scalar. by destruct v. }
  destruct v as [|b|z|bits|p|s|? ?|?|?|?]; try done; destruct fuel; cbn [pack_one scalar_ok] in *; rewrite Hd'.
  1,2: exists [COMBINE_TYPE TYPE_NIL 0].
  3,4: exists [COMBINE_TYPE TYPE_BOOLEAN (if b then 1 else 0)].
  1-4: (split; [apply wb_byte_packs|split; [|cbn; lia]]); eapply (reads_bytes _ _ []); [| |done|];
       [done | by destruct b || done | intros tb pre rest; rewrite app_nil_r; by destruct b || done].
  1,2: destruct (integer_codes z Hv) as (cookie & bs & Hp & Hc & Hg); exists (COMBINE_TYPE TYPE_NUMBER cookie :: bs);
       (split; [exact Hp|split; [|cbn; lia]]); eapply reads_bytes; [| |done|]; [done | lia|];
       intros tb pre rest; unfold push_value; cbn -[get_integer get_real rb_at];
       (destruct (Z.eqb_spec cookie TYPE_NUMBER_REAL); [unfold TYPE_NUMBER_REAL in *; lia|]); by rewrite Hg.
  1,2: exists (COMBINE_TYPE TYPE_NUMBER TYPE_NUMBER_REAL :: le_bytes 8 bits).
  3,4: exists (TYPE_USERDATA :: le_bytes 8 p).
  1-4: (split; [apply byte_word_packs|split; [|cbn; lia]]).
  1,2: eapply reads_word; [| |done|]; [done..|]; intros tb pre rest; cbn -[get_word rb_at le_bytes];
       unfold get_real; change 8 with (Z.of_nat 8); rewrite get_word_at; cbn -[rb_at le_bytes]; by rewrite Z.mod_small.
  1,2: eapply (reads_word TYPE_USERDATA 0); [| |done|]; [done..|]; intros tb pre rest; cbn -[get_word rb_at le_bytes];
       unfold get_pointer; change 8 with (Z.of_nat 8); rewrite get_word_at; cbn -[rb_at le_bytes]; by rewrite Z.mod_small.
  all: by apply string_codes, Hv.
Qed.

(** ** The loops over a table *)
Definition entry_eq (p q : value * value) : Prop := veq p.1 q.1 /\ veq p.2 q.2.

Fixpoint set_array (l : list (value * value)) (i : Z) (vs : list value) : list (value * value) :=
  match vs with
  | [] => l
  | v :: vs => set_array (raw_set l (VInt i) v) (i + 1) vs
  end.

Fixpoint getis (n : nat) (i : Z) (l : list (value * value)) : list value :=
  match n with
  | O => []
  | S n => lua_rawgeti l i :: getis n (i + 1) l
  end.

Lemma array_codes pk l size n : forall i, (forall j, codes pk (lua_rawgeti l j)) -> size = i + Z.of_nat n - 1 ->
  exists bs vs, packs (array_loop pk n i l) bs /\ Forall2 veq (getis n i l) vs /\
    forall f pre rest l0, (2 * length bs + 1 < f)%nat ->
      unpack_array border f i size l0 (rb_at pre (bs ++ rest)) = Ok (set_array l0 i vs, rb_at (pre ++ bs) rest).
Proof.
  induction n as [|n IH]; intros i Hl Hsize.
  - exists [], []. split; [apply packs_nil|]. split; [constructor|]. intros f pre rest l0 Hf.
    destruct f as [|f]; [lia|]. cbn [unpack_array]. destruct (Z.leb_spec i size); [lia|]. by rewrite app_nil_r.
  - destruct (Hl i) as (b1 & v1 & Hp1 & Hr1 & Hv1 & Hn1).
    destruct (IH (i + 1) Hl) as (bs & vs & Hp & Hvs & Hr); [lia|].
    exists (b1 ++ bs), (v1 :: vs). split; [by apply packs_bind|]. split; [by constructor|].
    intros f pre rest l0 Hf. rewrite length_app in Hf. destruct f as [|f]; [lia|]. cbn [unpack_array].
    destruct (Z.leb_spec i size); [|lia]. rewrite <-app_assoc, Hr1 by lia. cbn [mbind res_bind set_array].
    rewrite Hr by lia. by rewrite <-app_assoc.
Qed.

Lemma pairs_codes pk l : Forall (fun kv => codes pk kv.1 /\ codes pk kv.2 /\ key_ok kv.1 /\ is_nil kv.2 = false) l ->
  distinct_keys l ->
  exists bs l', packs (pairs_loop pk l) bs /\ Forall2 entry_eq l l' /\ (0 < length bs)%nat /\
    forall f pre rest l0, (2 * length bs + 1 < f)%nat ->
      (forall p q, p ∈ l -> q ∈ l0 -> forall k, veq p.1 k -> raw_equal k q.1 = false) ->
      unpack_pairs border f l0 (rb_at pre (bs ++ rest)) = Ok (l0 ++ l', rb_at (pre ++ bs) rest).
Proof.
  intros Hl. induction Hl as [|[k v] l (Hk & Hv & Hok & Hnn) _ IH]; intros Hd.
  - exists [COMBINE_TYPE TYPE_NIL 0], []. split; [apply wb_byte_packs|]. split; [constructor|]. split; [cbn; lia|].
    intros f pre rest l0 Hf _. destruct f as [|[|f]]; [cbn in Hf; lia..|].
    cbn [unpack_pairs]. change ([COMBINE_TYPE TYPE_NIL 0] ++ rest) with (COMBINE_TYPE TYPE_NIL 0 :: rest).
    rewrite unpack_one_head by done. cbn -[rb_at app COMBINE_TYPE]. by rewrite app_nil_r.
  - apply distinct_keys_cons in Hd as [Hkl Hd]. destruct (IH Hd) as (bs & l' & Hp & Hl' & Hn & Hr).
    destruct Hk as (b1 & k' & Hp1 & Hr1 & Hk' & Hn1), Hv as (b2 & v' & Hp2 & Hr2 & Hv' & Hn2). cbn [fst snd] in *.
    assert (is_nil k = false) as Hkn by (by destruct k).
    exists (b1 ++ b2 ++ bs), ((k', v') :: l'). split; [|split; [by constructor|split; [rewrite length_app; lia|]]].
    + eapply packs_ext; [exact (packs_bind _ _ _ _ Hp1 (packs_bind _ _ _ _ Hp2 Hp))|].
      intros b. cbn [pairs_loop]. by rewrite Hkn.
    + intros f pre rest l0 Hf Hfresh. rewrite !length_app in Hf. destruct f as [|f]; [lia|]. cbn [unpack_pairs].
      rewrite <-app_assoc, Hr1 by lia. cbn [mbind res_bind]. rewrite (veq_nil _ _ Hk'), Hkn.
      rewrite <-app_assoc, Hr2 by lia. cbn [mbind res_bind].
      rewrite lua_rawset_new; [|by eapply veq_key_ok | | by rewrite (veq_nil _ _ Hv')].
      2: { intros q Hq. apply (Hfresh (k, v) q); [by left | done | done]. }
      cbn [mbind res_bind]. rewrite Hr; [by rewrite <-!app_assoc | lia|].
      intros p q Hpl Hq k2 Hk2. apply elem_of_app in Hq as [Hq|Hq%list_elem_of_singleton].
      * apply (Hfresh p q); [by right | done | done].
      * subst q. cbn [fst]. rewrite (veq_raw_equal p.1 k2 k k' Hk2 Hk').
        by destruct (proj1 (Forall_forall _ _) Hkl p Hpl).
Qed.

Lemma table_hash_pairs pk n l b : Forall (fun kv => key_ok kv.1) l ->
  wb_table_hash pk n l b = pairs_loop pk (filter (fun kv => in_array n kv.1 = false) l) b.
Proof.
  intros Hl. revert b. induction Hl as [|[k v] l Hk _ IH]; intros b; [done|]. cbn [wb_table_hash].
  rewrite filter_cons. cbn [fst] in *. destruct (in_array n k) eqn:E.
  - rewrite decide_False by done. apply IH.
  - rewrite decide_True by done. cbn [pairs_loop]. assert (is_nil k = false) as -> by (by destruct k).
    destruct (pk k b) as [b1| |]; cbn [mbind res_bind]; [|done..].
    destruct (pk v b1) as [b2| |]; cbn [mbind res_bind]; [apply IH | done..].
Qed.

Lemma length_getis n i l : length (getis n i l) = n.
Proof. revert i. induction n as [|n IH]; intros i; cbn [getis length]; [done | by rewrite IH]. Qed.

Lemma distinct_keys_filter (P : value * value -> Prop) `{!forall x, Decision (P x)} l :
  distinct_keys l -> distinct_keys (filter P l).
Proof.
  induction l as [|p l IH]; intros Hd; [done|]. rewrite filter_cons. apply distinct_keys_cons in Hd as [Hp Hd].
  case_decide; [|by apply IH]. apply distinct_keys_cons. split; [by apply Forall_filter | by apply IH].
Qed.

(** ** The array part of a table is the entries with the keys 1 to [n] *)
Fixpoint array_entries (i : Z) (vs : list value) : list (value * value) :=
  match vs with
  | [] => []
  | v :: vs => if is_nil v then array_entries (i + 1) vs else (VInt i, v) :: array_entries (i + 1) vs
  end.

Lemma array_entries_key i vs p : p ∈ array_entries i vs -> exists j, p.1 = VInt j /\ i <= j < i + zlen vs.
Proof.
  revert i. induction vs as [|v vs IH]; intros i; cbn [array_entries]; [by intros ?%not_elem_of_nil|].
  rewrite zlen_cons. destruct (is_nil v).
  - intros (j & Hj & Hb)%IH. exists j. split; [done | lia].
  - intros [->|(j & Hj & Hb)%IH]%elem_of_cons.
    + exists i. pose proof (zlen_nonneg vs). split; [done | lia].
    + exists j. split; [done | lia].
Qed.

Lemma set_array_entries vs : forall l i, (forall p, p ∈ l -> forall j, i <= j -> raw_equal (VInt j) p.1 = false) ->
  set_array l i vs = l ++ array_entries i vs.
Proof.
  induction vs as [|v vs IH]; intros l i Hl; cbn [set_array array_entries]; [by rewrite app_nil_r|].
  destruct (is_nil v) eqn:Ev.
  - assert (v = VNil) as -> by (by destruct v). rewrite raw_set_nil by (intros p Hp; apply Hl; [done | lia]).
    apply IH. intros p Hp j Hj. apply Hl; [done | lia].
  - rewrite raw_set_new; [|intros p Hp; apply Hl; [done | lia]|done].
    rewrite IH; [by rewrite <-app_assoc|]. intros p Hp j Hj. apply elem_of_app in Hp as [Hp| ->%list_elem_of_singleton].
    + apply Hl; [done | lia].
    + cbn. destruct (Z.eqb_spec j i); [lia | done].
Qed.

Lemma array_entries_veq vs vs' i : Forall2 veq vs vs' -> Forall2 entry_eq (array_entries i vs) (array_entries i vs').
Proof.
  intros H. revert i. induction H as [|v v' vs vs' Hv _ IH]; intros i; cbn [array_entries]; [constructor|].
  rewrite (veq_nil _ _ Hv). destruct (is_nil v); [apply IH|]. constructor; [|apply IH].
  split; [by apply veq_scalar | done].
Qed.

Lemma rawgeti_elem l i v : distinct_keys l -> is_nil v = false -> Forall (fun kv => is_nil kv.2 = false) l ->
  lua_rawgeti l i = v <-> (VInt i, v) ∈ l.
Proof.
  intros Hd Hv. revert Hd. induction l as [|[k w] l IH]; intros Hd Hl; cbn [lua_rawgeti].
  - split; [by intros <-|by intros ?%not_elem_of_nil].
  - apply distinct_keys_cons in Hd as [Hk Hd]. apply Forall_cons in Hl as [Hw Hl]. cbn [fst snd] in *.
    destruct (raw_equal (VInt i) k) eqn:E.
    + assert (k = VInt i) as -> by (destruct k; try done; cbn in E; apply Z.eqb_eq in E; congruence).
      rewrite elem_of_cons. split; [intros ->; by left|]. intros [[= ->]|Hin]; [done|].
      apply (proj1 (Forall_forall _ _) Hk) in Hin as [Hin _]. cbn in Hin. by rewrite Z.eqb_refl in Hin.
    + rewrite (IH Hd Hl), elem_of_cons. split; [by right|]. intros [[= <- <-]|?]; [|done].
      cbn in E. by rewrite Z.eqb_refl in E.
Qed.

Lemma elem_array_entries n l v j : forall i, is_nil v = false ->
  (VInt j, v) ∈ array_entries i (getis n i l) <-> i <= j < i + Z.of_nat n /\ lua_rawgeti l j = v.
Proof.
  intros i Hv. revert i. induction n as [|n IH]; intros i; cbn [getis array_entries].
  - split; [by intros ?%not_elem_of_nil | lia].
  - destruct (is_nil (lua_rawgeti l i)) eqn:E.
    + rewrite IH. split; intros [Hj Hg]; (split; [|done]); [lia|].
      destruct (decide (j = i)) as [->|]; [congruence | lia].
    + rewrite elem_of_cons, IH. split.
      * intros [[= -> <-]|[Hj Hg]]; (split; [lia | done]).
      * intros [Hj Hg]. destruct (decide (j = i)) as [->|]; [left; congruence | right; split; [lia | done]].
Qed.

Lemma array_entries_NoDup i vs : NoDup (array_entries i vs).
Proof.
  revert i. induction vs as [|v vs IH]; intros i; cbn [array_entries]; [constructor|].
  destruct (is_nil v); [apply IH|]. constructor; [|apply IH].
  intros (j & [= <-] & Hj)%array_entries_key. lia.
Qed.

Lemma array_entries_nonnil i vs p : p ∈ array_entries i vs -> is_nil p.2 = false.
Proof.
  revert i. induction vs as [|w vs IH]; intros i; cbn [array_entries]; [by intros ?%not_elem_of_nil|].
  destruct (is_nil w) eqn:E; [apply IH|]. intros [->|?]%elem_of_cons; [done | by eapply IH].
Qed.

Lemma array_part n l : distinct_keys l -> Forall (fun kv => is_nil kv.2 = false) l ->
  array_entries 1 (getis n 1 l) ≡ₚ filter (fun kv => in_array (Z.of_nat n) kv.1 = true) l.
Proof.
  intros Hd Hl. apply NoDup_Permutation; [apply array_entries_NoDup| |].
  - revert Hd. clear. induction l as [|[k v] l IH]; intros Hd; [constructor|].
    apply distinct_keys_cons in Hd as [Hk Hd]. rewrite filter_cons. cbn [fst]. case_decide as Hin; [|by apply IH].
    constructor; [|by apply IH]. intros [_ Hx]%list_elem_of_filter.
    apply (proj1 (Forall_forall _ _) Hk) in Hx as [Hx _]. cbn [fst] in Hx.
    destruct k; try done. cbn in Hx. by rewrite Z.eqb_refl in Hx.
  - intros [k v]. rewrite list_elem_of_filter. cbn [fst]. split.
    + intros Hin. destruct (array_entries_key _ _ _ Hin) as (j & Hj & Hb). cbn [fst] in Hj. subst k.
      pose proof (array_entries_nonnil _ _ _ Hin) as Hv. cbn [snd] in Hv.
      apply elem_array_entries in Hin as [Hj Hg]; [|done]. split; [cbn; lia|]. by apply rawgeti_elem.
    + intros [Ha Hin]. destruct k as [| |j| | | | | | |]; try done. cbn in Ha.
      assert (is_nil v = false) as Hv by (exact (proj1 (Forall_forall _ _) Hl _ Hin)).
      apply elem_array_entries; [done|]. split; [lia|]. by apply rawgeti_elem.
Qed.

Lemma header_codes n : 0 <= n < 2 ^ 31 -> exists c hs, 0 <= c < 32 /\
  packs (fun b => if MAX_COOKIE - 1 <=? n
                  then b ← wb_byte (COMBINE_TYPE TYPE_TABLE (MAX_COOKIE - 1)) b; wb_integer n b
                  else wb_byte (COMBINE_TYPE TYPE_TABLE n) b) (COMBINE_TYPE TYPE_TABLE c :: hs) /\
  forall A P pre rest, unpack_table border A P (rb_at pre (hs ++ rest)) c =
    ('(l, rb) ← A n [] (rb_at (pre ++ hs) rest); '(l, rb) ← P l rb; Ok (VTable (border l) l, rb)).
Proof.
  intros Hn. unfold MAX_COOKIE. change (32 - 1) with 31. destruct (Z.leb_spec 31 n).
  - destruct (integer_codes n) as (cookie & bs & Hp & Hc & Hg); [lia|].
    exists 31, (COMBINE_TYPE TYPE_NUMBER cookie :: bs). split; [lia|]. split.
    + exact (packs_bind _ _ [_] _ (wb_byte_packs _) Hp).
    + intros A P pre rest. unfold unpack_table. cbn [MAX_COOKIE]. change (31 =? MAX_COOKIE - 1) with true. cbn match.
      destruct (combine_type TYPE_NUMBER cookie ltac:(done) ltac:(lia)) as (_ & Hl & Hr & Hb).
      cbn [app]. rewrite get_byte_at by done. cbn [mbind res_bind]. rewrite Hl, Hr, Z.eqb_refl.
      rewrite (proj2 (Z.eqb_neq cookie TYPE_NUMBER_REAL)) by (unfold TYPE_NUMBER_REAL; lia). cbn [negb orb].
      rewrite Hg. cbn [mbind res_bind]. rewrite s32_small by (unfold is_s32; lia). by rewrite <-app_assoc.
  - exists n, []. split; [lia|]. split; [apply wb_byte_packs|]. intros A P pre rest. unfold unpack_table, MAX_COOKIE.
    destruct (Z.eqb_spec n (32 - 1)); [lia|]. by rewrite app_nil_r.
Qed.

(** The entries that the array part and the pairs of a table give. *)
Lemma entries_split n l vs l2 : 0 <= n -> distinct_keys l -> Forall (fun kv => is_nil kv.2 = false) l ->
  Forall2 veq (getis (Z.to_nat n) 1 l) vs ->
  Forall2 entry_eq (filter (fun kv => in_array n kv.1 = false) l) l2 ->
  exists l1, l1 ≡ₚ l /\ Forall2 entry_eq l1 (array_entries 1 vs ++ l2).
Proof.
  intros Hn Hd Hl Hvs Hl2.
  exists (array_entries 1 (getis (Z.to_nat n) 1 l) ++ filter (fun kv => in_array n kv.1 = false) l). split.
  - rewrite array_part, Z2Nat.id by done. clear. induction l as [|p l IH]; [done|]. rewrite !filter_cons.
    destruct (in_array n p.1) eqn:E.
    + rewrite decide_True, decide_False by done. cbn [app]. by rewrite IH.
    + rewrite decide_False, decide_True by done. by rewrite <-Permutation_middle, IH.
  - apply Forall2_app; [by apply array_entries_veq | done].
Qed.

Lemma table_codes pk n l : 0 <= n < 2 ^ 31 -> distinct_keys l -> codes pk VNil ->
  Forall (fun kv => codes pk kv.1 /\ codes pk kv.2 /\ key_ok kv.1 /\ is_nil kv.2 = false) l ->
  codes (fun _ b => '(a, b) ← wb_table_array pk n l b; wb_table_hash pk a l b) (VTable n l).
Proof.
  intros Hn Hd Hnil Hl. destruct (header_codes n Hn) as (c & hs & Hc & Hph & Hrh).
  assert (Forall (fun kv => is_nil kv.2 = false) l) as Hnn by (eapply Forall_impl; [exact Hl|]; tauto).
  assert (Forall (fun kv => key_ok kv.1) l) as Hks by (eapply Forall_impl; [exact Hl|]; tauto).
  destruct (array_codes pk l n (Z.to_nat n) 1) as (bs & vs & Hpa & Hvs & Hra); [|lia|].
  { intros j. destruct (is_nil (lua_rawgeti l j)) eqn:E; [by destruct (lua_rawgeti l j)|].
    assert ((VInt j, lua_rawgeti l j) ∈ l) as Hin by (by apply rawgeti_elem).
    by destruct (proj1 (Forall_forall _ _) Hl _ Hin) as (_ & Hv & _). }
  destruct (pairs_codes pk (filter (fun kv => in_array n kv.1 = false) l)) as (ps & l2 & Hpp & Hl2 & Hps & Hrp).
  { by apply Forall_filter. }
  { by apply distinct_keys_filter. }
  assert (zlen vs = n) as Hvn.
  { apply Forall2_length in Hvs. rewrite length_getis in Hvs. unfold zlen. lia. }
  exists (COMBINE_TYPE TYPE_TABLE c :: hs ++ bs ++ ps), (VTable (border (array_entries 1 vs ++ l2)) (array_entries 1 vs ++ l2)).
  split; [|split; [|split; [|cbn; lia]]].
  - eapply packs_ext; [exact (packs_bind _ _ (_ :: _) _ Hph (packs_bind _ _ _ _ Hpa Hpp))|].
    intros b. unfold wb_table_array. rewrite s32_small by (unfold is_s32; lia).
    destruct (if MAX_COOKIE - 1 <=? n then _ else _) as [b1| |]; cbn [mbind res_bind]; [|done..].
    destruct (array_loop pk (Z.to_nat n) 1 l b1) as [b2| |]; cbn [mbind res_bind]; [|done..].
    by apply table_hash_pairs.
  - intros f pre rest Hf. cbn [length] in Hf. rewrite !length_app in Hf. destruct f as [|f]; [lia|]. cbn [app].
    rewrite unpack_one_head by done. unfold push_value. cbn [Z.eqb TYPE_TABLE TYPE_NIL TYPE_BOOLEAN TYPE_NUMBER
      TYPE_USERDATA TYPE_SHORT_STRING TYPE_LONG_STRING Pos.eqb].
    rewrite <-(app_assoc hs), Hrh, <-(app_assoc bs), Hra by lia. cbn [mbind res_bind].
    rewrite set_array_entries by (by intros p ?%not_elem_of_nil). cbn [app]. rewrite Hrp; [| lia |].
    + cbn [mbind res_bind]. by rewrite <-!app_assoc.
    + intros p q Hp Hq k Hk. destruct (array_entries_key _ _ _ Hq) as (j & -> & Hj).
      apply list_elem_of_filter in Hp as [Hp _].
      assert (veq (VInt j) (VInt j)) as Hj2 by (by apply veq_scalar).
      rewrite (veq_raw_equal _ _ _ _ Hk Hj2). destruct p as [[] w]; try done. cbn in Hp |- *.
      destruct (Z.eqb_spec z j); [lia | done].
  - destruct (entries_split n l vs l2) as (l1 & Hperm & H2); [lia | done..|]. by eapply veq_table.
Qed.

Lemma metapairs_codes pk l : distinct_keys l ->
  Forall (fun kv => codes pk kv.1 /\ codes pk kv.2 /\ key_ok kv.1 /\ is_nil kv.2 = false) l ->
  codes (fun _ b => wb_table_metapairs pk l b) (VPairs l).
Proof.
  intros Hd Hl. destruct (pairs_codes pk l Hl Hd) as (ps & l2 & Hpp & Hl2 & Hps & Hrp).
  exists (COMBINE_TYPE TYPE_TABLE 0 :: ps), (VTable (border l2) l2). split; [|split; [|split; [|cbn; lia]]].
  - exact (packs_bind _ _ [_] _ (wb_byte_packs _) Hpp).
  - intros f pre rest Hf. cbn [length] in Hf. destruct f as [|[|f]]; [lia..|]. cbn [app].
    rewrite unpack_one_head by done. unfold push_value. cbn [Z.eqb TYPE_TABLE TYPE_NIL TYPE_BOOLEAN TYPE_NUMBER
      TYPE_USERDATA TYPE_SHORT_STRING TYPE_LONG_STRING Pos.eqb].
    unfold unpack_table. change (0 =? MAX_COOKIE - 1) with false. cbn [mbind res_bind unpack_array Z.leb Z.compare].
    change (1 <=? 0) with false. cbn match. cbn [mbind res_bind]. rewrite Hrp; [|lia|].
    + cbn [mbind res_bind]. by rewrite <-app_assoc.
    + by intros p q _ ?%not_elem_of_nil.
  - by eapply veq_table.
Qed.

Lemma value_codes d : forall v depth fuel, wf d v -> (d <= fuel)%nat -> depth + Z.of_nat d <= MAX_DEPTH ->
  codes (fun v => pack_one fuel v depth) v.
Proof.
  induction d as [|d IH]; intros v depth fuel Hv Hf Hd; inversion Hv; subst;
    try (apply scalar_codes; [lia | done]).
  - destruct fuel as [|fuel]; [lia|].
    destruct (table_codes (fun v => pack_one fuel v (depth + 1)) n l) as (bs & v' & Hp & Hrest); [done | done | | |].
    + apply (IH VNil); [by apply wf_scalar | lia | lia].
    + eapply Forall_impl; [eassumption|]. intros [k w] (Hk & Hw & ? & ?). cbn [fst snd] in *.
      split_and!; [apply (IH k) | apply (IH w) | |]; try done; lia.
    + exists bs, v'. split; [|done]. eapply packs_ext; [exact Hp|]. intros b. cbn [pack_one].
      by rewrite (proj2 (Z.ltb_ge MAX_DEPTH depth)) by lia.
  - destruct fuel as [|fuel]; [lia|].
    destruct (metapairs_codes (fun v => pack_one fuel v (depth + 1)) l) as (bs & v' & Hp & Hrest); [done | |].
    + eapply Forall_impl; [eassumption|]. intros [k w] (Hk & Hw & ? & ?). cbn [fst snd] in *.
      split_and!; [apply (IH k) | apply (IH w) | |]; try done; lia.
    + exists bs, v'. split; [|done]. eapply packs_ext; [exact Hp|]. intros b. cbn [pack_one].
      by rewrite (proj2 (Z.ltb_ge MAX_DEPTH depth)) by lia.
Qed.

Lemma pack_from_codes vs : Forall (wf 32) vs ->
  exists bs vs', packs (pack_from vs) bs /\ Forall2 veq vs vs' /\
    forall f f1 pre, (length bs < f)%nat -> (2 * length bs < f1)%nat ->
      unpack_all border f f1 (rb_at pre bs) = Ok vs'.
Proof.
  induction 1 as [|v vs Hv _ IH].
  - exists [], []. split; [apply packs_nil|]. split; [constructor|]. intros f f1 pre Hf _.
    destruct f as [|f]; [lia|]. done.
  - destruct IH as (bs & vs' & Hp & Hvs & Hr).
    destruct (value_codes 32 v 0 pack_fuel Hv) as (b1 & v' & Hp1 & Hr1 & Hv' & Hn);
      [by compute; lia | by compute|].
    exists (b1 ++ bs), (v' :: vs'). split; [by apply (packs_bind _ _ _ _ Hp1)|]. split; [by constructor|].
    intros f f1 pre Hf Hf1. rewrite length_app in Hf, Hf1. destruct f as [|f]; [lia|]. cbn [unpack_all].
    assert (exists p, rb_read (rb_at pre (b1 ++ bs)) 1 = p /\ is_Some p.1) as ([[p|] rb'] & -> & Hs).
    { eexists. split; [done|]. destruct b1 as [|x b1]; [cbn in Hn; lia|].
      rewrite (rb_read_at pre [x] (b1 ++ bs)) by done. by eexists. }
    2: { cbn in Hs. by apply is_Some_None in Hs. }
    rewrite Hr1 by lia. cbn [mbind res_bind]. rewrite Hr by lia. done.
Qed.
End codes.

Definition wb_content (b : write_block) : list Z := mjoin (wb_full b) ++ wb_current b.

(** C29: unpacking is the inverse of packing.  Values of at most 32 levels of tables are
    packed without an error, and if the stream is shorter than 2^31 bytes, reading the
    buffer, as a string or through a pointer, gives values equal to them: scalars exactly,
    tables up to the order of the entries. *)
Theorem seri_roundtrip (border : list (value * value) -> Z) (vs : list value) :
  Forall (wf 32) vs ->
  exists wb, pack_from vs wb_init = Ok wb /\
    let s := wb_content wb in
    (zlen s < 2 ^ 31 ->
     luaseri_pack vs = Ok (s, zlen s) /\
     exists vs', luaseri_unpack border (AString s) = Ok vs' /\
       luaseri_unpack border (APointer (Some s) (zlen s)) = Ok vs' /\ Forall2 veq vs vs').
Proof.
  intros Hvs. destruct (pack_from_codes border vs Hvs) as (bs & vs' & Hp & Hveq & Hr).
  destruct (Hp wb_init []) as (wb & Hwb & Hh); [by split_and!; [|constructor| |]|].
  exists wb. split; [done|]. pose proof Hh as (Hc & _). fold (wb_content wb) in Hc. rewrite Hc. cbn zeta. cbn [app] in *.
  intros Hlt. pose proof (zlen_nonneg bs). split.
  { unfold luaseri_pack. rewrite Hwb. cbn [mbind res_bind]. by apply seri_spec. }
  assert (zlen bs = 0 -> vs' = []) as Hnil.
  { intros Hz. apply zlen_nil_inv in Hz. rewrite Hz in Hr. specialize (Hr 1%nat 1%nat []).
    assert (Ok (A := list value) [] = Ok vs') as [= <-] by (apply Hr; cbn; lia). done. }
  exists vs'. split; [|split; [|done]].
  all: unfold luaseri_unpack, arg_buffer; rewrite s32_small by (unfold is_s32; lia);
    destruct (Z.eqb_spec (zlen bs) 0) as [Hz|_]; [by rewrite (Hnil Hz)|];
    change (rball_init bs (zlen bs)) with (rb_at [] bs); apply Hr; unfold zlen; lia.
Qed.

Definition demo_value : value :=
  VTable 2 [(VInt 1, VStr [104; 105]); (VReal 0x3ff8000000000000, VInt (-70000)); (VInt 2, VBool true);
            (VStr [97], VTable 0 [(VPtr 5, VReal 0x400921fb54442d18)])].

Lemma demo_value_wf : wf 32 demo_value.
Proof.
  assert (forall d v, scalar_ok v -> wf d v) as Hs by (intros; by apply wf_scalar).
  assert (is_bytes [104; 105] /\ is_bytes [97]) as [Hb1 Hb2]
    by (split; apply (bool_decide_unpack _); vm_compute; exact I).
  apply wf_table; [lia | |].
  - intros [|[|[|[|i]]]] [|[|[|[|j]]]] p q Hi Hj Hne; simplify_eq/=; try done; by destruct Hne.
  - repeat (apply Forall_cons; split); [..|by apply Forall_nil_2]; cbn [fst snd];
      (split; [by apply Hs|split; [|done]]); try (by apply Hs; cbn; lia || done).
    apply wf_table; [lia | |].
    + intros [|i] [|j] p q Hi Hj Hne; simplify_eq/=; done.
    + apply Forall_cons. split; [|by apply Forall_nil_2]. split_and!; [by apply Hs.. | done | done].
Qed.

(** ** Witnesses *)
Lemma seri_roundtrip_witness :
  exists s vs', luaseri_pack [demo_value; VNil] = Ok (s, 43) /\
    luaseri_unpack (fun _ => 0) (AString s) = Ok vs' /\ Forall2 veq [demo_value; VNil] vs'.
Proof.
  destruct (seri_roundtrip (fun _ => 0) [demo_value; VNil]) as (wb & Hwb & H).
  { repeat apply Forall_cons_2; [apply demo_value_wf | by apply wf_scalar | by apply Forall_nil_2]. }
  assert (zlen (wb_content wb) = 43) as Hlen by (vm_compute in Hwb; injection Hwb as <-; reflexivity).
  destruct H as (Hp & vs' & Hu & _ & Hv); [rewrite Hlen; lia|].
  exists (wb_content wb), vs'. rewrite Hp, Hlen. exact (conj eq_refl (conj Hu Hv)).
Defined.
