(* ===== verification/SeriTotal.v ===== *)
(** Unpacking arbitrary bytes with lib/uboss/lua-seri.c: termination, bounds and the types of
    the values. *)
From Stdlib Require Import String.
From S2P Require Import Prelude Bytes Lua Seri SeriRoundtrip.

(** ** Reading any bytes *)
#[local] Opaque real_int.

Definition rb_ok (rb : read_block) : Prop :=
  0 <= rb_len rb /\ 0 <= rb_ptr rb /\ rb_ptr rb + rb_len rb <= zlen (rb_buffer rb) /\ is_bytes (rb_buffer rb).

(** [rb'] is behind [rb] by [n] bytes or more. *)
Definition rb_after (n : Z) (rb rb' : read_block) : Prop := rb_ok rb' /\ rb_len rb' + n <= rb_len rb.

Lemma get_bytes_safe rb n : rb_ok rb -> 0 <= n ->
  safe (fun '(c, rb') => zlen c = n /\ is_bytes c /\ rb_after n rb rb') (get_bytes rb n).
Proof.
  intros (Hl & Hp & Hle & Hb) Hn. unfold get_bytes, rb_read. destruct (Z.ltb_spec (rb_len rb) n); [done|].
  cbn [rb_buffer]. rewrite slice_spec by lia. cbn [lift mbind res_bind safe]. split.
  - unfold zlen in *. rewrite length_take, length_drop. lia.
  - split; [by apply Forall_take, Forall_drop|]. unfold rb_after, rb_ok. cbn. split; [|lia]. split_and!; (done || lia).
Qed.

Lemma get_word_safe rb n : rb_ok rb -> 0 <= n ->
  safe (fun '(v, rb') => 0 <= v < 2 ^ (8 * n) /\ rb_after n rb rb') (get_word rb n).
Proof.
  intros Hr Hn. eapply safe_bind; [by apply get_bytes_safe|]. intros [c rb'] (Hc & Hb & Ha). cbn. split; [|done].
  rewrite <-Hc. by apply of_le_bound.
Qed.

Lemma rb_after_weaken n m rb rb' : m <= n -> rb_after n rb rb' -> rb_after m rb rb'.
Proof. intros Hm [Ho Hl]. split; [done | lia]. Qed.

Lemma get_integer_safe rb cookie : rb_ok rb ->
  safe (fun '(v, rb') => - 2 ^ 63 <= v < 2 ^ 63 /\ rb_after 0 rb rb') (get_integer rb cookie).
Proof.
  intros Hr. unfold get_integer.
  assert (forall n, 0 <= n -> forall x rb', 0 <= x < 2 ^ (8 * n) /\ rb_after n rb rb' -> rb_after 0 rb rb') as Hw.
  { intros n Hn x rb' [_ Ha]. by eapply rb_after_weaken. }
  destruct (cookie =? TYPE_NUMBER_ZERO).
  { cbn. split; [lia|]. split; [done | lia]. }
  destruct (cookie =? TYPE_NUMBER_BYTE); [|destruct (cookie =? TYPE_NUMBER_WORD);
    [|destruct (cookie =? TYPE_NUMBER_DWORD); [|destruct (cookie =? TYPE_NUMBER_QWORD); [|done]]]].
  - pose proof (get_word_safe rb 1 Hr ltac:(lia)) as H. destruct (get_word rb 1) as [[v rb']| |]; [|done..].
    split; [cbn in H; lia|]. by eapply (Hw 1).
  - pose proof (get_word_safe rb 2 Hr ltac:(lia)) as H. destruct (get_word rb 2) as [[v rb']| |]; [|done..].
    split; [cbn in H; lia|]. by eapply (Hw 2).
  - eapply safe_bind; [by apply get_word_safe|]. intros [v rb'] H. cbn. pose proof (s32_bound v). unfold is_s32 in *.
    split; [lia|]. by eapply (Hw 4).
  - eapply safe_bind; [by apply get_word_safe|]. intros [v rb'] H. cbn. split; [|by eapply (Hw 8)].
    unfold s64. Z.div_mod_to_equations; lia.
Qed.

Lemma wf_mono d d' v : (d <= d')%nat -> wf d v -> wf d' v.
Proof.
  revert d' v. induction d as [|d IH]; intros d' v Hd Hv; inversion Hv; subst; try by apply wf_scalar.
  all: destruct d' as [|d']; [lia|]; first [apply wf_table | apply wf_pairs]; try done.
  all: eapply Forall_impl; [eassumption|]; intros [k w] (Hk & Hw & ? & ?); cbn [fst snd] in *;
    (split; [apply IH; [lia | done]|split; [apply IH; [lia | done]|done]]).
Qed.

Definition typed (v : value) : Prop := exists d, wf d v.

Definition table_ok (l : list (value * value)) : Prop :=
  distinct_keys l /\ Forall (fun kv => typed kv.1 /\ typed kv.2 /\ key_ok kv.1 /\ is_nil kv.2 = false) l.

Lemma table_typed n l : 0 <= n < 2 ^ 31 -> table_ok l -> typed (VTable n l).
Proof.
  intros Hn [Hd Hl].
  assert (exists d, Forall (fun kv => wf d kv.1 /\ wf d kv.2 /\ key_ok kv.1 /\ is_nil kv.2 = false) l) as [d Hf].
  2: { exists (S d). by apply wf_table. }
  clear Hd. induction Hl as [|[k v] l ([d1 H1] & [d2 H2] & Hk & Hv) _ [d IH]]; [by exists 0%nat|].
  exists (d1 `max` (d2 `max` d))%nat. apply Forall_cons. split.
  - cbn [fst snd] in *. split; [eapply wf_mono; [|exact H1]; lia|]. split; [eapply wf_mono; [|exact H2]; lia | done].
  - eapply Forall_impl; [exact IH|]. intros [k' v'] (? & ? & ?).
    split; [eapply wf_mono; [|done]; lia|]. split; [eapply wf_mono; [|done]; lia | done].
Qed.

Lemma raw_set_ok l k v : table_ok l -> typed k -> key_ok k -> typed v -> table_ok (raw_set l k v).
Proof.
  intros [Hd Hl] Hk Hok Hv. split; [by apply raw_set_distinct|].
  assert (Forall (fun kv => is_nil kv.2 = false) (raw_set l k v)) as Hnn.
  { apply raw_set_nonnil. eapply Forall_impl; [exact Hl|]. by intros q (_ & _ & _ & Hq). }
  apply Forall_forall. intros p Hp. assert (is_nil p.2 = false) as Hpn by exact (proj1 (Forall_forall _ _) Hnn _ Hp).
  destruct (raw_set_elem _ _ _ _ Hp) as [->|[(w & Hpv & Hin)|Hin]]; [done| |].
  - rewrite Hpv in Hpn |- *. destruct (proj1 (Forall_forall _ _) Hl _ Hin) as (Hp1 & _ & Hp3 & _). cbn [fst] in *.
    by split_and!.
  - by apply (proj1 (Forall_forall _ _) Hl _ Hin).
Qed.

Lemma lua_rawset_safe l k v : table_ok l -> typed k -> is_nil k = false -> typed v -> safe table_ok (lua_rawset l k v).
Proof.
  intros Hl Hk Hn Hv. destruct k as [|b|z|bits|p|s|n0 l0|l0|m|x]; [discriminate Hn|..]; cbn [lua_rawset].
  3: { destruct (real_nan bits) eqn:En; [exact I|]. destruct (real_int bits) as [z|] eqn:Ei; cbn [safe].
    - apply raw_set_ok; [exact Hl | | exact I | exact Hv]. exists 0%nat. apply wf_scalar. exact (real_int_bound _ _ Ei).
    - apply raw_set_ok; [exact Hl | exact Hk | exact (conj En Ei) | exact Hv]. }
  all: apply raw_set_ok; [exact Hl | exact Hk | exact I | exact Hv].
Qed.

Section total.
Variable border : list (value * value) -> Z.
Hypothesis border_int : forall l, 0 <= border l < 2 ^ 31.

Definition one_ok (fuel : nat) : Prop := forall rb, rb_ok rb -> (2 * Z.to_nat (rb_len rb) < fuel)%nat ->
  safe (fun '(v, rb') => typed v /\ rb_after 1 rb rb') (unpack_one border fuel rb).
Definition array_ok (fuel : nat) : Prop := forall i n l rb, rb_ok rb -> table_ok l -> 1 <= i -> n < 2 ^ 31 ->
  (2 * Z.to_nat (rb_len rb) + 1 < fuel)%nat ->
  safe (fun '(l', rb') => table_ok l' /\ rb_after 0 rb rb') (unpack_array border fuel i n l rb).
Definition pairs_ok (fuel : nat) : Prop := forall l rb, rb_ok rb -> table_ok l ->
  (2 * Z.to_nat (rb_len rb) + 1 < fuel)%nat ->
  safe (fun '(l', rb') => table_ok l' /\ rb_after 0 rb rb') (unpack_pairs border fuel l rb).

Lemma rb_after_trans n m rb rb1 rb2 : rb_after n rb rb1 -> rb_after m rb1 rb2 -> rb_after (n + m) rb rb2.
Proof. intros [_ H1] [Ho H2]. split; [done | lia]. Qed.

Lemma scalar_typed v : scalar_ok v -> typed v.
Proof. intros Hv. exists 0%nat. by apply wf_scalar. Qed.

Lemma get_buffer_safe rb n : rb_ok rb -> n < 2 ^ 31 ->
  safe (fun '(v, rb') => typed v /\ rb_after 0 rb rb') (get_buffer rb n).
Proof using Type.
  intros Hr Hn. unfold get_buffer. destruct (Z.ltb_spec n 0) as [Hneg|Hpos].
  - by destruct (rb_read rb n) as [[p|] rb'].
  - pose proof (get_bytes_safe rb n Hr Hpos) as H. unfold get_bytes in H.
    destruct (rb_read rb n) as [[p|] rb']; [|done]. eapply safe_bind with (P := fun c => zlen c = n /\ is_bytes c /\ rb_after n rb rb').
    + by destruct (lift _).
    + intros c (Hc & Hb & Ha). cbn. split; [|by eapply rb_after_weaken].
      apply scalar_typed. split; [done | lia].
Qed.

Lemma unpack_table_safe fuel rb size : array_ok fuel -> pairs_ok fuel -> rb_ok rb -> size < 2 ^ 31 ->
  (2 * Z.to_nat (rb_len rb) + 1 < fuel)%nat ->
  safe (fun '(v, rb') => typed v /\ rb_after 0 rb rb')
    (unpack_table border (unpack_array border fuel 1) (unpack_pairs border fuel) rb size).
Proof using border_int.
  intros Ha Hp Hr Hs Hf. unfold unpack_table.
  eapply safe_bind with (P := fun '(n, rb1) => n < 2 ^ 31 /\ rb_after 0 rb rb1).
  { destruct (size =? MAX_COOKIE - 1); [|split; [done|split; [done | lia]]].
    eapply safe_bind; [by apply get_word_safe|]. intros [t rb1] [_ H1].
    destruct (negb _ || _); [done|]. eapply safe_bind; [apply get_integer_safe, H1|]. intros [n rb2] [_ H2].
    cbn. pose proof (s32_bound n). unfold is_s32 in *. split; [lia|].
    eapply rb_after_weaken; [|by eapply rb_after_trans]. lia. }
  intros [n rb1] [Hn H1]. destruct H1 as [Ho1 Hl1].
  eapply safe_bind; [apply Ha; [done | | lia | done | lia]|].
  { split; [by intros i j p q Hi|]. by apply Forall_nil_2. }
  intros [l rb2] [Hl [Ho2 Hl2]]. eapply safe_bind; [apply Hp; [done | done | lia]|].
  intros [l' rb3] [Hl' [Ho3 Hl3]]. cbn. split; [by apply table_typed|]. split; [done | lia].
Qed.

Lemma push_value_safe tb rb type cookie : rb_ok rb -> 0 <= cookie < 2 ^ 31 ->
  safe (fun '(v, rb') => typed v /\ rb_after 0 rb rb') (tb rb cookie) ->
  safe (fun '(v, rb') => typed v /\ rb_after 0 rb rb') (push_value tb rb type cookie).
Proof using Type.
  intros Hr Hc Htb. unfold push_value.
  assert (forall v : value, scalar_ok v -> typed v /\ rb_after 0 rb rb) as Hsame.
  { intros v Hv. split; [by apply scalar_typed|]. split; [done | lia]. }
  destruct (type =? TYPE_NIL); [by apply Hsame|]. destruct (type =? TYPE_BOOLEAN); [by apply Hsame|].
  destruct (type =? TYPE_NUMBER).
  { destruct (cookie =? TYPE_NUMBER_REAL).
    - eapply safe_bind; [by apply get_word_safe|]. intros [n rb'] [Hn Ha]. cbn.
      split; [by apply scalar_typed | by apply (rb_after_weaken 8)].
    - eapply safe_bind; [by apply get_integer_safe|]. intros [n rb'] [Hn Ha]. cbn.
      split; [by apply scalar_typed | done]. }
  destruct (type =? TYPE_USERDATA).
  { eapply safe_bind; [by apply get_word_safe|]. intros [n rb'] [Hn Ha]. cbn.
    split; [by apply scalar_typed | by apply (rb_after_weaken 8)]. }
  destruct (type =? TYPE_SHORT_STRING); [apply get_buffer_safe; [done | lia]|].
  destruct (type =? TYPE_LONG_STRING); [|by destruct (type =? TYPE_TABLE)].
  assert (forall k n rb1, 0 <= k -> n < 2 ^ 31 -> rb_after k rb rb1 ->
    safe (fun '(v, rb') => typed v /\ rb_after 0 rb rb') (get_buffer rb1 n)) as Hbuf.
  { intros k n rb1 Hk Hn H1. pose proof (get_buffer_safe rb1 n (proj1 H1) Hn) as H.
    destruct (get_buffer rb1 n) as [[v rb2]| |]; [|done..]. destruct H as [Hv H2]. split; [done|].
    eapply rb_after_weaken; [|by eapply rb_after_trans]. lia. }
  destruct (cookie =? 2).
  - eapply safe_bind; [by apply get_word_safe|]. intros [n rb1] [Hn H1]. apply (Hbuf 2); [done | lia | done].
  - destruct (negb (cookie =? 4)); [done|]. eapply safe_bind; [by apply get_word_safe|]. intros [n rb1] [_ H1].
    apply (Hbuf 4); [done | apply s32_bound | done].
Qed.

Lemma unpack_ok fuel : one_ok fuel /\ array_ok fuel /\ pairs_ok fuel.
Proof using border_int.
  induction fuel as [|fuel (H1 & Ha & Hp)]; [split_and!; unfold one_ok, array_ok, pairs_ok; intros; lia|]. split; [|split].
  - intros rb Hr Hf. cbn [unpack_one]. eapply safe_bind; [by apply get_word_safe|]. intros [t rb1] [Ht [Ho Hl]].
    cbn in Ht. assert (0 <= Z.shiftr t 3 < 2 ^ 31) as Hc.
    { rewrite Z.shiftr_div_pow2 by lia. change (2 ^ 3) with 8. Z.div_mod_to_equations; lia. }
    assert (0 <= rb_len rb1) as Hpos by apply Ho.
    pose proof (push_value_safe (unpack_table border (unpack_array border fuel 1) (unpack_pairs border fuel)) rb1
      (Z.land t 7) (Z.shiftr t 3) Ho Hc) as Hv.
    match type of Hv with ?A -> _ => assert A as Htb end; [apply unpack_table_safe; (done || lia)|].
    specialize (Hv Htb). destruct (push_value _ rb1 _ _) as [[v rb2]| |]; [|done..].
    destruct Hv as [Hv [Ho2 Hl2]]. split; [done|]. split; [done | lia].
  - intros i n l rb Hr Hl Hi Hn Hf. cbn [unpack_array]. destruct (Z.leb_spec i n); [|split; [done|split; [done | lia]]].
    eapply safe_bind; [apply H1; [done | lia]|]. intros [v rb1] [Hv [Ho1 Hl1]].
    assert (0 <= rb_len rb1) as Hpos by apply Ho1.
    pose proof (Ha (i + 1) n (raw_set l (VInt i) v) rb1 Ho1) as H2.
    match type of H2 with ?A -> _ => assert A as Ht end.
    { apply raw_set_ok; [done | apply scalar_typed; cbn; lia | done | done]. }
    specialize (H2 Ht ltac:(lia) Hn ltac:(lia)). destruct (unpack_array border fuel _ _ _ rb1) as [[l' rb2]| |]; [|done..].
    destruct H2 as [? [? ?]]. split; [done|]. split; [done | lia].
  - intros l rb Hr Hl Hf. cbn [unpack_pairs]. eapply safe_bind; [apply H1; [done | lia]|].
    intros [k rb1] [Hk [Ho1 Hl1]]. assert (0 <= rb_len rb1) as Hpos by apply Ho1.
    destruct (is_nil k) eqn:Ek; [split; [done|split; [done | lia]]|].
    eapply safe_bind; [apply H1; [done | lia]|]. intros [v rb2] [Hv [Ho2 Hl2]].
    assert (0 <= rb_len rb2) as Hpos2 by apply Ho2.
    eapply safe_bind; [by apply lua_rawset_safe|]. intros l1 Hl3.
    pose proof (Hp l1 rb2 Ho2 Hl3 ltac:(lia)) as H2. destruct (unpack_pairs border fuel l1 rb2) as [[l' rb3]| |]; [|done..].
    destruct H2 as [? [? ?]]. split; [done|]. split; [done | lia].
Qed.

Lemma unpack_all_ok f1 fuel : forall rb, rb_ok rb -> (Z.to_nat (rb_len rb) < fuel)%nat ->
  (2 * Z.to_nat (rb_len rb) < f1)%nat -> safe (Forall typed) (unpack_all border fuel f1 rb).
Proof using border_int.
  induction fuel as [|fuel IH]; intros rb Hr Hf Hf1; [lia|]. cbn [unpack_all].
  destruct (rb_read rb 1) as [[p|] ?]; [|by apply Forall_nil_2].
  destruct (unpack_ok f1) as [H1 _]. eapply safe_bind; [by apply H1|]. intros [v rb1] [Hv [Ho Hl]].
  assert (0 <= rb_len rb1) as Hpos by apply Ho.
  eapply safe_bind; [apply IH; [done | lia | lia]|]. intros vs Hvs. by apply Forall_cons.
Qed.

(** C30: the reader is total and its values are well typed.  Whatever the bytes of a string
    are, or those behind a pointer that are at least as many as its length says,
    [luaseri_unpack] ends, without an access outside the buffer, with an error or with
    values that are well formed: integers and strings in their ranges, tables whose keys
    are valid and pairwise different and whose values are not nil. *)
Theorem seri_unpack_typed (a : seri_arg) :
  match a with
  | ANone => True
  | AString s => is_bytes s
  | APointer (Some s) len => is_bytes s /\ s32 len <= zlen s
  | APointer None _ => True
  end ->
  match luaseri_unpack border a with
  | Ok vs => Forall (fun v => exists d, wf d v) vs
  | Err _ => True
  | Ub => False
  end.
Proof using border_int.
  intros Ha. change (safe (Forall typed) (luaseri_unpack border a)). unfold luaseri_unpack.
  assert (match arg_buffer a with (Some s, len) => is_bytes s /\ len <= zlen s | (None, _) => True end) as Hb.
  { destruct a as [|s|[s|] len]; try done. cbn. split; [done|]. pose proof (zlen_nonneg s). unfold s32.
    Z.div_mod_to_equations; lia. }
  destruct (arg_buffer a) as [buffer len]. destruct (Z.eqb_spec len 0); [by apply Forall_nil_2|].
  destruct buffer as [s|]; [|done]. destruct Hb as [Hs Hle]. destruct (Z.ltb_spec len 0) as [Hneg|Hpos].
  - cbn [unpack_all]. unfold rb_read. cbn [rball_init rb_len]. destruct (Z.ltb_spec len 1); [|lia]. by apply Forall_nil_2.
  - apply unpack_all_ok; cbn [rball_init rb_len]; [|lia|lia]. unfold rb_ok. cbn. split_and!; (done || lia).
Qed.
End total.

(** ** Witness *)

(** A table in which the key 1 comes twice and a float key is integral. *)
Lemma seri_unpack_typed_witness :
  exists vs, luaseri_unpack (fun _ => 0) (AString [14; 10; 1; 10; 1; 9; 66; 0; 0; 0; 0; 0; 0; 240; 63; 1; 0]) = Ok vs /\
    Forall (fun v => exists d, wf d v) vs.
Proof.
  pose proof (seri_unpack_typed (fun _ => 0) ltac:(lia)
    (AString [14; 10; 1; 10; 1; 9; 66; 0; 0; 0; 0; 0; 0; 240; 63; 1; 0])) as H.
  match type of H with ?A -> _ => assert A as Hb end; [apply (bool_decide_unpack _); vm_compute; exact I|].
  specialize (H Hb).
  assert (exists vs, luaseri_unpack (fun _ => 0) (AString [14; 10; 1; 10; 1; 9; 66; 0; 0; 0; 0; 0; 0; 240; 63; 1; 0]) =
    Ok vs) as [vs E] by (eexists; vm_compute; reflexivity).
  rewrite E in H. exists vs. exact (conj E H).
Defined.
