(* ===== verification/SocketServer.v ===== *)
(** core/socket_server.c: the socket thread and the operations of the other threads on it.

    The socket thread owns the slots; the other threads reserve ids, write to a socket
    directly while it has nothing to send, and put requests into the control pipe, which
    the socket thread takes out in order.  Each operation of a thread is one function.

    The kernel is a set of functions of the calls made so far ([sys]), so that its answers
    may depend on everything and change from call to call; a call that a signal interrupts
    and the code repeats counts once.  A buffer that is sent is a block of the heap, at the
    address of its bytes; for a user object ([sz < 0]) that is what [soi.buffer] gives.
    [None] is a failed assertion or an access to a block that is not there.

    Not modelled: the creation of sockets by name ([getaddrinfo], [do_bind]) is one answer
    of the kernel; texts of errors and addresses; socket options; the nodes of the write lists
    as blocks of the heap. *)
From S2P Require Import Prelude Bytes.

Definition MAX_SOCKET : Z := 65536.
Definition MIN_READ_BUFFER : Z := 64.
Definition WARNING_SIZE : Z := 1024 * 1024.
Definition UDP_ADDRESS_SIZE : Z := 19.
Definition PROTOCOL_TCP : Z := 0.
Definition PROTOCOL_UDP : Z := 1.
Definition PROTOCOL_UDPv6 : Z := 2.
Definition HASH_ID (id : Z) : Z := u32 id mod MAX_SOCKET.

Inductive sock_type :=
| SOCKET_TYPE_INVALID | SOCKET_TYPE_RESERVE | SOCKET_TYPE_PLISTEN | SOCKET_TYPE_LISTEN
| SOCKET_TYPE_CONNECTING | SOCKET_TYPE_CONNECTED | SOCKET_TYPE_HALFCLOSE
| SOCKET_TYPE_PACCEPT | SOCKET_TYPE_BIND.

#[export] Instance sock_type_eq_dec : EqDecision sock_type.
Proof. solve_decision. Defined.

Definition is_type (t t' : sock_type) : bool := bool_decide (t = t').

Inductive msg_type :=
| SOCKET_DATA | SOCKET_CLOSE | SOCKET_OPEN | SOCKET_ACCEPT | SOCKET_ERR | SOCKET_EXIT
| SOCKET_UDP | SOCKET_WARNING.

#[export] Instance msg_type_eq_dec : EqDecision msg_type.
Proof. solve_decision. Defined.

(** [struct write_buffer]; a buffer of [SIZEOF_TCPBUFFER] has no [udp_address]. *)
Record write_buffer := WriteBuffer {
  w_buffer : Z;
  w_ptr : Z;
  w_sz : Z;
  w_userobject : bool;
  w_udp_address : option (list Z)
}.

(** [struct socket]; a [wb_list] is a list, NULL is 0. *)
Record socket := Socket {
  s_opaque : Z;
  s_high : list write_buffer;
  s_low : list write_buffer;
  s_wb_size : Z;
  s_fd : Z;
  s_id : Z;
  s_protocol : Z;
  s_type : sock_type;
  s_udpconnecting : Z;
  s_warn_size : Z;
  s_size : Z;                       (* p.size *)
  s_udp_address : list Z;           (* p.udp_address *)
  s_dw_offset : Z;
  s_dw_buffer : Z;
  s_dw_size : Z
}.

(** The requests in the pipe. *)
Inductive request :=
| request_start (id opaque : Z)
| request_bind (id fd opaque : Z)
| request_listen (id fd opaque : Z)
| request_close (id shutdown opaque : Z)
| request_open (id port opaque : Z) (host : list Z)
| request_exit
| request_send (id sz buffer : Z) (low : bool)
| request_send_udp (id sz buffer : Z) (address : list Z)
| request_setudp (id : Z) (address : list Z)
| request_setopt (id what value : Z)
| request_udp (id fd opaque : Z) (v6 : bool).

(** The calls of the kernel, with the bytes it took. *)
Inductive sys :=
| sys_write (fd : Z) (bytes : list Z)
| sys_sendto (fd : Z) (bytes address : list Z)
| sys_read (fd : Z)
| sys_close (fd : Z)
| sys_add (fd : Z)
| sys_del (fd : Z)
| sys_enable (fd : Z) (write : bool)
| sys_accept (fd : Z)
| sys_connect (host : list Z) (port : Z)
| sys_error (fd : Z).

Record poll_event := Event { e_slot : option Z; e_read : bool; e_write : bool; e_error : bool }.

Record socket_server := SocketServer {
  ss_alloc_id : Z;
  ss_slot : gmap Z socket;          (* a slot that is not there was never used *)
  ss_pipe : list request;
  ss_checkctrl : bool;
  ss_ev : list poll_event;               (* the events from [event_index] on *)
  ss_heap : gmap Z (list Z);
  ss_sys : list sys
}.

Record socket_message := SocketMessage { m_id : Z; m_opaque : Z; m_ud : Z; m_data : option (list Z) }.

(** ** Access to the state *)
Definition set_slots (m : gmap Z socket) (ss : socket_server) : socket_server :=
  SocketServer (ss_alloc_id ss) m (ss_pipe ss) (ss_checkctrl ss) (ss_ev ss) (ss_heap ss) (ss_sys ss).
Definition set_alloc (a : Z) (ss : socket_server) : socket_server :=
  SocketServer a (ss_slot ss) (ss_pipe ss) (ss_checkctrl ss) (ss_ev ss) (ss_heap ss) (ss_sys ss).
Definition set_pipe (p : list request) (ss : socket_server) : socket_server :=
  SocketServer (ss_alloc_id ss) (ss_slot ss) p (ss_checkctrl ss) (ss_ev ss) (ss_heap ss) (ss_sys ss).
Definition set_check (b : bool) (ss : socket_server) : socket_server :=
  SocketServer (ss_alloc_id ss) (ss_slot ss) (ss_pipe ss) b (ss_ev ss) (ss_heap ss) (ss_sys ss).
Definition set_ev (l : list poll_event) (ss : socket_server) : socket_server :=
  SocketServer (ss_alloc_id ss) (ss_slot ss) (ss_pipe ss) (ss_checkctrl ss) l (ss_heap ss) (ss_sys ss).
Definition set_heap (h : gmap Z (list Z)) (ss : socket_server) : socket_server :=
  SocketServer (ss_alloc_id ss) (ss_slot ss) (ss_pipe ss) (ss_checkctrl ss) (ss_ev ss) h (ss_sys ss).
Definition call (c : sys) (ss : socket_server) : socket_server :=
  SocketServer (ss_alloc_id ss) (ss_slot ss) (ss_pipe ss) (ss_checkctrl ss) (ss_ev ss) (ss_heap ss)
    (ss_sys ss ++ [c]).

(** A slot as [socket_server_create] leaves it; the other fields are not initialised. *)
Definition empty_socket : socket :=
  Socket 0 [] [] 0 0 (-1) 0 SOCKET_TYPE_INVALID 0 0 0 [] 0 0 0.
Definition slot (ss : socket_server) (i : Z) : socket := default empty_socket (ss_slot ss !! i).
Definition put (i : Z) (s : socket) (ss : socket_server) : socket_server :=
  set_slots (<[i := s]> (ss_slot ss)) ss.

Definition set_type (t : sock_type) (s : socket) : socket :=
  Socket (s_opaque s) (s_high s) (s_low s) (s_wb_size s) (s_fd s) (s_id s) (s_protocol s) t (s_udpconnecting s)
    (s_warn_size s) (s_size s) (s_udp_address s) (s_dw_offset s) (s_dw_buffer s) (s_dw_size s).
Definition set_opaque (o : Z) (s : socket) : socket :=
  Socket o (s_high s) (s_low s) (s_wb_size s) (s_fd s) (s_id s) (s_protocol s) (s_type s) (s_udpconnecting s)
    (s_warn_size s) (s_size s) (s_udp_address s) (s_dw_offset s) (s_dw_buffer s) (s_dw_size s).
Definition set_lists (high low : list write_buffer) (wb_size : Z) (s : socket) : socket :=
  Socket (s_opaque s) high low wb_size (s_fd s) (s_id s) (s_protocol s) (s_type s) (s_udpconnecting s)
    (s_warn_size s) (s_size s) (s_udp_address s) (s_dw_offset s) (s_dw_buffer s) (s_dw_size s).
Definition set_warn (w : Z) (s : socket) : socket :=
  Socket (s_opaque s) (s_high s) (s_low s) (s_wb_size s) (s_fd s) (s_id s) (s_protocol s) (s_type s) (s_udpconnecting s)
    w (s_size s) (s_udp_address s) (s_dw_offset s) (s_dw_buffer s) (s_dw_size s).
Definition set_size (z : Z) (s : socket) : socket :=
  Socket (s_opaque s) (s_high s) (s_low s) (s_wb_size s) (s_fd s) (s_id s) (s_protocol s) (s_type s) (s_udpconnecting s)
    (s_warn_size s) z (s_udp_address s) (s_dw_offset s) (s_dw_buffer s) (s_dw_size s).
Definition set_udp (c : Z) (a : list Z) (s : socket) : socket :=
  Socket (s_opaque s) (s_high s) (s_low s) (s_wb_size s) (s_fd s) (s_id s) (s_protocol s) (s_type s) c
    (s_warn_size s) (s_size s) a (s_dw_offset s) (s_dw_buffer s) (s_dw_size s).
Definition set_dw (off buffer sz : Z) (s : socket) : socket :=
  Socket (s_opaque s) (s_high s) (s_low s) (s_wb_size s) (s_fd s) (s_id s) (s_protocol s) (s_type s) (s_udpconnecting s)
    (s_warn_size s) (s_size s) (s_udp_address s) off buffer sz.

(** ** The kernel *)
Inductive io := IoOk (n : Z) | IoAgain | IoError.
Inductive connect_result := ConnectFailed | Connected (fd : Z) | ConnectInProgress (fd : Z).
Inductive accept_result := Accepted (fd : Z) | AcceptLimit | AcceptFailed.

Record kernel := Kernel {
  k_write : list sys -> Z -> list Z -> io;                 (* without EINTR *)
  k_sendto : list sys -> Z -> list Z -> list Z -> io;
  k_read : list sys -> Z -> Z -> io * list Z;
  k_recvfrom : list sys -> Z -> io * list Z * list Z;      (* the data and the address, type first *)
  k_add : list sys -> Z -> bool;                           (* sp_add: true is a failure *)
  k_connect : list sys -> list Z -> Z -> connect_result;
  k_accept : list sys -> Z -> accept_result;
  k_sock_error : list sys -> Z -> bool                     (* getsockopt(SO_ERROR) *)
}.

Section socket_server.
Variable K : kernel.
(** [soi.buffer] and [soi.size]; [soi.free] frees the block of the buffer. *)
Variable soi_buffer : Z -> Z.
Variable soi_size : Z -> Z.

(** ** Send objects *)

(** [send_object_init]: buffer, size and whether it is a user object. *)
Definition send_object_init (object sz : Z) : Z * Z * bool :=
  if sz <? 0 then (soi_buffer object, soi_size object, true) else (object, sz, false).

Definition free_block (p : Z) (ss : socket_server) : option socket_server :=
  if p =? 0 then Some ss
  else _ ← ss_heap ss !! p; Some (set_heap (delete p (ss_heap ss)) ss).

(** [so.free_func(object)]. *)
Definition free_func (user : bool) (object : Z) (ss : socket_server) : option socket_server :=
  free_block (if user then soi_buffer object else object) ss.

Definition free_buffer (object sz : Z) (ss : socket_server) : option socket_server :=
  free_func (sz <? 0) object ss.

Definition write_buffer_free (w : write_buffer) (ss : socket_server) : option socket_server :=
  free_func (w_userobject w) (w_buffer w) ss.

(** The bytes from [ptr] on of the block at [base]. *)
Definition load (base ptr sz : Z) (ss : socket_server) : option (list Z) :=
  b ← ss_heap ss !! base; slice b (ptr - base) sz.

Definition w_base (w : write_buffer) : Z := if w_userobject w then soi_buffer (w_buffer w) else w_buffer w.

Definition w_bytes (w : write_buffer) (ss : socket_server) : option (list Z) :=
  load (w_base w) (w_ptr w) (w_sz w) ss.

(** ** Slots *)

(** The loop of [reserve_id], with [n] turns left; the compare-and-swap succeeds. *)
Fixpoint reserve_loop (n : nat) (ss : socket_server) : Z * socket_server :=
  match n with
  | O => (-1, ss)
  | S n =>
      let id := s32 (ss_alloc_id ss + 1) in
      let id := if id <? 0 then Z.land (u32 id) 0x7fffffff else id in
      let ss := set_alloc id ss in
      let s := slot ss (HASH_ID id) in
      if is_type (s_type s) SOCKET_TYPE_INVALID then
        (id, put (HASH_ID id)
           (Socket (s_opaque s) (s_high s) (s_low s) (s_wb_size s) (-1) id (s_protocol s) SOCKET_TYPE_RESERVE 0
              (s_warn_size s) (s_size s) (s_udp_address s) (s_dw_offset s) (s_dw_buffer s) (s_dw_size s)) ss)
      else reserve_loop n ss
  end.

Definition reserve_id (ss : socket_server) : Z * socket_server := reserve_loop (Z.to_nat MAX_SOCKET) ss.

(** [socket_server_create]. *)
Definition socket_server_create : socket_server := SocketServer 0 ∅ [] true [] ∅ [].

Fixpoint free_wb_list (l : list write_buffer) (ss : socket_server) : option socket_server :=
  match l with
  | [] => Some ss
  | w :: l => ss ← write_buffer_free w ss; free_wb_list l ss
  end.

Definition polled (t : sock_type) : bool :=
  negb (is_type t SOCKET_TYPE_PACCEPT) && negb (is_type t SOCKET_TYPE_PLISTEN).

(** [force_close] of slot [i]. *)
Definition force_close (i : Z) (ss : socket_server) : option (socket_message * socket_server) :=
  let s := slot ss i in
  let result := SocketMessage (s_id s) (s_opaque s) 0 None in
  if is_type (s_type s) SOCKET_TYPE_INVALID then Some (result, ss)
  else
    _ ← cassert (negb (is_type (s_type s) SOCKET_TYPE_RESERVE));
    ss ← free_wb_list (s_high s) ss;
    ss ← free_wb_list (s_low s) ss;
    let ss := if polled (s_type s) then call (sys_del (s_fd s)) ss else ss in
    let ss := if negb (is_type (s_type s) SOCKET_TYPE_BIND) then call (sys_close (s_fd s)) ss else ss in
    ss ← (if negb (s_dw_buffer s =? 0) then free_buffer (s_dw_buffer s) (s_dw_size s) ss else Some ss);
    Some (result, put i (set_dw (s_dw_offset s) 0 (s_dw_size s)
                           (set_type SOCKET_TYPE_INVALID (set_lists [] [] (s_wb_size s) s))) ss).

(** The loop of [socket_server_release] over the slots from [i] on. *)
Fixpoint release_slots (n : nat) (i : Z) (ss : socket_server) : option socket_server :=
  match n with
  | O => Some ss
  | S n =>
      ss ← (if negb (is_type (s_type (slot ss i)) SOCKET_TYPE_RESERVE)
            then '(_, ss) ← force_close i ss; Some ss else Some ss);
      release_slots n (i + 1) ss
  end.

Definition socket_server_release (ss : socket_server) : option socket_server :=
  release_slots (Z.to_nat MAX_SOCKET) 0 ss.

(** [new_fd]: [None] in the result for a failure of [sp_add]. *)
Definition new_fd (id fd protocol opaque : Z) (add : bool) (ss : socket_server)
    : option (option socket * socket_server) :=
  let i := HASH_ID id in
  let s := slot ss i in
  _ ← cassert (is_type (s_type s) SOCKET_TYPE_RESERVE);
  if add && k_add K (ss_sys ss) fd then
    Some (None, put i (set_type SOCKET_TYPE_INVALID s) (call (sys_add fd) ss))
  else
    let ss := if add then call (sys_add fd) ss else ss in
    _ ← cassert (bool_decide (s_high s = []) && bool_decide (s_low s = []));
    let s := Socket opaque [] [] 0 fd id protocol (s_type s) (s_udpconnecting s) 0 MIN_READ_BUFFER
               (s_udp_address s) (s_dw_offset s) 0 0 in
    Some (Some s, put i s ss).

(** ** Sending *)

(** [send_list_tcp] on a list: whether the connection failed, the rest of the list, and
    the bytes written. *)
Fixpoint send_list_tcp (fd : Z) (l : list write_buffer) (ss : socket_server)
    : option (bool * list write_buffer * Z * socket_server) :=
  match l with
  | [] => Some (false, [], 0, ss)
  | tmp :: l' =>
      bytes ← w_bytes tmp ss;
      match k_write K (ss_sys ss) fd bytes with
      | IoAgain => Some (false, l, 0, call (sys_write fd []) ss)
      | IoError => Some (true, l, 0, call (sys_write fd []) ss)
      | IoOk sz =>
          let ss := call (sys_write fd (take (Z.to_nat sz) bytes)) ss in
          if negb (sz =? w_sz tmp) then
            Some (false, WriteBuffer (w_buffer tmp) (w_ptr tmp + sz) (w_sz tmp - sz) (w_userobject tmp)
                           (w_udp_address tmp) :: l', sz, ss)
          else
            ss ← write_buffer_free tmp ss;
            '(r, l', n, ss) ← send_list_tcp fd l' ss;
            Some (r, l', sz + n, ss)
      end
  end.

(** [udp_socket_address]: the address, [None] if its type is not the socket's. *)
Definition udp_socket_address (s : socket) (udp_address : list Z) : option (option (list Z)) :=
  type ← udp_address.[0];
  if negb (type =? s_protocol s) then Some None
  else if s_protocol s =? PROTOCOL_UDP then a ← slice udp_address 0 7; Some (Some a)
  else if s_protocol s =? PROTOCOL_UDPv6 then a ← slice udp_address 0 19; Some (Some a)
  else Some None.

(** [send_list_udp]; reading the address of a buffer that has none is an access behind the
    block. *)
Fixpoint send_list_udp (s : socket) (l : list write_buffer) (ss : socket_server)
    : option (list write_buffer * Z * socket_server) :=
  match l with
  | [] => Some ([], 0, ss)
  | tmp :: l' =>
      address ← w_udp_address tmp;
      sa ← udp_socket_address s address;
      bytes ← w_bytes tmp ss;
      match k_sendto K (ss_sys ss) (s_fd s) bytes (default [] sa) with
      | IoAgain | IoError => Some (l, 0, call (sys_sendto (s_fd s) [] (default [] sa)) ss)
      | IoOk _ =>
          ss ← write_buffer_free tmp (call (sys_sendto (s_fd s) bytes (default [] sa)) ss);
          '(l', n, ss) ← send_list_udp s l' ss;
          Some (l', w_sz tmp + n, ss)
      end
  end.

(** [send_list]. *)
Definition send_list (s : socket) (l : list write_buffer) (ss : socket_server)
    : option (bool * list write_buffer * Z * socket_server) :=
  if s_protocol s =? PROTOCOL_TCP then send_list_tcp (s_fd s) l ss
  else '(l, n, ss) ← send_list_udp s l ss; Some (false, l, n, ss).

Definition list_uncomplete (l : list write_buffer) : bool :=
  match l with [] => false | wb :: _ => negb (w_ptr wb =? w_buffer wb) end.

Definition send_buffer_empty (s : socket) : bool :=
  bool_decide (s_high s = []) && bool_decide (s_low s = []).

(** [raise_uncomplete]. *)
Definition raise_uncomplete (s : socket) : option socket :=
  match s_low s with
  | [] => None
  | tmp :: low => _ ← cassert (bool_decide (s_high s = [])); Some (set_lists [tmp] low (s_wb_size s) s)
  end.

(** Steps 2 to 4 of [send_buffer_]: the high list of slot [i] is empty. *)
Definition send_buffer_low (i : Z) (ss : socket_server)
    : option (option (msg_type * socket_message) * socket_server) :=
  let s := slot ss i in
  '(failed, low, n, ss) ← (if bool_decide (s_low s = []) then Some (false, [], 0, ss) else send_list s (s_low s) ss);
  let s := set_lists (s_high s) low (s_wb_size s - n) s in
  let ss := put i s ss in
  if failed : bool then '(m, ss) ← force_close i ss; Some (Some (SOCKET_CLOSE, m), ss)
  else if list_uncomplete low then s ← raise_uncomplete s; Some (None, put i s ss)
  else
    _ ← cassert (send_buffer_empty s && (s_wb_size s =? 0));
    let ss := call (sys_enable (s_fd s) false) ss in
    if is_type (s_type s) SOCKET_TYPE_HALFCLOSE then
      '(m, ss) ← force_close i ss; Some (Some (SOCKET_CLOSE, m), ss)
    else if 0 <? s_warn_size s then
      Some (Some (SOCKET_WARNING, SocketMessage (s_id s) (s_opaque s) 0 None), put i (set_warn 0 s) ss)
    else Some (None, ss).

(** [send_buffer_] of slot [i]. *)
Definition send_buffer_ (i : Z) (ss : socket_server)
    : option (option (msg_type * socket_message) * socket_server) :=
  let s := slot ss i in
  _ ← cassert (negb (list_uncomplete (s_low s)));
  '(failed, high, n, ss) ← send_list s (s_high s) ss;
  let ss := put i (set_lists high (s_low s) (s_wb_size s - n) s) ss in
  if failed : bool then '(m, ss) ← force_close i ss; Some (Some (SOCKET_CLOSE, m), ss)
  else if negb (bool_decide (high = [])) then Some (None, ss)
  else send_buffer_low i ss.

(** [send_buffer]; [busy]: another thread holds the lock.  The direct write buffer gets
    [SIZEOF_TCPBUFFER]. *)
Definition send_buffer (busy : bool) (i : Z) (ss : socket_server)
    : option (option (msg_type * socket_message) * socket_server) :=
  if busy then Some (None, ss)
  else
    let s := slot ss i in
    let ss :=
      if negb (s_dw_buffer s =? 0) then
        let '(buffer, sz, user) := send_object_init (s_dw_buffer s) (s_dw_size s) in
        let buf := WriteBuffer (s_dw_buffer s) (buffer + s_dw_offset s) (sz - s_dw_offset s) user None in
        put i (set_dw (s_dw_offset s) 0 (s_dw_size s)
                 (set_lists (buf :: s_high s) (s_low s) (s_wb_size s + w_sz buf) s)) ss
      else ss in
    send_buffer_ i ss.

(** [append_sendbuffer_]: the buffer of a request. *)
Definition new_buffer (buffer sz : Z) (address : option (list Z)) : write_buffer :=
  let '(b, n, user) := send_object_init buffer sz in WriteBuffer buffer b n user address.

Definition append_sendbuffer (buf : write_buffer) (low : bool) (s : socket) : socket :=
  if low then set_lists (s_high s) (s_low s ++ [buf]) (s_wb_size s + w_sz buf) s
  else set_lists (s_high s ++ [buf]) (s_low s) (s_wb_size s + w_sz buf) s.

(** The end of [send_socket]: the warning about much unsent data. *)
Definition check_warning (i : Z) (ss : socket_server) : option (msg_type * socket_message) * socket_server :=
  let s := slot ss i in
  if (WARNING_SIZE <=? s_wb_size s) && (s_warn_size s <=? s_wb_size s) then
    (Some (SOCKET_WARNING, SocketMessage (s_id s) (s_opaque s)
        (if Z.rem (s_wb_size s) 1024 =? 0 then Z.quot (s_wb_size s) 1024 else Z.quot (s_wb_size s) 1024 + 1) None),
     put i (set_warn (if s_warn_size s =? 0 then WARNING_SIZE * 2 else s_warn_size s * 2) s) ss)
  else (None, ss).

(** [send_socket]. *)
Definition send_socket (id sz buffer : Z) (low : bool) (udp_address : option (list Z)) (ss : socket_server)
    : option (option (msg_type * socket_message) * socket_server) :=
  let i := HASH_ID id in
  let s := slot ss i in
  let '(data, n, user) := send_object_init buffer sz in
  if is_type (s_type s) SOCKET_TYPE_INVALID || negb (s_id s =? id) || is_type (s_type s) SOCKET_TYPE_HALFCLOSE
     || is_type (s_type s) SOCKET_TYPE_PACCEPT || is_type (s_type s) SOCKET_TYPE_PLISTEN
     || is_type (s_type s) SOCKET_TYPE_LISTEN
  then ss ← free_func user buffer ss; Some (None, ss)
  else if send_buffer_empty s && is_type (s_type s) SOCKET_TYPE_CONNECTED then
    if s_protocol s =? PROTOCOL_TCP then
      Some (check_warning i (call (sys_enable (s_fd s) true)
              (put i (append_sendbuffer (new_buffer buffer sz None) false s) ss)))
    else
      let address := default (s_udp_address s) udp_address in
      sa ← udp_socket_address s address;
      bytes ← load data data n ss;
      let r := k_sendto K (ss_sys ss) (s_fd s) bytes (default [] sa) in
      match r with
      | IoOk m =>
          if m =? n then
            ss ← free_func user buffer (call (sys_sendto (s_fd s) bytes (default [] sa)) ss); Some (None, ss)
          else
            Some (check_warning i (call (sys_enable (s_fd s) true)
              (put i (append_sendbuffer (new_buffer buffer sz (Some address)) low s)
                 (call (sys_sendto (s_fd s) bytes (default [] sa)) ss))))
      | _ =>
          Some (check_warning i (call (sys_enable (s_fd s) true)
            (put i (append_sendbuffer (new_buffer buffer sz (Some address)) low s)
               (call (sys_sendto (s_fd s) [] (default [] sa)) ss))))
      end
  else if s_protocol s =? PROTOCOL_TCP then
    Some (check_warning i (put i (append_sendbuffer (new_buffer buffer sz None) low s) ss))
  else
    Some (check_warning i (put i (append_sendbuffer
            (new_buffer buffer sz (Some (default (s_udp_address s) udp_address))) low s) ss)).

(** ** The requests *)
Definition failure (id opaque : Z) : msg_type * socket_message := (SOCKET_ERR, SocketMessage id opaque 0 None).

(** [open_socket]. *)
Definition open_socket (id port opaque : Z) (host : list Z) (ss : socket_server)
    : option (option (msg_type * socket_message) * socket_server) :=
  let i := HASH_ID id in
  let r := k_connect K (ss_sys ss) host port in
  let ss := call (sys_connect host port) ss in
  let failed ss := (Some (failure id opaque), put i (set_type SOCKET_TYPE_INVALID (slot ss i)) ss) in
  match r with
  | ConnectFailed => Some (failed ss)
  | Connected sock =>
      '(ns, ss) ← new_fd id sock PROTOCOL_TCP opaque true ss;
      match ns with
      | None => Some (failed (call (sys_close sock) ss))
      | Some ns => Some (Some (SOCKET_OPEN, SocketMessage id opaque 0 None), put i (set_type SOCKET_TYPE_CONNECTED ns) ss)
      end
  | ConnectInProgress sock =>
      '(ns, ss) ← new_fd id sock PROTOCOL_TCP opaque true ss;
      match ns with
      | None => Some (failed (call (sys_close sock) ss))
      | Some ns =>
          Some (None, call (sys_enable (s_fd ns) true) (put i (set_type SOCKET_TYPE_CONNECTING ns) ss))
      end
  end.

(** [listen_socket]; without [sp_add], [new_fd] does not fail. *)
Definition listen_socket (id fd opaque : Z) (ss : socket_server)
    : option (option (msg_type * socket_message) * socket_server) :=
  let i := HASH_ID id in
  '(s, ss) ← new_fd id fd PROTOCOL_TCP opaque false ss;
  match s with
  | None =>
      let ss := call (sys_close fd) ss in
      Some (Some (failure id opaque), put i (set_type SOCKET_TYPE_INVALID (slot ss i)) ss)
  | Some s => Some (None, put i (set_type SOCKET_TYPE_PLISTEN s) ss)
  end.

(** [close_socket]. *)
Definition close_socket (busy : bool) (id shutdown opaque : Z) (ss : socket_server)
    : option (option (msg_type * socket_message) * socket_server) :=
  let i := HASH_ID id in
  let s := slot ss i in
  if is_type (s_type s) SOCKET_TYPE_INVALID || negb (s_id s =? id) then
    Some (Some (SOCKET_CLOSE, SocketMessage id opaque 0 None), ss)
  else
    '(r, ss) ← (if negb (send_buffer_empty s) then send_buffer busy i ss else Some (None, ss));
    let closed := match r with
                  | Some (SOCKET_WARNING, _) | None => None
                  | Some r => Some r
                  end in
    match closed with
    | Some r => Some (Some r, ss)
    | None =>
        if negb (shutdown =? 0) || send_buffer_empty (slot ss i) then
          '(m, ss) ← force_close i ss;
          Some (Some (SOCKET_CLOSE, SocketMessage id opaque (m_ud m) (m_data m)), ss)
        else Some (None, put i (set_type SOCKET_TYPE_HALFCLOSE (slot ss i)) ss)
    end.

(** [bind_socket]. *)
Definition bind_socket (id fd opaque : Z) (ss : socket_server)
    : option (option (msg_type * socket_message) * socket_server) :=
  '(s, ss) ← new_fd id fd PROTOCOL_TCP opaque true ss;
  match s with
  | None => Some (Some (failure id opaque), ss)
  | Some s =>
      Some (Some (SOCKET_OPEN, SocketMessage id opaque 0 None), put (HASH_ID id) (set_type SOCKET_TYPE_BIND s) ss)
  end.

(** [start_socket]. *)
Definition start_socket (id opaque : Z) (ss : socket_server)
    : option (option (msg_type * socket_message) * socket_server) :=
  let i := HASH_ID id in
  let s := slot ss i in
  if is_type (s_type s) SOCKET_TYPE_INVALID || negb (s_id s =? id) then Some (Some (failure id opaque), ss)
  else if negb (polled (s_type s)) then
    let failed := k_add K (ss_sys ss) (s_fd s) in
    let ss := call (sys_add (s_fd s)) ss in
    if failed then '(m, ss) ← force_close i ss; Some (Some (SOCKET_ERR, m), ss)
    else
      let t := if is_type (s_type s) SOCKET_TYPE_PACCEPT then SOCKET_TYPE_CONNECTED else SOCKET_TYPE_LISTEN in
      Some (Some (SOCKET_OPEN, SocketMessage id opaque 0 None), put i (set_opaque opaque (set_type t s)) ss)
  else if is_type (s_type s) SOCKET_TYPE_CONNECTED then
    Some (Some (SOCKET_OPEN, SocketMessage id opaque 0 None), put i (set_opaque opaque s) ss)
  else Some (None, ss).

(** [add_udp_socket]. *)
Definition add_udp_socket (id fd opaque : Z) (v6 : bool) (ss : socket_server) : option socket_server :=
  let i := HASH_ID id in
  '(ns, ss) ← new_fd id fd (if v6 then PROTOCOL_UDPv6 else PROTOCOL_UDP) opaque true ss;
  match ns with
  | None => let ss := call (sys_close fd) ss in Some (put i (set_type SOCKET_TYPE_INVALID (slot ss i)) ss)
  | Some ns =>
      Some (put i (set_udp (s_udpconnecting ns) (replicate (Z.to_nat UDP_ADDRESS_SIZE) 0)
                     (set_type SOCKET_TYPE_CONNECTED ns)) ss)
  end.

(** [set_udp_address]. *)
Definition set_udp_address (id : Z) (address : list Z) (ss : socket_server)
    : option (option (msg_type * socket_message) * socket_server) :=
  let i := HASH_ID id in
  let s := slot ss i in
  if is_type (s_type s) SOCKET_TYPE_INVALID || negb (s_id s =? id) then Some (None, ss)
  else
    type ← address.[0];
    if negb (type =? s_protocol s) then Some (Some (failure (s_id s) (s_opaque s)), ss)
    else
      a ← slice address 0 (if type =? PROTOCOL_UDP then 7 else 19);
      a ← memcpy (s_udp_address s) 0 a;
      Some (None, put i (set_udp (u16 (s_udpconnecting s - 1)) a s) ss).

(** [ctrl_cmd]: the next request of the pipe. *)
Definition ctrl_cmd (busy : bool) (ss : socket_server)
    : option (option (msg_type * socket_message) * socket_server) :=
  match ss_pipe ss with
  | [] => None
  | r :: pipe =>
      let ss := set_pipe pipe ss in
      match r with
      | request_start id opaque => start_socket id opaque ss
      | request_bind id fd opaque => bind_socket id fd opaque ss
      | request_listen id fd opaque => listen_socket id fd opaque ss
      | request_close id shutdown opaque => close_socket busy id shutdown opaque ss
      | request_open id port opaque host => open_socket id port opaque host ss
      | request_exit => Some (Some (SOCKET_EXIT, SocketMessage 0 0 0 None), ss)
      | request_send id sz buffer low => send_socket id sz buffer low None ss
      | request_send_udp id sz buffer address => send_socket id sz buffer false (Some address) ss
      | request_setudp id address => set_udp_address id address ss
      | request_setopt _ _ _ => Some (None, ss)
      | request_udp id fd opaque v6 => ss ← add_udp_socket id fd opaque v6 ss; Some (None, ss)
      end
  end.

(** ** Events *)

(** [forward_message_tcp]; the data goes to the receiver of the message. *)
Definition forward_message_tcp (i : Z) (ss : socket_server)
    : option (option (msg_type * socket_message) * socket_server) :=
  let s := slot ss i in
  let sz := s_size s in
  let '(r, buffer) := k_read K (ss_sys ss) (s_fd s) sz in
  let ss := call (sys_read (s_fd s)) ss in
  match r with
  | IoAgain => Some (None, ss)
  | IoError => '(m, ss) ← force_close i ss; Some (Some (SOCKET_ERR, m), ss)
  | IoOk n =>
      if n =? 0 then '(m, ss) ← force_close i ss; Some (Some (SOCKET_CLOSE, m), ss)
      else if is_type (s_type s) SOCKET_TYPE_HALFCLOSE then Some (None, ss)
      else
        let size := if n =? sz then s32 (sz * 2)
                    else if (MIN_READ_BUFFER <? sz) && (n * 2 <? sz) then Z.quot sz 2 else sz in
        Some (Some (SOCKET_DATA, SocketMessage (s_id s) (s_opaque s) n (Some buffer)), put i (set_size size s) ss)
  end.

(** [gen_udp_address] is part of the kernel's address: type, port and address. *)
Definition forward_message_udp (i : Z) (ss : socket_server)
    : option (option (msg_type * socket_message) * socket_server) :=
  let s := slot ss i in
  let '(r, data, address) := k_recvfrom K (ss_sys ss) (s_fd s) in
  let ss := call (sys_read (s_fd s)) ss in
  match r with
  | IoAgain => Some (None, ss)
  | IoError => '(m, ss) ← force_close i ss; Some (Some (SOCKET_ERR, m), ss)
  | IoOk n =>
      type ← address.[0];
      if negb (s_protocol s =? type) then Some (None, ss)
      else Some (Some (SOCKET_UDP, SocketMessage (s_id s) (s_opaque s) n (Some (data ++ address))), ss)
  end.

(** [report_connect]. *)
Definition report_connect (i : Z) (ss : socket_server)
    : option (option (msg_type * socket_message) * socket_server) :=
  let s := slot ss i in
  let error := k_sock_error K (ss_sys ss) (s_fd s) in
  let ss := call (sys_error (s_fd s)) ss in
  if error then '(m, ss) ← force_close i ss; Some (Some (SOCKET_ERR, m), ss)
  else
    let ss := put i (set_type SOCKET_TYPE_CONNECTED s) ss in
    let ss := if send_buffer_empty s then call (sys_enable (s_fd s) false) ss else ss in
    Some (Some (SOCKET_OPEN, SocketMessage (s_id s) (s_opaque s) 0 None), ss).

(** [report_accept] with what [socket_server_poll] makes of its result: [None] to go on. *)
Definition report_accept (i : Z) (ss : socket_server)
    : option (option (msg_type * socket_message) * socket_server) :=
  let s := slot ss i in
  let r := k_accept K (ss_sys ss) (s_fd s) in
  let ss := call (sys_accept (s_fd s)) ss in
  match r with
  | AcceptLimit => Some (Some (failure (s_id s) (s_opaque s)), ss)
  | AcceptFailed => Some (None, ss)
  | Accepted client_fd =>
      let '(id, ss) := reserve_id ss in
      if id <? 0 then Some (None, call (sys_close client_fd) ss)
      else
        '(ns, ss) ← new_fd id client_fd PROTOCOL_TCP (s_opaque s) false ss;
        match ns with
        | None => Some (None, call (sys_close client_fd) ss)
        | Some ns =>
            Some (Some (SOCKET_ACCEPT, SocketMessage (s_id s) (s_opaque s) id None),
                  put (HASH_ID id) (set_type SOCKET_TYPE_PACCEPT ns) ss)
        end
  end.

(** [clear_closed_event]. *)
Fixpoint clear_event (id : Z) (l : list poll_event) (ss : socket_server) : list poll_event :=
  match l with
  | [] => []
  | e :: l =>
      match e_slot e with
      | Some i =>
          if is_type (s_type (slot ss i)) SOCKET_TYPE_INVALID && (s_id (slot ss i) =? id)
          then Event None (e_read e) (e_write e) (e_error e) :: l
          else e :: clear_event id l ss
      | None => e :: clear_event id l ss
      end
  end.

Definition clear_closed_event (t : msg_type) (m : socket_message) (ss : socket_server) : socket_server :=
  if bool_decide (t = SOCKET_CLOSE) || bool_decide (t = SOCKET_ERR)
  then set_ev (clear_event (m_id m) (ss_ev ss) ss) ss else ss.

(** The [switch] of [socket_server_poll] on an event of slot [i] that was taken from the
    array. *)
Definition handle_event (busy : bool) (e : poll_event) (i : Z) (ss : socket_server)
    : option (option (msg_type * socket_message) * socket_server) :=
  let s := slot ss i in
  match s_type s with
  | SOCKET_TYPE_CONNECTING => report_connect i ss
  | SOCKET_TYPE_LISTEN => report_accept i ss
  | SOCKET_TYPE_INVALID => Some (None, ss)
  | _ =>
      if e_read e then
        '(r, ss) ← (if s_protocol s =? PROTOCOL_TCP then forward_message_tcp i ss else forward_message_udp i ss);
        match r with
        | Some (SOCKET_UDP, _) => Some (r, set_ev (e :: ss_ev ss) ss)
        | Some (SOCKET_CLOSE, _) | Some (SOCKET_ERR, _) => Some (r, ss)
        | _ =>
            if e_write e
            then Some (r, set_ev (Event (e_slot e) false (e_write e) (e_error e) :: ss_ev ss) ss)
            else Some (r, ss)
        end
      else if e_write e then send_buffer busy i ss
      else if e_error e then
        '(m, ss) ← force_close i (call (sys_error (s_fd s)) ss); Some (Some (SOCKET_ERR, m), ss)
      else Some (None, ss)
  end.

(** One turn of the loop of [socket_server_poll]; [events] is what [sp_wait] would give.
    [inl] goes on with the loop, [inr] returns ([inr None] is -1). *)
Definition poll_turn (busy : bool) (events : list poll_event) (ss : socket_server)
    : option ((unit + option (msg_type * socket_message)) * socket_server) :=
  if ss_checkctrl ss && negb (bool_decide (ss_pipe ss = [])) then
    '(r, ss) ← ctrl_cmd busy ss;
    match r with
    | Some (t, m) => Some (inr r, clear_closed_event t m ss)
    | None => Some (inl (), ss)
    end
  else
    let ss := set_check false ss in
    let ss := if bool_decide (ss_ev ss = []) then set_check true (set_ev events ss) else ss in
    match ss_ev ss with
    | [] => Some (inr None, ss)
    | e :: ev =>
        let ss := set_ev ev ss in
        match e_slot e with
        | None => Some (inl (), ss)
        | Some i =>
            '(r, ss) ← handle_event busy e i ss;
            Some (match r with Some _ => inr r | None => inl () end, ss)
        end
    end.

(** ** The other threads *)
Definition send_request (r : request) (ss : socket_server) : socket_server := set_pipe (ss_pipe ss ++ [r]) ss.

(** [socket_server_connect] with [open_request]; [sizeof(req->u.open)] is 24. *)
Definition socket_server_connect (opaque : Z) (addr : list Z) (port : Z) (ss : socket_server)
    : Z * socket_server :=
  if 256 <=? zlen addr + 24 then (-1, ss)
  else
    let '(id, ss) := reserve_id ss in
    if id <? 0 then (-1, ss) else (id, send_request (request_open id port opaque addr) ss).

Definition can_direct_write (s : socket) (id : Z) : bool :=
  (s_id s =? id) && send_buffer_empty s && is_type (s_type s) SOCKET_TYPE_CONNECTED &&
  (s_dw_buffer s =? 0) && (s_udpconnecting s =? 0).

(** [socket_server_send]; [busy]: the lock was not free. *)
Definition socket_server_send (busy : bool) (id buffer sz : Z) (ss : socket_server)
    : option (Z * socket_server) :=
  let i := HASH_ID id in
  let s := slot ss i in
  if negb (s_id s =? id) || is_type (s_type s) SOCKET_TYPE_INVALID then
    ss ← free_buffer buffer sz ss; Some (-1, ss)
  else if can_direct_write s id && negb busy then
    let '(data, len, user) := send_object_init buffer sz in
    bytes ← load data data len ss;
    '(n, ss) ← (if s_protocol s =? PROTOCOL_TCP then
        Some (match k_write K (ss_sys ss) (s_fd s) bytes with
              | IoOk n => (n, call (sys_write (s_fd s) (take (Z.to_nat n) bytes)) ss)
              | _ => (0, call (sys_write (s_fd s) []) ss)
              end)
      else
        sa ← udp_socket_address s (s_udp_address s);
        Some (match k_sendto K (ss_sys ss) (s_fd s) bytes (default [] sa) with
              | IoOk n => (n, call (sys_sendto (s_fd s) bytes (default [] sa)) ss)
              | _ => (0, call (sys_sendto (s_fd s) [] (default [] sa)) ss)
              end));
    if n =? len then ss ← free_func user buffer ss; Some (0, ss)
    else Some (0, call (sys_enable (s_fd s) true) (put i (set_dw n buffer sz s) ss))
  else Some (0, send_request (request_send id sz buffer false) ss).

Definition socket_server_send_lowpriority (id buffer sz : Z) (ss : socket_server) : option (Z * socket_server) :=
  let s := slot ss (HASH_ID id) in
  if negb (s_id s =? id) || is_type (s_type s) SOCKET_TYPE_INVALID then
    ss ← free_buffer buffer sz ss; Some (-1, ss)
  else Some (0, send_request (request_send id sz buffer true) ss).

Definition socket_server_exit (ss : socket_server) : socket_server := send_request request_exit ss.
Definition socket_server_close (opaque id : Z) (ss : socket_server) : socket_server :=
  send_request (request_close id 0 opaque) ss.
Definition socket_server_shutdown (opaque id : Z) (ss : socket_server) : socket_server :=
  send_request (request_close id 1 opaque) ss.

(** [fd] is the result of [do_listen]. *)
Definition socket_server_listen (opaque fd : Z) (ss : socket_server) : Z * socket_server :=
  if fd <? 0 then (-1, ss)
  else
    let '(id, ss) := reserve_id ss in
    if id <? 0 then (id, call (sys_close fd) ss)
    else (id, send_request (request_listen id fd opaque) ss).

Definition socket_server_bind (opaque fd : Z) (ss : socket_server) : Z * socket_server :=
  let '(id, ss) := reserve_id ss in
  if id <? 0 then (-1, ss) else (id, send_request (request_bind id fd opaque) ss).

Definition socket_server_start (opaque id : Z) (ss : socket_server) : socket_server :=
  send_request (request_start id opaque) ss.
Definition socket_server_nodelay (id : Z) (ss : socket_server) : socket_server :=
  send_request (request_setopt id 1 1) ss.

(** [fd] and [v6] are the results of [do_bind] or [socket]. *)
Definition socket_server_udp (opaque fd : Z) (v6 : bool) (ss : socket_server) : Z * socket_server :=
  if fd <? 0 then (-1, ss)
  else
    let '(id, ss) := reserve_id ss in
    if id <? 0 then (-1, call (sys_close fd) ss)
    else (id, send_request (request_udp id fd opaque v6) ss).

(** [socket_server_udp_send]. *)
Definition socket_server_udp_send (busy : bool) (id : Z) (addr : list Z) (buffer sz : Z) (ss : socket_server)
    : option (Z * socket_server) :=
  let i := HASH_ID id in
  let s := slot ss i in
  if negb (s_id s =? id) || is_type (s_type s) SOCKET_TYPE_INVALID then
    ss ← free_buffer buffer sz ss; Some (-1, ss)
  else
    type ← addr.[0];
    if negb (type =? PROTOCOL_UDP) && negb (type =? PROTOCOL_UDPv6) then
      ss ← free_buffer buffer sz ss; Some (-1, ss)
    else
      address ← slice addr 0 (if type =? PROTOCOL_UDP then 7 else 19);
      if can_direct_write s id && negb busy then
        let '(data, len, user) := send_object_init buffer sz in
        sa ← udp_socket_address s addr;
        bytes ← load data data len ss;
        match k_sendto K (ss_sys ss) (s_fd s) bytes (default [] sa) with
        | IoOk _ =>
            ss ← free_func user buffer (call (sys_sendto (s_fd s) bytes (default [] sa)) ss); Some (0, ss)
        | _ =>
            Some (0, send_request (request_send_udp id sz buffer address)
                       (call (sys_sendto (s_fd s) [] (default [] sa)) ss))
        end
      else Some (0, send_request (request_send_udp id sz buffer address) ss).

(** [socket_server_udp_connect] up to the lookup, and after it with its result. *)
Definition udp_connect_begin (id : Z) (ss : socket_server) : Z * socket_server :=
  let i := HASH_ID id in
  let s := slot ss i in
  if negb (s_id s =? id) || is_type (s_type s) SOCKET_TYPE_INVALID then (-1, ss)
  else (0, put i (set_udp (u16 (s_udpconnecting s + 1)) (s_udp_address s) s) ss).

Definition udp_connect_end (id : Z) (address : option (list Z)) (ss : socket_server) : Z * socket_server :=
  match address with
  | None => (-1, ss)
  | Some a => (0, send_request (request_setudp id a) ss)
  end.
End socket_server.
