(* ===== verification/SendQueue.v ===== *)
(** The abstract queue of packets that one socket of core/socket_server.c sends.

    Packets wait with one of two priorities, one packet at a time is on its way, and the
    wire carries bytes.  The steps are what the comments of [send_buffer_] and
    [send_socket] promise; [whole_packets] is what that is good for. *)
From S2P Require Import Prelude.

(** What one socket sends, by packets: the bytes on the wire, the rest of the packet that
    has begun, and the packets that wait.  A waiting packet carries the priority it was
    sent with ([true] is low): a low one goes to the high queue when nothing waits. *)
Record packet_queue := Queue {
  q_wire : list Z;
  q_pending : list Z;
  q_high : list (bool * list Z);
  q_low : list (list Z)
}.

(** The steps, with the packets they accept. *)
Inductive q_step : packet_queue -> list (bool * list Z) -> packet_queue -> Prop :=
| q_send_high w p h l x : q_step (Queue w p h l) [(false, x)] (Queue w p (h ++ [(false, x)]) l)
| q_send_low w p h l x : q_step (Queue w p h l) [(true, x)] (Queue w p h (l ++ [x]))
| q_send_first w p x : q_step (Queue w p [] []) [(true, x)] (Queue w p [(true, x)] [])
| q_begin_high w c x h l : q_step (Queue w [] ((c, x) :: h) l) [] (Queue w x h l)
| q_begin_low w x l : q_step (Queue w [] [] (x :: l)) [] (Queue w x [] l)
| q_transmit w a b h l : q_step (Queue w (a ++ b) h l) [] (Queue (w ++ a) b h l).

Inductive q_run : packet_queue -> list (bool * list Z) -> packet_queue -> Prop :=
| q_refl q : q_run q [] q
| q_next q1 e q2 es q3 : q_step q1 e q2 -> q_run q2 es q3 -> q_run q1 (e ++ es) q3.

Lemma q_once q e q' : q_step q e q' -> q_run q e q'.
Proof. intros H. rewrite <-(app_nil_r e). by eapply q_next; [|apply q_refl]. Qed.

Lemma q_silent q1 q2 es q3 : q_step q1 [] q2 -> q_run q2 es q3 -> q_run q1 es q3.
Proof. apply q_next. Qed.

Lemma q_trans q1 es q2 es' q3 : q_run q1 es q2 -> q_run q2 es' q3 -> q_run q1 (es ++ es') q3.
Proof. induction 1 as [|q1 e q2 es q Hs _ IH]; intros H; [done|]. rewrite <-(app_assoc e). by eapply q_next, IH. Qed.

(** The packets of priority [c], in order. *)
Definition of_class (c : bool) (ps : list (bool * list Z)) : list (list Z) :=
  (filter (fun p => p.1 = c) ps).*2.

Lemma of_class_app c ps ps' : of_class c (ps ++ ps') = of_class c ps ++ of_class c ps'.
Proof. unfold of_class. by rewrite filter_app, fmap_app. Qed.

Definition waiting (q : packet_queue) : list (bool * list Z) := q_high q ++ map (pair true) (q_low q).

(** The wire carries whole packets one after another, and each priority keeps its order. *)
Definition whole_packets (wire0 : list Z) (es : list (bool * list Z)) (q : packet_queue) : Prop :=
  exists begun, q_wire q ++ q_pending q = wire0 ++ mjoin begun.*2 /\
    forall c, of_class c es = of_class c (begun ++ waiting q).

Lemma of_class_low_false l : of_class false (map (pair true) l) = [].
Proof. induction l as [|x l IH]; [done|]. unfold of_class in *. cbn [map]. by rewrite filter_cons_False. Qed.

Lemma whole_step wire0 es q e q' : whole_packets wire0 es q -> q_step q e q' -> whole_packets wire0 (es ++ e) q'.
Proof.
  intros (begun & Hw & Hc) Hs. unfold whole_packets, waiting in *.
  destruct Hs; cbn [q_wire q_pending q_high q_low map] in *; rewrite ?app_nil_r in *.
  - exists begun. split; [done|]. intros c. rewrite !of_class_app, Hc, !of_class_app, !app_assoc.
    destruct c; [change (of_class true [(false, x)]) with (@nil (list Z)); by rewrite !app_nil_r|]. by rewrite of_class_low_false, !app_nil_r.
  - exists begun. split; [done|]. intros c. rewrite map_app. by rewrite !of_class_app, Hc, !of_class_app, !app_assoc.
  - exists begun. split; [done|]. intros c. by rewrite !of_class_app, Hc.
  - exists (begun ++ [(c, x)]). split; [|intros c'; by rewrite <-app_assoc, Hc].
    rewrite fmap_app, join_app. cbn. by rewrite app_nil_r, Hw, app_assoc.
  - exists (begun ++ [(true, x)]). split; [|intros c'; by rewrite <-app_assoc, Hc].
    rewrite fmap_app, join_app. cbn. by rewrite app_nil_r, Hw, app_assoc.
  - exists begun. split; [by rewrite <-app_assoc|done].
Qed.

Lemma whole_run wire0 es q e q' : q_run q e q' -> whole_packets wire0 es q -> whole_packets wire0 (es ++ e) q'.
Proof.
  intros H. revert es. induction H as [|q1 e1 q2 es2 q3 Hs _ IH]; intros es Hw; [by rewrite app_nil_r|].
  rewrite app_assoc. by eapply IH, whole_step.
Qed.

(** The buffers [bs] hold the packet that has begun, if there is one, and the waiting ones. *)
Definition front (p : list Z) (h : list (bool * list Z)) bs : Prop := (p = [] /\ bs = h.*2) \/ bs = p :: h.*2.

Lemma front_begin w p h bs b lo : front p h (b :: bs) ->
  exists h', q_run (Queue w p h lo) [] (Queue w b h' lo) /\ bs = h'.*2.
Proof.
  intros [[-> E]|E].
  - destruct h as [|[c x] h]; [done|]. injection E as -> ->. exists h. split; [|done]. apply q_once, q_begin_high.
  - injection E as -> ->. exists h. split; [apply q_refl|done].
Qed.

Lemma q_transmit_all w b h l : q_step (Queue w b h l) [] (Queue (w ++ b) [] h l).
Proof. rewrite <-(app_nil_r b) at 1. apply q_transmit. Qed.

