(* ===== verification/SocketIds.v ===== *)
(** The ids of sockets in core/socket_server.c: [reserve_id] looks at the slot of every id
    once, in the order of the ids, and takes the first that is free. *)
From S2P Require Import Prelude Bytes SocketServer.

(** The id [k] steps after [a]. *)
Definition id_after (a k : Z) : Z := (a + k) mod 2 ^ 31.

Lemma next_id a : 0 <= a < 2 ^ 31 ->
  (let id := s32 (a + 1) in if id <? 0 then Z.land (u32 id) 0x7fffffff else id) = id_after a 1.
Proof.
  intros Ha. cbv zeta. unfold id_after. destruct (Z.eq_dec a (2 ^ 31 - 1)) as [->|Hne]; [reflexivity|].
  rewrite s32_small by (unfold is_s32; lia).
  destruct (Z.ltb_spec (a + 1) 0); [lia|]. by rewrite Z.mod_small by lia.
Qed.

Lemma id_after_range a k : 0 <= id_after a k < 2 ^ 31.
Proof. unfold id_after. apply Z.mod_pos_bound. lia. Qed.

Lemma id_after_after a j k : id_after (id_after a j) k = id_after a (j + k).
Proof. unfold id_after. rewrite Z.add_mod_idemp_l by lia. f_equal. lia. Qed.

Lemma hash_id_after a k : HASH_ID (id_after a k) = (a + k) mod MAX_SOCKET.
Proof.
  pose proof (id_after_range a k). unfold HASH_ID. rewrite u32_small by (unfold is_u32; lia). unfold id_after, MAX_SOCKET.
  apply Z.mod_mod_divide. by exists (2 ^ 15).
Qed.

(** The turn in which [reserve_id] comes to slot [i]. *)
Definition slot_turn (a i : Z) : Z := (i - a - 1) mod MAX_SOCKET + 1.

Lemma slot_turn_range a i : 1 <= slot_turn a i <= MAX_SOCKET.
Proof. unfold slot_turn. pose proof (Z.mod_pos_bound (i - a - 1) MAX_SOCKET eq_refl). lia. Qed.

Lemma all_slots a i : 0 <= i < MAX_SOCKET -> HASH_ID (id_after a (slot_turn a i)) = i.
Proof.
  intros Hi. rewrite hash_id_after. unfold slot_turn. rewrite (Z.add_comm _ 1), Z.add_assoc, Z.add_mod_idemp_r by done.
  replace (a + 1 + (i - a - 1)) with i by lia. by apply Z.mod_small.
Qed.

(** The slot of [reserve_id]'s id. *)
Definition reserved (id : Z) (s : socket) : socket :=
  Socket (s_opaque s) (s_high s) (s_low s) (s_wb_size s) (-1) id (s_protocol s) SOCKET_TYPE_RESERVE 0
    (s_warn_size s) (s_size s) (s_udp_address s) (s_dw_offset s) (s_dw_buffer s) (s_dw_size s).

Lemma reserve_loop_spec n : forall ss, 0 <= ss_alloc_id ss < 2 ^ 31 ->
  let taken k := s_type (slot ss (HASH_ID (id_after (ss_alloc_id ss) k))) <> SOCKET_TYPE_INVALID in
  (exists k, 1 <= k <= Z.of_nat n /\ (forall j, 1 <= j < k -> taken j) /\ ~ taken k /\
     let id := id_after (ss_alloc_id ss) k in
     reserve_loop n ss = (id, put (HASH_ID id) (reserved id (slot ss (HASH_ID id))) (set_alloc id ss))) \/
  ((forall j, 1 <= j <= Z.of_nat n -> taken j) /\
   reserve_loop n ss = (-1, set_alloc (id_after (ss_alloc_id ss) (Z.of_nat n)) ss)).
Proof.
  induction n as [|n IH]; intros ss Ha; cbv zeta.
  - right. split; [lia|]. cbn [reserve_loop Z.of_nat]. unfold id_after. rewrite Z.add_0_r, Z.mod_small by done.
    by destruct ss.
  - pose proof (next_id _ Ha) as En. cbn [reserve_loop]. cbv zeta in En |- *. rewrite !En. set (id := id_after (ss_alloc_id ss) 1).
    change (slot (set_alloc id ss) (HASH_ID id)) with (slot ss (HASH_ID id)).
    unfold is_type. case_bool_decide as Et.
    + left. exists 1. split; [lia|]. split; [lia|]. split; [by intros H|]. reflexivity.
    + assert (forall k, id_after id k = id_after (ss_alloc_id ss) (1 + k)) as Hk by (intros k; apply id_after_after).
      destruct (IH (set_alloc id ss)) as [(k & Hkn & Hj & Ht & E)|[Hj E]]; [apply id_after_range|..];
        cbn [ss_alloc_id set_alloc] in *.
      * left. exists (1 + k). split; [lia|]. rewrite !Hk in *. split; [|split; [exact Ht|exact E]].
        intros j Hj1. destruct (Z.eq_dec j 1) as [->|]; [exact Et|]. specialize (Hj (j - 1) ltac:(lia)).
        rewrite Hk in Hj. by replace (1 + (j - 1)) with j in Hj by lia.
      * right. rewrite !Hk in *. split; [|replace (Z.of_nat (S n)) with (1 + Z.of_nat n) by lia; exact E].
        intros j Hj1. destruct (Z.eq_dec j 1) as [->|]; [exact Et|]. specialize (Hj (j - 1) ltac:(lia)).
        rewrite Hk in Hj. by replace (1 + (j - 1)) with j in Hj by lia.
Qed.

Lemma reserve_loop_correct (n : nat) (ss : socket_server) : Z.of_nat n = MAX_SOCKET -> 0 <= ss_alloc_id ss < 2 ^ 31 ->
  let '(id, ss') := reserve_loop n ss in
  (0 <= ss_alloc_id ss' < 2 ^ 31) /\
  (id = -1 <-> forall i, 0 <= i < MAX_SOCKET -> s_type (slot ss i) <> SOCKET_TYPE_INVALID) /\
  (id = -1 -> ss_slot ss' = ss_slot ss) /\
  (id <> -1 -> 0 <= id < 2 ^ 31 /\ s_type (slot ss (HASH_ID id)) = SOCKET_TYPE_INVALID /\
     ss' = put (HASH_ID id) (reserved id (slot ss (HASH_ID id))) (set_alloc id ss) /\
     exists k, 1 <= k <= MAX_SOCKET /\ id = id_after (ss_alloc_id ss) k /\
       forall j, 1 <= j < k -> s_type (slot ss (HASH_ID (id_after (ss_alloc_id ss) j))) <> SOCKET_TYPE_INVALID).
Proof.
  intros Hn Ha. destruct (reserve_loop n ss) as [id ss'] eqn:E.
  destruct (reserve_loop_spec n ss Ha) as [(k & Hk & Hj & Ht & E')|[Hj E']];
    rewrite E' in E; injection E as <- <-; rewrite Hn in *.
  - pose proof (id_after_range (ss_alloc_id ss) k). apply dec_stable in Ht. split_and!; [cbn; lia|cbn; lia| |intros ?; lia|].
    + split; [lia|]. intros Hall. destruct (Hall (HASH_ID (id_after (ss_alloc_id ss) k))); [|done].
      rewrite hash_id_after. by apply Z.mod_pos_bound.
    + intros _. refine (conj H (conj Ht (conj eq_refl _))). exists k. exact (conj Hk (conj eq_refl Hj)).
  - pose proof (id_after_range (ss_alloc_id ss) MAX_SOCKET). split_and!; [cbn; lia|cbn; lia| |done|done].
    split; [|done]. intros _ i Hi. rewrite <-(all_slots (ss_alloc_id ss) i Hi). apply Hj, slot_turn_range.
Qed.

(** [reserve_id] finds a free slot whenever there is one: it goes through the next
    65536 ids of the counter (which wraps from 2^31 - 1 to 0), one for each slot, takes the
    first whose slot is free, and changes nothing but the counter and that slot, which is
    then reserved for that id; it gives -1 only when no slot is free. *)
Theorem reserve_id_correct (ss : socket_server) : 0 <= ss_alloc_id ss < 2 ^ 31 ->
  let '(id, ss') := reserve_id ss in
  (0 <= ss_alloc_id ss' < 2 ^ 31) /\
  (id = -1 <-> forall i, 0 <= i < MAX_SOCKET -> s_type (slot ss i) <> SOCKET_TYPE_INVALID) /\
  (id = -1 -> ss_slot ss' = ss_slot ss) /\
  (id <> -1 -> 0 <= id < 2 ^ 31 /\ s_type (slot ss (HASH_ID id)) = SOCKET_TYPE_INVALID /\
     ss' = put (HASH_ID id) (reserved id (slot ss (HASH_ID id))) (set_alloc id ss) /\
     exists k, 1 <= k <= MAX_SOCKET /\ id = id_after (ss_alloc_id ss) k /\
       forall j, 1 <= j < k -> s_type (slot ss (HASH_ID (id_after (ss_alloc_id ss) j))) <> SOCKET_TYPE_INVALID).
Proof. intros Ha. apply reserve_loop_correct; [by apply Z2Nat.id|exact Ha]. Qed.

Lemma reserve_id_correct_witness :
  let '(id, ss') := reserve_id (set_alloc (2 ^ 31 - 1) socket_server_create) in
  id = 0 /\ s_type (slot ss' 0) = SOCKET_TYPE_RESERVE.
Proof.
  pose proof (reserve_id_correct (set_alloc (2 ^ 31 - 1) socket_server_create) ltac:(done)) as H.
  destruct (reserve_id (set_alloc (2 ^ 31 - 1) socket_server_create)) as [id ss'].
  destruct H as (_ & H1 & _ & H2).
  destruct H2 as (Hr & _ & -> & k & Hk & E & Hj).
  { intros ->. by destruct (proj1 H1 eq_refl 0 ltac:(done)). }
  destruct (Z.eq_dec k 1) as [->|Hne]; [by rewrite E|]. by destruct (Hj 1 ltac:(lia)).
Defined.
