(* ===== verification/SocketSend.v ===== *)
(** Sending over TCP in core/socket_server.c: the write lists of a socket against a queue of
    packets, the ids of the slots, and where the code aborts or loses data. *)
From S2P Require Import Prelude Bytes SocketServer SendQueue.

(** The bytes the kernel took for [fd]. *)
Fixpoint written (fd : Z) (tr : list sys) : list Z :=
  match tr with
  | [] => []
  | sys_write fd' bytes :: tr => (if fd' =? fd then bytes else []) ++ written fd tr
  | _ :: tr => written fd tr
  end.

Lemma written_app fd tr tr' : written fd (tr ++ tr') = written fd tr ++ written fd tr'.
Proof.
  induction tr as [|c tr IH]; [done|]. destruct c; cbn [written app]; try done. by rewrite IH, app_assoc.
Qed.

Lemma written_write fd b ss : written fd (ss_sys (call (sys_write fd b) ss)) = written fd (ss_sys ss) ++ b.
Proof. cbn [call ss_sys]. rewrite written_app. cbn [written]. by rewrite Z.eqb_refl, app_nil_r. Qed.

Lemma slice_rest {A} (d a b : list A) i n : slice d i n = Some (a ++ b) -> slice d (i + zlen a) (n - zlen a) = Some b.
Proof.
  intros (Hi & Hn & Hle & E & Hl)%slice_inv. pose proof (zlen_nonneg a). pose proof (zlen_nonneg b).
  rewrite zlen_app in Hl. rewrite slice_spec by lia. f_equal.
  replace (Z.to_nat (i + zlen a)) with (Z.to_nat i + length a)%nat by (unfold zlen; lia).
  rewrite <-drop_drop. replace (Z.to_nat (n - zlen a)) with (Z.to_nat n - length a)%nat by (unfold zlen; lia).
  rewrite <-skipn_firstn_comm, <-E. apply drop_app_length.
Qed.

Section sending.
Variable soi_buffer : Z -> Z.
Variable soi_size : Z -> Z.
Implicit Types (ss : socket_server) (s : socket) (l high low : list write_buffer) (bs : list (list Z)).

(** [bs] are the bytes that the buffers of [l] still have. *)
Definition loads ss l bs : Prop :=
  Forall2 (fun w b => w_bytes soi_buffer w ss = Some b) l bs.

Definition bases l : list Z := map (w_base soi_buffer) l.

Lemma load_size w ss b : w_bytes soi_buffer w ss = Some b -> zlen b = w_sz w.
Proof. unfold w_bytes, load. intros H. inv_opt. by match goal with H : slice _ _ _ = _ |- _ => apply slice_inv in H as (_ & _ & _ & _ & ?) end. Qed.

Lemma load_ext base p n ss ss' : ss_heap ss' !! base = ss_heap ss !! base ->
  load base p n ss' = load base p n ss.
Proof. intros H. unfold load. by rewrite H. Qed.

Lemma loads_ext ss ss' l bs : (forall b, b ∈ bases l -> ss_heap ss' !! b = ss_heap ss !! b) ->
  loads ss l bs -> loads ss' l bs.
Proof.
  intros Hext H. induction H as [|w b l bs Hw _ IH]; [constructor|]. constructor.
  - unfold w_bytes in *. rewrite <-Hw. apply load_ext, Hext. left.
  - apply IH. intros x Hx. apply Hext. by right.
Qed.

Definition advance_buffer (m : Z) (w : write_buffer) : write_buffer :=
  WriteBuffer (w_buffer w) (w_ptr w + m) (w_sz w - m) (w_userobject w) (w_udp_address w).

Lemma load_advance w ss a b : w_bytes soi_buffer w ss = Some (a ++ b) ->
  w_bytes soi_buffer (advance_buffer (zlen a) w) ss = Some b.
Proof.
  unfold w_bytes, load, w_base, advance_buffer. cbn. intros H. apply bind_Some in H as (d & -> & H). cbn [mbind option_bind].
  apply slice_rest in H. rewrite <-H. f_equal. lia.
Qed.

(** What a list has sent: whole buffers, then a part of the next one. *)
Inductive sent : list write_buffer -> list (list Z) -> list Z -> list write_buffer -> list (list Z) -> Prop :=
| sent_stop l bs : sent l bs [] l bs
| sent_part w l a b bs : a <> [] -> b <> [] -> sent (w :: l) ((a ++ b) :: bs) a (advance_buffer (zlen a) w :: l) (b :: bs)
| sent_whole w l b bs out l' bs' : sent l bs out l' bs' -> sent (w :: l) (b :: bs) (b ++ out) l' bs'.

(** Nothing but the heap and the trace change. *)
Definition same_but_heap ss ss' : Prop :=
  ss_alloc_id ss' = ss_alloc_id ss /\ ss_slot ss' = ss_slot ss /\ ss_pipe ss' = ss_pipe ss /\
  ss_checkctrl ss' = ss_checkctrl ss /\ ss_ev ss' = ss_ev ss.

Lemma same_but_heap_trans ss1 ss2 ss3 : same_but_heap ss1 ss2 -> same_but_heap ss2 ss3 -> same_but_heap ss1 ss3.
Proof. unfold same_but_heap. naive_solver congruence. Qed.

Lemma free_spec w ss b : w_bytes soi_buffer w ss = Some b ->
  exists ss', write_buffer_free soi_buffer w ss = Some ss' /\ same_but_heap ss ss' /\ ss_sys ss' = ss_sys ss /\
    forall x, x <> w_base soi_buffer w -> ss_heap ss' !! x = ss_heap ss !! x.
Proof.
  unfold w_bytes, load. intros (d & Hd & _)%bind_Some. unfold write_buffer_free, free_func, free_block.
  fold (w_base soi_buffer w). destruct (w_base soi_buffer w =? 0); [by exists ss|]. rewrite Hd. cbn [mbind option_bind].
  eexists. split; [done|]. split; [done|]. split; [done|]. intros x Hx. cbn [ss_heap set_heap]. by rewrite lookup_delete_ne.
Qed.

Variable K : kernel.
(** [write] takes no more than it is given. *)
Hypothesis write_bound : forall tr fd bytes n, k_write K tr fd bytes = IoOk n -> 0 <= n <= zlen bytes.

Lemma send_list_tcp_spec fd l bs : forall ss, loads ss l bs -> NoDup (bases l) ->
  exists failed l' bs' out ss', send_list_tcp K soi_buffer fd l ss = Some (failed, l', zlen out, ss') /\
    sent l bs out l' bs' /\ loads ss' l' bs' /\ NoDup (bases l') /\ (forall x, x ∈ bases l' -> x ∈ bases l) /\
    written fd (ss_sys ss') = written fd (ss_sys ss) ++ out /\ same_but_heap ss ss' /\
    (forall x, x ∉ bases l -> ss_heap ss' !! x = ss_heap ss !! x).
Proof using write_bound.
  revert bs. induction l as [|w l IH]; intros bs ss Hl Hnd; inversion Hl; subst.
  - exists false, [], [], [], ss. rewrite app_nil_r. by split_and!; [|constructor|..].
  - rename y into b, l' into bs. match goal with H : w_bytes _ _ _ = _ |- _ => rename H into Hw end.
    match goal with H : Forall2 _ l bs |- _ => rename H into Hrest end.
    cbn [send_list_tcp]. rewrite Hw. cbn [mbind option_bind].
    destruct (k_write K (ss_sys ss) fd b) as [n| |] eqn:Ek.
    2: { exists false, (w :: l), (b :: bs), [], (call (sys_write fd []) ss).
         rewrite written_write. split_and!; [done|apply sent_stop|exact Hl|done..]. }
    2: { exists true, (w :: l), (b :: bs), [], (call (sys_write fd []) ss).
         rewrite written_write. split_and!; [done|apply sent_stop|exact Hl|done..]. }
    apply write_bound in Ek as Hn. pose proof (load_size _ _ _ Hw) as Hsz.
    set (ss1 := call (sys_write fd (take (Z.to_nat n) b)) ss).
    assert (zlen (take (Z.to_nat n) b) = n) as Htake by (unfold zlen in *; rewrite length_take; lia).
    destruct (Z.eqb_spec n (w_sz w)) as [Heq|Hne]; cbn [negb].
    + assert (take (Z.to_nat n) b = b) as Hall by (apply take_ge; unfold zlen in *; lia).
      assert (w_bytes soi_buffer w ss1 = Some b) as Hw1 by exact Hw.
      destruct (free_spec w ss1 b Hw1) as (ss2 & -> & Hsame2 & Hsys2 & Hheap2). cbn [mbind option_bind].
      apply NoDup_cons in Hnd as [Hwl Hnd].
      destruct (IH bs ss2) as (failed & l' & bs' & out & ss' & -> & Hsent & Hl' & Hnd' & Hsub & Hwr & Hsame & Hheap); [|done|].
      { eapply loads_ext; [|exact Hrest]. intros x Hx. rewrite Hheap2 by (intros ->; contradiction). done. }
      exists failed, l', bs', (b ++ out), ss'. cbn [mbind option_bind]. split.
      { do 3 f_equal. rewrite zlen_app. lia. }
      split; [by apply sent_whole|]. split; [done|]. split; [done|]. split; [intros x Hx; right; by apply Hsub|]. split.
      { rewrite Hwr, Hsys2. subst ss1. rewrite written_write, Hall. by rewrite app_assoc. }
      split; [by eapply same_but_heap_trans; [|exact Hsame]|].
      intros x Hx. apply not_elem_of_cons in Hx as [Hx1 Hx2]. rewrite Hheap by done. by rewrite Hheap2.
    + exists false, (advance_buffer n w :: l).
      destruct (decide (n = 0)) as [->|Hn0].
      * exists (b :: bs), [], ss1. cbn [take Z.to_nat] in *. split_and!; try done.
        -- replace (advance_buffer 0 w) with w by (destruct w; unfold advance_buffer; cbn; f_equal; lia). apply sent_stop.
        -- replace (advance_buffer 0 w) with w by (destruct w; unfold advance_buffer; cbn; f_equal; lia). exact Hl.
        -- subst ss1. by rewrite written_write.
      * exists (drop (Z.to_nat n) b :: bs), (take (Z.to_nat n) b), ss1. rewrite Htake. split_and!; try done.
        -- pose proof (sent_part w l (take (Z.to_nat n) b) (drop (Z.to_nat n) b) bs) as Hp.
           rewrite Htake, take_drop in Hp. apply Hp.
           ++ intros E. rewrite E in Htake. unfold zlen in Htake. cbn in Htake. lia.
           ++ intros E. apply (f_equal length) in E. rewrite length_drop in E. unfold zlen in *. cbn in E. lia.
        -- constructor; [|exact Hrest]. rewrite <-Htake at 1. apply load_advance. by rewrite take_drop.
        -- subst ss1. by rewrite written_write.
Qed.

Lemma sent_front l bs out l' bs' : sent l bs out l' bs' -> forall w p h lo, front p h bs ->
  exists p' h', q_run (Queue w p h lo) [] (Queue (w ++ out) p' h' lo) /\ front p' h' bs'.
Proof.
  induction 1 as [l bs|wb l a b bs Ha Hb|wb l b bs out l' bs' _ IH]; intros w p h lo Hf.
  - exists p, h. rewrite app_nil_r. split; [apply q_refl|done].
  - destruct (front_begin w p h bs (a ++ b) lo Hf) as (h' & Hr & ->). exists b, h'. split; [|by right].
    exact (q_trans _ [] _ [] _ Hr (q_once _ _ _ (q_transmit _ _ _ _ _))).
  - destruct (front_begin w p h bs b lo Hf) as (h1 & Hr & ->).
    destruct (IH (w ++ b) [] h1 lo) as (p' & h' & Hr' & Hf'); [by left|]. exists p', h'. split; [|done].
    rewrite <-app_assoc in Hr'.
    exact (q_trans _ [] _ [] _ Hr (q_silent _ _ _ _ (q_transmit_all _ _ _ _) Hr')).
Qed.

(** A buffer of the low list: not begun, and not a user object. *)
Definition whole (w : write_buffer) : Prop := w_userobject w = false /\ w_ptr w = w_buffer w.

Lemma sent_low l bs out l' bs' : sent l bs out l' bs' -> Forall whole l -> forall w,
  (list_uncomplete l' = false /\ Forall whole l' /\ q_run (Queue w [] [] bs) [] (Queue (w ++ out) [] [] bs')) \/
  (exists wb l2 b bs2, l' = wb :: l2 /\ bs' = b :: bs2 /\ list_uncomplete l' = true /\ Forall whole l2 /\
     q_run (Queue w [] [] bs) [] (Queue (w ++ out) b [] bs2)).
Proof.
  induction 1 as [l bs|wb l a b bs Ha Hb|wb l b bs out l' bs' _ IH]; intros Hw w.
  - left. rewrite app_nil_r. split_and!; [|done|apply q_refl]. destruct Hw as [|wb l [_ E]]; [done|].
    cbn. by rewrite E, Z.eqb_refl.
  - right. apply Forall_cons in Hw as [[_ E] Hl]. exists (advance_buffer (zlen a) wb), l, b, bs. split_and!; try done.
    + cbn. assert (zlen a <> 0) by (intros Hz; by apply zlen_nil_inv in Hz). apply negb_true_iff, Z.eqb_neq. lia.
    + exact (q_silent _ _ _ _ (q_begin_low _ _ _) (q_once _ _ _ (q_transmit _ _ _ _ _))).
  - apply Forall_cons in Hw as [_ Hl]. destruct (IH Hl (w ++ b)) as [(H1 & H2 & H3)|(wb' & l2 & b' & bs2 & E1 & E2 & H1 & H2 & H3)];
      rewrite <-app_assoc in H3; [left|right; exists wb', l2, b', bs2]; split_and!; try done;
      exact (q_silent _ _ _ _ (q_begin_low _ _ _) (q_silent _ _ _ _ (q_transmit_all _ _ _ _) H3)).
Qed.

Definition total l : Z := foldr (fun w n => w_sz w + n) 0 l.

Lemma sent_total l bs out l' bs' : sent l bs out l' bs' -> Forall2 (fun w b => zlen b = w_sz w) l bs ->
  total l = zlen out + total l'.
Proof.
  induction 1; intros Hs; cbn [total foldr advance_buffer w_sz]; [done|lia|].
  inversion Hs; subst. rewrite zlen_app. cbn. unfold total in *. rewrite IHsent by done. lia.
Qed.

Lemma loads_sizes ss l bs : loads ss l bs -> Forall2 (fun w b => zlen b = w_sz w) l bs.
Proof. intros H. eapply Forall2_impl; [exact H|]. intros w b. apply load_size. Qed.

(** ** The state of a connected socket *)

(** The buffer that [send_buffer] makes of the rest of a direct write. *)
Definition dw_list s : list write_buffer :=
  if s_dw_buffer s =? 0 then []
  else
    let '(buffer, sz, user) := send_object_init soi_buffer soi_size (s_dw_buffer s) (s_dw_size s) in
    [WriteBuffer (s_dw_buffer s) (buffer + s_dw_offset s) (sz - s_dw_offset s) user None].

Record sending (id fd : Z) (q : packet_queue) ss : Prop := Sending {
  sn_id : s_id (slot ss (HASH_ID id)) = id;
  sn_fd : s_fd (slot ss (HASH_ID id)) = fd;
  sn_type : s_type (slot ss (HASH_ID id)) = SOCKET_TYPE_CONNECTED;
  sn_protocol : s_protocol (slot ss (HASH_ID id)) = PROTOCOL_TCP;
  sn_wire : written fd (ss_sys ss) = q_wire q;
  sn_front : exists bs, loads ss (dw_list (slot ss (HASH_ID id)) ++ s_high (slot ss (HASH_ID id))) bs /\
               front (q_pending q) (q_high q) bs;
  sn_low : loads ss (s_low (slot ss (HASH_ID id))) (q_low q);
  sn_whole : Forall whole (s_low (slot ss (HASH_ID id)));
  sn_nodup : NoDup (bases (dw_list (slot ss (HASH_ID id)) ++ s_high (slot ss (HASH_ID id)) ++ s_low (slot ss (HASH_ID id))));
  sn_size : s_wb_size (slot ss (HASH_ID id)) = total (s_high (slot ss (HASH_ID id))) + total (s_low (slot ss (HASH_ID id)))
}.

Lemma slot_put i s ss : slot (put i s ss) i = s.
Proof. unfold slot, put. cbn. by rewrite lookup_insert_eq. Qed.

Lemma put_put i s s' ss : put i s' (put i s ss) = put i s' ss.
Proof. unfold put, set_slots. cbn. by rewrite insert_insert_eq. Qed.

Lemma loads_put i s ss l bs : loads ss l bs -> loads (put i s ss) l bs.
Proof. by apply loads_ext. Qed.

Lemma loads_call c ss l bs : loads ss l bs -> loads (call c ss) l bs.
Proof. by apply loads_ext. Qed.

Lemma bases_app l l' : bases (l ++ l') = bases l ++ bases l'.
Proof. apply map_app. Qed.

(** *** Closing *)

Lemma free_wb_list_spec l : forall ss bs, loads ss l bs -> NoDup (bases l) ->
  exists ss', free_wb_list soi_buffer l ss = Some ss' /\ same_but_heap ss ss' /\ ss_sys ss' = ss_sys ss /\
    forall x, x ∉ bases l -> ss_heap ss' !! x = ss_heap ss !! x.
Proof.
  induction l as [|w l IH]; intros ss bs Hl Hnd; inversion Hl as [|? b ? bs' Hw Hrest]; subst; [by exists ss|].
  destruct (free_spec w ss b Hw) as (ss1 & E1 & Hsame1 & Hsys1 & Hheap1).
  apply NoDup_cons in Hnd as [Hwl Hnd]. destruct (IH ss1 bs') as (ss2 & E2 & Hsame2 & Hsys2 & Hheap2); [|done|].
  { eapply loads_ext; [|exact Hrest]. intros x Hx. apply Hheap1. intros ->. contradiction. }
  exists ss2. cbn [free_wb_list]. rewrite E1. cbn [mbind option_bind]. rewrite E2.
  split_and!; [done|by eapply same_but_heap_trans|congruence|].
  intros x [Hx1 Hx2]%not_elem_of_cons. by rewrite Hheap2, Hheap1.
Qed.

Lemma written_call fd c ss : (forall fd' b, c <> sys_write fd' b) ->
  written fd (ss_sys (call c ss)) = written fd (ss_sys ss).
Proof. intros Hc. cbn [call ss_sys]. rewrite written_app. destruct c; cbn; rewrite ?app_nil_r; try done. by destruct (Hc fd0 bytes). Qed.

Lemma force_close_spec i ss hbs lbs fd :
  s_type (slot ss i) = SOCKET_TYPE_CONNECTED -> s_dw_buffer (slot ss i) = 0 ->
  loads ss (s_high (slot ss i)) hbs -> loads ss (s_low (slot ss i)) lbs ->
  NoDup (bases (s_high (slot ss i) ++ s_low (slot ss i))) ->
  exists m ss', force_close soi_buffer i ss = Some (m, ss') /\ s_type (slot ss' i) = SOCKET_TYPE_INVALID /\
    written fd (ss_sys ss') = written fd (ss_sys ss).
Proof.
  intros Ht Hdw Hh Hl Hnd. rewrite bases_app in Hnd. apply NoDup_app in Hnd as (Hnd1 & Hdis & Hnd2).
  unfold force_close. rewrite Ht, Hdw. cbn [is_type bool_decide sock_type_eq_dec].
  destruct (free_wb_list_spec _ ss hbs Hh Hnd1) as (ss1 & E1 & Hsame1 & Hsys1 & Hheap1).
  destruct (free_wb_list_spec (s_low (slot ss i)) ss1 lbs) as (ss2 & E2 & Hsame2 & Hsys2 & _); [|done|].
  { eapply loads_ext; [|exact Hl]. intros x Hx. apply Hheap1. intros Hx'. by apply (Hdis x). }
  cbn [negb cassert mbind option_bind]. rewrite E1. cbn [mbind option_bind]. rewrite E2. cbn [mbind option_bind].
  eexists _, _. split; [reflexivity|]. rewrite slot_put. split; [done|].
  change (written fd (ss_sys (call (sys_close (s_fd (slot ss i))) (call (sys_del (s_fd (slot ss i))) ss2))) =
          written fd (ss_sys ss)).
  rewrite !written_call by done. congruence.
Qed.

(** *** Flushing *)

Lemma dw_list_0 s : s_dw_buffer s = 0 -> dw_list s = [].
Proof. unfold dw_list. by intros ->. Qed.

(** The state after the lists of slot [i] were sent from. *)
Definition after_list (i : Z) high low (n : Z) ss ss1 : socket_server :=
  put i (set_lists high low (s_wb_size (slot ss i) - n) (slot ss i)) ss1.

Lemma send_high id fd q ss : sending id fd q ss -> s_dw_buffer (slot ss (HASH_ID id)) = 0 ->
  exists failed high n ss1 q1,
    send_list K soi_buffer (slot ss (HASH_ID id)) (s_high (slot ss (HASH_ID id))) ss = Some (failed, high, n, ss1) /\
    q_run q [] q1 /\ sending id fd q1 (after_list (HASH_ID id) high (s_low (slot ss (HASH_ID id))) n ss ss1).
Proof using write_bound.
  intros [Hid Hfd Ht Hp Hw (bs & Hl & Hf) Hlow Hwh Hnd Hsz] Hdw. destruct q as [w p h lo]. cbn [q_wire q_pending q_high q_low] in *.
  unfold after_list. set (s := slot ss (HASH_ID id)) in *. rewrite (dw_list_0 s Hdw) in *. cbn [app] in *.
  pose proof Hnd as Hnd0. rewrite bases_app in Hnd. apply NoDup_app in Hnd as (Hnd1 & Hdis & Hnd2).
  destruct (send_list_tcp_spec fd _ bs ss Hl Hnd1) as (failed & l' & bs' & out & ss1 & E & Hsent & Hl' & Hnd' & Hsub & Hwr & Hsame & Hheap).
  destruct (sent_front _ _ _ _ _ Hsent w p h lo Hf) as (p' & h' & Hr & Hf').
  exists failed, l', (zlen out), ss1, (Queue (w ++ out) p' h' lo). unfold send_list. rewrite Hp, Hfd. split; [exact E|].
  split; [exact Hr|]. pose proof (sent_total _ _ _ _ _ Hsent (loads_sizes _ _ _ Hl)) as Htot.
  constructor; rewrite ?slot_put; unfold dw_list; cbn -[total]; rewrite ?Hdw; cbn [Z.eqb app]; try done.
  - by rewrite Hwr, Hw.
  - exists bs'. split; [by apply loads_put|done].
  - apply loads_put. eapply loads_ext; [|exact Hlow]. intros x Hx. apply Hheap. intros Hx'. by apply (Hdis x).
  - rewrite bases_app. apply NoDup_app. split_and!; [done| |done]. intros x Hx. apply Hdis. by apply Hsub.
  - rewrite Hsz, Htot. lia.
Qed.

(** What the low list has come to: either its head has not begun, and the packets wait, or
    it has begun, and becomes the high list. *)
Lemma send_low id fd q ss : sending id fd q ss -> s_dw_buffer (slot ss (HASH_ID id)) = 0 ->
  s_high (slot ss (HASH_ID id)) = [] -> q_pending q = [] -> q_high q = [] ->
  exists failed low n ss1 q1 bs,
    send_list K soi_buffer (slot ss (HASH_ID id)) (s_low (slot ss (HASH_ID id))) ss = Some (failed, low, n, ss1) /\
    q_run q [] q1 /\ loads ss1 low bs /\ NoDup (bases low) /\ written fd (ss_sys ss1) = q_wire q1 /\
    ((list_uncomplete low = false /\ q_pending q1 = [] /\ q_high q1 = [] /\ q_low q1 = bs /\
      sending id fd q1 (after_list (HASH_ID id) [] low n ss ss1)) \/
     (exists wb low', low = wb :: low' /\ list_uncomplete low = true /\
      sending id fd q1 (after_list (HASH_ID id) [wb] low' n ss ss1))).
Proof using write_bound.
  intros [Hid Hfd Ht Hp Hw _ Hlow Hwh Hnd Hsz] Hdw Hhigh Hqp Hqh. destruct q as [w p h lo].
  cbn [q_wire q_pending q_high q_low] in *. subst p h.
  unfold after_list. set (s := slot ss (HASH_ID id)) in *. rewrite (dw_list_0 s Hdw), Hhigh in Hnd. cbn [app] in Hnd.
  destruct (send_list_tcp_spec fd _ lo ss Hlow Hnd) as (failed & l' & bs' & out & ss1 & E & Hsent & Hl' & Hnd' & Hsub & Hwr & Hsame & Hheap).
  pose proof (sent_total _ _ _ _ _ Hsent (loads_sizes _ _ _ Hlow)) as Htot. rewrite Hhigh in Hsz. cbn [total foldr] in Hsz.
  destruct (sent_low _ _ _ _ _ Hsent Hwh w) as [(H1 & H2 & H3)|(wb & l2 & b & bs2 & E1 & E2 & H1 & H2 & H3)].
  - exists failed, l', (zlen out), ss1, (Queue (w ++ out) [] [] bs'), bs'. unfold send_list. rewrite Hp, Hfd. cbn [Z.eqb].
    split_and!; [exact E|exact H3|done|done|by rewrite Hwr, Hw|]. left. split_and!; try done.
    constructor; rewrite ?slot_put; unfold dw_list; cbn -[total]; rewrite ?Hdw; cbn [Z.eqb app]; try done.
    + by rewrite Hwr, Hw.
    + exists []. split; [constructor|by left].
    + rewrite Hsz, Htot. change (total []) with 0. lia.
  - exists failed, l', (zlen out), ss1, (Queue (w ++ out) b [] bs2), bs'. unfold send_list. rewrite Hp, Hfd. cbn [Z.eqb].
    split_and!; [exact E|exact H3|done|done|by rewrite Hwr, Hw|]. right. exists wb, l2. split_and!; try done. subst l' bs'.
    pose proof (proj1 (Forall2_cons _ _ _ _ _) Hl') as [Hl1 Hl2].
    constructor; rewrite ?slot_put; unfold dw_list; cbn -[total]; rewrite ?Hdw; cbn [Z.eqb app]; try done.
    + by rewrite Hwr, Hw.
    + exists [b]. split; [|by right]. apply loads_put. by constructor.
    + rewrite Hsz, Htot. unfold total. cbn [foldr]. lia.
Qed.

Lemma sending_ext id fd q ss ss' : sending id fd q ss ->
  set_warn 0 (slot ss' (HASH_ID id)) = set_warn 0 (slot ss (HASH_ID id)) ->
  ss_heap ss' = ss_heap ss -> written fd (ss_sys ss') = written fd (ss_sys ss) -> sending id fd q ss'.
Proof.
  intros [Hid Hfd Ht Hp Hw (bs & Hl & Hf) Hlow Hwh Hnd Hsz] Hs Hheap Hwr.
  destruct (slot ss (HASH_ID id)) eqn:E, (slot ss' (HASH_ID id)) eqn:E'. injection Hs as -> -> -> -> -> -> -> -> -> -> -> -> -> ->.
  constructor; rewrite ?E'; try done.
  - by rewrite Hwr.
  - exists bs. split; [|done]. eapply loads_ext; [|exact Hl]. intros. by rewrite Hheap.
  - eapply loads_ext; [|exact Hlow]. intros. by rewrite Hheap.
Qed.

Lemma sending_call id fd q c ss : (forall fd' b, c <> sys_write fd' b) -> sending id fd q ss -> sending id fd q (call c ss).
Proof. intros Hc Hq. by eapply sending_ext; [exact Hq|..|apply written_call]. Qed.

Lemma sending_warn id fd q w s ss : sending id fd q ss -> slot ss (HASH_ID id) = s ->
  sending id fd q (put (HASH_ID id) (set_warn w s) ss).
Proof. intros Hq <-. eapply sending_ext; [exact Hq|by rewrite slot_put|done..]. Qed.

(** What a socket that [send_buffer] has sent from is: open as the queue says, or closed
    with the queue's bytes on the wire; the assertion fails only with a low packet waiting
    alone. *)
Definition open_or_closed (id fd : Z) (q : packet_queue) ss : Prop :=
  sending id fd q ss \/
  (s_type (slot ss (HASH_ID id)) = SOCKET_TYPE_INVALID /\ written fd (ss_sys ss) = q_wire q).

Definition stalled (q : packet_queue) : Prop := q_pending q = [] /\ q_high q = [] /\ q_low q <> [].

Definition flushed (id fd : Z) (q : packet_queue) (r : option (option (msg_type * socket_message) * socket_server)) : Prop :=
  exists q', q_run q [] q' /\
    match r with Some (_, ss') => open_or_closed id fd q' ss' | None => stalled q' end.

Lemma flushed_run id fd q q' r : q_run q [] q' -> flushed id fd q' r -> flushed id fd q r.
Proof. intros H (q2 & H2 & Hr). exists q2. split; [exact (q_trans _ [] _ [] _ H H2)|done]. Qed.

Lemma closed_flushed id fd q ss r hbs lbs :
  s_type (slot ss (HASH_ID id)) = SOCKET_TYPE_CONNECTED -> s_dw_buffer (slot ss (HASH_ID id)) = 0 ->
  loads ss (s_high (slot ss (HASH_ID id))) hbs -> loads ss (s_low (slot ss (HASH_ID id))) lbs ->
  NoDup (bases (s_high (slot ss (HASH_ID id)) ++ s_low (slot ss (HASH_ID id)))) -> written fd (ss_sys ss) = q_wire q ->
  flushed id fd q ('(m, ss) ← force_close soi_buffer (HASH_ID id) ss; Some (Some (r, m), ss)).
Proof.
  intros Ht Hdw Hh Hl Hnd Hw. destruct (force_close_spec _ ss hbs lbs fd Ht Hdw Hh Hl Hnd) as (m & ss' & -> & Hinv & Hwr).
  exists q. split; [apply q_refl|]. cbn [mbind option_bind]. right. by rewrite Hwr.
Qed.

Lemma whole_uncomplete l : Forall whole l -> list_uncomplete l = false.
Proof. intros [|w l' [_ E] _]; [done|]. cbn. by rewrite E, Z.eqb_refl. Qed.

Lemma send_buffer_low_step id fd q ss : sending id fd q ss -> s_dw_buffer (slot ss (HASH_ID id)) = 0 ->
  s_high (slot ss (HASH_ID id)) = [] -> flushed id fd q (send_buffer_low K soi_buffer (HASH_ID id) ss).
Proof using write_bound.
  intros Hq Hdw Hhigh. assert (q_pending q = [] /\ q_high q = []) as [Hqp Hqh].
  { destruct (sn_front _ _ _ _ Hq) as (bs & Hl & Hf). rewrite (dw_list_0 _ Hdw), Hhigh in Hl. inversion Hl; subst.
    destruct Hf as [[-> Hf]|]; [|done]. by destruct (q_high q). }
  destruct (send_low id fd q ss Hq Hdw Hhigh Hqp Hqh) as (failed & low & n & ss1 & q1 & bs & E & Hr & Hl & Hnd & Hwr & Hcase).
  apply (flushed_run _ _ _ _ _ Hr). unfold send_buffer_low.
  assert ((if bool_decide (s_low (slot ss (HASH_ID id)) = []) then Some (false, [], 0, ss)
           else send_list K soi_buffer (slot ss (HASH_ID id)) (s_low (slot ss (HASH_ID id))) ss) =
          Some (failed, low, n, ss1)) as ->.
  { case_bool_decide as El; [|exact E]. rewrite <-E, El. unfold send_list. by rewrite (sn_protocol _ _ _ _ Hq). }
  cbn [mbind option_bind]. rewrite Hhigh. fold (after_list (HASH_ID id) [] low n ss ss1).
  destruct failed.
  - unfold after_list. eapply (closed_flushed id fd q1 _ _ [] bs); rewrite ?slot_put; cbn; try done.
    + apply (sn_type _ _ _ _ Hq).
    + constructor.
  - destruct Hcase as [(Hu & H1 & H2 & H3 & Hq1)|(wb & low' & -> & Hu & Hq1)]; rewrite Hu.
    + destruct low as [|wb low]; cycle 1.
      { exists q1. split; [apply q_refl|]. cbn. split_and!; [done..|]. inversion Hl; subst. congruence. }
      pose proof (sn_size _ _ _ _ Hq1) as Hsz. unfold after_list in Hsz. rewrite slot_put in Hsz. cbn in Hsz.
      cbn [send_buffer_empty set_lists s_high s_low s_wb_size s_type s_fd s_warn_size].
      rewrite (proj2 (Z.eqb_eq _ 0) Hsz). cbn [cassert mbind option_bind].
      rewrite (sn_type _ _ _ _ Hq). cbn [is_type bool_decide sock_type_eq_dec].
      exists q1. split; [apply q_refl|].
      apply (sending_call _ _ _ (sys_enable (s_fd (slot ss (HASH_ID id))) false)) in Hq1; [|done].
      destruct (0 <? _); left; [|exact Hq1]. apply sending_warn; [exact Hq1|]. exact (slot_put _ _ _).
    + exists q1. split; [apply q_refl|]. cbn [raise_uncomplete set_lists s_low s_high]. cbn [cassert mbind option_bind].
      left. unfold after_list in *. by rewrite put_put.
Qed.

Lemma send_buffer__step id fd q ss : sending id fd q ss -> s_dw_buffer (slot ss (HASH_ID id)) = 0 ->
  flushed id fd q (send_buffer_ K soi_buffer (HASH_ID id) ss).
Proof using write_bound.
  intros Hq Hdw. destruct (send_high id fd q ss Hq Hdw) as (failed & high & n & ss1 & q1 & E & Hr & Hq1).
  apply (flushed_run _ _ _ _ _ Hr). unfold send_buffer_.
  rewrite (whole_uncomplete _ (sn_whole _ _ _ _ Hq)). cbn [negb cassert mbind option_bind]. rewrite E. cbn [mbind option_bind].
  fold (after_list (HASH_ID id) high (s_low (slot ss (HASH_ID id))) n ss ss1).
  assert (slot (after_list (HASH_ID id) high (s_low (slot ss (HASH_ID id))) n ss ss1) (HASH_ID id) =
          set_lists high (s_low (slot ss (HASH_ID id))) (s_wb_size (slot ss (HASH_ID id)) - n) (slot ss (HASH_ID id))) as Es
    by apply slot_put.
  assert (s_dw_buffer (slot (after_list (HASH_ID id) high (s_low (slot ss (HASH_ID id))) n ss ss1) (HASH_ID id)) = 0) as Hdw1
    by (rewrite Es; exact Hdw).
  destruct failed.
  - destruct (sn_front _ _ _ _ Hq1) as (bs & Hl & _). pose proof (sn_nodup _ _ _ _ Hq1) as Hnd.
    rewrite (dw_list_0 _ Hdw1) in Hl, Hnd.
    exact (closed_flushed id fd q1 _ _ _ _ (sn_type _ _ _ _ Hq1) Hdw1 Hl (sn_low _ _ _ _ Hq1) Hnd (sn_wire _ _ _ _ Hq1)).
  - case_bool_decide as Eh; cbn [negb].
    + apply send_buffer_low_step; [exact Hq1|exact Hdw1|]. rewrite Es. exact Eh.
    + exists q1. split; [apply q_refl|by left].
Qed.

Lemma send_object_base buffer sz : forall data n user, send_object_init soi_buffer soi_size buffer sz = (data, n, user) ->
  data = if user then soi_buffer buffer else buffer.
Proof. unfold send_object_init. intros data n user. by destruct (sz <? 0); intros [= <- <- <-]. Qed.

(** The direct write buffer moves to the head of the high list. *)
Lemma sending_dw id fd q ss : sending id fd q ss ->
  sending id fd q (put (HASH_ID id)
    (set_dw (s_dw_offset (slot ss (HASH_ID id))) 0 (s_dw_size (slot ss (HASH_ID id)))
       (set_lists (dw_list (slot ss (HASH_ID id)) ++ s_high (slot ss (HASH_ID id))) (s_low (slot ss (HASH_ID id)))
          (total (dw_list (slot ss (HASH_ID id))) + s_wb_size (slot ss (HASH_ID id))) (slot ss (HASH_ID id)))) ss).
Proof.
  intros [Hid Hfd Ht Hp Hw (bs & Hl & Hf) Hlow Hwh Hnd Hsz]. set (s := slot ss (HASH_ID id)) in *.
  assert (forall l l', total (l ++ l') = total l + total l') as Htot.
  { intros l l'. induction l as [|w l IH]; [done|]. cbn. fold (total (l ++ l')) (total l). lia. }
  constructor; rewrite ?slot_put; try done.
  - exists bs. split; [|exact Hf]. exact Hl.
  - cbn -[dw_list total]. change (dw_list (set_dw _ 0 _ _)) with (@nil write_buffer). by rewrite <-app_assoc.
  - cbn -[dw_list total]. rewrite Hsz, Htot. lia.
Qed.

Lemma send_buffer_step busy id fd q ss : sending id fd q ss ->
  flushed id fd q (send_buffer K soi_buffer soi_size busy (HASH_ID id) ss).
Proof using write_bound.
  intros Hq. unfold send_buffer. destruct busy; [exists q; split; [apply q_refl|by left]|].
  pose proof (sending_dw id fd q ss Hq) as Hq1. unfold dw_list in Hq1.
  destruct (s_dw_buffer _ =? 0) eqn:Edw; cbn [negb].
  - apply send_buffer__step; [exact Hq|lia].
  - destruct (send_object_init soi_buffer soi_size _ _) as [[b n] user]. cbn [app total foldr w_sz] in Hq1.
    rewrite Z.add_0_r, (Z.add_comm _ (s_wb_size _)) in Hq1. apply send_buffer__step; [exact Hq1|]. by rewrite slot_put.
Qed.

(** *** Requests and direct writes *)

(** The packet [p] is in the block of the object, which no buffer of the socket is in. *)
Record packet (id buffer sz : Z) (p : list Z) ss : Prop := Packet {
  pk_bytes : w_bytes soi_buffer (new_buffer soi_buffer soi_size buffer sz None) ss = Some p;
  pk_fresh : w_base soi_buffer (new_buffer soi_buffer soi_size buffer sz None) ∉
    bases (dw_list (slot ss (HASH_ID id)) ++ s_high (slot ss (HASH_ID id)) ++ s_low (slot ss (HASH_ID id)))
}.

Lemma front_snoc p h bs c x : front p h bs -> front p (h ++ [(c, x)]) (bs ++ [x]).
Proof. unfold front. rewrite fmap_app. by intros [[-> ->]| ->]; [left|right]. Qed.

Lemma total_snoc l w : total (l ++ [w]) = total l + w_sz w.
Proof. induction l as [|w' l IH]; cbn; [lia|]. fold (total (l ++ [w])) (total l). lia. Qed.

Lemma nodup_insert (l l' : list Z) x : NoDup (l ++ l') -> x ∉ l ++ l' -> NoDup (l ++ x :: l').
Proof. intros H Hx. rewrite <-Permutation_middle. by constructor. Qed.

Lemma sending_append_high id fd w p h lo c x buf ss : sending id fd (Queue w p h lo) ss ->
  w_bytes soi_buffer buf ss = Some x ->
  w_base soi_buffer buf ∉ bases (dw_list (slot ss (HASH_ID id)) ++ s_high (slot ss (HASH_ID id)) ++ s_low (slot ss (HASH_ID id))) ->
  sending id fd (Queue w p (h ++ [(c, x)]) lo) (put (HASH_ID id) (append_sendbuffer buf false (slot ss (HASH_ID id))) ss).
Proof.
  intros [Hid Hfd Ht Hp Hw (bs & Hl & Hf) Hlow Hwh Hnd Hsz] Hx Hfresh. set (s := slot ss (HASH_ID id)) in *.
  constructor; rewrite ?slot_put; try done.
  - exists (bs ++ [x]). split; [|by apply front_snoc].
    change (dw_list (append_sendbuffer buf false s)) with (dw_list s). cbn [append_sendbuffer set_lists s_high].
    rewrite app_assoc. apply Forall2_app; [exact Hl|]. constructor; [exact Hx|constructor].
  - change (dw_list (append_sendbuffer buf false s)) with (dw_list s). cbn [append_sendbuffer set_lists s_high s_low].
    rewrite app_assoc in Hnd, Hfresh |- *. rewrite app_assoc, <-(app_assoc (dw_list s ++ s_high s)). cbn [app].
    rewrite !bases_app in *. by apply nodup_insert.
  - cbn -[total]. rewrite total_snoc. lia.
Qed.

Lemma sending_append_low id fd w p h lo x buf ss : sending id fd (Queue w p h lo) ss ->
  w_bytes soi_buffer buf ss = Some x -> whole buf ->
  w_base soi_buffer buf ∉ bases (dw_list (slot ss (HASH_ID id)) ++ s_high (slot ss (HASH_ID id)) ++ s_low (slot ss (HASH_ID id))) ->
  sending id fd (Queue w p h (lo ++ [x])) (put (HASH_ID id) (append_sendbuffer buf true (slot ss (HASH_ID id))) ss).
Proof.
  intros [Hid Hfd Ht Hp Hw (bs & Hl & Hf) Hlow Hwh Hnd Hsz] Hx Hb Hfresh. set (s := slot ss (HASH_ID id)) in *.
  constructor; rewrite ?slot_put; try done.
  - by exists bs.
  - apply Forall2_app; [exact Hlow|]. constructor; [exact Hx|constructor].
  - apply Forall_app. split; [exact Hwh|]. by constructor.
  - change (dw_list (append_sendbuffer buf true s)) with (dw_list s). cbn [append_sendbuffer set_lists s_high s_low].
    rewrite app_assoc in Hnd, Hfresh |- *. rewrite app_assoc. rewrite (bases_app _ [buf]). apply NoDup_app. split; [exact Hnd|].
    split; [|apply NoDup_singleton]. intros y Hy ->%list_elem_of_singleton. by apply Hfresh.
  - cbn -[total]. rewrite total_snoc. lia.
Qed.

Lemma sending_check_warning id fd q ss : sending id fd q ss -> sending id fd q (check_warning (HASH_ID id) ss).2.
Proof. intros Hq. unfold check_warning. destruct (_ && _); cbn [snd]; [by apply sending_warn|done]. Qed.

(** With both lists empty, what is left of a direct write has begun. *)
Lemma sending_empty id fd q ss : sending id fd q ss -> send_buffer_empty (slot ss (HASH_ID id)) = true ->
  exists p, sending id fd (Queue (q_wire q) p [] []) ss /\ q_run q [] (Queue (q_wire q) p [] []).
Proof.
  intros Hq [Hh Hl]%andb_prop. apply bool_decide_eq_true in Hh, Hl. destruct Hq as [Hid Hfd Ht Hp Hw (bs & Hls & Hf) Hlow Hwh Hnd Hsz].
  rewrite Hl in Hlow. inversion Hlow as [E|]. destruct q as [w pe h lo]. cbn [q_wire q_pending q_high q_low] in *. subst lo.
  assert (length bs <= 1)%nat as Hlen.
  { rewrite <-(Forall2_length _ _ _ Hls), Hh, app_nil_r. unfold dw_list.
    destruct (_ =? 0); [cbn; lia|]. by destruct (send_object_init _ _ _ _) as [[] ]. }
  assert (exists p, front p [] bs /\ q_run (Queue w pe h []) [] (Queue w p [] [])) as (p & Hf' & Hr).
  { destruct Hf as [[-> ->]| ->]; cbn in Hlen.
    - destruct h as [|[c x] h]; [exists []; split; [by left|apply q_refl]|].
      destruct h; [|cbn in Hlen; lia]. exists x. split; [by right|]. apply q_once, q_begin_high.
    - destruct h; [|cbn in Hlen; lia]. exists pe. split; [by right|apply q_refl]. }
  exists p. split; [|exact Hr]. constructor; try done; [by exists bs|by rewrite Hl; constructor].
Qed.

Lemma send_socket_step id fd q (low : bool) sz buffer p ss : sending id fd q ss -> packet id buffer sz p ss ->
  (low = true -> 0 <= sz) ->
  exists r ss' q', send_socket K soi_buffer soi_size id sz buffer low None ss = Some (r, ss') /\
    q_run q [(low, p)] q' /\ sending id fd q' ss'.
Proof.
  intros Hq [Hp Hfresh] Hlow. unfold send_socket.
  destruct (send_object_init soi_buffer soi_size buffer sz) as [[data n] user] eqn:Eo.
  rewrite (sn_type _ _ _ _ Hq), (sn_id _ _ _ _ Hq), Z.eqb_refl, (sn_protocol _ _ _ _ Hq).
  cbn [is_type bool_decide sock_type_eq_dec negb orb Z.eqb PROTOCOL_TCP]. rewrite andb_true_r.
  destruct (send_buffer_empty (slot ss (HASH_ID id))) eqn:Eem.
  - destruct (sending_empty _ _ _ _ Hq Eem) as (pe & Hq1 & Hr).
    eexists _, _, (Queue (q_wire q) pe [(low, p)] []). split; [apply f_equal, surjective_pairing|].
    split; [|by apply sending_check_warning, sending_call, (sending_append_high id fd _ _ [])].
    apply (q_trans _ [] _ _ _ Hr), q_once. destruct low; [apply q_send_first|apply (q_send_high _ _ [])].
  - destruct q as [w pe h lo]. destruct low.
    + eexists _, _, _. split; [apply f_equal, surjective_pairing|]. split; [apply q_once, q_send_low|].
      apply sending_check_warning, sending_append_low; try done. specialize (Hlow eq_refl).
      unfold whole, new_buffer, send_object_init. by destruct (Z.ltb_spec sz 0); [lia|].
    + eexists _, _, _. split; [apply f_equal, surjective_pairing|]. split; [apply q_once, q_send_high|].
      by apply sending_check_warning, sending_append_high.
Qed.

(** A direct write: [n] bytes of the packet are on the wire, the rest is in [dw_buffer]. *)
Lemma direct_queue w p n : q_run (Queue w [] [] []) [(false, p)] (Queue (w ++ take n p) (drop n p) [] []).
Proof.
  apply (q_next _ [(false, p)] _ [] _ (q_send_high _ _ [] _ _)), (q_silent _ _ _ _ (q_begin_high _ _ _ _ _)), q_once.
  rewrite <-(take_drop n p) at 1. apply q_transmit.
Qed.

Lemma sending_nothing id fd w ss : s_dw_buffer (slot ss (HASH_ID id)) = 0 -> send_buffer_empty (slot ss (HASH_ID id)) = true ->
  forall q, sending id fd q ss -> q_run q [] (Queue (q_wire q) [] [] []) /\ q_low q = [] /\
    forall ss', slot ss' (HASH_ID id) = slot ss (HASH_ID id) -> written fd (ss_sys ss') = w ->
      sending id fd (Queue w [] [] []) ss'.
Proof.
  intros Hdw Hem q Hq. destruct (sending_empty _ _ _ _ Hq Hem) as (p & Hq1 & Hr).
  apply andb_prop in Hem as [Hh Hl]. apply bool_decide_eq_true in Hh, Hl.
  assert (p = []) as ->.
  { destruct (sn_front _ _ _ _ Hq1) as (bs & Hls & Hf). rewrite (dw_list_0 _ Hdw), Hh in Hls. inversion Hls; subst.
    cbn in Hf. by destruct Hf as [[-> _]|]. }
  split; [exact Hr|]. pose proof (sn_low _ _ _ _ Hq) as Hlow. rewrite Hl in Hlow. inversion Hlow as [E|].
  split; [done|]. intros ss' Es Hw. destruct Hq1 as [Hid Hfd Ht Hp _ _ _ Hwh Hnd Hsz].
  constructor; rewrite ?Es; try done; [|by rewrite Hl; constructor].
  exists []. rewrite (dw_list_0 _ Hdw), Hh. split; [constructor|by left].
Qed.

(** The write of a direct write; an error counts as nothing written. *)
Lemma write_some fd p ss : exists n, 0 <= n <= zlen p /\
  match k_write K (ss_sys ss) fd p with
  | IoOk n => (n, call (sys_write fd (take (Z.to_nat n) p)) ss)
  | _ => (0, call (sys_write fd []) ss)
  end = (n, call (sys_write fd (take (Z.to_nat n) p)) ss).
Proof using write_bound.
  destruct (k_write K (ss_sys ss) fd p) as [n| |] eqn:Ek; cycle 1.
  { exists 0. pose proof (zlen_nonneg p). split; [lia|done]. }
  { exists 0. pose proof (zlen_nonneg p). split; [lia|done]. }
  exists n. split; [by eapply write_bound|done].
Qed.

Lemma sending_dw_left id fd w n buffer sz p ss : sending id fd (Queue w [] [] []) ss ->
  send_buffer_empty (slot ss (HASH_ID id)) = true -> buffer <> 0 -> 0 <= n <= zlen p ->
  w_bytes soi_buffer (new_buffer soi_buffer soi_size buffer sz None) ss = Some p ->
  sending id fd (Queue w (drop (Z.to_nat n) p) [] []) (put (HASH_ID id) (set_dw n buffer sz (slot ss (HASH_ID id))) ss).
Proof.
  intros [Hid Hfd Ht Hpr Hw _ Hlo Hwh _ Hsz] [Hh Hl]%andb_prop Hb0 Hn Hp. apply bool_decide_eq_true in Hh, Hl.
  assert (dw_list (set_dw n buffer sz (slot ss (HASH_ID id))) =
          [advance_buffer (zlen (take (Z.to_nat n) p)) (new_buffer soi_buffer soi_size buffer sz None)]) as Edw.
  { unfold dw_list, new_buffer. cbn. rewrite (proj2 (Z.eqb_neq _ _) Hb0).
    destruct (send_object_init soi_buffer soi_size buffer sz) as [[data len] user]. unfold advance_buffer. cbn.
    assert (zlen (take (Z.to_nat n) p) = n) as -> by (unfold zlen in *; rewrite length_take; lia). done. }
  constructor; rewrite ?slot_put, ?Edw; try done; cbn [set_dw s_high s_low]; rewrite ?Hh, ?Hl; try done; [|apply NoDup_singleton].
  exists [drop (Z.to_nat n) p]. split; [|by right]. constructor; [|constructor]. apply load_advance. by rewrite take_drop.
Qed.

Lemma server_send_direct id fd q sz buffer p ss : sending id fd q ss -> packet id buffer sz p ss -> buffer <> 0 ->
  can_direct_write (slot ss (HASH_ID id)) id = true ->
  exists ss' q', socket_server_send K soi_buffer soi_size false id buffer sz ss = Some (0, ss') /\
    q_run q [(false, p)] q' /\ sending id fd q' ss'.
Proof using write_bound.
  intros Hq [Hp _] Hb0 Hcan. unfold socket_server_send. rewrite Hcan.
  rewrite (sn_type _ _ _ _ Hq), (sn_id _ _ _ _ Hq), Z.eqb_refl, (sn_protocol _ _ _ _ Hq), (sn_fd _ _ _ _ Hq).
  unfold can_direct_write in Hcan. do 4 apply andb_prop in Hcan as [Hcan ?].
  assert (s_dw_buffer (slot ss (HASH_ID id)) = 0) as Hdw by lia.
  assert (send_buffer_empty (slot ss (HASH_ID id)) = true) as Hem by done.
  pose proof Hp as Hpb. unfold new_buffer in Hp.
  destruct (send_object_init soi_buffer soi_size buffer sz) as [[data len] user] eqn:Eo.
  pose proof (send_object_base _ _ _ _ _ Eo) as Edata. pose proof (load_size _ _ _ Hp) as Hlen. cbn [w_sz] in Hlen.
  assert (load data data len ss = Some p) as Hload by (unfold w_bytes, w_base in Hp; cbn in Hp; by rewrite <-Edata in Hp).
  cbn [is_type bool_decide sock_type_eq_dec negb orb andb Z.eqb PROTOCOL_TCP]. rewrite Hload. cbn [mbind option_bind].
  destruct (write_some fd p ss) as (n & Hn & ->). cbn [mbind option_bind].
  destruct (sending_nothing id fd (q_wire q ++ take (Z.to_nat n) p) ss Hdw Hem q Hq) as (Hr & Hlow & Hnew).
  set (ss1 := call (sys_write fd (take (Z.to_nat n) p)) ss).
  assert (written fd (ss_sys ss1) = q_wire q ++ take (Z.to_nat n) p) as Hw1
    by (subst ss1; rewrite written_write; by rewrite (sn_wire _ _ _ _ Hq)).
  pose proof (q_trans _ [] _ _ _ Hr (direct_queue (q_wire q) p (Z.to_nat n))) as Hrun. cbn [app] in Hrun.
  destruct (Z.eqb_spec n len) as [->|Hne].
  - rewrite drop_ge in Hrun by (unfold zlen in *; lia).
    destruct (free_spec (WriteBuffer buffer data len user None) ss1 p Hp) as (ss2 & E2 & Hsame & Hsys & _).
    unfold write_buffer_free in E2. cbn [w_userobject w_buffer] in E2. rewrite E2. cbn [mbind option_bind].
    exists ss2, (Queue (q_wire q ++ take (Z.to_nat len) p) [] [] []). split_and!; [done|exact Hrun|].
    apply Hnew; [|by rewrite Hsys]. unfold slot. by rewrite (proj1 (proj2 Hsame)).
  - eexists _, _. split; [reflexivity|]. split; [exact Hrun|]. apply sending_call; [done|].
    exact (sending_dw_left id fd _ n buffer sz p ss1 (Hnew ss1 eq_refl Hw1) Hem Hb0 Hn Hpb).
Qed.

Lemma server_send_queued busy id fd q sz buffer ss : sending id fd q ss ->
  can_direct_write (slot ss (HASH_ID id)) id && negb busy = false ->
  socket_server_send K soi_buffer soi_size busy id buffer sz ss =
    Some (0, send_request (request_send id sz buffer false) ss) /\
  sending id fd q (send_request (request_send id sz buffer false) ss).
Proof.
  intros Hq Hcan. unfold socket_server_send. rewrite Hcan, (sn_type _ _ _ _ Hq), (sn_id _ _ _ _ Hq), Z.eqb_refl.
  split; [done|]. by eapply sending_ext.
Qed.

(** ** Runs *)

(** The operations on one socket: a send from any thread, a request that the socket thread
    takes, and the flush when the socket may be written; [busy] is a lock that is taken. *)
Inductive op :=
| Direct (busy : bool) (buffer sz : Z)
| Request (low : bool) (buffer sz : Z)
| Flush (busy : bool).

Definition do_op (id : Z) (o : op) ss : option socket_server :=
  match o with
  | Direct busy buffer sz => snd <$> socket_server_send K soi_buffer soi_size busy id buffer sz ss
  | Request low buffer sz => snd <$> send_socket K soi_buffer soi_size id sz buffer low None ss
  | Flush busy => snd <$> send_buffer K soi_buffer soi_size busy (HASH_ID id) ss
  end.

Definition object_bytes (buffer sz : Z) ss : list Z :=
  default [] (w_bytes soi_buffer (new_buffer soi_buffer soi_size buffer sz None) ss).

(** The packets that enter the queue; a send that goes to the pipe is none yet. *)
Definition accepted (id : Z) (o : op) ss : list (bool * list Z) :=
  match o with
  | Direct busy buffer sz =>
      if can_direct_write (slot ss (HASH_ID id)) id && negb busy then [(false, object_bytes buffer sz ss)] else []
  | Request low buffer sz => [(low, object_bytes buffer sz ss)]
  | Flush _ => []
  end.

(** A user object may not be sent with low priority. *)
Definition op_ok (id : Z) (o : op) ss : Prop :=
  match o with
  | Direct _ buffer sz => buffer <> 0 /\ packet id buffer sz (object_bytes buffer sz ss) ss
  | Request low buffer sz => (low = true -> 0 <= sz) /\ packet id buffer sz (object_bytes buffer sz ss) ss
  | Flush _ => True
  end.

Lemma do_op_step id fd q o ss : sending id fd q ss -> op_ok id o ss ->
  exists q', q_run q (accepted id o ss) q' /\
    match do_op id o ss with
    | Some ss' => open_or_closed id fd q' ss'
    | None => o = Flush false /\ stalled q'
    end.
Proof using write_bound.
  intros Hq Hok. destruct o as [busy buffer sz|low buffer sz|busy]; cbn [op_ok accepted do_op] in *.
  - destruct Hok as [Hb0 Hp]. destruct (can_direct_write _ id && negb busy) eqn:Ec.
    + apply andb_prop in Ec as [Ec Eb]. apply negb_true_iff in Eb. subst busy.
      destruct (server_send_direct id fd q sz buffer _ ss Hq Hp Hb0 Ec) as (ss' & q' & -> & Hr & Hq').
      exists q'. split; [done|by left].
    + destruct (server_send_queued busy id fd q sz buffer ss Hq Ec) as [-> Hq']. exists q. split; [apply q_refl|by left].
  - destruct Hok as [Hlow Hp].
    destruct (send_socket_step id fd q low sz buffer _ ss Hq Hp Hlow) as (r & ss' & q' & -> & Hr & Hq').
    exists q'. split; [done|by left].
  - destruct (send_buffer_step busy id fd q ss Hq) as (q' & Hr & Hres). exists q'. split; [done|].
    destruct (send_buffer K soi_buffer soi_size busy (HASH_ID id) ss) as [[r ss']|] eqn:E; [exact Hres|].
    split; [|done]. by destruct busy.
Qed.

Inductive sends (id : Z) : socket_server -> list (bool * list Z) -> socket_server -> Prop :=
| sends_stop ss : sends id ss [] ss
| sends_next o ss ss1 es ss2 : s_type (slot ss (HASH_ID id)) <> SOCKET_TYPE_INVALID -> op_ok id o ss ->
    do_op id o ss = Some ss1 -> sends id ss1 es ss2 -> sends id ss (accepted id o ss ++ es) ss2.

(** The same as a function, for concrete runs. *)
Definition packetb (id buffer sz : Z) ss : bool :=
  bool_decide (is_Some (w_bytes soi_buffer (new_buffer soi_buffer soi_size buffer sz None) ss)) &&
  bool_decide (w_base soi_buffer (new_buffer soi_buffer soi_size buffer sz None) ∉
    bases (dw_list (slot ss (HASH_ID id)) ++ s_high (slot ss (HASH_ID id)) ++ s_low (slot ss (HASH_ID id)))).

Definition op_okb (id : Z) (o : op) ss : bool :=
  match o with
  | Direct _ buffer sz => negb (buffer =? 0) && packetb id buffer sz ss
  | Request low buffer sz => (negb low || (0 <=? sz)) && packetb id buffer sz ss
  | Flush _ => true
  end.

Fixpoint run_ops (id : Z) (os : list op) ss : option (list (bool * list Z) * socket_server) :=
  match os with
  | [] => Some ([], ss)
  | o :: os =>
      _ ← cassert (negb (is_type (s_type (slot ss (HASH_ID id))) SOCKET_TYPE_INVALID) && op_okb id o ss);
      ss1 ← do_op id o ss;
      '(es, ss2) ← run_ops id os ss1;
      Some (accepted id o ss ++ es, ss2)
  end.

Lemma packetb_packet id buffer sz ss : packetb id buffer sz ss = true -> packet id buffer sz (object_bytes buffer sz ss) ss.
Proof.
  intros [Hp Hf]%andb_prop. apply bool_decide_eq_true in Hp as [p Hp], Hf. split; [|done]. unfold object_bytes. by rewrite Hp.
Qed.

Lemma op_okb_ok id o ss : op_okb id o ss = true -> op_ok id o ss.
Proof.
  destruct o; cbn [op_okb op_ok]; [intros [H Hp]%andb_prop..|done]; (split; [|by apply packetb_packet]).
  - intros ->. done.
  - intros ->. cbn in H. lia.
Qed.

Lemma run_ops_sends id os : forall ss es ss', run_ops id os ss = Some (es, ss') -> sends id ss es ss'.
Proof.
  induction os as [|o os IH]; intros ss es ss' H; cbn [run_ops] in H; [injection H as <- <-; apply sends_stop|].
  unfold cassert in H. destruct (negb _ && _) eqn:Ec; [|done]. cbn [mbind option_bind] in H. apply andb_prop in Ec as [Et Eo].
  apply bind_Some in H as (ss1 & E1 & H). apply bind_Some in H as ([es1 ss2] & E2 & [= <- <-]).
  apply (sends_next id o ss ss1); [|by apply op_okb_ok|done|by apply IH]. intros E. unfold is_type in Et. by rewrite E in Et.
Qed.

Lemma send_list_again s wb low b ss : s_protocol s = PROTOCOL_TCP -> w_bytes soi_buffer wb ss = Some b ->
  k_write K (ss_sys ss) (s_fd s) b = IoAgain ->
  send_list K soi_buffer s (wb :: low) ss = Some (false, wb :: low, 0, call (sys_write (s_fd s) []) ss).
Proof. intros Hp Hb Hk. unfold send_list. rewrite Hp. cbn [Z.eqb PROTOCOL_TCP send_list_tcp]. by rewrite Hb; cbn [mbind option_bind]; rewrite Hk. Qed.

Lemma send_buffer_low_stall i wb low b ss : s_protocol (slot ss i) = PROTOCOL_TCP -> s_low (slot ss i) = wb :: low ->
  whole wb -> w_bytes soi_buffer wb ss = Some b -> k_write K (ss_sys ss) (s_fd (slot ss i)) b = IoAgain ->
  send_buffer_low K soi_buffer i ss = None.
Proof.
  intros Hp Hl [_ Hwb] Hb Hk. unfold send_buffer_low. rewrite Hl. cbn [bool_decide decide_rel]. rewrite bool_decide_eq_false_2 by done.
  rewrite (send_list_again _ wb low b) by done. cbn [mbind option_bind list_uncomplete]. rewrite Hwb, Z.eqb_refl. cbn [negb].
  unfold send_buffer_empty. cbn [set_lists s_low]. rewrite (bool_decide_eq_false_2 (wb :: low = [])) by done. by rewrite andb_false_r.
Qed.

(** C11: A connected TCP socket with nothing to send refines the queue of packets, whatever
    the kernel takes in each call and whatever threads send: after any sends from other
    threads, requests and flushes, the bytes on the wire and the unsent rest are whole
    packets one after another, never interleaved, the packets of each priority are in the
    order of their acceptance, and the lists of the socket hold exactly what waits, until
    the connection is closed. *)
Theorem sends_whole_packets (id fd : Z) (wire : list Z) (ss ss' : socket_server) (es : list (bool * list Z)) :
  sending id fd (Queue wire [] [] []) ss -> sends id ss es ss' ->
  exists q, q_run (Queue wire [] [] []) es q /\ whole_packets wire es q /\ open_or_closed id fd q ss'.
Proof using write_bound.
  intros Hq Hs. assert (exists q, q_run (Queue wire [] [] []) es q /\ open_or_closed id fd q ss') as (q & Hr & Hq').
  { revert Hq. generalize (Queue wire [] [] []). induction Hs as [ss|o ss ss1 es ss2 Hty Hok Ho Hrest IH]; intros q Hq.
    - exists q. split; [apply q_refl|by left].
    - destruct (do_op_step id fd q o ss Hq Hok) as (q1 & Hr1 & H1). rewrite Ho in H1. destruct H1 as [H1|[Hinv Hw]].
      + destruct (IH q1 H1) as (q2 & Hr2 & H2). exists q2. split; [by eapply q_trans|done].
      + inversion Hrest as [|? ? ? ? ? Hne]; subst; [|contradiction]. rewrite app_nil_r. exists q1. split; [done|by right]. }
  exists q. split_and!; [done| |done]. apply (whole_run wire [] _ es q Hr). exists []. cbn. by rewrite !app_nil_r.
Qed.

(** No operation on a connected TCP socket aborts but the flush, and that one exactly
    when it comes to a low packet of which nothing is taken: [assert] at the end of
    [send_buffer_] then finds the list not empty (a full socket buffer is enough for that). *)
Theorem flush_aborts_on_stall (id fd : Z) (q : packet_queue) (ss : socket_server) :
  sending id fd q ss ->
  (forall o, op_ok id o ss -> do_op id o ss = None ->
     o = Flush false /\ exists q', q_run q (accepted id o ss) q' /\ stalled q') /\
  (forall b lo, s_dw_buffer (slot ss (HASH_ID id)) = 0 ->
     s_high (slot ss (HASH_ID id)) = [] -> q_low q = b :: lo ->
     k_write K (ss_sys ss) fd b = IoAgain -> do_op id (Flush false) ss = None).
Proof using write_bound.
  intros Hq. split.
  - intros o Hok Ho. destruct (do_op_step id fd q o ss Hq Hok) as (q' & Hr & H). rewrite Ho in H. destruct H as [-> H].
    split; [done|by exists q'].
  - intros b lo Hdw Hhigh Elo Hk. destruct Hq as [Hid Hfd Ht Hp Hw _ Hlow Hwh Hnd Hsz]. rewrite Elo in Hlow.
    inversion Hlow as [|wb ? low ? Hb Hrest Elow]; subst. rewrite <-Elow in Hwh. apply Forall_cons in Hwh as [Hwb Hwh].
    cbn [do_op]. unfold send_buffer. rewrite Hdw. cbn [negb Z.eqb].
    unfold send_buffer_. rewrite (whole_uncomplete (s_low _)) by (rewrite <-Elow; by constructor). rewrite Hhigh.
    unfold send_list. rewrite Hp. cbn [negb cassert mbind option_bind Z.eqb PROTOCOL_TCP send_list_tcp].
    rewrite bool_decide_eq_true_2 by done. cbn [negb].
    by rewrite (send_buffer_low_stall _ wb low b) by (rewrite ?slot_put; done).
Qed.

(** A socket that is closed gracefully while the rest of a direct write waits in
    [dw_buffer] and its lists are empty is closed at once: the rest [p] of the packet is
    freed and never written, while unsent lists would have made it half closed. *)
Theorem close_drops_direct_write (busy : bool) (id fd opaque : Z) (w p : list Z) (ss : socket_server) :
  sending id fd (Queue w p [] []) ss -> p <> [] -> s_dw_buffer (slot ss (HASH_ID id)) <> 0 ->
  send_buffer_empty (slot ss (HASH_ID id)) = true ->
  exists m ss', close_socket K soi_buffer soi_size busy id 0 opaque ss = Some (Some (SOCKET_CLOSE, m), ss') /\
    s_type (slot ss' (HASH_ID id)) = SOCKET_TYPE_INVALID /\ written fd (ss_sys ss') = w.
Proof.
  intros Hq Hp0 Hdw Hem. unfold close_socket. rewrite (sn_type _ _ _ _ Hq), (sn_id _ _ _ _ Hq), Z.eqb_refl, Hem.
  cbn [is_type bool_decide sock_type_eq_dec negb orb mbind option_bind Z.eqb]. rewrite Hem. cbn [orb].
  destruct (sn_front _ _ _ _ Hq) as (bs & Hl & _). apply andb_prop in Hem as [Hh Hlo]. apply bool_decide_eq_true in Hh, Hlo.
  unfold force_close. rewrite (sn_type _ _ _ _ Hq), Hh, Hlo. rewrite (proj2 (Z.eqb_neq _ _) Hdw).
  change (is_type SOCKET_TYPE_CONNECTED SOCKET_TYPE_INVALID) with false.
  change (is_type SOCKET_TYPE_CONNECTED SOCKET_TYPE_RESERVE) with false.
  change (is_type SOCKET_TYPE_CONNECTED SOCKET_TYPE_BIND) with false. change (polled SOCKET_TYPE_CONNECTED) with true.
  cbn [negb orb cassert mbind option_bind free_wb_list].
  rewrite Hh, app_nil_r in Hl. unfold dw_list in Hl. rewrite (proj2 (Z.eqb_neq _ _) Hdw) in Hl.
  destruct (send_object_init soi_buffer soi_size _ _) as [[data len] user] eqn:Eo.
  inversion Hl as [|wb b ? ? Hb _]; subst.
  set (ss2 := call (sys_close (s_fd (slot ss (HASH_ID id)))) (call (sys_del (s_fd (slot ss (HASH_ID id)))) ss)).
  destruct (free_spec _ ss2 b Hb) as (ss3 & E3 & Hsame & Hsys & _). unfold write_buffer_free in E3. cbn [w_userobject w_buffer] in E3.
  assert (free_buffer soi_buffer (s_dw_buffer (slot ss (HASH_ID id))) (s_dw_size (slot ss (HASH_ID id))) ss2 = Some ss3) as E.
  { rewrite <-E3. unfold free_buffer. f_equal. unfold send_object_init in Eo. by destruct (_ <? 0); injection Eo. }
  fold ss2. rewrite E. cbn [mbind option_bind]. eexists _, _. split; [reflexivity|]. rewrite slot_put. split; [done|].
  cbn [ss_sys put set_slots]. rewrite Hsys. subst ss2. rewrite !written_call by done. apply (sn_wire _ _ _ _ Hq).
Qed.
End sending.

(** ** A connected socket in action *)
Module Demo.
(** A kernel that takes three bytes at most in each call, and one whose socket buffer is full. *)
Definition kernel_of (write : list Z -> io) : kernel :=
  Kernel (fun _ _ b => write b) (fun _ _ _ _ => IoAgain) (fun _ _ _ => (IoAgain, [])) (fun _ _ => (IoAgain, [], []))
    (fun _ _ => false) (fun _ _ _ => ConnectFailed) (fun _ _ => AcceptFailed) (fun _ _ => false).
Definition slow : kernel := kernel_of (fun b => IoOk (Z.min 3 (zlen b))).
Definition full : kernel := kernel_of (fun _ => IoAgain).
Definition no_object (o : Z) : Z := o.

Lemma slow_bound tr fd bytes n : k_write slow tr fd bytes = IoOk n -> 0 <= n <= zlen bytes.
Proof. cbn. pose proof (zlen_nonneg bytes). intros [= <-]. lia. Qed.

Lemma full_bound tr fd bytes n : k_write full tr fd bytes = IoOk n -> 0 <= n <= zlen bytes.
Proof. done. Qed.

Definition sock (low : list write_buffer) (n dw_offset dw_buffer dw_size : Z) : socket :=
  Socket 1 [] low n 7 5 PROTOCOL_TCP SOCKET_TYPE_CONNECTED 0 0 64 [] dw_offset dw_buffer dw_size.
Definition server (s : socket) : socket_server :=
  SocketServer 5 {[5 := s]} [] true []
    (list_to_map [(100, [1; 2; 3; 4; 5]); (200, [6; 7; 8; 9]); (300, [10; 11]); (400, [12])]) [].

Lemma idle_sending : sending no_object no_object 5 7 (Queue [] [] [] []) (server (sock [] 0 0 0 0)).
Proof.
  constructor; try reflexivity; try constructor. exists []. split; [constructor|by left].
Qed.
End Demo.

(** A direct write of which three bytes are taken, two low packets, a high one, a flush: the
    first low packet goes to the empty high list, the high one overtakes the second. *)
Lemma sends_whole_packets_witness : exists ss' q,
  run_ops Demo.no_object Demo.no_object Demo.slow 5
    [Direct false 100 5; Request true 200 4; Request true 300 2; Request false 400 1; Flush false] (Demo.server (Demo.sock [] 0 0 0 0)) =
    Some ([(false, [1; 2; 3; 4; 5]); (true, [6; 7; 8; 9]); (true, [10; 11]); (false, [12])], ss') /\
  written 7 (ss_sys ss') = [1; 2; 3; 4; 5; 6; 7; 8] /\
  whole_packets [] [(false, [1; 2; 3; 4; 5]); (true, [6; 7; 8; 9]); (true, [10; 11]); (false, [12])] q /\
  open_or_closed Demo.no_object Demo.no_object 5 7 q ss'.
Proof.
  eexists. pose proof (fun ss' es H => sends_whole_packets Demo.no_object Demo.no_object Demo.slow Demo.slow_bound 5 7 [] _ ss' es
    Demo.idle_sending (run_ops_sends Demo.no_object Demo.no_object Demo.slow 5
      [Direct false 100 5; Request true 200 4; Request true 300 2; Request false 400 1; Flush false] _ es ss' H)) as HT.
  edestruct HT as (q & _ & Hw & Ho); [vm_compute; reflexivity|].
  exists q. split; [vm_compute; reflexivity|]. split; [vm_compute; reflexivity|]. split; [exact Hw|exact Ho].
Defined.

Lemma flush_aborts_on_stall_witness :
  do_op Demo.no_object Demo.no_object Demo.full 5 (Flush false)
    (Demo.server (Demo.sock [WriteBuffer 100 100 5 false None] 5 0 0 0)) = None.
Proof.
  apply (proj2 (flush_aborts_on_stall Demo.no_object Demo.no_object Demo.full Demo.full_bound 5 7
    (Queue [] [] [] [[1; 2; 3; 4; 5]]) (Demo.server (Demo.sock [WriteBuffer 100 100 5 false None] 5 0 0 0))
    ltac:(constructor; try reflexivity; [exists []; split; [constructor|by left]|
      by repeat constructor|by repeat constructor|apply NoDup_singleton])) [1; 2; 3; 4; 5] []); reflexivity.
Defined.

Lemma close_drops_direct_write_witness : exists m ss',
  close_socket Demo.full Demo.no_object Demo.no_object false 5 0 1 (Demo.server (Demo.sock [] 0 3 100 5)) =
    Some (Some (SOCKET_CLOSE, m), ss') /\
  s_type (slot ss' 5) = SOCKET_TYPE_INVALID /\ written 7 (ss_sys ss') = [].
Proof.
  apply (close_drops_direct_write Demo.no_object Demo.no_object Demo.full false 5 7 1 [] [4; 5]
    (Demo.server (Demo.sock [] 0 3 100 5))); [|done|done|reflexivity].
  constructor; try reflexivity; try constructor; [|set_solver|constructor].
  exists [[4; 5]]. split; [|by right]. constructor; [reflexivity|constructor].
Defined.
