(* ===== verification/SprotoPack.v ===== *)
(** lib/sproto/sproto.c, the packing of zeros: [sproto_pack] and [sproto_unpack] against a
    packing of lists of blocks.

    A buffer is the list of its bytes, so that its length is [bufsz] at the start; a read or
    a write outside a buffer makes the result [None]. *)
From S2P Require Import Prelude Bytes Buffer.

(** ** Packing *)

(** The loop of [pack_seg] from byte [i] on: header, number of bytes that are not zero. *)
Fixpoint seg_loop (src : list Z) (i header notzero pos sz : Z) (buffer : list Z) : option (Z * Z * list Z) :=
  match src with
  | [] => Some (header, notzero, buffer)
  | c :: src =>
      if negb (c =? 0) then
        let header := u8 (Z.lor header (Z.shiftl 1 i)) in
        if 0 <? sz then
          buffer ← buffer.[pos := c];
          seg_loop src (i + 1) header (notzero + 1) (pos + 1) (sz - 1) buffer
        else seg_loop src (i + 1) header (notzero + 1) pos sz buffer
      else seg_loop src (i + 1) header notzero pos sz buffer
  end.

(** [pack_seg] of the eight bytes [src] at [pos]. *)
Definition pack_seg (src : list Z) (pos sz n : Z) (buffer : list Z) : option (Z * list Z) :=
  '(header, notzero, buffer) ← seg_loop src 0 0 0 (pos + 1) (sz - 1) buffer;
  let notzero := if ((notzero =? 7) || (notzero =? 6)) && (0 <? n) then 8 else notzero in
  if notzero =? 8 then Some (if 0 <? n then 8 else 10, buffer)
  else
    buffer ← (if 0 <=? sz - 1 then buffer.[pos := header] else Some buffer);
    Some (notzero + 1, buffer).

(** Where a source pointer points: into the source, or at [tmp]. *)
Inductive src_ptr := InSrc (off : Z) | InTmp.

Definition src_load (src tmp : list Z) (p : src_ptr) (n : Z) : option (list Z) :=
  match p with InSrc off => slice src off n | InTmp => slice tmp 0 n end.

(** [write_ff] of [n] bytes at [des]. *)
Definition write_ff (src tmp : list Z) (p : src_ptr) (des n : Z) (buffer : list Z) : option (list Z) :=
  let align8_n := Z.land (n + 7) (Z.lnot 7) in
  buffer ← buffer.[des := 0xff];
  buffer ← buffer.[des + 1 := u8 (Z.quot align8_n 8 - 1)];
  data ← src_load src tmp p n;
  buffer ← memcpy buffer (des + 2) data;
  memcpy buffer (des + 2 + n) (replicate (Z.to_nat (align8_n - n)) 0).

(** The variables of [sproto_pack]. *)
Record pack_state := Pack {
  p_tmp : list Z;
  p_ffsrc : src_ptr;
  p_ffdes : Z;
  p_ffn : Z;
  p_pos : Z;                (* [buffer] from its start, which is [size] *)
  p_bufsz : Z;
  p_buffer : list Z
}.

(** The end of a turn of the loop: [n] is what [pack_seg] returned for the block at [p]. *)
Definition pack_account (src tmp : list Z) (p : src_ptr) (n : Z) (buffer : list Z) (st : pack_state) : option pack_state :=
  let bufsz := p_bufsz st - n in
  let pos := p_pos st + n in
  if n =? 10 then Some (Pack tmp p (p_pos st) 1 pos bufsz buffer)
  else if (n =? 8) && (0 <? p_ffn st) then
    if p_ffn st + 1 =? 256 then
      buffer ← (if 0 <=? bufsz then write_ff src tmp (p_ffsrc st) (p_ffdes st) (256 * 8) buffer else Some buffer);
      Some (Pack tmp (p_ffsrc st) (p_ffdes st) 0 pos bufsz buffer)
    else Some (Pack tmp (p_ffsrc st) (p_ffdes st) (p_ffn st + 1) pos bufsz buffer)
  else if 0 <? p_ffn st then
    buffer ← (if 0 <=? bufsz then write_ff src tmp (p_ffsrc st) (p_ffdes st) (p_ffn st * 8) buffer else Some buffer);
    Some (Pack tmp (p_ffsrc st) (p_ffdes st) 0 pos bufsz buffer)
  else Some (Pack tmp (p_ffsrc st) (p_ffdes st) (p_ffn st) pos bufsz buffer).

(** One turn of the loop. *)
Definition pack_turn (src : list Z) (i : Z) (st : pack_state) : option pack_state :=
  let padding := i + 8 - zlen src in
  '(p, tmp) ← (if 0 <? padding
               then data ← slice src i (8 - padding); Some (InTmp, data ++ replicate (Z.to_nat padding) 0)
               else Some (InSrc i, p_tmp st));
  block ← src_load src tmp p 8;
  '(n, buffer) ← pack_seg block (p_pos st) (p_bufsz st) (p_ffn st) (p_buffer st);
  pack_account src tmp p n buffer st.

Fixpoint pack_loop (n : nat) (src : list Z) (i : Z) (st : pack_state) : option pack_state :=
  match n with
  | O => Some st
  | S n => st ← pack_turn src i st; pack_loop n src (i + 8) st
  end.

(** [sproto_pack]: the size, and the buffer; [NULL] is written as the start of the source. *)
Definition sproto_pack (src buffer : list Z) : option (Z * list Z) :=
  st ← pack_loop (Z.to_nat (Z.quot (zlen src + 7) 8)) src 0
         (Pack (replicate 8 0) (InSrc 0) 0 0 0 (zlen buffer) buffer);
  if 0 <=? p_bufsz st then
    if p_ffn st =? 1 then
      buffer ← write_ff src (p_tmp st) (p_ffsrc st) (p_ffdes st) 8 (p_buffer st); Some (p_pos st, buffer)
    else if 1 <? p_ffn st then
      match p_ffsrc st with
      | InSrc off => buffer ← write_ff src (p_tmp st) (InSrc off) (p_ffdes st) (zlen src - off) (p_buffer st); Some (p_pos st, buffer)
      | InTmp => None                (* the difference of pointers into two objects *)
      end
    else Some (p_pos st, p_buffer st)
  else Some (p_pos st, p_buffer st).

(** ** Unpacking *)

(** The inner loop of [sproto_unpack] from bit [i] of [header] on; [None] inside is the
    return of -1.  [pos] is [size], and the place of [buffer] as long as it is written. *)
Fixpoint unpack_bits (n : nat) (i header : Z) (src : list Z) (s srcsz pos bufsz : Z) (buffer : list Z)
    : option (option (Z * Z * Z * Z * list Z)) :=
  match n with
  | O => Some (Some (s, srcsz, pos, bufsz, buffer))
  | S n =>
      if Z.testbit header i then
        if srcsz <? 0 then Some None
        else
          c ← src.[s];
          '(bufsz, buffer) ← (if 0 <? bufsz then buffer ← buffer.[pos := c]; Some (bufsz - 1, buffer) else Some (bufsz, buffer));
          unpack_bits n (i + 1) header src (s + 1) (srcsz - 1) (pos + 1) bufsz buffer
      else
        '(bufsz, buffer) ← (if 0 <? bufsz then buffer ← buffer.[pos := 0]; Some (bufsz - 1, buffer) else Some (bufsz, buffer));
        unpack_bits n (i + 1) header src s srcsz (pos + 1) bufsz buffer
  end.

(** The loop; every turn takes a byte, so that [fuel] above [srcsz] is enough. *)
Fixpoint unpack_loop (fuel : nat) (src : list Z) (s srcsz pos bufsz : Z) (buffer : list Z) : option (Z * list Z) :=
  if srcsz <=? 0 then Some (pos, buffer)
  else
    match fuel with
    | O => None
    | S fuel =>
        header ← src.[s];
        let srcsz := srcsz - 1 in
        let s := s + 1 in
        if header =? 0xff then
          if srcsz <? 0 then Some (-1, buffer)
          else
            c ← src.[s];
            let n := (c + 1) * 8 in
            if srcsz <? n + 1 then Some (-1, buffer)
            else
              buffer ← (if n <=? bufsz then data ← slice src (s + 1) n; memcpy buffer pos data else Some buffer);
              unpack_loop fuel src (s + 1 + n) (srcsz - (n + 1)) (pos + n) (bufsz - n) buffer
        else
          r ← unpack_bits 8 0 header src s srcsz pos bufsz buffer;
          match r with
          | None => Some (-1, buffer)
          | Some (s, srcsz, pos, bufsz, buffer) => unpack_loop fuel src s srcsz pos bufsz buffer
          end
    end.

Definition sproto_unpack (src buffer : list Z) : option (Z * list Z) :=
  unpack_loop (length src) src 0 (zlen src) 0 (zlen buffer) buffer.

Example pack_example : sproto_pack [8; 0; 0; 0; 3; 0; 2; 0; 0x19; 0; 0; 0; 0xaa; 1; 0; 0] (replicate 40 7) =
  Some (8, [0x51; 8; 3; 2; 0x31; 0x19; 0xaa; 1] ++ replicate 32 7).
Proof. vm_compute. reflexivity. Qed.

(** ** The reference: blocks of eight bytes *)

Definition nonzero (b : list Z) : list Z := filter (fun c => c <> 0) b.

(** The header of a block, as [seg_loop] makes it. *)
Fixpoint header_of (b : list Z) (i header : Z) : Z :=
  match b with
  | [] => header
  | c :: b => header_of b (i + 1) (if c =? 0 then header else u8 (Z.lor header (Z.shiftl 1 i)))
  end.

Definition seg (b : list Z) : list Z := header_of b 0 0 :: nonzero b.

(** A run of blocks that is written as it is. *)
Definition ff (run : list (list Z)) : list Z :=
  match run with [] => [] | _ => 0xff :: zlen run - 1 :: mjoin run end.

Definition full (after_run : bool) (b : list Z) : bool :=
  (zlen (nonzero b) =? 8) || (after_run && (6 <=? zlen (nonzero b))).

Definition running (run : list (list Z)) : bool := negb (zlen run =? 0).

Fixpoint pack_blocks (run blocks : list (list Z)) : list Z :=
  match blocks with
  | [] => ff run
  | b :: blocks =>
      if full (running run) b then
        if zlen run + 1 =? 256 then ff (run ++ [b]) ++ pack_blocks [] blocks else pack_blocks (run ++ [b]) blocks
      else ff run ++ seg b ++ pack_blocks [] blocks
  end.

(** Whether the last block completes a run of 256 blocks. *)
Fixpoint last_completes (run : Z) (blocks : list (list Z)) : bool :=
  match blocks with
  | [] => false
  | b :: blocks =>
      if full (negb (run =? 0)) b then
        if run + 1 =? 256 then bool_decide (blocks = []) || last_completes 0 blocks else last_completes (run + 1) blocks
      else last_completes 0 blocks
  end.

Fixpoint chunks (n : nat) (l : list Z) : list (list Z) :=
  match n with O => [] | S n => take 8 l :: chunks n (drop 8 l) end.

Definition padding_of (src : list Z) : Z := (- zlen src) mod 8.
Definition padded (src : list Z) : list Z := src ++ replicate (Z.to_nat (padding_of src)) 0.
Definition blocks_of (src : list Z) : list (list Z) := chunks (Z.to_nat (Z.quot (zlen src + 7) 8)) (padded src).

Lemma nonzero_cons c b : nonzero (c :: b) = if c =? 0 then nonzero b else c :: nonzero b.
Proof.
  unfold nonzero. destruct (Z.eqb_spec c 0) as [->|Hc]; [by rewrite filter_cons_False by naive_solver|by rewrite filter_cons_True].
Qed.

Lemma nonzero_le b : zlen (nonzero b) <= zlen b.
Proof. induction b as [|c b IH]; [done|]. rewrite nonzero_cons. destruct (c =? 0); rewrite ?zlen_cons; lia. Qed.

Lemma seg_loop_spec b : forall i header nz pos sz buffer, 0 <= pos -> (0 < sz -> pos + sz = zlen buffer) ->
  exists buffer', seg_loop b i header nz pos sz buffer = Some (header_of b i header, nz + zlen (nonzero b), buffer') /\
    same_until pos buffer buffer' /\ (zlen (nonzero b) <= sz -> holds buffer' pos (nonzero b)).
Proof.
  induction b as [|c b IH]; intros i header nz pos sz buffer Hpos Hsz; cbn [seg_loop header_of].
  - exists buffer. rewrite Z.add_0_r. split; [done|]. split; [done|]. intros _. apply holds_nil.
  - rewrite nonzero_cons. destruct (Z.eqb_spec c 0) as [->|Hc]; cbn [negb]; [by apply IH|].
    rewrite zlen_cons, Z.add_assoc. pose proof (zlen_nonneg (nonzero b)). destruct (Z.ltb_spec 0 sz) as [Hs|Hs].
    + destruct (buffer.[pos := c]) as [b1|] eqn:E; [|by rewrite aset_Some in E by lia].
      apply aset_same_until in E as [Hs1 Hx]. cbn [mbind option_bind].
      destruct (IH (i + 1) (u8 (Z.lor header (Z.shiftl 1 i))) (nz + 1) (pos + 1) (sz - 1) b1) as (b2 & E2 & Hs2 & Hl);
        [lia|destruct Hs1; lia|].
      exists b2. split; [done|]. split; [eapply same_until_trans; [|done..]; lia|]. intros Hle.
      apply holds_cons; [|apply Hl; lia]. destruct Hs2 as [_ Hs2]. by rewrite Hs2 by lia.
    + destruct (IH (i + 1) (u8 (Z.lor header (Z.shiftl 1 i))) (nz + 1) pos sz buffer) as (b2 & E2 & Hs2 & Hl); [lia|lia|].
      exists b2. split; [done|]. split; [done|]. lia.
Qed.

(** What [pack_seg] returns. *)
Definition seg_size (b : list Z) (n : Z) : Z :=
  if full (0 <? n) b then (if 0 <? n then 8 else 10) else zlen (nonzero b) + 1.

Lemma pack_seg_spec b pos n buffer : zlen b = 8 -> 0 <= pos ->
  exists buffer', pack_seg b pos (zlen buffer - pos) n buffer = Some (seg_size b n, buffer') /\
    same_until pos buffer buffer' /\
    (full (0 <? n) b = false -> pos + zlen (nonzero b) + 1 <= zlen buffer -> holds buffer' pos (seg b)).
Proof.
  intros Hb Hpos. unfold pack_seg.
  destruct (seg_loop_spec b 0 0 0 (pos + 1) (zlen buffer - pos - 1) buffer) as (b1 & -> & Hs1 & Hl1); [lia|lia|].
  cbn [mbind option_bind]. rewrite Z.add_0_l. pose proof (nonzero_le b). set (k := zlen (nonzero b)) in *.
  assert (((if ((k =? 7) || (k =? 6)) && (0 <? n) then 8 else k) =? 8) = full (0 <? n) b) as Ef.
  { unfold full. fold k. destruct (Z.eqb_spec k 7), (Z.eqb_spec k 6), (Z.ltb_spec 0 n), (Z.eqb_spec k 8), (Z.leb_spec 6 k); cbn; lia. }
  rewrite Ef. unfold seg_size. destruct (full (0 <? n) b) eqn:Efull.
  - exists b1. split; [done|]. split; [|done]. destruct Hs1 as [Hs1 Hs2]. split; [done|]. intros j Hj. apply Hs2. lia.
  - assert ((if ((k =? 7) || (k =? 6)) && (0 <? n) then 8 else k) = k) as ->.
    { destruct (((k =? 7) || (k =? 6)) && (0 <? n)); [|done]. done. }
    destruct (Z.leb_spec 0 (zlen buffer - pos - 1)) as [Hle|Hgt].
    + destruct Hs1 as [Hlen Hs1]. destruct (b1.[pos := header_of b 0 0]) as [b2|] eqn:E; [|by rewrite aset_Some in E by lia].
      apply aset_inv in E as Hr. cbn [mbind option_bind]. exists b2. split; [done|].
      assert (forall j, j <> pos -> b2.[j] = b1.[j]) as Hne
        by (intros j Hj; rewrite (aget_aset _ _ j _ _ E); by destruct (decide (pos = j))).
      split; [split; [rewrite (zlen_aset _ _ _ _ E); done|intros j Hj; rewrite Hne by lia; apply Hs1; lia]|].
      intros _ Hfit. apply holds_cons; [by apply aset_same_until in E as [_ E]|].
      intros j x Hj. apply aget_lt_Some in Hj as Hj'. rewrite Hne by lia. apply Hl1; [lia|done].
    + cbn [mbind option_bind]. exists b1. split; [done|]. destruct Hs1 as [Hs1 Hs2].
      split; [split; [done|]; intros j Hj; apply Hs2; lia|]. pose proof (zlen_nonneg (nonzero b)). lia.
Qed.

Lemma align8_spec n : 0 <= n -> Z.land (n + 7) (Z.lnot 7) = 8 * ((n + 7) / 8).
Proof.
  intros Hn. rewrite <-Z.ldiff_land. change 7 with (Z.ones 3) at 2. rewrite Z.ldiff_ones_r by lia.
  rewrite Z.shiftr_div_pow2, Z.shiftl_mul_pow2 by lia. change (2 ^ 3) with 8. lia.
Qed.

(** [write_ff] of [n] bytes writes a run, the bytes filled up with zeros, and nothing else. *)
Lemma write_ff_spec src tmp p des n buffer data : src_load src tmp p n = Some data -> 0 < n -> zlen data = n -> 0 <= des ->
  des + 2 + 8 * ((n + 7) / 8) <= zlen buffer ->
  exists buffer', write_ff src tmp p des n buffer = Some buffer' /\ same_until des buffer buffer' /\
    same_from (des + 2 + 8 * ((n + 7) / 8)) buffer buffer' /\
    holds buffer' des (0xff :: u8 ((n + 7) / 8 - 1) :: data ++ replicate (Z.to_nat (8 * ((n + 7) / 8) - n)) 0).
Proof.
  intros Hload Hn Hdata Hdes Hfit. unfold write_ff. rewrite align8_spec by lia. set (a := (n + 7) / 8) in *.
  assert (n <= 8 * a < n + 8) as Ha
    by (subst a; pose proof (Z.div_mod (n + 7) 8 ltac:(lia)); pose proof (Z.mod_pos_bound (n + 7) 8 ltac:(lia)); lia).
  replace (Z.quot (8 * a) 8) with a by (rewrite Z.mul_comm, Z.quot_mul; lia). rewrite Hload. cbn [mbind option_bind].
  set (l := 255 :: u8 (a - 1) :: data ++ replicate (Z.to_nat (8 * a - n)) 0).
  assert (zlen l = 2 + 8 * a) as Hl by (subst l; rewrite !zlen_cons, zlen_app, zlen_replicate; lia).
  destruct (memcpy_holds l buffer des) as (b & E & Hs & Hf & Hh); [done|lia|].
  exists b. split_and!; [|done|intros j Hj; apply Hf; lia|done].
  subst l. cbn [memcpy] in E. destruct (buffer.[des := 255]) as [b1|]; [|done]. cbn [mbind option_bind] in E |- *.
  destruct (b1.[des + 1 := u8 (a - 1)]) as [b2|]; [|done]. cbn [mbind option_bind] in E |- *.
  rewrite memcpy_app in E. replace (des + 1 + 1) with (des + 2) in E by lia. by rewrite Hdata in E.
Qed.

(** ** The loop of [sproto_pack] *)
Section packing.
Variable src : list Z.

Definition at_block (t : Z) : list Z := take 8 (drop (Z.to_nat (8 * t)) (padded src)).

Lemma zlen_padded : zlen (padded src) = 8 * Z.quot (zlen src + 7) 8 /\ 0 <= padding_of src < 8 /\
  zlen (padded src) = zlen src + padding_of src.
Proof.
  unfold padded, padding_of. rewrite zlen_app, zlen_replicate. pose proof (zlen_nonneg src).
  pose proof (Z.mod_pos_bound (- zlen src) 8 ltac:(lia)). pose proof (Z.div_mod (- zlen src) 8 ltac:(lia)).
  rewrite Z.quot_div_nonneg by lia. pose proof (Z.div_mod (zlen src + 7) 8 ltac:(lia)).
  pose proof (Z.mod_pos_bound (zlen src + 7) 8 ltac:(lia)). lia.
Qed.

Lemma slice_padded off n d : slice (padded src) off n = Some d -> off + n <= zlen src -> slice src off n = Some d.
Proof.
  unfold slice, cassert. intros H Hle. destruct (_ && _) eqn:E in H; [|done]. cbn [mbind option_bind] in H.
  repeat match goal with H : _ && _ = true |- _ => apply andb_prop in H as [? ?] end.
  rewrite !(proj2 (Z.leb_le _ _)) by lia. cbn [andb mbind option_bind]. rewrite <-H. f_equal. unfold padded.
  rewrite drop_app_le by (unfold zlen in *; lia). rewrite take_app_le; [done|]. rewrite length_drop. unfold zlen in *. lia.
Qed.

Lemma at_block_slice t : 0 <= t -> 8 * t < zlen src -> slice (padded src) (8 * t) 8 = Some (at_block t) /\ zlen (at_block t) = 8.
Proof.
  intros Ht Hlt. destruct zlen_padded as (H1 & H2 & H3).
  assert (8 * t + 8 <= zlen (padded src)) as Hle by lia. rewrite slice_spec by lia. split; [done|].
  unfold at_block, zlen in *. rewrite length_take, length_drop. lia.
Qed.

(** Where the block of turn [t] comes from. *)
Lemma block_source t tmp0 : 0 <= t -> 8 * t < zlen src ->
  exists p tmp,
    (if 0 <? 8 * t + 8 - zlen src
     then data ← slice src (8 * t) (8 - (8 * t + 8 - zlen src));
          Some (InTmp, data ++ replicate (Z.to_nat (8 * t + 8 - zlen src)) 0)
     else Some (InSrc (8 * t), tmp0)) = Some (p, tmp) /\
    src_load src tmp p 8 = Some (at_block t) /\
    ((p = InSrc (8 * t) /\ 8 * t + 8 <= zlen src) \/ (p = InTmp /\ tmp = at_block t /\ zlen src < 8 * t + 8)).
Proof.
  intros Ht Hlt. destruct (at_block_slice t Ht Hlt) as [Hb Hlen]. destruct zlen_padded as (H1 & H2 & H3).
  destruct (Z.ltb_spec 0 (8 * t + 8 - zlen src)) as [Hp|Hp].
  - exists InTmp, (at_block t). assert (8 * t + 8 - zlen src = padding_of src) as Epad by lia.
    rewrite slice_spec by lia. cbn [mbind option_bind]. split; [|split].
    + f_equal. f_equal. unfold at_block, padded. rewrite drop_app_le by (unfold zlen in *; lia). rewrite Epad.
      rewrite !take_ge; [done|..]; rewrite ?length_app, ?length_replicate, length_drop; unfold zlen in *; lia.
    + cbn [src_load]. rewrite slice_spec by lia. f_equal. by rewrite drop_0, take_ge by (unfold zlen in *; lia).
    + right. split_and!; [done|done|lia].
  - exists (InSrc (8 * t)), tmp0. split; [done|]. split; [|left; split; [done|lia]]. cbn [src_load]. apply slice_padded; [done|lia].
Qed.

(** After [t] turns: [out] is written (if the buffer is large enough), and [run] waits. *)
Record pack_inv (cap t : Z) (run : list (list Z)) (out : list Z) (st : pack_state) : Prop := PackInv {
  pi_ffn : p_ffn st = zlen run;
  pi_run : zlen run < 256;
  pi_pos : p_pos st = zlen out + zlen (ff run);
  pi_bufsz : p_bufsz st = cap - p_pos st;
  pi_cap : zlen (p_buffer st) = cap;
  pi_out : p_pos st <= cap -> holds (p_buffer st) 0 out;
  pi_des : 0 < zlen run -> p_ffdes st = zlen out;
  pi_size : zlen (mjoin run) = 8 * zlen run;
  pi_bytes : slice (padded src) (8 * (t - zlen run)) (8 * zlen run) = Some (mjoin run);
  pi_src : 0 < zlen run -> (p_ffsrc st = InSrc (8 * (t - zlen run)) /\ (zlen run = 1 -> 8 * t <= zlen src)) \/
             (p_ffsrc st = InTmp /\ zlen run = 1 /\ p_tmp st = mjoin run /\ zlen src < 8 * t)
}.

Lemma zlen_ff run : zlen (mjoin run) = 8 * zlen run -> zlen (ff run) = if 0 <? zlen run then 2 + 8 * zlen run else 0.
Proof.
  intros H. destruct run as [|b run]; [done|]. cbn [ff]. rewrite !zlen_cons, H, zlen_cons.
  pose proof (zlen_nonneg run). destruct (Z.ltb_spec 0 (1 + zlen run)); lia.
Qed.

Lemma running_lt run : running run = (0 <? zlen run).
Proof. unfold running. pose proof (zlen_nonneg run). destruct (Z.eqb_spec (zlen run) 0), (Z.ltb_spec 0 (zlen run)); cbn; lia. Qed.

(** A run of which all bytes are in the source is written. *)
Lemma write_run tmp off des run buffer : 0 < zlen run <= 256 -> zlen (mjoin run) = 8 * zlen run ->
  slice (padded src) off (8 * zlen run) = Some (mjoin run) -> off + 8 * zlen run <= zlen src -> 0 <= des ->
  des + zlen (ff run) <= zlen buffer ->
  exists buffer', write_ff src tmp (InSrc off) des (8 * zlen run) buffer = Some buffer' /\ same_until des buffer buffer' /\
    same_from (des + zlen (ff run)) buffer buffer' /\ holds buffer' des (ff run).
Proof.
  intros Hrun Hsize Hs Hle Hdes Hfit. rewrite (zlen_ff run Hsize) in *. destruct (Z.ltb_spec 0 (zlen run)); [|lia].
  assert ((8 * zlen run + 7) / 8 = zlen run) as Ea by (rewrite (Z.mul_comm 8), Z.div_add_l by lia; change (7 / 8) with 0; lia).
  destruct (write_ff_spec src tmp (InSrc off) des (8 * zlen run) buffer (mjoin run)) as (b & E & H1 & H2 & H3);
    [by apply slice_padded|lia|done|done|lia|].
  rewrite Ea, Z.sub_diag in *. cbn [Z.to_nat replicate] in H3. rewrite app_nil_r in H3.
  exists b. rewrite Z.add_assoc. split_and!; [done|done|done|]. unfold u8 in H3. rewrite Z.mod_small in H3 by lia.
  destruct run as [|b1 run]; [unfold zlen in H; cbn in H; lia|exact H3].
Qed.

Lemma zlen_mjoin_snoc (run : list (list Z)) b : zlen (mjoin (run ++ [b])) = zlen (mjoin run) + zlen b.
Proof. rewrite join_app, zlen_app. cbn. by rewrite app_nil_r. Qed.

Lemma slice_snoc off n (d : list Z) t : slice (padded src) off n = Some d -> off + n = 8 * t -> 0 <= t -> 8 * t < zlen src ->
  slice (padded src) off (n + 8) = Some (d ++ at_block t).
Proof.
  intros Hd Eoff Ht Hlt. destruct zlen_padded as (H1 & H2 & H3). unfold slice, cassert in Hd.
  destruct (_ && _) eqn:E in Hd; [|done]. cbn [mbind option_bind] in Hd. injection Hd as <-.
  repeat match goal with H : _ && _ = true |- _ => apply andb_prop in H as [? ?] end.
  rewrite slice_spec by lia. f_equal. unfold at_block. rewrite Z2Nat.inj_add, <-take_take_drop, drop_drop by lia.
  do 3 f_equal. lia.
Qed.

(** Up to the result of [pack_seg]. *)
Lemma pack_turn_seg cap t run out st : 0 <= t -> 8 * t < zlen src -> pack_inv cap t run out st ->
  exists p tmp buffer,
    pack_turn src (8 * t) st = pack_account src tmp p (seg_size (at_block t) (zlen run)) buffer st /\
    src_load src tmp p 8 = Some (at_block t) /\
    ((p = InSrc (8 * t) /\ 8 * t + 8 <= zlen src) \/ (p = InTmp /\ tmp = at_block t /\ zlen src < 8 * t + 8)) /\
    same_until (p_pos st) (p_buffer st) buffer /\
    (full (running run) (at_block t) = false -> p_pos st + zlen (nonzero (at_block t)) + 1 <= cap ->
       holds buffer (p_pos st) (seg (at_block t))).
Proof.
  intros Ht Hlt Hi. destruct (block_source t (p_tmp st) Ht Hlt) as (p & tmp & E1 & E2 & Hp).
  destruct (at_block_slice t Ht Hlt) as [_ Hlen]. destruct Hi as [Hffn Hrun Hpos Hbs Hcap Hout Hdes Hsize Hbytes Hsrc].
  pose proof (zlen_nonneg out). pose proof (zlen_nonneg (ff run)).
  destruct (pack_seg_spec (at_block t) (p_pos st) (zlen run) (p_buffer st) Hlen) as (buffer & E3 & Hs & Hseg); [lia|].
  exists p, tmp, buffer. unfold pack_turn. rewrite E1. cbn [mbind option_bind]. rewrite E2. cbn [mbind option_bind].
  rewrite Hbs, <-Hcap, Hffn, E3. cbn [mbind option_bind]. rewrite running_lt, Hcap in *. by split_and!.
Qed.

Lemma not_full after b : zlen b = 8 -> full after b = false ->
  zlen (nonzero b) <= 7 /\ (after = true -> zlen (nonzero b) <= 5).
Proof.
  intros Hb Hf. unfold full in Hf. apply orb_false_iff in Hf as [H1 H2]. pose proof (nonzero_le b). split; [lia|].
  intros ->. cbn in H2. lia.
Qed.

(** A full block joins the run, or starts one. *)
Lemma pack_turn_join cap t run out st : 0 <= t -> 8 * t < zlen src -> pack_inv cap t run out st ->
  full (running run) (at_block t) = true -> zlen run + 1 <> 256 ->
  exists st', pack_turn src (8 * t) st = Some st' /\ pack_inv cap (t + 1) (run ++ [at_block t]) out st'.
Proof.
  intros Ht Hlt Hi Hfull Hne. destruct (pack_turn_seg cap t run out st Ht Hlt Hi) as (p & tmp & buffer & -> & Hload & Hp & Hs & _).
  destruct (at_block_slice t Ht Hlt) as [Hb Hlen]. destruct Hi as [Hffn Hrun Hpos Hbs Hcap Hout Hdes Hsize Hbytes Hsrc].
  pose proof (zlen_nonneg out). pose proof (zlen_nonneg run).
  assert (zlen (run ++ [at_block t]) = zlen run + 1) as Hlen' by (rewrite zlen_app; unfold zlen; cbn; lia).
  assert (zlen (mjoin (run ++ [at_block t])) = 8 * zlen (run ++ [at_block t])) as Hsize' by (rewrite zlen_mjoin_snoc; lia).
  assert (slice (padded src) (8 * (t + 1 - zlen (run ++ [at_block t]))) (8 * zlen (run ++ [at_block t])) =
          Some (mjoin (run ++ [at_block t]))) as Hbytes'.
  { rewrite Hlen', join_app. cbn [mjoin list_join]. rewrite app_nil_r.
    replace (8 * (t + 1 - (zlen run + 1))) with (8 * (t - zlen run)) by lia.
    replace (8 * (zlen run + 1)) with (8 * zlen run + 8) by lia. apply slice_snoc; [done|lia|done|done]. }
  unfold seg_size, pack_account. rewrite <-running_lt, Hfull, running_lt, Hffn. rewrite (zlen_ff run Hsize) in Hpos.
  assert (zlen buffer = cap) as Hcap' by (rewrite (proj1 Hs); exact Hcap).
  destruct (Z.ltb_spec 0 (zlen run)) as [Hr|Hr]; cbn [Z.eqb Pos.eqb andb].
  - rewrite (proj2 (Z.eqb_neq _ _) Hne). eexists. split; [reflexivity|].
    constructor; cbn [p_ffn p_pos p_bufsz p_buffer p_ffdes p_ffsrc p_tmp]; rewrite ?(zlen_ff _ Hsize'), ?Hlen'; try lia; try done.
    + destruct (Z.ltb_spec 0 (zlen run + 1)); lia.
    + intros Hfit. eapply holds_same; [exact Hs|lia|]. apply Hout. lia.
    + rewrite <-Hlen'. exact Hbytes'.
    + intros _. left. destruct (Hsrc Hr) as [[-> _]|(_ & _ & _ & Hbad)]; [split; [f_equal; lia|lia]|lia].
  - assert (run = []) as -> by (apply zlen_nil_inv; lia). cbn [app] in *. eexists. split; [reflexivity|].
    constructor; cbn [p_ffn p_pos p_bufsz p_buffer p_ffdes p_ffsrc p_tmp]; rewrite ?(zlen_ff _ Hsize'), ?Hlen'; try done; try lia.
    + change (zlen (@nil (list Z))) with 0. destruct (Z.ltb_spec 0 (0 + 1)); lia.
    + intros Hfit. eapply holds_same; [exact Hs|lia|]. apply Hout. lia.
    + intros _. change (zlen (@nil (list Z))) with 0. destruct Hp as [[-> Hin]|(-> & -> & Hlt')].
      * left. split; [f_equal; lia|lia].
      * right. split_and!; [done|done| |lia]. cbn. by rewrite app_nil_r.
Qed.

Lemma pack_inv_none cap t out tmp p des pos buffer : 0 <= t <= Z.quot (zlen src + 7) 8 -> pos = zlen out -> zlen buffer = cap ->
  (pos <= cap -> holds buffer 0 out) -> pack_inv cap t [] out (Pack tmp p des 0 pos (cap - pos) buffer).
Proof.
  intros Ht Hpos Hcap Hout. destruct zlen_padded as (H1 & H2 & H3).
  constructor; cbn [p_ffn p_pos p_bufsz p_buffer p_ffdes p_ffsrc p_tmp ff mjoin list_join];
    change (zlen (@nil (list Z))) with 0; change (zlen (@nil Z)) with 0; try done; try lia.
  rewrite slice_spec by lia. done.
Qed.

(** The run ends before the block. *)
Lemma pack_turn_seg_out cap t run out st : 0 <= t -> 8 * t < zlen src -> pack_inv cap t run out st ->
  full (running run) (at_block t) = false ->
  exists st', pack_turn src (8 * t) st = Some st' /\ pack_inv cap (t + 1) [] (out ++ ff run ++ seg (at_block t)) st'.
Proof.
  intros Ht Hlt Hi Hfull. destruct (pack_turn_seg cap t run out st Ht Hlt Hi) as (p & tmp & buffer & -> & Hload & Hp & Hs & Hseg).
  specialize (Hseg Hfull). destruct (at_block_slice t Ht Hlt) as [Hb Hlen]. destruct (not_full _ _ Hlen Hfull) as [H7 H5].
  destruct zlen_padded as (Hz1 & Hz2 & Hz3). destruct Hi as [Hffn Hrun Hpos Hbs Hcap Hout Hdes Hsize Hbytes Hsrc].
  pose proof (zlen_nonneg out). pose proof (zlen_nonneg run). pose proof (zlen_nonneg (nonzero (at_block t))).
  assert (zlen buffer = cap) as Hcap' by (rewrite (proj1 Hs); exact Hcap).
  assert (zlen (out ++ ff run ++ seg (at_block t)) = p_pos st + (zlen (nonzero (at_block t)) + 1)) as Hzlen
    by (rewrite !zlen_app; unfold seg; rewrite zlen_cons, Hpos; lia).
  unfold seg_size, pack_account. rewrite <-running_lt, Hfull, running_lt in *. rewrite Hffn, Hbs.
  rewrite (proj2 (Z.eqb_neq _ 10)) by lia.
  replace (cap - p_pos st - (zlen (nonzero (at_block t)) + 1)) with (cap - (p_pos st + (zlen (nonzero (at_block t)) + 1))) by lia.
  destruct (Z.ltb_spec 0 (zlen run)) as [Hr|Hr].
  - specialize (H5 eq_refl). rewrite (proj2 (Z.eqb_neq _ 8)) by lia. cbn [andb].
    destruct (Z.leb_spec 0 (cap - (p_pos st + (zlen (nonzero (at_block t)) + 1)))) as [Hfit|Hfit]; cbn [mbind option_bind].
    + destruct (Hsrc Hr) as [[-> _]|(_ & _ & _ & Hbad)]; [|lia]. rewrite (Hdes Hr), (Z.mul_comm (zlen run)).
      destruct (write_run tmp (8 * (t - zlen run)) (zlen out) run buffer) as (b2 & -> & Hs2 & Hf2 & Hh2); [lia|done|done|lia|done|lia|].
      cbn [mbind option_bind]. eexists. split; [reflexivity|].
      apply pack_inv_none; [lia|lia|by rewrite (proj1 Hs2)|]. intros _.
      apply holds_app; [|apply holds_app].
      * eapply holds_same; [exact Hs2|lia|]. eapply holds_same; [exact Hs|pose proof (zlen_nonneg (ff run)); lia|]. apply Hout. lia.
      * exact Hh2.
      * rewrite <-Hpos in Hf2. rewrite Z.add_0_l, <-Hpos. intros j x Hj. apply aget_lt_Some in Hj as Hj'. rewrite Hf2 by lia.
        apply Hseg; [lia|done].
    + eexists. split; [reflexivity|]. apply pack_inv_none; [lia|lia|done|lia].
  - assert (run = []) as -> by (apply zlen_nil_inv; lia). rewrite andb_false_r. eexists. split; [reflexivity|].
    change (zlen (@nil (list Z))) with 0. cbn [ff app] in *. change (zlen (@nil Z)) with 0 in *.
    apply pack_inv_none; [lia|lia|done|]. intros Hfit. apply holds_app.
    + eapply holds_same; [exact Hs|lia|]. apply Hout. lia.
    + rewrite Z.add_0_l. replace (zlen out) with (p_pos st) by lia. apply Hseg. lia.
Qed.

(** The block completes a run of 256 blocks, which is written at once; if it is the padded
    one, that reads behind the source. *)
Lemma pack_turn_256 cap t run out st : 0 <= t -> 8 * t < zlen src -> pack_inv cap t run out st ->
  full (running run) (at_block t) = true -> zlen run + 1 = 256 ->
  (8 * t + 8 <= zlen src \/ cap < p_pos st + 8 ->
   exists st', pack_turn src (8 * t) st = Some st' /\ pack_inv cap (t + 1) [] (out ++ ff (run ++ [at_block t])) st') /\
  (zlen src < 8 * t + 8 -> p_pos st + 8 <= cap -> pack_turn src (8 * t) st = None).
Proof.
  intros Ht Hlt Hi Hfull H256. destruct (pack_turn_seg cap t run out st Ht Hlt Hi) as (p & tmp & buffer & -> & Hload & Hp & Hs & _).
  destruct (at_block_slice t Ht Hlt) as [Hb Hlen]. destruct zlen_padded as (Hz1 & Hz2 & Hz3).
  destruct Hi as [Hffn Hrun Hpos Hbs Hcap Hout Hdes Hsize Hbytes Hsrc].
  pose proof (zlen_nonneg out). assert (zlen buffer = cap) as Hcap' by (rewrite (proj1 Hs); exact Hcap).
  assert (zlen (run ++ [at_block t]) = 256) as Hlen' by (rewrite zlen_app; unfold zlen; cbn; unfold zlen in H256; lia).
  assert (zlen (mjoin (run ++ [at_block t])) = 8 * zlen (run ++ [at_block t])) as Hsize' by (rewrite zlen_mjoin_snoc; lia).
  pose proof (zlen_ff _ Hsize') as Hff. rewrite (zlen_ff run Hsize) in Hpos. rewrite Hlen' in Hff. change (0 <? 256) with true in Hff. cbv iota in Hff.
  unfold seg_size, pack_account. rewrite <-running_lt, Hfull, running_lt, Hffn.
  destruct (Z.ltb_spec 0 (zlen run)) as [Hr|Hr]; [|lia]. cbn [Z.eqb Pos.eqb andb]. rewrite H256. cbn [Z.eqb Pos.eqb].
  destruct (Hsrc Hr) as [[-> _]|(_ & Hbad & _)]; [|lia]. rewrite (Hdes Hr), Hbs.
  replace (cap - p_pos st - 8) with (cap - (p_pos st + 8)) by lia. split.
  - intros Hor. destruct (Z.leb_spec 0 (cap - (p_pos st + 8))) as [Hfit|Hfit]; cbn [mbind option_bind].
    + destruct (write_run tmp (8 * (t - zlen run)) (zlen out) (run ++ [at_block t]) buffer) as (b2 & E2 & Hs2 & Hf2 & Hh2);
        rewrite ?Hlen'; [lia|lia| |lia|done|lia|].
      { rewrite join_app. cbn [mjoin list_join]. rewrite app_nil_r. replace (8 * 256) with (8 * zlen run + 8) by lia.
        apply slice_snoc; [done|lia|done|done]. }
      rewrite Hlen' in E2. change (256 * 8) with (8 * 256). rewrite E2. cbn [mbind option_bind].
      eexists. split; [reflexivity|]. apply pack_inv_none; [lia|rewrite zlen_app; lia|by rewrite (proj1 Hs2)|]. intros _.
      apply holds_app; [|exact Hh2]. eapply holds_same; [exact Hs2|lia|]. eapply holds_same; [exact Hs|lia|]. apply Hout. lia.
    + eexists. split; [reflexivity|]. apply pack_inv_none; [lia|rewrite zlen_app; lia|done|lia].
  - intros Hpart Hfit. rewrite (proj2 (Z.leb_le _ _)) by lia. unfold write_ff.
    destruct (buffer.[zlen out := 255]) as [b1|]; [|done]. cbn [mbind option_bind].
    destruct (b1.[zlen out + 1 := _]) as [b2|]; [|done]. cbn [mbind option_bind src_load].
    unfold slice. rewrite (proj2 (Z.leb_gt (_ + _) _)) by lia. by rewrite andb_false_r.
Qed.

Lemma chunks_drop n t : 0 <= t -> chunks (S n) (drop (Z.to_nat (8 * t)) (padded src)) =
  at_block t :: chunks n (drop (Z.to_nat (8 * (t + 1))) (padded src)).
Proof. intros Ht. cbn [chunks]. f_equal. rewrite drop_drop. do 2 f_equal. lia. Qed.

Lemma chunks_nil n l : chunks n l = [] -> n = O.
Proof. by destruct n. Qed.

(** Whether the padded block completes a run of 256 blocks. *)
Definition completes (run : Z) (blocks : list (list Z)) : bool := last_completes run blocks && (0 <? padding_of src).

Lemma pack_loop_spec cap n : forall t run out st, pack_inv cap t run out st -> 0 <= t -> t + Z.of_nat n = Z.quot (zlen src + 7) 8 ->
  let blocks := chunks n (drop (Z.to_nat (8 * t)) (padded src)) in
  (completes (zlen run) blocks = false ->
   exists run' out' st', pack_loop n src (8 * t) st = Some st' /\ pack_inv cap (Z.quot (zlen src + 7) 8) run' out' st' /\
     out' ++ ff run' = out ++ pack_blocks run blocks) /\
  (completes (zlen run) blocks = true -> zlen (out ++ pack_blocks run blocks) <= cap -> pack_loop n src (8 * t) st = None).
Proof.
  destruct zlen_padded as (Hz1 & Hz2 & Hz3). unfold completes.
  induction n as [|n IH]; intros t run out st Hi Ht Hn; cbv zeta.
  - cbn [chunks pack_loop pack_blocks last_completes]. split; [|done]. intros _. exists run, out, st.
    split; [done|]. by replace (Z.quot (zlen src + 7) 8) with t by lia.
  - rewrite chunks_drop by done. cbn [pack_loop pack_blocks last_completes]. fold (running run).
    assert (8 * t < zlen src) as Hlt by lia. replace (8 * t + 8) with (8 * (t + 1)) by lia.
    destruct (full (running run) (at_block t)) eqn:Efull; [destruct (Z.eqb_spec (zlen run + 1) 256) as [H256|H256]|].
    + destruct (pack_turn_256 cap t run out st Ht Hlt Hi Efull H256) as [Hok Hbad].
      case_bool_decide as Elast; cbn [orb].
      * apply chunks_nil in Elast as ->. cbn [chunks pack_blocks ff pack_loop] in *. rewrite app_nil_r. split.
        -- intros Hc. destruct Hok as (st' & -> & Hi'); [lia|]. exists [], (out ++ ff (run ++ [at_block t])), st'.
           replace (Z.quot (zlen src + 7) 8) with (t + 1) by lia. cbn [mbind option_bind ff]. rewrite app_nil_r. done.
        -- intros Hc Hfit. rewrite Hbad; [done|lia|]. rewrite zlen_app, (pi_pos _ _ _ _ _ Hi) in *.
           destruct (at_block_slice t Ht Hlt) as [_ Hlen]. pose proof (pi_size _ _ _ _ _ Hi) as Hs.
           rewrite zlen_ff in * by (rewrite ?zlen_mjoin_snoc, ?zlen_app, Hs, ?Hlen; unfold zlen; cbn; lia).
           rewrite zlen_app in Hfit. change (zlen [at_block t]) with 1 in Hfit. rewrite H256 in Hfit.
           change (0 <? 256) with true in Hfit. cbv iota in Hfit. destruct (0 <? zlen run); lia.
      * destruct Hok as (st' & -> & Hi'); [left; destruct n; [done|lia]|]. cbn [mbind option_bind].
        rewrite app_assoc. by apply (IH (t + 1) [] _ st' Hi'); [lia|lia].
    + destruct (pack_turn_join cap t run out st Ht Hlt Hi Efull H256) as (st' & -> & Hi'). cbn [mbind option_bind].
      assert (zlen run + 1 = zlen (run ++ [at_block t])) as -> by (rewrite zlen_app; done).
      by apply (IH (t + 1) _ out st' Hi'); [lia|lia].
    + destruct (pack_turn_seg_out cap t run out st Ht Hlt Hi Efull) as (st' & -> & Hi'). cbn [mbind option_bind].
      assert (forall l, out ++ ff run ++ seg (at_block t) ++ l = (out ++ ff run ++ seg (at_block t)) ++ l) as ->
        by (intros l; by rewrite <-!app_assoc).
      by apply (IH (t + 1) [] _ st' Hi'); [lia|lia].
Qed.

(** The run that is left is written at the end, filled up with zeros. *)
Lemma write_last cap run out st : pack_inv cap (Z.quot (zlen src + 7) 8) run out st ->
  exists buffer, (if 0 <=? p_bufsz st then
    if p_ffn st =? 1 then
      buffer ← write_ff src (p_tmp st) (p_ffsrc st) (p_ffdes st) 8 (p_buffer st); Some (p_pos st, buffer)
    else if 1 <? p_ffn st then
      match p_ffsrc st with
      | InSrc off => buffer ← write_ff src (p_tmp st) (InSrc off) (p_ffdes st) (zlen src - off) (p_buffer st); Some (p_pos st, buffer)
      | InTmp => None
      end
    else Some (p_pos st, p_buffer st)
  else Some (p_pos st, p_buffer st)) = Some (zlen (out ++ ff run), buffer) /\ zlen buffer = cap /\
  (zlen (out ++ ff run) <= cap -> holds buffer 0 (out ++ ff run)).
Proof.
  destruct zlen_padded as (Hz1 & Hz2 & Hz3). set (K := Z.quot (zlen src + 7) 8) in *.
  intros [Hffn Hrun Hpos Hbs Hcap Hout Hdes Hsize Hbytes Hsrc]. rewrite zlen_app, <-Hpos. pose proof (zlen_nonneg out).
  pose proof (zlen_nonneg run). pose proof (zlen_nonneg (ff run)). rewrite Hbs.
  destruct (Z.leb_spec 0 (cap - p_pos st)) as [Hfit|Hfit]; [|exists (p_buffer st); split_and!; [done|done|lia]].
  rewrite Hffn. pose proof (zlen_ff run Hsize) as Hff. destruct (Z.ltb_spec 0 (zlen run)) as [Hr|Hr].
  2: { assert (run = []) as -> by (apply zlen_nil_inv; lia). exists (p_buffer st). cbn [ff]. rewrite app_nil_r.
       split_and!; [done|done|]. intros _. apply Hout. lia. }
  assert (forall n data, 8 * ((n + 7) / 8) = 8 * zlen run -> 0 < n -> zlen data = n ->
    src_load src (p_tmp st) (p_ffsrc st) n = Some data -> data ++ replicate (Z.to_nat (8 * zlen run - n)) 0 = mjoin run ->
    exists b, write_ff src (p_tmp st) (p_ffsrc st) (p_ffdes st) n (p_buffer st) = Some b /\ zlen b = cap /\
      holds b 0 (out ++ ff run)) as Hwrite.
  { intros n data Ha Hn Hdata Hload Ejoin. rewrite (Hdes Hr).
    destruct (write_ff_spec src (p_tmp st) (p_ffsrc st) (zlen out) n (p_buffer st) data) as (b & E & Hw1 & Hw2 & Hw3); [done|done|done|lia|lia|].
    exists b. split; [done|]. split; [by rewrite (proj1 Hw1)|]. apply holds_app.
    - eapply holds_same; [exact Hw1|lia|]. apply Hout. lia.
    - rewrite Z.add_0_l. assert ((n + 7) / 8 = zlen run) as Ez by lia. rewrite Ha, Ez, Ejoin in Hw3. unfold u8 in Hw3.
      rewrite Z.mod_small in Hw3 by lia. destruct run; [unfold zlen in Hr; cbn in Hr; lia|exact Hw3]. }
  destruct (Hsrc Hr) as [[Hp Hone]|(Hp & Hrun1 & Htmp & _)].
  - pose proof (slice_inv _ _ _ _ Hbytes) as (Hoff & _ & Hend & _).
    assert (slice src (8 * (K - zlen run)) (zlen src - 8 * (K - zlen run)) = Some (drop (Z.to_nat (8 * (K - zlen run))) src)) as Hload.
    { rewrite slice_spec by lia. f_equal. apply take_ge. rewrite length_drop. unfold zlen in *. lia. }
    assert (drop (Z.to_nat (8 * (K - zlen run))) src ++ replicate (Z.to_nat (padding_of src)) 0 = mjoin run) as Ejoin.
    { rewrite slice_spec in Hbytes by lia. injection Hbytes as <-. unfold padded. rewrite drop_app_le by (unfold zlen in *; lia).
      symmetry. apply take_ge. rewrite length_app, length_drop, length_replicate. unfold zlen in *. lia. }
    destruct (Hwrite (zlen src - 8 * (K - zlen run)) (drop (Z.to_nat (8 * (K - zlen run))) src)) as (b & E & Hb1 & Hb2);
      [| |unfold zlen in *; rewrite length_drop; lia|rewrite Hp; exact Hload| |].
    { replace (zlen src - 8 * (K - zlen run) + 7) with (zlen run * 8 + (7 - padding_of src)) by lia.
      rewrite Z.div_add_l, (Z.div_small (7 - _)) by lia. lia. }
    { lia. }
    { rewrite <-Ejoin. do 2 f_equal. lia. }
    rewrite Hp in *. destruct (Z.eqb_spec (zlen run) 1) as [E1|E1].
    + specialize (Hone E1). replace (zlen src - 8 * (K - zlen run)) with 8 in E by lia. rewrite E. cbn [mbind option_bind].
      by exists b.
    + rewrite (proj2 (Z.ltb_lt _ _)) by lia. rewrite E. cbn [mbind option_bind]. by exists b.
  - rewrite Hrun1. cbn [Z.eqb Pos.eqb]. destruct (Hwrite 8 (mjoin run)) as (b & -> & Hb1 & Hb2);
      [by rewrite Hrun1|lia|rewrite Hsize, Hrun1; lia| |rewrite Hrun1; cbn; by rewrite app_nil_r|by exists b].
    rewrite Hp. cbn [src_load]. rewrite Htmp, slice_spec by (rewrite ?Hsize; lia). rewrite drop_0. f_equal. apply take_ge.
    unfold zlen in *. lia.
Qed.

(** The packed bytes of [src]. *)
Definition packed : list Z := pack_blocks [] (blocks_of src).

Lemma sproto_pack_spec buffer :
  (completes 0 (blocks_of src) = false ->
   exists buffer', sproto_pack src buffer = Some (zlen packed, buffer') /\ zlen buffer' = zlen buffer /\
     (zlen packed <= zlen buffer -> take (length packed) buffer' = packed)) /\
  (completes 0 (blocks_of src) = true -> zlen packed <= zlen buffer -> sproto_pack src buffer = None).
Proof.
  destruct zlen_padded as (Hz1 & Hz2 & Hz3). pose proof (zlen_nonneg src).
  assert (0 <= Z.quot (zlen src + 7) 8) as HK by lia. unfold sproto_pack, packed.
  pose proof (pack_inv_none (zlen buffer) 0 [] (replicate 8 0) (InSrc 0) 0 0 buffer ltac:(lia) eq_refl eq_refl
    (fun _ => holds_nil buffer 0)) as Hi. rewrite Z.sub_0_r in Hi.
  destruct (pack_loop_spec (zlen buffer) (Z.to_nat (Z.quot (zlen src + 7) 8)) 0 [] [] _ Hi) as [Hok Hbad]; [lia|lia|].
  change (Z.to_nat (8 * 0)) with O in Hok, Hbad. rewrite drop_0 in Hok, Hbad. fold (blocks_of src) in Hok, Hbad.
  change (zlen (@nil (list Z))) with 0 in Hok, Hbad. change (8 * 0) with 0 in Hok, Hbad. cbn [app] in Hok, Hbad. split.
  - intros Hc. destruct (Hok Hc) as (run & out & st & -> & Hinv & Eout). cbn [mbind option_bind].
    destruct (write_last (zlen buffer) run out st Hinv) as (b & E & Hcap & Hh). rewrite Eout in E, Hh.
    exists b. split; [exact E|]. split; [exact Hcap|]. intros Hfit. apply holds_take; [by apply Hh|lia].
  - intros Hc Hfit. by rewrite (Hbad Hc Hfit).
Qed.
End packing.

(** ** The reference of unpacking *)

Inductive unpack_end :=
| Done
| Short          (* a run is shorter than its length says *)
| Over.          (* the bytes of a block, or the length of a run, are missing *)

Fixpoint take_bits (n : nat) (i header : Z) (src : list Z) : option (list Z * list Z) :=
  match n with
  | O => Some ([], src)
  | S n =>
      if Z.testbit header i then
        match src with
        | [] => None
        | c :: src => '(out, rest) ← take_bits n (i + 1) header src; Some (c :: out, rest)
        end
      else '(out, rest) ← take_bits n (i + 1) header src; Some (0 :: out, rest)
  end.

Fixpoint unpack_ref (fuel : nat) (src : list Z) : list Z * unpack_end :=
  match fuel, src with
  | _, [] => ([], Done)
  | O, _ => ([], Over)
  | S fuel, header :: src =>
      if header =? 0xff then
        match src with
        | [] => ([], Over)
        | c :: src =>
            let n := (c + 1) * 8 in
            if zlen src <? n then ([], Short)
            else let '(out, e) := unpack_ref fuel (drop (Z.to_nat n) src) in (take (Z.to_nat n) src ++ out, e)
        end
      else
        match take_bits 8 0 header src with
        | None => ([], Over)
        | Some (out, rest) => let '(out', e) := unpack_ref fuel rest in (out ++ out', e)
        end
  end.

(** The buffer from [pos] on, with [bufsz] left. *)
Definition room (cap pos bufsz : Z) : Prop := 0 <= pos /\ (0 < bufsz -> pos + bufsz = cap) /\ (bufsz <= 0 -> cap <= pos).

Lemma put_byte cap pos bufsz buffer c : room cap pos bufsz -> zlen buffer = cap ->
  exists bufsz' buffer', (if 0 <? bufsz then buffer ← buffer.[pos := c]; Some (bufsz - 1, buffer) else Some (bufsz, buffer)) =
    Some (bufsz', buffer') /\ room cap (pos + 1) bufsz' /\ same_until pos buffer buffer' /\
    (pos < cap -> buffer'.[pos] = Some c).
Proof.
  intros (Hp & H1 & H2) Hcap. destruct (Z.ltb_spec 0 bufsz) as [Hb|Hb].
  - destruct (buffer.[pos := c]) as [b1|] eqn:E; [|rewrite aset_Some in E by lia; done].
    apply aset_same_until in E as [Hs Hx]. exists (bufsz - 1), b1. cbn [mbind option_bind]. split; [done|].
    split; [|done]. unfold room. lia.
  - exists bufsz, buffer. split; [done|]. split; [unfold room; lia|]. split; [done|]. lia.
Qed.

Lemma unpack_bits_spec cap n : forall i header src s rest pos bufsz buffer,
  rest_at src s rest -> room cap pos bufsz -> zlen buffer = cap ->
  match take_bits n i header rest with
  | None => unpack_bits n i header src s (zlen rest) pos bufsz buffer = None
  | Some (out, rest') =>
      exists s' bufsz' buffer', unpack_bits n i header src s (zlen rest) pos bufsz buffer =
        Some (Some (s', zlen rest', pos + Z.of_nat n, bufsz', buffer')) /\ rest_at src s' rest' /\
        length out = n /\ (length rest' <= length rest)%nat /\
        room cap (pos + Z.of_nat n) bufsz' /\ same_until pos buffer buffer' /\
        (pos + Z.of_nat n <= cap -> holds buffer' pos out)
  end.
Proof.
  induction n as [|n IH]; intros i header src s rest pos bufsz buffer Hr Hroom Hcap; cbn [take_bits unpack_bits].
  - exists s, bufsz, buffer. rewrite Z.add_0_r. split_and!; try done. intros _. apply holds_nil.
  - destruct (Z.testbit header i).
    + destruct rest as [|c rest]; cbn [mbind option_bind].
      * rewrite (proj2 (Z.ltb_ge _ _)) by (change (zlen (@nil Z)) with 0; lia). by rewrite (rest_nil _ _ Hr).
      * apply rest_cons in Hr as [Ec Hr]. rewrite (proj2 (Z.ltb_ge _ _)) by apply zlen_nonneg. rewrite Ec. cbn [mbind option_bind].
        destruct (put_byte cap pos bufsz buffer c Hroom Hcap) as (bufsz1 & b1 & -> & Hroom1 & Hs1 & Hx). cbn [mbind option_bind].
        rewrite zlen_cons. replace (1 + zlen rest - 1) with (zlen rest) by lia.
        specialize (IH (i + 1) header src (s + 1) rest (pos + 1) bufsz1 b1 Hr Hroom1 ltac:(rewrite (proj1 Hs1); done)).
        destruct (take_bits n (i + 1) header rest) as [[out rest']|]; cbn [mbind option_bind]; [|done].
        destruct IH as (s' & bufsz2 & b2 & -> & Hr' & Hl & Hlr & Hroom2 & Hs2 & Hh). exists s', bufsz2, b2.
        replace (pos + 1 + Z.of_nat n) with (pos + Z.of_nat (S n)) in * by lia. split_and!; try done.
        -- cbn. by f_equal.
        -- cbn. lia.
        -- eapply same_until_trans; [|exact Hs1|exact Hs2]. lia.
        -- intros Hfit. apply holds_cons; [rewrite (proj2 Hs2) by lia; apply Hx; lia|by apply Hh].
    + destruct (put_byte cap pos bufsz buffer 0 Hroom Hcap) as (bufsz1 & b1 & -> & Hroom1 & Hs1 & Hx). cbn [mbind option_bind].
      specialize (IH (i + 1) header src s rest (pos + 1) bufsz1 b1 Hr Hroom1 ltac:(rewrite (proj1 Hs1); done)).
      destruct (take_bits n (i + 1) header rest) as [[out rest']|]; cbn [mbind option_bind]; [|done].
      destruct IH as (s' & bufsz2 & b2 & -> & Hr' & Hl & Hlr & Hroom2 & Hs2 & Hh). exists s', bufsz2, b2.
      replace (pos + 1 + Z.of_nat n) with (pos + Z.of_nat (S n)) in * by lia. split_and!; try done.
      * cbn. by f_equal.
      * eapply same_until_trans; [|exact Hs1|exact Hs2]. lia.
      * intros Hfit. apply holds_cons; [rewrite (proj2 Hs2) by lia; apply Hx; lia|by apply Hh].
Qed.

Lemma take_bits_bytes n : forall i header rest out rest', is_bytes rest -> take_bits n i header rest = Some (out, rest') -> is_bytes rest'.
Proof.
  induction n as [|n IH]; intros i header rest out rest' Hb H; cbn [take_bits] in H; [by injection H as <- <-|].
  destruct (Z.testbit header i).
  - destruct rest as [|c rest]; [done|]. apply Forall_cons in Hb as [_ Hb]. apply bind_Some in H as ([o r] & E & [= <- <-]). by eapply IH.
  - apply bind_Some in H as ([o r] & E & [= <- <-]). by eapply IH.
Qed.

Lemma room_minus cap pos bufsz n : 0 < n -> room cap pos bufsz -> room cap (pos + n) (bufsz - n).
Proof. unfold room. lia. Qed.

Lemma unpack_loop_spec cap fuel : forall src s rest pos bufsz buffer,
  is_bytes rest -> (length rest <= fuel)%nat -> rest_at src s rest -> room cap pos bufsz -> zlen buffer = cap ->
  match unpack_ref fuel rest with
  | (out, Done) => exists buffer', unpack_loop fuel src s (zlen rest) pos bufsz buffer = Some (pos + zlen out, buffer') /\
      same_until pos buffer buffer' /\ (pos + zlen out <= cap -> holds buffer' pos out)
  | (_, Short) => exists buffer', unpack_loop fuel src s (zlen rest) pos bufsz buffer = Some (-1, buffer')
  | (_, Over) => unpack_loop fuel src s (zlen rest) pos bufsz buffer = None
  end.
Proof.
  induction fuel as [|fuel IH]; intros src s rest pos bufsz buffer Hb Hf Hr Hroom Hcap.
  { destruct rest; [|cbn in Hf; lia]. exists buffer. rewrite Z.add_0_r. split_and!; [done|done|]. intros _. apply holds_nil. }
  destruct rest as [|header rest]; cbn [unpack_ref unpack_loop].
  { exists buffer. rewrite Z.add_0_r. split_and!; [done|done|]. intros _. apply holds_nil. }
  rewrite (proj2 (Z.leb_gt _ _)) by (rewrite zlen_cons; pose proof (zlen_nonneg rest); lia).
  apply rest_cons in Hr as [-> Hr]. cbn [mbind option_bind]. cbn [length] in Hf. apply Forall_cons in Hb as [Hh Hb].
  rewrite zlen_cons. replace (1 + zlen rest - 1) with (zlen rest) by lia. destruct (Z.eqb_spec header 255) as [->|Hne].
  - rewrite (proj2 (Z.ltb_ge _ _)) by apply zlen_nonneg. destruct rest as [|c rest]; [by rewrite (rest_nil _ _ Hr)|].
    apply rest_cons in Hr as [-> Hr]. cbn [mbind option_bind]. cbn [length] in Hf. apply Forall_cons in Hb as [Hc Hb].
    rewrite zlen_cons. replace (1 + zlen rest <? (c + 1) * 8 + 1) with (zlen rest <? (c + 1) * 8)
      by (destruct (Z.ltb_spec (zlen rest) ((c + 1) * 8)), (Z.ltb_spec (1 + zlen rest) ((c + 1) * 8 + 1)); lia).
    destruct (Z.ltb_spec (zlen rest) ((c + 1) * 8)) as [Hs|Hs]; [by exists buffer|].
    unfold is_u8 in Hc. set (n := (c + 1) * 8) in *.
    assert (exists b1, (if n <=? bufsz then data ← slice src (s + 1 + 1) n; memcpy buffer pos data else Some buffer) = Some b1 /\
      same_until pos buffer b1 /\ (pos + n <= cap -> holds b1 pos (take (Z.to_nat n) rest))) as (b1 & -> & Hs1 & Hh1).
    { destruct (Z.leb_spec n bufsz) as [Hle|Hgt]; [|exists buffer; split_and!; [done|done|]; unfold room in Hroom; lia].
      rewrite (slice_rest_at _ _ _ _ Hr) by lia. cbn [mbind option_bind]. unfold room in Hroom.
      assert (zlen (take (Z.to_nat n) rest) = n) as Htake by (unfold zlen in *; rewrite length_take; lia).
      destruct (memcpy_holds (take (Z.to_nat n) rest) buffer pos) as (b1 & E & H1 & _ & H2); [lia|lia|]. by exists b1. }
    cbn [mbind option_bind]. replace (1 + zlen rest - (n + 1)) with (zlen (drop (Z.to_nat n) rest))
      by (unfold zlen in *; rewrite length_drop; lia).
    specialize (IH src (s + 1 + 1 + n) (drop (Z.to_nat n) rest) (pos + n) (bufsz - n) b1).
    destruct (unpack_ref fuel (drop (Z.to_nat n) rest)) as [out e].
    assert (zlen (take (Z.to_nat n) rest) = n) as Htake by (unfold zlen in *; rewrite length_take; lia).
    specialize (IH ltac:(by apply Forall_drop) ltac:(rewrite length_drop; lia) ltac:(apply rest_drop; [lia|done])
      ltac:(apply room_minus; [lia|done]) ltac:(by rewrite (proj1 Hs1))). destruct e; [|done|done].
    destruct IH as (b2 & -> & Hs2 & Hh2). exists b2. rewrite zlen_app, Htake, Z.add_assoc. split_and!; [done| |].
    + eapply same_until_trans; [|exact Hs1|exact Hs2]. lia.
    + intros Hfit. pose proof (zlen_nonneg out). apply holds_app; [eapply holds_same; [exact Hs2|lia|apply Hh1; lia]|].
      rewrite Htake. apply Hh2. lia.
  - pose proof (unpack_bits_spec cap 8 0 header src (s + 1) rest pos bufsz buffer Hr Hroom Hcap) as Hbits.
    destruct (take_bits 8 0 header rest) as [[out rest']|] eqn:Et; [|by rewrite Hbits].
    destruct Hbits as (s' & bufsz' & b1 & -> & Hr' & Hlen & Hlr & Hroom' & Hs1 & Hh1). cbn [mbind option_bind].
    assert (is_bytes rest') as Hb' by (by eapply take_bits_bytes).
    specialize (IH src s' rest' (pos + Z.of_nat 8) bufsz' b1 Hb' ltac:(lia) Hr' Hroom' ltac:(by rewrite (proj1 Hs1))).
    destruct (unpack_ref fuel rest') as [out' e]. destruct e; [|done|done].
    destruct IH as (b2 & -> & Hs2 & Hh2). exists b2. assert (zlen out = Z.of_nat 8) as Hz by (unfold zlen; lia).
    rewrite zlen_app, Hz, Z.add_assoc. split_and!; [done| |].
    + eapply same_until_trans; [|exact Hs1|exact Hs2]. lia.
    + intros Hfit. pose proof (zlen_nonneg out'). apply holds_app; [eapply holds_same; [exact Hs2|lia|apply Hh1; lia]|].
      rewrite Hz. apply Hh2. lia.
Qed.

Definition unpack (src : list Z) : list Z * unpack_end := unpack_ref (length src) src.

Lemma take_bits_length n : forall i header src out rest, take_bits n i header src = Some (out, rest) -> (length rest <= length src)%nat.
Proof.
  induction n as [|n IH]; intros i header src out rest H; cbn [take_bits] in H; [by injection H as <- <-|].
  destruct (Z.testbit header i).
  - destruct src as [|c src]; [done|]. apply bind_Some in H as ([o r] & E & [= <- <-]). apply IH in E. cbn. lia.
  - apply bind_Some in H as ([o r] & E & [= <- <-]). by eapply IH.
Qed.

Lemma unpack_ref_fuel f1 : forall f2 src, (length src <= f1)%nat -> (length src <= f2)%nat -> unpack_ref f1 src = unpack_ref f2 src.
Proof.
  induction f1 as [|f1 IH]; intros f2 src H1 H2; [destruct src; [by destruct f2|cbn in H1; lia]|].
  destruct src as [|c src]; [by destruct f2|]. destruct f2 as [|f2]; [cbn in H2; lia|]. cbn [unpack_ref length] in *.
  destruct (c =? 255).
  - destruct src as [|d src]; [done|]. cbn [length] in *. rewrite (IH f2); [done|rewrite length_drop; lia..].
  - destruct (take_bits 8 0 c src) as [[out rest]|] eqn:E; [|done]. apply take_bits_length in E. rewrite (IH f2); [done|lia..].
Qed.

Lemma unpack_fuel fuel src : (length src <= fuel)%nat -> unpack_ref fuel src = unpack src.
Proof. intros H. by apply unpack_ref_fuel. Qed.

Lemma unpack_run c src : unpack (255 :: c :: src) =
  if zlen src <? (c + 1) * 8 then ([], Short)
  else (take (Z.to_nat ((c + 1) * 8)) src ++ (unpack (drop (Z.to_nat ((c + 1) * 8)) src)).1,
        (unpack (drop (Z.to_nat ((c + 1) * 8)) src)).2).
Proof.
  unfold unpack at 1. cbn [length]. set (n := S (length src)). cbn [unpack_ref]. rewrite Z.eqb_refl.
  destruct (_ <? _); [done|]. rewrite unpack_fuel by (subst n; rewrite length_drop; lia). by destruct (unpack _).
Qed.

Lemma unpack_header header src : header <> 255 -> unpack (header :: src) =
  match take_bits 8 0 header src with
  | None => ([], Over)
  | Some (out, rest) => (out ++ (unpack rest).1, (unpack rest).2)
  end.
Proof.
  intros Hne. unfold unpack at 1. cbn [length]. set (n := length src). cbn [unpack_ref]. rewrite (proj2 (Z.eqb_neq _ _) Hne).
  destruct (take_bits 8 0 header src) as [[out rest]|] eqn:E; [|done]. apply take_bits_length in E.
  rewrite unpack_fuel by (subst n; lia). by destruct (unpack rest).
Qed.

Lemma unpack_ff run rest : zlen run <= 256 -> Forall (fun b => zlen b = 8) run ->
  unpack (ff run ++ rest) = (mjoin run ++ (unpack rest).1, (unpack rest).2).
Proof.
  intros Hrun Hall. destruct run as [|b run]; [exact (surjective_pairing _)|].
  assert (zlen (mjoin (b :: run)) = 8 * zlen (b :: run)) as Hsize.
  { clear Hrun. induction Hall as [|b' l Hb _ IH]; [done|]. change (mjoin (b' :: l)) with (b' ++ mjoin l). rewrite zlen_app, zlen_cons, IH. lia. }
  cbn [ff]. set (r := b :: run) in *. cbn [app]. rewrite unpack_run.
  replace ((zlen r - 1 + 1) * 8) with (zlen (mjoin r)) by lia.
  rewrite (proj2 (Z.ltb_ge _ _)) by (rewrite zlen_app; pose proof (zlen_nonneg rest); lia).
  replace (Z.to_nat (zlen (mjoin r))) with (length (mjoin r)) by (unfold zlen; lia).
  by rewrite drop_app_length, take_app_length.
Qed.

Lemma set_bit_testbit h i j : 0 <= i < 8 -> 0 <= j < 8 -> Z.testbit (u8 (Z.lor h (Z.shiftl 1 i))) j = Z.testbit h j || (i =? j).
Proof.
  intros Hi Hj. unfold u8. rewrite Z.mod_pow2_bits_low by lia. rewrite Z.lor_spec, Z.shiftl_spec by lia. f_equal.
  destruct (Z.eqb_spec i j) as [->|Hne]; [by rewrite Z.sub_diag|].
  destruct (Z.lt_ge_cases j i); [by rewrite Z.testbit_neg_r by lia|].
  change 1 with (2 ^ 0). rewrite Z.pow2_bits_false by lia. done.
Qed.

(** The bits of the header say which bytes are not zero. *)
Lemma header_bits b : forall i h j, 0 <= i -> i + zlen b <= 8 -> 0 <= j < 8 ->
  Z.testbit (header_of b i h) j = Z.testbit h j || match b.[j - i] with Some c => negb (c =? 0) | None => false end.
Proof.
  induction b as [|c b IH]; intros i h j Hi Hlen Hj; cbn [header_of].
  - rewrite aget_None by (change (zlen (@nil Z)) with 0; lia). by rewrite orb_false_r.
  - rewrite zlen_cons in Hlen. pose proof (zlen_nonneg b). rewrite IH by lia.
    destruct (Z.eq_dec j i) as [->|Hne].
    + rewrite Z.sub_diag, aget_cons_0, aget_None by lia. rewrite orb_false_r.
      destruct (c =? 0); cbn [negb]; [by rewrite orb_false_r|]. rewrite set_bit_testbit by lia. by rewrite Z.eqb_refl.
    + assert ((c :: b).[j - i] = b.[j - (i + 1)]) as ->.
      { destruct (Z.lt_ge_cases (j - i) 0); [by rewrite !aget_None by lia|]. rewrite aget_cons_S by lia. f_equal. lia. }
      destruct (c =? 0); [done|]. rewrite set_bit_testbit by lia. by rewrite (proj2 (Z.eqb_neq i j)), orb_false_r by lia.
Qed.

Lemma take_bits_nonzero b : forall i header rest,
  (forall j c, b.[j] = Some c -> Z.testbit header (i + j) = negb (c =? 0)) ->
  take_bits (length b) i header (nonzero b ++ rest) = Some (b, rest).
Proof.
  induction b as [|c b IH]; intros i header rest Hbits; [done|]. cbn [take_bits length].
  pose proof (Hbits 0 c (aget_cons_0 _ _)) as H0. rewrite Z.add_0_r in H0. rewrite H0, nonzero_cons.
  assert (take_bits (length b) (i + 1) header (nonzero b ++ rest) = Some (b, rest)) as E.
  { apply IH. intros j d Hj. apply aget_lt_Some in Hj as Hj'. rewrite <-(Hbits (j + 1) d); [f_equal; lia|].
    rewrite aget_cons_S by lia. rewrite <-Hj. f_equal. lia. }
  destruct (Z.eqb_spec c 0) as [->|]; cbn [negb app]; by rewrite E.
Qed.

Lemma nonzero_full b : zlen (nonzero b) < zlen b -> exists j, b.[j] = Some 0.
Proof.
  induction b as [|c b IH]; [done|]. rewrite nonzero_cons. destruct (Z.eqb_spec c 0) as [->|Hc]; [by exists 0|].
  rewrite !zlen_cons. intros H. destruct IH as [j Hj]; [lia|]. apply aget_lt_Some in Hj as Hj'. exists (j + 1).
  rewrite aget_cons_S by lia. rewrite <-Hj. f_equal. lia.
Qed.

Lemma unpack_seg b rest : zlen b = 8 -> zlen (nonzero b) <= 7 -> unpack (seg b ++ rest) = (b ++ (unpack rest).1, (unpack rest).2).
Proof.
  intros Hb Hnz. unfold seg. cbn [app].
  assert (forall j c, b.[j] = Some c -> Z.testbit (header_of b 0 0) j = negb (c =? 0)) as Hbits.
  { intros j c Hj. apply aget_lt_Some in Hj as Hj'. rewrite header_bits by lia. rewrite Z.sub_0_r, Hj, Z.bits_0. done. }
  destruct (Z.eqb_spec (header_of b 0 0) 255) as [E|E].
  { destruct (nonzero_full b) as [j Hj]; [lia|]. apply aget_lt_Some in Hj as Hj'. apply Hbits in Hj. rewrite E in Hj.
    change 255 with (Z.ones 8) in Hj. by rewrite Z.ones_spec_low in Hj by lia. }
  assert (length b = 8%nat) as Hlen by (unfold zlen in Hb; lia). rewrite unpack_header by done.
  rewrite <-Hlen. by rewrite take_bits_nonzero by done.
Qed.

Lemma unpack_pack_blocks bs : forall run, Forall (fun b => zlen b = 8) run -> Forall (fun b => zlen b = 8) bs -> zlen run < 256 ->
  unpack (pack_blocks run bs) = (mjoin run ++ mjoin bs, Done).
Proof.
  induction bs as [|b bs IH]; intros run Hrun Hbs Hlt; cbn [pack_blocks].
  - rewrite <-(app_nil_r (ff run)). rewrite unpack_ff by (done || lia). done.
  - apply Forall_cons in Hbs as [Hb Hbs]. assert (Forall (fun b => zlen b = 8) (run ++ [b])) as Hrun' by (apply Forall_app; by split; [|constructor]).
    assert (zlen (run ++ [b]) = zlen run + 1) as Hlen by (rewrite zlen_app; done).
    destruct (full (running run) b) eqn:Ef; [destruct (Z.eqb_spec (zlen run + 1) 256)|].
    + rewrite unpack_ff by (done || lia). rewrite IH by (done || constructor). cbn [fst snd]. rewrite join_app. cbn [mjoin list_join app].
      by rewrite app_nil_r, <-app_assoc.
    + rewrite IH by (done || lia). rewrite join_app. cbn [mjoin list_join app]. by rewrite app_nil_r, <-app_assoc.
    + destruct (not_full _ _ Hb Ef) as [H7 _]. rewrite unpack_ff by (done || lia). rewrite unpack_seg by done.
      rewrite IH by (done || constructor). done.
Qed.

Lemma chunks_spec n : forall l, length l = (8 * n)%nat -> mjoin (chunks n l) = l /\ Forall (fun b => zlen b = 8) (chunks n l) /\
  zlen (chunks n l) = Z.of_nat n.
Proof.
  induction n as [|n IH]; intros l Hl; cbn [chunks]; [destruct l; done|].
  destruct (IH (drop 8 l)) as (H1 & H2 & H3); [rewrite length_drop; lia|]. split_and!.
  - change (take 8 l ++ mjoin (chunks n (drop 8 l)) = l). by rewrite H1, take_drop.
  - constructor; [|done]. unfold zlen. rewrite length_take. lia.
  - rewrite zlen_cons. lia.
Qed.

Lemma blocks_of_spec src : mjoin (blocks_of src) = padded src /\ Forall (fun b => zlen b = 8) (blocks_of src) /\
  zlen (blocks_of src) = Z.quot (zlen src + 7) 8.
Proof.
  destruct (zlen_padded src) as (H1 & H2 & H3). pose proof (zlen_nonneg src). unfold blocks_of.
  destruct (chunks_spec (Z.to_nat (Z.quot (zlen src + 7) 8)) (padded src)) as (E1 & E2 & E3); [unfold zlen in *; lia|].
  split_and!; [done|done|]. rewrite E3. lia.
Qed.

Lemma unpack_packed src : unpack (packed src) = (padded src, Done).
Proof. destruct (blocks_of_spec src) as (E1 & E2 & _). unfold packed. rewrite unpack_pack_blocks by done. by rewrite E1. Qed.

(** ** The size *)

(** The size of the buffer that [lpack] gives to [sproto_pack]. *)
Definition maxsz (sz : Z) : Z := Z.quot (sz + 2047) 2048 * 2 + sz + 2.

Lemma pack_blocks_bound p bs : forall run, 0 <= p < 8 -> zlen run < 256 -> zlen (mjoin run) = 8 * zlen run ->
  Forall (fun b => zlen b = 8) bs -> (bs = [] -> p <= 2) -> (forall b, last bs = Some b -> zlen (nonzero b) <= 8 - p) ->
  zlen (pack_blocks run bs) + p <= 8 * (zlen run + zlen bs) + 2 * ((zlen run + zlen bs + 255) / 256) + 2.
Proof.
  induction bs as [|b bs IH]; intros run Hp Hrun Hsize Hbs Hnil Hlast; cbn [pack_blocks].
  - specialize (Hnil eq_refl). rewrite zlen_ff by done. change (zlen (@nil (list Z))) with 0. pose proof (zlen_nonneg run).
    destruct (Z.ltb_spec 0 (zlen run)); Z.div_mod_to_equations; lia.
  - apply Forall_cons in Hbs as [Hb Hbs]. rewrite zlen_cons. pose proof (zlen_nonneg run). pose proof (zlen_nonneg bs).
    assert (forall b', last bs = Some b' -> zlen (nonzero b') <= 8 - p) as Hlast'.
    { intros b' E. apply Hlast. by destruct bs. }
    assert (zlen (run ++ [b]) = zlen run + 1) as Hlen by (rewrite zlen_app; done).
    assert (zlen (mjoin (run ++ [b])) = 8 * zlen (run ++ [b])) as Hsize' by (rewrite zlen_mjoin_snoc; lia).
    destruct (full (running run) b) eqn:Ef.
    + assert (bs = [] -> p <= 2) as Hnil'.
      { intros ->. specialize (Hlast b eq_refl). unfold full in Ef. apply orb_true_iff in Ef as [Ef|Ef]; [lia|].
        apply andb_prop in Ef as [_ Ef]. lia. }
      destruct (Z.eqb_spec (zlen run + 1) 256) as [E|E].
      * specialize (IH [] Hp eq_refl eq_refl Hbs Hnil' Hlast'). change (zlen (@nil (list Z))) with 0 in IH.
        rewrite zlen_app, zlen_ff, Hlen, E by done. change (0 <? 256) with true. cbv iota. Z.div_mod_to_equations; lia.
      * specialize (IH (run ++ [b]) Hp ltac:(lia) Hsize' Hbs Hnil' Hlast'). rewrite Hlen in IH.
        replace (zlen run + (1 + zlen bs)) with (zlen run + 1 + zlen bs) by lia. exact IH.
    + destruct (not_full _ _ Hb Ef) as [H7 H5]. rewrite running_lt in H5. rewrite !zlen_app. unfold seg. rewrite zlen_cons, zlen_ff by done.
      destruct bs as [|b2 bs].
      * specialize (Hlast b eq_refl). cbn [pack_blocks ff]. change (zlen (@nil Z)) with 0. change (zlen (@nil (list Z))) with 0.
        destruct (Z.ltb_spec 0 (zlen run)); Z.div_mod_to_equations; lia.
      * specialize (IH [] Hp eq_refl eq_refl Hbs ltac:(done) Hlast'). change (zlen (@nil (list Z))) with 0 in IH.
        destruct (Z.ltb_spec 0 (zlen run)) as [Hr|Hr]; [specialize (H5 eq_refl)|]; Z.div_mod_to_equations; lia.
Qed.

Lemma last_chunks n : forall l, length l = (8 * S n)%nat -> last (chunks (S n) l) = Some (drop (8 * n) l).
Proof.
  induction n as [|n IH]; intros l Hl; [cbn [chunks last]; by rewrite take_ge by lia|].
  change (chunks (S (S n)) l) with (take 8 l :: chunks (S n) (drop 8 l)).
  specialize (IH (drop 8 l) ltac:(rewrite length_drop; lia)). rewrite drop_drop in IH.
  replace (8 + 8 * n)%nat with (8 * S n)%nat in IH by lia. rewrite <-IH. by destruct (chunks (S n) (drop 8 l)) eqn:E.
Qed.

(** The padding is in the last block. *)
Lemma last_block src b : last (blocks_of src) = Some b -> zlen (nonzero b) <= 8 - padding_of src.
Proof.
  destruct (zlen_padded src) as (H1 & H2 & H3). pose proof (zlen_nonneg src). unfold blocks_of.
  destruct (Z.to_nat (Z.quot (zlen src + 7) 8)) as [|n] eqn:En; [done|].
  rewrite last_chunks by (unfold zlen in *; lia). intros E. apply (inj Some) in E as <-. unfold padded.
  rewrite drop_app_le by (unfold zlen in *; lia). unfold nonzero. rewrite filter_app, zlen_app.
  assert (filter (fun c => c <> 0) (replicate (Z.to_nat (padding_of src)) 0) = []) as ->.
  { apply filter_none. intros x Hx. apply elem_of_replicate in Hx as [-> _]. by intros H'. }
  pose proof (nonzero_le (drop (8 * n) src)) as Hle. unfold nonzero in Hle. change (zlen (@nil Z)) with 0.
  unfold zlen in *. rewrite length_drop in Hle. lia.
Qed.

Lemma packed_bound src : zlen (packed src) <= maxsz (zlen src).
Proof.
  destruct (zlen_padded src) as (H1 & H2 & H3). destruct (blocks_of_spec src) as (_ & Hb & Hlen). pose proof (zlen_nonneg src).
  pose proof (pack_blocks_bound (padding_of src) (blocks_of src) [] H2 eq_refl eq_refl Hb) as H'.
  assert (blocks_of src = [] -> padding_of src <= 2) as Hnil.
  { intros E. rewrite E in Hlen. change (zlen (@nil (list Z))) with 0 in Hlen. lia. }
  specialize (H' Hnil (last_block src)). change (zlen (@nil (list Z))) with 0 in H'. rewrite Hlen, Z.add_0_l in H'. unfold packed, maxsz.
  rewrite Z.quot_div_nonneg in * by lia. Z.div_mod_to_equations. lia.
Qed.

Lemma last_completes_inv bs : forall run, 0 <= run -> last_completes run bs = true ->
  exists b, last bs = Some b /\ 6 <= zlen (nonzero b) /\ 256 <= run + zlen bs.
Proof.
  induction bs as [|b bs IH]; intros run Hrun H; [done|]. cbn [last_completes] in H. rewrite zlen_cons. pose proof (zlen_nonneg bs).
  assert (forall r, 0 <= r <= run + 1 -> last_completes r bs = true ->
    exists b', last (b :: bs) = Some b' /\ 6 <= zlen (nonzero b') /\ 256 <= run + (1 + zlen bs)) as Hstep.
  { intros r Hr Hl. destruct (IH r ltac:(lia) Hl) as (b' & E & H6 & Hle). exists b'. split_and!; [|done|lia]. by destruct bs. }
  destruct (full _ b) eqn:Ef; [destruct (Z.eqb_spec (run + 1) 256)|].
  - apply orb_true_iff in H as [H|H]; [|apply (Hstep 0); [lia|done]]. apply bool_decide_eq_true in H as ->. exists b.
    split_and!; [done| |change (zlen (@nil (list Z))) with 0; lia]. unfold full in Ef. apply orb_true_iff in Ef as [Ef|Ef]; [lia|].
    apply andb_prop in Ef as [_ Ef]. lia.
  - apply (Hstep (run + 1)); [lia|done].
  - apply (Hstep 0); [lia|done].
Qed.

Lemma header_of_byte b : forall i h, is_u8 h -> is_u8 (header_of b i h).
Proof. induction b as [|c b IH]; intros i h Hh; [done|]. cbn [header_of]. apply IH. destruct (c =? 0); [done|apply u8_bound]. Qed.

Lemma ff_bytes run : zlen run <= 256 -> Forall is_bytes run -> is_bytes (ff run).
Proof.
  intros Hlen Hb. destruct run as [|b run]; [constructor|]. cbn [ff]. rewrite zlen_cons in *. pose proof (zlen_nonneg run).
  constructor; [done|]. constructor; [unfold is_u8; lia|]. by apply Forall_join.
Qed.

Lemma pack_blocks_bytes bs : forall run, zlen run < 256 -> Forall is_bytes run -> Forall is_bytes bs -> is_bytes (pack_blocks run bs).
Proof.
  induction bs as [|b bs IH]; intros run Hlen Hr Hb; cbn [pack_blocks]; [apply ff_bytes; [lia|done]|].
  apply Forall_cons in Hb as [Hb Hbs]. assert (Forall is_bytes (run ++ [b])) as Hr' by (apply Forall_app; by split; [|constructor]).
  assert (zlen (run ++ [b]) = zlen run + 1) as Hlen' by (rewrite zlen_app; done).
  destruct (full _ b); [destruct (Z.eqb_spec (zlen run + 1) 256)|].
  - apply Forall_app. split; [apply ff_bytes; [lia|done]|]. by apply IH.
  - apply IH; [lia|done..].
  - apply Forall_app. split; [apply ff_bytes; [lia|done]|]. apply Forall_app. split; [|by apply IH].
    constructor; [by apply header_of_byte|]. by apply Forall_filter.
Qed.

Lemma packed_bytes src : is_bytes src -> is_bytes (packed src).
Proof.
  intros Hb. apply pack_blocks_bytes; [done|constructor|].
  assert (is_bytes (padded src)) as Hp.
  { apply Forall_app. split; [done|]. apply Forall_replicate. done. }
  unfold blocks_of. generalize (padded src) Hp. induction (Z.to_nat _) as [|n IH]; intros l Hl; cbn [chunks]; [constructor|].
  constructor; [by apply Forall_take|]. apply IH. by apply Forall_drop.
Qed.

(** Whether [sproto_pack] reads behind the source. *)
Definition reads_behind (src : list Z) : bool := completes src 0 (blocks_of src).

(** Packing and unpacking gives the bytes back, filled up with zeros to a multiple of
    eight: the buffer of [lpack] is always large enough, [sproto_pack] stays inside its
    buffers, and [sproto_unpack] of what it wrote, with a large enough buffer, gives the
    filled up source; but for sources whose last block is a partial one and completes a
    run of 256. *)
Theorem sproto_pack_roundtrip (src buffer buffer2 : list Z) :
  is_bytes src -> reads_behind src = false -> maxsz (zlen src) <= zlen buffer -> zlen (padded src) <= zlen buffer2 ->
  exists n buffer' buffer2', sproto_pack src buffer = Some (n, buffer') /\ 0 <= n <= maxsz (zlen src) /\
    sproto_unpack (take (Z.to_nat n) buffer') buffer2 = Some (zlen (padded src), buffer2') /\
    take (length (padded src)) buffer2' = padded src.
Proof.
  intros Hb Hc Hcap Hcap2. destruct (proj1 (sproto_pack_spec src buffer) Hc) as (buffer' & E & Hlen & Htake).
  pose proof (packed_bound src). pose proof (zlen_nonneg (packed src)). exists (zlen (packed src)), buffer'.
  replace (Z.to_nat (zlen (packed src))) with (length (packed src)) by (unfold zlen; lia). rewrite Htake by lia.
  pose proof (unpack_loop_spec (zlen buffer2) (length (packed src)) (packed src) 0 (packed src) 0 (zlen buffer2) buffer2
    (packed_bytes src Hb) ltac:(lia) ltac:(split; [lia|done]) ltac:(unfold room; pose proof (zlen_nonneg buffer2); lia) eq_refl) as H'.
  change (unpack_ref (length (packed src)) (packed src)) with (unpack (packed src)) in H'. rewrite unpack_packed in H'.
  destruct H' as (b2 & E2 & Hs & Hh). exists b2. rewrite Z.add_0_l in *. split_and!; [done|lia|lia|exact E2|].
  apply holds_take; [by apply Hh|]. rewrite (proj1 Hs). lia.
Qed.

(** [sproto_pack] reads behind its source exactly when the last block is partial and
    completes a run of 256 blocks, which takes a source of at least 2046 bytes with 6 or 7
    bytes in the last block; for those, the buffer of [lpack] is large enough for it to
    happen. *)
Theorem sproto_pack_overread (src buffer : list Z) : maxsz (zlen src) <= zlen buffer ->
  (sproto_pack src buffer = None <-> reads_behind src = true) /\
  (reads_behind src = true -> 2046 <= zlen src /\ 6 <= zlen src mod 8).
Proof.
  intros Hcap. pose proof (packed_bound src). destruct (sproto_pack_spec src buffer) as [Hok Hbad]. split; [split|].
  - intros E. destruct (reads_behind src) eqn:Ec; [done|]. destruct (Hok Ec) as (b & E' & _). by rewrite E in E'.
  - intros Hc. apply Hbad; [done|lia].
  - intros [Hl Hp]%andb_prop. destruct (zlen_padded src) as (H1 & H2 & H3). destruct (blocks_of_spec src) as (_ & _ & Hlen).
    destruct (last_completes_inv (blocks_of src) 0 ltac:(lia) Hl) as (b & E & H6 & H256). apply last_block in E. rewrite Hlen in H256.
    assert (zlen src mod 8 = 8 - padding_of src) as ->; [|lia].
    symmetry. apply (Z.mod_unique _ _ (Z.quot (zlen src + 7) 8 - 1)); lia.
Qed.

(** [sproto_unpack] of any bytes is the unpacking of the reference: it returns the
    length (and, if the buffer is large enough, the bytes), or -1 for a run that is cut
    off; it reads behind the source when the bytes of a block or the length of a run are
    missing, since the remaining size is compared with 0 only after it has been used up. *)
Theorem sproto_unpack_correct (src buffer : list Z) : is_bytes src ->
  match unpack_ref (length src) src with
  | (out, Done) => exists buffer', sproto_unpack src buffer = Some (zlen out, buffer') /\ zlen buffer' = zlen buffer /\
      (zlen out <= zlen buffer -> take (length out) buffer' = out)
  | (_, Short) => exists buffer', sproto_unpack src buffer = Some (-1, buffer')
  | (_, Over) => sproto_unpack src buffer = None
  end.
Proof.
  intros Hb. pose proof (unpack_loop_spec (zlen buffer) (length src) src 0 src 0 (zlen buffer) buffer
    Hb ltac:(lia) ltac:(split; [pose proof (zlen_nonneg src); lia|done]) ltac:(unfold room; pose proof (zlen_nonneg buffer); lia) eq_refl) as H'.
  unfold sproto_unpack. destruct (unpack_ref (length src) src) as [out e]. destruct e; [|done|done].
  destruct H' as (b & E & Hs & Hh). exists b. split; [exact E|]. split; [by apply Hs|]. intros Hfit.
  apply holds_take; [by apply Hh|]. rewrite (proj1 Hs). lia.
Qed.

Lemma sproto_pack_roundtrip_witness : exists n buffer' buffer2',
  sproto_pack ([1; 2; 3; 4; 5; 6; 7; 8; 9; 0; 9; 9; 9; 9; 9; 9; 0; 0; 5]) (replicate 23 7) = Some (n, buffer') /\
  sproto_unpack (take (Z.to_nat n) buffer') (replicate 30 7) = Some (24, buffer2') /\
  take 24 buffer2' = [1; 2; 3; 4; 5; 6; 7; 8; 9; 0; 9; 9; 9; 9; 9; 9; 0; 0; 5; 0; 0; 0; 0; 0].
Proof.
  destruct (sproto_pack_roundtrip [1; 2; 3; 4; 5; 6; 7; 8; 9; 0; 9; 9; 9; 9; 9; 9; 0; 0; 5] (replicate 23 7) (replicate 30 7))
    as (n & b & b2 & E1 & _ & E2 & E3); [by repeat constructor|reflexivity|done|done|].
  exists n, b, b2. split; [exact E1|]. split; [exact E2|exact E3].
Defined.

(** 2046 bytes that are not zero, in a buffer of the size that [lpack] takes. *)
Lemma sproto_pack_overread_witness : sproto_pack (replicate 2046 1) (replicate 2050 0) = None.
Proof. apply (sproto_pack_overread (replicate 2046 1) (replicate 2050 0)); vm_compute; [discriminate|reflexivity]. Defined.

(** One of two bytes is missing. *)
Lemma sproto_unpack_correct_witness : sproto_unpack [3; 1] (replicate 8 0) = None.
Proof. apply (sproto_unpack_correct [3; 1] (replicate 8 0)). by repeat constructor. Defined.
