(* ===== verification/Sproto.v ===== *)
(** lib/sproto/sproto.c: schemas, and the encoding and decoding of structs.

    Memory is a list of bytes with an offset for a pointer into it; an access outside makes
    the result [None], and so does a failed assertion or a loop that does not end.  The
    comparisons of signed with unsigned sizes and the sums of [uint32_t] are written out.
    A C string is the list of its bytes without the end.

    Not modelled: the pools in which the schemas are allocated (allocation succeeds), and
    the dump of a schema. *)
From S2P Require Import Prelude Bytes Buffer CStr.

Definition SPROTO_TINTEGER : Z := 0.
Definition SPROTO_TBOOLEAN : Z := 1.
Definition SPROTO_TSTRING : Z := 2.
Definition SPROTO_TSTRUCT : Z := 3.
Definition SPROTO_TARRAY : Z := 0x80.
Definition SPROTO_REQUEST : Z := 0.
Definition SPROTO_RESPONSE : Z := 1.
Definition SIZEOF_LENGTH : Z := 4.
Definition SIZEOF_HEADER : Z := 2.
Definition SIZEOF_FIELD : Z := 2.

(** [struct field]; [st] is an index of [sproto.type]. *)
Record field := Field {
  fd_tag : Z;
  fd_type : Z;
  fd_name : option (list Z);
  fd_st : option Z;
  fd_key : Z
}.

(** [struct sproto_type]; [n] is the length of [f]. *)
Record sproto_type := SprotoType {
  st_name : list Z;
  st_base : Z;
  st_maxn : Z;
  st_f : list field
}.

Record protocol := Protocol {
  pr_name : option (list Z);
  pr_tag : Z;
  pr_request : option Z;
  pr_response : option Z
}.

Record sproto := Sproto {
  sp_type : list sproto_type;
  sp_proto : list protocol
}.

Definition toword (p : list Z) (i : Z) : option Z :=
  a ← p.[i]; b ← p.[i + 1]; Some (Z.lor a (Z.shiftl b 8)).

Definition todword (p : list Z) (i : Z) : option Z :=
  a ← p.[i]; b ← p.[i + 1]; c ← p.[i + 2]; d ← p.[i + 3]; Some (le32 a b c d).

(** ** Reading a schema *)

(** The loop of [count_array]; every turn takes some bytes of the memory, or the loop does
    not end ([nsz] is 0 after the addition has wrapped around). *)
Fixpoint count_loop (fuel : nat) (stream : list Z) (i length n : Z) : option Z :=
  if length =? 0 then Some n
  else
    match fuel with
    | O => None
    | S fuel =>
        if length <? SIZEOF_LENGTH then Some (-1)
        else
          nsz ← todword stream i;
          let nsz := u32 (nsz + SIZEOF_LENGTH) in
          if length <? nsz then Some (-1)
          else count_loop fuel stream (i + nsz) (length - nsz) (n + 1)
    end.

Definition count_array (stream : list Z) (i : Z) : option Z :=
  len ← todword stream i;
  count_loop (S (length stream)) stream (i + SIZEOF_LENGTH) len 0.

(** The loop of [struct_field] over [n] fields from [field] on. *)
Fixpoint struct_loop (n : nat) (stream : list Z) (field i sz : Z) : option bool :=
  match n with
  | O => Some true
  | S n =>
      value ← toword stream field;
      if negb (value =? 0) then struct_loop n stream (field + SIZEOF_FIELD) i sz
      else if sz <? SIZEOF_LENGTH then Some false
      else
        dsz ← todword stream i;
        let step := u32 (SIZEOF_LENGTH + dsz) in
        if sz <? step then Some false
        else struct_loop n stream (field + SIZEOF_FIELD) (i + step) (sz - step)
  end.

(** [struct_field] of the [sz] bytes at [i]. *)
Definition struct_field (stream : list Z) (i sz : Z) : option Z :=
  if sz <? SIZEOF_LENGTH then Some (-1)
  else
    fn ← toword stream i;
    let header := SIZEOF_HEADER + SIZEOF_FIELD * fn in
    if sz <? header then Some (-1)
    else
      ok ← struct_loop (Z.to_nat fn) stream (i + SIZEOF_HEADER) (i + header) (sz - header);
      Some (if ok : bool then fn else -1).

(** [import_string]: the string that the data at [i] is, up to its first 0. *)
Definition import_string (stream : list Z) (i : Z) : option (list Z) :=
  sz ← todword stream i;
  s ← slice stream (i + SIZEOF_LENGTH) sz;
  until_zero (s ++ [0]).

(** The loop of [import_field] over [n] fields from field [k] of [fn] on; [tag] and [array]
    are those of the code, [Some None] is the return of NULL. *)
Fixpoint field_loop (n : nat) (type_n : Z) (stream : list Z) (i fn k tag : Z) (f : field) (array : Z)
    : option (option (field * Z)) :=
  match n with
  | O => Some (Some (f, array))
  | S n =>
      let tag := tag + 1 in
      value ← toword stream (i + SIZEOF_FIELD * k);
      if Z.odd value then field_loop n type_n stream i fn (k + 1) (tag + value / 2) f array
      else if tag =? 0 then
        if negb (value =? 0) then Some None
        else
          name ← import_string stream (i + fn * SIZEOF_FIELD);
          field_loop n type_n stream i fn (k + 1) tag (Field (fd_tag f) (fd_type f) (Some name) (fd_st f) (fd_key f)) array
      else if value =? 0 then Some None
      else
        let value := value / 2 - 1 in
        if tag =? 1 then
          if SPROTO_TSTRUCT <=? value then Some None
          else field_loop n type_n stream i fn (k + 1) tag (Field (fd_tag f) value (fd_name f) (fd_st f) (fd_key f)) array
        else if tag =? 2 then
          if type_n <=? value then Some None
          else if 0 <=? fd_type f then Some None
          else field_loop n type_n stream i fn (k + 1) tag
                 (Field (fd_tag f) SPROTO_TSTRUCT (fd_name f) (Some value) (fd_key f)) array
        else if tag =? 3 then
          field_loop n type_n stream i fn (k + 1) tag (Field value (fd_type f) (fd_name f) (fd_st f) (fd_key f)) array
        else if tag =? 4 then
          field_loop n type_n stream i fn (k + 1) tag f (if value =? 0 then array else SPROTO_TARRAY)
        else if tag =? 5 then
          field_loop n type_n stream i fn (k + 1) tag (Field (fd_tag f) (fd_type f) (fd_name f) (fd_st f) value) array
        else Some None
  end.

(** [import_field]: the field, and where the next one is. *)
Definition import_field (type_n : Z) (stream : list Z) (i : Z) : option (option (field * Z)) :=
  sz ← todword stream i;
  let i := i + SIZEOF_LENGTH in
  fn ← struct_field stream i sz;
  if fn <? 0 then Some None
  else
    r ← field_loop (Z.to_nat fn) type_n stream (i + SIZEOF_HEADER) fn 0 (-1) (Field (-1) (-1) None None (-1)) 0;
    match r with
    | None => Some None
    | Some (f, array) =>
        if (fd_tag f <? 0) || (fd_type f <? 0) || bool_decide (fd_name f = None) then Some None
        else Some (Some (Field (fd_tag f) (Z.lor (fd_type f) array) (fd_name f) (fd_st f) (fd_key f), i + sz))
    end.

(** The loop of [import_type]: the fields and [maxn]. *)
Fixpoint fields_loop (n : nat) (type_n : Z) (stream : list Z) (i last maxn : Z) (fs : list field)
    : option (option (list field * Z)) :=
  match n with
  | O => Some (Some (fs, maxn))
  | S n =>
      r ← import_field type_n stream i;
      match r with
      | None => Some None
      | Some (f, i) =>
          let tag := fd_tag f in
          if tag <=? last then Some None
          else fields_loop n type_n stream i tag (if last + 1 <? tag then maxn + 1 else maxn) (fs ++ [f])
      end
  end.

(** Whether the [n] fields of the struct at [i] are all encoded in data. *)
Fixpoint all_data (n : nat) (stream : list Z) (i : Z) : option bool :=
  match n with
  | O => Some true
  | S n => v ← toword stream i; if negb (v =? 0) then Some false else all_data n stream (i + SIZEOF_FIELD)
  end.

(** [import_type]; the first and the last field of an empty array are accesses outside. *)
Definition import_type (type_n : Z) (stream : list Z) (i : Z) : option (option (sproto_type * Z)) :=
  sz ← todword stream i;
  let i := i + SIZEOF_LENGTH in
  let result := i + sz in
  fn ← struct_field stream i sz;
  if (fn <=? 0) || (2 <? fn) then Some None
  else
    ok ← all_data (Z.to_nat fn) stream (i + SIZEOF_HEADER);
    if negb ok then Some None
    else
      let i := i + SIZEOF_HEADER + fn * SIZEOF_FIELD in
      name ← import_string stream i;
      if fn =? 1 then Some (Some (SprotoType name 0 0 [], result))
      else
        namesz ← todword stream i;
        let i := i + u32 (namesz + SIZEOF_LENGTH) in
        n ← count_array stream i;
        if n <? 0 then Some None
        else
          r ← fields_loop (Z.to_nat n) type_n stream (i + SIZEOF_LENGTH) (-1) n [];
          match r with
          | None => Some None
          | Some (fs, maxn) =>
              first ← fs.[0];
              last ← fs.[n - 1];
              let base := fd_tag first in
              Some (Some (SprotoType name (if fd_tag last - base + 1 =? n then base else -1) maxn fs, result))
          end.

(** The loop of [import_protocol]; the fields are told apart by their position. *)
Fixpoint protocol_loop (n : nat) (type_n : Z) (stream : list Z) (i fn k : Z) (p : protocol)
    : option (option protocol) :=
  match n with
  | O => Some (Some p)
  | S n =>
      value ← toword stream (i + SIZEOF_FIELD * k);
      if Z.odd value then protocol_loop n type_n stream i fn (k + 1) p
      else
        let value := value / 2 - 1 in
        if k =? 0 then
          if negb (value =? -1) then Some None
          else
            name ← import_string stream (i + SIZEOF_FIELD * fn);
            protocol_loop n type_n stream i fn (k + 1) (Protocol (Some name) (pr_tag p) (pr_request p) (pr_response p))
        else if k =? 1 then
          if value <? 0 then Some None
          else protocol_loop n type_n stream i fn (k + 1) (Protocol (pr_name p) value (pr_request p) (pr_response p))
        else if k =? 2 then
          if (value <? 0) || (type_n <=? value) then Some None
          else protocol_loop n type_n stream i fn (k + 1) (Protocol (pr_name p) (pr_tag p) (Some value) (pr_response p))
        else if k =? 3 then
          if (value <? 0) || (type_n <=? value) then Some None
          else protocol_loop n type_n stream i fn (k + 1) (Protocol (pr_name p) (pr_tag p) (pr_request p) (Some value))
        else Some None
  end.

(** [import_protocol]; a negative number of fields is no field. *)
Definition import_protocol (type_n : Z) (stream : list Z) (i : Z) : option (option (protocol * Z)) :=
  sz ← todword stream i;
  let i := i + SIZEOF_LENGTH in
  fn ← struct_field stream i sz;
  r ← protocol_loop (Z.to_nat fn) type_n stream (i + SIZEOF_HEADER) fn 0 (Protocol None (-1) None None);
  match r with
  | None => Some None
  | Some p =>
      if bool_decide (pr_name p = None) || (pr_tag p <? 0) then Some None else Some (Some (p, i + sz))
  end.

(** The loops over the types and over the protocols. *)
Fixpoint import_all {A} (import : Z -> option (option (A * Z))) (n : nat) (i : Z) (l : list A) : option (option (list A)) :=
  match n with
  | O => Some (Some l)
  | S n =>
      r ← import i;
      match r with
      | None => Some None
      | Some (a, i) => import_all import n i (l ++ [a])
      end
  end.

(** The number of entries and the place of the [k]-th array of the bundle of [fn] arrays;
    [content] is its data. *)
Definition bundle_array (stream : list Z) (k content : Z) : option (option (Z * Z)) :=
  value ← toword stream (SIZEOF_HEADER + k * SIZEOF_FIELD);
  if negb (value =? 0) then Some None
  else
    n ← count_array stream content;
    if n <? 0 then Some None
    else len ← todword stream content; Some (Some (n, content + u32 (len + SIZEOF_LENGTH))).

(** [create_from_bundle] with [sproto_create]: [Some None] is NULL. *)
Definition sproto_create (stream : list Z) : option (option sproto) :=
  fn ← struct_field stream 0 (zlen stream);
  if (fn <? 0) || (2 <? fn) then Some None
  else
    let content := SIZEOF_HEADER + fn * SIZEOF_FIELD in
    if fn =? 0 then Some (Some (Sproto [] []))
    else
      r ← bundle_array stream 0 content;
      match r with
      | None => Some None
      | Some (type_n, content2) =>
          r ← (if fn =? 2 then bundle_array stream 1 content2 else Some (Some (0, content2)));
          match r with
          | None => Some None
          | Some (protocol_n, _) =>
              types ← import_all (import_type type_n stream) (Z.to_nat type_n) (content + SIZEOF_LENGTH) [];
              match types with
              | None => Some None
              | Some types =>
                  protos ← import_all (import_protocol type_n stream) (Z.to_nat protocol_n) (content2 + SIZEOF_LENGTH) [];
                  match protos with
                  | None => Some None
                  | Some protos => Some (Some (Sproto types protos))
                  end
              end
          end
      end.

(** ** Queries *)
Definition eqb_name (a b : list Z) : bool := bool_decide (a = b).

Fixpoint prototag_loop (l : list protocol) (name : list Z) : Z :=
  match l with
  | [] => -1
  | p :: l => if bool_decide (pr_name p = Some name) then pr_tag p else prototag_loop l name
  end.

Definition sproto_prototag (sp : sproto) (name : list Z) : Z := prototag_loop (sp_proto sp) name.

(** The binary search of [query_proto] and [findtag] in the entries [begin] to [end];
    [None] is an access outside, or no fuel. *)
Fixpoint binary_search {A} (fuel : nat) (tag_of : A -> Z) (l : list A) (tag begin_ end_ : Z) : option (option A) :=
  if end_ <=? begin_ then Some None
  else
    match fuel with
    | O => None
    | S fuel =>
        let mid := Z.quot (begin_ + end_) 2 in
        x ← l.[mid];
        let t := tag_of x in
        if t =? tag then Some (Some x)
        else if t <? tag then binary_search fuel tag_of l tag (mid + 1) end_
        else binary_search fuel tag_of l tag begin_ mid
    end.

Definition query_proto (sp : sproto) (tag : Z) : option (option protocol) :=
  binary_search (length (sp_proto sp)) pr_tag (sp_proto sp) tag 0 (zlen (sp_proto sp)).

Definition sproto_protoquery (sp : sproto) (proto what : Z) : option (option Z) :=
  if (what <? 0) || (1 <? what) then Some None
  else
    p ← query_proto sp proto;
    Some (p ← p; if what =? SPROTO_REQUEST then pr_request p else pr_response p).

Definition sproto_protoname (sp : sproto) (proto : Z) : option (option (list Z)) :=
  p ← query_proto sp proto; Some (p ← p; pr_name p).

Fixpoint type_loop (l : list sproto_type) (i : Z) (name : list Z) : option Z :=
  match l with
  | [] => None
  | t :: l => if eqb_name name (st_name t) then Some i else type_loop l (i + 1) name
  end.

(** [sproto_type]: the index of the type. *)
Definition find_type (sp : sproto) (name : list Z) : option Z := type_loop (sp_type sp) 0 name.

Definition findtag (st : sproto_type) (tag : Z) : option (option field) :=
  if 0 <=? st_base st then
    let tag := tag - st_base st in
    if (tag <? 0) || (zlen (st_f st) <=? tag) then Some None
    else f ← (st_f st).[tag]; Some (Some f)
  else binary_search (length (st_f st)) fd_tag (st_f st) tag 0 (zlen (st_f st)).

(** ** Encoding *)

(** [struct sproto_arg] for a callback that writes at most [length] bytes. *)
Record sproto_arg := Arg {
  a_tagname : option (list Z);
  a_tagid : Z;
  a_type : Z;
  a_subtype : option Z;
  a_length : Z;
  a_index : Z;
  a_mainindex : Z
}.

(** The results of a callback: the bytes it wrote to [value], whose number it returns. *)
Inductive cb_result := CB_ERROR | CB_NIL | CB_NOARRAY | CB_VALUE (value : list Z).

(** The comparison [size < k] of an [int] with a [size_t]. *)
Definition lt_size (size k : Z) : bool := u64 size <? k.

(** [fill_size] at [p] of a buffer. *)
Definition fill_size (buffer : list Z) (p sz : Z) : option (list Z * Z) :=
  buffer ← memcpy buffer p (le_bytes 4 sz); Some (buffer, sz + SIZEOF_LENGTH).

(** [encode_integer] and [encode_uint64]: the buffer and the result. *)
Definition encode_integer (v : Z) (buffer : list Z) (p size : Z) : option (list Z * Z) :=
  if lt_size size (SIZEOF_LENGTH + 4) then Some (buffer, -1)
  else buffer ← memcpy buffer (p + 4) (le_bytes 4 v); fill_size buffer p 4.

Definition encode_uint64 (v : Z) (buffer : list Z) (p size : Z) : option (list Z * Z) :=
  if lt_size size (SIZEOF_LENGTH + 8) then Some (buffer, -1)
  else buffer ← memcpy buffer (p + 4) (le_bytes 8 v); fill_size buffer p 8.

(** [uint32_to_uint64] at [p]. *)
Definition uint32_to_uint64 (negative : bool) (buffer : list Z) (p : Z) : option (list Z) :=
  memcpy buffer (p + 4) (replicate 4 (if negative then 0xff else 0)).

(** The loop of [encode_integer_array] that makes room for 64-bit integers, from index
    [i - 1] down to 0. *)
Fixpoint rearrange (i : nat) (header : Z) (buffer : list Z) : option (list Z) :=
  match i with
  | O => Some buffer
  | S i =>
      data ← slice buffer (header + 1 + Z.of_nat i * 4) 4;
      buffer ← memcpy buffer (header + 1 + Z.of_nat i * 8) data;
      b ← buffer.[header + 1 + Z.of_nat i * 8 + 3];
      buffer ← uint32_to_uint64 (negb (Z.land b 0x80 =? 0)) buffer (header + 1 + Z.of_nat i * 8);
      rearrange i header buffer
  end.

Section encode.
Context {S : Type}.
Variable cb : sproto_arg -> S -> cb_result * S.
Implicit Types (s : S) (buffer : list Z).

Definition with_value (arg : sproto_arg) (length index : Z) : sproto_arg :=
  Arg (a_tagname arg) (a_tagid arg) (a_type arg) (a_subtype arg) length index (a_mainindex arg).

(** [encode_object]. *)
Definition encode_object (arg : sproto_arg) buffer (p size : Z) s : option (Z * list Z * S) :=
  if size <? SIZEOF_LENGTH then Some (-1, buffer, s)
  else
    let '(r, s) := cb (with_value arg (size - SIZEOF_LENGTH) (a_index arg)) s in
    match r with
    | CB_NIL => Some (0, buffer, s)
    | CB_ERROR | CB_NOARRAY => Some (-1, buffer, s)
    | CB_VALUE v =>
        buffer ← memcpy buffer (p + SIZEOF_LENGTH) v;
        _ ← cassert (zlen v <=? size - SIZEOF_LENGTH);
        '(buffer, sz) ← fill_size buffer p (zlen v);
        Some (sz, buffer, s)
    end.

(** The loop of [encode_integer_array]: [None] inside is NULL; the result has [buffer],
    where it ends, [intlen] and [noarray]. *)
Fixpoint integer_loop (fuel : nat) (arg : sproto_arg) (header p size intlen index : Z) buffer s
    : option (option (Z * Z * bool) * list Z * S) :=
  match fuel with
  | O => None
  | Datatypes.S fuel =>
      let '(r, s) := cb (with_value arg 8 index) s in
      match r with
      | CB_NIL => Some (Some (p, intlen, false), buffer, s)
      | CB_NOARRAY => Some (Some (p, intlen, true), buffer, s)
      | CB_ERROR | CB_VALUE [] => Some (None, buffer, s)
      | CB_VALUE v =>
          if lt_size size 8 then Some (None, buffer, s)
          else if zlen v =? 4 then
            buffer ← memcpy buffer p (le_bytes 4 (le_value v));
            buffer ← (if intlen =? 8 then uint32_to_uint64 (negb (Z.land (le_value v) 0x80000000 =? 0)) buffer p
                      else Some buffer);
            integer_loop fuel arg header (p + intlen) (size - intlen) intlen (index + 1) buffer s
          else if negb (zlen v =? 8) then Some (None, buffer, s)
          else if intlen =? 4 then
            let size := s32 (size - (index - 1) * 4) in
            if lt_size size 8 then Some (None, buffer, s)
            else
              let p := p + (index - 1) * 4 in
              buffer ← rearrange (Z.to_nat (index - 1)) header buffer;
              buffer ← memcpy buffer p (le_bytes 8 (le_value v));
              integer_loop fuel arg header (p + 8) (size - 8) 8 (index + 1) buffer s
          else
            buffer ← memcpy buffer p (le_bytes 8 (le_value v));
            integer_loop fuel arg header (p + intlen) (size - intlen) intlen (index + 1) buffer s
      end
  end.

(** [encode_integer_array] at [header]: where it ends (NULL is [None] inside), [noarray]. *)
Definition encode_integer_array (arg : sproto_arg) buffer (header size : Z) s
    : option (option (Z * bool) * list Z * S) :=
  if size <? 1 then Some (None, buffer, s)
  else
    '(r, buffer, s) ← integer_loop (length buffer + 1) arg header (header + 1) (size - 1) 4 1 buffer s;
    match r with
    | None => Some (None, buffer, s)
    | Some (p, intlen, noarray) =>
        if p =? header + 1 then Some (Some (header, noarray), buffer, s)
        else buffer ← buffer.[header := u8 intlen]; Some (Some (p, noarray), buffer, s)
    end.

(** The loops of [encode_array] over booleans and objects: [inl] is a return, [inr] the end
    of the array. *)
Fixpoint boolean_loop (fuel : nat) (arg : sproto_arg) (p size index : Z) buffer s : option ((Z + Z) * list Z * S) :=
  match fuel with
  | O => None
  | Datatypes.S fuel =>
      let '(r, s) := cb (with_value arg 4 index) s in
      match r with
      | CB_NIL => Some (inr p, buffer, s)
      | CB_NOARRAY => Some (inl 0, buffer, s)
      | CB_ERROR => Some (inl (-1), buffer, s)
      | CB_VALUE v =>
          if size <? 1 then Some (inl (-1), buffer, s)
          else
            buffer ← buffer.[p := if le_value v =? 0 then 0 else 1];
            boolean_loop fuel arg (p + 1) (size - 1) (index + 1) buffer s
      end
  end.

Fixpoint object_loop (fuel : nat) (arg : sproto_arg) (p size index : Z) buffer s : option ((Z + Z) * list Z * S) :=
  match fuel with
  | O => None
  | Datatypes.S fuel =>
      if size <? SIZEOF_LENGTH then Some (inl (-1), buffer, s)
      else
        let size := size - SIZEOF_LENGTH in
        let '(r, s) := cb (with_value arg size index) s in
        match r with
        | CB_NIL => Some (inr p, buffer, s)
        | CB_NOARRAY => Some (inl 0, buffer, s)
        | CB_ERROR => Some (inl (-1), buffer, s)
        | CB_VALUE v =>
            buffer ← memcpy buffer (p + SIZEOF_LENGTH) v;
            '(buffer, _) ← fill_size buffer p (zlen v);
            object_loop fuel arg (p + SIZEOF_LENGTH + zlen v) (size - zlen v) (index + 1) buffer s
        end
  end.

(** [encode_array]. *)
Definition encode_array (arg : sproto_arg) buffer (data size : Z) s : option (Z * list Z * S) :=
  if size <? SIZEOF_LENGTH then Some (-1, buffer, s)
  else
    let size := size - SIZEOF_LENGTH in
    let p := data + SIZEOF_LENGTH in
    '(r, buffer, s) ←
      (if a_type arg =? SPROTO_TINTEGER then
         '(r, buffer, s) ← encode_integer_array arg buffer p size s;
         Some (match r with
               | None => inl (-1)
               | Some (_, true) => inl 0
               | Some (p, false) => inr p
               end, buffer, s)
       else if a_type arg =? SPROTO_TBOOLEAN then boolean_loop (length buffer + 1) arg p size 1 buffer s
       else object_loop (length buffer + 1) arg p size 1 buffer s);
    match r with
    | inl ret => Some (ret, buffer, s)
    | inr p => '(buffer, sz) ← fill_size buffer data (p - (data + SIZEOF_LENGTH)); Some (sz, buffer, s)
    end.

(** What the body of the loop of [sproto_encode] makes of a field: go on with the next
    field, return, or a value of [sz] bytes of data ([value] in the record if not 0). *)
Inductive field_result := FSkip | FReturn (ret : Z) | FValue (value sz : Z).

Definition encode_scalar (arg : sproto_arg) buffer (data size : Z) s : option (field_result * list Z * S) :=
  let '(r, s) := cb (with_value arg 8 0) s in
  match r with
  | CB_NIL => Some (FSkip, buffer, s)
  | CB_NOARRAY => Some (FReturn 0, buffer, s)
  | CB_ERROR => Some (FReturn (-1), buffer, s)
  | CB_VALUE v =>
      if zlen v =? 4 then
        if le_value v <? 0x7fff then Some (FValue ((le_value v + 1) * 2) 2, buffer, s)
        else '(buffer, sz) ← encode_integer (le_value v) buffer data size; Some (FValue 0 sz, buffer, s)
      else if zlen v =? 8 then
        '(buffer, sz) ← encode_uint64 (le_value v) buffer data size; Some (FValue 0 sz, buffer, s)
      else Some (FReturn (-1), buffer, s)
  end.

Definition encode_field (f : field) buffer (data size : Z) s : option (field_result * list Z * S) :=
  let type := fd_type f in
  let arg type := Arg (fd_name f) (fd_tag f) type (fd_st f) 0 0 (fd_key f) in
  if negb (Z.land type SPROTO_TARRAY =? 0) then
    '(sz, buffer, s) ← encode_array (arg (Z.land type (Z.lnot SPROTO_TARRAY))) buffer data size s;
    Some (FValue 0 sz, buffer, s)
  else if (type =? SPROTO_TINTEGER) || (type =? SPROTO_TBOOLEAN) then encode_scalar (arg type) buffer data size s
  else if (type =? SPROTO_TSTRUCT) || (type =? SPROTO_TSTRING) then
    '(sz, buffer, s) ← encode_object (arg type) buffer data size s; Some (FValue 0 sz, buffer, s)
  else Some (FValue 0 (-1), buffer, s).

(** The loop of [sproto_encode] over the fields: the return value of the function, or
    where the data end and the number of records. *)
Fixpoint encode_loop (fs : list field) buffer (data size index lasttag : Z) s
    : option ((Z + Z * Z) * list Z * S) :=
  match fs with
  | [] => Some (inr (data, index), buffer, s)
  | f :: fs =>
      '(r, buffer, s) ← encode_field f buffer data size s;
      match r with
      | FSkip => encode_loop fs buffer data size index lasttag s
      | FReturn ret => Some (inl ret, buffer, s)
      | FValue value sz =>
          if sz <? 0 then Some (inl (-1), buffer, s)
          else if sz =? 0 then encode_loop fs buffer data size index lasttag s
          else
            let data := if value =? 0 then data + sz else data in
            let size := if value =? 0 then size - sz else size in
            let record := SIZEOF_HEADER + SIZEOF_FIELD * index in
            let tag := fd_tag f - lasttag - 1 in
            if 0 <? tag then
              let tag := (tag - 1) * 2 + 1 in
              if 0xffff <? tag then Some (inl (-1), buffer, s)
              else
                buffer ← memcpy buffer record (le_bytes 2 tag);
                buffer ← memcpy buffer (record + SIZEOF_FIELD) (le_bytes 2 value);
                encode_loop fs buffer data size (index + 2) (fd_tag f) s
            else
              buffer ← memcpy buffer record (le_bytes 2 value);
              encode_loop fs buffer data size (index + 1) (fd_tag f) s
      end
  end.

(** [sproto_encode] into a buffer of [size] bytes. *)
Definition sproto_encode (st : sproto_type) buffer s : option (Z * list Z * S) :=
  let header_sz := SIZEOF_HEADER + st_maxn st * SIZEOF_FIELD in
  if zlen buffer <? header_sz then Some (-1, buffer, s)
  else
    '(r, buffer, s) ← encode_loop (st_f st) buffer header_sz (zlen buffer - header_sz) 0 (-1) s;
    match r with
    | inl ret => Some (ret, buffer, s)
    | inr (data, index) =>
        buffer ← memcpy buffer 0 (le_bytes 2 index);
        let datasz := data - header_sz in
        buffer ← (if negb (index =? st_maxn st)
                  then d ← slice buffer header_sz datasz; memcpy buffer (SIZEOF_HEADER + index * SIZEOF_FIELD) d
                  else Some buffer);
        Some (SIZEOF_HEADER + index * SIZEOF_FIELD + datasz, buffer, s)
    end.
End encode.

(** ** Decoding *)

(** What a callback of [sproto_decode] gets in [value]. *)
Inductive decoded := D_NULL | D_INT (v : Z) | D_BYTES (l : list Z).

Definition expand64 (v : Z) : Z :=
  if Z.land v 0x80000000 =? 0 then v else Z.lor v 0xffffffff00000000.

Section decode.
Context {S : Type}.
(** The callback; it returns 0 if all is well. *)
Variable cb : sproto_arg -> decoded -> S -> Z * S.
Implicit Types (s : S) (stream : list Z).

(** The loop of [decode_array_object]; [sz] is an [int]. *)
Fixpoint object_array (fuel : nat) (arg : sproto_arg) stream (i sz index : Z) s : option (Z * S) :=
  if sz <=? 0 then Some (0, s)
  else
    match fuel with
    | O => None
    | Datatypes.S fuel =>
        if sz <? SIZEOF_LENGTH then Some (-1, s)
        else
          hsz ← todword stream i;
          let i := i + SIZEOF_LENGTH in
          let sz := sz - SIZEOF_LENGTH in
          if u32 sz <? hsz then Some (-1, s)
          else
            v ← slice stream i hsz;
            let '(r, s) := cb (with_value arg hsz index) (D_BYTES v) s in
            if negb (r =? 0) then Some (-1, s)
            else object_array fuel arg stream (i + hsz) (sz - hsz) (index + 1) s
    end.

(** The loops of [decode_array] over [n] integers or booleans from index [k] on. *)
Fixpoint integers32 (n : nat) (arg : sproto_arg) stream (i k : Z) s : option S :=
  match n with
  | O => Some s
  | Datatypes.S n =>
      v ← todword stream (i + k * 4);
      integers32 n arg stream i (k + 1) (cb (with_value arg 8 (k + 1)) (D_INT (expand64 v)) s).2
  end.

Fixpoint integers64 (n : nat) (arg : sproto_arg) stream (i k : Z) s : option S :=
  match n with
  | O => Some s
  | Datatypes.S n =>
      low ← todword stream (i + k * 8);
      hi ← todword stream (i + k * 8 + 4);
      integers64 n arg stream i (k + 1) (cb (with_value arg 8 (k + 1)) (D_INT (Z.lor low (Z.shiftl hi 32))) s).2
  end.

Fixpoint booleans (n : nat) (arg : sproto_arg) stream (i k : Z) s : option S :=
  match n with
  | O => Some s
  | Datatypes.S n =>
      v ← stream.[i + k];
      booleans n arg stream i (k + 1) (cb (with_value arg 8 (k + 1)) (D_INT v) s).2
  end.

(** [decode_array] of the data at [i]. *)
Definition decode_array (arg : sproto_arg) stream (i : Z) s : option (Z * S) :=
  sz ← todword stream i;
  if sz =? 0 then Some (0, (cb (with_value arg 0 (-1)) D_NULL s).2)
  else
    let i := i + SIZEOF_LENGTH in
    if a_type arg =? SPROTO_TINTEGER then
      len ← stream.[i];
      let i := i + 1 in
      let sz := sz - 1 in
      if len =? 4 then
        if negb (sz mod 4 =? 0) then Some (-1, s)
        else s ← integers32 (Z.to_nat (sz / 4)) arg stream i 0 s; Some (0, s)
      else if len =? 8 then
        if negb (sz mod 8 =? 0) then Some (-1, s)
        else s ← integers64 (Z.to_nat (sz / 8)) arg stream i 0 s; Some (0, s)
      else Some (-1, s)
    else if a_type arg =? SPROTO_TBOOLEAN then
      s ← booleans (Z.to_nat sz) arg stream i 0 s; Some (0, s)
    else if (a_type arg =? SPROTO_TSTRING) || (a_type arg =? SPROTO_TSTRUCT) then
      object_array (length stream + 1) arg stream i (s32 sz) 1 s
    else Some (-1, s).

(** A field whose data are at [i]: false is the return of -1. *)
Definition decode_data (f : field) (arg : sproto_arg) stream (i : Z) s : option (bool * S) :=
  if negb (Z.land (fd_type f) SPROTO_TARRAY =? 0) then
    '(r, s) ← decode_array arg stream i s; Some (r =? 0, s)
  else if fd_type f =? SPROTO_TINTEGER then
    sz ← todword stream i;
    if sz =? 4 then
      v ← todword stream (i + SIZEOF_LENGTH);
      Some (true, (cb (with_value arg 8 0) (D_INT (expand64 v)) s).2)
    else if negb (sz =? 8) then Some (false, s)
    else
      low ← todword stream (i + SIZEOF_LENGTH);
      hi ← todword stream (i + SIZEOF_LENGTH + 4);
      Some (true, (cb (with_value arg 8 0) (D_INT (Z.lor low (Z.shiftl hi 32))) s).2)
  else if (fd_type f =? SPROTO_TSTRING) || (fd_type f =? SPROTO_TSTRUCT) then
    sz ← todword stream i;
    v ← slice stream (i + SIZEOF_LENGTH) sz;
    let '(r, s) := cb (with_value arg sz 0) (D_BYTES v) s in
    Some (r =? 0, s)
  else Some (false, s).

(** The loop of [sproto_decode] over [n] records from [record] on: -1, or the size that is
    left. *)
Fixpoint decode_loop (n : nat) (st : sproto_type) stream (record datastream size tag : Z) s : option (option Z * S) :=
  match n with
  | O => Some (Some size, s)
  | Datatypes.S n =>
      value ← toword stream record;
      let tag := tag + 1 in
      if Z.odd value then decode_loop n st stream (record + SIZEOF_FIELD) datastream size (tag + value / 2) s
      else
        let value := value / 2 - 1 in
        let currentdata := datastream in
        r ← (if value <? 0 then
               if size <? SIZEOF_LENGTH then Some None
               else
                 sz ← todword stream datastream;
                 let step := u32 (sz + SIZEOF_LENGTH) in
                 if u32 size <? step then Some None else Some (Some (datastream + step, size - step))
             else Some (Some (datastream, size)));
        match r with
        | None => Some (None, s)
        | Some (datastream, size) =>
            f ← findtag st tag;
            match f with
            | None => decode_loop n st stream (record + SIZEOF_FIELD) datastream size tag s
            | Some f =>
                let arg := Arg (fd_name f) (fd_tag f) (Z.land (fd_type f) (Z.lnot SPROTO_TARRAY)) (fd_st f) 0 0 (fd_key f) in
                '(ok, s) ← (if value <? 0 then decode_data f arg stream currentdata s
                            else if negb (fd_type f =? SPROTO_TINTEGER) && negb (fd_type f =? SPROTO_TBOOLEAN)
                            then Some (false, s)
                            else Some (true, (cb (with_value arg 8 0) (D_INT value) s).2));
                if ok : bool then decode_loop n st stream (record + SIZEOF_FIELD) datastream size tag s
                else Some (None, s)
            end
        end
  end.

(** [sproto_decode]. *)
Definition sproto_decode (st : sproto_type) stream s : option (Z * S) :=
  let size := zlen stream in
  if size <? SIZEOF_HEADER then Some (-1, s)
  else
    fn ← toword stream 0;
    let size := size - SIZEOF_HEADER in
    if size <? fn * SIZEOF_FIELD then Some (-1, s)
    else
      let datastream := SIZEOF_HEADER + fn * SIZEOF_FIELD in
      '(r, s) ← decode_loop (Z.to_nat fn) st stream SIZEOF_HEADER datastream (size - fn * SIZEOF_FIELD) (-1) s;
      match r with
      | None => Some (-1, s)
      | Some size => Some (zlen stream - size, s)
      end.
End decode.
