(* ===== verification/SprotoSchema.v ===== *)
(** The schemas of lib/sproto/sproto.c: what a schema that [sproto_create] accepts is, and
    the search for fields and protocols in it. *)
From S2P Require Import Prelude Bytes Buffer Sproto.

(** ** Well-formed types *)

Fixpoint ascending (last : Z) (fs : list field) : Prop :=
  match fs with
  | [] => True
  | f :: fs => last < fd_tag f /\ ascending (fd_tag f) fs
  end.

(** The records that a struct may take: one for each field and each gap of tags. *)
Fixpoint slots (last : Z) (fs : list field) : Z :=
  match fs with
  | [] => 0
  | f :: fs => (if last + 1 <? fd_tag f then 2 else 1) + slots (fd_tag f) fs
  end.

(** A field of a schema of [n] types. *)
Record field_ok (n : Z) (f : field) : Prop := FieldOk {
  fo_tag : 0 <= fd_tag f < 2 ^ 15;
  fo_name : fd_name f <> None;
  fo_type : exists t a, fd_type f = Z.lor t a /\ (a = 0 \/ a = SPROTO_TARRAY) /\
    ((0 <= t < SPROTO_TSTRUCT /\ fd_st f = None) \/ (t = SPROTO_TSTRUCT /\ exists v, fd_st f = Some v /\ 0 <= v < n))
}.

Record type_ok (n : Z) (st : sproto_type) : Prop := TypeOk {
  to_fields : Forall (field_ok n) (st_f st);
  to_ascending : ascending (-1) (st_f st);
  to_maxn : st_maxn st = slots (-1) (st_f st);
  to_base : 0 <= st_base st -> forall k f, (st_f st).[k] = Some f -> fd_tag f = st_base st + k
}.

Definition index_ok (n : Z) (o : option Z) : Prop := match o with Some v => 0 <= v < n | None => True end.

Record protocol_ok (n : Z) (p : protocol) : Prop := ProtocolOk {
  po_name : pr_name p <> None;
  po_tag : 0 <= pr_tag p;
  po_request : index_ok n (pr_request p);
  po_response : index_ok n (pr_response p)
}.

(** ** The binary search *)

Lemma binary_search_spec {A} (tag_of : A -> Z) (l : list A) tag :
  (forall i j x y, i < j -> l.[i] = Some x -> l.[j] = Some y -> tag_of x < tag_of y) ->
  forall fuel b e, 0 <= b -> e <= zlen l -> e - b <= Z.of_nat fuel ->
  exists r, binary_search fuel tag_of l tag b e = Some r /\
    match r with
    | Some x => tag_of x = tag /\ exists m, l.[m] = Some x
    | None => forall m x, b <= m < e -> l.[m] = Some x -> tag_of x <> tag
    end.
Proof.
  intros Hsort. induction fuel as [|fuel IH]; intros b e Hb He Hf; cbn [binary_search].
  { rewrite (proj2 (Z.leb_le _ _)) by lia. exists None. split; [done|]. lia. }
  destruct (Z.leb_spec e b) as [Hle|Hlt]; [exists None; split; [done|]; lia|].
  rewrite Z.quot_div_nonneg by lia. set (mid := (b + e) / 2).
  assert (b <= mid < e) as Hmid by (subst mid; Z.div_mod_to_equations; lia).
  destruct (aget_is_Some l mid) as [x Hx]; [lia|]. rewrite Hx. cbn [mbind option_bind].
  destruct (Z.eqb_spec (tag_of x) tag) as [Heq|Hne]; [exists (Some x); split; [done|]; split; [done|by exists mid]|].
  destruct (Z.ltb_spec (tag_of x) tag) as [Hlt'|Hge].
  - destruct (IH (mid + 1) e) as (r & -> & Hr); [lia..|]. exists r. split; [done|]. destruct r as [y|]; [done|].
    intros m y Hm Hy. destruct (Z.lt_ge_cases m mid) as [H1|H1]; [specialize (Hsort _ _ _ _ H1 Hy Hx); lia|].
    destruct (Z.eq_dec m mid) as [->|]; [congruence|]. apply (Hr m y); [lia|done].
  - destruct (IH b mid) as (r & -> & Hr); [lia..|]. exists r. split; [done|]. destruct r as [y|]; [done|].
    intros m y Hm Hy. destruct (Z.lt_ge_cases mid m) as [H1|H1]; [specialize (Hsort _ _ _ _ H1 Hx Hy); lia|].
    destruct (Z.eq_dec m mid) as [->|]; [congruence|]. apply (Hr m y); [lia|done].
Qed.

Lemma ascending_lt fs : forall last, ascending last fs -> forall k f, fs.[k] = Some f -> last + k < fd_tag f.
Proof.
  induction fs as [|g fs IH]; intros last Ha k f Hk.
  - apply aget_lt_Some in Hk. change (zlen (@nil field)) with 0 in Hk. lia.
  - destruct Ha as [Hg Ha]. apply aget_lt_Some in Hk as Hr. destruct (Z.eq_dec k 0) as [->|Hne].
    + rewrite aget_cons_0 in Hk. injection Hk as ->. lia.
    + rewrite aget_cons_S in Hk by lia. specialize (IH _ Ha _ _ Hk). lia.
Qed.

Lemma ascending_sorted fs : forall last, ascending last fs -> forall i j f g, i < j -> fs.[i] = Some f -> fs.[j] = Some g ->
  fd_tag f + (j - i) <= fd_tag g.
Proof.
  induction fs as [|h fs IH]; intros last Ha i j f g Hij Hi Hj.
  - apply aget_lt_Some in Hi. change (zlen (@nil field)) with 0 in Hi. lia.
  - destruct Ha as [Hg Ha]. apply aget_lt_Some in Hi as Hri. rewrite aget_cons_S in Hj by lia.
    destruct (Z.eq_dec i 0) as [->|Hne].
    + rewrite aget_cons_0 in Hi. injection Hi as ->. pose proof (ascending_lt _ _ Ha _ _ Hj). lia.
    + rewrite aget_cons_S in Hi by lia. specialize (IH _ Ha (i - 1) (j - 1) f g ltac:(lia) Hi Hj). lia.
Qed.

Lemma findtag_spec (n : Z) (st : sproto_type) (tag : Z) : type_ok n st ->
  exists r, findtag st tag = Some r /\
    match r with
    | Some f => f ∈ st_f st /\ fd_tag f = tag
    | None => forall f, f ∈ st_f st -> fd_tag f <> tag
    end.
Proof.
  intros [_ Ha _ Hbase]. assert (forall f, f ∈ st_f st -> exists k, 0 <= k < zlen (st_f st) /\ (st_f st).[k] = Some f) as Hin.
  { intros f [i Hi]%list_elem_of_lookup. exists (Z.of_nat i). rewrite aget_nat. split; [|done].
    apply lookup_lt_Some in Hi. unfold zlen. lia. }
  assert (forall k f, (st_f st).[k] = Some f -> f ∈ st_f st) as Hout.
  { intros k f Hk. apply aget_lt_Some in Hk as Hr. rewrite <-(Z2Nat.id k), aget_nat in Hk by lia. by eapply list_elem_of_lookup_2. }
  unfold findtag. destruct (Z.leb_spec 0 (st_base st)) as [Hb|Hb].
  - specialize (Hbase Hb). destruct (Z.ltb_spec (tag - st_base st) 0) as [H1|H1];
      [|destruct (Z.leb_spec (zlen (st_f st)) (tag - st_base st)) as [H2|H2]]; cbn [orb].
    + exists None. split; [done|]. intros f (k & Hk & E)%Hin. specialize (Hbase _ _ E). lia.
    + exists None. split; [done|]. intros f (k & Hk & E)%Hin. specialize (Hbase _ _ E). lia.
    + destruct (aget_is_Some (st_f st) (tag - st_base st)) as [f Hf]; [lia|]. rewrite Hf. exists (Some f). split; [done|].
      split; [by eapply Hout|]. rewrite (Hbase _ _ Hf). lia.
  - destruct (binary_search_spec fd_tag (st_f st) tag) with (fuel := length (st_f st)) (b := 0) (e := zlen (st_f st)) as (r & -> & Hr);
      [|lia|lia|unfold zlen; lia|].
    { intros i j f g Hij Hi Hj. pose proof (ascending_sorted _ _ Ha _ _ _ _ Hij Hi Hj). lia. }
    exists r. split; [done|]. destruct r as [f|].
    + destruct Hr as (Ht & m & Hm). split; [by eapply Hout|done].
    + intros f (k & Hk & E)%Hin. by apply (Hr k).
Qed.

Lemma fields_unique n st f g : type_ok n st -> f ∈ st_f st -> g ∈ st_f st -> fd_tag f = fd_tag g -> f = g.
Proof.
  intros [_ Ha _ _] [i Hi]%list_elem_of_lookup [j Hj]%list_elem_of_lookup Htag.
  rewrite <-aget_nat in Hi, Hj. destruct (Nat.lt_trichotomy i j) as [Hlt|[->|Hlt]].
  - pose proof (ascending_sorted _ _ Ha _ _ _ _ (proj1 (Nat2Z.inj_lt _ _) Hlt) Hi Hj). lia.
  - congruence.
  - pose proof (ascending_sorted _ _ Ha _ _ _ _ (proj1 (Nat2Z.inj_lt _ _) Hlt) Hj Hi). lia.
Qed.

(** The search for a field that [findtag] is an optimisation of. *)
Definition first_field (fs : list field) (tag : Z) : option field := snd <$> list_find (fun f => fd_tag f = tag) fs.

(** [findtag], by an index when the tags have no gap and by binary search otherwise, is
    the linear search for the first field of a tag; it stays inside the array of fields. *)
Theorem findtag_correct (n : Z) (st : sproto_type) (tag : Z) : type_ok n st ->
  findtag st tag = Some (first_field (st_f st) tag).
Proof.
  intros Hok. destruct (findtag_spec n st tag Hok) as (r & -> & Hr). f_equal. unfold first_field.
  destruct (list_find _ _) as [[i g]|] eqn:E; cbn [fmap option_fmap option_map snd].
  - apply list_find_Some in E as (Hi & Hg & _). apply list_elem_of_lookup_2 in Hi. destruct r as [f|]; [|by apply Hr in Hi].
    f_equal. eapply fields_unique; [done|apply Hr|done|]. destruct Hr as [_ Hr]. congruence.
  - apply list_find_None in E. destruct r as [f|]; [|done]. destruct Hr as [Hin Htag]. rewrite Forall_forall in E. by apply E in Hin.
Qed.

(** A type with a gap of tags, so that its fields are found by binary search. *)
Definition gap_type : sproto_type :=
  SprotoType [80] (-1) 4 [Field 1 SPROTO_TINTEGER (Some [97]) None (-1); Field 4 SPROTO_TSTRING (Some [98]) None (-1)].

Lemma gap_type_ok : type_ok 0 gap_type.
Proof.
  constructor; [|cbn; lia|done|by intros []].
  assert (forall t, t = SPROTO_TINTEGER \/ t = SPROTO_TSTRING -> exists t' a, t = Z.lor t' a /\ (a = 0 \/ a = SPROTO_TARRAY) /\
    ((0 <= t' < SPROTO_TSTRUCT /\ @None Z = None) \/ (t' = SPROTO_TSTRUCT /\ exists v, @None Z = Some v /\ 0 <= v < 0))) as Ht.
  { intros t Ht. exists t, 0. rewrite Z.lor_0_r. split_and!; [done|by left|]. left. split; [|done].
    destruct Ht as [-> | ->]; unfold SPROTO_TSTRUCT, SPROTO_TINTEGER, SPROTO_TSTRING; lia. }
  repeat constructor; cbn; try lia; try done; apply Ht; auto.
Qed.

Lemma findtag_correct_witness : findtag gap_type 4 = Some (Some (Field 4 SPROTO_TSTRING (Some [98]) None (-1))) /\
  findtag gap_type 4 = Some (first_field (st_f gap_type) 4).
Proof. split; [reflexivity|]. apply (findtag_correct 0 gap_type 4). exact gap_type_ok. Defined.

(** ** Reading a schema *)

Lemma toword_bound stream i v : is_bytes stream -> toword stream i = Some v -> 0 <= v < 2 ^ 16.
Proof.
  intros Hb H. unfold toword in H. apply bind_Some in H as (a & Ha & H). apply bind_Some in H as (b & Hb' & H). injection H as <-.
  assert (forall j x, stream.[j] = Some x -> is_u8 x) as Hx.
  { intros j x Hj. unfold aget in Hj. case_decide; [|done]. by eapply (Forall_lookup_1 _ _ _ _ Hb). }
  apply Hx in Ha, Hb'. unfold is_u8 in *. rewrite lor_shiftl_add by lia. lia.
Qed.

(** The field that [import_field] builds, before and after its type is known. *)
Record partial_ok (n tag : Z) (f : field) : Prop := PartialOk {
  pa_tag : -1 <= fd_tag f < 2 ^ 15;
  pa_type : (-1 <= fd_type f < SPROTO_TSTRUCT /\ fd_st f = None) \/
            (fd_type f = SPROTO_TSTRUCT /\ exists v, fd_st f = Some v /\ 0 <= v < n);
  pa_early : tag < 2 -> fd_st f = None
}.

Lemma partial_weaken n tag tag' f : tag <= tag' -> partial_ok n tag f -> partial_ok n tag' f.
Proof. intros Hle [H1 H2 H3]. constructor; [done|done|]. intros Hlt. apply H3. lia. Qed.

Lemma field_loop_ok type_n stream i fn : is_bytes stream -> forall n k tag f array r array', -1 <= tag ->
  partial_ok type_n tag f -> array = 0 \/ array = SPROTO_TARRAY ->
  field_loop n type_n stream i fn k tag f array = Some (Some (r, array')) ->
  (exists tag', partial_ok type_n tag' r) /\ (array' = 0 \/ array' = SPROTO_TARRAY).
Proof.
  intros Hb. induction n as [|n IH]; intros k tag f array r array' Htag Hf Harr H; cbn [field_loop] in H.
  { injection H as <- <-. split; [by exists tag|done]. }
  apply bind_Some in H as (value & Hv & H). apply toword_bound in Hv; [|done].
  assert (partial_ok type_n (tag + 1) f) as Hf1 by (eapply partial_weaken; [|exact Hf]; lia).
  destruct (Z.odd value) eqn:Eodd.
  { eapply IH; [|eapply partial_weaken; [|exact Hf1]|exact Harr|exact H]; Z.div_mod_to_equations; lia. }
  destruct (Z.eqb_spec (tag + 1) 0) as [E0|E0].
  { destruct (negb _); [done|]. apply bind_Some in H as (name & Hname & H). eapply IH; [| |exact Harr|exact H]; [lia|].
    destruct Hf1. by constructor. }
  destruct (Z.eqb_spec value 0) as [|Hv0]; [done|]. set (v := value / 2 - 1) in *.
  assert (0 <= v < 2 ^ 15) as Hvr.
  { pose proof (Z.odd_spec value). assert (value <> 1) by (intros ->; done). subst v. Z.div_mod_to_equations. lia. }
  destruct (Z.eqb_spec (tag + 1) 1) as [E1|E1].
  { destruct (Z.leb_spec SPROTO_TSTRUCT v); [done|]. eapply IH; [| |exact Harr|exact H]; [lia|].
    destruct Hf1 as [P1 P2 P3]. constructor; [done| |done]. left. cbn. split; [lia|]. apply P3. lia. }
  destruct (Z.eqb_spec (tag + 1) 2) as [E2|E2].
  { destruct (Z.leb_spec type_n v); [done|]. destruct (Z.leb_spec 0 (fd_type f)); [done|].
    eapply IH; [| |exact Harr|exact H]; [lia|]. destruct Hf1 as [P1 P2 P3]. constructor; [done| |lia].
    right. cbn. split; [done|]. exists v. split; [done|lia]. }
  destruct (Z.eqb_spec (tag + 1) 3) as [E3|E3].
  { eapply IH; [| |exact Harr|exact H]; [lia|]. destruct Hf1 as [P1 P2 P3]. constructor; [cbn; lia|done|done]. }
  destruct (Z.eqb_spec (tag + 1) 4) as [E4|E4].
  { eapply IH; [|exact Hf1| |exact H]; [lia|]. destruct (v =? 0); [done|by right]. }
  destruct (Z.eqb_spec (tag + 1) 5) as [E5|E5]; [|done].
  eapply IH; [| |exact Harr|exact H]; [lia|]. destruct Hf1 as [P1 P2 P3]. by constructor.
Qed.

Lemma import_field_ok type_n stream i f i' : is_bytes stream -> import_field type_n stream i = Some (Some (f, i')) -> field_ok type_n f.
Proof.
  intros Hb H. unfold import_field in H. apply bind_Some in H as (sz & _ & H). apply bind_Some in H as (fn & _ & H).
  destruct (fn <? 0); [done|]. apply bind_Some in H as (r & Hr & H). destruct r as [[g array]|]; [|done].
  destruct (_ || _) eqn:E; [done|]. injection H as <- _. apply orb_false_iff in E as [[E1 E2]%orb_false_iff E3].
  apply bool_decide_eq_false in E3.
  apply field_loop_ok in Hr as ((tag' & [P1 P2 P3]) & Harr); [|done|lia| |by left].
  - constructor; cbn [fd_tag fd_name fd_type fd_st]; [lia|done|]. exists (fd_type g), array. split; [done|]. split; [done|].
    destruct P2 as [[P2 P4]|P2]; [left; split; [lia|done]|by right].
  - constructor; [cbn; lia|left; split; [cbn; unfold SPROTO_TSTRUCT; lia|done]|done].
Qed.

Lemma fields_loop_ok type_n stream : is_bytes stream -> forall n i last maxn fs fs' maxn',
  fields_loop n type_n stream i last maxn fs = Some (Some (fs', maxn')) ->
  exists gs, fs' = fs ++ gs /\ Forall (field_ok type_n) gs /\ ascending last gs /\ maxn' + Z.of_nat n = maxn + slots last gs /\ length gs = n.
Proof.
  intros Hb. induction n as [|n IH]; intros i last maxn fs fs' maxn' H; cbn [fields_loop] in H.
  { injection H as <- <-. exists []. rewrite app_nil_r. split_and!; [done|constructor|done|cbn; lia|done]. }
  apply bind_Some in H as (r & Hr & H). destruct r as [[f i']|]; [|done]. apply import_field_ok in Hr; [|done].
  destruct (Z.leb_spec (fd_tag f) last); [done|]. apply IH in H as (gs & -> & Hok & Ha & Hs & Hlen).
  exists (f :: gs). rewrite <-app_assoc. split_and!; [done|by constructor|split; [lia|done]| |cbn; by f_equal].
  cbn [slots]. destruct (last + 1 <? fd_tag f); lia.
Qed.

(** Ascending tags without a gap are the places from the first tag on. *)
Lemma no_gap fs last n first end_ : ascending last fs -> zlen fs = n -> fs.[0] = Some first -> fs.[n - 1] = Some end_ ->
  fd_tag end_ - fd_tag first + 1 = n -> forall k f, fs.[k] = Some f -> fd_tag f = fd_tag first + k.
Proof.
  intros Ha Hn H0 Hend Hspan k f Hk. apply aget_lt_Some in Hk as Hr.
  assert (fd_tag first + k <= fd_tag f).
  { destruct (Z.eq_dec k 0) as [->|]; [rewrite H0 in Hk; injection Hk as ->; lia|].
    pose proof (ascending_sorted _ _ Ha 0 k _ _ ltac:(lia) H0 Hk). lia. }
  assert (fd_tag f + (n - 1 - k) <= fd_tag end_); [|lia].
  destruct (Z.eq_dec k (n - 1)) as [->|]; [rewrite Hend in Hk; injection Hk as ->; lia|].
  pose proof (ascending_sorted _ _ Ha k (n - 1) _ _ ltac:(lia) Hk Hend). lia.
Qed.

Lemma import_type_ok type_n stream i st i' : is_bytes stream -> import_type type_n stream i = Some (Some (st, i')) -> type_ok type_n st.
Proof.
  intros Hb H. unfold import_type in H. apply bind_Some in H as (sz & _ & H). apply bind_Some in H as (fn & _ & H).
  destruct (_ || _); [done|]. apply bind_Some in H as (ok & _ & H). destruct (negb ok); [done|].
  apply bind_Some in H as (name & _ & H). destruct (fn =? 1).
  { injection H as <- _. constructor; [constructor|done|done|]. intros _ k f Hk. apply aget_lt_Some in Hk. unfold zlen in Hk. cbn in Hk. lia. }
  apply bind_Some in H as (namesz & _ & H). apply bind_Some in H as (n & _ & H). destruct (Z.ltb_spec n 0); [done|].
  apply bind_Some in H as (r & Hr & H). destruct r as [[fs maxn]|]; [|done].
  apply bind_Some in H as (first & Hfirst & H). apply bind_Some in H as (end_ & Hend & H). injection H as <- _.
  apply fields_loop_ok in Hr as (gs & -> & Hok & Ha & Hs & Hlen); [|done]. cbn [app] in *.
  constructor; cbn [st_f st_maxn st_base]; [done|done|lia|].
  destruct (Z.eqb_spec (fd_tag end_ - fd_tag first + 1) n) as [Espan|]; [|lia]. intros _.
  eapply no_gap; [exact Ha| |exact Hfirst|exact Hend|exact Espan]. unfold zlen. lia.
Qed.

Lemma protocol_loop_ok type_n stream i fn : forall n k p r, index_ok type_n (pr_request p) -> index_ok type_n (pr_response p) ->
  protocol_loop n type_n stream i fn k p = Some (Some r) -> index_ok type_n (pr_request r) /\ index_ok type_n (pr_response r).
Proof.
  induction n as [|n IH]; intros k p r H1 H2 H; cbn [protocol_loop] in H; [by injection H as <-|].
  apply bind_Some in H as (value & _ & H). destruct (Z.odd value); [by eapply IH|]. set (v := value / 2 - 1) in *.
  destruct (k =? 0). { destruct (negb _); [done|]. apply bind_Some in H as (name & _ & H). by eapply IH in H. }
  destruct (k =? 1). { destruct (v <? 0); [done|]. by eapply IH in H. }
  destruct (k =? 2). { destruct (_ || _) eqn:E; [done|]. eapply IH in H; [done| |done]. cbn. lia. }
  destruct (k =? 3); [|done]. destruct (_ || _) eqn:E; [done|]. eapply IH in H; [done|done|]. cbn. lia.
Qed.

Lemma import_protocol_ok type_n stream i p i' : import_protocol type_n stream i = Some (Some (p, i')) -> protocol_ok type_n p.
Proof.
  intros H. unfold import_protocol in H. apply bind_Some in H as (sz & _ & H). apply bind_Some in H as (fn & _ & H).
  apply bind_Some in H as (r & Hr & H). destruct r as [q|]; [|done]. destruct (_ || _) eqn:E; [done|]. injection H as <- _.
  apply orb_false_iff in E as [E1 E2]. apply bool_decide_eq_false in E1. apply protocol_loop_ok in Hr as [H1 H2]; [|done..].
  constructor; [done|lia|done|done].
Qed.

Lemma import_all_ok {A} (import : Z -> option (option (A * Z))) (P : A -> Prop) :
  (forall i a i', import i = Some (Some (a, i')) -> P a) ->
  forall n i l l', Forall P l -> import_all import n i l = Some (Some l') -> Forall P l' /\ length l' = (length l + n)%nat.
Proof.
  intros Himp. induction n as [|n IH]; intros i l l' Hl H; cbn [import_all] in H; [injection H as <-; by rewrite Nat.add_0_r|].
  apply bind_Some in H as (r & Hr & H). destruct r as [[a i']|]; [|done]. apply Himp in Hr.
  apply IH in H as [H1 H2]; [|apply Forall_app; by split; [|constructor]]. split; [done|]. rewrite H2, length_app. cbn. lia.
Qed.

(** C37: A schema that [sproto_create] accepts is well-formed, whatever bytes it is given:
    the tags of a type ascend and are below 2^15, so that [maxn] is the number of records
    that a struct can need and [base] finds a field by its index; the types of fields and
    protocols that are structs are indices of types, and every name is there. *)
Theorem sproto_create_typed (stream : list Z) (sp : sproto) : is_bytes stream ->
  sproto_create stream = Some (Some sp) ->
  Forall (type_ok (zlen (sp_type sp))) (sp_type sp) /\ Forall (protocol_ok (zlen (sp_type sp))) (sp_proto sp).
Proof.
  intros Hb H. unfold sproto_create in H. apply bind_Some in H as (fn & _ & H).
  destruct (_ || _); [done|]. destruct (fn =? 0); [injection H as <-; by split|].
  apply bind_Some in H as (r & Hr & H). destruct r as [[type_n content2]|]; [|done].
  apply bind_Some in H as (r2 & _ & H). destruct r2 as [[protocol_n c3]|]; [|done].
  apply bind_Some in H as (types & Ht & H). destruct types as [types|]; [|done].
  apply bind_Some in H as (protos & Hp & H). destruct protos as [protos|]; [|done]. injection H as <-. cbn [sp_type sp_proto].
  assert (0 <= type_n) as Hn.
  { unfold bundle_array in Hr. apply bind_Some in Hr as (v & _ & Hr). destruct (negb _); [done|].
    apply bind_Some in Hr as (m & _ & Hr). destruct (Z.ltb_spec m 0); [done|]. apply bind_Some in Hr as (len & _ & Hr). by injection Hr as <- _. }
  apply (import_all_ok _ (type_ok type_n)) in Ht as [Ht Hlen]; [|intros i a i' E; by eapply import_type_ok|constructor].
  apply (import_all_ok _ (protocol_ok type_n)) in Hp as [Hp _]; [|intros i a i' E; by eapply import_protocol_ok|constructor].
  assert (zlen types = type_n) as -> by (unfold zlen; cbn in Hlen; lia). by split.
Qed.

(** A schema with one type, whose five fields leave a gap, and one protocol. *)
Definition schema_example : list Z :=
  [2; 0; 0; 0; 0; 0; 118; 0; 0; 0; 114; 0; 0; 0; 2; 0; 0; 0; 0; 0; 1; 0; 0; 0; 80; 99; 0; 0; 0; 15; 0; 0; 0; 4;
    0; 0; 0; 6; 0; 1; 0; 2; 0; 1; 0; 0; 0; 110; 15; 0; 0; 0; 4; 0; 0; 0; 2; 0; 1; 0; 4; 0; 1; 0; 0; 0; 97; 17; 0;
    0; 0; 5; 0; 0; 0; 1; 0; 2; 0; 8; 0; 4; 0; 1; 0; 0; 0; 107; 15; 0; 0; 0; 4; 0; 0; 0; 4; 0; 1; 0; 10; 0; 1; 0;
    0; 0; 109; 17; 0; 0; 0; 5; 0; 0; 0; 2; 0; 1; 0; 12; 0; 4; 0; 1; 0; 0; 0; 105; 19; 0; 0; 0; 15; 0; 0; 0; 3; 0;
    0; 0; 16; 0; 2; 0; 3; 0; 0; 0; 103; 101; 116].

Lemma sproto_create_typed_witness : exists sp, sproto_create schema_example = Some (Some sp) /\
  Forall (type_ok (zlen (sp_type sp))) (sp_type sp) /\ Forall (protocol_ok (zlen (sp_type sp))) (sp_proto sp).
Proof.
  assert (exists sp, sproto_create schema_example = Some (Some sp)) as [sp E] by (eexists; vm_compute; reflexivity).
  exists sp. split; [exact E|]. apply (sproto_create_typed schema_example sp); [|exact E].
  unfold is_bytes, schema_example. repeat constructor; unfold is_u8; lia.
Defined.
