(* ===== verification/SprotoFormat.v ===== *)
(** The format of lib/sproto: the bytes that a struct is encoded to, as a reference for
    [sproto_encode] and [sproto_decode], and lemmas on words in little-endian order. *)
From S2P Require Import Prelude Bytes Buffer Sproto.

(** ** Words as bytes *)

Lemma todword_rest stream i v rest : 0 <= v < 2 ^ 32 -> rest_at stream i (le_bytes 4 v ++ rest) ->
  todword stream i = Some v /\ rest_at stream (i + 4) rest.
Proof.
  intros Hv Hr. rewrite le_bytes_4 in Hr. pose proof (le32_put_le32 v Hv) as E. rewrite put_le32_eq in *. cbn [app] in Hr.
  apply rest_cons in Hr as [E0 Hr]. apply rest_cons in Hr as [E1 Hr]. apply rest_cons in Hr as [E2 Hr]. apply rest_cons in Hr as [E3 Hr].
  replace (i + 1 + 1) with (i + 2) in * by lia. replace (i + 2 + 1) with (i + 3) in * by lia. replace (i + 3 + 1) with (i + 4) in * by lia.
  unfold todword. rewrite E0, E1, E2, E3. cbn [mbind option_bind]. split; [by rewrite E|done].
Qed.

Lemma toword_rest stream i v rest : 0 <= v < 2 ^ 16 -> rest_at stream i (le_bytes 2 v ++ rest) ->
  toword stream i = Some v /\ rest_at stream (i + 2) rest.
Proof.
  intros Hv Hr. cbn [le_bytes app] in Hr. apply rest_cons in Hr as [E0 Hr]. apply rest_cons in Hr as [E1 Hr].
  replace (i + 1 + 1) with (i + 2) in * by lia. split; [|done]. unfold toword. rewrite E0, E1. cbn [mbind option_bind]. f_equal.
  rewrite !land_255, Z.shiftr_div_pow2 by lia. rewrite lor_shiftl_add by (lia || by apply Z.mod_pos_bound).
  rewrite (Z.mod_small (v / 2 ^ 8)) by (Z.div_mod_to_equations; lia). pose proof (Z.div_mod v (2 ^ 8) ltac:(lia)). lia.
Qed.

(** ** The reference encoding *)

(** The value of a field as a callback gives it: nothing, one value, or an array; a value
    is its bytes, which are four or eight for an integer and four for a boolean. *)
Inductive fvalue := VAbsent | VScalar (b : list Z) | VArray (bs : list (list Z)).

(** A callback of [sproto_encode] that gives the values [val] of the tags. *)
Definition answer (val : Z -> fvalue) (arg : sproto_arg) (s : unit) : cb_result * unit :=
  (match val (a_tagid arg) with
   | VAbsent => if a_index arg =? 0 then CB_NIL else CB_NOARRAY
   | VScalar b => if a_length arg <? zlen b then CB_ERROR else CB_VALUE b
   | VArray bs =>
       match bs.[a_index arg - 1] with
       | Some b => if a_length arg <? zlen b then CB_ERROR else CB_VALUE b
       | None => CB_NIL
       end
   end, s).

Definition is_array (f : field) : bool := negb (Z.land (fd_type f) SPROTO_TARRAY =? 0).
Definition elem_type (f : field) : Z := Z.land (fd_type f) (Z.lnot SPROTO_TARRAY).

Definition elem_ok (type : Z) (b : list Z) : Prop :=
  is_bytes b /\ (type = SPROTO_TINTEGER -> zlen b = 4 \/ zlen b = 8) /\
  (type = SPROTO_TBOOLEAN -> zlen b = 4 /\ le_value b <= 1).

Definition value_ok (f : field) (v : fvalue) : Prop :=
  match v with
  | VAbsent => True
  | VScalar b => is_array f = false /\ elem_ok (elem_type f) b
  | VArray bs => is_array f = true /\ Forall (elem_ok (elem_type f)) bs
  end.

Definition negative (b : list Z) : bool := 2 ^ 31 <=? le_value b.

(** Whether some integer of the array needs eight bytes, and then four bytes as eight. *)
Definition wide (bs : list (list Z)) : bool := existsb (fun b => zlen b =? 8) bs.
Definition int_bytes (w : bool) (b : list Z) : list Z :=
  if w && (zlen b =? 4) then b ++ replicate 4 (if negative b then 0xff else 0) else b.
Definition int_len (w : bool) : Z := if w then 8 else 4.

Definition bool_byte (b : list Z) : Z := if le_value b =? 0 then 0 else 1.

(** Data with their size. *)
Definition sized (l : list Z) : list Z := le_bytes 4 (zlen l) ++ l.
Definition object_bytes (bs : list (list Z)) : list Z := mjoin (map sized bs).

Definition array_bytes (type : Z) (bs : list (list Z)) : list Z :=
  if type =? SPROTO_TINTEGER then
    match bs with [] => [] | _ => int_len (wide bs) :: mjoin (map (int_bytes (wide bs)) bs) end
  else if type =? SPROTO_TBOOLEAN then map bool_byte bs
  else object_bytes bs.

(** The value in the record of a field and its data. *)
Definition field_bytes (f : field) (v : fvalue) : option (Z * list Z) :=
  match v with
  | VAbsent => None
  | VScalar b =>
      if ((elem_type f =? SPROTO_TINTEGER) || (elem_type f =? SPROTO_TBOOLEAN)) && (zlen b =? 4) && (le_value b <? 0x7fff)
      then Some ((le_value b + 1) * 2, [])
      else Some (0, sized b)
  | VArray bs => Some (0, sized (array_bytes (elem_type f) bs))
  end.

Definition data_of (f : field) (v : fvalue) : list Z := match field_bytes f v with Some (_, d) => d | None => [] end.

(** The records and the data of fields; a gap of tags before a field takes a record. *)
Fixpoint records (val : Z -> fvalue) (lasttag : Z) (fs : list field) : list (Z) :=
  match fs with
  | [] => []
  | f :: fs =>
      match field_bytes f (val (fd_tag f)) with
      | None => records val lasttag fs
      | Some (value, _) =>
          let tag := fd_tag f - lasttag - 1 in
          (if 0 <? tag then [(tag - 1) * 2 + 1] else []) ++ value :: records val (fd_tag f) fs
      end
  end.

Definition datas (val : Z -> fvalue) (fs : list field) : list Z := mjoin (map (fun f => data_of f (val (fd_tag f))) fs).
Definition words (l : list Z) : list Z := mjoin (map (le_bytes 2) l).

Definition encoded (val : Z -> fvalue) (st : sproto_type) : list Z :=
  let l := records val (-1) (st_f st) in
  le_bytes 2 (zlen l) ++ words l ++ datas val (st_f st).

(** ** Bits of signs *)

Lemma land_pow2 v k : 0 <= k -> 0 <= v < 2 ^ (k + 1) -> (Z.land v (2 ^ k) =? 0) = negb (2 ^ k <=? v).
Proof.
  intros Hk Hv. rewrite Z.pow_add_r in Hv by lia. assert (0 < 2 ^ k) by lia.
  assert (Z.land v (2 ^ k) = (v / 2 ^ k) * 2 ^ k) as ->.
  { apply Z.bits_inj'. intros i Hi. rewrite Z.land_spec, <-Z.shiftl_mul_pow2, Z.shiftl_spec, <-Z.shiftr_div_pow2 by lia.
    destruct (Z.lt_trichotomy i k) as [Hlt|[->|Hgt]].
    - rewrite Z.pow2_bits_false by lia. by rewrite andb_false_r, Z.testbit_neg_r by lia.
    - rewrite Z.pow2_bits_true, andb_true_r by lia. rewrite Z.shiftr_spec by lia. f_equal. lia.
    - rewrite Z.pow2_bits_false, andb_false_r by lia. rewrite Z.shiftr_spec by lia. replace (i - k + k) with i by lia.
      destruct (Z.eq_dec v 0) as [->|]; [by rewrite Z.bits_0|]. symmetry. apply Z.bits_above_log2; [lia|].
      assert (Z.log2 v < k + 1); [|lia]. apply Z.log2_lt_pow2; [lia|]. rewrite Z.pow_add_r by lia. lia. }
  destruct (Z.leb_spec (2 ^ k) v).
  - assert (v / 2 ^ k = 1) as -> by (symmetry; apply (Z.div_unique v (2 ^ k) 1 (v - 2 ^ k)); lia). cbn [negb]. lia.
  - by rewrite Z.div_small by lia.
Qed.

Lemma four_bytes b : is_bytes b -> zlen b = 4 -> exists b0 b1 b2 b3, b = [b0; b1; b2; b3] /\ is_u8 b0 /\ is_u8 b1 /\ is_u8 b2 /\ is_u8 b3.
Proof.
  intros Hb Hlen. destruct b as [|b0 [|b1 [|b2 [|b3 [|]]]]]; unfold zlen in Hlen; cbn in Hlen; try lia.
  exists b0, b1, b2, b3. unfold is_bytes in Hb. rewrite !Forall_cons in Hb. naive_solver.
Qed.

Lemma negative_value b : is_bytes b -> zlen b = 4 -> negb (Z.land (le_value b) 0x80000000 =? 0) = negative b.
Proof.
  intros Hb Hlen. pose proof (le_value_bound b Hb) as Hv. rewrite Hlen in Hv. change 0x80000000 with (2 ^ 31).
  rewrite land_pow2 by lia. by rewrite negb_involutive.
Qed.

Lemma negative_byte b0 b1 b2 b3 : is_u8 b0 -> is_u8 b1 -> is_u8 b2 -> is_u8 b3 ->
  negb (Z.land b3 0x80 =? 0) = negative [b0; b1; b2; b3].
Proof.
  unfold is_u8. intros H0 H1 H2 H3. change 0x80 with (2 ^ 7). rewrite land_pow2 by lia. rewrite negb_involutive. unfold negative. cbn [le_value].
  destruct (Z.leb_spec (2 ^ 7) b3), (Z.leb_spec (2 ^ 31) (b0 + 2 ^ 8 * (b1 + 2 ^ 8 * (b2 + 2 ^ 8 * (b3 + 2 ^ 8 * 0))))); lia.
Qed.
