(* ===== verification/SprotoEncode.v ===== *)
(** [sproto_encode] of lib/sproto/sproto.c writes the reference encoding of [SprotoFormat]
    when the buffer has room; and arrays of integers that are written behind the buffer. *)
From S2P Require Import Prelude Bytes Buffer Sproto SprotoSchema SprotoFormat.

(** ** Arrays of integers *)

Lemma zlen_nil {A} : zlen (@nil A) = 0.
Proof. done. Qed.

Lemma mjoin_snoc {A} (l : list (list A)) x : mjoin (l ++ [x]) = mjoin l ++ x.
Proof. rewrite join_app. cbn. by rewrite app_nil_r. Qed.

Lemma zlen_mjoin_all {A} (l : list (list A)) n : Forall (fun x => zlen x = n) l -> zlen (mjoin l) = n * zlen l.
Proof.
  induction 1 as [|x l Hx _ IH]; [change (0 = n * 0); lia|]. change (mjoin (x :: l)) with (x ++ mjoin l).
  rewrite zlen_app, zlen_cons, IH. lia.
Qed.

Definition int4 (b : list Z) : Prop := is_bytes b /\ zlen b = 4.
Definition int48 (b : list Z) : Prop := is_bytes b /\ (zlen b = 4 \/ zlen b = 8).

Lemma int4_int48 bs : Forall int4 bs -> Forall int48 bs.
Proof. intros H. eapply Forall_impl; [exact H|]. intros b [? ?]. split; [done|by left]. Qed.

Lemma int_bytes_4 b : zlen b = 4 -> int_bytes true b = b ++ replicate 4 (if negative b then 255 else 0).
Proof. intros Hb. unfold int_bytes. by rewrite Hb. Qed.

Lemma zlen_int_bytes b : int48 b -> zlen (int_bytes true b) = 8.
Proof. intros [_ [Hb|Hb]]; unfold int_bytes; rewrite Hb; cbn [andb Z.eqb Pos.eqb]; [|done]. rewrite zlen_app, Hb. done. Qed.

Lemma zlen_ints_wide bs : Forall int48 bs -> zlen (mjoin (map (int_bytes true) bs)) = 8 * zlen bs.
Proof.
  intros H. rewrite (zlen_mjoin_all _ 8); [unfold zlen; by rewrite length_map|].
  apply Forall_map. eapply Forall_impl; [exact H|]. apply zlen_int_bytes.
Qed.

Lemma zlen_ints_narrow bs : Forall int4 bs -> zlen (mjoin bs) = 4 * zlen bs.
Proof. intros H. apply zlen_mjoin_all. eapply Forall_impl; [exact H|]. by intros b [_ ?]. Qed.

(** The four-byte integers are spread to eight bytes, from the last one on. *)
Lemma rearrange_spec bs : forall A tail header, Forall int4 bs -> zlen A = header + 1 -> 4 * zlen bs <= zlen tail ->
  rearrange (length bs) header (A ++ mjoin bs ++ tail) = Some (put A (mjoin bs ++ tail) (mjoin (map (int_bytes true) bs))).
Proof.
  induction bs as [|b bs IH] using rev_ind; intros A tail header Hok HA Hfit; [done|].
  apply Forall_app in Hok as [Hok Hb]. apply Forall_inv in Hb as [Hb Hb4]. rewrite zlen_snoc in Hfit.
  pose proof (zlen_nonneg bs). pose proof (zlen_ints_narrow bs Hok) as Hlen4.
  rewrite length_app, Nat.add_1_r, mjoin_snoc, <-app_assoc. cbn [rearrange]. fold (zlen bs).
  rewrite (app_assoc A). rewrite (slice_behind (A ++ mjoin bs) b) by (rewrite ?zlen_app; lia). cbn [mbind option_bind].
  set (T := b ++ tail). assert (zlen T = 4 + zlen tail) as HT by (subst T; rewrite zlen_app; lia).
  set (mid := take (4 * length bs) T). set (T2 := drop (4 * length bs) T).
  assert (zlen mid = 4 * zlen bs) as Hmid by (subst mid; unfold zlen in *; rewrite length_take; lia).
  assert (zlen T2 = 4 + zlen tail - 4 * zlen bs) as HT2 by (subst T2; unfold zlen in *; rewrite length_drop; lia).
  assert (T = mid ++ T2) as ET by (by subst mid T2; rewrite take_drop). rewrite ET, (app_assoc _ mid).
  set (P := (A ++ mjoin bs) ++ mid). assert (zlen P = header + 1 + zlen bs * 8) as HP by (subst P; rewrite !zlen_app; lia).
  rewrite (memcpy_at P) by lia. cbn [mbind option_bind]. rewrite put_assoc.
  destruct (four_bytes b Hb Hb4) as (x0 & x1 & x2 & x3 & -> & H0 & H1 & H2 & H3).
  assert (((P ++ [x0; x1; x2; x3]) ++ drop (length [x0; x1; x2; x3]) T2).[header + 1 + zlen bs * 8 + 3] = Some x3) as ->.
  { rewrite aget_app_l by (rewrite zlen_app, HP; change (zlen [x0; x1; x2; x3]) with 4; lia). rewrite aget_app_r by lia. rewrite HP.
    by replace (_ + 3 - _) with 3 by lia. }
  cbn [mbind option_bind]. rewrite (negative_byte x0 x1 x2 x3) by done. unfold uint32_to_uint64.
  set (b := [x0; x1; x2; x3]) in *. set (ext := replicate 4 (if negative b then 255 else 0)).
  rewrite memcpy_at; [|rewrite zlen_app; lia|rewrite zlen_drop_length by lia; change (zlen ext) with 4; lia].
  cbn [mbind option_bind]. rewrite put_after, put_assoc. replace (b ++ ext) with (int_bytes true b) by (by apply int_bytes_4).
  set (w := int_bytes true b). assert (zlen w = 8) as Hw by (apply zlen_int_bytes; split; [done|by left]).
  subst P. rewrite <-!app_assoc. rewrite IH; [|done|done|].
  2: { rewrite !zlen_app, zlen_drop_length by lia. lia. }
  f_equal. unfold put. f_equal. rewrite map_app. cbn [map]. rewrite mjoin_snoc. fold w.
  pose proof (zlen_ints_wide bs (int4_int48 _ Hok)) as Hlen8. set (W := mjoin (map (int_bytes true) bs)) in *.
  rewrite <-app_assoc. f_equal. rewrite length_app, <-(drop_drop _ (length w) (length W)).
  assert (length W = (length (mjoin bs) + length mid)%nat) as -> by (unfold zlen in *; lia).
  rewrite <-length_app, !(app_assoc (mjoin bs)). by rewrite !drop_app_length.
Qed.

Lemma lt_size_false n k : 0 <= k <= n -> n < 2 ^ 31 -> lt_size n k = false.
Proof. intros H1 H2. unfold lt_size, u64. rewrite Z.mod_small by lia. lia. Qed.

Section arrays.
Variable val : Z -> fvalue.
Variable arg : sproto_arg.
Variable all : list (list Z).
Hypothesis Hval : val (a_tagid arg) = VArray all.

Lemma answer_next size done bs b : all = done ++ b :: bs -> zlen b <= size ->
  answer val (with_value arg size (zlen done + 1)) tt = (CB_VALUE b, tt).
Proof using Hval.
  intros Hall Hb. unfold answer. cbn [with_value a_tagid a_index a_length]. rewrite Hval, Hall, aget_app_eq by lia.
  by destruct (Z.ltb_spec size (zlen b)); [lia|].
Qed.

Lemma answer_end size : answer val (with_value arg size (zlen all + 1)) tt = (CB_NIL, tt).
Proof using Hval.
  unfold answer. cbn [with_value a_tagid a_index a_length]. rewrite Hval, aget_None; [done|lia].
Qed.

Lemma integer_loop_wide bs : forall done fuel header pre tail, all = done ++ bs -> Forall int48 bs ->
  (length bs < fuel)%nat -> zlen tail < 2 ^ 31 -> 8 * zlen bs <= zlen tail ->
  integer_loop (answer val) fuel arg header (zlen pre) (zlen tail) 8 (zlen done + 1) (pre ++ tail) tt =
  Some (Some (zlen pre + 8 * zlen bs, 8, false), put pre tail (mjoin (map (int_bytes true) bs)), tt).
Proof using Hval.
  induction bs as [|b bs IH]; intros done fuel header pre tail Hall Hok Hfuel Hmax Hfit; (destruct fuel as [|fuel]; [cbn in Hfuel; lia|]);
    cbn [integer_loop].
  { rewrite app_nil_r in Hall. subst done. rewrite answer_end. change (zlen (@nil (list Z))) with 0. by rewrite Z.add_0_r. }
  apply Forall_cons in Hok as [[Hb Hlen] Hok]. cbn [length] in Hfuel. rewrite zlen_cons in Hfit. pose proof (zlen_nonneg bs).
  rewrite (answer_next _ done bs b) by (done || lia). destruct b as [|c b0] eqn:Eb; [destruct Hlen; done|]. rewrite <-Eb in *. clear Eb c b0.
  rewrite lt_size_false by lia.
  assert (forall n, zlen b = Z.of_nat n -> le_bytes n (le_value b) = b) as Hrep.
  { intros n Hn. rewrite <-(le_bytes_le_value b Hb) at 2. f_equal. unfold zlen in Hn. lia. }
  assert (forall rest, rest = (integer_loop (answer val) fuel arg header (zlen (pre ++ int_bytes true b)) (zlen (drop (length (int_bytes true b)) tail)) 8 (zlen (done ++ [b]) + 1)
     ((pre ++ int_bytes true b) ++ drop (length (int_bytes true b)) tail) tt) -> rest =
     Some (Some (zlen pre + 8 * zlen (b :: bs), 8, false), put pre tail (mjoin (map (int_bytes true) (b :: bs))), tt)) as Hrest.
  { intros rest ->. pose proof (zlen_int_bytes b (conj Hb Hlen)) as Hw. rewrite IH; [|by rewrite <-app_assoc|done|lia|rewrite zlen_drop_length; lia|rewrite zlen_drop_length; lia].
    rewrite put_after, zlen_app, zlen_cons, Hw. change (mjoin (map (int_bytes true) (b :: bs))) with (int_bytes true b ++ mjoin (map (int_bytes true) bs)).
    by replace (zlen pre + 8 * (1 + zlen bs)) with (zlen pre + 8 + 8 * zlen bs) by lia. }
  pose proof (zlen_int_bytes b (conj Hb Hlen)) as Hw. rewrite zlen_app, Hw, zlen_drop_length, Hw, <-put_assoc, zlen_snoc in Hrest by lia.
  destruct Hlen as [Hlen|Hlen]; rewrite Hlen; cbn [Z.eqb Pos.eqb negb].
  - rewrite Hrep by done. rewrite memcpy_at by lia. cbn [mbind option_bind]. rewrite negative_value by done. unfold uint32_to_uint64.
    rewrite memcpy_next; [|lia|change (zlen (replicate _ _)) with 4; lia]. cbn [mbind option_bind]. rewrite <-int_bytes_4 by done. by apply Hrest.
  - rewrite Hrep by done. rewrite memcpy_at by lia. cbn [mbind option_bind]. apply Hrest.
    assert (int_bytes true b = b) as -> by (unfold int_bytes; by rewrite Hlen). done.
Qed.
End arrays.

Lemma put_over (A y x tail l : list Z) : zlen y + zlen x <= zlen l ->
  put A (y ++ x ++ drop (length x) tail) l = put A (y ++ tail) l.
Proof.
  intros Hl. unfold put. do 2 f_equal. replace (length l) with ((length y + length x) + (length l - length y - length x))%nat by (unfold zlen in *; lia).
  by rewrite <-!drop_drop, !drop_app_length.
Qed.

Lemma wide_app bs cs : wide (bs ++ cs) = wide bs || wide cs.
Proof. apply existsb_app. Qed.

Lemma narrow_int4 bs : Forall int48 bs -> wide bs = false -> Forall int4 bs.
Proof.
  induction 1 as [|b bs [Hb Hlen] _ IH]; intros Hw; [done|]. cbn [wide existsb] in Hw. apply orb_false_iff in Hw as [H8 Hw].
  constructor; [split; [done|lia]|by apply IH].
Qed.

Lemma wide_int4 bs : Forall int4 bs -> wide bs = false.
Proof. induction 1 as [|b bs [_ Hb] _ IH]; [done|]. change (wide (b :: bs)) with ((zlen b =? 8) || wide bs). by rewrite Hb, IH. Qed.

Lemma zlen_ints bs : Forall int48 bs -> zlen (mjoin (map (int_bytes (wide bs)) bs)) = int_len (wide bs) * zlen bs.
Proof.
  intros H. destruct (wide bs) eqn:Ew; [by apply zlen_ints_wide|]. rewrite map_ext with (g := id), map_id by done.
  by apply zlen_ints_narrow, narrow_int4.
Qed.

Section narrow.
Variable val : Z -> fvalue.
Variable arg : sproto_arg.
Variable all : list (list Z).
Hypothesis Hval : val (a_tagid arg) = VArray all.

(** The loop before the first 64-bit integer: the [done] integers have four bytes. *)
Lemma integer_loop_narrow bs : forall done fuel header A tail, all = done ++ bs -> Forall int4 done -> Forall int48 bs ->
  (length bs < fuel)%nat -> zlen A = header + 1 -> zlen tail < 2 ^ 31 -> int_len (wide bs) * zlen all + 4 <= 4 * zlen done + zlen tail ->
  integer_loop (answer val) fuel arg header (zlen A + 4 * zlen done) (zlen tail) 4 (zlen done + 1) (A ++ mjoin done ++ tail) tt =
  Some (Some (zlen A + int_len (wide bs) * zlen all, int_len (wide bs), false),
        put A (mjoin done ++ tail) (mjoin (map (int_bytes (wide bs)) all)), tt).
Proof using Hval.
  induction bs as [|b bs IH]; intros done fuel header A tail Hall Hdone Hok Hfuel HA Hmax Hfit; (destruct fuel as [|fuel]; [cbn in Hfuel; lia|]);
    pose proof (zlen_ints_narrow done Hdone) as Hlen4; cbn [integer_loop].
  { rewrite app_nil_r in Hall. subst done. rewrite answer_end by done. cbn [wide existsb int_len]. unfold put. rewrite map_ext with (g := id), map_id by done.
    by rewrite drop_app_length. }
  apply Forall_cons in Hok as [[Hb Hlen] Hok]. cbn [length] in Hfuel. pose proof (zlen_nonneg done) as Hd0. pose proof (zlen_nonneg bs).
  assert (zlen all = zlen done + 1 + zlen bs) as Hn by (rewrite Hall, zlen_app, zlen_cons; lia).
  rewrite (answer_next _ _ _ Hval _ done bs b) by (done || lia). destruct b as [|c b0] eqn:Eb; [destruct Hlen; done|]. rewrite <-Eb in *. clear Eb c b0.
  assert (forall n, zlen b = Z.of_nat n -> le_bytes n (le_value b) = b) as Hrep.
  { intros n Hl. rewrite <-(le_bytes_le_value b Hb) at 2. f_equal. unfold zlen in Hl. lia. }
  rewrite lt_size_false by (destruct (wide (b :: bs)); unfold int_len in Hfit; lia).
  destruct Hlen as [Hlen|Hlen]; rewrite Hlen; cbn [Z.eqb Pos.eqb negb].
  - rewrite Hrep by done. rewrite (app_assoc A).
    assert (zlen b <= zlen tail) as Hbt by (destruct (wide (b :: bs)); unfold int_len in Hfit; lia).
    rewrite memcpy_at by (rewrite ?zlen_app; lia). cbn [mbind option_bind].
    assert (wide (b :: bs) = wide bs) as Ew by (cbn [wide existsb]; by rewrite Hlen). rewrite Ew in *.
    rewrite put_assoc, <-!app_assoc, (app_assoc (mjoin done)), <-mjoin_snoc.
    replace (zlen tail - 4) with (zlen (drop (length b) tail)) by (rewrite zlen_drop_length; lia).
    replace (zlen A + 4 * zlen done + 4) with (zlen A + 4 * zlen (done ++ [b])) by (rewrite zlen_snoc; lia).
    assert (zlen (mjoin (map (int_bytes (wide bs)) all)) = int_len (wide bs) * zlen all) as Hbytes.
    { assert (wide bs = wide all) as -> by (rewrite Hall, wide_app, (wide_int4 done) by done; cbn [wide existsb orb]; by rewrite Hlen). apply zlen_ints. rewrite Hall.
      apply Forall_app; split; [by apply int4_int48|constructor; [split; [done|by left]|done]]. }
    rewrite <-(zlen_snoc done b). rewrite IH; [|by rewrite <-app_assoc|apply Forall_app; split; [done|by constructor]|done|lia|done| |].
    + by rewrite mjoin_snoc, <-app_assoc, put_over by (rewrite Hbytes; destruct (wide bs); unfold int_len; lia).
    + rewrite zlen_drop_length; lia.
    + rewrite zlen_snoc, zlen_drop_length; lia.
  - assert (wide (b :: bs) = true) as Ew by (cbn [wide existsb]; by rewrite Hlen). rewrite Ew in *. cbn [int_len] in *.
    replace (zlen done + 1 - 1) with (zlen done) by lia. rewrite s32_small by (unfold is_s32; lia). rewrite lt_size_false by lia.
    replace (Z.to_nat (zlen done)) with (length done) by (unfold zlen; lia). rewrite rearrange_spec by (done || lia). cbn [mbind option_bind].
    pose proof (zlen_ints_wide done (int4_int48 _ Hdone)) as Hlen8. set (W := mjoin (map (int_bytes true) done)) in *.
    rewrite Hrep by done. rewrite put_assoc. assert (zlen W <= zlen (mjoin done ++ tail)) as HW by (rewrite zlen_app; lia).
    rewrite memcpy_at; [|rewrite zlen_app; lia|rewrite zlen_drop_length, zlen_app by done; lia]. cbn [mbind option_bind].
    rewrite put_after, put_assoc. assert (zlen (W ++ b) <= zlen (mjoin done ++ tail)) as HW8 by (rewrite !zlen_app in *; lia).
    replace (zlen tail - zlen done * 4 - 8) with (zlen (drop (length (W ++ b)) (mjoin done ++ tail))) by (rewrite zlen_drop_length, !zlen_app in *; lia).
    replace (zlen A + 4 * zlen done + zlen done * 4 + 8) with (zlen (A ++ W ++ b)) by (rewrite !zlen_app; lia).
    rewrite <-(zlen_snoc done b). rewrite (integer_loop_wide _ _ _ Hval bs); [|by rewrite <-app_assoc|done|lia|..].
    2,3: rewrite zlen_drop_length, !zlen_app in *; lia.
    rewrite put_after. rewrite Hall, map_app, join_app. change (mjoin (map (int_bytes true) (b :: bs))) with (int_bytes true b ++ mjoin (map (int_bytes true) bs)).
    assert (int_bytes true b = b) as -> by (unfold int_bytes; by rewrite Hlen). rewrite <-app_assoc.
    replace (zlen (A ++ W ++ b) + 8 * zlen bs) with (zlen A + 8 * zlen (done ++ b :: bs)); [done|].
    rewrite !zlen_app, zlen_cons. lia.
Qed.
End narrow.

(** ** Data with their size *)

Lemma take_4_tail (pre tail : list Z) : 4 <= zlen tail -> zlen (pre ++ take 4 tail) = zlen pre + 4 /\ zlen (drop 4 tail) = zlen tail - 4.
Proof. intros H. unfold zlen in *. rewrite length_app, length_take, length_drop. lia. Qed.

Lemma memcpy_sized (pre tail l : list Z) : 4 + zlen l <= zlen tail ->
  memcpy (pre ++ tail) (zlen pre + 4) l = Some (put (pre ++ take 4 tail) (drop 4 tail) l).
Proof.
  intros Hl. pose proof (zlen_nonneg l). destruct (take_4_tail pre tail) as [H1 H2]; [lia|].
  rewrite <-(take_drop 4 tail) at 1. rewrite app_assoc. by apply memcpy_at; lia.
Qed.

Lemma fill_size_spec (pre tail l : list Z) n : 4 + zlen l <= zlen tail ->
  fill_size (put (pre ++ take 4 tail) (drop 4 tail) l) (zlen pre) n = Some (put pre tail (le_bytes 4 n ++ l), n + 4).
Proof.
  intros Hl. unfold fill_size. pose proof (memcpy_front pre tail l (le_bytes 4 n) (zlen pre) eq_refl) as H.
  rewrite zlen_le_word in H. change (length (le_bytes 4 n)) with 4%nat in H. by rewrite H.
Qed.

Lemma zlen_sized l : zlen (sized l) = 4 + zlen l.
Proof. unfold sized. rewrite zlen_app, zlen_le_word. done. Qed.

(** ** Arrays *)
Section arrays.
Variable val : Z -> fvalue.
Variable arg : sproto_arg.

Lemma encode_integer_array_spec all pre tail : val (a_tagid arg) = VArray all -> Forall int48 all ->
  zlen (array_bytes SPROTO_TINTEGER all) + 4 <= zlen tail -> zlen tail < 2 ^ 31 ->
  encode_integer_array (answer val) arg (pre ++ tail) (zlen pre) (zlen tail) tt =
  Some (Some (zlen pre + zlen (array_bytes SPROTO_TINTEGER all), false), put pre tail (array_bytes SPROTO_TINTEGER all), tt).
Proof.
  intros Hval Hok Hfit Hmax. pose proof (zlen_nonneg (array_bytes SPROTO_TINTEGER all)). unfold encode_integer_array.
  destruct (Z.ltb_spec (zlen tail) 1); [lia|].
  destruct all as [|b bs].
  { rewrite Nat.add_1_r. cbn [integer_loop]. pose proof (answer_end val arg [] Hval 8) as E. rewrite zlen_nil in E. change (0 + 1) with 1 in E.
    rewrite E. cbn [mbind option_bind]. rewrite Z.eqb_refl. change (array_bytes SPROTO_TINTEGER []) with (@nil Z).
    rewrite zlen_nil, Z.add_0_r, put_nil. done. }
  remember (b :: bs) as all eqn:Eall. assert (1 <= zlen all) as Hn by (rewrite Eall, zlen_cons; pose proof (zlen_nonneg bs); lia).
  set (A := pre ++ take 1 tail). set (T := drop 1 tail).
  assert (zlen A = zlen pre + 1) as HA by (subst A; unfold zlen in *; rewrite length_app, length_take; lia).
  assert (zlen T = zlen tail - 1) as HT by (subst T; unfold zlen in *; rewrite length_drop; lia).
  replace (pre ++ tail) with (A ++ T) by (subst A T; by rewrite <-app_assoc, take_drop).
  pose proof (zlen_ints all Hok) as Hlen. pose proof (zlen_nonneg pre) as Hp.
  assert (array_bytes SPROTO_TINTEGER all = int_len (wide all) :: mjoin (map (int_bytes (wide all)) all)) as Harr by (by rewrite Eall).
  rewrite Harr, zlen_cons, Hlen in *.
  pose proof (integer_loop_narrow val arg all Hval all [] (length (A ++ T) + 1) (zlen pre) A T) as Hloop.
  change (zlen (@nil (list Z))) with 0 in Hloop. rewrite Z.mul_0_r, Z.add_0_r, HA, HT in Hloop. change (A ++ mjoin [] ++ T) with (A ++ T) in Hloop.
  change (0 + 1) with 1 in Hloop. rewrite Hloop; clear Hloop; [|done|done|done| |done|lia|lia].
  2: { rewrite length_app. unfold zlen, int_len in *. destruct (wide all); lia. }
  cbn [mbind option_bind]. set (w := wide all) in *.
  destruct (Z.eqb_spec (zlen pre + 1 + int_len w * zlen all) (zlen pre + 1)); [unfold int_len in *; destruct w; lia|].
  pose proof (memcpy_front pre tail (mjoin (map (int_bytes w) all)) [u8 (int_len w)] (zlen pre) eq_refl) as Hset.
  cbn [memcpy length] in Hset. fold A T in Hset. rewrite Hlen in Hset. change (zlen [u8 (int_len w)]) with 1 in Hset.
  assert (u8 (int_len w) = int_len w) as Hu by (by destruct w). rewrite Hu in *.
  destruct (_.[zlen pre := int_len w]) as [b'|]; cbn [mbind option_bind] in Hset |- *; [|by specialize (Hset ltac:(lia))].
  specialize (Hset ltac:(lia)). injection Hset as ->. by rewrite Z.add_assoc.
Qed.

Lemma boolean_loop_spec all (Hval : val (a_tagid arg) = VArray all) bs : forall done fuel pre tail, all = done ++ bs ->
  Forall (fun b => zlen b = 4) bs -> (length bs < fuel)%nat -> zlen bs <= zlen tail ->
  boolean_loop (answer val) fuel arg (zlen pre) (zlen tail) (zlen done + 1) (pre ++ tail) tt =
  Some (inr (zlen pre + zlen bs), put pre tail (map bool_byte bs), tt).
Proof.
  induction bs as [|b bs IH]; intros done fuel pre tail Hall Hok Hfuel Hfit; (destruct fuel as [|fuel]; [cbn in Hfuel; lia|]); cbn [boolean_loop].
  { rewrite app_nil_r in Hall. subst done. rewrite answer_end by done. by rewrite zlen_nil, Z.add_0_r. }
  apply Forall_cons in Hok as [Hb Hok]. cbn [length] in Hfuel. rewrite zlen_cons in Hfit. pose proof (zlen_nonneg bs).
  rewrite (answer_next _ _ _ Hval _ done bs b) by (done || lia). destruct (Z.ltb_spec (zlen tail) 1); [lia|].
  fold (bool_byte b). pose proof (memcpy_at pre tail [bool_byte b] (zlen pre) eq_refl) as Hset. cbn [memcpy] in Hset.
  change (zlen [bool_byte b]) with 1 in Hset. destruct (_.[_ := _]) as [b'|]; cbn [mbind option_bind] in Hset |- *; [|by specialize (Hset ltac:(lia))].
  specialize (Hset ltac:(lia)). injection Hset as ->. rewrite put_assoc, <-(zlen_snoc done b).
  replace (zlen pre + 1) with (zlen (pre ++ [bool_byte b])) by (by rewrite zlen_snoc).
  assert (zlen (drop (length [bool_byte b]) tail) = zlen tail - 1) as Hd by (rewrite zlen_drop_length; change (zlen [bool_byte b]) with 1; lia).
  rewrite <-Hd, IH; [|by rewrite <-app_assoc|done|lia|lia]. rewrite put_after, zlen_snoc, zlen_cons. by rewrite Z.add_assoc.
Qed.

Lemma object_bytes_cons b bs : object_bytes (b :: bs) = sized b ++ object_bytes bs.
Proof. done. Qed.

Lemma object_loop_spec all (Hval : val (a_tagid arg) = VArray all) bs : forall done fuel pre tail, all = done ++ bs ->
  (length bs < fuel)%nat -> zlen (object_bytes bs) + 4 <= zlen tail ->
  object_loop (answer val) fuel arg (zlen pre) (zlen tail) (zlen done + 1) (pre ++ tail) tt =
  Some (inr (zlen pre + zlen (object_bytes bs)), put pre tail (object_bytes bs), tt).
Proof.
  induction bs as [|b bs IH]; intros done fuel pre tail Hall Hfuel Hfit; (destruct fuel as [|fuel]; [cbn in Hfuel; lia|]); cbn [object_loop].
  { change (object_bytes []) with (@nil Z) in *. rewrite zlen_nil in *. unfold SIZEOF_LENGTH. destruct (Z.ltb_spec (zlen tail) 4); [lia|].
    rewrite app_nil_r in Hall. subst done. rewrite answer_end by done. by rewrite Z.add_0_r. }
  pose proof (zlen_nonneg (object_bytes bs)). cbn [length] in Hfuel. rewrite object_bytes_cons in *. rewrite zlen_app, zlen_sized in Hfit. pose proof (zlen_nonneg b).
  unfold SIZEOF_LENGTH. destruct (Z.ltb_spec (zlen tail) 4); [lia|]. rewrite (answer_next _ _ _ Hval _ done bs b) by (done || lia).
  rewrite memcpy_sized by lia. cbn [mbind option_bind]. rewrite fill_size_spec by lia. cbn [mbind option_bind]. fold (sized b).
  rewrite put_assoc, <-(zlen_snoc done b).
  replace (zlen pre + 4 + zlen b) with (zlen (pre ++ sized b)) by (rewrite zlen_app, zlen_sized; lia).
  assert (zlen (drop (length (sized b)) tail) = zlen tail - 4 - zlen b) as Hd by (rewrite zlen_drop_length; rewrite zlen_sized; lia).
  rewrite <-Hd, IH; [|by rewrite <-app_assoc|lia|lia]. rewrite put_after, !zlen_app. by rewrite Z.add_assoc.
Qed.

Lemma object_bytes_length bs : zlen bs <= zlen (object_bytes bs).
Proof.
  induction bs as [|b bs IH]; [done|]. rewrite object_bytes_cons, zlen_app, zlen_sized, zlen_cons. pose proof (zlen_nonneg b). lia.
Qed.

Lemma encode_array_spec all pre tail : val (a_tagid arg) = VArray all -> Forall (elem_ok (a_type arg)) all ->
  zlen (sized (array_bytes (a_type arg) all)) + 4 <= zlen tail -> zlen tail < 2 ^ 31 ->
  encode_array (answer val) arg (pre ++ tail) (zlen pre) (zlen tail) tt =
  Some (zlen (sized (array_bytes (a_type arg) all)), put pre tail (sized (array_bytes (a_type arg) all)), tt).
Proof.
  intros Hval Hok Hfit Hmax. rewrite zlen_sized in *. pose proof (zlen_nonneg (array_bytes (a_type arg) all)). unfold encode_array, SIZEOF_LENGTH.
  destruct (Z.ltb_spec (zlen tail) 4); [lia|]. destruct (take_4_tail pre tail) as [HA HT]; [lia|].
  set (A := pre ++ take 4 tail) in *. set (T := drop 4 tail) in *.
  replace (pre ++ tail) with (A ++ T) by (subst A T; by rewrite <-app_assoc, take_drop). rewrite <-HT, <-HA.
  set (bytes := array_bytes (a_type arg) all) in *. 
  match goal with |- (?r ≫= _) = _ => assert (r = Some (inr (zlen A + zlen bytes), put A T bytes, tt)) as -> end.
  - subst bytes. unfold array_bytes in *. destruct (Z.eqb_spec (a_type arg) SPROTO_TINTEGER) as [Et|Et].
    + pose proof (encode_integer_array_spec all A T Hval) as E. unfold array_bytes in E. change (SPROTO_TINTEGER =? SPROTO_TINTEGER) with true in E.
      cbv iota in E. rewrite E; [done| |lia|lia]. eapply Forall_impl; [exact Hok|]. intros b (Hb & Hi & _). split; [done|by apply Hi].
    + destruct (Z.eqb_spec (a_type arg) SPROTO_TBOOLEAN) as [Eb|Eb].
      * pose proof (boolean_loop_spec all Hval all []) as E. rewrite zlen_nil in E. change (0 + 1) with 1 in E.
        assert (zlen (map bool_byte all) = zlen all) as Hm by (unfold zlen; by rewrite length_map).
        rewrite E; [by rewrite Hm|done| |rewrite length_app; unfold zlen in *; lia|lia].
        eapply Forall_impl; [exact Hok|]. intros b (Hb & _ & Hbool). by apply Hbool.
      * pose proof (object_loop_spec all Hval all []) as E. rewrite zlen_nil in E. change (0 + 1) with 1 in E.
        pose proof (object_bytes_length all). rewrite E; [done|done|rewrite length_app; unfold zlen in *; lia|lia].
  - cbn [mbind option_bind]. subst A T. replace (zlen (pre ++ take 4 tail) + zlen bytes - zlen (pre ++ take 4 tail)) with (zlen bytes) by lia.
    rewrite fill_size_spec by lia. cbn [mbind option_bind]. fold (sized bytes). by rewrite (Z.add_comm 4).
Qed.

Lemma encode_array_absent pre tail : val (a_tagid arg) = VAbsent -> 8 <= zlen tail -> zlen tail < 2 ^ 31 ->
  encode_array (answer val) arg (pre ++ tail) (zlen pre) (zlen tail) tt = Some (0, pre ++ tail, tt).
Proof.
  intros Hval Hfit Hmax. unfold encode_array, SIZEOF_LENGTH. destruct (Z.ltb_spec (zlen tail) 4); [lia|].
  assert (forall len, answer val (with_value arg len 1) tt = (CB_NOARRAY, tt)) as E by (intros len; unfold answer; cbn [with_value a_tagid a_index]; by rewrite Hval).
  destruct (a_type arg =? SPROTO_TINTEGER).
  - unfold encode_integer_array. destruct (Z.ltb_spec (zlen tail - 4) 1); [lia|]. rewrite Nat.add_1_r. cbn [integer_loop]. rewrite E.
    cbn [mbind option_bind]. by rewrite Z.eqb_refl.
  - destruct (a_type arg =? SPROTO_TBOOLEAN); rewrite Nat.add_1_r.
    + cbn [boolean_loop]. by rewrite E.
    + cbn [object_loop]. unfold SIZEOF_LENGTH. destruct (Z.ltb_spec (zlen tail - 4) 4); [lia|]. by rewrite E.
Qed.
End arrays.

(** ** Fields *)

Lemma field_kind n f : field_ok n f -> 0 <= elem_type f <= 3 /\ (is_array f = false -> fd_type f = elem_type f).
Proof.
  intros [_ _ (t & a & Hf & Ha & Ht)]. unfold elem_type, is_array. rewrite Hf.
  assert (t = 0 \/ t = 1 \/ t = 2 \/ t = 3) as Ht4 by (unfold SPROTO_TSTRUCT in Ht; lia).
  destruct Ha as [-> | ->], Ht4 as [-> | [-> | [-> | ->]]]; (split; [done|]); done.
Qed.

Section fields.
Variable val : Z -> fvalue.
Variable n : Z.

Definition arg_of (f : field) (type : Z) : sproto_arg := Arg (fd_name f) (fd_tag f) type (fd_st f) 0 0 (fd_key f).

(** The result of a field whose value is encoded as [fb]. *)
Definition field_spec (fb : option (Z * list Z)) (r : field_result) (d : list Z) : Prop :=
  match fb with
  | None => (r = FSkip \/ r = FValue 0 0) /\ d = []
  | Some (value, d') => exists sz, r = FValue value sz /\ 0 < sz /\ d = d' /\ 0 <= value < 2 ^ 16 /\
      (value = 0 -> sz = zlen d) /\ (value <> 0 -> d = [])
  end.

(** An integer or a string behind its size. *)
Lemma write_sized (pre tail b : list Z) : 4 + zlen b <= zlen tail ->
  exists buffer, memcpy (pre ++ tail) (zlen pre + 4) b = Some buffer /\
    fill_size buffer (zlen pre) (zlen b) = Some (put pre tail (sized b), zlen b + 4).
Proof. intros Hfit. eexists. split; [by apply memcpy_sized|]. by apply fill_size_spec. Qed.

Lemma encode_scalar_spec f b pre tail : elem_type f = SPROTO_TINTEGER \/ elem_type f = SPROTO_TBOOLEAN -> val (fd_tag f) = VScalar b ->
  elem_ok (elem_type f) b -> zlen (data_of f (VScalar b)) + 8 <= zlen tail -> zlen tail < 2 ^ 31 ->
  exists r d, encode_scalar (answer val) (arg_of f (fd_type f)) (pre ++ tail) (zlen pre) (zlen tail) tt = Some (r, put pre tail d, tt) /\
    field_spec (field_bytes f (VScalar b)) r d.
Proof.
  intros Ht Hval (Hb & Hi & Hbool) Hfit Hmax.
  assert (zlen b = 4 \/ zlen b = 8) as Hlen by (destruct Ht as [Ht|Ht]; [by apply Hi|left; by apply Hbool]).
  unfold encode_scalar, answer. cbn [with_value arg_of a_tagid a_length]. rewrite Hval.
  destruct (Z.ltb_spec 8 (zlen b)); [lia|]. pose proof (le_value_bound b Hb) as Hv. unfold data_of, field_bytes in *.
  assert ((elem_type f =? SPROTO_TINTEGER) || (elem_type f =? SPROTO_TBOOLEAN) = true) as Hor by (by destruct Ht as [-> | ->]).
  rewrite Hor in *. cbn [andb] in *. destruct Hlen as [Hlen|Hlen]; rewrite Hlen in *; cbn [Z.eqb Pos.eqb andb] in *.
  - destruct (Z.ltb_spec (le_value b) 32767) as [Hs|Hs].
    + exists (FValue ((le_value b + 1) * 2) 2), []. split; [done|]. exists 2. split_and!; lia || done.
    + rewrite zlen_sized, Hlen in Hfit. unfold encode_integer, SIZEOF_LENGTH. rewrite lt_size_false by lia.
      rewrite le_bytes_all by done. destruct (write_sized pre tail b) as (b1 & -> & Hfill); [lia|]. rewrite Hlen in Hfill.
      cbn [mbind option_bind]. rewrite Hfill. cbn [mbind option_bind]. exists (FValue 0 (4 + 4)), (sized b). split; [done|].
      exists (4 + 4). split_and!; try done. intros _. rewrite zlen_sized. lia.
  - rewrite zlen_sized, Hlen in Hfit. unfold encode_uint64, SIZEOF_LENGTH. rewrite lt_size_false by lia.
    rewrite le_bytes_all by done. destruct (write_sized pre tail b) as (b1 & -> & Hfill); [lia|]. rewrite Hlen in Hfill.
    cbn [mbind option_bind]. rewrite Hfill. cbn [mbind option_bind]. exists (FValue 0 (8 + 4)), (sized b). split; [done|].
    exists (8 + 4). split_and!; try done. intros _. rewrite zlen_sized. lia.
Qed.

Lemma encode_field_spec f pre tail : field_ok n f -> value_ok f (val (fd_tag f)) ->
  zlen (data_of f (val (fd_tag f))) + 8 <= zlen tail -> zlen tail < 2 ^ 31 ->
  exists r d, encode_field (answer val) f (pre ++ tail) (zlen pre) (zlen tail) tt = Some (r, put pre tail d, tt) /\
    field_spec (field_bytes f (val (fd_tag f))) r d.
Proof.
  intros [Hk Htype]%field_kind Hok Hfit Hmax. unfold encode_field. fold (is_array f).
  change (Arg (fd_name f) (fd_tag f) ?t (fd_st f) 0 0 (fd_key f)) with (arg_of f t). fold (elem_type f).
  destruct (is_array f) eqn:Ea.
  - destruct (val (fd_tag f)) as [|b|bs] eqn:Ev; [| |].
    + rewrite encode_array_absent by (done || (change (zlen (data_of f VAbsent)) with 0 in Hfit; lia)). exists (FValue 0 0), []. split; [done|]. split; [by right|done].
    + destruct Hok as [Hok _]. congruence.
    + destruct Hok as [_ Hok]. unfold data_of, field_bytes in Hfit. rewrite (encode_array_spec val (arg_of f (elem_type f)) bs) by (done || cbn [arg_of a_type]; lia).
      cbn [mbind option_bind arg_of a_type]. eexists (FValue 0 _), _. split; [done|]. eexists. split; [done|].
      rewrite zlen_sized. pose proof (zlen_nonneg (array_bytes (elem_type f) bs)). split_and!; try done; lia.
  - specialize (Htype eq_refl). destruct (val (fd_tag f)) as [|b|bs] eqn:Ev.
    + rewrite <-Htype in Hk.
      assert (forall len arg, a_tagid arg = fd_tag f -> a_index arg = 0 -> answer val (with_value arg len (a_index arg)) tt = (CB_NIL, tt)) as E.
      { intros len arg Htag Hi. unfold answer. cbn [with_value a_tagid a_index]. by rewrite Htag, Ev, Hi. }
      assert (fd_type f = 0 \/ fd_type f = 1 \/ fd_type f = 2 \/ fd_type f = 3) as Hcases by lia.
      change (zlen (data_of f VAbsent)) with 0 in Hfit.
      destruct Hcases as [Hc|[Hc|[Hc|Hc]]]; rewrite Hc; cbv [SPROTO_TINTEGER SPROTO_TBOOLEAN SPROTO_TSTRUCT SPROTO_TSTRING Z.eqb Pos.eqb orb].
      1,2: unfold encode_scalar; rewrite (E 8 (arg_of f _)) by done; exists FSkip, []; split; [done|]; split; [by left|done].
      1,2: unfold encode_object, SIZEOF_LENGTH; destruct (Z.ltb_spec (zlen tail) 4); [lia|]; rewrite E by done;
        exists (FValue 0 0), []; split; [done|]; split; [by right|done].
    + destruct Hok as [_ Hok]. destruct (decide (elem_type f = SPROTO_TINTEGER \/ elem_type f = SPROTO_TBOOLEAN)) as [Hs|Hs].
      * rewrite Htype. assert ((elem_type f =? SPROTO_TINTEGER) || (elem_type f =? SPROTO_TBOOLEAN) = true) as -> by (by destruct Hs as [-> | ->]).
        rewrite <-Htype. by apply encode_scalar_spec.
      * assert ((elem_type f =? SPROTO_TINTEGER) || (elem_type f =? SPROTO_TBOOLEAN) = false) as Hor.
        { unfold SPROTO_TINTEGER, SPROTO_TBOOLEAN in *. lia. }
        assert ((elem_type f =? SPROTO_TSTRUCT) || (elem_type f =? SPROTO_TSTRING) = true) as Hor2.
        { unfold SPROTO_TINTEGER, SPROTO_TBOOLEAN, SPROTO_TSTRUCT, SPROTO_TSTRING in *. lia. }
        unfold data_of, field_bytes in *. rewrite Htype, Hor, Hor2 in *. cbn [andb] in *. rewrite zlen_sized in Hfit. pose proof (zlen_nonneg b).
        unfold encode_object, SIZEOF_LENGTH. destruct (Z.ltb_spec (zlen tail) 4); [lia|].
        unfold answer. cbn [with_value arg_of a_tagid a_length a_index]. rewrite Ev. destruct (Z.ltb_spec (zlen tail - 4) (zlen b)); [lia|].
        destruct (write_sized pre tail b) as (b1 & -> & Hfill); [lia|]. cbn [mbind option_bind]. rewrite (proj2 (Z.leb_le _ _)) by lia.
        cbn [cassert mbind option_bind]. rewrite Hfill. cbn [mbind option_bind]. exists (FValue 0 (zlen b + 4)), (sized b). split; [done|].
        exists (zlen b + 4). rewrite zlen_sized. split_and!; try done; lia.
    + destruct Hok as [Hok _]. congruence.
Qed.
End fields.

(** ** Structs *)

Lemma words_app l k : words (l ++ k) = words l ++ words k.
Proof. unfold words. by rewrite map_app, join_app. Qed.

Lemma words_one v : words [v] = le_bytes 2 v.
Proof. unfold words. cbn. done. Qed.

Lemma zlen_words l : zlen (words l) = 2 * zlen l.
Proof.
  unfold words. rewrite (zlen_mjoin_all _ 2); [unfold zlen; by rewrite length_map|].
  apply Forall_map, Forall_forall. intros v _. apply zlen_le_word.
Qed.

(** A word written to the free part of the header. *)
Lemma write_word P free X v p : p = zlen P -> 2 <= zlen free ->
  memcpy (P ++ free ++ X) p (le_bytes 2 v) = Some ((P ++ le_bytes 2 v) ++ drop 2 free ++ X).
Proof.
  intros Hp Hfree. pose proof (zlen_nonneg X). rewrite memcpy_at; [|done|rewrite zlen_app, zlen_le_word; lia]. f_equal.
  rewrite put_assoc. change (length (le_bytes 2 v)) with 2%nat. rewrite drop_app_le by (unfold zlen in *; lia). done.
Qed.

Section struct.
Variable val : Z -> fvalue.
Variable n : Z.

Lemma datas_cons f fs : datas val (f :: fs) = data_of f (val (fd_tag f)) ++ datas val fs.
Proof. done. Qed.

(** The records never overrun the header: a gap that an absent field leaves takes at most
    the record that the field does not need. *)
Lemma records_slots fs : forall last prev, last <= prev -> ascending prev fs ->
  zlen (records val last fs) <= slots prev fs + (if last <? prev then 1 else 0).
Proof.
  induction fs as [|f fs IH]; intros last prev Hle Ha; cbn [records slots]; [rewrite zlen_nil; destruct (last <? prev); lia|].
  destruct Ha as [Hf Ha]. destruct (field_bytes f (val (fd_tag f))) as [[value d]|].
  - specialize (IH (fd_tag f) (fd_tag f) ltac:(lia) Ha). rewrite Z.ltb_irrefl in IH. rewrite zlen_app, zlen_cons.
    destruct (Z.ltb_spec 0 (fd_tag f - last - 1)), (Z.ltb_spec (prev + 1) (fd_tag f)), (Z.ltb_spec last prev);
      rewrite ?zlen_cons, ?zlen_nil; lia.
  - specialize (IH last (fd_tag f) ltac:(lia) Ha). destruct (Z.ltb_spec last (fd_tag f)); [|lia].
    destruct (Z.ltb_spec (prev + 1) (fd_tag f)), (Z.ltb_spec last prev); lia.
Qed.

Lemma encode_loop_spec fs : forall last prev k P free dat tail, zlen P = 2 + 2 * k -> -1 <= last <= prev -> ascending prev fs ->
  Forall (fun f => field_ok n f /\ value_ok f (val (fd_tag f))) fs ->
  2 * zlen (records val last fs) <= zlen free -> zlen (datas val fs) + 8 <= zlen tail -> zlen tail < 2 ^ 31 ->
  exists free', zlen free' = zlen free - 2 * zlen (records val last fs) /\
    encode_loop (answer val) fs ((P ++ free ++ dat) ++ tail) (zlen (P ++ free ++ dat)) (zlen tail) k last tt =
    Some (inr (zlen (P ++ free ++ dat) + zlen (datas val fs), k + zlen (records val last fs)),
          ((P ++ words (records val last fs)) ++ free' ++ dat ++ datas val fs) ++ drop (length (datas val fs)) tail, tt).
Proof.
  induction fs as [|f fs IH]; intros last prev k P free dat tail HP Hlast Ha Hok Hfree Hfit Hmax; cbn [encode_loop records].
  { change (zlen (@nil Z)) with 0 in *. exists free. split; [lia|]. change (datas val []) with (@nil Z). change (words []) with (@nil Z).
    change (length (@nil Z)) with 0%nat. rewrite drop_0, !app_nil_r. change (zlen (@nil Z)) with 0. by rewrite !Z.add_0_r. }
  destruct Ha as [Hf Ha]. apply Forall_cons in Hok as [[Hfok Hv] Hok]. rewrite datas_cons, zlen_app in Hfit.
  pose proof (zlen_nonneg (datas val fs)) as Hd0. pose proof (zlen_nonneg (data_of f (val (fd_tag f)))) as Hd1.
  destruct (encode_field_spec val n f (P ++ free ++ dat) tail Hfok Hv) as (r & d & E & Hr); [lia|done|]. rewrite E. cbn [mbind option_bind]. clear E.
  cbn [records] in Hfree. rewrite datas_cons. unfold data_of in *. destruct (field_bytes f (val (fd_tag f))) as [[value d']|].
  2: { destruct Hr as [Hr ->]. change (put ?a ?b []) with (a ++ b). cbn [app]. destruct (IH last (fd_tag f) k P free dat tail) as (free' & Hf' & E); try done; try lia.
       exists free'. split; [done|]. destruct Hr as [-> | ->]; exact E. }
  destruct Hr as (sz & -> & Hsz & <- & Hvalue & Hz & Hnz). rewrite (proj2 (Z.ltb_ge sz 0)), (proj2 (Z.eqb_neq sz 0)) by lia.
  set (X := dat ++ d). set (tail1 := drop (length d) tail). assert (zlen tail1 = zlen tail - zlen d) as Ht1 by (by apply zlen_drop_length; lia).
  replace (put (P ++ free ++ dat) tail d) with (P ++ free ++ X ++ tail1) by (subst X tail1; unfold put; by rewrite <-!app_assoc).
  assert ((if value =? 0 then zlen (P ++ free ++ dat) + sz else zlen (P ++ free ++ dat)) = zlen (P ++ free ++ X)) as ->.
  { subst X. rewrite !zlen_app. destruct (Z.eqb_spec value 0) as [H0|H0]; [rewrite (Hz H0); lia|rewrite (Hnz H0); change (zlen (@nil Z)) with 0; lia]. }
  assert ((if value =? 0 then zlen tail - sz else zlen tail) = zlen tail1) as ->.
  { rewrite Ht1. destruct (Z.eqb_spec value 0) as [H0|H0]; [rewrite (Hz H0); lia|rewrite (Hnz H0); change (zlen (@nil Z)) with 0; lia]. }
  assert (forall k' P' free1, zlen P' = 2 + 2 * k' -> 2 * zlen (records val (fd_tag f) fs) <= zlen free1 ->
    zlen (P' ++ free1) = zlen (P ++ free) ->
    exists free', zlen free' = zlen free1 - 2 * zlen (records val (fd_tag f) fs) /\
    encode_loop (answer val) fs (P' ++ free1 ++ X ++ tail1) (zlen (P ++ free ++ X)) (zlen tail1) k' (fd_tag f) tt =
    Some (inr (zlen (P ++ free ++ dat) + (zlen d + zlen (datas val fs)), k' + zlen (records val (fd_tag f) fs)),
      ((P' ++ words (records val (fd_tag f) fs)) ++ free' ++ dat ++ d ++ datas val fs) ++ drop (length (d ++ datas val fs)) tail, tt)) as Hrest.
  { intros k' P' free1 HP' Hfree1 Hsame. rewrite !zlen_app in Hsame. destruct (IH (fd_tag f) (fd_tag f) k' P' free1 X tail1) as (free' & Hf' & E); try done; [lia..|].
    exists free'. split; [done|]. rewrite <-!app_assoc in E. replace (zlen (P' ++ free1 ++ X)) with (zlen (P ++ free ++ X)) in E by (rewrite !zlen_app; lia).
    rewrite E. subst X tail1. rewrite length_app, <-drop_drop, <-!app_assoc. replace (zlen (P ++ free ++ dat ++ d) + zlen (datas val fs)) with
      (zlen (P ++ free ++ dat) + (zlen d + zlen (datas val fs))) by (rewrite !zlen_app; lia). done. }
  pose proof (zlen_nonneg (records val (fd_tag f) fs)) as Hr0. unfold SIZEOF_HEADER, SIZEOF_FIELD.
  assert (fd_tag f < 2 ^ 15) as Htag by (destruct Hfok; lia).
  rewrite (zlen_app d). destruct (Z.ltb_spec 0 (fd_tag f - last - 1)) as [Hgap|Hgap].
  - cbn [app] in Hfree |- *. rewrite !zlen_cons in *. destruct (Z.ltb_spec 65535 ((fd_tag f - last - 1 - 1) * 2 + 1)); [lia|].
    rewrite write_word by lia. cbn [mbind option_bind].
    rewrite write_word; [|rewrite zlen_app, zlen_le_word; lia|unfold zlen in *; rewrite length_drop; lia]. cbn [mbind option_bind].
    rewrite drop_drop. set (v1 := (fd_tag f - last - 1 - 1) * 2 + 1).
    destruct (Hrest (k + 2) ((P ++ le_bytes 2 v1) ++ le_bytes 2 value) (drop (2 + 2) free)) as (free' & Hf' & E).
    + rewrite !zlen_app, !zlen_le_word. lia.
    + unfold zlen in *. rewrite length_drop. lia.
    + rewrite !zlen_app, !zlen_le_word. unfold zlen in *. rewrite length_drop. lia.
    + exists free'. split; [rewrite Hf'; unfold zlen in *; rewrite length_drop; lia|]. rewrite E.
      change (v1 :: value :: ?l) with ([v1] ++ [value] ++ l). rewrite !words_app, !words_one, <-!app_assoc.
      replace (k + 2 + zlen (records val (fd_tag f) fs)) with (k + (1 + (1 + zlen (records val (fd_tag f) fs)))) by lia. done.
  - cbn [app] in Hfree |- *. rewrite !zlen_cons in *. rewrite write_word by lia. cbn [mbind option_bind].
    destruct (Hrest (k + 1) (P ++ le_bytes 2 value) (drop 2 free)) as (free' & Hf' & E).
    + rewrite !zlen_app, !zlen_le_word. lia.
    + unfold zlen in *. rewrite length_drop. lia.
    + rewrite !zlen_app, !zlen_le_word. unfold zlen in *. rewrite length_drop. lia.
    + exists free'. split; [rewrite Hf'; unfold zlen in *; rewrite length_drop; lia|]. rewrite E.
      change (value :: ?l) with ([value] ++ l). rewrite !words_app, !words_one, <-!app_assoc.
      replace (k + 1 + zlen (records val (fd_tag f) fs)) with (k + (1 + zlen (records val (fd_tag f) fs))) by lia. done.
Qed.
End struct.

Lemma zlen_encoded val st : zlen (encoded val st) = 2 + 2 * zlen (records val (-1) (st_f st)) + zlen (datas val (st_f st)).
Proof. unfold encoded. rewrite !zlen_app, zlen_words, zlen_le_word. lia. Qed.

Lemma memmove_back (pre free d tail : list Z) : exists rest,
  memcpy (pre ++ free ++ d ++ tail) (zlen pre) d = Some (pre ++ d ++ rest) /\ zlen rest = zlen free + zlen tail.
Proof.
  pose proof (zlen_nonneg free). pose proof (zlen_nonneg tail). exists (drop (length d) (free ++ d ++ tail)).
  assert (zlen d <= zlen (free ++ d ++ tail)) by (rewrite !zlen_app; lia).
  split; [by apply memcpy_at|]. rewrite zlen_drop_length by done. rewrite !zlen_app. lia.
Qed.

(** The values of the fields, and the room that encoding them takes. *)
Definition encodable (n : Z) (val : Z -> fvalue) (st : sproto_type) : Prop :=
  type_ok n st /\ Forall (fun f => value_ok f (val (fd_tag f))) (st_f st).

Lemma sproto_encode_spec n val st buffer : encodable n val st -> zlen buffer < 2 ^ 31 ->
  2 + 2 * st_maxn st + zlen (datas val (st_f st)) + 8 <= zlen buffer ->
  exists rest, sproto_encode (answer val) st buffer tt = Some (zlen (encoded val st), encoded val st ++ rest, tt) /\
    zlen (encoded val st ++ rest) = zlen buffer.
Proof.
  intros [[Hf Ha Hmaxn _] Hv] Hmax Hfit. pose proof (zlen_nonneg (datas val (st_f st))) as Hd. set (R := records val (-1) (st_f st)).
  assert (zlen R <= st_maxn st) as HR by (pose proof (records_slots val (st_f st) (-1) (-1) ltac:(lia) Ha) as Hs; cbn in Hs; subst R; lia).
  pose proof (zlen_nonneg R) as HR0. rewrite zlen_encoded. fold R.
  unfold sproto_encode, SIZEOF_HEADER, SIZEOF_FIELD. rewrite (Z.mul_comm (st_maxn st)). set (m := 2 * st_maxn st) in *.
  destruct (Z.ltb_spec (zlen buffer) (2 + m)); [lia|].
  set (h := take 2 buffer). set (free := take (Z.to_nat m) (drop 2 buffer)). set (tail := drop (2 + Z.to_nat m) buffer).
  assert (buffer = (h ++ free ++ []) ++ tail) as Hbuf.
  { subst h free tail. rewrite app_nil_r, <-app_assoc, <-drop_drop, take_drop. by rewrite take_drop. }
  assert (zlen h = 2 /\ zlen free = m /\ zlen tail = zlen buffer - 2 - m) as (Hh & Hfree & Htail).
  { subst h free tail. unfold zlen in *. rewrite !length_take, !length_drop. lia. }
  destruct (encode_loop_spec val n (st_f st) (-1) (-1) 0 h free [] tail) as (free' & Hf' & E); fold R; try done; try lia.
  { apply Forall_and. by split. }
  rewrite <-Hbuf in E. rewrite !zlen_app, Hh, Hfree in E. change (zlen (@nil Z)) with 0 in E. rewrite Z.add_0_r in E.
  replace (zlen buffer - (2 + m)) with (zlen tail) by lia. rewrite E. cbn [mbind option_bind]. clear E. fold R in Hf'. rewrite Z.add_0_l.
  set (D := datas val (st_f st)) in *. set (T := drop (length D) tail). assert (zlen T = zlen tail - zlen D) as HT by (apply zlen_drop_length; lia).
  rewrite <-!app_assoc. cbn [app]. fold R. pose proof (zlen_nonneg (words R ++ free' ++ D ++ T)).
  change (memcpy (h ++ ?b) 0 ?l) with (memcpy ([] ++ h ++ b) 0 l).
  rewrite (memcpy_at []) by (done || (rewrite zlen_le_word, zlen_app; lia)).
  cbn [mbind option_bind]. unfold put. cbn [app]. replace (length (le_bytes 2 (zlen R))) with (length h) by (unfold zlen in Hh; cbn; lia). rewrite drop_app_length.
  rewrite app_assoc. set (pre := le_bytes 2 (zlen R) ++ words R). assert (zlen pre = 2 + 2 * zlen R) as Hpre by (subst pre; by rewrite zlen_app, zlen_words, zlen_le_word).
  assert (encoded val st = pre ++ D) as -> by (subst pre; unfold encoded; by rewrite <-app_assoc).
  replace (2 + m + zlen D - (2 + m)) with (zlen D) by lia. rewrite (Z.mul_comm 2 (zlen R)) in *. replace (2 * zlen R) with (zlen R * 2) by lia.
  destruct (Z.eqb_spec (zlen R) (st_maxn st)) as [Heq|Hne]; cbn [negb].
  - exists T. assert (free' = []) as -> by (apply nil_length_inv; unfold zlen in *; lia). cbn [app mbind option_bind]. rewrite app_assoc. split; [done|].
    rewrite !zlen_app, HT, Htail. lia.
  - rewrite (app_assoc pre). rewrite (slice_behind (pre ++ free') D T) by (rewrite ?zlen_app; lia). cbn [mbind option_bind]. rewrite <-app_assoc.
    destruct (memmove_back pre free' D T) as (rest & Ec & Hrest). replace (2 + zlen R * 2) with (zlen pre) by lia. rewrite Ec. cbn [mbind option_bind].
    exists rest. rewrite app_assoc. split; [done|]. rewrite !zlen_app. lia.
Qed.

(** ** Integers written behind the buffer *)

Lemma rearrange_overflow i header buffer : zlen buffer < header + 1 + 8 * Z.of_nat (S i) -> rearrange (S i) header buffer = None.
Proof.
  intros Hlt. cbn [rearrange]. destruct (slice _ _ _) as [data|]; [|done]. cbn [mbind option_bind].
  destruct (memcpy _ _ data) as [b1|] eqn:E1; [|done]. apply zlen_memcpy in E1. cbn [mbind option_bind].
  destruct (b1.[_]) as [c|]; [|done]. cbn [mbind option_bind]. unfold uint32_to_uint64. rewrite memcpy_fails; [done|by destruct (negb _)|].
  rewrite zlen_replicate. lia.
Qed.

Lemma lt_size_negative n k : - 2 ^ 31 <= n < 0 -> k < 2 ^ 32 -> lt_size n k = false.
Proof.
  intros Hn Hk. unfold lt_size, u64. rewrite <-(Z.mod_add _ 1), Z.mod_small by lia. lia.
Qed.

Lemma integer_loop_overflow val arg b more all bs : val (a_tagid arg) = VArray all -> zlen b = 8 -> is_bytes b ->
  forall done fuel header A tail, all = done ++ bs ++ b :: more -> Forall int4 done -> Forall int4 bs -> (length bs < fuel)%nat ->
  zlen A = header + 1 -> 8 + 4 * zlen bs <= zlen tail -> zlen A + 4 * zlen done + zlen tail < 2 ^ 31 -> zlen tail < 4 * zlen done + 8 * zlen bs ->
  integer_loop (answer val) fuel arg header (zlen A + 4 * zlen done) (zlen tail) 4 (zlen done + 1) (A ++ mjoin done ++ tail) tt = None.
Proof.
  intros Hval Hb8 Hb. induction bs as [|c bs IH]; intros done fuel header A tail Hall Hdone Hok Hfuel HA Hfit Hmax Hlt; (destruct fuel as [|fuel]; [cbn in Hfuel; lia|]);
    pose proof (zlen_ints_narrow done Hdone) as Hlen4; pose proof (zlen_nonneg done); pose proof (zlen_nonneg A); cbn [integer_loop].
  - rewrite (answer_next _ _ _ Hval _ done more b) by (done || lia). destruct b as [|c b0]; [done|]. rewrite Hb8.
    change (zlen (@nil (list Z))) with 0 in *. rewrite lt_size_false by lia. cbn [Z.eqb Pos.eqb negb].
    replace (zlen done + 1 - 1) with (zlen done) by lia. rewrite s32_small, lt_size_negative by (unfold is_s32; lia).
    replace (Z.to_nat (zlen done)) with (S (length done - 1)) by (unfold zlen in *; lia).
    rewrite rearrange_overflow; [done|]. rewrite !zlen_app. unfold zlen in *. lia.
  - apply Forall_cons in Hok as [[Hc Hc4] Hok]. cbn [length] in Hfuel. rewrite zlen_cons in *. pose proof (zlen_nonneg bs).
    rewrite (answer_next _ _ _ Hval _ done (bs ++ b :: more) c) by (done || lia). destruct c as [|c0 c1] eqn:Ec; [done|]. rewrite <-Ec in *. clear Ec.
    rewrite lt_size_false by lia. rewrite Hc4. cbn [Z.eqb Pos.eqb]. rewrite le_bytes_all by done. rewrite (app_assoc A), memcpy_at by (rewrite ?zlen_app; lia).
    cbn [mbind option_bind]. rewrite put_assoc, <-!app_assoc, (app_assoc (mjoin done)), <-mjoin_snoc.
    replace (zlen tail - 4) with (zlen (drop (length c) tail)) by (rewrite zlen_drop_length; lia).
    replace (zlen A + 4 * zlen done + 4) with (zlen A + 4 * zlen (done ++ [c])) by (rewrite zlen_snoc; lia).
    rewrite <-(zlen_snoc done c). apply IH; [by rewrite <-app_assoc|apply Forall_app; split; [done|by constructor]|done|lia|done|..];
      rewrite ?zlen_snoc, zlen_drop_length; lia.
Qed.

(** When a 64-bit integer follows [k] 32-bit ones in an array and the buffer has room for
    them as 32-bit integers but not as 64-bit ones, [encode_integer_array] does not return
    NULL: the size that is left becomes negative, is compared as an unsigned number, and
    the integers are spread behind the end of the buffer. *)
Theorem encode_integer_array_overflow val arg bs b more pre tail :
  val (a_tagid arg) = VArray (bs ++ b :: more) -> Forall int4 bs -> is_bytes b -> zlen b = 8 ->
  9 + 4 * zlen bs <= zlen tail < 1 + 8 * zlen bs -> zlen (pre ++ tail) < 2 ^ 31 ->
  encode_integer_array (answer val) arg (pre ++ tail) (zlen pre) (zlen tail) tt = None.
Proof.
  intros Hval Hok Hb Hb8 Hfit Hmax. rewrite zlen_app in Hmax. unfold encode_integer_array. destruct (Z.ltb_spec (zlen tail) 1); [lia|].
  set (A := pre ++ take 1 tail). set (T := drop 1 tail).
  assert (zlen A = zlen pre + 1) as HA by (subst A; unfold zlen in *; rewrite length_app, length_take; lia).
  assert (zlen T = zlen tail - 1) as HT by (subst T; unfold zlen in *; rewrite length_drop; lia).
  replace (pre ++ tail) with (A ++ mjoin [] ++ T) by (subst A T; cbn; by rewrite <-app_assoc, take_drop).
  pose proof (integer_loop_overflow val arg b more _ bs Hval Hb8 Hb [] (length (A ++ mjoin [] ++ T) + 1) (zlen pre) A T eq_refl) as Hloop.
  change (zlen (@nil (list Z))) with 0 in Hloop. rewrite Z.mul_0_r, Z.add_0_r, HA, HT in Hloop. change (0 + 1) with 1 in Hloop.
  rewrite Hloop; [done|constructor|done| |done|lia|lia|lia]. rewrite length_app. change (mjoin [] ++ T) with T. unfold zlen in *. lia.
Qed.

Lemma encode_integer_array_overflow_witness :
  encode_integer_array (answer (fun _ => VArray (replicate 11 [1; 0; 0; 0] ++ [[0; 0; 0; 0; 0; 1; 0; 0]]))) (Arg None 0 0 None 0 0 0)
    ([] ++ replicate 60 7) (zlen (@nil Z)) (zlen (replicate 60 7)) tt = None.
Proof.
  apply (encode_integer_array_overflow _ _ (replicate 11 [1; 0; 0; 0]) [0; 0; 0; 0; 0; 1; 0; 0] []).
  - reflexivity.
  - apply Forall_replicate. split; [|reflexivity]. repeat (apply Forall_cons; split; [unfold is_u8; lia|]). by apply Forall_nil_2.
  - repeat (apply Forall_cons; split; [unfold is_u8; lia|]). by apply Forall_nil_2.
  - reflexivity.
  - vm_compute. split; [discriminate|reflexivity].
  - reflexivity.
Defined.
