(* ===== verification/SprotoDecode.v ===== *)
(** [sproto_decode] of lib/sproto/sproto.c calls its callback with the values that
    [sproto_encode] was given, in the order of their tags. *)
From S2P Require Import Prelude Bytes Buffer Sproto SprotoSchema SprotoFormat SprotoEncode.

(** ** The calls of the callback *)

(** An integer of four bytes is extended with its sign. *)
Definition extend (b : list Z) : Z := if zlen b =? 4 then expand64 (le_value b) else le_value b.

Definition elem_len (type : Z) (b : list Z) : Z :=
  if (type =? SPROTO_TINTEGER) || (type =? SPROTO_TBOOLEAN) then 8 else zlen b.
Definition elem_value (type : Z) (b : list Z) : decoded :=
  if type =? SPROTO_TINTEGER then D_INT (extend b)
  else if type =? SPROTO_TBOOLEAN then D_INT (bool_byte b)
  else D_BYTES b.

Definition call : Type := sproto_arg * decoded.

Definition elem_call (arg : sproto_arg) (index : Z) (b : list Z) : call :=
  (with_value arg (elem_len (a_type arg) b) index, elem_value (a_type arg) b).

Fixpoint array_calls (arg : sproto_arg) (k : Z) (bs : list (list Z)) : list call :=
  match bs with
  | [] => []
  | b :: bs => elem_call arg (k + 1) b :: array_calls arg (k + 1) bs
  end.

(** The calls for a field; an empty array is one call with index -1. *)
Definition field_calls (f : field) (v : fvalue) : list call :=
  let arg := arg_of f (elem_type f) in
  match v with
  | VAbsent => []
  | VScalar b => [elem_call arg 0 b]
  | VArray [] => [(with_value arg 0 (-1), D_NULL)]
  | VArray bs => array_calls arg 0 bs
  end.

Definition calls (val : Z -> fvalue) (fs : list field) : list call :=
  mjoin (map (fun f => field_calls f (val (fd_tag f))) fs).

(** ** Streams *)

Lemma todword_bytes stream i b rest : is_bytes b -> zlen b = 4 -> rest_at stream i (b ++ rest) ->
  todword stream i = Some (le_value b) /\ rest_at stream (i + 4) rest.
Proof.
  intros Hb Hlen Hr. pose proof (le_value_bound b Hb) as Hv. rewrite Hlen in Hv.
  rewrite <-(le_bytes_all b 4 Hb Hlen) in Hr. by apply todword_rest in Hr.
Qed.

Lemma todword_size stream i l rest : zlen l < 2 ^ 31 -> rest_at stream i (sized l ++ rest) ->
  todword stream i = Some (zlen l) /\ rest_at stream (i + 4) (l ++ rest).
Proof. intros Hl Hr. unfold sized in Hr. rewrite <-app_assoc in Hr. pose proof (zlen_nonneg l). apply todword_rest in Hr; [done|lia]. Qed.

Lemma lor_high v w : 0 <= v < 2 ^ 32 -> 0 <= w -> Z.lor v (Z.shiftl w 32) = v + 2 ^ 32 * w.
Proof. intros Hv Hw. rewrite lor_shiftl_add by lia. lia. Qed.

Lemma le_value_extend b : int4 b -> le_value (int_bytes true b) = extend b.
Proof.
  intros [Hb Hlen]. rewrite int_bytes_4 by done. unfold extend, expand64. rewrite le_value_app, Hlen, Z.eqb_refl.
  pose proof (negative_value b Hb Hlen) as Hn. pose proof (le_value_bound b Hb) as Hv. rewrite Hlen in Hv.
  destruct (Z.land (le_value b) 2147483648 =? 0); cbn [negb] in Hn; rewrite <-Hn.
  - change (le_value (replicate 4 0)) with 0. lia.
  - change (le_value (replicate 4 255)) with (2 ^ 32 - 1). change 18446744069414584320 with (Z.shiftl (2 ^ 32 - 1) 32). rewrite lor_high by lia. done.
Qed.

Lemma int_bytes_is_bytes w b : is_bytes b -> is_bytes (int_bytes w b).
Proof.
  intros Hb. unfold int_bytes. destruct (_ && _); [|done]. apply Forall_app. split; [done|]. apply Forall_replicate.
  unfold is_u8. destruct (negative b); lia.
Qed.

Lemma todword_twice stream i w rest : is_bytes w -> zlen w = 8 -> rest_at stream i (w ++ rest) ->
  exists low hi, todword stream i = Some low /\ todword stream (i + 4) = Some hi /\ Z.lor low (Z.shiftl hi 32) = le_value w /\ rest_at stream (i + 8) rest.
Proof.
  intros Hw Hlen Hr. rewrite <-(take_drop 4 w) in Hw, Hr |- *. apply Forall_app in Hw as [Hw1 Hw2].
  assert (zlen (take 4 w) = 4 /\ zlen (drop 4 w) = 4) as [H1 H2] by (unfold zlen in *; rewrite length_take, length_drop; lia).
  rewrite <-app_assoc in Hr. apply todword_bytes in Hr as [E1 Hr]; [|done..]. apply todword_bytes in Hr as [E2 Hr]; [|done..].
  exists (le_value (take 4 w)), (le_value (drop 4 w)). split_and!; [done|done| |by replace (i + 8) with (i + 4 + 4) by lia].
  pose proof (le_value_bound _ Hw1) as Hv1. pose proof (le_value_bound _ Hw2) as Hv2. rewrite H1 in Hv1. rewrite lor_high by lia.
  by rewrite le_value_app, H1.
Qed.

(** ** Decoding *)
Section decode.
Context {S : Type}.
Variable cb : sproto_arg -> decoded -> S -> Z * S.
(** A callback that accepts every value. *)
Hypothesis cb_accepts : forall arg v s, (cb arg v s).1 = 0.

Definition run (l : list call) (s : S) : S := foldl (fun s c => (cb c.1 c.2 s).2) s l.

Lemma run_app l k s : run (l ++ k) s = run k (run l s).
Proof. apply foldl_app. Qed.

Lemma integers32_spec arg stream i rest bs : a_type arg = SPROTO_TINTEGER -> forall k s, Forall int4 bs ->
  rest_at stream (i + k * 4) (mjoin bs ++ rest) ->
  integers32 cb (length bs) arg stream i k s = Some (run (array_calls arg k bs) s).
Proof.
  intros Ht. induction bs as [|b bs IH]; intros k s Hok Hr; [done|]. apply Forall_cons in Hok as [[Hb Hlen] Hok].
  cbn [integers32 length array_calls]. change (mjoin (b :: bs)) with (b ++ mjoin bs) in Hr. rewrite <-app_assoc in Hr.
  apply todword_bytes in Hr as [-> Hr]; [|done..]. cbn [mbind option_bind]. rewrite IH; [|done|by replace (i + (k + 1) * 4) with (i + k * 4 + 4) by lia].
  unfold elem_call, elem_len, elem_value, extend. rewrite Ht, Hlen. done.
Qed.

Lemma integers64_spec arg stream i rest bs : a_type arg = SPROTO_TINTEGER -> forall k s, Forall int48 bs ->
  rest_at stream (i + k * 8) (mjoin (map (int_bytes true) bs) ++ rest) ->
  integers64 cb (length bs) arg stream i k s = Some (run (array_calls arg k bs) s).
Proof.
  intros Ht. induction bs as [|b bs IH]; intros k s Hok Hr; [done|]. apply Forall_cons in Hok as [[Hb Hlen] Hok].
  cbn [integers64 length array_calls]. change (mjoin (map (int_bytes true) (b :: bs))) with (int_bytes true b ++ mjoin (map (int_bytes true) bs)) in Hr.
  rewrite <-app_assoc in Hr.
  apply todword_twice in Hr as (low & hi & -> & E2 & Ev & Hr); [|by apply int_bytes_is_bytes|by apply zlen_int_bytes].
  cbn [mbind option_bind]. rewrite E2. cbn [mbind option_bind]. rewrite IH; [|done|by replace (i + (k + 1) * 8) with (i + k * 8 + 8) by lia].
  unfold elem_call, elem_len, elem_value. rewrite Ev, Ht.
  assert (le_value (int_bytes true b) = extend b) as ->; [|done].
  destruct Hlen as [Hlen|Hlen]; [by apply le_value_extend|]. unfold int_bytes, extend. by rewrite Hlen.
Qed.

Lemma booleans_spec arg stream i rest bs : a_type arg = SPROTO_TBOOLEAN -> forall k s,
  rest_at stream (i + k) (map bool_byte bs ++ rest) ->
  booleans cb (length bs) arg stream i k s = Some (run (array_calls arg k bs) s).
Proof.
  intros Ht. induction bs as [|b bs IH]; intros k s Hr; [done|]. cbn [booleans length array_calls]. cbn [map app] in Hr.
  apply rest_cons in Hr as [-> Hr]. cbn [mbind option_bind]. rewrite IH by (by replace (i + (k + 1)) with (i + k + 1) by lia).
  unfold elem_call, elem_len, elem_value. by rewrite Ht.
Qed.

Lemma object_array_spec arg stream rest bs : a_type arg <> SPROTO_TINTEGER -> a_type arg <> SPROTO_TBOOLEAN -> zlen stream < 2 ^ 31 ->
  forall fuel i k s, (length bs <= fuel)%nat -> rest_at stream i (object_bytes bs ++ rest) ->
  object_array cb fuel arg stream i (zlen (object_bytes bs)) (k + 1) s = Some (0, run (array_calls arg k bs) s).
Proof using cb_accepts.
  intros Ht1 Ht2 Hmax. induction bs as [|b bs IH]; intros fuel i k s Hfuel Hr; [by destruct fuel|].
  cbn [length] in Hfuel. destruct fuel as [|fuel]; [lia|]. rewrite object_bytes_cons in *. apply rest_at_zlen in Hr as Hz. rewrite !zlen_app, zlen_sized in Hz.
  pose proof (zlen_nonneg b). pose proof (zlen_nonneg (object_bytes bs)). pose proof (zlen_nonneg rest).
  rewrite zlen_app, zlen_sized. cbn [object_array array_calls]. unfold SIZEOF_LENGTH.
  destruct (Z.leb_spec (4 + zlen b + zlen (object_bytes bs)) 0); [lia|]. destruct (Z.ltb_spec (4 + zlen b + zlen (object_bytes bs)) 4); [lia|].
  rewrite <-app_assoc in Hr. apply todword_size in Hr as [-> Hr]; [|lia]. cbn [mbind option_bind]. unfold u32. rewrite Z.mod_small by lia.
  destruct (Z.ltb_spec (4 + zlen b + zlen (object_bytes bs) - 4) (zlen b)); [lia|]. rewrite (slice_prefix _ _ _ _ _ Hr) by done. cbn [mbind option_bind].
  pose proof (cb_accepts (with_value arg (zlen b) (k + 1)) (D_BYTES b) s) as Hcb. destruct (cb _ _ _) as [r s'] eqn:Ecb. cbn in Hcb. subst r. cbn [Z.eqb negb].
  replace (4 + zlen b + zlen (object_bytes bs) - 4 - zlen b) with (zlen (object_bytes bs)) by lia.
  rewrite IH; [|lia|by eapply rest_skip]. do 2 f_equal. unfold elem_call, elem_len, elem_value.
  rewrite !(proj2 (Z.eqb_neq _ _)) by done. cbn [orb run foldl fst snd]. by rewrite Ecb.
Qed.

Lemma decode_array_spec arg stream i rest bs s : 0 <= a_type arg <= 3 -> Forall (elem_ok (a_type arg)) bs -> zlen stream < 2 ^ 31 ->
  rest_at stream i (sized (array_bytes (a_type arg) bs) ++ rest) ->
  decode_array cb arg stream i s =
  Some (0, run (match bs with [] => [(with_value arg 0 (-1), D_NULL)] | _ => array_calls arg 0 bs end) s).
Proof using cb_accepts.
  intros Htype Hok Hmax Hr. apply rest_at_zlen in Hr as Hz. rewrite zlen_app, zlen_sized in Hz. pose proof (zlen_nonneg rest).
  unfold decode_array. apply todword_size in Hr as [-> Hr]; [|lia]. cbn [mbind option_bind].
  destruct bs as [|b bs].
  { assert (array_bytes (a_type arg) [] = []) as -> by (unfold array_bytes; by destruct (a_type arg =? SPROTO_TINTEGER), (a_type arg =? SPROTO_TBOOLEAN)). done. }
  remember (b :: bs) as all eqn:Eall. unfold array_bytes, SIZEOF_LENGTH in *.
  assert (1 <= zlen all) as Hn by (rewrite Eall, zlen_cons; pose proof (zlen_nonneg bs); lia).
  replace (match all with [] => [(with_value arg 0 (-1), D_NULL)] | _ :: _ => array_calls arg 0 all end) with (array_calls arg 0 all) by (by rewrite Eall).
  destruct (Z.eqb_spec (a_type arg) SPROTO_TINTEGER) as [Et|Et].
  - assert (Forall int48 all) as Hint by (eapply Forall_impl; [exact Hok|]; intros x (Hx & Hi & _); split; [done|by apply Hi]).
    replace (match all with [] => [] | _ :: _ => int_len (wide all) :: mjoin (map (int_bytes (wide all)) all) end)
      with (int_len (wide all) :: mjoin (map (int_bytes (wide all)) all)) in * by (by rewrite Eall).
    pose proof (zlen_ints all Hint) as Hlen. rewrite zlen_cons, Hlen in *. cbn [app] in Hr. apply rest_cons in Hr as [-> Hr]. cbn [mbind option_bind].
    destruct (Z.eqb_spec (1 + int_len (wide all) * zlen all) 0); [destruct (wide all); unfold int_len in *; lia|].
    replace (1 + int_len (wide all) * zlen all - 1) with (zlen all * int_len (wide all)) by lia. destruct (wide all) eqn:Ew; cbn [int_len Z.eqb Pos.eqb].
    + rewrite Z.mod_mul, Z.div_mul by lia. cbn [Z.eqb negb]. unfold zlen at 1. rewrite Nat2Z.id.
      rewrite (integers64_spec arg stream (i + 4 + 1) rest all) by (done || by rewrite Z.add_0_r). done.
    + rewrite Z.mod_mul, Z.div_mul by lia. cbn [Z.eqb negb]. unfold zlen at 1. rewrite Nat2Z.id. rewrite map_ext with (g := id), map_id in Hr by done.
      rewrite (integers32_spec arg stream (i + 4 + 1) rest all); [done|done|by apply narrow_int4|by rewrite Z.add_0_r].
  - destruct (Z.eqb_spec (a_type arg) SPROTO_TBOOLEAN) as [Eb|Eb].
    + assert (zlen (map bool_byte all) = zlen all) as -> by (unfold zlen; by rewrite length_map).
      destruct (Z.eqb_spec (zlen all) 0); [lia|]. unfold zlen at 1. rewrite Nat2Z.id.
      rewrite (booleans_spec arg stream (i + 4) rest all) by (done || by rewrite Z.add_0_r). done.
    + pose proof (object_bytes_length all). destruct (Z.eqb_spec (zlen (object_bytes all)) 0); [lia|].
      assert ((a_type arg =? SPROTO_TSTRING) || (a_type arg =? SPROTO_TSTRUCT) = true) as ->.
      { unfold SPROTO_TINTEGER, SPROTO_TBOOLEAN, SPROTO_TSTRING, SPROTO_TSTRUCT in *. lia. }
      rewrite s32_small by (unfold is_s32; lia). change 1 with (0 + 1).
      apply (object_array_spec arg stream rest all); try done. unfold zlen in *. lia.
Qed.

Lemma expand64_small v : 0 <= v < 2 ^ 31 -> expand64 v = v.
Proof. intros Hv. unfold expand64. change 2147483648 with (2 ^ 31). rewrite land_pow2 by lia. by destruct (Z.leb_spec (2 ^ 31) v); [lia|]. Qed.

Lemma decode_data_spec n f v d stream i rest s : field_ok n f -> value_ok f v -> field_bytes f v = Some (0, d) ->
  zlen stream < 2 ^ 31 -> rest_at stream i (d ++ rest) ->
  decode_data cb f (arg_of f (elem_type f)) stream i s = Some (true, run (field_calls f v) s).
Proof using cb_accepts.
  intros [Hk Htype]%field_kind Hok Hfb Hmax Hr. unfold decode_data, SIZEOF_LENGTH. fold (is_array f). apply rest_at_zlen in Hr as Hz. rewrite zlen_app in Hz.
  destruct v as [|b|bs]; [done|..]; destruct Hok as [Ha Hok]; rewrite Ha.
  - specialize (Htype Ha). unfold field_bytes in Hfb. destruct Hok as (Hb & Hi & Hbool).
    assert (d = sized b) as -> by (pose proof (le_value_bound b Hb); destruct (_ && _); [injection Hfb; lia|by injection Hfb]).
    rewrite zlen_sized in Hz. pose proof (zlen_nonneg rest). cbn [field_calls]. unfold elem_call, elem_len, elem_value. cbn [arg_of a_type].
    apply todword_size in Hr as [-> Hr]; [|lia]. cbn [mbind option_bind]. rewrite Htype.
    destruct (Z.eqb_spec (elem_type f) SPROTO_TINTEGER) as [Et|Et].
    + unfold extend. destruct (Hi Et) as [Hlen|Hlen]; rewrite Hlen; cbn [Z.eqb Pos.eqb negb].
      * apply todword_bytes in Hr as [-> _]; done.
      * rewrite <-(app_nil_r b) in Hr. rewrite <-app_assoc in Hr. apply todword_twice in Hr as (low & hi & -> & E2 & Ev & _); [|done..].
        cbn [mbind option_bind]. rewrite E2. cbn [mbind option_bind]. rewrite Ev. done.
    + assert (elem_type f <> SPROTO_TBOOLEAN) as Eb.
      { intros Eb. destruct (Hbool Eb) as [Hlen Hle]. rewrite Eb, Hlen in Hfb. cbn [orb andb Z.eqb Pos.eqb] in Hfb.
        pose proof (le_value_bound b Hb). rewrite (proj2 (Z.ltb_lt (le_value b) 32767)) in Hfb by lia. cbn in Hfb. injection Hfb. lia. }
      rewrite (proj2 (Z.eqb_neq (elem_type f) SPROTO_TBOOLEAN) Eb).
      assert ((elem_type f =? SPROTO_TSTRING) || (elem_type f =? SPROTO_TSTRUCT) = true) as ->.
      { unfold SPROTO_TINTEGER, SPROTO_TBOOLEAN, SPROTO_TSTRING, SPROTO_TSTRUCT in *. lia. }
      cbn [orb]. rewrite (slice_prefix _ _ _ _ _ Hr) by done. cbn [mbind option_bind].
      pose proof (cb_accepts (with_value (arg_of f (elem_type f)) (zlen b) 0) (D_BYTES b) s) as Hcb. cbn [run foldl fst snd].
      destruct (cb _ _ _) as [r s']. cbn in Hcb |- *. by subst r.
  - injection Hfb as <-. rewrite (decode_array_spec (arg_of f (elem_type f)) stream i rest bs) by done. by destruct bs.
Qed.

Lemma field_bytes_cases f v value d : value_ok f v -> field_bytes f v = Some (value, d) ->
  (value = 0 /\ exists x, d = sized x) \/
  (d = [] /\ exists b, v = VScalar b /\ value = (le_value b + 1) * 2 /\ 0 <= le_value b < 32767 /\ zlen b = 4 /\
    is_array f = false /\ ((elem_type f = SPROTO_TINTEGER) \/ (elem_type f = SPROTO_TBOOLEAN /\ le_value b <= 1))).
Proof.
  intros Hok Hfb. destruct v as [|b|bs]; [done| |injection Hfb as <- <-; left; split; [done|by eexists]].
  destruct Hok as (Ha & Hb & _ & Hbool). unfold field_bytes in Hfb.
  destruct (_ && _) eqn:E; [|injection Hfb as <- <-; left; split; [done|by eexists]].
  injection Hfb as <- <-. right. split; [done|]. exists b. apply andb_prop in E as [[E1 E2]%andb_prop E3]. pose proof (le_value_bound b Hb).
  split_and!; done || lia.
Qed.

(** A record of a field. *)
Lemma decode_step n st f v value d m stream record ds R1 D2 s : type_ok n st -> f ∈ st_f st -> field_ok n f -> value_ok f v ->
  field_bytes f v = Some (value, d) -> zlen stream < 2 ^ 31 ->
  rest_at stream record (le_bytes 2 value ++ R1) -> rest_at stream ds (d ++ D2) ->
  decode_loop cb (Datatypes.S m) st stream record ds (zlen d + zlen D2) (fd_tag f - 1) s =
  decode_loop cb m st stream (record + 2) (ds + zlen d) (zlen D2) (fd_tag f) (run (field_calls f v) s).
Proof using cb_accepts.
  intros Hst Hin Hf Hok Hfb Hmax Hr1 Hr2. apply rest_at_zlen in Hr2 as Hz. rewrite zlen_app in Hz. pose proof (zlen_nonneg D2).
  assert (findtag st (fd_tag f) = Some (Some f)) as Hfind.
  { destruct (findtag_spec n st (fd_tag f) Hst) as (r & -> & Hr). destruct r as [g|]; [|by apply Hr in Hin].
    do 2 f_equal. eapply fields_unique; [done|apply Hr|done|apply Hr]. }
  assert (0 <= value < 2 ^ 16) as Hvalue by (apply field_bytes_cases in Hfb as [[-> _]|(_ & b & _ & -> & ? & _)]; [lia|lia|done]).
  cbn [decode_loop]. apply toword_rest in Hr1 as [-> _]; [|done]. cbn [mbind option_bind].
  replace (fd_tag f - 1 + 1) with (fd_tag f) by lia. unfold SIZEOF_LENGTH, SIZEOF_FIELD.
  destruct (field_bytes_cases _ _ _ _ Hok Hfb) as [(-> & x & ->)|(-> & b & -> & -> & Hb & Hlen & Ha & Ht)].
  - change (Z.odd 0) with false. cbn [Z.div Z.div_eucl Z.sub Z.add Z.opp]. change (0 / 2 - 1) with (-1). change (-1 <? 0) with true. cbv iota.
    pose proof (zlen_nonneg x). rewrite zlen_sized in *. apply todword_size in Hr2 as Hsz; [|lia]. destruct Hsz as [-> _].
    destruct (Z.ltb_spec (4 + zlen x + zlen D2) 4); [lia|]. cbn [mbind option_bind]. unfold u32. rewrite !Z.mod_small by lia.
    destruct (Z.ltb_spec (4 + zlen x + zlen D2) (zlen x + 4)); [lia|]. cbn [mbind option_bind]. rewrite Hfind. cbn [mbind option_bind].
    change (Arg (fd_name f) (fd_tag f) _ (fd_st f) 0 0 (fd_key f)) with (arg_of f (elem_type f)).
    rewrite (decode_data_spec n f v (sized x) stream ds D2 s) by done. cbn [mbind option_bind].
    replace (ds + (zlen x + 4)) with (ds + (4 + zlen x)) by lia. by replace (4 + zlen x + zlen D2 - (zlen x + 4)) with (zlen D2) by lia.
  - change (zlen (@nil Z)) with 0 in *. rewrite Z.odd_mul. change (Z.odd 2) with false. rewrite andb_false_r, Z.div_mul by lia.
    replace (le_value b + 1 - 1) with (le_value b) by lia. rewrite (proj2 (Z.ltb_ge (le_value b) 0)) by lia. cbn [mbind option_bind]. rewrite Hfind.
    cbn [mbind option_bind]. destruct (field_kind _ _ Hf) as [_ Htype]. rewrite (Htype Ha), Z.add_0_r, Z.add_0_l.
    cbn [field_calls run foldl]. unfold elem_call, elem_len, elem_value. cbn [arg_of a_type fst snd].
    destruct Ht as [Ht|[Ht Hle]]; rewrite Ht; cbn [mbind option_bind].
    + unfold extend. rewrite Hlen. change (4 =? 4) with true. rewrite expand64_small by lia. done.
    + assert (bool_byte b = le_value b) as Hbb by (unfold bool_byte; destruct (Z.eqb_spec (le_value b) 0); lia).
      change (SPROTO_TBOOLEAN =? SPROTO_TINTEGER) with false. change (SPROTO_TBOOLEAN =? SPROTO_TBOOLEAN) with true. cbn [orb negb andb mbind option_bind]. by rewrite Hbb.
Qed.

Lemma ascending_weaken fs a b : a <= b -> ascending b fs -> ascending a fs.
Proof. destruct fs as [|f fs]; [done|]. intros Hab [Hf Ha]. split; [lia|done]. Qed.

Lemma decode_loop_spec n val st stream rest2 fs : type_ok n st -> zlen stream < 2 ^ 31 ->
  forall last record ds rest1 s, -1 <= last -> ascending last fs ->
  Forall (fun f => f ∈ st_f st /\ field_ok n f /\ value_ok f (val (fd_tag f))) fs ->
  rest_at stream record (words (records val last fs) ++ rest1) -> rest_at stream ds (datas val fs ++ rest2) ->
  decode_loop cb (length (records val last fs)) st stream record ds (zlen (datas val fs) + zlen rest2) last s =
  Some (Some (zlen rest2), run (calls val fs) s).
Proof using cb_accepts.
  intros Hst Hmax. induction fs as [|f fs IH]; intros last record ds rest1 s Hlast Ha Hok Hr1 Hr2; [done|].
  destruct Ha as [Hf Ha]. apply Forall_cons in Hok as [(Hin & Hfok & Hv) Hok]. rewrite datas_cons in *. cbn [records] in *.
  change (calls val (f :: fs)) with (field_calls f (val (fd_tag f)) ++ calls val fs). rewrite run_app.
  assert (fd_tag f < 2 ^ 15) as Htag by (destruct Hfok; lia). unfold data_of in *.
  destruct (field_bytes f (val (fd_tag f))) as [[value d]|] eqn:Efb.
  2: { assert (val (fd_tag f) = VAbsent) as -> by (unfold field_bytes in Efb; destruct (val (fd_tag f)); [done|destruct (_ && _); done|done]).
       cbn [app] in *. eapply IH; try done. eapply ascending_weaken; [|exact Ha]. lia. }
  rewrite <-app_assoc in Hr2. rewrite zlen_app, <-Z.add_assoc, <-zlen_app.
  assert (forall record', rest_at stream record' (le_bytes 2 value ++ words (records val (fd_tag f) fs) ++ rest1) ->
    decode_loop cb (Datatypes.S (length (records val (fd_tag f) fs))) st stream record' ds (zlen d + zlen (datas val fs ++ rest2)) (fd_tag f - 1) s =
    Some (Some (zlen rest2), run (calls val fs) (run (field_calls f (val (fd_tag f))) s))) as Hstep.
  { intros record' Hr. rewrite (decode_step n st f _ value d _ _ _ _ _ (datas val fs ++ rest2) s Hst Hin Hfok Hv Efb Hmax Hr Hr2), zlen_app.
    eapply IH; try done; [lia| |].
    - by eapply rest_skip; [exact Hr|rewrite zlen_le_word].
    - by eapply rest_skip. }
  destruct (Z.ltb_spec 0 (fd_tag f - last - 1)) as [Hgap|Hgap]; cbn [app length] in Hr1 |- *.
  - set (gap := (fd_tag f - last - 1 - 1) * 2 + 1) in *. change (gap :: value :: ?l) with ([gap] ++ [value] ++ l) in Hr1.
    rewrite !words_app, !words_one, <-!app_assoc in Hr1. cbn [decode_loop]. apply toword_rest in Hr1 as [-> Hr1]; [|subst gap; lia]. cbn [mbind option_bind].
    assert (Z.odd gap = true) as ->.
    { subst gap. rewrite Z.add_comm, Z.odd_add, Z.odd_mul. change (Z.odd 2) with false. by rewrite andb_false_r. }
    assert (last + 1 + gap / 2 = fd_tag f - 1) as -> by (subst gap; rewrite Z.add_comm, Z.mul_comm, Z.mul_comm, Z.div_add_l by lia; change (1 / 2) with 0; lia).
    by apply Hstep.
  - change (value :: ?l) with ([value] ++ l) in Hr1. rewrite words_app, words_one, <-app_assoc in Hr1.
    replace last with (fd_tag f - 1) at 1 by lia. by apply Hstep.
Qed.

Lemma slots_bound fs : forall last, ascending last fs -> Forall (fun f => fd_tag f < 2 ^ 15) fs -> last < 2 ^ 15 -> slots last fs <= 2 ^ 15 - 1 - last.
Proof.
  induction fs as [|f fs IH]; intros last Ha Hlt Hlast; cbn [slots]; [lia|]. destruct Ha as [Hf Ha]. apply Forall_cons in Hlt as [Htag Hlt].
  specialize (IH (fd_tag f) Ha Hlt Htag). destruct (Z.ltb_spec (last + 1) (fd_tag f)); lia.
Qed.

Lemma sproto_decode_spec n val st s : encodable n val st -> zlen (encoded val st) < 2 ^ 31 ->
  sproto_decode cb st (encoded val st) s = Some (zlen (encoded val st), run (calls val (st_f st)) s).
Proof using cb_accepts.
  intros [Hst Hv] Hmax. pose proof Hst as [Hf Ha Hmaxn _]. set (R := records val (-1) (st_f st)).
  assert (zlen R < 2 ^ 16) as HR.
  { pose proof (records_slots val (st_f st) (-1) (-1) ltac:(lia) Ha) as H1. rewrite Z.ltb_irrefl in H1.
    pose proof (slots_bound (st_f st) (-1) Ha) as H2. subst R. assert (Forall (fun f => fd_tag f < 2 ^ 15) (st_f st)) as H3; [|specialize (H2 H3); lia].
    eapply Forall_impl; [exact Hf|]. intros f []. lia. }
  pose proof (zlen_nonneg R). pose proof (zlen_nonneg (datas val (st_f st))). pose proof (zlen_encoded val st) as Hlen. fold R in Hlen.
  unfold sproto_decode, SIZEOF_HEADER, SIZEOF_FIELD. destruct (Z.ltb_spec (zlen (encoded val st)) 2); [lia|].
  assert (rest_at (encoded val st) 0 (encoded val st)) as Hr by (split; [lia|done]). unfold encoded in Hr at 2. fold R in Hr.
  apply toword_rest in Hr as [-> Hr]; [|lia]. cbn [mbind option_bind]. destruct (Z.ltb_spec (zlen (encoded val st) - 2) (zlen R * 2)); [lia|].
  assert (rest_at (encoded val st) (2 + zlen R * 2) (datas val (st_f st) ++ [])) as Hr2.
  { rewrite app_nil_r. eapply rest_skip; [exact Hr|]. rewrite zlen_words. lia. }
  replace (zlen (encoded val st) - 2 - zlen R * 2) with (zlen (datas val (st_f st)) + zlen (@nil Z)) by (change (zlen (@nil Z)) with 0; lia).
  replace (Z.to_nat (zlen R)) with (length R) by (unfold zlen; lia). subst R. rewrite (decode_loop_spec n val st _ [] (st_f st)) with (rest1 := datas val (st_f st)); try done.
  apply Forall_and. split; [by apply Forall_forall|]. apply Forall_and. by split.
Qed.
End decode.

(** C31: What [sproto_encode] writes into a buffer with room for the data and 8 bytes more is
    the reference encoding of the values; [sproto_decode] of these bytes takes all of them
    and calls its callback with exactly the values that are present, in the order of the
    tags: scalars in a record or in data, strings, arrays with their indices, integers
    extended to 64 bits with their sign, an empty array as one call.  Both stay inside
    their buffers. *)
Theorem sproto_roundtrip {S : Type} (cb : sproto_arg -> decoded -> S -> Z * S) (n : Z) (val : Z -> fvalue) (st : sproto_type) (buffer : list Z) (s : S) :
  (forall arg v s, fst (cb arg v s) = 0) -> encodable n val st -> zlen buffer < 2 ^ 31 ->
  2 + 2 * st_maxn st + zlen (datas val (st_f st)) + 8 <= zlen buffer ->
  exists rest, sproto_encode (answer val) st buffer tt = Some (zlen (encoded val st), encoded val st ++ rest, tt) /\
    zlen (encoded val st ++ rest) = zlen buffer /\
    sproto_decode cb st (encoded val st) s = Some (zlen (encoded val st), run cb (calls val (st_f st)) s).
Proof.
  intros Hcb Hok Hmax Hfit. destruct (sproto_encode_spec n val st buffer Hok Hmax Hfit) as (rest & E & Hlen). exists rest. split; [done|]. split; [done|].
  apply (sproto_decode_spec cb Hcb n); [done|]. rewrite zlen_app in Hlen. pose proof (zlen_nonneg rest). lia.
Qed.

(** A type with a gap of tags, and values of it. *)
Definition message_type : sproto_type :=
  SprotoType [77] (-1) 4 [Field 1 SPROTO_TINTEGER (Some [97]) None (-1); Field 2 SPROTO_TSTRING (Some [98]) None (-1);
    Field 3 (Z.lor SPROTO_TINTEGER SPROTO_TARRAY) (Some [99]) None (-1)].

Definition message_values (tag : Z) : fvalue :=
  if tag =? 1 then VScalar [13; 0; 0; 0]
  else if tag =? 2 then VScalar [104; 105]
  else VArray [[0xff; 0xff; 0xff; 0xff]; [0; 0; 0; 0; 0; 1; 0; 0]].

Ltac bytes := repeat first [apply Forall_nil_2 | apply Forall_cons; split; [unfold is_u8; lia|]].

Lemma message_encodable : encodable 0 message_values message_type.
Proof.
  assert (forall name t a, t = 0 \/ t = 2 -> a = 0 \/ a = SPROTO_TARRAY -> forall tag, 0 <= tag < 2 ^ 15 ->
    field_ok 0 (Field tag (Z.lor t a) (Some name) None (-1))) as Hf.
  { intros name t a Ht Ha tag Htag. constructor; [done|done|]. exists t, a. split_and!; try done. left. split; [|done].
    cbv [SPROTO_TSTRUCT]. lia. }
  split; [constructor|].
  - apply Forall_cons. split; [apply (Hf [97] 0 0); lia|]. apply Forall_cons. split; [apply (Hf [98] 2 0); lia|].
    apply Forall_cons. split; [apply (Hf [99] 0 SPROTO_TARRAY); lia|done].
  - cbn. lia.
  - done.
  - by intros [].
  - assert (forall b, zlen b = 4 \/ zlen b = 8 -> is_bytes b -> elem_ok 0 b) as Hint by (intros b H1 H2; split_and!; done).
    assert (forall b, is_bytes b -> elem_ok 2 b) as Hstr by (intros b H1; split_and!; done).
    constructor; [split; [done|]; apply Hint; [by left|bytes]|].
    constructor; [split; [done|]; apply Hstr; bytes|].
    constructor; [|constructor]. split; [done|]. constructor; [apply Hint; [by left|bytes]|].
    constructor; [apply Hint; [by right|bytes]|constructor].
Qed.

Lemma sproto_roundtrip_witness :
  let log := (fun arg v l => (0, l ++ [(a_tagid arg, a_index arg, v)])) : sproto_arg -> decoded -> list (Z * Z * decoded) -> Z * list (Z * Z * decoded) in
  exists rest, sproto_encode (answer message_values) message_type (replicate 60 7) tt =
    Some (zlen (encoded message_values message_type), encoded message_values message_type ++ rest, tt) /\
  sproto_decode log message_type (encoded message_values message_type) [] =
    Some (zlen (encoded message_values message_type), [(1, 0, D_INT 13); (2, 0, D_BYTES [104; 105]); (3, 1, D_INT (2 ^ 64 - 1)); (3, 2, D_INT (2 ^ 40))]).
Proof.
  intros log. destruct (sproto_roundtrip log 0 message_values message_type (replicate 60 7) []) as (rest & E & _ & D).
  - done.
  - exact message_encodable.
  - reflexivity.
  - vm_compute. discriminate.
  - exists rest. split; [exact E|]. rewrite D. vm_compute. reflexivity.
Defined.
