(* ===== verification/Bson.v ===== *)
(** lib/bson/lua-bson.c: documents of MongoDB from and to Lua tables.

    A Lua value is a [value] of [Lua]; a full userdata is its memory.  The special types of
    BSON are strings that start with a zero and the number of the type.  A document is
    read from a block of memory with an offset for the reader's pointer; an access outside
    the block, a copy of a negative size and the overflow of the buffer's capacity are
    [Ub], a Lua error is [Err].

    The results of functions outside (the formatting of floats, the conversion of an
    argument to a float, the border of a table, the raw content of a table with
    [__pairs]) are parameters, and so are the bytes of fresh memory.

    Not modelled: the metatable of a document (its [__tostring] and [__len]), that an
    error while encoding does not free the buffer, and the limit of Lua's stack. *)
From Stdlib Require Import String.
From S2P Require Import Prelude Bytes Buffer CStr Lua.
#[local] Set Warnings "-register-all".

Definition DEFAULT_CAP : Z := 64.
Definition MAX_DEPTH : Z := 128.
Definition BSON_REAL : Z := 1.
Definition BSON_STRING : Z := 2.
Definition BSON_DOCUMENT : Z := 3.
Definition BSON_ARRAY : Z := 4.
Definition BSON_BINARY : Z := 5.
Definition BSON_OBJECTID : Z := 7.
Definition BSON_BOOLEAN : Z := 8.
Definition BSON_DATE : Z := 9.
Definition BSON_NULL : Z := 10.
Definition BSON_REGEX : Z := 11.
Definition BSON_DBPOINTER : Z := 12.
Definition BSON_JSCODE : Z := 13.
Definition BSON_SYMBOL : Z := 14.
Definition BSON_CODEWS : Z := 15.
Definition BSON_INT32 : Z := 16.
Definition BSON_TIMESTAMP : Z := 17.
Definition BSON_INT64 : Z := 18.
Definition BSON_MINKEY : Z := 255.
Definition BSON_MAXKEY : Z := 127.
Definition BSON_TYPE_SHIFT : Z := 5.

(** A value of one of several types. *)
Definition is_one_of (bt : Z) (l : list Z) : bool := existsb (Z.eqb bt) l.

(** ** The buffer *)

(** [struct bson]: [ptr] has [cap] bytes. *)
Record bson := BsonBuf {
  bs_size : Z;
  bs_cap : Z;
  bs_ptr : list Z
}.

(** The doubling of [cap] beyond [need]; [None] when [cap] overflows. *)
Fixpoint grow_cap (fuel : nat) (cap need : Z) : option Z :=
  match fuel with
  | O => None
  | S fuel =>
      let cap := cap * 2 in
      if 2 ^ 31 <=? cap then None
      else if cap <=? need then grow_cap fuel cap need
      else Some cap
  end.

Section encode.
(** A byte of fresh memory. *)
Variable junk : Z.
(** The conversion of a float to a string. *)
Variable fmt_real : Z -> list Z.
(** Whether the raw content of a table with [__pairs] looks like an array. *)
Variable raw_array : list (value * value) -> bool.

Definition bson_create : bson := BsonBuf 0 DEFAULT_CAP (replicate (Z.to_nat DEFAULT_CAP) junk).

Definition bson_reserve (b : bson) (sz : Z) : res bson :=
  if 2 ^ 31 <=? bs_size b + sz then Ub
  else if bs_size b + sz <=? bs_cap b then Ok b
  else
    cap ← lift (grow_cap 32 (bs_cap b) (bs_size b + sz));
    Ok (BsonBuf (bs_size b) cap (take (Z.to_nat (bs_size b)) (bs_ptr b) ++ replicate (Z.to_nat (cap - bs_size b)) junk)).

(** [bson_reserve] and the copy of bytes behind the content. *)
Definition write_bytes (l : list Z) (b : bson) : res bson :=
  b ← bson_reserve b (zlen l);
  ptr ← lift (memcpy (bs_ptr b) (bs_size b) l);
  Ok (BsonBuf (bs_size b + zlen l) (bs_cap b) ptr).

Definition write_byte (v : Z) (b : bson) : res bson := write_bytes [u8 v] b.
Definition write_int32 (v : Z) (b : bson) : res bson := write_bytes (le_bytes 4 (u32 v)) b.
Definition write_int64 (v : Z) (b : bson) : res bson := write_bytes (le_bytes 8 (u64 v)) b.
(** The float is its bits. *)
Definition write_double (d : Z) (b : bson) : res bson := write_bytes (le_bytes 8 d) b.

Definition write_length (v off : Z) (b : bson) : res bson :=
  ptr ← lift (memcpy (bs_ptr b) off (le_bytes 4 (u32 v))); Ok (BsonBuf (bs_size b) (bs_cap b) ptr).

(** [write_string] of a Lua string or of its first bytes. *)
Definition write_string (key : list Z) (b : bson) : res bson := write_bytes (key ++ [0]) b.

(** [reserve_length]: where the length is written later. *)
Definition reserve_length (b : bson) : res (bson * Z) :=
  let sz := bs_size b in
  b ← bson_reserve b 4; Ok (BsonBuf (bs_size b + 4) (bs_cap b) (bs_ptr b), sz).

Definition append_key (type : Z) (key : list Z) (b : bson) : res bson :=
  b ← write_byte type b; write_string key b.

Definition is_32bit (v : Z) : bool := (- 2 ^ 31 <=? v) && (v <=? 2 ^ 31 - 1).

Definition append_integer (i : Z) (key : list Z) (b : bson) : res bson :=
  if is_32bit i then b ← append_key BSON_INT32 key b; write_int32 i b
  else b ← append_key BSON_INT64 key b; write_int64 i b.

Definition append_real (d : Z) (key : list Z) (b : bson) : res bson :=
  b ← append_key BSON_REAL key b; write_double d b.

Definition write_binary (buffer : list Z) (b : bson) : res bson :=
  '(b, length) ← reserve_length b;
  b ← write_bytes buffer b;
  write_length (zlen buffer - 1) length b.

(** The number of bytes behind the last zero of [l], all of them if there is none. *)
Fixpoint tail_length (rev_l : list Z) (i : Z) : Z :=
  match rev_l with
  | [] => i
  | c :: l => if c =? 0 then i else tail_length l (i + 1)
  end.

(** The two strings of a regular expression: [len] is a [size_t]. *)
Definition append_regex (str : list Z) (b : bson) : res bson :=
  let len := zlen str - 1 in
  if len <? 0 then Ub
  else
    let i := tail_length (rev (take (Z.to_nat len) str)) 0 in
    if len - i - 1 <? 0 then Ub
    else
      b ← write_string (take (Z.to_nat (len - i - 1)) str) b;
      write_string (take (Z.to_nat i) (drop (Z.to_nat (len - i)) str)) b.

(** A string that starts with a zero and the type [subt]; [str] is what follows. *)
Definition append_special (subt : Z) (str key : list Z) (b : bson) : res bson :=
  b ← append_key subt key b;
  if subt =? BSON_BINARY then write_binary str b
  else if subt =? BSON_OBJECTID then
    if negb (zlen str =? 12) then Err "Invalid object id %s" else write_bytes str b
  else if is_one_of subt [BSON_JSCODE; BSON_DBPOINTER; BSON_SYMBOL; BSON_CODEWS] then write_bytes str b
  else if subt =? BSON_DATE then
    if negb (zlen str =? 4) then Err "Invalid date" else write_int64 (le_value str * 1000) b
  else if subt =? BSON_TIMESTAMP then
    if negb (zlen str =? 8) then Err "Invalid timestamp"
    else b ← write_int32 (le_value (take 4 str)) b; write_int32 (le_value (drop 4 str)) b
  else if subt =? BSON_REGEX then append_regex str b
  else if is_one_of subt [BSON_MINKEY; BSON_MAXKEY; BSON_NULL] then Ok b
  else Err "Invalid subtype %d".

Definition append_string (str key : list Z) (b : bson) : res bson :=
  match str with
  | 0 :: subt :: rest => append_special subt rest key b
  | _ =>
      b ← append_key BSON_STRING key b;
      '(b, off) ← reserve_length b;
      b ← write_string str b;
      write_length (zlen str + 1) off b
  end.

(** [lua_touserdata]: the document begins with its size. *)
Definition append_userdata (mem key : list Z) (b : bson) : res bson :=
  b ← append_key BSON_DOCUMENT key b;
  w ← lift (slice mem 0 4);
  doc ← lift (slice mem 0 (s32 (le_value w)));
  write_bytes doc b.

(** [%lld]. *)
Definition fmt_lld (z : Z) : list Z :=
  if z <? 0 then 45 :: print_digits 19 10 (- z) [] else print_digits 19 10 z [].

(** [lua_tolstring]. *)
Definition tolstring (v : value) : option (list Z) :=
  match v with
  | VStr s => Some s
  | VInt z => Some (fmt_lld z)
  | VReal d => Some (fmt_real d)
  | _ => None
  end.

Definition is_number (v : value) : bool := match v with VInt _ | VReal _ => true | _ => false end.
Definition is_string (v : value) : bool := match v with VStr _ => true | _ => false end.

(** [bson_numstr]; the strings of the numbers below [MAX_NUMBER] were made by [luaopen_bson]
    in the same way. *)
Definition bson_numstr (i : Z) : list Z := fmt_u i.

Section dict.
(** [append_one], one level deeper. *)
Variable append_one : value -> list Z -> bson -> res bson.

Definition pack_dict_data (isarray : bool) (k v : value) (b : bson) : res bson :=
  if isarray then
    if negb (is_number k) then Err "Invalid array key type : %s"
    else append_one v (bson_numstr (u32 (tointeger k - 1))) b
  else if is_number k || is_string k then
    match tolstring k with
    | Some key => append_one v key b
    | None => Ub
    end
  else Err "Invalid key type : %s".

(** The loops of [pack_simple_dict] and of [pack_meta_dict], which ends at a nil key. *)
Fixpoint simple_loop (isarray : bool) (l : list (value * value)) (b : bson) : res bson :=
  match l with
  | [] => Ok b
  | (k, v) :: l => b ← pack_dict_data isarray k v b; simple_loop isarray l b
  end.

Fixpoint meta_loop (isarray : bool) (l : list (value * value)) (b : bson) : res bson :=
  match l with
  | [] => Ok b
  | (k, v) :: l =>
      if is_nil k then Ok b else b ← pack_dict_data isarray k v b; meta_loop isarray l b
  end.

(** [pack_simple_dict] and [pack_meta_dict] around their loops. *)
Definition pack_document (loop : bson -> res bson) (depth : Z) (b : bson) : res bson :=
  if MAX_DEPTH <? depth then Err "Too depth while encoding bson"
  else
    '(b, length) ← reserve_length b;
    b ← loop b;
    b ← write_byte 0 b;
    write_length (bs_size b - length) length b.

Definition pack_dict (isarray : bool) (v : value) (depth : Z) (b : bson) : res bson :=
  match v with
  | VTable _ l => pack_document (simple_loop isarray l) depth b
  | VPairs l => pack_document (meta_loop isarray l) depth b
  | _ => Ub
  end.
End dict.

(** Whether [lua_next] ends behind the border. *)
Definition ends_at (len : Z) (l : list (value * value)) : res bool :=
  if existsb (fun kv => raw_equal (VInt len) kv.1) l then
    Ok match last l with Some kv => raw_equal (VInt len) kv.1 | None => false end
  else Err "invalid key to 'next'".

Definition is_array_table (v : value) : res bool :=
  match v with
  | VTable len l => if 0 <? len then ends_at len l else Ok false
  | VPairs l => Ok (raw_array l)
  | _ => Ok false
  end.

(** [append_one] with [append_table]; [fuel] bounds the levels of tables. *)
Fixpoint append_one (fuel : nat) (depth : Z) (v : value) (key : list Z) (b : bson) : res bson :=
  match v with
  | VInt i => append_integer i key b
  | VReal d => append_real d key b
  | VUser mem => append_userdata mem key b
  | VStr str => append_string str key b
  | VTable _ _ | VPairs _ =>
      match fuel with
      | O => Ub
      | S fuel =>
          isarray ← is_array_table v;
          b ← append_key (if isarray : bool then BSON_ARRAY else BSON_DOCUMENT) key b;
          pack_dict (append_one fuel (depth + 1)) isarray v (depth + 1) b
      end
  | VBool x => b ← append_key BSON_BOOLEAN key b; write_byte (if x then 1 else 0) b
  | VNil | VPtr _ | VOther _ => Err "Invalid value type : %s"
  end.

(** Levels beyond [MAX_DEPTH] are an error. *)
Definition pack_fuel : nat := Z.to_nat MAX_DEPTH + 1.

(** The userdata that is made of the buffer. *)
Definition to_userdata (b : bson) : res (list Z) := lift (slice (bs_ptr b) 0 (bs_size b)).

Definition lencode (v : value) : res (list Z) :=
  match v with
  | VTable _ _ | VPairs _ => b ← pack_dict (append_one pack_fuel 0) false v 0 bson_create; to_userdata b
  | _ => Err "table expected"
  end.

(** [pack_ordered_dict] of the arguments. *)
Fixpoint ordered_loop (args : list value) (b : bson) : res bson :=
  match args with
  | k :: v :: args =>
      match tolstring k with
      | None => Err "Argument %d need a string"
      | Some key => b ← append_one pack_fuel 0 v key b; ordered_loop args b
      end
  | _ => Ok b
  end.

Definition lencode_order (args : list value) : res (list Z) :=
  if negb (zlen args mod 2 =? 0) then Err "Invalid ordered dict"
  else
    '(b, length) ← reserve_length bson_create;
    b ← ordered_loop args b;
    b ← write_byte 0 b;
    b ← write_length (bs_size b - length) length b;
    to_userdata b.
End encode.

(** ** Reading *)

(** [struct bson_reader] in a block of memory. *)
Record bson_reader := Reader {
  br_ptr : Z;
  br_size : Z
}.

Definition check_reader (br : bson_reader) (sz : Z) : res unit :=
  if br_size br <? sz then Err "Invalid bson block (%d:%d)" else Ok tt.

Definition skip (br : bson_reader) (sz : Z) : bson_reader := Reader (br_ptr br + sz) (s32 (br_size br - sz)).

Section decode.
(** The block. *)
Variable mem : list Z.
(** The border of a new table. *)
Variable border : list (value * value) -> Z.

Definition read_byte (br : bson_reader) : res (Z * bson_reader) :=
  _ ← check_reader br 1;
  b ← lift mem.[br_ptr br];
  Ok (b, skip br 1).

Definition read_int32 (br : bson_reader) : res (Z * bson_reader) :=
  _ ← check_reader br 4;
  w ← lift (slice mem (br_ptr br) 4);
  Ok (s32 (le_value w), skip br 4).

Definition read_word64 (br : bson_reader) : res (Z * bson_reader) :=
  _ ← check_reader br 8;
  w ← lift (slice mem (br_ptr br) 8);
  Ok (le_value w, skip br 8).

Definition read_int64 (br : bson_reader) : res (Z * bson_reader) :=
  '(v, br) ← read_word64 br; Ok (s64 v, br).

(** The bits of the float. *)
Definition read_double : bson_reader -> res (Z * bson_reader) := read_word64.

(** [read_bytes]: a pointer; a negative [sz] moves the reader back. *)
Definition read_bytes (br : bson_reader) (sz : Z) : res (Z * bson_reader) :=
  _ ← check_reader br sz; Ok (br_ptr br, skip br sz).

(** The loop of [read_cstring] from index [i] on. *)
Fixpoint cstring_loop (fuel : nat) (br : bson_reader) (i : Z) : res Z :=
  match fuel with
  | O => Ub
  | S fuel =>
      if i =? br_size br then Err "Invalid bson block : cstring"
      else
        c ← lift mem.[br_ptr br + i];
        if c =? 0 then Ok i else cstring_loop fuel br (i + 1)
  end.

(** [read_cstring]: the pointer and the length. *)
Definition read_cstring (br : bson_reader) : res (Z * Z * bson_reader) :=
  i ← cstring_loop (S (length mem)) br 0;
  Ok (br_ptr br, i, skip br (i + 1)).

(** [len] bytes at [ptr] pushed to Lua, which refuses the size that a negative [len]
    becomes. *)
Definition bytes_at (ptr len : Z) : res (list Z) :=
  if len <? 0 then Err "memory allocation error: block too big" else lift (slice mem ptr len).

Definition make_object (type ptr len : Z) : res value :=
  l ← bytes_at ptr len; Ok (VStr (0 :: u8 type :: l)).

(** A value of the type [bt]; [dict] is [unpack_dict]. *)
Definition read_value (dict : bson_reader -> bool -> res (value * bson_reader)) (bt : Z) (t : bson_reader)
    : res (value * bson_reader) :=
  if bt =? BSON_REAL then '(d, t) ← read_double t; Ok (VReal d, t)
  else if bt =? BSON_BOOLEAN then '(b, t) ← read_byte t; Ok (VBool (negb (b =? 0)), t)
  else if bt =? BSON_STRING then
    '(sz, t) ← read_int32 t;
    if sz <=? 0 then Err "Invalid bson string , length = %d"
    else '(ptr, t) ← read_bytes t sz; l ← bytes_at ptr (sz - 1); Ok (VStr l, t)
  else if bt =? BSON_DOCUMENT then dict t false
  else if bt =? BSON_ARRAY then dict t true
  else if bt =? BSON_BINARY then
    '(sz, t) ← read_int32 t;
    '(subtype, t) ← read_byte t;
    '(ptr, t) ← read_bytes t sz;
    l ← bytes_at ptr sz; Ok (VStr (0 :: BSON_BINARY :: subtype :: l), t)
  else if bt =? BSON_OBJECTID then
    '(ptr, t) ← read_bytes t 12; v ← make_object BSON_OBJECTID ptr 12; Ok (v, t)
  else if bt =? BSON_DATE then
    '(date, t) ← read_int64 t; Ok (VStr (0 :: BSON_DATE :: le_bytes 4 (u32 (Z.quot date 1000))), t)
  else if is_one_of bt [BSON_MINKEY; BSON_MAXKEY; BSON_NULL] then Ok (VStr [0; bt], t)
  else if bt =? BSON_REGEX then
    '(r1, rlen1, t) ← read_cstring t;
    '(r2, rlen2, t) ← read_cstring t;
    l1 ← bytes_at r1 rlen1; l2 ← bytes_at r2 rlen2;
    Ok (VStr (0 :: BSON_REGEX :: l1 ++ 0 :: l2 ++ [0]), t)
  else if bt =? BSON_INT32 then '(i, t) ← read_int32 t; Ok (VInt i, t)
  else if bt =? BSON_TIMESTAMP then
    '(inc, t) ← read_int32 t; '(ts, t) ← read_int32 t;
    Ok (VStr (0 :: BSON_TIMESTAMP :: le_bytes 4 (u32 inc) ++ le_bytes 4 (u32 ts)), t)
  else if bt =? BSON_INT64 then '(i, t) ← read_int64 t; Ok (VInt i, t)
  else if bt =? BSON_DBPOINTER then
    let ptr := br_ptr t in
    '(sz, t) ← read_int32 t; '(_, t) ← read_bytes t (s32 (sz + 12));
    v ← make_object BSON_DBPOINTER ptr (s32 (sz + 16)); Ok (v, t)
  else if is_one_of bt [BSON_JSCODE; BSON_SYMBOL] then
    let ptr := br_ptr t in
    '(sz, t) ← read_int32 t; '(_, t) ← read_bytes t sz;
    v ← make_object bt ptr (s32 (sz + 4)); Ok (v, t)
  else if bt =? BSON_CODEWS then
    let ptr := br_ptr t in
    '(sz, t) ← read_int32 t; '(_, t) ← read_bytes t (s32 (sz - 4));
    v ← make_object bt ptr sz; Ok (v, t)
  else Err "Invalid bson type : %d".

(** The key of an element: [id] in an array.  Behind the largest [long] there is none. *)
Definition element_key (array : bool) (key : list Z) : res value :=
  if array then
    let n := strtol 10 key in
    if n =? 2 ^ 63 - 1 then Ub else Ok (VInt (s32 (n + 1)))
  else Ok (VStr key).

(** The loop of [unpack_dict] over the elements. *)
Fixpoint elements_loop (fuel : nat) (dict : bson_reader -> bool -> res (value * bson_reader)) (array : bool)
    (t : bson_reader) (l : list (value * value)) : res (list (value * value)) :=
  match fuel with
  | O => Ub
  | S fuel =>
      if br_size t =? 0 then Ok l
      else
        '(bt, t) ← read_byte t;
        '(key, klen, t) ← read_cstring t;
        key ← bytes_at key klen;
        key ← element_key array key;
        '(v, t) ← read_value dict bt t;
        elements_loop fuel dict array t (raw_set l key v)
  end.

(** [unpack_dict]; [fuel] bounds the levels of documents. *)
Fixpoint unpack_dict (fuel : nat) (br : bson_reader) (array : bool) : res (value * bson_reader) :=
  match fuel with
  | O => Ub
  | S fuel =>
      '(sz, br) ← read_int32 br;
      '(bytes, br) ← read_bytes br (s32 (sz - 5));
      '(end_, br) ← read_byte br;
      if negb (end_ =? 0) then Err "Invalid document end"
      else
        let t := Reader bytes (s32 (sz - 5)) in
        l ← elements_loop (S (Z.to_nat (br_size t))) (unpack_dict fuel) array t [];
        Ok (VTable (border l) l, br)
  end.

Definition get_length (data : list Z) : res Z := w ← lift (slice data 0 4); Ok (s32 (le_value w)).

(** [ldecode] of a userdata or of a pointer to a block that is not null: every level of
    documents takes five bytes or more. *)
Definition ldecode : res value :=
  len ← get_length mem;
  '(v, _) ← unpack_dict (S (Z.to_nat len)) (Reader 0 len) false;
  Ok v.

(** ** Replacing fields *)

(** A turn of the loop of [lmakeindex]: the reader behind an element, and the element's key
    and id if it has a fixed size. *)
Definition index_turn (br : bson_reader) : res (option (list Z * Z) * bson_reader) :=
  '(bt, br) ← read_byte br;
  '(key, klen, br) ← read_cstring br;
  '(field_size, br) ← (
    if is_one_of bt [BSON_INT64; BSON_TIMESTAMP; BSON_DATE; BSON_REAL] then Ok (8, br)
    else if bt =? BSON_BOOLEAN then Ok (1, br)
    else if is_one_of bt [BSON_JSCODE; BSON_SYMBOL; BSON_STRING] then
      '(sz, br) ← read_int32 br; '(_, br) ← read_bytes br sz; Ok (0, br)
    else if is_one_of bt [BSON_CODEWS; BSON_ARRAY; BSON_DOCUMENT] then
      '(sz, br) ← read_int32 br; '(_, br) ← read_bytes br (s32 (sz - 4)); Ok (0, br)
    else if bt =? BSON_BINARY then
      '(sz, br) ← read_int32 br; '(_, br) ← read_bytes br (s32 (sz + 1)); Ok (0, br)
    else if bt =? BSON_OBJECTID then Ok (12, br)
    else if is_one_of bt [BSON_MINKEY; BSON_MAXKEY; BSON_NULL] then Ok (0, br)
    else if bt =? BSON_REGEX then
      '(_, _, br) ← read_cstring br; '(_, _, br) ← read_cstring br; Ok (0, br)
    else if bt =? BSON_INT32 then Ok (4, br)
    else if bt =? BSON_DBPOINTER then
      '(sz, br) ← read_int32 br; '(_, br) ← read_bytes br (s32 (sz + 12)); Ok (0, br)
    else Err "Invalid bson type : %d");
  if 0 <? field_size then
    let id := Z.lor bt (s32 (Z.shiftl (br_ptr br) BSON_TYPE_SHIFT)) in
    '(_, br) ← read_bytes br field_size;
    key ← bytes_at key klen;
    Ok (Some (key, id), br)
  else Ok (None, br).

(** The loop of [lmakeindex], which ends when no bytes are left. *)
Fixpoint index_loop (fuel : nat) (br : bson_reader) (index : list (value * value)) : res (list (value * value)) :=
  if br_size br =? 0 then Ok index
  else
    match fuel with
    | O => Ub
    | S fuel =>
        '(entry, br) ← index_turn br;
        index_loop fuel br match entry with
                           | Some (key, id) => raw_set index (VStr key) (VInt id)
                           | None => index
                           end
    end.

(** [lmakeindex]: the user value of the document. *)
Definition lmakeindex (fuel : nat) : res (list (value * value)) :=
  len ← get_length mem;
  index_loop fuel (Reader 4 (s32 (len - 5))) [].

(** The bytes that [replace_object] writes over a value of the type. *)
Definition replace_object (type : Z) (v : value) : res (list Z) :=
  match v with
  | VStr data =>
      if zlen data <? 6 then Err "Type mismatch, need bson type %d"
      else if negb (bool_decide (take 2 data = [0; type])) then Err "Type mismatch, need bson type %d"
      else
        let data := drop 2 data in
        if type =? BSON_OBJECTID then
          if negb (zlen data =? 12) then Err "Invalid object id" else Ok data
        else if type =? BSON_DATE then
          if negb (zlen data =? 4) then Err "Invalid date" else Ok (le_bytes 8 (le_value data * 1000))
        else if type =? BSON_TIMESTAMP then
          if negb (zlen data =? 8) then Err "Invalid timestamp"
          else Ok (le_bytes 4 (le_value (take 4 data)) ++ le_bytes 4 (le_value (drop 4 data)))
        else Ok []
  | _ => Err "string expected"
  end.

(** [luaL_checknumber]: the bits, [None] for an error. *)
Variable checknumber : value -> option Z.

Definition toboolean (v : value) : bool := match v with VNil | VBool false => false | _ => true end.

(** The bytes that [lreplace] writes over a value of the type. *)
Definition replacement (type : Z) (v : value) : res (list Z) :=
  if type =? BSON_REAL then
    match checknumber v with Some d => Ok (le_bytes 8 d) | None => Err "number expected" end
  else if type =? BSON_BOOLEAN then Ok [if toboolean v then 1 else 0]
  else if is_one_of type [BSON_OBJECTID; BSON_DATE; BSON_TIMESTAMP] then replace_object type v
  else if type =? BSON_INT32 then
    match v with VInt i => Ok (le_bytes 4 (u32 i)) | _ => Err "%f must be a 32bit integer " end
  else if type =? BSON_INT64 then
    match v with VInt i => Ok (le_bytes 8 (u64 i)) | _ => Err "%f must be a 64bit integer " end
  else Err "Can't replace type %d".

(** [lreplace] of the field [key]: the memory of the document. *)
Definition lreplace (index : option (list (value * value))) (key v : value) : res (list Z) :=
  match index with
  | None => Err "call makeindex first"
  | Some index =>
      match find (fun kv => raw_equal key kv.1) index with
      | Some (_, VInt id) =>
          l ← replacement (Z.land id (2 ^ BSON_TYPE_SHIFT - 1)) v;
          lift (memcpy mem (Z.shiftr id BSON_TYPE_SHIFT) l)
      | _ => Err "Can't replace key : %s"
      end
  end.
End decode.

(** ** Values of the special types *)

(** [ldate] and [ltimestamp] of integers; [inc] is the static counter. *)
Definition ldate (d : Z) : value := VStr (0 :: BSON_DATE :: le_bytes 4 (u32 d)).

Definition ltimestamp (d : Z) (i : option Z) (inc : Z) : value * Z :=
  match i with
  | None => (VStr (0 :: BSON_TIMESTAMP :: le_bytes 4 inc ++ le_bytes 4 (u32 d)), u32 (inc + 1))
  | Some i => (VStr (0 :: BSON_TIMESTAMP :: le_bytes 4 (u32 i) ++ le_bytes 4 (u32 d)), inc)
  end.

Definition lregex (re options : list Z) : value := VStr (0 :: BSON_REGEX :: re ++ 0 :: options ++ [0]).

Definition lbinary (s : list Z) : value := VStr (0 :: BSON_BINARY :: 0 :: s).

Definition hextoint (c : Z) : Z :=
  if (48 <=? c) && (c <=? 57) then c - 48
  else if (97 <=? c) && (c <=? 122) then c - 97 + 10
  else if (65 <=? c) && (c <=? 90) then c - 65 + 10
  else 0.

(** The loop of [lobjectid] over pairs of digits. *)
Fixpoint oid_bytes (str : list Z) : list Z :=
  match str with
  | a :: b :: str => u8 (Z.lor (Z.shiftl (hextoint a) 4) (hextoint b)) :: oid_bytes str
  | _ => []
  end.

(** [lobjectid] of a string. *)
Definition lobjectid (str : list Z) : res value :=
  if negb (zlen str =? 24) then Err "Invalid objectid %s" else Ok (VStr (0 :: BSON_OBJECTID :: oid_bytes str)).

(** [lobjectid] without an argument, at the time [ti] with the counter [oid_counter]. *)
Definition new_objectid (oid_header : list Z) (oid_counter ti : Z) : value * Z :=
  let byte v i := Z.land (Z.shiftr v i) 0xff in
  (VStr (0 :: BSON_OBJECTID :: [byte ti 24; byte ti 16; byte ti 8; byte ti 0] ++ oid_header ++
         [byte oid_counter 16; byte oid_counter 8; byte oid_counter 0]), u32 (oid_counter + 1)).

(** The hash of the host's name in [init_oid_header], of signed characters. *)
Fixpoint host_hash (name : list Z) (h : Z) : Z :=
  match name with
  | [] => h
  | c :: name =>
      let c := if c <? 128 then c else c - 256 in
      host_hash name (Z.lxor h (u32 (u32 (Z.shiftl h 5) + Z.shiftr h 2 + c)))
  end.

(** [init_oid_header]; [host] is what [gethostname] wrote, [addr] the address of [h]. *)
Definition init_oid_header (oid_header : list Z) (oid_counter : Z) (host : option (list Z)) (pid time addr : Z) : list Z * Z :=
  if negb (oid_counter =? 0) then (oid_header, oid_counter)
  else
    let h := match host with Some name => Z.lxor (host_hash name 0) (zlen name) | None => 0 end in
    let byte v i := Z.land (Z.shiftr v i) 0xff in
    let c := u32 (Z.lxor (Z.lxor h time) addr) in
    ([byte h 0; byte h 8; byte h 16; byte pid 0; byte pid 8], if c =? 0 then 1 else c).

(** A digit of [lsubtype]'s [hex]. *)
Definition hex_char (v : Z) : Z := if v <? 10 then 48 + v else 87 + v.

(** [lsubtype] of the bytes [buf] of the type: the name of the type and the values. *)
Definition lsubtype (subtype : Z) (buf : list Z) : res (string * list value) :=
  let sz := zlen buf in
  if subtype =? BSON_BINARY then
    match buf with
    | [] => Err "memory allocation error: block too big"
    | t :: s => Ok ("binary"%string, [VStr s; VInt t])
    end
  else if subtype =? BSON_OBJECTID then
    if negb (sz =? 12) then Err "Invalid object id"
    else Ok ("objectid"%string, [VStr (mjoin (map (fun b => [hex_char (Z.shiftr b 4); hex_char (Z.land b 0xf)]) buf))])
  else if subtype =? BSON_DATE then
    if negb (sz =? 4) then Err "Invalid date" else Ok ("date"%string, [VInt (s32 (le_value buf))])
  else if subtype =? BSON_TIMESTAMP then
    if negb (sz =? 8) then Err "Invalid timestamp"
    else Ok ("timestamp"%string, [VInt (le_value (drop 4 buf)); VInt (le_value (take 4 buf))])
  else if subtype =? BSON_REGEX then
    let sz := sz - 1 in
    if sz <? 0 then Err "memory allocation error: block too big"
    else
      let i := tail_length (rev (take (Z.to_nat sz) buf)) 0 in
      if i =? sz then Err "Invalid regex"
      else Ok ("regex"%string, [VStr (take (Z.to_nat (sz - i - 1)) buf); VStr (take (Z.to_nat i) (drop (Z.to_nat (sz - i)) buf))])
  else if subtype =? BSON_MINKEY then Ok ("minkey"%string, [])
  else if subtype =? BSON_MAXKEY then Ok ("maxkey"%string, [])
  else if subtype =? BSON_NULL then Ok ("nil"%string, [])
  else if is_one_of subtype [BSON_JSCODE; BSON_DBPOINTER; BSON_SYMBOL; BSON_CODEWS] then Ok ("unsupported"%string, [VStr buf])
  else Err "Invalid subtype %d".

(** [ltype]. *)
Definition ltype (v : value) : res (string * list value) :=
  match v with
  | VInt _ | VReal _ => Ok ("number"%string, [v])
  | VBool _ => Ok ("boolean"%string, [v])
  | VTable _ _ | VPairs _ => Ok ("table"%string, [v])
  | VNil => Ok ("nil"%string, [])
  | VStr (0 :: subtype :: buf) => lsubtype subtype buf
  | VStr _ => Ok ("string"%string, [v])
  | _ => Err "Invalid type %s"
  end.
