(* ===== verification/BsonEncode.v ===== *)
(** [lencode] of lib/bson/lua-bson.c writes the bytes of a reference encoding, however often
    the buffer grows. *)
From Stdlib Require Import String.
From S2P Require Import Prelude Bytes Buffer CStr Lua Bson.
#[local] Set Warnings "-register-all".

(** ** The buffer grows as it is needed *)

(** The content of the buffer is [c]. *)
Definition bs_holds (b : bson) (c : list Z) : Prop :=
  bs_size b = zlen c /\ DEFAULT_CAP <= bs_cap b < 2 ^ 31 /\ exists rest, bs_ptr b = c ++ rest /\ bs_cap b = zlen (c ++ rest).

(** [f] writes [l] behind the content, as long as it stays below 2^30 bytes. *)
Definition appends (f : bson -> res bson) (l : list Z) : Prop :=
  forall b c, bs_holds b c -> zlen c + zlen l < 2 ^ 30 -> exists b', f b = Ok b' /\ bs_holds b' (c ++ l).

Lemma grow_cap_spec fuel : forall cap need, 1 <= cap <= need -> need < 2 ^ 30 -> need < cap * 2 ^ Z.of_nat fuel ->
  exists cap', grow_cap fuel cap need = Some cap' /\ need < cap' < 2 ^ 31.
Proof.
  induction fuel as [|fuel IH]; intros cap need Hc Hn Hf; [rewrite Z.mul_1_r in Hf; lia|]. cbn [grow_cap].
  rewrite Nat2Z.inj_succ, Z.pow_succ_r in Hf by lia.
  destruct (Z.leb_spec (2 ^ 31) (cap * 2)); [lia|]. destruct (Z.leb_spec (cap * 2) need); [|exists (cap * 2); split; [done|lia]].
  apply IH; lia.
Qed.

Section encode.
Variable junk : Z.

Lemma bson_create_holds : bs_holds (bson_create junk) [].
Proof. split; [done|]. split; [done|]. by exists (replicate 64 junk). Qed.

Lemma bson_reserve_holds b c sz : bs_holds b c -> 0 <= sz -> zlen c + sz < 2 ^ 30 ->
  exists b', bson_reserve junk b sz = Ok b' /\ bs_holds b' c /\ zlen c + sz <= bs_cap b'.
Proof.
  intros (Hsize & Hcap & rest & Hptr & Hlen) Hsz Hmax. pose proof (zlen_nonneg c). unfold bson_reserve. rewrite Hsize.
  destruct (Z.leb_spec (2 ^ 31) (zlen c + sz)); [lia|]. destruct (Z.leb_spec (zlen c + sz) (bs_cap b)) as [Hle|Hgt].
  - exists b. split; [done|]. split; [|done]. split; [done|]. split; [done|]. by exists rest.
  - unfold DEFAULT_CAP in *. destruct (grow_cap_spec 32 (bs_cap b) (zlen c + sz)) as (cap & -> & Hnew); [lia|lia|change (2 ^ Z.of_nat 32) with (2 ^ 32); lia|].
    cbn [lift mbind res_bind]. eexists. split; [done|]. split; [|cbn; lia]. split; [done|]. cbn [bs_cap bs_ptr]. unfold DEFAULT_CAP. split; [lia|].
    exists (replicate (Z.to_nat (cap - zlen c)) junk). rewrite Hptr.
    assert (take (Z.to_nat (zlen c)) (c ++ rest) = c) as -> by (unfold zlen; by rewrite Nat2Z.id, take_app_length).
    split; [done|]. rewrite zlen_app, zlen_replicate. lia.
Qed.

Lemma write_bytes_appends l : appends (write_bytes junk l) l.
Proof.
  intros b c Hb Hmax. pose proof (zlen_nonneg l). destruct (bson_reserve_holds b c (zlen l) Hb) as (b1 & E & (Hsize & Hcap & rest & Hptr & Hlen) & Hroom); [lia|lia|].
  unfold write_bytes. rewrite E. cbn [mbind res_bind]. rewrite Hptr, Hsize. rewrite zlen_app in Hlen. rewrite memcpy_at by lia. cbn [lift mbind res_bind].
  eexists. split; [done|]. split; [cbn; by rewrite zlen_app|]. split; [done|]. exists (drop (length l) rest). cbn [bs_ptr bs_cap]. rewrite put_assoc. split; [done|].
  rewrite !zlen_app, zlen_drop_length by lia. lia.
Qed.

Lemma appends_bind f g l k : appends f l -> appends g k -> appends (fun b => f b ≫= g) (l ++ k).
Proof.
  intros Hf Hg b c Hb Hmax. pose proof (zlen_nonneg k). rewrite zlen_app in Hmax. destruct (Hf b c Hb) as (b1 & -> & Hb1); [lia|].
  cbn [mbind res_bind]. destruct (Hg b1 _ Hb1) as (b2 & E & Hb2); [rewrite zlen_app; lia|]. exists b2. split; [done|]. by rewrite app_assoc.
Qed.

Lemma appends_nil : appends Ok [].
Proof. intros b c Hb _. exists b. by rewrite app_nil_r. Qed.

Lemma appends_ext f g l : appends f l -> (forall b, g b = f b) -> appends g l.
Proof. intros Hf H b c. rewrite H. apply Hf. Qed.

(** A block whose length is written when it is complete. *)
Lemma appends_block f (n : bson -> Z -> Z) N l : appends f l ->
  (forall b c, bs_holds b c -> forall d w, c = d ++ w ++ l -> zlen w = 4 -> n b (zlen d) = N) ->
  appends (fun b => '(b, off) ← reserve_length junk b; b ← f b; write_length (n b off) off b) (le_bytes 4 (u32 N) ++ l).
Proof.
  intros Hf Hn b c Hb Hmax. rewrite zlen_app, zlen_le_word in Hmax. pose proof (zlen_nonneg l). pose proof (zlen_nonneg c).
  destruct (bson_reserve_holds b c 4 Hb) as (b1 & E & (Hsize & Hcap & rest & Hptr & Hlen) & Hroom); [lia|lia|].
  unfold reserve_length. rewrite E. cbn [mbind res_bind]. rewrite (proj1 Hb). set (w := take 4 rest). rewrite zlen_app in Hlen.
  assert (zlen w = 4) as Hw by (subst w; unfold zlen in *; rewrite length_take; lia).
  destruct (Hf (BsonBuf (bs_size b1 + 4) (bs_cap b1) (bs_ptr b1)) (c ++ w)) as (b2 & E2 & (Hsize2 & Hcap2 & rest2 & Hptr2 & Hlen2)).
  { split; [cbn; rewrite zlen_app; lia|]. split; [done|]. exists (drop 4 rest). cbn [bs_ptr bs_cap]. subst w. rewrite <-app_assoc, take_drop.
    split; [done|]. rewrite zlen_app. lia. }
  { rewrite zlen_app. lia. }
  rewrite E2. cbn [mbind res_bind]. rewrite (Hn b2 ((c ++ w) ++ l)) with (w := w); [|split; [done|]; split; [done|]; by exists rest2|by rewrite app_assoc|done].
  unfold write_length. rewrite Hptr2, <-!app_assoc.
  rewrite (memcpy_at c) by (done || (rewrite zlen_le_word, !zlen_app; pose proof (zlen_nonneg rest2); lia)). cbn [lift mbind res_bind].
  eexists. split; [done|]. split; [cbn [bs_size]; rewrite Hsize2, !zlen_app, zlen_le_word; lia|]. split; [done|]. exists rest2. cbn [bs_ptr bs_cap].
  unfold put. change (length (le_bytes 4 (u32 N))) with 4%nat. assert (drop 4 (w ++ l ++ rest2) = l ++ rest2) as ->.
  { replace 4%nat with (length w) by (unfold zlen in Hw; lia). apply drop_app_length. }
  rewrite <-!app_assoc. split; [done|]. rewrite Hlen2, !zlen_app, zlen_le_word. lia.
Qed.
End encode.

(** ** The reference encoding *)

(** Whether a string has a type of its own. *)
Definition special (s : list Z) : option (Z * list Z) :=
  match s with c :: subt :: rest => if c =? 0 then Some (subt, rest) else None | _ => None end.

Definition table_array (n : Z) (l : list (value * value)) : res bool := if 0 <? n then ends_at n l else Ok false.

Definition vtype (v : value) : Z :=
  match v with
  | VInt i => if is_32bit i then BSON_INT32 else BSON_INT64
  | VReal _ => BSON_REAL
  | VBool _ => BSON_BOOLEAN
  | VStr s => match special s with Some (subt, _) => subt | None => BSON_STRING end
  | VTable n l => match table_array n l with Ok true => BSON_ARRAY | _ => BSON_DOCUMENT end
  | _ => 0
  end.

Definition special_payload (subt : Z) (rest : list Z) : list Z :=
  if subt =? BSON_BINARY then le_bytes 4 (u32 (zlen rest - 1)) ++ rest
  else if subt =? BSON_DATE then le_bytes 8 (u64 (le_value rest * 1000))
  else rest.

Definition string_payload (s : list Z) : list Z :=
  match special s with
  | Some (subt, rest) => special_payload subt rest
  | None => le_bytes 4 (u32 (zlen s + 1)) ++ s ++ [0]
  end.

Definition key_bytes (k : value) : list Z :=
  match k with VStr s => s | VInt i => fmt_u (i - 1) | _ => [] end.

Definition document (body : list Z) : list Z := le_bytes 4 (u32 (zlen body + 5)) ++ body ++ [0].

(** [d] is the number of levels of tables. *)
Fixpoint payload (d : nat) (v : value) : list Z :=
  match v with
  | VInt i => if is_32bit i then le_bytes 4 (u32 i) else le_bytes 8 (u64 i)
  | VReal x => le_bytes 8 x
  | VBool b => [if b then 1 else 0]
  | VStr s => string_payload s
  | VTable n l =>
      match d with
      | O => []
      | S d => document (mjoin (map (fun kv => vtype kv.2 :: key_bytes kv.1 ++ 0 :: payload d kv.2) l))
      end
  | _ => []
  end.

Definition element (d : nat) (kv : value * value) : list Z := vtype kv.2 :: key_bytes kv.1 ++ 0 :: payload d kv.2.
Definition body (d : nat) (l : list (value * value)) : list Z := mjoin (map (element d) l).

Lemma payload_table d n l : payload (S d) (VTable n l) = document (body d l).
Proof. done. Qed.

(** ** Values with an encoding *)

(** The strings of the special types: as the functions of the library make them. *)
Inductive special_ok : Z -> list Z -> Prop :=
| so_binary t l : special_ok BSON_BINARY (t :: l)
| so_objectid l : zlen l = 12 -> special_ok BSON_OBJECTID l
| so_date l : zlen l = 4 -> special_ok BSON_DATE l
| so_timestamp l : zlen l = 8 -> special_ok BSON_TIMESTAMP l
| so_simple t : t = BSON_MINKEY \/ t = BSON_MAXKEY \/ t = BSON_NULL -> special_ok t []
| so_regex l k : ~ 0 ∈ l -> ~ 0 ∈ k -> special_ok BSON_REGEX (l ++ 0 :: k ++ [0])
| so_dbpointer l n : zlen l = n + 12 -> 0 <= n -> special_ok BSON_DBPOINTER (le_bytes 4 n ++ l)
| so_code t l : t = BSON_JSCODE \/ t = BSON_SYMBOL -> special_ok t (le_bytes 4 (zlen l) ++ l)
| so_codews l : special_ok BSON_CODEWS (le_bytes 4 (zlen l + 4) ++ l).

Definition string_ok (s : list Z) : Prop :=
  is_bytes s /\ match special s with Some (subt, rest) => special_ok subt rest | None => True end.

(** A key of a document, and of an array. *)
Definition key_ok (array : bool) (k : value) : Prop :=
  if array then exists i, k = VInt i /\ 1 <= i < 2 ^ 31
  else exists s, k = VStr s /\ ~ 0 ∈ s.

(** [bwf d v]: [v] has at most [d] levels of tables. *)
Inductive bwf : nat -> value -> Prop :=
| bwf_int d i : - 2 ^ 63 <= i < 2 ^ 63 -> bwf d (VInt i)
| bwf_real d x : 0 <= x < 2 ^ 64 -> bwf d (VReal x)
| bwf_bool d b : bwf d (VBool b)
| bwf_str d s : string_ok s -> bwf d (VStr s)
| bwf_table d n l array : table_array n l = Ok array -> distinct_keys l ->
    Forall (fun kv => key_ok array kv.1 /\ bwf d kv.2) l -> bwf (S d) (VTable n l).

Lemma u32_le_value l : is_bytes l -> zlen l <= 4 -> u32 (le_value l) = le_value l.
Proof.
  intros Hb Hl. pose proof (le_value_bound l Hb) as Hv. unfold u32. apply Z.mod_small. split; [lia|].
  eapply Z.lt_le_trans; [apply Hv|]. apply Z.pow_le_mono_r; lia.
Qed.

Lemma tail_length_spec k l : ~ 0 ∈ k -> forall i, tail_length (rev k ++ 0 :: l) i = i + zlen k.
Proof.
  induction k as [|c k IH] using rev_ind; intros Hk i; cbn [rev app tail_length]; [change (zlen (@nil Z)) with 0; rewrite Z.eqb_refl; lia|].
  rewrite not_elem_of_app, list_elem_of_singleton in Hk. rewrite rev_app_distr. cbn [rev app tail_length].
  destruct (Z.eqb_spec c 0); [naive_solver|]. rewrite IH by tauto. rewrite zlen_app. change (zlen [c]) with 1. lia.
Qed.

Lemma regex_split l k : ~ 0 ∈ k -> let str := l ++ 0 :: k ++ [0] in
  take (Z.to_nat (zlen str - 1)) str = l ++ 0 :: k /\ tail_length (rev (take (Z.to_nat (zlen str - 1)) str)) 0 = zlen k /\
  zlen str - 1 - zlen k - 1 = zlen l /\ take (Z.to_nat (zlen l)) str = l /\
  take (Z.to_nat (zlen k)) (drop (Z.to_nat (zlen str - 1 - zlen k)) str) = k.
Proof.
  intros Hk str. assert (zlen str = zlen l + zlen k + 2) as Hlen by (subst str; rewrite zlen_app, zlen_cons, zlen_app; change (zlen [0]) with 1; lia).
  assert (Z.to_nat (zlen str - 1) = length (l ++ 0 :: k)) as Hnat by (rewrite Hlen; rewrite length_app; cbn [length]; unfold zlen; lia).
  assert (Z.to_nat (zlen str - 1 - zlen k) = length (l ++ [0])) as Hnat2 by (rewrite Hlen, length_app; cbn [length]; unfold zlen; lia).
  assert (str = (l ++ 0 :: k) ++ [0]) as E1 by (subst str; by rewrite <-app_assoc).
  assert (take (Z.to_nat (zlen str - 1)) str = l ++ 0 :: k) as E by (rewrite Hnat, E1; apply take_app_length).
  rewrite E. split; [done|]. split.
  { rewrite rev_app_distr. cbn [rev]. rewrite <-app_assoc. cbn [app]. rewrite tail_length_spec by done. lia. }
  split; [lia|]. split; [subst str; unfold zlen; rewrite Nat2Z.id; apply take_app_length|].
  rewrite Hnat2. subst str. change (l ++ 0 :: k ++ [0]) with (l ++ [0] ++ k ++ [0]). rewrite (app_assoc l), drop_app_length. unfold zlen. by rewrite Nat2Z.id, take_app_length.
Qed.

Lemma special_u8 subt rest : special_ok subt rest -> is_u8 subt.
Proof.
  destruct 1 as [t l|l Hl|l Hl|l Hl|t Hs|l k Hl Hk|l n Hl Hn|t l Hs|l]; try (by split).
  - by destruct Hs as [->|[->| ->]].
  - by destruct Hs as [->| ->].
Qed.

(** ** Encoding *)
Section values.
Variable junk : Z.
Variable fmt_real : Z -> list Z.
Variable raw_array : list (value * value) -> bool.

Lemma append_key_appends type key : is_u8 type -> appends (append_key junk type key) (type :: key ++ [0]).
Proof.
  intros Ht. unfold append_key, write_byte, write_string. assert (u8 type = type) as -> by (unfold u8; apply Z.mod_small, Ht).
  apply (appends_bind _ _ [type] (key ++ [0])); apply write_bytes_appends.
Qed.

(** A key with its type before the bytes of a value. *)
Lemma append_keyed type key f l : is_u8 type -> appends f l ->
  appends (fun b => b ← append_key junk type key b; f b) (type :: key ++ 0 :: l).
Proof.
  intros Ht Hf. pose proof (appends_bind _ _ _ _ (append_key_appends type key Ht) Hf) as H. cbn [app] in H. by rewrite <-app_assoc in H.
Qed.

Lemma append_special_appends subt rest key : is_bytes rest -> special_ok subt rest ->
  appends (append_special junk subt rest key) (subt :: key ++ 0 :: special_payload subt rest).
Proof.
  intros Hb Hok.
  pose proof (special_u8 _ _ Hok) as Ht.
  unfold append_special. apply append_keyed; [done|]. destruct Hok as [t l|l Hl|l Hl|l Hl|t Hs|l k Hl Hk|l n Hl Hn|t l Hs|l].
  - change (special_payload BSON_BINARY (t :: l)) with (le_bytes 4 (u32 (zlen (t :: l) - 1)) ++ t :: l).
    unfold write_binary. eapply appends_ext; [apply (appends_block junk (write_bytes junk (t :: l)) (fun _ _ => zlen (t :: l) - 1)); [apply write_bytes_appends|done]|done].
  - change (special_payload BSON_OBJECTID l) with l. eapply appends_ext; [apply write_bytes_appends|]. intros b. cbn. by rewrite Hl.
  - change (special_payload BSON_DATE l) with (le_bytes 8 (u64 (le_value l * 1000))). eapply appends_ext; [apply write_bytes_appends|].
    intros b. cbn -[le_bytes]. by rewrite Hl.
  - change (special_payload BSON_TIMESTAMP l) with l.
    pose proof (appends_bind _ _ _ _ (write_bytes_appends junk (le_bytes 4 (u32 (le_value (take 4 l))))) (write_bytes_appends junk (le_bytes 4 (u32 (le_value (drop 4 l)))))) as H.
    assert (zlen (take 4 l) = 4 /\ zlen (drop 4 l) = 4) as [H1 H2] by (unfold zlen in *; rewrite length_take, length_drop; lia).
    rewrite !u32_le_value in H by (try lia; by apply Forall_take || by apply Forall_drop).
    rewrite !le_bytes_all, take_drop in H by (try done; by apply Forall_take || by apply Forall_drop).
    eapply appends_ext; [exact H|]. intros b. cbn -[le_bytes take drop]. rewrite Hl. cbn -[le_bytes take drop]. unfold write_int32.
    rewrite !u32_le_value by (try lia; by apply Forall_take || by apply Forall_drop).
    by rewrite !le_bytes_all by (try done; by apply Forall_take || by apply Forall_drop).
  - assert (special_payload t [] = []) as -> by (destruct Hs as [->|[->| ->]]; done). eapply appends_ext; [apply appends_nil|].
    intros b. by destruct Hs as [->|[->| ->]].
  - change (special_payload BSON_REGEX (l ++ 0 :: k ++ [0])) with (l ++ 0 :: k ++ [0]).
    pose proof (appends_bind _ _ _ _ (write_bytes_appends junk (l ++ [0])) (write_bytes_appends junk (k ++ [0]))) as H. rewrite <-app_assoc in H.
    eapply appends_ext; [exact H|]. intros b.
    change (append_regex junk (l ++ 0 :: k ++ [0]) b = (b ← write_string junk l b; write_string junk k b)). unfold append_regex.
    destruct (regex_split l k Hk) as (E1 & E2 & E3 & E4 & E5). pose proof (zlen_nonneg l). pose proof (zlen_nonneg k).
    set (str := l ++ 0 :: k ++ [0]) in *. rewrite E2. rewrite (proj2 (Z.ltb_ge (zlen str - 1) 0)), E3, (proj2 (Z.ltb_ge (zlen l) 0)) by lia. by rewrite E4, E5.
  - change (special_payload BSON_DBPOINTER ?x) with x. eapply appends_ext; [apply write_bytes_appends|done].
  - assert (forall x, special_payload t x = x) as -> by (destruct Hs as [->| ->]; done). eapply appends_ext; [apply write_bytes_appends|].
    intros b. by destruct Hs as [->| ->].
  - change (special_payload BSON_CODEWS ?x) with x. eapply appends_ext; [apply write_bytes_appends|done].
Qed.

Lemma append_string_appends str key : string_ok str ->
  appends (append_string junk str key) (vtype (VStr str) :: key ++ 0 :: string_payload str).
Proof.
  intros [Hb Hok]. unfold vtype, string_payload. destruct (special str) as [[subt rest]|] eqn:E.
  - assert (str = 0 :: subt :: rest) as ->.
    { destruct str as [|c [|t r]]; try done. cbn [special] in E. destruct (Z.eqb_spec c 0) as [->|]; [by injection E as -> ->|done]. }
    apply append_special_appends; [|done]. by do 2 apply Forall_cons_1, proj2 in Hb.
  - assert (forall b, append_string junk str key b = (b ← append_key junk BSON_STRING key b;
      '(b, off) ← reserve_length junk b; b ← write_string junk str b; write_length (zlen str + 1) off b)) as Heq.
    { intros b. destruct str as [|c [|t r]]; try done; destruct c; done. }
    eapply appends_ext; [|exact Heq]. apply append_keyed; [by split|].
    apply (appends_block junk (write_string junk str) (fun _ _ => zlen str + 1)); [apply write_bytes_appends|done].
Qed.

Lemma pack_document_appends loop depth l : depth <= MAX_DEPTH -> appends loop l ->
  appends (pack_document junk loop depth) (document l).
Proof.
  intros Hd Hl. unfold document. replace (zlen l + 5) with (4 + zlen (l ++ [0])) by (rewrite zlen_app; change (zlen [0]) with 1; lia).
  eapply appends_ext; [apply (appends_block junk (fun b => b ← loop b; write_byte junk 0 b) (fun b off => bs_size b - off))|].
  - apply appends_bind; [done|]. apply write_bytes_appends.
  - intros b c (Hsize & _) d w -> Hw. rewrite Hsize, !zlen_app. lia.
  - intros b. unfold pack_document. destruct (Z.ltb_spec MAX_DEPTH depth); [lia|]. destruct (reserve_length junk b) as [[b1 off]| |]; [|done..].
    cbn [mbind res_bind]. by destruct (loop b1).
Qed.

Definition element_appends (one : value -> list Z -> bson -> res bson) (d : nat) (v : value) : Prop :=
  forall key, appends (one v key) (vtype v :: key ++ 0 :: payload d v).

Lemma simple_loop_appends one d array l : Forall (fun kv => key_ok array kv.1 /\ element_appends one d kv.2) l ->
  appends (simple_loop fmt_real one array l) (body d l).
Proof.
  induction 1 as [|[k v] l [Hk Hv] _ IH]; [apply appends_nil|]. change (body d ((k, v) :: l)) with (element d (k, v) ++ body d l).
  cbn [simple_loop]. apply appends_bind; [|exact IH]. cbn [fst snd] in *. eapply appends_ext; [apply (Hv (key_bytes k))|].
  intros b. unfold pack_dict_data. destruct array.
  - destruct Hk as (i & -> & Hi). cbn [is_number negb tointeger key_bytes]. unfold bson_numstr. by rewrite u32_small by (unfold is_u32; lia).
  - destruct Hk as (s & -> & _). done.
Qed.

Lemma append_one_appends d : forall fuel depth v, bwf d v -> (d <= fuel)%nat -> depth + Z.of_nat d <= MAX_DEPTH ->
  element_appends (append_one junk fmt_real raw_array fuel depth) d v.
Proof.
  induction d as [d IH] using lt_wf_ind. intros fuel depth v Hok Hfuel Hdepth key. destruct Hok as [d i Hi|d x Hx|d b|d s Hs|d n l array Ha Hd Hl].
  - assert (append_one junk fmt_real raw_array fuel depth (VInt i) key = append_integer junk i key) as -> by (by destruct fuel).
    assert (payload d (VInt i) = if is_32bit i then le_bytes 4 (u32 i) else le_bytes 8 (u64 i)) as -> by (by destruct d).
    unfold vtype, append_integer. destruct (is_32bit i); apply append_keyed; try (by split); apply write_bytes_appends.
  - assert (append_one junk fmt_real raw_array fuel depth (VReal x) key = append_real junk x key) as -> by (by destruct fuel).
    assert (payload d (VReal x) = le_bytes 8 x) as -> by (by destruct d). apply append_keyed; [by split|]. apply write_bytes_appends.
  - assert (append_one junk fmt_real raw_array fuel depth (VBool b) key = (fun bs => bs ← append_key junk BSON_BOOLEAN key bs; write_byte junk (if b then 1 else 0) bs)) as ->
      by (by destruct fuel).
    assert (payload d (VBool b) = [if b then 1 else 0]) as -> by (by destruct d). apply append_keyed; [by split|].
    destruct b; apply write_bytes_appends.
  - assert (append_one junk fmt_real raw_array fuel depth (VStr s) key = append_string junk s key) as -> by (by destruct fuel).
    assert (payload d (VStr s) = string_payload s) as -> by (by destruct d). by apply append_string_appends.
  - destruct fuel as [|fuel]; [lia|]. rewrite payload_table.
    assert (vtype (VTable n l) = if array then BSON_ARRAY else BSON_DOCUMENT) as -> by (unfold vtype; rewrite Ha; by destruct array).
    eapply appends_ext; [apply append_keyed; [by destruct array|apply pack_document_appends with (depth := depth + 1); [lia|]]|].
    + eapply (simple_loop_appends (append_one junk fmt_real raw_array fuel (depth + 1)) d array l). eapply Forall_impl; [exact Hl|].
      intros [k v] [Hk Hv]. split; [done|]. apply IH; [lia|done|lia|lia].
    + intros b. cbn [append_one]. unfold is_array_table. fold (table_array n l). rewrite Ha. done.
Qed.
End values.

Lemma lencode_spec junk fmt_real raw_array d n l : Forall (fun kv => key_ok false kv.1 /\ bwf d kv.2) l -> (d <= 128)%nat ->
  zlen (document (body d l)) < 2 ^ 30 -> lencode junk fmt_real raw_array (VTable n l) = Ok (document (body d l)).
Proof.
  intros Hl Hd Hmax. unfold lencode, pack_dict.
  destruct (pack_document_appends junk (simple_loop fmt_real (append_one junk fmt_real raw_array pack_fuel 0) false l) 0 (body d l))
    with (b := bson_create junk) (c := @nil Z) as (b & -> & Hsize & _ & rest & Hptr & _); [done| |apply bson_create_holds|change (zlen (@nil Z)) with 0; lia|].
  - apply simple_loop_appends. eapply Forall_impl; [exact Hl|]. intros kv [Hk Hv]. split; [done|].
    apply append_one_appends; [done|unfold pack_fuel, MAX_DEPTH; lia|unfold MAX_DEPTH; lia].
  - cbn [mbind res_bind app] in *. unfold to_userdata. rewrite Hptr, Hsize. pose proof (slice_behind [] (document (body d l)) rest 0 _ eq_refl eq_refl) as E. cbn [app] in E. by rewrite E.
Qed.
