(* ===== verification/BsonRoundtrip.v ===== *)
(** The round trip of documents through lib/bson/lua-bson.c: [ldecode] reads what [lencode]
    wrote. *)
From Stdlib Require Import String.
From S2P Require Import Prelude Bytes Buffer CStr Lua Bson BsonEncode.
#[local] Set Warnings "-register-all".

(** The same value up to the borders of tables, which a reader chooses. *)
Inductive same (border : list (value * value) -> Z) : value -> value -> Prop :=
| same_scalar v : match v with VTable _ _ => False | _ => True end -> same border v v
| same_table n l l' : Forall2 (fun kv kv' => kv'.1 = kv.1 /\ same border kv.2 kv'.2) l l' ->
    same border (VTable n l) (VTable (border l') l').

(** ** Reading what is at the reader *)
Definition fwd (t : bson_reader) (n : Z) : bson_reader := Reader (br_ptr t + n) (br_size t - n).

Section decode.
Variable mem : list Z.
Variable border : list (value * value) -> Z.

(** [l] is at the reader, which has at least these bytes, before [rest]. *)
Definition at_reader (t : bson_reader) (l rest : list Z) : Prop :=
  rest_at mem (br_ptr t) (l ++ rest) /\ zlen l <= br_size t < 2 ^ 31.

Lemma skip_advance t n : 0 <= n <= br_size t -> br_size t < 2 ^ 31 -> skip t n = fwd t n.
Proof. intros Hn Ht. unfold skip, fwd. by rewrite s32_small by (unfold is_s32; lia). Qed.

Lemma at_split t l k rest : at_reader t (l ++ k) rest -> at_reader t l (k ++ rest) /\ at_reader (fwd t (zlen l)) k rest.
Proof.
  intros [Hr Hs]. rewrite zlen_app in Hs. pose proof (zlen_nonneg k). pose proof (zlen_nonneg l). rewrite <-app_assoc in Hr. split; (split; [|cbn; lia]); [done|].
  cbn [fwd br_ptr]. by eapply rest_skip.
Qed.

Lemma check_at t l rest n : at_reader t l rest -> n <= zlen l -> check_reader t n = Ok tt.
Proof. intros [_ Hs] Hn. unfold check_reader. destruct (Z.ltb_spec (br_size t) n); [lia|done]. Qed.

Lemma advance_advance t n m : fwd (fwd t n) m = fwd t (n + m).
Proof. unfold fwd. cbn. f_equal; lia. Qed.

Lemma read_byte_at t c rest : at_reader t [c] rest -> read_byte mem t = Ok (c, fwd t 1).
Proof.
  intros H. unfold read_byte. rewrite (check_at _ _ _ 1 H) by done. cbn [mbind res_bind]. destruct H as [Hr Hs]. change (zlen [c]) with 1 in Hs.
  apply rest_cons in Hr as [-> _]. cbn [lift mbind res_bind]. by rewrite skip_advance by lia.
Qed.

Lemma slice_at_reader t l rest : at_reader t l rest -> slice mem (br_ptr t) (zlen l) = Some l.
Proof. intros [Hr _]. by apply (slice_prefix _ _ _ _ _ Hr). Qed.

Lemma bytes_at_reader t l rest : at_reader t l rest -> bytes_at mem (br_ptr t) (zlen l) = Ok l.
Proof.
  intros H. unfold bytes_at. pose proof (zlen_nonneg l). destruct (Z.ltb_spec (zlen l) 0); [lia|]. by rewrite (slice_at_reader _ _ _ H).
Qed.

Lemma read_int32_at t v rest : at_reader t (le_bytes 4 (u32 v)) rest -> is_s32 v -> read_int32 mem t = Ok (v, fwd t 4).
Proof.
  intros H Hv. unfold read_int32. rewrite (check_at _ _ _ 4 H) by (by rewrite zlen_le_word). cbn [mbind res_bind].
  pose proof (slice_at_reader _ _ _ H) as E. rewrite zlen_le_word in E. change (Z.of_nat 4) with 4 in E. rewrite E. cbn [lift mbind res_bind].
  rewrite le_value_le_bytes by (apply Z.mod_pos_bound; lia). rewrite s32_u32 by done.
  destruct H as [_ Hs]. rewrite zlen_le_word in Hs. by rewrite skip_advance by lia.
Qed.

Lemma read_word64_at t v rest : at_reader t (le_bytes 8 v) rest -> 0 <= v < 2 ^ 64 -> read_word64 mem t = Ok (v, fwd t 8).
Proof.
  intros H Hv. unfold read_word64. rewrite (check_at _ _ _ 8 H) by (by rewrite zlen_le_word). cbn [mbind res_bind].
  pose proof (slice_at_reader _ _ _ H) as E. rewrite zlen_le_word in E. change (Z.of_nat 8) with 8 in E. rewrite E. cbn [lift mbind res_bind].
  rewrite le_value_le_bytes by (change (8 * Z.of_nat 8) with 64; lia).
  destruct H as [_ Hs]. rewrite zlen_le_word in Hs. by rewrite skip_advance by lia.
Qed.

Lemma s64_u64 v : - 2 ^ 63 <= v < 2 ^ 63 -> s64 (u64 v) = v.
Proof. intros Hv. unfold s64, u64. Z.div_mod_to_equations. lia. Qed.

Lemma read_int64_at t v rest : at_reader t (le_bytes 8 (u64 v)) rest -> - 2 ^ 63 <= v < 2 ^ 63 -> read_int64 mem t = Ok (v, fwd t 8).
Proof.
  intros H Hv. unfold read_int64. rewrite (read_word64_at _ _ _ H) by (apply Z.mod_pos_bound; lia). cbn [mbind res_bind]. by rewrite s64_u64.
Qed.

Lemma read_bytes_at t l rest n : at_reader t l rest -> n = zlen l -> read_bytes t n = Ok (br_ptr t, fwd t n).
Proof.
  intros H ->. unfold read_bytes. rewrite (check_at _ _ _ (zlen l) H) by lia. cbn [mbind res_bind]. destruct H as [_ Hs]. pose proof (zlen_nonneg l).
  by rewrite skip_advance by lia.
Qed.

Lemma cstring_loop_at t l rest : ~ 0 ∈ l -> forall fuel i, (length l < fuel)%nat ->
  rest_at mem (br_ptr t + i) (l ++ 0 :: rest) -> i + zlen l < br_size t -> cstring_loop mem fuel t i = Ok (i + zlen l).
Proof.
  induction l as [|c l IH]; intros H0 fuel i Hfuel Hr Hi; (destruct fuel as [|fuel]; [cbn in Hfuel; lia|]); cbn [cstring_loop].
  - change (zlen (@nil Z)) with 0 in *. destruct (Z.eqb_spec i (br_size t)); [lia|]. cbn [app] in Hr. apply rest_cons in Hr as [-> _].
    cbn [lift mbind res_bind]. rewrite Z.eqb_refl. f_equal. lia.
  - rewrite zlen_cons in *. pose proof (zlen_nonneg l). destruct (Z.eqb_spec i (br_size t)); [lia|]. cbn [app] in Hr. apply rest_cons in Hr as [-> Hr].
    cbn [lift mbind res_bind]. rewrite not_elem_of_cons in H0. destruct (Z.eqb_spec c 0); [lia|]. cbn [length] in Hfuel.
    rewrite IH; [f_equal; lia|tauto|lia|by replace (br_ptr t + (i + 1)) with (br_ptr t + i + 1) by lia|lia].
Qed.

Lemma read_cstring_at t l rest : at_reader t (l ++ [0]) rest -> ~ 0 ∈ l -> read_cstring mem t = Ok (br_ptr t, zlen l, fwd t (zlen l + 1)).
Proof.
  intros [Hr Hs] H0. rewrite zlen_app in Hs. change (zlen [0]) with 1 in Hs. rewrite <-app_assoc in Hr. pose proof (zlen_nonneg l).
  apply rest_at_zlen in Hr as Hz. rewrite zlen_app in Hz. pose proof (zlen_nonneg ([0] ++ rest)).
  unfold read_cstring. rewrite (cstring_loop_at t l rest H0) by (try (rewrite Z.add_0_r; exact Hr); unfold zlen in *; lia).
  cbn [mbind res_bind]. rewrite Z.add_0_l. by rewrite skip_advance by lia.
Qed.

Lemma zlen_le4 v : zlen (le_bytes 4 v) = 4.
Proof. by rewrite zlen_le_word. Qed.

Lemma zlen_le8 v : zlen (le_bytes 8 v) = 8.
Proof. by rewrite zlen_le_word. Qed.

Lemma word_bytes l : is_bytes l -> zlen l = 4 -> le_bytes 4 (u32 (s32 (le_value l))) = l.
Proof.
  intros Hb Hl. pose proof (le_value_bound l Hb) as Hv. rewrite Hl in Hv.
  assert (u32 (s32 (le_value l)) = le_value l) as -> by (unfold u32, s32; Z.div_mod_to_equations; lia). by apply le_bytes_all.
Qed.

(** ** Scalars *)
Section scalars.
Variable dict : bson_reader -> bool -> res (value * bson_reader).

Definition reads (bt : Z) (l : list Z) (v : value) : Prop :=
  forall t rest, at_reader t l rest -> read_value mem dict bt t = Ok (v, fwd t (zlen l)).

Lemma make_object_at type t l rest n : is_u8 type -> at_reader t l rest -> n = zlen l ->
  make_object mem type (br_ptr t) n = Ok (VStr (0 :: type :: l)).
Proof.
  intros Ht H ->. unfold make_object. rewrite (bytes_at_reader _ _ _ H). cbn [mbind res_bind]. do 4 f_equal. unfold u8. apply Z.mod_small, Ht.
Qed.

Lemma reads_int i : - 2 ^ 63 <= i < 2 ^ 63 -> reads (vtype (VInt i)) (if is_32bit i then le_bytes 4 (u32 i) else le_bytes 8 (u64 i)) (VInt i).
Proof.
  intros Hi t rest H. unfold vtype. destruct (is_32bit i) eqn:E.
  - unfold is_32bit in E. change (read_value mem dict BSON_INT32 t) with ('(i, t) ← read_int32 mem t; Ok (VInt i, t)).
    rewrite (read_int32_at _ _ _ H) by (unfold is_s32; lia). done.
  - change (read_value mem dict BSON_INT64 t) with ('(i, t) ← read_int64 mem t; Ok (VInt i, t)). by rewrite (read_int64_at _ _ _ H).
Qed.

Lemma reads_special subt l : is_bytes l -> special_ok subt l -> zlen l < 2 ^ 30 -> reads subt (special_payload subt l) (VStr (0 :: subt :: l)).
Proof.
  intros Hb Hok Hmax t rest H. pose proof (special_u8 _ _ Hok) as Hu. destruct Hok as [c l|l Hl|l Hl|l Hl|s Hs|l k Hl Hk|l n Hl Hn|s l Hs|l].
  - change (special_payload BSON_BINARY (c :: l)) with (le_bytes 4 (u32 (zlen (c :: l) - 1)) ++ [c] ++ l) in *. rewrite zlen_cons in *.
    replace (1 + zlen l - 1) with (zlen l) in * by lia. pose proof (zlen_nonneg l).
    change (read_value mem dict BSON_BINARY t) with ('(sz, t) ← read_int32 mem t; '(subtype, t) ← read_byte mem t; '(ptr, t) ← read_bytes t sz;
      l ← bytes_at mem ptr sz; Ok (VStr (0 :: BSON_BINARY :: subtype :: l), t)).
    apply at_split in H as [H1 H]. rewrite zlen_le4 in H. apply at_split in H as [H2 H]. change (zlen [c]) with 1 in H.
    rewrite (read_int32_at _ _ _ H1) by (unfold is_s32; lia). cbn [mbind res_bind]. rewrite (read_byte_at _ _ _ H2). cbn [mbind res_bind].
    rewrite (read_bytes_at _ _ _ _ H eq_refl). cbn [mbind res_bind]. rewrite (bytes_at_reader _ _ _ H). cbn [mbind res_bind].
    rewrite !advance_advance, !zlen_app, zlen_le4. done.
  - change (special_payload BSON_OBJECTID l) with l in *.
    change (read_value mem dict BSON_OBJECTID t) with ('(ptr, t) ← read_bytes t 12; v ← make_object mem BSON_OBJECTID ptr 12; Ok (v, t)).
    rewrite (read_bytes_at _ _ _ 12 H) by done. cbn [mbind res_bind]. rewrite (make_object_at _ _ _ _ _ Hu H) by done. cbn [mbind res_bind]. by rewrite Hl.
  - change (special_payload BSON_DATE l) with (le_bytes 8 (u64 (le_value l * 1000))) in *.
    change (read_value mem dict BSON_DATE t) with ('(date, t) ← read_int64 mem t; Ok (VStr (0 :: BSON_DATE :: le_bytes 4 (u32 (Z.quot date 1000))), t)).
    pose proof (le_value_bound l Hb) as Hv. rewrite Hl in Hv. rewrite (read_int64_at _ _ _ H) by lia. cbn [mbind res_bind].
    rewrite Z.quot_mul by lia. rewrite u32_le_value, le_bytes_all by (done || lia). by rewrite zlen_le8.
  - change (special_payload BSON_TIMESTAMP l) with l in *.
    change (read_value mem dict BSON_TIMESTAMP t) with ('(inc, t) ← read_int32 mem t; '(ts, t) ← read_int32 mem t;
      Ok (VStr (0 :: BSON_TIMESTAMP :: le_bytes 4 (u32 inc) ++ le_bytes 4 (u32 ts)), t)).
    rewrite <-(take_drop 4 l) in Hb, H. apply Forall_app in Hb as [Hb1 Hb2].
    assert (zlen (take 4 l) = 4 /\ zlen (drop 4 l) = 4) as [H1 H2] by (unfold zlen in *; rewrite length_take, length_drop; lia).
    apply at_split in H as [Hr1 Hr2]. rewrite H1 in Hr2.
    rewrite <-(word_bytes (take 4 l)) in Hr1 by done. rewrite <-(word_bytes (drop 4 l)) in Hr2 by done.
    rewrite (read_int32_at _ _ _ Hr1) by apply s32_bound. cbn [mbind res_bind]. rewrite (read_int32_at _ _ _ Hr2) by apply s32_bound. cbn [mbind res_bind].
    rewrite !word_bytes, take_drop, advance_advance, Hl by done. done.
  - assert (special_payload s [] = []) as E by (destruct Hs as [->|[->| ->]]; done). rewrite E in *. change (zlen (@nil Z)) with 0.
    assert (read_value mem dict s t = Ok (VStr [0; s], t)) as -> by (destruct Hs as [->|[->| ->]]; done). unfold fwd. rewrite Z.add_0_r, Z.sub_0_r. by destruct t.
  - change (special_payload BSON_REGEX (l ++ 0 :: k ++ [0])) with (l ++ 0 :: k ++ [0]) in *. 
    change (read_value mem dict BSON_REGEX t) with ('(r1, rlen1, t) ← read_cstring mem t; '(r2, rlen2, t) ← read_cstring mem t;
      l1 ← bytes_at mem r1 rlen1; l2 ← bytes_at mem r2 rlen2; Ok (VStr (0 :: BSON_REGEX :: l1 ++ 0 :: l2 ++ [0]), t)).
    replace (l ++ 0 :: k ++ [0]) with ((l ++ [0]) ++ (k ++ [0])) in H by (by rewrite <-app_assoc).
    apply at_split in H as [H1 H2]. rewrite (read_cstring_at _ _ _ H1 Hl). cbn [mbind res_bind]. rewrite zlen_app in H2. change (zlen [0]) with 1 in H2.
    rewrite (read_cstring_at _ _ _ H2 Hk). cbn [mbind res_bind]. apply at_split in H1 as [H1 _]. apply at_split in H2 as [H2 _].
    rewrite (bytes_at_reader _ _ _ H1). cbn [mbind res_bind]. rewrite (bytes_at_reader _ _ _ H2). cbn [mbind res_bind].
    rewrite advance_advance, zlen_app, zlen_cons, zlen_app. change (zlen [0]) with 1. by rewrite <-Z.add_assoc.
  - change (special_payload BSON_DBPOINTER ?x) with x in *. rewrite zlen_app, zlen_le4 in Hmax.
    change (read_value mem dict BSON_DBPOINTER t) with ('(sz, t') ← read_int32 mem t; '(_, t') ← read_bytes t' (s32 (sz + 12));
      v ← make_object mem BSON_DBPOINTER (br_ptr t) (s32 (sz + 16)); Ok (v, t')).
    pose proof (make_object_at _ _ _ _ (n + 16) Hu H) as E. apply at_split in H as [H1 H]. rewrite zlen_le4 in H.
    rewrite <-(u32_small n) in H1 by (unfold is_u32; lia). rewrite (read_int32_at _ _ _ H1) by (unfold is_s32; lia). cbn [mbind res_bind].
    rewrite !s32_small by (unfold is_s32; lia). rewrite (read_bytes_at _ _ _ (n + 12) H) by lia. cbn [mbind res_bind].
    rewrite E by (rewrite zlen_app, zlen_le4; lia). cbn [mbind res_bind]. rewrite advance_advance, zlen_app, zlen_le4, Hl. done.
  - assert (forall x, special_payload s x = x) as Ep by (destruct Hs as [->| ->]; done). rewrite Ep in *. rewrite zlen_app, zlen_le4 in Hmax.
    assert (read_value mem dict s t = ('(sz, t') ← read_int32 mem t; '(_, t') ← read_bytes t' sz;
      v ← make_object mem s (br_ptr t) (s32 (sz + 4)); Ok (v, t'))) as -> by (destruct Hs as [->| ->]; done).
    pose proof (make_object_at _ _ _ _ (zlen l + 4) Hu H) as E. apply at_split in H as [H1 H]. rewrite zlen_le4 in H. pose proof (zlen_nonneg l).
    rewrite <-(u32_small (zlen l)) in H1 by (unfold is_u32; lia). rewrite (read_int32_at _ _ _ H1) by (unfold is_s32; lia). cbn [mbind res_bind].
    rewrite s32_small by (unfold is_s32; lia). rewrite (read_bytes_at _ _ _ (zlen l) H) by lia. cbn [mbind res_bind].
    rewrite E by (rewrite zlen_app, zlen_le4; lia). cbn [mbind res_bind]. by rewrite advance_advance, zlen_app, zlen_le4.
  - change (special_payload BSON_CODEWS ?x) with x in *. rewrite zlen_app, zlen_le4 in Hmax.
    change (read_value mem dict BSON_CODEWS t) with ('(sz, t') ← read_int32 mem t; '(_, t') ← read_bytes t' (s32 (sz - 4));
      v ← make_object mem BSON_CODEWS (br_ptr t) sz; Ok (v, t')).
    pose proof (make_object_at _ _ _ _ (zlen l + 4) Hu H) as E. apply at_split in H as [H1 H]. rewrite zlen_le4 in H. pose proof (zlen_nonneg l).
    rewrite <-(u32_small (zlen l + 4)) in H1 by (unfold is_u32; lia). rewrite (read_int32_at _ _ _ H1) by (unfold is_s32; lia). cbn [mbind res_bind].
    rewrite s32_small by (unfold is_s32; lia). rewrite (read_bytes_at _ _ _ (zlen l + 4 - 4) H) by lia. cbn [mbind res_bind].
    rewrite E by (rewrite zlen_app, zlen_le4; lia). cbn [mbind res_bind]. rewrite advance_advance, zlen_app, zlen_le4.
    by replace (4 + (zlen l + 4 - 4)) with (4 + zlen l) by lia.
Qed.

Lemma special_Some str subt rest : special str = Some (subt, rest) -> str = 0 :: subt :: rest.
Proof.
  destruct str as [|c [|t r]]; try done. cbn [special]. destruct (Z.eqb_spec c 0) as [->|]; [by intros [= -> ->]|done].
Qed.

Lemma zlen_special_payload subt rest : special_ok subt rest -> zlen rest <= zlen (special_payload subt rest).
Proof.
  intros Hok. unfold special_payload. pose proof (zlen_nonneg rest). destruct (Z.eqb_spec subt BSON_BINARY); [rewrite zlen_app, zlen_le4; lia|].
  destruct (Z.eqb_spec subt BSON_DATE) as [->|]; [|lia]. rewrite zlen_le8. inversion Hok; naive_solver lia.
Qed.

Lemma reads_string str : string_ok str -> zlen (string_payload str) < 2 ^ 30 -> reads (vtype (VStr str)) (string_payload str) (VStr str).
Proof.
  intros [Hb Hok] Hmax. unfold vtype, string_payload in *. destruct (special str) as [[subt rest]|] eqn:E.
  - apply special_Some in E as ->. pose proof (zlen_special_payload _ _ Hok). apply reads_special; [by do 2 apply Forall_cons_1, proj2 in Hb|done|lia].
  - intros t rest H. pose proof (zlen_nonneg str). rewrite !zlen_app, zlen_le4 in Hmax.
    change (read_value mem dict BSON_STRING t) with ('(sz, t) ← read_int32 mem t; if sz <=? 0 then Err "Invalid bson string , length = %d"
      else '(ptr, t) ← read_bytes t sz; l ← bytes_at mem ptr (sz - 1); Ok (VStr l, t)).
    apply at_split in H as [H1 H]. rewrite zlen_le4 in H. change (zlen [0]) with 1 in *. rewrite (read_int32_at _ _ _ H1) by (unfold is_s32; lia). cbn [mbind res_bind].
    destruct (Z.leb_spec (zlen str + 1) 0); [lia|]. rewrite (read_bytes_at _ _ _ (zlen str + 1) H) by (by rewrite zlen_app). cbn [mbind res_bind].
    apply at_split in H as [H _]. replace (zlen str + 1 - 1) with (zlen str) by lia. rewrite (bytes_at_reader _ _ _ H). cbn [mbind res_bind].
    by rewrite advance_advance, !zlen_app, zlen_le4.
Qed.

Lemma reads_scalar d v : bwf d v -> match v with VTable _ _ => False | _ => True end -> zlen (payload d v) < 2 ^ 30 -> reads (vtype v) (payload d v) v.
Proof.
  intros Hok Hs Hmax. destruct Hok as [d i Hi|d x Hx|d b|d str Hstr|]; [| | | |done].
  - assert (payload d (VInt i) = if is_32bit i then le_bytes 4 (u32 i) else le_bytes 8 (u64 i)) as -> by (by destruct d). by apply reads_int.
  - assert (payload d (VReal x) = le_bytes 8 x) as -> by (by destruct d). intros t rest H.
    change (read_value mem dict _ t) with ('(d, t) ← read_word64 mem t; Ok (VReal d, t)). by rewrite (read_word64_at _ _ _ H).
  - assert (payload d (VBool b) = [if b then 1 else 0]) as -> by (by destruct d). intros t rest H.
    change (read_value mem dict _ t) with ('(b, t) ← read_byte mem t; Ok (VBool (negb (b =? 0)), t)). rewrite (read_byte_at _ _ _ H). by destruct b.
  - assert (payload d (VStr str) = string_payload str) as E by (by destruct d). rewrite E in *. by apply reads_string.
Qed.
End scalars.

(** ** Documents *)
Lemma key_bytes_at array k : key_ok array k -> ~ 0 ∈ key_bytes k /\ element_key array (key_bytes k) = Ok k.
Proof.
  destruct array; cbn [key_ok element_key].
  - intros (i & -> & Hi). cbn [key_bytes]. unfold fmt_u. split.
    + intros H0. pose proof (print_digits_chars 10 10 (i - 1) ltac:(lia) ltac:(lia) [] (Forall_nil_2 _)) as Hc.
      rewrite Forall_forall in Hc. specialize (Hc 0 H0). lia.
    + rewrite strtol_print by (change (Z.of_nat 10) with 10; lia). cbv zeta.
      rewrite (proj2 (Z.eqb_neq _ _)), s32_small by (unfold is_s32; lia). do 2 f_equal. lia.
  - intros (str & -> & H0). done.
Qed.

(** A value is read up to borders. *)
Definition reads_same (dict : bson_reader -> bool -> res (value * bson_reader)) (d : nat) (v : value) : Prop :=
  forall t rest, at_reader t (payload d v) rest ->
    exists v', same border v v' /\ read_value mem dict (vtype v) t = Ok (v', fwd t (zlen (payload d v))).

Definition pair_same (kv kv' : value * value) : Prop := kv'.1 = kv.1 /\ same border kv.2 kv'.2.

Lemma same_not_nil d v v' : bwf d v -> same border v v' -> is_nil v' = false.
Proof. intros Hv Hs. destruct Hs; [|done]. by destruct Hv. Qed.

Lemma elements_loop_at dict d array l : Forall (fun kv => key_ok array kv.1 /\ bwf d kv.2) l -> Forall (fun kv => reads_same dict d kv.2) l ->
  distinct_keys l -> forall acc t rest fuel, Forall (fun q => forall p, p ∈ acc -> raw_equal q.1 p.1 = false) l ->
  at_reader t (body d l) rest -> br_size t = zlen (body d l) -> zlen (body d l) < Z.of_nat fuel ->
  exists l', Forall2 pair_same l l' /\ elements_loop mem fuel dict array t acc = Ok (acc ++ l').
Proof.
  induction l as [|[k v] l IH]; intros Hok Hreads Hd acc t rest fuel Hacc Ht Hsize Hfuel; (destruct fuel as [|fuel]; [exfalso; revert Hfuel; apply Z.le_ngt, zlen_nonneg|]); cbn [elements_loop].
  - rewrite Hsize. exists []. split; [constructor|]. by rewrite app_nil_r.
  - apply Forall_cons in Hok as [[Hk Hv] Hok]. apply Forall_cons in Hreads as [Hread Hreads]. apply Forall_cons in Hacc as [Hka Hacc].
    apply distinct_keys_cons in Hd as [Hdk Hd]. cbn [fst snd] in *. apply key_bytes_at in Hk as [H0 Hkey].
    change (body d ((k, v) :: l)) with (([vtype v] ++ (key_bytes k ++ [0] ++ payload d v)) ++ body d l) in *.
    rewrite (app_assoc (key_bytes k)) in *. rewrite zlen_app in Hsize, Hfuel. rewrite !zlen_app in Hsize, Hfuel. change (zlen [vtype v]) with 1 in *. change (zlen [0]) with 1 in *.
    pose proof (zlen_nonneg (key_bytes k)). pose proof (zlen_nonneg (payload d v)). pose proof (zlen_nonneg (body d l)).
    destruct (Z.eqb_spec (br_size t) 0); [lia|]. apply at_split in Ht as [Ht Hl]. apply at_split in Ht as [Hb1 Ht]. change (zlen [vtype v]) with 1 in Ht.
    apply at_split in Ht as [Hb2 Hb3]. rewrite (read_byte_at _ _ _ Hb1). cbn [mbind res_bind]. rewrite (read_cstring_at _ _ _ Hb2 H0). cbn [mbind res_bind].
    apply at_split in Hb2 as [Hb2 _]. rewrite (bytes_at_reader _ _ _ Hb2). cbn [mbind res_bind]. rewrite zlen_app in Hb3. change (zlen [0]) with 1 in Hb3.
    rewrite Hkey. cbn [mbind res_bind]. destruct (Hread _ _ Hb3) as (v' & Hsame & ->). cbn [mbind res_bind]. rewrite raw_set_new by (done || by eapply same_not_nil).
    rewrite !zlen_app in Hl. change (zlen [vtype v]) with 1 in Hl. change (zlen [0]) with 1 in Hl. rewrite !advance_advance.
    replace (1 + (zlen (key_bytes k) + 1) + zlen (payload d v)) with (1 + (zlen (key_bytes k) + 1 + zlen (payload d v))) by lia.
    destruct (IH Hok Hreads Hd (acc ++ [(k, v')]) (fwd t (1 + (zlen (key_bytes k) + 1 + zlen (payload d v)))) rest fuel) as (l' & Hl' & E); [|done|cbn [fwd br_size]; lia|lia|].
    { apply Forall_forall. intros q Hq p [Hp|Hp%list_elem_of_singleton]%elem_of_app; [rewrite Forall_forall in Hacc; by apply Hacc|].
      subst p. cbn [fst]. rewrite Forall_forall in Hdk. by apply Hdk. }
    exists ((k, v') :: l'). split; [by constructor|]. rewrite E. by rewrite <-app_assoc.
Qed.

Lemma zlen_document l : zlen (document l) = zlen l + 5.
Proof. unfold document. rewrite !zlen_app, zlen_le4. change (zlen [0]) with 1. lia. Qed.

Lemma zlen_payload_body d l kv : kv ∈ l -> zlen (payload d kv.2) < zlen (body d l).
Proof.
  induction 1 as [kv l|kv kv' l _ IH]; [|change (body d (kv' :: l)) with (element d kv' ++ body d l)].
  - change (body d (kv :: l)) with (element d kv ++ body d l). pose proof (zlen_nonneg (body d l)). unfold element. rewrite zlen_app, zlen_cons, zlen_app, zlen_cons.
    pose proof (zlen_nonneg (key_bytes kv.1)). lia.
  - rewrite zlen_app. pose proof (zlen_nonneg (element d kv')). lia.
Qed.

Lemma unpack_dict_at d : forall fuel array l t rest, Forall (fun kv => key_ok array kv.1 /\ bwf d kv.2) l -> distinct_keys l ->
  at_reader t (document (body d l)) rest -> zlen (document (body d l)) < Z.of_nat fuel -> zlen (document (body d l)) < 2 ^ 30 ->
  exists l', Forall2 pair_same l l' /\
    unpack_dict mem border fuel t array = Ok (VTable (border l') l', fwd t (zlen (document (body d l)))).
Proof.
  induction d as [d IH] using lt_wf_ind. intros fuel array l t rest Hok Hd Ht Hfuel Hmax. rewrite zlen_document in *.
  pose proof (zlen_nonneg (body d l)). destruct fuel as [|fuel]; [lia|]. cbn [unpack_dict]. unfold document in Ht.
  apply at_split in Ht as [Hb1 Ht]. rewrite zlen_le4 in Ht. rewrite (read_int32_at _ _ _ Hb1) by (unfold is_s32; lia). cbn [mbind res_bind].
  replace (zlen (body d l) + 5 - 5) with (zlen (body d l)) by lia. rewrite s32_small by (unfold is_s32; lia).
  apply at_split in Ht as [Hb2 Ht]. rewrite (read_bytes_at _ _ _ _ Hb2 eq_refl). cbn [mbind res_bind].
  rewrite (read_byte_at _ _ _ Ht). cbn [mbind res_bind br_size]. change (negb (0 =? 0)) with false. cbv iota.
  destruct (elements_loop_at (unpack_dict mem border fuel) d array l Hok) with (acc := @nil (value * value)) (fuel := S (Z.to_nat (zlen (body d l))))
    (t := Reader (br_ptr (fwd t 4)) (zlen (body d l))) (rest := [0] ++ rest) as (l' & Hl' & E); [|done| | |done|lia|].
  - apply Forall_forall. intros kv Hin t1 rest1 H1. pose proof (zlen_payload_body d l kv Hin) as Hsz. rewrite Forall_forall in Hok. destruct (Hok kv Hin) as [_ Hv].
    destruct kv as [k v]. cbn [snd] in *.
    destruct v as [|x|z|bits|p|str|n l1|l1|m|name]; try (eexists; split; [by apply same_scalar|eapply reads_scalar; [exact Hv|done|lia|exact H1]]).
    inversion Hv as [| | | |d' n' l1' array' Ha Hdk Hk]; subst. rewrite payload_table in *.
    destruct (IH d' ltac:(lia) fuel array' l1 t1 rest1 Hk Hdk H1) as (l' & Hl' & E); [lia|lia|].
    exists (VTable (border l') l'). split; [by constructor|]. unfold vtype. rewrite Ha. by destruct array'.
  - by apply Forall_forall; intros ? _ ? ?%not_elem_of_nil.
  - destruct Hb2 as [Hr Hs]. split; [exact Hr|cbn [br_size]; lia].
  - rewrite E. cbn [mbind res_bind app]. exists l'. split; [done|]. rewrite !advance_advance. by replace (4 + (zlen (body d l) + 1)) with (zlen (body d l) + 5) by lia.
Qed.
End decode.

(** ** The round trip *)


Definition bson_sample : list (value * value) :=
  let key s := VStr (bytes_of s) in
  [(key "_id", VStr (0 :: BSON_OBJECTID :: replicate 12 17)); (key "n", VInt (-5)); (key "big", VInt (2 ^ 40)); (key "x", VReal 4607182418800017408);
   (key "name", VStr (bytes_of "uboss")); (key "date", ldate 1444444444); (key "re", lregex (bytes_of "a*") (bytes_of "i"));
   (key "bin", lbinary [0; 1; 2]); (key "null", VStr [0; BSON_NULL]);
   (key "list", VTable 2 [(VInt 1, VBool true); (VInt 2, VTable 0 [(key "deep", VStr [])])])]%string.

Lemma bson_sample_wf : Forall (fun kv => key_ok false kv.1 /\ bwf 2 kv.2) bson_sample.
Proof.
  assert (forall s, bool_decide (is_bytes s) = true -> special s = None -> string_ok s) as Hplain
    by (intros s Hs E; split; [by apply bool_decide_eq_true in Hs|by rewrite E]).
  assert (forall t s, bool_decide (is_bytes (0 :: t :: s)) = true -> special_ok t s -> string_ok (0 :: t :: s)) as Hspecial
    by (intros t s Hs Hok; split; [by apply bool_decide_eq_true in Hs|done]).
  assert (forall l : list Z, bool_decide (0 ∈ l) = false -> ~ 0 ∈ l) as H0 by (intros l; by rewrite bool_decide_eq_false).
  assert (forall s : list Z, bool_decide (0 ∈ s) = false -> key_ok false (VStr s)) as Hkey by (intros s Hs; exists s; split; [done|by apply H0]).
  repeat apply Forall_cons_2; try apply Forall_nil_2; (split; [by apply Hkey|]); cbn [snd].
  - constructor. by apply Hspecial, so_objectid.
  - by constructor.
  - by constructor.
  - by constructor.
  - constructor. by apply Hplain.
  - constructor. by apply Hspecial, so_date.
  - constructor. apply Hspecial, so_regex; [done|by apply H0..].
  - constructor. by apply Hspecial, so_binary.
  - constructor. apply Hspecial, so_simple; [done|tauto].
  - apply bwf_table with (array := true); [done|by apply distinct_keysb_ok|].
    repeat apply Forall_cons_2; try apply Forall_nil_2; (split; [eexists; split; [done|]; cbn; lia|]); cbn [snd]; [constructor|].
    apply bwf_table with (array := false); [done|by apply distinct_keysb_ok|]. apply Forall_singleton. split; [by apply Hkey|]. constructor. by apply Hplain.
Qed.


(** ** Outside the round trip *)
Definition coded (l : list (value * value)) : res value :=
  mem ← lencode 7 (fun _ => []) (fun _ => false) (VTable 0 l); ldecode mem zlen.

(** A key with a zero byte is written as it is; the reader takes its rest for the value. *)
Example key_with_zero : coded [(VStr [97; 0; 98], VBool true)] = Err "Invalid bson block : cstring".
Proof. vm_compute. reflexivity. Qed.

(** A binary without its sub type has the length -1. *)
Example binary_without_type : coded [(VStr [97], VStr [0; BSON_BINARY])] = Err "Invalid bson block (%d:%d)".
Proof. vm_compute. reflexivity. Qed.

(** A regular expression without a zero between its parts is read out of bounds. *)
Example regex_without_zero : coded [(VStr [97], VStr [0; BSON_REGEX; 98])] = Ub.
Proof. vm_compute. reflexivity. Qed.
