(* ===== verification/BsonSafe.v ===== *)
(** The reader of lib/bson/lua-bson.c on arbitrary blocks: it ends, and the only access
    outside the block is the one byte that a negative length of a nested document selects. *)
From Stdlib Require Import String.
From S2P Require Import Prelude Bytes Buffer CStr Lua Bson.
#[local] Set Warnings "-register-all".

(** [P] of a result; [Ub] only if [bad]. *)
Definition unless (bad : Prop) {A} (P : A -> Prop) (r : res A) : Prop :=
  match r with Ok x => P x | Err _ => True | Ub => bad end.

Lemma unless_bind bad {A B} (P : A -> Prop) (Q : B -> Prop) (r : res A) (f : A -> res B) :
  unless bad P r -> (forall x, P x -> unless bad Q (f x)) -> unless bad Q (r ≫= f).
Proof. destruct r as [x| |]; cbn; [intros Hx Hf; by apply Hf | done | done]. Qed.

Section safe.
Variable mem : list Z.
Variable border : list (value * value) -> Z.
(** The length [sz] at [p] leads to the byte at [p + sz - 1]; or a key is a number whose
    successor is not a [long]. *)
Definition before_block : Prop :=
  (exists p w, slice mem p 4 = Some w /\ p + s32 (le_value w) < 1) \/
  (exists p key, slice mem p (zlen key) = Some key /\ strtol 10 key = 2 ^ 63 - 1).

(** The reader ends at [e] and is at [p] or behind it. *)
Definition win (e p : Z) (br : bson_reader) : Prop :=
  0 <= p <= br_ptr br /\ 0 <= br_size br /\ br_ptr br + br_size br = e /\ e <= zlen mem /\ e < 2 ^ 31.

Definition ends (e p : Z) {A} (r : A * bson_reader) : Prop := win e p r.2.

Lemma win_weaken e p q br : win e p br -> 0 <= q <= p -> win e q br.
Proof. unfold win. lia. Qed.

Lemma win_skip e p q br sz : win e p br -> 0 <= q <= br_ptr br + sz -> sz <= br_size br -> win e q (skip br sz).
Proof. unfold win, skip. cbn. intros Hw Hq Hs. rewrite s32_small by (unfold is_s32; lia). lia. Qed.

Lemma check_unless br n : unless before_block (fun _ => n <= br_size br) (check_reader br n).
Proof. unfold check_reader. by destruct (Z.ltb_spec (br_size br) n). Qed.

Lemma slice_lift i n : 0 <= i -> 0 <= n -> i + n <= zlen mem -> exists l, slice mem i n = Some l /\ zlen l = n.
Proof.
  intros Hi Hn Hl. rewrite slice_spec by done. eexists. split; [done|]. unfold zlen in *. rewrite length_take, length_drop. lia.
Qed.

Lemma read_byte_win e p br : win e p br -> unless before_block (ends e (br_ptr br + 1)) (read_byte mem br).
Proof.
  intros Hw. unfold read_byte. eapply unless_bind; [apply check_unless|]. intros ? Hs; cbn beta in Hs.
  destruct (aget_is_Some mem (br_ptr br)) as [c ->]; [unfold win in Hw; lia|]. cbn. unfold win in Hw. eapply (win_skip e p); unfold win; lia.
Qed.

Lemma read_word64_win e p br : win e p br -> unless before_block (ends e (br_ptr br + 8)) (read_word64 mem br).
Proof.
  intros Hw. unfold read_word64. eapply unless_bind; [apply check_unless|]. intros ? Hs; cbn beta in Hs.
  destruct (slice_lift (br_ptr br) 8) as (w & -> & _); [unfold win in Hw; lia..|]. cbn. unfold win in Hw. eapply (win_skip e p); unfold win; lia.
Qed.

Lemma read_int64_win e p br : win e p br -> unless before_block (ends e (br_ptr br + 8)) (read_int64 mem br).
Proof. intros Hw. unfold read_int64. eapply unless_bind; [by eapply read_word64_win|]. by intros [d t']. Qed.

Definition word_read (e : Z) (br : bson_reader) (r : Z * bson_reader) : Prop :=
  (exists w, slice mem (br_ptr br) 4 = Some w /\ r.1 = s32 (le_value w)) /\ win e (br_ptr br + 4) r.2 /\ br_ptr r.2 = br_ptr br + 4.

Lemma read_int32_win e p br : win e p br -> unless before_block (word_read e br) (read_int32 mem br).
Proof.
  intros Hw. unfold read_int32. eapply unless_bind; [apply check_unless|]. intros ? Hs; cbn beta in Hs.
  destruct (slice_lift (br_ptr br) 4) as (w & E & _); [unfold win in Hw; lia..|]. rewrite E. cbn. split; [by exists w|].
  unfold win in Hw. split; [|done]. eapply (win_skip e p); unfold win; lia.
Qed.

Lemma read_bytes_unless br sz : unless before_block (fun r => r = (br_ptr br, skip br sz) /\ sz <= br_size br) (read_bytes br sz).
Proof. unfold read_bytes. eapply unless_bind; [apply check_unless|]. done. Qed.

Lemma cstring_loop_win e p br : win e p br -> forall fuel i, 0 <= i <= br_size br -> br_size br - i < Z.of_nat fuel ->
  unless before_block (fun n => i <= n < br_size br) (cstring_loop mem fuel br i).
Proof.
  intros Hw. induction fuel as [|fuel IH]; intros i Hi Hf; [lia|]. cbn [cstring_loop]. destruct (Z.eqb_spec i (br_size br)); [done|].
  destruct (aget_is_Some mem (br_ptr br + i)) as [c ->]; [unfold win in Hw; lia|]. cbn [lift mbind res_bind]. destruct (Z.eqb_spec c 0); [cbn; lia|].
  specialize (IH (i + 1) ltac:(lia) ltac:(lia)). revert IH. unfold unless. destruct cstring_loop; [lia|done..].
Qed.

Definition cstring_read (e : Z) (br : bson_reader) (r : Z * Z * bson_reader) : Prop :=
  r.1.1 = br_ptr br /\ 0 <= r.1.2 /\ r.1.1 + r.1.2 <= zlen mem /\ win e (br_ptr br + 1) r.2.

Lemma read_cstring_win e p br : win e p br -> unless before_block (cstring_read e br) (read_cstring mem br).
Proof.
  intros Hw. unfold read_cstring. eapply unless_bind; [apply (cstring_loop_win e p); [done|unfold win in Hw; lia|unfold win, zlen in *; lia]|].
  intros n Hn; cbn beta in Hn. unfold win in Hw. split; [done|]. split; [cbn; lia|]. split; [cbn; lia|]. eapply (win_skip e p); unfold win; lia.
Qed.

Lemma key_unless ptr len array : 0 <= ptr -> ptr + len <= zlen mem ->
  unless before_block (fun _ => True) (key ← bytes_at mem ptr len; element_key array key).
Proof.
  intros Hp Hl. unfold bytes_at. destruct (Z.ltb_spec len 0); [done|].
  destruct (slice_lift ptr len) as (l & E & Hz); [lia..|]. rewrite E. cbn [lift mbind res_bind]. unfold element_key.
  destruct array; [|done]. cbv zeta. destruct (Z.eqb_spec (strtol 10 l) (2 ^ 63 - 1)) as [Hk|]; [|done].
  right. exists ptr, l. by rewrite Hz.
Qed.

Lemma bytes_at_unless ptr len : 0 <= ptr -> ptr + len <= zlen mem -> unless before_block (fun _ => 0 <= len) (bytes_at mem ptr len).
Proof.
  intros Hp Hl. unfold bytes_at. destruct (Z.ltb_spec len 0); [done|]. by destruct (slice_lift ptr len) as (l & -> & _).
Qed.

Lemma make_object_unless type ptr len : 0 <= ptr -> ptr + len <= zlen mem -> unless before_block (fun _ => 0 <= len) (make_object mem type ptr len).
Proof. intros Hp Hl. unfold make_object. eapply unless_bind; [by apply bytes_at_unless|]. done. Qed.

(** A length at the reader, as many bytes and [d] more, and the object of [sz + m] bytes. *)
Lemma sized_object_win e p t type d m (f g : Z -> Z) : win e p t -> (forall sz, is_s32 sz -> f sz = s32 (sz + d) /\ g sz = s32 (sz + m)) -> (d = 12 /\ m = 16 \/ d = 0 /\ m = 4 \/ d = -4 /\ m = 0) ->
  unless before_block (ends e (br_ptr t))
    ('(sz, t') ← read_int32 mem t; '(_, t') ← read_bytes t' (f sz); v ← make_object mem type (br_ptr t) (g sz); Ok (v, t')).
Proof.
  intros Hw Hfg Hdm. eapply unless_bind; [by eapply read_int32_win|]. intros [sz t1] [(w & _ & Hsz) [Hw1 Hp1]]. cbn [fst snd] in *.
  assert (is_s32 sz) as Hs by (subst sz; apply s32_bound). destruct (Hfg sz Hs) as [-> ->]. eapply unless_bind; [apply read_bytes_unless|]. intros ? [-> Hle].
  unfold is_s32, win in *. assert (s32 (sz + d) = sz + d \/ s32 (sz + d) = sz + d - 2 ^ 32 \/ s32 (sz + d) = sz + d + 2 ^ 32) as Hc by (unfold s32; Z.div_mod_to_equations; lia).
  assert (s32 (sz + m) = sz + m \/ s32 (sz + m) = sz + m - 2 ^ 32) as Hc' by (unfold s32; Z.div_mod_to_equations; lia).
  pose proof (s32_bound (sz + d)) as Hb. pose proof (s32_bound (sz + m)) as Hb'. unfold is_s32 in *.
  eapply unless_bind; [apply make_object_unless; lia|]. intros v Hm; cbn in *. eapply (win_skip e (br_ptr t + 4)); unfold win; lia.
Qed.

(** [dict] reads documents of readers of less than [n] bytes. *)
Definition dict_reads (dict : bson_reader -> bool -> res (value * bson_reader)) (n : Z) : Prop :=
  forall e p t array, win e p t -> br_size t < n -> unless before_block (ends e (br_ptr t)) (dict t array).

Lemma read_value_win dict e p bt t : dict_reads dict (br_size t + 1) -> win e p t -> unless before_block (ends e (br_ptr t)) (read_value mem dict bt t).
Proof.
  intros Hdict Hw. assert (0 <= br_ptr t) as H0 by (unfold win in Hw; lia). unfold read_value.
  destruct (bt =? BSON_REAL); [eapply unless_bind; [by eapply read_word64_win|]; intros [d t'] H; eapply win_weaken; [exact H|cbn; lia]|].
  destruct (bt =? BSON_BOOLEAN); [eapply unless_bind; [by eapply read_byte_win|]; intros [d t'] H; eapply win_weaken; [exact H|cbn; lia]|].
  destruct (bt =? BSON_STRING).
  { eapply unless_bind; [by eapply read_int32_win|]. intros [sz t1] (_ & Hw1 & Hp1). cbn [fst snd] in *. destruct (Z.leb_spec sz 0); [done|].
    eapply unless_bind; [apply read_bytes_unless|]. intros ? [-> Hle]. eapply unless_bind; [apply bytes_at_unless; unfold win in Hw1; lia|].
    intros l _. eapply win_skip; [exact Hw1| |done]. lia. }
  destruct (bt =? BSON_DOCUMENT); [eapply Hdict; [done|lia]|]. destruct (bt =? BSON_ARRAY); [eapply Hdict; [done|lia]|].
  destruct (bt =? BSON_BINARY).
  { eapply unless_bind; [by eapply read_int32_win|]. intros [sz t1] (_ & Hw1 & Hp1). cbn [fst snd] in *.
    eapply unless_bind; [by eapply read_byte_win|]. intros [c t2] Hw2. unfold ends in Hw2. cbn [fst snd] in *.
    eapply unless_bind; [apply read_bytes_unless|]. intros ? [-> Hle]. eapply unless_bind; [apply bytes_at_unless; unfold win in Hw2; lia|].
    intros l Hl; cbn beta in Hl. eapply win_skip; [exact Hw2| |done]. unfold win in Hw2. lia. }
  destruct (bt =? BSON_OBJECTID).
  { eapply unless_bind; [apply read_bytes_unless|]. intros ? [-> Hle]. eapply unless_bind; [apply make_object_unless; unfold win in Hw; lia|].
    intros l _. eapply win_skip; [exact Hw| |done]. lia. }
  destruct (bt =? BSON_DATE).
  { eapply unless_bind; [by eapply read_int64_win|]. intros [d t'] H. eapply win_weaken; [exact H|cbn; lia]. }
  destruct (is_one_of bt _); [eapply win_weaken; [|split; [|done]; lia]; unfold win in *; cbn; lia|].
  destruct (bt =? BSON_REGEX).
  { eapply unless_bind; [by eapply read_cstring_win|]. intros [[r1 n1] t1] (Hr1 & Hn1 & Hl1 & Hw1). cbn [fst snd] in *.
    eapply unless_bind; [by eapply read_cstring_win|]. intros [[r2 n2] t2] (Hr2 & Hn2 & Hl2 & Hw2). cbn [fst snd] in *.
    unfold win in Hw1. eapply unless_bind; [apply bytes_at_unless; lia|]. intros l1 _. eapply unless_bind; [apply bytes_at_unless; lia|]. intros l2 _.
    eapply win_weaken; [exact Hw2|lia]. }
  destruct (bt =? BSON_INT32).
  { eapply unless_bind; [by eapply read_int32_win|]. intros [sz t1] (_ & Hw1 & Hp1). eapply win_weaken; [exact Hw1|lia]. }
  destruct (bt =? BSON_TIMESTAMP).
  { eapply unless_bind; [by eapply read_int32_win|]. intros [sz t1] (_ & Hw1 & Hp1). cbn [fst snd] in *.
    eapply unless_bind; [by eapply read_int32_win|]. intros [sz' t2] (_ & Hw2 & Hp2). eapply win_weaken; [exact Hw2|lia]. }
  destruct (bt =? BSON_INT64).
  { eapply unless_bind; [by eapply read_int64_win|]. intros [d t'] H. eapply win_weaken; [exact H|cbn; lia]. }
  assert (forall sz, is_s32 sz -> sz = s32 (sz + 0)) as Hsame by (intros sz Hs; by rewrite Z.add_0_r, s32_small).
  destruct (bt =? BSON_DBPOINTER); [by apply (sized_object_win e p t BSON_DBPOINTER 12 16 (fun sz => s32 (sz + 12)) (fun sz => s32 (sz + 16))); [|intros|lia]|].
  destruct (is_one_of bt _).
  { apply (sized_object_win e p t bt 0 4 (fun sz => sz) (fun sz => s32 (sz + 4)) Hw); [by intros sz Hs; split; [apply Hsame|]|lia]. }
  destruct (bt =? BSON_CODEWS); [|done].
  apply (sized_object_win e p t bt (-4) 0 (fun sz => s32 (sz - 4)) (fun sz => sz) Hw); [by intros sz Hs; split; [|apply Hsame]|lia].
Qed.

Lemma elements_loop_safe dict e array n : dict_reads dict n -> forall fuel p t l, win e p t -> br_size t < Z.of_nat fuel -> br_size t <= n ->
  unless before_block (fun _ => True) (elements_loop mem fuel dict array t l).
Proof.
  intros Hdict. induction fuel as [|fuel IH]; intros p t l Hw Hf Hn; [unfold win in Hw; lia|]. cbn [elements_loop].
  destruct (Z.eqb_spec (br_size t) 0); [done|].
  eapply unless_bind; [by eapply read_byte_win|]. intros [bt t1] Hw1. unfold ends in Hw1. cbn [snd] in Hw1.
  eapply unless_bind; [by eapply read_cstring_win|]. intros [[key klen] t2] (Hk & Hl & Hkl & Hw2). cbn [fst snd] in *.
  unfold win in Hw1. pose proof (key_unless key klen array ltac:(lia) ltac:(lia)) as Hkey.
  destruct (bytes_at mem key klen) as [k| |]; [|done..]. cbn [mbind res_bind] in Hkey |- *.
  destruct (element_key array k) as [k'| |]; [|done..]. cbn [mbind res_bind].
  eapply unless_bind; [eapply read_value_win; [|exact Hw2]|].
  { unfold win in *. intros e' p' t' a Hw' Hs. eapply Hdict; [exact Hw'|lia]. }
  intros [v t3] Hw3. unfold ends in Hw3. cbn [snd] in Hw3. eapply IH; [exact Hw3|unfold win in *; lia..].
Qed.

Lemma elements_loop_negative dict array fuel t l : br_size t < 0 -> 0 < Z.of_nat fuel -> unless False (fun _ => False) (elements_loop mem fuel dict array t l).
Proof.
  intros Ht Hf. destruct fuel as [|fuel]; [lia|]. cbn [elements_loop]. destruct (Z.eqb_spec (br_size t) 0); [lia|].
  unfold read_byte, check_reader. destruct (Z.ltb_spec (br_size t) 1); [done|lia].
Qed.

Lemma unpack_dict_reads fuel : dict_reads (unpack_dict mem border fuel) (Z.of_nat fuel).
Proof.
  induction fuel as [|fuel IH]; intros e p br array Hw Hf; [unfold win in Hw; lia|]. cbn [unpack_dict].
  eapply unless_bind; [by eapply read_int32_win|]. intros [sz t1] ((w & Hword & Hsz) & Hw1 & Hp1). cbn [fst snd] in *.
  eapply unless_bind; [apply read_bytes_unless|]. intros ? [-> Hle]. set (n := s32 (sz - 5)) in *. destruct (Z.ltb_spec n 0) as [Hneg|Hpos].
  - unfold read_byte, check_reader. destruct (Z.ltb_spec (br_size (skip t1 n)) 1); [done|]. cbn [mbind res_bind].
    destruct (mem.[br_ptr (skip t1 n)]) as [c|] eqn:Ec; cbn [lift mbind res_bind].
    + destruct (negb (c =? 0)); [done|].
      pose proof (elements_loop_negative (unpack_dict mem border fuel) array (S (Z.to_nat n)) (Reader (br_ptr t1) n) []) as He.
      cbn [br_size] in *. destruct elements_loop; [|done|]; exfalso; apply He; lia.
    + left. exists (br_ptr br), w. split; [done|]. rewrite <-Hsz. destruct (Z.lt_ge_cases (br_ptr (skip t1 n)) 0) as [Hlt|Hge].
      * unfold skip in Hlt. cbn in Hlt. assert (is_s32 sz) as Hs by (subst sz; apply s32_bound). subst n. unfold is_s32, s32 in *. Z.div_mod_to_equations. lia.
      * destruct (aget_is_Some mem (br_ptr (skip t1 n))) as [x Ex]; [unfold win, skip in *; cbn in *; lia|]. by rewrite Ec in Ex.
  - assert (win e (br_ptr t1 + n) (skip t1 n)) as Hw2 by (eapply win_skip; [exact Hw1|unfold win in Hw1; lia|lia]).
    eapply unless_bind; [by eapply read_byte_win|]. intros [c t2] Hw3. unfold ends in Hw3. cbn [snd] in Hw3. destruct (negb (c =? 0)); [done|].
    eapply unless_bind; [eapply (elements_loop_safe _ (br_ptr t1 + n) array _ IH) with (p := br_ptr t1)|].
    + unfold win in *. cbn. lia.
    + cbn [br_size]. lia.
    + unfold win in *. cbn. lia.
    + intros l _. eapply win_weaken; [exact Hw3|]. unfold win in Hw, Hw1. cbn. lia.
Qed.
End safe.


(** A block of twelve bytes with a nested document of length -6. *)
Definition bad_block : list Z := [12; 0; 0; 0; 3; 0; 0xfa; 0xff; 0xff; 0xff; 0; 0].


(** A first word that is more than the block. *)
Example ldecode_short : ldecode [100; 0; 0; 0] zlen = Ub.
Proof. reflexivity. Qed.

(** An array with the key "9223372036854775807". *)
Example ldecode_last_key : ldecode ([34; 0; 0; 0; 4; 0; 27; 0; 0; 0; 10] ++ map (fun c => Z.of_nat (Ascii.nat_of_ascii c))
  (list_ascii_of_string "9223372036854775807") ++ [0; 0; 0]) zlen = Ub.
Proof. vm_compute. reflexivity. Qed.
