(* ===== verification/BsonIndex.v ===== *)
(** [makeindex] and the assignment to fields of a document in lib/bson/lua-bson.c. *)
From Stdlib Require Import String.
From S2P Require Import Prelude Bytes Buffer CStr Lua Bson BsonEncode BsonRoundtrip.
#[local] Set Warnings "-register-all".

(** The values that can be replaced: of a fixed size. *)
Definition fixed (v : value) : bool :=
  is_one_of (vtype v) [BSON_INT64; BSON_TIMESTAMP; BSON_DATE; BSON_REAL; BSON_BOOLEAN; BSON_OBJECTID; BSON_INT32].

(** The id of a field of the type [bt] whose value is at [q]. *)
Definition field_id (bt q : Z) : Z := bt + q * 2 ^ 5.

(** The index of the elements [l] that begin at [p]. *)
Fixpoint index_of (d : nat) (p : Z) (l : list (value * value)) : list (value * value) :=
  match l with
  | [] => []
  | (k, v) :: l =>
      let q := p + zlen (key_bytes k) + 2 in
      (if fixed v then [(k, VInt (field_id (vtype v) q))] else []) ++ index_of d (q + zlen (payload d v)) l
  end.

Lemma is_fixed v : fixed v = true -> 0 <= vtype v < 2 ^ 5 /\
  (vtype v = BSON_INT64 \/ vtype v = BSON_TIMESTAMP \/ vtype v = BSON_DATE \/ vtype v = BSON_REAL \/ vtype v = BSON_BOOLEAN \/ vtype v = BSON_OBJECTID \/ vtype v = BSON_INT32).
Proof.
  unfold fixed, is_one_of. cbn [existsb]. rewrite !orb_true_iff, !Z.eqb_eq. intros H.
  unfold BSON_INT64, BSON_TIMESTAMP, BSON_DATE, BSON_REAL, BSON_BOOLEAN, BSON_OBJECTID, BSON_INT32 in *. lia.
Qed.

Definition fixed_size (bt : Z) : Z :=
  if bt =? BSON_BOOLEAN then 1 else if bt =? BSON_INT32 then 4 else if bt =? BSON_OBJECTID then 12 else 8.

Lemma fixed_size_pos bt : 0 < fixed_size bt.
Proof. unfold fixed_size. by repeat case_match. Qed.

Lemma zlen_fixed d v : bwf d v -> fixed v = true -> zlen (payload d v) = fixed_size (vtype v).
Proof.
  intros Hok. destruct Hok as [d i Hi|d x Hx|d b|d str [Hb Hstr]|d n l array Ha Hd Hl]; intros Hf.
  - assert (payload d (VInt i) = if is_32bit i then le_bytes 4 (u32 i) else le_bytes 8 (u64 i)) as -> by (by destruct d).
    unfold vtype. destruct (is_32bit i); [by rewrite zlen_le4|by rewrite zlen_le8].
  - assert (payload d (VReal x) = le_bytes 8 x) as -> by (by destruct d). by rewrite zlen_le8.
  - by destruct d.
  - assert (payload d (VStr str) = string_payload str) as -> by (by destruct d). unfold fixed, string_payload, vtype in *.
    destruct (special str) as [[subt l]|] eqn:E; [|done]. destruct Hstr as [c l|l Hl|l Hl|l Hl|s Hs|l k Hl Hk|l n Hl Hn|s l Hs|l]; try done.
    + by destruct Hs as [->|[->| ->]].
    + by destruct Hs as [->| ->].
  - exfalso. unfold fixed, vtype in Hf. rewrite Ha in Hf. by destruct array.
Qed.

Section index.
Variable mem : list Z.

(** The turn behind the key of an element. *)
Definition field_turn (bt : Z) (br : bson_reader) : res (Z * bson_reader) :=
  if is_one_of bt [BSON_INT64; BSON_TIMESTAMP; BSON_DATE; BSON_REAL] then Ok (8, br)
  else if bt =? BSON_BOOLEAN then Ok (1, br)
  else if is_one_of bt [BSON_JSCODE; BSON_SYMBOL; BSON_STRING] then
    '(sz, br) ← read_int32 mem br; '(_, br) ← read_bytes br sz; Ok (0, br)
  else if is_one_of bt [BSON_CODEWS; BSON_ARRAY; BSON_DOCUMENT] then
    '(sz, br) ← read_int32 mem br; '(_, br) ← read_bytes br (s32 (sz - 4)); Ok (0, br)
  else if bt =? BSON_BINARY then
    '(sz, br) ← read_int32 mem br; '(_, br) ← read_bytes br (s32 (sz + 1)); Ok (0, br)
  else if bt =? BSON_OBJECTID then Ok (12, br)
  else if is_one_of bt [BSON_MINKEY; BSON_MAXKEY; BSON_NULL] then Ok (0, br)
  else if bt =? BSON_REGEX then
    '(_, _, br) ← read_cstring mem br; '(_, _, br) ← read_cstring mem br; Ok (0, br)
  else if bt =? BSON_INT32 then Ok (4, br)
  else if bt =? BSON_DBPOINTER then
    '(sz, br) ← read_int32 mem br; '(_, br) ← read_bytes br (s32 (sz + 12)); Ok (0, br)
  else Err "Invalid bson type : %d".

Lemma index_turn_eq br : index_turn mem br =
  ('(bt, br) ← read_byte mem br;
   '(key, klen, br) ← read_cstring mem br;
   '(field_size, br) ← field_turn bt br;
   if 0 <? field_size then
     let id := Z.lor bt (s32 (Z.shiftl (br_ptr br) BSON_TYPE_SHIFT)) in
     '(_, br) ← read_bytes br field_size;
     key ← bytes_at mem key klen;
     Ok (Some (key, id), br)
   else Ok (None, br)).
Proof. done. Qed.

(** A fixed size is that of the value; other values are skipped. *)
Definition turns (bt : Z) (l : list Z) (is_fixed : bool) : Prop :=
  forall t rest, at_reader mem t l rest ->
    field_turn bt t = Ok (if is_fixed then (zlen l, t) else (0, fwd t (zlen l))).

Lemma turn_sized t l n m f rest : at_reader mem t (le_bytes 4 (u32 n) ++ l) rest -> is_s32 n -> f n = zlen l -> m = 4 + zlen l ->
  ('(sz, br) ← read_int32 mem t; '(_, br) ← read_bytes br (f sz); Ok (0, br)) = Ok (0, fwd t m).
Proof.
  intros H Hn Hf ->. apply at_split in H as [H1 H]. rewrite zlen_le4 in H. rewrite (read_int32_at _ _ _ _ H1 Hn). cbn [mbind res_bind].
  rewrite Hf, (read_bytes_at _ _ _ _ _ H eq_refl). cbn [mbind res_bind]. by rewrite advance_advance.
Qed.

Lemma advance_0 t : fwd t 0 = t.
Proof. unfold fwd. rewrite Z.add_0_r, Z.sub_0_r. by destruct t. Qed.

Lemma turns_special subt l : special_ok subt l -> zlen (special_payload subt l) < 2 ^ 30 -> turns subt (special_payload subt l) (fixed (VStr (0 :: subt :: l))).
Proof.
  intros Hok Hmax t rest H. destruct Hok as [c l|l Hl|l Hl|l Hl|s Hs|l k Hl Hk|l n Hl Hn|s l Hs|l].
  - change (special_payload BSON_BINARY (c :: l)) with (le_bytes 4 (u32 (zlen (c :: l) - 1)) ++ c :: l) in *. rewrite zlen_app, zlen_le4 in *. 
    pose proof (zlen_nonneg l). rewrite zlen_cons in *.
    eapply (turn_sized t (c :: l) _ _ (fun sz => s32 (sz + 1))); [exact H|unfold is_s32; lia| |by rewrite zlen_cons].
    rewrite zlen_cons. replace (1 + zlen l - 1 + 1) with (1 + zlen l) by lia. apply s32_small. unfold is_s32. lia.
  - change (special_payload BSON_OBJECTID l) with l in *. by rewrite Hl.
  - change (special_payload BSON_DATE l) with (le_bytes 8 (u64 (le_value l * 1000))) in *. by rewrite zlen_le8.
  - change (special_payload BSON_TIMESTAMP l) with l in *. by rewrite Hl.
  - assert (special_payload s [] = []) as -> by (destruct Hs as [->|[->| ->]]; done). change (zlen (@nil Z)) with 0. rewrite advance_0.
    destruct Hs as [->|[->| ->]]; done.
  - change (special_payload BSON_REGEX (l ++ 0 :: k ++ [0])) with (l ++ 0 :: k ++ [0]) in *.
    change (field_turn BSON_REGEX t) with ('(_, _, br) ← read_cstring mem t; '(_, _, br) ← read_cstring mem br; Ok (0, br)).
    change (fixed _) with false. cbv iota.
    replace (l ++ 0 :: k ++ [0]) with ((l ++ [0]) ++ (k ++ [0])) in * by (by rewrite <-app_assoc).
    apply at_split in H as [H1 H2]. rewrite (read_cstring_at _ _ _ _ H1 Hl). cbn [mbind res_bind]. rewrite zlen_app in H2. change (zlen [0]) with 1 in H2.
    rewrite (read_cstring_at _ _ _ _ H2 Hk). cbn [mbind res_bind]. by rewrite advance_advance, !zlen_app.
  - change (special_payload BSON_DBPOINTER ?x) with x in *. rewrite zlen_app, zlen_le4 in *.
    rewrite <-(u32_small n) in H by (unfold is_u32; lia).
    eapply (turn_sized t l _ _ (fun sz => s32 (sz + 12))); [exact H|unfold is_s32; lia| |done]. rewrite Hl. apply s32_small. unfold is_s32. lia.
  - assert (forall x, special_payload s x = x) as Ep by (destruct Hs as [->| ->]; done). rewrite Ep in *. rewrite zlen_app, zlen_le4 in *. pose proof (zlen_nonneg l).
    rewrite <-(u32_small (zlen l)) in H by (unfold is_u32; lia).
    pose proof (turn_sized t l _ _ (fun sz => sz) rest H ltac:(unfold is_s32; lia) eq_refl eq_refl) as E. destruct Hs as [->| ->]; exact E.
  - change (special_payload BSON_CODEWS ?x) with x in *. rewrite zlen_app, zlen_le4 in *. pose proof (zlen_nonneg l).
    rewrite <-(u32_small (zlen l + 4)) in H by (unfold is_u32; lia).
    eapply (turn_sized t l _ _ (fun sz => s32 (sz - 4))); [exact H|unfold is_s32; lia| |done]. replace (zlen l + 4 - 4) with (zlen l) by lia. apply s32_small. unfold is_s32. lia.
Qed.

Lemma turns_value d v : bwf d v -> zlen (payload d v) < 2 ^ 30 -> turns (vtype v) (payload d v) (fixed v).
Proof.
  intros Hok. destruct Hok as [d i Hi|d x Hx|d b|d str [Hb Hstr]|d n l array Ha Hd Hl].
  - assert (payload d (VInt i) = if is_32bit i then le_bytes 4 (u32 i) else le_bytes 8 (u64 i)) as -> by (by destruct d).
    intros _ t rest _. unfold fixed, vtype. destruct (is_32bit i); [by rewrite zlen_le4|by rewrite zlen_le8].
  - assert (payload d (VReal x) = le_bytes 8 x) as -> by (by destruct d). intros _ t rest _. by rewrite zlen_le8.
  - assert (payload d (VBool b) = [if b then 1 else 0]) as -> by (by destruct d). by intros _ t rest _.
  - assert (payload d (VStr str) = string_payload str) as -> by (by destruct d). unfold string_payload. unfold vtype.
    destruct (special str) as [[subt l]|] eqn:E; [apply special_Some in E as ->; by apply turns_special|].
    unfold fixed, vtype. rewrite E. intros Hmax t rest H. rewrite zlen_app, zlen_le4 in *. pose proof (zlen_nonneg (str ++ [0])).
    eapply (turn_sized t (str ++ [0]) _ _ (fun sz => sz)); [exact H| |by rewrite zlen_app|done]. rewrite zlen_app in *. change (zlen [0]) with 1 in *. unfold is_s32. lia.
  - intros Hmax t rest H. rewrite payload_table in *. unfold fixed, vtype. rewrite Ha. rewrite zlen_document in *. unfold document in H.
    pose proof (zlen_nonneg (body d l)). assert (zlen (body d l ++ [0]) = zlen (body d l) + 1) as Hz by (rewrite zlen_app; done).
    pose proof (turn_sized t _ _ (zlen (body d l) + 5) (fun sz => s32 (sz - 4)) rest H) as E.
    destruct array; (apply E; [unfold is_s32; lia|rewrite Hz; replace (zlen (body d l) + 5 - 4) with (zlen (body d l) + 1) by lia; apply s32_small; unfold is_s32; lia|lia]).
Qed.

Definition entry (d : nat) (p : Z) (kv : value * value) : option (list Z * Z) :=
  if fixed kv.2 then Some (key_bytes kv.1, field_id (vtype kv.2) (p + zlen (key_bytes kv.1) + 2)) else None.

Lemma zlen_element d k v : zlen (element d (k, v)) = zlen (key_bytes k) + 2 + zlen (payload d v).
Proof. unfold element. rewrite zlen_cons, zlen_app, zlen_cons. cbn [fst snd]. lia. Qed.

Lemma index_turn_at d k v t rest : key_ok false k -> bwf d v -> at_reader mem t (element d (k, v)) rest ->
  0 <= br_ptr t -> br_ptr t + zlen (element d (k, v)) < 2 ^ 26 ->
  index_turn mem t = Ok (entry d (br_ptr t) (k, v), fwd t (zlen (element d (k, v)))).
Proof.
  intros Hk Hv H Hp Hmax. apply key_bytes_at in Hk as [H0 _]. rewrite zlen_element in *. rewrite index_turn_eq.
  change (element d (k, v)) with ([vtype v] ++ key_bytes k ++ [0] ++ payload d v) in H. rewrite (app_assoc (key_bytes k)) in H.
  apply at_split in H as [Hb1 H]. change (zlen [vtype v]) with 1 in H. apply at_split in H as [Hb2 H]. rewrite zlen_app in H. change (zlen [0]) with 1 in H.
  rewrite (read_byte_at _ _ _ _ Hb1). cbn [mbind res_bind]. rewrite (read_cstring_at _ _ _ _ Hb2 H0). cbn [mbind res_bind].
  apply at_split in Hb2 as [Hb2 _]. pose proof (zlen_nonneg (key_bytes k)). pose proof (zlen_nonneg (payload d v)).
  rewrite (turns_value d v Hv ltac:(lia) _ _ H). cbn [mbind res_bind]. unfold entry. cbn [fst snd]. destruct (fixed v) eqn:Ef.
  - cbn [mbind res_bind]. pose proof (zlen_fixed d v Hv Ef) as Hsize. pose proof (fixed_size_pos (vtype v)). apply is_fixed in Ef as [Hbt _].
    destruct (Z.ltb_spec 0 (zlen (payload d v))); [|lia]. rewrite (read_bytes_at _ _ _ _ _ H eq_refl). cbn [mbind res_bind].
    rewrite (bytes_at_reader _ _ _ _ Hb2). cbn [mbind res_bind]. rewrite !advance_advance. unfold BSON_TYPE_SHIFT. cbn [br_ptr fwd].
    rewrite s32_small by (rewrite Z.shiftl_mul_pow2 by lia; unfold is_s32; lia). rewrite lor_shiftl_add by lia. unfold field_id.
    replace (1 + (zlen (key_bytes k) + 1) + zlen (payload d v)) with (zlen (key_bytes k) + 2 + zlen (payload d v)) by lia.
    replace (br_ptr t + (1 + (zlen (key_bytes k) + 1))) with (br_ptr t + zlen (key_bytes k) + 2) by lia.
    by replace (1 + (zlen (key_bytes k) + 1 + zlen (payload d v))) with (zlen (key_bytes k) + 2 + zlen (payload d v)) by lia.
  - cbn [mbind res_bind]. change (0 <? 0) with false. cbv iota. rewrite !advance_advance.
    by replace (1 + (zlen (key_bytes k) + 1 + zlen (payload d v))) with (zlen (key_bytes k) + 2 + zlen (payload d v)) by lia.
Qed.

Lemma index_loop_at d l : Forall (fun kv => key_ok false kv.1 /\ bwf d kv.2) l -> distinct_keys l ->
  forall fuel t rest ix, (length l <= fuel)%nat -> Forall (fun q => forall p, p ∈ ix -> raw_equal q.1 p.1 = false) l ->
  at_reader mem t (body d l) rest -> br_size t = zlen (body d l) -> 0 <= br_ptr t -> br_ptr t + zlen (body d l) < 2 ^ 26 ->
  index_loop mem fuel t ix = Ok (ix ++ index_of d (br_ptr t) l).
Proof.
  induction l as [|[k v] l IH]; intros Hok Hd fuel t rest ix Hfuel Hix Ht Hsize Hp Hmax.
  - cbn [index_of]. rewrite app_nil_r. destruct fuel; cbn [index_loop]; by rewrite Hsize.
  - apply Forall_cons in Hok as [[Hk Hv] Hok]. apply Forall_cons in Hix as [Hkx Hix]. apply distinct_keys_cons in Hd as [Hdk Hd]. cbn [fst snd] in *.
    change (body d ((k, v) :: l)) with (element d (k, v) ++ body d l) in *. rewrite zlen_app in Hsize, Hmax.
    pose proof (zlen_element d k v) as He. pose proof (zlen_nonneg (key_bytes k)). pose proof (zlen_nonneg (payload d v)). pose proof (zlen_nonneg (body d l)).
    destruct fuel as [|fuel]; [cbn in Hfuel; lia|]. cbn [index_loop]. destruct (Z.eqb_spec (br_size t) 0); [lia|].
    apply at_split in Ht as [Hb1 Hb2]. rewrite (index_turn_at d k v _ _ Hk Hv Hb1) by lia. cbn [mbind res_bind].
    cbn [length] in Hfuel. rewrite (IH Hok Hd fuel _ rest); [|lia| |done|cbn [fwd br_size]; lia|cbn [fwd br_ptr]; lia|cbn [fwd br_ptr]; lia].
    + cbn [fwd br_ptr index_of]. rewrite app_assoc, He. replace (br_ptr t + zlen (key_bytes k) + 2 + zlen (payload d v)) with (br_ptr t + (zlen (key_bytes k) + 2 + zlen (payload d v))) by lia.
      unfold entry. cbn [fst snd]. destruct (fixed v); [|by rewrite app_nil_r]. destruct Hk as (str & -> & _). by rewrite raw_set_new.
    + apply Forall_forall. intros q Hq p Hin. rewrite Forall_forall in Hix, Hdk. specialize (Hix q Hq). specialize (Hdk q Hq). unfold entry in Hin. cbn [fst snd] in Hin.
      destruct (fixed v); [|by apply Hix]. destruct Hk as (str & -> & _). rewrite raw_set_new in Hin by (done || by intros; apply Hkx).
      apply elem_of_app in Hin as [Hin|Hin%list_elem_of_singleton]; [by apply Hix|]. subst p. by apply Hdk.
Qed.

Lemma lmakeindex_at d l rest fuel : mem = document (body d l) ++ rest -> Forall (fun kv => key_ok false kv.1 /\ bwf d kv.2) l -> distinct_keys l ->
  zlen (document (body d l)) < 2 ^ 26 -> (length l <= fuel)%nat -> lmakeindex mem fuel = Ok (index_of d 4 l).
Proof.
  intros Hmem Hok Hd Hmax Hfuel. rewrite zlen_document in Hmax. pose proof (zlen_nonneg (body d l)). pose proof (zlen_nonneg rest).
  assert (zlen mem = zlen (body d l) + 5 + zlen rest) as Hm by (by rewrite Hmem, zlen_app, zlen_document).
  assert (rest_at mem 0 (le_bytes 4 (u32 (zlen (body d l) + 5)) ++ body d l ++ 0 :: rest)) as Hr.
  { split; [lia|]. rewrite Hmem. unfold document. by rewrite <-!app_assoc. }
  unfold lmakeindex, get_length. rewrite (slice_prefix _ _ _ _ 4 Hr) by (by rewrite zlen_le4). cbn [lift mbind res_bind].
  rewrite le_value_le_bytes by (apply Z.mod_pos_bound; lia). rewrite s32_u32 by (unfold is_s32; lia). replace (zlen (body d l) + 5 - 5) with (zlen (body d l)) by lia.
  rewrite s32_small by (unfold is_s32; lia). apply (index_loop_at d l Hok Hd fuel (Reader 4 (zlen (body d l))) (0 :: rest)); try done; cbn [br_ptr br_size]; try lia.
  - apply Forall_forall. by intros q _ p ?%not_elem_of_nil.
  - split; [|cbn [br_size]; lia]. apply (rest_skip _ _ _ _ 4 Hr). by rewrite zlen_le4.
Qed.
End index.

(** ** Replacing *)
Lemma replace_object_special t l : is_bytes l -> special_ok t l -> is_one_of t [BSON_OBJECTID; BSON_DATE; BSON_TIMESTAMP] = true ->
  replace_object t (VStr (0 :: t :: l)) = Ok (special_payload t l).
Proof.
  intros Hb Hok Ht. assert (4 <= zlen l) as Hl by (inversion Hok; subst; try lia; try (by cbn in Ht); exfalso; naive_solver).
  unfold replace_object. rewrite !zlen_cons. destruct (Z.ltb_spec (1 + (1 + zlen l)) 6); [lia|]. cbn [take drop].
  rewrite bool_decide_true by done. cbn [negb]. rewrite drop_0. destruct Hok as [c l|l Hl'|l Hl'|l Hl'|s Hs|l k Hl' Hk|l n Hl' Hn|s l Hs|l]; try done.
  - change (BSON_OBJECTID =? BSON_OBJECTID) with true. cbv iota. by rewrite Hl'.
  - change (special_payload BSON_DATE l) with (le_bytes 8 (u64 (le_value l * 1000))). cbn -[le_bytes]. rewrite Hl'. cbn -[le_bytes].
    pose proof (le_value_bound l Hb) as Hv. rewrite Hl' in Hv. unfold u64. by rewrite Z.mod_small by lia.
  - change (special_payload BSON_TIMESTAMP l) with l. cbn -[le_bytes take drop]. rewrite Hl'. cbn -[le_bytes take drop].
    rewrite !le_bytes_all; [by rewrite take_drop|..]; try (by apply Forall_take || by apply Forall_drop); unfold zlen in *; rewrite ?length_take, ?length_drop; lia.
  - by destruct Hs as [->| ->].
Qed.

Lemma replacement_payload checknumber d v : (forall x, checknumber (VReal x) = Some x) -> bwf d v -> fixed v = true ->
  replacement checknumber (vtype v) v = Ok (payload d v).
Proof.
  intros Hnum Hok. destruct Hok as [d i Hi|d x Hx|d b|d str [Hb Hstr]|d n l array Ha Hd Hl]; intros Hf.
  - assert (payload d (VInt i) = if is_32bit i then le_bytes 4 (u32 i) else le_bytes 8 (u64 i)) as -> by (by destruct d).
    unfold vtype. by destruct (is_32bit i).
  - assert (payload d (VReal x) = le_bytes 8 x) as -> by (by destruct d). change (vtype (VReal x)) with BSON_REAL. unfold replacement. by rewrite Hnum.
  - by destruct d, b.
  - assert (payload d (VStr str) = string_payload str) as -> by (by destruct d). unfold fixed, string_payload, vtype in *.
    destruct (special str) as [[subt l]|] eqn:E; [|done]. apply special_Some in E as ->. 
    pose proof (replace_object_special subt l ltac:(by do 2 apply Forall_cons_1, proj2 in Hb) Hstr) as Hr.
    destruct Hstr as [c l|l Hl|l Hl|l Hl|s Hs|l k Hl Hk|l n Hl Hn|s l Hs|l]; try done; try exact (Hr eq_refl).
    + by destruct Hs as [->|[->| ->]].
    + by destruct Hs as [->| ->].
  - exfalso. unfold fixed, vtype in Hf. rewrite Ha in Hf. by destruct array.
Qed.

Lemma index_of_skip d l1 : forall p l k, (forall q, q ∈ l1 -> raw_equal k q.1 = false) ->
  find (fun kv => raw_equal k kv.1) (index_of d p (l1 ++ l)) = find (fun kv => raw_equal k kv.1) (index_of d (p + zlen (body d l1)) l).
Proof.
  induction l1 as [|[k1 v1] l1 IH]; intros p l k Hk; [by change (zlen (body d [])) with 0; rewrite Z.add_0_r|].
  change (body d ((k1, v1) :: l1)) with (element d (k1, v1) ++ body d l1). rewrite zlen_app, zlen_element. cbn [app index_of].
  assert (raw_equal k k1 = false) as Hk1 by (apply (Hk (k1, v1)); by left). pose proof (IH (p + zlen (key_bytes k1) + 2 + zlen (payload d v1)) l k) as E.
  replace (p + (zlen (key_bytes k1) + 2 + zlen (payload d v1) + zlen (body d l1))) with (p + zlen (key_bytes k1) + 2 + zlen (payload d v1) + zlen (body d l1)) by lia.
  rewrite <-E by (intros q Hq; apply Hk; by right). destruct (fixed v1); cbn [app find fst]; [by rewrite Hk1|done].
Qed.

Lemma body_app d l1 l2 : body d (l1 ++ l2) = body d l1 ++ body d l2.
Proof. induction l1 as [|kv l1 IH]; [done|]. change (body d ((kv :: l1) ++ l2)) with (element d kv ++ body d (l1 ++ l2)). rewrite IH. apply app_assoc. Qed.

Lemma raw_equal_refl_key k : key_ok false k -> raw_equal k k = true.
Proof. intros (str & -> & _). cbn. by rewrite bool_decide_true. Qed.

Lemma put_same_length pre l k tail : zlen k = zlen l -> put pre (l ++ tail) k = pre ++ k ++ tail.
Proof. intros H. unfold put. replace (length k) with (length l) by (unfold zlen in H; lia). by rewrite drop_app_length. Qed.

(** After [makeindex] of an encoded document of less than 2^26 bytes, assigning to a
    field of a fixed size a value of the same type changes the block into the encoding
    of the table with the new value at the field's place, and nothing behind it. *)
Theorem replace_correct checknumber d l1 k v l2 v' rest fuel :
  let l := l1 ++ (k, v) :: l2 in
  let mem := document (body d l) ++ rest in
  (forall x, checknumber (VReal x) = Some x) ->
  Forall (fun kv => key_ok false kv.1 /\ bwf d kv.2) l -> distinct_keys l -> zlen (document (body d l)) < 2 ^ 26 -> (length l <= fuel)%nat ->
  bwf d v' -> vtype v' = vtype v -> fixed v = true ->
  exists index, lmakeindex mem fuel = Ok index /\
    lreplace mem checknumber (Some index) k v' = Ok (document (body d (l1 ++ (k, v') :: l2)) ++ rest).
Proof.
  intros l mem Hnum Hok Hd Hmax Hfuel Hv' Htype Hf. subst l mem. exists (index_of d 4 (l1 ++ (k, v) :: l2)). split; [by eapply lmakeindex_at|].
  assert (fixed v' = true) as Hf' by (unfold fixed in *; by rewrite Htype). unfold lreplace.
  assert (zlen (payload d v') = zlen (payload d v)) as Hsize.
  { apply Forall_app in Hok as [_ [[_ Hv] _]%Forall_cons]. cbn [snd] in Hv. rewrite !zlen_fixed by done. by rewrite Htype. }
  assert (forall q, q ∈ l1 -> raw_equal k q.1 = false) as Hk1.
  { intros q [i Hi]%list_elem_of_lookup. apply (Hd (length l1) i (k, v) q); [by rewrite list_lookup_middle|by apply lookup_app_l_Some|].
    apply lookup_lt_Some in Hi. lia. }
  rewrite index_of_skip by done. cbn [index_of]. rewrite Hf.
  apply Forall_app in Hok as [_ [[Hk Hv] _]%Forall_cons]. cbn [fst snd] in *. cbn [app find fst]. rewrite raw_equal_refl_key by done.
  apply is_fixed in Hf as [Hbt _]. set (q := 4 + zlen (body d l1) + zlen (key_bytes k) + 2). unfold BSON_TYPE_SHIFT, field_id.
  assert (Z.land (vtype v + q * 2 ^ 5) (2 ^ 5 - 1) = vtype v) as ->.
  { change (2 ^ 5 - 1) with (Z.ones 5). rewrite Z.land_ones by lia. rewrite Z.mod_add by lia. by apply Z.mod_small. }
  assert (Z.shiftr (vtype v + q * 2 ^ 5) 5 = q) as -> by (rewrite Z.shiftr_div_pow2 by lia; rewrite Z.div_add by lia; rewrite Z.div_small by lia; lia).
  rewrite <-Htype, (replacement_payload checknumber d v' Hnum Hv' Hf'). cbn [mbind res_bind].
  assert (forall w, zlen (payload d w) = zlen (payload d v) -> vtype w = vtype v -> document (body d (l1 ++ (k, w) :: l2)) ++ rest =
    (le_bytes 4 (u32 (zlen (body d (l1 ++ (k, v) :: l2)) + 5)) ++ body d l1 ++ vtype v :: key_bytes k ++ [0]) ++ payload d w ++ body d l2 ++ 0 :: rest) as Hdoc.
  { intros w Hw Ht. unfold document. assert (zlen (body d (l1 ++ (k, w) :: l2)) = zlen (body d (l1 ++ (k, v) :: l2))) as ->.
    { rewrite !body_app, !zlen_app. change (body d ((k, ?x) :: l2)) with (element d (k, x) ++ body d l2). rewrite !zlen_app, !zlen_element. lia. }
    rewrite (body_app d l1 ((k, w) :: l2)). change (body d ((k, w) :: l2)) with (element d (k, w) ++ body d l2). unfold element. cbn [fst snd]. rewrite Ht.
    repeat (rewrite <-!app_assoc || cbn [app]). done. }
  rewrite (Hdoc v), (Hdoc v') by done. rewrite memcpy_at.
  - cbn [lift]. by rewrite put_same_length.
  - rewrite !zlen_app, zlen_le4, zlen_cons, zlen_app. change (zlen [0]) with 1. lia.
  - rewrite zlen_app. pose proof (zlen_nonneg (body d l2 ++ 0 :: rest)). lia.
Qed.

Lemma replace_correct_witness :
  let number v := match v with VReal x => Some x | _ => None end in
  let mem w := document (body 2 (take 1 bson_sample ++ (VStr (bytes_of "n"), w) :: drop 2 bson_sample)) in
  exists index, lmakeindex (mem (VInt (-5))) 20 = Ok index /\ lreplace (mem (VInt (-5))) number (Some index) (VStr (bytes_of "n")) (VInt 77) = Ok (mem (VInt 77)).
Proof.
  intros number mem. pose proof (replace_correct number 2 (take 1 bson_sample) (VStr (bytes_of "n")) (VInt (-5)) (drop 2 bson_sample) (VInt 77) [] 20) as H.
  cbv zeta in H. rewrite !app_nil_r in H. apply H; clear H.
  - done.
  - exact bson_sample_wf.
  - apply distinct_keysb_ok. vm_compute. reflexivity.
  - vm_compute. reflexivity.
  - vm_compute. lia.
  - constructor. lia.
  - reflexivity.
  - reflexivity.
Defined.

(** ** An endless loop *)

(** A document with a string of length -7. *)
Definition endless_block : list Z := [13; 0; 0; 0; 2; 97; 0; 0xf9; 0xff; 0xff; 0xff; 0; 0].

(** There is a block, a complete document to its length and its last byte, on which
    [makeindex] never ends: a negative string length takes the reader back to the
    element's first byte. *)
Theorem makeindex_endless : exists mem, zlen mem = 13 /\ get_length mem = Ok 13 /\ last mem = Some 0 /\ forall fuel, lmakeindex mem fuel = Ub.
Proof.
  exists endless_block. split; [done|]. split; [done|]. split; [done|].
  assert (index_turn endless_block (Reader 4 8) = Ok (None, Reader 4 8)) as Hturn by (vm_compute; reflexivity).
  intros fuel. change (lmakeindex endless_block fuel) with (index_loop endless_block fuel (Reader 4 8) []).
  induction fuel as [|fuel IH]; [done|]. cbn [index_loop br_size]. change (8 =? 0) with false. cbv iota. rewrite Hturn. exact IH.
Qed.
