(* ===== verification/Harbor.v ===== *)
(** module/harbor/module_harbor.c: the harbor, which carries messages to the services of
    other nodes.

    Memory: a message's buffer and a receive buffer are blocks of a heap, by their
    pointers; a queue, a node of the hash table and a slave are owned by one place and are
    values.  A pointer to a node is its chain and its place there.  The calls into the
    framework are the list of [action]s; whether [uboss_send] finds a destination is a
    parameter, and so is the byte that fresh memory holds.  [None] is a failed assertion,
    an access outside an object or a block that is freed twice. *)
From Stdlib Require Import String.
From S2P Require Import Prelude Bytes Buffer CStr Ring Handle.
#[local] Set Warnings "-register-all".

Definition HASH_SIZE : Z := 4096.
Definition DEFAULT_QUEUE_SIZE : Z := 1024.
Definition HEADER_COOKIE_LENGTH : Z := 12.
Definition GLOBALNAME_LENGTH : Z := 16.
Definition REMOTE_MAX : Z := 256.
Definition PTYPE_TEXT : Z := 0.
Definition PTYPE_ERROR : Z := 7.
Definition PTYPE_TAG_DONTCOPY : Z := 0x10000.
Definition UBOSS_SOCKET_TYPE_DATA : Z := 1.
Definition UBOSS_SOCKET_TYPE_CONNECT : Z := 2.
Definition UBOSS_SOCKET_TYPE_CLOSE : Z := 3.
Definition UBOSS_SOCKET_TYPE_ERROR : Z := 5.
Definition UBOSS_SOCKET_TYPE_WARNING : Z := 7.

Record remote_message_header := Header {
  hd_source : Z;
  hd_destination : Z;
  hd_session : Z
}.

Record harbor_msg := HarborMsg {
  hm_header : remote_message_header;
  hm_buffer : Z;
  hm_size : Z
}.

Record harbor_msg_queue := HarborQueue {
  hq_size : Z;
  hq_head : Z;
  hq_tail : Z;
  hq_data : list (option harbor_msg)
}.

Record keyvalue := KeyValue {
  kv_key : list Z;
  kv_hash : Z;
  kv_value : Z;
  kv_queue : option harbor_msg_queue
}.

(** The chains. *)
Definition hashmap : Type := list (list keyvalue).

Inductive status := STATUS_WAIT | STATUS_HANDSHAKE | STATUS_HEADER | STATUS_CONTENT | STATUS_DOWN.
#[export] Instance status_eq_dec : EqDecision status.
Proof. solve_decision. Defined.

(** [sv_recv_buffer] is 0 for a null pointer. *)
Record slave := Slave {
  sv_fd : Z;
  sv_queue : option harbor_msg_queue;
  sv_status : status;
  sv_length : Z;
  sv_read : Z;
  sv_size : list Z;
  sv_recv_buffer : Z
}.

Record harbor := Harbor {
  h_id : Z;
  h_slave : Z;
  h_map : hashmap;
  h_s : list slave
}.

(** What the harbor asks of the framework; the source 0 is the harbor itself, and a line of
    the log is its format and its numbers. *)
Inductive action :=
| Send (source destination type session : Z) (data : list Z)
| SocketClose (fd : Z)
| SocketStart (fd : Z)
| SocketSend (fd : Z) (data : list Z)
| Log (format : string) (args : list Z).

Record world := World {
  w_heap : gmap Z (list Z);
  w_next : Z;
  w_out : list action
}.

Definition act (a : action) (w : world) : world := World (w_heap w) (w_next w) (w_out w ++ [a]).

Definition uboss_malloc (l : list Z) (w : world) : Z * world :=
  (w_next w, World (<[w_next w := l]> (w_heap w)) (w_next w + 1) (w_out w)).

Definition uboss_free (p : Z) (w : world) : option world :=
  if p =? 0 then Some w
  else _ ← w_heap w !! p; Some (World (delete p (w_heap w)) (w_next w) (w_out w)).

Definition put_block (p : Z) (l : list Z) (w : world) : world := World (<[p := l]> (w_heap w)) (w_next w) (w_out w).

(** The first [sz] bytes of a block. *)
Definition block (p sz : Z) (w : world) : option (list Z) :=
  if (p =? 0) && (sz =? 0) then Some [] else l ← w_heap w !! p; slice l 0 sz.

Definition set_map (h : harbor) (m : hashmap) : harbor := Harbor (h_id h) (h_slave h) m (h_s h).

Definition set_slave (h : harbor) (id : Z) (s : slave) : option harbor :=
  l ← (h_s h).[id := s]; Some (Harbor (h_id h) (h_slave h) (h_map h) l).

Definition with_queue (s : slave) (q : option harbor_msg_queue) : slave :=
  Slave (sv_fd s) q (sv_status s) (sv_length s) (sv_read s) (sv_size s) (sv_recv_buffer s).
Definition with_status (s : slave) (st : status) : slave :=
  Slave (sv_fd s) (sv_queue s) st (sv_length s) (sv_read s) (sv_size s) (sv_recv_buffer s).

(** ** Queues *)
Definition push_queue_msg (queue : harbor_msg_queue) (m : harbor_msg) : option harbor_msg_queue :=
  queue ← (if (hq_tail queue + 1) mod hq_size queue =? hq_head queue then
             new ← unroll (hq_data queue) (hq_size queue) (hq_head queue) 0 (Z.to_nat (hq_size queue - 1));
             Some (HarborQueue (hq_size queue * 2) 0 (hq_size queue - 1)
               (new ++ replicate (Z.to_nat (hq_size queue + 1)) None))
           else Some queue);
  data ← (hq_data queue).[hq_tail queue := Some m];
  Some (HarborQueue (hq_size queue) (hq_head queue) ((hq_tail queue + 1) mod hq_size queue) data).

(** The size is an [int]: a full queue of 2^30 cells cannot be doubled. *)
Definition push_queue_msg_int (queue : harbor_msg_queue) (m : harbor_msg) : option harbor_msg_queue :=
  _ ← cassert (negb ((hq_tail queue + 1) mod hq_size queue =? hq_head queue) || (hq_size queue * 2 <? 2 ^ 31));
  push_queue_msg queue m.

Definition push_queue (queue : harbor_msg_queue) (buffer sz : Z) (header : remote_message_header) : option harbor_msg_queue :=
  push_queue_msg queue (HarborMsg header buffer sz).

Definition pop_queue (queue : harbor_msg_queue) : option (option (harbor_msg * harbor_msg_queue)) :=
  if hq_head queue =? hq_tail queue then Some None
  else
    slot ← (hq_data queue).[hq_head queue];
    m ← slot;
    Some (Some (m, HarborQueue (hq_size queue) ((hq_head queue + 1) mod hq_size queue) (hq_tail queue) (hq_data queue))).

Definition new_queue : harbor_msg_queue :=
  HarborQueue DEFAULT_QUEUE_SIZE 0 0 (replicate (Z.to_nat DEFAULT_QUEUE_SIZE) None).

(** The loops that empty a queue with a function of each message; a queue has less messages
    than cells. *)
Fixpoint drain {S} (f : harbor_msg -> S -> option S) (fuel : nat) (queue : harbor_msg_queue) (s : S)
    : option (harbor_msg_queue * S) :=
  m ← pop_queue queue;
  match m with
  | None => Some (queue, s)
  | Some (m, queue) =>
      match fuel with
      | O => None
      | S fuel => s ← f m s; drain f fuel queue s
      end
  end.

Definition queue_fuel (queue : harbor_msg_queue) : nat := Z.to_nat (hq_size queue).

Definition release_queue (queue : option harbor_msg_queue) (w : world) : option world :=
  match queue with
  | None => Some w
  | Some queue => '(_, w) ← drain (fun m => uboss_free (hm_buffer m)) (queue_fuel queue) queue w; Some w
  end.

(** ** The table of names *)

(** The words of the name. *)
Definition name_hash (name : list Z) : Z :=
  let ptr i := le_value (take 4 (drop (4 * i) name)) in
  Z.lxor (Z.lxor (Z.lxor (ptr 0%nat) (ptr 1%nat)) (ptr 2%nat)) (ptr 3%nat).

Fixpoint chain_search (l : list keyvalue) (h : Z) (name : list Z) (i : Z) : option (option Z) :=
  match l with
  | [] => Some None
  | node :: l =>
      if kv_hash node =? h then
        same ← strncmp (kv_key node) name (Z.to_nat GLOBALNAME_LENGTH);
        if same : bool then Some (Some i) else chain_search l h name (i + 1)
      else chain_search l h name (i + 1)
  end.

(** A node's chain and place. *)
Definition hash_search (hash : hashmap) (name : list Z) : option (option (Z * Z)) :=
  let h := name_hash name in
  l ← hash.[h mod HASH_SIZE];
  i ← chain_search l h name 0;
  Some (i ← i; Some (h mod HASH_SIZE, i)).

Definition hash_insert (hash : hashmap) (name : list Z) : option ((Z * Z) * hashmap) :=
  let h := name_hash name in
  l ← hash.[h mod HASH_SIZE];
  hash ← hash.[h mod HASH_SIZE := KeyValue (take (Z.to_nat GLOBALNAME_LENGTH) name) h 0 None :: l];
  Some ((h mod HASH_SIZE, 0), hash).

Definition hash_new : hashmap := replicate (Z.to_nat HASH_SIZE) [].

Definition get_node (hash : hashmap) (node : Z * Z) : option keyvalue := l ← hash.[node.1]; l.[node.2].

Definition set_node (hash : hashmap) (node : Z * Z) (kv : keyvalue) : option hashmap :=
  l ← hash.[node.1]; l ← l.[node.2 := kv]; hash.[node.1 := l].

Definition node_queue (kv : keyvalue) (q : option harbor_msg_queue) : keyvalue := KeyValue (kv_key kv) (kv_hash kv) (kv_value kv) q.
Definition node_value (kv : keyvalue) (v : Z) : keyvalue := KeyValue (kv_key kv) (kv_hash kv) v (kv_queue kv).

(** The node of a name, a new one if there is none. *)
Definition search_or_insert (hash : hashmap) (name : list Z) : option ((Z * Z) * hashmap) :=
  node ← hash_search hash name;
  match node with
  | Some node => Some (node, hash)
  | None => hash_insert hash name
  end.

Fixpoint release_nodes (l : list keyvalue) (w : world) : option world :=
  match l with
  | [] => Some w
  | node :: l => w ← release_queue (kv_queue node) w; release_nodes l w
  end.

Fixpoint hash_delete (hash : hashmap) (w : world) : option world :=
  match hash with
  | [] => Some w
  | l :: hash => w ← release_nodes l w; hash_delete hash w
  end.

(** ** The wire format *)
Definition to_bigendian (n : Z) : list Z := put_be32 n.

Definition header_to_message (header : remote_message_header) : list Z :=
  to_bigendian (hd_source header) ++ to_bigendian (hd_destination header) ++ to_bigendian (hd_session header).

Definition from_bigendian (l : list Z) : option Z :=
  match l with [a; b; c; d] => Some (be32 a b c d) | _ => None end.

Definition message_to_header (message : list Z) : option remote_message_header :=
  source ← from_bigendian (take 4 message);
  destination ← from_bigendian (take 4 (drop 4 message));
  session ← from_bigendian (drop 8 message);
  Some (Header source destination session).

Section harbor.
(** A byte of fresh memory. *)
Variable junk : Z.
(** Whether [uboss_send] can give a message to the service. *)
Variable alive : Z -> bool.

(** The sizes that leave room for the type ([MESSAGE_TYPE_MASK]). *)
Definition size_fits (sz : Z) : bool := Z.land sz (2 ^ 56 - 1) =? sz.

(** [uboss_send] of bytes that it copies; it fails with -1.  The copy is not of this heap. *)
Definition uboss_send (source destination type session : Z) (data : list Z) (w : world) : Z * world :=
  if negb (size_fits (zlen data)) then (-1, act (Log "The message to %x is too large" [destination]) w)
  else if destination =? 0 then (session, w)
  else if alive destination then (session, act (Send source destination type session data) w)
  else (-1, w).

(** [uboss_send] with [PTYPE_TAG_DONTCOPY]: the block goes to the destination or is freed;
    without a destination it stays where it is, and nobody has it. *)
Definition uboss_send_block (source destination type session p sz : Z) (w : world) : option (Z * world) :=
  data ← block p sz w;
  w ← (if size_fits (zlen data) && (destination =? 0) then Some w else uboss_free p w);
  Some (uboss_send source destination (Z.lor type PTYPE_TAG_DONTCOPY) session data w).

(** ** Slaves *)
Definition close_harbor (h : harbor) (id : Z) (w : world) : option (harbor * world) :=
  s ← (h_s h).[id];
  let s := with_status s STATUS_DOWN in
  let w := if negb (sv_fd s =? 0) then act (SocketClose (sv_fd s)) w else w in
  w ← release_queue (sv_queue s) w;
  h ← set_slave h id (with_queue s None);
  Some (h, w).

Definition report_harbor_down (h : harbor) (id : Z) (w : world) : world :=
  (uboss_send 0 (h_slave h) PTYPE_TEXT 0 (bytes_of "D " ++ fmt_d id) w).2.

Definition slave_zero : slave := Slave 0 None STATUS_WAIT 0 0 [0; 0; 0; 0] 0.

Definition harbor_create : harbor := Harbor 0 0 hash_new (replicate (Z.to_nat REMOTE_MAX) slave_zero).

Fixpoint release_slaves (n : nat) (i : Z) (h : harbor) (w : world) : option (harbor * world) :=
  match n with
  | O => Some (h, w)
  | S n =>
      s ← (h_s h).[i];
      '(h, w) ← (if negb (sv_fd s =? 0) && negb (bool_decide (sv_status s = STATUS_DOWN)) then close_harbor h i w else Some (h, w));
      release_slaves n (i + 1) h w
  end.

Definition harbor_release (h : harbor) (w : world) : option world :=
  '(h, w) ← release_slaves (Z.to_nat (REMOTE_MAX - 1)) 1 h w;
  hash_delete (h_map h) w.

(** ** Messages from and to other nodes *)
Definition forward_local_messsage (h : harbor) (msg sz : Z) (w : world) : option world :=
  l ← w_heap w !! msg;
  cookie ← slice l (sz - HEADER_COOKIE_LENGTH) HEADER_COOKIE_LENGTH;
  header ← message_to_header cookie;
  let type := Z.shiftr (hd_destination header) HANDLE_REMOTE_SHIFT in
  let destination := Z.lor (Z.land (hd_destination header) HANDLE_MASK) (u32 (Z.shiftl (h_id h) HANDLE_REMOTE_SHIFT)) in
  '(r, w) ← uboss_send_block (hd_source header) destination type (s32 (hd_session header)) msg (sz - HEADER_COOKIE_LENGTH) w;
  if r <? 0 then
    let w := if negb (type =? PTYPE_ERROR) then (uboss_send destination (hd_source header) PTYPE_ERROR (s32 (hd_session header)) [] w).2 else w in
    Some (act (Log "Unknown destination :%x from :%x type(%d)" [destination; hd_source header; type]) w)
  else Some w.

Definition send_remote (fd : Z) (buffer : list Z) (cookie : remote_message_header) (w : world) : world :=
  let sz_header := zlen buffer + 12 in
  if 2 ^ 32 - 1 <? sz_header then
    act (Log "remote message from :%08x to :%08x is too large." [hd_source cookie; hd_destination cookie]) w
  else act (SocketSend fd (to_bigendian sz_header ++ buffer ++ header_to_message cookie)) w.

Definition set_node_queue (h : harbor) (node : Z * Z) (q : option harbor_msg_queue) : option harbor :=
  kv ← get_node (h_map h) node; m ← set_node (h_map h) node (node_queue kv q); Some (set_map h m).

(** Send a message of a queue and free its buffer. *)
Definition send_queued (fd handle : Z) (m : harbor_msg) (w : world) : option world :=
  let header := Header (hd_source (hm_header m)) (Z.lor (hd_destination (hm_header m)) handle) (hd_session (hm_header m)) in
  buffer ← block (hm_buffer m) (hm_size m) w;
  uboss_free (hm_buffer m) (send_remote fd buffer header w).

Definition send_local (handle : Z) (m : harbor_msg) (w : world) : option world :=
  let type := Z.shiftr (hd_destination (hm_header m)) HANDLE_REMOTE_SHIFT in
  '(_, w) ← uboss_send_block (hd_source (hm_header m)) handle type (s32 (hd_session (hm_header m))) (hm_buffer m) (hm_size m) w;
  Some w.

Definition dispatch_name_queue (h : harbor) (node : Z * Z) (w : world) : option (harbor * world) :=
  kv ← get_node (h_map h) node;
  queue ← kv_queue kv;
  let handle := kv_value kv in
  let harbor_id := Z.shiftr handle HANDLE_REMOTE_SHIFT in
  s ← (h_s h).[harbor_id];
  if sv_fd s =? 0 then
    if bool_decide (sv_status s = STATUS_DOWN) then Some (h, act (Log "Drop message to %s (in harbor %d)" (kv_key kv ++ [harbor_id])) w)
    else
      '(h, squeue) ← (match sv_queue s with
                      | None => h ← set_node_queue h node None; Some (h, queue)
                      | Some squeue =>
                          '(queue, squeue) ← drain (fun m q => push_queue_msg q m) (queue_fuel queue) queue squeue;
                          h ← set_node_queue h node (Some queue); Some (h, squeue)
                      end);
      if harbor_id =? Z.shiftr (h_slave h) HANDLE_REMOTE_SHIFT then
        '(squeue, w) ← drain (send_local handle) (queue_fuel squeue) squeue w;
        w ← release_queue (Some squeue) w;
        h ← set_slave h harbor_id (with_queue s None);
        Some (h, w)
      else h ← set_slave h harbor_id (with_queue s (Some squeue)); Some (h, w)
  else
    '(queue, w) ← drain (send_queued (sv_fd s) (Z.land handle HANDLE_MASK)) (queue_fuel queue) queue w;
    h ← set_node_queue h node (Some queue);
    Some (h, w).

Definition dispatch_queue (h : harbor) (id : Z) (w : world) : option (harbor * world) :=
  s ← (h_s h).[id];
  _ ← cassert (negb (sv_fd s =? 0));
  match sv_queue s with
  | None => Some (h, w)
  | Some queue =>
      '(queue, w) ← drain (send_queued (sv_fd s) 0) (queue_fuel queue) queue w;
      w ← release_queue (Some queue) w;
      h ← set_slave h id (with_queue s None);
      Some (h, w)
  end.

(** ** Data of a connection *)

(** The slave with the socket [fd], from index [i] on. *)
Fixpoint slave_index (l : list slave) (i fd : Z) : option Z :=
  match l with
  | [] => None
  | s :: l => if sv_fd s =? fd then Some i else slave_index l (i + 1) fd
  end.

Definition find_slave (h : harbor) (fd : Z) : option Z := slave_index (drop 1 (h_s h)) 1 fd.

(** How a case of the [switch] ends: the function returns, or the loop goes on with the
    bytes that are left. *)
Inductive turn :=
| Return (h : harbor) (w : world)
| Next (h : harbor) (w : world) (buffer : list Z).

Definition content_turn (h : harbor) (id : Z) (buffer : list Z) (w : world) : option turn :=
  s ← (h_s h).[id];
  recv ← w_heap w !! sv_recv_buffer s;
  let need := sv_length s - sv_read s in
  if zlen buffer <? need then
    recv ← memcpy recv (sv_read s) buffer;
    h ← set_slave h id (Slave (sv_fd s) (sv_queue s) (sv_status s) (sv_length s) (sv_read s + zlen buffer) (sv_size s) (sv_recv_buffer s));
    Some (Return h (put_block (sv_recv_buffer s) recv w))
  else
    recv ← memcpy recv (sv_read s) (take (Z.to_nat need) buffer);
    w ← forward_local_messsage h (sv_recv_buffer s) (sv_length s) (put_block (sv_recv_buffer s) recv w);
    h ← set_slave h id (Slave (sv_fd s) (sv_queue s) STATUS_HEADER 0 0 (sv_size s) 0);
    let buffer := drop (Z.to_nat need) buffer in
    if zlen buffer =? 0 then Some (Return h w) else Some (Next h w buffer).

Definition header_turn (h : harbor) (id : Z) (buffer : list Z) (w : world) : option turn :=
  s ← (h_s h).[id];
  let need := 4 - sv_read s in
  if zlen buffer <? need then
    size ← memcpy (sv_size s) (sv_read s) buffer;
    h ← set_slave h id (Slave (sv_fd s) (sv_queue s) (sv_status s) (sv_length s) (sv_read s + zlen buffer) size (sv_recv_buffer s));
    Some (Return h w)
  else
    size ← memcpy (sv_size s) (sv_read s) (take (Z.to_nat need) buffer);
    let buffer := drop (Z.to_nat need) buffer in
    s0 ← size.[0]; s1 ← size.[1]; s2 ← size.[2]; s3 ← size.[3];
    if negb (s0 =? 0) then
      h ← set_slave h id (Slave (sv_fd s) (sv_queue s) (sv_status s) (sv_length s) (sv_read s) size (sv_recv_buffer s));
      '(h, w) ← close_harbor h id (act (Log "Message is too long from harbor %d" [id]) w);
      Some (Return h w)
    else
      let length := Z.lor (Z.lor (Z.shiftl s1 16) (Z.shiftl s2 8)) s3 in
      let '(p, w) := uboss_malloc (replicate (Z.to_nat length) junk) w in
      h ← set_slave h id (Slave (sv_fd s) (sv_queue s) STATUS_CONTENT length 0 size p);
      if zlen buffer =? 0 then Some (Return h w) else content_turn h id buffer w.

Definition handshake_turn (h : harbor) (id fd : Z) (buffer : list Z) (w : world) : option turn :=
  remote_id ← buffer.[0];
  if negb (remote_id =? id) then
    '(h, w) ← close_harbor h id (act (Log "Invalid shakehand id (%d) from fd = %d , harbor = %d" [id; fd; remote_id]) w);
    Some (Return h w)
  else
    s ← (h_s h).[id];
    h ← set_slave h id (with_status s STATUS_HEADER);
    '(h, w) ← dispatch_queue h id w;
    let buffer := drop 1 buffer in
    if zlen buffer =? 0 then Some (Next h w buffer) else header_turn h id buffer w.

Definition socket_turn (h : harbor) (id fd : Z) (buffer : list Z) (w : world) : option turn :=
  s ← (h_s h).[id];
  match sv_status s with
  | STATUS_HANDSHAKE => handshake_turn h id fd buffer w
  | STATUS_HEADER => header_turn h id buffer w
  | STATUS_CONTENT => content_turn h id buffer w
  | STATUS_WAIT | STATUS_DOWN => Some (Return h w)
  end.

(** Every turn that goes on uses up a byte. *)
Fixpoint socket_loop (fuel : nat) (h : harbor) (id fd : Z) (buffer : list Z) (w : world) : option (harbor * world) :=
  match fuel with
  | O => None
  | S fuel =>
      t ← socket_turn h id fd buffer w;
      match t with
      | Return h w => Some (h, w)
      | Next h w buffer => socket_loop fuel h id fd buffer w
      end
  end.

(** [ud] bytes of the block [buffer] from the socket [fd]. *)
Definition push_socket_data (h : harbor) (fd ud buffer : Z) (w : world) : option (harbor * world) :=
  match find_slave h fd with
  | None => w ← uboss_free buffer w; Some (h, act (Log "Invalid socket fd (%d) data" [fd]) w)
  | Some id => l ← block buffer ud w; socket_loop (S (length l) + 1) h id fd l w
  end.

(** ** Names and handles *)
Definition update_name (h : harbor) (name : list Z) (handle : Z) (w : world) : option (harbor * world) :=
  '(node, m) ← search_or_insert (h_map h) name;
  kv ← get_node m node;
  m ← set_node m node (node_value kv handle);
  let h := set_map h m in
  match kv_queue kv with
  | None => Some (h, w)
  | Some _ =>
      '(h, w) ← dispatch_name_queue h node w;
      kv ← get_node (h_map h) node;
      w ← release_queue (kv_queue kv) w;
      h ← set_node_queue h node None;
      Some (h, w)
  end.

(** The result says whether the buffer [msg] was taken over. *)
Definition remote_send_handle (h : harbor) (source destination type session msg sz : Z) (w : world) : option (bool * harbor * world) :=
  let harbor_id := Z.shiftr destination HANDLE_REMOTE_SHIFT in
  if harbor_id =? h_id h then
    '(_, w) ← uboss_send_block source destination type session msg sz w; Some (true, h, w)
  else
    s ← (h_s h).[harbor_id];
    let header := Header source (Z.lor (u32 (Z.shiftl type HANDLE_REMOTE_SHIFT)) (Z.land destination HANDLE_MASK)) (u32 session) in
    if (sv_fd s =? 0) || bool_decide (sv_status s = STATUS_HANDSHAKE) then
      if bool_decide (sv_status s = STATUS_DOWN) then
        let w := (uboss_send destination source PTYPE_ERROR 0 [] w).2 in
        Some (false, h, act (Log "Drop message to harbor %d from %x to %x (session = %d, msgsz = %d)" [harbor_id; source; destination; session; sz]) w)
      else
        queue ← push_queue (default new_queue (sv_queue s)) msg sz header;
        h ← set_slave h harbor_id (with_queue s (Some queue));
        Some (true, h, w)
    else
      buffer ← block msg sz w;
      Some (false, h, send_remote (sv_fd s) buffer header w).

Definition remote_send_name (h : harbor) (source : Z) (name : list Z) (type session msg sz : Z) (w : world) : option (bool * harbor * world) :=
  '(node, m) ← search_or_insert (h_map h) name;
  kv ← get_node m node;
  let h := set_map h m in
  if kv_value kv =? 0 then
    queue ← push_queue (default new_queue (kv_queue kv)) msg sz (Header source (u32 (Z.shiftl type HANDLE_REMOTE_SHIFT)) (u32 session));
    h ← set_node_queue h node (Some queue);
    let query := bytes_of "Q " ++ take (Z.to_nat GLOBALNAME_LENGTH) name in
    query ← until_zero (query ++ [0]);
    Some (true, h, (uboss_send 0 (h_slave h) PTYPE_TEXT 0 query w).2)
  else remote_send_handle h source (kv_value kv) type session msg sz w.

Definition handshake (h : harbor) (id : Z) (w : world) : option world :=
  s ← (h_s h).[id]; Some (act (SocketSend (sv_fd s) [u8 (h_id h)]) w).

(** [sscanf(buffer, "%d %d", &fd, &id)]. *)
Definition scan_two (l : list Z) : Z * Z :=
  match scan_int l with
  | None => (0, 0)
  | Some (fd, l) => (fd, match scan_int l with Some (id, _) => id | None => 0 end)
  end.

Definition harbor_command (h : harbor) (msg : list Z) (source : Z) (w : world) : option (harbor * world) :=
  let name := drop 2 msg in
  let s := zlen msg - 2 in
  c ← msg.[0];
  if c =? 78 then
    if (s <=? 0) || (GLOBALNAME_LENGTH <=? s) then Some (h, act (Log "Invalid global name %s" name) w)
    else update_name h (name ++ replicate (Z.to_nat (GLOBALNAME_LENGTH - s)) 0) source w
  else if (c =? 83) || (c =? 65) then
    _ ← cassert (0 <=? s);
    buffer ← until_zero (name ++ [0]);
    let '(fd, id) := scan_two buffer in
    if (fd =? 0) || (id <=? 0) || (REMOTE_MAX <=? id) then Some (h, act (Log "Invalid command %c %s" (c :: buffer)) w)
    else
      slave ← (h_s h).[id];
      if negb (sv_fd slave =? 0) then Some (h, act (Log "Harbor %d alreay exist" [id]) w)
      else
        let slave := Slave fd (sv_queue slave) (sv_status slave) (sv_length slave) (sv_read slave) (sv_size slave) (sv_recv_buffer slave) in
        h ← set_slave h id slave;
        w ← handshake h id (act (SocketStart fd) w);
        if c =? 83 then h ← set_slave h id (with_status slave STATUS_HANDSHAKE); Some (h, w)
        else h ← set_slave h id (with_status slave STATUS_HEADER); dispatch_queue h id w
  else Some (h, act (Log "Unknown command %s" msg) w).

(** ** The callback *)

(** What the harbor is given: a socket message, a command of its slave service, or a
    message for another node.  A handle of 0 stands for a name. *)
Inductive message :=
| MSocket (type id ud buffer : Z)
| MCommand (msg : list Z) (source : Z)
| MRemote (type session source : Z) (name : list Z) (handle msg sz : Z).

Definition mainloop (h : harbor) (m : message) (w : world) : option (harbor * world) :=
  match m with
  | MSocket type id ud buffer =>
      if type =? UBOSS_SOCKET_TYPE_DATA then
        '(h, w) ← push_socket_data h id ud buffer w;
        w ← uboss_free buffer w;
        Some (h, w)
      else if (type =? UBOSS_SOCKET_TYPE_ERROR) || (type =? UBOSS_SOCKET_TYPE_CLOSE) then
        match find_slave h id with
        | Some i => Some (h, report_harbor_down h i w)
        | None => Some (h, act (Log "Unkown fd (%d) closed" [id]) w)
        end
      else if type =? UBOSS_SOCKET_TYPE_CONNECT then Some (h, w)
      else if type =? UBOSS_SOCKET_TYPE_WARNING then
        match find_slave h id with
        | Some i => Some (h, act (Log "message havn't send to Harbor (%d) reach %d K" [i; ud]) w)
        | None => Some (h, w)
        end
      else Some (h, act (Log "recv invalid socket message type %d" [type]) w)
  | MCommand msg source => harbor_command h msg source w
  | MRemote type session source name handle msg sz =>
      '(taken, h, w) ← (if handle =? 0 then remote_send_name h source name type session msg sz w
                        else remote_send_handle h source handle type session msg sz w);
      if taken : bool then Some (h, w) else w ← uboss_free msg w; Some (h, w)
  end.

(** [harbor_init] of the arguments. *)
Definition harbor_init (h : harbor) (args : list Z) : Z * harbor :=
  let '(harbor_id, slave) :=
    match scan_int args with
    | None => (0, 0)
    | Some (id, l) => (id, match scan_uint l with Some (slave, _) => slave | None => 0 end)
    end in
  if slave =? 0 then (1, h) else (0, Harbor harbor_id slave (h_map h) (h_s h)).
End harbor.
