(* ===== verification/HarborQueue.v ===== *)
(** The message queues of module/harbor are FIFOs: pushing appends (and grows the array when
    it is full), popping takes the first, and a queue is emptied in order. *)
From S2P Require Import Prelude Ring Bytes Buffer CStr Harbor.

(** The queue holds [l]. *)
Definition queue_holds (q : harbor_msg_queue) (l : list harbor_msg) : Prop :=
  hq_size q = zlen (hq_data q) /\ 1 < hq_size q /\ ring (hq_data q) (hq_head q) l /\ zlen l < hq_size q /\
  hq_tail q = (hq_head q + zlen l) mod hq_size q.

Lemma new_queue_holds : queue_holds new_queue [].
Proof.
  split; [reflexivity|]. split; [done|]. split; [apply ring_nil; by vm_compute|]. by split.
Qed.

Lemma ring_copy {A} (buf new k : list (option A)) head l : ring buf head l -> unroll buf (zlen buf) head 0 (length l) = Some new -> 0 < zlen k ->
  ring (new ++ k) 0 l.
Proof.
  intros (Hh & Hlen & Hl) Hu Hk. apply unroll_spec in Hu as [Hn Hu]. change (Z.of_nat (length l)) with (zlen l) in *.
  split; [rewrite zlen_app; pose proof (zlen_nonneg l); lia|]. split; [rewrite zlen_app; lia|].
  intros i x Hx. pose proof (aget_lt_Some _ _ _ Hx). rewrite Z.add_0_l, Z.mod_small by (rewrite zlen_app; lia).
  rewrite aget_app_l, Hu by lia. rewrite Z.add_0_r. by apply Hl.
Qed.

Lemma push_holds q l m : queue_holds q l -> exists q', push_queue_msg q m = Some q' /\ queue_holds q' (l ++ [m]).
Proof.
  intros Hq. pose proof Hq as (Hsize & H1 & Hr & Hl & Ht). pose proof (zlen_nonneg l). unfold push_queue_msg.
  assert ((hq_tail q + 1) mod hq_size q = (hq_head q + (zlen l + 1)) mod hq_size q) as Htail.
  { rewrite Ht, Z.add_mod_idemp_l by lia. f_equal. lia. }
  assert (forall q0, queue_holds q0 l -> zlen l + 1 < hq_size q0 -> exists q', (data ← (hq_data q0).[hq_tail q0 := Some m];
    Some (HarborQueue (hq_size q0) (hq_head q0) ((hq_tail q0 + 1) mod hq_size q0) data)) = Some q' /\ queue_holds q' (l ++ [m])) as Hroom.
  { intros q0 (Hsize0 & H10 & Hr0 & Hl0 & Ht0) Hfree. destruct (ring_snoc (hq_data q0) (hq_head q0) l m) as (buf & E & Hz & Hr'); [lia|done|].
    rewrite <-Hsize0, <-Ht0 in E. rewrite E. cbn [mbind option_bind]. eexists. split; [done|]. split; [cbn; lia|]. split; [done|]. split; [done|].
    cbn [hq_size hq_head hq_tail]. rewrite zlen_app. change (zlen [m]) with 1. split; [lia|]. rewrite Ht0, Z.add_mod_idemp_l by lia. f_equal. lia. }
  rewrite Htail. destruct Hr as (Hh & Hrl & Hr).
  destruct (Z.eqb_spec ((hq_head q + (zlen l + 1)) mod hq_size q) (hq_head q)) as [E|E].
  - assert (zlen l + 1 = hq_size q) as Hfull.
    { destruct (Z.lt_ge_cases (zlen l + 1) (hq_size q)) as [Hlt|]; [exfalso|lia].
      assert ((hq_head q + (zlen l + 1)) mod hq_size q = (hq_head q + 0) mod hq_size q) as E' by (rewrite E, Z.add_0_r, Z.mod_small by lia; done).
      apply mod_offset_inj in E'; lia. }
    replace (Z.to_nat (hq_size q - 1)) with (length l) by (unfold zlen in *; lia). rewrite Hsize.
    destruct (unroll_total (hq_data q) (hq_head q) (length l) 0) as [new E']; [lia|]. rewrite E'. cbn [mbind option_bind].
    pose proof (unroll_spec _ _ _ _ _ E') as [Hnew _]. change (Z.of_nat (length l)) with (zlen l) in Hnew.
    apply Hroom; [|cbn [hq_size]; lia]. split; [cbn [hq_size hq_data]; rewrite zlen_app, zlen_replicate; lia|]. cbn [hq_size hq_head hq_data hq_tail]. split; [lia|].
    split; [|split; [lia|rewrite Z.add_0_l, Z.mod_small by lia; lia]].
    apply (ring_copy (hq_data q) _ _ (hq_head q)); [by split|done|rewrite zlen_replicate; lia].
  - apply Hroom; [done|]. destruct (Z.eq_dec (zlen l + 1) (hq_size q)) as [Heq|]; [|lia]. exfalso. apply E. rewrite Heq.
    rewrite Zplus_mod, Z_mod_same_full, Z.add_0_r, Z.mod_mod, Z.mod_small by lia. done.
Qed.

Lemma pop_nil q : queue_holds q [] -> pop_queue q = Some None.
Proof.
  intros (Hsize & H1 & (Hh & _) & _ & Ht). change (zlen (@nil harbor_msg)) with 0 in Ht. rewrite Z.add_0_r, Z.mod_small in Ht by lia.
  unfold pop_queue. destruct (Z.eqb_spec (hq_head q) (hq_tail q)); [done|lia].
Qed.

(** With less than 2^30 messages the [int] of the size does not overflow; a queue that is full
    with 2^30 cells or more cannot grow. *)
Lemma queue_full q l : queue_holds q l -> ((hq_tail q + 1) mod hq_size q =? hq_head q) = (zlen l + 1 =? hq_size q).
Proof.
  intros (Hsize & H1 & (Hh & _) & Hl & Ht). pose proof (zlen_nonneg l). rewrite Ht, Z.add_mod_idemp_l by lia.
  rewrite <-Z.add_assoc. destruct (Z.eqb_spec (zlen l + 1) (hq_size q)) as [E|E].
  - rewrite E. apply Z.eqb_eq. rewrite <-(Z.mul_1_l (hq_size q)) at 1. rewrite Z.mod_add by lia. apply Z.mod_small. lia.
  - apply Z.eqb_neq. intros E'.
    assert ((hq_head q + (zlen l + 1)) mod hq_size q = (hq_head q + 0) mod hq_size q) as E2
      by (rewrite E', Z.add_0_r, Z.mod_small by lia; done).
    apply mod_offset_inj in E2; lia.
Qed.

Lemma push_int q l m : queue_holds q l ->
  (zlen l + 1 < 2 ^ 30 -> push_queue_msg_int q m = push_queue_msg q m) /\
  (zlen l + 1 = hq_size q -> 2 ^ 30 <= hq_size q -> push_queue_msg_int q m = None).
Proof.
  intros Hq. unfold push_queue_msg_int. rewrite (queue_full q l Hq). split.
  - intros Hmax. destruct (Z.eqb_spec (zlen l + 1) (hq_size q)) as [E|E]; [|done].
    by rewrite (proj2 (Z.ltb_lt _ _)) by lia.
  - intros E Hbig. rewrite E, Z.eqb_refl. by rewrite (proj2 (Z.ltb_ge _ _)) by lia.
Qed.

Lemma pop_cons q m l : queue_holds q (m :: l) -> exists q', pop_queue q = Some (Some (m, q')) /\ queue_holds q' l /\ hq_size q' = hq_size q.
Proof.
  intros (Hsize & H1 & Hr & Hl & Ht). rewrite zlen_cons in *. pose proof (zlen_nonneg l). pose proof Hr as (Hh & _).
  unfold pop_queue. destruct (Z.eqb_spec (hq_head q) (hq_tail q)) as [E|E].
  - exfalso. assert ((hq_head q + (1 + zlen l)) mod hq_size q = (hq_head q + 0) mod hq_size q) as E' by (rewrite Z.add_0_r, (Z.mod_small (hq_head q)) by lia; lia).
    apply mod_offset_inj in E'; lia.
  - rewrite (ring_head _ _ _ _ Hr). cbn [mbind option_bind]. eexists. split; [done|]. split; [|done].
    split; [done|]. split; [done|]. cbn [hq_size hq_head hq_tail hq_data]. split; [rewrite Hsize; by eapply ring_tail|]. split; [lia|].
    rewrite Ht, Z.add_mod_idemp_l by lia. f_equal. lia.
Qed.

(** A loop over the messages of a queue. *)
Fixpoint each {S} (f : harbor_msg -> S -> option S) (l : list harbor_msg) (s : S) : option S :=
  match l with [] => Some s | m :: l => s ← f m s; each f l s end.

Lemma drain_holds {S} (f : harbor_msg -> S -> option S) l : forall fuel q s s', queue_holds q l -> (length l <= fuel)%nat ->
  each f l s = Some s' -> exists q', drain f fuel q s = Some (q', s') /\ queue_holds q' [].
Proof.
  induction l as [|m l IH]; intros fuel q s s' Hq Hf Hs; cbn [each] in Hs.
  - injection Hs as <-. exists q. destruct fuel; cbn [drain]; by rewrite pop_nil.
  - destruct fuel as [|fuel]; [cbn in Hf; lia|]. cbn [drain]. destruct (pop_cons _ _ _ Hq) as (q1 & -> & Hq1 & _). cbn [mbind option_bind].
    apply bind_Some in Hs as (s1 & -> & Hs). cbn [mbind option_bind]. apply IH; [done|cbn in Hf; lia|done].
Qed.

Lemma drain_queue {S} (f : harbor_msg -> S -> option S) l q s s' : queue_holds q l -> each f l s = Some s' ->
  exists q', drain f (queue_fuel q) q s = Some (q', s') /\ queue_holds q' [].
Proof. intros Hq. apply drain_holds; [done|]. destruct Hq as (_ & _ & _ & Hl & _). unfold queue_fuel, zlen in *. lia. Qed.

Lemma release_empty q w : queue_holds q [] -> release_queue (Some q) w = Some w.
Proof. intros Hq. unfold release_queue. destruct (drain_queue (fun m => uboss_free (hm_buffer m)) [] q w w Hq eq_refl) as (q' & -> & _). done. Qed.
