(* ===== verification/HarborWire.v ===== *)
(** What one harbor sends over a connection, the other forwards, however the connection cuts
    the bytes into pieces. *)
From Stdlib Require Import String.
From S2P Require Import Prelude Ring Bytes Buffer CStr Handle Harbor HarborQueue.
#[local] Set Warnings "-register-all".

(** A message on its way. *)
Record packet := Packet {
  pk_header : remote_message_header;
  pk_data : list Z
}.

Definition header_ok (hd : remote_message_header) : Prop :=
  is_u32 (hd_source hd) /\ is_u32 (hd_destination hd) /\ is_u32 (hd_session hd).

Definition package (p : list Z) : list Z := put_be32 (zlen p) ++ p.
Definition wire (pk : packet) : list Z := package (pk_data pk ++ header_to_message (pk_header pk)).

Lemma zlen_package p : zlen (package p) = 4 + zlen p.
Proof. unfold package. by rewrite zlen_app. Qed.

Lemma zlen_header hd : zlen (header_to_message hd) = 12.
Proof. reflexivity. Qed.

(** [send_remote] writes the packet. *)
Lemma send_remote_wire fd data hd w : zlen data < 2 ^ 24 -> send_remote fd data hd w = act (SocketSend fd (wire (Packet hd data))) w.
Proof.
  intros Hd. unfold send_remote. destruct (Z.ltb_spec (2 ^ 32 - 1) (zlen data + 12)); [lia|].
  unfold wire, package. cbn [pk_data pk_header]. by rewrite zlen_app, zlen_header.
Qed.

Lemma be32_put v : is_u32 v -> from_bigendian (put_be32 v) = Some v.
Proof.
  intros Hv. rewrite put_be32_rev, put_le32_eq. cbn [rev app from_bigendian]. by rewrite be32_le32, le32_put_le32.
Qed.

Lemma header_roundtrip hd : header_ok hd -> message_to_header (header_to_message hd) = Some hd.
Proof.
  intros (H1 & H2 & H3). unfold message_to_header, header_to_message, to_bigendian.
  change (take 4 (put_be32 ?a ++ ?l)) with (put_be32 a). change (drop 4 (put_be32 ?a ++ ?l)) with l.
  change (take 4 (put_be32 ?a ++ ?l)) with (put_be32 a). change (drop 8 (put_be32 ?a ++ put_be32 ?b ++ ?l)) with l.
  rewrite !be32_put by done. by destruct hd.
Qed.

(** The length in the first bytes of a package. *)
Lemma package_length n : 0 <= n < 2 ^ 24 -> exists s1 s2 s3, put_be32 n = [0; s1; s2; s3] /\ Z.lor (Z.lor (Z.shiftl s1 16) (Z.shiftl s2 8)) s3 = n.
Proof.
  intros Hn. unfold put_be32. exists (u8 (Z.shiftr n 16)), (u8 (Z.shiftr n 8)), (u8 n). split.
  - do 2 f_equal. unfold u8. rewrite Z.shiftr_div_pow2 by lia. rewrite Z.div_small by lia. done.
  - pose proof (be32_put n ltac:(unfold is_u32; lia)) as E. unfold put_be32, from_bigendian, be32 in E.
    assert (u8 (Z.shiftr n 24) = 0) as H0 by (unfold u8; rewrite Z.shiftr_div_pow2, Z.div_small by lia; done). rewrite H0 in E. cbn [Z.shiftl] in E.
    injection E as E. exact E.
Qed.

(** ** The heap *)
Definition world_ok (w : world) : Prop := 0 < w_next w /\ forall p, w_next w <= p -> w_heap w !! p = None.

Definition upd (h : harbor) (id : Z) (s : slave) : harbor := Harbor (h_id h) (h_slave h) (h_map h) (<[Z.to_nat id := s]> (h_s h)).

Lemma upd_slave h id s : 0 <= id < zlen (h_s h) -> (h_s (upd h id s)).[id] = Some s.
Proof. intros Hid. cbn. rewrite aget_insert by lia. by rewrite decide_True. Qed.

Lemma set_slave_eq h id s : 0 <= id < zlen (h_s h) -> set_slave h id s = Some (upd h id s).
Proof. intros Hid. unfold set_slave. by rewrite aset_Some. Qed.

Lemma set_slave_upd h id s s' : 0 <= id < zlen (h_s h) -> set_slave (upd h id s) id s' = Some (upd h id s').
Proof.
  intros Hid. rewrite set_slave_eq by (cbn; by rewrite zlen_insert). unfold upd. cbn [h_id h_slave h_map h_s]. by rewrite list_insert_insert_eq.
Qed.

Lemma upd_same h id s : (h_s h).[id] = Some s -> upd h id s = h.
Proof.
  intros Hs. pose proof (aget_lt_Some _ _ _ Hs). unfold aget in Hs. rewrite decide_True in Hs by lia. unfold upd. rewrite list_insert_id by done. by destruct h.
Qed.

(** ** Forwarding *)
Definition forwarded (id : Z) (pk : packet) : action :=
  let hd := pk_header pk in
  Send (hd_source hd) (Z.lor (Z.land (hd_destination hd) HANDLE_MASK) (u32 (Z.shiftl id HANDLE_REMOTE_SHIFT)))
    (Z.lor (Z.shiftr (hd_destination hd) HANDLE_REMOTE_SHIFT) PTYPE_TAG_DONTCOPY) (s32 (hd_session hd)) (pk_data pk).

(** A packet that its receiver [id] can forward. *)
Definition packet_ok (alive : Z -> bool) (id : Z) (pk : packet) : Prop :=
  header_ok (pk_header pk) /\ zlen (pk_data pk) + 12 < 2 ^ 24 /\ hd_session (pk_header pk) < 2 ^ 31 /\
  let destination := Z.lor (Z.land (hd_destination (pk_header pk)) HANDLE_MASK) (u32 (Z.shiftl id HANDLE_REMOTE_SHIFT)) in
  destination <> 0 /\ alive destination = true.

Lemma size_fits_small n : 0 <= n < 2 ^ 56 -> size_fits n = true.
Proof.
  intros Hn. unfold size_fits. change (2 ^ 56 - 1) with (Z.ones 56). rewrite Z.land_ones by lia.
  apply Z.eqb_eq. by apply Z.mod_small.
Qed.

Lemma slice_end (l k : list Z) : slice (l ++ k) (zlen l) (zlen k) = Some k.
Proof. pose proof (slice_behind l k [] (zlen l) (zlen k) eq_refl eq_refl) as E. by rewrite app_nil_r in E. Qed.

Lemma forward_at alive h p pk w : packet_ok alive (h_id h) pk -> 0 < p -> w_heap w !! p = Some (pk_data pk ++ header_to_message (pk_header pk)) ->
  forward_local_messsage alive h p (zlen (pk_data pk) + 12) w =
    Some (World (delete p (w_heap w)) (w_next w) (w_out w ++ [forwarded (h_id h) pk])).
Proof.
  intros (Hhd & Hlen & Hs & Hd0 & Ha) Hp Hblock. unfold forward_local_messsage, HEADER_COOKIE_LENGTH. rewrite Hblock. cbn [mbind option_bind].
  replace (zlen (pk_data pk) + 12 - 12) with (zlen (pk_data pk)) by lia. change 12 with (zlen (header_to_message (pk_header pk))). rewrite slice_end. cbn [mbind option_bind].
  rewrite header_roundtrip by done. cbn [mbind option_bind]. unfold uboss_send_block, block. pose proof (zlen_nonneg (pk_data pk)).
  assert ((p =? 0) = false) as E by lia. rewrite E. cbn [andb]. rewrite Hblock. cbn [mbind option_bind].
  pose proof (slice_behind [] (pk_data pk) (header_to_message (pk_header pk)) 0 _ eq_refl eq_refl) as Es. cbn [app] in Es. rewrite Es. cbn [mbind option_bind].
  rewrite size_fits_small by lia.
  destruct (Z.eqb_spec (Z.lor (Z.land (hd_destination (pk_header pk)) HANDLE_MASK) (u32 (Z.shiftl (h_id h) HANDLE_REMOTE_SHIFT))) 0) as [|Hne]; [done|].
  cbn [andb]. unfold uboss_free. rewrite E, Hblock. cbn [mbind option_bind]. unfold uboss_send.
  rewrite size_fits_small by lia. rewrite (proj2 (Z.eqb_neq _ _) Hne). cbn [negb].
  rewrite Ha. cbv zeta iota. destruct Hhd as (_ & _ & Hss). unfold is_u32 in Hss. rewrite s32_small by (unfold is_s32; lia).
  destruct (Z.ltb_spec (hd_session (pk_header pk)) 0); [lia|]. unfold act, forwarded. cbn [w_heap w_next w_out]. by rewrite s32_small by (unfold is_s32; lia).
Qed.

(** ** The state of a connection *)

(** The slave has read [pre] of a package; the other blocks are [base]. *)
Definition receiving (base : gmap Z (list Z)) (s : slave) (w : world) (pre : list Z) : Prop :=
  world_ok w /\ zlen (sv_size s) = 4 /\
  match sv_status s with
  | STATUS_HEADER => w_heap w = base /\ sv_read s = zlen pre /\ zlen pre < 4 /\ take (length pre) (sv_size s) = pre
  | STATUS_CONTENT => exists body tail, pre = put_be32 (sv_length s) ++ body /\ sv_read s = zlen body /\
      zlen (body ++ tail) = sv_length s /\ sv_length s < 2 ^ 24 /\ 0 < zlen tail /\ 0 < sv_recv_buffer s /\
      base !! sv_recv_buffer s = None /\ w_heap w = <[sv_recv_buffer s := body ++ tail]> base
  | _ => False
  end.

(** The connection itself is the same. *)
Definition same_connection (s s' : slave) : Prop := sv_fd s' = sv_fd s /\ sv_queue s' = sv_queue s.

Section receive.
#[local] Set Default Proof Using "Type*".
Variable junk : Z.
Variable alive : Z -> bool.
Variable h : harbor.
Variable id : Z.
Hypothesis Hid : 0 <= id < zlen (h_s h).

(** The result of a turn: it returns, or goes on with [b]. *)
Definition ends_turn (b : list Z) (h' : harbor) (w : world) : turn := if zlen b =? 0 then Return h' w else Next h' w b.

Lemma world_ok_delete w p out : world_ok w -> world_ok (World (delete p (w_heap w)) (w_next w) out).
Proof.
  intros [Hn Hf]. split; [done|]. cbn. intros q Hq. destruct (decide (q = p)) as [->|]; [apply lookup_delete_eq|]. rewrite lookup_delete_ne by done. by apply Hf.
Qed.

Lemma world_ok_insert w p l out : world_ok w -> w_heap w !! p <> None -> world_ok (World (<[p := l]> (w_heap w)) (w_next w) out).
Proof.
  intros [Hn Hf] Hp. split; [done|]. cbn. intros q Hq. rewrite lookup_insert_ne; [by apply Hf|]. intros ->. by apply Hp, Hf.
Qed.

Lemma take_put (l k : list Z) n : length l = n -> take n (l ++ k) = l.
Proof. intros <-. apply take_app_length. Qed.

Lemma take_prefix (l pre : list Z) : take (length pre) l = pre -> exists tl, l = pre ++ tl.
Proof. intros E. exists (drop (length pre) l). rewrite <-(take_drop (length pre) l) at 1. by rewrite E. Qed.

Lemma content_partial base s w pre b : receiving base s w pre -> sv_status s = STATUS_CONTENT -> sv_read s + zlen b < sv_length s ->
  exists s' w', content_turn alive (upd h id s) id b w = Some (Return (upd h id s') w') /\ receiving base s' w' (pre ++ b) /\
    same_connection s s' /\ w_out w' = w_out w.
Proof.
  intros (Hw & Hsz & Hr) Est Hlen. rewrite Est in Hr. destruct Hr as (body & tail & -> & Hread & Htot & Hmax' & Htail & Hp & Hb & Hheap).
  pose proof (zlen_nonneg b). unfold content_turn. rewrite upd_slave by done. cbn [mbind option_bind]. rewrite Hheap, lookup_insert_eq. cbn [mbind option_bind].
  destruct (Z.ltb_spec (zlen b) (sv_length s - sv_read s)); [|lia]. rewrite zlen_app in Htot. rewrite memcpy_at by lia. cbn [mbind option_bind].
  rewrite set_slave_upd by done. cbn [mbind option_bind]. eexists _, _. split; [done|]. split; [|done]. rewrite put_assoc. split; [|split; [done|]].
  - apply world_ok_insert; [done|]. by rewrite Hheap, lookup_insert_eq.
  - cbn [sv_status sv_length sv_read sv_recv_buffer]. rewrite Est. exists (body ++ b), (drop (length b) tail). rewrite !zlen_app, zlen_drop_length by lia.
    split; [by rewrite app_assoc|]. split; [lia|]. split; [lia|]. split; [done|]. split; [lia|]. split; [done|]. split; [done|].
    cbn [put_block w_heap]. by rewrite Hheap, insert_insert_eq.
Qed.

Lemma content_full base s w pk b b2 : packet_ok alive (h_id h) pk -> forall pre, receiving base s w pre -> sv_status s = STATUS_CONTENT ->
  pre ++ b = wire pk ++ b2 ->
  exists s' w', content_turn alive (upd h id s) id b w = Some (ends_turn b2 (upd h id s') w') /\ receiving base s' w' [] /\
    same_connection s s' /\ w_out w' = w_out w ++ [forwarded (h_id h) pk].
Proof.
  intros Hpk pre (Hw & Hsz & Hr) Est Heq. rewrite Est in Hr. destruct Hr as (body & tail & -> & Hread & Htot & Hmax' & Htail & Hp & Hb & Hheap).
  set (p := pk_data pk ++ header_to_message (pk_header pk)). assert (zlen p = zlen (pk_data pk) + 12) as Hzp by (subst p; by rewrite zlen_app, zlen_header).
  pose proof (zlen_nonneg (pk_data pk)). destruct Hpk as (Hhd & Hmax & Hpk).
  pose proof (zlen_nonneg tail). pose proof (zlen_nonneg body). rewrite zlen_app in Htot.
  assert (sv_length s = zlen p /\ body ++ b = p ++ b2) as [Hl Hbody].
  { unfold wire, package in Heq. rewrite <-!app_assoc in Heq. fold p in Heq.
    apply app_inj_1 in Heq as [E Hbody]; [|reflexivity]. split; [|subst p; by rewrite <-app_assoc].
    pose proof (be32_put (sv_length s) ltac:(unfold is_u32; lia)) as E1. rewrite E, be32_put in E1 by (unfold is_u32; lia). congruence. }
  assert (b = take (Z.to_nat (zlen tail)) b ++ b2 /\ body ++ take (Z.to_nat (zlen tail)) b = p /\ zlen (take (Z.to_nat (zlen tail)) b) = zlen tail) as (Hb2 & Hbp & Hbt).
  { assert (zlen body + zlen b = zlen p + zlen b2) as Hz by (rewrite <-!zlen_app; by rewrite Hbody). pose proof (zlen_nonneg b2).
    assert (zlen (take (Z.to_nat (zlen tail)) b) = zlen tail) as Hz2 by (unfold zlen in *; rewrite length_take; lia).
    assert (body ++ take (Z.to_nat (zlen tail)) b = p) as Hp1.
    { rewrite <-(take_drop (Z.to_nat (zlen tail)) b), app_assoc in Hbody. apply app_inj_1 in Hbody as [Hp1 _]; [done|].
      apply Nat2Z.inj. fold (zlen (body ++ take (Z.to_nat (zlen tail)) b)) (zlen p). rewrite zlen_app. lia. }
    split; [|by split]. rewrite <-Hp1 in Hbody. rewrite <-app_assoc in Hbody. by apply app_inv_head in Hbody. }
  unfold content_turn. rewrite upd_slave by done. cbn [mbind option_bind]. rewrite Hheap, lookup_insert_eq. cbn [mbind option_bind].
  assert (sv_length s - sv_read s = zlen tail) as Hneed by lia. rewrite Hneed.
  destruct (Z.ltb_spec (zlen b) (zlen tail)) as [Hlt|_]; [rewrite Hb2, zlen_app in Hlt; pose proof (zlen_nonneg b2); lia|].
  rewrite memcpy_at by lia. cbn [mbind option_bind]. unfold put. rewrite (drop_ge tail) by (unfold zlen in *; lia). rewrite app_nil_r, Hbp, Hl, Hzp.
  assert (0 < sv_recv_buffer s) as Hp' by done.
  rewrite (forward_at alive (upd h id s) _ pk) by (done || (cbn [put_block w_heap]; by rewrite lookup_insert_eq)). cbn [mbind option_bind].
  rewrite set_slave_upd by done. cbn [mbind option_bind]. assert (drop (Z.to_nat (zlen tail)) b = b2) as ->.
  { rewrite Hb2 at 1. replace (Z.to_nat (zlen tail)) with (length (take (Z.to_nat (zlen tail)) b)) at 1 by (unfold zlen in *; lia). apply drop_app_length. }
  unfold ends_turn. eexists _, _. split; [by case_match|]. split; [|by split]. split; [|split; [done|]].
  - cbn [put_block w_heap w_next w_out]. destruct Hw as [Hn Hf]. split; [done|]. cbn. intros q Hq.
    rewrite delete_insert_eq. destruct (decide (q = sv_recv_buffer s)) as [->|]; [apply lookup_delete_eq|]. rewrite lookup_delete_ne by done. by apply Hf.
  - cbn [sv_status sv_read put_block w_heap]. split; [|done]. rewrite Hheap, !delete_insert_eq. by apply delete_id.
Qed.

Lemma header_partial base s w pre b : receiving base s w pre -> sv_status s = STATUS_HEADER -> zlen pre + zlen b < 4 ->
  exists s', header_turn junk alive (upd h id s) id b w = Some (Return (upd h id s') w) /\ receiving base s' w (pre ++ b) /\ same_connection s s'.
Proof.
  intros (Hw & Hsz & Hr) Est Hlen. rewrite Est in Hr. destruct Hr as (Hheap & Hread & Hpre & Htake). pose proof (zlen_nonneg b).
  unfold header_turn. rewrite upd_slave by done. cbn [mbind option_bind]. destruct (Z.ltb_spec (zlen b) (4 - sv_read s)); [|lia].
  destruct (take_prefix _ _ Htake) as [tl Es]. rewrite Es in *. rewrite zlen_app in Hsz. rewrite memcpy_at by lia. cbn [mbind option_bind].
  rewrite set_slave_upd by done. cbn [mbind option_bind]. eexists. split; [done|]. split; [|done]. rewrite put_assoc. split; [done|].
  cbn [sv_size sv_status sv_read]. rewrite Est, !zlen_app, zlen_drop_length by lia. split; [lia|]. split; [done|]. split; [lia|]. split; [lia|].
  by rewrite take_app_length.
Qed.

Lemma header_full base s w pre b n b' : receiving base s w pre -> sv_status s = STATUS_HEADER -> pre ++ b = put_be32 n ++ b' -> 0 < n < 2 ^ 24 ->
  exists s1 w1, header_turn junk alive (upd h id s) id b w =
      (if zlen b' =? 0 then Some (Return (upd h id s1) w1) else content_turn alive (upd h id s1) id b' w1) /\
    receiving base s1 w1 (put_be32 n) /\ sv_status s1 = STATUS_CONTENT /\ sv_length s1 = n /\ sv_read s1 = 0 /\ same_connection s s1 /\ w_out w1 = w_out w.
Proof.
  intros (Hw & Hsz & Hr) Est Heq Hn. rewrite Est in Hr. destruct Hr as (Hheap & Hread & Hpre & Htake).
  assert (put_be32 n = pre ++ take (Z.to_nat (4 - zlen pre)) b /\ b' = drop (Z.to_nat (4 - zlen pre)) b /\ 4 - zlen pre <= zlen b) as (Hput & Hb' & Hlb).
  { assert (zlen pre + zlen b = 4 + zlen b') as Hz by (rewrite <-!zlen_app, Heq, zlen_app; done). pose proof (zlen_nonneg b').
    rewrite <-(take_drop (Z.to_nat (4 - zlen pre)) b), app_assoc in Heq. apply app_inj_1 in Heq as [E1 E2]; [split; [done|split; [done|lia]]|].
    rewrite length_app, length_take. change (length (put_be32 n)) with 4%nat. unfold zlen in *. lia. }
  unfold header_turn. rewrite upd_slave by done. cbn [mbind option_bind]. rewrite Hread. destruct (Z.ltb_spec (zlen b) (4 - zlen pre)); [lia|].
  assert (memcpy (sv_size s) (zlen pre) (take (Z.to_nat (4 - zlen pre)) b) = Some (put_be32 n)) as ->.
  { destruct (take_prefix _ _ Htake) as [tl Es]. rewrite Es in *. rewrite zlen_app in Hsz.
    assert (zlen (take (Z.to_nat (4 - zlen pre)) b) = 4 - zlen pre) as Hz by (unfold zlen in *; rewrite length_take; lia).
    rewrite memcpy_at by lia. f_equal. unfold put. rewrite (drop_ge tl) by (unfold zlen in *; lia). by rewrite app_nil_r. }
  cbn [mbind option_bind]. destruct (package_length n ltac:(lia)) as (s1 & s2 & s3 & Ep & Elen). rewrite Ep.
  change ([0; s1; s2; s3].[0]) with (Some 0). change ([0; s1; s2; s3].[1]) with (Some s1). change ([0; s1; s2; s3].[2]) with (Some s2). change ([0; s1; s2; s3].[3]) with (Some s3).
  cbn [mbind option_bind]. change (negb (0 =? 0)) with false. cbv iota zeta. rewrite Elen, <-Hb'. unfold uboss_malloc. rewrite set_slave_upd by done. cbn [mbind option_bind].
  eexists _, _. split; [done|]. split; [|done]. destruct Hw as [Hw0 Hf]. split; [|split; [done|]].
  - split; [cbn; lia|]. cbn. intros q Hq. rewrite lookup_insert_ne by lia. apply Hf. lia.
  - cbn [sv_status sv_length sv_read sv_recv_buffer w_heap]. exists [], (replicate (Z.to_nat n) junk). cbn [app]. rewrite app_nil_r, zlen_replicate.
    split; [by rewrite Ep|]. split; [done|]. split; [lia|]. split; [lia|]. split; [lia|]. split; [done|]. rewrite <-Hheap. split; [apply Hf; lia|done].
Qed.

(** A turn of the loop: either the bytes are not yet a whole package, or the package is
    forwarded and the rest is left. *)
Lemma turn_partial base s w pre b p : receiving base s w pre -> (exists k, pre ++ b ++ k = package p) -> zlen (pre ++ b) < zlen (package p) ->
  0 < zlen p < 2 ^ 24 -> forall fd, exists s' w', socket_turn junk alive (upd h id s) id fd b w = Some (Return (upd h id s') w') /\ receiving base s' w' (pre ++ b) /\
    same_connection s s' /\ w_out w' = w_out w.
Proof.
  intros Hr [k Hk] Hlt Hp fd. rewrite zlen_package, zlen_app in Hlt. unfold socket_turn. rewrite upd_slave by done. cbn [mbind option_bind].
  destruct (sv_status s) eqn:Est; try (by destruct Hr as (_ & _ & Hr); rewrite Est in Hr).
  - destruct (Z.lt_ge_cases (zlen pre + zlen b) 4) as [H4|H4].
    + destruct (header_partial base s w pre b Hr Est H4) as (s' & -> & Hr' & Hsame). by exists s', w.
    + assert (exists b', pre ++ b = put_be32 (zlen p) ++ b') as [b' Hb'].
      { unfold package in Hk. rewrite app_assoc in Hk. exists (drop 4 (pre ++ b)). rewrite <-(take_drop 4 (pre ++ b)) at 1. f_equal.
        apply (f_equal (take 4)) in Hk. rewrite take_app_le in Hk by (rewrite length_app; unfold zlen in *; lia). exact Hk. }
      destruct (header_full base s w pre b (zlen p) b' Hr Est Hb' Hp) as (s1 & w1 & -> & Hr1 & Est1 & Hl1 & Hrd1 & Hsame1 & Hout1).
      assert (zlen pre + zlen b = 4 + zlen b') as Hz by (rewrite <-!zlen_app, Hb', zlen_app; done).
      destruct (Z.eqb_spec (zlen b') 0) as [H0|H0].
      * apply zlen_nil_inv in H0 as ->. exists s1, w1. rewrite Hb', app_nil_r. done.
      * destruct (content_partial base s1 w1 (put_be32 (zlen p)) b' Hr1 Est1) as (s2 & w2 & -> & Hr2 & Hsame2 & Hout2); [lia|].
        exists s2, w2. rewrite Hb'. split; [done|]. split; [done|]. unfold same_connection in *. split; [|congruence]. destruct Hsame1, Hsame2. split; congruence.
  - pose proof Hr as (_ & _ & Hc). rewrite Est in Hc. destruct Hc as (body & tail & Hpre & Hread & Htot & Hmax & Htail & _).
    apply (content_partial base s w pre b Hr Est). pose proof (zlen_nonneg body). rewrite zlen_app in Htot.
    assert (sv_length s = zlen p) as Hl; [|rewrite Hpre, zlen_app in Hlt; change (zlen (put_be32 (sv_length s))) with 4 in Hlt; lia].
    rewrite Hpre in Hk. unfold package in Hk. rewrite <-app_assoc in Hk. apply app_inj_1 in Hk as [E _]; [|done].
    pose proof (be32_put (sv_length s) ltac:(unfold is_u32; lia)) as E1. rewrite E, be32_put in E1 by (unfold is_u32; lia). congruence.
Qed.

Lemma turn_full base s w pre b pk b2 : receiving base s w pre -> packet_ok alive (h_id h) pk -> pre ++ b = wire pk ++ b2 -> b <> [] ->
  forall fd, exists s' w', socket_turn junk alive (upd h id s) id fd b w = Some (ends_turn b2 (upd h id s') w') /\ receiving base s' w' [] /\
    same_connection s s' /\ w_out w' = w_out w ++ [forwarded (h_id h) pk].
Proof.
  intros Hr Hpk Heq Hb fd. unfold socket_turn. rewrite upd_slave by done. cbn [mbind option_bind].
  destruct (sv_status s) eqn:Est; try (by destruct Hr as (_ & _ & Hr); rewrite Est in Hr).
  - set (p := pk_data pk ++ header_to_message (pk_header pk)). assert (zlen p = zlen (pk_data pk) + 12) as Hzp by (subst p; by rewrite zlen_app, zlen_header).
    pose proof (zlen_nonneg (pk_data pk)). pose proof Hpk as (_ & Hmax & _). assert (pre ++ b = put_be32 (zlen p) ++ p ++ b2) as Hput.
    { rewrite Heq. unfold wire, package. fold p. by rewrite <-app_assoc. }
    destruct (header_full base s w pre b (zlen p) _ Hr Est Hput ltac:(lia)) as (s1 & w1 & -> & Hr1 & Est1 & Hl1 & Hrd1 & Hsame1 & Hout1).
    rewrite zlen_app. pose proof (zlen_nonneg b2). destruct (Z.eqb_spec (zlen p + zlen b2) 0); [lia|].
    destruct (content_full base s1 w1 pk (p ++ b2) b2 Hpk (put_be32 (zlen p)) Hr1 Est1) as (s2 & w2 & -> & Hr2 & Hsame2 & Hout2).
    { unfold wire, package. fold p. by rewrite <-app_assoc. }
    exists s2, w2. split; [done|]. split; [done|]. unfold same_connection in *. split; [|congruence]. destruct Hsame1, Hsame2. split; congruence.
  - by apply (content_full base s w pk b b2 Hpk pre).
Qed.

Lemma zlen_wire pk : zlen (wire pk) = 16 + zlen (pk_data pk).
Proof. clear. unfold wire. rewrite zlen_package, zlen_app, zlen_header. lia. Qed.

Lemma split_prefix {A} (l k m : list A) : (exists n, l ++ n = k ++ m) -> zlen k <= zlen l -> exists b, l = k ++ b.
Proof.
  clear. intros [n E] Hl. exists (drop (length k) l). rewrite <-(take_drop (length k) l) at 1. f_equal.
  apply (f_equal (take (length k))) in E. rewrite take_app_length in E. rewrite take_app_le in E by (unfold zlen in *; lia). exact E.
Qed.

Lemma receiving_short base s w pre p x y : receiving base s w pre -> pre ++ x = package p ++ y -> zlen p < 2 ^ 24 -> zlen pre < zlen (package p).
Proof.
  clear. intros (_ & _ & Hr) Heq Hp. rewrite zlen_package. pose proof (zlen_nonneg p). destruct (sv_status s); try done; [lia|].
  destruct Hr as (body & tail & -> & Hread & Htot & Hmax & Htail & _). pose proof (zlen_nonneg body). rewrite zlen_app in *.
  change (zlen (put_be32 (sv_length s))) with 4. cut (sv_length s = zlen p); [lia|].
  unfold package in Heq. rewrite <-!app_assoc in Heq. apply app_inj_1 in Heq as [E _]; [|done].
  pose proof (be32_put (sv_length s) ltac:(unfold is_u32; lia)) as E1. rewrite E, be32_put in E1 by (unfold is_u32; lia). congruence.
Qed.

Lemma loop_at fd pks : Forall (packet_ok alive (h_id h)) pks -> forall base s w pre b more fuel, receiving base s w pre ->
  pre ++ b ++ more = mjoin (map wire pks) -> b <> [] -> zlen b < Z.of_nat fuel ->
  exists k s' w' pre', socket_loop junk alive fuel (upd h id s) id fd b w = Some (upd h id s', w') /\ receiving base s' w' pre' /\ same_connection s s' /\
    w_out w' = w_out w ++ map (forwarded (h_id h)) (take k pks) /\ pre' ++ more = mjoin (map wire (drop k pks)).
Proof.
  induction 1 as [|pk pks Hpk _ IH]; intros base s w pre b more fuel Hr Heq Hb Hfuel.
  - exfalso. cbn in Heq. apply app_eq_nil in Heq as [_ [-> _]%app_eq_nil]. done.
  - change (mjoin (map wire (pk :: pks))) with (wire pk ++ mjoin (map wire pks)) in *. pose proof (zlen_wire pk) as Hzw. pose proof (zlen_nonneg (pk_data pk)).
    destruct fuel as [|fuel]; [pose proof (zlen_nonneg b); lia|]. cbn [socket_loop].
    destruct (Z.lt_ge_cases (zlen (pre ++ b)) (zlen (wire pk))) as [Hlt|Hge].
    + assert (zlen (pk_data pk ++ header_to_message (pk_header pk)) = zlen (pk_data pk) + 12) as Hzp by (by rewrite zlen_app, zlen_header).
      pose proof Hpk as (_ & Hmax & _).
      destruct (turn_partial base s w pre b (pk_data pk ++ header_to_message (pk_header pk)) Hr) with (fd := fd) as (s' & w' & -> & Hr' & Hsame & Hout).
      { rewrite app_assoc in Heq. destruct (split_prefix (wire pk) (pre ++ b) more) as [k Hk]; [by eexists|lia|].
        exists k. unfold wire in Hk. by rewrite Hk, <-app_assoc. }
      { exact Hlt. } { lia. }
      exists 0%nat, s', w', (pre ++ b). cbn [mbind option_bind take drop map]. rewrite app_nil_r. split; [done|]. split; [done|]. split; [done|]. split; [done|].
      rewrite <-app_assoc. exact Heq.
    + destruct (split_prefix (pre ++ b) (wire pk) (mjoin (map wire pks))) as [b2 Hb2]; [exists more; by rewrite <-app_assoc|lia|].
      destruct (turn_full base s w pre b pk b2 Hr Hpk Hb2 Hb fd) as (s1 & w1 & -> & Hr1 & Hsame1 & Hout1). cbn [mbind option_bind]. unfold ends_turn.
      assert (b2 ++ more = mjoin (map wire pks)) as Heq2 by (rewrite app_assoc, Hb2, <-app_assoc in Heq; by apply app_inv_head in Heq).
      destruct (Z.eqb_spec (zlen b2) 0) as [H0|H0].
      * apply zlen_nil_inv in H0 as ->. exists 1%nat, s1, w1, []. cbn [take drop map]. split; [done|]. split; [done|]. split; [done|]. by rewrite take_0, drop_0.
      * destruct (IH base s1 w1 [] b2 more fuel) as (k & s' & w' & pre' & E & Hr' & Hsame' & Hout' & Heq'); [done|done|by intros ->| |].
        { assert (zlen b2 < zlen b); [|lia]. assert (zlen pre + zlen b = zlen (wire pk) + zlen b2) as Hz by (rewrite <-!zlen_app; by rewrite Hb2).
          assert (zlen pre < zlen (wire pk)) as Hpre; [|lia].
          unfold wire. apply (receiving_short base s w pre _ b b2 Hr Hb2). rewrite zlen_app, zlen_header. pose proof Hpk as (_ & Hmax & _). lia. }
        exists (S k), s', w', pre'. split; [exact E|]. split; [done|]. split; [unfold same_connection in *; destruct Hsame1, Hsame'; split; congruence|].
        split; [|exact Heq']. rewrite Hout', Hout1. cbn [take map]. by rewrite <-app_assoc.
Qed.

(** ** Pieces *)
Lemma slave_index_fds fd l : forall l' i, map sv_fd l = map sv_fd l' -> slave_index l i fd = slave_index l' i fd.
Proof. clear. induction l as [|s l IH]; intros [|s' l'] i E; try done. cbn in E. injection E as E1 E2. cbn [slave_index]. rewrite E1. by rewrite (IH l'). Qed.

Lemma find_slave_upd s s0 fd : (h_s h).[id] = Some s0 -> sv_fd s = sv_fd s0 -> find_slave (upd h id s) fd = find_slave h fd.
Proof.
  intros Hs Hfd. unfold find_slave. apply slave_index_fds. rewrite <-!skipn_map. f_equal. cbn [upd h_s].
  unfold aget in Hs. rewrite decide_True in Hs by lia. rewrite list_fmap_insert. rewrite list_insert_id; [done|]. rewrite list_lookup_fmap, Hs. cbn. by rewrite Hfd.
Qed.

(** Every piece of the stream comes as a message of the socket thread, in a block of its
    own that the harbor frees. *)
Fixpoint receive (fd : Z) (pieces : list (list Z)) (h : harbor) (w : world) : option (harbor * world) :=
  match pieces with
  | [] => Some (h, w)
  | l :: pieces =>
      let '(p, w) := uboss_malloc l w in
      '(h, w) ← mainloop junk alive h (MSocket UBOSS_SOCKET_TYPE_DATA fd (zlen l) p) w;
      receive fd pieces h w
  end.

Lemma receiving_malloc base s w pre l : receiving base s w pre -> base !! w_next w = None /\
  receiving (<[w_next w := l]> base) s (World (<[w_next w := l]> (w_heap w)) (w_next w + 1) (w_out w)) pre.
Proof.
  clear. intros ([Hn Hf] & Hsz & Hr).
  assert (world_ok (World (<[w_next w := l]> (w_heap w)) (w_next w + 1) (w_out w))) as Hw'.
  { split; [cbn; lia|]. cbn. intros q Hq. rewrite lookup_insert_ne by lia. apply Hf. lia. }
  unfold receiving. destruct (sv_status s); try done.
  - destruct Hr as (<- & Hr). split; [by apply Hf|]. done.
  - destruct Hr as (body & tail & H1 & H2 & H3 & H4 & H5 & H6 & Hb & Hheap). pose proof (Hf _ (Z.le_refl _)) as Hnone. rewrite Hheap in Hnone.
    apply lookup_insert_None in Hnone as [Hnone Hne]. split; [done|]. split; [done|]. split; [done|]. exists body, tail. do 6 (split; [done|]). cbn [w_heap].
    split; [by rewrite lookup_insert_ne by done|]. rewrite Hheap. by apply insert_insert_ne.
Qed.

Lemma receiving_free base s w pre p l : receiving (<[p := l]> base) s w pre -> base !! p = None -> 0 < p ->
  exists w', uboss_free p w = Some w' /\ receiving base s w' pre /\ w_out w' = w_out w.
Proof.
  clear. intros (Hw & Hsz & Hr) Hp Hp0. unfold uboss_free. destruct (Z.eqb_spec p 0); [lia|].
  assert (w_heap w !! p = Some l) as Hl.
  { destruct (sv_status s); try done; [by destruct Hr as (-> & _); rewrite lookup_insert_eq|].
    destruct Hr as (body & tail & _ & _ & _ & _ & _ & _ & Hb & ->). apply lookup_insert_None in Hb as [_ Hne]. by rewrite lookup_insert_ne, lookup_insert_eq by done. }
  rewrite Hl. cbn [mbind option_bind]. eexists. split; [done|]. split; [|done]. split; [by apply world_ok_delete|]. split; [done|].
  destruct (sv_status s); try done.
  - destruct Hr as (Hh & Hr). split; [|done]. cbn. rewrite Hh, delete_insert_eq. by apply delete_id.
  - destruct Hr as (body & tail & H1 & H2 & H3 & H4 & H5 & H6 & Hb & Hheap). exists body, tail. do 6 (split; [done|]).
    apply lookup_insert_None in Hb as [Hb Hne]. split; [done|]. cbn. rewrite Hheap. rewrite delete_insert_ne by done. rewrite delete_insert_eq. by rewrite delete_id.
Qed.

Lemma receive_at fd s0 : (h_s h).[id] = Some s0 -> sv_fd s0 = fd -> find_slave h fd = Some id ->
  forall pieces pks base s w pre, Forall (fun l => l <> []) pieces -> Forall (packet_ok alive (h_id h)) pks ->
  same_connection s0 s -> receiving base s w pre -> pre ++ mjoin pieces = mjoin (map wire pks) ->
  exists k s' w', receive fd pieces (upd h id s) w = Some (upd h id s', w') /\ same_connection s0 s' /\
    w_out w' = w_out w ++ map (forwarded (h_id h)) (take k pks) /\
    exists pre', receiving base s' w' pre' /\ pre' = mjoin (map wire (drop k pks)).
Proof.
  intros Hs0 Hfd Hfind. induction pieces as [|l pieces IH]; intros pks base s w pre Hne Hpks Hsame Hr Heq.
  - exists 0%nat, s, w. cbn [receive take map]. rewrite app_nil_r. do 3 (split; [done|]). exists pre. split; [done|]. cbn [mjoin list_join] in Heq. rewrite app_nil_r in Heq. exact Heq.
  - apply Forall_cons in Hne as [Hl Hne]. cbn [receive]. unfold uboss_malloc. destruct (receiving_malloc base s w pre l Hr) as [Hfresh Hr1].
    set (w1 := World (<[w_next w := l]> (w_heap w)) (w_next w + 1) (w_out w)) in *. unfold mainloop, UBOSS_SOCKET_TYPE_DATA. rewrite Z.eqb_refl.
    unfold push_socket_data. rewrite (find_slave_upd s s0) by (done || by destruct Hsame). rewrite Hfind.
    assert (0 < w_next w) as Hn by (by destruct Hr as ([Hn _] & _)).
    unfold block. assert ((w_next w =? 0) = false) as -> by lia. cbn [andb]. cbn [w1 w_heap]. rewrite lookup_insert_eq. cbn [mbind option_bind].
    pose proof (slice_behind [] l [] 0 _ eq_refl eq_refl) as Es. cbn [app] in Es. rewrite app_nil_r in Es. rewrite Es. cbn [mbind option_bind].
    change (mjoin (l :: pieces)) with (l ++ mjoin pieces) in Heq.
    destruct (loop_at fd pks Hpks _ s w1 pre l (mjoin pieces) (S (length l) + 1) Hr1 Heq Hl) as (k & s' & w' & pre' & -> & Hr' & Hsame' & Hout & Heq'); [unfold zlen; lia|].
    cbn [mbind option_bind]. destruct (receiving_free base s' w' pre' (w_next w) l Hr' Hfresh Hn) as (w2 & -> & Hr2 & Hout2). cbn [mbind option_bind].
    destruct (IH (drop k pks) base s' w2 pre' Hne) as (k2 & s3 & w3 & E & Hsame3 & Hout3 & Hpre3); [by apply Forall_drop| |done|done|].
    { unfold same_connection in *. destruct Hsame, Hsame'. split; congruence. }
    exists (k + k2)%nat, s3, w3. split; [exact E|]. split; [done|]. split; [|by rewrite drop_drop in Hpre3].
    rewrite Hout3, Hout2, Hout. cbn [w1 w_out]. rewrite <-app_assoc. f_equal. rewrite <-map_app. f_equal.
    apply take_take_drop.
Qed.

(** The whole stream: everything is forwarded, and no block is left. *)
Lemma receive_all fd s pks pieces w : (h_s h).[id] = Some s -> sv_fd s = fd -> find_slave h fd = Some id ->
  sv_status s = STATUS_HEADER -> sv_read s = 0 -> zlen (sv_size s) = 4 -> world_ok w ->
  Forall (fun l => l <> []) pieces -> Forall (packet_ok alive (h_id h)) pks -> mjoin pieces = mjoin (map wire pks) ->
  exists s' w', receive fd pieces h w = Some (upd h id s', w') /\ same_connection s s' /\ sv_status s' = STATUS_HEADER /\ sv_read s' = 0 /\
    w_heap w' = w_heap w /\ w_out w' = w_out w ++ map (forwarded (h_id h)) pks.
Proof.
  intros Hs Hfd Hfind Hst Hread Hsz Hw Hne Hpks Heq.
  assert (receiving (w_heap w) s w []) as Hr by (split; [done|]; split; [done|]; by rewrite Hst).
  destruct (receive_at fd s Hs Hfd Hfind pieces pks (w_heap w) s w [] Hne Hpks) as (k & s' & w' & E & Hsame & Hout & pre' & Hr' & Hpre'); [done|done|exact Heq|].
  rewrite (upd_same h id s Hs) in E.
  assert (drop k pks = []) as Hk.
  { destruct (drop k pks) as [|pk l] eqn:Ed; [done|exfalso]. change (mjoin (map wire (pk :: l))) with (wire pk ++ mjoin (map wire l)) in Hpre'.
    assert (packet_ok alive (h_id h) pk) as (_ & Hmax & _) by (apply (Forall_drop _ k) in Hpks; rewrite Ed in Hpks; by apply Forall_cons in Hpks as [? _]).
    pose proof (receiving_short _ _ _ _ _ [] (mjoin (map wire l)) Hr' ltac:(rewrite app_nil_r; exact Hpre')) as Hlt.
    rewrite Hpre' in Hlt. unfold wire in Hlt at 1. rewrite zlen_app in Hlt. pose proof (zlen_nonneg (mjoin (map wire l))). rewrite zlen_app, zlen_header in Hlt. specialize (Hlt ltac:(lia)). lia. }
  rewrite Hk in Hpre'. cbn in Hpre'. subst pre'. exists s', w'. split; [exact E|]. split; [done|].
  destruct Hr' as (_ & _ & Hr'). assert (take k pks = pks) as Htk by (rewrite <-(take_drop k pks) at 2; by rewrite Hk, app_nil_r). rewrite Htk in Hout.
  destruct (sv_status s'); try done; [by destruct Hr' as (? & ? & _)|]. by destruct Hr' as (body & tail & ? & _).
Qed.
End receive.
