(* ===== verification/HarborSend.v ===== *)
(** The harbor as a sender: messages for a node wait until it is connected, and then leave
    in the order in which they were sent; the other node's harbor forwards them in that
    order. *)
From Stdlib Require Import String.
From S2P Require Import Prelude Ring Bytes Buffer CStr Handle Harbor HarborQueue HarborWire.
#[local] Set Warnings "-register-all".

(** ** Queued messages and their blocks *)
Definition pair_heap (base : gmap Z (list Z)) (l : list (harbor_msg * packet)) : gmap Z (list Z) :=
  foldr (fun mp heap => <[hm_buffer mp.1 := pk_data mp.2]> heap) base l.

(** The heap is [base] and the blocks of the messages [l]. *)
Definition queued (base : gmap Z (list Z)) (l : list (harbor_msg * packet)) (heap : gmap Z (list Z)) : Prop :=
  Forall (fun mp => hm_header mp.1 = pk_header mp.2 /\ hm_size mp.1 = zlen (pk_data mp.2) /\ 0 < hm_buffer mp.1 /\
    base !! hm_buffer mp.1 = None /\ zlen (pk_data mp.2) < 2 ^ 24) l /\ NoDup (map (fun mp => hm_buffer mp.1) l) /\ heap = pair_heap base l.

Lemma pair_heap_fresh base l p : base !! p = None -> ~ p ∈ map (fun mp => hm_buffer mp.1) l -> pair_heap base l !! p = None.
Proof.
  intros Hb. induction l as [|mp l IH]; [done|]. cbn [map pair_heap foldr]. rewrite not_elem_of_cons. intros [Hne Hp].
  rewrite lookup_insert_ne by done. by apply IH.
Qed.

Lemma pair_heap_in base l p : pair_heap base l !! p = None -> base !! p = None /\ ~ p ∈ map (fun mp => hm_buffer mp.1) l.
Proof.
  induction l as [|mp l IH]; cbn [map pair_heap foldr]; [intros H; split; [done|apply not_elem_of_nil]|].
  intros [H Hne]%lookup_insert_None. apply IH in H as [? ?]. split; [done|]. rewrite not_elem_of_cons. naive_solver.
Qed.

Lemma pair_heap_snoc base l mp : ~ hm_buffer mp.1 ∈ map (fun mp => hm_buffer mp.1) l ->
  pair_heap base (l ++ [mp]) = <[hm_buffer mp.1 := pk_data mp.2]> (pair_heap base l).
Proof.
  induction l as [|mp' l IH]; [done|]. cbn [map pair_heap foldr app]. rewrite not_elem_of_cons. intros [Hne Hp].
  fold (pair_heap base (l ++ [mp])) (pair_heap base l). rewrite IH by done. by apply insert_insert_ne.
Qed.

Lemma queued_snoc base l w m pk : queued base l (w_heap w) -> world_ok w -> m = HarborMsg (pk_header pk) (w_next w) (zlen (pk_data pk)) ->
  zlen (pk_data pk) < 2 ^ 24 -> queued base (l ++ [(m, pk)]) (<[w_next w := pk_data pk]> (w_heap w)).
Proof.
  intros (Hf & Hnd & Hheap) [Hn Hfresh] -> Hmax. pose proof (Hfresh _ (Z.le_refl _)) as Hnone. rewrite Hheap in Hnone. apply pair_heap_in in Hnone as [Hb Hp].
  split; [|split].
  - apply Forall_app. split; [done|]. by apply Forall_singleton.
  - rewrite map_app. apply NoDup_app. split; [done|]. split; [|apply NoDup_singleton]. intros x Hx Hx'%list_elem_of_singleton. cbn in Hx'. by subst x.
  - rewrite pair_heap_snoc by done. by rewrite Hheap.
Qed.

(** The packet with more bits of the destination. *)
Definition aim (handle : Z) (pk : packet) : packet :=
  Packet (Header (hd_source (pk_header pk)) (Z.lor (hd_destination (pk_header pk)) handle) (hd_session (pk_header pk))) (pk_data pk).

Lemma aim_0 pk : aim 0 pk = pk.
Proof. unfold aim. rewrite Z.lor_0_r. by destruct pk as [[] ?]. Qed.

Lemma send_remote_each fd handle l base : forall w, queued base l (w_heap w) ->
  exists w', each (send_queued fd handle) (map fst l) w = Some w' /\ w_heap w' = base /\ w_next w' = w_next w /\
    w_out w' = w_out w ++ map (fun mp => SocketSend fd (wire (aim handle mp.2))) l.
Proof.
  induction l as [|[m pk] l IH]; intros w (Hf & Hnd & Hheap).
  - exists w. cbn. by rewrite app_nil_r.
  - cbn [map each fst]. apply Forall_cons in Hf as [(Hhd & Hsz & Hp & Hb & Hmax) Hf]. cbn [fst snd map] in *. apply NoDup_cons in Hnd as [Hnin Hnd].
    assert (w_heap w !! hm_buffer m = Some (pk_data pk)) as Hl by (rewrite Hheap; apply lookup_insert_eq). assert ((hm_buffer m =? 0) = false) as H0 by lia.
    pose proof (slice_behind [] (pk_data pk) [] 0 _ eq_refl eq_refl) as Es. cbn [app] in Es. rewrite app_nil_r in Es.
    assert (send_queued fd handle m w = uboss_free (hm_buffer m) (act (SocketSend fd (wire (aim handle pk))) w)) as ->.
    { unfold send_queued, block. rewrite H0. cbn [andb]. rewrite Hl, Hsz. cbn [mbind option_bind]. rewrite Es. cbn [mbind option_bind].
      by rewrite send_remote_wire, Hhd by done. }
    unfold uboss_free. rewrite H0. cbn [act w_heap w_next w_out]. rewrite Hl. cbn [mbind option_bind].
    assert (delete (hm_buffer m) (w_heap w) = pair_heap base l) as Hdel.
    { rewrite Hheap. cbn [pair_heap foldr fst snd]. rewrite delete_insert_eq. apply delete_id. by apply pair_heap_fresh. }
    destruct (IH (World (delete (hm_buffer m) (w_heap w)) (w_next w) (w_out w ++ [SocketSend fd (wire (aim handle pk))]))) as (w' & E & Hh' & Hn' & Ho').
    { cbn [w_heap]. rewrite Hdel. by repeat split. }
    exists w'. split; [exact E|]. split; [done|]. split; [done|]. rewrite Ho'. cbn [w_out map snd]. by rewrite <-app_assoc.
Qed.

(** ** Requests *)

(** A message of a local service for the service [rq_handle] of another node. *)
Record request := Request {
  rq_type : Z;
  rq_session : Z;
  rq_source : Z;
  rq_handle : Z;
  rq_data : list Z
}.

Definition request_packet (rq : request) : packet :=
  Packet (Header (rq_source rq) (Z.lor (u32 (Z.shiftl (rq_type rq) HANDLE_REMOTE_SHIFT)) (Z.land (rq_handle rq) HANDLE_MASK)) (u32 (rq_session rq)))
    (rq_data rq).

(** For the node [i], which is not this one. *)
Definition request_ok (h : harbor) (i : Z) (rq : request) : Prop :=
  Z.shiftr (rq_handle rq) HANDLE_REMOTE_SHIFT = i /\ rq_handle rq <> 0 /\ i <> h_id h /\ zlen (rq_data rq) < 2 ^ 24.

Definition waiting (s : slave) : Prop := sv_fd s = 0 /\ sv_status s <> STATUS_DOWN \/ sv_status s = STATUS_HANDSHAKE.

Definition queue_is (s : slave) (l : list harbor_msg) : Prop :=
  match sv_queue s with None => l = [] | Some q => queue_holds q l end.

Section send.
#[local] Set Default Proof Using "Type*".
Variable junk : Z.
Variable alive : Z -> bool.
Variable h : harbor.
Variable i : Z.
Hypothesis Hi : 0 <= i < zlen (h_s h).

(** The service's message is in a block of its own. *)
Definition send_one (rq : request) (h : harbor) (w : world) : option (harbor * world) :=
  let '(p, w) := uboss_malloc (rq_data rq) w in
  mainloop junk alive h (MRemote (rq_type rq) (rq_session rq) (rq_source rq) [] (rq_handle rq) p (zlen (rq_data rq))) w.

Fixpoint send_all (l : list request) (h : harbor) (w : world) : option (harbor * world) :=
  match l with [] => Some (h, w) | rq :: l => '(h, w) ← send_one rq h w; send_all l h w end.

Lemma world_ok_malloc w l : world_ok w -> world_ok (uboss_malloc l w).2.
Proof. clear. intros [Hn Hf]. split; [cbn; lia|]. cbn. intros q Hq. rewrite lookup_insert_ne by lia. apply Hf. lia. Qed.

Lemma send_one_eq s rq w : request_ok h i rq -> send_one rq (upd h i s) w =
  ('(taken, h', w1) ← (let '(p, w) := uboss_malloc (rq_data rq) w in
    let header := pk_header (request_packet rq) in
    if (sv_fd s =? 0) || bool_decide (sv_status s = STATUS_HANDSHAKE) then
      if bool_decide (sv_status s = STATUS_DOWN) then
        Some (false, upd h i s, act (Log "Drop message to harbor %d from %x to %x (session = %d, msgsz = %d)" [i; rq_source rq; rq_handle rq; rq_session rq; zlen (rq_data rq)])
          (uboss_send alive (rq_handle rq) (rq_source rq) PTYPE_ERROR 0 [] w).2)
      else queue ← push_queue (default new_queue (sv_queue s)) p (zlen (rq_data rq)) header; Some (true, upd h i (with_queue s (Some queue)), w)
    else buffer ← block p (zlen (rq_data rq)) w; Some (false, upd h i s, send_remote (sv_fd s) buffer header w));
   if taken : bool then Some (h', w1) else w1 ← uboss_free (w_next w) w1; Some (h', w1)).
Proof.
  intros (Hh & H0 & Hne & Hmax). unfold send_one, uboss_malloc, mainloop. destruct (Z.eqb_spec (rq_handle rq) 0); [done|]. unfold remote_send_handle. rewrite Hh.
  cbn [upd h_id]. destruct (Z.eqb_spec i (h_id h)); [done|]. fold (upd h i s). rewrite upd_slave by done. cbn [mbind option_bind fst].
  case_match; [case_match|]; [done| |done]. unfold request_packet. cbn [pk_header]. destruct (push_queue _ _ _ _) as [q|]; cbn [mbind option_bind]; [|done].
  by rewrite set_slave_upd.
Qed.

Lemma send_waiting s rq w base l : request_ok h i rq -> waiting s -> queue_is s (map fst l) -> queued base l (w_heap w) -> world_ok w ->
  exists q w' m, send_one rq (upd h i s) w = Some (upd h i (with_queue s (Some q)), w') /\ queue_holds q (map fst (l ++ [(m, request_packet rq)])) /\
    queued base (l ++ [(m, request_packet rq)]) (w_heap w') /\ world_ok w' /\ w_out w' = w_out w.
Proof.
  intros Hok Hwait Hq Hl Hw. rewrite send_one_eq by done. unfold uboss_malloc. cbn [fst].
  assert ((sv_fd s =? 0) || bool_decide (sv_status s = STATUS_HANDSHAKE) = true /\ bool_decide (sv_status s = STATUS_DOWN) = false) as [-> ->].
  { destruct Hwait as [[-> H]| ->]; [|by rewrite orb_true_r]. split; [done|by apply bool_decide_eq_false]. }
  set (m := HarborMsg (pk_header (request_packet rq)) (w_next w) (zlen (rq_data rq))).
  destruct (push_holds (default new_queue (sv_queue s)) (map fst l) m) as (q & E & Hq').
  { unfold queue_is in Hq. destruct (sv_queue s); [done|]. rewrite Hq. apply new_queue_holds. }
  unfold push_queue. fold m. rewrite E. cbn [mbind option_bind]. eexists q, _, m. split; [done|]. rewrite map_app. split; [done|]. cbn [w_heap w_out].
  split; [|split; [by apply (world_ok_malloc w (rq_data rq))|done]]. apply (queued_snoc base l w m (request_packet rq)); try done. by destruct Hok as (_ & _ & _ & ?).
Qed.

Lemma send_open s rq w : request_ok h i rq -> sv_fd s <> 0 -> sv_status s <> STATUS_HANDSHAKE -> world_ok w ->
  exists w', send_one rq (upd h i s) w = Some (upd h i s, w') /\ w_heap w' = w_heap w /\ world_ok w' /\
    w_out w' = w_out w ++ [SocketSend (sv_fd s) (wire (request_packet rq))].
Proof.
  intros Hok Hfd Hst Hw. rewrite send_one_eq by done. unfold uboss_malloc. cbn [fst].
  assert ((sv_fd s =? 0) || bool_decide (sv_status s = STATUS_HANDSHAKE) = false) as -> by (rewrite bool_decide_eq_false_2 by done; lia).
  unfold block. destruct Hw as [Hn Hf]. assert ((w_next w =? 0) = false) as E0 by lia. rewrite E0. cbn [andb w_heap]. rewrite lookup_insert_eq. cbn [mbind option_bind].
  pose proof (slice_behind [] (rq_data rq) [] 0 _ eq_refl eq_refl) as Es. cbn [app] in Es. rewrite app_nil_r in Es. rewrite Es. cbn [mbind option_bind].
  destruct Hok as (_ & _ & _ & Hmax). rewrite send_remote_wire by done. unfold uboss_free. rewrite E0. cbn [act w_heap]. rewrite lookup_insert_eq. cbn [mbind option_bind].
  assert (delete (w_next w) (<[w_next w := rq_data rq]> (w_heap w)) = w_heap w) as E by (rewrite delete_insert_eq; by apply delete_id, Hf).
  eexists. split; [done|]. cbn [w_heap w_next w_out]. rewrite E. split; [done|]. split; [|done]. split; [cbn; lia|]. cbn. intros p Hp. apply Hf. lia.
Qed.

Lemma send_all_waiting rqs : Forall (request_ok h i) rqs -> forall s w base l, waiting s -> queue_is s (map fst l) -> queued base l (w_heap w) -> world_ok w ->
  exists oq w' l', send_all rqs (upd h i s) w = Some (upd h i (with_queue s oq), w') /\ queue_is (with_queue s oq) (map fst (l ++ l')) /\
    map snd l' = map request_packet rqs /\ queued base (l ++ l') (w_heap w') /\ world_ok w' /\ w_out w' = w_out w.
Proof.
  induction 1 as [|rq rqs Hok _ IH]; intros s w base l Hwait Hq Hl Hw.
  - exists (sv_queue s), w, []. cbn [send_all map]. rewrite app_nil_r. split; [by destruct s|]. done.
  - cbn [send_all]. destruct (send_waiting s rq w base l Hok Hwait Hq Hl Hw) as (q & w1 & m & -> & Hq1 & Hl1 & Hw1 & Ho1). cbn [mbind option_bind].
    destruct (IH (with_queue s (Some q)) w1 base (l ++ [(m, request_packet rq)]) Hwait Hq1 Hl1 Hw1) as (oq & w2 & l' & E & Hq2 & Hm & Hl2 & Hw2 & Ho2).
    exists oq, w2, ((m, request_packet rq) :: l'). rewrite <-app_assoc in Hq2, Hl2. split; [exact E|]. split; [exact Hq2|]. cbn [map snd]. rewrite Hm. do 3 (split; [done|]). congruence.
Qed.

Lemma send_all_open rqs : Forall (request_ok h i) rqs -> forall s w, sv_fd s <> 0 -> sv_status s <> STATUS_HANDSHAKE -> world_ok w ->
  exists w', send_all rqs (upd h i s) w = Some (upd h i s, w') /\ w_heap w' = w_heap w /\ world_ok w' /\
    w_out w' = w_out w ++ map (fun rq => SocketSend (sv_fd s) (wire (request_packet rq))) rqs.
Proof.
  induction 1 as [|rq rqs Hok _ IH]; intros s w Hfd Hst Hw.
  - exists w. cbn. by rewrite app_nil_r.
  - cbn [send_all map]. destruct (send_open s rq w Hok Hfd Hst Hw) as (w1 & -> & Hh1 & Hw1 & Ho1). cbn [mbind option_bind].
    destruct (IH s w1 Hfd Hst Hw1) as (w2 & E & Hh2 & Hw2 & Ho2). exists w2. split; [exact E|]. split; [congruence|]. split; [done|].
    rewrite Ho2, Ho1. by rewrite <-app_assoc.
Qed.

(** [dispatch_queue] sends what has waited. *)
Lemma dispatch_queue_at s w base l : sv_fd s <> 0 -> queue_is s (map fst l) -> queued base l (w_heap w) -> world_ok w ->
  exists w', dispatch_queue (upd h i s) i w = Some (upd h i (with_queue s None), w') /\ w_heap w' = base /\ world_ok w' /\
    w_out w' = w_out w ++ map (fun mp => SocketSend (sv_fd s) (wire mp.2)) l.
Proof.
  intros Hfd Hq Hl Hw. unfold dispatch_queue. rewrite upd_slave by done. cbn [mbind option_bind]. unfold cassert. destruct (Z.eqb_spec (sv_fd s) 0); [done|].
  cbn [negb mbind option_bind]. unfold queue_is in Hq. destruct (sv_queue s) as [q|] eqn:Eq.
  - destruct (send_remote_each (sv_fd s) 0 l base w Hl) as (w' & Ee & Hh & Hn & Ho).
    destruct (drain_queue (send_queued (sv_fd s) 0) (map fst l) q w w' Hq Ee) as (q' & -> & Hq'). cbn [mbind option_bind]. rewrite release_empty by done. cbn [mbind option_bind].
    rewrite set_slave_upd by done. cbn [mbind option_bind]. exists w'. do 2 (split; [done|]). split; [|rewrite Ho; f_equal; apply map_ext; intros mp; by rewrite aim_0].
    destruct Hw as [Hw0 Hf]. split; [lia|]. intros p Hp. rewrite Hn in Hp. destruct Hl as (_ & _ & Hheap). specialize (Hf p Hp). rewrite Hheap in Hf. apply pair_heap_in in Hf as [Hf _]. by rewrite Hh.
  - destruct l; [|done]. exists w. cbn [map]. rewrite app_nil_r. destruct Hl as (_ & _ & Hheap). cbn in Hheap. split; [by destruct s; cbn in Eq; subst|]. done.
Qed.

(** ** Connecting *)
Definition connect_command (c : Z) (msg : list Z) (fd : Z) : Prop :=
  exists x args buf, msg = c :: x :: args /\ (c = 83 \/ c = 65) /\ until_zero (args ++ [0]) = Some buf /\ scan_two buf = (fd, i).

Definition connected (s : slave) (fd : Z) (st : status) : slave := Slave fd (sv_queue s) st (sv_length s) (sv_read s) (sv_size s) (sv_recv_buffer s).

Lemma command_connects s c msg fd source w : connect_command c msg fd -> sv_fd s = 0 -> fd <> 0 -> 0 < i < REMOTE_MAX ->
  mainloop junk alive (upd h i s) (MCommand msg source) w =
    let w := act (SocketSend fd [u8 (h_id h)]) (act (SocketStart fd) w) in
    if c =? 83 then Some (upd h i (connected s fd STATUS_HANDSHAKE), w) else dispatch_queue (upd h i (connected s fd STATUS_HEADER)) i w.
Proof.
  intros (x & args & buf & -> & Hc & Hbuf & Hscan) Hs Hfd Hrange. cbn [mainloop]. unfold harbor_command. change ((c :: x :: args).[0]) with (Some c). change (drop 2 (c :: x :: args)) with args.
  cbn [mbind option_bind]. destruct (Z.eqb_spec c 78); [lia|]. assert ((c =? 83) || (c =? 65) = true) as -> by lia. rewrite !zlen_cons. unfold cassert.
  pose proof (zlen_nonneg args). destruct (Z.leb_spec 0 (1 + (1 + zlen args) - 2)); [|lia]. cbn [mbind option_bind]. rewrite Hbuf. cbn [mbind option_bind]. rewrite Hscan.
  assert ((fd =? 0) || (i <=? 0) || (REMOTE_MAX <=? i) = false) as -> by lia. rewrite upd_slave by done. cbn [mbind option_bind]. rewrite Hs. cbn [negb Z.eqb].
  rewrite set_slave_upd by done. cbn [mbind option_bind]. unfold handshake. rewrite upd_slave by done. cbn [mbind option_bind sv_fd]. rewrite !set_slave_upd by done. by destruct (c =? 83).
Qed.

(** The byte with which the other harbor answers. *)
Lemma handshake_at s w base l : sv_status s = STATUS_HANDSHAKE -> sv_fd s <> 0 -> find_slave (upd h i s) (sv_fd s) = Some i -> sv_read s = 0 -> zlen (sv_size s) = 4 ->
  queue_is s (map fst l) -> queued base l (w_heap w) -> world_ok w ->
  exists w', receive junk alive (sv_fd s) [[i]] (upd h i s) w = Some (upd h i (with_status (with_queue s None) STATUS_HEADER), w') /\ w_heap w' = base /\ world_ok w' /\
    w_out w' = w_out w ++ map (fun mp => SocketSend (sv_fd s) (wire mp.2)) l.
Proof.
  intros Hst Hfd Hfind Hread Hsz Hq Hl Hw. cbn [receive]. unfold uboss_malloc, mainloop, UBOSS_SOCKET_TYPE_DATA. rewrite Z.eqb_refl. unfold push_socket_data. rewrite Hfind.
  destruct Hw as [Hw0 Hf]. set (p := w_next w) in *. set (w0 := World (<[p := [i]]> (w_heap w)) (p + 1) (w_out w)).
  assert ((p =? 0) = false) as Hp0 by lia. unfold block. rewrite Hp0. cbn [andb w0 w_heap]. rewrite lookup_insert_eq. cbn [mbind option_bind].
  change (slice [i] 0 (zlen [i])) with (Some [i]). cbn [mbind option_bind length Nat.add]. fold w0. cbn [socket_loop]. unfold socket_turn. rewrite upd_slave by done.
  cbn [mbind option_bind]. rewrite Hst. unfold handshake_turn. change ([i].[0]) with (Some i). cbn [mbind option_bind]. rewrite Z.eqb_refl. cbn [negb].
  rewrite upd_slave by done. cbn [mbind option_bind]. rewrite set_slave_upd by done. cbn [mbind option_bind].
  assert (queued (<[p := [i]]> base) l (w_heap w0)) as Hl0.
  { destruct Hl as (Hfa & Hnd & Hheap). pose proof (Hf p (Z.le_refl _)) as Hnone. rewrite Hheap in Hnone. apply pair_heap_in in Hnone as [Hb Hnin]. split; [|split; [done|]].
    - rewrite Forall_forall in Hfa |- *. intros mp Hmp. destruct (Hfa mp Hmp) as (H1 & H2 & H3 & H4 & H5). do 3 (split; [done|]). split; [|done].
      rewrite lookup_insert_ne; [done|]. intros ->. apply Hnin, list_elem_of_fmap. by exists mp.
    - cbn [w0 w_heap]. rewrite Hheap. clear -Hnin. induction l as [|mp l IH]; [done|]. cbn [map] in Hnin. rewrite not_elem_of_cons in Hnin. destruct Hnin as [Hne Hnin].
      cbn [pair_heap foldr]. rewrite insert_insert_ne by done. f_equal. by apply IH. }
  destruct (dispatch_queue_at (with_status s STATUS_HEADER) w0 (<[p := [i]]> base) l) as (w1 & -> & Hh1 & Hw1 & Ho1); [done|exact Hq|done| |].
  { split; [cbn; lia|]. cbn. intros q Hq'. rewrite lookup_insert_ne by lia. apply Hf. lia. }
  cbn [mbind option_bind drop]. change (zlen (@nil Z) =? 0) with true. cbv iota. cbn [mbind option_bind]. unfold socket_turn. rewrite upd_slave by done. cbn [mbind option_bind with_status with_queue sv_status].
  unfold header_turn. rewrite upd_slave by done. cbn [mbind option_bind with_status with_queue sv_status sv_read sv_size]. rewrite Hread. change (zlen (@nil Z) <? 4 - 0) with true. cbv iota.
  cbn [memcpy mbind option_bind]. rewrite set_slave_upd by done. cbn [mbind option_bind]. unfold uboss_free. rewrite Hp0, Hh1, lookup_insert_eq. cbn [mbind option_bind].
  assert (base !! p = None) as Hb.
  { destruct Hl as (_ & _ & Hheap). pose proof (Hf p (Z.le_refl _)) as Hnone. rewrite Hheap in Hnone. by apply pair_heap_in in Hnone as [? _]. }
  exists (World (delete p (w_heap w1)) (w_next w1) (w_out w1)). split; [|split; [|split; [|exact Ho1]]].
  - unfold with_status, with_queue. cbn [sv_fd sv_queue sv_status sv_length sv_read sv_size sv_recv_buffer]. rewrite Hread, Hh1. reflexivity.
  - cbn [w_heap]. rewrite Hh1, delete_insert_eq. by apply delete_id.
  - by apply world_ok_delete.
Qed.
End send.

(** ** From service to service *)
Lemma slave_index_first fd l : forall (n : nat) k s, l !! n = Some s -> sv_fd s = fd ->
  (forall j s', (j < n)%nat -> l !! j = Some s' -> sv_fd s' <> fd) -> slave_index l k fd = Some (k + Z.of_nat n).
Proof.
  induction l as [|s0 l IH]; intros n k s Hn Hfd Hfirst; [done|]. cbn [slave_index]. destruct n as [|n].
  - cbn in Hn. injection Hn as ->. rewrite Hfd, Z.eqb_refl. f_equal. lia.
  - cbn in Hn. destruct (Z.eqb_spec (sv_fd s0) fd) as [E|_]; [by destruct (Hfirst 0%nat s0 ltac:(lia) eq_refl)|].
    rewrite (IH n (k + 1) s Hn Hfd); [f_equal; lia|]. intros j s' Hj. apply (Hfirst (S j)). lia.
Qed.

Lemma find_slave_fresh h i s fd : 0 < i < zlen (h_s h) -> sv_fd s = fd -> (forall j s', (h_s h).[j] = Some s' -> sv_fd s' <> fd) ->
  find_slave (upd h i s) fd = Some i.
Proof.
  intros Hi Hfd Hfresh. unfold find_slave. rewrite (slave_index_first fd _ (Z.to_nat i - 1) 1 s); [f_equal; lia| |done|].
  - rewrite lookup_drop. replace (1 + (Z.to_nat i - 1))%nat with (Z.to_nat i) by lia. cbn. apply list_lookup_insert_eq. unfold zlen in Hi. lia.
  - intros j s' Hj. rewrite lookup_drop. cbn [upd h_s]. rewrite list_lookup_insert_ne by lia. intros Hs'. apply (Hfresh (Z.of_nat (1 + j)) s'). by rewrite aget_nat.
Qed.

(** What the destination gets. *)
Definition delivered (rq : request) : action :=
  Send (rq_source rq) (rq_handle rq) (Z.lor (rq_type rq) PTYPE_TAG_DONTCOPY) (rq_session rq) (rq_data rq).

(** A message that can be delivered whole; a session is not negative. *)
Definition deliverable (alive : Z -> bool) (rq : request) : Prop :=
  is_u32 (rq_source rq) /\ is_u32 (rq_handle rq) /\ 0 <= rq_type rq < 2 ^ 8 /\ 0 <= rq_session rq < 2 ^ 31 /\
  zlen (rq_data rq) + 12 < 2 ^ 24 /\ alive (rq_handle rq) = true.

Lemma lor_type_handle t n : 0 <= t < 2 ^ 8 -> 0 <= n < 2 ^ 24 -> Z.lor (u32 (Z.shiftl t 24)) n = n + t * 2 ^ 24.
Proof. intros Ht Hn. rewrite Z.lor_comm, u32_small by (unfold is_u32; rewrite Z.shiftl_mul_pow2 by lia; lia). by apply lor_shiftl_add. Qed.

Lemma handle_split v : is_u32 v -> Z.land v HANDLE_MASK = v mod 2 ^ 24 /\ Z.shiftr v HANDLE_REMOTE_SHIFT = v / 2 ^ 24.
Proof. intros Hv. unfold HANDLE_MASK, HANDLE_REMOTE_SHIFT. change 0xffffff with (Z.ones 24). by rewrite Z.land_ones, Z.shiftr_div_pow2 by lia. Qed.

Lemma request_delivered alive id rq : deliverable alive rq -> Z.shiftr (rq_handle rq) HANDLE_REMOTE_SHIFT = id -> rq_handle rq <> 0 ->
  packet_ok alive id (request_packet rq) /\ forwarded id (request_packet rq) = delivered rq.
Proof.
  intros (Hsrc & Hh & Ht & Hs & Hlen & Ha) Hid H0. destruct (handle_split _ Hh) as [Hm Hsh]. rewrite Hsh in Hid. unfold is_u32 in Hh.
  assert (0 <= rq_handle rq mod 2 ^ 24 < 2 ^ 24) as Hr by (apply Z.mod_pos_bound; lia).
  assert (0 <= id < 2 ^ 8) as Hidb by (subst id; split; [apply Z.div_pos; lia|apply Z.div_lt_upper_bound; lia]).
  assert (hd_destination (pk_header (request_packet rq)) = rq_handle rq mod 2 ^ 24 + rq_type rq * 2 ^ 24) as Hd.
  { cbn [request_packet pk_header hd_destination]. rewrite Hm. by apply lor_type_handle. }
  assert (is_u32 (hd_destination (pk_header (request_packet rq)))) as Hdu by (rewrite Hd; unfold is_u32; lia). destruct (handle_split _ Hdu) as [Hm' Hsh'].
  assert (Z.land (hd_destination (pk_header (request_packet rq))) HANDLE_MASK = rq_handle rq mod 2 ^ 24) as Hlow by (rewrite Hm', Hd, Z.mod_add, Z.mod_mod by lia; done).
  assert (Z.shiftr (hd_destination (pk_header (request_packet rq))) HANDLE_REMOTE_SHIFT = rq_type rq) as Htype by (rewrite Hsh', Hd, Z.div_add, Z.div_small by lia; lia).
  assert (Z.lor (Z.land (hd_destination (pk_header (request_packet rq))) HANDLE_MASK) (u32 (Z.shiftl id HANDLE_REMOTE_SHIFT)) = rq_handle rq) as Hdest.
  { rewrite Hlow, Z.lor_comm. unfold HANDLE_REMOTE_SHIFT. rewrite lor_type_handle by lia. pose proof (Z_div_mod_eq_full (rq_handle rq) (2 ^ 24)). lia. }
  split.
  - split; [split; [done|]; split; [done|]; cbn; rewrite u32_small by (unfold is_u32; lia); unfold is_u32; lia|]. split; [done|].
    split; [cbn; rewrite u32_small by (unfold is_u32; lia); lia|]. rewrite Hdest. done.
  - unfold forwarded, delivered. rewrite Hdest, Htype. cbn [request_packet pk_header hd_session hd_source pk_data]. by rewrite u32_small, s32_small by (unfold is_u32, is_s32; lia).
Qed.

(** The bytes written to a socket. *)
Definition sent_to (fd : Z) (out : list action) : list Z :=
  mjoin (map (fun a => match a with SocketSend fd' l => if fd' =? fd then l else [] | _ => [] end) out).

Lemma sent_wires fd pks : sent_to fd (map (fun pk => SocketSend fd (wire pk)) pks) = mjoin (map wire pks).
Proof.
  induction pks as [|pk pks IH]; [done|]. cbn [map]. unfold sent_to in *. cbn [map]. rewrite Z.eqb_refl.
  change (mjoin (wire pk :: ?l)) with (wire pk ++ mjoin l). by rewrite IH.
Qed.

(** C12: messages [l1] for a node that is not connected, [l2] sent while the connection is
    being made and [l3] sent after the other harbor's answer leave the node in this order,
    and every block is freed; however the connection cuts the bytes into pieces, the other
    harbor gives the messages, in this order, each with its source, type, session and data,
    to the services they were sent to, and keeps no block. *)
Theorem harbor_delivers junk alive alive' ha i fd msg cmd wa l1 l2 l3 hb j sb wb :
  0 < i < zlen (h_s ha) -> i < REMOTE_MAX -> (h_s ha).[i] = Some slave_zero -> fd <> 0 -> (forall k s, (h_s ha).[k] = Some s -> sv_fd s <> fd) ->
  connect_command i 83 msg fd -> world_ok wa -> Forall (request_ok ha i) (l1 ++ l2 ++ l3) ->
  h_id hb = i -> (h_s hb).[j] = Some sb -> find_slave hb (sv_fd sb) = Some j -> sv_status sb = STATUS_HEADER -> sv_read sb = 0 -> zlen (sv_size sb) = 4 ->
  world_ok wb -> Forall (deliverable alive') (l1 ++ l2 ++ l3) ->
  exists ha' wa' out,
    ('(h, w) ← send_all junk alive l1 ha wa; '(h, w) ← mainloop junk alive h (MCommand msg cmd) w; '(h, w) ← send_all junk alive l2 h w;
     '(h, w) ← receive junk alive fd [[i]] h w; send_all junk alive l3 h w) = Some (ha', wa') /\
    w_heap wa' = w_heap wa /\ w_out wa' = w_out wa ++ out /\
    forall pieces, Forall (fun l => l <> []) pieces -> sent_to fd out = u8 (h_id ha) :: mjoin pieces ->
      exists hb' wb', receive junk alive' (sv_fd sb) pieces hb wb = Some (hb', wb') /\ w_heap wb' = w_heap wb /\
        w_out wb' = w_out wb ++ map delivered (l1 ++ l2 ++ l3).
Proof.
  intros Hi Hmax Hs Hfd Hfresh Hcmd Hwa Hreq Hid Hsb Hfind Hst Hrd Hsz Hwb Hdel.
  assert (0 <= i < zlen (h_s ha)) as Hi' by lia. apply Forall_app in Hreq as [Hr1 [Hr2 Hr3]%Forall_app].
  rewrite <-(upd_same ha i slave_zero Hs). assert (queued (w_heap wa) [] (w_heap wa)) as Hq0 by (split; [constructor|]; split; [constructor|done]).
  destruct (send_all_waiting junk alive ha i Hi' l1 Hr1 slave_zero wa (w_heap wa) []) as (q1 & w1 & m1 & -> & Hq1 & Hm1 & Hl1 & Hw1 & Ho1); [by left|done|done|done|].
  cbn [mbind option_bind]. rewrite (command_connects junk alive ha i Hi' _ 83 msg fd) by (done || lia). cbv zeta. change (83 =? 83) with true. cbv iota. cbn [mbind option_bind].
  set (s2 := connected (with_queue slave_zero q1) fd STATUS_HANDSHAKE). set (w2 := act _ (act _ w1)).
  destruct (send_all_waiting junk alive ha i Hi' l2 Hr2 s2 w2 (w_heap wa) ([] ++ m1)) as (q2 & w3 & m2 & -> & Hq2 & Hm2 & Hl2 & Hw3 & Ho2); [by right|done|done|done|].
  cbn [mbind option_bind].
  destruct (handshake_at junk alive ha i Hi' (with_queue s2 q2) w3 (w_heap wa) (([] ++ m1) ++ m2)) as (w4 & E4 & Hh4 & Hw4 & Ho4); [done|done|by apply find_slave_fresh|done|done|done|done|done|].
  cbn [with_queue sv_fd s2 connected] in E4. rewrite E4. cbn [mbind option_bind].
  destruct (send_all_open junk alive ha i Hi' l3 Hr3 (with_status (with_queue (with_queue s2 q2) None) STATUS_HEADER) w4) as (w5 & E5 & Hh5 & Hw5 & Ho5); [done|done|done|].
  set (pks := map request_packet (l1 ++ l2 ++ l3)).
  assert (w_out w5 = w_out wa ++ SocketStart fd :: SocketSend fd [u8 (h_id ha)] :: map (fun pk => SocketSend fd (wire pk)) pks) as Hout.
  { rewrite Ho5, Ho4, Ho2. cbn [w2 act w_out]. rewrite Ho1, <-!app_assoc. cbn [with_status with_queue sv_fd s2 connected app]. do 3 f_equal.
    subst pks. rewrite !map_app, <-Hm1, <-Hm2, !map_map. by rewrite <-app_assoc. }
  eexists _, w5, _. split; [exact E5|]. split; [congruence|]. split; [exact Hout|]. intros pieces Hne Hsent.
  assert (mjoin pieces = mjoin (map wire pks)) as Hpieces.
  { unfold sent_to in Hsent. cbn [map] in Hsent. rewrite Z.eqb_refl in Hsent. fold (sent_to fd (map (fun pk => SocketSend fd (wire pk)) pks)) in Hsent.
    change (mjoin ([] :: [u8 (h_id ha)] :: ?l)) with (u8 (h_id ha) :: mjoin l) in Hsent. injection Hsent as Hsent. rewrite <-Hsent. apply sent_wires. }
  assert (Forall (fun rq => packet_ok alive' i (request_packet rq) /\ forwarded i (request_packet rq) = delivered rq) (l1 ++ l2 ++ l3)) as Hboth.
  { assert (Forall (request_ok ha i) (l1 ++ l2 ++ l3)) as Hr by (by rewrite !Forall_app). rewrite Forall_forall in Hr, Hdel |- *. intros rq Hrq.
    destruct (Hr rq Hrq) as (H1 & H2 & _). by apply request_delivered; [apply Hdel|..]. }
  destruct (receive_all junk alive' hb j) with (fd := sv_fd sb) (s := sb) (pks := pks) (pieces := pieces) (w := wb)
    as (s' & w' & E & Hsame & Hst' & Hrd' & Hh' & Ho'); try done.
  { by apply aget_lt_Some in Hsb. }
  { rewrite Hid. apply Forall_map. eapply Forall_impl; [exact Hboth|]. by intros rq [? _]. }
  eexists _, w'. split; [exact E|]. split; [done|]. rewrite Ho'. subst pks. rewrite map_map, Hid. f_equal. apply map_ext_in. intros rq Hrq%list_elem_of_In.
  rewrite Forall_forall in Hboth. by destruct (Hboth rq Hrq).
Qed.

Lemma harbor_delivers_witness :
  let ha := Harbor 1 16777217 hash_new (replicate 256 slave_zero) in
  let sb := Slave 9 None STATUS_HEADER 0 0 [0; 0; 0; 0] 0 in
  let hb := Harbor 2 33554433 hash_new (<[1%nat := sb]> (replicate 256 slave_zero)) in
  let w := World ∅ 1 [] in
  let rq n := Request 10 n 16777220 33554436 [104; 105; n] in
  exists ha' wa' out,
    ('(h, w) ← send_all 0 (fun _ => true) [rq 1; rq 2] ha w; '(h, w) ← mainloop 0 (fun _ => true) h (MCommand (bytes_of "S 7 2") 5) w;
     '(h, w) ← send_all 0 (fun _ => true) [rq 3] h w; '(h, w) ← receive 0 (fun _ => true) 7 [[2]] h w; send_all 0 (fun _ => true) [rq 4] h w) = Some (ha', wa') /\
    w_heap wa' = ∅ /\ w_out wa' = [] ++ out /\
    forall pieces, Forall (fun l => l <> []) pieces -> sent_to 7 out = u8 1 :: mjoin pieces ->
      exists hb' wb', receive 0 (fun _ => true) 9 pieces hb w = Some (hb', wb') /\ w_heap wb' = ∅ /\
        w_out wb' = [] ++ map delivered [rq 1; rq 2; rq 3; rq 4].
Proof.
  intros ha sb hb w rq.
  assert (world_ok w) as Hw by (split; [done|]; intros p _; apply lookup_empty).
  apply (harbor_delivers 0 (fun _ => true) (fun _ => true) ha 2 7 (bytes_of "S 7 2") 5 w [rq 1; rq 2] [rq 3] [rq 4] hb 1 sb w).
  - vm_compute. split; reflexivity.
  - reflexivity.
  - vm_compute. reflexivity.
  - discriminate.
  - intros k s Hk. pose proof (aget_lt_Some _ _ _ Hk) as Hl. cbn [ha h_s] in *. rewrite zlen_replicate in Hl. rewrite aget_replicate in Hk by exact Hl. injection Hk as <-. discriminate.
  - exists 32, (bytes_of "7 2"), (bytes_of "7 2"). split; [reflexivity|]. split; [by left|]. split; vm_compute; reflexivity.
  - exact Hw.
  - repeat apply Forall_cons_2; try apply Forall_nil_2; (split; [vm_compute; reflexivity|split; [discriminate|split; [discriminate|vm_compute; reflexivity]]]).
  - reflexivity.
  - vm_compute. reflexivity.
  - vm_compute. reflexivity.
  - reflexivity.
  - reflexivity.
  - vm_compute. reflexivity.
  - exact Hw.
  - repeat apply Forall_cons_2; try apply Forall_nil_2; (split; [|split; [|split; [|split; [|split; [|reflexivity]]]]]; unfold is_u32; cbn [rq rq_source rq_handle rq_type rq_session rq_data]; try lia; vm_compute; reflexivity).
Defined.
