(* ===== verification/HarborNames.v ===== *)
(** Global names in the harbor: the hash table is a finite map, and messages to a name wait
    until the name is known. *)
From Stdlib Require Import String.
From S2P Require Import Prelude Ring Bytes Buffer CStr Handle Harbor HarborQueue HarborWire HarborSend.
#[local] Set Warnings "-register-all".

(** ** Names *)

(** A name of [GLOBALNAME_LENGTH] bytes: padded with zeros. *)
Definition name_ok (name : list Z) : Prop := exists s k, name = s ++ replicate k 0 /\ ~ 0 ∈ s /\ zlen name = GLOBALNAME_LENGTH.

Lemma strncmp_padded s : forall t j k, ~ 0 ∈ s -> ~ 0 ∈ t -> length (s ++ replicate j 0) = length (t ++ replicate k 0) ->
  strncmp (s ++ replicate j 0) (t ++ replicate k 0) (length (s ++ replicate j 0)) = Some (bool_decide (s ++ replicate j 0 = t ++ replicate k 0)).
Proof.
  induction s as [|x s IH]; intros [|y t] j k Hs Ht Hl; cbn [app] in *; rewrite ?not_elem_of_cons in *.
  - rewrite !length_replicate in Hl. subst k. rewrite bool_decide_true by done. by destruct j.
  - destruct j as [|j]; [done|]. cbn [replicate length strncmp app]. destruct (Z.eqb_spec 0 y); [tauto|]. by rewrite bool_decide_false by congruence.
  - destruct k as [|k]; [done|]. cbn [replicate length strncmp app]. destruct (Z.eqb_spec x 0); [naive_solver|]. by rewrite bool_decide_false by congruence.
  - cbn [length strncmp]. destruct (Z.eqb_spec x y) as [->|Hne].
    + destruct (Z.eqb_spec y 0); [naive_solver|]. cbn [length] in Hl. rewrite IH by (tauto || lia). f_equal. apply bool_decide_ext. split; congruence.
    + by rewrite bool_decide_false by congruence.
Qed.

Lemma strncmp_names a b : name_ok a -> name_ok b -> strncmp a b (Z.to_nat GLOBALNAME_LENGTH) = Some (bool_decide (a = b)).
Proof.
  intros (s & j & -> & Hs & Ha) (t & k & -> & Ht & Hb). rewrite <-Ha at 1. unfold zlen in *. rewrite Nat2Z.id. apply strncmp_padded; [done|done|lia].
Qed.

(** ** The table *)
Definition node_ok (c : Z) (kv : keyvalue) : Prop := name_ok (kv_key kv) /\ kv_hash kv = name_hash (kv_key kv) /\ kv_hash kv mod HASH_SIZE = c.

Definition chain_ok (c : Z) (l : list keyvalue) : Prop := Forall (node_ok c) l /\ NoDup (map kv_key l).

(** The table holds the map [t] of names to nodes. *)
Definition table_holds (m : hashmap) (t : gmap (list Z) keyvalue) : Prop :=
  zlen m = HASH_SIZE /\ (forall c l, m.[c] = Some l -> chain_ok c l) /\
  forall name kv, t !! name = Some kv <-> kv_key kv = name /\ exists l, m.[name_hash name mod HASH_SIZE] = Some l /\ kv ∈ l.

Lemma hash_new_holds : table_holds hash_new ∅.
Proof.
  assert (forall c l, hash_new.[c] = Some l -> l = []) as Hempty.
  { intros c l Hc. pose proof (aget_lt_Some _ _ _ Hc) as Hl. unfold hash_new in *. rewrite zlen_replicate in Hl. rewrite aget_replicate in Hc by done. congruence. }
  split; [unfold hash_new; by rewrite zlen_replicate|]. split.
  - intros c l ->%Hempty. split; [constructor|constructor].
  - intros name kv. rewrite lookup_empty. split; [done|]. intros (_ & l & Hl%Hempty & Hin). subst l. by apply not_elem_of_nil in Hin.
Qed.

Lemma bucket_range name : 0 <= name_hash name mod HASH_SIZE < HASH_SIZE.
Proof. by apply Z.mod_pos_bound. Qed.

Lemma chain_search_spec c l name : Forall (node_ok c) l -> name_ok name -> NoDup (map kv_key l) -> forall i,
  (exists j kv, l !! j = Some kv /\ kv_key kv = name /\ chain_search l (name_hash name) name i = Some (Some (i + Z.of_nat j))) \/
  ((forall kv, kv ∈ l -> kv_key kv <> name) /\ chain_search l (name_hash name) name i = Some None).
Proof.
  intros Hl Hname. induction Hl as [|kv l (Hk & Hh & Hc) Hl IH]; intros Hnd i; cbn [chain_search map] in *.
  - right. split; [by intros kv ?%not_elem_of_nil|done].
  - apply NoDup_cons in Hnd as [Hnin Hnd]. destruct (decide (kv_key kv = name)) as [E|E].
    + left. exists 0%nat, kv. split; [done|]. split; [done|]. rewrite Hh, E, Z.eqb_refl. rewrite <-E at 1. rewrite strncmp_names by (done || by rewrite E).
      cbn [mbind option_bind]. rewrite bool_decide_true by done. do 2 f_equal. lia.
    + assert ((if kv_hash kv =? name_hash name then same ← strncmp (kv_key kv) name (Z.to_nat GLOBALNAME_LENGTH);
          if same : bool then Some (Some i) else chain_search l (name_hash name) name (i + 1) else chain_search l (name_hash name) name (i + 1)) =
        chain_search l (name_hash name) name (i + 1)) as ->.
      { case_match; [|done]. rewrite strncmp_names by done. cbn [mbind option_bind]. by rewrite bool_decide_false. }
      destruct (IH Hnd (i + 1)) as [(j & kv' & Hj & Hkey & Es)|[Hno Es]].
      * left. exists (S j), kv'. split; [done|]. split; [done|]. rewrite Es. do 2 f_equal. lia.
      * right. split; [|done]. intros kv' [->|?]%elem_of_cons; [done|by apply Hno].
Qed.

(** A node's pointer. *)
Definition node_at (m : hashmap) (node : Z * Z) (name : list Z) (kv : keyvalue) : Prop :=
  node.1 = name_hash name mod HASH_SIZE /\ get_node m node = Some kv /\ kv_key kv = name.

Lemma set_node_holds m t node name kv kv' : table_holds m t -> node_at m node name kv -> kv_key kv' = name -> kv_hash kv' = kv_hash kv ->
  exists m', set_node m node kv' = Some m' /\ table_holds m' (<[name := kv']> t) /\ node_at m' node name kv'.
Proof.
  intros (Hlen & Hchains & Ht) (Hc & Hget & Hkey) Hkey' Hhash. unfold get_node, set_node in *. destruct (m.[node.1]) as [l|] eqn:El; [|done]. cbn [mbind option_bind] in *.
  pose proof (aget_lt_Some _ _ _ Hget) as Hi. pose proof (aget_lt_Some _ _ _ El) as Hm. rewrite aset_Some by done. cbn [mbind option_bind].
  rewrite aset_Some by done. eexists. split; [done|]. destruct (Hchains _ _ El) as [Hok Hnd].
  assert (l !! Z.to_nat node.2 = Some kv) as Hlk by (unfold aget in Hget; by rewrite decide_True in Hget by lia).
  assert (map kv_key (<[Z.to_nat node.2 := kv']> l) = map kv_key l) as Hkeys.
  { change (kv_key <$> <[Z.to_nat node.2 := kv']> l = kv_key <$> l). rewrite list_fmap_insert. apply list_insert_id. by rewrite list_lookup_fmap, Hlk, Hkey', <-Hkey. }
  split; [split; [by rewrite zlen_insert|split]|].
  - intros c l' Hl'. destruct (decide (0 <= c)); [|rewrite aget_None in Hl' by lia; done]. rewrite aget_insert in Hl' by lia. case_decide as Hd; [|by apply Hchains].
    injection Hl' as <-. subst c. split; [|by rewrite Hkeys]. apply Forall_insert; [done|]. rewrite Forall_lookup in Hok. destruct (Hok _ _ Hlk) as (H1 & H2 & H3).
    unfold node_ok. rewrite Hkey', Hhash. by rewrite <-Hkey.
  - intros name' kv''. destruct (decide (name' = name)) as [->|Hne].
    + rewrite lookup_insert_eq. rewrite <-Hc. rewrite aget_insert by lia. rewrite decide_True by done. split.
      * intros [= <-]. split; [done|]. eexists. split; [done|]. apply list_elem_of_insert. apply lookup_lt_Some in Hlk. done.
      * intros (Hk'' & l' & [= <-] & Hin). apply list_elem_of_lookup in Hin as [j Hj]. f_equal.
        assert (j = Z.to_nat node.2) as ->; [|rewrite list_lookup_insert_eq in Hj by (by apply lookup_lt_Some in Hlk); congruence].
        rewrite <-Hkeys in Hnd. eapply NoDup_lookup; [exact Hnd|change (map kv_key ?x) with (kv_key <$> x); rewrite list_lookup_fmap, Hj; cbn; by rewrite Hk''|].
        change (map kv_key ?x) with (kv_key <$> x). rewrite list_lookup_fmap, list_lookup_insert_eq by (by apply lookup_lt_Some in Hlk). cbn. by rewrite Hkey'.
    + rewrite lookup_insert_ne by done. rewrite Ht. pose proof (bucket_range name'). rewrite aget_insert by (rewrite ?Hlen; lia). case_decide as Hd; [|done].
      rewrite <-Hd, El. split; intros (Hk'' & l' & [= <-] & Hin); (split; [done|]); eexists; (split; [done|]).
      * apply list_elem_of_lookup in Hin as [j Hj]. apply list_elem_of_lookup. exists j. rewrite list_lookup_insert_ne; [done|]. intros <-. congruence.
      * apply list_elem_of_lookup in Hin as [j Hj]. apply list_elem_of_lookup. exists j. rewrite list_lookup_insert_ne in Hj; [done|]. intros <-.
        rewrite list_lookup_insert_eq in Hj by (by apply lookup_lt_Some in Hlk). congruence.
  - split; [done|]. split; [|done]. unfold get_node. rewrite aget_insert by lia. rewrite decide_True by done. cbn [mbind option_bind].
    rewrite aget_insert by lia. by rewrite decide_True.
Qed.

(** [hash_search], and [hash_insert] when there is nothing: the node of the name. *)
Definition name_node (t : gmap (list Z) keyvalue) (name : list Z) : keyvalue := default (KeyValue name (name_hash name) 0 None) (t !! name).

Lemma search_or_insert_holds m t name : table_holds m t -> name_ok name ->
  exists node m', search_or_insert m name = Some (node, m') /\ table_holds m' (<[name := name_node t name]> t) /\ node_at m' node name (name_node t name).
Proof.
  intros Hm Hname. pose proof Hm as (Hlen & Hchains & Ht). pose proof (bucket_range name) as Hb. unfold search_or_insert, hash_search.
  destruct (aget_is_Some m (name_hash name mod HASH_SIZE)) as [l El]; [lia|]. rewrite El. cbn [mbind option_bind]. destruct (Hchains _ _ El) as [Hok Hnd].
  destruct (chain_search_spec _ l name Hok Hname Hnd 0) as [(j & kv & Hj & Hkey & ->)|[Hno ->]]; cbn [mbind option_bind].
  - assert (t !! name = Some kv) as Htn by (apply Ht; split; [done|]; exists l; split; [done|]; apply list_elem_of_lookup; by exists j).
    eexists _, m. split; [done|]. unfold name_node. rewrite Htn. cbn [default]. rewrite insert_id by done. split; [done|]. split; [done|]. split; [|done].
    unfold get_node. cbn [fst snd]. rewrite El. cbn [mbind option_bind]. unfold aget. rewrite decide_True by lia. by replace (Z.to_nat (0 + Z.of_nat j)) with j by lia.
  - assert (t !! name = None) as Htn.
    { destruct (t !! name) as [kv|] eqn:E; [|done]. apply Ht in E as (Hk & l' & El' & Hin). rewrite El in El'. injection El' as <-. by destruct (Hno kv). }
    unfold hash_insert. rewrite El. cbn [mbind option_bind]. rewrite aset_Some by lia. cbn [mbind option_bind].
    assert (take (Z.to_nat GLOBALNAME_LENGTH) name = name) as -> by (destruct Hname as (s & k & _ & _ & Hz); rewrite <-Hz; unfold zlen; by rewrite Nat2Z.id, firstn_all).
    unfold name_node. rewrite Htn. cbn [default]. set (kv := KeyValue name (name_hash name) 0 None). eexists _, _. split; [done|]. split; [split; [by rewrite zlen_insert|split]|].
    + intros c l' Hl'. destruct (decide (0 <= c)); [|rewrite aget_None in Hl' by lia; done]. rewrite aget_insert in Hl' by lia. case_decide as Hd; [|by apply Hchains].
      injection Hl' as <-. subst c. split; [apply Forall_cons; split; [by split|done]|]. cbn [map]. apply NoDup_cons. split; [|done].
      intros Hin. change (map kv_key l) with (kv_key <$> l) in Hin. apply list_elem_of_fmap in Hin as (kv' & E & Hin). by destruct (Hno kv' Hin).
    + intros name' kv'. destruct (decide (name' = name)) as [->|Hne].
      * rewrite lookup_insert_eq. rewrite aget_insert by lia. rewrite decide_True by done. split; [intros [= <-]; split; [done|]; eexists; split; [done|by left]|].
        intros (Hk & l' & [= <-] & Hin). apply elem_of_cons in Hin as [->|Hin]; [done|]. by destruct (Hno kv').
      * rewrite lookup_insert_ne by done. rewrite Ht. pose proof (bucket_range name'). rewrite aget_insert by lia. case_decide as Hd; [|done].
        rewrite <-Hd, El. split; intros (Hk & l' & [= <-] & Hin); (split; [done|]); eexists; (split; [done|]); [by right|].
        apply elem_of_cons in Hin as [->|Hin]; [by destruct Hne|done].
    + split; [done|]. split; [|done]. unfold get_node. cbn [fst snd]. rewrite aget_insert by lia. by rewrite decide_True.
Qed.

(** ** Messages to a name *)
Definition padded (s : list Z) : list Z := s ++ replicate (16 - length s) 0.

Lemma padded_ok s : ~ 0 ∈ s -> zlen s < 16 -> name_ok (padded s).
Proof. intros H0 Hs. exists s, (16 - length s)%nat. split; [done|]. split; [done|]. unfold padded. rewrite zlen_app, zlen_replicate. unfold zlen, GLOBALNAME_LENGTH in *. lia. Qed.

(** The packet of a message whose destination is not yet known. *)
Definition name_packet (rq : request) : packet :=
  Packet (Header (rq_source rq) (u32 (Z.shiftl (rq_type rq) HANDLE_REMOTE_SHIFT)) (u32 (rq_session rq))) (rq_data rq).

Lemma aim_name_packet rq : aim (Z.land (rq_handle rq) HANDLE_MASK) (name_packet rq) = request_packet rq.
Proof. done. Qed.

Section names.
#[local] Set Default Proof Using "Type*".
Variable junk : Z.
Variable alive : Z -> bool.

(** The services's message for the name, in a block of its own. *)
Definition send_name (name : list Z) (rq : request) (h : harbor) (w : world) : option (harbor * world) :=
  let '(p, w) := uboss_malloc (rq_data rq) w in
  mainloop junk alive h (MRemote (rq_type rq) (rq_session rq) (rq_source rq) name 0 p (zlen (rq_data rq))) w.

Fixpoint send_names (name : list Z) (l : list request) (h : harbor) (w : world) : option (harbor * world) :=
  match l with [] => Some (h, w) | rq :: l => '(h, w) ← send_name name rq h w; send_names name l h w end.

Definition node_queue_is (kv : keyvalue) (l : list harbor_msg) : Prop :=
  match kv_queue kv with None => l = [] | Some q => queue_holds q l end.

Lemma set_node_queue_at h node name kv q t : table_holds (h_map h) t -> node_at (h_map h) node name kv ->
  exists m, set_node_queue h node q = Some (set_map h m) /\ table_holds m (<[name := node_queue kv q]> t) /\ node_at m node name (node_queue kv q).
Proof.
  clear. intros Ht Hn. pose proof Hn as (_ & Hget & Hkey). unfold set_node_queue. rewrite Hget. cbn [mbind option_bind].
  destruct (set_node_holds (h_map h) t node name kv (node_queue kv q) Ht Hn) as (m & -> & Hm & Hn'); [done|done|]. cbn [mbind option_bind]. by exists m.
Qed.

Definition query (h : harbor) (s : list Z) : action := Send 0 (h_slave h) PTYPE_TEXT 0 (bytes_of "Q " ++ s).

Lemma send_name_waiting h t s rq w base l : table_holds (h_map h) t -> ~ 0 ∈ s -> zlen s < 16 -> h_slave h <> 0 -> alive (h_slave h) = true ->
  let kv := name_node t (padded s) in kv_value kv = 0 -> node_queue_is kv (map fst l) -> queued base l (w_heap w) -> world_ok w -> zlen (rq_data rq) < 2 ^ 24 ->
  exists m w' q msg, send_name (padded s) rq h w = Some (set_map h m, w') /\ table_holds m (<[padded s := node_queue kv (Some q)]> t) /\
    queue_holds q (map fst (l ++ [(msg, name_packet rq)])) /\ queued base (l ++ [(msg, name_packet rq)]) (w_heap w') /\ world_ok w' /\
    w_out w' = w_out w ++ [query h s].
Proof.
  intros Ht H0 Hs Hslave Halive kv Hv Hq Hl Hw Hmax. unfold send_name, uboss_malloc, mainloop. rewrite Z.eqb_refl. unfold remote_send_name.
  destruct (search_or_insert_holds (h_map h) t (padded s) Ht (padded_ok s H0 Hs)) as (node & m1 & -> & Ht1 & Hn1). cbn [mbind option_bind]. fold kv in Ht1, Hn1.
  pose proof Hn1 as (_ & Hget & _). rewrite Hget. cbn [mbind option_bind]. rewrite Hv, Z.eqb_refl.
  set (msg := HarborMsg (pk_header (name_packet rq)) (w_next w) (zlen (rq_data rq))).
  destruct (push_holds (default new_queue (kv_queue kv)) (map fst l) msg) as (q & E & Hq').
  { unfold node_queue_is in Hq. destruct (kv_queue kv); [done|]. rewrite Hq. apply new_queue_holds. }
  unfold push_queue. change (HarborMsg (Header _ _ _) _ _) with msg. rewrite E. cbn [mbind option_bind].
  destruct (set_node_queue_at (set_map h m1) node (padded s) kv (Some q) _ Ht1 Hn1) as (m2 & -> & Ht2 & Hn2). cbn [mbind option_bind].
  assert (until_zero ((bytes_of "Q " ++ take (Z.to_nat GLOBALNAME_LENGTH) (padded s)) ++ [0]) = Some (bytes_of "Q " ++ s)) as ->.
  { assert (take (Z.to_nat GLOBALNAME_LENGTH) (padded s) = padded s) as ->.
    { apply take_ge. unfold padded. rewrite length_app, length_replicate. unfold zlen, GLOBALNAME_LENGTH in *. lia. }
    unfold padded. destruct (16 - length s)%nat as [|k] eqn:Ek; [unfold zlen in Hs; lia|]. cbn [replicate].
    rewrite <-!app_assoc. change ((0 :: ?x) ++ ?y) with (0 :: x ++ y). rewrite app_assoc. apply until_zero_app.
    rewrite not_elem_of_app. split; [|done]. intros Hin. vm_compute in Hin. by repeat (apply elem_of_cons in Hin as [?|Hin]; [done|]); apply not_elem_of_nil in Hin. }
  cbn [mbind option_bind]. eexists m2, _, q, msg. rewrite insert_insert_eq in Ht2. split; [reflexivity|]. split; [exact Ht2|]. split; [by rewrite map_app|].
  unfold uboss_send. cbn [set_map h_slave].
  assert (size_fits (zlen (bytes_of "Q " ++ s)) = true) as ->.
  { rewrite zlen_app. change (zlen (bytes_of "Q ")) with 2. pose proof (zlen_nonneg s). apply size_fits_small. lia. }
  cbn [negb].
  destruct (Z.eqb_spec (h_slave h) 0); [done|]. rewrite Halive. cbn [snd act w_heap w_next w_out]. split; [by apply (queued_snoc base l w msg (name_packet rq))|].
  split; [apply (world_ok_malloc w (rq_data rq) Hw)|done].
Qed.

Lemma send_names_waiting s (H0 : ~ 0 ∈ s) (Hs : zlen s < 16) rqs : Forall (fun rq => zlen (rq_data rq) < 2 ^ 24) rqs -> forall h t w base l,
  table_holds (h_map h) t -> h_slave h <> 0 -> alive (h_slave h) = true -> let kv := name_node t (padded s) in kv_value kv = 0 ->
  node_queue_is kv (map fst l) -> queued base l (w_heap w) -> world_ok w ->
  exists m w' t' l', send_names (padded s) rqs h w = Some (set_map h m, w') /\ table_holds m t' /\
    delete (padded s) t' = delete (padded s) t /\ kv_value (name_node t' (padded s)) = 0 /\ node_queue_is (name_node t' (padded s)) (map fst (l ++ l')) /\
    map snd l' = map name_packet rqs /\ queued base (l ++ l') (w_heap w') /\ world_ok w' /\ w_out w' = w_out w ++ map (fun _ => query h s) rqs.
Proof.
  induction 1 as [|rq rqs Hrq _ IH]; intros h t w base l Ht Hslave Halive kv Hv Hq Hl Hw.
  - exists (h_map h), w, t, []. cbn [send_names map]. rewrite !app_nil_r. split; [by destruct h|]. done.
  - cbn [send_names]. destruct (send_name_waiting h t s rq w base l Ht H0 Hs Hslave Halive Hv Hq Hl Hw Hrq) as (m1 & w1 & q & msg & -> & Ht1 & Hq1 & Hl1 & Hw1 & Ho1).
    cbn [mbind option_bind].
    destruct (IH (set_map h m1) _ w1 base (l ++ [(msg, name_packet rq)]) Ht1 Hslave Halive) as (m2 & w2 & t2 & l' & E & Ht2 & Hd & Hv2 & Hq2 & Hm2 & Hl2 & Hw2 & Ho2).
    { unfold name_node. rewrite lookup_insert_eq. exact Hv. } { unfold name_node. by rewrite lookup_insert_eq. } { done. } { done. }
    exists m2, w2, t2, ((msg, name_packet rq) :: l'). rewrite <-app_assoc in Hq2, Hl2. split; [exact E|]. split; [done|]. split; [by rewrite Hd, delete_insert_eq|].
    split; [done|]. split; [exact Hq2|]. cbn [map snd]. rewrite Hm2. split; [done|]. split; [exact Hl2|]. split; [done|]. rewrite Ho2, Ho1. by rewrite <-app_assoc.
Qed.

(** The node of a name that gets its handle: what has waited is sent. *)
Lemma update_name_at h t s handle sl w base l : table_holds (h_map h) t -> ~ 0 ∈ s -> zlen s < 16 ->
  (h_s h).[Z.shiftr handle HANDLE_REMOTE_SHIFT] = Some sl -> sv_fd sl <> 0 ->
  node_queue_is (name_node t (padded s)) (map fst l) -> queued base l (w_heap w) ->
  exists m w', update_name alive h (padded s) handle w = Some (set_map h m, w') /\
    table_holds m (<[padded s := KeyValue (padded s) (name_hash (padded s)) handle None]> t) /\ w_heap w' = base /\ w_next w' = w_next w /\
    w_out w' = w_out w ++ map (fun mp => SocketSend (sv_fd sl) (wire (aim (Z.land handle HANDLE_MASK) mp.2))) l.
Proof.
  intros Ht H0 Hs Hsl Hfd Hq Hl. unfold update_name. pose proof (padded_ok s H0 Hs) as Hname.
  destruct (search_or_insert_holds (h_map h) t (padded s) Ht Hname) as (node & m1 & -> & Ht1 & Hn1). cbn [mbind option_bind]. set (kv := name_node t (padded s)) in *.
  assert (kv_key kv = padded s /\ kv_hash kv = name_hash (padded s)) as [Hk Hh].
  { subst kv. unfold name_node. destruct (t !! padded s) as [kv|] eqn:E; [|done]. cbn [default]. destruct Ht as (_ & Hchains & Ht). apply Ht in E as (Hk & c & El & Hin).
    split; [done|]. destruct (Hchains _ _ El) as [Hok _]. rewrite Forall_forall in Hok. destruct (Hok _ Hin) as (_ & Hh & _). cbn. by rewrite Hh, Hk. }
  pose proof Hn1 as (_ & Hget & _). rewrite Hget. cbn [mbind option_bind].
  destruct (set_node_holds m1 _ node (padded s) kv (node_value kv handle) Ht1 Hn1 Hk eq_refl) as (m2 & -> & Ht2 & Hn2). cbn [mbind option_bind].
  rewrite insert_insert_eq in Ht2. unfold node_queue_is in Hq.
  assert (forall q, node_queue (node_value kv handle) q = KeyValue (padded s) (name_hash (padded s)) handle q) as Hnode by (intros q; unfold node_queue, node_value; cbn; by rewrite Hk, Hh).
  destruct (kv_queue kv) as [q|] eqn:Eq.
  - unfold dispatch_name_queue. pose proof Hn2 as (_ & Hget2 & _). cbn [set_map h_map h_s]. rewrite Hget2. cbn [mbind option_bind node_value kv_queue kv_value]. rewrite Eq. cbn [mbind option_bind].
    rewrite Hsl. cbn [mbind option_bind]. destruct (Z.eqb_spec (sv_fd sl) 0); [done|].
    destruct (send_remote_each (sv_fd sl) (Z.land handle HANDLE_MASK) l base w Hl) as (w' & Ee & Hh' & Hn' & Ho').
    destruct (drain_queue (send_queued (sv_fd sl) (Z.land handle HANDLE_MASK)) (map fst l) q w w' Hq Ee) as (q' & -> & Hq'). cbn [mbind option_bind].
    destruct (set_node_queue_at (set_map h m2) node (padded s) _ (Some q') _ Ht2 Hn2) as (m3 & -> & Ht3 & Hn3). cbn [mbind option_bind set_map h_map].
    pose proof Hn3 as (_ & Hget3 & _). rewrite Hget3. cbn [mbind option_bind node_queue kv_queue]. rewrite release_empty by done. cbn [mbind option_bind].
    destruct (set_node_queue_at (set_map h m3) node (padded s) _ None _ Ht3 Hn3) as (m4 & E4 & Ht4 & _). change (set_node_queue (set_map h m3) node None) with (set_node_queue (set_map (set_map h m2) m3) node None) in E4. rewrite E4. cbn [mbind option_bind].
    exists m4, w'. split; [done|]. rewrite !insert_insert_eq in Ht4. change (node_queue (node_queue ?x _) None) with (node_queue x None) in Ht4. rewrite Hnode in Ht4. done.
  - destruct l; [|done]. exists m2, w. cbn [map]. rewrite app_nil_r. split; [done|]. destruct Hl as (_ & _ & Hheap). cbn in Hheap.
    assert (node_value kv handle = KeyValue (padded s) (name_hash (padded s)) handle None) as E by (unfold node_value; by rewrite Hk, Hh, Eq). rewrite E in Ht2. done.
Qed.
End names.

(** C13: messages to a name that the harbor does not know wait, and each asks the slave
    service for the name; when the command that names it arrives and the name's node is
    connected, they are sent there in their order, with the handle as their destination,
    their blocks are freed, and from then on the table, which implements a finite map,
    has the handle. *)
Theorem harbor_names junk alive h t w s x rqs handle sl :
  table_holds (h_map h) t -> t !! padded s = None -> ~ 0 ∈ s -> 0 < zlen s < 16 -> h_slave h <> 0 -> alive (h_slave h) = true -> world_ok w ->
  (h_s h).[Z.shiftr handle HANDLE_REMOTE_SHIFT] = Some sl -> sv_fd sl <> 0 ->
  Forall (fun rq => rq_handle rq = handle /\ zlen (rq_data rq) < 2 ^ 24) rqs ->
  exists m w', ('(h, w) ← send_names junk alive (padded s) rqs h w; mainloop junk alive h (MCommand (78 :: x :: s) handle) w) = Some (set_map h m, w') /\
    table_holds m (<[padded s := KeyValue (padded s) (name_hash (padded s)) handle None]> t) /\ w_heap w' = w_heap w /\
    w_out w' = w_out w ++ map (fun _ => query h s) rqs ++ map (fun rq => SocketSend (sv_fd sl) (wire (request_packet rq))) rqs.
Proof.
  intros Ht Hnone H0 Hs Hslave Halive Hw Hsl Hfd Hrqs.
  assert (queued (w_heap w) [] (w_heap w)) as Hq0 by (split; [constructor|]; split; [constructor|done]).
  destruct (send_names_waiting junk alive s H0 ltac:(lia) rqs) with (h := h) (t := t) (w := w) (base := w_heap w) (l := @nil (harbor_msg * packet))
    as (m1 & w1 & t1 & l & -> & Ht1 & Hd1 & Hv1 & Hq1 & Hm1 & Hl1 & Hw1 & Ho1); try done.
  { eapply Forall_impl; [exact Hrqs|]. by intros rq [_ ?]. } { unfold name_node. by rewrite Hnone. } { unfold name_node. by rewrite Hnone. }
  cbn [mbind option_bind mainloop]. unfold harbor_command. change ((78 :: x :: s).[0]) with (Some 78). change (drop 2 (78 :: x :: s)) with s. cbn [mbind option_bind].
  change (78 =? 78) with true. cbv iota. rewrite !zlen_cons. replace (1 + (1 + zlen s) - 2) with (zlen s) by lia. unfold GLOBALNAME_LENGTH.
  assert ((zlen s <=? 0) || (16 <=? zlen s) = false) as -> by lia.
  replace (s ++ replicate (Z.to_nat (16 - zlen s)) 0) with (padded s) by (unfold padded, zlen; do 2 f_equal; lia).
  destruct (update_name_at alive (set_map h m1) t1 s handle sl w1 (w_heap w) l Ht1 H0 ltac:(lia) Hsl Hfd Hq1 Hl1) as (m2 & w2 & -> & Ht2 & Hh2 & Hn2 & Ho2).
  exists m2, w2. split; [done|]. split; [|split; [done|]].
  - rewrite <-insert_delete_eq, Hd1, insert_delete_eq in Ht2. done.
  - rewrite Ho2, Ho1, <-app_assoc. do 2 f_equal. transitivity (map (fun pk => SocketSend (sv_fd sl) (wire (aim (Z.land handle HANDLE_MASK) pk))) (map snd l)); [by rewrite map_map|].
    rewrite Hm1, map_map. apply map_ext_in. intros rq Hrq%list_elem_of_In. rewrite Forall_forall in Hrqs. destruct (Hrqs rq Hrq) as [<- _]. by rewrite aim_name_packet.
Qed.

Definition sample_harbor : harbor := Harbor 1 16777217 hash_new (<[2%nat := Slave 7 None STATUS_HEADER 0 0 [0; 0; 0; 0] 0]> (replicate 256 slave_zero)).

Lemma harbor_names_witness :
  let rq n := Request 10 n 16777220 33554436 [104; 105; n] in
  exists m w', ('(h, w) ← send_names 0 (fun _ => true) (padded (bytes_of "launcher")) [rq 1; rq 2] sample_harbor (World ∅ 1 []);
      mainloop 0 (fun _ => true) h (MCommand (78 :: 32 :: bytes_of "launcher") 33554436) w) = Some (set_map sample_harbor m, w') /\
    table_holds m (<[padded (bytes_of "launcher") := KeyValue (padded (bytes_of "launcher")) (name_hash (padded (bytes_of "launcher"))) 33554436 None]> ∅) /\
    w_heap w' = ∅ /\
    w_out w' = [] ++ map (fun _ => query sample_harbor (bytes_of "launcher")) [rq 1; rq 2] ++ map (fun rq => SocketSend 7 (wire (request_packet rq))) [rq 1; rq 2].
Proof.
  intros rq. apply (harbor_names 0 (fun _ => true) sample_harbor ∅ (World ∅ 1 []) (bytes_of "launcher") 32 [rq 1; rq 2] 33554436 (Slave 7 None STATUS_HEADER 0 0 [0; 0; 0; 0] 0)).
  - exact hash_new_holds.
  - reflexivity.
  - intros H. vm_compute in H. by repeat (apply elem_of_cons in H as [H|H]; [done|]); apply not_elem_of_nil in H.
  - vm_compute. split; reflexivity.
  - discriminate.
  - reflexivity.
  - split; [done|]. intros p _. apply lookup_empty.
  - vm_compute. reflexivity.
  - discriminate.
  - repeat apply Forall_cons_2; try apply Forall_nil_2; (split; [reflexivity|vm_compute; reflexivity]).
Defined.

(** ** Faults *)

(** A message to a name whose node is not yet connected when the name becomes known
    leaves with the destination 0 in place of the handle: the other harbor cannot
    deliver it. *)
Theorem name_loses_handle : exists h w data,
  let h0 := Harbor 1 16777217 hash_new (replicate 256 slave_zero) in
  ('(h, w) ← send_name 0 (fun _ => true) (padded (bytes_of "launcher")) (Request 10 1 16777220 33554436 data) h0 (World ∅ 1 []);
   '(h, w) ← mainloop 0 (fun _ => true) h (MCommand (bytes_of "N launcher") 33554436) w;
   mainloop 0 (fun _ => true) h (MCommand (bytes_of "A 7 2") 5) w) = Some (h, w) /\
  sent_to 7 (w_out w) = u8 1 :: wire (Packet (Header 16777220 (Z.shiftl 10 24) 1) data).
Proof. vm_compute. eexists _, _, [104; 105]. split; reflexivity. Qed.

(** Data from a socket that no slave has is freed twice. *)
Theorem unknown_socket_double_free junk alive h w fd ud p l : find_slave h fd = None -> w_heap w !! p = Some l -> p <> 0 ->
  mainloop junk alive h (MSocket UBOSS_SOCKET_TYPE_DATA fd ud p) w = None.
Proof.
  intros Hf Hp H0. unfold mainloop. rewrite Z.eqb_refl. unfold push_socket_data. rewrite Hf. unfold uboss_free.
  destruct (Z.eqb_spec p 0); [done|]. rewrite Hp. cbn [mbind option_bind act w_heap]. by rewrite lookup_delete_eq.
Qed.
