(* ===== verification/Cluster.v ===== *)
(** lib/cluster/lua-cluster.c: requests and responses between the nodes of a cluster, in
    packages of less than 2^16 bytes behind a length of two bytes.

    A message in memory is the bytes of its block.  The functions that take a message over
    say whether they have freed it.  The buffer on the stack is what is written to it. *)
From Stdlib Require Import String.
From S2P Require Import Prelude Bytes Buffer Lua.
#[local] Set Warnings "-register-all".

Definition TEMP_LENGTH : Z := 0x8200.
Definition MULTI_PART : Z := 0x8000.

Definition fill_uint32 (n : Z) : list Z := put_le32 n.

Definition fill_header (sz : Z) : res (list Z) :=
  if sz <? 0x10000 then Ok [Z.land (Z.shiftr sz 8) 0xff; Z.land sz 0xff] else Ub.

(** The string of the first bytes of the buffer, which are all written. *)
Definition push_buf (buf : list Z) : res (list Z) := if zlen buf <=? TEMP_LENGTH then Ok buf else Ub.

(** The request and the number of parts that follow it. *)
Definition packreq_number (addr : Z) (session : Z) (msg : list Z) (sz : Z) : res (list Z * Z) :=
  if sz <? MULTI_PART then
    header ← fill_header (sz + 9);
    msg ← lift (slice msg 0 sz);
    buf ← push_buf (header ++ [0] ++ fill_uint32 addr ++ fill_uint32 (u32 session) ++ msg);
    Ok (buf, 0)
  else
    header ← fill_header 13;
    buf ← push_buf (header ++ [1] ++ fill_uint32 addr ++ fill_uint32 (u32 session) ++ fill_uint32 sz);
    Ok (buf, (sz - 1) / MULTI_PART + 1).

Definition packreq_string (name : list Z) (session : Z) (msg : list Z) (sz : Z) : res (list Z * Z) :=
  let namelen := zlen name in
  if sz <? MULTI_PART then
    header ← fill_header (sz + 6 + namelen);
    msg ← lift (slice msg 0 sz);
    buf ← push_buf (header ++ [0x80; u8 namelen] ++ name ++ fill_uint32 (u32 session) ++ msg);
    Ok (buf, 0)
  else
    header ← fill_header (10 + namelen);
    buf ← push_buf (header ++ [0x81; u8 namelen] ++ name ++ fill_uint32 (u32 session) ++ fill_uint32 sz);
    Ok (buf, (sz - 1) / MULTI_PART + 1).

(** The loop over the parts: [ptr] is what is left of the message. *)
Fixpoint packreq_multi (part : nat) (session : Z) (ptr : list Z) (sz : Z) : res (list (list Z)) :=
  match part with
  | O => Ok []
  | S part =>
      let s := if MULTI_PART <? sz then MULTI_PART else sz in
      header ← fill_header (s + 5);
      msg ← lift (slice ptr 0 s);
      buf ← push_buf (header ++ [if MULTI_PART <? sz then 2 else 3] ++ fill_uint32 (u32 session) ++ msg);
      l ← packreq_multi part session (drop (Z.to_nat s) ptr) (sz - s);
      Ok (buf :: l)
  end.

(** [lpackrequest]: whether [msg] is freed, and the request, the next session and the
    parts. *)
Definition lpackrequest (addr : value) (session : Z) (msg : option (list Z)) (sz : Z) : bool * res (list Z * Z * option (list (list Z))) :=
  match msg with
  | None => (false, Err "Invalid request message")
  | Some msg =>
      let sz := u32 sz in
      let session := s32 session in
      if session <=? 0 then (true, Err "Invalid request session %d")
      else
        let request :=
          match addr with
          | VInt _ | VReal _ => packreq_number (u32 (tointeger addr)) session msg sz
          | VStr name => if (zlen name <? 1) || (255 <? zlen name) then Err "name is too long %s" else packreq_string name session msg sz
          | _ => Err "name is too long %s"
          end in
        (true,
         '(request, multipak) ← request;
         let next := if s32 (session + 1) <? 0 then 1 else session + 1 in
         if negb (multipak =? 0) then
           parts ← packreq_multi (Z.to_nat multipak) session msg sz;
           Ok (request, next, Some parts)
         else Ok (request, next, None))
  end.

(** Four bytes of [buf] at [i]. *)
Definition unpack_uint32 (buf : list Z) (i : Z) : res Z :=
  w ← lift (slice buf i 4); Ok (le_value w).

(** The bytes of [buf] from [i] on. *)
Definition pushlstring (buf : list Z) (i sz : Z) : res value := l ← lift (slice buf i sz); Ok (VStr l).

Definition unpackreq_number (buf : list Z) (sz : Z) : res (list value) :=
  if sz <? 9 then Err "Invalid cluster message (size=%d)"
  else
    address ← unpack_uint32 buf 1;
    session ← unpack_uint32 buf 5;
    msg ← pushlstring buf 9 (sz - 9);
    Ok [VInt address; VInt session; msg].

Definition unpackmreq_number (buf : list Z) (sz : Z) : res (list value) :=
  if negb (sz =? 13) then Err "Invalid cluster message size %d (multi req must be 13)"
  else
    address ← unpack_uint32 buf 1;
    session ← unpack_uint32 buf 5;
    size ← unpack_uint32 buf 9;
    Ok [VInt address; VInt session; VInt size; VBool true].

Definition unpackmreq_part (buf : list Z) (sz : Z) : res (list value) :=
  if sz <? 5 then Err "Invalid cluster multi part message"
  else
    type ← lift buf.[0];
    session ← unpack_uint32 buf 1;
    msg ← pushlstring buf 5 (sz - 5);
    Ok [VBool false; VInt session; msg; VBool (type =? 2)].

Definition unpackreq_string (buf : list Z) (sz : Z) : res (list value) :=
  if sz <? 2 then Err "Invalid cluster message (size=%d)"
  else
    namesz ← lift buf.[1];
    if sz <? namesz + 6 then Err "Invalid cluster message (size=%d)"
    else
      name ← pushlstring buf 2 namesz;
      session ← unpack_uint32 buf (namesz + 2);
      msg ← pushlstring buf (2 + namesz + 4) (sz - namesz - 6);
      Ok [name; VInt session; msg].

Definition unpackmreq_string (buf : list Z) (sz : Z) : res (list value) :=
  if sz <? 2 then Err "Invalid cluster message (size=%d)"
  else
    namesz ← lift buf.[1];
    if sz <? namesz + 10 then Err "Invalid cluster message (size=%d)"
    else
      name ← pushlstring buf 2 namesz;
      session ← unpack_uint32 buf (namesz + 2);
      size ← unpack_uint32 buf (namesz + 6);
      Ok [name; VInt session; VInt size; VBool true].

(** A Lua string has a zero behind it. *)
Definition lunpackrequest (msg : list Z) : res (list value) :=
  let sz := zlen msg in
  let type := match msg with [] => 0 | c :: _ => c end in
  if type =? 0 then unpackreq_number msg sz
  else if type =? 1 then unpackmreq_number msg sz
  else if (type =? 2) || (type =? 3) then unpackmreq_part msg sz
  else if type =? 0x80 then unpackreq_string msg sz
  else if type =? 0x81 then unpackmreq_string msg sz
  else Err "Invalid req package type %d".

(** The parts of a long response. *)
Fixpoint response_parts (part : nat) (session : Z) (ptr : list Z) (sz : Z) : res (list (list Z)) :=
  match part with
  | O => Ok []
  | S part =>
      let s := if MULTI_PART <? sz then MULTI_PART else sz in
      header ← fill_header (s + 5);
      msg ← lift (slice ptr 0 s);
      buf ← push_buf (header ++ fill_uint32 session ++ [if MULTI_PART <? sz then 3 else 4] ++ msg);
      l ← response_parts part session (drop (Z.to_nat s) ptr) (sz - s);
      Ok (buf :: l)
  end.

(** [lpackresponse] of [sz] bytes: one package, or the table of the packages of a long
    message. *)
Definition lpackresponse (session : Z) (ok : bool) (msg : list Z) (sz : Z) : res (list Z + list (list Z)) :=
  let session := u32 session in
  if ok && (MULTI_PART <? sz) then
    header ← fill_header 9;
    buf ← push_buf (header ++ fill_uint32 session ++ [2] ++ fill_uint32 (u32 sz));
    l ← response_parts (Z.to_nat ((sz - 1) / MULTI_PART + 1)) session msg sz;
    Ok (inr (buf :: l))
  else
    let sz := if negb ok && (MULTI_PART <? sz) then MULTI_PART else sz in
    header ← fill_header (sz + 5);
    msg ← lift (slice msg 0 sz);
    buf ← push_buf (header ++ fill_uint32 session ++ [if ok then 1 else 0] ++ msg);
    Ok (inl buf).

(** [lunpackresponse]: no values for what it does not know. *)
Definition lunpackresponse (buf : list Z) : res (list value) :=
  let sz := zlen buf in
  if sz <? 5 then Ok []
  else
    session ← unpack_uint32 buf 0;
    type ← lift buf.[4];
    if type =? 0 then msg ← pushlstring buf 5 (sz - 5); Ok [VInt session; VBool false; msg]
    else if (type =? 1) || (type =? 4) then msg ← pushlstring buf 5 (sz - 5); Ok [VInt session; VBool true; msg]
    else if type =? 2 then
      if negb (sz =? 9) then Ok [] else size ← unpack_uint32 buf 5; Ok [VInt session; VBool true; VInt size; VBool true]
    else if type =? 3 then msg ← pushlstring buf 5 (sz - 5); Ok [VInt session; VBool true; msg; VBool true]
    else Ok [].

(** The loop of [lconcat] over the strings of the table from index 2 on; the comparison is
    of unsigned numbers. *)
Fixpoint concat_loop (l : list value) (sz : Z) (buff : list Z) : option (list Z) :=
  match l with
  | VStr str :: l => if u64 sz <? zlen str + zlen buff then None else concat_loop l sz (buff ++ str)
  | _ => if zlen buff =? sz then Some buff else None
  end.

(** [lconcat] of a table: a block, or nothing.  A negative size is an allocation that
    fails, which ends the process. *)
Definition lconcat (l : list value) : res (option (list Z)) :=
  match l with
  | v :: l =>
      match v with
      | VInt _ | VReal _ =>
          let sz := s32 (tointeger v) in
          if sz <? 0 then Ub else Ok (concat_loop l sz [])
      | _ => Ok None
      end
  | [] => Ok None
  end.
