(* ===== verification/ClusterRoundtrip.v ===== *)
(** What one node of a cluster packs, the other unpacks: lib/cluster/lua-cluster.c. *)
From Stdlib Require Import String.
From S2P Require Import Prelude Bytes Buffer Lua Cluster.
#[local] Set Warnings "-register-all".

Lemma MULTI_PART_eq : MULTI_PART = 0x8000.
Proof. done. Qed.

#[local] Opaque MULTI_PART.

(** A package behind its length. *)
Definition frame (body : list Z) : list Z := [Z.land (Z.shiftr (zlen body) 8) 0xff; Z.land (zlen body) 0xff] ++ body.

Lemma fill_frame body n : n = zlen body -> zlen body < 0x10000 -> (header ← fill_header n; Ok (header ++ body)) = Ok (frame body).
Proof. intros -> Hb. unfold fill_header. by destruct (Z.ltb_spec (zlen body) 0x10000); [|lia]. Qed.

(** A body of [n] bytes that fits into the buffer is packed to its frame. *)
Lemma push_frame body n {A} (f : list Z -> res A) : n = zlen body -> zlen body + 2 <= TEMP_LENGTH ->
  (header ← fill_header n; buf ← push_buf (header ++ body); f buf) = f (frame body).
Proof.
  intros -> Hb. unfold TEMP_LENGTH in Hb. unfold fill_header. destruct (Z.ltb_spec (zlen body) 0x10000); [|lia]. cbn [mbind res_bind]. unfold push_buf, TEMP_LENGTH.
  rewrite zlen_app. change (zlen [_; _]) with 2. by destruct (Z.leb_spec (2 + zlen body) 0x8200); [|lia].
Qed.

Lemma slice_front (l rest : list Z) n : n = zlen l -> slice (l ++ rest) 0 n = Some l.
Proof. intros ->. exact (slice_behind [] l rest 0 _ eq_refl eq_refl). Qed.

Lemma unpack_at pre v tail i : is_u32 v -> i = zlen pre -> unpack_uint32 (pre ++ put_le32 v ++ tail) i = Ok v.
Proof.
  intros Hv ->. unfold unpack_uint32. rewrite (slice_behind pre (put_le32 v) tail) by done. cbn [lift mbind res_bind]. rewrite <-le_bytes_4.
  by rewrite le_value_le_bytes.
Qed.

Lemma push_at pre l tail i n : i = zlen pre -> n = zlen l -> pushlstring (pre ++ l ++ tail) i n = Ok (VStr l).
Proof. intros -> ->. unfold pushlstring. by rewrite slice_behind. Qed.

Lemma push_end pre l i n : i = zlen pre -> n = zlen l -> pushlstring (pre ++ l) i n = Ok (VStr l).
Proof. intros Hi Hn. pose proof (push_at pre l [] i n Hi Hn) as E. by rewrite app_nil_r in E. Qed.

Lemma unpack_end pre v i : is_u32 v -> i = zlen pre -> unpack_uint32 (pre ++ put_le32 v) i = Ok v.
Proof. intros Hv Hi. pose proof (unpack_at pre v [] i Hv Hi) as E. by rewrite app_nil_r in E. Qed.

(** ** Parts *)

(** The loop over the parts, with the body of a part; the flag says that more follow. *)
Fixpoint parts_loop (body : bool -> list Z -> list Z) (part : nat) (ptr : list Z) (sz : Z) : res (list (list Z)) :=
  match part with
  | O => Ok []
  | S part =>
      let s := if MULTI_PART <? sz then MULTI_PART else sz in
      header ← fill_header (s + 5);
      msg ← lift (slice ptr 0 s);
      buf ← push_buf (header ++ body (MULTI_PART <? sz) msg);
      l ← parts_loop body part (drop (Z.to_nat s) ptr) (sz - s);
      Ok (buf :: l)
  end.

Definition request_body (session : Z) (more : bool) (msg : list Z) : list Z := [if more then 2 else 3] ++ fill_uint32 (u32 session) ++ msg.
Definition response_body (session : Z) (more : bool) (msg : list Z) : list Z := fill_uint32 session ++ [if more then 3 else 4] ++ msg.

Lemma packreq_multi_loop session part : forall ptr sz, packreq_multi part session ptr sz = parts_loop (request_body session) part ptr sz.
Proof.
  induction part as [|part IH]; intros ptr sz; [done|]. cbn [packreq_multi parts_loop]. destruct fill_header; [|done..]. cbn [mbind res_bind].
  destruct (lift (slice ptr 0 _)); [|done..]. cbn [mbind res_bind]. unfold request_body. destruct push_buf; [|done..]. cbn [mbind res_bind]. by rewrite IH.
Qed.

Lemma response_parts_loop session part : forall ptr sz, response_parts part session ptr sz = parts_loop (response_body session) part ptr sz.
Proof.
  induction part as [|part IH]; intros ptr sz; [done|]. cbn [response_parts parts_loop]. destruct fill_header; [|done..]. cbn [mbind res_bind].
  destruct (lift (slice ptr 0 _)); [|done..]. cbn [mbind res_bind]. unfold response_body. destruct push_buf; [|done..]. cbn [mbind res_bind]. by rewrite IH.
Qed.

(** Each part with whether more follow. *)
Fixpoint marked (l : list (list Z)) : list (bool * list Z) :=
  match l with [] => [] | [c] => [(false, c)] | c :: l => (true, c) :: marked l end.

Lemma parts_loop_spec body part : (forall more msg, zlen (body more msg) = 5 + zlen msg) -> forall msg rest, msg <> [] ->
  Z.of_nat part = (zlen msg - 1) / MULTI_PART + 1 ->
  exists chunks, parts_loop body part (msg ++ rest) (zlen msg) = Ok (map (fun bc => frame (body bc.1 bc.2)) (marked chunks)) /\
    mjoin chunks = msg /\ Forall (fun c => 0 < zlen c <= MULTI_PART) chunks /\ chunks <> [].
Proof.
  intros Hbody. induction part as [|part IH]; intros msg rest Hne Hpart.
  - exfalso. assert (0 < zlen msg) by (destruct msg; [done|rewrite zlen_cons; pose proof (zlen_nonneg msg); lia]). pose proof (Z.div_pos (zlen msg - 1) MULTI_PART ltac:(lia) ltac:(rewrite MULTI_PART_eq; lia)). lia.
  - assert (0 < zlen msg) as Hpos by (destruct msg; [done|rewrite zlen_cons; pose proof (zlen_nonneg msg); lia]). cbn [parts_loop]. pose proof MULTI_PART_eq as HM.
    destruct (Z.ltb_spec MULTI_PART (zlen msg)) as [Hlt|Hle].
    + set (c := take (Z.to_nat MULTI_PART) msg). set (m := drop (Z.to_nat MULTI_PART) msg).
      assert (msg = c ++ m) as Hcm by (subst c m; by rewrite take_drop).
      assert (zlen c = MULTI_PART) as Hc by (subst c; unfold zlen in *; rewrite length_take; lia). assert (zlen msg = MULTI_PART + zlen m) as Hm by (rewrite Hcm, zlen_app; lia).
      rewrite Hcm, <-app_assoc. rewrite (slice_front c) by done. cbn [lift mbind res_bind].
      assert (drop (Z.to_nat MULTI_PART) (c ++ m ++ rest) = m ++ rest) as ->.
      { replace (Z.to_nat MULTI_PART) with (length c) by (unfold zlen in Hc; lia). apply drop_app_length. }
      replace (zlen (c ++ m) - MULTI_PART) with (zlen m) by (rewrite zlen_app; lia).
      destruct (IH m rest) as (chunks & E & Hj & Hf & Hnn).
      { intros ->. change (zlen (@nil Z)) with 0 in Hm. lia. }
      { rewrite Hm in Hpart. replace (MULTI_PART + zlen m - 1) with (zlen m - 1 + 1 * MULTI_PART) in Hpart by lia. rewrite Z.div_add in Hpart by lia. lia. }
      assert (zlen (body true c) = MULTI_PART + 5) as Hzb by (rewrite Hbody, Hc; lia).
      rewrite (push_frame (body true c) (MULTI_PART + 5)) by (rewrite ?Hzb; unfold TEMP_LENGTH; lia). rewrite E. cbn [mbind res_bind].
      exists (c :: chunks). split; [|split; [|split; [|done]]].
      * destruct chunks as [|c' chunks]; [done|]. reflexivity.
      * change (mjoin (c :: chunks)) with (c ++ mjoin chunks). by rewrite Hj.
      * constructor; [lia|done].
    + assert (part = O) as ->. { rewrite Z.div_small in Hpart by lia. lia. }
      rewrite (slice_front msg) by done. cbn [lift mbind res_bind]. rewrite (push_frame (body false msg) (zlen msg + 5)) by (rewrite ?Hbody; unfold TEMP_LENGTH; lia).
      cbn [parts_loop mbind res_bind]. exists [msg]. split; [done|]. split; [apply app_nil_r|]. split; [|done]. apply Forall_singleton. lia.
Qed.

Lemma concat_chunks chunks : forall buff sz, zlen buff + zlen (mjoin chunks) = sz -> sz < 2 ^ 31 -> concat_loop (map VStr chunks) sz buff = Some (buff ++ mjoin chunks).
Proof.
  induction chunks as [|c chunks IH]; intros buff sz Hsz Hmax; cbn [map concat_loop].
  - change (mjoin (@nil (list Z))) with (@nil Z) in *. change (zlen (@nil Z)) with 0 in *. destruct (Z.eqb_spec (zlen buff) sz); [by rewrite app_nil_r|lia].
  - change (mjoin (c :: chunks)) with (c ++ mjoin chunks) in *. rewrite zlen_app in Hsz. pose proof (zlen_nonneg (mjoin chunks)). pose proof (zlen_nonneg buff). pose proof (zlen_nonneg c).
    unfold u64. rewrite Z.mod_small by lia. destruct (Z.ltb_spec sz (zlen c + zlen buff)); [lia|]. rewrite IH by (rewrite ?zlen_app; lia). by rewrite <-app_assoc.
Qed.

(** A long message from its parts. *)
Lemma lconcat_chunks msg chunks : mjoin chunks = msg -> zlen msg < 2 ^ 31 -> lconcat (VInt (zlen msg) :: map VStr chunks) = Ok (Some msg).
Proof.
  intros Hj Hmax. pose proof (zlen_nonneg msg). unfold lconcat. cbn [tointeger]. rewrite s32_small by (unfold is_s32; lia). destruct (Z.ltb_spec (zlen msg) 0); [lia|].
  rewrite concat_chunks by (rewrite ?Hj; done). by rewrite Hj.
Qed.

(** ** Requests *)

(** An address: a number, or a name. *)
Definition addr_ok (addr : value) : Prop :=
  match addr with VInt a => is_u32 a | VStr name => 1 <= zlen name <= 255 | _ => False end.

Definition request_head (addr : value) (multi : bool) : list Z :=
  match addr with
  | VStr name => [if multi then 0x81 else 0x80; zlen name] ++ name
  | VInt a => [if multi then 1 else 0] ++ put_le32 a
  | _ => []
  end.

Lemma zlen_head addr multi : addr_ok addr -> 0 <= zlen (request_head addr multi) <= 257.
Proof.
  intros H. destruct addr; try done; cbn [addr_ok request_head] in *; rewrite zlen_app.
  change (zlen [_; _]) with 2. lia.
Qed.

Lemma packreq_short addr session msg rest : addr_ok addr -> is_u32 session -> zlen msg < MULTI_PART ->
  match addr with
  | VInt _ | VReal _ => packreq_number (u32 (tointeger addr)) session (msg ++ rest) (zlen msg)
  | VStr name => packreq_string name session (msg ++ rest) (zlen msg)
  | _ => Ub
  end = Ok (frame (request_head addr false ++ put_le32 session ++ msg), 0).
Proof.
  intros Ha Hs Hm. pose proof MULTI_PART_eq. pose proof (zlen_nonneg msg). destruct addr as [| |a| | |name| | | |]; try done; cbn [addr_ok] in Ha.
  - cbn [tointeger]. rewrite u32_small by done. unfold packreq_number. destruct (Z.ltb_spec (zlen msg) MULTI_PART); [|lia].
    assert (zlen (request_head (VInt a) false ++ put_le32 session ++ msg) = zlen msg + 9) as Hz by (cbn [request_head]; rewrite !zlen_app; change (zlen [_]) with 1; change (zlen (put_le32 _)) with 4; lia).
    rewrite slice_front by done. rewrite u32_small by done. cbn [lift]. rewrite <-(push_frame _ (zlen msg + 9) (fun b => Ok (b, 0))) by (rewrite ?Hz; unfold TEMP_LENGTH; lia).
    destruct (fill_header (zlen msg + 9)); [|done..]. cbn [mbind res_bind request_head]. unfold fill_uint32. by rewrite <-!app_assoc.
  - unfold packreq_string. destruct (Z.ltb_spec (zlen msg) MULTI_PART); [|lia].
    assert (zlen (request_head (VStr name) false ++ put_le32 session ++ msg) = zlen msg + 6 + zlen name) as Hz by (cbn [request_head]; rewrite !zlen_app; change (zlen [_; _]) with 2; change (zlen (put_le32 _)) with 4; lia).
    rewrite slice_front by done. rewrite u32_small by done. cbn [lift]. rewrite <-(push_frame _ (zlen msg + 6 + zlen name) (fun b => Ok (b, 0))) by (rewrite ?Hz; unfold TEMP_LENGTH; lia).
    destruct (fill_header (zlen msg + 6 + zlen name)); [|done..]. cbn [mbind res_bind request_head]. unfold fill_uint32. unfold u8 at 1. rewrite Z.mod_small by lia. by rewrite <-!app_assoc.
Qed.

Lemma packreq_long addr session msg sz : addr_ok addr -> is_u32 session -> MULTI_PART <= sz ->
  match addr with
  | VInt _ | VReal _ => packreq_number (u32 (tointeger addr)) session msg sz
  | VStr name => packreq_string name session msg sz
  | _ => Ub
  end = Ok (frame (request_head addr true ++ put_le32 session ++ put_le32 sz), (sz - 1) / MULTI_PART + 1).
Proof.
  intros Ha Hs Hm. destruct addr as [| |a| | |name| | | |]; try done; cbn [addr_ok] in Ha.
  - cbn [tointeger]. rewrite u32_small by done. unfold packreq_number. destruct (Z.ltb_spec sz MULTI_PART); [lia|]. rewrite u32_small by done.
    rewrite <-(push_frame _ 13 (fun b => Ok (b, (sz - 1) / MULTI_PART + 1))); [|done|unfold TEMP_LENGTH; cbn [request_head]; rewrite !zlen_app; change (zlen [_]) with 1; change (zlen (put_le32 _)) with 4; lia].
    destruct (fill_header 13); [|done..]. cbn [mbind res_bind request_head]. unfold fill_uint32. by rewrite <-!app_assoc.
  - unfold packreq_string. destruct (Z.ltb_spec sz MULTI_PART); [lia|].
    assert (zlen (request_head (VStr name) true ++ put_le32 session ++ put_le32 sz) = 10 + zlen name) as Hz by (cbn [request_head]; rewrite !zlen_app; change (zlen [_; _]) with 2; change (zlen (put_le32 _)) with 4; lia).
    rewrite u32_small by done. rewrite <-(push_frame _ (10 + zlen name) (fun b => Ok (b, (sz - 1) / MULTI_PART + 1))) by (rewrite ?Hz; unfold TEMP_LENGTH; lia).
    destruct (fill_header (10 + zlen name)); [|done..]. cbn [mbind res_bind request_head]. unfold fill_uint32. unfold u8 at 1. rewrite Z.mod_small by lia. by rewrite <-!app_assoc.
Qed.

Lemma unpack_short addr session msg : addr_ok addr -> is_u32 session ->
  lunpackrequest (request_head addr false ++ put_le32 session ++ msg) = Ok [addr; VInt session; VStr msg].
Proof.
  intros Ha Hs. pose proof (zlen_nonneg msg). destruct addr as [| |a| | |name| | | |]; try done; cbn [addr_ok] in Ha; cbn [request_head].
  - unfold lunpackrequest. rewrite <-app_assoc. set (buf := [0] ++ put_le32 a ++ put_le32 session ++ msg). change (unpackreq_number buf (zlen buf) = Ok [VInt a; VInt session; VStr msg]).
    assert (zlen buf = 9 + zlen msg) as Hz by (subst buf; rewrite !zlen_app; change (zlen [0]) with 1; change (zlen (put_le32 _)) with 4; lia). unfold unpackreq_number. rewrite Hz.
    destruct (Z.ltb_spec (9 + zlen msg) 9); [lia|]. assert (unpack_uint32 buf 1 = Ok a) as -> by exact (unpack_at [0] a _ 1 Ha eq_refl).
    assert (unpack_uint32 buf 5 = Ok session) as -> by exact (unpack_at ([0] ++ put_le32 a) session _ 5 Hs eq_refl). cbn [mbind res_bind].
    assert (pushlstring buf 9 (9 + zlen msg - 9) = Ok (VStr msg)) as -> by exact (push_end ([0] ++ put_le32 a ++ put_le32 session) msg 9 (9 + zlen msg - 9) eq_refl ltac:(lia)). done.
  - unfold lunpackrequest. rewrite <-app_assoc. set (buf := [0x80; zlen name] ++ name ++ put_le32 session ++ msg). change (unpackreq_string buf (zlen buf) = Ok [VStr name; VInt session; VStr msg]).
    assert (zlen buf = 6 + zlen name + zlen msg) as Hz by (subst buf; rewrite !zlen_app; change (zlen [_; _]) with 2; change (zlen (put_le32 _)) with 4; lia).
    unfold unpackreq_string. rewrite Hz. destruct (Z.ltb_spec (6 + zlen name + zlen msg) 2); [lia|]. change (buf.[1]) with (Some (zlen name)). cbn [lift mbind res_bind].
    destruct (Z.ltb_spec (6 + zlen name + zlen msg) (zlen name + 6)); [lia|].
    assert (pushlstring buf 2 (zlen name) = Ok (VStr name)) as -> by exact (push_at [0x80; zlen name] name _ 2 _ eq_refl eq_refl). cbn [mbind res_bind].
    assert (buf = ([0x80; zlen name] ++ name) ++ put_le32 session ++ msg) as Hb by (subst buf; by rewrite <-!app_assoc). clearbody buf. subst buf.
    assert (zlen ([0x80; zlen name] ++ name) = zlen name + 2) as Hp by (rewrite zlen_app; change (zlen [_; _]) with 2; lia).
    rewrite (unpack_at _ session msg) by (done || lia). cbn [mbind res_bind]. rewrite app_assoc.
    rewrite (push_end _ msg) by (rewrite ?zlen_app, ?Hp; change (zlen [_; _]) with 2; change (zlen (put_le32 _)) with 4; lia). done.
Qed.

Lemma unpack_long addr session sz : addr_ok addr -> is_u32 session -> is_u32 sz ->
  lunpackrequest (request_head addr true ++ put_le32 session ++ put_le32 sz) = Ok [addr; VInt session; VInt sz; VBool true].
Proof.
  intros Ha Hs Hsz. destruct addr as [| |a| | |name| | | |]; try done; cbn [addr_ok] in Ha; cbn [request_head].
  - unfold lunpackrequest. rewrite <-app_assoc. set (buf := [1] ++ put_le32 a ++ put_le32 session ++ put_le32 sz). change (unpackmreq_number buf 13 = Ok [VInt a; VInt session; VInt sz; VBool true]).
    unfold unpackmreq_number. change (negb (13 =? 13)) with false. cbv iota. assert (unpack_uint32 buf 1 = Ok a) as -> by exact (unpack_at [1] a _ 1 Ha eq_refl).
    assert (unpack_uint32 buf 5 = Ok session) as -> by exact (unpack_at ([1] ++ put_le32 a) session _ 5 Hs eq_refl).
    assert (unpack_uint32 buf 9 = Ok sz) as -> by exact (unpack_end ([1] ++ put_le32 a ++ put_le32 session) sz 9 Hsz eq_refl). done.
  - unfold lunpackrequest. rewrite <-app_assoc. set (buf := [0x81; zlen name] ++ name ++ put_le32 session ++ put_le32 sz).
    change (unpackmreq_string buf (zlen buf) = Ok [VStr name; VInt session; VInt sz; VBool true]).
    assert (zlen buf = 10 + zlen name) as Hz by (subst buf; rewrite !zlen_app; change (zlen [_; _]) with 2; change (zlen (put_le32 _)) with 4; lia).
    unfold unpackmreq_string. rewrite Hz. destruct (Z.ltb_spec (10 + zlen name) 2); [lia|]. change (buf.[1]) with (Some (zlen name)). cbn [lift mbind res_bind].
    destruct (Z.ltb_spec (10 + zlen name) (zlen name + 10)); [lia|].
    assert (pushlstring buf 2 (zlen name) = Ok (VStr name)) as -> by exact (push_at [0x81; zlen name] name _ 2 _ eq_refl eq_refl). cbn [mbind res_bind].
    assert (buf = ([0x81; zlen name] ++ name) ++ put_le32 session ++ put_le32 sz) as Hb by (subst buf; by rewrite <-!app_assoc). clearbody buf. subst buf.
    assert (zlen ([0x81; zlen name] ++ name) = zlen name + 2) as Hp by (rewrite zlen_app; change (zlen [_; _]) with 2; lia).
    rewrite (unpack_at _ session (put_le32 sz) (zlen name + 2)) by (done || lia). cbn [mbind res_bind]. rewrite app_assoc.
    rewrite (unpack_end _ sz (zlen name + 6)) by (done || (rewrite zlen_app, Hp; change (zlen (put_le32 _)) with 4; lia)). done.
Qed.

Lemma unpack_part session more msg : is_u32 session ->
  lunpackrequest (request_body session more msg) = Ok [VBool false; VInt session; VStr msg; VBool more].
Proof.
  intros Hs. pose proof (zlen_nonneg msg). unfold lunpackrequest, request_body, fill_uint32. rewrite u32_small by done.
  set (buf := [if more then 2 else 3] ++ put_le32 session ++ msg). assert (zlen buf = 5 + zlen msg) as Hz by (subst buf; rewrite !zlen_app; change (zlen [_]) with 1; change (zlen (put_le32 _)) with 4; lia).
  transitivity (unpackmreq_part buf (zlen buf)); [by destruct more|]. unfold unpackmreq_part. rewrite Hz. destruct (Z.ltb_spec (5 + zlen msg) 5); [lia|].
  change (buf.[0]) with (Some (if more then 2 else 3)). cbn [lift mbind res_bind].
  assert (unpack_uint32 buf 1 = Ok session) as -> by exact (unpack_at [if more then 2 else 3] session _ 1 Hs eq_refl). cbn [mbind res_bind].
  assert (pushlstring buf 5 (5 + zlen msg - 5) = Ok (VStr msg)) as -> by exact (push_end ([if more then 2 else 3] ++ put_le32 session) msg 5 (5 + zlen msg - 5) eq_refl ltac:(lia)). by destruct more.
Qed.

(** A package of a request or a response: the values its receiver unpacks. *)
Definition carries (unpack : list Z -> res (list value)) (package : list Z) (values : list value) : Prop :=
  exists body, package = frame body /\ zlen body < 2 ^ 16 /\ unpack body = Ok values.

(** The packages of a long message: they give its parts in order, and the parts the
    message. *)
Definition carry_parts (unpack : list Z -> res (list value)) (values : bool -> list Z -> list value) (packages : list (list Z)) (msg : list Z) : Prop :=
  exists chunks, Forall2 (fun package bc => carries unpack package (values bc.1 bc.2)) packages (marked chunks) /\
    lconcat (VInt (zlen msg) :: map VStr chunks) = Ok (Some msg).

Lemma marked_forall P l : Forall P l -> Forall (fun bc : bool * list Z => P bc.2) (marked l).
Proof. induction l as [|c l IH]; intros H; [constructor|]. apply Forall_cons in H as [Hc H]. destruct l as [|d l]; [by repeat constructor|]. constructor; [done|by apply IH]. Qed.

Lemma parts_carry unpack body values msg rest : msg <> [] -> zlen msg < 2 ^ 31 -> (forall more c, zlen (body more c) = 5 + zlen c) ->
  (forall more c, unpack (body more c) = Ok (values more c)) ->
  exists packages, parts_loop body (Z.to_nat ((zlen msg - 1) / MULTI_PART + 1)) (msg ++ rest) (zlen msg) = Ok packages /\ carry_parts unpack values packages msg.
Proof.
  intros Hne Hmax Hbody Hun. pose proof MULTI_PART_eq. assert (0 < zlen msg) by (destruct msg; [done|rewrite zlen_cons; pose proof (zlen_nonneg msg); lia]).
  pose proof (Z.div_pos (zlen msg - 1) MULTI_PART ltac:(lia) ltac:(lia)).
  destruct (parts_loop_spec body (Z.to_nat ((zlen msg - 1) / MULTI_PART + 1)) Hbody msg rest Hne) as (chunks & E & Hj & Hf & _); [lia|].
  eexists. split; [exact E|]. exists chunks. split; [|by apply lconcat_chunks].
  apply Forall2_fmap_l, Forall_Forall2_diag. eapply Forall_impl; [exact (marked_forall _ _ Hf)|]. intros [more c] Hc. cbn [fst snd] in *.
  exists (body more c). split; [done|]. split; [rewrite Hbody; change (2 ^ 16) with 65536; lia|apply Hun].
Qed.

Lemma request_packs addr session msg rest : addr_ok addr -> 0 < session < 2 ^ 31 -> zlen msg < 2 ^ 31 ->
  exists package next parts, lpackrequest addr session (Some (msg ++ rest)) (zlen msg) = (true, Ok (package, next, parts)) /\ 0 < next < 2 ^ 31 /\
    match parts with
    | None => carries lunpackrequest package [addr; VInt session; VStr msg]
    | Some parts =>
        carries lunpackrequest package [addr; VInt session; VInt (zlen msg); VBool true] /\
        carry_parts lunpackrequest (fun more chunk => [VBool false; VInt session; VStr chunk; VBool more]) parts msg
    end.
Proof.
  intros Ha Hs Hmax. pose proof (zlen_nonneg msg). pose proof MULTI_PART_eq. pose proof (zlen_head addr false Ha). pose proof (zlen_head addr true Ha).
  assert (is_u32 session) by (unfold is_u32; lia). unfold lpackrequest. rewrite (u32_small (zlen msg)) by (unfold is_u32; lia). rewrite (s32_small session) by (unfold is_s32; lia).
  destruct (Z.leb_spec session 0); [lia|]. set (next := if s32 (session + 1) <? 0 then 1 else session + 1).
  assert (0 < next < 2 ^ 31) as Hnext.
  { subst next. destruct (Z.eq_dec session (2 ^ 31 - 1)) as [->|]; [done|]. rewrite s32_small by (unfold is_s32; lia). destruct (Z.ltb_spec (session + 1) 0); lia. }
  destruct (Z.lt_ge_cases (zlen msg) MULTI_PART) as [Hsh|Hlo].
  - exists (frame (request_head addr false ++ put_le32 session ++ msg)), next, None. split; [|split; [done|]].
    + pose proof (packreq_short addr session msg rest Ha ltac:(done) Hsh) as E. destruct addr as [| |a| | |name| | | |]; try done; cbn [addr_ok] in Ha.
      * rewrite E. done.
      * destruct (Z.ltb_spec (zlen name) 1); [lia|]. destruct (Z.ltb_spec 255 (zlen name)); [lia|]. cbn [orb]. rewrite E. done.
    + eexists. split; [done|]. split; [rewrite !zlen_app; change (zlen (put_le32 _)) with 4; lia|by apply unpack_short].
  - destruct (parts_carry lunpackrequest (request_body session) (fun more chunk => [VBool false; VInt session; VStr chunk; VBool more]) msg rest) as (packages & E & Hc).
    { intros ->. change (zlen (@nil Z)) with 0 in Hlo. lia. } { done. }
    { intros more c. unfold request_body. rewrite !zlen_app. change (zlen [_]) with 1. change (zlen (fill_uint32 _)) with 4. lia. } { intros more c. by apply unpack_part. }
    exists (frame (request_head addr true ++ put_le32 session ++ put_le32 (zlen msg))), next, (Some packages). split; [|split; [done|split; [|done]]].
    + pose proof (packreq_long addr session (msg ++ rest) (zlen msg) Ha ltac:(done) Hlo) as Er. rewrite <-packreq_multi_loop in E.
      pose proof (Z.div_pos (zlen msg - 1) MULTI_PART ltac:(lia) ltac:(lia)) as Hd.
      assert (forall r, r = Ok (frame (request_head addr true ++ put_le32 session ++ put_le32 (zlen msg)), (zlen msg - 1) / MULTI_PART + 1) ->
        ('(request, multipak) ← r; if negb (multipak =? 0) then parts ← packreq_multi (Z.to_nat multipak) session (msg ++ rest) (zlen msg); Ok (request, next, Some parts) else Ok (request, next, None)) =
        Ok (frame (request_head addr true ++ put_le32 session ++ put_le32 (zlen msg)), next, Some packages)) as Hk.
      { intros r ->. cbn [mbind res_bind]. destruct (Z.eqb_spec ((zlen msg - 1) / MULTI_PART + 1) 0); [lia|]. cbn [negb]. rewrite E. done. }
      f_equal. apply Hk. destruct addr as [| |a| | |name| | | |]; try done; cbn [addr_ok] in Ha.
      destruct (Z.ltb_spec (zlen name) 1); [lia|]. by destruct (Z.ltb_spec 255 (zlen name)); [lia|].
    + eexists. split; [done|]. split; [rewrite !zlen_app; change (zlen (put_le32 _)) with 4; lia|]. apply unpack_long; [done..|unfold is_u32; lia].
Qed.

(** ** Responses *)

Lemma unpack_response session (ok : bool) msg : is_u32 session ->
  lunpackresponse (fill_uint32 session ++ [if ok then 1 else 0] ++ msg) = Ok [VInt session; VBool ok; VStr msg].
Proof.
  intros Hs. pose proof (zlen_nonneg msg). unfold lunpackresponse, fill_uint32.
  set (buf := put_le32 session ++ [if ok then 1 else 0] ++ msg). assert (zlen buf = 5 + zlen msg) as Hz by (subst buf; rewrite !zlen_app; change (zlen [_]) with 1; change (zlen (put_le32 _)) with 4; lia).
  rewrite Hz. destruct (Z.ltb_spec (5 + zlen msg) 5); [lia|]. assert (unpack_uint32 buf 0 = Ok session) as -> by exact (unpack_at [] session _ 0 Hs eq_refl).
  change (buf.[4]) with (Some (if ok then 1 else 0)). cbn [lift mbind res_bind].
  assert (pushlstring buf 5 (5 + zlen msg - 5) = Ok (VStr msg)) as -> by exact (push_end (put_le32 session ++ [if ok then 1 else 0]) msg 5 (5 + zlen msg - 5) eq_refl ltac:(lia)). by destruct ok.
Qed.

Lemma unpack_response_begin session sz : is_u32 session -> is_u32 sz ->
  lunpackresponse (fill_uint32 session ++ [2] ++ fill_uint32 sz) = Ok [VInt session; VBool true; VInt sz; VBool true].
Proof.
  intros Hs Hsz. unfold lunpackresponse, fill_uint32. set (buf := put_le32 session ++ [2] ++ put_le32 sz). change (zlen buf <? 5) with false. cbv iota.
  assert (unpack_uint32 buf 0 = Ok session) as -> by exact (unpack_at [] session _ 0 Hs eq_refl).
  change (buf.[4]) with (Some 2). cbn [lift mbind res_bind]. change (negb (zlen buf =? 9)) with false. change (2 =? 0) with false. change ((2 =? 1) || (2 =? 4)) with false. change (2 =? 2) with true. cbv iota.
  assert (unpack_uint32 buf 5 = Ok sz) as -> by exact (unpack_end (put_le32 session ++ [2]) sz 5 Hsz eq_refl). done.
Qed.

Lemma unpack_response_part session more msg : is_u32 session ->
  lunpackresponse (response_body session more msg) = Ok ([VInt session; VBool true; VStr msg] ++ if more then [VBool true] else []).
Proof.
  intros Hs. pose proof (zlen_nonneg msg). unfold lunpackresponse, response_body, fill_uint32.
  set (buf := put_le32 session ++ [if more then 3 else 4] ++ msg). assert (zlen buf = 5 + zlen msg) as Hz by (subst buf; rewrite !zlen_app; change (zlen [_]) with 1; change (zlen (put_le32 _)) with 4; lia).
  rewrite Hz. destruct (Z.ltb_spec (5 + zlen msg) 5); [lia|]. assert (unpack_uint32 buf 0 = Ok session) as -> by exact (unpack_at [] session _ 0 Hs eq_refl).
  change (buf.[4]) with (Some (if more then 3 else 4)). cbn [lift mbind res_bind].
  assert (pushlstring buf 5 (5 + zlen msg - 5) = Ok (VStr msg)) as -> by exact (push_end (put_le32 session ++ [if more then 3 else 4]) msg 5 (5 + zlen msg - 5) eq_refl ltac:(lia)). by destruct more.
Qed.

(** What a response carries: the message, or as much of an error as fits. *)
Definition response_text (ok : bool) (msg : list Z) : list Z := if ok then msg else take (Z.to_nat MULTI_PART) msg.

Lemma response_packs session ok msg rest : is_u32 session -> zlen msg < 2 ^ 31 ->
  exists r, lpackresponse session ok (msg ++ rest) (zlen msg) = Ok r /\
    match r with
    | inl package => carries lunpackresponse package [VInt session; VBool ok; VStr (response_text ok msg)]
    | inr (package :: parts) =>
        ok = true /\ carries lunpackresponse package [VInt session; VBool true; VInt (zlen msg); VBool true] /\
        carry_parts lunpackresponse (fun more chunk => [VInt session; VBool true; VStr chunk] ++ if more then [VBool true] else []) parts msg
    | inr [] => False
    end.
Proof.
  intros Hs Hmax. pose proof (zlen_nonneg msg). pose proof MULTI_PART_eq. unfold lpackresponse. rewrite (u32_small session) by done.
  destruct (ok && (MULTI_PART <? zlen msg)) eqn:Elong.
  - apply andb_true_iff in Elong as [-> Hlong]. apply Z.ltb_lt in Hlong. rewrite (u32_small (zlen msg)) by (unfold is_u32; lia).
    rewrite (push_frame (fill_uint32 session ++ [2] ++ fill_uint32 (zlen msg)) 9) by done. rewrite response_parts_loop.
    destruct (parts_carry lunpackresponse (response_body session) (fun more chunk => [VInt session; VBool true; VStr chunk] ++ if more then [VBool true] else []) msg rest) as (packages & E & Hc).
    { intros ->. change (zlen (@nil Z)) with 0 in Hlong. lia. } { done. }
    { intros more c. unfold response_body. rewrite !zlen_app. change (zlen [_]) with 1. change (zlen (fill_uint32 _)) with 4. lia. } { intros more c. by apply unpack_response_part. }
    rewrite E. cbn [mbind res_bind]. eexists. split; [done|]. split; [done|]. split; [|done]. eexists. split; [done|]. split; [done|]. apply unpack_response_begin; [done|unfold is_u32; lia].
  - assert (exists tail, msg ++ rest = response_text ok msg ++ tail /\ (if negb ok && (MULTI_PART <? zlen msg) then MULTI_PART else zlen msg) = zlen (response_text ok msg) /\ zlen (response_text ok msg) <= MULTI_PART) as (tail & -> & -> & Hle).
    { unfold response_text. destruct ok; cbn [negb andb] in *; [exists rest; apply Z.ltb_ge in Elong; done|].
      exists (drop (Z.to_nat MULTI_PART) msg ++ rest). split; [by rewrite app_assoc, take_drop|]. unfold zlen in *. rewrite length_take. destruct (Z.ltb_spec MULTI_PART (Z.of_nat (length msg))); lia. }
    rewrite slice_front by done. cbn [lift]. set (txt := response_text ok msg) in *. pose proof (zlen_nonneg txt).
    assert (zlen (fill_uint32 session ++ [if ok then 1 else 0] ++ txt) = zlen txt + 5) as Hz by (rewrite !zlen_app; change (zlen [_]) with 1; change (zlen (fill_uint32 _)) with 4; lia).
    exists (inl (frame (fill_uint32 session ++ [if ok then 1 else 0] ++ txt))). split.
    + rewrite <-(push_frame _ (zlen txt + 5) (fun b => Ok (inl b))) by (rewrite ?Hz; unfold TEMP_LENGTH; lia). by destruct (fill_header (zlen txt + 5)).
    + exists (fill_uint32 session ++ [if ok then 1 else 0] ++ txt). split; [done|]. split; [change (2 ^ 16) with 65536; lia|by apply unpack_response].
Qed.

(** C14: a node of a cluster gets what another sends it.  A request of a message of less
    than 2^31 bytes to an address (a number of 32 bits, or a name of 1 to 255 bytes) with a
    positive session is packed, the message is freed and the next session is positive
    again.  Each package is a body of less than 2^16 bytes behind its length.  From the
    package of a short message the other node unpacks the address, the session and the
    message; from the packages of a long one the address, the session and the size, then
    the parts in order, each with whether more follow, and [lconcat] of the size and the
    parts is the message.  In the same way the response of a session reaches the node that
    waits for it, except that an error of more than [MULTI_PART] bytes is cut off there.
    What lies behind the message in memory is never sent. *)
Theorem cluster_roundtrip addr session ok msg rest : addr_ok addr -> 0 < session < 2 ^ 31 -> zlen msg < 2 ^ 31 ->
  (exists package next parts, lpackrequest addr session (Some (msg ++ rest)) (zlen msg) = (true, Ok (package, next, parts)) /\ 0 < next < 2 ^ 31 /\
    match parts with
    | None => carries lunpackrequest package [addr; VInt session; VStr msg]
    | Some parts =>
        carries lunpackrequest package [addr; VInt session; VInt (zlen msg); VBool true] /\
        carry_parts lunpackrequest (fun more chunk => [VBool false; VInt session; VStr chunk; VBool more]) parts msg
    end) /\
  (exists r, lpackresponse session ok (msg ++ rest) (zlen msg) = Ok r /\
    match r with
    | inl package => carries lunpackresponse package [VInt session; VBool ok; VStr (response_text ok msg)]
    | inr (package :: parts) =>
        ok = true /\ carries lunpackresponse package [VInt session; VBool true; VInt (zlen msg); VBool true] /\
        carry_parts lunpackresponse (fun more chunk => [VInt session; VBool true; VStr chunk] ++ if more then [VBool true] else []) parts msg
    | inr [] => False
    end).
Proof.
  intros Ha Hs Hmax. split; [by apply request_packs|]. apply response_packs; [unfold is_u32; lia|done].
Qed.

#[local] Transparent MULTI_PART.

(** A message of 40000 bytes to the service [db], and its copy as the response. *)
Lemma cluster_roundtrip_witness :
  let msg := replicate (Z.to_nat 40000) 7 in
  exists package next parts, lpackrequest (VStr [100; 98]) 5 (Some (msg ++ [1; 2; 3])) 40000 = (true, Ok (package, next, Some parts)) /\
    carries lunpackrequest package [VStr [100; 98]; VInt 5; VInt 40000; VBool true].
Proof.
  intros msg. assert (zlen msg = 40000) as Hz by (subst msg; unfold zlen; rewrite length_replicate; lia).
  destruct (cluster_roundtrip (VStr [100; 98]) 5 true msg [1; 2; 3]) as [(package & next & parts & E & _ & Hp) _].
  - split; intros [=].
  - split; reflexivity.
  - rewrite Hz. reflexivity.
  - rewrite Hz in E. destruct parts as [parts|].
    + exists package, next, parts. split; [exact E|]. destruct Hp as [Hp _]. rewrite Hz in Hp. exact Hp.
    + exfalso. destruct Hp as (body & _ & Hb & Hu). clear -E Hz. revert E. unfold lpackrequest, packreq_string, MULTI_PART.
      change (u32 40000) with 40000. change (s32 5 <=? 0) with false. change (40000 <? 32768) with false. change ((zlen [100; 98] <? 1) || (255 <? zlen [100; 98])) with false. cbv iota zeta.
      change (fill_header (10 + zlen [100; 98])) with (Ok [0; 12]). cbn [mbind res_bind].
      destruct (push_buf _) as [b| |]; cbn [mbind res_bind]; [|discriminate..]. change (negb ((40000 - 1) / 32768 + 1 =? 0)) with true. cbv iota.
      destruct (packreq_multi _ _ _ _); cbn [mbind res_bind]; discriminate.
Defined.
