(* ===== verification/Stm.v ===== *)
(** lib/stm/lua-stm.c: a message that one service updates and others read.

    The writer's box and the readers' boxes belong to different threads.  An agent is a box
    with what its function is doing; one step is one access to the lock of the object (the
    accesses of [Lock]), one atomic operation, or what a thread does under the lock between
    them.  [malloc] returns any address that is not in use.  The counters are bounded by
    the number of boxes and are not taken modulo 2^32. *)
From S2P Require Import Prelude Lock.

Record stm_copy := StmCopy { cp_reference : Z; cp_sz : Z; cp_msg : Z }.

Record stm_object := StmObject { o_lock : rwlock; o_reference : Z; o_copy : option Z }.

(** The memory: the object until it is freed, the copies and the blocks of messages, and how
    many grabbed pointers are on their way to a new reader. *)
Record heap := Heap { h_obj : option stm_object; h_copies : gmap Z stm_copy; h_blocks : gset Z; h_flight : Z }.

(** What follows a call of [stm_releasecopy]. *)
Inductive cont :=
| KUpdate                                 (* stm_update: return *)
| KRelease                                (* stm_release: obj->copy = NULL *)
| KRead (updated : bool)                  (* lread: call the function, or return *)
| KDelete.                                (* ldeletereader: return *)

Inductive op :=
| WIdle                                   (* a writer *)
| UpdLock (copy : Z)                      (* stm_update: rwlock_wlock, then the exchange *)
| UpdUnlock (oldcopy : option Z)          (* stm_update: rwlock_wunlock *)
| GrabLock                                (* stm_grab: rwlock_rlock, then the increment *)
| GrabUnlock (ref : Z)                    (* stm_grab: rwlock_runlock *)
| RelStart                                (* stm_release: assert(obj->copy) *)
| RelLock                                 (* stm_release: rwlock_wlock *)
| RelClear                                (* stm_release: obj->copy = NULL, --obj->reference *)
| RelUnlock                               (* stm_release: rwlock_wunlock *)
| WGone
| RIdle                                   (* a reader *)
| CopyLock                                (* stm_copy: rwlock_rlock, then the increment *)
| CopyUnlock (ret : option Z)             (* stm_copy: rwlock_runlock *)
| CopyCmp (ret : option Z)                (* lread: copy == box->lastcopy *)
| RUse (copy : Z)                         (* lread: the function reads the message *)
| DelLock                                 (* stm_releasereader: rwlock_rlock, then the decrement *)
| DelUnlock                               (* stm_releasereader: rwlock_runlock *)
| RGone
| Drop (copy : option Z) (k : cont)       (* stm_releasecopy: the decrement *)
| Free (copy : Z) (k : cont).             (* stm_releasecopy: uboss_free *)

(** A box: its accesses to the lock, its function, and the reader's [lastcopy]. *)
Record agent := Agent { a_lock : rw_pc; a_op : op; a_last : option Z }.

Record stm := Stm { s_heap : heap; s_agents : list agent }.

Definition set_obj (h : heap) (o : option stm_object) : heap := Heap o (h_copies h) (h_blocks h) (h_flight h).
Definition set_copies (h : heap) (cs : gmap Z stm_copy) : heap := Heap (h_obj h) cs (h_blocks h) (h_flight h).
Definition set_blocks (h : heap) (bs : gset Z) : heap := Heap (h_obj h) (h_copies h) bs (h_flight h).
Definition set_flight (h : heap) (n : Z) : heap := Heap (h_obj h) (h_copies h) (h_blocks h) n.
Definition with_op (a : agent) (o : op) : agent := Agent (a_lock a) o (a_last a).

(** [stm_newcopy] at the address [copy]. *)
Definition stm_newcopy (copy msg sz : Z) (h : heap) : heap :=
  set_copies h (<[copy := StmCopy 1 (u32 sz) msg]> (h_copies h)).

(** [stm_new] of a message that is allocated. *)
Definition stm_new (copy msg sz : Z) : heap :=
  stm_newcopy copy msg sz (Heap (Some (StmObject rwlock_init 1 (Some copy))) ∅ {[msg]} 0).

(** One access of a function of the lock, then [next]. *)
Definition lock_access (f : rw_pc -> rwlock -> option (rw_pc * rwlock)) (next : op) (a : agent) (h : heap) : option (agent * heap) :=
  o ← h_obj h;
  '(pc, l) ← f (a_lock a) (o_lock o);
  Some (Agent pc next (a_last a), set_obj h (Some (StmObject l (o_reference o) (o_copy o)))).

(** [ATOM_FINC(&copy->reference)] with its assertion. *)
Definition copy_inc (copy : Z) (h : heap) : option heap :=
  cp ← h_copies h !! copy;
  _ ← cassert (0 <? cp_reference cp);
  Some (set_copies h (<[copy := StmCopy (cp_reference cp + 1) (cp_sz cp) (cp_msg cp)]> (h_copies h))).

(** [ATOM_DEC(&copy->reference)]: the new value. *)
Definition copy_dec (copy : Z) (h : heap) : option (Z * heap) :=
  cp ← h_copies h !! copy;
  let n := cp_reference cp - 1 in
  Some (n, set_copies h (<[copy := StmCopy n (cp_sz cp) (cp_msg cp)]> (h_copies h))).

(** [uboss_free(copy->msg)] and [uboss_free(copy)]. *)
Definition copy_free (copy : Z) (h : heap) : option heap :=
  cp ← h_copies h !! copy;
  _ ← cassert (bool_decide (cp_msg cp ∈ h_blocks h));
  Some (set_blocks (set_copies h (delete copy (h_copies h))) (h_blocks h ∖ {[cp_msg cp]})).

(** After [stm_releasecopy]. *)
Definition continue (k : cont) (a : agent) : agent :=
  match k with
  | KUpdate => with_op a WIdle
  | KRelease => with_op a RelClear
  | KRead updated => with_op a (match a_last a with Some c => if updated then RUse c else RIdle | None => RIdle end)
  | KDelete => with_op a RGone
  end.

Definition stm_releasecopy (a : agent) (h : heap) : option (agent * heap) :=
  match a_op a with
  | Drop None k => Some (continue k a, h)
  | Drop (Some c) k =>
      '(n, h) ← copy_dec c h;
      if n =? 0 then Some (with_op a (Free c k), h) else Some (continue k a, h)
  | Free c k => h ← copy_free c h; Some (continue k a, h)
  | _ => None
  end.

Definition stm_release (a : agent) (h : heap) : option (agent * heap) :=
  match a_op a with
  | RelStart => o ← h_obj h; _ ← o_copy o; Some (Agent RwWTas RelLock (a_last a), h)
  | RelLock =>
      if bool_decide (a_lock a = RwWriting) then o ← h_obj h; Some (with_op a (Drop (o_copy o) KRelease), h)
      else lock_access rwlock_wlock RelLock a h
  | RelClear =>
      o ← h_obj h;
      let ref := o_reference o - 1 in
      if 0 <? ref then Some (with_op a RelUnlock, set_obj h (Some (StmObject (o_lock o) ref None)))
      else Some (with_op a WGone, set_obj h None)
  | RelUnlock => lock_access rwlock_wunlock WGone a h
  | _ => None
  end.

(** [stm_releasereader], and [lastcopy] of the box goes to [stm_releasecopy]. *)
Definition stm_releasereader (a : agent) (h : heap) : option (agent * heap) :=
  match a_op a with
  | DelLock =>
      if bool_decide (a_lock a = RwReading) then
        o ← h_obj h;
        let ref := o_reference o - 1 in
        if ref =? 0 then _ ← cassert (bool_decide (o_copy o = None)); Some (Agent (a_lock a) (Drop (a_last a) KDelete) None, set_obj h None)
        else Some (with_op a DelUnlock, set_obj h (Some (StmObject (o_lock o) ref (o_copy o))))
      else lock_access rwlock_rlock DelLock a h
  | DelUnlock => '(a', h) ← lock_access rwlock_runlock DelUnlock a h; Some (Agent (a_lock a') (Drop (a_last a) KDelete) None, h)
  | _ => None
  end.

Definition stm_grab (a : agent) (h : heap) : option (agent * heap) :=
  match a_op a with
  | GrabLock =>
      if bool_decide (a_lock a = RwReading) then
        o ← h_obj h; Some (with_op a (GrabUnlock (o_reference o)), set_obj h (Some (StmObject (o_lock o) (o_reference o + 1) (o_copy o))))
      else lock_access rwlock_rlock GrabLock a h
  | GrabUnlock ref =>
      '(a, h) ← lock_access rwlock_runlock WIdle a h;
      _ ← cassert (0 <? ref);
      Some (a, set_flight h (h_flight h + 1))
  | _ => None
  end.

(** [stm_copy]; then [lread] compares.  The box is the thread's own: [lastcopy] is set before
    its old value is released. *)
Definition lread (a : agent) (h : heap) : option (agent * heap) :=
  match a_op a with
  | CopyLock =>
      if bool_decide (a_lock a = RwReading) then
        o ← h_obj h;
        h ← match o_copy o with Some c => copy_inc c h | None => Some h end;
        Some (with_op a (CopyUnlock (o_copy o)), h)
      else lock_access rwlock_rlock CopyLock a h
  | CopyUnlock ret => lock_access rwlock_runlock (CopyCmp ret) a h
  | CopyCmp ret =>
      if bool_decide (ret = a_last a) then Some (with_op a (Drop ret (KRead false)), h)
      else Some (Agent (a_lock a) (Drop (a_last a) (KRead true)) ret, h)
  | RUse c =>
      cp ← h_copies h !! c;
      _ ← cassert (bool_decide (cp_msg cp ∈ h_blocks h));
      Some (with_op a RIdle, h)
  | _ => None
  end.

Definition stm_update (a : agent) (h : heap) : option (agent * heap) :=
  match a_op a with
  | UpdLock c =>
      if bool_decide (a_lock a = RwWriting) then
        o ← h_obj h; Some (with_op a (UpdUnlock (o_copy o)), set_obj h (Some (StmObject (o_lock o) (o_reference o) (Some c))))
      else lock_access rwlock_wlock (UpdLock c) a h
  | UpdUnlock old => lock_access rwlock_wunlock (Drop old KUpdate) a h
  | _ => None
  end.

(** The next step of a function that is running; [None] is an access to freed memory or a
    failed assertion. *)
Definition access (a : agent) (h : heap) : option (agent * heap) :=
  match a_op a with
  | UpdLock _ | UpdUnlock _ => stm_update a h
  | GrabLock | GrabUnlock _ => stm_grab a h
  | RelStart | RelLock | RelClear | RelUnlock => stm_release a h
  | CopyLock | CopyUnlock _ | CopyCmp _ | RUse _ => lread a h
  | DelLock | DelUnlock => stm_releasereader a h
  | Drop _ _ | Free _ _ => stm_releasecopy a h
  | WIdle | WGone | RIdle | RGone => None
  end.

Definition running (o : op) : bool := match o with WIdle | WGone | RIdle | RGone => false | _ => true end.

(** [lnewwriter]. *)
Definition lnewwriter (copy msg sz : Z) : stm := Stm (stm_new copy msg sz) [Agent RwIdle WIdle None].

(** A box starts a function, or a function makes a step.  A grabbed pointer goes to one
    [lnewreader]. *)
Inductive stm_step : stm -> stm -> Prop :=
| step_update i a h l copy msg sz : l !! i = Some a -> a_op a = WIdle -> h_copies h !! copy = None -> msg ∉ h_blocks h ->
    stm_step (Stm h l) (Stm (stm_newcopy copy msg sz (set_blocks h ({[msg]} ∪ h_blocks h))) (<[i := Agent RwWTas (UpdLock copy) (a_last a)]> l))
| step_grab i a h l : l !! i = Some a -> a_op a = WIdle -> stm_step (Stm h l) (Stm h (<[i := Agent RwRSpin GrabLock (a_last a)]> l))
| step_release i a h l : l !! i = Some a -> a_op a = WIdle -> stm_step (Stm h l) (Stm h (<[i := with_op a RelStart]> l))
| step_newreader h l : 0 < h_flight h -> stm_step (Stm h l) (Stm (set_flight h (h_flight h - 1)) (l ++ [Agent RwIdle RIdle None]))
| step_read i a h l : l !! i = Some a -> a_op a = RIdle -> stm_step (Stm h l) (Stm h (<[i := Agent RwRSpin CopyLock (a_last a)]> l))
| step_delete i a h l : l !! i = Some a -> a_op a = RIdle -> stm_step (Stm h l) (Stm h (<[i := Agent RwRSpin DelLock (a_last a)]> l))
| step_access i a h l a' h' : l !! i = Some a -> access a h = Some (a', h') -> stm_step (Stm h l) (Stm h' (<[i := a']> l)).
