(* ===== verification/StmSafe.v ===== *)
(** The invariant of lib/stm/lua-stm.c: the counters are exact in every interleaving. *)
From S2P Require Import Prelude Lock Stm.

(** ** What an agent counts for *)

(** References to the object, as the owner among them, to a copy. *)
Definition holds (a : agent) : Z :=
  match a_op a with RelUnlock | WGone | DelUnlock | RGone | Drop _ KDelete | Free _ KDelete => 0 | GrabUnlock _ => 2 | _ => 1 end.

Definition owner (a : agent) : bool :=
  match a_op a with
  | WIdle | UpdLock _ | UpdUnlock _ | GrabLock | GrabUnlock _ | RelStart | RelLock | RelClear
  | Drop _ KUpdate | Free _ KUpdate | Drop _ KRelease | Free _ KRelease => true
  | _ => false
  end.

Definition is_copy (o : option Z) (c : Z) : Z := Z.b2z (bool_decide (o = Some c)).

Definition op_refs (c : Z) (o : op) : Z :=
  match o with
  | UpdLock c' => is_copy (Some c') c
  | UpdUnlock p | CopyUnlock p | CopyCmp p => is_copy p c
  | Drop _ KRelease => 0
  | Drop p _ => is_copy p c
  | _ => 0
  end.

Definition refs (c : Z) (a : agent) : Z := is_copy (a_last a) c + op_refs c (a_op a).

(** An agent that is about to free a copy; the owner between the decrement of the object's
    copy and [obj->copy = NULL]. *)
Definition freeing (c : Z) (a : agent) : Z := match a_op a with Free c' _ => is_copy (Some c') c | _ => 0 end.
Definition clearing (a : agent) : bool := match a_op a with Free _ KRelease | RelClear => true | _ => false end.

Definition lock_ok (a : agent) : Prop :=
  match a_op a with
  | UpdLock _ | RelLock => match a_lock a with RwWTas | RwWWait | RwWriting => True | _ => False end
  | GrabLock | CopyLock | DelLock => match a_lock a with RwRSpin | RwRAdd | RwRCheck | RwRSub | RwReading => True | _ => False end
  | UpdUnlock _ | RelClear | RelUnlock | Drop _ KRelease | Free _ KRelease => a_lock a = RwWriting
  | GrabUnlock _ | CopyUnlock _ | DelUnlock => a_lock a = RwReading
  | _ => a_lock a = RwIdle
  end.

(** What an agent has read of the object stays true. *)
Definition link (o : stm_object) (a : agent) : Prop := match a_op a with Drop p KRelease => p = o_copy o | _ => True end.

Definition local_ok (a : agent) : Prop := match a_op a with RUse c => a_last a = Some c | GrabUnlock ref => 0 < ref | _ => True end.

(** An agent that no longer uses the object, or is about to unlock it. *)
Definition dead (a : agent) : Prop := holds a = 0 /\ a_op a <> RelUnlock.

(** The object's own reference to a copy. *)
Definition current (h : heap) (l : list agent) (c : Z) : Z :=
  match h_obj h with Some o => if countb clearing l =? 0 then is_copy (o_copy o) c else 0 | None => 0 end.

(** ** The invariant *)

Definition obj_ok (h : heap) (l : list agent) (o : stm_object) : Prop :=
  rw_inv (RwSys (o_lock o) (map a_lock l)) /\ 0 < o_reference o /\ o_reference o = h_flight h + zsum holds l /\
  Forall lock_ok l /\ countb owner l = Z.b2z (bool_decide (is_Some (o_copy o))) /\ Forall (link o) l.

Definition obj_inv (s : stm) : Prop :=
  match h_obj (s_heap s) with
  | Some o => obj_ok (s_heap s) (s_agents s) o
  | None => h_flight (s_heap s) = 0 /\ Forall dead (s_agents s)
  end /\ 0 <= h_flight (s_heap s) /\ Forall local_ok (s_agents s).

Definition copies_inv (s : stm) : Prop :=
  forall c, let total := zsum (refs c) (s_agents s) + current (s_heap s) (s_agents s) c in
    let free := zsum (freeing c) (s_agents s) in
    match h_copies (s_heap s) !! c with
    | Some cp => cp_reference cp = total /\ free = (if total =? 0 then 1 else 0)
    | None => total = 0 /\ free = 0
    end.

Definition blocks_inv (s : stm) : Prop :=
  (forall m, m ∈ h_blocks (s_heap s) <-> exists c cp, h_copies (s_heap s) !! c = Some cp /\ cp_msg cp = m) /\
  (forall c c' cp cp', h_copies (s_heap s) !! c = Some cp -> h_copies (s_heap s) !! c' = Some cp' -> cp_msg cp = cp_msg cp' -> c = c').

Definition stm_inv (s : stm) : Prop := obj_inv s /\ copies_inv s /\ blocks_inv s.

(** ** The object *)

#[local] Hint Resolve countb_nonneg : core.

Lemma holds_range a : 0 <= holds a <= 2.
Proof. unfold holds. destruct (a_op a) as [| | | | | | | | | | | | | | | | | |? []|? []]; lia. Qed.

Lemma holds_elem l i a : l !! i = Some a -> holds a <= zsum holds l.
Proof.
  intros Hi. pose proof (zsum_insert holds l i a (Agent RwIdle RGone None) Hi) as E.
  pose proof (zsum_nonneg holds (<[i := Agent RwIdle RGone None]> l) (fun x => proj1 (holds_range x))). change (holds (Agent RwIdle RGone None)) with 0 in E. lia.
Qed.

(** Only one agent is the owner; while it writes, nobody reads. *)
Lemma owner_one h l o i j a b : obj_ok h l o -> l !! i = Some a -> l !! j = Some b -> owner a = true -> owner b = true -> i = j.
Proof.
  intros (_ & _ & _ & _ & Ho & _) Hi Hj Ha Hb. destruct (decide (i = j)); [done|]. pose proof (countb_two owner l i j a b ltac:(done) Hi Hj Ha Hb). destruct (bool_decide _); cbn in Ho; lia.
Qed.

Lemma owner_copy h l o i a : obj_ok h l o -> l !! i = Some a -> owner a = true -> is_Some (o_copy o).
Proof.
  intros (_ & _ & _ & _ & Ho & _) Hi Ha. pose proof (countb_elem owner l i a Hi) as H. rewrite Ha in H. destruct (bool_decide (is_Some (o_copy o))) eqn:E; [by apply bool_decide_eq_true in E|cbn in *; lia].
Qed.

Lemma lock_excludes h l o i j a b : obj_ok h l o -> l !! i = Some a -> l !! j = Some b -> a_lock a = RwReading -> a_lock b = RwWriting -> False.
Proof.
  intros ((_ & _ & _ & Hx) & _) Hi Hj Ha Hb. cbn [rw_threads] in Hx.
  pose proof (countb_elem reading (map a_lock l) i RwReading) as H1. pose proof (countb_elem writing (map a_lock l) j RwWriting) as H2.
  rewrite !list_lookup_fmap, Hi, Hj in *. cbn in H1, H2. rewrite Ha, Hb in *. specialize (H1 eq_refl). specialize (H2 eq_refl). lia.
Qed.

(** An agent's step that leaves the lock alone, in its counts. *)
Lemma obj_put h h' l o i a a' l' r' c' : obj_ok h l o -> l !! i = Some a ->
  rw_inv (RwSys l' (map a_lock (<[i := a']> l))) -> 0 < r' -> r' - o_reference o = h_flight h' - h_flight h + holds a' - holds a ->
  lock_ok a' -> Z.b2z (owner a') - Z.b2z (owner a) = Z.b2z (bool_decide (is_Some c')) - Z.b2z (bool_decide (is_Some (o_copy o))) ->
  c' = o_copy o \/ owner a = true -> link (StmObject l' r' c') a' ->
  obj_ok h' (<[i := a']> l) (StmObject l' r' c').
Proof.
  intros Hok Hi Hrw Hr Hcount Hl Hown Hc Hlink. pose proof Hok as (_ & Hr0 & Href & Hlocks & Ho & Hlinks). unfold obj_ok. cbn [o_lock o_reference o_copy].
  split; [done|]. split; [done|]. split; [rewrite (zsum_insert holds l i a a' Hi); lia|]. split; [by apply Forall_insert|].
  split; [rewrite (countb_insert owner l i a a' Hi); lia|]. rewrite Forall_lookup in *. intros j b Hj. destruct (decide (i = j)) as [<-|Hij].
  - rewrite list_lookup_insert_eq in Hj by (by eapply lookup_lt_Some). by injection Hj as <-.
  - rewrite list_lookup_insert_ne in Hj by done. specialize (Hlinks j b Hj). destruct Hc as [->|Hoa]; [done|]. unfold link in *. destruct (a_op b) eqn:E; try done. destruct k; try done.
    exfalso. apply Hij. eapply (owner_one h l o i j a b); try done. unfold owner. by rewrite E.
Qed.

(** A step of an agent at the lock. *)
Definition lock_fn (f : rw_pc -> rwlock -> option (rw_pc * rwlock)) : Prop :=
  f = rwlock_rlock \/ f = rwlock_wlock \/ f = rwlock_runlock \/ f = rwlock_wunlock.

Lemma rw_same l i a a' rl : l !! i = Some a -> a_lock a' = a_lock a -> rw_inv (RwSys rl (map a_lock l)) -> rw_inv (RwSys rl (map a_lock (<[i := a']> l))).
Proof.
  intros Hi Ha H. rewrite list_fmap_insert, Ha. rewrite list_insert_id; [done|]. by rewrite list_lookup_fmap, Hi.
Qed.

Lemma rw_called l i a a' rl : l !! i = Some a -> a_lock a = RwIdle -> a_lock a' = RwRSpin \/ a_lock a' = RwWTas ->
  rw_inv (RwSys rl (map a_lock l)) -> rw_inv (RwSys rl (map a_lock (<[i := a']> l))).
Proof.
  intros Hi Ha Ha' H. rewrite list_fmap_insert. eapply rw_inv_step; [exact H|]. apply rw_call; [|done]. by rewrite list_lookup_fmap, Hi, <-Ha.
Qed.

Lemma lock_access_inv f next l i a h a' h' : lock_fn f -> l !! i = Some a -> lock_access f next a h = Some (a', h') ->
  exists o pc rl, h_obj h = Some o /\ f (a_lock a) (o_lock o) = Some (pc, rl) /\ a' = Agent pc next (a_last a) /\ h' = set_obj h (Some (StmObject rl (o_reference o) (o_copy o))) /\
    (rw_inv (RwSys (o_lock o) (map a_lock l)) -> forall b, a_lock b = pc -> rw_inv (RwSys rl (map a_lock (<[i := b]> l)))).
Proof.
  intros Hf Hi H. unfold lock_access in H. apply bind_Some in H as (o & Ho & H). apply bind_Some in H as ([pc rl] & Hpc & H). injection H as <- <-.
  exists o, pc, rl. do 4 (split; [done|]). intros Hrw b Hb. rewrite list_fmap_insert, Hb. eapply rw_inv_step; [exact Hrw|]. eapply rw_access; [by rewrite list_lookup_fmap, Hi|].
  unfold lock_fn in Hf. destruct Hf as [->|[->|[->| ->]]]; tauto.
Qed.

(** A step at the lock keeps the invariant if the counts stay. *)
Lemma obj_lock f next l i a h a' h' h'' b : lock_fn f -> obj_inv (Stm h l) -> l !! i = Some a -> lock_access f next a h = Some (a', h') ->
  a_lock b = a_lock a' -> h_obj h'' = h_obj h' -> h_flight h'' + holds b = h_flight h + holds a -> 0 <= h_flight h'' -> owner b = owner a ->
  (forall rl rl', f (a_lock a) rl = Some (a_lock b, rl') -> lock_ok b) -> local_ok b -> (forall o, link o a -> link o b) -> obj_inv (Stm h'' (<[i := b]> l)).
Proof.
  intros Hf (Hobj & Hfl & Hlocal) Hi H Hb Ho' Hcount Hfl' Hown Hlo Hloc Hlink. destruct (lock_access_inv f next l i a h a' h' Hf Hi H) as (o & pc & rl & Ho & Hpc & Ha' & Hh' & Hrw).
  cbn [s_heap s_agents] in *. rewrite Ho in Hobj. subst a' h'. cbn [a_lock] in Hb. subst pc. split; [|split; [done|by apply Forall_insert]]. cbn [s_heap s_agents]. rewrite Ho'. cbn [h_obj set_obj].
  pose proof Hobj as (Hrw0 & Hr & Href & _ & _ & Hlinks). eapply (obj_put h); try done.
  - by apply Hrw.
  - lia.
  - by eapply Hlo.
  - rewrite Hown. lia.
  - by left.
  - apply (Hlink (StmObject rl (o_reference o) (o_copy o))). rewrite Forall_lookup in Hlinks. exact (Hlinks i a Hi).
Qed.

(** A step that leaves the object alone. *)
Lemma obj_local l i a h h' b : obj_inv (Stm h l) -> l !! i = Some a -> h_obj h' = h_obj h -> h_flight h' = h_flight h ->
  holds b = holds a -> owner b = owner a -> local_ok b ->
  (forall o, h_obj h = Some o -> lock_ok b /\ link o b /\ forall rl, rw_inv (RwSys rl (map a_lock l)) -> rw_inv (RwSys rl (map a_lock (<[i := b]> l)))) ->
  (h_obj h = None -> a_op b <> RelUnlock) -> obj_inv (Stm h' (<[i := b]> l)).
Proof.
  intros (Hobj & Hfl & Hlocal) Hi Ho Hf Hholds Hown Hloc Hsome Hnone. cbn [s_heap s_agents] in *. unfold obj_inv. cbn [s_heap s_agents]. rewrite Ho, Hf. split; [|split; [done|by apply Forall_insert]].
  destruct (h_obj h) as [o|].
  - destruct (Hsome o eq_refl) as (Hl & Hlink & Hrw). pose proof Hobj as (Hrw0 & Hr & _). destruct o as [rl r c]. cbn [o_lock o_reference o_copy] in *. eapply (obj_put h); try done; cbn [o_reference o_copy]; [by apply Hrw|lia|rewrite Hown; lia|by left].
  - destruct Hobj as [H0 Hd]. split; [done|]. apply Forall_insert; [done|]. rewrite Forall_lookup in Hd. destruct (Hd i a Hi) as [Hz _]. split; [lia|by apply Hnone].
Qed.

Lemma obj_lock_ok h l i a o : obj_inv (Stm h l) -> l !! i = Some a -> h_obj h = Some o -> obj_ok h l o /\ lock_ok a /\ link o a /\ local_ok a.
Proof.
  intros (Hobj & _ & Hlocal) Hi Ho. cbn [s_heap s_agents] in *. rewrite Ho in Hobj. pose proof Hobj as (_ & _ & _ & Hl & _ & Hk). rewrite Forall_lookup in Hl, Hk, Hlocal. split; [done|]. split; [by eapply Hl|]. split; [by eapply Hk|by eapply Hlocal].
Qed.

Lemma obj_dead h l i a : obj_inv (Stm h l) -> l !! i = Some a -> h_obj h = None -> dead a.
Proof.
  intros (Hobj & _) Hi Ho. cbn [s_heap s_agents] in Hobj. rewrite Ho in Hobj. destruct Hobj as [_ Hd]. rewrite Forall_lookup in Hd. by eapply Hd.
Qed.

Lemma flight_nonneg h l : obj_inv (Stm h l) -> 0 <= h_flight h.
Proof. by intros (_ & Hfl & _). Qed.

#[local] Hint Resolve flight_nonneg : core.

Lemma lock_access_shape f next pc op last h a' h' : lock_access f next (Agent pc op last) h = Some (a', h') ->
  exists pc' o, a' = Agent pc' next last /\ h' = set_obj h o.
Proof. intros H. apply bind_Some in H as (o & _ & H). apply bind_Some in H as ([pc' rl] & _ & [= <- <-]). eauto. Qed.

(** The step is an access to the lock. *)
Ltac lock_step H f next :=
  let pc := fresh in let o := fresh in let Ha := fresh in let Hh := fresh in
  destruct (lock_access_shape _ _ _ _ _ _ _ _ H) as (pc & o & Ha & Hh); simplify_eq;
  eapply (obj_lock f next); try done;
  first
  [unfold lock_fn; tauto
  |by eapply flight_nonneg
  |let rl := fresh in let rl' := fresh in let E := fresh in
   intros rl rl' E; cbn [a_lock] in E; match type of E with _ ?pc _ = _ => destruct pc end; try done; injection E as E; rewrite <-?E; try done; by destruct (_ =? _)
  |let F := fresh in pose proof (flight_nonneg _ _ ltac:(eassumption)) as F; cbn in F |- *; lia].

Lemma stm_update_obj l i a h a' h' : obj_inv (Stm h l) -> l !! i = Some a -> stm_update a h = Some (a', h') -> obj_inv (Stm h' (<[i := a']> l)).
Proof.
  intros Hinv Hi H. destruct a as [pc op last]. unfold stm_update in H. cbn [a_op a_lock] in H. destruct op; try done.
  - case_bool_decide as Hw; [subst pc|].
    + apply bind_Some in H as (o & Ho & [= <- <-]). destruct (obj_lock_ok _ _ _ _ _ Hinv Hi Ho) as (Hok & _ & _ & _). destruct (owner_copy h l o i _ Hok Hi eq_refl) as [c Hc].
      destruct Hinv as (_ & Hfl & Hlocal). split; [|split; [done|by apply Forall_insert]]. cbn [s_heap s_agents set_obj h_obj].
      pose proof Hok as (Hrw & Hr & _). eapply (obj_put h); try done; cbn; [by eapply rw_same|lia|rewrite Hc; cbn; lia|by right].
    + lock_step H rwlock_wlock (UpdLock copy).
  - lock_step H rwlock_wunlock (Drop oldcopy KUpdate).
Qed.

Lemma stm_grab_obj l i a h a' h' : obj_inv (Stm h l) -> l !! i = Some a -> stm_grab a h = Some (a', h') -> obj_inv (Stm h' (<[i := a']> l)).
Proof.
  intros Hinv Hi H. destruct a as [pc op last]. unfold stm_grab in H. cbn [a_op a_lock] in H. destruct op; try done.
  - case_bool_decide as Hw; [subst pc|].
    + apply bind_Some in H as (o & Ho & [= <- <-]). destruct (obj_lock_ok _ _ _ _ _ Hinv Hi Ho) as (Hok & _ & _ & _).
      destruct Hinv as (_ & Hfl & Hlocal). pose proof Hok as (Hrw & Hr & _). split; [|split; [done|by apply Forall_insert]]. cbn [s_heap s_agents set_obj h_obj].
      eapply (obj_put h); try done; cbn; [by eapply rw_same|lia|lia|lia|by left].
    + lock_step H rwlock_rlock GrabLock.
  - apply bind_Some in H as ([a1 h1] & H & Hc). inv_opt. lock_step H rwlock_runlock WIdle.
Qed.

(** The agent's step frees the object: it holds the only reference, and no other agent
    writes. *)
Lemma obj_freed h h' l i a b : obj_inv (Stm h l) -> l !! i = Some a -> forall o, h_obj h = Some o -> o_reference o <= 1 -> holds a = 1 -> holds b = 0 -> a_op b <> RelUnlock ->
  (forall j c, l !! j = Some c -> j <> i -> a_op c <> RelUnlock) -> h_flight h' = h_flight h -> h_obj h' = None -> local_ok b -> obj_inv (Stm h' (<[i := b]> l)).
Proof.
  intros (Hobj & Hfl & Hlocal) Hi o Ho Href Ha Hb Hbop Hothers Hf Hnone Hloc. cbn [s_heap s_agents] in *. rewrite Ho in Hobj. destruct Hobj as (_ & Hr & Hsum & _).
  pose proof (zsum_insert holds l i a b Hi) as E. pose proof (holds_elem l i a Hi). split; [|split; [cbn [s_heap]; lia|by apply Forall_insert]]. cbn [s_heap s_agents]. rewrite Hnone.
  split; [lia|]. apply Forall_lookup. intros j c Hj. destruct (decide (j = i)) as [->|Hij].
  - rewrite list_lookup_insert_eq in Hj by (by eapply lookup_lt_Some). by injection Hj as <-.
  - split; [|rewrite list_lookup_insert_ne in Hj by done; by eapply Hothers]. pose proof (holds_elem _ j c Hj). pose proof (holds_range c). lia.
Qed.

Lemma stm_release_obj l i a h a' h' : obj_inv (Stm h l) -> l !! i = Some a -> stm_release a h = Some (a', h') -> obj_inv (Stm h' (<[i := a']> l)).
Proof.
  intros Hinv Hi H. destruct a as [pc op last]. unfold stm_release in H. cbn [a_op a_lock] in H. destruct op; try done.
  - apply bind_Some in H as (o & Ho & H). apply bind_Some in H as (c & Hc & [= <- <-]). destruct (obj_lock_ok _ _ _ _ _ Hinv Hi Ho) as (_ & Hlo & _ & _).
    eapply obj_local; try done. intros o' Ho'. split; [done|]. split; [done|]. intros rl. eapply rw_called; [done|exact Hlo|by right].
  - case_bool_decide as Hw; [subst pc|].
    + apply bind_Some in H as (o & Ho & [= <- <-]). eapply obj_local; try done. intros o' Ho'. rewrite Ho in Ho'. injection Ho' as ->. split; [done|]. split; [done|]. intros rl. by eapply rw_same.
    + lock_step H rwlock_wlock RelLock.
  - apply bind_Some in H as (o & Ho & H). destruct (obj_lock_ok _ _ _ _ _ Hinv Hi Ho) as (Hok & Hlo & _ & _). destruct (owner_copy h l o i _ Hok Hi eq_refl) as [c Hc].
    destruct (Z.ltb_spec 0 (o_reference o - 1)) as [Hlt|Hle]; injection H as <- <-.
    + destruct Hinv as (_ & Hfl & Hlocal). pose proof Hok as (Hrw & Hr & _). split; [|split; [done|by apply Forall_insert]]. cbn [s_heap s_agents set_obj h_obj].
      eapply (obj_put h); try done; cbn; [by eapply rw_same|lia|rewrite Hc; cbn; lia|by right].
    + eapply obj_freed; try done; [lia|]. intros j b Hj Hji Hb. pose proof Hok as ((_ & Hw & H01 & _) & _ & _ & Hlocks & _). cbn [rw_lock rw_threads] in *.
      rewrite Forall_lookup in Hlocks. specialize (Hlocks j b Hj). unfold lock_ok in Hlocks. rewrite Hb in Hlocks.
      pose proof (countb_two owning (map a_lock l) i j RwWriting RwWriting ltac:(done)). rewrite !list_lookup_fmap, Hi, Hj in *. cbn in H. cbn in Hlo. rewrite Hlo, Hlocks in *. specialize (H eq_refl eq_refl eq_refl eq_refl). lia.
  - lock_step H rwlock_wunlock WGone.
Qed.

Lemma lread_obj l i a h a' h' : obj_inv (Stm h l) -> l !! i = Some a -> lread a h = Some (a', h') -> obj_inv (Stm h' (<[i := a']> l)).
Proof.
  intros Hinv Hi H. destruct a as [pc op last]. unfold lread in H. cbn [a_op a_lock a_last] in H. destruct op; try done.
  - case_bool_decide as Hw; [subst pc|].
    + apply bind_Some in H as (o & Ho & H). apply bind_Some in H as (h1 & Hh & [= <- <-]).
      assert (h_obj h1 = h_obj h /\ h_flight h1 = h_flight h) as [E1 E2]. { destruct (o_copy o) as [c|]; [unfold copy_inc in Hh; inv_opt; done|by injection Hh as <-]. }
      eapply obj_local; try done. intros o' Ho'. split; [done|]. split; [done|]. intros rl. by eapply rw_same.
    + lock_step H rwlock_rlock CopyLock.
  - lock_step H rwlock_runlock (CopyCmp ret).
  - case_bool_decide; injection H as <- <-; (eapply obj_local; try done; intros o' Ho'; destruct (obj_lock_ok _ _ _ _ _ Hinv Hi Ho') as (_ & Hlo & _ & _); split; [done|]; split; [done|]; intros rl; by eapply rw_same).
  - inv_opt. eapply obj_local; try done. intros o' Ho'. destruct (obj_lock_ok _ _ _ _ _ Hinv Hi Ho') as (_ & Hlo & _ & _). split; [done|]. split; [done|]. intros rl. by eapply rw_same.
Qed.

Lemma stm_releasereader_obj l i a h a' h' : obj_inv (Stm h l) -> l !! i = Some a -> stm_releasereader a h = Some (a', h') -> obj_inv (Stm h' (<[i := a']> l)).
Proof.
  intros Hinv Hi H. destruct a as [pc op last]. unfold stm_releasereader in H. cbn [a_op a_lock a_last] in H. destruct op; try done.
  - case_bool_decide as Hw; [subst pc|].
    + apply bind_Some in H as (o & Ho & H). destruct (obj_lock_ok _ _ _ _ _ Hinv Hi Ho) as (Hok & _ & _ & _). destruct (Z.eqb_spec (o_reference o - 1) 0).
      * inv_opt. eapply obj_freed; try done; [lia|]. intros j b Hj Hji Hb. pose proof Hok as (_ & _ & _ & Hlocks & _). rewrite Forall_lookup in Hlocks. specialize (Hlocks j b Hj). unfold lock_ok in Hlocks. rewrite Hb in Hlocks.
        by eapply (lock_excludes h l o i j).
      * injection H as <- <-. destruct Hinv as (_ & Hfl & Hlocal). pose proof Hok as (Hrw & Hr & _). split; [|split; [done|by apply Forall_insert]]. cbn [s_heap s_agents set_obj h_obj].
        eapply (obj_put h); try done; cbn; [by eapply rw_same|lia|lia|lia|by left].
    + lock_step H rwlock_rlock DelLock.
  - apply bind_Some in H as ([a1 h1] & H & [= <- <-]). lock_step H rwlock_runlock DelUnlock.
Qed.

Lemma stm_releasecopy_obj l i a h a' h' : obj_inv (Stm h l) -> l !! i = Some a -> stm_releasecopy a h = Some (a', h') -> obj_inv (Stm h' (<[i := a']> l)).
Proof.
  intros Hinv Hi H. destruct a as [pc op last]. unfold stm_releasecopy in H. cbn [a_op] in H.
  assert (forall c k h1, op = Drop c k \/ (exists c', op = Free c' k) -> h_obj h1 = h_obj h -> h_flight h1 = h_flight h ->
    (op = Drop None KRelease -> False) -> obj_inv (Stm h1 (<[i := continue k (Agent pc op last)]> l))) as Hk.
  { intros c k h1 Hop E1 E2 Hno. eapply obj_local; try done; [by destruct Hop as [->|[c' ->]], k as [| |updated|]; try destruct last, updated..| |].
    - intros o Ho. destruct (obj_lock_ok _ _ _ _ _ Hinv Hi Ho) as (_ & Hlo & _ & _). split; [|split].
      + by destruct Hop as [->|[c' ->]], k as [| |updated|]; try destruct last, updated.
      + by destruct k as [| |updated|]; try destruct last, updated.
      + intros rl. eapply rw_same; [done|]. by destruct k as [| |updated|]; try destruct last, updated.
    - intros _. by destruct k as [| |updated|]; try destruct last, updated. }
  destruct op as [| | | | | | | | | | | | | | | | | |[c|] k|c k]; try done.
  - apply bind_Some in H as ([n h1] & Hd & H). assert (h_obj h1 = h_obj h /\ h_flight h1 = h_flight h) as [E1 E2]. { unfold copy_dec in Hd. inv_opt. done. }
    destruct (n =? 0); injection H as <- <-.
    + eapply obj_local; try done; [by destruct k..|]. intros o Ho. destruct (obj_lock_ok _ _ _ _ _ Hinv Hi Ho) as (_ & Hlo & _ & _). split; [by destruct k|]. split; [done|]. intros rl. by eapply rw_same.
    + apply (Hk (Some c)); [by left|done..].
  - injection H as <- <-. apply (Hk None); [by left|done..|]. intros [= ->]. destruct (h_obj h) as [o|] eqn:Ho.
    + destruct (obj_lock_ok _ _ _ _ _ Hinv Hi Ho) as (Hok & _ & Hl & _). destruct (owner_copy h l o i _ Hok Hi eq_refl) as [c Hc]. cbn in Hl. congruence.
    + destruct (obj_dead _ _ _ _ Hinv Hi Ho) as [Hz _]. done.
  - apply bind_Some in H as (h1 & Hf & [= <- <-]). unfold copy_free in Hf. inv_opt. apply (Hk None); [right; by exists c|done..].
Qed.

Lemma access_obj l i a h a' h' : obj_inv (Stm h l) -> l !! i = Some a -> access a h = Some (a', h') -> obj_inv (Stm h' (<[i := a']> l)).
Proof.
  intros Hinv Hi H. unfold access in H. destruct (a_op a) eqn:E; try done;
    eauto using stm_update_obj, stm_grab_obj, stm_release_obj, lread_obj, stm_releasereader_obj, stm_releasecopy_obj.
Qed.

Lemma zsum_snoc {A} (f : A -> Z) l x : zsum f (l ++ [x]) = zsum f l + f x.
Proof. induction l as [|y l IH]; cbn; [lia|]. fold (zsum f (l ++ [x])). rewrite IH. fold (zsum f l). lia. Qed.

Lemma call_obj l i a h h' pc op : obj_inv (Stm h l) -> l !! i = Some a -> a_op a = WIdle \/ a_op a = RIdle -> h_obj h' = h_obj h -> h_flight h' = h_flight h ->
  let b := Agent pc op (a_last a) in holds b = holds a -> owner b = owner a -> local_ok b ->
  pc = a_lock a \/ pc = RwRSpin \/ pc = RwWTas -> (a_lock a = RwIdle -> lock_ok b) -> (forall o, link o b) -> op <> RelUnlock -> obj_inv (Stm h' (<[i := b]> l)).
Proof.
  intros Hinv Hi Hop Ho Hf b Hh Hown Hl Hpc Hlo Hlink Hne. eapply obj_local; try done. intros o Ho'. destruct (obj_lock_ok _ _ _ _ _ Hinv Hi Ho') as (_ & Hla & _ & _).
  assert (a_lock a = RwIdle) as Hidle by (unfold lock_ok in Hla; by destruct Hop as [E|E]; rewrite E in Hla). split; [by apply Hlo|]. split; [done|]. intros rl.
  destruct Hpc as [E|E]; [by eapply rw_same|by eapply rw_called].
Qed.

Lemma obj_step s s' : obj_inv s -> stm_step s s' -> obj_inv s'.
Proof.
  intros Hinv Hs. destruct Hs as [i a h l copy msg sz Hi Hop Hc Hm|i a h l Hi Hop|i a h l Hi Hop|h l Hfl|i a h l Hi Hop|i a h l Hi Hop|i a h l a' h' Hi H].
  - eapply call_obj; try done; rewrite ?Hop; auto; unfold holds, owner; by rewrite Hop.
  - eapply call_obj; try done; rewrite ?Hop; auto; unfold holds, owner; by rewrite Hop.
  - eapply call_obj; try done; rewrite ?Hop; auto; unfold holds, owner; by rewrite Hop.
  - destruct Hinv as (Hobj & Hf & Hlocal). unfold obj_inv in *. cbn [s_heap s_agents set_flight h_obj h_flight] in *. split; [|split; [lia|apply Forall_app; split; [done|by repeat constructor]]].
    destruct (h_obj h) as [o|]; [|lia]. destruct Hobj as ((H1 & H2 & H3 & H4) & Hr & Href & Hl & Ho & Hk). unfold obj_ok, rw_inv in *. cbn [rw_lock rw_threads h_flight] in *.
    rewrite map_app. unfold countb in *. cbn [map]. rewrite !zsum_snoc. cbn. split; [lia|]. split; [lia|]. split; [lia|]. split; [apply Forall_app; split; [done|by repeat constructor]|]. split; [lia|].
    apply Forall_app; split; [done|by repeat constructor].
  - eapply call_obj; try done; rewrite ?Hop; auto; unfold holds, owner; by rewrite Hop.
  - eapply call_obj; try done; rewrite ?Hop; auto; unfold holds, owner; by rewrite Hop.
  - by eapply access_obj.
Qed.

(** ** The copies *)

Definition entry_ok (m : gmap Z stm_copy) (c total free : Z) : Prop :=
  match m !! c with
  | Some cp => cp_reference cp = total /\ free = (if total =? 0 then 1 else 0)
  | None => total = 0 /\ free = 0
  end.

Lemma is_copy_range p c : 0 <= is_copy p c <= 1.
Proof. unfold is_copy. destruct (bool_decide _); cbn; lia. Qed.

Lemma is_copy_eq c : is_copy (Some c) c = 1.
Proof. unfold is_copy. by rewrite bool_decide_true. Qed.

Lemma is_copy_ne c c' : c <> c' -> is_copy (Some c) c' = 0.
Proof. intros. unfold is_copy. by rewrite bool_decide_false by congruence. Qed.

Lemma refs_nonneg c a : 0 <= refs c a.
Proof.
  unfold refs. pose proof (is_copy_range (a_last a) c). assert (0 <= op_refs c (a_op a)); [|lia].
  destruct (a_op a) as [| | | | | | | | | | | | | | | | | |? []|]; try done; apply is_copy_range.
Qed.

Lemma freeing_nonneg c a : 0 <= freeing c a.
Proof. unfold freeing. destruct (a_op a); try lia. pose proof (is_copy_range (Some copy) c). lia. Qed.

Lemma current_nonneg h l c : 0 <= current h l c.
Proof. unfold current. destruct (h_obj h) as [o|]; [|lia]. destruct (_ =? _); [|lia]. pose proof (is_copy_range (o_copy o) c). lia. Qed.

Lemma zsum_elem {A} (f : A -> Z) l i a : (forall x, 0 <= f x) -> l !! i = Some a -> f a <= zsum f l.
Proof.
  intros Hf. revert i. induction l as [|x l IH]; intros [|i] Hi; simplify_eq/=; fold (zsum f l).
  - pose proof (zsum_nonneg f l Hf). lia.
  - specialize (IH i Hi). specialize (Hf x). lia.
Qed.

(** A step of one agent, in what it changes for each copy. *)
Lemma copies_put h h' l i a a' : copies_inv (Stm h l) -> l !! i = Some a ->
  (forall c t f, refs c a + current h l c <= t -> freeing c a <= f -> entry_ok (h_copies h) c t f ->
    entry_ok (h_copies h') c (t + (refs c a' - refs c a) + (current h' (<[i := a']> l) c - current h l c)) (f + (freeing c a' - freeing c a))) ->
  copies_inv (Stm h' (<[i := a']> l)).
Proof.
  intros Hinv Hi H c. cbn [s_heap s_agents]. specialize (Hinv c). cbn [s_heap s_agents] in Hinv. cbv zeta in *.
  pose proof (zsum_elem (refs c) l i a (refs_nonneg c) Hi). pose proof (zsum_elem (freeing c) l i a (freeing_nonneg c) Hi).
  rewrite (zsum_insert (refs c) l i a a' Hi), (zsum_insert (freeing c) l i a a' Hi). specialize (H c _ (zsum (freeing c) l) ltac:(apply (Zplus_le_compat_r _ (zsum (refs c) l) (current h l c)); lia) ltac:(lia) Hinv).
  unfold entry_ok in H. replace (zsum (refs c) l - refs c a + refs c a' + current h' (<[i:=a']> l) c) with (zsum (refs c) l + current h l c + (refs c a' - refs c a) + (current h' (<[i:=a']> l) c - current h l c)) by lia.
  replace (zsum (freeing c) l - freeing c a + freeing c a') with (zsum (freeing c) l + (freeing c a' - freeing c a)) by lia. exact H.
Qed.

Lemma copies_same h h' l i a a' : copies_inv (Stm h l) -> l !! i = Some a -> h_copies h' = h_copies h -> (forall c, freeing c a' = freeing c a) ->
  (forall c, refs c a' + current h' (<[i := a']> l) c = refs c a + current h l c) -> copies_inv (Stm h' (<[i := a']> l)).
Proof.
  intros Hinv Hi Hc Hf Hr. eapply copies_put; [done..|]. intros c t f _ _ He. rewrite Hc, Hf. specialize (Hr c).
  replace (t + _ + _) with t by lia. by replace (f + _) with f by lia.
Qed.

Lemma current_same h h' l i a a' c : l !! i = Some a -> option_map o_copy (h_obj h') = option_map o_copy (h_obj h) -> clearing a' = clearing a ->
  current h' (<[i := a']> l) c = current h l c.
Proof.
  intros Hi Ho Hcl. unfold current. rewrite (countb_insert clearing l i a a' Hi), Hcl. replace (countb clearing l - _ + _) with (countb clearing l) by lia.
  destruct (h_obj h'), (h_obj h); try done. cbn in Ho. by injection Ho as ->.
Qed.

Lemma clearing_owner a : clearing a = true -> owner a = true.
Proof. unfold clearing, owner. by destruct (a_op a) as [| | | | | | | | | | | | | | | | | |? []|? []]. Qed.

Lemma clearing_none h l o i a : obj_ok h l o -> l !! i = Some a -> owner a = true -> clearing a = false -> countb clearing l = 0.
Proof.
  intros Hok Hi Ha Hcl. pose proof (countb_nonneg clearing l). destruct (decide (countb clearing l = 0)); [done|]. destruct (countb_pos clearing l ltac:(lia)) as (j & b & Hj & Hb).
  pose proof (owner_one h l o i j a b Hok Hi Hj Ha (clearing_owner b Hb)). subst j. congruence.
Qed.

Lemma lock_access_obj f next a h a' h' : lock_access f next a h = Some (a', h') -> h_copies h' = h_copies h /\ h_blocks h' = h_blocks h /\ option_map o_copy (h_obj h') = option_map o_copy (h_obj h).
Proof. intros H. apply bind_Some in H as (o & Ho & H). apply bind_Some in H as ([pc' rl] & _ & [= <- <-]). cbn. by rewrite Ho. Qed.

(** An access to the lock changes no count. *)
Lemma copies_lock f next l i a h a' h' h'' b : copies_inv (Stm h l) -> l !! i = Some a -> lock_access f next a h = Some (a', h') ->
  h_copies h'' = h_copies h' -> option_map o_copy (h_obj h'') = option_map o_copy (h_obj h') ->
  (forall c, freeing c b = freeing c a) -> (forall c, refs c b = refs c a) -> clearing b = clearing a -> copies_inv (Stm h'' (<[i := b]> l)).
Proof.
  intros Hinv Hi (E1 & _ & E2)%lock_access_obj Hc Ho Hf Hr Hcl. eapply copies_same; [done..|congruence|done|]. intros c. by rewrite Hr, (current_same h h'' l i a b c Hi) by congruence.
Qed.

(** The step leaves the copies and the object's copy alone. *)
Lemma copies_plain h h' l i a a' : copies_inv (Stm h l) -> l !! i = Some a -> h_copies h' = h_copies h -> option_map o_copy (h_obj h') = option_map o_copy (h_obj h) ->
  (forall c, freeing c a' = freeing c a) -> (forall c, refs c a' = refs c a) -> clearing a' = clearing a -> copies_inv (Stm h' (<[i := a']> l)).
Proof. intros Hinv Hi Hc Ho Hf Hr Hcl. eapply copies_same; [done..|]. intros c. by rewrite Hr, (current_same h h' l i a a' c Hi). Qed.

Lemma continue_refs k pc p last c : refs c (continue k (Agent pc (Drop p k) last)) = is_copy last c.
Proof. unfold refs. destruct k as [| |updated|]; cbn; try lia. destruct last, updated; cbn; lia. Qed.

Lemma continue_freeing k a c : freeing c (continue k a) = 0.
Proof. unfold freeing. destruct k as [| |updated|]; cbn; try lia. by destruct (a_last a), updated. Qed.

Lemma continue_clearing k a : clearing (continue k a) = match k with KRelease => true | _ => false end.
Proof. destruct k as [| |updated|]; cbn; try done. by destruct (a_last a), updated. Qed.

Lemma continue_op k pc op op' last : continue k (Agent pc op last) = continue k (Agent pc op' last).
Proof. by destruct k. Qed.

Lemma copies_update l i a h a' h' : stm_inv (Stm h l) -> l !! i = Some a -> stm_update a h = Some (a', h') -> copies_inv (Stm h' (<[i := a']> l)).
Proof.
  intros (Hobj & Hc & _) Hi H. destruct a as [pc op last]. unfold stm_update in H. cbn [a_op a_lock] in H. destruct op; try done.
  - case_bool_decide as Hw; [subst pc|].
    + apply bind_Some in H as (o & Ho & [= <- <-]). destruct (obj_lock_ok _ _ _ _ _ Hobj Hi Ho) as (Hok & _ & _ & _).
      pose proof (clearing_none h l o i _ Hok Hi eq_refl eq_refl) as Hz. eapply copies_same; try done. intros c. unfold current. cbn [h_obj set_obj]. rewrite Ho.
      rewrite (countb_insert clearing l i _ _ Hi), Hz. change (0 - _ + _ =? 0) with true. unfold refs. cbn. lia.
    + destruct (lock_access_shape _ _ _ _ _ _ _ _ H) as (npc & oo & -> & ->). by eapply copies_lock.
  - destruct (lock_access_shape _ _ _ _ _ _ _ _ H) as (npc & oo & -> & ->). by eapply copies_lock.
Qed.

Lemma copies_grab l i a h a' h' : stm_inv (Stm h l) -> l !! i = Some a -> stm_grab a h = Some (a', h') -> copies_inv (Stm h' (<[i := a']> l)).
Proof.
  intros (Hobj & Hc & _) Hi H. destruct a as [pc op last]. unfold stm_grab in H. cbn [a_op a_lock] in H. destruct op; try done.
  - case_bool_decide as Hw; [subst pc|].
    + apply bind_Some in H as (o & Ho & [= <- <-]). eapply copies_plain; try done. cbn. by rewrite Ho.
    + destruct (lock_access_shape _ _ _ _ _ _ _ _ H) as (npc & oo & -> & ->). by eapply copies_lock.
  - apply bind_Some in H as ([a1 h1] & H & Hx). inv_opt. destruct (lock_access_shape _ _ _ _ _ _ _ _ H) as (npc & oo & -> & ->). by eapply copies_lock.
Qed.

Lemma copies_release l i a h a' h' : stm_inv (Stm h l) -> l !! i = Some a -> stm_release a h = Some (a', h') -> copies_inv (Stm h' (<[i := a']> l)).
Proof.
  intros (Hobj & Hc & _) Hi H. destruct a as [pc op last]. unfold stm_release in H. cbn [a_op a_lock] in H. destruct op; try done.
  - inv_opt. by eapply copies_plain.
  - case_bool_decide as Hw; [subst pc|].
    + apply bind_Some in H as (o & Ho & [= <- <-]). by eapply copies_plain.
    + destruct (lock_access_shape _ _ _ _ _ _ _ _ H) as (npc & oo & -> & ->). by eapply copies_lock.
  - apply bind_Some in H as (o & Ho & H). assert (forall c, current h l c = 0) as Hcur.
    { intros c. unfold current. rewrite Ho. pose proof (countb_elem clearing l i _ Hi) as E. cbn in E. destruct (Z.eqb_spec (countb clearing l) 0); [lia|done]. }
    destruct (Z.ltb_spec 0 (o_reference o - 1)); injection H as <- <-; (eapply copies_same; try done); intros c; rewrite Hcur; unfold current, refs; cbn; change (is_copy None c) with 0; [destruct (_ =? _)|]; lia.
  - destruct (lock_access_shape _ _ _ _ _ _ _ _ H) as (npc & oo & -> & ->). by eapply copies_lock.
Qed.

Lemma copies_releasereader l i a h a' h' : stm_inv (Stm h l) -> l !! i = Some a -> stm_releasereader a h = Some (a', h') -> copies_inv (Stm h' (<[i := a']> l)).
Proof.
  intros (Hobj & Hc & _) Hi H. destruct a as [pc op last]. unfold stm_releasereader in H. cbn [a_op a_lock a_last] in H. destruct op; try done.
  - case_bool_decide as Hw; [subst pc|].
    + apply bind_Some in H as (o & Ho & H). destruct (Z.eqb_spec (o_reference o - 1) 0).
      * unfold cassert in H. case_bool_decide as Hn; [|done]. injection H as <- <-. eapply copies_same; try done. intros c. unfold current, refs. rewrite Ho, Hn. cbn. change (is_copy None c) with 0. destruct (_ =? _); lia.
      * injection H as <- <-. eapply copies_plain; try done. cbn. by rewrite Ho.
    + destruct (lock_access_shape _ _ _ _ _ _ _ _ H) as (npc & oo & -> & ->). by eapply copies_lock.
  - apply bind_Some in H as ([a1 h1] & H & [= <- <-]). destruct (lock_access_shape _ _ _ _ _ _ _ _ H) as (npc & oo & -> & ->). eapply copies_lock; try done. intros c. unfold refs. cbn. change (is_copy None c) with 0. lia.
Qed.

Lemma copies_read l i a h a' h' : stm_inv (Stm h l) -> l !! i = Some a -> lread a h = Some (a', h') -> copies_inv (Stm h' (<[i := a']> l)).
Proof.
  intros (Hobj & Hc & _) Hi H. destruct a as [pc op last]. unfold lread in H. cbn [a_op a_lock a_last] in H. destruct op; try done.
  - case_bool_decide as Hw; [subst pc|].
    + apply bind_Some in H as (o & Ho & H). apply bind_Some in H as (h1 & Hh & [= <- <-]). destruct (o_copy o) as [c0|] eqn:Ec; [|injection Hh as <-; by eapply copies_plain].
      unfold copy_inc, cassert in Hh. apply bind_Some in Hh as (cp & Hcp & Hh). destruct (Z.ltb_spec 0 (cp_reference cp)); [|done]. injection Hh as <-.
      eapply copies_put; [done..|]. intros c t f _ _ He. rewrite (current_same h _ l i _ _ c Hi) by done. unfold entry_ok in *. unfold refs, freeing. cbn. destruct (decide (c0 = c)) as [<-|Hne].
      * rewrite lookup_insert_eq. rewrite Hcp in He. destruct He as [E1 E2]. cbn. rewrite is_copy_eq. destruct (Z.eqb_spec t 0); [lia|]. match goal with |- context [?e =? 0] => replace e with (t + 1) by lia end. destruct (Z.eqb_spec (t + 1) 0); lia.
      * rewrite lookup_insert_ne by done. rewrite is_copy_ne by done. replace (t + _ + _) with t by lia. by replace (f + _) with f by lia.
    + destruct (lock_access_shape _ _ _ _ _ _ _ _ H) as (npc & oo & -> & ->). by eapply copies_lock.
  - destruct (lock_access_shape _ _ _ _ _ _ _ _ H) as (npc & oo & -> & ->). by eapply copies_lock.
  - case_bool_decide; injection H as <- <-; eapply copies_plain; try done. intros c. unfold refs. cbn. lia.
  - inv_opt. by eapply copies_plain.
Qed.

(** The decrement of a copy's counter, by an agent that counts for it. *)
Lemma copies_dec h l i a a' c0 n h' : copies_inv (Stm h l) -> l !! i = Some a -> copy_dec c0 h = Some (n, h') ->
  1 <= refs c0 a + current h l c0 ->
  (forall c, refs c a' + current h' (<[i := a']> l) c = refs c a + current h l c - is_copy (Some c0) c) ->
  (forall c, freeing c a = 0) -> (forall c, freeing c a' = if n =? 0 then is_copy (Some c0) c else 0) -> copies_inv (Stm h' (<[i := a']> l)).
Proof.
  intros Hinv Hi Hd Hone Hr Hf Hf'. unfold copy_dec in Hd. apply bind_Some in Hd as (cp & Hcp & [= <- <-]).
  eapply copies_put; [done..|]. intros c t f Ht _ He. specialize (Hr c). unfold set_copies in *. cbn [h_copies] in *. rewrite Hf, Hf'. unfold entry_ok in *. destruct (decide (c0 = c)) as [<-|Hne].
  - rewrite lookup_insert_eq. rewrite Hcp in He. destruct He as [E1 E2]. cbn [cp_reference]. rewrite is_copy_eq in *. destruct (Z.eqb_spec t 0); [lia|].
    replace (t + (refs c0 a' - refs c0 a) + _) with (cp_reference cp - 1) by lia. destruct (Z.eqb_spec (cp_reference cp - 1) 0); lia.
  - rewrite lookup_insert_ne by done. rewrite is_copy_ne in * by done. replace (t + _ + _) with t by lia. replace (f + _) with f by (destruct (_ =? _); lia). done.
Qed.

Lemma copies_releasecopy l i a h a' h' : stm_inv (Stm h l) -> l !! i = Some a -> stm_releasecopy a h = Some (a', h') -> copies_inv (Stm h' (<[i := a']> l)).
Proof.
  intros (Hobj & Hc & _) Hi H. destruct a as [pc op last]. unfold stm_releasecopy in H. cbn [a_op] in H.
  destruct op as [| | | | | | | | | | | | | | | | | |[c0|] k|c0 k]; try done.
  - apply bind_Some in H as ([n h1] & Hd & H). set (a := Agent pc (Drop (Some c0) k) last) in *.
    assert (a' = (if n =? 0 then with_op a (Free c0 k) else continue k a) /\ h' = h1) as [Ea ->] by (destruct (n =? 0); by injection H as <- <-). clear H.
    assert (h_obj h1 = h_obj h) as Eo by (unfold copy_dec in Hd; inv_opt; done).
    assert (forall c, refs c a' = is_copy last c) as Hr. { intros c. rewrite Ea. destruct (n =? 0); [unfold refs; cbn; lia|apply continue_refs]. }
    assert (clearing a' = match k with KRelease => true | _ => false end) as Hcl. { rewrite Ea. destruct (n =? 0); [by destruct k|apply continue_clearing]. }
    assert (forall c, refs c a' + current h1 (<[i := a']> l) c = refs c a + current h l c - is_copy (Some c0) c) as Hsum.
    { intros c. rewrite Hr. assert (k = KRelease \/ k <> KRelease) as [->|Hk] by (destruct k; by (left + right)).
      - destruct (h_obj h) as [o|] eqn:Ho; [|destruct (obj_dead _ _ _ _ Hobj Hi Ho) as [Hz _]; done]. destruct (obj_lock_ok _ _ _ _ _ Hobj Hi Ho) as (Hok & _ & Hl & _). cbn in Hl.
        unfold current. rewrite Eo, Ho, <-Hl, (countb_insert clearing l i a a' Hi), Hcl, (clearing_none h l o i _ Hok Hi eq_refl eq_refl). change (0 - _ + _ =? 0) with false. unfold refs. cbn. lia.
      - rewrite (current_same h h1 l i a a' c Hi) by (by rewrite ?Eo, ?Hcl; destruct k). unfold refs. cbn. destruct k; try done; lia. }
    eapply (copies_dec h l i a a' c0); try done.
    + specialize (Hsum c0). rewrite is_copy_eq in Hsum. pose proof (refs_nonneg c0 a'). pose proof (current_nonneg h1 (<[i:=a']> l) c0). lia.
    + intros c. rewrite Ea. destruct (n =? 0); [done|apply continue_freeing].
  - injection H as <- <-. eapply copies_plain; try done; intros; rewrite ?continue_freeing, ?continue_refs, ?continue_clearing; try done.
    + unfold refs. cbn. change (is_copy None c) with 0. destruct k; lia.
    + destruct k; try done. exfalso. destruct (h_obj h) as [o|] eqn:Ho.
      * destruct (obj_lock_ok _ _ _ _ _ Hobj Hi Ho) as (Hok & _ & Hl & _). destruct (owner_copy h l o i _ Hok Hi eq_refl) as [c Hc']. cbn in Hl. congruence.
      * destruct (obj_dead _ _ _ _ Hobj Hi Ho) as [Hz _]. done.
  - apply bind_Some in H as (h1 & Hf & [= <- <-]). unfold copy_free in Hf. apply bind_Some in Hf as (cp & Hcp & Hf). inv_opt.
    eapply copies_put; [done..|]. intros c t f Ht Hff He. rewrite (continue_op k pc _ (Drop None k)), continue_refs, continue_freeing.
    rewrite (current_same h _ l i _ _ c Hi) by (done || (rewrite continue_clearing; by destruct k)). unfold entry_ok in *. cbn [h_copies set_blocks set_copies]. unfold refs, freeing in *. cbn in Hff |- *.
    replace (t + _ + _) with t by lia. destruct (decide (c0 = c)) as [<-|Hne].
    + rewrite lookup_delete_eq. rewrite Hcp in He. rewrite is_copy_eq in *. destruct (Z.eqb_spec t 0); lia.
    + rewrite lookup_delete_ne by done. rewrite is_copy_ne by done. by replace (f + _) with f by lia.
Qed.

Lemma copies_access l i a h a' h' : stm_inv (Stm h l) -> l !! i = Some a -> access a h = Some (a', h') -> copies_inv (Stm h' (<[i := a']> l)).
Proof.
  intros Hinv Hi H. unfold access in H. destruct (a_op a) eqn:E; try done;
    eauto using copies_update, copies_grab, copies_release, copies_read, copies_releasereader, copies_releasecopy.
Qed.

Lemma call_refs a o c : (a_op a = WIdle \/ a_op a = RIdle) -> op_refs c o = 0 -> forall pc, refs c (Agent pc o (a_last a)) = refs c a.
Proof. intros Ha Ho pc. unfold refs. cbn. rewrite Ho. destruct Ha as [E|E]; rewrite E; cbn; lia. Qed.

Lemma copies_call h l i a pc o : copies_inv (Stm h l) -> l !! i = Some a -> (a_op a = WIdle \/ a_op a = RIdle) ->
  (forall c, op_refs c o = 0) -> (match o with Free _ _ | RelClear => False | _ => True end) -> copies_inv (Stm h (<[i := Agent pc o (a_last a)]> l)).
Proof.
  intros Hc Hi Ha Hr Ho. assert (forall c, freeing c a = 0) as Hfa by (intros c; unfold freeing; destruct Ha as [E|E]; by rewrite E).
  assert (clearing a = false) as Hca by (unfold clearing; destruct Ha as [E|E]; by rewrite E). eapply copies_plain; try done.
  - intros c. rewrite Hfa. unfold freeing. cbn. by destruct o.
  - intros c. by apply call_refs.
  - rewrite Hca. unfold clearing. cbn. by destruct o as [| | | | | | | | | | | | | | | | | |? []|? []].
Qed.

Lemma copies_step s s' : stm_inv s -> stm_step s s' -> copies_inv s'.
Proof.
  intros Hinv Hs. destruct Hs as [i a h l copy msg sz Hi Hop Hn Hm|i a h l Hi Hop|i a h l Hi Hop|h l Hfl|i a h l Hi Hop|i a h l Hi Hop|i a h l a' h' Hi H].
  - destruct Hinv as (_ & Hc & _). eapply copies_put; [done..|]. intros c t f Ht Hf He. rewrite (current_same h _ l i _ _ c Hi) by (done || (unfold clearing; cbn; by rewrite Hop)).
    unfold entry_ok in *. unfold refs, freeing in *. rewrite Hop in *. cbn in *. destruct (decide (copy = c)) as [<-|Hne].
    + rewrite lookup_insert_eq. rewrite Hn in He. destruct He as [-> ->]. rewrite is_copy_eq. cbn. replace (0 + _ + _) with 1 by lia. done.
    + rewrite lookup_insert_ne by done. rewrite is_copy_ne by done. replace (t + _ + _) with t by lia. by replace (f + _) with f by lia.
  - destruct Hinv as (_ & Hc & _). apply copies_call; auto.
  - destruct Hinv as (_ & Hc & _). apply copies_call; auto.
  - destruct Hinv as (_ & Hc & _). intros c. specialize (Hc c). cbn [s_heap s_agents] in *. unfold current in *. cbn [h_obj set_flight h_copies] in *. unfold countb in *. rewrite !zsum_snoc. unfold refs at 2, freeing at 2. cbn. change (is_copy None c) with 0.
    rewrite !Z.add_0_r. exact Hc.
  - destruct Hinv as (_ & Hc & _). apply copies_call; auto.
  - destruct Hinv as (_ & Hc & _). apply copies_call; auto.
  - by eapply copies_access.
Qed.

(** ** The blocks *)

Definition same_msgs (m m' : gmap Z stm_copy) : Prop := forall c, cp_msg <$> m' !! c = cp_msg <$> m !! c.

Lemma blocks_same h h' l l' : same_msgs (h_copies h) (h_copies h') -> h_blocks h' = h_blocks h -> blocks_inv (Stm h l) -> blocks_inv (Stm h' l').
Proof.
  intros Hm Hb (H1 & H2). assert (forall c cp, h_copies h' !! c = Some cp -> exists cp0, h_copies h !! c = Some cp0 /\ cp_msg cp0 = cp_msg cp) as Hd.
  { intros c cp E. specialize (Hm c). rewrite E in Hm. destruct (h_copies h !! c) as [cp0|]; [|done]. injection Hm as ->. by exists cp0. }
  split; cbn [s_heap] in *.
  - intros m. rewrite Hb, H1. split; intros (c & cp & E & Em).
    + specialize (Hm c). rewrite E in Hm. destruct (h_copies h' !! c) as [cp'|] eqn:E'; [|done]. injection Hm as Hm. exists c, cp'. by rewrite Hm.
    + destruct (Hd c cp E) as (cp0 & E0 & Em0). exists c, cp0. split; [done|congruence].
  - intros c c' cp cp' E E' Em. destruct (Hd c cp E) as (cp0 & E0 & Em0). destruct (Hd c' cp' E') as (cp1 & E1 & Em1). eapply H2; [done..|congruence].
Qed.

Lemma same_insert h c cp cp' : h_copies h !! c = Some cp -> cp_msg cp' = cp_msg cp -> same_msgs (h_copies h) (<[c := cp']> (h_copies h)).
Proof. intros E Em c'. destruct (decide (c = c')) as [<-|]; [rewrite lookup_insert_eq, E; cbn; by rewrite Em|by rewrite lookup_insert_ne]. Qed.

Ltac keep Hb := refine (blocks_same _ _ _ _ _ _ Hb); try done.

Lemma blocks_access a h a' h' l l' : access a h = Some (a', h') -> blocks_inv (Stm h l) -> blocks_inv (Stm h' l').
Proof.
  intros H Hb.
  assert (forall f next x y, lock_access f next a h = Some (x, y) -> same_msgs (h_copies h) (h_copies y) /\ h_blocks y = h_blocks h) as Hlock.
  { intros f next x y (E1 & E2 & _)%lock_access_obj. by rewrite E1. }
  unfold access, stm_update, stm_grab, stm_release, lread, stm_releasereader in H. destruct (a_op a) as [| | | | | | | | | | | | | | | | | |[c|] k|c k] eqn:Eop; try done;
    try (case_bool_decide; inv_opt); try (eapply Hlock in H as [? ?]; by keep Hb); try (inv_opt; by keep Hb).
  - inv_opt. match goal with E : lock_access _ _ _ _ = Some ?p |- _ => destruct p as [a1 h1]; eapply Hlock in E as [E1 E2] end. inv_opt. by keep Hb.
  - inv_opt. destruct (0 <? _); inv_opt; by keep Hb.
  - destruct (o_copy _) as [c|]; inv_opt; [|by keep Hb]. unfold copy_inc in *. inv_opt. keep Hb. by eapply same_insert.
  - destruct (_ =? _); inv_opt; by keep Hb.
  - inv_opt. match goal with E : lock_access _ _ _ _ = Some ?p |- _ => destruct p as [a1 h1]; eapply Hlock in E as [E1 E2] end. inv_opt. by keep Hb.
  - unfold stm_releasecopy in H. rewrite Eop in H. unfold copy_dec in H. inv_opt. destruct (_ =? _); inv_opt; (keep Hb; by eapply same_insert).
  - unfold stm_releasecopy in H. rewrite Eop in H. inv_opt. by keep Hb.
  - unfold stm_releasecopy in H. rewrite Eop in H. unfold copy_free in H. inv_opt. destruct Hb as [Hb1 Hb2]. split; cbn [s_heap set_blocks set_copies h_copies h_blocks] in *.
    + intros m. rewrite elem_of_difference, Hb1, elem_of_singleton. split.
      * intros ((c' & cp & E & Em) & Hne). exists c', cp. rewrite lookup_delete_ne; [done|]. intros <-. congruence.
      * intros (c' & cp & E & Em). apply lookup_delete_Some in E as [Hne E]. split; [by exists c', cp|]. intros ->. apply Hne. eapply Hb2; [done..|congruence].
    + intros c1 c2 cp1 cp2 [_ E1]%lookup_delete_Some [_ E2]%lookup_delete_Some. by eapply Hb2.
Qed.

Lemma blocks_step s s' : blocks_inv s -> stm_step s s' -> blocks_inv s'.
Proof.
  intros Hb Hs. destruct Hs as [i a h l copy msg sz Hi Hop Hn Hm|i a h l Hi Hop|i a h l Hi Hop|h l Hfl|i a h l Hi Hop|i a h l Hi Hop|i a h l a' h' Hi H]; try (by keep Hb); [|by eapply blocks_access].
  destruct Hb as [H1 H2]. split; cbn [s_heap stm_newcopy set_blocks set_copies h_copies h_blocks] in *.
  - intros m. rewrite elem_of_union, elem_of_singleton, H1. split.
    + intros [->|(c & cp & E & Em)]; [exists copy, (StmCopy 1 (u32 sz) msg); by rewrite lookup_insert_eq|]. exists c, cp. rewrite lookup_insert_ne; [done|congruence].
    + intros (c & cp & E & Em). apply lookup_insert_Some in E as [[<- <-]|[Hne E]]; [by left|right; by exists c, cp].
  - assert (forall c cp, h_copies h !! c = Some cp -> cp_msg cp <> msg) as Hnew by (intros c cp E Em; apply Hm, H1; by exists c, cp).
    intros c1 c2 cp1 cp2 [[<- <-]|[Hn1 E1]]%lookup_insert_Some [[<- <-]|[Hn2 E2]]%lookup_insert_Some Em; cbn [cp_msg] in Em; try done; [exfalso; by eapply Hnew|exfalso; by eapply Hnew|by eapply H2].
Qed.

Lemma stm_inv_step s s' : stm_inv s -> stm_step s s' -> stm_inv s'.
Proof.
  intros Hinv Hs. split; [eapply obj_step; [apply Hinv|done]|]. split; [by eapply copies_step|eapply blocks_step; [apply Hinv|done]].
Qed.

Lemma stm_inv_init copy msg sz : stm_inv (lnewwriter copy msg sz).
Proof.
  split; [|split].
  - split; [|split; [done|by repeat constructor]]. repeat split; try done; cbn; try lia; by repeat constructor.
  - intros c. cbn. unfold current, refs. cbn. destruct (decide (copy = c)) as [<-|Hne].
    + rewrite lookup_insert_eq. change (is_copy None copy) with 0. rewrite is_copy_eq. done.
    + rewrite lookup_insert_ne by done. change (is_copy None c) with 0. by rewrite is_copy_ne.
  - split; cbn.
    + intros m. rewrite elem_of_singleton. split; [intros ->; exists copy, (StmCopy 1 (u32 sz) msg); by rewrite lookup_insert_eq|].
      intros (c & cp & E & Em). apply lookup_insert_Some in E as [[<- <-]|[_ E]]; done.
    + intros c1 c2 cp1 cp2 [[<- <-]|[_ E1]]%lookup_insert_Some [[<- <-]|[_ E2]]%lookup_insert_Some; done.
Qed.

Lemma stm_inv_reachable copy msg sz s : rtc stm_step (lnewwriter copy msg sz) s -> stm_inv s.
Proof. intros H. assert (stm_inv (lnewwriter copy msg sz)) as Hinv by apply stm_inv_init. induction H; eauto using stm_inv_step. Qed.

(** ** Safety *)

Lemma copy_live h l c : stm_inv (Stm h l) -> 1 <= zsum (refs c) l + current h l c \/ 1 <= zsum (freeing c) l ->
  exists cp, h_copies h !! c = Some cp /\ cp_reference cp = zsum (refs c) l + current h l c /\ cp_msg cp ∈ h_blocks h.
Proof.
  intros (_ & Hc & Hb & _) H. specialize (Hc c). cbn [s_heap s_agents] in *. cbv zeta in Hc. destruct (h_copies h !! c) as [cp|] eqn:E; [|lia]. exists cp. split; [done|]. split; [by destruct Hc|].
  apply Hb. by exists c, cp.
Qed.

Lemma refs_live h l i a c : stm_inv (Stm h l) -> l !! i = Some a -> 1 <= refs c a -> exists cp, h_copies h !! c = Some cp /\ cp_msg cp ∈ h_blocks h.
Proof.
  intros Hinv Hi Ha. pose proof (zsum_elem (refs c) l i a (refs_nonneg c) Hi). pose proof (current_nonneg h l c). destruct (copy_live h l c Hinv ltac:(left; lia)) as (cp & E & _ & Hm). by exists cp.
Qed.

Lemma owner_holds a : owner a = true -> 1 <= holds a.
Proof. unfold owner, holds. destruct (a_op a) as [| | | | | | | | | | | | | | | | | |? []|? []]; done || lia. Qed.

(** The last reference of a reader: there is no owner and no copy. *)
Lemma last_reader h l o i a : obj_ok h l o -> 0 <= h_flight h -> l !! i = Some a -> a_op a = DelLock -> o_reference o = 1 -> o_copy o = None.
Proof.
  intros (_ & _ & Href & _ & Ho & _) Hfl Hi Ha Hr. destruct (o_copy o) as [c|]; [|done]. cbn in Ho. destruct (countb_pos owner l ltac:(lia)) as (j & b & Hj & Hb).
  assert (i <> j) as Hij by (intros <-; assert (a = b) as <- by congruence; unfold owner in Hb; by rewrite Ha in Hb).
  pose proof (zsum_insert holds l i a (Agent RwIdle RGone None) Hi) as E. change (holds (Agent RwIdle RGone None)) with 0 in E.
  pose proof (holds_elem (<[i:=Agent RwIdle RGone None]> l) j b ltac:(by rewrite list_lookup_insert_ne)). pose proof (owner_holds b Hb).
  assert (holds a = 1) by (unfold holds; by rewrite Ha). lia.
Qed.

Lemma reading_current h l o i a c : obj_ok h l o -> h_obj h = Some o -> l !! i = Some a -> a_lock a = RwReading -> o_copy o = Some c -> current h l c = 1.
Proof.
  intros Hok Ho Hi Ha Hc. unfold current. rewrite Ho, Hc, is_copy_eq. destruct (Z.eqb_spec (countb clearing l) 0) as [|Hz]; [done|]. exfalso. pose proof (countb_nonneg clearing l).
  destruct (countb_pos clearing l ltac:(lia)) as (j & b & Hj & Hb). eapply (lock_excludes h l o i j); try done. pose proof Hok as (_ & _ & _ & Hl & _). rewrite Forall_lookup in Hl. specialize (Hl j b Hj).
  unfold lock_ok, clearing in *. by destruct (a_op b) as [| | | | | | | | | | | | | | | | | |? []|? []].
Qed.

Lemma lock_access_some f next a h o pr : h_obj h = Some o -> f (a_lock a) (o_lock o) = Some pr -> is_Some (lock_access f next a h).
Proof. intros Ho Hf. unfold lock_access. rewrite Ho. cbn. rewrite Hf. cbn. by destruct pr. Qed.

(** What an agent does while the object lives. *)
Lemma access_live h l o i a : stm_inv (Stm h l) -> h_obj h = Some o -> l !! i = Some a -> running (a_op a) = true -> (forall c k, a_op a <> Drop c k) -> (forall c k, a_op a <> Free c k) -> (forall c, a_op a <> RUse c) -> is_Some (access a h).
Proof.
  intros Hinv Ho Hi Hrun Hdrop Hfree Huse. pose proof Hinv as (Hobj & _). destruct (obj_lock_ok _ _ _ _ _ Hobj Hi Ho) as (Hok & Hlo & _ & Hloc). pose proof (flight_nonneg _ _ Hobj) as Hfl.
  destruct a as [pc op last]. unfold access, stm_update, stm_grab, stm_release, lread, stm_releasereader. cbn [a_op a_lock a_last] in *. unfold lock_ok in Hlo. cbn [a_op a_lock] in Hlo.
  assert (forall f next pr, f pc (o_lock o) = Some pr -> is_Some (lock_access f next (Agent pc op last) h)) as Hl by (intros; by eapply lock_access_some).
  destruct op; try done; try (by destruct (Hdrop copy k)); try (by destruct (Hfree copy k)); try (by destruct (Huse copy)); try subst pc; try rewrite Ho; cbn [mbind option_bind].
  - case_bool_decide; [done|]. destruct pc; try done; by eapply Hl.
  - by eapply Hl.
  - case_bool_decide; [done|]. destruct pc; try done; by eapply Hl.
  - cbn in Hloc. destruct (Hl rwlock_runlock WIdle _ eq_refl) as [[b h1] ->]. cbn. unfold cassert. by destruct (Z.ltb_spec 0 ref); [|lia].
  - destruct (owner_copy h l o i _ Hok Hi eq_refl) as [c ->]. done.
  - case_bool_decide; [done|]. destruct pc; try done; by eapply Hl.
  - destruct (0 <? _); done.
  - by eapply Hl.
  - case_bool_decide as Hr; [|destruct pc; try done; by eapply Hl]. subst pc. destruct (o_copy o) as [c|] eqn:Hc; [|done]. pose proof (reading_current h l o i _ c Hok Ho Hi eq_refl Hc) as Hcur.
    pose proof (zsum_nonneg (refs c) l (refs_nonneg c)). destruct (copy_live h l c Hinv ltac:(left; lia)) as (cp & E & Hrc & _). unfold copy_inc. rewrite E. cbn. unfold cassert. by destruct (Z.ltb_spec 0 (cp_reference cp)); [|lia].
  - by eapply Hl.
  - case_bool_decide; done.
  - case_bool_decide as Hr; [|destruct pc; try done; by eapply Hl]. subst pc. destruct (Z.eqb_spec (o_reference o - 1) 0) as [Hz|]; [|done]. rewrite (last_reader h l o i _ Hok Hfl Hi eq_refl) by lia. done.
  - destruct (Hl rwlock_runlock DelUnlock _ eq_refl) as [[b h1] ->]. done.
Qed.

Lemma access_safe h l i a : stm_inv (Stm h l) -> l !! i = Some a -> running (a_op a) = true -> is_Some (access a h) \/ (a_op a = DelUnlock /\ h_obj h = None).
Proof.
  intros Hinv Hi Hrun. pose proof Hinv as (Hobj & _). destruct a as [pc op last].
  assert ((exists c k, op = Drop c k) \/ (exists c k, op = Free c k) \/ (exists c, op = RUse c) \/ ((forall c k, op <> Drop c k) /\ (forall c k, op <> Free c k) /\ (forall c, op <> RUse c))) as [(c & k & ->)|[(c & k & ->)|[[c ->]|(Hdrop & Hfree & Huse)]]].
  { destruct op; eauto 6; right; right; right; (split; [|split]; done). }
  - left. unfold access, stm_releasecopy. cbn [a_op]. destruct c as [c|]; [|done]. assert (exists cp, h_copies h !! c = Some cp) as [cp E]; [|unfold copy_dec; rewrite E; cbn; by destruct (_ =? _)].
    assert (k = KRelease \/ k <> KRelease) as [->|Hk] by (destruct k; by (left + right)).
    + destruct (h_obj h) as [o|] eqn:Ho; [|destruct (obj_dead _ _ _ _ Hobj Hi Ho) as [Hz _]; done]. destruct (obj_lock_ok _ _ _ _ _ Hobj Hi Ho) as (Hok & _ & Hl & _). cbn in Hl.
      assert (current h l c = 1) as Hcur by (unfold current; by rewrite Ho, (clearing_none h l o i _ Hok Hi eq_refl eq_refl), <-Hl, is_copy_eq).
      pose proof (zsum_nonneg (refs c) l (refs_nonneg c)). destruct (copy_live h l c Hinv ltac:(left; lia)) as (cp & E & _). by exists cp.
    + destruct (refs_live h l i _ c Hinv Hi) as (cp & E & _); [|by exists cp]. unfold refs. cbn. pose proof (is_copy_range last c). pose proof (is_copy_eq c). destruct k; try done; lia.
  - left. unfold access, stm_releasecopy. cbn [a_op]. pose proof (zsum_elem (freeing c) l i _ (freeing_nonneg c) Hi) as Hf. unfold freeing in Hf at 1. cbn in Hf. rewrite is_copy_eq in Hf.
    destruct (copy_live h l c Hinv ltac:(by right)) as (cp & E & _ & Hm). unfold copy_free. rewrite E. cbn. by rewrite bool_decide_true.
  - left. unfold access, lread. cbn [a_op]. destruct Hobj as (_ & _ & Hlocal). rewrite Forall_lookup in Hlocal. specialize (Hlocal i _ Hi). cbn in Hlocal.
    destruct (refs_live h l i _ c Hinv Hi) as (cp & E & Hm); [unfold refs; cbn; rewrite Hlocal, is_copy_eq; lia|]. rewrite E. cbn. by rewrite bool_decide_true.
  - destruct (h_obj h) as [o|] eqn:Ho; [left; by eapply access_live|]. destruct (obj_dead _ _ _ _ Hobj Hi Ho) as [Hz Hne]. cbn in Hz, Hne.
    right. split; [|done]. cbn. destruct op; try done; [by destruct (Hdrop copy k)|by destruct (Hfree copy k)].
Qed.
