(* ===== verification/StmReads.v ===== *)
(** lib/stm/lua-stm.c: what the invariant of [StmSafe] gives its users. *)
From S2P Require Import Prelude Lock Stm StmSafe.

(** ** Boxes without a last copy *)

Definition reader_op (o : op) : bool :=
  match o with RIdle | CopyLock | CopyUnlock _ | CopyCmp _ | RUse _ | DelLock | DelUnlock | Drop _ (KRead _) | Free _ (KRead _) => true | _ => false end.

Definition last_ok (a : agent) : Prop := reader_op (a_op a) = false -> a_last a = None.

Lemma continue_last k pc p last : last_ok (Agent pc (Drop p k) last) -> last_ok (continue k (Agent pc (Drop p k) last)).
Proof. unfold last_ok. destruct k as [| |updated|]; cbn; try done. by destruct last, updated. Qed.

Lemma last_lock f next pc o last h a' h' : lock_access f next (Agent pc o last) h = Some (a', h') -> (reader_op next = false -> last = None) -> last_ok a'.
Proof. by intros (npc & oo & -> & ->)%lock_access_shape H. Qed.

Lemma last_access a h a' h' : access a h = Some (a', h') -> last_ok a -> last_ok a'.
Proof.
  intros H Ha. destruct a as [pc op last]. unfold last_ok in Ha. cbn [a_op a_last] in Ha.
  unfold access, stm_update, stm_grab, stm_release, lread, stm_releasereader, stm_releasecopy in H. cbn [a_op a_lock a_last] in H.
  destruct op as [| | | | | | | | | | | | | | | | | |[c|] k|c k]; try done; try (case_bool_decide; inv_opt); try (by eapply last_lock in H); try (by inv_opt).
  - apply bind_Some in H as ([a1 h1] & H & Hx). inv_opt. by eapply last_lock in H.
  - inv_opt. by destruct (0 <? _); inv_opt.
  - by destruct (_ =? _); inv_opt.
  - apply bind_Some in H as ([a1 h1] & _ & [= <- <-]). done.
  - apply bind_Some in H as ([n h1] & _ & H). destruct (n =? 0); injection H as <- <-; [by destruct k|by apply continue_last].
  - injection H as <- <-. by apply continue_last.
  - inv_opt. rewrite (continue_op k pc _ (Drop None k)). apply continue_last. unfold last_ok. cbn. by destruct k.
Qed.

Lemma last_step s s' : Forall last_ok (s_agents s) -> stm_step s s' -> Forall last_ok (s_agents s').
Proof.
  intros Hl Hs. destruct Hs as [i a h l copy msg sz Hi Hop Hn Hm|i a h l Hi Hop|i a h l Hi Hop|h l Hfl|i a h l Hi Hop|i a h l Hi Hop|i a h l a' h' Hi H]; cbn [s_agents] in *;
    try (apply Forall_insert; [done|]; rewrite Forall_lookup in Hl; specialize (Hl i a Hi); unfold last_ok in Hl; rewrite Hop in Hl; by intros _; apply Hl).
  - apply Forall_app. split; [done|]. by repeat constructor.
  - apply Forall_insert; [done|]. done.
  - apply Forall_insert; [done|]. done.
  - apply Forall_insert; [done|]. rewrite Forall_lookup in Hl. eapply last_access; [done|by eapply Hl].
Qed.

Lemma last_reachable copy msg sz s : rtc stm_step (lnewwriter copy msg sz) s -> Forall last_ok (s_agents s).
Proof. intros H. assert (Forall last_ok (s_agents (lnewwriter copy msg sz))) as Hinv by (by repeat constructor). induction H; eauto using last_step. Qed.

(** ** All boxes closed *)

Definition gone (a : agent) : Prop := a_op a = WGone \/ a_op a = RGone.

Lemma sum_zero {A} (f : A -> Z) l : Forall (fun x => f x = 0) l -> zsum f l = 0.
Proof. induction 1 as [|x l Hx Hl IH]; [done|]. cbn. fold (zsum f l). lia. Qed.

Lemma all_gone h l : stm_inv (Stm h l) -> Forall last_ok l -> Forall gone l -> h_flight h = 0 -> h = Heap None ∅ ∅ 0.
Proof.
  intros (Hobj & Hc & Hb) Hl Hg Hf. assert (zsum holds l = 0) as Hh. { apply sum_zero. eapply Forall_impl; [exact Hg|]. intros a [E|E]; unfold holds; by rewrite E. }
  assert (h_obj h = None) as Ho. { destruct Hobj as (Hobj & _). cbn in Hobj. destruct (h_obj h); [|done]. destruct Hobj as (_ & ? & ? & _). lia. }
  assert (h_copies h = ∅) as Hcs.
  { apply map_eq. intros c. rewrite lookup_empty. specialize (Hc c). cbn [s_heap s_agents] in Hc. cbv zeta in Hc. destruct (h_copies h !! c); [|done]. exfalso.
    assert (zsum (refs c) l = 0) as Hr. { apply sum_zero. rewrite Forall_forall in *. intros a Ha. unfold refs. destruct (Hg a Ha) as [E|E]; rewrite E, (Hl a Ha) by (by rewrite E); done. }
    assert (zsum (freeing c) l = 0) as Hfr. { apply sum_zero. eapply Forall_impl; [exact Hg|]. intros a [E|E]; unfold freeing; by rewrite E. }
    unfold current in Hc. rewrite Ho, Hr, Hfr in Hc. by destruct Hc. }
  assert (h_blocks h = ∅) as Hbs. { apply set_eq. intros m. destruct Hb as [Hb _]. rewrite (Hb m). cbn. rewrite Hcs. split; [intros (c & cp & E & _); by rewrite lookup_empty in E|set_solver]. }
  destruct h as [o cs bs fl]. cbn in *. by subst.
Qed.

(** ** The comparison of pointers in lread *)

Definition obj_copy (h : heap) : option Z := h_obj h ≫= o_copy.

(** An update's copy is its own until the exchange. *)
Definition private_inv (s : stm) : Prop :=
  forall i a c, s_agents s !! i = Some a -> a_op a = UpdLock c -> zsum (refs c) (s_agents s) + current (s_heap s) (s_agents s) c = 1.

Lemma lock_access_heap f next a h a' h' : lock_access f next a h = Some (a', h') -> obj_copy h' = obj_copy h /\ h_copies h' = h_copies h.
Proof. intros H. apply bind_Some in H as (o & Ho & H). apply bind_Some in H as ([pc' rl] & _ & [= <- <-]). unfold obj_copy. cbn. by rewrite Ho. Qed.

(** Only the exchange of an update gives the object another copy. *)
Lemma access_copy a h a' h' c : access a h = Some (a', h') -> obj_copy h' = Some c -> obj_copy h = Some c \/ a_op a = UpdLock c.
Proof.
  intros H Hc. assert (forall f next x y, lock_access f next a h = Some (x, y) -> obj_copy y = Some c -> obj_copy h = Some c) as Hlock.
  { intros f next x y (E & _)%lock_access_heap E'. congruence. }
  unfold access, stm_update, stm_grab, stm_release, lread, stm_releasereader, stm_releasecopy, copy_dec, copy_free in H.
  destruct (a_op a) as [| | | | | | | | | | | | | | | | | |[c0|] k|c0 k] eqn:Eop; try done; try (case_bool_decide; inv_opt); try (left; by eapply Hlock); try (by inv_opt; left).
  - right. by injection Hc as ->.
  - left. unfold obj_copy. by match goal with E : h_obj h = _ |- _ => rewrite E end.
  - apply bind_Some in H as ([a1 h1] & H & Hx). inv_opt. left. by eapply Hlock.
  - left. inv_opt. by destruct (0 <? _); inv_opt.
  - left. destruct (o_copy _); unfold copy_inc in *; inv_opt; done.
  - left. destruct (_ =? _); inv_opt; unfold obj_copy. by match goal with E : h_obj h = _ |- _ => rewrite E end.
  - apply bind_Some in H as ([a1 h1] & H & [= <- <-]). left. by eapply Hlock.
  - left. inv_opt. by destruct (_ =? _); inv_opt.
Qed.

(** Only a reader that copies the object's copy counts one reference more. *)
Lemma access_counts a h a' h' c cp cp' : access a h = Some (a', h') -> h_copies h !! c = Some cp -> h_copies h' !! c = Some cp' -> cp_reference cp < cp_reference cp' ->
  a_op a = CopyLock /\ a_lock a = RwReading /\ obj_copy h = Some c.
Proof.
  intros H Hc Hc' Hlt. assert (h_copies h' = h_copies h -> False) as Hsame by (intros E; rewrite E in Hc'; assert (cp = cp') by congruence; subst; lia).
  assert (forall f next x y, lock_access f next a h = Some (x, y) -> h_copies y = h_copies h) as Hlock by (intros f next x y H0; by destruct (lock_access_heap _ _ _ _ _ _ H0)).
  unfold access, stm_update, stm_grab, stm_release, lread, stm_releasereader, stm_releasecopy, copy_dec, copy_free in H.
  destruct (a_op a) as [| | | | | | | | | | | | | | | | | |[c0|] k|c0 k] eqn:Eop; try done; try (case_bool_decide; inv_opt); try (exfalso; apply Hsame; by eapply Hlock); try (exfalso; apply Hsame; by inv_opt).
  - apply bind_Some in H as ([a1 h1] & H & Hx). inv_opt. exfalso. apply Hsame. exact (Hlock _ _ _ _ H).
  - exfalso. apply Hsame. inv_opt. by destruct (0 <? _); inv_opt.
  - destruct (o_copy _) as [c0|] eqn:Ec; inv_opt. unfold copy_inc in *. inv_opt. cbn in Hc'. split; [done|]. split; [done|]. unfold obj_copy.
    match goal with E : h_obj h = _ |- _ => rewrite E end. cbn. rewrite Ec. f_equal. destruct (decide (c0 = c)) as [|Hne]; [done|]. rewrite lookup_insert_ne in Hc' by done. exfalso. assert (cp = cp') by congruence. subst. lia.
  - exfalso. apply Hsame. by destruct (_ =? _); inv_opt.
  - apply bind_Some in H as ([a1 h1] & H & [= <- <-]). exfalso. apply Hsame. by eapply Hlock.
  - exfalso. inv_opt. destruct (decide (c0 = c)) as [->|Hne].
    + destruct (_ =? _); inv_opt; cbn in Hc'; rewrite lookup_insert_eq in Hc'; injection Hc' as <-; cbn in Hlt; lia.
    + destruct (_ =? _); inv_opt; cbn in Hc'; rewrite lookup_insert_ne in Hc' by done; assert (cp = cp') by congruence; subst; lia.
  - exfalso. inv_opt. cbn in Hc'. apply lookup_delete_Some in Hc' as [_ Hc']. assert (cp = cp') by congruence. subst. lia.
Qed.

Lemma zsum_two {A} (f : A -> Z) l i j a b : (forall x, 0 <= f x) -> i <> j -> l !! i = Some a -> l !! j = Some b -> f a + f b <= zsum f l.
Proof.
  intros Hf Hij. revert i j Hij. induction l as [|x l IH]; intros [|i] [|j] Hij Hi Hj; simplify_eq/=; fold (zsum f l).
  - pose proof (zsum_elem f l j b Hf Hj). lia.
  - pose proof (zsum_elem f l i a Hf Hi). lia.
  - specialize (IH i j ltac:(congruence) Hi Hj). specialize (Hf x). lia.
Qed.

Lemma access_updlock a h a' h' c : access a h = Some (a', h') -> a_op a' = UpdLock c -> a_op a = UpdLock c /\ h_copies h' = h_copies h.
Proof.
  intros H Hc. destruct a as [pc op last].
  unfold access, stm_update, stm_grab, stm_release, lread, stm_releasereader, stm_releasecopy, copy_dec, copy_free in H. cbn [a_op a_lock a_last] in *.
  assert (forall k o, a_op (continue k (Agent pc o last)) <> UpdLock c) as Hk by (intros [| |updated|] o; cbn; try done; by destruct last, updated).
  destruct op as [| | | | | | | | | | | | | | | | | |[c0|] k|c0 k]; try done; try (case_bool_decide; inv_opt); try (by destruct (lock_access_shape _ _ _ _ _ _ _ _ H) as (npc & oo & -> & ->)); try (by inv_opt).
  - apply bind_Some in H as ([a1 h1] & H & Hx). inv_opt. by destruct (lock_access_shape _ _ _ _ _ _ _ _ H) as (npc & oo & -> & ->).
  - inv_opt. by destruct (0 <? _); inv_opt.
  - by destruct (_ =? _); inv_opt.
  - apply bind_Some in H as ([a1 h1] & H & [= <- <-]). done.
  - inv_opt. destruct (_ =? _); inv_opt. by destruct (Hk k (Drop (Some c0) k)).
  - inv_opt. by destruct (Hk k (Drop None k)).
  - inv_opt. by destruct (Hk k (Free c0 k)).
Qed.

(** An update in progress has the only reference to its copy. *)
Lemma private_ref h l j b c : stm_inv (Stm h l) -> l !! j = Some b -> a_op b = UpdLock c ->
  1 <= refs c b /\ exists cp, h_copies h !! c = Some cp /\ (cp_reference cp <= 1 -> zsum (refs c) l + current h l c = 1) /\ cp_reference cp = zsum (refs c) l + current h l c.
Proof.
  intros Hinv Hj Hb. assert (1 <= refs c b) as Hrb by (unfold refs; rewrite Hb; cbn; rewrite is_copy_eq; pose proof (is_copy_range (a_last b) c); lia). split; [done|].
  pose proof (zsum_elem (refs c) l j b (refs_nonneg c) Hj) as Hge. pose proof (current_nonneg h l c) as Hcur.
  destruct (copy_live h l c Hinv ltac:(left; lia)) as (cp & E & Hr & _). exists cp. split; [done|]. split; [lia|done].
Qed.

Lemma private_step s s' : stm_inv s -> stm_inv s' -> private_inv s -> stm_step s s' -> private_inv s'.
Proof.
  intros Hinv Hinv' Hp Hs j b c Hj Hb. destruct s' as [h' l'], s as [h l]. cbn [s_heap s_agents] in *.
  destruct (private_ref h' l' j b c Hinv' Hj Hb) as (Hrb & cp' & E' & Hone & Hr'). apply Hone. clear Hone.
  assert (forall j0 b0, l !! j0 = Some b0 -> a_op b0 = UpdLock c -> exists cp, h_copies h !! c = Some cp /\ cp_reference cp = 1 /\ zsum (refs c) l + current h l c = 1 /\ refs c b0 <= zsum (refs c) l) as Hold.
  { intros j0 b0 Hj0 Hb0. destruct (private_ref h l j0 b0 c Hinv Hj0 Hb0) as (_ & cp & E & _ & Hr). specialize (Hp j0 b0 c Hj0 Hb0). cbn [s_heap s_agents] in Hp. exists cp. split; [done|]. split; [lia|]. split; [lia|]. by eapply zsum_elem; [apply refs_nonneg|]. }
  assert (forall j0 b0, l !! j0 = Some b0 -> a_op b0 = UpdLock c -> h_copies h' !! c = h_copies h !! c -> cp_reference cp' <= 1) as Hsame.
  { intros j0 b0 Hj0 Hb0 E. destruct (Hold j0 b0 Hj0 Hb0) as (cp & E0 & Hr & _). assert (cp = cp') by congruence. subst. lia. }
  inversion Hs as [i a h0 l0 copy msg sz Hi Hop Hn Hm|i a h0 l0 Hi Hop|i a h0 l0 Hi Hop|h0 l0 Hfl|i a h0 l0 Hi Hop|i a h0 l0 Hi Hop|i a h0 l0 a' h0' Hi H]; subst.
  - destruct (decide (copy = c)) as [->|Hne]; [cbn in E'; rewrite lookup_insert_eq in E'; by injection E' as <-|].
    assert (h_copies h !! c = Some cp') as E by (cbn in E'; by rewrite lookup_insert_ne in E').
    apply list_lookup_insert_Some in Hj as [(-> & <- & _)|(Hij & Hj)]; [cbn in Hb; by injection Hb as ->|]. eapply (Hsame j b); [done..|]. by rewrite E'.
  - apply list_lookup_insert_Some in Hj as [(-> & <- & _)|(Hij & Hj)]; [done|by eapply (Hsame j b)].
  - apply list_lookup_insert_Some in Hj as [(-> & <- & _)|(Hij & Hj)]; [done|by eapply (Hsame j b)].
  - apply lookup_snoc_Some in Hj as [[_ Hj]|[_ <-]]; [by eapply (Hsame j b)|done].
  - apply list_lookup_insert_Some in Hj as [(-> & <- & _)|(Hij & Hj)]; [done|by eapply (Hsame j b)].
  - apply list_lookup_insert_Some in Hj as [(-> & <- & _)|(Hij & Hj)]; [done|by eapply (Hsame j b)].
  - apply list_lookup_insert_Some in Hj as [(-> & <- & _)|(Hij & Hj)].
    + destruct (access_updlock _ _ _ _ _ H Hb) as [Ha E]. eapply (Hsame j a); [done..|]. by rewrite E.
    + destruct (Hold j b Hj Hb) as (cp & E & Hr & Htot & Hle). destruct (Z.le_gt_cases (cp_reference cp') 1); [done|]. exfalso.
      destruct (access_counts _ _ _ _ _ _ _ H E E' ltac:(lia)) as (Hop & Hlk & Ho). unfold obj_copy in Ho. apply bind_Some in Ho as (o & Ho & Hoc).
      destruct (obj_lock_ok _ _ _ _ _ (proj1 Hinv) Hi Ho) as (Hok & _). pose proof (reading_current h l o i a c Hok Ho Hi Hlk Hoc). lia.
Qed.

Lemma reachable_invs copy msg sz s : rtc stm_step (lnewwriter copy msg sz) s -> stm_inv s /\ private_inv s.
Proof.
  intros H. assert (stm_inv (lnewwriter copy msg sz) /\ private_inv (lnewwriter copy msg sz)) as Hinv.
  { split; [apply stm_inv_init|]. intros [|i] a c Ha Hop; [by injection Ha as <-|done]. }
  induction H as [|s1 s2 s3 Hs _ IH]; [done|]. destruct Hinv as [Hi Hp]. apply IH. pose proof (stm_inv_step _ _ Hi Hs). split; [done|by apply (private_step s1)].
Qed.

Definition last_of (i : nat) (s : stm) : option Z := s_agents s !! i ≫= a_last.

Lemma step_copy s s' c : stm_step s s' -> obj_copy (s_heap s') = Some c -> obj_copy (s_heap s) = Some c \/ exists j b, s_agents s !! j = Some b /\ a_op b = UpdLock c.
Proof.
  intros Hs Hc. destruct Hs as [| | | | | |i a h l a' h' Hi H]; try (by left). destruct (access_copy _ _ _ _ c H Hc) as [|Hop]; [by left|right; by exists i, a].
Qed.

Lemma no_return s s' i c : stm_inv s -> private_inv s -> last_of i s = Some c -> obj_copy (s_heap s) <> Some c -> stm_step s s' -> obj_copy (s_heap s') <> Some c.
Proof.
  intros Hinv Hp Hl Ho Hs Hc. destruct (step_copy _ _ c Hs Hc) as [|(j & b & Hj & Hb)]; [done|]. unfold last_of in Hl. apply bind_Some in Hl as (a & Hi & Ha). specialize (Hp j b c Hj Hb). destruct s as [h l]. cbn [s_heap s_agents] in *.
  pose proof (current_nonneg h l c). assert (1 <= refs c b) as Hrb by (unfold refs; rewrite Hb; cbn; rewrite is_copy_eq; pose proof (is_copy_range (a_last b) c); lia).
  assert (1 <= refs c a) as Hra by (unfold refs; rewrite Ha, is_copy_eq; pose proof (refs_nonneg c (Agent (a_lock a) (a_op a) None)) as H1; unfold refs in H1; cbn in H1; change (is_copy None c) with 0 in H1; lia).
  destruct (decide (i = j)) as [->|Hij].
  - assert (a = b) as -> by congruence. pose proof (zsum_elem (refs c) l j b (refs_nonneg c) Hi). assert (refs c b = 2) by (unfold refs; rewrite Ha, Hb; cbn; by rewrite is_copy_eq). lia.
  - pose proof (zsum_two (refs c) l i j a b (refs_nonneg c) Hij Hi Hj). lia.
Qed.

(** ** Runs *)

Inductive label := LUpdate (i : nat) (copy msg sz : Z) | LGrab (i : nat) | LRelease (i : nat) | LReader | LRead (i : nat) | LDelete (i : nat) | LStep (i : nat).

Definition on_idle (o : op) (i : nat) (s : stm) (f : agent -> agent) : option stm :=
  a ← s_agents s !! i;
  match o, a_op a with
  | WIdle, WIdle | RIdle, RIdle => Some (Stm (s_heap s) (<[i := f a]> (s_agents s)))
  | _, _ => None
  end.

Definition stm_do (x : label) (s : stm) : option stm :=
  match x with
  | LUpdate i copy msg sz =>
      let h := s_heap s in
      if bool_decide (h_copies h !! copy = None) && bool_decide (msg ∉ h_blocks h) then
        s ← on_idle WIdle i s (fun a => Agent RwWTas (UpdLock copy) (a_last a));
        Some (Stm (stm_newcopy copy msg sz (set_blocks h ({[msg]} ∪ h_blocks h))) (s_agents s))
      else None
  | LGrab i => on_idle WIdle i s (fun a => Agent RwRSpin GrabLock (a_last a))
  | LRelease i => on_idle WIdle i s (fun a => with_op a RelStart)
  | LReader => if 0 <? h_flight (s_heap s) then Some (Stm (set_flight (s_heap s) (h_flight (s_heap s) - 1)) (s_agents s ++ [Agent RwIdle RIdle None])) else None
  | LRead i => on_idle RIdle i s (fun a => Agent RwRSpin CopyLock (a_last a))
  | LDelete i => on_idle RIdle i s (fun a => Agent RwRSpin DelLock (a_last a))
  | LStep i => a ← s_agents s !! i; '(a', h) ← access a (s_heap s); Some (Stm h (<[i := a']> (s_agents s)))
  end.

Fixpoint stm_run (xs : list label) (s : stm) : option stm :=
  match xs with [] => Some s | x :: xs => s ← stm_do x s; stm_run xs s end.

Lemma on_idle_inv o i s f s' : on_idle o i s f = Some s' -> o = WIdle \/ o = RIdle -> exists a, s_agents s !! i = Some a /\ a_op a = o /\ s' = Stm (s_heap s) (<[i := f a]> (s_agents s)).
Proof. intros H Ho. apply bind_Some in H as (a & Ha & H). exists a. split; [done|]. destruct Ho as [->| ->]; destruct (a_op a); try done; by injection H as <-. Qed.

Lemma stm_do_step x s s' : stm_do x s = Some s' -> stm_step s s'.
Proof.
  destruct s as [h l]. intros H. destruct x; cbn [stm_do s_heap s_agents] in H.
  - do 2 case_bool_decide; try done. apply bind_Some in H as (s1 & H & [= <-]). apply on_idle_inv in H as (a & Ha & Hop & ->); [|by left]. by apply step_update.
  - apply on_idle_inv in H as (a & Ha & Hop & ->); [|by left]. by apply step_grab.
  - apply on_idle_inv in H as (a & Ha & Hop & ->); [|by left]. by apply step_release.
  - destruct (Z.ltb_spec 0 (h_flight h)); [|done]. injection H as <-. by apply step_newreader.
  - apply on_idle_inv in H as (a & Ha & Hop & ->); [|by right]. by apply step_read.
  - apply on_idle_inv in H as (a & Ha & Hop & ->); [|by right]. by apply step_delete.
  - apply bind_Some in H as (a & Ha & H). apply bind_Some in H as ([a' h'] & Hacc & [= <-]). by eapply step_access.
Qed.

Lemma stm_run_steps xs : forall s s', stm_run xs s = Some s' -> rtc stm_step s s'.
Proof. induction xs as [|x xs IH]; intros s s' H; cbn in H; [by injection H as ->|]. apply bind_Some in H as (s1 & H1 & H2). eapply rtc_l; [by eapply stm_do_step|by apply IH]. Qed.

(** ** Theorems *)

(** C17: a message that one service updates and others read, in every interleaving of their
    accesses (those inside the read-write lock included): no assertion fails and nothing
    that is freed is used, except that the reader which closes last may free the object
    while another that closes is about to unlock it.  The counter of the object is the
    number of boxes and grabbed pointers that are not closed, the counter of a copy the
    number of its users; a copy and its message live exactly as long as that is not zero, so
    a reader's last message stays readable until its next read.  When all boxes are closed,
    everything is freed. *)
Theorem stm_counted copy msg sz s : rtc stm_step (lnewwriter copy msg sz) s -> let h := s_heap s in let l := s_agents s in
  (forall i a, l !! i = Some a -> running (a_op a) = true -> is_Some (access a h) \/ (a_op a = DelUnlock /\ h_obj h = None)) /\
  match h_obj h with Some o => 0 < o_reference o /\ o_reference o = h_flight h + zsum holds l | None => h_flight h = 0 /\ zsum holds l = 0 end /\
  (forall c cp, h_copies h !! c = Some cp -> cp_reference cp = zsum (refs c) l + current h l c /\ cp_msg cp ∈ h_blocks h) /\
  (forall c, 0 < zsum (refs c) l + current h l c -> is_Some (h_copies h !! c)) /\
  (forall i c, last_of i s = Some c -> exists cp, h_copies h !! c = Some cp /\ cp_msg cp ∈ h_blocks h) /\
  (Forall gone l -> h_flight h = 0 -> h = Heap None ∅ ∅ 0).
Proof.
  intros Hs h l. pose proof (stm_inv_reachable _ _ _ _ Hs) as Hinv. pose proof (last_reachable _ _ _ _ Hs) as Hlast. destruct s as [h0 l0]. subst h l. cbn [s_heap s_agents] in *. rename h0 into h, l0 into l.
  split; [intros i a; by apply access_safe|]. split.
  { destruct Hinv as ((Hobj & _) & _). cbn in Hobj. destruct (h_obj h); [destruct Hobj as (_ & ? & ? & _); done|]. destruct Hobj as [Hf Hd]. split; [done|]. apply sum_zero. eapply Forall_impl; [exact Hd|]. by intros a [Hz _]. }
  split. { intros c cp E. pose proof Hinv as (_ & Hc & Hb & _). specialize (Hc c). cbn [s_heap s_agents] in *. cbv zeta in Hc. rewrite E in Hc. split; [by destruct Hc|]. apply Hb. by exists c, cp. }
  split. { intros c Hpos. destruct (copy_live h l c Hinv ltac:(left; lia)) as (cp & E & _). by exists cp. }
  split; [|by apply all_gone]. intros i c Hl. apply bind_Some in Hl as (a & Hi & Ha). eapply refs_live; [done..|]. unfold refs. rewrite Ha, is_copy_eq.
  pose proof (refs_nonneg c (Agent (a_lock a) (a_op a) None)) as Hr. unfold refs in Hr. cbn in Hr. change (is_copy None c) with 0 in Hr. lia.
Qed.

(** Two readers: the second one closes after the writer. *)
Definition race_run : list label :=
  LGrab 0 :: replicate 5 (LStep 0) ++ [LReader; LGrab 0] ++ replicate 5 (LStep 0) ++ [LReader; LRelease 0] ++ replicate 8 (LStep 0) ++
  LDelete 1 :: replicate 4 (LStep 1) ++ LDelete 2 :: replicate 4 (LStep 2).

Lemma stm_counted_witness : exists s, stm_run race_run (lnewwriter 1 10 5) = Some s /\
  ((forall i a, s_agents s !! i = Some a -> running (a_op a) = true -> is_Some (access a (s_heap s)) \/ (a_op a = DelUnlock /\ h_obj (s_heap s) = None))).
Proof.
  destruct (stm_run race_run (lnewwriter 1 10 5)) as [s|] eqn:E; [|exfalso; vm_compute in E; discriminate E]. exists s. split; [reflexivity|].
  apply (stm_counted 1 10 5 s). exact (stm_run_steps _ _ _ E).
Defined.

(** The exception happens: the unlock of the first reader uses the object that the second
    has freed. *)
Lemma stm_runlock_freed : exists s a, rtc stm_step (lnewwriter 1 10 5) s /\ s_agents s !! 1%nat = Some a /\ a_op a = DelUnlock /\ access a (s_heap s) = None.
Proof.
  destruct (stm_run race_run (lnewwriter 1 10 5)) as [s|] eqn:E; [|exfalso; vm_compute in E; discriminate E]. exists s, (Agent RwReading DelUnlock None).
  split; [exact (stm_run_steps _ _ _ E)|]. vm_compute in E. injection E as <-. done.
Qed.

(** Comparing the address of the copy with that of the last one is enough to see an
    update.  Once the object has moved on from the copy that a reader holds, it does not
    have a copy of that address again as long as the reader holds it, although [malloc] may
    use addresses again. *)
Theorem stm_read_fresh copy msg sz s s' i c : rtc stm_step (lnewwriter copy msg sz) s -> last_of i s = Some c -> obj_copy (s_heap s) <> Some c ->
  rtc (fun x y => stm_step x y /\ last_of i y = Some c) s s' -> obj_copy (s_heap s') <> Some c.
Proof.
  intros Hs Hl Ho Hrun. destruct (reachable_invs _ _ _ _ Hs) as [Hi Hp]. clear Hs. induction Hrun as [|x y z [Hxy Hy] _ IH]; [done|].
  pose proof (stm_inv_step _ _ Hi Hxy). pose proof (no_return x y i c Hi Hp Hl Ho Hxy). pose proof (private_step x y Hi ltac:(done) Hp Hxy). by apply IH.
Qed.

(** A reader has read the copy at 1, then the object gets the one at 2. *)
Lemma stm_read_fresh_witness : exists s, rtc stm_step (lnewwriter 1 10 5) s /\ last_of 1 s = Some 1 /\ obj_copy (s_heap s) <> Some 1.
Proof.
  destruct (stm_run (LGrab 0 :: replicate 5 (LStep 0) ++ [LReader; LRead 1] ++ replicate 8 (LStep 1) ++ LUpdate 0 2 11 5 :: replicate 3 (LStep 0)) (lnewwriter 1 10 5)) as [s|] eqn:E; [|exfalso; vm_compute in E; discriminate E].
  exists s. pose proof (stm_run_steps _ _ _ E) as Hs. assert (last_of 1 s = Some 1 /\ obj_copy (s_heap s) = Some 2) as [Hl Ho] by (vm_compute in E; injection E as <-; split; reflexivity).
  split; [exact Hs|]. split; [exact Hl|]. apply (stm_read_fresh 1 10 5 s s 1 1 Hs Hl); [rewrite Ho; intros [=]|apply rtc_refl].
Defined.
