(* ===== verification/Sharedata.v ===== *)
(** lib/sharedata/lua-sharedata.c: a Lua table as a C structure that all services read.

    A slot of a hash whose value type is still nil is [None]: nothing else of it is set.
    The strings are those of the private Lua state, in the order of their indices on its
    stack (the first has index 2).  Every nested table is allocated once and has one
    parent, so a pointer to a table is the table. *)
From Stdlib Require Import String.
From S2P Require Import Prelude Bytes Lua.
#[local] Set Warnings "-register-all".

Definition KEYTYPE_INTEGER : Z := 0.
Definition KEYTYPE_STRING : Z := 1.

Record node (V : Type) := Node { n_v : V; n_key : Z; n_next : Z; n_keyhash : Z; n_keytype : Z; n_nocolliding : Z }.
Arguments Node {V} _ _ _ _ _ _.
Arguments n_v {V} _.
Arguments n_key {V} _.
Arguments n_next {V} _.
Arguments n_keyhash {V} _.
Arguments n_keytype {V} _.
Arguments n_nocolliding {V} _.

(** A value with its type, and a table: [array] with [arraytype], and [hash]. *)
Inductive cvalue :=
| CNil
| CReal (n : Z)
| CString (string : Z)
| CBool (boolean : bool)
| CTable (array : list cvalue) (hash : list (option (node cvalue)))
| CInt (d : Z).

Record table := Table { tb_array : list cvalue; tb_hash : list (option (node cvalue)) }.

Definition sizearray (t : table) : Z := zlen (tb_array t).
Definition sizehash (t : table) : Z := zlen (tb_hash t).

Definition with_array (t : table) (a : list cvalue) : table := Table a (tb_hash t).
Definition with_hash (t : table) (h : list (option (node cvalue))) : table := Table (tb_array t) h.

(** [countsize]: the keys that do not go into the array. *)
Fixpoint countsize (l : list (value * value)) (sizearray : Z) (n : Z) : res Z :=
  match l with
  | [] => Ok n
  | (k, _) :: l =>
      match k with
      | VInt nkey => countsize l sizearray (if (0 <? nkey) && (nkey <=? sizearray) then n else n + 1)
      | VReal _ => Err "Invalid key %f"
      | VStr _ | VTable _ _ | VPairs _ => countsize l sizearray (n + 1)
      | _ => Err "Invalid key type %s"
      end
  end.

(** The loop of [calchash] down from the character [l1]. *)
Fixpoint calchash_loop (fuel : nat) (str : list Z) (step : Z) (l1 : Z) (h : Z) : res Z :=
  match fuel with
  | O => Ub
  | S fuel =>
      if step <=? l1 then
        c ← lift str.[l1 - 1];
        calchash_loop fuel str step (l1 - step) (Z.lxor h (u32 (u32 (Z.shiftl h 5) + Z.shiftr h 2 + c)))
      else Ok h
  end.

Definition calchash (str : list Z) : res Z :=
  let l := zlen str in
  calchash_loop (S (length str)) str (Z.shiftr l 5 + 1) l (u32 l).

Fixpoint string_find (strs : list (list Z)) (s : list Z) (i : Z) : option Z :=
  match strs with
  | [] => None
  | s' :: strs => if bool_decide (s = s') then Some i else string_find strs s (i + 1)
  end.

(** [stringindex]: an index, and the strings with a new one at the end. *)
Definition stringindex (strs : list (list Z)) (s : list Z) : Z * list (list Z) :=
  match string_find strs s 2 with
  | Some i => (i, strs)
  | None => (zlen strs + 2, strs ++ [s])
  end.

(** [setvalue], with the conversion of a nested table: it is called through [lua_call]. *)
Definition setvalue (convtable : Z -> list (value * value) -> list (list Z) -> res (table * list (list Z)))
  (strs : list (list Z)) (v : value) : res (cvalue * list (list Z)) :=
  match v with
  | VNil => Ok (CNil, strs)
  | VInt z => Ok (CInt z, strs)
  | VReal bits => Ok (CReal bits, strs)
  | VStr s => let '(i, strs) := stringindex strs s in Ok (CString i, strs)
  | VBool b => Ok (CBool b, strs)
  | VTable len l => '(t, strs) ← convtable len l strs; Ok (CTable (tb_array t) (tb_hash t), strs)
  | VPairs _ => Ub
  | _ => Err "Unsupport value type %s"
  end.

(** A key as [ishashkey] gives it: the place in the array, or the number, hash and type. *)
Definition ishashkey (strs : list (list Z)) (sizearray : Z) (k : value) : res ((Z + Z * Z * Z) * list (list Z)) :=
  match k with
  | VInt _ | VReal _ =>
      let key := s32 (tointeger k) in
      if (0 <? key) && (key <=? sizearray) then Ok (inl key, strs)
      else Ok (inr (key, u32 key, KEYTYPE_INTEGER), strs)
  | _ =>
      let s := match k with VStr s => s | _ => [] end in
      keyhash ← calchash s;
      let '(key, strs) := stringindex strs s in
      Ok (inr (key, keyhash, KEYTYPE_STRING), strs)
  end.

Section conv.
Variable (convert : list (list Z) -> value -> res (cvalue * list (list Z))).

Definition setarray (t : table) (strs : list (list Z)) (v : value) (key : Z) : res (table * list (list Z)) :=
  '(c, strs) ← convert strs v;
  a ← lift (tb_array t).[key - 1 := c];
  Ok (with_array t a, strs).

(** [fillnocolliding]: the array, and every key whose slot is free. *)
Fixpoint fillnocolliding (l : list (value * value)) (t : table) (strs : list (list Z)) : res (table * list (list Z)) :=
  match l with
  | [] => Ok (t, strs)
  | (k, v) :: l =>
      '(r, strs) ← ishashkey strs (sizearray t) k;
      '(t, strs) ←
        match r with
        | inl key => setarray t strs v key
        | inr (key, keyhash, keytype) =>
            let pos := keyhash mod sizehash t in
            slot ← lift (tb_hash t).[pos];
            match slot with
            | Some _ => Ok (t, strs)
            | None =>
                '(c, strs) ← convert strs v;
                h ← lift (tb_hash t).[pos := Some (Node c key (-1) keyhash keytype 1)];
                Ok (with_hash t h, strs)
            end
        end;
      fillnocolliding l t strs
  end.

(** The first slot that is free, from [i] on. *)
Fixpoint find_empty (hash : list (option (node cvalue))) (i : Z) : option Z :=
  match hash with
  | [] => None
  | None :: _ => Some i
  | Some _ :: hash => find_empty hash (i + 1)
  end.

(** [fillcolliding]: the other keys, behind the node in their slot. *)
Fixpoint fillcolliding (l : list (value * value)) (t : table) (strs : list (list Z)) : res (table * list (list Z)) :=
  match l with
  | [] => Ok (t, strs)
  | (k, v) :: l =>
      '(r, strs) ← ishashkey strs (sizearray t) k;
      '(t, strs) ←
        match r with
        | inl _ => Ok (t, strs)
        | inr (key, keyhash, keytype) =>
            let pos := keyhash mod sizehash t in
            slot ← lift (tb_hash t).[pos];
            mainpos ← lift slot;
            if (n_keytype mainpos =? keytype) && (n_key mainpos =? key) then Ok (t, strs)
            else
              n ← lift (find_empty (tb_hash t) 0);
              h ← lift (tb_hash t).[pos := Some (Node (n_v mainpos) (n_key mainpos) n (n_keyhash mainpos) (n_keytype mainpos) 0)];
              '(c, strs) ← convert strs v;
              h ← lift h.[n := Some (Node c key (n_next mainpos) keyhash keytype 0)];
              Ok (with_hash t h, strs)
        end;
      fillcolliding l t strs
  end.

(** The loop of [convtable] without a hash. *)
Fixpoint fillarray (n : nat) (i : Z) (l : list (value * value)) (t : table) (strs : list (list Z)) : res (table * list (list Z)) :=
  match n with
  | O => Ok (t, strs)
  | S n =>
      '(t, strs) ← setarray t strs (lua_rawgeti l i) i;
      fillarray n (i + 1) l t strs
  end.
End conv.

(** [convtable].  [ccalls] is how many nested calls of C functions Lua still allows
    (LUAI_MAXCCALLS). *)
Fixpoint convtable (ccalls : nat) (len : Z) (l : list (value * value)) (strs : list (list Z)) : res (table * list (list Z)) :=
  match ccalls with
  | O => Err "C stack overflow"
  | S ccalls =>
      let convert := setvalue (convtable ccalls) in
      n ← countsize l len 0;
      let t := Table (replicate (Z.to_nat len) CNil) (replicate (Z.to_nat n) None) in
      if negb (n =? 0) then
        '(t, strs) ← fillnocolliding convert l t strs;
        fillcolliding convert l t strs
      else fillarray convert (Z.to_nat len) 1 l t strs
  end.

(** [lua_checkstack] of the Lua library, where memory does not run out: may [n] values be
    pushed on a stack of which [top] slots are in use? *)
Definition LUAI_MAXSTACK : Z := 1000000.
Definition EXTRA_STACK : Z := 5.
Definition lua_checkstack (top n : Z) : bool := top + EXTRA_STACK <=? LUAI_MAXSTACK - n.

(** [pconv]: the table and its strings.  The private state has to have room for the strings
    on its stack, of which two functions and the map of the strings take three slots;
    [ctx->string_index] is one more than the number of strings. *)
Definition pconv (ccalls : nat) (len : Z) (l : list (value * value)) : res (table * list (list Z)) :=
  '(t, strs) ← convtable ccalls len l [];
  if lua_checkstack 3 (zlen strs + 1 + 3) then Ok (t, strs) else Err "stack overflow".

(** [lnewconf]; the strings stay where [convert_stringmap] puts them, at their indices. *)
Definition lnewconf (ccalls : nat) (len : Z) (l : list (value * value)) : res (table * list (list Z)) :=
  pconv ccalls len l.

(** ** Reading *)

(** What is pushed: a value, or the pointer to a table. *)
Inductive pushed := PValue (v : value) | PTable (t : table).

Definition get_string (strs : list (list Z)) (i : Z) : res (list Z) := lift strs.[i - 2].

Definition pushvalue (strs : list (list Z)) (c : cvalue) : res pushed :=
  match c with
  | CReal n => Ok (PValue (VReal n))
  | CInt d => Ok (PValue (VInt d))
  | CString i => s ← get_string strs i; Ok (PValue (VStr s))
  | CBool b => Ok (PValue (VBool b))
  | CTable a h => Ok (PTable (Table a h))
  | CNil => Ok (PValue VNil)
  end.

(** The loop of [lookup_key] from the slot [i]: the slot of the key. *)
Fixpoint lookup_chain (fuel : nat) (hash : list (option (node cvalue))) (strs : list (list Z)) (keyhash key keytype : Z) (str : list Z) (i : Z) : res (option Z) :=
  match fuel with
  | O => Ub
  | S fuel =>
      slot ← lift hash.[i];
      n ← lift slot;
      found ←
        (if keyhash =? n_keyhash n then
           if n_keytype n =? KEYTYPE_INTEGER then Ok ((keytype =? KEYTYPE_INTEGER) && (n_key n =? key))
           else if keytype =? KEYTYPE_STRING then str2 ← get_string strs (n_key n); Ok (bool_decide (str = str2))
           else Ok false
         else Ok false);
      if (found : bool) then Ok (Some i)
      else if n_next n <? 0 then Ok None
      else lookup_chain fuel hash strs keyhash key keytype str (n_next n)
  end.

Definition lookup_key (t : table) (strs : list (list Z)) (keyhash key keytype : Z) (str : list Z) : res (option Z) :=
  if sizehash t =? 0 then Ok None
  else
    let i := keyhash mod sizehash t in
    slot ← lift (tb_hash t).[i];
    n ← lift slot;
    if negb (keyhash =? n_keyhash n) && negb (n_nocolliding n =? 0) then Ok None
    else lookup_chain (length (tb_hash t)) (tb_hash t) strs keyhash key keytype str i.

(** The node at a slot. *)
Definition get_node (t : table) (i : Z) : res (node cvalue) := slot ← lift (tb_hash t).[i]; lift slot.

Definition lindexconf (t : table) (strs : list (list Z)) (k : value) : res (option pushed) :=
  r ←
    match k with
    | VInt z =>
        let key := s32 z in
        if (0 <? key) && (key <=? sizearray t) then Ok (inl (key - 1)) else Ok (inr (u32 key, key, KEYTYPE_INTEGER, []))
    | VReal _ => Err "Invalid key %f"
    | VStr s => h ← calchash s; Ok (inr (h, 0, KEYTYPE_STRING, s))
    | _ => Err "bad argument #2 (string expected)"
    end;
  match r with
  | inl i => c ← lift (tb_array t).[i]; p ← pushvalue strs c; Ok (Some p)
  | inr (keyhash, key, keytype, str) =>
      n ← lookup_key t strs keyhash key keytype str;
      match n with
      | Some i => n ← get_node t i; p ← pushvalue strs (n_v n); Ok (Some p)
      | None => Ok None
      end
  end.

Definition pushkey (strs : list (list Z)) (n : node cvalue) : res value :=
  if n_keytype n =? KEYTYPE_INTEGER then Ok (VInt (n_key n)) else s ← get_string strs (n_key n); Ok (VStr s).

Definition pushfirsthash (t : table) (strs : list (list Z)) : res (option value) :=
  if sizehash t =? 0 then Ok None else n ← get_node t 0; k ← pushkey strs n; Ok (Some k).

(** The first value of the array that is not nil, as a key. *)
Fixpoint next_array (a : list cvalue) (i : Z) : option Z :=
  match a with
  | [] => None
  | CNil :: a => next_array a (i + 1)
  | _ :: _ => Some (i + 1)
  end.

Definition lnextkey (t : table) (strs : list (list Z)) (k : value) : res (option value) :=
  let first := fun i =>
    match next_array (drop (Z.to_nat i) (tb_array t)) i with Some key => Ok (Some (VInt key)) | None => pushfirsthash t strs end in
  let behind := fun keyhash key keytype str =>
    n ← lookup_key t strs keyhash key keytype str;
    match n with
    | Some i => if i + 1 =? sizehash t then Ok None else n ← get_node t (i + 1); k ← pushkey strs n; Ok (Some k)
    | None => Ok None
    end in
  match k with
  | VNil => first 0
  | VInt z =>
      let key := s32 z in
      if (0 <? key) && (key <=? sizearray t) then first key else behind (u32 key) key KEYTYPE_INTEGER []
  | VReal _ => Ok None
  | VStr s => h ← calchash s; behind h 0 KEYTYPE_STRING s
  | _ => Err "bad argument #2 (string expected)"
  end.

Definition llen (t : table) : Z := sizearray t.
Definition lhashlen (t : table) : Z := sizehash t.

(** ** The state shared with the services, and the box of a service *)

Record state := State { st_dirty : Z; st_ref : Z }.

(** [convert_stringmap] makes it. *)
Definition new_state : state := State 0 0.

Definition lmarkdirty (s : state) : state := State 1 (st_ref s).
Definition lisdirty (s : state) : bool := negb (st_dirty s =? 0).
Definition lgetref (s : state) : Z := st_ref s.
Definition lincref (s : state) : Z * state := let ref := s32 (st_ref s + 1) in (ref, State (st_dirty s) ref).
Definition ldecref (s : state) : Z * state := let ref := s32 (st_ref s - 1) in (ref, State (st_dirty s) ref).

Record ctrl := Ctrl { c_root : option Z; c_update : option Z }.

Definition lboxconf (tbl : Z) (s : state) : ctrl * state := (Ctrl (Some tbl) None, (lincref s).2).
Definition releaseobj (c : ctrl) (s : state) : ctrl * state := (Ctrl None None, (ldecref s).2).
Definition lneedupdate (c : ctrl) : option Z := c_update c.
Definition lupdate (c : ctrl) (n : Z) : res ctrl :=
  if bool_decide (c_root c = Some n) then Err "You should update a new object" else Ok (Ctrl (c_root c) (Some n)).
