(* ===== verification/SharedataConv.v ===== *)
(** The conversion of a table in lib/sharedata/lua-sharedata.c: every entry gets a place,
    and the hash is chained so that it is found there. *)
From Stdlib Require Import String.
From S2P Require Import Prelude Bytes Links Lua Lock Sharedata.
#[local] Set Warnings "-register-all".

(** ** Hashes of strings *)

Lemma calchash_loop_ok str step : 1 <= step -> is_bytes str -> forall fuel l1 h, 0 <= l1 <= zlen str -> is_u32 h -> l1 < Z.of_nat fuel ->
  exists h', calchash_loop fuel str step l1 h = Ok h' /\ is_u32 h'.
Proof.
  intros Hstep Hb. induction fuel as [|fuel IH]; intros l1 h Hl Hh Hf; cbn [calchash_loop].
  - lia.
  - destruct (Z.leb_spec step l1); [|by exists h]. destruct (aget_is_Some str (l1 - 1)) as [c ->]; [lia|]. cbn [lift mbind res_bind]. apply IH; [lia| |lia].
    set (x := u32 (u32 (Z.shiftl h 5) + Z.shiftr h 2 + c)). pose proof (u32_bound (u32 (Z.shiftl h 5) + Z.shiftr h 2 + c)) as Hx. fold x in Hx.
    apply is_u32_bits. apply is_u32_bits in Hh as [Hh0 Hh], Hx as [Hx0 Hx]. split; [by apply Z.lxor_nonneg|]. intros i Hi. rewrite Z.lxor_spec, Hh, Hx by done. done.
Qed.

Lemma calchash_ok str : is_bytes str -> exists h, calchash str = Ok h /\ is_u32 h.
Proof.
  intros Hb. apply calchash_loop_ok; [|done|unfold zlen; lia|apply u32_bound|unfold zlen; lia]. rewrite Z.shiftr_div_pow2 by lia.
  pose proof (Z.div_pos (zlen str) (2 ^ 5) (zlen_nonneg str) ltac:(lia)). lia.
Qed.

(** ** Keys *)

(** The keys that keep their value: strings, and integers of 32 bits. *)
Definition key_fits (k : value) : Prop := match k with VInt z => is_s32 z | VStr s => is_bytes s | _ => False end.

Definition hash_of (k : value) : Z :=
  match k with VInt z => u32 z | VStr s => match calchash s with Ok h => h | _ => 0 end | _ => 0 end.

Definition in_array (len : Z) (k : value) : bool := match k with VInt z => (0 <? z) && (z <=? len) | _ => false end.

Lemma hash_of_bound k : key_fits k -> is_u32 (hash_of k).
Proof. destruct k as [| |z| | |s| | | |]; try done; cbn [key_fits hash_of]; intros H; [apply u32_bound|]. by destruct (calchash_ok s H) as (h & -> & Hh). Qed.

(** The node has the key [k]. *)
Definition node_is (strs : list (list Z)) (n : node cvalue) (k : value) : Prop :=
  n_keyhash n = hash_of k /\
  match k with
  | VInt z => n_keytype n = KEYTYPE_INTEGER /\ n_key n = z
  | VStr s => n_keytype n = KEYTYPE_STRING /\ strs.[n_key n - 2] = Some s
  | _ => False
  end.

Lemma node_is_inj strs n k k' : node_is strs n k -> node_is strs n k' -> k = k'.
Proof. intros [_ H] [_ H']. destruct k, k'; try done; destruct H as [E H], H' as [E' H']; unfold KEYTYPE_INTEGER, KEYTYPE_STRING in *; congruence || (exfalso; congruence). Qed.

Lemma string_find_spec strs s : forall i, match string_find strs s i with Some j => exists p : nat, j = i + Z.of_nat p /\ strs !! p = Some s | None => s ∉ strs end.
Proof.
  induction strs as [|s' strs IH]; intros i; cbn [string_find]; [apply not_elem_of_nil|]. case_bool_decide as E.
  - subst s'. exists 0%nat. split; [lia|done].
  - specialize (IH (i + 1)). destruct (string_find strs s (i + 1)) as [j|].
    + destruct IH as (p & -> & Hp). exists (S p). split; [lia|done].
    + rewrite not_elem_of_cons. by split.
Qed.

Lemma stringindex_spec strs s i strs' : NoDup strs -> stringindex strs s = (i, strs') -> strs `prefix_of` strs' /\ NoDup strs' /\ 2 <= i /\ strs'.[i - 2] = Some s.
Proof.
  intros Hnd H. unfold stringindex in H. pose proof (string_find_spec strs s 2) as Hf. destruct (string_find strs s 2) as [j|]; injection H as <- <-.
  - destruct Hf as (p & -> & Hp). split; [done|]. split; [done|]. split; [lia|]. replace (2 + Z.of_nat p - 2) with (Z.of_nat p) by lia. by rewrite aget_nat.
  - split; [by exists [s]|]. split; [|split; [pose proof (zlen_nonneg strs); lia|]].
    + apply NoDup_app. split; [done|]. split; [intros x Hx ->%list_elem_of_singleton; done|apply NoDup_singleton].
    + replace (zlen strs + 2 - 2) with (zlen strs) by lia. by apply aget_app_eq.
Qed.

Lemma aget_inj (strs : list (list Z)) i j s : NoDup strs -> strs.[i] = Some s -> strs.[j] = Some s -> i = j.
Proof.
  intros Hnd Hi Hj. unfold aget in *. do 2 case_decide; try done. pose proof (NoDup_lookup strs _ _ s Hnd Hi Hj). lia.
Qed.

Lemma aget_prefix {A} (l l' : list A) i x : l `prefix_of` l' -> l.[i] = Some x -> l'.[i] = Some x.
Proof. intros [k ->] H. pose proof (aget_lt_Some _ _ _ H). by rewrite aget_app_l by lia. Qed.

Lemma node_is_prefix strs strs' n k : strs `prefix_of` strs' -> node_is strs n k -> node_is strs' n k.
Proof. intros Hp [Hh H]. split; [done|]. destruct k; try done. destruct H as [H1 H2]. split; [done|by eapply aget_prefix]. Qed.

(** What [ishashkey] gives for a key of the hash. *)
Lemma ishashkey_spec strs len k : NoDup strs -> key_fits k -> 0 <= len < 2 ^ 31 ->
  if in_array len k then exists z, k = VInt z /\ 0 < z <= len /\ ishashkey strs len k = Ok (inl z, strs)
  else exists key keytype strs', ishashkey strs len k = Ok (inr (key, hash_of k, keytype), strs') /\ strs `prefix_of` strs' /\ NoDup strs' /\
    (forall n, n_keytype n = keytype -> n_key n = key -> n_keyhash n = hash_of k -> node_is strs' n k) /\
    (forall n k', node_is strs' n k' -> (n_keytype n =? keytype) && (n_key n =? key) = true <-> k' = k).
Proof.
  intros Hnd Hk Hlen. destruct k as [| |z| | |s| | | |]; try done; cbn [in_array key_fits] in *.
  - unfold ishashkey. cbn [tointeger]. rewrite s32_small by done. destruct ((0 <? z) && (z <=? len)) eqn:E; [exists z; split; [done|]; split; [lia|done]|].
    exists z, KEYTYPE_INTEGER, strs. split; [done|]. split; [done|]. split; [done|]. split; [intros n H1 H2 H3; by repeat split|]. intros n k' [_ Hn]. unfold KEYTYPE_INTEGER, KEYTYPE_STRING in *.
    rewrite andb_true_iff, !Z.eqb_eq. destruct k' as [| |z'| | |s'| | | |]; try done; destruct Hn as [-> Hn]; split.
    + intros [_ E']. congruence.
    + by intros [= ->].
    + by intros [? _].
    + done.
  - unfold ishashkey, hash_of. destruct (calchash_ok s Hk) as (h & Hh & _). rewrite Hh. cbn [mbind res_bind]. destruct (stringindex strs s) as [i strs'] eqn:Ei.
    destruct (stringindex_spec strs s i strs' Hnd Ei) as (Hp & Hnd' & Hi & Hs). exists i, KEYTYPE_STRING, strs'. split; [done|]. split; [done|]. split; [done|]. split.
    + intros n H1 H2 H3. split; [unfold hash_of; by rewrite Hh|]. split; [done|]. by rewrite H2.
    + intros n k' [_ Hn]. unfold KEYTYPE_INTEGER, KEYTYPE_STRING in *. rewrite andb_true_iff, !Z.eqb_eq. destruct k' as [| |z'| | |s'| | | |]; try done; destruct Hn as [-> Hn]; split.
      * by intros [? _].
      * done.
      * intros [_ E]. rewrite E in Hn. congruence.
      * intros [= ->]. split; [done|]. pose proof (aget_inj strs' _ _ s Hnd' Hn Hs). lia.
Qed.

(** ** The hash *)

Definition hnext (s : option (node cvalue)) : option Z :=
  match s with Some n => if n_next n <? 0 then None else Some (n_next n) | None => None end.

Definition filled (s : option (node cvalue)) : bool := bool_decide (is_Some s).

Section hash.
Context (R : list (list Z) -> value -> cvalue -> Prop).
Hypothesis R_prefix : forall strs strs' v c, strs `prefix_of` strs' -> R strs v c -> R strs' v c.
#[local] Set Default Proof Using "Type*".

(** The hash holds the entries [ks]: each node is in the chain of its hash, which starts at
    its slot. *)
Record hash_inv (strs : list (list Z)) (hash : list (option (node cvalue))) (ks : list (value * value)) : Prop := {
  hi_nodes : forall i n, hash.[i] = Some (Some n) -> exists k w, (k, w) ∈ ks /\ node_is strs n k /\ R strs w (n_v n);
  hi_chain : forall i n, hash.[i] = Some (Some n) -> exists ch, linked hnext hash (Some (n_keyhash n mod zlen hash)) ch /\ NoDup ch /\ i ∈ ch /\
    forall j, j ∈ ch -> exists nj, hash.[j] = Some (Some nj) /\ n_keyhash nj mod zlen hash = n_keyhash n mod zlen hash;
  hi_keys : forall k w, (k, w) ∈ ks -> exists i n, hash.[i] = Some (Some n) /\ node_is strs n k /\ R strs w (n_v n);
  hi_unique : forall i j ni nj k, hash.[i] = Some (Some ni) -> hash.[j] = Some (Some nj) -> node_is strs ni k -> node_is strs nj k -> i = j;
  hi_noc : forall i n, hash.[i] = Some (Some n) -> n_nocolliding n <> 0 -> n_next n < 0;
  hi_count : countb filled hash = zlen ks;
}.

Lemma hash_inv_prefix strs strs' hash ks : strs `prefix_of` strs' -> NoDup strs' -> hash_inv strs hash ks -> hash_inv strs' hash ks.
Proof.
  intros Hp Hnd [Hn Hc Hk Hu Ho Hcnt]. assert (forall n k w, (k, w) ∈ ks -> node_is strs n k -> node_is strs' n k) as Hm by (intros; by eapply node_is_prefix). constructor; try done.
  - intros i n Hi. destruct (Hn i n Hi) as (k & w & Hin & Hnk & Hr). exists k, w. split; [done|]. split; [by eapply node_is_prefix|by eapply R_prefix].
  - intros k w Hin. destruct (Hk k w Hin) as (i & n & Hi & Hnk & Hr). exists i, n. split; [done|]. split; [by eapply node_is_prefix|by eapply R_prefix].
  - intros i j ni nj k Hi Hj Hki Hkj. destruct (Hn i ni Hi) as (k1 & w1 & _ & Hk1 & _), (Hn j nj Hj) as (k2 & w2 & _ & Hk2 & _).
    assert (k1 = k) as -> by (eapply (node_is_inj strs' ni); [by eapply node_is_prefix|done]). assert (k2 = k) as -> by (eapply (node_is_inj strs' nj); [by eapply node_is_prefix|done]). by eapply Hu.
Qed.

Lemma hash_inv_empty strs n : hash_inv strs (replicate n None) [].
Proof.
  clear R_prefix. assert (forall i (nd : node cvalue), (replicate n None).[i] = Some (Some nd) -> False) as H.
  { intros i nd E. pose proof (aget_lt_Some _ _ _ E) as Hi. rewrite zlen_replicate in Hi. by rewrite aget_replicate in E by lia. }
  constructor; intros; try (exfalso; by eapply H); [by apply not_elem_of_nil in H0|]. rewrite countb_replicate; done.
Qed.

Lemma countb_aset (hash hash' : list (option (node cvalue))) p s x : hash.[p] = Some s -> hash.[p := x] = Some hash' -> countb filled hash' = countb filled hash - Z.b2z (filled s) + Z.b2z (filled x).
Proof.
  clear. intros Hp [Hb ->]%aset_inv. apply countb_insert. unfold aget in Hp. rewrite decide_True in Hp by lia. done.
Qed.

(** A node is added at a free slot; the other nodes keep their keys, values and hashes. *)
Lemma hash_inv_add strs hash hash' ks e n k w : hash_inv strs hash ks -> zlen hash' = zlen hash -> hash.[e] = Some None -> (forall w, (k, w) ∉ ks) ->
  (forall j, hash'.[j] = Some (Some n) /\ j = e \/ j <> e /\ match hash.[j] with Some (Some m) => exists m', hash'.[j] = Some (Some m') /\ n_v m' = n_v m /\ n_key m' = n_key m /\ n_keyhash m' = n_keyhash m /\ n_keytype m' = n_keytype m /\ (n_nocolliding m' <> 0 -> n_next m' < 0) | x => hash'.[j] = x end) ->
  node_is strs n k -> R strs w (n_v n) -> (n_nocolliding n <> 0 -> n_next n < 0) -> countb filled hash' = countb filled hash + 1 ->
  (forall i m, hash'.[i] = Some (Some m) -> exists ch, linked hnext hash' (Some (n_keyhash m mod zlen hash)) ch /\ NoDup ch /\ i ∈ ch /\
    forall j, j ∈ ch -> exists nj, hash'.[j] = Some (Some nj) /\ n_keyhash nj mod zlen hash = n_keyhash m mod zlen hash) ->
  hash_inv strs hash' (ks ++ [(k, w)]).
Proof.
  intros [Hn Hc Hk Hu Ho Hcnt] Hz He Hnew Hget Hnk Hr Hnoc Hcnt' Hch.
  assert (forall i m, hash'.[i] = Some (Some m) -> (i = e /\ m = n) \/ (i <> e /\ exists m0, hash.[i] = Some (Some m0) /\ n_v m = n_v m0 /\ (forall k', node_is strs m k' <-> node_is strs m0 k') /\ (n_nocolliding m <> 0 -> n_next m < 0))) as Hinv.
  { intros i m Hi. destruct (Hget i) as [[E ->]|[Hne E]]; [left; split; congruence|right]. split; [done|]. destruct (hash.[i]) as [[m0|]|]; [|congruence..].
    destruct E as (m' & E & E1 & E2 & E3 & E4 & E5). assert (m' = m) as -> by congruence. exists m0. split; [done|]. split; [done|]. split; [|done]. intros k'. unfold node_is. by rewrite E2, E3, E4. }
  constructor.
  - intros i m Hi. destruct (Hinv i m Hi) as [[-> ->]|(Hne & m0 & Hi0 & Hv & Hks & _)]; [exists k, w; split; [apply elem_of_app; right; by apply list_elem_of_singleton|done]|].
    destruct (Hn i m0 Hi0) as (k0 & w0 & Hin & Hk0 & Hr0). exists k0, w0. split; [apply elem_of_app; by left|]. split; [by apply Hks|by rewrite Hv].
  - rewrite Hz. exact Hch.
  - intros k0 w0 [Hin|Hin]%elem_of_app.
    + destruct (Hk k0 w0 Hin) as (i & m0 & Hi & Hk0 & Hr0). destruct (Hget i) as [[_ ->]|[Hne E]]; [congruence|]. rewrite Hi in E. destruct E as (m' & E & E1 & E2 & E3 & E4 & _).
      exists i, m'. split; [done|]. split; [unfold node_is; rewrite E2, E3, E4; done|by rewrite E1].
    + apply list_elem_of_singleton in Hin. injection Hin as -> ->. exists e, n. split; [|done]. destruct (Hget e) as [[E _]|[? _]]; done.
  - intros i j ni nj k0 Hi Hj Hki Hkj. destruct (Hinv i ni Hi) as [[-> ->]|(Hnei & mi & Hi0 & _ & Hksi & _)], (Hinv j nj Hj) as [[-> ->]|(Hnej & mj & Hj0 & _ & Hksj & _)]; try done.
    + exfalso. pose proof (node_is_inj _ _ _ _ Hki Hnk). subst k0. apply Hksj in Hkj. destruct (Hn j mj Hj0) as (k1 & w1 & Hin & Hk1 & _). pose proof (node_is_inj _ _ _ _ Hk1 Hkj). subst k1. by eapply Hnew.
    + exfalso. pose proof (node_is_inj _ _ _ _ Hkj Hnk). subst k0. apply Hksi in Hki. destruct (Hn i mi Hi0) as (k1 & w1 & Hin & Hk1 & _). pose proof (node_is_inj _ _ _ _ Hk1 Hki). subst k1. by eapply Hnew.
    + eapply Hu; [done..|by apply Hksi|by apply Hksj].
  - intros i m Hi. destruct (Hinv i m Hi) as [[-> ->]|(_ & _ & _ & _ & _ & H)]; done.
  - rewrite zlen_snoc. lia.
Qed.

(** The key's slot is free. *)
Lemma hash_inv_main strs hash hash' ks k w c key keytype : hash_inv strs hash ks -> 0 < zlen hash -> (forall w, (k, w) ∉ ks) ->
  let p := hash_of k mod zlen hash in let n := Node c key (-1) (hash_of k) keytype 1 in
  hash.[p] = Some None -> hash.[p := Some n] = Some hash' -> node_is strs n k -> R strs w c -> hash_inv strs hash' (ks ++ [(k, w)]).
Proof.
  intros Hinv Hsz Hnew p n Hp Hset Hnk Hr. pose proof (zlen_aset _ _ _ _ Hset) as Hz. pose proof (fun j => aget_aset _ _ j _ _ Hset) as Hget.
  assert (hash'.[p] = Some (Some n)) as Hpn by (rewrite Hget; by rewrite decide_True).
  eapply (hash_inv_add strs hash hash' ks p n); try done.
  - intros j. rewrite Hget. destruct (decide (p = j)) as [->|Hne]; [by left|right; split; [congruence|]]. destruct (hash.[j]) as [[m|]|] eqn:E; [|done..]. exists m. do 5 (split; [done|]). by eapply (hi_noc _ _ _ Hinv).
  - rewrite (countb_aset hash hash' p None (Some n)) by done. cbn. lia.
  - intros i m Hi. rewrite Hget in Hi. destruct (decide (p = i)) as [<-|Hne].
    + injection Hi as <-. exists [p]. split; [|split; [apply NoDup_singleton|split; [by left|intros j ->%list_elem_of_singleton; by exists n]]]. cbn [linked n n_keyhash]. split; [done|]. exists (Some n). by split.
    + destruct (hi_chain _ _ _ Hinv i m Hi) as (ch & Hl & Hnd & Hin & Hall). assert (p ∉ ch) as Hnp by (intros Hx; destruct (Hall p Hx) as (nj & E & _); congruence).
      exists ch. split; [|split; [done|split; [done|]]].
      * eapply linked_frame; [exact Hl|]. intros x Hx. rewrite Hget. rewrite decide_False; [done|]. intros ->. done.
      * intros j Hj. destruct (Hall j Hj) as (nj & E & Eh). exists nj. split; [|done]. rewrite Hget. rewrite decide_False; [done|]. intros ->. done.
Qed.

(** The key's slot has a node of the same hash: the new one is chained behind it. *)
Lemma hash_inv_collide strs hash hash1 hash2 ks k w c key keytype m e : hash_inv strs hash ks -> (forall w, (k, w) ∉ ks) ->
  let p := hash_of k mod zlen hash in hash.[p] = Some (Some m) -> n_keyhash m mod zlen hash = p -> hash.[e] = Some None ->
  let m' := Node (n_v m) (n_key m) e (n_keyhash m) (n_keytype m) 0 in let n := Node c key (n_next m) (hash_of k) keytype 0 in
  hash.[p := Some m'] = Some hash1 -> hash1.[e := Some n] = Some hash2 -> node_is strs n k -> R strs w c -> hash_inv strs hash2 (ks ++ [(k, w)]).
Proof.
  intros Hinv Hnew p Hp Hph He m' n Hset1 Hset2 Hnk Hr. pose proof (zlen_aset _ _ _ _ Hset1) as Hz1. pose proof (zlen_aset _ _ _ _ Hset2) as Hz2.
  assert (p <> e) as Hpe by congruence. assert (0 <= e) as He0 by (apply aget_lt_Some in He; lia).
  assert (forall j, hash2.[j] = if decide (e = j) then Some (Some n) else if decide (p = j) then Some (Some m') else hash.[j]) as Hget.
  { intros j. rewrite (aget_aset _ _ j _ _ Hset2). case_decide; [done|]. by rewrite (aget_aset _ _ j _ _ Hset1). }
  assert (hash2.[e] = Some (Some n)) as Hen by (rewrite Hget; by rewrite decide_True).
  assert (hash2.[p] = Some (Some m')) as Hpm by (rewrite Hget, decide_False by congruence; by rewrite decide_True).
  (* the chain of [p] *)
  assert (exists rest, linked hnext hash2 (Some p) (p :: e :: rest) /\ NoDup (p :: e :: rest) /\ (forall i x, hash.[i] = Some (Some x) -> n_keyhash x mod zlen hash = p -> i ∈ p :: rest) /\
    forall j, j ∈ p :: e :: rest -> exists nj, hash2.[j] = Some (Some nj) /\ n_keyhash nj mod zlen hash = p) as (rest & Hrl & Hrnd & Hrin & Hrall).
  { destruct (hi_chain _ _ _ Hinv p m Hp) as (ch & Hl & Hnd & Hin & Hall). rewrite Hph in Hl. destruct ch as [|p0 rest]; [by apply not_elem_of_nil in Hin|]. cbn [linked] in Hl. destruct Hl as ([= <-] & x & Hx & Hl).
    rewrite Hp in Hx. injection Hx as <-. apply NoDup_cons in Hnd as [Hpr Hnd]. assert (e ∉ rest) as Her by (intros Hx; destruct (Hall e) as (nj & E & _); [by right|congruence]).
    assert (forall x, x ∈ rest -> hash2.[x] = hash.[x]) as Hfr by (intros x Hx; rewrite Hget, !decide_False by (intros <-; done); done).
    exists rest. split; [|split; [|split]].
    - cbn [linked]. split; [done|]. exists (Some m'). split; [done|]. cbn [hnext m' n_next]. destruct (Z.ltb_spec e 0); [lia|]. split; [done|]. exists (Some n). split; [done|]. eapply linked_frame; [exact Hl|done].
    - apply NoDup_cons. split; [rewrite not_elem_of_cons; by split|]. by apply NoDup_cons.
    - intros i x Hi Hix. destruct (hi_chain _ _ _ Hinv i x Hi) as (ch' & Hl' & _ & Hin' & _). rewrite Hix in Hl'.
      assert (ch' = p :: rest) as ->; [|done]. assert (linked hnext hash (Some p) (p :: rest)) as Hlp by (cbn [linked]; split; [done|by exists (Some m)]).
      clear -Hl' Hlp. revert Hl' Hlp. generalize (Some p) as q. generalize (p :: rest) as l2. induction ch' as [|y ch' IH]; intros [|z l2] q; cbn [linked]; [done|intros -> [? _]; done|intros [-> _] ?; done|].
      intros (-> & a & Ha & H1) ([= <-] & b & Hb & H2). assert (a = b) as <- by congruence. f_equal. by eapply IH.
    - intros j [->|[->|Hj]%elem_of_cons]%elem_of_cons; [by exists m'|by exists n|]. destruct (Hall j) as (nj & E & Eh); [by right|]. exists nj. rewrite Hfr by done. split; [done|congruence]. }
  eapply (hash_inv_add strs hash hash2 ks e n); try done; [congruence|..].
  - intros j. rewrite Hget. destruct (decide (e = j)) as [->|Hne]; [by left|right; split; [congruence|]]. destruct (decide (p = j)) as [<-|Hnp]; [rewrite Hp; by exists m'|].
    destruct (hash.[j]) as [[x|]|] eqn:E; [|done..]. exists x. do 5 (split; [done|]). by eapply (hi_noc _ _ _ Hinv).
  - rewrite (countb_aset hash1 hash2 e None (Some n)) by (done || (rewrite (aget_aset _ _ e _ _ Hset1), decide_False by done; done)). rewrite (countb_aset hash hash1 p (Some m) (Some m')) by done. cbn. lia.
  - intros i x Hi. assert (n_keyhash x mod zlen hash = p \/ n_keyhash x mod zlen hash <> p /\ hash.[i] = Some (Some x)) as [Hx|[Hx Hi0]].
    { rewrite Hget in Hi. destruct (decide (e = i)); [left; by injection Hi as <-|]. destruct (decide (p = i)); [left; by injection Hi as <-|]. destruct (decide (n_keyhash x mod zlen hash = p)); [by left|by right]. }
    + rewrite Hx. exists (p :: e :: rest). split; [done|]. split; [done|]. split; [|done]. rewrite Hget in Hi. destruct (decide (e = i)) as [->|]; [right; by left|]. destruct (decide (p = i)) as [->|]; [by left|].
      destruct (proj1 (elem_of_cons _ _ _) (Hrin i x Hi Hx)) as [->|Hin]; [by left|by right; right].
    + destruct (hi_chain _ _ _ Hinv i x Hi0) as (ch & Hl & Hnd & Hin & Hall). exists ch. assert (forall j, j ∈ ch -> hash2.[j] = hash.[j]) as Hfr.
      { intros j Hj. destruct (Hall j Hj) as (nj & E & Eh). rewrite Hget, !decide_False; [done|intros <-; congruence|intros <-; congruence]. }
      split; [by eapply linked_frame|]. split; [done|]. split; [done|]. intros j Hj. rewrite Hfr by done. by apply Hall.
Qed.
End hash.

(** ** The two passes *)

Definition is_hash (len : Z) (kw : value * value) : bool := negb (in_array len kw.1).
Definition hash_entries (len : Z) (l : list (value * value)) : list (value * value) := filter (fun kw => is_hash len kw = true) l.

Lemma elem_hash_entries len l kw : kw ∈ hash_entries len l <-> in_array len kw.1 = false /\ kw ∈ l.
Proof. unfold hash_entries. rewrite list_elem_of_filter. unfold is_hash. destruct (in_array len kw.1); cbn; naive_solver. Qed.

Lemma hash_entries_app len l l' : hash_entries len (l ++ l') = hash_entries len l ++ hash_entries len l'.
Proof. apply filter_app. Qed.

Lemma countsize_spec len l : forall n, Forall (fun kw => key_fits kw.1) l -> countsize l len n = Ok (n + zlen (hash_entries len l)).
Proof.
  induction l as [|[k w] l IH]; intros n Hk; cbn [countsize]; [unfold hash_entries; cbn; f_equal; change (zlen []) with 0; lia|]. apply Forall_cons in Hk as [Hk Hl]. cbn [fst] in Hk.
  assert (zlen (hash_entries len ((k, w) :: l)) = (if in_array len k then 0 else 1) + zlen (hash_entries len l)) as ->.
  { unfold hash_entries. rewrite filter_cons. unfold is_hash. cbn [fst]. destruct (in_array len k); cbn [negb]; [done|]. rewrite decide_True by done. apply zlen_cons. }
  destruct k as [| |z| | |s| | | |]; try done; rewrite IH by done; f_equal; cbn [in_array]; [destruct (_ && _)|]; lia.
Qed.

Lemma distinct_key_eq l k w w' : distinct_keys l -> key_fits k -> (k, w) ∈ l -> (k, w') ∈ l -> w = w'.
Proof.
  intros Hd Hk (i & Hi)%list_elem_of_lookup (j & Hj)%list_elem_of_lookup. destruct (decide (i = j)) as [->|Hne]; [congruence|]. pose proof (Hd i j _ _ Hi Hj Hne) as H. cbn [fst] in H.
  destruct k; try done; cbn in H; [by rewrite Z.eqb_refl in H|by rewrite bool_decide_true in H].
Qed.

Lemma distinct_NoDup l : distinct_keys l -> Forall (fun kw => key_fits kw.1) l -> NoDup l.
Proof.
  intros Hd Hk. apply NoDup_alt. intros i j kw Hi Hj. destruct (decide (i = j)) as [|Hne]; [done|]. pose proof (Hd i j _ _ Hi Hj Hne) as H. rewrite Forall_lookup in Hk. specialize (Hk i kw Hi).
  destruct kw as [k w]. cbn [fst] in *. destruct k; try done; cbn in H; [by rewrite Z.eqb_refl in H|by rewrite bool_decide_true in H].
Qed.

Lemma distinct_split l k w l' : distinct_keys (l ++ (k, w) :: l') -> key_fits k -> forall w', (k, w') ∉ l.
Proof.
  intros Hd Hk w' (i & Hi)%list_elem_of_lookup. pose proof (lookup_lt_Some _ _ _ Hi) as Hlt. pose proof (Hd i (length l) (k, w') (k, w)) as H. cbn [fst] in H.
  rewrite lookup_app_l, (list_lookup_middle l l' _ (length l)) in H by done. specialize (H Hi eq_refl ltac:(lia)). destruct k; try done; cbn in H; [by rewrite Z.eqb_refl in H|by rewrite bool_decide_true in H].
Qed.

Lemma find_empty_spec hash : countb filled hash < zlen hash -> forall i, exists e, find_empty hash i = Some (i + e) /\ hash.[e] = Some None.
Proof.
  induction hash as [|s hash IH]; intros Hc i; [unfold countb, zlen in Hc; cbn in Hc; lia|]. destruct s as [n|]; cbn [find_empty].
  - destruct (IH ltac:(unfold countb in *; cbn in Hc |- *; rewrite zlen_cons in Hc; fold (zsum (fun x => Z.b2z (filled x)) hash) in Hc; lia) (i + 1)) as (e & -> & He). pose proof (aget_lt_Some _ _ _ He).
    exists (1 + e). split; [f_equal; lia|]. rewrite aget_cons_S by lia. by replace (1 + e - 1) with e by lia.
  - exists 0. split; [f_equal; lia|done].
Qed.

Section passes.
Context (R : list (list Z) -> value -> cvalue -> Prop).
Hypothesis R_prefix : forall strs strs' v c, strs `prefix_of` strs' -> R strs v c -> R strs' v c.
Context (convert : list (list Z) -> value -> res (cvalue * list (list Z))) (len : Z) (all : list (value * value)).
Hypothesis Hlen : 0 <= len < 2 ^ 31.
Hypothesis Hkeys : Forall (fun kw => key_fits kw.1) all.
Hypothesis Hdist : distinct_keys all.
Hypothesis Hconv : forall k w, (k, w) ∈ all -> forall strs, NoDup strs -> exists c strs', convert strs w = Ok (c, strs') /\ strs `prefix_of` strs' /\ NoDup strs' /\ R strs' w c.
#[local] Set Default Proof Using "Type*".

(** The array holds the entries of [l] that belong there. *)
Definition array_inv (strs : list (list Z)) (array : list cvalue) (l : list (value * value)) : Prop :=
  zlen array = len /\
  forall i, 0 <= i < len -> (exists w c, (VInt (i + 1), w) ∈ l /\ array.[i] = Some c /\ R strs w c) \/ ((forall w, (VInt (i + 1), w) ∉ l) /\ array.[i] = Some CNil).

Lemma array_inv_prefix strs strs' array l : strs `prefix_of` strs' -> array_inv strs array l -> array_inv strs' array l.
Proof using R_prefix. intros Hp [Hz H]. split; [done|]. intros i Hi. destruct (H i Hi) as [(w & c & Hin & Ha & Hr)|]; [left; exists w, c; eauto|by right]. Qed.

Lemma array_inv_skip strs array l k w : in_array len k = false -> array_inv strs array l -> array_inv strs array (l ++ [(k, w)]).
Proof.
  intros Hk [Hz H]. split; [done|]. intros i Hi. destruct (H i Hi) as [(w' & c & Hin & Ha & Hr)|[Hno Ha]]; [left; exists w', c; split; [apply elem_of_app; by left|done]|right]. split; [|done].
  intros w' [Hin|Hin]%elem_of_app; [by eapply Hno|]. apply list_elem_of_singleton in Hin. injection Hin as <- _. cbn in Hk. lia.
Qed.

Lemma setarray_spec strs t l z w : NoDup strs -> array_inv strs (tb_array t) l -> 0 < z <= len -> (VInt z, w) ∈ all -> (forall w, (VInt z, w) ∉ l) ->
  exists a strs', setarray convert t strs w z = Ok (with_array t a, strs') /\ strs `prefix_of` strs' /\ NoDup strs' /\ array_inv strs' a (l ++ [(VInt z, w)]).
Proof.
  intros Hnd Ha Hz Hin Hno. destruct (Hconv _ _ Hin strs Hnd) as (c & strs' & Hc & Hp & Hnd' & Hr). destruct (array_inv_prefix strs strs' _ _ Hp Ha) as [Hlen' H].
  unfold setarray. rewrite Hc. cbn [mbind res_bind]. rewrite aset_Some by lia. cbn [lift mbind res_bind]. do 2 eexists. split; [done|]. split; [done|]. split; [done|]. split; [rewrite zlen_insert; done|].
  intros i Hi. rewrite aget_insert by lia. destruct (decide (z - 1 = i)) as [E|Hne].
  - left. exists w, c. replace (i + 1) with z by lia. split; [apply elem_of_app; right; by apply list_elem_of_singleton|done].
  - destruct (H i Hi) as [(w' & c' & Hin' & Ha' & Hr')|[Hno' Ha']]; [left; exists w', c'; split; [apply elem_of_app; by left|done]|right]. split; [|done].
    intros w' [Hin'|Hin']%elem_of_app; [by eapply Hno'|]. apply list_elem_of_singleton in Hin'. injection Hin' as E _. lia.
Qed.

Definition pos (hash : list (option (node cvalue))) (k : value) : Z := hash_of k mod zlen hash.

(** After the first pass over [l]. *)
Definition pass1 (strs : list (list Z)) (t : table) (l ks : list (value * value)) : Prop :=
  array_inv strs (tb_array t) l /\ hash_inv R strs (tb_hash t) ks /\ NoDup ks /\ ks ⊆ hash_entries len l /\
  (forall i n, (tb_hash t).[i] = Some (Some n) -> n_keyhash n mod zlen (tb_hash t) = i) /\
  (forall k w, (k, w) ∈ hash_entries len l -> exists n, (tb_hash t).[pos (tb_hash t) k] = Some (Some n)).

Lemma fillnocolliding_spec todo : forall l t strs ks, all = l ++ todo -> NoDup strs -> 0 < sizehash t -> pass1 strs t l ks ->
  exists t' strs' ks', fillnocolliding convert todo t strs = Ok (t', strs') /\ strs `prefix_of` strs' /\ NoDup strs' /\ sizehash t' = sizehash t /\ pass1 strs' t' all ks'.
Proof.
  induction todo as [|[k w] todo IH]; intros l t strs ks Hall Hnd Hsz Hp.
  - rewrite app_nil_r in Hall. subst l. by exists t, strs, ks.
  - assert ((k, w) ∈ all) as Hin by (rewrite Hall; apply elem_of_app; right; by left). assert (key_fits k) as Hk by (rewrite Forall_forall in Hkeys; exact (Hkeys _ Hin)).
    assert (forall w', (k, w') ∉ l) as Hnew by (rewrite Hall in Hdist; by eapply distinct_split). destruct Hp as (Ha & Hh & Hks & Hsub & Hmain & Hfill). destruct Ha as [Hza Ha].
    cbn [fillnocolliding]. unfold sizearray. rewrite Hza. pose proof (ishashkey_spec strs len k Hnd Hk Hlen) as Hsp.
    assert (exists t1 strs1 ks1, (r ← ishashkey strs len k; let '(r, strs) := r in
        match r with
        | inl key => setarray convert t strs w key
        | inr (key, keyhash, keytype) =>
            slot ← lift (tb_hash t).[keyhash mod sizehash t];
            match slot with
            | Some _ => Ok (t, strs)
            | None => '(c, strs) ← convert strs w; h ← lift (tb_hash t).[keyhash mod sizehash t := Some (Node c key (-1) keyhash keytype 1)]; Ok (with_hash t h, strs)
            end
        end) = Ok (t1, strs1) /\ strs `prefix_of` strs1 /\ NoDup strs1 /\ sizehash t1 = sizehash t /\ pass1 strs1 t1 (l ++ [(k, w)]) ks1) as (t1 & strs1 & ks1 & E1 & Hp1 & Hnd1 & Hsz1 & Hpass1).
    { destruct (in_array len k) eqn:Earr.
      - destruct Hsp as (z & -> & Hz & ->). cbn [mbind res_bind]. destruct (setarray_spec strs t l z w Hnd ltac:(by split) Hz Hin Hnew) as (a & strs' & E & Hp' & Hnd' & Ha').
        exists (with_array t a), strs', ks. split; [done|]. split; [done|]. split; [done|]. split; [done|]. split; [done|]. split; [by eapply hash_inv_prefix|]. split; [done|].
        assert (hash_entries len (l ++ [(VInt z, w)]) = hash_entries len l) as ->. { rewrite hash_entries_app. unfold hash_entries at 2. rewrite filter_cons. unfold is_hash. cbn [fst]. rewrite Earr. cbn. by rewrite app_nil_r. }
        by split.
      - destruct Hsp as (key & keytype & strs' & -> & Hp' & Hnd' & Hnode & _). cbn [mbind res_bind].
        assert (hash_entries len (l ++ [(k, w)]) = hash_entries len l ++ [(k, w)]) as Hhe. { rewrite hash_entries_app. f_equal. unfold hash_entries. rewrite filter_cons. unfold is_hash. cbn [fst]. by rewrite Earr. }
        pose proof (hash_of_bound k Hk) as Hhb. unfold is_u32 in Hhb. destruct (aget_is_Some (tb_hash t) (hash_of k mod sizehash t)) as [slot Hslot]; [apply Z.mod_pos_bound; exact Hsz|]. rewrite Hslot. cbn [lift mbind res_bind].
        destruct slot as [m|].
        + exists t, strs', ks. split; [done|]. split; [done|]. split; [done|]. split; [done|]. split; [apply array_inv_skip; [done|]; eapply array_inv_prefix; [done|by split]|]. split; [by eapply hash_inv_prefix|]. split; [done|].
          rewrite Hhe. split; [set_solver|]. split; [done|]. intros k0 w0 [H0|H0]%elem_of_app; [by eapply Hfill|]. apply list_elem_of_singleton in H0. injection H0 as -> ->. by exists m.
        + destruct (Hconv _ _ Hin strs' Hnd') as (c & strs2 & Hc & Hp2 & Hnd2 & Hr). rewrite Hc. cbn [mbind res_bind]. rewrite aset_Some by (apply Z.mod_pos_bound; exact Hsz). cbn [lift mbind res_bind].
          set (n := Node c key (-1) (hash_of k) keytype 1). set (h := <[Z.to_nat (hash_of k mod sizehash t) := Some n]> (tb_hash t)).
          assert ((tb_hash t).[hash_of k mod zlen (tb_hash t) := Some n] = Some h) as Hset by (apply aset_Some; apply Z.mod_pos_bound; exact Hsz). pose proof (zlen_aset _ _ _ _ Hset) as Hzh.
          assert (strs `prefix_of` strs2) as Hp02 by (by transitivity strs').
          assert (hash_inv R strs2 h (ks ++ [(k, w)])) as Hh2.
          { eapply (hash_inv_main R R_prefix strs2 (tb_hash t) h ks k w c key keytype); try done; [eapply hash_inv_prefix; [done|exact Hp02|done|done]|intros w' Hx; apply Hsub, elem_hash_entries in Hx as [_ Hx]; by eapply Hnew|].
            eapply node_is_prefix; [exact Hp2|]. by apply Hnode. }
          exists (with_hash t h), strs2, (ks ++ [(k, w)]). split; [done|]. split; [done|]. split; [done|]. split; [exact Hzh|]. split; [apply array_inv_skip; [done|]; eapply array_inv_prefix; [exact Hp02|by split]|]. split; [done|].
          split. { apply NoDup_app. split; [done|]. split; [|apply NoDup_singleton]. intros x Hx ->%list_elem_of_singleton. apply Hsub, elem_hash_entries in Hx as [_ Hx]. by eapply Hnew. }
          rewrite Hhe. split; [set_solver|]. cbn [with_hash tb_hash]. unfold pos. rewrite Hzh. split.
          * intros i x Hi. rewrite (aget_aset _ _ i _ _ Hset) in Hi. destruct (decide _) as [<-|]; [by injection Hi as <-|by apply Hmain].
          * intros k0 w0 H0. rewrite (aget_aset _ _ _ _ _ Hset). destruct (decide _) as [|Hne]; [by exists n|]. apply elem_of_app in H0 as [H0|H0]; [by eapply Hfill|]. apply list_elem_of_singleton in H0. injection H0 as -> ->. done. }
    destruct (IH (l ++ [(k, w)]) t1 strs1 ks1) as (t' & strs' & ks' & E & Hp' & Hnd' & Hsz' & Hpass); [by rewrite <-app_assoc|done|lia|done|].
    exists t', strs', ks'. split; [|split; [by transitivity strs1|split; [done|split; [lia|done]]]]. rewrite <-E.
    destruct (ishashkey strs len k) as [[r strs0]| |]; [|done..]. cbn [mbind res_bind] in E1 |- *. by rewrite E1.
Qed.

(** In the second pass, after [l]. *)
Definition pass2 (strs : list (list Z)) (t : table) (l ks : list (value * value)) : Prop :=
  array_inv strs (tb_array t) all /\ hash_inv R strs (tb_hash t) ks /\ NoDup ks /\ ks ⊆ hash_entries len all /\ hash_entries len l ⊆ ks /\
  (forall k w, (k, w) ∈ hash_entries len all -> exists n, (tb_hash t).[pos (tb_hash t) k] = Some (Some n) /\ n_keyhash n mod zlen (tb_hash t) = pos (tb_hash t) k) /\
  (forall k w, (k, w) ∈ ks -> (k, w) ∈ l \/ exists n, (tb_hash t).[pos (tb_hash t) k] = Some (Some n) /\ node_is strs n k).

Lemma pass1_pass2 strs t ks : pass1 strs t all ks -> pass2 strs t [] ks.
Proof using Type.
  intros (Ha & Hh & Hks & Hsub & Hmain & Hfill). split; [done|]. split; [done|]. split; [done|]. split; [done|]. split; [by intros x Hx%elem_of_nil|]. split.
  - intros k w Hin. destruct (Hfill k w Hin) as [n Hn]. exists n. split; [done|]. by apply Hmain.
  - intros k w Hin. right. destruct (hi_keys _ _ _ _ Hh k w Hin) as (i & n & Hi & Hn & _). exists n. split; [|done]. rewrite <-Hi. f_equal. unfold pos. destruct Hn as [<- _]. by apply Hmain.
Qed.

Lemma fillcolliding_spec todo : forall l t strs ks, all = l ++ todo -> NoDup strs -> sizehash t = zlen (hash_entries len all) -> pass2 strs t l ks ->
  exists t' strs' ks', fillcolliding convert todo t strs = Ok (t', strs') /\ strs `prefix_of` strs' /\ NoDup strs' /\ sizehash t' = sizehash t /\ pass2 strs' t' all ks'.
Proof.
  induction todo as [|[k w] todo IH]; intros l t strs ks Hall Hnd Hsz Hp.
  - rewrite app_nil_r in Hall. subst l. by exists t, strs, ks.
  - assert ((k, w) ∈ all) as Hin by (rewrite Hall; apply elem_of_app; right; by left). assert (key_fits k) as Hk by (rewrite Forall_forall in Hkeys; exact (Hkeys _ Hin)).
    assert (forall w', (k, w') ∉ l) as Hnew by (rewrite Hall in Hdist; by eapply distinct_split). destruct Hp as (Ha & Hh & Hks & Hsub & Hdone & Hmain & Hfree). pose proof Ha as [Hza _].
    cbn [fillcolliding]. unfold sizearray. rewrite Hza. pose proof (ishashkey_spec strs len k Hnd Hk Hlen) as Hsp.
    assert (exists t1 strs1 ks1, (r ← ishashkey strs len k; let '(r, strs) := r in
        match r with
        | inl _ => Ok (t, strs)
        | inr (key, keyhash, keytype) =>
            slot ← lift (tb_hash t).[keyhash mod sizehash t];
            mainpos ← lift slot;
            if (n_keytype mainpos =? keytype) && (n_key mainpos =? key) then Ok (t, strs)
            else
              n ← lift (find_empty (tb_hash t) 0);
              h ← lift (tb_hash t).[keyhash mod sizehash t := Some (Node (n_v mainpos) (n_key mainpos) n (n_keyhash mainpos) (n_keytype mainpos) 0)];
              '(c, strs) ← convert strs w;
              h ← lift h.[n := Some (Node c key (n_next mainpos) keyhash keytype 0)];
              Ok (with_hash t h, strs)
        end) = Ok (t1, strs1) /\ strs `prefix_of` strs1 /\ NoDup strs1 /\ sizehash t1 = sizehash t /\ pass2 strs1 t1 (l ++ [(k, w)]) ks1) as (t1 & strs1 & ks1 & E1 & Hp1 & Hnd1 & Hsz1 & Hpass1).
    { assert (hash_entries len (l ++ [(k, w)]) = hash_entries len l ++ (if in_array len k then [] else [(k, w)])) as Hhe.
      { rewrite hash_entries_app. f_equal. unfold hash_entries. rewrite filter_cons. unfold is_hash. cbn [fst]. by destruct (in_array len k). }
      destruct (in_array len k) eqn:Earr.
      - destruct Hsp as (z & -> & Hz & ->). cbn [mbind res_bind]. exists t, strs, ks. do 4 (split; [done|]). do 4 (split; [done|]). rewrite Hhe, app_nil_r. split; [done|]. split; [done|].
        intros k0 w0 H0. destruct (Hfree k0 w0 H0); [left; apply elem_of_app; by left|by right].
      - destruct Hsp as (key & keytype & strs' & -> & Hp' & Hnd' & Hnode & Heq). cbn [mbind res_bind]. assert ((k, w) ∈ hash_entries len all) as Hine by (by apply elem_hash_entries).
        destruct (Hmain k w Hine) as (m & Hm & Hmp). change (hash_of k mod sizehash t) with (pos (tb_hash t) k). rewrite Hm. cbn [lift mbind res_bind].
        pose proof (hash_inv_prefix R R_prefix strs strs' _ _ Hp' Hnd' Hh) as Hh'. destruct (hi_nodes _ _ _ _ Hh' _ _ Hm) as (km & wm & Hkm & Hmk & _).
        destruct ((n_keytype m =? keytype) && (n_key m =? key)) eqn:Esame.
        + apply (Heq m km Hmk) in Esame. subst km. assert (wm = w) as -> by (apply Hsub, elem_hash_entries in Hkm as [_ Hkm]; by eapply (distinct_key_eq all k)).
          exists t, strs', ks. do 4 (split; [done|]). split; [by eapply array_inv_prefix|]. do 3 (split; [done|]). rewrite Hhe. split; [set_solver|]. split; [done|].
          intros k0 w0 H0. destruct (Hfree k0 w0 H0) as [|(n0 & Hn0 & Hk0)]; [left; apply elem_of_app; by left|right]. exists n0. split; [done|by eapply node_is_prefix].
        + assert (forall w', (k, w') ∉ ks) as Hnk.
          { intros w' H0. destruct (Hfree k w' H0) as [Hx|(n0 & Hn0 & Hk0)]; [by eapply Hnew|]. rewrite Hm in Hn0. injection Hn0 as <-. apply (node_is_prefix strs strs') in Hk0; [|done].
            pose proof (proj2 (Heq m k ltac:(done)) eq_refl). congruence. }
          assert (countb filled (tb_hash t) < zlen (tb_hash t)) as Hcnt.
          { rewrite (hi_count _ _ _ _ Hh). change (zlen (tb_hash t)) with (sizehash t). rewrite Hsz. assert (NoDup (ks ++ [(k, w)])) as Hnd2.
            { apply NoDup_app. split; [done|]. split; [|apply NoDup_singleton]. intros x Hx ->%list_elem_of_singleton. by eapply Hnk. }
            assert (ks ++ [(k, w)] ⊆+ hash_entries len all) as Hs by (apply NoDup_submseteq; [done|]; intros x [Hx| ->%list_elem_of_singleton]%elem_of_app; [by apply Hsub|done]).
            apply submseteq_length in Hs. rewrite length_app in Hs. cbn in Hs. unfold zlen. lia. }
          destruct (find_empty_spec (tb_hash t) Hcnt 0) as (e & -> & He). cbn [lift mbind res_bind]. rewrite Z.add_0_l.
          set (p := pos (tb_hash t) k) in *. set (m' := Node (n_v m) (n_key m) e (n_keyhash m) (n_keytype m) 0).
          pose proof (aget_lt_Some _ _ _ Hm) as Hpb. pose proof (aget_lt_Some _ _ _ He) as Heb.
          assert ((tb_hash t).[p := Some m'] = Some (<[Z.to_nat p := Some m']> (tb_hash t))) as Hset1 by (by apply aset_Some). set (h1 := <[Z.to_nat p := Some m']> (tb_hash t)) in *. rewrite Hset1. cbn [lift mbind res_bind].
          destruct (Hconv _ _ Hin strs' Hnd') as (c & strs2 & Hc & Hp2 & Hnd2 & Hr). rewrite Hc. cbn [mbind res_bind]. set (n := Node c key (n_next m) (hash_of k) keytype 0).
          pose proof (zlen_aset _ _ _ _ Hset1) as Hz1. assert (h1.[e := Some n] = Some (<[Z.to_nat e := Some n]> h1)) as Hset2 by (apply aset_Some; lia). set (h2 := <[Z.to_nat e := Some n]> h1) in *. rewrite Hset2. cbn [lift mbind res_bind].
          pose proof (zlen_aset _ _ _ _ Hset2) as Hz2. assert (strs `prefix_of` strs2) as Hp02 by (by transitivity strs').
          assert (hash_inv R strs2 h2 (ks ++ [(k, w)])) as Hh2.
          { eapply (hash_inv_collide R R_prefix strs2 (tb_hash t) h1 h2 ks k w c key keytype m e); try done; [by eapply hash_inv_prefix|]. eapply node_is_prefix; [exact Hp2|]. by apply Hnode. }
          assert (forall q x, (tb_hash t).[q] = Some (Some x) -> q <> p -> h2.[q] = Some (Some x)) as Hold.
          { intros q x Hq Hne. rewrite (aget_aset _ _ q _ _ Hset2), (aget_aset _ _ q _ _ Hset1). rewrite !decide_False by congruence. done. }
          assert (h2.[p] = Some (Some m')) as Hpm. { rewrite (aget_aset _ _ p _ _ Hset2), (aget_aset _ _ p _ _ Hset1). rewrite decide_False by congruence. by rewrite decide_True. }
          exists (with_hash t h2), strs2, (ks ++ [(k, w)]). split; [done|]. split; [done|]. split; [done|]. split; [unfold sizehash; cbn; lia|]. split; [by eapply array_inv_prefix|]. split; [done|].
          split. { apply NoDup_app. split; [done|]. split; [|apply NoDup_singleton]. intros x Hx ->%list_elem_of_singleton. by eapply Hnk. }
          split; [set_solver|]. rewrite Hhe. split; [set_solver|]. cbn [with_hash tb_hash]. assert (forall q, pos h2 q = pos (tb_hash t) q) as Hpos by (intros q; unfold pos; by rewrite Hz2, Hz1). split.
          * intros k0 w0 H0. rewrite Hpos, Hz2, Hz1. destruct (Hmain k0 w0 H0) as (x & Hx & Hxp). destruct (decide (pos (tb_hash t) k0 = p)) as [E|Hne]; [|exists x; split; [by apply Hold|done]].
            rewrite E in *. exists m'. split; [done|]. rewrite Hm in Hx. by injection Hx as <-.
          * intros k0 w0 [H0|H0]%elem_of_app; [|left; apply elem_of_app; by right]. destruct (Hfree k0 w0 H0) as [|(x & Hx & Hk0)]; [left; apply elem_of_app; by left|right]. rewrite Hpos.
            apply (node_is_prefix strs strs2) in Hk0; [|done]. destruct (decide (pos (tb_hash t) k0 = p)) as [E|Hne]; [|exists x; split; [by apply Hold|done]].
            rewrite E in *. exists m'. split; [done|]. rewrite Hm in Hx. by injection Hx as <-. }
    destruct (IH (l ++ [(k, w)]) t1 strs1 ks1) as (t' & strs' & ks' & E & Hp' & Hnd' & Hsz' & Hpass); [by rewrite <-app_assoc|done|lia|done|].
    exists t', strs', ks'. split; [|split; [by transitivity strs1|split; [done|split; [lia|done]]]]. rewrite <-E.
    destruct (ishashkey strs len k) as [[r strs0]| |]; [|done..]. cbn [mbind res_bind] in E1 |- *. by rewrite E1.
Qed.
End passes.
