(* ===== verification/SharedataRead.v ===== *)
(** Reading a converted table of lib/sharedata/lua-sharedata.c gives what the Lua table has. *)
From Stdlib Require Import String.
From S2P Require Import Prelude Bytes Links Lua Lock Sharedata SharedataConv.
#[local] Set Warnings "-register-all".

(** ** Conversion *)

(** The tables that can be converted, with [d] levels: keys are strings or integers of 32
    bits, values are numbers, strings, booleans and such tables. *)
Fixpoint fits (d : nat) (v : value) : Prop :=
  match v with
  | VInt _ | VReal _ | VBool _ | VStr _ => True
  | VTable len l =>
      match d with
      | O => False
      | S d => 0 <= len < 2 ^ 31 /\ zlen l < 2 ^ 31 /\ distinct_keys l /\ Forall (fun kw => key_fits kw.1 /\ fits d kw.2) l
      end
  | _ => False
  end.

(** The place of the key in the table has [c]. *)
Definition located (strs : list (list Z)) (len : Z) (array : list cvalue) (hash : list (option (node cvalue))) (k : value) (c : cvalue) : Prop :=
  match k with
  | VInt z => if in_array len k then array.[z - 1] = Some c else exists i n, hash.[i] = Some (Some n) /\ node_is strs n k /\ n_v n = c
  | _ => exists i n, hash.[i] = Some (Some n) /\ node_is strs n k /\ n_v n = c
  end.

(** The table has room for its entries and nothing else, and its hash is chained. *)
Definition shape (strs : list (list Z)) (len : Z) (l : list (value * value)) (array : list cvalue) (hash : list (option (node cvalue))) : Prop :=
  zlen array = len /\ (forall i, 0 <= i < len -> (forall w, (VInt (i + 1), w) ∉ l) -> array.[i] = Some CNil) /\
  (exists ks, hash_inv (fun _ _ _ => True) strs hash ks /\ (forall k w, (k, w) ∈ ks <-> in_array len k = false /\ (k, w) ∈ l)) /\
  (forall i, hash.[i] <> Some None).

(** [c] stands for [v]. *)
Fixpoint rep (d : nat) (strs : list (list Z)) (v : value) (c : cvalue) : Prop :=
  match v with
  | VInt z => c = CInt z
  | VReal bits => c = CReal bits
  | VBool b => c = CBool b
  | VStr s => exists i, c = CString i /\ strs.[i - 2] = Some s
  | VTable len l =>
      match d with
      | O => False
      | S d => exists array hash, c = CTable array hash /\ shape strs len l array hash /\ Forall (fun kw => exists c, located strs len array hash kw.1 c /\ rep d strs kw.2 c) l
      end
  | _ => False
  end.

Lemma located_prefix strs strs' len array hash k c : strs `prefix_of` strs' -> located strs len array hash k c -> located strs' len array hash k c.
Proof.
  intros Hp H. assert ((exists i n, hash.[i] = Some (Some n) /\ node_is strs n k /\ n_v n = c) -> (exists i n, hash.[i] = Some (Some n) /\ node_is strs' n k /\ n_v n = c)) as Hh.
  { intros (i & n & Hi & Hn & Hc). exists i, n. split; [done|]. split; [by eapply node_is_prefix|done]. }
  unfold located in *. destruct k; auto; by destruct (in_array len (VInt z)); auto.
Qed.

Lemma shape_prefix strs strs' len l array hash : strs `prefix_of` strs' -> NoDup strs' -> shape strs len l array hash -> shape strs' len l array hash.
Proof.
  intros Hp Hnd (Ha & Hn & (ks & Hh & Hks) & Hf). split; [done|]. split; [done|]. split; [|done]. exists ks. split; [|done]. by eapply hash_inv_prefix.
Qed.

(** With strings that do not repeat, [rep] is kept when strings are added. *)
Definition rep' (d : nat) (strs : list (list Z)) (v : value) (c : cvalue) : Prop := forall strs', strs `prefix_of` strs' -> NoDup strs' -> rep d strs' v c.

Lemma rep'_prefix d strs strs' v c : strs `prefix_of` strs' -> rep' d strs v c -> rep' d strs' v c.
Proof. intros Hp H strs2 Hp2 Hnd. apply H; [by transitivity strs'|done]. Qed.

Lemma hash_inv_weaken R strs hash ks : hash_inv R strs hash ks -> hash_inv (fun _ _ _ => True) strs hash ks.
Proof.
  intros [Hn Hc Hk Hu Ho Hcnt]. constructor; try done.
  - intros i n Hi. destruct (Hn i n Hi) as (k & w & ? & ? & _). by exists k, w.
  - intros k w Hin. destruct (Hk k w Hin) as (i & n & ? & ? & _). by exists i, n.
Qed.

Lemma all_filled hash : countb filled hash = zlen hash -> forall i, hash.[i] <> Some None.
Proof.
  intros Hc i Hi. assert (countb filled hash < zlen hash); [|lia]. clear Hc. unfold aget in Hi. case_decide; [|done]. clear H. revert Hi. generalize (Z.to_nat i) as n. clear i.
  assert (forall l : list (option (node cvalue)), countb filled l <= zlen l) as Hle.
  { induction l as [|s l IH]; [done|]. rewrite zlen_cons. unfold countb in *. cbn. fold (zsum (fun x => Z.b2z (filled x)) l). destruct (filled s); cbn; lia. }
  induction hash as [|s hash IH]; intros [|n] Hi; try done; rewrite zlen_cons; unfold countb in *; cbn in Hi |- *; fold (zsum (fun x => Z.b2z (filled x)) hash).
  - injection Hi as ->. specialize (Hle hash). cbn. lia.
  - specialize (IH n Hi). destruct (filled s); cbn; lia.
Qed.

(** The result of the two passes. *)
Lemma pass2_rep d len all strs t ks : 0 <= len -> Forall (fun kw => key_fits kw.1) all -> distinct_keys all -> NoDup strs -> sizehash t = zlen (hash_entries len all) ->
  pass2 (rep' d) len all strs t all ks -> rep (S d) strs (VTable len all) (CTable (tb_array t) (tb_hash t)).
Proof.
  intros Hlen Hkeys Hdist Hnd Hsz (Ha & Hh & Hks & Hsub & Hdone & _). cbn [rep]. destruct Ha as [Hza Ha].
  assert (Permutation ks (hash_entries len all)) as Hperm.
  { apply NoDup_Permutation; [done|unfold hash_entries; by apply NoDup_filter, distinct_NoDup|]. intros x. split; [apply Hsub|apply Hdone]. }
  exists (tb_array t), (tb_hash t). split; [done|]. split.
  - split; [done|]. split; [|split].
    + intros i Hi Hno. destruct (Ha i Hi) as [(w & c & Hin & _)|[_ H]]; [by destruct (Hno w)|done].
    + exists ks. split; [by eapply hash_inv_weaken|]. intros k w. rewrite Hperm. apply elem_hash_entries.
    + apply all_filled. rewrite (hi_count _ _ _ _ Hh). change (zlen (tb_hash t)) with (sizehash t). rewrite Hsz. unfold zlen. by rewrite Hperm.
  - apply Forall_forall. intros [k w] Hin. cbn [fst snd]. rewrite Forall_forall in Hkeys. pose proof (Hkeys _ Hin) as Hk. cbn [fst] in Hk.
    destruct (in_array len k) eqn:E.
    + destruct k as [| |z| | | | | | |]; try done. cbn in E. destruct (Ha (z - 1) ltac:(lia)) as [(w' & c & Hin' & Hac & Hr)|[Hno _]]; [|replace (z - 1 + 1) with z in Hno by lia; by destruct (Hno w)].
      replace (z - 1 + 1) with z in Hin' by lia. assert (w' = w) as -> by (by eapply distinct_key_eq). exists c. split; [cbn [located]; cbn [in_array]; by rewrite E|by apply Hr].
    + destruct (hi_keys _ _ _ _ Hh k w) as (i & n & Hi & Hn & Hr); [rewrite Hperm; by apply elem_hash_entries|]. exists (n_v n). split; [|by apply Hr].
      assert (exists i n0, (tb_hash t).[i] = Some (Some n0) /\ node_is strs n0 k /\ n_v n0 = n_v n) as Hl by (by exists i, n). unfold located. destruct k; try done. by rewrite E.
Qed.

Lemma lua_rawgeti_spec l z : distinct_keys l -> match lua_rawgeti l z with VNil => forall w, (VInt z, w) ∈ l -> w = VNil | w => (VInt z, w) ∈ l end.
Proof.
  induction l as [|[k w] l IH]; intros Hd; cbn [lua_rawgeti]; [by intros w Hw%elem_of_nil|]. apply distinct_keys_cons in Hd as [Hk Hd]. specialize (IH Hd). destruct (raw_equal (VInt z) k) eqn:E.
  - destruct k; try done. cbn in E. apply Z.eqb_eq in E. subst z0.
    assert (forall w', (VInt z, w') ∈ (VInt z, w) :: l -> w' = w) as Hw. { intros w' [Hw|Hw]%elem_of_cons; [congruence|]. rewrite Forall_forall in Hk. destruct (Hk _ Hw) as [H _]. cbn in H. by rewrite Z.eqb_refl in H. }
    destruct w; try (by left). exact Hw.
  - destruct (lua_rawgeti l z) eqn:Eg; try (by right). intros w' [Hw|Hw]%elem_of_cons; [|by apply IH]. injection Hw as <- _. cbn in E. by rewrite Z.eqb_refl in E.
Qed.

Section array.
Context (d : nat) (convert : list (list Z) -> value -> res (cvalue * list (list Z))) (len : Z) (all : list (value * value)).
Hypothesis Hlen : 0 <= len.
Hypothesis Hdist : distinct_keys all.
Hypothesis Hnil : forall strs, convert strs VNil = Ok (CNil, strs).
Hypothesis Hvals : forall k w, (k, w) ∈ all -> w <> VNil.
Hypothesis Hconv : forall k w, (k, w) ∈ all -> forall strs, NoDup strs -> exists c strs', convert strs w = Ok (c, strs') /\ strs `prefix_of` strs' /\ NoDup strs' /\ rep' d strs' w c.
#[local] Set Default Proof Using "Type*".

Definition slot_ok (strs : list (list Z)) (array : list cvalue) (i : Z) : Prop :=
  (exists w c, (VInt (i + 1), w) ∈ all /\ array.[i] = Some c /\ rep' d strs w c) \/ ((forall w, (VInt (i + 1), w) ∉ all) /\ array.[i] = Some CNil).

Lemma fillarray_spec n : forall i t strs, i + Z.of_nat n = len -> 0 <= i -> NoDup strs -> sizearray t = len -> (forall j, 0 <= j < i -> slot_ok strs (tb_array t) j) ->
  exists a strs', fillarray convert n (i + 1) all t strs = Ok (with_array t a, strs') /\ strs `prefix_of` strs' /\ NoDup strs' /\ array_inv (rep' d) len strs' a all.
Proof.
  induction n as [|n IH]; intros i t strs Hi Hi0 Hnd Hsz Hok.
  - exists (tb_array t), strs. split; [by destruct t|]. split; [done|]. split; [done|]. split; [done|]. intros j Hj. apply Hok. lia.
  - cbn [fillarray]. unfold setarray. assert (exists c strs1, convert strs (lua_rawgeti all (i + 1)) = Ok (c, strs1) /\ strs `prefix_of` strs1 /\ NoDup strs1 /\
      ((exists w, (VInt (i + 1), w) ∈ all /\ rep' d strs1 w c) \/ ((forall w, (VInt (i + 1), w) ∉ all) /\ c = CNil))) as (c & strs1 & Hc & Hp1 & Hnd1 & Hres).
    { pose proof (lua_rawgeti_spec all (i + 1) Hdist) as Hg. assert (lua_rawgeti all (i + 1) = VNil \/ (VInt (i + 1), lua_rawgeti all (i + 1)) ∈ all) as [E|E] by (destruct (lua_rawgeti all (i + 1)); auto).
      - rewrite E in Hg |- *. rewrite Hnil. exists CNil, strs. do 3 (split; [done|]). right. split; [|done]. intros w Hw. by apply (Hvals _ _ Hw), Hg.
      - destruct (Hconv _ _ E strs Hnd) as (c & strs1 & Hc & Hp1 & Hnd1 & Hr). exists c, strs1. do 3 (split; [done|]). left. by exists (lua_rawgeti all (i + 1)). }
    rewrite Hc. cbn [mbind res_bind]. replace (i + 1 - 1) with i by lia. unfold sizearray in Hsz. rewrite aset_Some by lia. cbn [lift mbind res_bind]. set (a := <[Z.to_nat i := c]> (tb_array t)).
    destruct (IH (i + 1) (with_array t a) strs1) as (a' & strs' & E & Hp' & Hnd' & Ha'); [lia|lia|done|unfold sizearray; cbn; unfold a; by rewrite zlen_insert| |].
    + intros j Hj. unfold slot_ok, a. cbn [with_array tb_array]. rewrite aget_insert by lia. destruct (decide (i = j)) as [->|Hne].
      * destruct Hres as [(w & Hw & Hr)|[Hno ->]]; [left; by exists w, c|by right].
      * destruct (Hok j ltac:(lia)) as [(w & c' & Hw & Ha & Hr)|]; [left; exists w, c'; split; [done|]; split; [done|by eapply rep'_prefix]|by right].
    + exists a', strs'. split; [exact E|]. split; [by transitivity strs1|]. by split.
Qed.
End array.

Lemma replicate_array len i : 0 <= i < len -> (replicate (Z.to_nat len) CNil).[i] = Some CNil.
Proof. intros. apply aget_replicate. lia. Qed.

(** Conversion of a table ends, and the result stands for it. *)
Lemma convtable_spec d : forall ccalls len l, (d <= ccalls)%nat -> fits d (VTable len l) -> forall strs, NoDup strs ->
  exists t strs', convtable ccalls len l strs = Ok (t, strs') /\ strs `prefix_of` strs' /\ NoDup strs' /\ rep' d strs' (VTable len l) (CTable (tb_array t) (tb_hash t)).
Proof.
  induction d as [|d IH]; intros ccalls len l Hcc Hfit strs Hnd; [done|]. destruct ccalls as [|ccalls]; [lia|]. cbn [fits] in Hfit. destruct Hfit as (Hlen & Hsize & Hdist & Hl).
  assert (Forall (fun kw => key_fits kw.1) l) as Hkeys by (eapply Forall_impl; [exact Hl|]; by intros kw [? _]).
  assert (forall k w, (k, w) ∈ l -> forall strs, NoDup strs -> exists c strs', setvalue (convtable ccalls) strs w = Ok (c, strs') /\ strs `prefix_of` strs' /\ NoDup strs' /\ rep' d strs' w c) as Hconv.
  { intros k w Hin strs0 Hnd0. rewrite Forall_forall in Hl. destruct (Hl _ Hin) as [_ Hw]. cbn [snd] in Hw. destruct w as [|b|z|bits| |s|len' l'| | |]; try (by destruct d).
    - exists (CBool b), strs0. do 3 (split; [done|]). by intros ? _ _; destruct d.
    - exists (CInt z), strs0. do 3 (split; [done|]). by intros ? _ _; destruct d.
    - exists (CReal bits), strs0. do 3 (split; [done|]). by intros ? _ _; destruct d.
    - cbn [setvalue]. destruct (stringindex strs0 s) as [i strs1] eqn:E. destruct (stringindex_spec _ _ _ _ Hnd0 E) as (Hp & Hnd1 & _ & Hs). exists (CString i), strs1. do 3 (split; [done|]).
      intros strs2 Hp2 _. assert (exists j, CString i = CString j /\ strs2.[j - 2] = Some s) as Hr by (exists i; split; [done|by eapply aget_prefix]). by destruct d.
    - cbn [setvalue]. destruct (IH ccalls len' l' ltac:(lia) Hw strs0 Hnd0) as (t & strs1 & -> & Hp & Hnd1 & Hr). cbn [mbind res_bind]. by exists (CTable (tb_array t) (tb_hash t)), strs1. }
  assert (forall t strs' ks, NoDup strs' -> sizehash t = zlen (hash_entries len l) -> pass2 (rep' d) len l strs' t l ks -> rep' (S d) strs' (VTable len l) (CTable (tb_array t) (tb_hash t))) as Hfin.
  { intros t strs1 ks Hnd1 Hsz (Ha & Hh & Hks & Hsub & Hdone & Hmain & Hfree) strs2 Hp2 Hnd2. eapply (pass2_rep d len l strs2 t ks); [lia|done|done|done|done|].
    split; [by eapply (array_inv_prefix (rep' d) (rep'_prefix d))|]. split; [by eapply (hash_inv_prefix (rep' d) (rep'_prefix d))|]. do 4 (split; [done|]).
    intros k w Hin. destruct (Hfree k w Hin) as [|(n & Hn & Hk)]; [by left|right]. exists n. split; [done|by eapply node_is_prefix]. }
  cbn [convtable]. rewrite (countsize_spec len l 0 Hkeys). cbn [mbind res_bind]. rewrite Z.add_0_l. set (n := zlen (hash_entries len l)) in *. pose proof (zlen_nonneg (hash_entries len l)) as Hn0.
  set (t0 := Table (replicate (Z.to_nat len) CNil) (replicate (Z.to_nat n) None)). assert (sizehash t0 = n) as Hsz0 by (unfold sizehash; cbn; rewrite zlen_replicate; lia).
  destruct (Z.eqb_spec n 0) as [Hz|Hz]; cbn [negb].
  - destruct (fillarray_spec d (setvalue (convtable ccalls)) len l ltac:(lia) Hdist ltac:(done)) with (n := Z.to_nat len) (i := 0) (t := t0) (strs := strs) as (a & strs' & E & Hp & Hnd' & Ha).
    + intros k w Hin ->. rewrite Forall_forall in Hl. by destruct (Hl _ Hin) as [_ Hw], d.
    + exact Hconv.
    + lia.
    + done.
    + done.
    + unfold sizearray. cbn. rewrite zlen_replicate. lia.
    + lia.
    + exists (with_array t0 a), strs'. split; [exact E|]. split; [done|]. split; [done|]. apply (Hfin _ _ []); [done|exact Hsz0|]. assert (hash_entries len l = []) as He by (by apply zlen_nil_inv).
      split; [exact Ha|]. split; [cbn [with_array tb_hash t0]; apply (hash_inv_empty (rep' d) (rep'_prefix d))|]. split; [constructor|]. rewrite He. split; [done|]. split; [done|].
      split; intros k w Hx; by apply elem_of_nil in Hx.
  - assert (pass1 (rep' d) len strs t0 [] []) as Hp0.
    { split; [split; [cbn; rewrite zlen_replicate; lia|]; intros i Hi; right; split; [intros w Hw; by apply elem_of_nil in Hw|by apply replicate_array]|]. split; [apply (hash_inv_empty (rep' d) (rep'_prefix d))|]. split; [constructor|]. split; [done|].
      split; [|intros k w Hx; by apply elem_of_nil in Hx]. intros i nd Hi. cbn [tb_hash t0] in Hi. pose proof (aget_lt_Some _ _ _ Hi) as Hb. rewrite zlen_replicate in Hb. by rewrite aget_replicate in Hi by lia. }
    destruct (fillnocolliding_spec (rep' d) (rep'_prefix d) (setvalue (convtable ccalls)) len l Hlen Hkeys Hdist Hconv l [] t0 strs []) as (t1 & strs1 & ks1 & -> & Hp1 & Hnd1 & Hsz1 & Hpass1); [done|done|lia|done|]. cbn [mbind res_bind].
    apply pass1_pass2 in Hpass1.
    destruct (fillcolliding_spec (rep' d) (rep'_prefix d) (setvalue (convtable ccalls)) len l Hlen Hkeys Hdist Hconv l [] t1 strs1 ks1) as (t2 & strs2 & ks2 & -> & Hp2 & Hnd2 & Hsz2 & Hpass2); [done|done|lia|done|].
    exists t2, strs2. split; [done|]. split; [by transitivity strs1|]. split; [done|]. apply (Hfin _ _ ks2); [done|lia|done].
Qed.

(** ** Looking up a key *)

(** What is searched for a key. *)
Definition search_of (k : value) : Z * Z * list Z :=
  match k with VInt z => (z, KEYTYPE_INTEGER, []) | VStr s => (0, KEYTYPE_STRING, s) | _ => (0, 0, []) end.

Lemma linked_det {A} (next : A -> option Z) nodes q l l' : linked next nodes q l -> linked next nodes q l' -> l = l'.
Proof.
  revert q l'. induction l as [|y l IH]; intros q [|z l']; cbn [linked]; [done|intros -> [? _]; done|intros [-> _] ?; done|].
  intros (-> & a & Ha & H1) ([= <-] & b & Hb & H2). assert (a = b) as <- by congruence. f_equal. by eapply IH.
Qed.

Lemma linked_suffix {A} (next : A -> option Z) nodes i post : forall pre q, linked next nodes q (pre ++ i :: post) -> linked next nodes (Some i) (i :: post).
Proof. induction pre as [|x pre IH]; intros q; cbn [app linked]; [intros (-> & H); done|]. intros (_ & n & _ & H). by eapply IH. Qed.

Section lookup.
Context (strs : list (list Z)) (hash : list (option (node cvalue))) (ks : list (value * value)).
Hypothesis Hinv : hash_inv (fun _ _ _ => True) strs hash ks.
Hypothesis Hfull : forall i, hash.[i] <> Some None.
#[local] Set Default Proof Using "Type*".

Lemma node_has_key i n : hash.[i] = Some (Some n) -> exists k w, (k, w) ∈ ks /\ node_is strs n k.
Proof. intros Hi. destruct (hi_nodes _ _ _ _ Hinv i n Hi) as (k & w & ? & ? & _). by exists k, w. Qed.

(** The test of a node in [lookup_chain]. *)
Lemma found_spec n k k' : key_fits k -> node_is strs n k' -> let '(key, keytype, str) := search_of k in exists b,
  (if hash_of k =? n_keyhash n then
     if n_keytype n =? KEYTYPE_INTEGER then Ok ((keytype =? KEYTYPE_INTEGER) && (n_key n =? key))
     else if keytype =? KEYTYPE_STRING then str2 ← get_string strs (n_key n); Ok (bool_decide (str = str2))
     else Ok false
   else Ok false) = Ok b /\ (b = true <-> k' = k).
Proof.
  clear Hinv Hfull. intros Hk [Hh Hn]. destruct k as [| |z| | |s| | | |]; try done; cbn [search_of].
  - destruct k' as [| |z'| | |s'| | | |]; try done; destruct Hn as [-> Hn]; unfold KEYTYPE_INTEGER, KEYTYPE_STRING; cbn [Z.eqb].
    + rewrite Hh, Hn. destruct (Z.eqb_spec z' z) as [->|Hne]; [rewrite Z.eqb_refl; exists true; by split|]. exists false. split; [by destruct (_ =? _)|]. split; [done|congruence].
    + exists false. split; [by destruct (_ =? _)|]. by split.
  - destruct k' as [| |z'| | |s'| | | |]; try done; destruct Hn as [-> Hn]; unfold KEYTYPE_INTEGER, KEYTYPE_STRING; cbn [Z.eqb].
    + exists false. split; [by destruct (_ =? _)|]. by split.
    + unfold get_string. rewrite Hn. cbn [lift mbind res_bind]. rewrite Hh. destruct (decide (s' = s)) as [->|Hne]; [rewrite Z.eqb_refl; exists true; split; [by rewrite bool_decide_true|by split]|].
      exists false. split; [destruct (_ =? _); [by rewrite bool_decide_false by congruence|done]|]. split; [done|congruence].
Qed.

Lemma chain_lookup_spec k : key_fits k -> let '(key, keytype, str) := search_of k in forall post fuel i, linked hnext hash (Some i) (i :: post) -> (length (i :: post) <= fuel)%nat ->
  exists r, lookup_chain fuel hash strs (hash_of k) key keytype str i = Ok r /\
    match r with Some j => exists n, hash.[j] = Some (Some n) /\ node_is strs n k | None => forall j n, j ∈ i :: post -> hash.[j] = Some (Some n) -> ~ node_is strs n k end.
Proof.
  intros Hk. pose proof (fun n k' => found_spec n k k' Hk) as Hf. destruct (search_of k) as [[key keytype] str]. induction post as [|i2 post IH]; intros fuel i Hl Hfu; (destruct fuel as [|fuel]; [cbn in Hfu; lia|]);
    cbn [lookup_chain]; cbn [linked] in Hl; destruct Hl as (_ & s & Hs & Hl); rewrite Hs; cbn [lift mbind res_bind]; (destruct s as [n|]; [|by destruct (Hfull i)]); cbn [lift mbind res_bind];
    destruct (node_has_key i n Hs) as (k' & w' & _ & Hk'); destruct (Hf n k' Hk') as (b & -> & Hb); cbn [mbind res_bind]; (destruct b; [exists (Some i); split; [done|]; exists n; split; [done|]; by rewrite <-(proj1 Hb eq_refl)|]).
  - cbn [hnext] in Hl. destruct (n_next n <? 0); [|done]. exists None. split; [done|]. intros j m ->%list_elem_of_singleton Hj Hm. assert (m = n) as -> by congruence. pose proof (node_is_inj _ _ _ _ Hk' Hm). assert (false = true) by (by apply Hb). done.
  - pose proof Hl as (E & _). cbn [hnext] in E. destruct (n_next n <? 0) eqn:En; [done|]. injection E as E. rewrite E. destruct (IH fuel i2) as (r & Hr & Hres).
    + cbn [hnext] in Hl. rewrite En, E in Hl. exact Hl.
    + cbn [length] in Hfu |- *. lia.
    + exists r. split; [done|]. destruct r as [j|]; [done|]. intros j m [->|Hj]%elem_of_cons Hjm Hm; [|by eapply Hres]. assert (m = n) as -> by congruence. pose proof (node_is_inj _ _ _ _ Hk' Hm). assert (false = true) by (by apply Hb). done.
Qed.

(** [lookup_key] finds the node of the key if there is one. *)
Lemma lookup_key_spec array k : key_fits k -> let '(key, keytype, str) := search_of k in
  exists r, lookup_key (Table array hash) strs (hash_of k) key keytype str = Ok r /\
    match r with Some j => exists n, hash.[j] = Some (Some n) /\ node_is strs n k | None => forall j n, hash.[j] = Some (Some n) -> ~ node_is strs n k end.
Proof.
  intros Hk. pose proof (chain_lookup_spec k Hk) as Hc. destruct (search_of k) as [[key keytype] str]. unfold lookup_key, sizehash. cbn [tb_hash]. pose proof (zlen_nonneg hash).
  destruct (Z.eqb_spec (zlen hash) 0) as [Hz|Hz]; [exists None; split; [done|]; intros j n Hj; pose proof (aget_lt_Some _ _ _ Hj); lia|].
  set (i := hash_of k mod zlen hash). destruct (aget_is_Some hash i) as [s Hs]; [apply Z.mod_pos_bound; lia|]. rewrite Hs. cbn [lift mbind res_bind]. destruct s as [n|]; [|by destruct (Hfull i)]. cbn [lift mbind res_bind].
  destruct (hi_chain _ _ _ _ Hinv i n Hs) as (ch & Hl & Hnd & Hin & _). apply list_elem_of_split in Hin as (pre & post & ->).
  pose proof (linked_suffix _ _ _ _ _ _ Hl) as Hli. assert (length (i :: post) <= length hash)%nat as Hlen by (apply NoDup_app in Hnd as (_ & _ & Hnd); by eapply linked_length).
  assert (forall j m, hash.[j] = Some (Some m) -> node_is strs m k -> j ∈ i :: post) as Hall.
  { intros j m Hj [Hm _]. destruct (hi_chain _ _ _ _ Hinv j m Hj) as (ch' & Hl' & _ & Hin' & _). rewrite Hm in Hl'. fold i in Hl'. by rewrite <-(linked_det _ _ _ _ _ Hl' Hli). }
  destruct (Z.eqb_spec (hash_of k) (n_keyhash n)) as [Eh|Eh]; cbn [negb andb]; [|destruct (Z.eqb_spec (n_nocolliding n) 0) as [|Hnc]; cbn [negb]].
  - destruct (Hc post (length hash) i Hli Hlen) as (r & Hr & Hres). exists r. split; [done|]. destruct r; [done|]. intros j m Hj Hm. eapply Hres; [by eapply Hall|done..].
  - destruct (Hc post (length hash) i Hli Hlen) as (r & Hr & Hres). exists r. split; [done|]. destruct r; [done|]. intros j m Hj Hm. eapply Hres; [by eapply Hall|done..].
  - exists None. split; [done|]. intros j m Hj Hm. pose proof (hi_noc _ _ _ _ Hinv i n Hs Hnc). cbn [linked] in Hli. destruct Hli as (_ & s & Hs' & Hli). rewrite Hs in Hs'. injection Hs' as <-. cbn [hnext] in Hli. destruct (Z.ltb_spec (n_next n) 0); [|lia].
    destruct post as [|]; [|by destruct Hli]. pose proof (Hall j m Hj Hm) as ->%list_elem_of_singleton. assert (m = n) as -> by congruence. destruct Hm as [Hm _]. congruence.
Qed.
End lookup.

(** ** Tables *)

Lemma hash_of_int z : hash_of (VInt z) = u32 z.
Proof. done. Qed.

Definition shown (strs : list (list Z)) (c : cvalue) (p : pushed) : Prop := pushvalue strs c = Ok p.

(** A key is found where it is located. *)
Lemma lindexconf_located strs len l array hash k c : shape strs len l array hash -> 0 <= len -> key_fits k -> located strs len array hash k c ->
  lindexconf (Table array hash) strs k = (p ← pushvalue strs c; Ok (Some p)).
Proof.
  intros (Hlen & _ & (ks & Hinv & Hks) & Hfull) Hl0 Hk Hloc. pose proof (lookup_key_spec strs hash ks Hinv Hfull array k Hk) as Hlk.
  destruct k as [| |z| | |s| | | |]; try done; cbn [search_of] in Hlk; destruct Hlk as (r & Hr & Hres).
  - unfold lindexconf. cbn [key_fits] in Hk. rewrite s32_small by done. unfold sizearray. cbn [tb_array]. rewrite Hlen. cbn [located] in Hloc. cbn [in_array] in Hloc. destruct ((0 <? z) && (z <=? len)).
    + cbn [mbind res_bind]. by rewrite Hloc.
    + cbn [mbind res_bind]. rewrite hash_of_int in Hr. rewrite Hr. cbn [mbind res_bind]. destruct Hloc as (i & n & Hi & Hn & <-). destruct r as [j|]; [|by destruct (Hres i n Hi)].
      destruct Hres as (m & Hj & Hm). assert (j = i) as -> by (eapply (hi_unique _ _ _ _ Hinv); done). assert (m = n) as -> by congruence. unfold get_node. cbn [tb_hash]. rewrite Hi. done.
  - unfold lindexconf. destruct (calchash_ok s Hk) as (h & Hh & _). cbn [hash_of] in Hr. rewrite Hh in Hr |- *. cbn [mbind res_bind]. rewrite Hr. cbn [mbind res_bind]. destruct Hloc as (i & n & Hi & Hn & <-). destruct r as [j|]; [|by destruct (Hres i n Hi)].
    destruct Hres as (m & Hj & Hm). assert (j = i) as -> by (eapply (hi_unique _ _ _ _ Hinv); done). assert (m = n) as -> by congruence. unfold get_node. cbn [tb_hash]. rewrite Hi. done.
Qed.

(** A key that is not in the table. *)
Lemma lindexconf_absent strs len l array hash k : shape strs len l array hash -> key_fits k -> (forall w, (k, w) ∉ l) ->
  lindexconf (Table array hash) strs k = Ok None \/ lindexconf (Table array hash) strs k = Ok (Some (PValue VNil)).
Proof.
  intros (Hlen & Hnil & (ks & Hinv & Hks) & Hfull) Hk Hno. pose proof (lookup_key_spec strs hash ks Hinv Hfull array k Hk) as Hlk.
  assert (forall i n, hash.[i] = Some (Some n) -> ~ node_is strs n k) as Hnode.
  { intros i n Hi Hn. destruct (hi_nodes _ _ _ _ Hinv i n Hi) as (k' & w & Hin & Hk' & _). pose proof (node_is_inj _ _ _ _ Hn Hk'). subst k'. apply Hks in Hin as [_ Hin]. by eapply Hno. }
  destruct k as [| |z| | |s| | | |]; try done; cbn [search_of] in Hlk; destruct Hlk as (r & Hr & Hres).
  - unfold lindexconf. cbn [key_fits] in Hk. rewrite s32_small by done. unfold sizearray. cbn [tb_array]. rewrite Hlen. destruct (Z.ltb_spec 0 z), (Z.leb_spec z len); cbn [andb mbind res_bind];
      [right; rewrite Hnil; [done|lia|by replace (z - 1 + 1) with z by lia]|..]; left; rewrite hash_of_int in Hr; rewrite Hr; (destruct r as [j|]; [destruct Hres as (m & Hj & Hm); by destruct (Hnode j m Hj)|done]).
  - unfold lindexconf. destruct (calchash_ok s Hk) as (h & Hh & _). cbn [hash_of] in Hr. rewrite Hh in Hr |- *. cbn [mbind res_bind]. rewrite Hr. left. destruct r as [j|]; [destruct Hres as (m & Hj & Hm); by destruct (Hnode j m Hj)|done].
Qed.

(** ** The order of [lnextkey] *)

Definition key_of (strs : list (list Z)) (n : node cvalue) : value :=
  if n_keytype n =? KEYTYPE_INTEGER then VInt (n_key n) else VStr (default [] strs.[n_key n - 2]).

Definition hash_keys (strs : list (list Z)) (hash : list (option (node cvalue))) : list value := omap (fun s => key_of strs <$> s) hash.

Fixpoint array_keys (a : list cvalue) (i : Z) : list value :=
  match a with
  | [] => []
  | CNil :: a => array_keys a (i + 1)
  | _ :: a => VInt (i + 1) :: array_keys a (i + 1)
  end.

(** All keys from [k] on, as a service that iterates gets them. *)
Fixpoint keys_from (fuel : nat) (t : table) (strs : list (list Z)) (k : value) : res (list value) :=
  match fuel with
  | O => Ub
  | S fuel =>
      r ← lnextkey t strs k;
      match r with Some k => ks ← keys_from fuel t strs k; Ok (k :: ks) | None => Ok [] end
  end.

Lemma node_is_key strs n k : node_is strs n k -> key_of strs n = k /\ pushkey strs n = Ok k.
Proof.
  intros [_ Hn]. unfold key_of, pushkey, get_string. destruct k as [| |z| | |s| | | |]; try done; destruct Hn as [-> Hn]; unfold KEYTYPE_INTEGER, KEYTYPE_STRING; cbn [Z.eqb].
  - by rewrite Hn.
  - rewrite Hn. by cbn.
Qed.

Lemma next_array_keys a : forall i, match next_array a i with
  | Some z => exists pre c post, a = pre ++ c :: post /\ z = i + zlen pre + 1 /\ c <> CNil /\ array_keys a i = VInt z :: array_keys post z
  | None => array_keys a i = [] end.
Proof.
  induction a as [|c a IH]; intros i; cbn [next_array array_keys]; [done|].
  assert (c = CNil \/ c <> CNil) as [->|Hc] by (destruct c; by (left + right)).
  - specialize (IH (i + 1)). destruct (next_array a (i + 1)) as [z|]; [|done]. destruct IH as (pre & c & post & -> & -> & Hc & Hk). exists (CNil :: pre), c, post. rewrite zlen_cons. split; [done|]. split; [lia|]. split; [done|]. rewrite Hk. repeat f_equal; lia.
  - assert (next_array (c :: a) i = Some (i + 1)) as Hn by (by destruct c). cbn [next_array] in Hn. rewrite Hn. exists [], c, a. split; [done|]. split; [change (zlen []) with 0; lia|]. split; [done|]. by destruct c.
Qed.

Section iterate.
Context (strs : list (list Z)) (len : Z) (l : list (value * value)) (array : list cvalue) (hash : list (option (node cvalue))).
Hypothesis Hshape : shape strs len l array hash.
Hypothesis Hlen : 0 <= len < 2 ^ 31.
Hypothesis Hkeys : Forall (fun kw => key_fits kw.1) l.
#[local] Set Default Proof Using "Type*".

Lemma slot_key i n : hash.[i] = Some (Some n) -> exists w, (key_of strs n, w) ∈ l /\ key_fits (key_of strs n) /\ in_array len (key_of strs n) = false /\ node_is strs n (key_of strs n) /\ pushkey strs n = Ok (key_of strs n).
Proof.
  destruct Hshape as (_ & _ & (ks & Hinv & Hks) & _). intros Hi. destruct (hi_nodes _ _ _ _ Hinv i n Hi) as (k & w & Hin & Hn & _). destruct (node_is_key strs n k Hn) as [E Hp]. rewrite E. exists w.
  apply Hks in Hin as [Ha Hin]. rewrite Forall_forall in Hkeys. pose proof (Hkeys _ Hin). done.
Qed.

Lemma get_slot i : 0 <= i < zlen hash -> exists n, hash.[i] = Some (Some n) /\ get_node (Table array hash) i = Ok n.
Proof.
  destruct Hshape as (_ & _ & _ & Hfull). intros Hi. destruct (aget_is_Some hash i Hi) as [s Hs]. destruct s as [n|]; [|by destruct (Hfull i)]. exists n. split; [done|]. unfold get_node. cbn [tb_hash]. by rewrite Hs.
Qed.

Lemma lnextkey_hash i n : hash.[i] = Some (Some n) ->
  lnextkey (Table array hash) strs (key_of strs n) = if i + 1 =? zlen hash then Ok None else m ← get_node (Table array hash) (i + 1); k ← pushkey strs m; Ok (Some k).
Proof.
  intros Hi. destruct (slot_key i n Hi) as (w & Hin & Hk & Ha & Hn & _). destruct Hshape as (Hz & _ & (ks & Hinv & _) & Hfull). pose proof (lookup_key_spec strs hash ks Hinv Hfull array _ Hk) as Hlk.
  set (k := key_of strs n) in *. assert (forall r, (match r with Some j => exists m, hash.[j] = Some (Some m) /\ node_is strs m k | None => forall j m, hash.[j] = Some (Some m) -> ~ node_is strs m k end) -> r = Some i) as Hr.
  { intros [j|] Hres; [|by destruct (Hres i n Hi)]. destruct Hres as (m & Hj & Hm). f_equal. by eapply (hi_unique _ _ _ _ Hinv). }
  destruct k as [| |z| | |s| | | |]; try done; cbn [search_of] in Hlk; destruct Hlk as (r & E & Hres); apply Hr in Hres; subst r; unfold lnextkey.
  - cbn [key_fits] in Hk. rewrite s32_small by done. unfold sizearray. cbn [tb_array]. rewrite Hz. cbn [in_array] in Ha. rewrite Ha. rewrite hash_of_int in E. rewrite E. done.
  - destruct (calchash_ok s Hk) as (h & Hh & _). cbn [hash_of] in E. rewrite Hh in E |- *. cbn [mbind res_bind]. rewrite E. done.
Qed.

Lemma drop_slot (i : Z) n : 0 <= i -> hash.[i] = Some (Some n) -> drop (Z.to_nat i) hash = Some n :: drop (Z.to_nat (i + 1)) hash.
Proof.
  intros Hi Hs. unfold aget in Hs. rewrite decide_True in Hs by done. rewrite (drop_S hash (Some n)) by done. by replace (Z.to_nat (i + 1)) with (S (Z.to_nat i)) by lia.
Qed.

(** From the key of a slot on. *)
Lemma keys_from_hash m : forall i n fuel, zlen hash - i <= Z.of_nat m -> 0 <= i -> hash.[i] = Some (Some n) -> (m <= fuel)%nat ->
  keys_from fuel (Table array hash) strs (key_of strs n) = Ok (hash_keys strs (drop (Z.to_nat (i + 1)) hash)).
Proof.
  induction m as [|m IH]; intros i n fuel Hm Hi Hs Hf; pose proof (aget_lt_Some _ _ _ Hs) as Hb; [lia|]. destruct fuel as [|fuel]; [lia|]. cbn [keys_from]. rewrite (lnextkey_hash i n Hs).
  destruct (Z.eqb_spec (i + 1) (zlen hash)) as [E|Hne]; cbn [mbind res_bind].
  - rewrite drop_ge by (unfold zlen in E; lia). done.
  - destruct (get_slot (i + 1)) as (n' & Hs' & ->); [lia|]. cbn [mbind res_bind]. destruct (slot_key _ _ Hs') as (w & _ & _ & _ & _ & ->). cbn [mbind res_bind].
    rewrite (IH (i + 1) n' fuel) by (done || lia). cbn [mbind res_bind]. rewrite (drop_slot (i + 1) n') by (done || lia). done.
Qed.

(** From an index of the array on. *)
Lemma keys_from_array m : forall z k fuel, 0 <= z -> zlen array - z <= Z.of_nat m ->
  lnextkey (Table array hash) strs k = match next_array (drop (Z.to_nat z) array) z with Some key => Ok (Some (VInt key)) | None => pushfirsthash (Table array hash) strs end ->
  (m + length hash < fuel)%nat -> keys_from fuel (Table array hash) strs k = Ok (array_keys (drop (Z.to_nat z) array) z ++ hash_keys strs hash).
Proof.
  induction m as [m IH] using lt_wf_ind. intros z k fuel Hz Hm Hk Hf. destruct fuel as [|fuel]; [lia|]. cbn [keys_from]. rewrite Hk. pose proof (next_array_keys (drop (Z.to_nat z) array) z) as Hn.
  destruct (next_array (drop (Z.to_nat z) array) z) as [key|]; cbn [mbind res_bind].
  - destruct Hn as (pre & c & post & Hd & -> & Hc & ->). set (key := z + zlen pre + 1). pose proof (zlen_nonneg pre). pose proof (zlen_nonneg post).
    assert (zlen array = z + zlen pre + 1 + zlen post) as Hza.
    { assert (length (drop (Z.to_nat z) array) = length (pre ++ c :: post)) as El by (by rewrite Hd). rewrite length_drop, length_app in El. cbn in El. unfold zlen in *. lia. }
    assert (drop (Z.to_nat key) array = post) as Hpost.
    { replace (Z.to_nat key) with (Z.to_nat z + S (length pre))%nat by (unfold key, zlen; lia). rewrite <-drop_drop, Hd. change (c :: post) with ([c] ++ post). rewrite app_assoc. replace (S (length pre)) with (length (pre ++ [c])) by (rewrite length_app; cbn; lia). apply drop_app_length. }
    rewrite (IH (Z.to_nat (zlen post)) ltac:(lia) key (VInt key) fuel); [cbn [mbind res_bind]; by rewrite Hpost|lia|lia| |lia].
    unfold lnextkey. destruct Hshape as (Hzl & _). rewrite s32_small by (unfold is_s32, key; lia). unfold sizearray. cbn [tb_array]. destruct (Z.ltb_spec 0 key), (Z.leb_spec key (zlen array)); try lia. done.
  - rewrite Hn. cbn [app]. unfold pushfirsthash, sizehash. cbn [tb_hash]. destruct (Z.eqb_spec (zlen hash) 0) as [E|Hne]; cbn [mbind res_bind]; [by rewrite (zlen_nil_inv _ E)|].
    pose proof (zlen_nonneg hash). destruct (get_slot 0) as (n & Hs & ->); [lia|]. cbn [mbind res_bind]. destruct (slot_key _ _ Hs) as (w & _ & _ & _ & _ & ->). cbn [mbind res_bind].
    rewrite (keys_from_hash (length hash) 0 n fuel) by (done || (unfold zlen; lia)). cbn [mbind res_bind]. pose proof (drop_slot 0 n ltac:(lia) Hs) as Hd. change (Z.to_nat 0) with 0%nat in Hd. rewrite drop_0 in Hd. rewrite Hd at 2. done.
Qed.

Lemma array_keys_elem a : forall i k, k ∈ array_keys a i <-> exists j c, k = VInt (i + j + 1) /\ a.[j] = Some c /\ c <> CNil.
Proof using Type.
  clear Hshape Hlen Hkeys.
  induction a as [|c a IH]; intros i k; cbn [array_keys].
  - split; [by intros ?%elem_of_nil|]. intros (j & c & _ & Hj & _). pose proof (aget_lt_Some _ _ _ Hj). unfold zlen in *. cbn in *. lia.
  - assert (k ∈ array_keys a (i + 1) <-> exists j c', k = VInt (i + j + 1) /\ 0 < j /\ (c :: a).[j] = Some c' /\ c' <> CNil) as Ht.
    { rewrite IH. split; intros (j & c' & -> & H).
      - destruct H as [Hj Hc]. pose proof (aget_lt_Some _ _ _ Hj). exists (j + 1), c'. split; [f_equal; lia|]. split; [lia|]. rewrite aget_cons_S by lia. by replace (j + 1 - 1) with j by lia.
      - destruct H as (Hj0 & Hj & Hc). rewrite aget_cons_S in Hj by lia. exists (j - 1), c'. split; [f_equal; lia|done]. }
    assert ((exists j c', k = VInt (i + j + 1) /\ (c :: a).[j] = Some c' /\ c' <> CNil) <-> (k = VInt (i + 1) /\ c <> CNil) \/ k ∈ array_keys a (i + 1)) as ->.
    { rewrite Ht. split.
      - intros (j & c' & -> & Hj & Hc). pose proof (aget_lt_Some _ _ _ Hj). destruct (decide (j = 0)) as [->|]; [left; rewrite aget_cons_0 in Hj; injection Hj as ->; split; [f_equal; lia|done]|right]. exists j, c'. split; [done|]. split; [lia|done].
      - intros [[-> Hc]|(j & c' & -> & _ & H)]; [exists 0, c; split; [f_equal; lia|by rewrite aget_cons_0]|by exists j, c']. }
    destruct c; try (rewrite elem_of_cons; naive_solver). naive_solver.
Qed.

Lemma array_keys_NoDup a : forall i, NoDup (array_keys a i).
Proof using Type.
  clear Hshape Hlen Hkeys.
  induction a as [|c a IH]; intros i; cbn [array_keys]; [constructor|]. assert (VInt (i + 1) ∉ array_keys a (i + 1)) as Hni.
  { intros (j & c' & [= E] & Hj & _)%array_keys_elem. pose proof (aget_lt_Some _ _ _ Hj). lia. }
  destruct c; try (apply NoDup_cons; by split). apply IH.
Qed.

Lemma hash_keys_elem k : k ∈ hash_keys strs hash <-> exists i n, hash.[i] = Some (Some n) /\ k = key_of strs n.
Proof using Type.
  clear Hshape Hlen Hkeys.
  unfold hash_keys. rewrite list_elem_of_omap. split.
  - intros (s & (i & Hi)%list_elem_of_lookup & Hs). destruct s as [n|]; [|done]. injection Hs as <-. exists (Z.of_nat i), n. by rewrite aget_nat.
  - intros (i & n & Hi & ->). exists (Some n). split; [|done]. unfold aget in Hi. case_decide; [|done]. by eapply list_elem_of_lookup_2.
Qed.

Lemma hash_keys_NoDup : NoDup (hash_keys strs hash).
Proof.
  destruct Hshape as (_ & _ & (ks & Hinv & _) & _). assert (forall i n j m, hash.[i] = Some (Some n) -> hash.[j] = Some (Some m) -> key_of strs n = key_of strs m -> i = j) as Hu.
  { intros i n j m Hi Hj E. destruct (slot_key i n Hi) as (_ & _ & _ & _ & Hn & _), (slot_key j m Hj) as (_ & _ & _ & _ & Hm & _). rewrite <-E in Hm. by eapply (hi_unique _ _ _ _ Hinv). }
  clear -Hu. revert Hu. induction hash as [|s h IH]; intros Hu; [constructor|]. assert (NoDup (hash_keys strs h)) as Hnd.
  { apply IH. intros i n j m Hi Hj E. pose proof (aget_lt_Some _ _ _ Hi). pose proof (aget_lt_Some _ _ _ Hj). enough (i + 1 = j + 1) by lia.
    eapply (Hu (i + 1) n (j + 1) m); [rewrite aget_cons_S by lia; by replace (i + 1 - 1) with i by lia|rewrite aget_cons_S by lia; by replace (j + 1 - 1) with j by lia|done]. }
  destruct s as [n|]; [|done]. change (NoDup (key_of strs n :: hash_keys strs h)). apply NoDup_cons. split; [|done]. unfold hash_keys. rewrite list_elem_of_omap. intros (s & (j & Hj)%list_elem_of_lookup & Hs).
  destruct s as [m|]; [|done]. injection Hs as Hs. enough (0 = Z.of_nat (S j)) by lia. eapply (Hu 0 n (Z.of_nat (S j)) m); [done|by rewrite aget_nat|done].
Qed.
End iterate.

(** ** What a service reads *)

(** A key as [lindexconf] takes it: of an integer the low 32 bits. *)
Definition key_of_index (k : value) : value := match k with VInt z => VInt (s32 z) | _ => k end.

(** Integers of 64 bits, and strings. *)
Definition index_ok (k : value) : Prop := match k with VInt _ => True | VStr s => is_bytes s | _ => False end.

Lemma lindexconf_key t strs k : lindexconf t strs (key_of_index k) = lindexconf t strs k.
Proof. destruct k; try done. cbn [key_of_index]. unfold lindexconf. by rewrite (s32_small (s32 _)) by apply s32_bound. Qed.

Lemma key_of_index_fits k : index_ok k -> key_fits (key_of_index k).
Proof. destruct k; try done. intros _. apply s32_bound. Qed.

(** [p] reads as [v]: a scalar is itself; of a table, a key gives the value of the key that
    the code takes it for, or nothing, and [lnextkey] goes through all keys once. *)
Fixpoint reads (d : nat) (strs : list (list Z)) (v : value) (p : pushed) : Prop :=
  match v with
  | VTable len l =>
      match d with
      | O => False
      | S d => exists t, p = PTable t /\ llen t = len /\
          Forall (fun kw => forall k, key_of_index k = kw.1 -> exists p, lindexconf t strs k = Ok (Some p) /\ reads d strs kw.2 p) l /\
          (forall k, index_ok k -> (forall w, (key_of_index k, w) ∉ l) ->
             lindexconf t strs k = Ok None \/ lindexconf t strs k = Ok (Some (PValue VNil))) /\
          exists keys, keys_from (S (length l)) t strs VNil = Ok keys /\ Permutation keys (map fst l)
      end
  | _ => p = PValue v
  end.

Lemma rep_not_nil d strs v c : rep d strs v c -> c <> CNil.
Proof. destruct v; cbn; destruct d; try done; intros H ->; try done; try (by destruct H as (i & ? & _)); by destruct H as (a & h & ? & _). Qed.

Lemma entry_dec l z : distinct_keys l -> (forall kw, kw ∈ l -> kw.2 <> VNil) -> (exists w, (VInt z, w) ∈ l) \/ (forall w, (VInt z, w) ∉ l).
Proof.
  intros Hd Hv. pose proof (lua_rawgeti_spec l z Hd) as H. destruct (lua_rawgeti l z) eqn:E; try (left; by eexists). right. intros w Hw. apply (Hv _ Hw). cbn. by apply H.
Qed.

(** The keys of the iteration are those of the table. *)
Lemma keys_all d strs len l array hash : 0 <= len < 2 ^ 31 -> Forall (fun kw => key_fits kw.1) l -> distinct_keys l -> shape strs len l array hash ->
  Forall (fun kw => exists c, located strs len array hash kw.1 c /\ rep d strs kw.2 c) l ->
  exists keys, keys_from (S (length l)) (Table array hash) strs VNil = Ok keys /\ Permutation keys (map fst l).
Proof.
  intros Hlen Hkeys Hdist Hshape Hloc. set (keys := array_keys array 0 ++ hash_keys strs hash). pose proof (slot_key strs len l array hash Hshape Hlen Hkeys) as Hslot.
  assert (Permutation keys (map fst l)) as Hperm.
  { apply NoDup_Permutation.
    - apply NoDup_app. split; [apply array_keys_NoDup|]. split; [|by eapply hash_keys_NoDup]. intros k (j & c & -> & Hj & _)%array_keys_elem (i & n & Hi & E)%hash_keys_elem.
      destruct (Hslot i n Hi) as (_ & _ & _ & Ha & _). rewrite <-E in Ha. pose proof (aget_lt_Some _ _ _ Hj). destruct Hshape as (Hz & _). cbn in Ha. lia.
    - apply (NoDup_fmap_2_strong fst); [|by apply distinct_NoDup]. intros [k w] [k' w'] Hin Hin' E. cbn [fst] in E. subst k'. rewrite Forall_forall in Hkeys. f_equal. exact (distinct_key_eq l k w w' Hdist (Hkeys _ Hin) Hin Hin').
    - intros k. unfold keys. rewrite elem_of_app, array_keys_elem, hash_keys_elem, list_elem_of_fmap. split.
      + intros [(j & c & -> & Hj & Hc)|(i & n & Hi & ->)]; [|destruct (Hslot i n Hi) as (w & Hin & _); by exists (key_of strs n, w)].
        pose proof (aget_lt_Some _ _ _ Hj). destruct Hshape as (Hz & Hn & _). destruct (entry_dec l (j + 1) Hdist) as [[w Hw]|Hw].
        * rewrite Forall_forall in Hloc. intros kw Hkw E. destruct (Hloc _ Hkw) as (c' & _ & Hr). rewrite E in Hr. by destruct d.
        * exists (VInt (j + 1), w). split; [cbn; f_equal; lia|done].
        * exfalso. apply Hc. assert (array.[j] = Some CNil); [|congruence]. apply Hn; [lia|done].
      + intros ([k' w] & -> & Hin). cbn [fst]. rewrite Forall_forall in Hloc, Hkeys. destruct (Hloc _ Hin) as (c & Hl & Hr). cbn [fst snd] in *. pose proof (Hkeys _ Hin) as Hk. cbn [fst] in Hk.
        assert ((exists i n, hash.[i] = Some (Some n) /\ node_is strs n k' /\ n_v n = c) -> exists i n, hash.[i] = Some (Some n) /\ k' = key_of strs n) as Hh by (intros (i & n & Hi & Hn & _); exists i, n; split; [done|]; symmetry; by apply node_is_key).
        destruct k' as [| |z| | |s| | | |]; try done; [|right; by apply Hh]. cbn [located in_array] in Hl. destruct ((0 <? z) && (z <=? len)); [left; exists (z - 1), c; split; [f_equal; lia|split; [done|by eapply rep_not_nil]]|right; by apply Hh]. }
  exists keys. split; [|done]. assert (length keys = length l) as Hlk by (rewrite Hperm; apply length_map).
  assert (length hash = length (hash_keys strs hash)) as Hhk.
  { destruct Hshape as (_ & _ & _ & Hfull). unfold hash_keys. clear -Hfull. induction hash as [|s h IH]; [done|]. destruct s as [n|]; [|by destruct (Hfull 0)]. cbn. f_equal. apply IH. intros i Hi. pose proof (aget_lt_Some _ _ _ Hi). apply (Hfull (i + 1)). rewrite aget_cons_S by lia. by replace (i + 1 - 1) with i by lia. }
  pose proof (keys_from_array strs len l array hash Hshape Hlen Hkeys (length array) 0 VNil) as Hkf. change (Z.to_nat 0) with 0%nat in Hkf. rewrite drop_0 in Hkf.
  assert (keys_from (S (length array + length hash)) (Table array hash) strs VNil = Ok keys) as Hbig by (apply Hkf; [lia|unfold zlen; lia|done|lia]).
  assert (forall ks fuel k, keys_from fuel (Table array hash) strs k = Ok ks -> keys_from (S (length ks)) (Table array hash) strs k = Ok ks) as Hfuel.
  { clear. induction ks as [|k' ks IH]; intros fuel k H; (destruct fuel as [|fuel]; [done|]); cbn [keys_from length] in H |- *; destruct (lnextkey _ _ k) as [[k1|]| |]; try done; cbn [mbind res_bind] in *.
    - destruct (keys_from fuel _ _ k1) as [ks1| |]; [|done..]. done.
    - destruct (keys_from fuel _ _ k1) as [ks1| |] eqn:E; try done. cbn [mbind res_bind] in H. injection H as -> ->. apply IH in E. cbn [keys_from] in E. by rewrite E. }
  rewrite <-Hlk. by eapply Hfuel.
Qed.

Lemma rep_reads d strs : forall v c, fits d v -> rep d strs v c -> exists p, pushvalue strs c = Ok p /\ reads d strs v p.
Proof.
  induction d as [|d IH]; intros v c Hf Hr; (destruct v as [|b|z|bits| |s|len l| | |]; try done; cbn [rep] in Hr; try (subst c; eexists; by split); try (destruct Hr as (i & -> & Hs); cbn [pushvalue]; unfold get_string; rewrite Hs; eexists; by split)).
  cbn [fits] in Hf. destruct Hf as (Hlen & Hsize & Hdist & Hl). assert (Forall (fun kw => key_fits kw.1) l) as Hkeys by (eapply Forall_impl; [exact Hl|]; by intros kw [? _]).
  destruct Hr as (array & hash & -> & Hshape & Hloc). exists (PTable (Table array hash)). split; [done|]. cbn [reads]. exists (Table array hash). split; [done|]. split; [by destruct Hshape|]. split; [|split].
  - rewrite Forall_forall in *. intros [k w] Hin. destruct (Hloc _ Hin) as (c & Hc & Hr), (Hl _ Hin) as [Hk Hw]. cbn [fst snd] in *. destruct (IH w c Hw Hr) as (p & Hp & Hrd). intros k' <-. exists p. split; [|done].
    rewrite <-lindexconf_key, (lindexconf_located strs len l array hash _ c) by (done || lia). by rewrite Hp.
  - intros k Hk Hno. rewrite <-lindexconf_key. eapply lindexconf_absent; [done | by apply key_of_index_fits | done].
  - by eapply keys_all.
Qed.

(** ** The strings of a table *)

(** A key that is neither a number nor a string is taken for the empty string. *)
Definition key_strings (k : value) : list (list Z) :=
  match k with VStr s => [s] | VInt _ | VReal _ => [] | _ => [[]] end.

Fixpoint strings_of (v : value) : list (list Z) :=
  match v with
  | VStr s => [s]
  | VTable _ l => flat_map (fun '(k, w) => key_strings k ++ strings_of w) l
  | _ => []
  end.

Lemma elem_strings len l s : s ∈ strings_of (VTable len l) <->
  exists k w, (k, w) ∈ l /\ (s ∈ key_strings k \/ s ∈ strings_of w).
Proof.
  cbn [strings_of]. rewrite list_elem_of_In, in_flat_map. split.
  - intros ([k w] & Hin & Hs). rewrite <-list_elem_of_In in Hin. rewrite <-list_elem_of_In, elem_of_app in Hs. by exists k, w.
  - intros (k & w & Hin & Hs). exists (k, w). by rewrite <-!list_elem_of_In, elem_of_app.
Qed.

(** [Q] of the result, if there is one. *)
Definition gives {A} (Q : A -> Prop) (r : res A) : Prop := match r with Ok x => Q x | _ => True end.

Lemma gives_bind {A B} (Q : A -> Prop) (Q' : B -> Prop) (r : res A) (f : A -> res B) :
  gives Q r -> (forall x, Q x -> gives Q' (f x)) -> gives Q' (r ≫= f).
Proof. destruct r as [x| |]; cbn; auto. Qed.

Lemma gives_lift {A B} (Q : B -> Prop) (o : option A) (f : A -> res B) : (forall x, gives Q (f x)) -> gives Q (lift o ≫= f).
Proof. destruct o; cbn; auto. Qed.

Lemma lua_rawgeti_elem l i : lua_rawgeti l i = VNil \/ exists k, (k, lua_rawgeti l i) ∈ l.
Proof.
  induction l as [|[k v] l IH]; cbn [lua_rawgeti]; [by left|]. destruct (raw_equal (VInt i) k); [right; exists k; by left|].
  destruct IH as [|[k' IH]]; [by left|right]. exists k'. by right.
Qed.

Section strings.
Context (P : list Z -> Prop).

Definition kept {A} (r : res (A * list (list Z))) : Prop := gives (fun r => Forall P r.2) r.
Definition all_P (kw : value * value) : Prop := Forall P (key_strings kw.1) /\ Forall P (strings_of kw.2).

Lemma stringindex_strings strs s : Forall P strs -> P s -> Forall P (stringindex strs s).2.
Proof.
  intros Hs HP. unfold stringindex. destruct (string_find strs s 2); [done|]. apply Forall_app. split; [done|]. by apply Forall_singleton.
Qed.

Lemma ishashkey_strings strs n k : Forall P strs -> Forall P (key_strings k) -> kept (ishashkey strs n k).
Proof.
  intros Hs Hk. assert (forall s, P s -> kept (keyhash ← calchash s; let '(key, strs) := stringindex strs s in
      Ok (inr (key, keyhash, KEYTYPE_STRING) : Z + Z * Z * Z, strs))) as Hstr.
  { intros s Hp. apply (gives_bind (fun _ => True)); [by destruct (calchash s)|]. intros h _.
    pose proof (stringindex_strings strs s Hs Hp) as H. by destruct (stringindex strs s). }
  unfold ishashkey. destruct k; cbn [key_strings] in Hk; try exact (Hstr _ (Forall_inv Hk)); cbv zeta; by destruct (_ && _).
Qed.

Section fill.
Context (convert : list (list Z) -> value -> res (cvalue * list (list Z))).
Hypothesis Hconv : forall strs v, Forall P strs -> Forall P (strings_of v) -> kept (convert strs v).

Lemma setarray_strings t strs v key : Forall P strs -> Forall P (strings_of v) -> kept (setarray convert t strs v key).
Proof using Hconv.
  intros Hs Hv. eapply gives_bind; [by apply Hconv|]. intros [c strs'] Hs'. by apply gives_lift.
Qed.

Lemma fillnocolliding_strings l : forall t strs, Forall all_P l -> Forall P strs -> kept (fillnocolliding convert l t strs).
Proof using Hconv.
  induction l as [|[k v] l IH]; intros t strs Hl Hs; cbn [fillnocolliding]; [done|]. apply Forall_cons in Hl as [[Hk Hv] Hl].
  eapply gives_bind; [by apply ishashkey_strings|]. intros [r strs1] Hs1. cbn [snd] in Hs1.
  eapply (gives_bind (fun r => Forall P r.2)); [|intros [t2 strs2] Hs2; by apply IH].
  destruct r as [key|[[key kh] kt]]; [by apply setarray_strings|]. apply gives_lift. intros [m|]; [done|].
  eapply gives_bind; [by apply Hconv|]. intros [c strs2] Hs2. by apply gives_lift.
Qed.

Lemma fillcolliding_strings l : forall t strs, Forall all_P l -> Forall P strs -> kept (fillcolliding convert l t strs).
Proof using Hconv.
  induction l as [|[k v] l IH]; intros t strs Hl Hs; cbn [fillcolliding]; [done|]. apply Forall_cons in Hl as [[Hk Hv] Hl].
  eapply gives_bind; [by apply ishashkey_strings|]. intros [r strs1] Hs1. cbn [snd] in Hs1.
  eapply (gives_bind (fun r => Forall P r.2)); [|intros [t2 strs2] Hs2; by apply IH].
  destruct r as [key|[[key kh] kt]]; [done|]. do 2 (apply gives_lift; intros ?). destruct (_ && _); [done|].
  do 2 (apply gives_lift; intros ?). eapply gives_bind; [by apply Hconv|]. intros [c strs2] Hs2. by apply gives_lift.
Qed.

Lemma fillarray_strings n : forall i l t strs, Forall all_P l -> Forall P strs -> kept (fillarray convert n i l t strs).
Proof using Hconv.
  induction n as [|n IH]; intros i l t strs Hl Hs; cbn [fillarray]; [done|].
  eapply gives_bind; [apply setarray_strings; [done|]|intros [t2 strs2] Hs2; by apply IH].
  destruct (lua_rawgeti_elem l i) as [->|[k Hk]]; [done|]. rewrite Forall_forall in Hl. by destruct (Hl _ Hk).
Qed.
End fill.

(** No other strings than those of the table are kept. *)
Lemma convtable_strings ccalls : forall len l strs, Forall P strs -> Forall P (strings_of (VTable len l)) ->
  kept (convtable ccalls len l strs).
Proof.
  induction ccalls as [|ccalls IH]; intros len l strs Hs Hl; cbn [convtable]; [done|].
  assert (forall strs v, Forall P strs -> Forall P (strings_of v) -> kept (setvalue (convtable ccalls) strs v)) as Hconv.
  { intros strs' v Hs' Hv. destruct v; cbn [setvalue]; try done.
    - apply Forall_inv in Hv. pose proof (stringindex_strings strs' s Hs' Hv) as H. by destruct (stringindex strs' s).
    - eapply gives_bind; [by apply IH|]. by intros [t strs2]. }
  assert (Forall all_P l) as Hall.
  { apply Forall_forall. intros [k w] Hin. split; apply Forall_forall; intros s Hx;
      apply (proj1 (Forall_forall _ _) Hl), elem_strings; exists k, w; auto. }
  apply (gives_bind (fun _ => True)); [by destruct (countsize l len 0)|]. intros n _. destruct (negb _).
  - eapply gives_bind; [by apply fillnocolliding_strings|]. intros [t strs2] Hs2. by apply fillcolliding_strings.
  - by apply fillarray_strings.
Qed.
End strings.

(** All strings of the table are kept. *)
Lemma rep_strings d strs : forall v c s, fits d v -> rep d strs v c -> s ∈ strings_of v -> s ∈ strs.
Proof.
  assert (forall i s, strs.[i] = Some s -> s ∈ strs) as Hget.
  { intros i s H. unfold aget in H. case_decide; [|done]. by eapply list_elem_of_lookup_2. }
  induction d as [|d IH]; intros v c s Hf Hr Hs; (destruct v as [|b|z|bits| |s'|len l| | |]; try done; cbn [rep] in Hr;
    try (by apply elem_of_nil in Hs);
    try (apply list_elem_of_singleton in Hs as ->; destruct Hr as (i & _ & Hi); by eapply Hget)).
  cbn [fits] in Hf. destruct Hf as (_ & _ & _ & Hl), Hr as (array & hash & _ & _ & Hloc). rewrite Forall_forall in Hl, Hloc.
  apply elem_strings in Hs as (k & w & Hin & Hs). destruct (Hl _ Hin) as [Hk Hw], (Hloc _ Hin) as (c' & Hc & Hrep). cbn [fst snd] in *.
  destruct Hs as [Hs|Hs]; [|by eapply IH]. destruct k; try done; [by apply elem_of_nil in Hs|].
  apply list_elem_of_singleton in Hs as ->. destruct Hc as (i & n & _ & [_ [_ Hn]] & _). by eapply Hget.
Qed.

(** C15: what the services read of a shared table is the table.  A table whose keys are
    strings and integers of 32 bits and whose values are numbers, strings, booleans and such
    tables, nested not deeper than Lua lets C functions call each other, is converted; its
    strings, each once, are those of the result, and [lnewconf] fails exactly if they are too
    many for a Lua stack.  Then [lindexconf] of a string or an integer gives the value of the
    key that it is taken for (an integer is cut to 32 bits), in the nested tables too, and
    nothing if there is no such key; and [lnextkey] from nil goes through every key exactly
    once and ends, although keys with the same slot are chained through the other slots. *)
Theorem sharedata_reads d ccalls len l : (d <= ccalls)%nat -> fits d (VTable len l) ->
  exists t strs, convtable ccalls len l [] = Ok (t, strs) /\
    lnewconf ccalls len l = (if zlen strs <=? 999988 then Ok (t, strs) else Err "stack overflow") /\
    NoDup strs /\ (forall s, s ∈ strs <-> s ∈ strings_of (VTable len l)) /\
    reads d strs (VTable len l) (PTable t).
Proof.
  intros Hd Hf. destruct (convtable_spec d ccalls len l Hd Hf [] ltac:(constructor)) as (t & strs & E & _ & Hnd & Hr).
  exists t, strs. split; [exact E|]. split; [|split; [done|split]].
  - unfold lnewconf, pconv. rewrite E. cbn [mbind res_bind]. unfold lua_checkstack, LUAI_MAXSTACK, EXTRA_STACK.
    by destruct (Z.leb_spec (zlen strs) 999988), (Z.leb_spec (3 + 5) (1000000 - (zlen strs + 1 + 3))); try lia.
  - intros s. split.
    + pose proof (convtable_strings (fun s => s ∈ strings_of (VTable len l)) ccalls len l [] ltac:(constructor)) as H.
      rewrite E in H. intros Hs. refine (proj1 (Forall_forall _ _) (H _) s Hs). by apply Forall_forall.
    + intros Hs. eapply (rep_strings d); [exact Hf | by apply Hr | done].
  - destruct (rep_reads d strs _ _ Hf (Hr strs ltac:(done) Hnd)) as (p & Hp & Hrd). destruct t as [a h]. cbn in Hp. by injection Hp as <-.
Qed.

(** Two values of an array, three keys in a hash of three slots (7 and 10 have the same
    slot), and a nested table. *)
Definition example_table : list (value * value) :=
  [(VInt 1, VInt 11); (VInt 2, VBool true); (VInt 7, VStr [65; 66]); (VInt 10, VReal 4607182418800017408); (VStr [107], VTable 0 [(VStr [65; 66], VInt 5); (VInt (-1), VInt 6)])].

Lemma sharedata_reads_witness : exists t strs, lnewconf 200 2 example_table = Ok (t, strs) /\ lindexconf t strs (VInt 10) = Ok (Some (PValue (VReal 4607182418800017408))).
Proof.
  assert (key_fits (VStr [107]) /\ key_fits (VStr [65; 66])) as [H1 H2] by (split; repeat constructor; intros [=]).
  assert (forall z, -100 <= z <= 100 -> key_fits (VInt z)) as Hz by (intros z Hz; cbn [key_fits]; unfold is_s32; lia).
  assert (fits 1 (VTable 0 [(VStr [65; 66], VInt 5); (VInt (-1), VInt 6)])) as Hn.
  { split; [lia|]. split; [reflexivity|]. split; [apply distinct_keysb_ok; vm_compute; reflexivity|]. apply Forall_cons. split; [by split|]. apply Forall_singleton. split; [apply Hz; cbn; lia|exact I]. }
  destruct (sharedata_reads 2 200 2 example_table) as (t & strs & E & Hn' & Hnd & _ & Hr).
  - lia.
  - split; [lia|]. split; [reflexivity|]. split; [apply distinct_keysb_ok; vm_compute; reflexivity|].
    do 4 (apply Forall_cons; split; [split; [apply Hz; cbn; lia|exact I]|]). apply Forall_singleton. by split.
  - assert ((zlen strs <=? 999988) = true) as Hsm by (vm_compute in E; injection E as <- <-; reflexivity). rewrite Hsm in Hn'.
    exists t, strs. split; [exact Hn'|]. destruct Hr as (t' & [= <-] & _ & Hl & _). unfold example_table in Hl. do 3 (apply Forall_cons in Hl as [_ Hl]). apply Forall_cons in Hl as [Hp _].
    cbn [fst snd] in Hp. destruct (Hp (VInt 10) eq_refl) as (p & Hp' & Hrp). cbn in Hrp. subst p. exact Hp'.
Defined.

(** ** Keys that are not 32-bit integers or strings *)

(** The key 2^32 + 1 is counted as one of the hash but stored in the array, over the value
    of the key 1; the slot that was counted for it is never set, and a lookup reads it. *)
Lemma key_truncated : exists t strs, lnewconf 200 1 [(VInt 1, VInt 10); (VInt (2 ^ 32 + 1), VInt 20)] = Ok (t, strs) /\
  lindexconf t strs (VInt 1) = Ok (Some (PValue (VInt 20))) /\ lindexconf t strs (VInt 2) = Ub.
Proof. eexists _, _. split; [vm_compute; reflexivity|]. by split. Qed.

(** A table as a key becomes the empty string. *)
Lemma key_table : exists t strs, lnewconf 200 0 [(VTable 0 [], VInt 10)] = Ok (t, strs) /\ lindexconf t strs (VStr []) = Ok (Some (PValue (VInt 10))).
Proof. eexists _, _. split; [vm_compute; reflexivity|]. by vm_compute. Qed.
