(* ===== verification/LuaSocket.v ===== *)
(** lib/socket/lua-socket.c: the buffers of the bytes that a Lua service has received.

    A [buffer_node] is a node of the chunks that the pool table of the VM keeps (entries
    [2], [3], ..); a pointer to a node is its index when the chunks are laid out one after
    the other.  Entry [1] of the table is the list of free nodes.  The messages are blocks
    of [uboss_malloc], the socket buffers userdata of the VM.  [Ub] is a failed assertion,
    a null dereference, an access outside a block, the second [uboss_free] of a block or a
    signed overflow. *)
From Stdlib Require Import String.
From S2P Require Import Prelude Bytes CStr.
Open Scope Z_scope.

Definition LARGE_PAGE_NODE : Z := 12.

Record buffer_node := BufferNode {
  bn_msg : option Z;    (* block *)
  bn_sz : Z;
  bn_next : option Z
}.

Record socket_buffer := SocketBuffer {
  sb_size : Z;
  sb_offset : Z;
  sb_head : option Z;
  sb_tail : option Z
}.

(** The pool table, its chunks as (first node, number of nodes), and the blocks. *)
Record pool := Pool {
  p_free : option Z;
  p_chunks : list (Z * Z);
  p_nodes : list buffer_node;
  p_heap : gmap Z (list Z)
}.

Definition with_free (p : pool) (f : option Z) : pool := Pool f (p_chunks p) (p_nodes p) (p_heap p).
Definition with_nodes (p : pool) (nodes : list buffer_node) : pool :=
  Pool (p_free p) (p_chunks p) nodes (p_heap p).
Definition with_heap (p : pool) (heap : gmap Z (list Z)) : pool :=
  Pool (p_free p) (p_chunks p) (p_nodes p) heap.

Definition sb_with_size (sb : socket_buffer) (size : Z) : socket_buffer :=
  SocketBuffer size (sb_offset sb) (sb_head sb) (sb_tail sb).
Definition sb_with_offset (sb : socket_buffer) (offset : Z) : socket_buffer :=
  SocketBuffer (sb_size sb) offset (sb_head sb) (sb_tail sb).

(** [uboss_free]; a null pointer is allowed. *)
Definition uboss_free (heap : gmap Z (list Z)) (b : option Z) : res (gmap Z (list Z)) :=
  match b with
  | None => Ok heap
  | Some b => match heap !! b with Some _ => Ok (delete b heap) | None => Ub end
  end.

(** The [n] bytes from [off] on of a node's message. *)
Definition node_bytes (p : pool) (nd : buffer_node) (off n : Z) : res (list Z) :=
  b ← lift (bn_msg nd);
  d ← lift (p_heap p !! b);
  lift (slice d off n).

(** ** The pool *)

(** The loop of [lfreepool] over the nodes [xs] of a chunk. *)
Fixpoint lfreepool_loop (xs : list Z) (p : pool) : res pool :=
  match xs with
  | [] => Ok p
  | i :: xs =>
      node ← lift ((p_nodes p).[i]);
      p ← match bn_msg node with
          | Some _ =>
              heap ← uboss_free (p_heap p) (bn_msg node);
              nodes ← lift ((p_nodes p).[i := BufferNode None (bn_sz node) (bn_next node)]);
              Ok (with_nodes (with_heap p heap) nodes)
          | None => Ok p
          end;
      lfreepool_loop xs p
  end.

(** [lfreepool], the [__gc] of a chunk. *)
Definition lfreepool (chunk : Z * Z) (p : pool) : res pool :=
  lfreepool_loop (seqZ chunk.1 chunk.2) p.

(** [lnewpool]: the nodes of a chunk that starts at the node [base]. *)
Definition lnewpool (base sz : Z) : list buffer_node :=
  map (fun i => BufferNode None 0 (if i =? sz - 1 then None else Some (base + i + 1))) (seqZ 0 sz).

(** [lnewbuffer]. *)
Definition lnewbuffer : socket_buffer := SocketBuffer 0 0 None None.

(** [lua_rawlen] of the pool table. *)
Definition pool_rawlen (p : pool) : Z :=
  match p_chunks p with [] => 0 | _ => 1 + zlen (p_chunks p) end.

Definition chunk_size (tsz : Z) : Z :=
  if tsz <=? LARGE_PAGE_NODE - 3 then Z.shiftl 8 tsz else Z.shiftl 8 (LARGE_PAGE_NODE - 3).

(** The node that [lpushbuffer] takes: the first free one, or the first of a new chunk. *)
Definition get_free_node (p : pool) : Z * pool :=
  match p_free p with
  | Some free_node => (free_node, p)
  | None =>
      let tsz := pool_rawlen p in
      let tsz := if tsz =? 0 then tsz + 1 else tsz in
      let size := chunk_size tsz in
      let base := zlen (p_nodes p) in
      (base, Pool None (p_chunks p ++ [(base, size)]) (p_nodes p ++ lnewpool base size) (p_heap p))
  end.

(** [lpushbuffer]: the new size of the buffer. *)
Definition lpushbuffer (sb : socket_buffer) (p : pool) (msg : option Z) (sz : Z)
    : res (Z * socket_buffer * pool) :=
  match msg with
  | None => Err "need message block at param 3"
  | Some m =>
      let sz := s32 sz in
      let '(free_node, p) := get_free_node p in
      nd ← lift ((p_nodes p).[free_node]);
      let p := with_free p (bn_next nd) in
      nodes ← lift ((p_nodes p).[free_node := BufferNode (Some m) sz None]);
      '(head, tail, nodes) ←
        match sb_head sb with
        | None =>
            _ ← lift (cassert (bool_decide (sb_tail sb = None)));
            Ok (Some free_node, Some free_node, nodes)
        | Some h =>
            t ← lift (sb_tail sb);
            tl ← lift (nodes.[t]);
            nodes ← lift (nodes.[t := BufferNode (bn_msg tl) (bn_sz tl) (Some free_node)]);
            Ok (Some h, Some free_node, nodes)
        end;
      let size := sb_size sb + sz in
      _ ← lift (cassert (bool_decide (is_s32 size)));
      Ok (size, SocketBuffer size (sb_offset sb) head tail, with_nodes p nodes)
  end.

(** [return_free_node]. *)
Definition return_free_node (sb : socket_buffer) (p : pool) : res (socket_buffer * pool) :=
  free_node ← lift (sb_head sb);
  nd ← lift ((p_nodes p).[free_node]);
  let sb := SocketBuffer (sb_size sb) 0 (bn_next nd)
              (match bn_next nd with None => None | Some _ => sb_tail sb end) in
  heap ← uboss_free (p_heap p) (bn_msg nd);
  nodes ← lift ((p_nodes p).[free_node := BufferNode None 0 (p_free p)]);
  Ok (sb, Pool (Some free_node) (p_chunks p) nodes heap).

(** ** Reading *)

(** The loop of [pop_lstring]: the bytes that it adds to the [luaL_Buffer]; every turn but
    the last frees a node. *)
Fixpoint pop_lstring_loop (fuel : nat) (sb : socket_buffer) (p : pool) (sz skip : Z)
    : res (list Z * socket_buffer * pool) :=
  match fuel with
  | O => Ub
  | S fuel =>
      h ← lift (sb_head sb);
      current ← lift ((p_nodes p).[h]);
      let bytes := bn_sz current - sb_offset sb in
      if sz <=? bytes then
        s ← (if skip <? sz then node_bytes p current (sb_offset sb) (sz - skip) else Ok []);
        let sb := sb_with_offset sb (sb_offset sb + sz) in
        '(sb, p) ← (if bytes =? sz then return_free_node sb p else Ok (sb, p));
        Ok (s, sb, p)
      else
        let real_sz := sz - skip in
        s ← (if 0 <? real_sz then
               node_bytes p current (sb_offset sb) (if real_sz <? bytes then real_sz else bytes)
             else Ok []);
        '(sb, p) ← return_free_node sb p;
        if sz - bytes =? 0 then Ok (s, sb, p) else
        '(s', sb, p) ← pop_lstring_loop fuel sb p (sz - bytes) skip;
        Ok (s ++ s', sb, p)
  end.

(** [pop_lstring]: the string of the first [sz - skip] bytes; [sz] bytes are consumed. *)
Definition pop_lstring (sb : socket_buffer) (p : pool) (sz skip : Z)
    : res (list Z * socket_buffer * pool) :=
  h ← lift (sb_head sb);
  current ← lift ((p_nodes p).[h]);
  if sz <? bn_sz current - sb_offset sb then
    s ← node_bytes p current (sb_offset sb) (sz - skip);
    Ok (s, sb_with_offset sb (sb_offset sb + sz), p)
  else if sz =? bn_sz current - sb_offset sb then
    s ← node_bytes p current (sb_offset sb) (sz - skip);
    '(sb, p) ← return_free_node sb p;
    Ok (s, sb, p)
  else pop_lstring_loop (length (p_nodes p)) sb p sz skip.

(** [lheader]: a big-endian number of one to four bytes. *)
Definition lheader (s : list Z) : res Z :=
  let len := zlen s in
  if (4 <? len) || (len <? 1) then Err "Invalid read %s"
  else Ok (fold_left (fun sz c => Z.lor (Z.shiftl sz 8) c) s 0).

(** [lpopbuffer]: the string, or nil, and the size of the buffer then. *)
Definition lpopbuffer (sb : socket_buffer) (p : pool) (sz : Z)
    : res (option (list Z) * Z * socket_buffer * pool) :=
  let sz := s32 sz in
  '(s, sb, p) ←
    (if (sb_size sb <? sz) || (sz =? 0) then Ok (None, sb, p)
     else
       '(s, sb, p) ← pop_lstring sb p sz 0;
       Ok (Some s, sb_with_size sb (sb_size sb - sz), p));
  Ok (s, sb_size sb, sb, p).

(** The loop of [lclearbuffer]. *)
Fixpoint lclearbuffer_loop (fuel : nat) (sb : socket_buffer) (p : pool) : res (socket_buffer * pool) :=
  match sb_head sb with
  | None => Ok (sb, p)
  | Some _ =>
      match fuel with
      | O => Ub
      | S fuel => '(sb, p) ← return_free_node sb p; lclearbuffer_loop fuel sb p
      end
  end.

(** [lclearbuffer]. *)
Definition lclearbuffer (sb : socket_buffer) (p : pool) : res (socket_buffer * pool) :=
  '(sb, p) ← lclearbuffer_loop (length (p_nodes p)) sb p;
  Ok (sb_with_size sb 0, p).

(** The loop of [lreadall]. *)
Fixpoint lreadall_loop (fuel : nat) (sb : socket_buffer) (p : pool)
    : res (list Z * socket_buffer * pool) :=
  match sb_head sb with
  | None => Ok ([], sb, p)
  | Some h =>
      match fuel with
      | O => Ub
      | S fuel =>
          current ← lift ((p_nodes p).[h]);
          s ← node_bytes p current (sb_offset sb) (bn_sz current - sb_offset sb);
          '(sb, p) ← return_free_node sb p;
          '(s', sb, p) ← lreadall_loop fuel sb p;
          Ok (s ++ s', sb, p)
      end
  end.

(** [lreadall]. *)
Definition lreadall (sb : socket_buffer) (p : pool) : res (list Z * socket_buffer * pool) :=
  '(s, sb, p) ← lreadall_loop (length (p_nodes p)) sb p;
  Ok (s, sb_with_size sb 0, p).

(** [ldrop]. *)
Definition ldrop (p : pool) (msg : option Z) (sz : Z) : res pool :=
  heap ← uboss_free (p_heap p) msg;
  Ok (with_heap p heap).

(** [memcmp] of the [n] bytes from [from] on of the node with the first of [sep]. *)
Definition node_memcmp (p : pool) (nd : buffer_node) (from : Z) (sep : list Z) (n : Z) : res bool :=
  d ← node_bytes p nd from n;
  lift (memcmp d sep (Z.to_nat n)).

(** [check_sep]; every turn goes on to another node. *)
Fixpoint check_sep (fuel : nat) (p : pool) (node : option Z) (from : Z) (sep : list Z) : res bool :=
  match fuel with
  | O => Ub
  | S fuel =>
      x ← lift node;
      nd ← lift ((p_nodes p).[x]);
      let sz := bn_sz nd - from in
      if zlen sep <=? sz then node_memcmp p nd from sep (zlen sep)
      else
        same ← (if 0 <? sz then node_memcmp p nd from sep sz else Ok true);
        if same : bool then
          if sz <? 0 then Ub (* before the string *)
          else check_sep fuel p (bn_next nd) 0 (drop (Z.to_nat sz) sep)
        else Ok false
  end.

(** The loop of [lreadline] from [i] on: the place of the separator. *)
Fixpoint lreadline_loop (fuel : nat) (p : pool) (sep : list Z) (limit i : Z)
    (current from bytes : Z) : res (option Z) :=
  if i <=? limit then
    match fuel with
    | O => Ub
    | S fuel =>
        found ← check_sep (length (p_nodes p)) p (Some current) from sep;
        if found : bool then Ok (Some i) else
        if bytes - 1 =? 0 then
          nd ← lift ((p_nodes p).[current]);
          match bn_next nd with
          | None => Ok None
          | Some current =>
              nd ← lift ((p_nodes p).[current]);
              lreadline_loop fuel p sep limit (i + 1) current 0 (bn_sz nd)
          end
        else lreadline_loop fuel p sep limit (i + 1) current (from + 1) (bytes - 1)
    end
  else Ok None.

(** What [lreadline] returns: nothing, [true] (when it only checks) or the line. *)
Inductive line := NoLine | HasLine | Line (s : list Z).

(** [lreadline]; it only checks when there is no pool at index 2. *)
Definition lreadline (sb : socket_buffer) (p : pool) (check : bool) (sep : list Z)
    : res (line * socket_buffer * pool) :=
  let seplen := zlen sep in
  match sb_head sb with
  | None => Ok (NoLine, sb, p)
  | Some current =>
      nd ← lift ((p_nodes p).[current]);
      let from := sb_offset sb in
      let bytes := bn_sz nd - from in
      let limit := sb_size sb - s32 seplen in
      found ← lreadline_loop (Z.to_nat (limit + 1)) p sep limit 0 current from bytes;
      match found with
      | None => Ok (NoLine, sb, p)
      | Some i =>
          if check then Ok (HasLine, sb, p) else
          '(s, sb, p) ← pop_lstring sb p (s32 (i + seplen)) seplen;
          Ok (Line s, sb_with_size sb (s32 (sb_size sb - (i + seplen))), p)
      end
  end.

(** [lstr2p]: the string is copied to the block [b] that [uboss_malloc] returns. *)
Definition lstr2p (p : pool) (b : Z) (str : list Z) : pool * (Z * Z) :=
  (with_heap p (<[b := str]> (p_heap p)), (b, s32 (zlen str))).

(** ** The calls of a VM *)

(** The socket buffers of the VM by their addresses, and its one pool. *)
Record vm := Vm {
  vm_bufs : gmap Z socket_buffer;
  vm_pool : pool
}.

(** The calls; a buffer or a message that is no userdata is [None].  [CNew i] returns the
    userdata [i], [CStr2p] a block [b]; [CData] is a block that arrives with a message,
    [CCollect] the collection of a buffer, which has no finalizer. *)
Inductive call :=
| CNew (i : Z)
| CCollect (i : Z)
| CData (b : Z) (d : list Z)
| CPush (sb msg : option Z) (sz : Z)
| CPop (sb : option Z) (sz : Z)
| CReadall (sb : option Z)
| CClear (sb : option Z)
| CReadline (sb : option Z) (check : bool) (sep : list Z)
| CDrop (msg : option Z) (sz : Z)
| CStr2p (b : Z) (str : list Z).

Inductive ret :=
| RNone
| RSize (size : Z)
| RPop (s : option (list Z)) (size : Z)
| RString (s : list Z)
| RLine (l : line)
| RPtr (b size : Z).

(** A function on the buffer at index 1; [msg] is its error when there is none. *)
Definition with_buffer (msg : string) (sb : option Z) (v : vm)
    (f : socket_buffer -> pool -> res (ret * socket_buffer * pool)) : res (ret * vm) :=
  match sb with
  | None => Err msg
  | Some i =>
      sb ← lift (vm_bufs v !! i);
      '(r, sb, p) ← f sb (vm_pool v);
      Ok (r, Vm (<[i := sb]> (vm_bufs v)) p)
  end.

Definition vm_call (c : call) (v : vm) : res (ret * vm) :=
  match c with
  | CNew i => Ok (RNone, Vm (<[i := lnewbuffer]> (vm_bufs v)) (vm_pool v))
  | CCollect i => Ok (RNone, Vm (delete i (vm_bufs v)) (vm_pool v))
  | CData b d => Ok (RNone, Vm (vm_bufs v) (with_heap (vm_pool v) (<[b := d]> (p_heap (vm_pool v)))))
  | CPush sb msg sz =>
      with_buffer "need buffer object at param 1" sb v (fun sb p =>
        '(n, sb, p) ← lpushbuffer sb p msg sz; Ok (RSize n, sb, p))
  | CPop sb sz =>
      with_buffer "Need buffer object at param 1" sb v (fun sb p =>
        '(s, n, sb, p) ← lpopbuffer sb p sz; Ok (RPop s n, sb, p))
  | CReadall sb =>
      with_buffer "Need buffer object at param 1" sb v (fun sb p =>
        '(s, sb, p) ← lreadall sb p; Ok (RString s, sb, p))
  | CClear sb =>
      with_buffer "Need buffer object at param 1" sb v (fun sb p =>
        '(sb, p) ← lclearbuffer sb p; Ok (RNone, sb, p))
  | CReadline sb check sep =>
      with_buffer "Need buffer object at param 1" sb v (fun sb p =>
        '(l, sb, p) ← lreadline sb p check sep; Ok (RLine l, sb, p))
  | CDrop msg sz => p ← ldrop (vm_pool v) msg sz; Ok (RNone, Vm (vm_bufs v) p)
  | CStr2p b str =>
      let '(p, (b, sz)) := lstr2p (vm_pool v) b str in Ok (RPtr b sz, Vm (vm_bufs v) p)
  end.

Definition vm_zero : vm := Vm ∅ (Pool None [] [] ∅).

(** The end of the VM: [lfreepool] of every chunk. *)
Fixpoint close_pool (chunks : list (Z * Z)) (p : pool) : res pool :=
  match chunks with
  | [] => Ok p
  | chunk :: chunks => p ← lfreepool chunk p; close_pool chunks p
  end.
