(* ===== verification/LuaSocketStream.v ===== *)
(** The socket buffers of a VM are byte streams: the memory of the pool, the chain of nodes
    of a buffer, and that every operation of [LuaSocket] does to the stream what it says,
    leaves the other buffers alone and neither loses a block nor frees one twice. *)
From Stdlib Require Import String.
From S2P Require Import Prelude Bytes CStr Links LuaSocket.
Open Scope Z_scope.

(** ** The memory of the pool *)

(** The block that the node [x] keeps. *)
Definition msg_of (nodes : list buffer_node) (x : Z) : option Z := nd ← nodes.[x]; bn_msg nd.

(** The nodes keep different blocks, all allocated; the other blocks are [blocks]. *)
Record mem_ok (m : Z -> option Z) (heap blocks : gmap Z (list Z)) : Prop := {
  mo_inj : forall x y b, m x = Some b -> m y = Some b -> x = y;
  mo_held : forall x b, m x = Some b -> blocks !! b = None /\ is_Some (heap !! b);
  mo_rest : forall b, (forall x, m x <> Some b) -> heap !! b = blocks !! b
}.

Lemma mem_ok_ext m m' heap blocks : mem_ok m heap blocks -> (forall x, m' x = m x) -> mem_ok m' heap blocks.
Proof.
  intros [Hi Hh Hr] He. split.
  - intros x y b. rewrite !He. apply Hi.
  - intros x b. rewrite He. apply Hh.
  - intros b Hb. apply Hr. intros x. rewrite <-He. apply Hb.
Qed.

Lemma mem_ok_take m m' heap blocks x b d : mem_ok m heap blocks -> blocks !! b = Some d -> m x = None ->
  (forall y, m' y = if decide (y = x) then Some b else m y) -> mem_ok m' heap (delete b blocks).
Proof.
  intros [Hi Hh Hr] Hb Hx He.
  assert (forall y, m y <> Some b) as Hnb by (intros y Hy; apply Hh in Hy as [Hy _]; congruence).
  split.
  - intros y z c. rewrite !He. repeat case_decide; intros Hy Hz; simplify_eq; try done.
    + by apply Hnb in Hz.
    + by apply Hnb in Hy.
    + by eapply Hi.
  - intros y c. rewrite He. case_decide; intros Hy.
    + simplify_eq. rewrite lookup_delete_eq. split; [done|]. rewrite (Hr c Hnb), Hb. by eexists.
    + assert (c <> b) by (intros ->; by apply Hnb in Hy). rewrite lookup_delete_ne by done. by eapply Hh.
  - intros c Hc. assert (c <> b) as Hcb by (intros ->; apply (Hc x); by rewrite He, decide_True).
    rewrite lookup_delete_ne by done. apply Hr. intros y Hy. apply (Hc y). rewrite He.
    case_decide; [congruence | done].
Qed.

Lemma mem_ok_release m m' heap blocks x b : mem_ok m heap blocks -> m x = Some b ->
  (forall y, m' y = if decide (y = x) then None else m y) -> mem_ok m' (delete b heap) blocks.
Proof.
  intros [Hi Hh Hr] Hx He.
  assert (forall y c, m' y = Some c -> m y = Some c /\ c <> b) as Hm'.
  { intros y c. rewrite He. case_decide as Hyx; [done|]. intros Hy. split; [done|].
    intros ->. apply Hyx. by eapply Hi. }
  split.
  - intros y z c [Hy _]%Hm' [Hz _]%Hm'. by eapply Hi.
  - intros y c [Hy Hc]%Hm'. rewrite lookup_delete_ne by done. by eapply Hh.
  - intros c Hc. destruct (decide (c = b)) as [->|Hcb].
    + rewrite lookup_delete_eq. by destruct (Hh _ _ Hx) as [-> _].
    + rewrite lookup_delete_ne by done. apply Hr. intros y Hy. apply (Hc y). rewrite He.
      case_decide; [congruence | done].
Qed.

Lemma msg_of_lookup nodes x nd : nodes.[x] = Some nd -> msg_of nodes x = bn_msg nd.
Proof. unfold msg_of. by intros ->. Qed.

Lemma msg_of_Some nodes x b : msg_of nodes x = Some b -> exists nd, nodes.[x] = Some nd /\ bn_msg nd = Some b.
Proof. unfold msg_of. intros (nd & ? & ?)%bind_Some. by exists nd. Qed.

Lemma msg_of_aset nodes x nd nodes' y : nodes.[x := nd] = Some nodes' ->
  msg_of nodes' y = if decide (y = x) then bn_msg nd else msg_of nodes y.
Proof. intros Hs. unfold msg_of. rewrite (aget_aset _ _ _ _ _ Hs). by repeat case_decide. Qed.

(** The chunks lie one after the other from the node [base] on. *)
Fixpoint chunks_ok (base : Z) (chunks : list (Z * Z)) (len : Z) : Prop :=
  match chunks with
  | [] => base = len
  | (b, sz) :: chunks => b = base /\ 0 < sz /\ chunks_ok (base + sz) chunks len
  end.

Lemma chunks_ok_snoc len sz chunks : forall base, chunks_ok base chunks len -> 0 < sz ->
  chunks_ok base (chunks ++ [(len, sz)]) (len + sz).
Proof.
  induction chunks as [|[b s] chunks IH]; intros base; cbn [app chunks_ok].
  - by intros ->.
  - intros (-> & ? & ?) ?. split; [done|]. split; [done|]. by apply IH.
Qed.

(** The pool: the free nodes [fl] keep no block, all the others do. *)
Record pool_inv (p : pool) (fl : list Z) (blocks : gmap Z (list Z)) : Prop := {
  pi_free : linked bn_next (p_nodes p) (p_free p) fl;
  pi_nodup : NoDup fl;
  pi_none : forall x, 0 <= x < zlen (p_nodes p) -> x ∈ fl <-> msg_of (p_nodes p) x = None;
  pi_mem : mem_ok (msg_of (p_nodes p)) (p_heap p) blocks;
  pi_chunks : chunks_ok 0 (p_chunks p) (zlen (p_nodes p))
}.

(** What an operation on a buffer with the nodes [l] leaves alone: nodes of other buffers
    and their blocks; none of them gets into the buffer. *)
Definition pframe (p : pool) (l : list Z) (p' : pool) (l' : list Z) : Prop :=
  forall x nd b, ~ x ∈ l -> (p_nodes p).[x] = Some nd -> bn_msg nd = Some b ->
    (p_nodes p').[x] = Some nd /\ p_heap p' !! b = p_heap p !! b /\ ~ x ∈ l'.

Lemma pframe_refl p l : pframe p l p l.
Proof. by intros x nd b. Qed.

Lemma pframe_trans p l p1 l1 p2 l2 : pframe p l p1 l1 -> pframe p1 l1 p2 l2 -> pframe p l p2 l2.
Proof.
  intros H1 H2 x nd b Hx Hnd Hb. destruct (H1 x nd b Hx Hnd Hb) as (Hnd1 & <- & Hx1).
  by apply (H2 x nd b).
Qed.

(** ** The chain of a buffer *)

(** The node [x] keeps a block whose first bytes are [c]. *)
Definition holds (p : pool) (x : Z) (c : list Z) : Prop := exists b d sz nx,
  (p_nodes p).[x] = Some (BufferNode (Some b) sz nx) /\ p_heap p !! b = Some d /\
  0 < sz <= zlen d /\ c = take (Z.to_nat sz) d.

(** The bytes [bs] are in the nodes [l] from [head] to [tail]. *)
Record chain (p : pool) (head tail : option Z) (l : list Z) (bs : list (list Z)) : Prop := {
  ch_linked : linked bn_next (p_nodes p) head l;
  ch_nodup : NoDup l;
  ch_tail : tail = last l;
  ch_holds : Forall2 (holds p) l bs
}.

Definition offset_ok (offset : Z) (bs : list (list Z)) : Prop :=
  match bs with [] => offset = 0 | b :: _ => 0 <= offset < zlen b end.

Definition unread (offset : Z) (bs : list (list Z)) : list Z := drop (Z.to_nat offset) (mjoin bs).

(** The unread bytes of the nodes [l] of [sb] are [s]. *)
Definition sb_bytes (p : pool) (sb : socket_buffer) (l : list Z) (s : list Z) : Prop :=
  exists bs, chain p (sb_head sb) (sb_tail sb) l bs /\ offset_ok (sb_offset sb) bs /\
    s = unread (sb_offset sb) bs.

(** The buffer [sb] stands for the stream [s]. *)
Record sb_rep (p : pool) (sb : socket_buffer) (l : list Z) (s : list Z) : Prop := {
  sr_chain : sb_bytes p sb l s;
  sr_size : sb_size sb = zlen s;
  sr_small : zlen s < 2 ^ 31
}.

Lemma node_holds_frame p l p' l' x c : pframe p l p' l' -> ~ x ∈ l -> holds p x c -> holds p' x c /\ ~ x ∈ l'.
Proof.
  intros Hf Hx (b & d & sz & nx & Hnd & Hb & Hsz & ->).
  destruct (Hf x _ b Hx Hnd eq_refl) as (Hnd' & Hb' & Hx'). split; [|done].
  exists b, d, sz, nx. by rewrite Hb'.
Qed.

Lemma chain_holds p h t l bs x : chain p h t l bs -> x ∈ l -> exists c, holds p x c.
Proof.
  intros [_ _ _ Hh] (i & Hi)%list_elem_of_lookup.
  destruct (Forall2_lookup_l _ _ _ _ _ Hh Hi) as (c & _ & ?). by exists c.
Qed.

Lemma chain_frame p l p' l' h t l2 bs : pframe p l p' l' -> (forall x, x ∈ l2 -> ~ x ∈ l) ->
  chain p h t l2 bs -> chain p' h t l2 bs /\ (forall x, x ∈ l2 -> ~ x ∈ l').
Proof.
  intros Hf Hd Hc. split.
  - destruct Hc as [Hl Hnd Ht Hh] eqn:E. split; [|done|done|].
    + eapply linked_frame; [done|]. intros x Hx.
      destruct (chain_holds _ _ _ _ _ _ Hc Hx) as (c & b & d & sz & nx & Hn & _).
      destruct (Hf x _ b (Hd x Hx) Hn eq_refl) as (Hn' & _). congruence.
    + clear E Hc Hnd Hl Ht. induction Hh as [|x c l2 bs Hx Hh IH]; constructor.
      * apply (node_holds_frame _ _ _ _ _ _ Hf (Hd x ltac:(by left)) Hx).
      * apply IH. intros y Hy. apply Hd. by right.
  - intros x Hx. destruct (chain_holds _ _ _ _ _ _ Hc Hx) as (c & Hn).
    apply (node_holds_frame _ _ _ _ _ _ Hf (Hd x Hx) Hn).
Qed.

(** Another buffer keeps its stream. *)
Lemma sb_rep_frame p l p' l' sb l2 s : pframe p l p' l' -> (forall x, x ∈ l2 -> ~ x ∈ l) ->
  sb_rep p sb l2 s -> sb_rep p' sb l2 s /\ (forall x, x ∈ l2 -> ~ x ∈ l').
Proof.
  intros Hf Hd [(bs & Hc & Ho & Hs) Hz Hsm].
  destruct (chain_frame _ _ _ _ _ _ _ _ Hf Hd Hc) as [Hc' Hd'].
  split; [|done]. split; [by exists bs | done | done].
Qed.

(** ** Giving a node back *)

Lemma pool_inv_length p fl blocks h t l bs : pool_inv p fl blocks -> chain p h t l bs ->
  (length l <= length (p_nodes p))%nat.
Proof. intros _ [Hl Hnd _ _]. by eapply linked_length. Qed.

Lemma return_free_node_spec p fl blocks sb x l b bs :
  pool_inv p fl blocks -> chain p (sb_head sb) (sb_tail sb) (x :: l) (b :: bs) ->
  exists p', return_free_node sb p = Ok (SocketBuffer (sb_size sb) 0 (head l) (last l), p') /\
    pool_inv p' (x :: fl) blocks /\ chain p' (head l) (last l) l bs /\ pframe p (x :: l) p' l /\
    length (p_nodes p') = length (p_nodes p).
Proof.
  intros Hp [(Hh & nd & Hnd & Hl) Hnodup Ht Hb].
  pose proof (linked_head _ _ _ _ Hl) as Hhd.
  apply Forall2_cons in Hb as [(k & d & sz & nx & Hx & Hk & Hsz & _) Hb].
  rewrite Hnd in Hx. injection Hx as ->. cbn [bn_next] in *. subst nx.
  apply NoDup_cons in Hnodup as [Hni Hnodup].
  pose proof (aget_lt_Some _ _ _ Hnd) as Hxb.
  set (nd' := BufferNode None 0 (p_free p)).
  pose proof (aset_Some (p_nodes p) x nd' Hxb) as Hset.
  assert (forall y, y <> x -> (<[Z.to_nat x := nd']> (p_nodes p)).[y] = (p_nodes p).[y]) as Hsame.
  { intros y Hy. by rewrite (aget_aset _ _ _ _ _ Hset), decide_False. }
  destruct Hp as [Hfl Hfnd Hnone Hmem Hch].
  assert (~ x ∈ fl) as Hxfl.
  { intros Hin. apply Hnone in Hin; [|done]. rewrite (msg_of_lookup _ _ _ Hnd) in Hin. done. }
  exists (Pool (Some x) (p_chunks p) (<[Z.to_nat x := nd']> (p_nodes p)) (delete k (p_heap p))).
  set (p' := Pool _ _ _ _).
  assert (forall l1, pframe p (x :: l1) p' l1) as Hframe.
  { intros l1 y ny c Hy Hny Hc. apply not_elem_of_cons in Hy as [Hyx Hyl]. cbn [p_nodes p_heap p'].
    rewrite Hsame by done. split; [done|]. split; [|done]. apply lookup_delete_ne.
    intros ->. apply Hyx. apply (mo_inj _ _ _ Hmem y x c).
    - by rewrite (msg_of_lookup _ _ _ Hny).
    - by rewrite (msg_of_lookup _ _ _ Hnd). }
  split; [|split; [|split; [|split]]].
  - unfold return_free_node. rewrite Hh. cbn [lift]. rewrite ok_bind, Hnd, lift_Some, ok_bind.
    cbn [bn_next bn_msg]. unfold uboss_free. rewrite Hk, ok_bind. fold nd'.
    rewrite Hset, lift_Some, ok_bind. repeat f_equal.
    rewrite Ht. destruct l as [|y l]; cbn [head]; [done|]. by rewrite last_cons_cons.
  - split; cbn [p_nodes p_free p_heap p_chunks p'].
    + cbn [linked]. split; [done|]. eexists. rewrite (aget_aset _ _ _ _ _ Hset), decide_True by done.
      split; [done|]. cbn [bn_next nd']. eapply linked_frame; [done|]. intros y Hy. apply Hsame.
      by intros ->.
    + by apply NoDup_cons.
    + intros y Hy. rewrite zlen_insert in Hy. rewrite (msg_of_aset _ _ _ _ _ Hset), elem_of_cons.
      case_decide as Hyx; [tauto|]. rewrite <-Hnone by done. tauto.
    + eapply mem_ok_release; [done | by rewrite (msg_of_lookup _ _ _ Hnd) |].
      intros y. by rewrite (msg_of_aset _ _ _ _ _ Hset).
    + by rewrite zlen_insert.
  - assert (chain p (head l) (last l) l bs) as Hc by (split; done).
    apply (chain_frame _ _ _ _ _ _ _ _ (Hframe [])) in Hc; [apply Hc|].
    intros y Hy ->%list_elem_of_singleton. done.
  - done.
  - cbn [p_nodes p']. by rewrite length_insert.
Qed.

(** ** Reading *)

Lemma sb_unread_cons offset b bs : offset_ok offset (b :: bs) ->
  unread offset (b :: bs) = drop (Z.to_nat offset) b ++ mjoin bs.
Proof.
  unfold offset_ok, unread, zlen. intros. rewrite mjoin_cons, drop_app_le by lia. done.
Qed.

Lemma sb_unread_nil offset : unread offset [] = [].
Proof. apply drop_nil. Qed.

Lemma sb_unread_0 bs : unread 0 bs = mjoin bs.
Proof. done. Qed.

(** What is in a node, and that its bytes can be read. *)
Lemma holds_inv p x c : holds p x c -> exists nd, (p_nodes p).[x] = Some nd /\ bn_sz nd = zlen c /\
  0 < zlen c /\ forall off n, 0 <= off -> 0 <= n -> off + n <= zlen c ->
    node_bytes p nd off n = Ok (take (Z.to_nat n) (drop (Z.to_nat off) c)).
Proof.
  intros (b & d & sz & nx & Hnd & Hb & Hsz & ->). eexists. split; [exact Hnd|].
  rewrite zlen_take by lia. cbn [bn_sz]. split; [done|]. split; [lia|]. intros off n Ho Hn Hle.
  unfold node_bytes. cbn [bn_msg lift]. rewrite ok_bind, Hb, lift_Some, ok_bind.
  rewrite slice_spec by lia. cbn [lift]. f_equal.
  rewrite skipn_firstn_comm, take_take. f_equal. lia.
Qed.

Lemma chain_cons p h t x l c bs : chain p h t (x :: l) (c :: bs) ->
  h = Some x /\ holds p x c /\ exists nd, (p_nodes p).[x] = Some nd /\
    chain p (bn_next nd) (last l) l bs /\ ~ x ∈ l.
Proof.
  intros [(-> & nd & Hnd & Hl) [Hni Hn]%NoDup_cons Ht [Hx Hb]%Forall2_cons].
  split; [done|]. split; [done|]. exists nd. split; [done|]. split; [by split | done].
Qed.

Lemma chain_offset_0 p h t l bs : chain p h t l bs -> offset_ok 0 bs.
Proof.
  intros Hc. destruct bs as [|b bs]; [done|].
  destruct l as [|y l]; [by destruct Hc as [_ _ _ Hh%Forall2_length]|].
  apply chain_cons in Hc as (_ & (? & _ & _ & Hpos & _)%holds_inv & _). unfold offset_ok. lia.
Qed.

(** The state after some bytes are read. *)
Definition read_post (p : pool) (l : list Z) (blocks : gmap Z (list Z)) (sb sb' : socket_buffer)
    (p' : pool) (s' : list Z) : Prop :=
  exists l' fl', pool_inv p' fl' blocks /\ sb_bytes p' sb' l' s' /\ pframe p l p' l' /\
    sb_size sb' = sb_size sb.

Lemma return_all p fl blocks sb x l c bs :
  pool_inv p fl blocks -> chain p (sb_head sb) (sb_tail sb) (x :: l) (c :: bs) ->
  exists sb' p', return_free_node sb p = Ok (sb', p') /\ pool_inv p' (x :: fl) blocks /\
    sb_bytes p' sb' l (mjoin bs) /\ pframe p (x :: l) p' l /\ sb_size sb' = sb_size sb.
Proof.
  intros Hp Hc. destruct (return_free_node_spec _ _ _ _ _ _ _ _ Hp Hc) as (p' & -> & Hp' & Hc' & Hf & _).
  do 2 eexists. split; [done|]. split; [done|]. split; [|done].
  exists bs. split; [done|]. split; [|done]. by eapply chain_offset_0.
Qed.

Lemma part_read p fl blocks sb x l c bs n :
  pool_inv p fl blocks -> chain p (sb_head sb) (sb_tail sb) (x :: l) (c :: bs) ->
  0 <= sb_offset sb -> 0 <= n -> sb_offset sb + n < zlen c ->
  read_post p (x :: l) blocks sb (sb_with_offset sb (sb_offset sb + n)) p
    (drop (Z.to_nat n) (drop (Z.to_nat (sb_offset sb)) c ++ mjoin bs)).
Proof.
  intros Hp Hc Ho Hn Hlt. exists (x :: l), fl. split; [done|]. split; [|split; [apply pframe_refl | done]].
  exists (c :: bs). split; [done|]. cbn [sb_offset sb_with_offset].
  assert (offset_ok (sb_offset sb + n) (c :: bs)) as Hok by (unfold offset_ok; lia).
  split; [done|]. rewrite (sb_unread_cons _ _ _ Hok).
  rewrite drop_app_le by (rewrite length_drop; unfold zlen in *; lia).
  rewrite drop_drop. do 2 f_equal. lia.
Qed.

Lemma take_clamp {A} (n : Z) (l : list A) : n <= 0 -> take (Z.to_nat n) l = [].
Proof. intros. by replace (Z.to_nat n) with 0%nat by lia. Qed.

(** The bytes of a string that is longer than the first node. *)
Lemma take_split {A} (n : Z) (a l : list A) :
  take (Z.to_nat n) (a ++ l) = take (Z.to_nat n) a ++ take (Z.to_nat (n - zlen a)) l.
Proof. rewrite take_app. do 2 f_equal. unfold zlen. lia. Qed.

Lemma drop_split {A} (n : Z) (a l : list A) : zlen a <= n ->
  drop (Z.to_nat n) (a ++ l) = drop (Z.to_nat (n - zlen a)) l.
Proof. unfold zlen. intros. rewrite drop_app_ge by lia. f_equal. lia. Qed.

(** The part of the node that [pop_lstring] adds. *)
Lemma node_part p h t x l c bs nd off n m : chain p h t (x :: l) (c :: bs) ->
  (p_nodes p).[x] = Some nd -> 0 <= off -> 0 <= m -> off + m <= zlen c -> n <= m ->
  (if 0 <? n then node_bytes p nd off n else Ok []) = Ok (take (Z.to_nat n) (drop (Z.to_nat off) c)).
Proof.
  intros Hc Hnd Ho Hm Hle Hn. apply chain_cons in Hc as (_ & (nd' & Hnd' & _ & _ & Hb)%holds_inv & _).
  rewrite Hnd in Hnd'. injection Hnd' as <-.
  destruct (Z.ltb_spec 0 n); [apply Hb; lia | by rewrite take_clamp].
Qed.

Lemma pop_lstring_loop_spec fuel : forall sb p l fl blocks s sz skip,
  pool_inv p fl blocks -> sb_bytes p sb l s -> 0 < sz <= zlen s -> 0 <= skip -> (length l <= fuel)%nat ->
  exists sb' p', pop_lstring_loop fuel sb p sz skip = Ok (take (Z.to_nat (sz - skip)) s, sb', p') /\
    read_post p l blocks sb sb' p' (drop (Z.to_nat sz) s).
Proof.
  induction fuel as [|fuel IH]; intros sb p l fl blocks s sz skip Hp (bs & Hc & Ho & ->) Hsz Hsk Hfuel.
  { destruct l; [|simpl in Hfuel; lia].
    pose proof (Forall2_nil_inv_l _ _ (ch_holds _ _ _ _ _ Hc)) as ->.
    rewrite sb_unread_nil in Hsz. change (zlen (@nil Z)) with 0 in Hsz. lia. }
  pose proof (Forall2_length _ _ _ (ch_holds _ _ _ _ _ Hc)) as Hlen.
  destruct l as [|x l], bs as [|c bs]; [|done|done|]; clear Hlen.
  { rewrite sb_unread_nil in Hsz. change (zlen (@nil Z)) with 0 in Hsz. lia. }
  rewrite (sb_unread_cons _ _ _ Ho) in *. unfold offset_ok in Ho.
  pose proof (chain_cons _ _ _ _ _ _ _ Hc) as (Hh & (nd & Hnd & Hsiz & _ & _)%holds_inv & _).
  pose proof (fun n m => node_part _ _ _ _ _ _ _ _ (sb_offset sb) n m Hc Hnd (proj1 Ho)) as Hpart.
  set (a := drop (Z.to_nat (sb_offset sb)) c) in *.
  assert (zlen a = zlen c - sb_offset sb) as Ha by (apply zlen_drop; lia).
  cbn [pop_lstring_loop]. rewrite Hh, lift_Some, ok_bind, Hnd, lift_Some, ok_bind, Hsiz.
  destruct (Z.leb_spec sz (zlen c - sb_offset sb)) as [Hle|Hgt].
  - replace (skip <? sz) with (0 <? sz - skip) by (apply eq_true_iff_eq; rewrite !Z.ltb_lt; lia).
    rewrite (Hpart _ sz) by lia. rewrite ok_bind.
    rewrite take_app_le by (unfold zlen in *; lia).
    destruct (Z.eqb_spec (zlen c - sb_offset sb) sz) as [He|Hne].
    + destruct (return_all p fl blocks (sb_with_offset sb (sb_offset sb + sz)) x l c bs)
        as (sb' & p' & -> & Hpost); [done | done |]. rewrite ok_bind.
      do 2 eexists. split; [done|]. exists l, (x :: fl). rewrite drop_split by lia. rewrite Ha, He, Z.sub_diag. done.
    + rewrite ok_bind. do 2 eexists. split; [done|]. eapply part_read; [done | done | lia..].
  - assert ((if 0 <? sz - skip then node_bytes p nd (sb_offset sb)
      (if sz - skip <? zlen c - sb_offset sb then sz - skip else zlen c - sb_offset sb) else Ok []) =
      Ok (take (Z.to_nat (sz - skip)) a)) as ->.
    { destruct (Z.ltb_spec (sz - skip) (zlen c - sb_offset sb)).
      - apply (Hpart _ (zlen c - sb_offset sb)); lia.
      - pose proof (Hpart (zlen c - sb_offset sb) (zlen c - sb_offset sb)
          ltac:(lia) ltac:(lia) ltac:(lia)) as Hall.
        rewrite (proj2 (Z.ltb_lt 0 _)) in Hall by lia. rewrite (proj2 (Z.ltb_lt 0 _)) by lia. rewrite Hall.
        rewrite !take_ge by (unfold zlen in *; lia). done. }
    rewrite ok_bind.
    destruct (return_all p fl blocks sb x l c bs Hp Hc) as (sb1 & p1 & -> & Hp1 & Hb1 & Hf1 & Hs1).
    rewrite ok_bind. rewrite (proj2 (Z.eqb_neq (sz - _) 0)) by lia. rewrite zlen_app in Hsz.
    destruct (IH sb1 p1 l (x :: fl) blocks (mjoin bs) (sz - (zlen c - sb_offset sb)) skip Hp1 Hb1)
      as (sb' & p' & -> & l2 & fl2 & Hp2 & Hb2 & Hf2 & Hs2); [lia | lia | simpl in Hfuel; lia |].
    rewrite ok_bind. do 2 eexists. split.
    + rewrite take_split, Ha.
      by replace (sz - skip - (zlen c - sb_offset sb)) with (sz - (zlen c - sb_offset sb) - skip) by lia.
    + exists l2, fl2. split; [done|]. rewrite drop_split by lia. rewrite Ha. split; [done|].
      split; [by eapply pframe_trans | congruence].
Qed.

Lemma sb_bytes_nonempty p sb l s : sb_bytes p sb l s -> s <> [] ->
  exists x l' c bs, l = x :: l' /\ chain p (sb_head sb) (sb_tail sb) (x :: l') (c :: bs) /\
    0 <= sb_offset sb < zlen c /\ s = drop (Z.to_nat (sb_offset sb)) c ++ mjoin bs.
Proof.
  intros (bs & Hc & Ho & ->) Hs.
  pose proof (Forall2_length _ _ _ (ch_holds _ _ _ _ _ Hc)) as Hlen.
  destruct l as [|x l], bs as [|c bs]; [|done|done|]; [by rewrite sb_unread_nil in Hs|].
  exists x, l, c, bs. split; [done|]. split; [done|]. split; [done|]. by apply sb_unread_cons.
Qed.

Lemma sb_bytes_empty p sb l : sb_bytes p sb l [] -> sb_head sb = None /\ l = [].
Proof.
  intros (bs & Hc & Ho & Hs).
  pose proof (Forall2_length _ _ _ (ch_holds _ _ _ _ _ Hc)) as Hlen.
  destruct l as [|x l], bs as [|c bs]; [|done|done|].
  - destruct Hc as [Hl _ _ _]. done.
  - rewrite (sb_unread_cons _ _ _ Ho) in Hs. unfold offset_ok in Ho.
    apply (f_equal zlen) in Hs. rewrite zlen_app, zlen_drop in Hs by lia.
    pose proof (zlen_nonneg (mjoin bs)). change (zlen (@nil Z)) with 0 in Hs. lia.
Qed.

Lemma sb_bytes_length p sb l s : sb_bytes p sb l s -> (length l <= length (p_nodes p))%nat.
Proof. intros (bs & [Hl Hnd _ _] & _). by eapply linked_length. Qed.

Lemma pop_lstring_spec p fl blocks sb l s sz skip :
  pool_inv p fl blocks -> sb_bytes p sb l s -> s <> [] -> 0 <= skip <= sz -> sz <= zlen s ->
  exists sb' p', pop_lstring sb p sz skip = Ok (take (Z.to_nat (sz - skip)) s, sb', p') /\
    read_post p l blocks sb sb' p' (drop (Z.to_nat sz) s).
Proof.
  intros Hp Hb Hs Hsk Hsz.
  destruct (sb_bytes_nonempty _ _ _ _ Hb Hs) as (x & l' & c & bs & -> & Hc & Ho & Heq).
  pose proof (chain_cons _ _ _ _ _ _ _ Hc) as (Hh & (nd & Hnd & Hsiz & _ & Hread)%holds_inv & _).
  unfold pop_lstring. rewrite Hh, lift_Some, ok_bind, Hnd, lift_Some, ok_bind, Hsiz.
  set (a := drop (Z.to_nat (sb_offset sb)) c) in *.
  assert (zlen a = zlen c - sb_offset sb) as Ha by (apply zlen_drop; lia).
  destruct (Z.ltb_spec sz (zlen c - sb_offset sb)) as [Hlt|Hge];
    [|destruct (Z.eqb_spec sz (zlen c - sb_offset sb)) as [He|Hne]].
  - rewrite Hread, ok_bind by lia. fold a. rewrite Heq, take_app_le by (unfold zlen in *; lia).
    do 2 eexists. split; [done|]. eapply part_read; [done | done | lia..].
  - rewrite Hread, ok_bind by lia. fold a. rewrite Heq, take_app_le by (unfold zlen in *; lia).
    destruct (return_all p fl blocks sb x l' c bs Hp Hc) as (sb' & p' & -> & Hpost).
    rewrite ok_bind. do 2 eexists. split; [done|]. exists l', (x :: fl).
    rewrite drop_split by lia. rewrite Ha, He, Z.sub_diag. done.
  - eapply pop_lstring_loop_spec; [done | done | lia | lia |]. by eapply sb_bytes_length.
Qed.

Lemma read_post_rep p l blocks sb sb' p' s' size : read_post p l blocks sb sb' p' s' ->
  size = zlen s' -> zlen s' < 2 ^ 31 ->
  exists l' fl', pool_inv p' fl' blocks /\ sb_rep p' (sb_with_size sb' size) l' s' /\ pframe p l p' l'.
Proof.
  intros (l' & fl' & Hp' & Hb' & Hf & _) -> Hlt. exists l', fl'. split; [done|]. split; [|done].
  split; [|done|done]. destruct Hb' as (bs & Hc & Ho & Hs). by exists bs.
Qed.

(** What an operation on one buffer does: the buffer stands for [s'] then. *)
Definition sb_post (p : pool) (l : list Z) (blocks : gmap Z (list Z)) (p' : pool) (sb' : socket_buffer)
    (s' : list Z) : Prop :=
  exists l' fl', pool_inv p' fl' blocks /\ sb_rep p' sb' l' s' /\ pframe p l p' l'.

Lemma sb_post_refl p fl blocks sb l s : pool_inv p fl blocks -> sb_rep p sb l s ->
  sb_post p l blocks p sb s.
Proof. intros. exists l, fl. split; [done|]. split; [done|]. apply pframe_refl. Qed.

Lemma lpopbuffer_spec p fl blocks sb l s sz :
  pool_inv p fl blocks -> sb_rep p sb l s -> 0 <= sz < 2 ^ 31 ->
  let '(r, s') := if (zlen s <? sz) || (sz =? 0) then (None, s)
                  else (Some (take (Z.to_nat sz) s), drop (Z.to_nat sz) s) in
  exists sb' p', lpopbuffer sb p sz = Ok (r, zlen s', sb', p') /\ sb_post p l blocks p' sb' s'.
Proof.
  intros Hp Hr Hsz. pose proof Hr as [Hb Hsize Hsmall]. unfold lpopbuffer.
  rewrite s32_small by (unfold is_s32; lia). rewrite Hsize.
  destruct ((zlen s <? sz) || (sz =? 0)) eqn:Hc.
  - rewrite ok_bind, Hsize. do 2 eexists. split; [done|]. by eapply sb_post_refl.
  - apply orb_false_iff in Hc as [?%Z.ltb_ge ?%Z.eqb_neq].
    destruct (pop_lstring_spec p fl blocks sb l s sz 0 Hp Hb) as (sb' & p' & -> & Hpost);
      [intros ->; change (zlen (@nil Z)) with 0 in *; lia | lia | lia |].
    rewrite !ok_bind, Z.sub_0_r. assert (sb_size sb' = sb_size sb) as -> by (by destruct Hpost as (? & ? & ? & ? & ? & ?)).
    pose proof (zlen_drop s sz ltac:(lia)) as Hd.
    cbn [sb_size sb_with_size]. rewrite Hsize, <-Hd. do 2 eexists. split; [done|].
    eapply read_post_rep; [done | done | lia].
Qed.

Lemma read_post_empty p fl blocks sb l : pool_inv p fl blocks -> sb_bytes p sb l [] ->
  read_post p l blocks sb sb p [].
Proof. intros Hp Hb. exists l, fl. split; [done|]. split; [done|]. split; [apply pframe_refl | done]. Qed.

Lemma lclearbuffer_loop_spec fuel : forall p fl blocks sb l s,
  pool_inv p fl blocks -> sb_bytes p sb l s -> (length l <= fuel)%nat ->
  exists sb' p', lclearbuffer_loop fuel sb p = Ok (sb', p') /\ read_post p l blocks sb sb' p' [].
Proof.
  induction fuel as [|fuel IH]; intros p fl blocks sb l s Hp Hb Hfuel; cbn [lclearbuffer_loop];
    (destruct (decide (s = [])) as [->|Hs];
      [destruct (sb_bytes_empty _ _ _ Hb) as [-> _]; do 2 eexists; split; [done|];
       by eapply read_post_empty |]).
  all: destruct (sb_bytes_nonempty _ _ _ _ Hb Hs) as (x & l' & c & bs & -> & Hc & Ho & ->).
  - simpl in Hfuel. lia.
  - pose proof (chain_cons _ _ _ _ _ _ _ Hc) as (Hh & _). rewrite Hh.
    destruct (return_all p fl blocks sb x l' c bs Hp Hc) as (sb1 & p1 & -> & Hp1 & Hb1 & Hf1 & Hs1).
    rewrite ok_bind. destruct (IH p1 (x :: fl) blocks sb1 l' _ Hp1 Hb1) as (sb' & p' & -> & l2 & fl2 & ? & ? & ? & ?);
      [simpl in Hfuel; lia|].
    do 2 eexists. split; [done|]. exists l2, fl2. split; [done|]. split; [done|].
    split; [by eapply pframe_trans | congruence].
Qed.

Lemma lclearbuffer_spec p fl blocks sb l s : pool_inv p fl blocks -> sb_rep p sb l s ->
  exists sb' p', lclearbuffer sb p = Ok (sb', p') /\ sb_post p l blocks p' sb' [].
Proof.
  intros Hp [Hb _ _]. unfold lclearbuffer.
  destruct (lclearbuffer_loop_spec (length (p_nodes p)) p fl blocks sb l s Hp Hb) as (sb' & p' & -> & Hpost);
    [by eapply sb_bytes_length|].
  rewrite ok_bind. do 2 eexists. split; [done|]. by eapply read_post_rep.
Qed.

Lemma lreadall_loop_spec fuel : forall p fl blocks sb l s,
  pool_inv p fl blocks -> sb_bytes p sb l s -> (length l <= fuel)%nat ->
  exists sb' p', lreadall_loop fuel sb p = Ok (s, sb', p') /\ read_post p l blocks sb sb' p' [].
Proof.
  induction fuel as [|fuel IH]; intros p fl blocks sb l s Hp Hb Hfuel; cbn [lreadall_loop];
    (destruct (decide (s = [])) as [->|Hs];
      [destruct (sb_bytes_empty _ _ _ Hb) as [-> _]; do 2 eexists; split; [done|];
       by eapply read_post_empty |]).
  all: destruct (sb_bytes_nonempty _ _ _ _ Hb Hs) as (x & l' & c & bs & -> & Hc & Ho & ->).
  - simpl in Hfuel. lia.
  - pose proof (chain_cons _ _ _ _ _ _ _ Hc) as (Hh & (nd & Hnd & Hsiz & _ & Hread)%holds_inv & _).
    rewrite Hh, Hnd, lift_Some, ok_bind, Hsiz, Hread, ok_bind by lia.
    rewrite (take_ge (drop _ _)) by (rewrite length_drop; unfold zlen in *; lia).
    destruct (return_all p fl blocks sb x l' c bs Hp Hc) as (sb1 & p1 & -> & Hp1 & Hb1 & Hf1 & Hs1).
    rewrite ok_bind. destruct (IH p1 (x :: fl) blocks sb1 l' _ Hp1 Hb1) as (sb' & p' & -> & l2 & fl2 & ? & ? & ? & ?);
      [simpl in Hfuel; lia|].
    rewrite ok_bind. do 2 eexists. split; [done|]. exists l2, fl2. split; [done|]. split; [done|].
    split; [by eapply pframe_trans | congruence].
Qed.

Lemma lreadall_spec p fl blocks sb l s : pool_inv p fl blocks -> sb_rep p sb l s ->
  exists sb' p', lreadall sb p = Ok (s, sb', p') /\ sb_post p l blocks p' sb' [].
Proof.
  intros Hp [Hb _ _]. unfold lreadall.
  destruct (lreadall_loop_spec (length (p_nodes p)) p fl blocks sb l s Hp Hb) as (sb' & p' & -> & Hpost);
    [by eapply sb_bytes_length|].
  rewrite ok_bind. do 2 eexists. split; [done|]. by eapply read_post_rep.
Qed.

(** ** Adding a message *)

Lemma chunk_size_bound tsz : 1 <= tsz -> 16 <= chunk_size tsz <= 4096.
Proof.
  intros Ht. unfold chunk_size, LARGE_PAGE_NODE. case_match; [|done].
  assert (1 <= tsz <= 9) as Hr by lia. rewrite Z.shiftl_mul_pow2 by lia.
  pose proof (Z.pow_le_mono_r 2 1 tsz ltac:(lia) ltac:(lia)).
  pose proof (Z.pow_le_mono_r 2 tsz 9 ltac:(lia) ltac:(lia)). change (2 ^ 1) with 2 in *. change (2 ^ 9) with 512 in *. lia.
Qed.

Lemma zlen_lnewpool base sz : 0 <= sz -> zlen (lnewpool base sz) = sz.
Proof. intros. unfold zlen, lnewpool. rewrite length_map, length_seqZ. lia. Qed.

Lemma lnewpool_get base sz i : 0 <= i < sz ->
  (lnewpool base sz).[i] = Some (BufferNode None 0 (if i =? sz - 1 then None else Some (base + i + 1))).
Proof.
  intros Hi. unfold lnewpool, aget. rewrite decide_True by lia.
  rewrite list_lookup_fmap, lookup_seqZ_lt by lia. cbn [fmap option_fmap option_map].
  by replace (0 + Z.of_nat (Z.to_nat i)) with i by lia.
Qed.

(** Appending a chunk to a pool without free nodes. *)
Lemma new_chunk_inv p blocks sz : pool_inv p [] blocks -> 1 < sz ->
  pool_inv (Pool (Some (zlen (p_nodes p))) (p_chunks p ++ [(zlen (p_nodes p), sz)])
    (p_nodes p ++ lnewpool (zlen (p_nodes p)) sz) (p_heap p)) (seqZ (zlen (p_nodes p)) sz) blocks.
Proof.
  intros [Hfl _ Hnone Hmem Hch] Hsz. set (base := zlen (p_nodes p)).
  pose proof (zlen_nonneg (p_nodes p)) as Hpos. pose proof (zlen_lnewpool base sz ltac:(lia)) as Hlen.
  set (nodes' := p_nodes p ++ lnewpool base sz).
  assert (forall i, base <= i < base + sz -> nodes'.[i] =
    Some (BufferNode None 0 (if i =? base + sz - 1 then None else Some (i + 1)))) as Hnew.
  { intros i Hi. unfold nodes'. rewrite aget_app_r by (fold base; lia). fold base.
    rewrite lnewpool_get by lia. do 2 f_equal. zdec; try lia; [done|]. f_equal. lia. }
  assert (forall i, i < base -> nodes'.[i] = (p_nodes p).[i]) as Hold by (intros; by apply aget_app_l).
  assert (forall x, msg_of nodes' x = msg_of (p_nodes p) x) as Hmsg.
  { intros x. destruct (decide (base <= x < base + sz)) as [Hx|Hx].
    - rewrite (msg_of_lookup _ _ _ (Hnew x Hx)). unfold msg_of. rewrite aget_None by (fold base; lia). done.
    - unfold msg_of. destruct (decide (x < base)); [by rewrite Hold|].
      rewrite !aget_None; [done | fold base; lia | unfold nodes'; rewrite zlen_app, Hlen; fold base; lia]. }
  split; cbn [p_free p_chunks p_nodes p_heap]; fold nodes'.
  - replace sz with (Z.of_nat (Z.to_nat sz)) by lia. apply linked_seq; [|lia]. intros i Hi.
    rewrite Hnew by lia. eexists. split; [done|]. cbn [bn_next]. by rewrite Z2Nat.id by lia.
  - apply NoDup_seqZ.
  - intros x Hx. unfold nodes' in Hx. rewrite zlen_app, Hlen in Hx. fold base in Hx.
    rewrite elem_of_seqZ, Hmsg. split.
    + intros ?. unfold msg_of. rewrite aget_None; [done | fold base; lia].
    + intros Hm. destruct (decide (x < base)); [|lia].
      apply Hnone in Hm; [by apply not_elem_of_nil in Hm | fold base; lia].
  - by eapply mem_ok_ext.
  - unfold nodes'. rewrite zlen_app, Hlen. apply chunks_ok_snoc; [done | lia].
Qed.

(** The node that [lpushbuffer] gets is the first free node of the pool then. *)
Lemma get_free_node_spec p fl blocks : pool_inv p fl blocks ->
  exists x p' fl', get_free_node p = (x, p') /\ pool_inv (with_free p' (Some x)) (x :: fl') blocks /\
    p_heap p' = p_heap p /\
    (forall y nd b, (p_nodes p).[y] = Some nd -> bn_msg nd = Some b -> (p_nodes p').[y] = Some nd).
Proof.
  intros Hp. unfold get_free_node. destruct (p_free p) as [x|] eqn:Hf.
  - pose proof (linked_head _ _ _ _ (pi_free _ _ _ Hp)) as Hh. rewrite Hf in Hh.
    destruct fl as [|y fl]; [done|]. injection Hh as <-.
    exists x, p, fl. split; [done|]. split; [|by split].
    assert (with_free p (Some x) = p) as -> by (rewrite <-Hf; by destruct p). done.
  - pose proof (linked_head _ _ _ _ (pi_free _ _ _ Hp)) as Hh. rewrite Hf in Hh.
    destruct fl as [|y fl]; [|done].
    set (tsz := if pool_rawlen p =? 0 then pool_rawlen p + 1 else pool_rawlen p).
    assert (1 <= tsz) as Ht.
    { unfold tsz, pool_rawlen. destruct (p_chunks p) as [|c chunks]; [done|].
      pose proof (zlen_nonneg (c :: chunks)). case_match; lia. }
    pose proof (chunk_size_bound tsz Ht) as Hsz.
    pose proof (new_chunk_inv p blocks (chunk_size tsz) Hp ltac:(lia)) as Hp'.
    rewrite seqZ_cons in Hp' by lia.
    do 2 eexists. exists (seqZ (Z.succ (zlen (p_nodes p))) (Z.pred (chunk_size tsz))).
    split; [done|]. split; [exact Hp'|]. split; [done|].
    intros z nd b Hz _. cbn [p_nodes]. rewrite aget_app_l; [done|].
    apply aget_lt_Some in Hz. lia.
Qed.

(** The new node [x] gets the block [m]. *)
Lemma fill_node_spec p fl blocks x nd m d sz nodes :
  pool_inv (with_free p (Some x)) (x :: fl) blocks -> blocks !! m = Some d -> 0 < sz <= zlen d ->
  (p_nodes p).[x] = Some nd -> (p_nodes p).[x := BufferNode (Some m) sz None] = Some nodes ->
  let p' := with_nodes (with_free p (bn_next nd)) nodes in
  pool_inv p' fl (delete m blocks) /\ chain p' (Some x) (Some x) [x] [take (Z.to_nat sz) d] /\
  bn_msg nd = None /\ forall y, y <> x -> nodes.[y] = (p_nodes p).[y].
Proof.
  intros [Hfl [Hni Hnd]%NoDup_cons Hnone Hmem Hch] Hm Hsz Hx Hset p'.
  cbn [with_free p_free p_nodes p_heap p_chunks] in *.
  destruct Hfl as (_ & nd' & Hx' & Hfl). rewrite Hx in Hx'. injection Hx' as <-.
  assert (forall y, y <> x -> nodes.[y] = (p_nodes p).[y]) as Hsame
    by (intros y Hy; by rewrite (aget_aset _ _ _ _ _ Hset), decide_False).
  assert (nodes.[x] = Some (BufferNode (Some m) sz None)) as Hxn
    by (by rewrite (aget_aset _ _ _ _ _ Hset), decide_True).
  pose proof (zlen_aset _ _ _ _ Hset) as Hlen.
  assert (bn_msg nd = None) as Hfree.
  { rewrite <-(msg_of_lookup _ _ _ Hx). apply Hnone; [by eapply aget_lt_Some | by left]. }
  assert (mem_ok (msg_of nodes) (p_heap p) (delete m blocks)) as Hmem'.
  { eapply mem_ok_take; [done | done | by rewrite (msg_of_lookup _ _ _ Hx) |].
    intros y. by rewrite (msg_of_aset _ _ _ _ _ Hset). }
  split; [|split; [|done]].
  - split; cbn [p' with_nodes with_free p_free p_nodes p_heap p_chunks]; [| done | | done | congruence].
    + eapply linked_frame; [done|]. intros y Hy. apply Hsame. by intros ->.
    + intros y Hy. rewrite Hlen in Hy. rewrite (msg_of_aset _ _ _ _ _ Hset).
      case_decide as Hyx; [subst; cbn; split; [done | discriminate]|].
      rewrite <-Hnone by done. rewrite elem_of_cons. tauto.
  - split; cbn [p' with_nodes with_free p_free p_nodes p_heap p_chunks].
    + cbn [linked]. split; [done|]. eexists. by split.
    + apply NoDup_singleton.
    + done.
    + constructor; [|constructor]. exists m, d, sz, None. split; [done|]. split; [|done].
      cbn [p_heap]. rewrite (mo_rest _ _ _ Hmem); [done|]. intros y Hy.
      apply (mo_held _ _ _ Hmem) in Hy as [Hy _]. congruence.
Qed.

(** The last node [t] of a chain is linked to [x]. *)
Lemma link_node_spec p fl blocks h l bs t x c tl nodes :
  pool_inv p fl blocks -> chain p h (Some t) l bs -> chain p (Some x) (Some x) [x] [c] -> ~ x ∈ l ->
  (p_nodes p).[t] = Some tl -> (p_nodes p).[t := BufferNode (bn_msg tl) (bn_sz tl) (Some x)] = Some nodes ->
  pool_inv (with_nodes p nodes) fl blocks /\ chain (with_nodes p nodes) h (Some x) (l ++ [x]) (bs ++ [c]) /\
  pframe p (l ++ [x]) (with_nodes p nodes) (l ++ [x]).
Proof.
  intros [Hfl Hfnd Hnone Hmem Hch] Hc Hcx Hni Ht Hset.
  pose proof Hc as [Hl Hnodup Htail Hh]. pose proof (eq_sym Htail) as [l0 ->]%last_Some.
  assert (forall y, y <> t -> nodes.[y] = (p_nodes p).[y]) as Hsame
    by (intros y Hy; by rewrite (aget_aset _ _ _ _ _ Hset), decide_False).
  assert (nodes.[t] = Some (BufferNode (bn_msg tl) (bn_sz tl) (Some x))) as Htn
    by (by rewrite (aget_aset _ _ _ _ _ Hset), decide_True).
  assert (forall y, msg_of nodes y = msg_of (p_nodes p) y) as Hmsg.
  { intros y. rewrite (msg_of_aset _ _ _ _ _ Hset). case_decide; [|done]. subst. by rewrite (msg_of_lookup _ _ _ Ht). }
  assert (x <> t) as Hxt by (intros ->; apply Hni, elem_of_app; right; by left).
  assert (forall y c, holds p y c -> holds (with_nodes p nodes) y c) as Hholds.
  { intros y c' (b & d & sz & nx & Hy & Hb & Hsz & ->). destruct (decide (y = t)) as [->|Hyt].
    - rewrite Ht in Hy. injection Hy as ->. by exists b, d, sz, (Some x).
    - exists b, d, sz, nx. cbn [with_nodes p_nodes p_heap]. by rewrite Hsame. }
  destruct (chain_holds _ _ _ _ _ t Hc) as (ct & b & d & sz & nx & Htb & _);
    [apply elem_of_app; right; by left|].
  rewrite Ht in Htb. injection Htb as ->.
  split; [|split].
  - split; cbn [with_nodes p_free p_nodes p_heap p_chunks]; [| done | | | by rewrite (zlen_aset _ _ _ _ Hset)].
    + eapply linked_frame; [done|]. intros y Hy. apply Hsame. intros ->.
      apply Hnone in Hy; [|by eapply aget_lt_Some]. rewrite (msg_of_lookup _ _ _ Ht) in Hy. done.
    + intros y Hy. rewrite (zlen_aset _ _ _ _ Hset) in Hy. rewrite Hmsg. by apply Hnone.
    + by eapply mem_ok_ext.
  - split; cbn [with_nodes p_nodes].
    + destruct Hcx as [(_ & ndx & Hx & Hnx) _ _ _]. rewrite <-app_assoc. eapply linked_snoc; [exact Hl | done | exact Htn | done | by rewrite Hsame | done |].
      intros y Hy. apply Hsame. intros ->. apply NoDup_app in Hnodup as (_ & Hd & _). apply (Hd t Hy). by left.
    + apply NoDup_app. split; [done|]. split; [|apply NoDup_singleton].
      intros y Hy ->%list_elem_of_singleton. done.
    + by rewrite last_snoc.
    + destruct Hcx as [_ _ _ [Hx _]%Forall2_cons]. apply Forall2_app; [|constructor; [by apply Hholds | done]].
      eapply Forall2_impl; [exact Hh|]. apply Hholds.
  - intros y ny k Hy Hny Hk. cbn [with_nodes p_nodes p_heap]. rewrite Hsame; [done|].
    intros ->. apply Hy. rewrite !elem_of_app. left. right. by left.
Qed.

Lemma unread_snoc o bs c : offset_ok o bs -> unread o (bs ++ [c]) = unread o bs ++ c.
Proof.
  intros Ho. unfold unread. rewrite join_app. change (mjoin [c]) with (c ++ []). rewrite app_nil_r.
  apply drop_app_le. destruct bs as [|b bs]; unfold offset_ok in Ho; [subst; cbn; lia|].
  rewrite mjoin_cons, length_app. unfold zlen in Ho. lia.
Qed.

(** [lpushbuffer] up to the links of the buffer: a new node [x] with the block [m]. *)
Lemma new_node_spec p fl blocks h t l bs m d sz :
  pool_inv p fl blocks -> chain p h t l bs -> blocks !! m = Some d -> 0 < sz <= zlen d ->
  exists x p1 nd nodes fl', get_free_node p = (x, p1) /\ (p_nodes p1).[x] = Some nd /\
    (p_nodes p1).[x := BufferNode (Some m) sz None] = Some nodes /\
    let p' := with_nodes (with_free p1 (bn_next nd)) nodes in
    pool_inv p' fl' (delete m blocks) /\ chain p' (Some x) (Some x) [x] [take (Z.to_nat sz) d] /\
    chain p' h t l bs /\ ~ x ∈ l /\ pframe p l p' (l ++ [x]).
Proof.
  intros Hp Hc Hm Hsz.
  destruct (get_free_node_spec p fl blocks Hp) as (x & p1 & fl' & Hget & Hp1 & Hheap & Hkeep).
  destruct (pi_free _ _ _ Hp1) as (_ & nd & Hx & _). cbn [with_free p_nodes] in Hx.
  pose proof (aset_Some (p_nodes p1) x (BufferNode (Some m) sz None) (aget_lt_Some _ _ _ Hx)) as Hset.
  set (nodes := <[Z.to_nat x := _]> (p_nodes p1)) in *.
  destruct (fill_node_spec p1 fl' blocks x nd m d sz nodes Hp1 Hm Hsz Hx Hset) as (Hp2 & Hcx & Hfree & Hsame).
  exists x, p1, nd, nodes, fl'. set (p' := with_nodes (with_free p1 (bn_next nd)) nodes) in *.
  assert (forall y ny b, (p_nodes p).[y] = Some ny -> bn_msg ny = Some b -> y <> x) as Hyx.
  { intros y ny b Hy Hb ->. eapply Hkeep in Hy; [|done]. congruence. }
  assert (forall l1, pframe p l1 p' (l1 ++ [x])) as Hf.
  { intros l1 y ny b Hy Hny Hb. pose proof (Hyx y ny b Hny Hb) as Hne.
    cbn [p' with_nodes with_free p_nodes p_heap]. rewrite Hsame, Hheap by done.
    split; [by eapply Hkeep|]. split; [done|]. rewrite elem_of_app, list_elem_of_singleton. tauto. }
  split; [done|]. split; [done|]. split; [done|]. cbv zeta. fold p'. split_and!; try done.
  - apply (chain_frame p [] p' [x] _ _ _ _ (Hf [])); [|done]. intros y _. apply not_elem_of_nil.
  - intros Hin. destruct (chain_holds _ _ _ _ _ x Hc Hin) as (? & b & ? & ? & ? & Hny & _).
    by eapply Hyx in Hny.
Qed.

(** The buffer after [lpushbuffer]. *)
Lemma push_sb_rep p sb s h t l' bs c : sb_size sb = zlen s -> zlen s + zlen c < 2 ^ 31 ->
  0 < zlen c -> chain p h t l' (bs ++ [c]) -> offset_ok (sb_offset sb) bs -> s = unread (sb_offset sb) bs ->
  sb_rep p (SocketBuffer (zlen s + zlen c) (sb_offset sb) h t) l' (s ++ c).
Proof.
  intros Hsize Hmax Hpos Hc Ho ->. split; [|cbn [sb_size]; by rewrite zlen_app | by rewrite zlen_app].
  exists (bs ++ [c]). cbn [sb_offset sb_head sb_tail]. rewrite unread_snoc by done.
  split; [done|]. split; [|done]. destruct bs as [|b bs]; [|done].
  cbn [app offset_ok] in *. lia.
Qed.

Lemma lpushbuffer_spec p fl blocks sb l s m d sz :
  pool_inv p fl blocks -> sb_rep p sb l s -> blocks !! m = Some d -> 0 < sz <= zlen d ->
  zlen s + sz < 2 ^ 31 ->
  exists sb' p', lpushbuffer sb p (Some m) sz = Ok (zlen s + sz, sb', p') /\
    sb_post p l (delete m blocks) p' sb' (s ++ take (Z.to_nat sz) d).
Proof.
  intros Hp [(bs & Hc & Ho & ->) Hsize Hsmall] Hm Hsz Hmax. set (s := unread (sb_offset sb) bs) in *.
  pose proof (zlen_nonneg s) as Hs0. set (c := take (Z.to_nat sz) d).
  assert (zlen c = sz) as Hzc by (unfold c; apply zlen_take; lia).
  destruct (new_node_spec p fl blocks _ _ _ _ m d sz Hp Hc Hm Hsz)
    as (x & p1 & nd & nodes1 & fl' & Hget & Hx & Hset & Hp2 & Hcx & Hc2 & Hxl & Hf2).
  set (p2 := with_nodes (with_free p1 (bn_next nd)) nodes1) in *. fold c in Hcx.
  unfold lpushbuffer. rewrite s32_small by (unfold is_s32; lia).
  rewrite Hget, Hx, lift_Some, ok_bind. cbn [with_free p_nodes]. rewrite Hset, lift_Some, ok_bind.
  pose proof Hc2 as [Hl2 _ Ht2 Hh2]. pose proof (linked_head _ _ _ _ Hl2) as Hhead.
  destruct l as [|z l].
  - rewrite Hhead, Ht2. cbn [head last].
    rewrite (bool_decide_eq_true_2 (None = None)) by done. cbn [cassert lift].
    rewrite !ok_bind, Hsize, bool_decide_eq_true_2 by (unfold is_s32; lia). cbn [cassert lift].
    rewrite ok_bind. do 2 eexists. split; [done|]. exists [x], fl'. split; [exact Hp2|]. split; [|exact Hf2].
    pose proof (Forall2_nil_inv_l _ _ Hh2) as ->. rewrite <-Hzc. apply (push_sb_rep _ _ s _ _ _ []); [lia | lia | lia | done..].
  - rewrite Hhead. cbn [head]. destruct (sb_tail sb) as [t|] eqn:Htail; [|by apply eq_sym, last_None in Ht2].
    rewrite lift_Some, ok_bind. pose proof (eq_sym Ht2) as [l0 Hl0]%last_Some.
    destruct (chain_holds p2 _ _ _ _ t Hc2) as (ct & b & d' & sz' & nx & Htn & _);
      [rewrite Hl0; apply elem_of_app; right; by left|].
    cbn [p2 with_nodes p_nodes] in Htn. rewrite Htn, lift_Some, ok_bind.
    pose proof (aset_Some nodes1 t (BufferNode (Some b) sz' (Some x)) (aget_lt_Some _ _ _ Htn)) as Hset2.
    cbn [bn_msg bn_sz]. rewrite Hset2, lift_Some, !ok_bind.
    rewrite Hsize, bool_decide_eq_true_2 by (unfold is_s32; lia). cbn [cassert lift]. rewrite ok_bind.
    do 2 eexists. split; [done|]. exists ((z :: l) ++ [x]), fl'.
    destruct (link_node_spec p2 fl' _ _ _ _ t x c _ _ Hp2 Hc2 Hcx Hxl Htn Hset2) as (Hp3 & Hc3 & Hf3).
    split; [exact Hp3|]. split; [|by eapply pframe_trans].
    rewrite <-Hzc. rewrite Hhead in Hc3. by apply (push_sb_rep _ _ s _ _ _ bs); [lia | lia | lia | | |].
Qed.

(** ** Lines *)

Lemma prefix_take (sep s : list Z) : sep `prefix_of` s <-> take (length sep) s = sep.
Proof.
  split.
  - intros [k ->]. by rewrite take_app_length.
  - intros <-. by eapply prefix_take.
Qed.

Lemma prefix_app_short (sep a s : list Z) : (length sep <= length a)%nat ->
  sep `prefix_of` a ++ s <-> take (length sep) a = sep.
Proof. intros. by rewrite prefix_take, take_app_le. Qed.

Lemma prefix_app_long (sep a s : list Z) : (length a <= length sep)%nat ->
  sep `prefix_of` a ++ s <-> a = take (length a) sep /\ drop (length a) sep `prefix_of` s.
Proof.
  intros Hle. rewrite !prefix_take, length_drop, take_app_ge by done. split.
  - intros Hs. rewrite <-Hs at 1 3. by rewrite take_app_length, drop_app_length.
  - intros [Ha Hd]. transitivity (take (length a) sep ++ drop (length a) sep);
      [congruence | apply take_drop].
Qed.

Lemma zlen_pos_nonempty {A} (l : list A) : 0 < zlen l -> l <> [].
Proof. by intros Hl ->. Qed.

(** Comparing a part of a node with the start of the separator. *)
Lemma node_memcmp_spec p x c nd off sep n : holds p x c -> (p_nodes p).[x] = Some nd ->
  0 <= off -> 0 <= n -> off + n <= zlen c -> n <= zlen sep ->
  node_memcmp p nd off sep n =
    Ok (bool_decide (take (Z.to_nat n) (drop (Z.to_nat off) c) = take (Z.to_nat n) sep)).
Proof.
  intros (nd' & Hnd' & _ & _ & Hread)%holds_inv Hnd Ho Hn Hle Hsep.
  rewrite Hnd in Hnd'. injection Hnd' as <-.
  unfold node_memcmp. rewrite Hread, ok_bind by lia. rewrite memcmp_spec, take_idemp; [done | |].
  - unfold zlen in *. rewrite length_take, length_drop. lia.
  - unfold zlen in *. lia.
Qed.

Lemma check_sep_spec fuel : forall p h t l bs off sep, chain p h t l bs -> offset_ok off bs ->
  l <> [] -> zlen sep <= zlen (unread off bs) -> (length l <= fuel)%nat ->
  check_sep fuel p h off sep = Ok (bool_decide (sep `prefix_of` unread off bs)).
Proof.
  induction fuel as [|fuel IH]; intros p h t l bs off sep Hc Ho Hl Hsep Hfuel.
  { destruct l; [done | simpl in Hfuel; lia]. }
  pose proof (Forall2_length _ _ _ (ch_holds _ _ _ _ _ Hc)) as Hlen.
  destruct l as [|x l], bs as [|c bs]; [done|done|done|]; clear Hlen.
  rewrite (sb_unread_cons _ _ _ Ho) in *. unfold offset_ok in Ho.
  pose proof (chain_cons _ _ _ _ _ _ _ Hc) as (-> & Hx & nd & Hnd & Hc' & _).
  pose proof Hx as (nd' & Hnd' & Hsiz & _ & _)%holds_inv. rewrite Hnd in Hnd'. injection Hnd' as <-.
  set (a := drop (Z.to_nat off) c) in *.
  assert (zlen a = zlen c - off) as Ha by (apply zlen_drop; lia).
  cbn [check_sep]. rewrite !lift_Some, ok_bind, Hnd, lift_Some, ok_bind, Hsiz.
  pose proof (zlen_nonneg sep).
  destruct (Z.leb_spec (zlen sep) (zlen c - off)) as [Hle|Hgt].
  - rewrite (node_memcmp_spec p x c) by (done || lia). f_equal. apply bool_decide_ext. fold a.
    unfold zlen in *. rewrite Nat2Z.id, (take_ge sep) by lia. rewrite prefix_app_short by lia. done.
  - rewrite (proj2 (Z.ltb_lt 0 (zlen c - off))) by lia.
    rewrite (node_memcmp_spec p x c), ok_bind by (done || lia). fold a.
    rewrite (take_ge a) by (unfold zlen in *; lia). rewrite (proj2 (Z.ltb_ge (zlen c - off) 0)) by lia.
    assert (Z.to_nat (zlen c - off) = length a) as Hn by (unfold zlen in *; lia).
    rewrite Hn. rewrite zlen_app in Hsep.
    rewrite (bool_decide_ext (sep `prefix_of` a ++ mjoin bs) (a = take (length a) sep /\ drop (length a) sep `prefix_of` mjoin bs))
      by (apply prefix_app_long; unfold zlen in *; lia).
    rewrite bool_decide_and. destruct (bool_decide (a = _)) eqn:Heq; [|done]. cbn [andb].
    assert (zlen (drop (length a) sep) = zlen sep - zlen a) as Hd.
    { unfold zlen in *. rewrite length_drop. lia. }
    rewrite (IH p _ _ l bs 0 _ Hc'); [done | by eapply chain_offset_0 | | rewrite sb_unread_0; lia | simpl in Hfuel; lia].
    intros ->. pose proof (Forall2_nil_inv_l _ _ (ch_holds _ _ _ _ _ Hc')) as ->.
    change (zlen (mjoin [])) with 0 in *. lia.
Qed.

(** The place of the first [sep] in [s]. *)
Fixpoint find_sep (sep s : list Z) : option Z :=
  match s with
  | [] => None
  | _ :: s' => if bool_decide (sep `prefix_of` s) then Some 0 else i ← find_sep sep s'; Some (i + 1)
  end.

Lemma find_sep_Some sep s i : find_sep sep s = Some i -> 0 <= i /\ i + zlen sep <= zlen s /\ s <> [] /\
  (exists rest, s = take (Z.to_nat i) s ++ sep ++ rest) /\
  forall j, 0 <= j < i -> ~ sep `prefix_of` drop (Z.to_nat j) s.
Proof.
  revert i. induction s as [|x s IH]; intros i; cbn [find_sep]; [done|].
  case_bool_decide as Hp.
  - intros [= <-]. destruct Hp as [rest Hrest]. split; [done|]. split.
    { rewrite Hrest, zlen_app. pose proof (zlen_nonneg rest). lia. }
    split; [done|]. split; [by exists rest | lia].
  - intros (k & Hk & [= <-])%bind_Some. destruct (IH k Hk) as (Hk0 & Hle & Hs & (rest & Hrest) & Hno).
    rewrite zlen_cons. split; [lia|]. split; [lia|]. split; [done|]. split.
    + exists rest. replace (Z.to_nat (k + 1)) with (S (Z.to_nat k)) by lia. cbn [firstn app]. by f_equal.
    + intros j Hj. destruct (decide (j = 0)) as [->|]; [done|].
      replace (Z.to_nat j) with (S (Z.to_nat (j - 1))) by lia. cbn [skipn]. apply Hno. lia.
Qed.

Lemma find_sep_None sep s : zlen s < zlen sep -> find_sep sep s = None.
Proof.
  induction s as [|x s IH]; cbn [find_sep]; [done|]. intros Hl.
  rewrite bool_decide_eq_false_2, IH; [done | rewrite zlen_cons in Hl; lia |].
  intros [k Hk]. rewrite Hk, zlen_app in Hl. pose proof (zlen_nonneg k). lia.
Qed.

Definition find_from (sep s : list Z) (i : Z) : option Z := j ← find_sep sep s; Some (i + j).

Lemma find_from_step sep y s i : find_from sep (y :: s) i =
  if bool_decide (sep `prefix_of` y :: s) then Some i else find_from sep s (i + 1).
Proof.
  unfold find_from. cbn [find_sep]. case_bool_decide; cbn [mbind option_bind].
  - f_equal. lia.
  - destruct (find_sep sep s); cbn [mbind option_bind]; [|done]. f_equal. lia.
Qed.

Lemma lreadline_loop_spec fuel : forall p h t x l c bs from sep limit i,
  chain p h t (x :: l) (c :: bs) -> 0 <= from < zlen c ->
  limit = i + zlen (unread from (c :: bs)) - zlen sep -> limit - i + 1 <= Z.of_nat fuel ->
  lreadline_loop fuel p sep limit i x from (zlen c - from) = Ok (find_from sep (unread from (c :: bs)) i).
Proof.
  induction fuel as [|fuel IH]; intros p h t x l c bs from sep limit i Hc Ho Hlim Hfuel;
    cbn [lreadline_loop].
  all: destruct (Z.leb_spec i limit) as [Hle|Hgt];
    [|unfold find_from; rewrite find_sep_None by lia; done].
  { lia. }
  rewrite (check_sep_spec _ p (Some x) (last (x :: l)) (x :: l) (c :: bs)), ok_bind; [| | done | done | lia |].
  2:{ pose proof (chain_cons _ _ _ _ _ _ _ Hc) as (-> & _). by destruct Hc as [? ? ? ?]; split. }
  2:{ destruct Hc as [Hl Hnd _ _]. by eapply linked_length. }
  pose proof (chain_cons _ _ _ _ _ _ _ Hc) as (_ & _ & nd & Hnd & Hc' & _).
  pose proof (zlen_drop c from ltac:(lia)) as Hd.
  rewrite (sb_unread_cons from c bs Ho) in *. destruct (drop (Z.to_nat from) c) as [|y a] eqn:Ha;
    [change (zlen (@nil Z)) with 0 in Hd; lia|]. cbn [app] in *.
  rewrite zlen_cons in Hd. rewrite zlen_cons, zlen_app in Hlim.
  rewrite find_from_step. case_bool_decide; [done|].
  destruct (Z.eqb_spec (zlen c - from - 1) 0) as [He|Hne].
  - pose proof (zlen_nil_inv a ltac:(lia)) as ->. change (zlen (@nil Z)) with 0 in *. cbn [app].
    rewrite Hnd, lift_Some, ok_bind. destruct l as [|z l].
    { pose proof (Forall2_nil_inv_l _ _ (ch_holds _ _ _ _ _ Hc')) as ->.
      rewrite (linked_head _ _ _ _ (ch_linked _ _ _ _ _ Hc')). done. }
    destruct bs as [|c' bs]; [by pose proof (Forall2_length _ _ _ (ch_holds _ _ _ _ _ Hc'))|].
    pose proof (chain_cons _ _ _ _ _ _ _ Hc') as (-> & (nd' & Hnd' & Hsiz & Hpos & _)%holds_inv & _).
    rewrite Hnd', lift_Some, ok_bind, Hsiz. replace (zlen c') with (zlen c' - 0) by lia.
    eapply (IH p _ _ z l c' bs 0); [exact Hc' | lia | rewrite sb_unread_0; lia | lia].
  - assert (unread (from + 1) (c :: bs) = a ++ mjoin bs) as Hnext.
    { rewrite sb_unread_cons by (unfold offset_ok; pose proof (zlen_nonneg a); lia). f_equal.
      replace (Z.to_nat (from + 1)) with (Z.to_nat from + 1)%nat by lia. by rewrite <-drop_drop, Ha. }
    replace (zlen c - from - 1) with (zlen c - (from + 1)) by lia. rewrite <-Hnext.
    eapply (IH p h t x l c bs (from + 1)); [done | pose proof (zlen_nonneg a); lia | rewrite Hnext, zlen_app; lia | lia].
Qed.

(** What [lreadline] does to the stream. *)
Definition stream_line (check : bool) (sep s : list Z) : line * list Z :=
  match find_sep sep s with
  | None => (NoLine, s)
  | Some i =>
      if check then (HasLine, s)
      else (Line (take (Z.to_nat i) s), drop (Z.to_nat (i + zlen sep)) s)
  end.

Lemma lreadline_spec p fl blocks sb l s check sep :
  pool_inv p fl blocks -> sb_rep p sb l s -> zlen sep < 2 ^ 31 ->
  exists sb' p', lreadline sb p check sep = Ok ((stream_line check sep s).1, sb', p') /\
    sb_post p l blocks p' sb' (stream_line check sep s).2.
Proof.
  intros Hp Hr Hsep. pose proof Hr as [Hb Hsize Hsmall]. pose proof (zlen_nonneg sep).
  unfold lreadline, stream_line. destruct (decide (s = [])) as [->|Hs].
  { destruct (sb_bytes_empty _ _ _ Hb) as [-> _]. do 2 eexists. split; [done|]. by eapply sb_post_refl. }
  destruct (sb_bytes_nonempty _ _ _ _ Hb Hs) as (x & l' & c & bs & -> & Hc & Ho & Heq).
  pose proof (chain_cons _ _ _ _ _ _ _ Hc) as (Hh & (nd & Hnd & Hsiz & _ & _)%holds_inv & _).
  rewrite Hh, Hnd, lift_Some, ok_bind, Hsiz, (s32_small (zlen sep)) by (unfold is_s32; lia).
  pose proof (sb_unread_cons (sb_offset sb) c bs Ho) as Hu. rewrite <-Hu in Heq.
  rewrite (lreadline_loop_spec _ p _ _ x l' c bs _ _ _ _ Hc), ok_bind;
    [|done | rewrite <-Heq; lia | lia]. rewrite <-Heq. unfold find_from.
  destruct (find_sep sep s) as [i|] eqn:Hf; cbn [mbind option_bind];
    [|do 2 eexists; split; [done|]; by eapply sb_post_refl].
  destruct (find_sep_Some _ _ _ Hf) as (Hi & Hle & _ & _ & _). rewrite Z.add_0_l.
  destruct check; [do 2 eexists; split; [done|]; by eapply sb_post_refl|].
  rewrite (s32_small (i + zlen sep)) by (unfold is_s32; lia).
  destruct (pop_lstring_spec p fl blocks sb (x :: l') s (i + zlen sep) (zlen sep) Hp Hb Hs ltac:(lia) ltac:(lia))
    as (sb' & p' & -> & Hpost).
  rewrite ok_bind, Z.add_simpl_r. pose proof Hpost as (? & ? & _ & _ & _ & Hs').
  pose proof (zlen_drop s (i + zlen sep) ltac:(lia)) as Hd.
  rewrite Hs', Hsize, s32_small by (unfold is_s32; lia). rewrite <-Hd.
  do 2 eexists. split; [done|]. eapply read_post_rep; [done | done | cbn [snd]; lia].
Qed.
