(* ===== verification/LuaSocketVm.v ===== *)
(** The socket buffers of a VM together: a map of byte streams and the blocks that the
    service holds.  The calls of [LuaSocket] refine the operations on them. *)
From Stdlib Require Import String.
From S2P Require Import Prelude Bytes CStr Links LuaSocket LuaSocketStream.
Open Scope Z_scope.

(** The streams, and the blocks that are not in a buffer. *)
Record spec := Spec {
  sp_streams : gmap Z (list Z);
  sp_blocks : gmap Z (list Z)
}.

Definition set_stream (sp : spec) (i : Z) (s : list Z) : spec :=
  Spec (<[i := s]> (sp_streams sp)) (sp_blocks sp).

Definition on_stream (msg : string) (sb : option Z) (sp : spec)
    (f : Z -> list Z -> option (res (ret * spec))) : option (res (ret * spec)) :=
  match sb with
  | None => Some (Err msg)
  | Some i => s ← sp_streams sp !! i; f i s
  end.

(** What a call does; [None] where it is not to be used so: on a buffer that was not made,
    with a size that is not that of a part of the block, with a negative size. *)
Definition spec_call (c : call) (sp : spec) : option (res (ret * spec)) :=
  match c with
  | CNew i => Some (Ok (RNone, set_stream sp i []))
  | CCollect i => Some (Ok (RNone, Spec (delete i (sp_streams sp)) (sp_blocks sp)))
  | CData b d => Some (Ok (RNone, Spec (sp_streams sp) (<[b := d]> (sp_blocks sp))))
  | CPush sb msg sz => on_stream "need buffer object at param 1" sb sp (fun i s =>
      match msg with
      | None => Some (Err "need message block at param 3")
      | Some b =>
          d ← sp_blocks sp !! b;
          if (0 <? sz) && (sz <=? zlen d) && (zlen s + sz <? 2 ^ 31) then
            Some (Ok (RSize (zlen s + sz),
              Spec (<[i := s ++ take (Z.to_nat sz) d]> (sp_streams sp)) (delete b (sp_blocks sp))))
          else None
      end)
  | CPop sb sz => on_stream "Need buffer object at param 1" sb sp (fun i s =>
      if (0 <=? sz) && (sz <? 2 ^ 31) then
        if (zlen s <? sz) || (sz =? 0) then Some (Ok (RPop None (zlen s), sp))
        else Some (Ok (RPop (Some (take (Z.to_nat sz) s)) (zlen s - sz), set_stream sp i (drop (Z.to_nat sz) s)))
      else None)
  | CReadall sb => on_stream "Need buffer object at param 1" sb sp (fun i s =>
      Some (Ok (RString s, set_stream sp i [])))
  | CClear sb => on_stream "Need buffer object at param 1" sb sp (fun i s =>
      Some (Ok (RNone, set_stream sp i [])))
  | CReadline sb check sep => on_stream "Need buffer object at param 1" sb sp (fun i s =>
      if zlen sep <? 2 ^ 31 then
        Some (Ok (RLine (stream_line check sep s).1, set_stream sp i (stream_line check sep s).2))
      else None)
  | CDrop msg sz =>
      match msg with
      | None => Some (Ok (RNone, sp))
      | Some b => _ ← sp_blocks sp !! b; Some (Ok (RNone, Spec (sp_streams sp) (delete b (sp_blocks sp))))
      end
  | CStr2p b str => Some (Ok (RPtr b (s32 (zlen str)), Spec (sp_streams sp) (<[b := str]> (sp_blocks sp))))
  end.

(** [lua_newuserdata] and [uboss_malloc] return what is not in use. *)
Definition fresh_call (c : call) (v : vm) : Prop :=
  match c with
  | CNew i => vm_bufs v !! i = None
  | CData b _ | CStr2p b _ => p_heap (vm_pool v) !! b = None
  | _ => True
  end.

(** The VM stands for [sp]; the buffers have the nodes [chains]. *)
Record vm_rep_at (v : vm) (sp : spec) (chains : Z -> list Z) (fl : list Z) : Prop := {
  vr_pool : pool_inv (vm_pool v) fl (sp_blocks sp);
  vr_dom : forall i, vm_bufs v !! i = None <-> sp_streams sp !! i = None;
  vr_bufs : forall i sb s, vm_bufs v !! i = Some sb -> sp_streams sp !! i = Some s ->
    sb_rep (vm_pool v) sb (chains i) s;
  vr_disj : forall i j x, is_Some (vm_bufs v !! i) -> is_Some (vm_bufs v !! j) ->
    x ∈ chains i -> x ∈ chains j -> i = j
}.

Definition vm_rep (v : vm) (sp : spec) : Prop := exists chains fl, vm_rep_at v sp chains fl.

(** ** Steps *)

(** An operation on the buffer [i]. *)
Lemma rep_buffer v sp chains fl i sb s p' sb' s' blocks' :
  vm_rep_at v sp chains fl -> vm_bufs v !! i = Some sb -> sp_streams sp !! i = Some s ->
  sb_post (vm_pool v) (chains i) blocks' p' sb' s' ->
  vm_rep (Vm (<[i := sb']> (vm_bufs v)) p') (Spec (<[i := s']> (sp_streams sp)) blocks').
Proof.
  intros [Hp Hdom Hbufs Hdisj] Hsb Hs (l' & fl' & Hp' & Hr' & Hf).
  assert (forall j sbj sj, j <> i -> vm_bufs v !! j = Some sbj -> sp_streams sp !! j = Some sj ->
    sb_rep p' sbj (chains j) sj /\ forall x, x ∈ chains j -> ~ x ∈ l') as Hother.
  { intros j sbj sj Hj Hb Hst. eapply sb_rep_frame; [exact Hf | | by eapply Hbufs].
    intros x Hx Hx'. apply Hj. by eapply Hdisj. }
  exists (fun j => if decide (j = i) then l' else chains j), fl'.
  split; cbn [vm_bufs vm_pool sp_streams sp_blocks]; [done | | |].
  - intros j. destruct (decide (j = i)) as [->|]; [by rewrite !lookup_insert_eq|].
    rewrite !lookup_insert_ne by done. apply Hdom.
  - intros j sbj sj. case_decide as Hj.
    + subst. rewrite !lookup_insert_eq. by intros [= <-] [= <-].
    + rewrite !lookup_insert_ne by done. intros. by eapply Hother.
  - assert (forall j x, j <> i -> is_Some (vm_bufs v !! j) -> x ∈ chains j -> ~ x ∈ l') as Hout.
    { intros j x Hj [sbj Hb] Hx. destruct (sp_streams sp !! j) as [sj|] eqn:Hsj.
      - by apply (Hother j sbj sj).
      - apply Hdom in Hsj. congruence. }
    assert (forall j, j <> i -> is_Some (<[i := sb']> (vm_bufs v) !! j) -> is_Some (vm_bufs v !! j)) as Hne
      by (intros j Hj; by rewrite lookup_insert_ne).
    intros j k x Hj Hk Hx Hx'. destruct (decide (j = i)) as [->|Hji], (decide (k = i)) as [->|Hki]; [done | | |].
    + by destruct (Hout k x Hki (Hne k Hki Hk) Hx').
    + by destruct (Hout j x Hji (Hne j Hji Hj) Hx).
    + by apply (Hdisj j k x); auto.
Qed.

(** A change of the pool that the buffers do not see. *)
Lemma rep_pool v sp chains fl p' fl' blocks' :
  vm_rep_at v sp chains fl -> pool_inv p' fl' blocks' -> pframe (vm_pool v) [] p' [] ->
  vm_rep (Vm (vm_bufs v) p') (Spec (sp_streams sp) blocks').
Proof.
  intros [Hp Hdom Hbufs Hdisj] Hp' Hf. exists chains, fl'.
  split; cbn [vm_bufs vm_pool sp_streams sp_blocks]; [done | done | | done].
  intros i sb s Hsb Hs. eapply sb_rep_frame; [exact Hf | | by eapply Hbufs].
  intros x _. apply not_elem_of_nil.
Qed.

Lemma rep_new v sp i : vm_rep v sp -> vm_bufs v !! i = None ->
  vm_rep (Vm (<[i := lnewbuffer]> (vm_bufs v)) (vm_pool v)) (set_stream sp i []).
Proof.
  intros (chains & fl & [Hp Hdom Hbufs Hdisj]) Hi.
  exists (fun j => if decide (j = i) then [] else chains j), fl.
  split; cbn [vm_bufs vm_pool sp_streams sp_blocks set_stream]; [done | | |].
  - intros j. destruct (decide (j = i)) as [->|]; [by rewrite !lookup_insert_eq|].
    rewrite !lookup_insert_ne by done. apply Hdom.
  - intros j sbj sj. case_decide as Hj; [|rewrite !lookup_insert_ne by done; by apply Hbufs].
    subst. rewrite !lookup_insert_eq. intros [= <-] [= <-]. split; [|done|done].
    exists []. split; [split; [done | constructor | done | constructor]|]. done.
  - intros j k x Hj Hk Hx Hx'.
    destruct (decide (j = i)) as [->|Hji]; [by apply not_elem_of_nil in Hx|].
    destruct (decide (k = i)) as [->|Hki]; [by apply not_elem_of_nil in Hx'|].
    rewrite lookup_insert_ne in Hj, Hk by done. by eapply Hdisj.
Qed.

Lemma rep_collect v sp i : vm_rep v sp ->
  vm_rep (Vm (delete i (vm_bufs v)) (vm_pool v)) (Spec (delete i (sp_streams sp)) (sp_blocks sp)).
Proof.
  intros (chains & fl & [Hp Hdom Hbufs Hdisj]). exists chains, fl.
  split; cbn [vm_bufs vm_pool sp_streams sp_blocks]; [done | | |].
  - intros j. destruct (decide (j = i)) as [->|]; [by rewrite !lookup_delete_eq|].
    rewrite !lookup_delete_ne by done. apply Hdom.
  - intros j sbj sj [? ?]%lookup_delete_Some [_ ?]%lookup_delete_Some. by eapply Hbufs.
  - intros j k x [? [_ Hj]%lookup_delete_Some] [? [_ Hk]%lookup_delete_Some]. by apply Hdisj.
Qed.

(** ** Blocks *)
Lemma pool_inv_alloc p fl blocks b d : pool_inv p fl blocks -> p_heap p !! b = None ->
  pool_inv (with_heap p (<[b := d]> (p_heap p))) fl (<[b := d]> blocks) /\
  pframe p [] (with_heap p (<[b := d]> (p_heap p))) [].
Proof.
  intros [Hfl Hnd Hnone [Hi Hh Hr] Hch] Hb.
  assert (forall x c, msg_of (p_nodes p) x = Some c -> c <> b) as Hne.
  { intros x c Hx ->. apply Hh in Hx as [_ [? ?]]. congruence. }
  split; [split; [done | done | done | | done]|].
  - cbn [with_heap p_nodes p_heap]. split; [done | |].
    + intros x c Hx. pose proof (Hne x c Hx). rewrite !lookup_insert_ne by done. by eapply Hh.
    + intros c Hc. destruct (decide (c = b)) as [->|]; [by rewrite !lookup_insert_eq|].
      rewrite !lookup_insert_ne by done. by apply Hr.
  - intros x nd c _ Hx Hc. cbn [with_heap p_nodes p_heap]. split; [done|]. split; [|apply not_elem_of_nil].
    apply lookup_insert_ne. intros ->. eapply Hne; [|done]. by rewrite (msg_of_lookup _ _ _ Hx).
Qed.

Lemma pool_inv_drop p fl blocks b d : pool_inv p fl blocks -> blocks !! b = Some d ->
  p_heap p !! b = Some d /\
  pool_inv (with_heap p (delete b (p_heap p))) fl (delete b blocks) /\
  pframe p [] (with_heap p (delete b (p_heap p))) [].
Proof.
  intros [Hfl Hnd Hnone [Hi Hh Hr] Hch] Hb.
  assert (forall x c, msg_of (p_nodes p) x = Some c -> c <> b) as Hne.
  { intros x c Hx ->. apply Hh in Hx as [? _]. congruence. }
  split; [|split; [split; [done | done | done | | done]|]].
  - rewrite Hr; [done|]. intros x Hx. by eapply Hne.
  - cbn [with_heap p_nodes p_heap]. split; [done | |].
    + intros x c Hx. pose proof (Hne x c Hx). rewrite !lookup_delete_ne by done. by eapply Hh.
    + intros c Hc. destruct (decide (c = b)) as [->|]; [by rewrite !lookup_delete_eq|].
      rewrite !lookup_delete_ne by done. by apply Hr.
  - intros x nd c _ Hx Hc. cbn [with_heap p_nodes p_heap]. split; [done|]. split; [|apply not_elem_of_nil].
    apply lookup_delete_ne. intros ->. eapply Hne; [|done]. by rewrite (msg_of_lookup _ _ _ Hx).
Qed.

(** ** Closing *)
Lemma lfreepool_loop_spec blocks xs : forall p, mem_ok (msg_of (p_nodes p)) (p_heap p) blocks ->
  (forall x, x ∈ xs -> 0 <= x < zlen (p_nodes p)) ->
  exists p', lfreepool_loop xs p = Ok p' /\ mem_ok (msg_of (p_nodes p')) (p_heap p') blocks /\
    zlen (p_nodes p') = zlen (p_nodes p) /\
    forall y, msg_of (p_nodes p') y = if decide (y ∈ xs) then None else msg_of (p_nodes p) y.
Proof.
  induction xs as [|x xs IH]; intros p Hm Hb; cbn [lfreepool_loop].
  - exists p. split; [done|]. split; [done|]. split; [done|]. intros y.
    rewrite decide_False by apply not_elem_of_nil. done.
  - destruct (aget_is_Some _ _ (Hb x ltac:(by left))) as [nd Hnd]. rewrite Hnd, lift_Some, ok_bind.
    pose proof (msg_of_lookup _ _ _ Hnd) as Hx.
    assert (exists p1, (match bn_msg nd with
        | Some _ => heap ← uboss_free (p_heap p) (bn_msg nd);
            nodes ← lift ((p_nodes p).[x := BufferNode None (bn_sz nd) (bn_next nd)]);
            Ok (with_nodes (with_heap p heap) nodes)
        | None => Ok p end) = Ok p1 /\ mem_ok (msg_of (p_nodes p1)) (p_heap p1) blocks /\
        zlen (p_nodes p1) = zlen (p_nodes p) /\
        forall y, msg_of (p_nodes p1) y = if decide (y = x) then None else msg_of (p_nodes p) y)
      as (p1 & -> & Hm1 & Hlen & Hmsg).
    { destruct (bn_msg nd) as [b|].
      - destruct (mo_held _ _ _ Hm _ _ Hx) as [_ [d Hd]]. unfold uboss_free. rewrite Hd, ok_bind.
        pose proof (aset_Some (p_nodes p) x (BufferNode None (bn_sz nd) (bn_next nd)) (Hb x ltac:(by left))) as Hset.
        rewrite Hset, lift_Some, ok_bind. eexists. split; [done|]. cbn [with_nodes with_heap p_nodes p_heap].
        assert (forall y, msg_of (<[Z.to_nat x := BufferNode None (bn_sz nd) (bn_next nd)]> (p_nodes p)) y =
          if decide (y = x) then None else msg_of (p_nodes p) y) as Hmsg
          by (intros y; by rewrite (msg_of_aset _ _ _ _ _ Hset)).
        split; [by eapply mem_ok_release|]. split; [by rewrite zlen_insert | done].
      - exists p. split; [done|]. split; [done|]. split; [done|]. intros y. by case_decide; subst. }
    rewrite ok_bind. destruct (IH p1 Hm1) as (p2 & -> & Hm2 & Hlen2 & Hmsg2);
      [intros y Hy; rewrite Hlen; apply Hb; by right|].
    exists p2. split; [done|]. split; [done|]. split; [congruence|]. intros y. rewrite Hmsg2, Hmsg.
    repeat case_decide; set_solver.
Qed.

Lemma close_pool_spec blocks chunks : forall base p, mem_ok (msg_of (p_nodes p)) (p_heap p) blocks ->
  chunks_ok base chunks (zlen (p_nodes p)) -> 0 <= base ->
  (forall x, x < base -> msg_of (p_nodes p) x = None) ->
  exists p', close_pool chunks p = Ok p' /\ p_heap p' = blocks.
Proof.
  induction chunks as [|[b sz] chunks IH]; intros base p Hm Hch Hbase Hdone; cbn [close_pool chunks_ok] in *.
  - exists p. split; [done|]. apply map_eq. intros b. apply (mo_rest _ _ _ Hm). intros x.
    destruct (decide (x < base)); [by rewrite Hdone|]. unfold msg_of. rewrite aget_None by lia. done.
  - destruct Hch as (-> & Hsz & Hch). unfold lfreepool. cbn [fst snd].
    assert (base + sz <= zlen (p_nodes p)) as Hle.
    { clear -Hch. revert Hch. generalize (base + sz). induction chunks as [|[b s] chunks IH]; intros k; cbn [chunks_ok].
      - lia.
      - intros (-> & ? & Hch). apply IH in Hch. lia. }
    destruct (lfreepool_loop_spec blocks (seqZ base sz) p Hm) as (p1 & -> & Hm1 & Hlen & Hmsg);
      [intros x Hx%elem_of_seqZ; lia|].
    rewrite ok_bind. apply (IH (base + sz)); [done | by rewrite Hlen | lia |].
    intros x Hx. rewrite Hmsg. case_decide as Hin; [done|]. rewrite elem_of_seqZ in Hin. apply Hdone. lia.
Qed.

(** When the VM ends, the blocks in the buffers are freed, each once. *)
Lemma vm_close v sp : vm_rep v sp ->
  exists p, close_pool (p_chunks (vm_pool v)) (vm_pool v) = Ok p /\ p_heap p = sp_blocks sp.
Proof.
  intros (chains & fl & [[_ _ _ Hm Hch] _ _ _]). eapply close_pool_spec; [done | done | done |].
  intros x Hx. unfold msg_of. by rewrite aget_None by lia.
Qed.

(** ** The calls *)

(** The outcome of a call is the one that the specification gives. *)
Definition call_ok (c : call) (v : vm) (r : res (ret * spec)) : Prop :=
  match r with
  | Ok (x, sp') => exists v', vm_call c v = Ok (x, v') /\ vm_rep v' sp'
  | Err m => vm_call c v = Err m
  | Ub => False
  end.

Lemma with_buffer_ok v sp msg i s f x s' blocks' : vm_rep v sp -> sp_streams sp !! i = Some s ->
  (forall p fl sb l, pool_inv p fl (sp_blocks sp) -> sb_rep p sb l s ->
    exists sb' p', f sb p = Ok (x, sb', p') /\ sb_post p l blocks' p' sb' s') ->
  exists v', with_buffer msg (Some i) v f = Ok (x, v') /\
    vm_rep v' (Spec (<[i := s']> (sp_streams sp)) blocks').
Proof.
  intros (chains & fl & Hr) Hs Hf. pose proof Hr as [Hp Hdom Hbufs Hdisj].
  destruct (vm_bufs v !! i) as [sb|] eqn:Hsb; [|apply Hdom in Hsb; congruence].
  unfold with_buffer. rewrite Hsb, lift_Some, ok_bind.
  destruct (Hf _ _ _ _ Hp (Hbufs i sb s Hsb Hs)) as (sb' & p' & -> & Hpost).
  rewrite ok_bind. eexists. split; [done|]. by eapply rep_buffer.
Qed.

Lemma with_buffer_err v sp msg i s f m : vm_rep v sp -> sp_streams sp !! i = Some s ->
  (forall sb p, f sb p = Err m) -> with_buffer msg (Some i) v f = Err m.
Proof.
  intros (chains & fl & [_ Hdom _ _]) Hs Hf.
  destruct (vm_bufs v !! i) as [sb|] eqn:Hsb; [|apply Hdom in Hsb; congruence].
  unfold with_buffer. by rewrite Hsb, lift_Some, ok_bind, Hf.
Qed.

Lemma set_same sp i s : sp_streams sp !! i = Some s ->
  Spec (<[i := s]> (sp_streams sp)) (sp_blocks sp) = sp.
Proof. intros Hs. rewrite insert_id by done. by destruct sp. Qed.

Lemma on_stream_inv msg sb sp f r : on_stream msg sb sp f = Some r ->
  (sb = None /\ r = Err msg) \/ exists i s, sb = Some i /\ sp_streams sp !! i = Some s /\ f i s = Some r.
Proof.
  unfold on_stream. destruct sb as [i|]; [|intros [= <-]; by left].
  intros (s & ? & ?)%bind_Some. right. by exists i, s.
Qed.

Lemma push_ok v sp sb msg sz r : vm_rep v sp -> spec_call (CPush sb msg sz) sp = Some r ->
  call_ok (CPush sb msg sz) v r.
Proof.
  intros Hr [[-> ->]|(i & s & -> & Hs & Hc)]%on_stream_inv; [done|].
  destruct msg as [b|]; [|injection Hc as <-; by eapply with_buffer_err].
  apply bind_Some in Hc as (d & Hd & Hc). case_match eqn:Hg; [|done]. injection Hc as <-.
  apply andb_prop in Hg as [[?%Z.ltb_lt ?%Z.leb_le]%andb_prop ?%Z.ltb_lt].
  eapply with_buffer_ok; [done | done |]. intros p fl sb l Hp Hsb. cbn beta.
  destruct (lpushbuffer_spec p fl _ sb l s b d sz Hp Hsb Hd ltac:(lia) ltac:(lia)) as (sb' & p' & -> & Hpost).
  rewrite ok_bind. by do 2 eexists.
Qed.

Lemma pop_ok v sp sb sz r : vm_rep v sp -> spec_call (CPop sb sz) sp = Some r -> call_ok (CPop sb sz) v r.
Proof.
  intros Hr [[-> ->]|(i & s & -> & Hs & Hc)]%on_stream_inv; [done|].
  case_match eqn:Hg; [|done]. apply andb_prop in Hg as [?%Z.leb_le ?%Z.ltb_lt].
  pose proof (fun p fl sb l Hp Hsb => lpopbuffer_spec p fl (sp_blocks sp) sb l s sz Hp Hsb ltac:(lia)) as Hspec.
  destruct ((zlen s <? sz) || (sz =? 0)) eqn:Hn; injection Hc as <-.
  - unfold call_ok. cbn [vm_call]. edestruct (with_buffer_ok v sp) as (v' & Hv & Hrep); [done | done | |].
    2:{ exists v'. split; [exact Hv|]. by rewrite set_same in Hrep. }
    intros p fl sb l Hp Hsb. destruct (Hspec p fl sb l Hp Hsb) as (sb' & p' & -> & Hpost).
    rewrite ok_bind. by do 2 eexists.
  - apply orb_false_iff in Hn as [?%Z.ltb_ge _].
    eapply with_buffer_ok; [done | done |]. intros p fl sb l Hp Hsb.
    destruct (Hspec p fl sb l Hp Hsb) as (sb' & p' & -> & Hpost).
    rewrite ok_bind. rewrite zlen_drop by lia. by do 2 eexists.
Qed.

Lemma blocks_ok c v sp r : vm_rep v sp -> fresh_call c v ->
  match c with CData _ _ | CDrop _ _ | CStr2p _ _ => True | _ => False end ->
  spec_call c sp = Some r -> call_ok c v r.
Proof.
  intros (chains & fl & Hr) Hfr Hkind Hc. pose proof (vr_pool _ _ _ _ Hr) as Hp.
  destruct c as [| |b d| | | | | |msg sz|b str]; try done; cbn [spec_call fresh_call] in *.
  - injection Hc as <-. destruct (pool_inv_alloc _ _ _ b d Hp Hfr) as [Hp' Hf].
    eexists. split; [done|]. by eapply rep_pool.
  - destruct msg as [b|].
    + apply bind_Some in Hc as (d & Hd & [= <-]). destruct (pool_inv_drop _ _ _ b d Hp Hd) as (Hh & Hp' & Hf).
      eexists. split; [cbn [vm_call]; unfold ldrop, uboss_free; by rewrite Hh|].
      by eapply rep_pool.
    + injection Hc as <-. exists v. split; [by destruct v as [? []] | by exists chains, fl].
  - injection Hc as <-. destruct (pool_inv_alloc _ _ _ b str Hp Hfr) as [Hp' Hf].
    eexists. split; [done|]. by eapply rep_pool.
Qed.

Lemma vm_rep_zero : vm_rep vm_zero (Spec ∅ ∅).
Proof.
  exists (fun _ => []), []. split; cbn [vm_zero vm_pool vm_bufs sp_blocks sp_streams]; [|done|done|].
  - split; cbn [p_free p_nodes p_heap p_chunks chunks_ok]; [done | constructor | | | done].
    + intros x Hx. change (zlen (@nil buffer_node)) with 0 in Hx. lia.
    + assert (forall x, msg_of [] x = None) as Hn
        by (intros x; unfold msg_of; rewrite aget_None; [done|]; change (zlen (@nil buffer_node)) with 0; lia).
      split; [intros x y b; by rewrite Hn | intros x b; by rewrite Hn | done].
  - intros i j x [? Hi]. by rewrite lookup_empty in Hi.
Qed.

(** C26: The socket buffers of a VM, which share one pool of nodes, are independent byte
    streams.  From a state that stands for streams and blocks, every call that the
    specification allows succeeds with the specified result and a state that stands for
    the specified one: a push appends the message, a pop takes that many bytes, or nothing
    when there are fewer, [lreadline] finds the first separator wherever the messages are
    cut, takes the line and leaves out the separator, a wrong argument is an error and
    changes nothing.  The empty VM stands for no streams and no blocks; and when the VM is
    closed, at any time and with buffers that were collected before they were empty, the
    chunks' finalizers free every block in a buffer once and no other block. *)
Theorem socket_buffers_refine (c : call) (v : vm) (sp : spec) (r : res (ret * spec)) :
  vm_rep v sp -> fresh_call c v -> spec_call c sp = Some r ->
  call_ok c v r /\ vm_rep vm_zero (Spec ∅ ∅) /\
  exists p, close_pool (p_chunks (vm_pool v)) (vm_pool v) = Ok p /\ p_heap p = sp_blocks sp.
Proof.
  intros Hr Hfr Hc. split; [|split; [|by apply vm_close]].
  - destruct c as [i|i|b d|sb msg sz|sb sz|sb|sb|sb check sep|msg sz|b str].
    + injection Hc as <-. eexists. split; [done|]. by apply rep_new.
    + injection Hc as <-. eexists. split; [done|]. by apply rep_collect.
    + by eapply blocks_ok.
    + by eapply push_ok.
    + by eapply pop_ok.
    + apply on_stream_inv in Hc as [[-> ->]|(i & s & -> & Hs & [= <-])]; [done|].
      eapply with_buffer_ok; [done | done |]. intros p fl sb l Hp Hsb.
      destruct (lreadall_spec p fl _ sb l s Hp Hsb) as (sb' & p' & -> & Hpost). rewrite ok_bind. by do 2 eexists.
    + apply on_stream_inv in Hc as [[-> ->]|(i & s & -> & Hs & [= <-])]; [done|].
      eapply with_buffer_ok; [done | done |]. intros p fl sb l Hp Hsb.
      destruct (lclearbuffer_spec p fl _ sb l s Hp Hsb) as (sb' & p' & -> & Hpost). rewrite ok_bind. by do 2 eexists.
    + apply on_stream_inv in Hc as [[-> ->]|(i & s & -> & Hs & Hc)]; [done|].
      destruct (Z.ltb_spec (zlen sep) (2 ^ 31)); [|done]. injection Hc as <-.
      eapply with_buffer_ok; [done | done |]. intros p fl sb l Hp Hsb.
      destruct (lreadline_spec p fl _ sb l s check sep Hp Hsb) as (sb' & p' & -> & Hpost); [done|].
      rewrite ok_bind. by do 2 eexists.
    + by eapply blocks_ok.
    + by eapply blocks_ok.
  - apply vm_rep_zero.
Qed.

Lemma socket_buffers_refine_witness :
  let v := Vm {[1 := lnewbuffer]} (Pool None [] [] {[7 := [65; 10; 66]]}) in
  exists v', vm_call (CPush (Some 1) (Some 7) 3) v = Ok (RSize 3, v') /\
    vm_rep v' (Spec {[1 := [65; 10; 66]]} ∅).
Proof.
  intros v.
  assert (vm_rep v (Spec {[1 := []]} {[7 := [65; 10; 66]]})) as Hr.
  { destruct (rep_new vm_zero (Spec ∅ ∅) 1 vm_rep_zero eq_refl) as (chains & fl & Hz).
    destruct (pool_inv_alloc _ _ _ 7 [65; 10; 66] (vr_pool _ _ _ _ Hz) eq_refl) as [Hp Hf].
    exact (rep_pool _ _ _ _ _ _ _ Hz Hp Hf). }
  destruct (socket_buffers_refine (CPush (Some 1) (Some 7) 3) v (Spec {[1 := []]} {[7 := [65; 10; 66]]})
    (Ok (RSize 3, Spec {[1 := [65; 10; 66]]} ∅)) Hr I) as [Hok _]; [vm_compute; reflexivity|].
  exact Hok.
Defined.

(** A negative size: [lpopbuffer] on an empty buffer follows a null pointer. *)
Lemma pop_negative_size p : lpopbuffer lnewbuffer p (-1) = Ub.
Proof. reflexivity. Qed.

(** A message of no bytes is accepted, and [lreadline] then reads in front of the
    separator: the number of bytes that are left in the node never becomes zero. *)
Lemma readline_empty_message :
  (p ← (let p := Pool None [] [] {[1 := []; 2 := [65; 66]]} in
        '(_, sb, p) ← lpushbuffer lnewbuffer p (Some 1) 0;
        '(_, sb, p) ← lpushbuffer sb p (Some 2) 2;
        lreadline sb p true [66]);
   Ok p) = Ub.
Proof. vm_compute. reflexivity. Qed.
