(* ===== verification/Start.v ===== *)
(** core/uboss_start.c: the threads of the process, how the workers sleep and are woken, and
    how the process ends.

    A thread is a program counter; a step is an access of the shared words or a critical
    section of the mutex, and [pthread_cond_wait] ends one critical section and, when it
    returns, begins another.  What a worker does in [uboss_context_message_dispatch] and the
    socket thread in [uboss_socket_poll] is in [Server] and [SocketServer]; here they give
    any result, and services come and go ([Env]) until there is none.  Times are not
    modelled: a thread that sleeps can go on at any time. *)
From S2P Require Import Prelude.
Open Scope Z_scope.

(** ** Threads *)

(** [thread_worker]. *)
Inductive worker_pc :=
| W_test        (* while (!m->quit) *)
| W_dispatch    (* q = uboss_context_message_dispatch(sm, q, weight) *)
| W_lock        (* q is null: pthread_mutex_lock *)
| W_waiting     (* in pthread_cond_wait *)
| W_wake        (* signalled: pthread_cond_wait takes the mutex again *)
| W_done.

(** [thread_timer]. *)
Inductive timer_pc :=
| T_update      (* uboss_updatetime() *)
| T_check       (* CHECK_ABORT *)
| T_wakeup      (* wakeup(m, m->count - 1) reads m->sleep *)
| T_signal      (* pthread_cond_signal *)
| T_sleep       (* usleep(2500) *)
| T_exit        (* uboss_socket_exit() *)
| T_quit        (* the critical section that sets m->quit *)
| T_done.

(** [thread_socket]. *)
Inductive socket_pc :=
| S_poll        (* r = uboss_socket_poll() *)
| S_check       (* r < 0: CHECK_ABORT *)
| S_wakeup      (* wakeup(m, 0) reads m->sleep *)
| S_signal
| S_done.

(** [thread_monitor]; the argument is [i]. *)
Inductive monitor_pc :=
| M_top         (* CHECK_ABORT *)
| M_checks (i : nat)
| M_sleeps (i : nat)
| M_done.

(** [thread_license]. *)
Inductive license_pc := L_verify | L_sleep | L_done.

(** [start] after the threads are created: [pthread_join(pid[i])], then [free_monitor]. *)
Inductive main_pc := J_join (i : nat) | J_free | J_done.

#[export] Instance worker_pc_eq_dec : EqDecision worker_pc.
Proof. solve_decision. Defined.
#[export] Instance socket_pc_eq_dec : EqDecision socket_pc.
Proof. solve_decision. Defined.
#[export] Instance monitor_pc_eq_dec : EqDecision monitor_pc.
Proof. solve_decision. Defined.

(** The process; [p_sleep], [p_quit] and [p_freed] are of the [struct monitor], whose
    [count] is the number of workers; [p_total] is [uboss_context_total()] and [p_exit] an
    exit request in the pipe of the socket thread. *)
Record process := Process {
  p_workers : list worker_pc;
  p_timer : timer_pc;
  p_socket : socket_pc;
  p_monitor : monitor_pc;
  p_license : license_pc;
  p_main : main_pc;
  p_sleep : Z;
  p_quit : bool;
  p_freed : bool;
  p_total : Z;
  p_exit : bool
}.

Definition set_worker (i : nat) (w : worker_pc) (p : process) : process :=
  Process (<[i := w]> (p_workers p)) (p_timer p) (p_socket p) (p_monitor p) (p_license p) (p_main p)
    (p_sleep p) (p_quit p) (p_freed p) (p_total p) (p_exit p).
Definition set_workers (ws : list worker_pc) (p : process) : process :=
  Process ws (p_timer p) (p_socket p) (p_monitor p) (p_license p) (p_main p)
    (p_sleep p) (p_quit p) (p_freed p) (p_total p) (p_exit p).
Definition set_timer (t : timer_pc) (p : process) : process :=
  Process (p_workers p) t (p_socket p) (p_monitor p) (p_license p) (p_main p)
    (p_sleep p) (p_quit p) (p_freed p) (p_total p) (p_exit p).
Definition set_socket (t : socket_pc) (p : process) : process :=
  Process (p_workers p) (p_timer p) t (p_monitor p) (p_license p) (p_main p)
    (p_sleep p) (p_quit p) (p_freed p) (p_total p) (p_exit p).
Definition set_monitor (t : monitor_pc) (p : process) : process :=
  Process (p_workers p) (p_timer p) (p_socket p) t (p_license p) (p_main p)
    (p_sleep p) (p_quit p) (p_freed p) (p_total p) (p_exit p).
Definition set_license (t : license_pc) (p : process) : process :=
  Process (p_workers p) (p_timer p) (p_socket p) (p_monitor p) t (p_main p)
    (p_sleep p) (p_quit p) (p_freed p) (p_total p) (p_exit p).
Definition set_main (t : main_pc) (p : process) : process :=
  Process (p_workers p) (p_timer p) (p_socket p) (p_monitor p) (p_license p) t
    (p_sleep p) (p_quit p) (p_freed p) (p_total p) (p_exit p).
Definition set_sleep (k : Z) (p : process) : process :=
  Process (p_workers p) (p_timer p) (p_socket p) (p_monitor p) (p_license p) (p_main p)
    k (p_quit p) (p_freed p) (p_total p) (p_exit p).
Definition set_quit (p : process) : process :=
  Process (p_workers p) (p_timer p) (p_socket p) (p_monitor p) (p_license p) (p_main p)
    (p_sleep p) true (p_freed p) (p_total p) (p_exit p).
Definition set_freed (p : process) : process :=
  Process (p_workers p) (p_timer p) (p_socket p) (p_monitor p) (p_license p) (p_main p)
    (p_sleep p) (p_quit p) true (p_total p) (p_exit p).
Definition set_total (k : Z) (p : process) : process :=
  Process (p_workers p) (p_timer p) (p_socket p) (p_monitor p) (p_license p) (p_main p)
    (p_sleep p) (p_quit p) (p_freed p) k (p_exit p).
Definition set_exit (p : process) : process :=
  Process (p_workers p) (p_timer p) (p_socket p) (p_monitor p) (p_license p) (p_main p)
    (p_sleep p) (p_quit p) (p_freed p) (p_total p) true.

Definition p_count (p : process) : Z := zlen (p_workers p).

(** [uboss_license_verify]. *)
Definition uboss_license_verify : Z := 0.

(** The test of [wakeup]. *)
Definition wakeup (busy : Z) (p : process) : bool := p_count p - busy <=? p_sleep p.

(** [pthread_cond_signal] wakes a waiting thread if there is one. *)
Inductive cond_signal (p : process) : process -> Prop :=
| signal_none : (forall i, p_workers p !! i <> Some W_waiting) -> cond_signal p p
| signal_one i : p_workers p !! i = Some W_waiting -> cond_signal p (set_worker i W_wake p).

(** [pthread_cond_broadcast]. *)
Definition woken (w : worker_pc) : worker_pc := match w with W_waiting => W_wake | _ => w end.
Definition cond_broadcast (p : process) : process := set_workers (map woken (p_workers p)) p.

(** The thread [pid[i]] has ended. *)
Definition ended (p : process) (i : nat) : Prop :=
  match i with
  | 0%nat => p_monitor p = M_done
  | 1%nat => p_timer p = T_done
  | 2%nat => p_socket p = S_done
  | 3%nat => p_license p = L_done
  | S (S (S (S i))) => p_workers p !! i = Some W_done
  end.

(** ** Steps *)

(** Who makes a step; [SocketMsg] is a poll that forwards a message. *)
Inductive label := Worker (i : nat) | Timer | Socket | SocketMsg | Monitor | License | Main | Env.

Inductive step : label -> process -> process -> Prop :=
  (* thread_worker *)
  | w_test p i : p_workers p !! i = Some W_test ->
      step (Worker i) p (set_worker i (if p_quit p then W_done else W_dispatch) p)
  | w_queue p i : p_workers p !! i = Some W_dispatch -> step (Worker i) p (set_worker i W_test p)
  | w_null p i : p_workers p !! i = Some W_dispatch -> step (Worker i) p (set_worker i W_lock p)
  | w_wait p i : p_workers p !! i = Some W_lock -> p_quit p = false ->
      step (Worker i) p (set_worker i W_waiting (set_sleep (p_sleep p + 1) p))
  | w_nowait p i : p_workers p !! i = Some W_lock -> p_quit p = true ->
      step (Worker i) p (set_worker i W_test (set_sleep (p_sleep p + 1 - 1) p))
  | w_spurious p i : p_workers p !! i = Some W_waiting -> step (Worker i) p (set_worker i W_wake p)
  | w_wake p i : p_workers p !! i = Some W_wake ->
      step (Worker i) p (set_worker i W_test (set_sleep (p_sleep p - 1) p))
  (* thread_timer *)
  | t_update p : p_timer p = T_update -> step Timer p (set_timer T_check p)
  | t_check p : p_timer p = T_check ->
      step Timer p (set_timer (if p_total p =? 0 then T_exit else T_wakeup) p)
  | t_wakeup p : p_timer p = T_wakeup ->
      step Timer p (set_timer (if wakeup (p_count p - 1) p then T_signal else T_sleep) p)
  | t_signal p p' : p_timer p = T_signal -> cond_signal p p' -> step Timer p (set_timer T_sleep p')
  | t_sleep p : p_timer p = T_sleep -> step Timer p (set_timer T_update p)
  | t_exit p : p_timer p = T_exit -> step Timer p (set_timer T_quit (set_exit p))
  | t_quit p : p_timer p = T_quit -> step Timer p (set_timer T_done (cond_broadcast (set_quit p)))
  (* thread_socket; r is 0 when the exit request is read *)
  | s_exit p : p_socket p = S_poll -> p_exit p = true -> step Socket p (set_socket S_done p)
  | s_idle p : p_socket p = S_poll -> step Socket p (set_socket S_check p)
  | s_message p : p_socket p = S_poll -> step SocketMsg p (set_socket S_wakeup p)
  | s_check p : p_socket p = S_check ->
      step Socket p (set_socket (if p_total p =? 0 then S_done else S_poll) p)
  | s_wakeup p : p_socket p = S_wakeup ->
      step Socket p (set_socket (if wakeup 0 p then S_signal else S_poll) p)
  | s_signal p p' : p_socket p = S_signal -> cond_signal p p' -> step Socket p (set_socket S_poll p')
  (* thread_monitor; the break of the inner CHECK_ABORT leaves the inner loop *)
  | m_top p : p_monitor p = M_top ->
      step Monitor p (set_monitor (if p_total p =? 0 then M_done else M_checks 0) p)
  | m_check p i : p_monitor p = M_checks i ->
      step Monitor p (set_monitor (if Z.of_nat i <? p_count p then M_checks (S i) else M_sleeps 0) p)
  | m_sleep p i : p_monitor p = M_sleeps i ->
      step Monitor p (set_monitor (if (5 <=? Z.of_nat i) || (p_total p =? 0) then M_top else M_sleeps (S i)) p)
  (* thread_license *)
  | l_verify p : p_license p = L_verify ->
      step License p (set_license (if uboss_license_verify <? 0 then L_done else L_sleep) p)
  | l_sleep p : p_license p = L_sleep -> step License p (set_license L_verify p)
  (* start *)
  | j_join p i : p_main p = J_join i -> ended p i ->
      step Main p (set_main (if Z.of_nat i + 1 <? p_count p + 4 then J_join (S i) else J_free) p)
  | j_free p : p_main p = J_free -> step Main p (set_main J_done (set_freed p))
  (* services start and end as long as there is one *)
  | env_total p k : p_total p <> 0 -> 0 <= k -> step Env p (set_total k p).

Inductive run : process -> list label -> process -> Prop :=
| run_nil p : run p [] p
| run_cons p l p1 ls p2 : step l p p1 -> run p1 ls p2 -> run p (l :: ls) p2.

(** The weight of a worker, by its number: how much of a queue it takes before it goes on to
    the next one, the argument of [uboss_context_message_dispatch]. *)
Definition weight : list Z :=
  [-1; -1; -1; -1; 0; 0; 0; 0;
   1; 1; 1; 1; 1; 1; 1; 1;
   2; 2; 2; 2; 2; 2; 2; 2;
   3; 3; 3; 3; 3; 3; 3; 3].
Definition worker_weight (i : Z) : option Z := if i <? zlen weight then weight.[i] else Some 0.

(** The threads when they are created: [thread] workers and [total] services. *)
Definition start (thread : nat) (total : Z) : process :=
  Process (replicate thread W_test) T_update S_poll M_top L_verify (J_join 0) 0 false false total false.
