(* ===== verification/StartLive.v ===== *)
(** The workers of [Start] sleep and are woken correctly, and what happens when the last
    service has ended: every thread but one ends, whatever the schedule. *)
From S2P Require Import Prelude Start.
Open Scope Z_scope.

(** ** Counting workers *)

Lemma sum_list_with_insert {A} (f : A -> nat) l : forall i a b, l !! i = Some a ->
  (sum_list_with f (<[i := b]> l) + f a = sum_list_with f l + f b)%nat.
Proof.
  induction l as [|x l IH]; intros [|i] a b; cbn [lookup list_lookup]; intros Hi; try discriminate Hi.
  - injection Hi as ->. change (<[0%nat := b]> (a :: l)) with (b :: l). cbn [sum_list_with]. lia.
  - change (<[S i := b]> (x :: l)) with (x :: <[i := b]> l). cbn [sum_list_with].
    specialize (IH i a b Hi). lia.
Qed.

Lemma sum_list_with_le {A} (f : A -> nat) k l : (forall a, f a <= k)%nat ->
  (sum_list_with f l <= k * length l)%nat.
Proof.
  intros Hf. induction l as [|x l IH]; cbn [sum_list_with length]; [lia|]. specialize (Hf x). lia.
Qed.

Lemma sum_list_with_map {A} (f : A -> nat) (g : A -> A) l : (forall a, f (g a) = f a) ->
  sum_list_with f (map g l) = sum_list_with f l.
Proof. intros He. induction l as [|x l IH]; cbn [map sum_list_with]; [done|]. by rewrite He, IH. Qed.

Lemma sum_list_with_elem {A} (f : A -> nat) l i a : l !! i = Some a -> (f a <= sum_list_with f l)%nat.
Proof.
  revert i. induction l as [|x l IH]; intros [|i]; cbn [lookup list_lookup sum_list_with]; intros Hi;
    try discriminate Hi; [injection Hi as ->; lia | specialize (IH i Hi); lia].
Qed.

(** In [pthread_cond_wait]: counted in [m->sleep]. *)
Definition asleep (w : worker_pc) : nat := match w with W_waiting | W_wake => 1 | _ => 0 end.
Definition is_waiting (w : worker_pc) : nat := match w with W_waiting => 1 | _ => 0 end.
Definition sleepers (p : process) : nat := sum_list_with asleep (p_workers p).
Definition waiting (p : process) : nat := sum_list_with is_waiting (p_workers p).

Lemma waiting_0 p : waiting p = 0%nat <-> forall i, p_workers p !! i <> Some W_waiting.
Proof.
  split.
  - intros H0 i Hi. apply (sum_list_with_elem is_waiting) in Hi. unfold waiting in H0. cbn in Hi. lia.
  - unfold waiting. intros Hn. induction (p_workers p) as [|w ws IH]; cbn [sum_list_with]; [done|].
    rewrite IH by (intros i; apply (Hn (S i))). specialize (Hn 0%nat). cbn in Hn.
    by destruct w; cbn.
Qed.

Lemma waiting_sleepers p : (waiting p <= sleepers p <= length (p_workers p))%nat.
Proof.
  unfold waiting, sleepers. induction (p_workers p) as [|w ws IH]; cbn [sum_list_with length]; [lia|].
  destruct w; cbn [is_waiting asleep]; lia.
Qed.

(** ** Invariant *)

Definition timer_ended (t : timer_pc) : bool := match t with T_done => true | _ => false end.
Definition timer_ending (t : timer_pc) : bool := match t with T_exit | T_quit | T_done => true | _ => false end.
Definition timer_exited (t : timer_pc) : bool := match t with T_quit | T_done => true | _ => false end.

Record start_inv (p : process) : Prop := {
  si_sleep : p_sleep p = Z.of_nat (sleepers p);
  si_quit : p_quit p = timer_ended (p_timer p);
  si_waiting : p_quit p = true -> waiting p = 0%nat;
  si_ending : timer_ending (p_timer p) = true -> p_total p = 0;
  si_exit : timer_exited (p_timer p) = true -> p_exit p = true;
  si_license : p_license p <> L_done;
  si_main : exists i, p_main p = J_join i /\ (i <= 3)%nat;
  si_freed : p_freed p = false
}.

Lemma start_inv_start n total : start_inv (start n total).
Proof.
  split; cbn; try done; [|by exists 0%nat; split; [|lia]].
  unfold sleepers, start. cbn [p_workers]. by induction n.
Qed.

(** Setting a worker's counter. *)
Lemma sleepers_set p i w w' : p_workers p !! i = Some w ->
  (sleepers (set_worker i w' p) + asleep w = sleepers p + asleep w')%nat.
Proof. apply sum_list_with_insert. Qed.

Lemma waiting_set p i w w' : p_workers p !! i = Some w ->
  (waiting (set_worker i w' p) + is_waiting w = waiting p + is_waiting w')%nat.
Proof. apply sum_list_with_insert. Qed.

(** A worker's step that changes [m->sleep] by [d]. *)
Lemma start_inv_worker p i w w' k : start_inv p -> p_workers p !! i = Some w ->
  k + Z.of_nat (asleep w) = p_sleep p + Z.of_nat (asleep w') ->
  (p_quit p = true -> is_waiting w' = 0%nat) ->
  start_inv (set_worker i w' (set_sleep k p)).
Proof.
  intros [Hs Hq Hw He Hx Hl Hm Hf] Hi Hk Hnw.
  pose proof (sleepers_set p i w w' Hi) as H1. pose proof (waiting_set p i w w' Hi) as H2.
  split; try done.
  - cbn [set_worker set_sleep p_sleep]. change (sleepers _) with (sleepers (set_worker i w' p)). lia.
  - intros Hqt. change (waiting _) with (waiting (set_worker i w' p)).
    change (p_quit p = true) in Hqt. rewrite (Hw Hqt), (Hnw Hqt) in H2. lia.
Qed.

Lemma set_sleep_same p : set_sleep (p_sleep p) p = p.
Proof. by destruct p. Qed.

Lemma start_inv_worker_same p i w w' : start_inv p -> p_workers p !! i = Some w ->
  asleep w = asleep w' -> (p_quit p = true -> is_waiting w' = 0%nat) -> start_inv (set_worker i w' p).
Proof.
  intros Hp Hi Ha Hw. rewrite <-(set_sleep_same p) at 1. eapply start_inv_worker; [done | done | lia | done].
Qed.

Lemma cond_signal_inv p p' : start_inv p -> cond_signal p p' -> start_inv p' /\
  p_timer p' = p_timer p /\ p_socket p' = p_socket p /\ p_monitor p' = p_monitor p /\
  p_total p' = p_total p /\ p_quit p' = p_quit p /\ length (p_workers p') = length (p_workers p) /\
  ((waiting p = 0%nat /\ p' = p) \/ S (waiting p') = waiting p).
Proof.
  intros Hp [Hn | i Hi].
  - split; [done|]. do 6 (split; [done|]). left. split; [by apply waiting_0 | done].
  - split; [by eapply start_inv_worker_same|]. do 5 (split; [done|]).
    split; [cbn; by rewrite length_insert|]. right.
    pose proof (waiting_set p i W_waiting W_wake Hi) as Hw. cbn [is_waiting] in Hw. lia.
Qed.

Lemma cond_broadcast_sleepers p : sleepers (cond_broadcast p) = sleepers p.
Proof. apply sum_list_with_map. by intros []. Qed.

Lemma cond_broadcast_waiting p : waiting (cond_broadcast p) = 0%nat.
Proof.
  unfold waiting, cond_broadcast. cbn [set_workers p_workers].
  induction (p_workers p) as [|w ws IH]; cbn [map sum_list_with]; [done|]. rewrite IH. by destruct w.
Qed.

(** The fields of a process after a step of a thread that is no worker. *)
Ltac start_fields :=
  split; cbn; intros; repeat case_match; cbn in *; try done; try congruence; eauto.

Lemma step_inv l p p' : step l p p' -> start_inv p -> start_inv p'.
Proof.
  intros Hstep Hp. pose proof Hp as [Hs Hq Hw He Hx Hl Hm Hf]. destruct Hstep;
    try rewrite H in Hq; try rewrite H in He; try rewrite H in Hx.
  - eapply start_inv_worker_same; [done | done | by destruct (p_quit p) | by intros ->].
  - by eapply start_inv_worker_same.
  - by eapply start_inv_worker_same.
  - eapply start_inv_worker; [done | done | cbn; lia | congruence].
  - eapply start_inv_worker; [done | done | cbn; lia | done].
  - by eapply start_inv_worker_same.
  - eapply start_inv_worker; [done | done | cbn; lia | done].
  - start_fields.
  - start_fields. by apply Z.eqb_eq.
  - start_fields.
  - destruct (cond_signal_inv _ _ Hp H0) as ([Hs' Hq' Hw' He' Hx' Hl' Hm' Hf'] & Ht & _).
    rewrite Ht, H in *. start_fields.
  - start_fields.
  - start_fields.
  - start_fields; [rewrite Hs; f_equal; symmetry; apply (cond_broadcast_sleepers p) | apply (cond_broadcast_waiting (set_quit p))].
  - start_fields.
  - start_fields.
  - start_fields.
  - start_fields.
  - start_fields.
  - destruct (cond_signal_inv _ _ Hp H0) as ([Hs' Hq' Hw' He' Hx' Hl' Hm' Hf'] & _). start_fields.
  - start_fields.
  - start_fields.
  - start_fields.
  - start_fields.
  - start_fields.
  - destruct Hm as (j & Hj & Hle). rewrite H in Hj. injection Hj as <-.
    assert (i <= 2)%nat as Hi.
    { destruct i as [|[|[|[|i]]]]; try lia. by destruct Hl. }
    start_fields; [by exists (S i); split; [|lia] | ]. unfold p_count in *. pose proof (zlen_nonneg (p_workers p)). lia.
  - destruct Hm as (j & Hj & _). congruence.
  - start_fields. by destruct H; apply He.
Qed.

Lemma run_inv p ls p' : run p ls p' -> start_inv p -> start_inv p'.
Proof. induction 1; [done|]. intros. apply IHrun. by eapply step_inv. Qed.

(** [m->quit] is never reset. *)
Lemma step_quit l p p' : step l p p' -> p_quit p = true -> p_quit p' = true.
Proof. destruct 1; cbn; try done; by match goal with H : cond_signal _ _ |- _ => destruct H end. Qed.

Lemma run_quit p ls p' : run p ls p' -> p_quit p = true -> p_quit p' = true.
Proof. induction 1; [done|]. intros. apply IHrun. by eapply step_quit. Qed.

(** ** Waking *)

Definition reachable (p : process) : Prop := exists n total ls, run (start n total) ls p.

Lemma reachable_inv p : reachable p -> start_inv p.
Proof. intros (n & total & ls & Hr). eapply run_inv; [done|]. apply start_inv_start. Qed.

(** C8: The workers' sleep is accounted for in every schedule: [m->sleep] is the number of
    workers that are in [pthread_cond_wait], so the timer, which calls [wakeup] every turn,
    finds the condition true if a worker waits, and its signal takes one worker out of the
    wait; the socket thread signals only when all the workers are in the wait.  Once
    [m->quit] is set no worker waits any more and none will: the last wakeup is not
    lost, although [m->quit] is first tested without the mutex. *)
Theorem workers_woken (p : process) (Hp : reachable p) :
  p_sleep p = Z.of_nat (sleepers p) /\ 0 <= p_sleep p <= p_count p /\
  (forall i, p_workers p !! i = Some W_waiting ->
    wakeup (p_count p - 1) p = true /\
    forall p', cond_signal p p' -> S (waiting p') = waiting p) /\
  (wakeup 0 p = true <-> p_sleep p = p_count p) /\
  (p_quit p = true -> forall ls p', run p ls p' -> forall i, p_workers p' !! i <> Some W_waiting).
Proof.
  apply reachable_inv in Hp. pose proof Hp as [Hs Hq Hw _ _ _ _ _].
  pose proof (waiting_sleepers p) as Hle. unfold p_count, zlen, wakeup, p_count, zlen.
  split; [done|]. split; [lia|]. split; [|split].
  - intros i Hi. apply (sum_list_with_elem is_waiting) in Hi. cbn [is_waiting] in Hi.
    change (sum_list_with is_waiting _) with (waiting p) in Hi. split; [apply Z.leb_le; lia|].
    intros p' Hsig. destruct (cond_signal_inv _ _ Hp Hsig) as (_ & _ & _ & _ & _ & _ & _ & [[? _]|?]); [lia | done].
  - rewrite Z.leb_le. lia.
  - intros Hquit ls p' Hr. apply waiting_0, (si_waiting _ (run_inv _ _ _ Hr Hp)). by eapply run_quit.
Qed.

Lemma workers_woken_witness :
  let p := Process [W_waiting; W_test] T_check S_poll M_top L_verify (J_join 0) 1 false false 2 false in
  p_sleep p = Z.of_nat (sleepers p) /\ wakeup (p_count p - 1) p = true.
Proof.
  intros p. assert (reachable p) as Hp.
  { exists 2%nat, 2, [Timer; Worker 0; Worker 0; Worker 0]. unfold start. cbn [replicate].
    eapply run_cons; [by apply t_update|]. eapply run_cons; [by apply (w_test _ 0)|].
    eapply run_cons; [by apply (w_null _ 0)|]. eapply run_cons; [by apply (w_wait _ 0)|]. apply run_nil. }
  destruct (workers_woken p Hp) as (Hs & _ & Hw & _). split; [exact Hs|].
  destruct (Hw 0%nat eq_refl) as [Hok _]. exact Hok.
Defined.

(** ** Shutdown *)

(** How far a thread is from its end when there is no service and [m->quit] is set. *)
Definition worker_rank (w : worker_pc) : nat :=
  match w with W_done => 0 | W_test => 1 | W_lock | W_wake => 2 | W_dispatch | W_waiting => 3 end.
Definition socket_rank (s : socket_pc) : nat :=
  match s with S_done => 0 | S_check => 1 | S_poll => 2 | S_signal => 3 | S_wakeup => 4 end.
Definition monitor_rank (n : nat) (m : monitor_pc) : nat :=
  match m with M_done => 0 | M_top => 1 | M_sleeps _ => 2 | M_checks i => n - i + 3 end.
Definition rank (p : process) : nat :=
  sum_list_with worker_rank (p_workers p) + socket_rank (p_socket p) +
  monitor_rank (length (p_workers p)) (p_monitor p).

(** How far the timer is from setting [m->quit]. *)
Definition timer_rank (t : timer_pc) : nat :=
  match t with
  | T_done => 0 | T_quit => 1 | T_exit => 2 | T_check => 3 | T_update => 4 | T_sleep => 5
  | T_signal => 6 | T_wakeup => 7
  end.

(** The steps of the threads that use the monitor, and the messages of the socket thread. *)
Definition thread_step (l : label) : nat :=
  match l with Worker _ | Timer | Socket | SocketMsg | Monitor => 1 | _ => 0 end.
Definition message_step (l : label) : nat := match l with SocketMsg => 1 | _ => 0 end.
Definition timer_step (l : label) : nat := match l with Timer => 1 | _ => 0 end.

Lemma rank_worker p i w w' : p_workers p !! i = Some w ->
  (rank (set_worker i w' p) + worker_rank w = rank p + worker_rank w')%nat.
Proof.
  intros Hi. pose proof (sum_list_with_insert worker_rank _ _ _ w' Hi).
  unfold rank. cbn [set_worker p_workers p_socket p_monitor]. rewrite length_insert. lia.
Qed.

Lemma rank_le p : (rank p <= 4 * length (p_workers p) + 7)%nat.
Proof.
  unfold rank. pose proof (sum_list_with_le worker_rank 3 (p_workers p)) as Hw.
  assert (socket_rank (p_socket p) <= 4)%nat by (destruct (p_socket p); cbn; lia).
  assert (monitor_rank (length (p_workers p)) (p_monitor p) <= length (p_workers p) + 3)%nat
    by (destruct (p_monitor p); cbn; lia).
  enough (sum_list_with worker_rank (p_workers p) <= 3 * length (p_workers p))%nat by lia.
  apply Hw. intros []; cbn; lia.
Qed.

Lemma cond_signal_quit p p' : cond_signal p p' -> waiting p = 0%nat -> p' = p.
Proof. intros [|i Hi] Hw; [done|]. by destruct (proj1 (waiting_0 p) Hw i). Qed.

Lemma step_rank l p p' : step l p p' -> start_inv p -> p_quit p = true -> p_total p = 0 ->
  (rank p' + thread_step l <= rank p + 3 * message_step l)%nat /\ p_total p' = 0.
Proof.
  intros Hstep [Hs Hq Hw _ _ _ _ _] Hquit Htot. pose proof (Hw Hquit) as Hw0.
  assert (forall i w w', p_workers p !! i = Some w -> (worker_rank w' < worker_rank w)%nat ->
    (rank (set_worker i w' p) + 1 <= rank p)%nat) as Hwr.
  { intros i w w' Hi Hlt. pose proof (rank_worker p i w w' Hi). lia. }
  destruct Hstep; cbn [thread_step message_step];
    try (rewrite H in Hq; cbn in Hq; congruence); try done.
  - split; [|done]. rewrite Hquit. eapply (Nat.le_trans _ (rank p)); [eapply Hwr; [done | cbn; lia] | lia].
  - split; [|done]. eapply (Nat.le_trans _ (rank p)); [eapply Hwr; [done | cbn; lia] | lia].
  - split; [|done]. eapply (Nat.le_trans _ (rank p)); [eapply Hwr; [done | cbn; lia] | lia].
  - congruence.
  - split; [|done]. change (rank _) with (rank (set_worker i W_test p)) at 1.
    eapply (Nat.le_trans _ (rank p)); [eapply Hwr; [done | cbn; lia] | lia].
  - by destruct (proj1 (waiting_0 p) Hw0 i).
  - split; [|done]. change (rank _) with (rank (set_worker i W_test p)) at 1.
    eapply (Nat.le_trans _ (rank p)); [eapply Hwr; [done | cbn; lia] | lia].
  - unfold rank. cbn. rewrite H. cbn. split; [lia | done].
  - unfold rank. cbn. rewrite H. cbn. split; [lia | done].
  - unfold rank. cbn. rewrite H. cbn. split; [lia | done].
  - unfold rank. cbn. rewrite H. rewrite Htot. cbn. split; [lia | done].
  - unfold rank. cbn. rewrite H. case_match; cbn; (split; [lia | done]).
  - apply cond_signal_quit in H0 as ->; [|done]. unfold rank. cbn. rewrite H. cbn. split; [lia | done].
  - unfold rank. cbn. rewrite H, Htot. cbn. split; [lia | done].
  - unfold rank. cbn. rewrite H. unfold p_count, zlen. case_match eqn:Hc; cbn; (split; [|done]).
    + apply Z.ltb_lt in Hc. lia.
    + lia.
  - unfold rank. cbn. rewrite H, Htot, orb_true_r. cbn. split; [lia | done].
Qed.

Definition thread_steps (ls : list label) : nat := sum_list_with thread_step ls.
Definition messages (ls : list label) : nat := sum_list_with message_step ls.
Definition timer_steps (ls : list label) : nat := sum_list_with timer_step ls.

Lemma run_rank p ls p' : run p ls p' -> start_inv p -> p_quit p = true -> p_total p = 0 ->
  (rank p' + thread_steps ls <= rank p + 3 * messages ls)%nat.
Proof.
  unfold thread_steps, messages.
  induction 1 as [p|p l p1 ls p2 Hstep Hrun IH]; intros Hp Hq Ht; cbn [sum_list_with]; [lia|].
  destruct (step_rank _ _ _ Hstep Hp Hq Ht) as [Hr Ht1].
  specialize (IH (step_inv _ _ _ Hstep Hp) (step_quit _ _ _ Hstep Hq) Ht1). lia.
Qed.

Lemma step_timer l p p' : step l p p' -> start_inv p -> p_total p = 0 ->
  p_total p' = 0 /\ (timer_rank (p_timer p') <= timer_rank (p_timer p) - timer_step l)%nat.
Proof.
  intros Hstep Hp Ht. destruct Hstep; cbn; rewrite ?H; cbn; try (split; [done | lia]).
  - rewrite Ht. cbn. split; [done | lia].
  - case_match; cbn; (split; [done | lia]).
  - destruct (cond_signal_inv _ _ Hp H0) as (_ & _ & _ & _ & Ht' & _). split; [congruence | lia].
  - destruct (cond_signal_inv _ _ Hp H0) as (_ & Htm & _ & _ & Ht' & _). rewrite Htm. split; [congruence | lia].
Qed.

Lemma run_timer p ls p' : run p ls p' -> start_inv p -> p_total p = 0 ->
  (timer_rank (p_timer p') <= timer_rank (p_timer p) - timer_steps ls)%nat.
Proof.
  unfold timer_steps. induction 1 as [p|p l p1 ls p2 Hstep Hrun IH]; intros Hp Ht; cbn [sum_list_with]; [lia|].
  destruct (step_timer _ _ _ Hstep Hp Ht) as [Ht1 Hr]. specialize (IH (step_inv _ _ _ Hstep Hp) Ht1). lia.
Qed.

Lemma cond_signal_exists p : exists p', cond_signal p p'.
Proof.
  destruct (decide (W_waiting ∈ p_workers p)) as [Hin|Hni].
  - apply list_elem_of_lookup in Hin as [i Hi]. eexists. by apply (signal_one _ i).
  - exists p. apply signal_none. intros i Hi. by apply list_elem_of_lookup_2 in Hi.
Qed.

Lemma timer_can_step p : p_timer p <> T_done -> exists p', step Timer p p'.
Proof.
  intros Hn. destruct (p_timer p) eqn:Ht; try done; try (eexists; by constructor).
  destruct (cond_signal_exists p) as [p' Hp']. eexists. by apply (t_signal p p').
Qed.

(** A thread of the monitor that has not ended can go on. *)
Lemma worker_can_step p i w : p_workers p !! i = Some w -> w <> W_done -> w <> W_waiting ->
  exists p', step (Worker i) p p'.
Proof.
  intros Hi Hd Hw. destruct w; try done; try (eexists; by constructor).
  destruct (p_quit p) eqn:Hq; eexists; [by apply w_nowait | by apply w_wait].
Qed.

Lemma socket_can_step p : p_socket p <> S_done -> p_exit p = true -> exists p', step Socket p p'.
Proof.
  intros Hn He. destruct (p_socket p) eqn:Hs; try done; try (eexists; by constructor).
  destruct (cond_signal_exists p) as [p' Hp']. eexists. by apply (s_signal p p').
Qed.

Lemma monitor_can_step p : p_monitor p <> M_done -> exists p', step Monitor p p'.
Proof. intros Hn. destruct (p_monitor p) eqn:Hm; try done; eexists; by constructor. Qed.

(** C9: When the last service has ended the threads of the monitor end, in every schedule:
    the timer is never blocked and has set [m->quit] after at most seven of its own steps;
    after that the workers, the timer, the socket thread and the monitor thread make
    together at most [4 * count + 7] more steps, and three for each message that the socket
    thread still forwards, and each of them that has not ended is not waiting and can go
    on.  But [start] does not return: it joins the license thread, which ends only if
    [uboss_license_verify] fails, and that never does; so [free_monitor] is not reached. *)
Theorem shutdown_terminates (p : process) (Hp : reachable p) (Htotal : p_total p = 0) :
  (p_quit p = false -> exists p', step Timer p p') /\
  (forall ls p', run p ls p' -> (7 <= timer_steps ls)%nat -> p_quit p' = true) /\
  (p_quit p = true ->
    (forall ls p', run p ls p' -> thread_steps ls <= 4 * length (p_workers p) + 7 + 3 * messages ls)%nat /\
    p_timer p = T_done /\
    (forall i w, p_workers p !! i = Some w -> w = W_done \/ w <> W_waiting /\ exists p', step (Worker i) p p') /\
    (p_socket p = S_done \/ exists p', step Socket p p') /\
    (p_monitor p = M_done \/ exists p', step Monitor p p')) /\
  (forall ls p', run p ls p' -> p_main p' <> J_free /\ p_main p' <> J_done /\ p_freed p' = false).
Proof.
  apply reachable_inv in Hp. pose proof Hp as [_ Hq Hw _ Hx _ _ _]. split; [|split; [|split]].
  - intros Hnq. apply timer_can_step. intros Ht. rewrite Ht in Hq. cbn in Hq. congruence.
  - intros ls p' Hr Hls. pose proof (run_timer _ _ _ Hr Hp Htotal) as Hrank.
    rewrite (si_quit _ (run_inv _ _ _ Hr Hp)).
    assert (timer_rank (p_timer p) <= 7)%nat by (destruct (p_timer p); cbn; lia).
    destruct (p_timer p'); cbn in *; [lia.. | done].
  - intros Hquit. assert (p_timer p = T_done) as Ht by (rewrite Hquit in Hq; by destruct (p_timer p)).
    split; [|split; [done|split; [|split]]].
    + intros ls p' Hr. pose proof (run_rank _ _ _ Hr Hp Hquit Htotal). pose proof (rank_le p). lia.
    + intros i w Hi. destruct (decide (w = W_done)) as [|Hd]; [by left|]. right.
      assert (w <> W_waiting) as Hnw by (intros ->; by destruct (proj1 (waiting_0 p) (Hw Hquit) i)).
      split; [done|]. by eapply worker_can_step.
    + destruct (decide (p_socket p = S_done)); [by left|]. right. apply socket_can_step; [done|].
      apply Hx. by rewrite Ht.
    + destruct (decide (p_monitor p = M_done)); [by left|]. right. by apply monitor_can_step.
  - intros ls p' Hr. destruct (run_inv _ _ _ Hr Hp) as [_ _ _ _ _ _ (i & Hm & _) Hf].
    rewrite Hm. by split_and!.
Qed.

Lemma shutdown_terminates_witness :
  let p := Process [W_test; W_dispatch] T_done S_poll M_top L_verify (J_join 0) 0 true false 0 true in
  p_timer p = T_done /\
  (forall ls p', run p ls p' -> thread_steps ls <= 15 + 3 * messages ls)%nat.
Proof.
  intros p. assert (reachable p) as Hp.
  { exists 2%nat, 0, [Timer; Timer; Timer; Worker 1; Timer]. unfold start. cbn [replicate].
    eapply run_cons; [by apply t_update|]. eapply run_cons; [by apply t_check|].
    eapply run_cons; [by apply t_exit|]. eapply run_cons; [by apply (w_test _ 1)|].
    eapply run_cons; [by apply t_quit|]. apply run_nil. }
  destruct (shutdown_terminates p Hp eq_refl) as (_ & _ & Hq & _).
  destruct (Hq eq_refl) as (Hok & Ht & _). split; [exact Ht | exact Hok].
Defined.
