(* ===== verification/Command.v ===== *)
(** core/uboss_command.c, core/uboss_env.c and the files of core/uboss_log.c: the text
    commands of the services, over the node of [Server] and the timer of [Timer].

    A C string is the list of its bytes, none of them zero; a parameter that is a null
    pointer is [None].  The environment is the global table of a Lua state, with strings as
    values.  [None] as a result is a failed assertion, a null pointer that is followed, the
    use of a variable that was not set, or what the called functions give.

    Parameters: the functions of the modules, as in [Server]; [instance_signal]; [fopen];
    the texts of the CPU times.  What is written to the log files is not modelled. *)
From Stdlib Require Import String.
From S2P Require Import Prelude Bytes Ring Mq Sched Handle Timer CStr Server.
Open Scope Z_scope.

(** ** State *)
Record system := System {
  y_node : node;
  y_timer : timer;
  y_env : gmap cstring cstring;     (* E->L *)
  y_log : gmap ctxid Z              (* ctx->logfile *)
}.

Definition set_node (n : node) (s : system) : system := System n (y_timer s) (y_env s) (y_log s).
Definition set_env (e : gmap cstring cstring) (s : system) : system :=
  System (y_node s) (y_timer s) e (y_log s).
Definition set_log (l : gmap ctxid Z) (s : system) : system :=
  System (y_node s) (y_timer s) (y_env s) l.

Definition set_monitor_exit (h : Z) (n : node) : node :=
  Node (n_total n) h (n_ctxs n) (n_handles n) (n_mq n) (n_remote n) (n_harbor n) (n_logger n)
    (n_heap n) (n_brk n) (n_fresh n).

(** [uboss_getenv], [uboss_setenv]: a name is set once. *)
Definition uboss_getenv (key : cstring) (s : system) : option cstring := y_env s !! key.

Definition uboss_setenv (key value : cstring) (s : system) : option system :=
  _ ← cassert (bool_decide (y_env s !! key = None));
  Some (set_env (<[key := value]> (y_env s)) s).

(** ** Text *)

Definition hex (d : Z) : Z := if d <? 10 then 48 + d else 55 + d.

(** [id_to_hex]. *)
Definition id_to_hex (id : Z) : cstring :=
  58 :: map (fun i => hex (Z.land (Z.shiftr id ((7 - i) * 4)) 0xf)) (seqZ 0 8).

(** [":%x"]. *)
Definition fmt_handle (h : Z) : cstring := 58 :: fmt_x h.

(** One [%s] of [sscanf]. *)
Fixpoint token (l : cstring) : cstring * cstring :=
  match l with
  | [] => ([], [])
  | c :: l' => if isspace c then ([], l) else let '(t, r) := token l' in (c :: t, r)
  end.

Definition scan_s (l : cstring) : option (cstring * cstring) :=
  match token (skip_spaces l) with
  | ([], _) => None
  | r => Some r
  end.

(** [strsep] of the string at a pointer that is not null: the token, and the pointer then. *)
Fixpoint split_at (delims : list Z) (l : cstring) : cstring * option cstring :=
  match l with
  | [] => ([], None)
  | c :: l' =>
      if bool_decide (c ∈ delims) then ([], Some l')
      else let '(t, r) := split_at delims l' in (c :: t, r)
  end.

(** [strchr(s, c)]: the string from there on. *)
Fixpoint strchr (c : Z) (l : cstring) : option cstring :=
  match l with
  | [] => None
  | x :: l' => if x =? c then Some l else strchr c l'
  end.

(** [strtol(s, NULL, 0)]: the base is in the prefix. *)
Definition auto_base (s : cstring) : Z :=
  let l := match skip_spaces s with 45 :: l | 43 :: l => l | l => l end in
  match l with
  | 48 :: x :: d :: _ => if ((x =? 120) || (x =? 88)) && (digit_of d <? 16) then 16 else 8
  | 48 :: _ => 8
  | _ => 10
  end.

Section command.
Variable module_query : list Z -> option Z.
Variable instance_create : Z -> option Z.
Variable instance_init : Z -> Z -> ctxid -> option (list Z) -> node -> option (Z * node).
Variable instance_release : Z -> Z -> node -> option node.
Variable instance_signal : Z -> Z -> Z -> node -> option node.
Variable fopen : cstring -> option Z.
Variable cpu_text : ctxid -> node -> cstring.
Variable time_text : ctxid -> node -> cstring.

#[local] Abbreviation error := (uboss_error instance_release).

(** [uboss_context_push] of the timer; [None] once it has failed. *)
Definition timer_push (h : Z) (m : uboss_message) (w : option node) : Z * option node :=
  match w ≫= uboss_context_push instance_release h m with
  | Some (r, n) => (r, Some n)
  | None => (0, None)
  end.

(** [uboss_handle_retireall] with the release of the contexts: the loop over the slots. *)
Fixpoint node_retire_round (k : nat) (i : Z) (n : node) : option (Z * node) :=
  match k with
  | O => Some (0, n)
  | S k =>
      c ← (hslot (n_handles n)).[i];
      let handle := match c with Some ctx => handle_of n ctx | None => 0 end in
      '(r, n) ← (if negb (handle =? 0) then node_retire instance_release handle n else Some (0, n));
      '(r', n) ← node_retire_round k (i + 1) n;
      Some (r + r', n)
  end.

(** [uboss_handle_retireall]. *)
Fixpoint node_retireall (fuel : nat) (n : node) : option node :=
  match fuel with
  | O => None
  | S fuel =>
      '(k, n) ← node_retire_round (Z.to_nat (slot_size (n_handles n))) 0 n;
      if k =? 0 then Some n else node_retireall fuel n
  end.

(** ** Commands *)

(** [handle_exit]. *)
Definition handle_exit (c : ctxid) (handle : Z) (n : node) : option node :=
  own ← uboss_context_handle c n;
  let '(handle, text) :=
    if handle =? 0 then (own, bytes_of "KILL self")
    else (handle, bytes_of "KILL :" ++ fmt_x handle) in
  n ← error (Some c) text n;
  n ← (if negb (n_monitor_exit n =? 0) then
         '(_, n) ← uboss_send instance_release (Some c) handle (n_monitor_exit n) PTYPE_CLIENT 0 0 0 n; Some n
       else Some n);
  '(_, n) ← node_retire instance_release handle n;
  Some n.

(** [cmd_timeout]. *)
Definition cmd_timeout (c : ctxid) (param : option cstring) (s : system) : option (option cstring * system) :=
  param ← param;
  let ti := s32 (strtol 10 param) in
  '(session, n) ← uboss_context_newsession c (y_node s);
  handle ← uboss_context_handle c n;
  '(_, T, w) ← uboss_timeout timer_push handle ti session (y_timer s) (Some n);
  n ← w;
  Some (Some (fmt_d session), System n T (y_env s) (y_log s)).

(** [cmd_reg]. *)
Definition cmd_reg (c : ctxid) (param : option cstring) (s : system) : option (option cstring * system) :=
  handle ← uboss_context_handle c (y_node s);
  match param with
  | None | Some [] => Some (Some (fmt_handle handle), s)
  | Some (46 :: name) =>
      '(r, h) ← uboss_handle_namehandle handle name (n_handles (y_node s));
      Some (r, set_node (set_handles h (y_node s)) s)
  | Some param =>
      n ← error (Some c) (bytes_of "Can't register global name " ++ param ++ bytes_of " in C") (y_node s);
      Some (None, set_node n s)
  end.

(** [cmd_query]. *)
Definition cmd_query (c : ctxid) (param : option cstring) (s : system) : option (option cstring * system) :=
  param ← param;
  match param with
  | 46 :: name =>
      handle ← uboss_handle_findname name (n_handles (y_node s));
      Some (if negb (handle =? 0) then Some (fmt_handle handle) else None, s)
  | _ => Some (None, s)
  end.

(** [cmd_name]: without a second word [handle] is not set. *)
Definition cmd_name (c : ctxid) (param : option cstring) (s : system) : option (option cstring * system) :=
  param ← param;
  '(name, rest) ← scan_s param;
  '(handle, _) ← scan_s rest;
  match handle with
  | 58 :: text =>
      let handle_id := u32 (strtoul 16 text) in
      if handle_id =? 0 then Some (None, s) else
      match name with
      | 46 :: name =>
          '(r, h) ← uboss_handle_namehandle handle_id name (n_handles (y_node s));
          Some (r, set_node (set_handles h (y_node s)) s)
      | _ =>
          n ← error (Some c) (bytes_of "Can't set global name " ++ name ++ bytes_of " in C") (y_node s);
          Some (None, set_node n s)
      end
  | _ => Some (None, s)
  end.

(** [cmd_exit]. *)
Definition cmd_exit (c : ctxid) (param : option cstring) (s : system) : option (option cstring * system) :=
  n ← handle_exit c 0 (y_node s); Some (None, set_node n s).

(** [tohandle]. *)
Definition tohandle (c : ctxid) (param : option cstring) (n : node) : option (Z * node) :=
  param ← param;
  match param with
  | 58 :: text => Some (u32 (strtoul 16 text), n)
  | 46 :: name => h ← uboss_handle_findname name (n_handles n); Some (h, n)
  | _ =>
      n ← error (Some c) (bytes_of "Can't convert " ++ param ++ bytes_of " to handle") n;
      Some (0, n)
  end.

(** [cmd_kill]. *)
Definition cmd_kill (c : ctxid) (param : option cstring) (s : system) : option (option cstring * system) :=
  '(handle, n) ← tohandle c param (y_node s);
  n ← (if negb (handle =? 0) then handle_exit c handle n else Some n);
  Some (None, set_node n s).

(** [cmd_launch]; [strsep] of a null pointer is null. *)
Definition cmd_launch (c : ctxid) (param : option cstring) (s : system) : option (option cstring * system) :=
  param ← param;
  let '(mod_, args) := split_at [32; 9; 13; 10] param in
  let args := match args with Some args => Some (split_at [13; 10] args).1 | None => None end in
  '(inst, n) ← uboss_context_new module_query instance_create instance_init instance_release mod_ args (y_node s);
  match inst with
  | None => Some (None, set_node n s)
  | Some inst => handle ← uboss_context_handle inst n; Some (Some (id_to_hex handle), set_node n s)
  end.

(** [cmd_getenv]. *)
Definition cmd_getenv (c : ctxid) (param : option cstring) (s : system) : option (option cstring * system) :=
  param ← param; Some (uboss_getenv param s, s).

(** [cmd_setenv]. *)
Definition cmd_setenv (c : ctxid) (param : option cstring) (s : system) : option (option cstring * system) :=
  param ← param;
  match split_at [32] param with
  | (_, None) => Some (None, s)
  | (key, Some value) => s ← uboss_setenv key value s; Some (None, s)
  end.

(** [cmd_starttime]. *)
Definition cmd_starttime (c : ctxid) (param : option cstring) (s : system) : option (option cstring * system) :=
  Some (Some (fmt_u (uboss_starttime (y_timer s))), s).

(** [cmd_endless]. *)
Definition cmd_endless (c : ctxid) (param : option cstring) (s : system) : option (option cstring * system) :=
  ctx ← n_ctxs (y_node s) !! c;
  if ctx_endless ctx then
    n ← update c (set_endless false) (y_node s); Some (Some (bytes_of "1"), set_node n s)
  else Some (None, s).

(** [cmd_abort]: every round but the last retires a handle. *)
Definition cmd_abort (c : ctxid) (param : option cstring) (s : system) : option (option cstring * system) :=
  n ← node_retireall (S (Z.to_nat (slot_size (n_handles (y_node s))))) (y_node s);
  Some (None, set_node n s).

(** [cmd_monitor]. *)
Definition cmd_monitor (c : ctxid) (param : option cstring) (s : system) : option (option cstring * system) :=
  match param with
  | None | Some [] =>
      let h := n_monitor_exit (y_node s) in
      Some (if negb (h =? 0) then Some (fmt_handle h) else None, s)
  | Some _ =>
      '(handle, n) ← tohandle c param (y_node s);
      Some (None, set_node (set_monitor_exit handle n) s)
  end.

(** The length of the queue of a context. *)
Definition queue_length (ctx : context) (n : node) : option Z :=
  q ← mqs (n_mq n) !! ctx_queue ctx; Some (uboss_mq_length q).

(** [cmd_stat]. *)
Definition cmd_stat (c : ctxid) (param : option cstring) (s : system) : option (option cstring * system) :=
  param ← param;
  ctx ← n_ctxs (y_node s) !! c;
  if bool_decide (param = bytes_of "mqlen") then
    len ← queue_length ctx (y_node s); Some (Some (fmt_d len), s)
  else if bool_decide (param = bytes_of "endless") then
    if ctx_endless ctx then
      n ← update c (set_endless false) (y_node s); Some (Some (bytes_of "1"), set_node n s)
    else Some (Some (bytes_of "0"), s)
  else if bool_decide (param = bytes_of "cpu") then Some (Some (cpu_text c (y_node s)), s)
  else if bool_decide (param = bytes_of "time") then Some (Some (time_text c (y_node s)), s)
  else if bool_decide (param = bytes_of "message") then Some (Some (fmt_d (ctx_message_count ctx)), s)
  else Some (Some [], s).

(** [cmd_mqlen]. *)
Definition cmd_mqlen (c : ctxid) (param : option cstring) (s : system) : option (option cstring * system) :=
  ctx ← n_ctxs (y_node s) !! c;
  len ← queue_length ctx (y_node s); Some (Some (fmt_d len), s).

(** [uboss_log_open]. *)
Definition log_path (logpath : cstring) (handle : Z) : cstring :=
  logpath ++ bytes_of "/" ++ fmt_08x handle ++ bytes_of ".log".

Definition uboss_log_open (c : ctxid) (handle : Z) (s : system) : option (option Z * system) :=
  match uboss_getenv (bytes_of "logpath") s with
  | None => Some (None, s)
  | Some logpath =>
      let tmp := log_path logpath handle in
      let f := fopen tmp in
      n ← error (Some c) (bytes_of "Open log file " ++ tmp ++
            match f with Some _ => [] | None => bytes_of " fail" end) (y_node s);
      Some (f, set_node n s)
  end.

(** [uboss_log_close]. *)
Definition uboss_log_close (c : ctxid) (f : Z) (handle : Z) (s : system) : option system :=
  n ← error (Some c) (bytes_of "Close log file :" ++ fmt_08x handle) (y_node s);
  Some (set_node n s).

(** The context of a handle, with a reference that is given back after [f]. *)
Definition with_context (handle : Z) (s : system) (f : ctxid -> system -> option system)
    : option (option cstring * system) :=
  if handle =? 0 then Some (None, s) else
  '(ctx, n) ← node_grab handle (y_node s);
  let s := set_node n s in
  match ctx with
  | None => Some (None, s)
  | Some ctx =>
      s ← f ctx s;
      '(_, n) ← uboss_context_release instance_release ctx (y_node s);
      Some (None, set_node n s)
  end.

(** [cmd_logon]; no other thread opens the file in between. *)
Definition cmd_logon (c : ctxid) (param : option cstring) (s : system) : option (option cstring * system) :=
  '(handle, n) ← tohandle c param (y_node s);
  with_context handle (set_node n s) (fun ctx s =>
    match y_log s !! ctx with
    | Some _ => Some s
    | None =>
        '(f, s) ← uboss_log_open c handle s;
        Some (match f with Some f => set_log (<[ctx := f]> (y_log s)) s | None => s end)
    end).

(** [cmd_logoff]. *)
Definition cmd_logoff (c : ctxid) (param : option cstring) (s : system) : option (option cstring * system) :=
  '(handle, n) ← tohandle c param (y_node s);
  with_context handle (set_node n s) (fun ctx s =>
    match y_log s !! ctx with
    | None => Some s
    | Some f => uboss_log_close c f handle (set_log (delete ctx (y_log s)) s)
    end).

(** [cmd_signal]: the number is behind the first space of the parameter. *)
Definition cmd_signal (c : ctxid) (param : option cstring) (s : system) : option (option cstring * system) :=
  '(handle, n) ← tohandle c param (y_node s);
  with_context handle (set_node n s) (fun ctx s =>
    param ← param;
    let sig := match strchr 32 param with
               | Some l => s32 (strtol (auto_base l) l)
               | None => 0
               end in
    cx ← n_ctxs (y_node s) !! ctx;
    n ← instance_signal (ctx_mod cx) (ctx_instance cx) sig (y_node s);
    Some (set_node n s)).

(** [cmd_funcs]. *)
Definition cmd_funcs : list (cstring * (ctxid -> option cstring -> system -> option (option cstring * system))) :=
  [(bytes_of "TIMEOUT", cmd_timeout); (bytes_of "REG", cmd_reg); (bytes_of "QUERY", cmd_query);
   (bytes_of "NAME", cmd_name); (bytes_of "EXIT", cmd_exit); (bytes_of "KILL", cmd_kill);
   (bytes_of "LAUNCH", cmd_launch); (bytes_of "GETENV", cmd_getenv); (bytes_of "SETENV", cmd_setenv);
   (bytes_of "STARTTIME", cmd_starttime); (bytes_of "ENDLESS", cmd_endless); (bytes_of "ABORT", cmd_abort);
   (bytes_of "MONITOR", cmd_monitor); (bytes_of "STAT", cmd_stat); (bytes_of "MQLEN", cmd_mqlen);
   (bytes_of "LOGON", cmd_logon); (bytes_of "LOGOFF", cmd_logoff); (bytes_of "SIGNAL", cmd_signal)].

Fixpoint find_command (cmd : cstring)
    (l : list (cstring * (ctxid -> option cstring -> system -> option (option cstring * system))))
    : option (ctxid -> option cstring -> system -> option (option cstring * system)) :=
  match l with
  | [] => None
  | (name, f) :: l => if bool_decide (cmd = name) then Some f else find_command cmd l
  end.

(** [uboss_command]. *)
Definition uboss_command (c : ctxid) (cmd : cstring) (param : option cstring) (s : system)
    : option (option cstring * system) :=
  match find_command cmd cmd_funcs with
  | Some f => f c param s
  | None => Some (None, s)
  end.
End command.
