(* ===== verification/CommandNames.v ===== *)
(** Handles as texts in the commands of [Command]: what the framework prints it reads back,
    and the commands on names are operations on a finite map. *)
From Stdlib Require Import String.
From S2P Require Import Prelude Bytes Ring Mq Sched Handle Timer CStr Server ServerLife Command.
Open Scope Z_scope.

(** ** Hexadecimal digits *)
Definition is_hex (c : Z) : Prop := 0 <= digit_of c < 16.

Lemma is_hex_char c : is_hex c -> 48 <= c <= 57 \/ 97 <= c <= 102 \/ 65 <= c <= 70.
Proof.
  unfold is_hex, digit_of. repeat case_match; intros;
    repeat match goal with H : _ && _ = true |- _ => apply andb_prop in H as [? ?] end; lia.
Qed.

Lemma is_hex_not_space c : is_hex c -> isspace c = false.
Proof. intros Hc%is_hex_char. unfold isspace. lia. Qed.

(** What [strtoul] makes of hexadecimal digits. *)
Lemma strtoul_hex ds : Forall is_hex ds -> 0 <= digits_value 16 ds 0 < 2 ^ 64 ->
  strtoul 16 ds = digits_value 16 ds 0.
Proof.
  intros Hf Hv. unfold strtoul. assert (parse_int 16 ds = (false, digits_value 16 ds 0)) as ->.
  - unfold parse_int. assert (skip_spaces ds = ds) as ->.
    { destruct ds as [|c ds]; [done|]. apply Forall_cons_1 in Hf as [Hc _]. cbn [skip_spaces].
      by rewrite (is_hex_not_space c Hc). }
    assert (skip_0x 16 ds = ds) as Hskip.
    { destruct ds as [|c [|x [|d ds]]]; try (by unfold skip_0x; repeat case_match).
      apply Forall_cons_1 in Hf as [_ [Hx _]%Forall_cons_1]. apply is_hex_char in Hx.
      unfold skip_0x. assert ((x =? 120) || (x =? 88) = false) as -> by lia.
      rewrite andb_false_r. by repeat case_match. }
    destruct ds as [|c ds]; [done|]. apply Forall_cons_1 in Hf as [Hc%is_hex_char _].
    assert (c <> 45 /\ c <> 43) as [H1 H2] by lia. clear Hc Hv.
    repeat case_match; try done; by rewrite Hskip.
  - rewrite (proj2 (Z.ltb_ge _ _)) by lia. done.
Qed.

Lemma hex_digit_of d : 0 <= d < 16 -> digit_of (hex d) = d.
Proof. intros. unfold digit_of, hex. zdec; simpl; lia. Qed.

Lemma digit_char_hex d : 0 <= d < 16 -> is_hex (digit_char d).
Proof. intros. unfold is_hex. by rewrite (digit_of_char 16) by lia. Qed.

Lemma print_digits_hex fuel v : forall acc, 0 <= v -> Forall is_hex acc ->
  Forall is_hex (print_digits fuel 16 v acc).
Proof.
  revert v. induction fuel as [|fuel IH]; intros v acc Hv Hacc; cbn [print_digits]; [done|].
  pose proof (Z.mod_pos_bound v 16 ltac:(lia)) as Hm.
  assert (Forall is_hex (digit_char (v mod 16) :: acc)) by (constructor; [by apply digit_char_hex | done]).
  case_match; [done|]. apply IH; [apply Z.div_pos; lia | done].
Qed.

(** [":%x"]. *)
Lemma fmt_x_hex h : is_u32 h -> Forall is_hex (fmt_x h) /\ digits_value 16 (fmt_x h) 0 = h.
Proof.
  intros Hh. unfold fmt_x. rewrite u32_small by done. unfold is_u32 in Hh. split.
  - apply print_digits_hex; [lia | constructor].
  - pose proof (digits_value_print 16 8 ltac:(lia) h [] [] ltac:(simpl; lia) ltac:(lia)) as E.
    rewrite !app_nil_r in E. exact E.
Qed.

(** [id_to_hex]. *)
Lemma id_to_hex_hex h : is_u32 h -> exists ds, id_to_hex h = 58 :: ds /\ Forall is_hex ds /\
  digits_value 16 ds 0 = h.
Proof.
  intros Hh. unfold id_to_hex. eexists. split; [reflexivity|].
  assert (forall i, 0 <= Z.land (Z.shiftr h ((7 - i) * 4)) 15 < 16) as Hn.
  { intros i. rewrite (land_mask _ 4 ltac:(lia) : Z.land _ 15 = _). apply Z.mod_pos_bound. lia. }
  split.
  - apply Forall_map, Forall_true. intros i. unfold is_hex. by rewrite hex_digit_of.
  - change (seqZ 0 8) with [0; 1; 2; 3; 4; 5; 6; 7]. cbn [map digits_value].
    rewrite !hex_digit_of by apply Hn. rewrite !(proj2 (Z.ltb_lt _ 16)) by apply Hn.
    assert (forall x, Z.land x 15 = x mod 16) as Hl by (intros x; exact (land_mask x 4 ltac:(lia))).
    rewrite !Hl, !Z.shiftr_div_pow2 by lia. clear Hl Hn. unfold is_u32 in Hh.
    change (2 ^ ((7 - 0) * 4)) with 268435456. change (2 ^ ((7 - 1) * 4)) with 16777216.
    change (2 ^ ((7 - 2) * 4)) with 1048576. change (2 ^ ((7 - 3) * 4)) with 65536.
    change (2 ^ ((7 - 4) * 4)) with 4096. change (2 ^ ((7 - 5) * 4)) with 256.
    change (2 ^ ((7 - 6) * 4)) with 16. change (2 ^ ((7 - 7) * 4)) with 1.
    Z.to_euclidean_division_equations. lia.
Qed.

(** Both texts of a handle: digits that [strtoul] reads, in less than [result] holds. *)
Definition handle_text (h : Z) (t : cstring) : Prop := t = fmt_handle h \/ t = id_to_hex h.

Lemma handle_text_spec h t : is_u32 h -> handle_text h t -> exists ds, t = 58 :: ds /\ Forall is_hex ds /\
  strtoul 16 ds = h /\ zlen t < 32.
Proof.
  intros Hh [->| ->].
  - destruct (fmt_x_hex h Hh) as [Hf Hv]. exists (fmt_x h). split; [done|]. split; [done|].
    unfold is_u32 in Hh. split; [rewrite strtoul_hex; [done | done | lia]|].
    unfold fmt_handle, fmt_x. rewrite zlen_cons. pose proof (zlen_print_digits 8 16 (u32 h) []).
    change (zlen (@nil Z)) with 0 in *. lia.
  - destruct (id_to_hex_hex h Hh) as (ds & Hd & Hf & Hv). exists ds. split; [done|]. split; [done|].
    unfold is_u32 in Hh. split; [rewrite strtoul_hex; [done | done | lia]|].
    unfold id_to_hex. by rewrite zlen_cons.
Qed.

(** ** Words *)
Definition word (w : cstring) : Prop := Forall (fun c => isspace c = false) w.

Lemma token_word w r : word w -> token (w ++ 32 :: r) = (w, 32 :: r).
Proof.
  induction 1 as [|c w Hc Hw IH]; cbn [app token]; [done|]. by rewrite Hc, IH.
Qed.

Lemma token_end w : word w -> token w = (w, []).
Proof. induction 1 as [|c w Hc Hw IH]; cbn [token]; [done|]. by rewrite Hc, IH. Qed.

Lemma hex_word ds : Forall is_hex ds -> word (58 :: ds).
Proof.
  intros Hf. constructor; [done|]. eapply Forall_impl; [exact Hf|]. apply is_hex_not_space.
Qed.

Section names.
Variable module_query : list Z -> option Z.
Variable instance_create : Z -> option Z.
Variable instance_init : Z -> Z -> ctxid -> option (list Z) -> node -> option (Z * node).
Variable instance_release : Z -> Z -> node -> option node.
Variable instance_signal : Z -> Z -> Z -> node -> option node.
Variable fopen : cstring -> option Z.
Variable cpu_text time_text : ctxid -> node -> cstring.

#[local] Abbreviation command := (uboss_command module_query instance_create instance_init
  instance_release instance_signal fopen cpu_text time_text).

(** What binding the name [nm] to [h] gives: the result and the names. *)
Definition bind_name (nm : cstring) (h : Z) (m : gmap cstring Z) : option cstring * gmap cstring Z :=
  match m !! nm with Some _ => (None, m) | None => (Some nm, <[nm := h]> m) end.

(** Only the table of names may differ. *)
Definition same_but_names (s s' : system) : Prop :=
  exists h, s' = set_node (set_handles h (y_node s)) s /\
    hslot h = hslot (n_handles (y_node s)) /\ slot_size h = slot_size (n_handles (y_node s)) /\
    handle_index h = handle_index (n_handles (y_node s)).

Lemma namehandle_bind s m nm h : names_map (n_handles (y_node s)) m ->
  name_count (n_handles (y_node s)) * 2 <= MAX_SLOT_SIZE ->
  exists t s', uboss_handle_namehandle h nm (n_handles (y_node s)) = Some ((bind_name nm h m).1, t) /\
    s' = set_node (set_handles t (y_node s)) s /\ same_but_names s s' /\
    names_map (n_handles (y_node s')) (bind_name nm h m).2.
Proof.
  intros Hm Hmax. pose proof (namehandle_map _ m nm h Hm Hmax) as Hn. unfold bind_name.
  destruct (m !! nm).
  - do 2 eexists. split; [exact Hn|]. split; [done|]. split; [by eexists | done].
  - destruct Hn as (t & Ht & Hm' & H1 & H2 & H3 & _). do 2 eexists. split; [exact Ht|].
    split; [done|]. split; [by exists t | done].
Qed.

(** C18: Names and handles in commands.  A handle is printed as [":%x"] (REG, QUERY, MONITOR)
    or with eight digits (LAUNCH); both texts fit the result's 32 bytes and every command
    that takes a handle reads the same handle back.  Over these texts NAME binds a name that
    is free and says so, returns NULL and changes nothing when it is taken, and REG does the
    same with the caller's handle; QUERY gives the text of the handle of a name, and the
    names mean the same as parameters of KILL, MONITOR and the others.  Nothing but the table
    of names changes. *)
Theorem command_names (c : ctxid) (s : system) (m : gmap cstring Z) (nm : cstring) (h : Z) (t : cstring) :
  names_map (n_handles (y_node s)) m -> (forall k v, m !! k = Some v -> v <> 0) ->
  name_count (n_handles (y_node s)) * 2 <= MAX_SLOT_SIZE -> word nm -> is_u32 h -> handle_text h t ->
  zlen t < 32 /\
  tohandle instance_release c (Some t) (y_node s) = Some (h, y_node s) /\
  (forall k, tohandle instance_release c (Some (46 :: k)) (y_node s) = Some (default 0 (m !! k), y_node s)) /\
  (forall k, command c (bytes_of "QUERY") (Some (46 :: k)) s = Some (fmt_handle <$> m !! k, s)) /\
  (h <> 0 -> exists s', command c (bytes_of "NAME") (Some (46 :: nm ++ 32 :: t)) s = Some ((bind_name nm h m).1, s') /\
     same_but_names s s' /\ names_map (n_handles (y_node s')) (bind_name nm h m).2) /\
  (uboss_context_handle c (y_node s) = Some h ->
     command c (bytes_of "REG") None s = Some (Some (fmt_handle h), s) /\
     exists s', command c (bytes_of "REG") (Some (46 :: nm)) s = Some ((bind_name nm h m).1, s') /\
       same_but_names s s' /\ names_map (n_handles (y_node s')) (bind_name nm h m).2).
Proof.
  intros Hm Hnz Hmax Hw Hh Ht. destruct (handle_text_spec h t Hh Ht) as (ds & -> & Hds & Hval & Hlen).
  destruct (namehandle_bind s m nm h Hm Hmax) as (tb & s' & Hbind & Hs' & Hsame & Hm').
  split; [done|]. split; [|split; [|split; [|split]]].
  - unfold tohandle. cbn [mbind option_bind]. rewrite Hval. by rewrite u32_small.
  - intros k. unfold tohandle. cbn [mbind option_bind]. by rewrite (findname_map _ m k Hm).
  - intros k. change (cmd_query c (Some (46 :: k)) s = Some (fmt_handle <$> m !! k, s)).
    unfold cmd_query. cbn [mbind option_bind]. rewrite (findname_map _ m k Hm). cbn [mbind option_bind].
    destruct (m !! k) as [v|] eqn:Hk; [|done]. cbn [default]. apply Hnz in Hk.
    rewrite (proj2 (Z.eqb_neq _ _)) by done. done.
  - intros Hh0. exists s'. split; [|done].
    change (cmd_name instance_release c (Some (46 :: nm ++ 32 :: 58 :: ds)) s = Some ((bind_name nm h m).1, s')).
    unfold cmd_name. cbn [mbind option_bind]. unfold scan_s. cbn [skip_spaces].
    change (isspace 46) with false. cbn [token]. change (isspace 46) with false. cbv iota.
    rewrite (token_word nm (58 :: ds) Hw). cbn [mbind option_bind]. cbn [skip_spaces].
    change (isspace 32) with true. change (isspace 58) with false. cbv iota.
    rewrite (token_end (58 :: ds) (hex_word ds Hds)). cbn [mbind option_bind].
    rewrite Hval, u32_small by done. rewrite (proj2 (Z.eqb_neq h 0)) by done.
    rewrite Hbind. cbn [mbind option_bind]. by rewrite Hs'.
  - intros Hc. split.
    + change (cmd_reg instance_release c None s = Some (Some (fmt_handle h), s)).
      unfold cmd_reg. by rewrite Hc.
    + exists s'. split; [|done].
      change (cmd_reg instance_release c (Some (46 :: nm)) s = Some ((bind_name nm h m).1, s')).
      unfold cmd_reg. rewrite Hc. cbn [mbind option_bind]. rewrite Hbind. cbn [mbind option_bind]. by rewrite Hs'.
Qed.
End names.

Lemma command_names_witness :
  let s := System (ServerLife.node_init 1) (uboss_timer_init 0 0 0) ∅ ∅ in
  exists s', uboss_command (fun _ => None) (fun _ => None) (fun _ _ _ _ _ => None) (fun _ _ n => Some n)
      (fun _ _ _ n => Some n) (fun _ => None) (fun _ _ => []) (fun _ _ => [])
      3%nat (bytes_of "NAME") (Some (bytes_of ".db :1000002")) s = Some (Some (bytes_of "db"), s') /\
    names_map (n_handles (y_node s')) {[bytes_of "db" := 0x1000002]}.
Proof.
  intros s.
  destruct (command_names (fun _ => None) (fun _ => None) (fun _ _ _ _ _ => None) (fun _ _ n => Some n)
    (fun _ _ _ n => Some n) (fun _ => None) (fun _ _ => []) (fun _ _ => []) 3%nat s ∅ (bytes_of "db") 0x1000002
    (fmt_handle 0x1000002)) as (_ & _ & _ & _ & Hname & _).
  - apply handle_init_names.
  - intros k v Hk. discriminate Hk.
  - vm_compute. discriminate.
  - repeat constructor.
  - vm_compute. split; [discriminate | reflexivity].
  - left. reflexivity.
  - destruct (Hname ltac:(discriminate)) as (s' & Hc & _ & Hm). exists s'. split; [exact Hc | exact Hm].
Defined.
