(* ===== verification/CommandSafe.v ===== *)
(** The commands of [Command] are safe: on a well-formed process, whatever the text is, they
    end without an access to something that is gone or a failed assertion, and the process
    is well-formed afterwards ([node_ok] of [ServerLife]: references, registry, names and
    queues); the few uses that are not safe are told apart exactly ([call_ok]). *)
From Stdlib Require Import String.
From S2P Require Import Prelude Bytes Ring Mq Sched Handle Timer CStr Server ServerLife ServerSafe Command CommandNames.
Open Scope Z_scope.

(** ** ABORT *)
Section abort.
Variable instance_release : Z -> Z -> node -> option node.
Hypothesis release_frees : forall m i n, exists h b, instance_release m i n = Some (set_heap h b n).

#[local] Set Default Proof Using "Type*".

Definition occupied (l : list (option ctxid)) : nat := length (omap id l).

Lemma occupied_clear (l : list (option ctxid)) : forall i, l !! i <> Some None -> (i < length l)%nat ->
  S (occupied (<[i := None]> l)) = occupied l.
Proof using Type.
  clear. unfold occupied. induction l as [|x l IH]; intros i Hi Hl; cbn [length] in Hl; [lia|].
  destruct i as [|i].
  - destruct x; [done|]. by destruct (Hi eq_refl).
  - specialize (IH i Hi ltac:(lia)). destruct x; [exact (f_equal S IH) | exact IH].
Qed.

(** One step of a round, at slot [i]. *)
Lemma retire_slot_ok i n own holds : node_ok n own holds -> 0 <= i < slot_size (n_handles n) ->
  exists o r n', (hslot (n_handles n)).[i] = Some o /\
    let handle := match o with Some ctx => handle_of n ctx | None => 0 end in
    (if negb (handle =? 0) then node_retire instance_release handle n else Some (0, n)) = Some (r, n') /\
    node_ok n' own holds /\ same_globals n n' /\ slot_size (n_handles n') = slot_size (n_handles n) /\
    (r = 0 /\ n' = n /\ handle = 0 \/
     r = 1 /\ S (occupied (hslot (n_handles n'))) = occupied (hslot (n_handles n))).
Proof.
  intros Hn Hi. pose proof (nk_slot _ _ _ Hn) as Hw. pose proof (wf_len _ _ Hw) as Hlen.
  destruct (aget_is_Some (hslot (n_handles n)) i ltac:(lia)) as [o Ho]. exists o. cbv zeta.
  set (handle := match o with Some ctx => handle_of n ctx | None => 0 end).
  destruct (Z.eqb_spec handle 0) as [Hz|Hz]; cbn [negb].
  - exists 0, n. split; [done|]. split; [done|]. split; [done|]. split; [done|]. split; [done|]. by left.
  - destruct (node_retire_ok instance_release release_frees handle n own holds Hn) as (r & n' & Hr & Hn' & Hg & Hsz & _ & Hr01 & Hr0 & Hr1).
    exists r, n'. split; [done|]. split; [done|]. split; [done|]. split; [done|]. split; [done|].
    subst handle. destruct o as [c|]; [|done].
    destruct (wf_slot _ _ Hw i c Ho) as (_ & Hmod & _). destruct Hr01 as [-> | ->].
    + destruct (Hr0 eq_refl) as [_ Hgrab]. destruct (grab_spec _ _ (handle_of n c) Hw) as (r & Hg' & Hrc).
      rewrite Hgrab in Hg'. injection Hg' as <-. rewrite <-Hmod in Ho.
      discriminate (proj2 (Hrc c) (conj Ho eq_refl)).
    + right. split; [done|]. destruct (Hr1 ltac:(done)) as [_ ->]. rewrite Hmod.
      rewrite <-(Z2Nat.id i) in Ho by lia. rewrite aget_nat in Ho.
      apply occupied_clear; [by rewrite Ho | by apply lookup_lt_Some in Ho].
Qed.

Lemma retire_round_ok k : forall i n own holds, node_ok n own holds ->
  0 <= i -> i + Z.of_nat k = slot_size (n_handles n) ->
  exists r n', node_retire_round instance_release k i n = Some (r, n') /\ node_ok n' own holds /\
    same_globals n n' /\ slot_size (n_handles n') = slot_size (n_handles n) /\ 0 <= r /\
    Z.of_nat (occupied (hslot (n_handles n'))) + r = Z.of_nat (occupied (hslot (n_handles n))) /\
    (r = 0 -> n' = n /\ forall j c, i <= j < i + Z.of_nat k -> (hslot (n_handles n)).[j] = Some (Some c) ->
       handle_of n c = 0).
Proof.
  induction k as [|k IH]; intros i n own holds Hn Hi Hik; cbn [node_retire_round].
  - exists 0, n. split; [done|]. split; [done|]. split; [done|]. split; [done|]. split; [done|]. split; [lia|].
    intros _. split; [done|]. intros. lia.
  - destruct (retire_slot_ok i n own holds Hn ltac:(lia)) as (o & r & n1 & Ho & Hr & Hn1 & Hg1 & Hsz & Hcase).
    rewrite Ho. cbn [mbind option_bind]. rewrite Hr. cbn [mbind option_bind].
    destruct (IH (i + 1) n1 own holds Hn1 ltac:(lia) ltac:(lia)) as
      (r2 & n2 & -> & Hn2 & Hg2 & Hsz2 & Hr2 & Hocc & Hzero). cbn [mbind option_bind].
    exists (r + r2), n2. split; [done|]. split; [done|].
    split; [unfold same_globals in *; intuition congruence|]. split; [congruence|].
    destruct Hcase as [(-> & -> & Hz)|[-> Hocc1]].
    + split; [lia|]. split; [lia|]. intros Hr0. destruct (Hzero ltac:(lia)) as [-> Hall]. split; [done|].
      intros j c Hj Hjc. destruct (decide (j = i)) as [->|Hne].
      * rewrite Ho in Hjc. injection Hjc as ->. exact Hz.
      * apply (Hall j c); [lia | done].
    + split; [lia|]. split; [lia|]. lia.
Qed.

Lemma retireall_ok fuel : forall n own holds, node_ok n own holds ->
  (occupied (hslot (n_handles n)) < fuel)%nat ->
  exists n', node_retireall instance_release fuel n = Some n' /\ node_ok n' own holds /\ same_globals n n' /\
    forall ctx, in_registry n' ctx -> handle_of n' ctx = 0.
Proof.
  induction fuel as [|fuel IH]; intros n own holds Hn Hf; [lia|]. cbn [node_retireall].
  pose proof (slot_pow_bounds _ (wf_pow _ _ (nk_slot _ _ _ Hn))) as Hsz.
  destruct (retire_round_ok (Z.to_nat (slot_size (n_handles n))) 0 n own holds Hn ltac:(lia) ltac:(lia)) as
    (r & n1 & -> & Hn1 & Hg & _ & Hr & Hocc & Hzero). cbn [mbind option_bind].
  destruct (Z.eqb_spec r 0) as [Hr0|Hr0].
  - destruct (Hzero Hr0) as [-> Hall]. exists n. split; [done|]. split; [done|]. split; [done|].
    intros ctx Hc. apply in_registry_slot in Hc as [i Hi]; [|by apply nk_slot in Hn as []].
    apply (Hall i ctx); [|done]. apply aget_lt_Some in Hi.
    rewrite (wf_len _ _ (nk_slot _ _ _ Hn)) in Hi. lia.
  - destruct (IH n1 own holds Hn1 ltac:(lia)) as (n2 & -> & Hn2 & Hg2 & Hall). exists n2.
    split; [done|]. split; [done|]. split; [|done]. unfold same_globals in *. intuition congruence.
Qed.

Lemma occupied_le (l : list (option ctxid)) : (occupied l <= length l)%nat.
Proof using Type.
  clear. unfold occupied. induction l as [|[x|] l IH]; [done | exact (le_n_S _ _ IH) | exact (le_S _ _ IH)].
Qed.
End abort.

(** ** The process *)

(** A process whose service [c] runs a command. *)
Record sys_ok (c rm : ctxid) (s : system) (own : gset qid) (holds : list ctxid) : Prop := {
  sk_node : node_ok (y_node s) own holds;
  sk_timer : exists ts, timer_repr (y_timer s) ts;
  sk_caller : c ∈ holds;
  sk_remote : n_remote (y_node s) = Some rm;
  sk_remote_ref : rm ∈ holds;
  sk_harbor : n_harbor (y_node s) <> 2 ^ 32 - 1
}.

(** The commands that do not look at the parameter. *)
Definition no_param : list cstring :=
  [bytes_of "REG"; bytes_of "EXIT"; bytes_of "STARTTIME"; bytes_of "ENDLESS"; bytes_of "ABORT";
   bytes_of "MONITOR"; bytes_of "MQLEN"].

(** The names of the table [cmd_funcs]. *)
Definition cmd_names : list cstring :=
  [bytes_of "TIMEOUT"; bytes_of "REG"; bytes_of "QUERY"; bytes_of "NAME"; bytes_of "EXIT"; bytes_of "KILL";
   bytes_of "LAUNCH"; bytes_of "GETENV"; bytes_of "SETENV"; bytes_of "STARTTIME"; bytes_of "ENDLESS";
   bytes_of "ABORT"; bytes_of "MONITOR"; bytes_of "STAT"; bytes_of "MQLEN"; bytes_of "LOGON"; bytes_of "LOGOFF";
   bytes_of "SIGNAL"].

(** The calls that the code answers.  The others follow a null pointer (no parameter for a
    command that reads it), use a variable that was not set (NAME with a single word) or fail
    an assertion (SETENV of a name that is set). *)
Definition call_ok (cmd : cstring) (param : option cstring) (s : system) : Prop :=
  (param = None -> bool_decide (cmd ∈ no_param) = true \/ bool_decide (cmd ∈ cmd_names) = false) /\
  forall p, param = Some p ->
    (cmd = bytes_of "NAME" -> exists w r w' r', scan_s p = Some (w, r) /\ scan_s r = Some (w', r')) /\
    (cmd = bytes_of "SETENV" -> forall k v, split_at [32] p = (k, Some v) -> y_env s !! k = None).

Lemma sys_ok_node c rm s n own holds : sys_ok c rm s own holds -> node_ok n own holds -> same_globals (y_node s) n ->
  sys_ok c rm (set_node n s) own holds.
Proof.
  intros [H1 H2 H3 H4 H5 H6] Hn [Hr Hh]. split; cbn [y_node set_node y_timer]; try done; [by rewrite Hr | by rewrite Hh].
Qed.

Lemma sys_ok_same c rm s s' own holds : sys_ok c rm s own holds -> y_node s' = y_node s -> y_timer s' = y_timer s ->
  sys_ok c rm s' own holds.
Proof. intros [H1 H2 H3 H4 H5 H6] En Et. by split; rewrite ?En, ?Et. Qed.

Lemma sys_ok_weaken c rm s own holds ctx n : sys_ok c rm s own holds -> node_ok n own (ctx :: holds) ->
  same_globals (y_node s) n -> sys_ok c rm (set_node n s) own (ctx :: holds).
Proof.
  intros [H1 H2 H3 H4 H5 H6] Hn [Hr Hh]. split; cbn [y_node set_node y_timer]; try done.
  - by right.
  - by rewrite Hr.
  - by right.
  - by rewrite Hh.
Qed.

Lemma update_ok c f n own holds ctx : node_ok n own holds -> n_ctxs n !! c = Some ctx ->
  same_ctx (Some ctx) (Some (f ctx)) ->
  exists n', update c f n = Some n' /\ node_ok n' own holds /\ same_globals n n'.
Proof.
  intros Hn Hc Hf. unfold update. rewrite Hc. cbn [mbind option_bind]. eexists. split; [done|]. split; [|done].
  eapply node_ok_ext; [exact Hn | | done..]. intros d. cbn [n_ctxs set_ctxs].
  destruct (decide (d = c)) as [->|Hd]; [by rewrite lookup_insert_eq, Hc|].
  rewrite lookup_insert_ne by done. by destruct (n_ctxs n !! d).
Qed.

Section commands.
Variable module_query : list Z -> option Z.
Variable instance_create : Z -> option Z.
Variable instance_init : Z -> Z -> ctxid -> option (list Z) -> node -> option (Z * node).
Variable instance_release : Z -> Z -> node -> option node.
Variable instance_signal : Z -> Z -> Z -> node -> option node.
Variable fopen : cstring -> option Z.
Variable cpu_text time_text : ctxid -> node -> cstring.
Hypothesis release_frees : forall m i n, exists h b, instance_release m i n = Some (set_heap h b n).
Hypothesis signal_frees : forall m i sig n, exists h b, instance_signal m i sig n = Some (set_heap h b n).

#[local] Set Default Proof Using "Type*".
#[local] Abbreviation command := (uboss_command module_query instance_create instance_init
  instance_release instance_signal fopen cpu_text time_text).

(** What is shown of every command. *)
Definition answers (f : system -> option (option cstring * system)) (c rm : ctxid) (s : system) own holds : Prop :=
  exists r s', f s = Some (r, s') /\ sys_ok c rm s' own holds.

Lemma caller_ctx c rm s own holds : sys_ok c rm s own holds -> exists ctx, n_ctxs (y_node s) !! c = Some ctx.
Proof using Type.
  intros Hs. destruct (held_alive _ _ _ c (sk_node _ _ _ _ _ Hs) (sk_caller _ _ _ _ _ Hs)) as (ctx & Hc & _). by exists ctx.
Qed.

Lemma quiet_sys c rm s n own holds : sys_ok c rm s own holds -> node_ok n own holds -> quiet (y_node s) n ->
  sys_ok c rm (set_node n s) own holds.
Proof using Type. intros Hs Hn [Hq _]. by eapply sys_ok_node. Qed.

Lemma handle_exit_ok c rm s h own holds : sys_ok c rm s own holds ->
  exists n, handle_exit instance_release c h (y_node s) = Some n /\ sys_ok c rm (set_node n s) own holds /\
    uboss_handle_grab (handle_of n) (if h =? 0 then handle_of (y_node s) c else h) (n_handles n) = Some None.
Proof using instance_release release_frees.
  clear -release_frees. intros Hs. destruct (caller_ctx c rm s own holds Hs) as [ctx Hc]. pose proof Hs as [Hn Ht Hcal Hrm Hrmh Hharbor].
  unfold handle_exit, uboss_context_handle. rewrite Hc. cbn [fmap option_fmap option_map mbind option_bind].
  assert (handle_of (y_node s) c = ctx_handle ctx) as -> by (unfold handle_of; by rewrite Hc).
  assert (forall h' text, exists n, (n ← uboss_error instance_release (Some c) text (y_node s);
      n ← (if negb (n_monitor_exit n =? 0) then
             '(_, n) ← uboss_send instance_release (Some c) h' (n_monitor_exit n) PTYPE_CLIENT 0 0 0 n; Some n
           else Some n);
      '(_, n) ← node_retire instance_release h' n; Some n) = Some n /\ sys_ok c rm (set_node n s) own holds /\
      uboss_handle_grab (handle_of n) h' (n_handles n) = Some None) as Hall.
  { intros h' text. destruct (error_held instance_release c text (y_node s) own holds Hn Hcal) as (n1 & -> & Hn1 & Hq1).
    cbn [mbind option_bind].
    assert (exists n2, (if negb (n_monitor_exit n1 =? 0) then
             '(_, n) ← uboss_send instance_release (Some c) h' (n_monitor_exit n1) PTYPE_CLIENT 0 0 0 n1; Some n
           else Some n1) = Some n2 /\ node_ok n2 own holds /\ quiet (y_node s) n2) as (n2 & -> & Hn2 & Hq2).
    { destruct (Z.eqb_spec (n_monitor_exit n1) 0) as [Hz|Hz]; cbn [negb]; [by exists n1|].
      destruct Hq1 as [[Hr1 Hh1] Hq1].
      destruct (send_ok instance_release c rm h' (n_monitor_exit n1) n1 own holds Hn1 Hcal Hrmh) as (r & n2 & -> & Hn2 & Hq2);
        [by rewrite Hr1 | by rewrite Hh1 | done|].
      cbn [mbind option_bind]. exists n2. split; [done|]. split; [done|]. by apply (quiet_trans _ n1). }
    cbn [mbind option_bind].
    destruct (node_retire_ok instance_release release_frees h' n2 own holds Hn2) as (r & n3 & -> & Hn3 & Hg3 & _ & Hgrab & _).
    cbn [mbind option_bind]. exists n3. split; [done|]. split; [|done].
    eapply sys_ok_node; [exact Hs | done|]. destruct Hq2 as [Hq2 _]. unfold same_globals in *. intuition congruence. }
  destruct (h =? 0); apply Hall.
Qed.

Lemma tohandle_ok c rm p s own holds : sys_ok c rm s own holds ->
  exists h n, tohandle instance_release c (Some p) (y_node s) = Some (h, n) /\ sys_ok c rm (set_node n s) own holds.
Proof using Type.
  intros Hs. unfold tohandle. cbn [mbind option_bind].
  assert (exists h n, (n ← uboss_error instance_release (Some c) (bytes_of "Can't convert " ++ p ++ bytes_of " to handle") (y_node s);
    Some (0, n)) = Some (h, n) /\ sys_ok c rm (set_node n s) own holds) as Herr.
  { destruct (error_held instance_release c (bytes_of "Can't convert " ++ p ++ bytes_of " to handle") (y_node s) own holds
      (sk_node _ _ _ _ _ Hs) (sk_caller _ _ _ _ _ Hs)) as (n1 & -> & Hn1 & Hq1).
    cbn [mbind option_bind]. do 2 eexists. split; [done|]. by eapply quiet_sys. }
  assert (forall nm, exists h n, (h ← uboss_handle_findname nm (n_handles (y_node s)); Some (h, y_node s)) = Some (h, n) /\
    sys_ok c rm (set_node n s) own holds) as Hname.
  { intros nm. destruct (nk_names _ _ _ (sk_node _ _ _ _ _ Hs)) as [m Hm]. rewrite (findname_map _ m _ Hm).
    cbn [mbind option_bind]. do 2 eexists. split; [done|]. by eapply sys_ok_same. }
  repeat case_match; try exact Herr; try apply Hname.
  do 2 eexists. split; [done|]. by eapply sys_ok_same.
Qed.

(** [with_context] gives its reference back. *)
Lemma with_context_ok c rm h s f own holds : sys_ok c rm s own holds ->
  (forall ctx s, ctx ∈ ctx :: holds -> sys_ok c rm s own (ctx :: holds) ->
     exists s', f ctx s = Some s' /\ sys_ok c rm s' own (ctx :: holds)) ->
  answers (fun s => with_context instance_release h s f) c rm s own holds.
Proof using instance_release release_frees.
  clear -release_frees. intros Hs Hf. unfold answers, with_context.
  destruct (h =? 0); [by exists None, s|]. pose proof Hs as [Hn Ht Hcal Hrm Hrmh Hharbor].
  destruct (grab_alive _ _ _ h Hn) as (r & Hg & Hr). unfold node_grab. rewrite Hg. cbn [mbind option_bind].
  destruct r as [ctx|].
  - destruct Hr as (Hreg & cx & Hcx & _).
    destruct (release_grab _ ctx cx instance_release Hcx) as (n1 & Hgrab & _ & _ & _).
    { rewrite (nk_ref _ _ _ Hn ctx cx Hcx). unfold refs. rewrite decide_True by done. lia. }
    assert (node_ok n1 own (ctx :: holds)) as Hn1.
    { apply (grab_ok _ own holds ctx n1 Hn); [|done]. unfold refs. rewrite decide_True by done. lia. }
    rewrite Hgrab. cbn [mbind option_bind].
    assert (same_globals (y_node s) n1) as Hg1.
    { unfold uboss_context_grab, update in Hgrab. rewrite Hcx in Hgrab. by injection Hgrab as <-. }
    destruct (Hf ctx (set_node n1 s)) as (s2 & -> & Hs2); [by left | by apply sys_ok_weaken|].
    cbn [mbind option_bind]. destruct Hs2 as [Hn2 Ht2 _ Hrm2 _ Hh2].
    destruct (release_back instance_release release_frees ctx _ own holds Hn2) as (b & n3 & -> & Hn3 & _ & [Hr3 Hh3] & _).
    cbn [mbind option_bind]. do 2 eexists. split; [done|].
    by split; cbn [y_node set_node y_timer]; rewrite ?Hr3, ?Hh3.
  - cbn [mbind option_bind]. do 2 eexists. split; [done|]. by eapply sys_ok_same.
Qed.

(** ** The commands *)
Definition cmd_ok (name : cstring) (f : ctxid -> option cstring -> system -> option (option cstring * system)) : Prop :=
  forall c rm s param own holds, sys_ok c rm s own holds ->
    name_count (n_handles (y_node s)) * 2 <= MAX_SLOT_SIZE -> call_ok name param s ->
    answers (f c param) c rm s own holds.

(** The command is given a parameter. *)
Lemma param_given name param s : call_ok name param s ->
  bool_decide (name ∈ no_param) = false /\ bool_decide (name ∈ cmd_names) = true ->
  exists p, param = Some p.
Proof using Type.
  clear. intros [Hp _] [Hno Hin]. destruct param as [p|]; [by exists p|].
  destruct (Hp eq_refl); congruence.
Qed.

(** Binding a name. *)
Lemma bind_ok c rm s h nm own holds : sys_ok c rm s own holds -> name_count (n_handles (y_node s)) * 2 <= MAX_SLOT_SIZE ->
  exists r hs, uboss_handle_namehandle h nm (n_handles (y_node s)) = Some (r, hs) /\
    sys_ok c rm (set_node (set_handles hs (y_node s)) s) own holds.
Proof using Type.
  clear. intros Hs Hmax. pose proof (sk_node _ _ _ _ _ Hs) as Hn. destruct (nk_names _ _ _ Hn) as [m Hm].
  destruct (namehandle_bind s m nm h Hm Hmax) as (tb & s' & Hbind & _). do 2 eexists. split; [exact Hbind|].
  eapply sys_ok_node; [exact Hs | by eapply name_ok | done].
Qed.

(** A complaint. *)
Lemma complain_ok c rm s text own holds : sys_ok c rm s own holds ->
  answers (fun s => n ← uboss_error instance_release (Some c) text (y_node s); Some (None, set_node n s)) c rm s own holds.
Proof using Type.
  clear. intros Hs. destruct (error_held instance_release c text (y_node s) own holds
    (sk_node _ _ _ _ _ Hs) (sk_caller _ _ _ _ _ Hs)) as (n1 & Hn & Hn1 & Hq1).
  unfold answers. rewrite Hn. cbn [mbind option_bind]. do 2 eexists. split; [done|]. by eapply quiet_sys.
Qed.

Lemma timeout_ok : cmd_ok (bytes_of "TIMEOUT") (cmd_timeout instance_release).
Proof using Type.
  clear. intros c rm s param own holds Hs Hmax Hcall. destruct (param_given _ _ _ Hcall) as [p ->]; [done|].
  pose proof Hs as [Hn [ts Hts] Hcal Hrm Hrmh Hharbor]. destruct (caller_ctx c rm s own holds Hs) as [ctx Hc].
  unfold answers, cmd_timeout, uboss_context_newsession. cbn [mbind option_bind]. rewrite Hc. cbn [mbind option_bind].
  set (session := if _ <=? 0 then 1 else _).
  destruct (update_ok c (set_session session) (y_node s) own holds ctx Hn Hc) as (n1 & -> & Hn1 & [Hr1 Hh1]); [done|].
  cbn [mbind option_bind]. destruct (held_alive n1 own holds c Hn1 Hcal) as (ctx1 & Hc1 & _).
  unfold uboss_context_handle. rewrite Hc1. cbn [fmap option_fmap option_map mbind option_bind].
  set (ti := s32 _). unfold uboss_timeout. destruct (Z.leb_spec ti 0) as [Hti|Hti].
  - unfold timer_push. cbn [mbind option_bind].
    destruct (context_push_ok instance_release (ctx_handle ctx1) (timer_message session) n1 own holds Hn1) as (r & n2 & -> & Hn2 & Hq2).
    cbn [mbind option_bind]. do 2 eexists. split; [done|]. destruct Hq2 as [[Hr2 Hh2] _].
    split; cbn [y_node y_timer]; rewrite ?Hr2, ?Hh2, ?Hr1, ?Hh1; try done. by exists ts.
  - destruct (timer_add_repr (y_timer s) ts (TimerEvent (ctx_handle ctx1) session) ti Hts) as (T & -> & _ & HT).
    { pose proof (s32_bound (strtol 10 p)) as Hb. unfold is_s32 in Hb. subst ti. lia. }
    cbn [mbind option_bind]. do 2 eexists. split; [done|].
    split; cbn [y_node y_timer]; rewrite ?Hr1, ?Hh1; try done. by eexists.
Qed.

Lemma reg_ok : cmd_ok (bytes_of "REG") (cmd_reg instance_release).
Proof using Type.
  clear. intros c rm s param own holds Hs Hmax Hcall. destruct (caller_ctx c rm s own holds Hs) as [ctx Hc].
  unfold answers, cmd_reg, uboss_context_handle. rewrite Hc. cbn [fmap option_fmap option_map mbind option_bind].
  assert (forall nm, exists r s', ('(r, h) ← uboss_handle_namehandle (ctx_handle ctx) nm (n_handles (y_node s));
      Some (r, set_node (set_handles h (y_node s)) s)) = Some (r, s') /\ sys_ok c rm s' own holds) as Hbind.
  { intros nm. destruct (bind_ok c rm s (ctx_handle ctx) nm own holds Hs Hmax) as (r & hs & -> & Hok).
    cbn [mbind option_bind]. by do 2 eexists. }
  repeat case_match; try apply Hbind; try (by do 2 eexists); by apply complain_ok.
Qed.

Lemma query_ok : cmd_ok (bytes_of "QUERY") cmd_query.
Proof using Type.
  clear. intros c rm s param own holds Hs Hmax Hcall. destruct (param_given _ _ _ Hcall) as [p ->]; [done|].
  unfold answers, cmd_query. cbn [mbind option_bind].
  assert (forall nm, exists r s', (handle ← uboss_handle_findname nm (n_handles (y_node s));
      Some (if negb (handle =? 0) then Some (fmt_handle handle) else None, s)) = Some (r, s') /\
      sys_ok c rm s' own holds) as Hfind.
  { intros nm. destruct (nk_names _ _ _ (sk_node _ _ _ _ _ Hs)) as [m Hm]. rewrite (findname_map _ m _ Hm).
    cbn [mbind option_bind]. by do 2 eexists. }
  repeat case_match; try apply Hfind; by do 2 eexists.
Qed.

Lemma name_cmd_ok : cmd_ok (bytes_of "NAME") (cmd_name instance_release).
Proof using Type.
  clear. intros c rm s param own holds Hs Hmax Hcall. destruct (param_given _ _ _ Hcall) as [p ->]; [done|].
  destruct Hcall as [_ Hp]. destruct (proj1 (Hp p eq_refl) eq_refl) as (w & r & w' & r' & Hw & Hw').
  unfold answers, cmd_name. cbn [mbind option_bind]. rewrite Hw. cbn [mbind option_bind]. rewrite Hw'.
  cbn [mbind option_bind].
  assert (forall h nm, exists r s', ('(r, h) ← uboss_handle_namehandle h nm (n_handles (y_node s));
      Some (r, set_node (set_handles h (y_node s)) s)) = Some (r, s') /\ sys_ok c rm s' own holds) as Hbind.
  { intros h nm. destruct (bind_ok c rm s h nm own holds Hs Hmax) as (r2 & hs & -> & Hok).
    cbn [mbind option_bind]. by do 2 eexists. }
  repeat case_match; try apply Hbind; try (by do 2 eexists); by apply complain_ok.
Qed.

Lemma exit_ok : cmd_ok (bytes_of "EXIT") (cmd_exit instance_release).
Proof using instance_release release_frees.
  clear -release_frees. intros c rm s param own holds Hs _ _. unfold answers, cmd_exit.
  destruct (handle_exit_ok c rm s 0 own holds Hs) as (n & -> & Hok & _).
  cbn [mbind option_bind]. by do 2 eexists.
Qed.

Lemma kill_ok : cmd_ok (bytes_of "KILL") (cmd_kill instance_release).
Proof using instance_release release_frees.
  clear -release_frees. intros c rm s param own holds Hs Hmax Hcall. destruct (param_given _ _ _ Hcall) as [p ->]; [done|].
  unfold answers, cmd_kill. destruct (tohandle_ok c rm p s own holds Hs) as (h & n & -> & Hok).
  cbn [mbind option_bind]. destruct (h =? 0); cbn [negb mbind option_bind]; [by do 2 eexists|].
  destruct (handle_exit_ok c rm _ h own holds Hok) as (n2 & Hn2 & Hok2 & _).
  cbn [y_node set_node] in Hn2. rewrite Hn2. cbn [mbind option_bind]. by do 2 eexists.
Qed.

Lemma getenv_ok : cmd_ok (bytes_of "GETENV") cmd_getenv.
Proof using Type.
  clear. intros c rm s param own holds Hs Hmax Hcall. destruct (param_given _ _ _ Hcall) as [p ->]; [done|].
  by do 2 eexists.
Qed.

Lemma setenv_ok : cmd_ok (bytes_of "SETENV") cmd_setenv.
Proof using Type.
  clear. intros c rm s param own holds Hs Hmax Hcall. destruct (param_given _ _ _ Hcall) as [p ->]; [done|].
  destruct Hcall as [_ Hp]. pose proof (proj2 (Hp p eq_refl) eq_refl) as Hnew.
  unfold answers, cmd_setenv. cbn [mbind option_bind]. destruct (split_at [32] p) as [k [v|]]; [|by do 2 eexists].
  unfold uboss_setenv. rewrite (bool_decide_eq_true_2 _ (Hnew k v eq_refl)). cbn [cassert mbind option_bind].
  do 2 eexists. split; [done|]. by eapply sys_ok_same.
Qed.

Lemma starttime_ok : cmd_ok (bytes_of "STARTTIME") cmd_starttime.
Proof using Type. clear. intros c rm s param own holds Hs _ _. by do 2 eexists. Qed.

(** [ctx->endless] is read and cleared. *)
Lemma clear_endless_ok c rm s own holds r : sys_ok c rm s own holds ->
  answers (fun s => n ← update c (set_endless false) (y_node s); Some (r, set_node n s)) c rm s own holds.
Proof using Type.
  clear. intros Hs. destruct (caller_ctx c rm s own holds Hs) as [ctx Hc]. unfold answers.
  destruct (update_ok c (set_endless false) (y_node s) own holds ctx (sk_node _ _ _ _ _ Hs) Hc) as (n1 & -> & Hn1 & Hg);
    [done|].
  cbn [mbind option_bind]. do 2 eexists. split; [done|]. by eapply sys_ok_node.
Qed.

Lemma endless_ok : cmd_ok (bytes_of "ENDLESS") cmd_endless.
Proof using Type.
  clear. intros c rm s param own holds Hs _ _. destruct (caller_ctx c rm s own holds Hs) as [ctx Hc].
  unfold answers, cmd_endless. rewrite Hc. cbn [mbind option_bind].
  case_match; [by apply clear_endless_ok | by do 2 eexists].
Qed.

Lemma abort_ok : cmd_ok (bytes_of "ABORT") (cmd_abort instance_release).
Proof using instance_release release_frees.
  clear -release_frees. intros c rm s param own holds Hs _ _. unfold answers, cmd_abort.
  pose proof (sk_node _ _ _ _ _ Hs) as Hn. pose proof (wf_len _ _ (nk_slot _ _ _ Hn)) as Hlen.
  destruct (retireall_ok instance_release release_frees (S (Z.to_nat (slot_size (n_handles (y_node s))))) (y_node s) own holds Hn)
    as (n1 & -> & Hn1 & Hg & _).
  { pose proof (occupied_le (hslot (n_handles (y_node s)))). unfold zlen in Hlen. lia. }
  cbn [mbind option_bind]. do 2 eexists. split; [done|]. by eapply sys_ok_node.
Qed.

Lemma monitor_ok : cmd_ok (bytes_of "MONITOR") (cmd_monitor instance_release).
Proof using Type.
  clear. intros c rm s param own holds Hs _ _. unfold answers, cmd_monitor.
  assert (forall p, exists r s', ('(handle, n) ← tohandle instance_release c (Some p) (y_node s);
      Some (None : option cstring, set_node (set_monitor_exit handle n) s)) = Some (r, s') /\ sys_ok c rm s' own holds) as Hmon.
  { intros p. destruct (tohandle_ok c rm p s own holds Hs) as (h & n & -> & Hok). cbn [mbind option_bind].
    do 2 eexists. split; [done|]. eapply (sys_ok_node c rm (set_node n s)); [exact Hok | | done].
    eapply node_ok_ext; [exact (sk_node _ _ _ _ _ Hok) | | done..]. intros d. cbn [y_node set_node set_monitor_exit n_ctxs].
    by destruct (n_ctxs n !! d). }
  destruct param as [[|x p]|]; [by do 2 eexists | apply Hmon | by do 2 eexists].
Qed.

(** The length of the caller's queue. *)
Lemma queue_length_ok c rm s own holds ctx : sys_ok c rm s own holds -> n_ctxs (y_node s) !! c = Some ctx ->
  exists len, queue_length ctx (y_node s) = Some len.
Proof using Type.
  clear. intros Hs Hc. unfold queue_length.
  destruct (nk_queue _ _ _ (sk_node _ _ _ _ _ Hs) c ctx Hc) as (q & -> & _). by eexists.
Qed.

Lemma stat_ok : cmd_ok (bytes_of "STAT") (cmd_stat cpu_text time_text).
Proof using Type.
  clear. intros c rm s param own holds Hs Hmax Hcall. destruct (param_given _ _ _ Hcall) as [p ->]; [done|].
  destruct (caller_ctx c rm s own holds Hs) as [ctx Hc]. destruct (queue_length_ok c rm s own holds ctx Hs Hc) as [len Hlen].
  unfold answers, cmd_stat. cbn [mbind option_bind]. rewrite Hc. cbn [mbind option_bind]. rewrite Hlen. cbn [mbind option_bind].
  repeat case_match; try (by do 2 eexists). by apply clear_endless_ok.
Qed.

Lemma mqlen_ok : cmd_ok (bytes_of "MQLEN") cmd_mqlen.
Proof using Type.
  clear. intros c rm s param own holds Hs _ _.
  destruct (caller_ctx c rm s own holds Hs) as [ctx Hc]. destruct (queue_length_ok c rm s own holds ctx Hs Hc) as [len Hlen].
  unfold answers, cmd_mqlen. rewrite Hc. cbn [mbind option_bind]. rewrite Hlen. by do 2 eexists.
Qed.

(** A command on the context of a handle. *)
Lemma on_context_ok c rm p s f own holds : sys_ok c rm s own holds ->
  (forall h ctx s, sys_ok c rm s own (ctx :: holds) ->
     exists s', f h ctx s = Some s' /\ sys_ok c rm s' own (ctx :: holds)) ->
  answers (fun s => '(handle, n) ← tohandle instance_release c (Some p) (y_node s);
             with_context instance_release handle (set_node n s) (f handle)) c rm s own holds.
Proof using instance_release release_frees.
  clear -release_frees. intros Hs Hf. unfold answers.
  destruct (tohandle_ok c rm p s own holds Hs) as (h & n & -> & Hok). cbn [mbind option_bind].
  apply (with_context_ok c rm h (set_node n s) (f h) own holds Hok). intros ctx s2 _. apply Hf.
Qed.

Lemma log_open_ok c rm h s own holds : sys_ok c rm s own holds ->
  exists f s', uboss_log_open instance_release fopen c h s = Some (f, s') /\ sys_ok c rm s' own holds.
Proof using Type.
  clear. intros Hs. unfold uboss_log_open. destruct (uboss_getenv _ s) as [lp|]; [|by do 2 eexists].
  cbv zeta. set (text := bytes_of "Open log file " ++ _).
  destruct (error_held instance_release c text (y_node s) own holds
    (sk_node _ _ _ _ _ Hs) (sk_caller _ _ _ _ _ Hs)) as (n1 & -> & Hn1 & Hq1).
  cbn [mbind option_bind]. do 2 eexists. split; [done|]. by eapply quiet_sys.
Qed.

Lemma logon_ok : cmd_ok (bytes_of "LOGON") (cmd_logon instance_release fopen).
Proof using instance_release fopen release_frees.
  clear -release_frees. intros c rm s param own holds Hs Hmax Hcall. destruct (param_given _ _ _ Hcall) as [p ->]; [done|].
  apply (on_context_ok c rm p s _ own holds Hs). intros h ctx s1 Hs1.
  destruct (y_log s1 !! ctx); [by eexists|].
  destruct (log_open_ok c rm h s1 own _ Hs1) as (f & s2 & -> & Hs2). cbn [mbind option_bind].
  eexists. split; [done|]. destruct f; [by eapply sys_ok_same | done].
Qed.

Lemma logoff_ok : cmd_ok (bytes_of "LOGOFF") (cmd_logoff instance_release).
Proof using instance_release release_frees.
  clear -release_frees. intros c rm s param own holds Hs Hmax Hcall. destruct (param_given _ _ _ Hcall) as [p ->]; [done|].
  apply (on_context_ok c rm p s _ own holds Hs). intros h ctx s1 Hs1.
  destruct (y_log s1 !! ctx); [|by eexists]. unfold uboss_log_close. cbn [y_node set_log].
  destruct (error_held instance_release c (bytes_of "Close log file :" ++ fmt_08x h) (y_node s1) own _
    (sk_node _ _ _ _ _ Hs1) (sk_caller _ _ _ _ _ Hs1)) as (n1 & -> & Hn1 & [Hg1 _]).
  cbn [mbind option_bind]. eexists. split; [done|].
  eapply (sys_ok_same c rm (set_node n1 s1)); [by eapply sys_ok_node | done | done].
Qed.

Lemma signal_ok : cmd_ok (bytes_of "SIGNAL") (cmd_signal instance_release instance_signal).
Proof using instance_release instance_signal release_frees signal_frees.
  clear -release_frees signal_frees. intros c rm s param own holds Hs Hmax Hcall.
  destruct (param_given _ _ _ Hcall) as [p ->]; [done|].
  apply (on_context_ok c rm p s _ own holds Hs). intros h ctx s1 Hs1. cbn [mbind option_bind].
  destruct (held_alive _ _ _ ctx (sk_node _ _ _ _ _ Hs1) ltac:(by left)) as (cx & -> & _). cbn [mbind option_bind].
  set (sig := match strchr 32 p with Some _ => _ | None => _ end).
  destruct (signal_frees (ctx_mod cx) (ctx_instance cx) sig (y_node s1)) as (hp & b & ->). cbn [mbind option_bind].
  eexists. split; [done|]. eapply sys_ok_node; [exact Hs1 | | done].
  eapply node_ok_ext; [exact (sk_node _ _ _ _ _ Hs1) | | done..]. intros d. cbn [n_ctxs set_heap].
  by destruct (n_ctxs (y_node s1) !! d).
Qed.

Lemma find_command_elem cmd l f : find_command cmd l = Some f -> (cmd, f) ∈ l.
Proof using Type.
  clear. induction l as [|[name g] l IH]; cbn [find_command]; [done|]. case_bool_decide as Hc.
  - intros [= ->]. subst. by left.
  - intros Hf. right. by apply IH.
Qed.

#[local] Abbreviation funcs := (cmd_funcs module_query instance_create instance_init
  instance_release instance_signal fopen cpu_text time_text).

Lemma commands_ok : Forall (fun p => p.1 = bytes_of "LAUNCH" \/ cmd_ok p.1 p.2) funcs.
Proof.
  unfold cmd_funcs. repeat (apply Forall_cons; split); cbn [fst snd]; try apply Forall_nil_2;
    try (by left); right; auto using timeout_ok,
    reg_ok, query_ok, name_cmd_ok, exit_ok, kill_ok, getenv_ok, setenv_ok, starttime_ok, endless_ok, abort_ok,
    monitor_ok, stat_ok, mqlen_ok, logon_ok, logoff_ok, signal_ok.
Qed.

(** NAME needs its two words. *)
Lemma name_words c p s : is_Some (cmd_name instance_release c (Some p) s) ->
  exists w r w' r', scan_s p = Some (w, r) /\ scan_s r = Some (w', r').
Proof using Type.
  clear. unfold cmd_name. cbn [mbind option_bind]. destruct (scan_s p) as [[w r]|]; cbn [mbind option_bind]; [|intros [x Hx]; discriminate Hx].
  destruct (scan_s r) as [[w' r']|] eqn:Hr; cbn [mbind option_bind]; [|intros [x Hx]; discriminate Hx]. by exists w, r, w', r'.
Qed.

(** SETENV needs a new name. *)
Lemma setenv_new c p s k v : is_Some (cmd_setenv c (Some p) s) -> split_at [32] p = (k, Some v) -> y_env s !! k = None.
Proof using Type.
  clear. unfold cmd_setenv, uboss_setenv. cbn [mbind option_bind]. intros [x Hx] Hsplit. rewrite Hsplit in Hx.
  case_bool_decide; [done|]. cbn [cassert mbind option_bind] in Hx. done.
Qed.

(** Only the calls of [call_ok] are answered. *)
Lemma commands_need : Forall (fun p => forall c param s, is_Some (p.2 c param s) -> call_ok p.1 param s) funcs.
Proof using Type.
  clear. unfold cmd_funcs. repeat (apply Forall_cons; split); cbn [fst snd]; try apply Forall_nil_2;
    intros c param s Hsome; (split; [intros ->; try (left; reflexivity);
      (destruct Hsome as [x Hx]; discriminate Hx) | intros p ->; split]);
    try (intros H; vm_compute in H; discriminate H).
  - intros _. by eapply name_words.
  - intros _ k v. by eapply setenv_new.
Qed.

Lemma find_command_none cmd : find_command cmd funcs = None <-> bool_decide (cmd ∈ cmd_names) = false.
Proof using Type.
  clear. unfold cmd_funcs, cmd_names. cbn [find_command]. repeat case_bool_decide; subst; set_solver.
Qed.

Lemma command_needs c cmd param s : is_Some (command c cmd param s) -> call_ok cmd param s.
Proof using Type.
  clear. unfold uboss_command. destruct (find_command cmd _) as [f|] eqn:Hf.
  - apply find_command_elem in Hf. pose proof commands_need as Hall. rewrite Forall_forall in Hall.
    exact (Hall _ Hf c param s).
  - intros _. apply find_command_none in Hf. split; [by right|]. intros p _.
    split; intros ->; vm_compute in Hf; discriminate Hf.
Qed.

Lemma command_answers c rm cmd param s own holds : sys_ok c rm s own holds ->
  name_count (n_handles (y_node s)) * 2 <= MAX_SLOT_SIZE -> (cmd = bytes_of "LAUNCH" -> param = None) ->
  call_ok cmd param s -> exists r s', command c cmd param s = Some (r, s') /\ sys_ok c rm s' own holds.
Proof.
  intros Hs Hmax Hl Hc. unfold uboss_command. destruct (find_command cmd _) as [f|] eqn:Hf; [|by do 2 eexists].
  apply find_command_elem in Hf. pose proof commands_ok as Hall. rewrite Forall_forall in Hall.
  destruct (Hall _ Hf) as [Heq|Hf2]; cbn [fst snd] in *; [|by apply Hf2].
  destruct (param_given _ _ _ Hc) as [p Hp]; [by rewrite Heq|]. specialize (Hl Heq). congruence.
Qed.

(** What the commands that end services leave. *)
Lemma kill_gone c rm s h t own holds r s' : sys_ok c rm s own holds -> is_u32 h -> handle_text h t -> h <> 0 ->
  cmd_kill instance_release c (Some t) s = Some (r, s') ->
  uboss_handle_grab (handle_of (y_node s')) h (n_handles (y_node s')) = Some None.
Proof using release_frees.
  intros Hs Hh Ht Hnz. destruct (handle_text_spec h t Hh Ht) as (ds & -> & _ & Hval & _).
  unfold cmd_kill, tohandle. cbn [mbind option_bind]. rewrite Hval, u32_small by done. cbn [mbind option_bind].
  destruct (handle_exit_ok c rm s h own holds Hs) as (n & Hn & _ & Hgrab).
  rewrite (proj2 (Z.eqb_neq h 0)) in * by done. cbn [negb]. rewrite Hn. cbn [mbind option_bind].
  by intros [= <- <-].
Qed.

Lemma exit_gone c rm s param own holds r s' : sys_ok c rm s own holds ->
  cmd_exit instance_release c param s = Some (r, s') ->
  uboss_handle_grab (handle_of (y_node s')) (handle_of (y_node s) c) (n_handles (y_node s')) = Some None.
Proof using release_frees.
  intros Hs. unfold cmd_exit. destruct (handle_exit_ok c rm s 0 own holds Hs) as (n & -> & _ & Hgrab).
  cbn [mbind option_bind]. by intros [= <- <-].
Qed.

Lemma abort_gone c rm s param own holds r s' : sys_ok c rm s own holds ->
  cmd_abort instance_release c param s = Some (r, s') ->
  forall d, in_registry (y_node s') d -> handle_of (y_node s') d = 0.
Proof using release_frees.
  intros Hs. unfold cmd_abort. pose proof (sk_node _ _ _ _ _ Hs) as Hn.
  pose proof (wf_len _ _ (nk_slot _ _ _ Hn)) as Hlen.
  destruct (retireall_ok instance_release release_frees (S (Z.to_nat (slot_size (n_handles (y_node s))))) (y_node s) own holds Hn)
    as (n1 & -> & _ & _ & Hall).
  { pose proof (occupied_le (hslot (n_handles (y_node s)))). unfold zlen in Hlen. lia. }
  cbn [mbind option_bind]. by intros [= <- <-].
Qed.

End commands.

(** ** Witness *)

(** Service 0 of [demo_node], which is also the service for other harbors. *)
Definition demo_system (n : node) : system :=
  System (set_remote (Some 0%nat) n) (uboss_timer_init 0 0 0) ∅ ∅.

Lemma demo_system_ok n : demo_node = Some n -> sys_ok 0%nat 0%nat (demo_system n) ({[1%nat]} ∪ ∅) [0%nat].
Proof.
  intros Hn. pose proof (life_reachable_ok demo_release demo_release_frees 1 _ (demo_reachable n Hn)) as Hok.
  cbn [lf_node lf_own lf_holds] in Hok.
  split; cbn [demo_system y_node y_timer]; [| | by left | done | by left |].
  - eapply node_ok_ext; [exact (proj2 Hok) | | done..]. intros d. cbn [n_ctxs set_remote]. by destruct (n_ctxs n !! d).
  - exists (TSpec 0 []). apply timer_repr_init.
  - vm_compute in Hn. injection Hn as <-. vm_compute. done.
Qed.

