(* ===== verification/Mongo.v ===== *)
(** lib/mongo/lua-mongo.c: the messages between a Lua service and a MongoDB server.

    A document is a pointer to memory: the list of the bytes from there on.  The reply is a
    Lua string; the documents in it are offsets.  The buffer of a message is the one of
    lua-bson.c, which has the same functions but for the first capacity.  [Ub] is an access
    outside an object or the overflow of an [int]; so is the loop over the documents of a
    reply when it does not end.

    The arguments are those that the checks of Lua let pass: an integer where the code
    wants one, a byte string, a userdata.  A table of documents is a sequence. *)
From Stdlib Require Import String.
From S2P Require Import Prelude Bytes Buffer CStr Lua Bson.
#[local] Set Warnings "-register-all".

Definition OP_UPDATE : Z := 2001.
Definition OP_INSERT : Z := 2002.
Definition OP_QUERY : Z := 2004.
Definition OP_GET_MORE : Z := 2005.
Definition OP_DELETE : Z := 2006.
Definition OP_KILL_CURSORS : Z := 2007.
Definition REPLY_QUERYFAILURE : Z := 2.

(** [get_length]: the unsigned word at a pointer. *)
Definition get_length (doc : list Z) : res Z := w ← lift (slice doc 0 4); Ok (le_value w).

(** Arithmetic on [int]. *)
Definition int_op (z : Z) : res Z := if bool_decide (is_s32 z) then Ok z else Ub.

(** A pointer that may be null, with the error of the check. *)
Definition the_document (msg : string) (d : option (list Z)) : res (list Z) :=
  match d with Some d => Ok d | None => Err msg end.

(** The third argument of [op_insert]. *)
Inductive documents :=
| OneDocument (d : list Z)
| ManyDocuments (l : list (option (list Z)))     (* None: not a userdata *)
| NoDocuments.

Section mongo.
(** A byte of fresh memory. *)
Variable junk : Z.

Definition buffer_create : bson := BsonBuf 0 128 (replicate 128 junk).

#[local] Abbreviation int32 := (write_int32 junk).
#[local] Abbreviation str := (write_string junk).

(** [luaL_addlstring(&b, buf.ptr, buf.size)]. *)
Definition buffer_string (b : bson) : res (list Z) := lift (slice (bs_ptr b) 0 (bs_size b)).

(** ** Requests

    What is written between [reserve_length] and [write_length]: *)
Definition query_head (id flags : Z) (name : list Z) (skip number : Z) (b : bson) : res bson :=
  b ← int32 id b; b ← int32 0 b; b ← int32 OP_QUERY b; b ← int32 flags b;
  b ← str name b; b ← int32 skip b; int32 number b.

Definition kill_head (cursor_id : list Z) (b : bson) : res bson :=
  b ← int32 0 b; b ← int32 0 b; b ← int32 OP_KILL_CURSORS b;
  b ← int32 0 b; b ← int32 1 b; write_bytes junk cursor_id b.

Definition delete_head (name : list Z) (single : Z) (b : bson) : res bson :=
  b ← int32 0 b; b ← int32 0 b; b ← int32 OP_DELETE b;
  b ← int32 0 b; b ← str name b; int32 single b.

Definition more_head (id : Z) (name : list Z) (number : Z) (cursor_id : list Z) (b : bson) : res bson :=
  b ← int32 id b; b ← int32 0 b; b ← int32 OP_GET_MORE b;
  b ← int32 0 b; b ← str name b; b ← int32 number b; write_bytes junk cursor_id b.

Definition update_head (name : list Z) (flags : Z) (b : bson) : res bson :=
  b ← int32 0 b; b ← int32 0 b; b ← int32 OP_UPDATE b;
  b ← int32 0 b; b ← str name b; int32 flags b.

Definition insert_head (flags : Z) (name : list Z) (b : bson) : res bson :=
  b ← int32 0 b; b ← int32 0 b; b ← int32 OP_INSERT b;
  b ← int32 flags b; str name b.

(** [op_query]. *)
Definition op_query (id flags : Z) (name : list Z) (skip number : Z) (query selector : option (list Z))
    : res (list Z) :=
  query ← the_document "require query document" query;
  '(b, len) ← reserve_length junk buffer_create;
  b ← query_head (s32 id) (s32 flags) name (s32 skip) (s32 number) b;
  query_len ← get_length query;
  let query_len := s32 query_len in
  total ← int_op (bs_size b + query_len);
  selector_len ← (match selector with Some s => l ← get_length s; Ok (s32 l) | None => Ok 0 end);
  total ← int_op (total + selector_len);
  b ← write_length total len b;
  head ← buffer_string b;
  q ← lift (slice query 0 query_len);
  s ← (match selector with Some s => lift (slice s 0 selector_len) | None => Ok [] end);
  Ok (head ++ q ++ s).

(** [op_kill]. *)
Definition op_kill (cursor_id : list Z) : res (list Z) :=
  if negb (zlen cursor_id =? 8) then Err "Invalid cursor id" else
  '(b, len) ← reserve_length junk buffer_create;
  b ← kill_head cursor_id b;
  b ← write_length (bs_size b) len b;
  buffer_string b.

(** [op_delete]. *)
Definition op_delete (name : list Z) (single : Z) (selector : option (list Z)) : res (list Z) :=
  selector ← the_document "Invalid param" selector;
  '(b, len) ← reserve_length junk buffer_create;
  b ← delete_head name (s32 single) b;
  selector_len ← get_length selector;
  let selector_len := s32 selector_len in
  total ← int_op (bs_size b + selector_len);
  b ← write_length total len b;
  head ← buffer_string b;
  s ← lift (slice selector 0 selector_len);
  Ok (head ++ s).

(** [op_get_more]. *)
Definition op_get_more (id : Z) (name : list Z) (number : Z) (cursor_id : list Z) : res (list Z) :=
  if negb (zlen cursor_id =? 8) then Err "Invalid cursor id" else
  '(b, len) ← reserve_length junk buffer_create;
  b ← more_head (s32 id) name (s32 number) cursor_id b;
  b ← write_length (bs_size b) len b;
  buffer_string b.

(** [op_update]. *)
Definition op_update (name : list Z) (flags : Z) (selector update : option (list Z)) : res (list Z) :=
  selector ← the_document "Invalid param" selector;
  update ← the_document "Invalid param" update;
  '(b, len) ← reserve_length junk buffer_create;
  b ← update_head name (s32 flags) b;
  selector_len ← get_length selector;
  update_len ← get_length update;
  let selector_len := s32 selector_len in
  let update_len := s32 update_len in
  total ← int_op (bs_size b + selector_len);
  total ← int_op (total + update_len);
  b ← write_length total len b;
  head ← buffer_string b;
  s ← lift (slice selector 0 selector_len);
  u ← lift (slice update 0 update_len);
  Ok (head ++ s ++ u).

(** [document_length]: the sum is unsigned, and wraps. *)
Fixpoint documents_length (total : Z) (l : list (option (list Z))) : res Z :=
  match l with
  | [] => Ok total
  | None :: _ => Err "Invalid document at %d"
  | Some d :: l => len ← get_length d; documents_length (s32 (total + len)) l
  end.

Definition document_length (docs : documents) : res Z :=
  match docs with
  | OneDocument d => len ← get_length d; Ok (s32 len)
  | ManyDocuments l => documents_length 0 l
  | NoDocuments => Err "Insert need documents"
  end.

(** The documents behind the head; the length is a [size_t] here. *)
Fixpoint add_documents (l : list (option (list Z))) : res (list Z) :=
  match l with
  | [] => Ok []
  | None :: _ => Ub
  | Some d :: l =>
      len ← get_length d; x ← lift (slice d 0 len);
      r ← add_documents l; Ok (x ++ r)
  end.

(** [op_insert]. *)
Definition op_insert (flags : Z) (name : list Z) (docs : documents) : res (list Z) :=
  dsz ← document_length docs;
  '(b, len) ← reserve_length junk buffer_create;
  b ← insert_head (s32 flags) name b;
  total ← int_op (bs_size b + dsz);
  b ← write_length total len b;
  head ← buffer_string b;
  body ← add_documents (match docs with OneDocument d => [Some d] | ManyDocuments l => l | NoDocuments => [] end);
  Ok (head ++ body).
End mongo.

(** ** Replies *)

(** The field at [off] of the header, after [little_endian]. *)
Definition field (data : list Z) (off : Z) : res Z := w ← lift (slice data off 4); Ok (s32 (le_value w)).

(** What [op_reply] returns; a pointer is its offset in the string. *)
Inductive reply :=
| RShort                                        (* false *)
| RMismatch (id : Z)                            (* false, id *)
| RFailure (id : Z) (first : Z)                 (* false, id, document *)
| RReply (id : Z) (first : option Z) (cursor : option (list Z)) (starting_from : Z).

(** [lua_rawseti] of a sequence at an index that is not behind its next. *)
Definition set_index {A} (l : list A) (i : Z) (x : A) : list A :=
  if i <=? zlen l then <[Z.to_nat (i - 1) := x]> l else l ++ [x].

(** The loop over the documents: [i], [doc], [sz] and the table. *)
Fixpoint reply_docs (fuel : nat) (data : list Z) (i doc sz : Z) (tbl : list Z) : res (Z * Z * list Z) :=
  if sz <=? 4 then Ok (i, sz, tbl)
  else
    match fuel with
    | O => Ub
    | S fuel =>
        let tbl := set_index tbl i doc in
        w ← lift (slice data doc 4);
        let doc_len := s32 (le_value w) in
        sz ← int_op (sz - doc_len);
        reply_docs fuel data (i + 1) (doc + doc_len) sz tbl
    end.

(** A loop that ends is at no offset twice. *)
Definition reply_fuel (data : list Z) : nat := length data.

Definition SIZEOF_REPLY : Z := 32.

(** [op_reply]; the result is what it returns and the table of documents. *)
Definition op_reply (data : list Z) (docs : option (list Z)) : res (reply * option (list Z)) :=
  if zlen data <? SIZEOF_REPLY then Ok (RShort, docs) else
  id ← field data 4;
  flags ← field data 12;
  if negb (Z.land flags REPLY_QUERYFAILURE =? 0) then Ok (RFailure id SIZEOF_REPLY, docs) else
  starting_from ← field data 24;
  number ← field data 28;
  let sz := s32 (zlen data - SIZEOF_REPLY) in
  let doc := SIZEOF_REPLY in
  let return_reply sz docs :=
    if negb (sz =? 0) then Err "Invalid result bson document" else
    cursor ← lift (slice data 16 8);
    Ok (RReply id (if number =? 0 then None else Some SIZEOF_REPLY)
          (if le_value cursor =? 0 then None else Some cursor) starting_from, docs) in
  match docs with
  | Some tbl =>
      '(i, sz, tbl) ← reply_docs (reply_fuel data) data 1 doc sz tbl;
      next ← int_op (number + 1);
      if negb (i =? next) then Ok (RMismatch id, Some tbl)
      else return_reply sz (Some (take (Z.to_nat (i - 1)) tbl))
  | None =>
      if 4 <=? sz then
        w ← lift (slice data doc 4); return_reply (s32 (sz - le_value w)) None
      else return_reply sz None
  end.

(** [reply_length]; the string ends with a zero. *)
Definition reply_length (rawlen_str : list Z) : res Z :=
  w ← lift (slice (rawlen_str ++ [0]) 0 4); int_op (s32 (le_value w) - 4).
