(* ===== verification/MongoWire.v ===== *)
(** The messages of [Mongo] are those of the protocol of MongoDB: a request is its reference
    encoding, and a reply is read as what it was made of. *)
From Stdlib Require Import String.
From S2P Require Import Prelude Bytes Buffer CStr Lua Bson BsonEncode Mongo.
#[local] Set Warnings "-register-all".

(** ** Reference encodings *)

(** A complete document: its length is the length that it says. *)
Definition doc_ok (d : list Z) : Prop := exists body, d = le_bytes 4 (zlen d) ++ body /\ zlen d < 2 ^ 29.

(** A 32-bit word of an integer. *)
Definition w32 (v : Z) : list Z := le_bytes 4 (u32 v).

Definition query_body (id flags : Z) (name : list Z) (skip number : Z) : list Z :=
  w32 id ++ w32 0 ++ w32 2004 ++ w32 flags ++ (name ++ [0]) ++ w32 skip ++ w32 number.
Definition kill_body (cursor_id : list Z) : list Z :=
  w32 0 ++ w32 0 ++ w32 2007 ++ w32 0 ++ w32 1 ++ cursor_id.
Definition delete_body (name : list Z) (single : Z) : list Z :=
  w32 0 ++ w32 0 ++ w32 2006 ++ w32 0 ++ (name ++ [0]) ++ w32 single.
Definition more_body (id : Z) (name : list Z) (number : Z) (cursor_id : list Z) : list Z :=
  w32 id ++ w32 0 ++ w32 2005 ++ w32 0 ++ (name ++ [0]) ++ w32 number ++ cursor_id.
Definition update_body (name : list Z) (flags : Z) : list Z :=
  w32 0 ++ w32 0 ++ w32 2001 ++ w32 0 ++ (name ++ [0]) ++ w32 flags.
Definition insert_body (flags : Z) (name : list Z) : list Z :=
  w32 0 ++ w32 0 ++ w32 2002 ++ w32 flags ++ (name ++ [0]).

(** ** Documents *)

Lemma get_length_doc d rest : doc_ok d -> Mongo.get_length (d ++ rest) = Ok (zlen d).
Proof.
  intros (body & Hd & Hmax). pose proof (zlen_nonneg d). unfold Mongo.get_length. rewrite Hd at 1. rewrite <-app_assoc.
  rewrite (slice_prefix _ 0 (le_bytes 4 (zlen d)) (body ++ rest)); [|split; [|done]; pose proof (zlen_nonneg (le_bytes 4 (zlen d) ++ body ++ rest)); lia|done].
  cbn [lift mbind res_bind]. rewrite le_value_le_bytes; [done|]. change (2 ^ (8 * Z.of_nat 4)) with (2 ^ 32). lia.
Qed.

Lemma slice_whole (d : list Z) : slice d 0 (zlen d) = Some d.
Proof.
  rewrite slice_spec by (pose proof (zlen_nonneg d); lia). unfold zlen. by rewrite Nat2Z.id, drop_0, firstn_all.
Qed.

Lemma get_length_whole d : doc_ok d -> Mongo.get_length d = Ok (zlen d).
Proof. intros Hd. rewrite <-(get_length_doc d []) by done. by rewrite app_nil_r. Qed.

Lemma doc_ok_len d : doc_ok d -> 4 <= zlen d < 2 ^ 29.
Proof. intros (body & Hd & Hmax). split; [|done]. rewrite Hd, zlen_app, zlen_le_word. pose proof (zlen_nonneg body). lia. Qed.

Lemma int_op_ok z : is_s32 z -> int_op z = Ok z.
Proof. intros Hz. unfold int_op. by rewrite bool_decide_eq_true_2. Qed.

Section mongo.
Variable junk : Z.

(** ** The buffer *)

Lemma int32_appends v : appends (write_int32 junk v) (w32 v).
Proof. apply write_bytes_appends. Qed.

Lemma string_appends s : appends (write_string junk s) (s ++ [0]).
Proof. apply write_bytes_appends. Qed.

Lemma buffer_create_holds : bs_holds (Mongo.buffer_create junk) [].
Proof. split; [done|]. split; [done|]. by exists (replicate 128 junk). Qed.

(** Reserving the length, writing [l], and writing the length [total] then. *)
Lemma message_head f l total : appends f l -> zlen l < 2 ^ 30 - 4 ->
  exists b1 b2 b3, reserve_length junk (Mongo.buffer_create junk) = Ok (b1, 0) /\ f b1 = Ok b2 /\
    bs_size b2 = zlen l + 4 /\ write_length total 0 b2 = Ok b3 /\ bs_size b3 = zlen l + 4 /\
    buffer_string b3 = Ok (w32 total ++ l).
Proof.
  intros Hf Hmax. pose proof (zlen_nonneg l).
  destruct (appends_block junk f (fun _ _ => total) total l Hf) with (b := Mongo.buffer_create junk) (c := @nil Z) as (b3 & E & Hb3).
  { done. } { apply buffer_create_holds. } { rewrite zlen_app, zlen_le_word. change (zlen (@nil Z)) with 0. lia. }
  unfold reserve_length in *. destruct (bson_reserve_holds junk (Mongo.buffer_create junk) [] 4 buffer_create_holds) as (b0 & E0 & Hb0 & Hroom);
    [lia | change (zlen (@nil Z)) with 0; lia|].
  rewrite E0 in *. cbn [mbind res_bind bs_size Mongo.buffer_create] in *.
  set (b1 := BsonBuf _ _ _) in *. destruct (f b1) as [b2| |] eqn:E2; [|done|done]. cbn [mbind res_bind] in E.
  exists b1, b2, b3. split; [done|]. split; [done|]. destruct Hb3 as (Hs3 & Hc3 & rest & Hp3 & Hl3). cbn [app] in *.
  assert (bs_size b3 = zlen l + 4) as Hsize by (rewrite Hs3, zlen_app; unfold w32; rewrite zlen_le_word; lia).
  assert (bs_size b3 = bs_size b2) as E32.
  { unfold write_length in E. destruct (memcpy (bs_ptr b2) 0 (le_bytes 4 (u32 total))) as [p|]; [|done].
    cbn [lift mbind res_bind] in E. by injection E as <-. }
  split; [congruence|]. split; [done|]. split; [done|]. unfold buffer_string. rewrite Hp3, Hs3.
  rewrite slice_prefix with (l := le_bytes 4 (u32 total) ++ l) (rest := rest); [done | | done].
  split; [|done]. pose proof (zlen_nonneg ((le_bytes 4 (u32 total) ++ l) ++ rest)). lia.
Qed.

Ltac appends_steps :=
  repeat match goal with
  | |- appends (fun b => _ ≫= _) (_ ++ _) => eapply appends_bind; [first [apply int32_appends | apply string_appends]|]
  | |- appends (fun b => write_int32 junk _ b) _ => apply int32_appends
  | |- appends (fun b => write_string junk _ b) _ => apply string_appends
  | |- appends (fun b => write_bytes junk _ b) _ => apply write_bytes_appends
  end.

Lemma query_head_appends id flags name skip number :
  appends (query_head junk id flags name skip number) (query_body id flags name skip number).
Proof. unfold query_head, query_body. appends_steps. Qed.

Lemma kill_head_appends cursor : appends (kill_head junk cursor) (kill_body cursor).
Proof. unfold kill_head, kill_body. appends_steps. Qed.

Lemma delete_head_appends name single : appends (delete_head junk name single) (delete_body name single).
Proof. unfold delete_head, delete_body. appends_steps. Qed.

Lemma more_head_appends id name number cursor :
  appends (more_head junk id name number cursor) (more_body id name number cursor).
Proof. unfold more_head, more_body. appends_steps. Qed.

Lemma update_head_appends name flags : appends (update_head junk name flags) (update_body name flags).
Proof. unfold update_head, update_body. appends_steps. Qed.

Lemma insert_head_appends flags name : appends (insert_head junk flags name) (insert_body flags name).
Proof. unfold insert_head, insert_body. appends_steps. Qed.

(** ** Documents behind the head *)

Lemma documents_length_sum l : forall total, Forall doc_ok l -> 0 <= total -> total + zlen (concat l) < 2 ^ 30 ->
  documents_length total (map Some l) = Ok (total + zlen (concat l)).
Proof.
  induction l as [|d l IH]; intros total Hl Ht Hmax; cbn [map documents_length concat] in *;
    [change (zlen (@nil Z)) with 0; by rewrite Z.add_0_r|].
  apply Forall_cons_1 in Hl as [Hd Hl]. rewrite get_length_whole by done. cbn [mbind res_bind].
  rewrite zlen_app in *. pose proof (zlen_nonneg (concat l)). apply doc_ok_len in Hd.
  rewrite s32_small by (unfold is_s32; lia). rewrite IH by (done || lia). f_equal. lia.
Qed.

Lemma add_documents_concat l : Forall doc_ok l -> add_documents (map Some l) = Ok (concat l).
Proof.
  induction 1 as [|d l Hd _ IH]; [done|]. cbn [map add_documents concat]. rewrite get_length_whole by done.
  cbn [mbind res_bind]. rewrite slice_whole. cbn [lift mbind res_bind]. by rewrite IH.
Qed.

(** A request without or with documents behind it. *)
Definition request (body : list Z) (docs : list Z) : list Z := w32 (zlen body + 4 + zlen docs) ++ body ++ docs.

Lemma w32_s32 v : w32 (s32 v) = w32 v.
Proof. clear. unfold w32. f_equal. unfold u32, s32. Z.div_mod_to_equations. lia. Qed.

Lemma zlen_w32 v : zlen (w32 v) = 4.
Proof. clear. apply zlen_le_word. Qed.

(** A function that writes a head and its length, and adds documents. *)
Lemma request_ok (f : bson -> res bson) l docs total (k : list Z -> res (list Z)) : appends f l ->
  zlen l + zlen docs < 2 ^ 30 - 4 -> total = zlen l + 4 + zlen docs ->
  (forall head, k head = Ok (head ++ docs)) ->
  exists b1 b2, reserve_length junk (Mongo.buffer_create junk) = Ok (b1, 0) /\ f b1 = Ok b2 /\
    bs_size b2 = zlen l + 4 /\
    (b ← write_length total 0 b2; head ← buffer_string b; k head) = Ok (request l docs).
Proof.
  intros Hf Hmax -> Hk. pose proof (zlen_nonneg docs).
  destruct (message_head f l (zlen l + 4 + zlen docs) Hf ltac:(lia)) as (b1 & b2 & b3 & E1 & E2 & Hs2 & E3 & _ & Hstr).
  exists b1, b2. split; [done|]. split; [done|]. split; [done|]. rewrite E3. cbn [mbind res_bind]. rewrite Hstr.
  cbn [mbind res_bind]. rewrite Hk. unfold request. by rewrite <-app_assoc.
Qed.

Lemma int_small n m : 0 <= n -> 0 <= m -> n + m < 2 ^ 30 -> int_op (n + m) = Ok (n + m).
Proof. clear. intros. apply int_op_ok. unfold is_s32. lia. Qed.

(** The total and the documents of a request, when they are small enough. *)
Ltac request_tac H :=
  repeat first
    [ rewrite get_length_whole by done | rewrite s32_small by (unfold is_s32; lia) | rewrite int_small by lia
    | rewrite slice_whole | progress cbn [mbind res_bind lift] ].

Lemma op_query_ok id flags name skip number query selector :
  doc_ok query -> (forall d, selector = Some d -> doc_ok d) -> zlen name + zlen query + zlen (default [] selector) < 2 ^ 29 ->
  op_query junk id flags name skip number (Some query) selector =
  Ok (request (query_body id flags name skip number) (query ++ default [] selector)).
Proof.
  intros Hq Hsel Hmax. pose proof (doc_ok_len _ Hq). pose proof (zlen_nonneg name).
  assert (zlen (query_body id flags name skip number) = zlen name + 25) as Hbody
    by (unfold query_body; rewrite !zlen_app, !zlen_w32; change (zlen [0]) with 1; lia).
  unfold op_query. cbn [the_document mbind res_bind].
  assert (appends (query_head junk (s32 id) (s32 flags) name (s32 skip) (s32 number)) (query_body id flags name skip number)) as Hf.
  { pose proof (query_head_appends (s32 id) (s32 flags) name (s32 skip) (s32 number)) as Hf.
    unfold query_body in *. by rewrite !w32_s32 in Hf. }
  destruct selector as [sel|]; unfold default, from_option, Datatypes.id in *.
  - specialize (Hsel sel eq_refl). pose proof (doc_ok_len _ Hsel).
    destruct (request_ok _ _ (query ++ sel) (zlen name + 25 + 4 + zlen query + zlen sel)
      (fun head => Ok (head ++ query ++ sel)) Hf) as (b1 & b2 & E1 & E2 & Hs & E3);
      [rewrite (zlen_app query sel); lia | rewrite (zlen_app query sel); lia | done |].
    rewrite E1. cbn [mbind res_bind]. rewrite E2. cbn [mbind res_bind]. rewrite Hs, Hbody. request_tac Hs. exact E3.
  - rewrite app_nil_r in *. change (zlen (@nil Z)) with 0 in *. destruct (request_ok _ _ query (zlen name + 25 + 4 + zlen query + 0)
      (fun head => Ok (head ++ query ++ [])) Hf) as (b1 & b2 & E1 & E2 & Hs & E3);
      [lia | lia | intros head; by rewrite app_nil_r |].
    rewrite E1. cbn [mbind res_bind]. rewrite E2. cbn [mbind res_bind]. rewrite Hs, Hbody. request_tac Hs. exact E3.
Qed.

Lemma zlen_string name : zlen (name ++ [0]) = zlen name + 1.
Proof. clear. by rewrite zlen_app. Qed.

(** The size of a body. *)
Ltac body_size b := unfold b; rewrite ?zlen_app, ?zlen_w32; change (zlen [0]) with 1; lia.

Lemma op_kill_ok cursor : zlen cursor = 8 -> op_kill junk cursor = Ok (request (kill_body cursor) []).
Proof.
  intros Hc. assert (zlen (kill_body cursor) = 28) as Hbody by body_size kill_body.
  unfold op_kill. rewrite Hc. change (8 =? 8) with true. cbn [negb].
  destruct (request_ok _ _ [] 32 Ok (kill_head_appends cursor)) as (b1 & b2 & E1 & E2 & Hs & E3);
    [change (zlen (@nil Z)) with 0; lia | change (zlen (@nil Z)) with 0; lia | intros head; by rewrite app_nil_r |].
  rewrite E1. cbn [mbind res_bind]. rewrite E2. cbn [mbind res_bind]. rewrite Hs, Hbody. rewrite <-E3.
  change (28 + 4) with 32. destruct (write_length 32 0 b2); [|done|done]. cbn [mbind res_bind]. by destruct (buffer_string x).
Qed.

Lemma op_more_ok id name number cursor : zlen cursor = 8 -> zlen name < 2 ^ 29 ->
  op_get_more junk id name number cursor = Ok (request (more_body id name number cursor) []).
Proof.
  intros Hc Hmax. pose proof (zlen_nonneg name).
  assert (zlen (more_body id name number cursor) = zlen name + 29) as Hbody by body_size more_body.
  assert (appends (more_head junk (s32 id) name (s32 number) cursor) (more_body id name number cursor)) as Hf.
  { pose proof (more_head_appends (s32 id) name (s32 number) cursor) as Hf. unfold more_body in *. by rewrite !w32_s32 in Hf. }
  unfold op_get_more. rewrite Hc. change (8 =? 8) with true. cbn [negb].
  destruct (request_ok _ _ [] (zlen name + 29 + 4) Ok Hf) as (b1 & b2 & E1 & E2 & Hs & E3);
    [change (zlen (@nil Z)) with 0; lia | change (zlen (@nil Z)) with 0; lia | intros head; by rewrite app_nil_r |].
  rewrite E1. cbn [mbind res_bind]. rewrite E2. cbn [mbind res_bind]. rewrite Hs, Hbody. rewrite <-E3.
  destruct (write_length _ 0 b2); [|done|done]. cbn [mbind res_bind]. by destruct (buffer_string x).
Qed.

Lemma op_delete_ok name single selector : doc_ok selector -> zlen name + zlen selector < 2 ^ 29 ->
  op_delete junk name single (Some selector) = Ok (request (delete_body name single) selector).
Proof.
  intros Hd Hmax. pose proof (doc_ok_len _ Hd). pose proof (zlen_nonneg name).
  assert (zlen (delete_body name single) = zlen name + 21) as Hbody by body_size delete_body.
  assert (appends (delete_head junk name (s32 single)) (delete_body name single)) as Hf.
  { pose proof (delete_head_appends name (s32 single)) as Hf. unfold delete_body in *. by rewrite !w32_s32 in Hf. }
  unfold op_delete. cbn [the_document mbind res_bind].
  destruct (request_ok _ _ selector (zlen name + 21 + 4 + zlen selector) (fun head => Ok (head ++ selector)) Hf)
    as (b1 & b2 & E1 & E2 & Hs & E3); [lia | lia | done |].
  rewrite E1. cbn [mbind res_bind]. rewrite E2. cbn [mbind res_bind]. rewrite Hs, Hbody. request_tac Hs. exact E3.
Qed.

Lemma op_update_ok name flags selector update : doc_ok selector -> doc_ok update ->
  zlen name + zlen selector + zlen update < 2 ^ 29 ->
  op_update junk name flags (Some selector) (Some update) = Ok (request (update_body name flags) (selector ++ update)).
Proof.
  intros Hd Hu Hmax. pose proof (doc_ok_len _ Hd). pose proof (doc_ok_len _ Hu). pose proof (zlen_nonneg name).
  assert (zlen (update_body name flags) = zlen name + 21) as Hbody by body_size update_body.
  assert (appends (update_head junk name (s32 flags)) (update_body name flags)) as Hf.
  { pose proof (update_head_appends name (s32 flags)) as Hf. unfold update_body in *. by rewrite !w32_s32 in Hf. }
  unfold op_update. cbn [the_document mbind res_bind].
  destruct (request_ok _ _ (selector ++ update) (zlen name + 21 + 4 + zlen selector + zlen update)
    (fun head => Ok (head ++ selector ++ update)) Hf)
    as (b1 & b2 & E1 & E2 & Hs & E3); [rewrite (zlen_app selector update); lia | rewrite (zlen_app selector update); lia | done |].
  rewrite E1. cbn [mbind res_bind]. rewrite E2. cbn [mbind res_bind]. rewrite Hs, Hbody. request_tac Hs. exact E3.
Qed.

(** One document, or a table of them. *)
Definition docs_are (docs : documents) (l : list (list Z)) : Prop :=
  docs = ManyDocuments (map Some l) \/ exists d, docs = OneDocument d /\ l = [d].

Lemma op_insert_ok flags name docs l : docs_are docs l -> Forall doc_ok l -> zlen name + zlen (concat l) < 2 ^ 29 ->
  op_insert junk flags name docs = Ok (request (insert_body flags name) (concat l)).
Proof.
  intros Hdocs Hl Hmax. pose proof (zlen_nonneg name). pose proof (zlen_nonneg (concat l)).
  assert (zlen (insert_body flags name) = zlen name + 17) as Hbody by body_size insert_body.
  assert (appends (insert_head junk (s32 flags) name) (insert_body flags name)) as Hf.
  { pose proof (insert_head_appends (s32 flags) name) as Hf. unfold insert_body in *. by rewrite !w32_s32 in Hf. }
  unfold op_insert. assert (document_length docs = Ok (zlen (concat l))) as ->.
  { destruct Hdocs as [->|(d & -> & ->)]; cbn [document_length].
    - rewrite documents_length_sum by (done || lia). done.
    - apply Forall_cons_1 in Hl as [Hd _]. rewrite get_length_whole by done. cbn [mbind res_bind concat].
      rewrite app_nil_r. pose proof (doc_ok_len _ Hd). rewrite s32_small by (unfold is_s32; lia). done. }
  cbn [mbind res_bind].
  assert (add_documents (match docs with OneDocument d => [Some d] | ManyDocuments l => l | NoDocuments => [] end)
    = Ok (concat l)) as Hadd.
  { destruct Hdocs as [->|(d & -> & ->)]; [by apply add_documents_concat | exact (add_documents_concat [d] Hl)]. }
  destruct (request_ok _ _ (concat l) (zlen name + 17 + 4 + zlen (concat l)) (fun head => Ok (head ++ concat l)) Hf)
    as (b1 & b2 & E1 & E2 & Hs & E3); [lia | lia | done |].
  rewrite E1. cbn [mbind res_bind]. rewrite E2. cbn [mbind res_bind]. rewrite Hs, Hbody. request_tac Hs. rewrite <-E3.
  destruct (write_length _ 0 b2); [|done|done]. cbn [mbind res_bind]. destruct (buffer_string x); [|done|done].
  cbn [mbind res_bind]. by rewrite Hadd.
Qed.

(** C34: The requests to MongoDB.  Whatever the sizes of the names and documents are, as long as
    they have less than 2^29 bytes in all, and however often the buffer grows, each function
    returns the message of the protocol: the total length, the fields in their order with the
    names ended by a zero, and the documents.  A query, selector or update that is missing, a
    cursor that is not eight bytes long, an insert without documents and a table with
    something else than a document anywhere in it are errors, and no case is an access
    outside an object. *)
Theorem mongo_requests (id flags skip number : Z) (name cursor query : list Z) (selector : option (list Z))
    (update : list Z) (docs : documents) (l : list (list Z)) :
  doc_ok query -> (forall d, selector = Some d -> doc_ok d) -> doc_ok update -> docs_are docs l -> Forall doc_ok l ->
  zlen name + zlen query + zlen (default [] selector) + zlen update + zlen (concat l) < 2 ^ 29 ->
  op_query junk id flags name skip number (Some query) selector =
    Ok (request (query_body id flags name skip number) (query ++ default [] selector)) /\
  op_insert junk flags name docs = Ok (request (insert_body flags name) (concat l)) /\
  op_update junk name flags (Some query) (Some update) = Ok (request (update_body name flags) (query ++ update)) /\
  op_delete junk name flags (Some query) = Ok (request (delete_body name flags) query) /\
  op_get_more junk id name number cursor =
    (if zlen cursor =? 8 then Ok (request (more_body id name number cursor) []) else Err "Invalid cursor id") /\
  op_kill junk cursor = (if zlen cursor =? 8 then Ok (request (kill_body cursor) []) else Err "Invalid cursor id") /\
  op_query junk id flags name skip number None selector = Err "require query document" /\
  (forall u, op_update junk name flags None u = Err "Invalid param") /\
  op_update junk name flags (Some query) None = Err "Invalid param" /\
  op_delete junk name flags None = Err "Invalid param" /\
  op_insert junk flags name NoDocuments = Err "Insert need documents" /\
  (forall l', op_insert junk flags name (ManyDocuments (map Some l ++ None :: l')) = Err "Invalid document at %d").
Proof.
  intros Hq Hsel Hu Hdocs Hl Hmax. pose proof (zlen_nonneg name). pose proof (zlen_nonneg query).
  pose proof (zlen_nonneg (default [] selector)). pose proof (zlen_nonneg update). pose proof (zlen_nonneg (concat l)).
  split; [apply op_query_ok; done || lia|]. split; [apply op_insert_ok; done || lia|].
  split; [apply op_update_ok; done || lia|]. split; [apply op_delete_ok; done || lia|].
  split; [|split; [|do 5 (split; [done|])]].
  - destruct (Z.eqb_spec (zlen cursor) 8) as [Hc|Hc]; [apply op_more_ok; done || lia|].
    unfold op_get_more. by rewrite (proj2 (Z.eqb_neq _ _)).
  - destruct (Z.eqb_spec (zlen cursor) 8) as [Hc|Hc]; [by apply op_kill_ok|].
    unfold op_kill. by rewrite (proj2 (Z.eqb_neq _ _)).
  - intros l'. unfold op_insert. cbn [document_length]. assert (forall n, documents_length n (map Some l ++ None :: l') = Err "Invalid document at %d") as ->; [|done].
    clear -Hl. induction Hl as [|d l Hd _ IH]; intros n; [done|]. cbn [map app documents_length].
    rewrite get_length_whole by done. cbn [mbind res_bind]. apply IH.
Qed.
End mongo.

(** ** Replies *)

Definition reply_head (request_id id opcode flags : Z) (cursor : list Z) (starting number : Z) : list Z :=
  w32 request_id ++ w32 id ++ w32 opcode ++ w32 flags ++ cursor ++ w32 starting ++ w32 number.

(** Where the documents are that begin at [off]. *)
Fixpoint doc_offsets (off : Z) (l : list (list Z)) : list Z :=
  match l with [] => [] | d :: l => off :: doc_offsets (off + zlen d) l end.

Lemma length_doc_offsets off l : length (doc_offsets off l) = length l.
Proof. revert off. induction l as [|d l IH]; intros off; cbn; [done|]. by rewrite IH. Qed.

Lemma field_at pre v rest off : is_s32 v -> off = zlen pre -> field (pre ++ w32 v ++ rest) off = Ok v.
Proof.
  intros Hv ->. unfold field. rewrite (slice_behind pre (w32 v) rest) by done. cbn [lift mbind res_bind].
  unfold w32. rewrite le_value_le_bytes by apply u32_bound. by rewrite s32_u32.
Qed.

Lemma set_index_next {A} (done old : list A) i x : i = zlen done + 1 ->
  set_index (done ++ old) i x = (done ++ [x]) ++ drop 1 old.
Proof.
  intros ->. unfold set_index. rewrite zlen_app. pose proof (zlen_nonneg old).
  replace (zlen done + 1 - 1) with (zlen done) by lia. destruct old as [|y old].
  - rewrite (proj2 (Z.leb_gt _ _)) by (change (zlen (@nil A)) with 0; lia). rewrite app_nil_r. cbn [drop]. by rewrite app_nil_r.
  - rewrite zlen_cons. rewrite (proj2 (Z.leb_le _ _)) by (pose proof (zlen_nonneg old); lia).
    unfold zlen. rewrite Nat2Z.id. rewrite insert_app_r_alt by lia. rewrite Nat.sub_diag. cbn [insert list_insert drop].
    rewrite <-app_assoc. by destruct old.
Qed.

(** The loop finds the documents where they are. *)
Lemma reply_docs_ok data tail l : forall fuel i doc done old, Forall (fun d => doc_ok d /\ 4 < zlen d) l ->
  zlen tail <= 4 -> rest_at data doc (concat l ++ tail) -> zlen data < 2 ^ 31 -> (length l <= fuel)%nat ->
  i = zlen done + 1 ->
  reply_docs fuel data i doc (zlen (concat l ++ tail)) (done ++ old) =
  Ok (i + zlen l, zlen tail, done ++ doc_offsets doc l ++ drop (length l) old).
Proof.
  induction l as [|d l IH]; intros fuel i doc done old Hl Htail Hat Hmax Hf Hi.
  - cbn [concat app doc_offsets length drop]. change (zlen (@nil (list Z))) with 0. rewrite Z.add_0_r.
    destruct fuel; cbn [reply_docs]; by rewrite (proj2 (Z.leb_le _ _)).
  - apply Forall_cons_1 in Hl as [[Hd Hd4] Hl]. cbn [length] in Hf. destruct fuel as [|fuel]; [lia|].
    cbn [concat] in *. rewrite <-app_assoc in Hat |- *. cbn [reply_docs].
    pose proof (zlen_nonneg (concat l ++ tail)) as Hr. pose proof (rest_at_zlen _ _ _ Hat) as [Hlen Hdoc].
    rewrite (zlen_app d) in Hlen |- *.
    rewrite (proj2 (Z.leb_gt _ _)) by lia.
    pose proof Hd as (body & Hbody & Hdmax).
    assert (slice data doc 4 = Some (le_bytes 4 (zlen d))) as ->.
    { eapply (slice_prefix data doc (le_bytes 4 (zlen d)) (body ++ concat l ++ tail)); [|done].
      rewrite app_assoc. by rewrite <-Hbody. }
    cbn [lift mbind res_bind]. rewrite le_value_le_bytes by (change (2 ^ (8 * Z.of_nat 4)) with (2 ^ 32); lia).
    rewrite s32_small by (unfold is_s32; lia). rewrite int_op_ok by (unfold is_s32; lia). cbn [mbind res_bind].
    rewrite (set_index_next done old i doc Hi).
    replace (zlen d + zlen (concat l ++ tail) - zlen d) with (zlen (concat l ++ tail)) by lia.
    rewrite IH; [|done|done| |done|lia|rewrite zlen_app; change (zlen [doc]) with 1; lia].
    + rewrite zlen_cons, <-app_assoc, drop_drop. cbn [doc_offsets app length]. do 3 f_equal. lia.
    + by eapply rest_skip.
Qed.

(** A document of length zero: the loop does not end, however often it is tried. *)
Lemma reply_zero_length data doc sz : slice data doc 4 = Some [0; 0; 0; 0] -> 4 < sz < 2 ^ 31 ->
  forall fuel i tbl, reply_docs fuel data i doc sz tbl = Ub.
Proof.
  intros Hz Hsz. induction fuel as [|fuel IH]; intros i tbl; cbn [reply_docs]; rewrite (proj2 (Z.leb_gt sz 4)) by lia; [done|].
  rewrite Hz. cbn [lift mbind res_bind]. change (s32 (le_value [0; 0; 0; 0])) with 0. rewrite Z.sub_0_r, Z.add_0_r.
  rewrite int_op_ok by (unfold is_s32; lia). cbn [mbind res_bind]. apply IH.
Qed.

Lemma concat_docs_len (l : list (list Z)) : Forall (fun d => doc_ok d /\ 4 < zlen d) l -> zlen l <= zlen (concat l).
Proof. induction 1 as [|d l [_ Hd] _ IH]; [done|]. cbn [concat]. rewrite zlen_cons, zlen_app. lia. Qed.

(** The fields of the header, and what is behind it. *)
Lemma reply_fields request_id id opcode flags cursor starting number rest :
  is_s32 id -> is_s32 flags -> is_s32 starting -> is_s32 number -> zlen cursor = 8 ->
  let data := reply_head request_id id opcode flags cursor starting number ++ rest in
  field data 4 = Ok id /\ field data 12 = Ok flags /\ field data 24 = Ok starting /\ field data 28 = Ok number /\
  slice data 16 8 = Some cursor /\ rest_at data 32 rest /\ zlen data = 32 + zlen rest.
Proof.
  intros Hid Hfl Hst Hnum Hc data. subst data. unfold reply_head.
  assert (forall v, zlen (w32 v) = 4) as H4 by (intros v; apply zlen_le_word). pose proof (zlen_nonneg rest).
  set (a := w32 request_id). set (o := w32 opcode).
  split; [|split; [|split; [|split; [|split; [|split]]]]].
  - rewrite <-!app_assoc. by apply field_at.
  - replace ((a ++ w32 id ++ o ++ w32 flags ++ cursor ++ w32 starting ++ w32 number) ++ rest) with
      ((a ++ w32 id ++ o) ++ w32 flags ++ cursor ++ w32 starting ++ w32 number ++ rest) by (by rewrite <-!app_assoc).
    by apply field_at.
  - replace ((a ++ w32 id ++ o ++ w32 flags ++ cursor ++ w32 starting ++ w32 number) ++ rest) with
      ((a ++ w32 id ++ o ++ w32 flags ++ cursor) ++ w32 starting ++ w32 number ++ rest) by (by rewrite <-!app_assoc).
    apply field_at; [done|]. rewrite !zlen_app, Hc. subst a o. rewrite !H4. lia.
  - replace ((a ++ w32 id ++ o ++ w32 flags ++ cursor ++ w32 starting ++ w32 number) ++ rest) with
      ((a ++ w32 id ++ o ++ w32 flags ++ cursor ++ w32 starting) ++ w32 number ++ rest) by (by rewrite <-!app_assoc).
    apply field_at; [done|]. rewrite !zlen_app, Hc. subst a o. rewrite !H4. lia.
  - replace ((a ++ w32 id ++ o ++ w32 flags ++ cursor ++ w32 starting ++ w32 number) ++ rest) with
      ((a ++ w32 id ++ o ++ w32 flags) ++ cursor ++ w32 starting ++ w32 number ++ rest) by (by rewrite <-!app_assoc).
    by apply slice_behind.
  - set (head := a ++ w32 id ++ o ++ w32 flags ++ cursor ++ w32 starting ++ w32 number).
    change (rest_at (head ++ rest) (0 + 32) rest). apply (rest_skip (head ++ rest) 0 head rest 32).
    + split; [|done]. rewrite (zlen_app head rest). pose proof (zlen_nonneg head). lia.
    + subst head. rewrite !zlen_app, Hc. subst a o. rewrite !H4. lia.
  - rewrite !zlen_app, Hc. subst a o. rewrite !H4. lia.
Qed.

(** A reply that the caller without a table takes: one document, nothing, or just the word 4,
    which is taken for the length of a document. *)
Definition single_reply (l : list (list Z)) (tail : list Z) : bool :=
  (zlen l <=? 1) && (zlen tail =? 0) || (zlen l =? 0) && (zlen tail =? 4) && (u32 (le_value tail) =? 4).

(** The documents, when the caller has no table. *)
Lemma reply_single data l tail n : Forall (fun d => doc_ok d /\ 4 < zlen d) l -> rest_at data 32 (concat l ++ tail) ->
  zlen (concat l ++ tail) = n -> zlen tail <= 4 -> n < 2 ^ 31 ->
  exists sz, (if 4 <=? n then w ← lift (slice data 32 4); Ok (s32 (n - le_value w)) else Ok n) = Ok sz /\
    (sz =? 0) = single_reply l tail.
Proof.
  intros Hl Hat Hn Htail Hmax. unfold single_reply. pose proof (zlen_nonneg tail). destruct l as [|d l].
  - cbn [concat app] in *. change (zlen (@nil (list Z))) with 0. subst n. destruct (Z.leb_spec 4 (zlen tail)).
    + assert (zlen tail = 4) as H4 by lia. replace (slice data 32 4) with (Some tail).
      2:{ symmetry. apply (slice_prefix data 32 tail []); [by rewrite app_nil_r | done]. }
      cbn [lift mbind res_bind]. eexists. split; [done|]. rewrite H4. change (0 <=? 1) with true. change (4 =? 0) with false.
      change (0 =? 0) with true. change (4 =? 4) with true. cbn [andb orb].
      destruct (Z.eqb_spec (u32 (le_value tail)) 4) as [E|E].
      * apply Z.eqb_eq. unfold u32, s32 in *. Z.div_mod_to_equations. lia.
      * apply Z.eqb_neq. unfold u32, s32 in *. Z.div_mod_to_equations. lia.
    + exists (zlen tail). split; [done|]. change (0 <=? 1) with true. cbn [andb].
      rewrite (proj2 (Z.eqb_neq (zlen tail) 4)) by lia. by rewrite andb_false_r, orb_false_r.
  - apply Forall_cons_1 in Hl as [[Hd Hd4] Hl]. cbn [concat] in *. rewrite !zlen_app in Hn.
    pose proof (zlen_nonneg (concat l)). pose proof (zlen_nonneg l). rewrite (proj2 (Z.leb_le _ _)) by lia.
    pose proof Hd as (body & Hbody & Hdmax).
    assert (slice data 32 4 = Some (le_bytes 4 (zlen d))) as ->.
    { eapply (slice_prefix data 32 (le_bytes 4 (zlen d)) (body ++ concat l ++ tail)); [|done].
      rewrite app_assoc, <-Hbody. by rewrite app_assoc. }
    cbn [lift mbind res_bind]. rewrite le_value_le_bytes by (change (2 ^ (8 * Z.of_nat 4)) with (2 ^ 32); lia).
    rewrite s32_small by (unfold is_s32; lia). eexists. split; [done|]. rewrite zlen_cons.
    rewrite (proj2 (Z.eqb_neq (1 + zlen l) 0)) by lia. cbn [andb]. rewrite orb_false_r. destruct l as [|d' l].
    + cbn [concat] in *. change (zlen (@nil Z)) with 0 in *. change (zlen (@nil (list Z))) with 0. change (1 + 0 <=? 1) with true.
      cbn [andb]. f_equal. lia.
    + apply Forall_cons_1 in Hl as [[_ Hd'] _]. cbn [concat] in *. rewrite zlen_app in *. rewrite zlen_cons.
      pose proof (zlen_nonneg (concat l)). pose proof (zlen_nonneg l). rewrite (proj2 (Z.leb_gt _ _)) by lia. cbn [andb].
      apply Z.eqb_neq. lia.
Qed.

(** C35: The replies of MongoDB.  Data shorter than the header of the protocol gives false.
    From a reply that consists of the header, of documents and of at most four other bytes,
    [op_reply] takes the request's number, the cursor (none when it is zero) and the start,
    and puts pointers to exactly the documents, in their order, into the table, of which
    nothing else is left; a failed query gives the error document.  When the number of
    documents is not the one in the header the result is false, and bytes that are left over
    are an error.  Without a table only a reply of at most one document with nothing behind it
    is taken ([single_reply]). *)
Theorem mongo_replies (request_id id opcode flags starting number : Z) (cursor : list Z) (l : list (list Z))
    (tail : list Z) (docs : option (list Z)) :
  is_s32 id -> is_s32 flags -> is_s32 starting -> 0 <= number < 2 ^ 31 - 1 -> zlen cursor = 8 ->
  Forall (fun d => doc_ok d /\ 4 < zlen d) l -> zlen tail <= 4 ->
  let data := reply_head request_id id opcode flags cursor starting number ++ concat l ++ tail in
  zlen data < 2 ^ 31 ->
  let answer := RReply id (if number =? 0 then None else Some 32) (if le_value cursor =? 0 then None else Some cursor) starting in
  (forall short, zlen short < 32 -> op_reply short docs = Ok (RShort, docs)) /\
  if negb (Z.land flags 2 =? 0) then op_reply data docs = Ok (RFailure id 32, docs)
  else match docs with
       | Some tbl => op_reply data docs =
           if zlen l =? number then
             if zlen tail =? 0 then Ok (answer, Some (doc_offsets 32 l)) else Err "Invalid result bson document"
           else Ok (RMismatch id, Some (doc_offsets 32 l ++ drop (length l) tbl))
       | None => op_reply data docs =
           if single_reply l tail then Ok (answer, None) else Err "Invalid result bson document"
       end.
Proof.
  intros Hid Hfl Hst Hnum Hc Hl Htail data Hmax answer. split.
  { intros short Hshort. unfold op_reply. by rewrite (proj2 (Z.ltb_lt _ _)). }
  assert (is_s32 number) as Hnum' by (unfold is_s32; lia).
  destruct (reply_fields request_id id opcode flags cursor starting number (concat l ++ tail) Hid Hfl Hst Hnum' Hc)
    as (F1 & F2 & F3 & F4 & F5 & Hat & Hlen). fold data in F1, F2, F3, F4, F5, Hat, Hlen.
  pose proof (zlen_nonneg (concat l ++ tail)) as Hge. unfold op_reply.
  rewrite (proj2 (Z.ltb_ge _ _)) by (change SIZEOF_REPLY with 32; lia). rewrite F1. cbn [mbind res_bind]. rewrite F2. cbn [mbind res_bind].
  change REPLY_QUERYFAILURE with 2. destruct (Z.land flags 2 =? 0); cbn [negb]; [|done].
  rewrite F3. cbn [mbind res_bind]. rewrite F4. cbn [mbind res_bind].
  replace (s32 (zlen data - SIZEOF_REPLY)) with (zlen (concat l ++ tail))
    by (rewrite Hlen; change SIZEOF_REPLY with 32; rewrite s32_small by (unfold is_s32; lia); lia).
  change SIZEOF_REPLY with 32. rewrite F5. cbn [lift mbind res_bind]. destruct docs as [tbl|].
  - pose proof (reply_docs_ok data tail l (reply_fuel data) 1 32 [] tbl Hl Htail Hat ltac:(lia)) as Hloop.
    cbn [app] in Hloop. rewrite Hloop; [| |done].
    + cbn [mbind res_bind app]. rewrite int_op_ok by (unfold is_s32; lia). cbn [mbind res_bind].
      destruct (Z.eqb_spec (zlen l) number) as [Hn|Hn].
      * rewrite (proj2 (Z.eqb_eq (1 + zlen l) (number + 1))) by lia. cbn [negb].
        destruct (zlen tail =? 0); cbn [negb]; [|done]. do 3 f_equal.
        replace (Z.to_nat (1 + zlen l - 1)) with (length (doc_offsets 32 l)) by (rewrite length_doc_offsets; unfold zlen; lia).
        by rewrite take_app_length.
      * by rewrite (proj2 (Z.eqb_neq (1 + zlen l) (number + 1))) by lia.
    + unfold reply_fuel. rewrite zlen_app in Hlen. pose proof (concat_docs_len l Hl). pose proof (zlen_nonneg tail).
      unfold zlen in *. lia.
  - destruct (reply_single data l tail (zlen (concat l ++ tail)) Hl Hat eq_refl Htail ltac:(lia)) as (sz & E & Hsz).
    rewrite <-Hsz. destruct (4 <=? zlen (concat l ++ tail)).
    + destruct (lift (slice data 32 4)) as [w| |]; [|done|done]. cbn [mbind res_bind] in *. injection E as <-.
      by destruct (s32 (zlen (concat l ++ tail) - le_value w) =? 0).
    + injection E as <-. by destruct (zlen (concat l ++ tail) =? 0).
Qed.

(** ** Witnesses *)

(** The empty document. *)
Definition demo_doc : list Z := [5; 0; 0; 0; 0].

Lemma demo_doc_ok : doc_ok demo_doc.
Proof. exists [0]. by vm_compute. Qed.

Lemma mongo_requests_witness :
  op_query 7 3 0 (bytes_of "db.c") 0 1 (Some demo_doc) None =
    Ok (request (query_body 3 0 (bytes_of "db.c") 0 1) (demo_doc ++ [])) /\
  op_insert 7 0 (bytes_of "db.c") (ManyDocuments [Some demo_doc; Some demo_doc]) =
    Ok (request (insert_body 0 (bytes_of "db.c")) (demo_doc ++ demo_doc ++ [])).
Proof.
  destruct (mongo_requests 7 3 0 0 1 (bytes_of "db.c") [] demo_doc None demo_doc
    (ManyDocuments [Some demo_doc; Some demo_doc]) [demo_doc; demo_doc]) as (Hq & Hi & _).
  - exact demo_doc_ok.
  - discriminate.
  - exact demo_doc_ok.
  - left. reflexivity.
  - repeat constructor; exact demo_doc_ok.
  - vm_compute. reflexivity.
  - split; [exact Hq | exact Hi].
Defined.

Lemma mongo_replies_witness :
  op_reply (reply_head 9 3 1 0 [1; 0; 0; 0; 0; 0; 0; 0] 0 2 ++ demo_doc ++ demo_doc) (Some [1; 2; 3]) =
    Ok (RReply 3 (Some 32) (Some [1; 0; 0; 0; 0; 0; 0; 0]) 0, Some [32; 37]).
Proof.
  refine (proj2 (mongo_replies 9 3 1 0 0 2 [1; 0; 0; 0; 0; 0; 0; 0] [demo_doc; demo_doc] [] (Some [1; 2; 3])
    ltac:(vm_compute; split; [discriminate | reflexivity]) ltac:(vm_compute; split; [discriminate | reflexivity])
    ltac:(vm_compute; split; [discriminate | reflexivity]) ltac:(vm_compute; split; [discriminate | reflexivity])
    ltac:(reflexivity) ltac:(repeat constructor; exact demo_doc_ok) ltac:(vm_compute; discriminate)
    ltac:(vm_compute; reflexivity))).
Defined.
