(* ===== verification/UbossSocket.v ===== *)
(** core/uboss_socket.c with the loop of [socket_server_poll]: what happens on the sockets
    becomes messages to the services, in the turns of the socket thread, over the socket
    server of [SocketServer] and the node of [Server].

    The buffer of received data is a block that the socket thread has allocated; it is on
    the heap of the node from here on.  [None] as a result is an access to a block that is
    gone, or no end of the loop with the fuel: every turn uses up a request of the pipe, an
    event, or one answer of [sp_wait]. *)
From Stdlib Require Import String.
From S2P Require Import Prelude Bytes Ring Mq Sched Handle CStr SocketServer Server ServerLife ServerSafe.
Open Scope Z_scope.

Definition PTYPE_SOCKET : Z := 6.
Definition UBOSS_SOCKET_TYPE_DATA : Z := 1.
Definition UBOSS_SOCKET_TYPE_CONNECT : Z := 2.
Definition UBOSS_SOCKET_TYPE_CLOSE : Z := 3.
Definition UBOSS_SOCKET_TYPE_ACCEPT : Z := 4.
Definition UBOSS_SOCKET_TYPE_ERROR : Z := 5.
Definition UBOSS_SOCKET_TYPE_UDP : Z := 6.
Definition UBOSS_SOCKET_TYPE_WARNING : Z := 7.

(** [sizeof(struct uboss_socket_message)]. *)
Definition SIZEOF_SOCKET_MESSAGE : Z := 24.

(** The text of a message with one, a C string without its zero: 128 bytes at most. *)
Definition padding_text (data : option (list Z)) : list Z :=
  match data with
  | Some s => take 128 s
  | None => []
  end.

Section uboss_socket.
Variable instance_release : Z -> Z -> node -> option node.
Variable K : kernel.
Variable soi_buffer : Z -> Z.
Variable soi_size : Z -> Z.

(** [forward_message]. *)
Definition forward_message (type : Z) (padding : bool) (result : socket_message) (n : node) : option node :=
  let text := if padding then padding_text (m_data result) else [] in
  let sz := SIZEOF_SOCKET_MESSAGE + zlen text in
  let '(buffer, n) :=
    match m_data result with
    | Some data => if padding then (0, n) else uboss_malloc (Bytes data) n
    | None => (0, n)
    end in
  let '(sm, n) := uboss_malloc (SocketMsg type (m_id result) (m_ud result) buffer text) n in
  let message := Message 0 0 sm (Z.lor sz (Z.shiftl PTYPE_SOCKET MESSAGE_TYPE_SHIFT)) in
  '(r, n) ← Server.uboss_context_push instance_release (u32 (m_opaque result)) message n;
  if negb (r =? 0) then n ← uboss_free buffer n; uboss_free sm n
  else Some n.

(** The loop of [socket_server_poll]: the type (none is -1) with the message, and [more]. *)
Fixpoint socket_server_poll (fuel : nat) (busy : bool) (waits : list (list poll_event)) (more : bool) (ss : socket_server)
    : option (option (msg_type * socket_message) * bool * socket_server) :=
  match fuel with
  | O => None
  | S fuel =>
      let has_cmd := ss_checkctrl ss && negb (bool_decide (ss_pipe ss = [])) in
      let wait := negb has_cmd && bool_decide (ss_ev ss = []) in
      let events := match waits with e :: _ => e | [] => [] end in
      '(r, ss) ← poll_turn K soi_buffer soi_size busy events ss;
      match r with
      | inr r => Some (r, more && negb wait, ss)
      | inl _ => socket_server_poll fuel busy (if wait then tail waits else waits) (more && negb wait) ss
      end
  end.

(** The [switch] of [uboss_socket_poll]: the type and [padding] of the message. *)
Definition forwarded (t : msg_type) : option (Z * bool) :=
  match t with
  | SOCKET_EXIT => None
  | SOCKET_DATA => Some (UBOSS_SOCKET_TYPE_DATA, false)
  | SOCKET_CLOSE => Some (UBOSS_SOCKET_TYPE_CLOSE, false)
  | SOCKET_OPEN => Some (UBOSS_SOCKET_TYPE_CONNECT, true)
  | SOCKET_ERR => Some (UBOSS_SOCKET_TYPE_ERROR, true)
  | SOCKET_ACCEPT => Some (UBOSS_SOCKET_TYPE_ACCEPT, true)
  | SOCKET_UDP => Some (UBOSS_SOCKET_TYPE_UDP, false)
  | SOCKET_WARNING => Some (UBOSS_SOCKET_TYPE_WARNING, false)
  end.

(** [uboss_socket_poll]. *)
Definition uboss_socket_poll (fuel : nat) (busy : bool) (waits : list (list poll_event)) (ss : socket_server) (n : node)
    : option (Z * socket_server * node) :=
  '(r, more, ss) ← socket_server_poll fuel busy waits true ss;
  match r with
  | Some (t, result) =>
      match forwarded t with
      | None => Some (0, ss, n)
      | Some (type, padding) =>
          n ← forward_message type padding result n;
          Some (if more : bool then -1 else 1, ss, n)
      end
  | None =>
      n ← uboss_error instance_release None (bytes_of "Unknown socket message type -1.") n;
      Some (-1, ss, n)
  end.

(** ** The calls of the services

    The functions that add the handle of the service to those of [SocketServer]. *)
Definition uboss_socket_send (busy : bool) (id buffer sz : Z) (ss : socket_server) : option (Z * socket_server) :=
  socket_server_send K soi_buffer soi_size busy id buffer sz ss.
Definition uboss_socket_send_lowpriority (id buffer sz : Z) (ss : socket_server) : option (Z * socket_server) :=
  socket_server_send_lowpriority soi_buffer id buffer sz ss.

(** [do_listen] has given [fd]. *)
Definition uboss_socket_listen (c : ctxid) (fd : Z) (n : node) (ss : socket_server) : option (Z * socket_server) :=
  source ← uboss_context_handle c n; Some (socket_server_listen source fd ss).
Definition uboss_socket_connect (c : ctxid) (host : list Z) (port : Z) (n : node) (ss : socket_server)
    : option (Z * socket_server) :=
  source ← uboss_context_handle c n; Some (socket_server_connect source host port ss).
Definition uboss_socket_bind (c : ctxid) (fd : Z) (n : node) (ss : socket_server) : option (Z * socket_server) :=
  source ← uboss_context_handle c n; Some (socket_server_bind source fd ss).
Definition uboss_socket_close (c : ctxid) (id : Z) (n : node) (ss : socket_server) : option socket_server :=
  source ← uboss_context_handle c n; Some (socket_server_close source id ss).
Definition uboss_socket_shutdown (c : ctxid) (id : Z) (n : node) (ss : socket_server) : option socket_server :=
  source ← uboss_context_handle c n; Some (socket_server_shutdown source id ss).
Definition uboss_socket_start (c : ctxid) (id : Z) (n : node) (ss : socket_server) : option socket_server :=
  source ← uboss_context_handle c n; Some (socket_server_start source id ss).
Definition uboss_socket_nodelay (id : Z) (ss : socket_server) : socket_server := socket_server_nodelay id ss.

(** The socket and its protocol are made before. *)
Definition uboss_socket_udp (c : ctxid) (fd : Z) (v6 : bool) (n : node) (ss : socket_server) : option (Z * socket_server) :=
  source ← uboss_context_handle c n; Some (socket_server_udp source fd v6 ss).
Definition uboss_socket_udp_send (busy : bool) (id : Z) (address : list Z) (buffer sz : Z) (ss : socket_server)
    : option (Z * socket_server) :=
  socket_server_udp_send K soi_buffer soi_size busy id address buffer sz ss.

(** The lookup of the name has given [address]; no other thread runs in between. *)
Definition uboss_socket_udp_connect (id : Z) (address : option (list Z)) (ss : socket_server) : Z * socket_server :=
  let '(r, ss) := udp_connect_begin id ss in
  if r <? 0 then (r, ss) else udp_connect_end id address ss.

(** [socket_server_udp_address]: the address is behind the data. *)
Definition socket_server_udp_address (ud : Z) (data : list Z) : option (option (list Z)) :=
  type ← data.[ud];
  if type =? PROTOCOL_UDP then a ← slice data ud 7; Some (Some a)
  else if type =? PROTOCOL_UDPv6 then a ← slice data ud 19; Some (Some a)
  else Some None.

(** [uboss_socket_udp_address] of the message at [msg]. *)
Definition uboss_socket_udp_address (msg : Z) (n : node) : option (option (list Z)) :=
  b ← n_heap n !! msg;
  match b with
  | SocketMsg type _ ud buffer _ =>
      if negb (type =? UBOSS_SOCKET_TYPE_UDP) then Some None else
      d ← n_heap n !! buffer;
      match d with Bytes data => socket_server_udp_address ud data | _ => None end
  | _ => None
  end.

(** ** Delivery *)

(** Nothing is at the addresses that [uboss_malloc] gives next. *)
Definition heap_ok (n : node) : Prop := 0 < n_brk n /\ forall p, n_brk n <= p -> n_heap n !! p = None.

(** The message [m] with the block [b] and the data [data] has been put behind those of
    the service [c], and nothing else has changed. *)
Definition delivered (n n' : node) (c : ctxid) (type : Z) (text : list Z) (m : socket_message) (data : option (list Z)) : Prop :=
  exists ctx sm buffer, n_ctxs n !! c = Some ctx /\
    let msg := Message 0 0 sm (Z.lor (SIZEOF_SOCKET_MESSAGE + zlen text) (Z.shiftl PTYPE_SOCKET MESSAGE_TYPE_SHIFT)) in
    n_brk n <= sm /\
    n_heap n' !! sm = Some (SocketMsg type (m_id m) (m_ud m) buffer text) /\
    match data with
    | Some d => n_brk n <= buffer /\ buffer <> sm /\ n_heap n' !! buffer = Some (Bytes d)
    | None => buffer = 0
    end /\
    (forall p, p < n_brk n -> n_heap n' !! p = n_heap n !! p) /\
    (forall l, queue_msgs (n_mq n) (ctx_queue ctx) l -> queue_msgs (n_mq n') (ctx_queue ctx) (l ++ [msg])) /\
    (forall q l, q <> ctx_queue ctx -> queue_msgs (n_mq n) q l -> queue_msgs (n_mq n') q l).

(** The data that a message carries in a buffer of its own. *)
Definition carried (padding : bool) (m : socket_message) : option (list Z) :=
  if padding then None else m_data m.

Lemma push_delivers h m n own holds : node_ok n own holds ->
  exists r, uboss_handle_grab (handle_of n) h (n_handles n) = Some r /\
  match r with
  | None => Server.uboss_context_push instance_release h m n = Some (-1, n)
  | Some c => exists ctx w', n_ctxs n !! c = Some ctx /\
      Server.uboss_context_push instance_release h m n = Some (0, set_mq w' n) /\
      node_ok (set_mq w' n) own holds /\
      (forall l, queue_msgs (n_mq n) (ctx_queue ctx) l -> queue_msgs w' (ctx_queue ctx) (l ++ [m])) /\
      (forall q l, q <> ctx_queue ctx -> queue_msgs (n_mq n) q l -> queue_msgs w' q l)
  end.
Proof.
  intros Hn. destruct (context_push_spec instance_release n own holds h m Hn) as (r & Hg & Hr).
  exists r. split; [done|]. destruct r as [c|]; [|done]. destruct Hr as (ctx & w' & Hctx & _ & Hpush & Hr).
  exists ctx, w'. split; [done|]. split; [done|].
  destruct (mq_push_ok n own holds c ctx m Hn Hctx) as (w2 & Hw2 & Hok). assert (w2 = w') as -> by congruence.
  split; [done|]. destruct (nk_queue _ _ _ Hn c ctx Hctx) as (q & Hq & Hrel). destruct (nk_sched _ _ _ Hn) as [l Hl].
  destruct (mq_push_msgs _ _ _ _ _ m Hl Hq Hrel) as (w3 & l' & Hpush3 & _ & Happ & Hkeep & _).
  assert (w3 = w') as -> by congruence. by split.
Qed.

Lemma node_ok_heap n own holds h b : node_ok n own holds -> node_ok (set_heap h b n) own holds.
Proof.
  intros Hn. eapply node_ok_ext; [exact Hn | | done..]. intros c. cbn [n_ctxs set_heap].
  by destruct (n_ctxs n !! c).
Qed.

Lemma heap_ok_malloc b n : heap_ok n -> heap_ok (uboss_malloc b n).2.
Proof.
  intros [Hb Hf]. split; cbn; [lia|]. intros p Hp. rewrite lookup_insert_ne by lia. apply Hf. lia.
Qed.

(** The block of a message that was pushed, or freed. *)
Lemma forward_push type text m buffer data n n0 own holds : node_ok n own holds -> heap_ok n ->
  n_handles n = n_handles n0 -> n_ctxs n = n_ctxs n0 -> n_mq n = n_mq n0 -> n_brk n0 <= n_brk n ->
  (forall p, p < n_brk n0 -> n_heap n !! p = n_heap n0 !! p) ->
  match data with
  | Some d => n_brk n0 <= buffer < n_brk n /\ n_heap n !! buffer = Some (Bytes d) /\ delete buffer (n_heap n) = n_heap n0 /\ buffer <> 0
  | None => buffer = 0 /\ n_heap n = n_heap n0
  end ->
  exists n', (let '(sm, n) := uboss_malloc (SocketMsg type (m_id m) (m_ud m) buffer text) n in
      let message := Message 0 0 sm (Z.lor (SIZEOF_SOCKET_MESSAGE + zlen text) (Z.shiftl PTYPE_SOCKET MESSAGE_TYPE_SHIFT)) in
      '(r, n) ← Server.uboss_context_push instance_release (u32 (m_opaque m)) message n;
      if negb (r =? 0) then n ← uboss_free buffer n; uboss_free sm n else Some n) = Some n' /\
    node_ok n' own holds /\ heap_ok n' /\
    exists r, uboss_handle_grab (handle_of n0) (u32 (m_opaque m)) (n_handles n0) = Some r /\
    match r with
    | Some c => delivered n0 n' c type text m data
    | None => n_heap n' = n_heap n0 /\ n_mq n' = n_mq n0
    end.
Proof.
  intros Hn Hheap Eh Ec Em Hbrk Hold Hdata. cbn [uboss_malloc]. cbv zeta.
  set (n1 := set_heap _ _ n). set (msg := Message 0 0 _ _).
  assert (node_ok n1 own holds) as Hn1 by (by apply node_ok_heap).
  pose proof (heap_ok_malloc (SocketMsg type (m_id m) (m_ud m) buffer text) n Hheap) as Hheap1. cbn [uboss_malloc snd] in Hheap1.
  fold n1 in Hheap1. destruct Hheap as [Hpos Hfree].
  destruct (push_delivers (u32 (m_opaque m)) msg n1 own holds Hn1) as (r & Hg & Hr).
  assert (uboss_handle_grab (handle_of n0) (u32 (m_opaque m)) (n_handles n0) = Some r) as Hg0.
  { rewrite <-Hg. unfold n1. cbn [n_handles set_heap]. rewrite Eh. unfold uboss_handle_grab, handle_of. cbn [n_ctxs set_heap]. by rewrite Ec. }
  destruct r as [c|].
  - destruct Hr as (ctx & w' & Hctx & -> & Hok & Happ & Hkeep). cbn [mbind option_bind]. change (negb (0 =? 0)) with false. cbv iota.
    exists (set_mq w' n1). split; [done|]. split; [done|]. split; [done|]. exists (Some c). split; [done|].
    exists ctx, (n_brk n), buffer. split; [by rewrite <-Ec|]. split; [done|].
    assert (forall p, p <> n_brk n -> n_heap (set_mq w' n1) !! p = n_heap n !! p) as Hne
      by (intros p Hp; cbn; by rewrite lookup_insert_ne).
    split; [cbn; by rewrite lookup_insert_eq|]. split; [|split].
    + destruct data as [d|]; [|by destruct Hdata]. destruct Hdata as (Hb & Hd & _). split; [lia|]. split; [lia|].
      rewrite Hne by lia. done.
    + intros p Hp. rewrite Hne by lia. by apply Hold.
    + rewrite <-Em. split; [exact Happ | exact Hkeep].
  - rewrite Hr. cbn [mbind option_bind]. change (negb (-1 =? 0)) with true. cbv iota.
    assert (exists h, uboss_free buffer n1 = Some (set_heap (<[n_brk n := SocketMsg type (m_id m) (m_ud m) buffer text]> h) (n_brk n + 1) n) /\
      h !! n_brk n = None /\ h = n_heap n0) as (h & -> & Hh & Hh0).
    { destruct data as [d|].
      - destruct Hdata as (Hb & Hd & Hdel & Hb0). exists (delete buffer (n_heap n)). unfold uboss_free, n1.
        rewrite (proj2 (Z.eqb_neq _ _)) by done. cbn [n_heap set_heap n_brk]. rewrite lookup_insert_ne by lia. rewrite Hd.
        cbn [mbind option_bind]. rewrite delete_insert_ne by lia. split; [done|]. split; [|done].
        rewrite lookup_delete_ne by lia. apply Hfree. lia.
      - destruct Hdata as [-> Hsame]. exists (n_heap n). split; [done|]. split; [apply Hfree; lia | done]. }
    cbn [mbind option_bind]. unfold uboss_free. rewrite (proj2 (Z.eqb_neq _ _)) by lia. cbn [n_heap set_heap n_brk].
    rewrite lookup_insert_eq. cbn [mbind option_bind]. rewrite delete_insert_id by done.
    eexists. split; [done|]. split; [by repeat apply node_ok_heap|]. split.
    + split; cbn; [lia|]. intros p Hp. destruct (decide (p = n_brk n)) as [->|]; [done|].
      destruct data as [d|].
      * destruct Hdata as (Hb & _ & Hdel & _). rewrite Hh0, <-Hdel, lookup_delete_ne by lia. apply Hfree. lia.
      * destruct Hdata as [_ Hsame]. rewrite Hh0, <-Hsame. apply Hfree. lia.
    + exists None. split; [done|]. cbn. split; [done|]. exact Em.
Qed.

Lemma forward_message_ok type (padding : bool) m n own holds : node_ok n own holds -> heap_ok n ->
  let text := if padding then padding_text (m_data m) else [] in
  exists n', forward_message type padding m n = Some n' /\ node_ok n' own holds /\ heap_ok n' /\
    exists r, uboss_handle_grab (handle_of n) (u32 (m_opaque m)) (n_handles n) = Some r /\
    match r with
    | Some c => delivered n n' c type text m (carried padding m)
    | None => n_heap n' = n_heap n /\ n_mq n' = n_mq n
    end.
Proof.
  intros Hn Hheap text. unfold forward_message. fold text.
  destruct (carried padding m) as [d|] eqn:Hd.
  - assert ((match m_data m with Some data => if padding then (0, n) else uboss_malloc (Bytes data) n | None => (0, n) end)
      = uboss_malloc (Bytes d) n) as ->.
    { unfold carried in Hd. destruct padding; [done|]. by rewrite Hd. }
    cbn [uboss_malloc]. pose proof (heap_ok_malloc (Bytes d) n Hheap) as Hheap1. cbn [uboss_malloc snd] in Hheap1.
    apply (forward_push type text m (n_brk n) (Some d)); try done.
    + by apply node_ok_heap.
    + cbn. lia.
    + intros p Hp. cbn. by rewrite lookup_insert_ne by lia.
    + destruct Hheap as [Hpos Hfree]. cbn. split; [lia|]. rewrite lookup_insert_eq. split; [done|].
      split; [|lia]. apply delete_insert_id, Hfree. lia.
  - assert ((match m_data m with Some data => if padding then (0, n) else uboss_malloc (Bytes data) n | None => (0, n) end)
      = (0, n)) as ->.
    { unfold carried in Hd. destruct padding; [by destruct (m_data m)|]. by rewrite Hd. }
    by apply (forward_push type text m 0 None).
Qed.

(** C10: What happens on the sockets reaches the services.  For whatever [socket_server_poll]
    reports, [uboss_socket_poll] puts exactly one message behind those in the queue of the
    service that owns the socket, with the socket, the number and, for data, a block with
    exactly the bytes that were received (for an event with a text its first 128 bytes); no
    other queue and no other block changes.  When the service is gone, nothing changes and
    no block is lost.  The result is 0 only for the end of the socket thread; otherwise it
    tells whether the thread has just waited.  The process stays well-formed. *)
Theorem socket_poll_delivers (fuel : nat) (busy : bool) (waits : list (list poll_event)) (ss ss' : socket_server)
    (r : option (msg_type * socket_message)) (more : bool) (n : node) (own : gset qid) (holds : list ctxid) :
  node_ok n own holds -> heap_ok n -> socket_server_poll fuel busy waits true ss = Some (r, more, ss') ->
  exists res n', uboss_socket_poll fuel busy waits ss n = Some (res, ss', n') /\ node_ok n' own holds /\
    match r with
    | Some (SOCKET_EXIT, _) => res = 0 /\ n' = n
    | Some (t, m) => res = (if more then -1 else 1) /\ heap_ok n' /\
        exists type (padding : bool) c, forwarded t = Some (type, padding) /\
          uboss_handle_grab (handle_of n) (u32 (m_opaque m)) (n_handles n) = Some c /\
          match c with
          | Some c => delivered n n' c type (if padding then padding_text (m_data m) else []) m (carried padding m)
          | None => n_heap n' = n_heap n /\ n_mq n' = n_mq n
          end
    | None => res = -1 /\ n_handles n' = n_handles n
    end.
Proof.
  intros Hn Hheap Hpoll. unfold uboss_socket_poll. rewrite Hpoll. cbn [mbind option_bind].
  destruct r as [[t m]|].
  - destruct (forwarded t) as [[type padding]|] eqn:Hf.
    + destruct (forward_message_ok type padding m n own holds Hn Hheap) as (n' & -> & Hn' & Hheap' & c & Hg & Hc).
      cbn [mbind option_bind]. exists (if more then -1 else 1), n'. split; [done|]. split; [done|].
      destruct t; try discriminate Hf; (split; [done|]; split; [done|]; by exists type, padding, c).
    + exists 0, n. split; [done|]. split; [done|]. by destruct t.
  - destruct (error_ok instance_release None (bytes_of "Unknown socket message type -1.") n own holds Hn)
      as (n' & -> & Hn' & Hq); [done|].
    cbn [mbind option_bind]. exists (-1), n'. split; [done|]. split; [done|]. split; [done|]. by destruct Hq as (_ & _ & -> & _).
Qed.
End uboss_socket.

(** ** Witness *)

(** Socket 1 of service 0 of [demo_node] receives three bytes. *)
Definition demo_kernel : kernel :=
  Kernel (fun _ _ _ => IoAgain) (fun _ _ _ _ => IoAgain) (fun _ _ _ => (IoOk 3, [104; 105; 33]))
    (fun _ _ => (IoAgain, [], [])) (fun _ _ => false) (fun _ _ _ => ConnectFailed) (fun _ _ => AcceptFailed)
    (fun _ _ => false).

Definition demo_sockets : socket_server :=
  SocketServer 1 {[1 := Socket 0x1000001 [] [] 0 7 1 PROTOCOL_TCP SOCKET_TYPE_CONNECTED 0 0 64 [] 0 0 0]}
    [] true [] ∅ [].

Definition demo_message : socket_message := SocketMessage 1 0x1000001 3 (Some [104; 105; 33]).

Lemma demo_heap_ok n : demo_node = Some n -> heap_ok n.
Proof.
  intros Hn. unfold demo_node in Hn. apply bind_Some in Hn as ([[c q] n1] & _ & Hn). injection Hn as <-.
  split; cbn; [done|]. intros p Hp. rewrite lookup_insert_ne by lia. apply lookup_empty.
Qed.

Lemma socket_poll_delivers_witness :
  exists n n' ss', demo_node = Some n /\
    uboss_socket_poll demo_release demo_kernel (fun _ => 0) (fun _ => 0) 5 false [[Event (Some 1) true false false]]
      demo_sockets n = Some (1, ss', n') /\
    delivered n n' 0%nat UBOSS_SOCKET_TYPE_DATA [] demo_message (Some [104; 105; 33]).
Proof.
  destruct demo_node as [n|] eqn:E; [|vm_compute in E; discriminate E].
  pose proof (life_reachable_ok demo_release demo_release_frees 1 _ (demo_reachable n E)) as [_ Hok].
  destruct (socket_server_poll demo_kernel (fun _ => 0) (fun _ => 0) 5 false [[Event (Some 1) true false false]] true demo_sockets)
    as [[[r more] ss']|] eqn:Hpoll; [|vm_compute in Hpoll; discriminate Hpoll].
  destruct (socket_poll_delivers demo_release demo_kernel (fun _ => 0) (fun _ => 0) 5 false [[Event (Some 1) true false false]]
    demo_sockets ss' r more n _ _ Hok) as (res & n' & Hres & _ & Hr).
  - exact (demo_heap_ok n E).
  - exact Hpoll.
  - assert (r = Some (SOCKET_DATA, demo_message) /\ more = false) as [-> ->]
      by (vm_compute in Hpoll; injection Hpoll as <- <- _; split; reflexivity).
    destruct Hr as (-> & _ & type & padding & c & Hf & Hg & Hc). injection Hf as <- <-.
    assert (c = Some 0%nat) as -> by (vm_compute in E; injection E as <-; vm_compute in Hg; injection Hg as <-; reflexivity).
    exists n, n', ss'. split; [reflexivity|]. split; [exact Hres | exact Hc].
Defined.
