(* ===== verification/LuaSocketCalls.v ===== *)
(** lib/socket/lua-socket.c, the calls of the socket thread: addresses, the buffers that
    are sent, and the functions of the driver over [UbossSocket].

    The strings of addresses are C strings, the list of their bytes.  A sent table is the
    sequence of its strings ([None] for a value that is no string).  [Ub] is an access
    outside an object or a failure of the called functions. *)
From Stdlib Require Import String.
From S2P Require Import Prelude Bytes Buffer Handle CStr SocketServer Server UbossSocket.
Open Scope Z_scope.

(** [strchr]: the index of the first [c] at or behind [off]. *)
Fixpoint strchr_from (c : Z) (l : list Z) (i off : Z) : option Z :=
  match l with
  | [] => None
  | x :: l => if (off <=? i) && (x =? c) then Some i else strchr_from c l (i + 1) off
  end.

Definition strchr_at (c : Z) (s : list Z) (off : Z) : option Z := strchr_from c s 0 off.

(** The port behind a separator: an [unsigned long] to an [int]. *)
Definition port_at (addr : list Z) (sep : Z) : Z := s32 (strtoul 10 (drop (Z.to_nat (sep + 1)) addr)).

(** [address_port]: host and port; [port] is the argument when there is one. *)
Definition address_port (addr : list Z) (port : option Z) : res (list Z * Z) :=
  match port with
  | Some port => Ok (addr, s32 port)
  | None =>
      match strchr_at 91 addr 0 with
      | Some bracket =>
          let host := bracket + 1 in
          match strchr_at 93 addr 0 with
          | None => Err "Invalid address %s."
          | Some sep =>
              tmp ← lift (slice addr host (sep - host));
              match strchr_at 58 addr (sep + 1) with
              | None => Err "Invalid address %s."
              | Some sep => Ok (tmp, port_at addr sep)
              end
          end
      | None =>
          match strchr_at 58 addr 0 with
          | None => Err "Invalid address %s."
          | Some sep => tmp ← lift (slice addr 0 sep); Ok (tmp, port_at addr sep)
          end
      end
  end.

(** [uboss_malloc] on the heap of the socket server: an address that is not in use. *)
Definition new_block (ss : socket_server) : Z := 1 + map_fold (fun k _ m => Z.max k m) 0 (ss_heap ss).

Definition malloc (l : list Z) (ss : socket_server) : Z * socket_server :=
  (new_block ss, SocketServer.set_heap (<[new_block ss := l]> (ss_heap ss)) ss).

(** What a service gives to send. *)
Inductive send_arg :=
| SendBlock (buffer sz : Z)
| SendTable (l : list (option (list Z)))
| SendString (s : list Z).

(** [count_size]. *)
Fixpoint count_size (l : list (option (list Z))) : res Z :=
  match l with
  | [] => Ok 0
  | None :: _ => Err "string expected"
  | Some s :: l => tlen ← count_size l; Ok (zlen s + tlen)
  end.

(** [concat_table] into [mem] at [ptr], with [tlen] bytes left; what is left in the end. *)
Fixpoint concat_table (l : list (option (list Z))) (mem : list Z) (ptr tlen : Z) : res (list Z * Z) :=
  match l with
  | Some str :: l =>
      if tlen <? zlen str then Ok (mem, tlen)
      else mem ← lift (memcpy mem ptr str); concat_table l mem (ptr + zlen str) (tlen - zlen str)
  | _ => Ok (mem, tlen)
  end.

Section calls.
(** A byte of fresh memory. *)
Variable junk : Z.
Variable K : kernel.
Variable soi_buffer soi_size : Z -> Z.

(** [get_buffer]: pointer and size. *)
Definition get_buffer (arg : send_arg) (ss : socket_server) : res (Z * Z * socket_server) :=
  match arg with
  | SendBlock buffer sz => Ok (buffer, s32 sz, ss)
  | SendTable l =>
      len ← count_size l;
      '(mem, tlen) ← concat_table l (replicate (Z.to_nat len) junk) 0 len;
      if negb (tlen =? 0) then Err "Invalid strings table" else
      let '(p, ss) := malloc mem ss in Ok (p, s32 len, ss)
  | SendString s => let '(p, ss) := malloc s ss in Ok (p, s32 (zlen s), ss)
  end.

(** [lsend], [lsendlow]: true unless the socket is gone. *)
Definition lsend (busy : bool) (id : Z) (arg : send_arg) (ss : socket_server) : res (bool * socket_server) :=
  '(buffer, sz, ss) ← get_buffer arg ss;
  '(err, ss) ← lift (uboss_socket_send K soi_buffer soi_size busy (s32 id) buffer sz ss);
  Ok (err =? 0, ss).

Definition lsendlow (id : Z) (arg : send_arg) (ss : socket_server) : res (bool * socket_server) :=
  '(buffer, sz, ss) ← get_buffer arg ss;
  '(err, ss) ← lift (uboss_socket_send_lowpriority soi_buffer (s32 id) buffer sz ss);
  Ok (err =? 0, ss).

(** [lconnect]. *)
Definition lconnect (c : ctxid) (addr : list Z) (port : option Z) (n : node) (ss : socket_server) : res (Z * socket_server) :=
  '(host, port) ← address_port addr port;
  if port =? 0 then Err "Invalid port" else lift (uboss_socket_connect c host port n ss).

Definition lclose (c : ctxid) (id : Z) (n : node) (ss : socket_server) : res socket_server :=
  lift (uboss_socket_close c (s32 id) n ss).
Definition lshutdown (c : ctxid) (id : Z) (n : node) (ss : socket_server) : res socket_server :=
  lift (uboss_socket_shutdown c (s32 id) n ss).
Definition lbind (c : ctxid) (fd : Z) (n : node) (ss : socket_server) : res (Z * socket_server) :=
  lift (uboss_socket_bind c (s32 fd) n ss).
Definition lstart (c : ctxid) (id : Z) (n : node) (ss : socket_server) : res socket_server :=
  lift (uboss_socket_start c (s32 id) n ss).
Definition lnodelay (id : Z) (ss : socket_server) : socket_server := uboss_socket_nodelay (s32 id) ss.

(** [llisten]; [fd] is the result of [do_listen]. *)
Definition llisten (c : ctxid) (fd : Z) (n : node) (ss : socket_server) : res (Z * socket_server) :=
  '(id, ss) ← lift (uboss_socket_listen c fd n ss);
  if id <? 0 then Err "Listen error" else Ok (id, ss).

(** [ludp]: [bound] gives the socket and whether it is IPv6, for the address if there is one. *)
Definition ludp (c : ctxid) (addr : option (list Z)) (port : option Z) (bound : option (list Z * Z) -> Z * bool)
    (n : node) (ss : socket_server) : res (Z * socket_server) :=
  host ← (match addr with Some addr => h ← address_port addr port; Ok (Some h) | None => Ok None end);
  let '(fd, v6) := bound host in
  '(id, ss) ← lift (uboss_socket_udp c fd v6 n ss);
  if id <? 0 then Err "udp init failed" else Ok (id, ss).

(** [ludp_connect]: [lookup] gives the address of a host. *)
Definition ludp_connect (id : Z) (addr : list Z) (port : option Z) (lookup : list Z -> Z -> option (list Z))
    (ss : socket_server) : res socket_server :=
  '(host, port) ← address_port addr port;
  let '(r, ss) := uboss_socket_udp_connect (s32 id) (lookup host port) ss in
  if negb (r =? 0) then Err "udp connect failed" else Ok ss.

(** [ludp_send]; the address is the memory of the string with its zero. *)
Definition ludp_send (busy : bool) (id : Z) (address : list Z) (arg : send_arg) (ss : socket_server) : res (bool * socket_server) :=
  '(buffer, sz, ss) ← get_buffer arg ss;
  '(err, ss) ← lift (uboss_socket_udp_send K soi_buffer soi_size busy (s32 id) (address ++ [0]) buffer sz ss);
  Ok (err =? 0, ss).

(** [ludp_address]: [ntop] prints an address of a family (IPv6 or not). *)
Definition ludp_address (ntop : bool -> list Z -> option (list Z)) (addr : list Z) : res (list Z * Z) :=
  port ← lift (slice (addr ++ [0]) 1 2);
  let port := match port with [a; b] => a * 2 ^ 8 + b | _ => 0 end in
  if negb (zlen addr =? 7) && negb (zlen addr =? 19) then Err "Invalid udp address" else
  match ntop (zlen addr =? 19) (drop 3 addr) with
  | Some s => Ok (s, port)
  | None => Err "Invalid udp address"
  end.

(** [lunpack] of the message at [msg] with its size: type, id, ud, pointer or text, and the
    address of a UDP message. *)
Definition lunpack (msg size : Z) (n : node) : res (Z * Z * Z * (Z + list Z) * option (list Z)) :=
  match n_heap n !! msg with
  | Some (SocketMsg type id ud buffer text) =>
      data ← (if buffer =? 0 then t ← lift (slice text 0 (s32 size - SIZEOF_SOCKET_MESSAGE)); Ok (inr t) else Ok (inl buffer));
      addr ← (if type =? UBOSS_SOCKET_TYPE_UDP then lift (uboss_socket_udp_address msg n) else Ok None);
      Ok (type, id, ud, data, addr)
  | _ => Ub
  end.
End calls.

(** ** Addresses *)

Lemma strchr_from_spec c l : forall i off, match strchr_from c l i off with
  | Some j => i <= j < i + zlen l /\ off <= j /\ l.[j - i] = Some c /\ forall k, i <= k < j -> off <= k -> l.[k - i] <> Some c
  | None => forall k, i <= k -> off <= k -> l.[k - i] <> Some c
  end.
Proof.
  induction l as [|x l IH]; intros i off; cbn [strchr_from].
  - intros k Hk _ H. apply aget_lt_Some in H. change (zlen (@nil Z)) with 0 in H. lia.
  - pose proof (zlen_nonneg l) as Hl. destruct ((off <=? i) && (x =? c)) eqn:E.
    + apply andb_prop in E as [H1%Z.leb_le H2%Z.eqb_eq]. subst x. rewrite zlen_cons, Z.sub_diag.
      split; [lia|]. split; [lia|]. split; [apply aget_cons_0|]. lia.
    + assert (forall k, i <= k -> off <= k -> k = i -> (x :: l).[k - i] <> Some c) as Hi.
      { intros k _ Hk ->. rewrite Z.sub_diag, aget_cons_0. intros [= ->]. lia. }
      specialize (IH (i + 1) off). destruct (strchr_from c l (i + 1) off) as [j|].
      * destruct IH as (Hj & Ho & Hc & Hno). rewrite zlen_cons. split; [lia|]. split; [lia|].
        split; [rewrite aget_cons_S by lia; by replace (j - i - 1) with (j - (i + 1)) by lia|].
        intros k Hk Hok. destruct (Z.eq_dec k i) as [->|Hne]; [by apply Hi|].
        rewrite aget_cons_S by lia. replace (k - i - 1) with (k - (i + 1)) by lia. apply Hno; lia.
      * intros k Hk Hok. destruct (Z.eq_dec k i) as [->|Hne]; [by apply Hi|].
        rewrite aget_cons_S by lia. replace (k - i - 1) with (k - (i + 1)) by lia. apply IH; lia.
Qed.

(** The first occurrence behind a part that has none. *)
Lemma strchr_at_app c a b off : 0 <= off -> (forall k, off <= k -> a.[k] <> Some c) -> off <= zlen a ->
  strchr_at c (a ++ c :: b) off = Some (zlen a).
Proof.
  intros Hoff Hno Hle. unfold strchr_at. pose proof (strchr_from_spec c (a ++ c :: b) 0 off) as Hs. pose proof (zlen_nonneg a).
  assert ((a ++ c :: b).[zlen a] = Some c) as Hat by (by apply aget_app_eq).
  destruct (strchr_from c (a ++ c :: b) 0 off) as [j|].
  - destruct Hs as (Hj & Ho & Hc & Hfirst). f_equal. rewrite Z.sub_0_r in Hc.
    destruct (Z.lt_trichotomy j (zlen a)) as [Hlt|[->|Hgt]]; [|done|].
    + rewrite aget_app_l in Hc by lia. by destruct (Hno j).
    + destruct (Hfirst (zlen a)); [lia | lia|]. by rewrite Z.sub_0_r.
  - destruct (Hs (zlen a)); [lia | lia|]. by rewrite Z.sub_0_r.
Qed.

Lemma strchr_at_none c s : c ∉ s -> strchr_at c s 0 = None.
Proof.
  intros Hno. unfold strchr_at. pose proof (strchr_from_spec c s 0 0) as Hs. destruct (strchr_from c s 0 0) as [j|]; [|done].
  destruct Hs as (_ & _ & Hc & _). rewrite Z.sub_0_r in Hc. destruct Hno. apply elem_of_aget. by eexists.
Qed.

Lemma not_in_aget (c : Z) s k : c ∉ s -> s.[k] <> Some c.
Proof. intros Hno Hk. apply Hno, elem_of_aget. by eexists. Qed.

Lemma slice_front_part (a b : list Z) : slice (a ++ b) 0 (zlen a) = Some a.
Proof.
  pose proof (zlen_nonneg a). pose proof (zlen_nonneg b). rewrite slice_spec by (rewrite ?zlen_app; lia).
  unfold zlen. by rewrite Nat2Z.id, drop_0, take_app_length.
Qed.

Lemma port_at_print a v : 0 <= v < 2 ^ 31 -> port_at (a ++ 58 :: fmt_u v) (zlen a) = v.
Proof.
  intros Hv. unfold port_at. replace (Z.to_nat (zlen a + 1)) with (S (length a)) by (unfold zlen; lia).
  replace (drop (S (length a)) (a ++ 58 :: fmt_u v)) with (fmt_u v).
  - unfold fmt_u. rewrite strtoul_print; [|lia|lia|lia]. by rewrite s32_small by (unfold is_s32; lia).
  - change (a ++ 58 :: fmt_u v) with (a ++ [58] ++ fmt_u v). rewrite app_assoc.
    replace (S (length a)) with (length (a ++ [58])) by (rewrite length_app; cbn; lia). by rewrite drop_app_length.
Qed.

(** ["host:port"]. *)
Lemma address_port_v4 host v : 58 ∉ host -> 91 ∉ host -> 0 <= v < 2 ^ 31 ->
  address_port (host ++ 58 :: fmt_u v) None = Ok (host, v).
Proof.
  intros H58 H91 Hv. unfold address_port.
  assert (91 ∉ host ++ 58 :: fmt_u v) as Hno.
  { rewrite elem_of_app, elem_of_cons. intros [?|[?|Hin]]; [done | done|].
    pose proof (print_digits_chars 10 10 v ltac:(lia) ltac:(lia) [] (Forall_nil_2 _)) as Hd.
    rewrite Forall_forall in Hd. apply Hd in Hin. lia. }
  rewrite (strchr_at_none 91) by done.
  rewrite strchr_at_app by (done || (intros; by apply not_in_aget) || apply zlen_nonneg).
  rewrite slice_front_part. cbn [lift mbind res_bind]. by rewrite port_at_print.
Qed.

(** ["[host]:port"]. *)
Lemma address_port_v6 host v : 93 ∉ host -> 91 ∉ host -> 0 <= v < 2 ^ 31 ->
  address_port (91 :: host ++ 93 :: 58 :: fmt_u v) None = Ok (host, v).
Proof.
  intros H93 H91 Hv. pose proof (zlen_nonneg host). unfold address_port.
  change (strchr_at 91 (91 :: host ++ 93 :: 58 :: fmt_u v) 0) with (Some 0). cbv beta iota zeta.
  assert (strchr_at 93 (91 :: host ++ 93 :: 58 :: fmt_u v) 0 = Some (zlen host + 1)) as ->.
  { change (91 :: host ++ 93 :: 58 :: fmt_u v) with ((91 :: host) ++ 93 :: 58 :: fmt_u v).
    rewrite strchr_at_app; [by rewrite zlen_cons, Z.add_comm | done | | rewrite zlen_cons; lia].
    intros k _. apply not_in_aget. rewrite elem_of_cons. intros [?|?]; done. }
  assert (slice (91 :: host ++ 93 :: 58 :: fmt_u v) (0 + 1) (zlen host + 1 - (0 + 1)) = Some host) as ->.
  { pose proof (slice_behind [91] host (93 :: 58 :: fmt_u v) (0 + 1) (zlen host + 1 - (0 + 1)) eq_refl ltac:(lia)) as Hs. exact Hs. }
  cbn [lift mbind res_bind].
  assert (91 :: host ++ 93 :: 58 :: fmt_u v = (91 :: host ++ [93]) ++ 58 :: fmt_u v) as -> by (by rewrite <-app_comm_cons, <-app_assoc).
  assert (zlen (91 :: host ++ [93]) = zlen host + 1 + 1) as Hlen by (rewrite zlen_cons, zlen_app; change (zlen [93]) with 1; lia).
  rewrite strchr_at_app; [|lia | |lia].
  - by rewrite port_at_print.
  - intros k Hk Hc. apply aget_lt_Some in Hc. lia.
Qed.

(** A bracket that closes before one opens: [memcpy] of a negative size. *)
Lemma address_port_brackets : address_port (bytes_of "]:[::1]:80") None = Ub.
Proof. reflexivity. Qed.

(** ** Sending *)

Lemma new_block_fresh ss : 0 < new_block ss /\ ss_heap ss !! new_block ss = None.
Proof.
  unfold new_block. set (m := map_fold _ 0 _).
  assert (0 <= m /\ forall k v, ss_heap ss !! k = Some v -> k <= m) as [H0 Hmax].
  { subst m. apply (map_fold_weak_ind (fun m (h : gmap Z (list Z)) => 0 <= m /\ forall k v, h !! k = Some v -> k <= m)).
    - split; [done|]. intros k v Hk. by rewrite lookup_empty in Hk.
    - intros k v h m Hk [H0 IH]. split; [lia|]. intros k' v' Hk'. apply lookup_insert_Some in Hk' as [[<- _]|[_ Hk']]; [lia|].
      specialize (IH k' v' Hk'). lia. }
  split; [lia|]. destruct (ss_heap ss !! (1 + m)) as [v|] eqn:E; [|done]. apply Hmax in E. lia.
Qed.

(** The bytes of an argument. *)
Inductive arg_bytes : send_arg -> list Z -> Prop :=
| bytes_string s : arg_bytes (SendString s) s
| bytes_table l : arg_bytes (SendTable (map Some l)) (concat l).

Lemma count_size_concat l : count_size (map Some l) = Ok (zlen (concat l)).
Proof.
  induction l as [|s l IH]; cbn [map count_size concat]; [done|]. rewrite IH. cbn [mbind res_bind]. by rewrite zlen_app.
Qed.

(** The strings fill the buffer exactly. *)
Lemma concat_table_spec l : forall mem pre tail, mem = pre ++ tail -> zlen tail = zlen (concat l) ->
  concat_table (map Some l) mem (zlen pre) (zlen (concat l)) = Ok (pre ++ concat l, 0).
Proof.
  induction l as [|s l IH]; intros mem pre tail -> Hlen; cbn [map concat_table concat] in *.
  - destruct tail; [done|]. rewrite zlen_cons in Hlen. pose proof (zlen_nonneg tail). change (zlen (@nil Z)) with 0 in Hlen. lia.
  - rewrite zlen_app in *. pose proof (zlen_nonneg (concat l)). pose proof (zlen_nonneg s).
    rewrite (proj2 (Z.ltb_ge _ _)) by lia. rewrite memcpy_at by (done || lia). cbn [lift mbind res_bind].
    rewrite put_assoc. replace (zlen pre + zlen s) with (zlen (pre ++ s)) by (by rewrite zlen_app).
    replace (zlen s + zlen (concat l) - zlen s) with (zlen (concat l)) by lia.
    rewrite (IH _ (pre ++ s) (drop (length s) tail)); [by rewrite <-app_assoc | done|].
    rewrite zlen_drop_length by lia. lia.
Qed.

Section calls.
Variable junk : Z.
Variable K : kernel.
Variable soi_buffer soi_size : Z -> Z.

Lemma get_buffer_bytes arg s ss : arg_bytes arg s -> zlen s < 2 ^ 31 ->
  get_buffer junk arg ss = Ok (new_block ss, zlen s, SocketServer.set_heap (<[new_block ss := s]> (ss_heap ss)) ss).
Proof.
  intros Harg Hmax. assert (s32 (zlen s) = zlen s) as Hs by (apply s32_small; pose proof (zlen_nonneg s); unfold is_s32; lia).
  destruct Harg as [s|l]; cbn [get_buffer].
  - cbn [malloc]. by rewrite Hs.
  - rewrite count_size_concat. cbn [mbind res_bind]. pose proof (zlen_nonneg (concat l)).
    pose proof (concat_table_spec l (replicate (Z.to_nat (zlen (concat l))) junk) [] _ eq_refl) as Hc.
    change (zlen (@nil Z)) with 0 in Hc. rewrite Hc by (rewrite zlen_replicate; lia). cbn [mbind res_bind app].
    change (negb (0 =? 0)) with false. cbn [malloc]. by rewrite Hs.
Qed.

(** A table with something else than strings. *)
Lemma get_buffer_error l k ss : get_buffer junk (SendTable (map Some l ++ None :: k)) ss = Err "string expected".
Proof.
  cbn [get_buffer]. assert (count_size (map Some l ++ None :: k) = Err "string expected") as ->; [|done].
  induction l as [|s l IH]; cbn [map app count_size]; [done|]. by rewrite IH.
Qed.

Lemma set_heap_back ss h : SocketServer.set_heap (ss_heap ss) (SocketServer.set_heap h ss) = ss.
Proof. by destruct ss. Qed.

(** The block of a socket that is gone is freed. *)
Lemma free_new ss s : let p := new_block ss in
  free_buffer soi_buffer p (zlen s) (SocketServer.set_heap (<[p := s]> (ss_heap ss)) ss) = Some ss.
Proof.
  intros p. destruct (new_block_fresh ss) as [Hp Hno]. fold p in Hp, Hno. unfold free_buffer, free_func, free_block.
  pose proof (zlen_nonneg s). rewrite (proj2 (Z.ltb_ge _ _)) by lia. rewrite (proj2 (Z.eqb_neq _ _)) by lia.
  cbn [ss_heap SocketServer.set_heap]. rewrite lookup_insert_eq. cbn [mbind option_bind].
  rewrite delete_insert_id by done. f_equal. apply set_heap_back.
Qed.

(** C27: What a service sends.  A string, and a table of strings as their concatenation, is
    copied into a new block of exactly its size ("Invalid strings table" cannot occur), and
    [lsend] and [lsendlow] hand it to the socket thread: to a socket that is gone the result
    is false and the block is freed; to a socket that other data waits for, or whose lock is
    not free, the request with the block goes behind those in the pipe; when nothing waits
    and the kernel takes all bytes of a connected TCP socket at once, these bytes are what it
    gets and the block is freed.  A value that is no string is an error before anything is
    allocated. *)
Theorem lsend_correct (busy : bool) (id : Z) (arg : send_arg) (s : list Z) (ss : socket_server) :
  arg_bytes arg s -> zlen s < 2 ^ 31 -> is_s32 id ->
  let p := new_block ss in
  let ss1 := SocketServer.set_heap (<[p := s]> (ss_heap ss)) ss in
  let so := slot ss (HASH_ID id) in
  let gone := negb (s_id so =? id) || is_type (s_type so) SOCKET_TYPE_INVALID in
  ss_heap ss !! p = None /\
  (gone = true ->
     lsend junk K soi_buffer soi_size busy id arg ss = Ok (false, ss) /\ lsendlow junk soi_buffer id arg ss = Ok (false, ss)) /\
  (gone = false ->
     lsendlow junk soi_buffer id arg ss = Ok (true, send_request (request_send id (zlen s) p true) ss1) /\
     (can_direct_write so id && negb busy = false ->
        lsend junk K soi_buffer soi_size busy id arg ss = Ok (true, send_request (request_send id (zlen s) p false) ss1)) /\
     (can_direct_write so id && negb busy = true -> s_protocol so = PROTOCOL_TCP ->
        k_write K (ss_sys ss) (s_fd so) s = IoOk (zlen s) ->
        lsend junk K soi_buffer soi_size busy id arg ss = Ok (true, call (sys_write (s_fd so) s) ss))) /\
  (forall l k, lsend junk K soi_buffer soi_size busy id (SendTable (map Some l ++ None :: k)) ss = Err "string expected").
Proof.
  intros Harg Hmax Hid p ss1 so gone. pose proof (zlen_nonneg s) as Hs. split; [apply new_block_fresh|].
  unfold lsend, lsendlow. rewrite (get_buffer_bytes arg s ss Harg Hmax). fold p ss1. cbn [mbind res_bind].
  rewrite s32_small by done. unfold uboss_socket_send, uboss_socket_send_lowpriority, socket_server_send, socket_server_send_lowpriority.
  assert (slot ss1 (HASH_ID id) = so) as -> by done. fold gone.
  pose proof (free_new ss s) as Hfree. cbv zeta in Hfree. fold p ss1 in Hfree.
  split; [|split].
  - intros ->. rewrite Hfree. cbn [lift mbind option_bind res_bind]. by split.
  - intros ->. split; [done|]. split; [by intros ->|]. intros -> Hp Hw.
    unfold send_object_init. rewrite (proj2 (Z.ltb_ge _ _)) by lia. cbv beta iota zeta.
    unfold load. cbn [ss_heap SocketServer.set_heap]. assert (ss_heap ss1 !! p = Some s) as -> by (cbn; by rewrite lookup_insert_eq).
    cbn [mbind option_bind]. rewrite Z.sub_diag, slice_spec by lia. cbn [mbind option_bind].
    rewrite drop_0, take_ge by (unfold zlen; lia). rewrite Hp. change (PROTOCOL_TCP =? PROTOCOL_TCP) with true. cbv iota.
    change (ss_sys ss1) with (ss_sys ss). rewrite Hw. cbn [mbind option_bind]. rewrite Z.eqb_refl.
    rewrite take_ge by (unfold zlen; lia).
    unfold free_buffer in Hfree. rewrite (proj2 (Z.ltb_ge _ _)) in Hfree by lia.
    assert (free_func soi_buffer false p (call (sys_write (s_fd so) s) ss1) = Some (call (sys_write (s_fd so) s) ss)) as ->.
    { unfold free_func, free_block in *. destruct (p =? 0); [injection Hfree as ->; done|].
      cbn [ss_heap call]. destruct (ss_heap ss1 !! p); [|done]. cbn [mbind option_bind] in *. injection Hfree as Hfree.
      f_equal.
      transitivity (call (sys_write (s_fd so) s) (SocketServer.set_heap (delete p (ss_heap ss1)) ss1)); [done | exact (f_equal _ Hfree)]. }
    cbn [lift mbind option_bind res_bind]. done.
  - intros l k. by rewrite get_buffer_error.
Qed.
End calls.

Lemma lsend_correct_witness :
  lsend 0 demo_kernel (fun _ => 0) (fun _ => 0) true 1 (SendTable [Some [1; 2]; Some [3]]) demo_sockets =
    Ok (true, send_request (request_send 1 3 1 false) (SocketServer.set_heap {[1 := [1; 2; 3]]} demo_sockets)).
Proof.
  destruct (lsend_correct 0 demo_kernel (fun _ => 0) (fun _ => 0) true 1 (SendTable [Some [1; 2]; Some [3]]) [1; 2; 3] demo_sockets)
    as (_ & _ & Hlive & _).
  - exact (bytes_table [[1; 2]; [3]]).
  - vm_compute. reflexivity.
  - vm_compute. split; [discriminate | reflexivity].
  - destruct Hlive as (_ & Hq & _); [vm_compute; reflexivity|]. rewrite Hq by (vm_compute; reflexivity). vm_compute. reflexivity.
Defined.
