(* ===== verification/MysqlAux.v ===== *)
(** lib/mysqlaux/lua-mysqlaux.c: strings as literals of MySQL.

    The userdata that holds the literal is a list of bytes with checked writes; [Ub] is a
    write behind it.  The literal is read back by a lexer of MySQL's string literals: the
    string comes back, and nothing of it is outside the quotes. *)
From Stdlib Require Import String.
From S2P Require Import Prelude Bytes Buffer.

(** The letter behind the backslash for the characters of the [switch]. *)
Definition escape_char (c : Z) : option Z :=
  if Z.land c 0x80 =? 0 then
    if c =? 0 then Some 48 else if c =? 8 then Some 98 else if c =? 10 then Some 110
    else if c =? 13 then Some 114 else if c =? 9 then Some 116 else if c =? 26 then Some 90
    else if c =? 92 then Some 92 else if c =? 39 then Some 39 else if c =? 34 then Some 34
    else None
  else None.

(** [num_escape_sql_str]: an [unsigned int]. *)
Fixpoint num_escape_sql_str (n : Z) (src : list Z) : Z :=
  match src with
  | [] => n
  | c :: src => num_escape_sql_str (match escape_char c with Some _ => u32 (n + 1) | None => n end) src
  end.

(** [escape_sql_str]: [p] is [dst]. *)
Fixpoint escape_sql_str (mem : list Z) (p : Z) (src : list Z) : option (list Z * Z) :=
  match src with
  | [] => Some (mem, p)
  | c :: src =>
      match escape_char c with
      | Some x =>
          mem ← mem.[p := 92]; mem ← mem.[p + 1 := x];
          escape_sql_str mem (p + 2) src
      | None => mem ← mem.[p := c]; escape_sql_str mem (p + 1) src
      end
  end.

Section quote.
(** A byte of fresh memory. *)
Variable junk : Z.

(** [quote_sql_str] of a string. *)
Definition quote_sql_str (src : list Z) : res (list Z) :=
  let len := zlen src in
  if len =? 0 then Ok [39; 39] else
  let escape := num_escape_sql_str 0 src in
  let dlen := 2 + len + escape in
  let mem := replicate (Z.to_nat dlen) junk in
  mem ← lift (mem.[0 := 39]);
  let p := 1 in
  '(mem, p) ← lift (if escape =? 0 then mem ← memcpy mem p src; Some (mem, p + len) else escape_sql_str mem p src);
  mem ← lift (mem.[p := 39]);
  let p := p + 1 in
  if negb (p =? dlen) then Err "quote sql string error" else lift (slice mem 0 p).
End quote.

(** ** Reference *)

Definition escaped (c : Z) : list Z := match escape_char c with Some x => [92; x] | None => [c] end.

(** What MySQL takes the letter behind a backslash for. *)
Definition unescape (x : Z) : Z :=
  if x =? 48 then 0 else if x =? 98 then 8 else if x =? 110 then 10 else if x =? 114 then 13
  else if x =? 116 then 9 else if x =? 90 then 26 else x.

(** The string of the literal that has been opened with [q], and what is behind it; a quote
    that is doubled stands for itself. *)
Fixpoint literal (q : Z) (l : list Z) : option (list Z * list Z) :=
  match l with
  | [] => None
  | c :: l =>
      if c =? 92 then
        match l with
        | [] => None
        | x :: l => '(s, rest) ← literal q l; Some (unescape x :: s, rest)
        end
      else if c =? q then
        match l with
        | d :: l' => if d =? q then '(s, rest) ← literal q l'; Some (q :: s, rest) else Some ([], l)
        | [] => Some ([], [])
        end
      else '(s, rest) ← literal q l; Some (c :: s, rest)
  end.

(** ** Lemmas *)

Lemma escape_char_spec c :
  match escape_char c with
  | Some x => unescape x = c
  | None => is_u8 c -> c <> 92 /\ c <> 39
  end.
Proof.
  unfold escape_char, unescape, is_u8.
  destruct (Z.eqb_spec (Z.land c 0x80) 0) as [Hl|Hl].
  - repeat match goal with |- context [?a =? ?b] => destruct (Z.eqb_spec a b); subst; try done end; lia.
  - intros Hc. split; intros ->; by apply Hl.
Qed.

Lemma num_escape_spec src : forall n, 0 <= n -> n + zlen src < 2 ^ 32 ->
  num_escape_sql_str n src = n + zlen (concat (map escaped src)) - zlen src.
Proof.
  induction src as [|c src IH]; intros n Hn Hmax; cbn [num_escape_sql_str map concat];
    [change (zlen (@nil Z)) with 0; lia|].
  rewrite zlen_cons in *. rewrite zlen_app. pose proof (zlen_nonneg src). unfold escaped at 1.
  destruct (escape_char c).
  - rewrite u32_small by (unfold is_u32; lia). rewrite IH by lia. change (zlen [92; z]) with 2. lia.
  - rewrite IH by lia. change (zlen [c]) with 1. lia.
Qed.

(** The escapes are written behind each other. *)
Lemma escape_sql_spec src : forall mem p, escape_sql_str mem p src =
  (mem ← memcpy mem p (concat (map escaped src)); Some (mem, p + zlen (concat (map escaped src)))).
Proof.
  induction src as [|c src IH]; intros mem p; cbn [escape_sql_str map concat].
  - change (zlen (@nil Z)) with 0. cbn. by rewrite Z.add_0_r.
  - rewrite zlen_app. unfold escaped at 1 3. destruct (escape_char c) as [x|]; cbn [app memcpy].
    + destruct (mem.[p := 92]) as [m1|]; [|done]. cbn [mbind option_bind]. destruct (m1.[p + 1 := x]) as [m2|]; [|done].
      cbn [mbind option_bind]. rewrite IH. change (zlen [92; x]) with 2. replace (p + 1 + 1) with (p + 2) by lia.
      by rewrite Z.add_assoc.
    + destruct (mem.[p := c]) as [m1|]; [|done]. cbn [mbind option_bind]. rewrite IH. change (zlen [c]) with 1.
      by rewrite Z.add_assoc.
Qed.

Lemma no_escapes src : zlen (concat (map escaped src)) = zlen src -> concat (map escaped src) = src.
Proof.
  induction src as [|c src IH]; [done|]. cbn [map concat]. rewrite zlen_app, zlen_cons. unfold escaped at 1 3.
  assert (zlen src <= zlen (concat (map escaped src))) as Hle.
  { clear. induction src as [|c src IH]; [done|]. cbn [map concat]. rewrite zlen_app, zlen_cons.
    unfold escaped at 1. destruct (escape_char c); rewrite !zlen_cons; change (zlen (@nil Z)) with 0; lia. }
  destruct (escape_char c) as [x|]; [change (zlen [92; x]) with 2; lia|]. change (zlen [c]) with 1. intros H.
  cbn [app]. by rewrite IH by lia.
Qed.

Lemma literal_escaped src rest : is_bytes src -> (forall r, rest <> 39 :: r) ->
  literal 39 (concat (map escaped src) ++ 39 :: rest) = Some (src, rest).
Proof.
  intros Hsrc Hrest. induction Hsrc as [|c src Hc _ IH]; cbn [map concat app].
  - cbn [literal]. change (39 =? 92) with false. change (39 =? 39) with true. cbv iota. destruct rest as [|d rest]; [done|].
    destruct (Z.eqb_spec d 39) as [->|]; [by destruct (Hrest rest)|done].
  - unfold escaped at 1. pose proof (escape_char_spec c) as Hspec. destruct (escape_char c) as [x|]; cbn [app literal].
    + change (92 =? 92) with true. cbv iota. rewrite IH. cbn [mbind option_bind]. by rewrite Hspec.
    + destruct (Hspec Hc) as [H1 H2]. rewrite (proj2 (Z.eqb_neq c 92)), (proj2 (Z.eqb_neq c 39)) by done.
      rewrite IH. done.
Qed.

Section quote.
Variable junk : Z.

Lemma quote_spec src : zlen src < 2 ^ 32 -> quote_sql_str junk src = Ok (39 :: concat (map escaped src) ++ [39]).
Proof.
  intros Hmax. unfold quote_sql_str. destruct (Z.eqb_spec (zlen src) 0) as [Hz|Hz].
  { destruct src as [|c src]; [done|]. rewrite zlen_cons in Hz. pose proof (zlen_nonneg src). lia. }
  rewrite num_escape_spec by lia. set (e := concat (map escaped src)). pose proof (zlen_nonneg e). pose proof (zlen_nonneg src).
  replace (2 + zlen src + (0 + zlen e - zlen src)) with (2 + zlen e) by lia.
  replace (Z.to_nat (2 + zlen e)) with (S (length e + 1)) by (unfold zlen; lia). cbn [replicate].
  assert ((junk :: replicate (length e + 1) junk).[0 := 39] = Some (39 :: replicate (length e + 1) junk)) as -> by done.
  cbn [lift mbind res_bind].
  assert ((if 0 + zlen e - zlen src =? 0 then mem ← memcpy (39 :: replicate (length e + 1) junk) 1 src; Some (mem, 1 + zlen src)
    else escape_sql_str (39 :: replicate (length e + 1) junk) 1 src) = Some (39 :: e ++ [junk], 1 + zlen e)) as ->.
  { assert (memcpy (39 :: replicate (length e + 1) junk) 1 e = Some (39 :: e ++ [junk])) as Hcopy.
    { change (39 :: replicate (length e + 1) junk) with ([39] ++ replicate (length e + 1) junk).
      rewrite memcpy_at by (done || (rewrite zlen_replicate; unfold zlen; lia)). unfold put.
      rewrite replicate_add, drop_app_length' by (by rewrite length_replicate). done. }
    destruct (Z.eqb_spec (0 + zlen e - zlen src) 0) as [He|He].
    - assert (e = src) as Hsrc by (apply no_escapes; fold e; lia). rewrite <-Hsrc. by rewrite Hcopy.
    - rewrite escape_sql_spec. fold e. by rewrite Hcopy. }
  cbn [lift mbind res_bind].
  assert ((39 :: e ++ [junk]).[1 + zlen e := 39] = Some (39 :: e ++ [39])) as ->.
  { change (39 :: e ++ [junk]) with ((39 :: e) ++ [junk]). change (39 :: e ++ [39]) with ((39 :: e) ++ [39]).
    replace (1 + zlen e) with (zlen (39 :: e)) by (rewrite zlen_cons; lia).
    pose proof (memcpy_at (39 :: e) [junk] [39] (zlen (39 :: e)) eq_refl ltac:(done)) as Hm. cbn [memcpy put] in Hm.
    destruct (((39 :: e) ++ [junk]).[zlen (39 :: e) := 39]); [|done]. injection Hm as ->. done. }
  cbn [lift mbind res_bind]. rewrite (proj2 (Z.eqb_eq _ _)) by lia. cbn [negb].
  rewrite slice_spec by (rewrite ?zlen_cons, ?zlen_app; change (zlen [39]) with 1; lia).
  cbn [lift]. f_equal. rewrite drop_0. apply take_ge. cbn [length]. rewrite length_app. unfold zlen. cbn [length]. lia.
Qed.

(** C36: A quoted string is one literal.  For every string of less than 2^32 bytes
    [quote_sql_str] writes inside its memory, never reports its internal error, and the lexer
    of MySQL reads the result, whatever follows it but another quote, as exactly that string:
    nothing in the string can end the literal. *)
Theorem quote_sql_str_roundtrip (src rest : list Z) : is_bytes src -> zlen src < 2 ^ 32 -> (forall r, rest <> 39 :: r) ->
  exists q, quote_sql_str junk src = Ok (39 :: q) /\ literal 39 (q ++ rest) = Some (src, rest).
Proof.
  intros Hsrc Hmax Hrest. rewrite quote_spec by done. eexists. split; [done|].
  rewrite <-app_assoc. by apply literal_escaped.
Qed.
End quote.

Lemma quote_sql_str_roundtrip_witness :
  exists q, quote_sql_str 0 [97; 39; 92; 0; 200] = Ok (39 :: q) /\ literal 39 (q ++ [59]) = Some ([97; 39; 92; 0; 200], [59]).
Proof.
  apply (quote_sql_str_roundtrip 0 [97; 39; 92; 0; 200] [59]).
  - repeat constructor; unfold is_u8; lia.
  - vm_compute. reflexivity.
  - discriminate.
Defined.
