(* ===== verification/Multicast.v ===== *)
(** lib/multicast/lua-multicast.c: the packages that all subscribers of a channel share.

    The store is the heap of the process.  A package is packed by the publisher, bound by
    the multicast service to the number of subscribers that get its pointer, and closed by
    each of them, in any order; every function is one step, since the counter is decremented
    atomically.  [Ub] is an access to a block that is gone.  The pointers that travel in
    messages are blocks of their own, which the C code never frees. *)
From Stdlib Require Import String.
From S2P Require Import Prelude Bytes.

Inductive mc_block :=
| MBytes (l : list Z)
| MPack (reference size data : Z)       (* struct mc_package *)
| MPtr (pack : Z).                      (* struct mc_package ** *)

Record store := Store { st_heap : gmap Z mc_block; st_brk : Z }.

Definition alloc (b : mc_block) (st : store) : Z * store :=
  (st_brk st, Store (<[st_brk st := b]> (st_heap st)) (st_brk st + 1)).
Definition set_block (p : Z) (b : mc_block) (st : store) : store := Store (<[p := b]> (st_heap st)) (st_brk st).
Definition free (p : Z) (st : store) : res store :=
  _ ← lift (st_heap st !! p); Ok (Store (delete p (st_heap st)) (st_brk st)).

Definition SIZEOF_POINTER : Z := 8.

(** [struct mc_package *] and [struct mc_package **] at an address. *)
Definition the_pack (p : Z) (st : store) : res (Z * Z * Z) :=
  match st_heap st !! p with Some (MPack r s d) => Ok (r, s, d) | _ => Ub end.
Definition the_ptr (p : Z) (st : store) : res Z :=
  match st_heap st !! p with Some (MPtr k) => Ok k | _ => Ub end.

(** [pack]: the pointer and its size. *)
Definition pack (data size : Z) (st : store) : Z * Z * store :=
  let '(p, st) := alloc (MPack 0 (u32 size) data) st in
  let '(ret, st) := alloc (MPtr p) st in
  (ret, SIZEOF_POINTER, st).

(** [mc_packlocal]. *)
Definition mc_packlocal (data size : Z) (st : store) : res (Z * Z * store) :=
  if negb (size =? u32 size) then Err "Size should be 32bit integer" else Ok (pack data size st).

(** The bytes that [memcpy] reads. *)
Definition load (data size : Z) (st : store) : res (list Z) :=
  match st_heap st !! data with Some (MBytes l) => lift (slice l 0 size) | _ => Ub end.

(** [mc_packremote]. *)
Definition mc_packremote (data size : Z) (st : store) : res (Z * Z * store) :=
  if negb (size =? u32 size) then Err "Size should be 32bit integer" else
  l ← load data size st;
  let '(msg, st) := alloc (MBytes l) st in Ok (pack msg size st).

(** [mc_packstring]. *)
Definition mc_packstring (msg : list Z) (st : store) : res (Z * Z * store) :=
  let size := zlen msg in
  if negb (size =? u32 size) then Err "string is too long" else
  let '(data, st) := alloc (MBytes msg) st in Ok (pack data size st).

(** [mc_unpacklocal]: package, data and size. *)
Definition mc_unpacklocal (ptr sz : Z) (st : store) : res (Z * Z * Z) :=
  if negb (s32 sz =? SIZEOF_POINTER) then Err "Invalid multicast package size %d" else
  p ← the_ptr ptr st; '(_, size, data) ← the_pack p st; Ok (p, data, size).

(** [mc_bindrefer]. *)
Definition mc_bindrefer (ptr ref : Z) (st : store) : res (Z * store) :=
  p ← the_ptr ptr st; '(reference, size, data) ← the_pack p st;
  if negb (reference =? 0) then Err "Can't bind a multicast package more than once" else
  Ok (p, set_block p (MPack (s32 ref) size data) st).

(** [mc_closelocal]: [inr] is the error, after the package was freed. *)
Definition mc_closelocal (p : Z) (st : store) : res ((unit + string) * store) :=
  '(reference, size, data) ← the_pack p st;
  let ref := s32 (reference - 1) in
  let st := set_block p (MPack ref size data) st in
  if ref <=? 0 then
    st ← free data st; st ← free p st;
    Ok (if ref <? 0 then inr "Invalid multicast package reference %d"%string else inl (), st)
  else Ok (inl (), st).

(** [mc_remote]: data and size, for a message to another node. *)
Definition mc_remote (ptr : Z) (st : store) : res (Z * Z * store) :=
  p ← the_ptr ptr st; '(_, size, data) ← the_pack p st;
  st ← free p st; Ok (data, size, st).

(** [mc_nextid]. *)
Definition mc_nextid (id : Z) : Z := u32 (u32 id + 256).

(** ** Publications

    What is in the air: the packages with the number of subscribers that still have to
    close them (none: not yet bound) and the published bytes. *)
Abbreviation air := (gmap Z (Z * list Z)).

(** One step of any service. *)
Inductive mc_step : store * air -> store * air -> Prop :=
  (* a publisher packs a block that its service has made *)
| mc_local l data st st1 ret sz st' P : alloc (MBytes l) st = (data, st1) -> mc_packlocal data (zlen l) st1 = Ok (ret, sz, st') ->
    mc_step (st, P) (st', <[st_brk st1 := (0, l)]> P)
| mc_string l ret sz st st' P : mc_packstring l st = Ok (ret, sz, st') ->
    mc_step (st, P) (st', <[st_brk st + 1 := (0, l)]> P)
  (* a message of another node is packed *)
| mc_from_remote data size l ret sz st st' P : load data size st = Ok l -> mc_packremote data size st = Ok (ret, sz, st') ->
    mc_step (st, P) (st', <[st_brk st + 1 := (0, l)]> P)
  (* the multicast service sends the pointer to [n] subscribers *)
| mc_bind ptr p n l st st' P : the_ptr ptr st = Ok p -> P !! p = Some (0, l) -> 0 < n < 2 ^ 31 ->
    mc_bindrefer ptr n st = Ok (p, st') -> mc_step (st, P) (st', <[p := (n, l)]> P)
  (* the publication goes to another node instead *)
| mc_to_remote ptr p l data size st st' P : the_ptr ptr st = Ok p -> P !! p = Some (0, l) ->
    mc_remote ptr st = Ok (data, size, st') -> mc_step (st, P) (st', delete p P)
  (* a subscriber closes the package *)
| mc_close p k l r st st' P : P !! p = Some (k, l) -> 0 < k -> mc_closelocal p st = Ok (r, st') ->
    mc_step (st, P) (st', if decide (k = 1) then delete p P else <[p := (k - 1, l)]> P)
  (* any other block is made or freed *)
| mc_alloc l p st st' P : alloc (MBytes l) st = (p, st') -> mc_step (st, P) (st', P)
| mc_free d l st st' P : st_heap st !! d = Some (MBytes l) ->
    (forall p r s, st_heap st !! p <> Some (MPack r s d)) -> free d st = Ok st' -> mc_step (st, P) (st', P).

(** ** Invariant *)

Record mc_inv (st : store) (P : air) : Prop := {
  mi_fresh : forall p, st_brk st <= p -> st_heap st !! p = None;
  mi_air : forall p k l, P !! p = Some (k, l) -> 0 <= k < 2 ^ 31 /\ zlen l < 2 ^ 32 /\
    exists d, st_heap st !! p = Some (MPack k (zlen l) d) /\ st_heap st !! d = Some (MBytes l);
  mi_pack : forall p r s d, st_heap st !! p = Some (MPack r s d) -> is_Some (P !! p);
  mi_data : forall p q r s r' s' d, st_heap st !! p = Some (MPack r s d) -> st_heap st !! q = Some (MPack r' s' d) -> p = q
}.

Lemma alloc_other b st p : p <> st_brk st -> st_heap (alloc b st).2 !! p = st_heap st !! p.
Proof. intros Hp. cbn. by rewrite lookup_insert_ne. Qed.

(** A block that is not a package. *)
Lemma inv_alloc b st P : mc_inv st P -> (forall r s d, b <> MPack r s d) -> mc_inv (alloc b st).2 P.
Proof.
  intros [H1 H2 H3 H4] Hb. split; cbn [alloc snd st_heap st_brk].
  - intros p Hp. rewrite lookup_insert_ne by lia. apply H1. lia.
  - intros p k l Hp. destruct (H2 p k l Hp) as (Hk & Hl & d & Hpk & Hd). split; [done|]. split; [done|]. exists d.
    assert (forall x y, st_heap st !! x = Some y -> <[st_brk st := b]> (st_heap st) !! x = Some y) as Hx
      by (intros x y Hx; rewrite lookup_insert_ne; [done | intros <-; by rewrite H1 in Hx]).
    split; by apply Hx.
  - intros p r s d Hp. apply lookup_insert_Some in Hp as [[_ ->]|[_ Hp]]; [by destruct (Hb r s d) | by eapply H3].
  - intros p q r s r' s' d Hp Hq.
    apply lookup_insert_Some in Hp as [[_ ->]|[_ Hp]]; [by destruct (Hb r s d)|].
    apply lookup_insert_Some in Hq as [[_ ->]|[_ Hq]]; [by destruct (Hb r' s' d)|]. by eapply H4.
Qed.

(** A new package, of data that no other package has. *)
Lemma inv_pack data l st P : mc_inv st P -> st_heap st !! data = Some (MBytes l) -> zlen l < 2 ^ 32 ->
  (forall p r s, st_heap st !! p <> Some (MPack r s data)) ->
  mc_inv (pack data (zlen l) st).2 (<[st_brk st := (0, l)]> P).
Proof.
  intros Hinv Hd Hl Hown. pose proof (zlen_nonneg l). unfold pack. cbn [alloc].
  pose proof (inv_alloc (MPtr (st_brk st)) (Store (<[st_brk st := MPack 0 (u32 (zlen l)) data]> (st_heap st)) (st_brk st + 1))
    (<[st_brk st := (0, l)]> P)) as Hptr. cbn [alloc snd] in *. apply Hptr; [|done]. clear Hptr.
  destruct Hinv as [H1 H2 H3 H4]. rewrite u32_small by (unfold is_u32; lia).
  assert (data <> st_brk st) as Hne by (intros ->; by rewrite H1 in Hd).
  split; cbn [st_heap st_brk].
  - intros p Hp. rewrite lookup_insert_ne by lia. apply H1. lia.
  - intros p k l' Hp. apply lookup_insert_Some in Hp as [[<- [= <- <-]]|[Hpne Hp]].
    + split; [lia|]. split; [done|]. exists data. rewrite lookup_insert_eq, lookup_insert_ne by done. done.
    + destruct (H2 p k l' Hp) as (Hk & Hl' & d & Hpk & Hd'). split; [done|]. split; [done|]. exists d.
      assert (d <> st_brk st) by (intros ->; by rewrite H1 in Hd'). by rewrite !lookup_insert_ne by done.
  - intros p r s d Hp. apply lookup_insert_Some in Hp as [[<- _]|[Hne' Hp]]; [by rewrite lookup_insert_eq; eexists|].
    rewrite lookup_insert_ne by done. by eapply H3.
  - intros p q r s r' s' d Hp Hq.
    apply lookup_insert_Some in Hp as [[<- Ep]|[_ Hp]]; apply lookup_insert_Some in Hq as [[<- Eq]|[_ Hq]]; simplify_eq.
    + done.
    + by destruct (Hown q r' s').
    + by destruct (Hown p r s).
    + by eapply H4.
Qed.

(** The counter of a package changes. *)
Lemma inv_set p k k' l d st P : mc_inv st P -> P !! p = Some (k, l) -> st_heap st !! p = Some (MPack k (zlen l) d) ->
  0 <= k' < 2 ^ 31 -> mc_inv (set_block p (MPack k' (zlen l) d) st) (<[p := (k', l)]> P).
Proof.
  intros [H1 H2 H3 H4] Hp Hpk Hk. destruct (H2 p k l Hp) as (_ & Hl & d0 & Hpk0 & Hd0).
  assert (d0 = d) as -> by congruence.
  assert (forall q, q <> p -> <[p := MPack k' (zlen l) d]> (st_heap st) !! q = st_heap st !! q) as Hne
    by (intros q Hq; by rewrite lookup_insert_ne).
  assert (d <> p) as Hdp by congruence. split; cbn [set_block st_heap st_brk].
  - intros q Hq. rewrite Hne by (intros ->; by rewrite H1 in Hpk). by apply H1.
  - intros q kq lq Hq. apply lookup_insert_Some in Hq as [[<- [= <- <-]]|[Hqp Hq]].
    + split; [done|]. split; [done|]. exists d. by rewrite lookup_insert_eq, Hne.
    + destruct (H2 q kq lq Hq) as (Hkq & Hlq & dq & Hqk & Hdq). split; [done|]. split; [done|]. exists dq.
      rewrite !Hne; [done | congruence | done].
  - intros q r s dq Hq. destruct (decide (q = p)) as [->|Hqp]; [rewrite lookup_insert_eq; by eexists|].
    rewrite Hne in Hq by done. rewrite lookup_insert_ne by done. by eapply H3.
  - intros q q' r s r' s' dq Hq Hq'.
    assert (forall x r s dx, <[p := MPack k' (zlen l) d]> (st_heap st) !! x = Some (MPack r s dx) ->
      exists r0 s0, st_heap st !! x = Some (MPack r0 s0 dx)) as Hback.
    { intros x r0 s0 dx Hx. destruct (decide (x = p)) as [->|Hxp].
      - rewrite lookup_insert_eq in Hx. injection Hx as _ _ <-. by eauto.
      - rewrite Hne in Hx by done. by eauto. }
    destruct (Hback _ _ _ _ Hq) as (? & ? & Hq1). destruct (Hback _ _ _ _ Hq') as (? & ? & Hq2). by eapply H4.
Qed.

(** Blocks go that no package needs. *)
Lemma inv_delete h brk P P' st : mc_inv st P -> st_brk st = brk ->
  (forall p b, h !! p = Some b -> st_heap st !! p = Some b) ->
  (forall p kl, P' !! p = Some kl -> P !! p = Some kl /\ h !! p = st_heap st !! p /\
     forall r s d, st_heap st !! p = Some (MPack r s d) -> h !! d = st_heap st !! d) ->
  (forall p r s d, h !! p = Some (MPack r s d) -> is_Some (P' !! p)) ->
  mc_inv (Store h brk) P'.
Proof.
  intros [H1 H2 H3 H4] <- Hsub HP Hpack. split; cbn [st_heap st_brk].
  - intros p Hp. destruct (h !! p) as [b|] eqn:E; [|done]. apply Hsub in E. by rewrite H1 in E.
  - intros p k l Hp. destruct (HP p _ Hp) as (Hp0 & Hh & Hd). destruct (H2 p k l Hp0) as (Hk & Hl & d & Hpk & Hdl).
    split; [done|]. split; [done|]. exists d. rewrite Hh, (Hd _ _ _ Hpk). done.
  - done.
  - intros p q r s r' s' d Hp Hq. eapply H4; by apply Hsub.
Qed.

(** [mc_closelocal] by a subscriber. *)
Lemma close_spec st P p k l : mc_inv st P -> P !! p = Some (k, l) -> 0 < k ->
  exists st' d, mc_closelocal p st = Ok (inl (), st') /\ st_heap st !! p = Some (MPack k (zlen l) d) /\
    mc_inv st' (if decide (k = 1) then delete p P else <[p := (k - 1, l)]> P) /\
    (k = 1 -> st_heap st' !! p = None /\ st_heap st' !! d = None).
Proof.
  intros Hinv Hp Hk. pose proof Hinv as [H1 H2 H3 H4]. destruct (H2 p k l Hp) as (Hk' & Hl & d & Hpk & Hd).
  assert (d <> p) as Hdp by congruence.
  unfold mc_closelocal, the_pack. rewrite Hpk. cbn [mbind res_bind]. rewrite s32_small by (unfold is_s32; lia).
  destruct (Z.leb_spec (k - 1) 0) as [Hle|Hle].
  - assert (k = 1) as -> by lia. unfold free, set_block. cbn [st_heap st_brk]. rewrite lookup_insert_ne by done.
    rewrite Hd. cbn [lift mbind res_bind st_heap st_brk]. rewrite lookup_delete_ne by done. rewrite lookup_insert_eq.
    cbn [lift mbind res_bind]. change (1 - 1 <? 0) with false. eexists _, d. split; [done|]. split; [done|].
    rewrite decide_True by done. split.
    + eapply (inv_delete _ _ P); [done | done | | |].
      * intros q b Hq. apply lookup_delete_Some in Hq as [Hqp Hq]. apply lookup_delete_Some in Hq as [_ Hq].
        by rewrite lookup_insert_ne in Hq.
      * intros q kl Hq. apply lookup_delete_Some in Hq as [Hqp Hq]. split; [done|]. destruct kl as [kq lq].
        destruct (H2 q kq lq Hq) as (_ & _ & dq & Hqk & Hdq).
        assert (forall x, x <> p -> x <> d -> delete p (delete d (<[p := MPack (1 - 1) (zlen l) d]> (st_heap st))) !! x = st_heap st !! x) as Hx
          by (intros x Hxp Hxd; by rewrite !lookup_delete_ne, lookup_insert_ne).
        split; [apply Hx; congruence|]. intros r s d' Hq'. assert (d' = dq) as -> by congruence. apply Hx; [congruence|].
        intros ->. by destruct Hqp; eapply H4.
      * intros q r s dq Hq. apply lookup_delete_Some in Hq as [Hqp Hq]. apply lookup_delete_Some in Hq as [_ Hq].
        rewrite lookup_insert_ne in Hq by done. rewrite lookup_delete_ne by done. by eapply H3.
    + intros _. cbn [st_heap]. split; [by rewrite lookup_delete_eq|]. rewrite lookup_delete_ne by done. by rewrite lookup_delete_eq.
  - eexists _, d. split; [done|]. split; [done|]. rewrite decide_False by lia. split; [|lia].
    apply (inv_set p k); [done | done | done | lia].
Qed.

Lemma bind_spec st P ptr p l n : mc_inv st P -> the_ptr ptr st = Ok p -> P !! p = Some (0, l) -> 0 < n < 2 ^ 31 ->
  exists st', mc_bindrefer ptr n st = Ok (p, st') /\ mc_inv st' (<[p := (n, l)]> P).
Proof.
  intros Hinv Hptr Hp Hn. destruct (mi_air _ _ Hinv p 0 l Hp) as (_ & Hl & d & Hpk & Hd).
  unfold mc_bindrefer, the_pack. rewrite Hptr. cbn [mbind res_bind]. rewrite Hpk. cbn [mbind res_bind].
  change (0 =? 0) with true. cbn [negb]. rewrite s32_small by (unfold is_s32; lia). eexists. split; [done|].
  apply (inv_set p 0); [done | done | done | lia].
Qed.

(** [mc_remote]: the data outlives the package. *)
Lemma remote_spec st P ptr p l : mc_inv st P -> the_ptr ptr st = Ok p -> P !! p = Some (0, l) ->
  exists d st', mc_remote ptr st = Ok (d, zlen l, st') /\ st_heap st' !! d = Some (MBytes l) /\ mc_inv st' (delete p P).
Proof.
  intros Hinv Hptr Hp. pose proof Hinv as [H1 H2 H3 H4]. destruct (H2 p 0 l Hp) as (_ & Hl & d & Hpk & Hd).
  assert (d <> p) as Hdp by congruence.
  unfold mc_remote, the_pack, free. rewrite Hptr. cbn [mbind res_bind]. rewrite Hpk. cbn [lift mbind res_bind].
  do 2 eexists. split; [done|]. cbn [st_heap]. split; [by rewrite lookup_delete_ne|].
  eapply (inv_delete _ _ P); [done | done | | |].
  - intros q b Hq. by apply lookup_delete_Some in Hq as [_ Hq].
  - intros q [kq lq] Hq. apply lookup_delete_Some in Hq as [Hqp Hq]. split; [done|]. split; [by rewrite lookup_delete_ne|].
    intros r s d' Hq'. destruct (H2 q kq lq Hq) as (_ & _ & dq & Hqk & Hdq). assert (d' = dq) as -> by congruence.
    rewrite lookup_delete_ne by congruence. done.
  - intros q r s dq Hq. apply lookup_delete_Some in Hq as [Hqp Hq]. rewrite lookup_delete_ne by done. by eapply H3.
Qed.

Lemma string_size (l : list Z) : negb (zlen l =? u32 (zlen l)) = false -> zlen l < 2 ^ 32.
Proof. intros H%negb_false_iff%Z.eqb_eq. pose proof (u32_bound (zlen l)) as Hb. unfold is_u32 in Hb. lia. Qed.

(** Data that has just been made is packed. *)
Lemma inv_new (l : list Z) st P : mc_inv st P -> zlen l < 2 ^ 32 ->
  mc_inv (pack (st_brk st) (zlen l) (alloc (MBytes l) st).2).2 (<[st_brk st + 1 := (0, l)]> P).
Proof.
  intros Hinv Hl. apply (inv_pack (st_brk st) l (alloc (MBytes l) st).2); [by apply inv_alloc | | done|].
  - cbn. by rewrite lookup_insert_eq.
  - intros p r s Hp. cbn in Hp. apply lookup_insert_Some in Hp as [[_ ?]|[Hne Hp]]; [done|].
    destruct (mi_pack _ _ Hinv _ _ _ _ Hp) as [[k l'] HP]. destruct (mi_air _ _ Hinv _ _ _ HP) as (_ & _ & d & Hp' & Hd).
    rewrite Hp in Hp'. injection Hp' as _ _ <-. rewrite (mi_fresh _ _ Hinv) in Hd; [done | lia].
Qed.

Lemma load_exact data size st l : load data size st = Ok l -> zlen l = size.
Proof.
  unfold load. destruct (st_heap st !! data) as [[l0| |]|]; try done. destruct (slice l0 0 size) as [x|] eqn:Hs; [|done].
  intros [= <-]. unfold slice in Hs. apply bind_Some in Hs as ([] & Hc & Hs).
  unfold cassert in Hc. destruct ((0 <=? 0) && (0 <=? size) && (0 + size <=? zlen l0)) eqn:E; [|done].
  injection Hs as <-. unfold zlen in *. rewrite length_take, length_drop. lia.
Qed.

Lemma mc_step_inv st P st' P' : mc_step (st, P) (st', P') -> mc_inv st P -> mc_inv st' P'.
Proof.
  intros Hstep Hinv. inversion Hstep; subst; clear Hstep.
  - match goal with H : alloc _ _ = _ |- _ => injection H as <- <- end.
    unfold mc_packlocal in *. destruct (negb (zlen l =? u32 (zlen l))) eqn:E; [done|].
    match goal with H : Ok _ = Ok _ |- _ => injection H as _ _ <- end. by apply inv_new, string_size.
  - unfold mc_packstring in *. destruct (negb (zlen l =? u32 (zlen l))) eqn:E; [done|]. cbn [alloc] in *.
    match goal with H : Ok _ = Ok _ |- _ => injection H as _ _ <- end. by apply inv_new, string_size.
  - unfold mc_packremote in *. match goal with H : load _ _ _ = _ |- _ => rewrite H in *; apply load_exact in H as <- end.
    destruct (negb (zlen l =? u32 (zlen l))) eqn:E; [done|]. cbn [mbind res_bind alloc] in *.
    match goal with H : Ok _ = Ok _ |- _ => injection H as _ _ <- end. by apply inv_new, string_size.
  - edestruct bind_spec as (st2 & Hb & Hok); [exact Hinv | done | done | done |]. congruence.
  - edestruct remote_spec as (d & st2 & Hb & _ & Hok); [exact Hinv | done | done |]. congruence.
  - edestruct close_spec as (st2 & d & Hb & _ & Hok & _); [exact Hinv | done | done |]. congruence.
  - match goal with H : alloc _ _ = _ |- _ => injection H as _ <- end. by apply (inv_alloc (MBytes l)).
  - match goal with H : free _ _ = _ |- _ => unfold free in H; rename H into Hf end.
    match goal with H : st_heap st !! d = _ |- _ => rewrite H in Hf end. cbn [lift mbind res_bind] in Hf. injection Hf as <-.
    eapply (inv_delete _ _ P'); [done | done | | |].
    + intros q b Hq. by apply lookup_delete_Some in Hq as [_ Hq].
    + intros q [kq lq] Hq. split; [done|]. destruct (mi_air _ _ Hinv q kq lq Hq) as (_ & _ & dq & Hqk & Hdq).
      split; [rewrite lookup_delete_ne; [done | congruence]|]. intros r s d' Hq'. rewrite lookup_delete_ne; [done|].
      intros ->. naive_solver.
    + intros q r s dq Hq. apply lookup_delete_Some in Hq as [_ Hq]. by eapply mi_pack.
Qed.

Lemma mc_reachable_inv x : rtc mc_step (Store ∅ 1, ∅) x -> mc_inv x.1 x.2.
Proof.
  intros Hr. assert (mc_inv (Store ∅ 1, ∅ : air).1 (Store ∅ 1, ∅ : air).2) as H0 by (split; cbn; intros; by simplify_map_eq).
  remember (Store ∅ 1, ∅ : air) as x0. clear Heqx0. induction Hr as [x|[st P] [st' P'] z Hs _ IH]; [done|].
  apply IH. by eapply mc_step_inv.
Qed.

(** ** The pointers that travel are never freed *)

Lemma ptr_alloc b st q p : (forall x, st_brk st <= x -> st_heap st !! x = None) -> st_heap st !! q = Some (MPtr p) ->
  st_heap (alloc b st).2 !! q = Some (MPtr p).
Proof. intros Hf Hq. rewrite alloc_other; [done|]. intros ->. by rewrite Hf in Hq. Qed.

Lemma ptr_pack data size st q p : (forall x, st_brk st <= x -> st_heap st !! x = None) -> st_heap st !! q = Some (MPtr p) ->
  st_heap (pack data size st).2 !! q = Some (MPtr p).
Proof.
  intros Hf Hq. assert (q < st_brk st) by (destruct (Z.lt_ge_cases q (st_brk st)); [done | by rewrite Hf in Hq]).
  unfold pack. cbn. by rewrite !lookup_insert_ne by lia.
Qed.

Lemma ptr_free d st st' q p : free d st = Ok st' -> d <> q -> st_heap st !! q = Some (MPtr p) -> st_heap st' !! q = Some (MPtr p).
Proof.
  unfold free. intros Hf Hd Hq. destruct (st_heap st !! d); [|done]. cbn [lift mbind res_bind] in Hf. injection Hf as <-.
  cbn [st_heap]. by rewrite lookup_delete_ne.
Qed.

Lemma step_ptr st P st' P' q p : mc_step (st, P) (st', P') -> mc_inv st P -> st_heap st !! q = Some (MPtr p) ->
  st_heap st' !! q = Some (MPtr p).
Proof.
  intros Hstep Hinv Hq. pose proof (mi_fresh _ _ Hinv) as Hfr.
  assert (forall l, forall x, st_brk (alloc (MBytes l) st).2 <= x -> st_heap (alloc (MBytes l) st).2 !! x = None) as Hfr1.
  { intros l x Hx. cbn in Hx |- *. rewrite lookup_insert_ne by lia. apply Hfr. lia. }
  inversion Hstep; subst; clear Hstep.
  - match goal with H : mc_packlocal _ _ _ = _ |- _ => unfold mc_packlocal in H; destruct (negb _); [done|]; injection H as _ _ <- end.
    match goal with H : alloc _ _ = _ |- _ => injection H as <- <- end.
    pose proof (ptr_pack (st_brk st) (zlen l) (alloc (MBytes l) st).2 q p (Hfr1 l) (ptr_alloc _ _ _ _ Hfr Hq)) as Hk.
    exact Hk.
  - match goal with H : mc_packstring _ _ = _ |- _ => unfold mc_packstring in H; destruct (negb _); [done|]; cbn [alloc] in H; injection H as _ _ <- end.
    pose proof (ptr_pack (st_brk st) (zlen l) (alloc (MBytes l) st).2 q p (Hfr1 l) (ptr_alloc _ _ _ _ Hfr Hq)) as Hk.
    exact Hk.
  - match goal with H : mc_packremote _ _ _ = _ |- _ => unfold mc_packremote in H; destruct (negb _); [done|]; rename H into Hr end.
    match goal with H : load _ _ _ = _ |- _ => rewrite H in Hr end. cbn [mbind res_bind alloc] in Hr. injection Hr as _ _ <-.
    pose proof (ptr_pack (st_brk st) size (alloc (MBytes l) st).2 q p (Hfr1 l) (ptr_alloc _ _ _ _ Hfr Hq)) as Hk.
    exact Hk.
  - destruct (mi_air _ _ Hinv p0 0 l ltac:(done)) as (_ & _ & d & Hpk & _).
    match goal with H : mc_bindrefer _ _ _ = _ |- _ => unfold mc_bindrefer, the_pack in H; rename H into Hr end.
    match goal with H : the_ptr _ _ = _ |- _ => rewrite H in Hr end. cbn [mbind res_bind] in Hr. rewrite Hpk in Hr.
    cbn [mbind res_bind] in Hr. injection Hr as <-. cbn [set_block st_heap]. rewrite lookup_insert_ne; [done | congruence].
  - destruct (mi_air _ _ Hinv p0 0 l ltac:(done)) as (_ & _ & d & Hpk & _).
    match goal with H : mc_remote _ _ = _ |- _ => unfold mc_remote, the_pack in H; rename H into Hr end.
    match goal with H : the_ptr _ _ = _ |- _ => rewrite H in Hr end. cbn [mbind res_bind] in Hr. rewrite Hpk in Hr.
    cbn [mbind res_bind] in Hr. destruct (free p0 st) as [st2| |] eqn:Hf; [|done..]. cbn [mbind res_bind] in Hr. injection Hr as _ _ <-.
    eapply ptr_free; [exact Hf | congruence | done].
  - edestruct close_spec as (st2 & d & Hb & Hpk & _); [exact Hinv | done | done |].
    match goal with H : mc_closelocal _ _ = Ok (_, st') |- _ => assert (st2 = st') as -> by congruence; clear H end.
    destruct (mi_air _ _ Hinv p0 k l ltac:(done)) as (_ & _ & d0 & Hpk0 & Hd). assert (d0 = d) as -> by congruence.
    match goal with H : mc_closelocal _ _ = _ |- _ => unfold mc_closelocal, the_pack in H; rename H into Hr end.
    rewrite Hpk in Hr. cbn [mbind res_bind] in Hr.
    assert (st_heap (set_block p0 (MPack (s32 (k - 1)) (zlen l) d) st) !! q = Some (MPtr p)) as Hq1
      by (cbn [set_block st_heap]; rewrite lookup_insert_ne; [done | congruence]).
    destruct (s32 (k - 1) <=? 0); [|by assert (set_block p0 (MPack (s32 (k - 1)) (zlen l) d) st = st') as <- by congruence].
    destruct (free d _) as [st3| |] eqn:Hf1; [|done..]. cbn [mbind res_bind] in Hr.
    destruct (free p0 st3) as [st4| |] eqn:Hf2; [|done..]. cbn [mbind res_bind] in Hr.
    assert (st4 = st') as <- by congruence.
    eapply ptr_free; [exact Hf2 | congruence |]. eapply ptr_free; [exact Hf1 | congruence | done].
  - match goal with H : alloc _ _ = _ |- _ => injection H as _ <- end. by apply (ptr_alloc (MBytes l)).
  - eapply ptr_free; [done | congruence | done].
Qed.

Lemma steps_ptr x y q p : rtc mc_step x y -> mc_inv x.1 x.2 -> st_heap x.1 !! q = Some (MPtr p) -> st_heap y.1 !! q = Some (MPtr p).
Proof.
  intros Hr. induction Hr as [x|[st P] [st' P'] z Hs _ IH]; intros Hinv Hq; [done|]. cbn [fst snd] in *.
  apply IH; [by eapply mc_step_inv | by eapply step_ptr].
Qed.

(** C16: A publication is shared safely.  Whatever publications, subscribers and services do,
    in every order: a package that is in the air exists, its data is what was published, and
    unpacking its pointer gives just that; it can be bound once, and a second time is an
    error that changes nothing; every subscriber's close succeeds, the last one and no other
    frees the data and the package; and no package is on the heap that is not in the air.
    The block with the pointer that travels, one for every publication, is never freed. *)
Theorem multicast_shared (st : store) (P : air) : rtc mc_step (Store ∅ 1, ∅) (st, P) ->
  (forall p, (exists r s d, st_heap st !! p = Some (MPack r s d)) <-> is_Some (P !! p)) /\
  (forall q p st' P', st_heap st !! q = Some (MPtr p) -> rtc mc_step (st, P) (st', P') -> st_heap st' !! q = Some (MPtr p)) /\
  forall p k l, P !! p = Some (k, l) ->
    exists d, st_heap st !! d = Some (MBytes l) /\
      (forall ptr, the_ptr ptr st = Ok p ->
         mc_unpacklocal ptr SIZEOF_POINTER st = Ok (p, d, zlen l) /\
         (forall n, 0 < k -> mc_bindrefer ptr n st = Err "Can't bind a multicast package more than once") /\
         (forall n, k = 0 -> 0 < n < 2 ^ 31 -> exists st', mc_bindrefer ptr n st = Ok (p, st') /\ mc_step (st, P) (st', <[p := (n, l)]> P))) /\
      (0 < k -> exists st', mc_closelocal p st = Ok (inl (), st') /\
         (k = 1 -> st_heap st' !! p = None /\ st_heap st' !! d = None) /\
         (1 < k -> st_heap st' !! p = Some (MPack (k - 1) (zlen l) d) /\ st_heap st' !! d = Some (MBytes l))).
Proof.
  intros Hr. pose proof (mc_reachable_inv _ Hr) as Hinv. cbn [fst snd] in Hinv. split.
  { intros p. split; [intros (r & s & d & Hp); by eapply mi_pack|].
    intros [[k l] Hp]. destruct (mi_air _ _ Hinv p k l Hp) as (_ & _ & d & Hpk & _). by eauto. }
  split; [intros q p st' P' Hq Hr'; by apply (steps_ptr _ _ _ _ Hr')|]. intros p k l Hp. destruct (mi_air _ _ Hinv p k l Hp) as (Hk & Hl & d & Hpk & Hd). exists d. split; [done|]. split.
  - intros ptr Hptr. split; [|split].
    + unfold mc_unpacklocal. change (negb (s32 SIZEOF_POINTER =? SIZEOF_POINTER)) with false. rewrite Hptr.
      cbn [mbind res_bind]. unfold the_pack. rewrite Hpk. done.
    + intros n Hk0. unfold mc_bindrefer, the_pack. rewrite Hptr. cbn [mbind res_bind]. rewrite Hpk. cbn [mbind res_bind].
      by rewrite (proj2 (Z.eqb_neq k 0)) by lia.
    + intros n -> Hn. destruct (bind_spec st P ptr p l n Hinv Hptr Hp Hn) as (st' & Hb & _). exists st'. split; [done|].
      by eapply mc_bind.
  - intros Hk0. destruct (close_spec st P p k l Hinv Hp Hk0) as (st' & d' & Hc & Hpk' & Hinv' & Hgone).
    assert (d' = d) as -> by congruence. exists st'. split; [done|]. split; [done|]. intros Hk1.
    rewrite decide_False in Hinv' by lia. destruct (mi_air _ _ Hinv' p (k - 1) l) as (_ & _ & d2 & Hp2 & Hd2);
      [by rewrite lookup_insert_eq|].
    assert (d2 = d) as ->; [|done]. unfold mc_closelocal, the_pack in Hc. rewrite Hpk in Hc. cbn [mbind res_bind] in Hc.
    rewrite s32_small, (proj2 (Z.leb_gt _ _)) in Hc by (unfold is_s32; lia). injection Hc as <-.
    cbn [set_block st_heap] in Hp2. rewrite lookup_insert_eq in Hp2. by injection Hp2 as <-.
Qed.

(** ** Witness *)

(** A string of two bytes, published to two subscribers. *)
Definition demo_publication : res (Z * store) :=
  '(ret, _, st) ← mc_packstring [7; 8] (Store ∅ 1); mc_bindrefer ret 2 st.

Lemma demo_publication_reachable p st : demo_publication = Ok (p, st) ->
  rtc mc_step (Store ∅ 1, ∅) (st, <[2 := (2, [7; 8])]> (<[2 := (0, [7; 8])]> ∅)) /\ p = 2.
Proof.
  intros H. unfold demo_publication in H. destruct (mc_packstring [7; 8] (Store ∅ 1)) as [[[ret sz] st1]| |] eqn:E; [|done|done].
  cbn [mbind res_bind] in H. assert (p = 2) as ->.
  { vm_compute in E. injection E as <- <- <-. vm_compute in H. by injection H as <- _. }
  split; [|done]. eapply rtc_l; [by apply (mc_string [7; 8] ret sz (Store ∅ 1) st1)|].
  eapply rtc_l; [|apply rtc_refl]. apply (mc_bind ret 2 2 [7; 8] st1 st); [|by rewrite lookup_insert_eq|done|done].
  vm_compute in E. by injection E as <- <- <-.
Qed.

Lemma multicast_shared_witness :
  exists st st', demo_publication = Ok (2, st) /\ mc_closelocal 2 st = Ok (inl (), st') /\ st_heap st' !! 2 = Some (MPack 1 2 1).
Proof.
  destruct demo_publication as [[p st]| |] eqn:E; [|vm_compute in E; discriminate E|vm_compute in E; discriminate E].
  destruct (demo_publication_reachable p st E) as [Hr ->].
  destruct (multicast_shared st _ Hr) as (_ & _ & Hp).
  destruct (Hp 2 2 [7; 8]) as (d & Hd & _ & Hclose); [by rewrite lookup_insert_eq|].
  destruct (Hclose ltac:(lia)) as (st' & Hc & _ & Hmore). destruct (Hmore ltac:(lia)) as [Hpk _].
  exists st, st'. split; [reflexivity|]. split; [exact Hc|]. rewrite Hpk.
  vm_compute in E. injection E as <-. vm_compute in Hc. injection Hc as <-. vm_compute in Hpk.
  injection Hpk as <-. reflexivity.
Defined.
